(* ===== verification/_CoqProject ===== *)
-Q . S2P
Prelude.v
GoStd.v
Api.v
Decode.v
Jobs.v
RunLog.v
SearchIndex.v
LiveRuns.v
Codec.v
Aad.v
Seal.v
Cache.v
Quota.v
Gate.v
Chat.v
Timeline.v
Stream.v
FoldReplay.v
Questions.v
Reseal.v
Prompt.v
Tools.v
Results.v
Controlplane.v
Grants.v
Rows.v
Keys.v
Profiles.v
ProfileRows.v
Importer.v
Exports.v
Archives.v
Backup.v
CloudImport.v
Agent.v
Loop.v
Commit.v
Indexing.v
Indexed.v
Rebuild.v
Searches.v
