(* ===== verification/Prelude.v ===== *)
(** * The confidential chat harness: a verification library

    The harness is a Go service inside an enclave.  Clients send it chats,
    which it answers with language models, tools and searches; it keeps each
    user's chats, profile and projects sealed under a key only the user has,
    in a control plane that sees ciphertext alone.  This library models the
    parts of it whose correctness is not plain from their text, each
    translated from the Go source by function, and proves what they promise.

    ** The parts, and the files that model them

    Source paths are under src/internal.

    - _Background jobs_ (Jobs.v; jobs/jobs.go): one job per owner, joined,
      cancelled and forgotten.  State: [World], the runner's map and the jobs
      by address; every region between locks is a [step].
    - _A run and those who follow it._  LiveRuns.v (engine live.go, queue.go,
      accept.go, start.go, finish.go, shutdown.go) is the registry of the
      chats' running replies and the turns queued behind them.  Timeline.v
      and Chat.v (domain timeline.go, events.go, thread.go) assemble a reply
      from the events of its run.  Stream.v (engine/stream.go) holds back and
      frames the events; RunLog.v (engine runlog.go, follow.go) keeps the
      frames for clients that follow the run, folds them past a budget and
      wipes them; FoldReplay.v says what a client that attaches late is
      told of a run, over the fold of RunLog.v and the stream of Stream.v.
      Questions.v (domain questions.go, widgets.go) answers the questions a
      widget asks.
    - _The agent._  Prompt.v (engine context.go, compaction.go, quirks.go)
      builds the prompt of a turn and compacts the chat when it would not
      fit.  Agent.v (engine/agent.go) reads one turn of the model from its
      stream; Loop.v (engine agent.go, tools.go) carries out a turn's calls
      at once and loops over the turns.  Tools.v (domain quirks.go,
      coerce.go) repairs the arguments of calls; Results.v (domain
      widgets.go, thread.go, engine/citations.go) has the copies of a result
      the client and the model read.  Api.v (api json.go, errors.go,
      upstream.go) has loose JSON values and the refusals of services.
    - _Search._  SearchIndex.v (searchindex/index.go) is the index of a
      user's chats; Cache.v (search/cache.go) the decoded indexes in memory;
      Gate.v (search/gate.go) the rationing of the model calls searches make.
      Indexing.v (search search.go, chunks.go, writer.go, stored.go,
      index.go, query.go) takes the chats' writes into their user's index,
      publishes it, and answers queries; Rebuild.v (search rebuild.go,
      deletion.go) writes an index anew, repairs one and sweeps the retired;
      Indexed.v says what a writer may do, and Searches.v runs any number of
      writers, rebuilds and queries over one user's rows at once.
    - _What is stored._  Codec.v, Aad.v and Seal.v (seal/) are the encodings,
      the authenticated data, the operation hashes and the envelopes.
      Controlplane.v (controlplane/client.go and cpstub/stub.go) is the
      client of the control plane and the service it talks to.  Grants.v
      (store/scope.go, auth/grant.go) says what a run may do; Rows.v (store
      rows.go, rows_chat.go, errors.go, store.go) reads and writes rows; and
      Commit.v runs any number of its writers at once.  Keys.v
      (store/keys.go) registers the key the rows are under, and its bundles.
      Reseal.v (store reseal.go, rewrap.go) brings every row under the
      current key.  Profiles.v (domain/profile.go) is a user's settings and
      saved prompts: patches, edits of single prompts, the merge of a
      device's settings, and the edit clocks of a row other clients merge;
      ProfileRows.v (domain legacy.go, profile.go, catalog.go, store
      store.go, pins.go, server/records.go) reads the row whatever wrote it,
      shows it, and commits its changes through Rows.v.
    - _Exports and imports._  Importer.v (importer index.go, chatgpt.go,
      claude.go, importer.go) reads the conversations and projects of other
      assistants' exports and finds the files of an archive they name;
      Exports.v (archives/export.go) writes a chat as the conversations
      export, which Importer.v reads back.  Archives.v (archives/backup.go)
      has the entries of an archive, the limits they are read within and the
      names a backup's may have; Backup.v (archives backup.go, export.go,
      restore.go) writes a backup, entry by entry with the manifest that
      lists them ([writeBackup]), and opens one ([openNativeBackup]).
      CloudImport.v (archives cloudimport.go, import.go) writes the archive
      of what an import puts in the cloud ([writeEntity], [writeThread],
      [finish]) and is the job that stores it ([run]): a program whose calls
      of the store, the clock and the client are the steps of [op], over the
      job's own memory, [Job].  Decode.v is the decoding of JSON values into
      typed fields that ProfileRows.v, Importer.v, Backup.v and CloudImport.v
      share, with its inverse.
    - _A caller's quota_ (Quota.v; api/quota.go).

    Prelude.v has field assignment, [result], reachability of a step
    relation and shared lemmas and tactics; GoStd.v the functions of Go's
    standard library that several files use.

    A definition has the name of the function or type it translates.  A
    method that changes its receiver takes and returns its value; pointers
    that are shared are addresses of a memory of the model; a goroutine is
    the list of steps it takes between the locks and channels it shares, or,
    in Controlplane.v and Rows.v, a [prog]ram whose requests, replies, random
    bytes, ids and clock are its only effects; what may panic returns an
    [option], or reaches [Panic].

    ** What is shown

    - _No update is lost_ ([Commit.no_lost_update]): under any interleaving of
      commits and removals of a row with each other, with other writers and
      with failures, every version a call made is its edit of exactly the
      version before it.  It is proved with a program logic, [ensures]: what
      a program may send, given what it has been told, whose rules are
      applied to each program of Rows.v, and whose facts the invariant [Inv]
      of the whole system makes true.
    - _The registry of keys_ ([Keys]): registering a key leaves the rows under
      it, but for those a recovered or typed key takes over, or wipes them;
      each revision names one key; a registration answered is read back.
    - _The registry of runs_ ([LiveRuns]): it never panics, holds exactly the
      live runs, one running reply a chat, the turns in order; an ended run
      leaves nothing behind ([registry_exact], [ended_run_released]); a
      shutdown ends everything.
    - _Sealing_ ([Aad], [Seal]): what is sealed opens, only under its key and
      as its own row; equal authenticated data is of the same thing; shares
      round-trip; an operation's hash is of that operation.
    - _Grants_ ([Grants.grant_contained]): a run reaches its chat, its profile,
      its project with that project's documents, and attachments, of any
      chat, whose id and key it knows, and no more.
    - _Streams_ ([RunLog], [FoldReplay], [Stream], [Timeline]): a follower
      misses and repeats nothing; what a client attaching late is sent,
      however often the log was folded, says what was emitted, and shows
      each activity as it stands ([fold_replays]); frames lent are not wiped
      and ended logs are, and however deltas are joined and held back the
      same reply is assembled.
    - _Search_ ([SearchIndex], [Cache], [Gate]): each change of the index
      changes its chat and no other, what is built is read back, the cache is
      a list of entries by recency under its budget, and calls keep to their
      slots and always end.
    - _The search service_ ([Searches]): a query that says no rebuild is
      needed searched an index with every chat as last written
      ([query_complete], of interleavings in which no rebuild or repair of
      embeddings has begun and no chat removed without a revision is made
      again); with rebuilds, one that fails midway can leave the cached index
      short of chats (the example [rebuild_failed_uncovers], a run that shows
      a fault of the code); nothing panics ([searches_never_panic]).
    - _The agent_ ([Prompt], [Agent], [Loop], [Tools]): a prompt fits or the
      error says why; a turn shows its client what it says and calls, call by call by its
      index, under one ID and name where the model was steady with them
      ([turn_shows_calls]); every call of a turn is answered, under its ID and
      by what it came to, however the calls interleave ([calls_answered]);
      every request of the loop fits the window, pairs each call with its
      answer and is within the cap on turns ([loop_asks]); a replayed request
      is one of which nothing was seen ([replay_unseen]); a coerced argument
      satisfies its schema ([coercion_satisfies]).
    - _Questions_ ([Questions]): answers are taken only where they fit the
      question, and are sent once.
    - _Settings_ ([Profiles], [ProfileRows]): edits of saved prompts do
      exactly what they name ([edits_exact]); a device's settings are merged
      without a loss, each of its prompts stored already or copied in
      ([merge_keeps]) and once ([merge_once]); changed fields
      get later clocks, unless the row's clocks are null, where the write
      panics, or hold one that reads as the largest integer, where the clock
      wraps ([clocks_advance], faults of the code); what is written is read back
      ([profile_written]); old settings are upgraded once
      ([legacy_prompt_kept]).
    - _Exports_ ([Importer], [Exports]): an id finds the one entry of an
      archive it names, as reading every entry would ([ids_exact]); what an
      attachment names is an entry the archive holds, within it
      ([entries_held]); any tree of messages is read, in an end, along its
      current branch ([branch_read]); a chat exported is read back, its images
      under paths of their own ([export_imported]).
    - _Backups_ ([Backup]): a backup that was written passes every check of a
      restore and holds what it was given, projects, documents, and chats
      with every message and attachment, or lists it as left out
      ([backup_opened]); an archive taken for a backup is listed whole by its
      manifest, entry by entry, within the limits and within itself
      ([backup_checked]).
    - _Cloud imports_ ([CloudImport]): what the archive is given the job reads
      ([archive_read]); of each thing of its source an import stores one row,
      under the id derived from it, however often it is run, whatever fails
      and whatever others write ([imported_once]); its report accounts for
      every entity, or says why it ended ([import_accounted]); once it has
      stored or found everything, a run of it again stores nothing
      ([import_resumed]).  What the store promises is [acts]: a row said to be
      missing is missing, a conflict is with a row that is there, and a push
      is stored at once or not at all, though its answer may be lost.  They
      are proved with weakest preconditions of the program, [wp], over every
      answer [acts] allows and every write of others ([drift]) in between.
    - _Jobs, quotas and resealing_ ([Jobs], [Quota], [Reseal]).

    ** Parameters, and what is asked of them

    Third-party code and the parts of the standard library that are not
    translated are parameters, with their documented laws as the fields of a
    class or as hypotheses: AES-GCM and gzip ([Seal.Crypto]; that no two
    sealings open as each other, [Seal.authentic], is a hypothesis of the
    theorems that need it), HMAC and HKDF ([Aad.Mac]), the JSON syntax
    ([Seal.Json]), the tokenizer, times in RFC 3339, the token-bucket
    limiter, in the search service the embeddings, their dimensions and
    quantization and the words of a text, and in the agent [json.Marshal] and
    [json.Unmarshal] of loose values, [api.Token], the schemas of widgets and
    the parsing and printing of floats, and in the profiles the texts of JSON
    values, the SHA-1 of a URL, the number a literal is and the integer a
    float converts to, of which only that it is one is asked, and in the exports
    the times, the digest of an image, the scanning of one JSON value of a
    stream and what reading an attachment gives, and in the backups the digest
    and the sniffed type of an entry's bytes, the members of a chat's JSON
    past its id, what the rows of the store read as and what the response
    answers each write, and in the imports SHA-256, the thumbnail of an image,
    a chat's JSON as the archive holds it and the account the store keeps.  What answers a request of the model
    or of a tool is any value: the theorems of Loop.v are of all of them.  Each theorem with a hypothesis is applied at
    concrete inputs by its [_witness].  The service of Controlplane.v makes
    a deleted row anew at revision 1, as the stub does, or at the revision
    after its last, as store.go says the control plane does ([continues]);
    Commit.v's theorem is of rows that are never deleted ([removals] false)
    or of the latter.

    ** Bounds and fuel

    Integers are [Z], or [nat] where the code only counts up from zero; where
    a width matters ([Quota], the lengths of the canonical encodings, the
    vectors of [SearchIndex]) the wrap-around or the bound is written out.
    Fuel is the length of what gets shorter: the input of a parser
    ([Seal.toy_json] alone has one), the string trimmed ([GoStd.trimWith]),
    the entries of the cache ([Cache.evict]), the ids of a pull, of which
    each batch takes some ([Rows.pullBatches]), the longest string of a value
    ([Results.deepUnwrapJSONStrings]), the height of a schema
    ([Tools.coerceValue], whose theorem says it is enough), the nodes of a
    tree of messages ([Importer.climb], [Importer.follow],
    [Importer.thoughtsFrom], which return no result where it runs out;
    [Importer.branch_read] says that it never does), the entries of an
    archive ([Importer.searchBetween]) and the paths in use
    ([Exports.firstFree], which always meets a free one); the ids tried for an
    entity of an import are the code's own bound ([maxImportGenerations]).  The loop of the
    agent has the fuel [MaxTurns + 1]; [Loop.loop_asks] says that a run that
    is not over is waiting for a call that has not returned.  A reseal's pages are as many
    as the control plane says, so [Reseal.reseal_ends] says that there is a
    fuel that is enough and that any larger gives the same.  The retries of
    Controlplane.v and Rows.v are the code's own bounds.

    ** Not modelled

    Request decoding and routing (server, api), authentication against an
    identity provider (auth), HTTP itself and attestation (inference,
    buckets), documents, images and speech (attach), the upload of an import,
    its reading into records and the start of its job, pages and summaries:
    glue around services
    outside this repository, or readers of formats with no specification to
    hold them to.  Within the parts above: floating-point ranking and the
    regular expressions of the tokenizer in the search index; the deadlines
    of the search writers and the registry of rebuilds under way; the
    session of the search tools and its schemas, the annotations of links,
    the events of a compaction within the loop, and the retry of one widget;
    of the control plane its listings and attachments; and of stored records
    the readers of old chats and projects. *)

From stdpp Require Export base tactics list gmap strings fin_maps relations.
From stdpp Require Import options.
From Stdlib Require Export ZArith Lia.

Declare Scope go_scope.
Delimit Scope go_scope with go.
Open Scope go_scope.

(** ** Field assignment

    [r <| f := v |>] is the Go assignment [r.f = v] on a struct value and
    [r <| f ::= g |>] applies [g] to the field.  A record opts in with an
    [Eta] instance, its constructor applied to its projections; the update
    of each field is computed from it. *)

Class Eta (R : Type) := eta : R → R.
Class Upd {R T : Type} (p : R → T) := upd : (T → T) → R → R.
Arguments upd {R T} p {_} f r /.

Ltac head_of t := match t with ?f _ => head_of f | _ => t end.

Ltac derive_upd :=
  match goal with
  | |- @Upd ?R ?T ?p =>
      let e := constr:(_ : Eta R) in
      let e := eval unfold eta in e in
      change ((T → T) → R → R);
      let f := fresh "f" in let r := fresh "r" in intros f r;
      let h := head_of e in
      let c := eval cbv beta delta [h] in (e r) in
      let c' := eval pattern (p r) in c in
      match c' with ?F _ => let t := eval cbv beta in (F (f (p r))) in exact t end
  end.
#[export] Hint Extern 0 (Upd _) => derive_upd : typeclass_instances.

Notation "r <| p := v |>" := (upd p (λ _, v) r)
  (at level 1, left associativity, p at next level, format "r  <| p  :=  v |>") : go_scope.
Notation "r <| p ::= f |>" := (upd p f r)
  (at level 1, left associativity, p at next level, format "r  <| p  ::=  f |>") : go_scope.

(** ** Go results: a value or an error *)

Inductive result (E A : Type) : Type :=
  | Ok (a : A)
  | Err (e : E).
Arguments Ok {E A} a.
Arguments Err {E A} e.

#[export] Instance result_ret E : MRet (result E) := λ A a, Ok a.
#[export] Instance result_bind E : MBind (result E) := λ A B f m,
  match m with Ok a => f a | Err e => Err e end.
#[export] Instance result_fmap E : FMap (result E) := λ A B f m,
  match m with Ok a => Ok (f a) | Err e => Err e end.
#[export] Instance result_eq_dec E A `{EqDecision E, EqDecision A} :
  EqDecision (result E A).
Proof. solve_decision. Defined.

(** [is_ok r] is Go's [err == nil]. *)
Definition is_ok {E A} (r : result E A) : bool :=
  match r with Ok _ => true | Err _ => false end.

(** ** Filters *)

Lemma filter_all {A} (f : A → bool) l : (∀ x, x ∈ l → f x = true) → List.filter f l = l.
Proof.
  induction l as [|x l IH]; intros Hl; [done|]. cbn. rewrite (Hl x) by left. f_equal. apply IH. intros y Hy. apply Hl. by right.
Qed.
Lemma filter_none {A} (f : A → bool) l : (∀ x, x ∈ l → f x = false) → List.filter f l = [].
Proof.
  induction l as [|x l IH]; intros Hl; [done|]. cbn. rewrite (Hl x) by left. apply IH. intros y Hy. apply Hl. by right.
Qed.
Lemma filter_incl {A} (f : A → bool) l x : x ∈ List.filter f l ↔ x ∈ l ∧ f x = true.
Proof. by rewrite !list_elem_of_In, List.filter_In. Qed.

(** ** Labelled transition systems *)

Section Transitions.
Context {S L : Type} (init : S → Prop) (step : S → L → S → Prop).

Inductive reachable : S → Prop :=
  | reachable_init s : init s → reachable s
  | reachable_step s l s' : reachable s → step s l s' → reachable s'.

(** Rule induction packaged: an inductive property holds in every
    reachable state. *)
Lemma reachable_invariant (P : S → Prop) :
  (∀ s, init s → P s) →
  (∀ s l s', reachable s → P s → step s l s' → P s') →
  ∀ s, reachable s → P s.
Proof. intros Hi Hs s Hr. induction Hr; eauto. Qed.
End Transitions.

(** ** Automation *)

Tactic Notation "cases" := repeat case_match; simplify_eq/=.

(** Split every [if decide] and boolean test of hypotheses and goal, and
    rewrite the map lookups that become decided. *)
Ltac split_ifs :=
  repeat (case_decide || case_bool_decide || case_match); simplify_eq/=.

(** Case analysis on the first equality test of the goal, or of [H]. *)
Ltac decide_eq :=
  match goal with
  | |- context [decide (?x = ?y)] =>
      destruct (decide (x = y)); [try subst x|]
  end.
Ltac decide_eq_in H :=
  match type of H with
  | context [decide (?x = ?y)] =>
      destruct (decide (x = y)); [try subst x|]
  end.

Create HintDb go discriminated.
