(* ===== verification/GoStd.v ===== *)
(** * The Go standard library the program's components share

    [strconv.Atoi], byte strings and their prefixes, and the like, as the
    components use them. *)

From S2P Require Import Prelude.
From Stdlib Require Export Ascii.
From stdpp Require Export strings.

Module GoStd.

Definition max_int : Z := 9223372036854775807.
Definition min_int : Z := -9223372036854775808.

Definition byte_of (c : ascii) : Z := Z.of_N (N_of_ascii c).
Definition is_digit (c : ascii) : bool :=
  bool_decide (48 ≤ byte_of c ≤ 57)%Z.
Definition digit (c : ascii) : Z := byte_of c - 48.

Definition bytes_of : string → list ascii := String.list_ascii_of_string.
Definition string_of : list ascii → string := String.string_of_list_ascii.

Lemma string_of_bytes s : string_of (bytes_of s) = s.
Proof. apply String.string_of_list_ascii_of_string. Qed.

Lemma bytes_of_string l : bytes_of (string_of l) = l.
Proof. apply String.list_ascii_of_string_of_list_ascii. Qed.

Lemma bytes_of_length s : length (bytes_of s) = String.length s.
Proof. induction s as [|c s IH]; [done|]. cbn. by f_equal. Qed.

Lemma bytes_of_append s t : bytes_of (String.append s t) = bytes_of s ++ bytes_of t.
Proof.
  induction s as [|c s IH]; [done|].
  change (c :: bytes_of (String.append s t) = c :: bytes_of s ++ bytes_of t). by rewrite IH.
Qed.

Lemma append_empty s t : String.append s t = ""%string → s = ""%string ∧ t = ""%string.
Proof. by destruct s. Qed.
Lemma string_app_nil_r s : String.append s "" = s.
Proof.
  induction s as [|a s IH]; [done|].
  change (String a (String.append s "") = String a s). congruence.
Qed.

Lemma string_app_assoc s1 s2 s3 :
  String.append (String.append s1 s2) s3 = String.append s1 (String.append s2 s3).
Proof.
  induction s1 as [|a s IH]; [done|].
  change (String a (String.append (String.append s s2) s3) =
          String a (String.append s (String.append s2 s3))). congruence.
Qed.

(** [strconv.Atoi]: an optional sign and decimal digits, within an [int]. *)
Definition Atoi (s : string) : option Z :=
  let '(sign, ds) := match bytes_of s with
                     | "-"%char :: ds => ((-1)%Z, ds)
                     | "+"%char :: ds => (1%Z, ds)
                     | ds => (1%Z, ds)
                     end in
  if bool_decide (ds = []) || negb (forallb is_digit ds) then None
  else
    let n := (sign * foldl (λ acc c, 10 * acc + digit c) 0 ds)%Z in
    if bool_decide (min_int ≤ n ≤ max_int)%Z then Some n else None.

(** A Go [error] the program makes with [api.Err]: the status, the code and
    the message. *)
Record ApiError := mkApiError { Status : Z; Code : string; Message : string }.
#[export] Instance ApiError_eq_dec : EqDecision ApiError.
Proof. solve_decision. Defined.

(** [strings.Join]. *)
Fixpoint Join (l : list string) (sep : string) : string :=
  match l with [] => "" | [s] => s | s :: l => String.append s (String.append sep (Join l sep)) end.

(** [strings.TrimSpace]: a leading white space character in UTF-8, and the
    same character read from the end of a reversed text. *)
Definition space (l : list Z) : option (list Z) :=
  match l with
  | 194 :: 133 :: l | 194 :: 160 :: l | 225 :: 154 :: 128 :: l | 226 :: 129 :: 159 :: l | 227 :: 128 :: 128 :: l => Some l
  | 226 :: 128 :: c :: l =>
      if bool_decide (128 ≤ c ≤ 138) || bool_decide (c = 168 ∨ c = 169 ∨ c = 175) then Some l else None
  | c :: l => if bool_decide (9 ≤ c ≤ 13) || bool_decide (c = 32) then Some l else None
  | [] => None
  end%Z.
Definition spaceBack (l : list Z) : option (list Z) :=
  match l with
  | 133 :: 194 :: l | 160 :: 194 :: l | 128 :: 154 :: 225 :: l | 159 :: 129 :: 226 :: l | 128 :: 128 :: 227 :: l => Some l
  | c :: 128 :: 226 :: l =>
      if bool_decide (128 ≤ c ≤ 138) || bool_decide (c = 168 ∨ c = 169 ∨ c = 175) then Some l else None
  | c :: l => if bool_decide (9 ≤ c ≤ 13) || bool_decide (c = 32) then Some l else None
  | [] => None
  end%Z.
Fixpoint trimWith (sp : list Z → option (list Z)) (fuel : nat) (l : list Z) : list Z :=
  match fuel with
  | 0 => l
  | S fuel => match sp l with Some l => trimWith sp fuel l | None => l end
  end.
Definition byteAt (z : Z) : ascii := ascii_of_N (Z.to_N z).
Definition TrimSpace (s : string) : string :=
  let l := trimWith space (String.length s) (byte_of <$> bytes_of s) in
  string_of (byteAt <$> rev (trimWith spaceBack (length l) (rev l))).
Definition TrimsToNothing (s : string) : bool := String.eqb (TrimSpace s) "".

Example trim_ends : TrimSpace (String "010" " a b  ") = "a b"%string.
Proof. reflexivity. Qed.

(** A text as UTF-8: its characters, and the bytes that are none, each a
    character of its own to [range] and [utf8.RuneCountInString]. *)
Definition cont (c : Z) : bool := bool_decide (128 ≤ c ≤ 191)%Z.
Definition runeLen (l : list Z) : option nat :=
  match l with
  | [] => None
  | c :: l =>
      if bool_decide (c < 128)%Z then Some 1
      else if bool_decide (194 ≤ c ≤ 223)%Z then match l with d :: _ => if cont d then Some 2 else None | [] => None end
      else if bool_decide (224 ≤ c ≤ 239)%Z then
        match l with
        | d :: e :: _ =>
            if bool_decide ((if Z.eqb c 224 then 160 else 128) ≤ d ≤ (if Z.eqb c 237 then 159 else 191))%Z && cont e
            then Some 3 else None
        | _ => None
        end
      else if bool_decide (240 ≤ c ≤ 244)%Z then
        match l with
        | d :: e :: f :: _ =>
            if bool_decide ((if Z.eqb c 240 then 144 else 128) ≤ d ≤ (if Z.eqb c 244 then 143 else 191))%Z && cont e && cont f
            then Some 4 else None
        | _ => None
        end
      else None
  end.
Fixpoint runesOf (fuel : nat) (l : list ascii) : list (list ascii * bool) :=
  match fuel, l with
  | 0, _ | _, [] => []
  | S fuel, l =>
      match runeLen (byte_of <$> take 4 l) with
      | Some n => (take n l, true) :: runesOf fuel (drop n l)
      | None => (take 1 l, false) :: runesOf fuel (drop 1 l)
      end
  end.
Definition runes (s : string) : list (list ascii * bool) := runesOf (String.length s) (bytes_of s).
Definition RuneCount (s : string) : nat := length (runes s).
(** [strings.ToValidUTF8] with nothing in the place of what is none. *)
Definition ToValidUTF8 (s : string) : string := string_of (List.filter snd (runes s) ≫= fst).
Example runes_counted : RuneCount (string_of (byteAt <$> [97; 195; 169; 255; 226; 130; 172]%Z)) = 4 ∧
  ToValidUTF8 (string_of (byteAt <$> [97; 255; 98]%Z)) = "ab"%string.
Proof. done. Qed.

(** [strings.ToLower] of the letters of ASCII; those of others keep apart. *)
Definition lowerByte (c : ascii) : ascii :=
  if bool_decide (65 ≤ byte_of c ≤ 90)%Z then byteAt (byte_of c + 32) else c.
Definition ToLower (s : string) : string := string_of (lowerByte <$> bytes_of s).
(** [strings.Index] and [strings.Contains]. *)
Definition Index (s sub : string) : option nat := String.index 0 sub s.
Definition Contains (s sub : string) : bool := bool_decide (is_Some (Index s sub)).
(** [strings.Cut]: what is before and after the first of [sep]. *)
Definition CutAt (s sep : string) : option (string * string) :=
  (λ n, (String.substring 0 n s, String.substring (n + String.length sep) (String.length s) s)) <$> Index s sep.
Example cut_first : CutAt "a=b=c" "=" = Some ("a", "b=c")%string ∧ CutAt "abc" "=" = None.
Proof. done. Qed.

Example Atoi_12 : Atoi "12" = Some 12%Z.
Proof. reflexivity. Qed.
Example Atoi_bad : Atoi "1x" = None ∧ Atoi "" = None ∧ Atoi "-" = None.
Proof. done. Qed.
End GoStd.
