(* ===== verification/Api.v ===== *)
(** * Loose JSON values and errors: internal/api json.go, errors.go and
    upstream.go

    The values of shapes the program does not own, the errors clients are
    answered with, and how the refusals of other services become them. *)

From S2P Require Import Prelude GoStd.
Local Open Scope nat_scope.
Local Open Scope go_scope.

Module Api.
Import GoStd.

(** JSON values, as [any] holds them; objects by their members. *)
Inductive any :=
  | ANull
  | ABool (b : bool)
  | ANum (lit : string)
  | AStr (s : string)
  | AArr (l : list any)
  | AObj (ms : list (string * any)).

Definition member (v : any) (name : string) : option any :=
  match v with AObj ms => snd <$> List.find (λ m, String.eqb m.1 name) ms | _ => None end.
Definition Str (v : option any) : string := match v with Some (AStr s) => s | _ => "" end.
Definition Obj (v : option any) : any := match v with Some (AObj ms) => AObj ms | _ => AObj [] end.
Definition Arr (v : option any) : list any := match v with Some (AArr l) => l | _ => [] end.
Definition Bool (v : option any) (fallback : bool) : bool := match v with Some (ABool b) => b | _ => fallback end.
Definition without (v : any) (name : string) : any :=
  match v with AObj ms => AObj (List.filter (λ m, negb (String.eqb m.1 name)) ms) | _ => AObj [] end.
Definition setMember (v : any) (name : string) (x : any) : any :=
  match without v name with AObj ms => AObj (ms ++ [(name, x)]) | v => v end.
Definition noMembers (v : any) : bool := match v with AObj (_ :: _) => false | _ => true end.

(** [cmp.Or] of texts, and [FirstString]. *)
Definition or (a b : string) : string := if String.eqb a "" then b else a.
Definition FirstString (values : list (option any)) : string := foldr (λ v rest, or (Str v) rest) ""%string values.

(** ** Errors *)

Record Error := mkError {
  error : ApiError;
  Action : string;
  Kind : string;
  ResetsAt : string;
  RetryAfter : Z;
  UpstreamStatus : Z;
  Upstream : string;
}.
#[global] Instance Error_eta : Eta Error := λ e,
  mkError (error e) (Action e) (Kind e) (ResetsAt e) (RetryAfter e) (UpstreamStatus e) (Upstream e).
Definition HTTP (e : Error) : Z := Status (error e).

Definition ActionReauthenticate : string := "reauthenticate".
Definition ActionReload : string := "reload".
Definition ActionRetry : string := "retry".
Definition ActionWait : string := "wait".
Definition ActionUnlock : string := "unlock".
Definition ActionRevise : string := "revise".
Definition ActionStop : string := "stop".

Definition Actions : list (string * string) :=
  [("ALREADY_APPLIED", ActionReload); ("ARCHIVE_TOO_LARGE", ActionRevise); ("ATTACHMENT_TOO_LARGE", ActionRevise);
   ("ATTACHMENT_UNSUPPORTED", ActionRevise); ("ATTACHMENTS_UNAVAILABLE", ActionRetry); ("BAD_REQUEST", ActionStop);
   ("CHAT_FLAGGED", ActionStop); ("COMPACTION_FAILED", ActionRetry); ("CONTEXT_TOO_LARGE", ActionRevise);
   ("CREDENTIAL_REQUIRED", ActionReauthenticate); ("IMPORT_INVALID", ActionRevise); ("IMPORT_TOO_LARGE", ActionRevise);
   ("KEY_MISMATCH", ActionUnlock); ("KEY_REQUIRED", ActionUnlock); ("MAX_TURNS", ActionRetry); ("MISSING_ATTACHMENT", ActionStop);
   ("MODEL_UNAVAILABLE", ActionRevise); ("NOTHING_TO_COMPACT", ActionStop); ("PAYLOAD_TOO_LARGE", ActionRevise);
   ("PROJECTS_REQUIRE_CLOUD", ActionStop); ("QUEUE_FULL", ActionRetry); ("QUOTA_EXHAUSTED", ActionWait);
   ("RATE_LIMITED", ActionRetry); ("RECORD_UNSUPPORTED", ActionStop); ("REQUEST_TIMEOUT", ActionRetry);
   ("REVISION_CONFLICT", ActionReload); ("RUN_IN_FLIGHT", ActionReload); ("RUN_LOG_FULL", ActionStop);
   ("RUN_NOT_FOUND", ActionReload); ("SEARCH_INDEX_FAILED", ActionRetry); ("SERVICE_BUSY", ActionRetry);
   ("SYNC_OUTCOME_UNKNOWN", ActionRetry); ("TEMP_SPACE_BUSY", ActionRetry); ("THREAD_EXISTS", ActionStop);
   ("THREAD_NOT_FOUND", ActionStop); ("THREAD_TOO_LARGE", ActionRevise); ("TOOL_UNAVAILABLE", ActionRetry);
   ("UNAUTHENTICATED", ActionReauthenticate); ("UPSTREAM_REFUSED", ActionRetry)]%string.
Definition ErrOf (e : ApiError) : Error :=
  mkError e (match List.find (λ p, String.eqb p.1 (Code e)) Actions with Some p => p.2 | None => "" end) "" "" 0 0 "".
Definition Err_ (status : Z) (code message : string) : Error := ErrOf (mkApiError status code message).
Definition WithAction (e : Error) (action : string) : Error := e <| Action := action |>.

Definition maxUpstreamMessage : nat := 512.

Definition RefusedAsSent (e : Error) (status : Z) : Error :=
  if String.eqb (Code (error e)) "UPSTREAM_REFUSED" && bool_decide (Z.quot status 100 = 4)%Z then e <| Action := ActionStop |> else e.

Section Upstream.
(** [json.Unmarshal] of a body into an object, none where it is not one;
    [int] of the number a literal is. *)
Context (Unmarshal : string → option (list (string * any))) (Truncated : string → Z).

Definition Int (v : option any) : Z := match v with Some (ANum lit) => Truncated lit | _ => 0%Z end.

(** The object that describes an error, nested or flat. *)
Definition OpenAIRefusal (status : Z) (body : string) : option Error :=
  if bool_decide (status = 401)%Z then None
  else
    match Unmarshal body with
    | None => None
    | Some ms =>
        let in_ := AObj ms in
        let nested := Obj (member in_ "error") in
        if noMembers nested && negb (String.eqb (Str (member in_ "object")) "error") then None
        else
          let fields := if noMembers nested then in_ else nested in
          let code := Str (member fields "code") in
          let kind := Str (member fields "type") in
          let message := ToValidUTF8 (string_of (take maxUpstreamMessage (bytes_of (Str (member fields "message"))))) in
          let e :=
            if bool_decide (status = 402)%Z || String.eqb code "insufficient_quota" || String.eqb kind "insufficient_quota"
            then Err_ 429 "QUOTA_EXHAUSTED" (or message "The request quota is exhausted")
            else if bool_decide (status = 429)%Z then Err_ 429 "RATE_LIMITED" (or message "Too many requests; retry shortly")
            else if bool_decide (status = 503)%Z && String.eqb code "model_unavailable"
            then WithAction (Err_ 503 "MODEL_UNAVAILABLE" (or message "The model is temporarily unavailable")) ActionRetry
            else if bool_decide (status = 503)%Z && String.eqb code "server_is_overloaded"
            then Err_ 503 "UPSTREAM_REFUSED" (or message "The model is overloaded")
            else if bool_decide (Z.quot status 100 = 4)%Z &&
                    (String.eqb code "context_length_exceeded" || Contains (ToLower message) "context length")
            then Err_ 413 "CONTEXT_TOO_LARGE" (or message "The conversation exceeds the model's context window")
            else if (bool_decide (Z.quot status 100 = 4)%Z || String.prefix "document_" code) && negb (String.eqb message "")
            then Err_ 502 "UPSTREAM_REFUSED" message
            else Err_ 502 "UPSTREAM_REFUSED" "A downstream service refused the request" in
          let e := (RefusedAsSent e status) <| UpstreamStatus := status |> in
          Some (if String.prefix "document_" code
                then let e := e <| Upstream := code |> in
                     if String.eqb (Code (error e)) "UPSTREAM_REFUSED" then e <| Action := ActionRevise |> else e
                else e)
    end.

Definition DownstreamError (status : Z) (body : string) : Error :=
  let in_ := AObj (default [] (Unmarshal body)) in
  let in_ := let nested := Obj (member in_ "error") in if noMembers nested then in_ else nested in
  match OpenAIRefusal status body with
  | Some refused =>
      if bool_decide (RetryAfter refused = 0)%Z then refused <| RetryAfter := Int (member in_ "retryAfter") |> else refused
  | None =>
      let e :=
        if bool_decide (status = 401)%Z then Err_ 401 "UNAUTHENTICATED" "Authentication is required"
        else if bool_decide (status = 404)%Z then Err_ 404 "THREAD_NOT_FOUND" "The requested data was not found"
        else if bool_decide (status = 429)%Z then
          (Err_ 429 "QUOTA_EXHAUSTED" "The request quota is exhausted")
            <| Kind := FirstString [member in_ "kind"; member in_ "type"] |>
            <| ResetsAt := FirstString [member in_ "resetsAt"; member in_ "resets_at"] |>
            <| RetryAfter := Int (member in_ "retryAfter") |>
        else (Err_ 502 "UPSTREAM_REFUSED" "A downstream service refused the request") <| UpstreamStatus := status |> in
      RefusedAsSent e status
  end.

(** An error event inside an accepted stream: its type stands in for the
    status. *)
Definition streamStatus (fields : any) : Z :=
  let kind := Str (member fields "type") in
  let status :=
    if String.eqb kind "invalid_request_error" || String.eqb kind "BadRequestError" then 400%Z
    else if String.eqb kind "insufficient_quota" then 402%Z
    else if String.eqb kind "rate_limit_error" || String.eqb kind "RateLimitError" then 429%Z
    else if String.eqb kind "service_unavailable_error" || String.eqb kind "ServiceUnavailableError" then 503%Z
    else 502%Z in
  let code := Int (member fields "code") in
  if bool_decide (400 ≤ code < 600)%Z && negb (bool_decide (code = 401)%Z) then code else status.
Definition StreamError (data : string) : Error :=
  let in_ := AObj (default [] (Unmarshal data)) in
  let fields := let nested := Obj (member in_ "error") in if noMembers nested then in_ else nested in
  DownstreamError (streamStatus fields) data.

(** An error as Go has it: the program's own, the refusal of a model, or
    another. *)
Inductive err := EApi (e : Error) | ERefusal (status : Z) (detail : string) (retryAfter : Z) | EOther (text : string).
Definition AsError (e : err) : Error :=
  match e with
  | EApi e => e
  | ERefusal status detail retryAfter =>
      let e := DownstreamError status detail in if bool_decide (0 < retryAfter)%Z then e <| RetryAfter := retryAfter |> else e
  | EOther _ => Err_ 502 "UPSTREAM_REFUSED" "A downstream request failed"
  end.

(** *** Only a request refused as unauthenticated is *)

Lemma RefusedAsSent_error e status : error (RefusedAsSent e status) = error e.
Proof. unfold RefusedAsSent. by destruct (_ && _). Qed.
Lemma OpenAIRefusal_status status body e : OpenAIRefusal status body = Some e → HTTP e ≠ 401%Z ∧ status ≠ 401%Z.
Proof.
  unfold OpenAIRefusal. case_bool_decide as Hs; [done|]. destruct (Unmarshal body) as [ms|]; [|done].
  destruct (_ && negb _); [done|]. cbv zeta. intros [= <-]. split; [|done]. unfold HTTP.
  set (e0 := if bool_decide _ || _ || _ then _ else _).
  assert (He : Status (error e0) ≠ 401%Z) by (unfold e0; repeat case_match; done). clearbody e0.
  repeat case_match; cbn; rewrite RefusedAsSent_error; done.
Qed.
Lemma DownstreamError_401 status body : HTTP (DownstreamError status body) = 401%Z ↔ status = 401%Z.
Proof.
  unfold DownstreamError. destruct (OpenAIRefusal status body) as [e|] eqn:Ho.
  - apply OpenAIRefusal_status in Ho as [He Hs]. split; [|done]. case_bool_decide; intros Hh; by destruct He.
  - cbv zeta. unfold HTTP. rewrite RefusedAsSent_error. case_bool_decide; [done|]. split; [|done].
    repeat case_match; done.
Qed.
Lemma streamStatus_401 fields : streamStatus fields ≠ 401%Z.
Proof.
  unfold streamStatus. cbv zeta. destruct (_ && negb _) eqn:Hc.
  - apply andb_true_iff in Hc as [_ Hc%negb_true_iff%bool_decide_eq_false]. done.
  - repeat case_match; done.
Qed.
(** An error inside a stream is never the one a caller's credential is
    renewed for. *)
Lemma StreamError_401 data : HTTP (StreamError data) ≠ 401%Z.
Proof. unfold StreamError. rewrite DownstreamError_401. apply streamStatus_401. Qed.
End Upstream.
End Api.
