(* ===== verification/Decode.v ===== *)
(** * Decoding of JSON into typed fields

    [json.Unmarshal] of a value into the fields a type names, as the readers
    of stored rows and of exports use it, and [json.Marshal] of a struct. *)

From S2P Require Import Prelude GoStd Api.
From stdpp Require Import pretty countable.
Local Open Scope nat_scope.
Local Open Scope go_scope.

Module Decode.
Import GoStd.

(** Of a member into a field: what the field then holds, and whether the
    member's type was the field's.  A field of another type is left as it was,
    and a member's name is matched by its own case. *)

Definition dStr (v : option Api.any) : option string * bool :=
  match v with
  | None | Some Api.ANull => (None, true)
  | Some (Api.AStr s) => (Some s, true)
  | Some _ => (None, false)
  end.
Definition dBool (v : option Api.any) : option bool * bool :=
  match v with
  | None | Some Api.ANull => (None, true)
  | Some (Api.ABool b) => (Some b, true)
  | Some _ => (None, false)
  end.
(** A field that is no pointer keeps its zero value. *)
Definition dText (v : option Api.any) : string * bool := let '(s, ok) := dStr v in (default "" s, ok)%string.
Definition dList {A} (item : Api.any → A * bool) (v : option Api.any) : option (list A) * bool :=
  match v with
  | None | Some Api.ANull => (None, true)
  | Some (Api.AArr l) => (Some ((item <$> l).*1), forallb snd (item <$> l))
  | Some _ => (None, false)
  end.
Definition dStrs : option Api.any → option (list string) * bool := dList (λ v, dText (Some v)).
Definition dInt (v : option Api.any) : Z * bool :=
  match v with
  | None | Some Api.ANull => (0%Z, true)
  | Some (Api.ANum lit) => match Atoi lit with Some n => (n, true) | None => (0%Z, false) end
  | Some _ => (0%Z, false)
  end.

(** ** Where a member of another type fails the whole *)

Definition strict {A} (d : A * bool) : option A := if d.2 then Some d.1 else None.
Definition textOf (v : Api.any) (name : string) : option string := strict (dText (Api.member v name)).
Definition intOf (v : Api.any) (name : string) : option Z := strict (dInt (Api.member v name)).
(** A struct: null leaves it as it was. *)
Definition structOf (v : Api.any) : option Api.any :=
  match v with Api.ANull => Some (Api.AObj []) | Api.AObj _ => Some v | _ => None end.
Definition listOf {A} (item : Api.any → option A) (v : Api.any) (name : string) : option (list A) :=
  match Api.member v name with
  | None | Some Api.ANull => Some []
  | Some (Api.AArr l) => mapM item l
  | Some _ => None
  end.

(** ** What is written

    [json.Marshal] of a struct: its members in order, less those whose tag
    leaves the empty out. *)

Definition object (ms : list (string * option Api.any)) : Api.any :=
  Api.AObj (omap (λ m : string * option Api.any, (m.1,.) <$> m.2) ms).
Definition always (s : string) : option Api.any := Some (Api.AStr s).
Definition omitempty (s : string) : option Api.any := if String.eqb s "" then None else Some (Api.AStr s).
Definition omitnone {A} (f : A → Api.any) (l : list A) : option Api.any :=
  match f <$> l with [] => None | l => Some (Api.AArr l) end.
Definition number (n : Z) : Api.any := Api.ANum (pretty n).

(** ** What is written is read back *)

Lemma mapM_encoded {A B} (dec : Api.any → option B) (enc : A → Api.any) (g : A → B) l :
  Forall (λ x, dec (enc x) = Some (g x)) l → mapM dec (enc <$> l) = Some (g <$> l).
Proof. induction 1 as [|x l Hx Hl IH]; [done|]. cbn. rewrite Hx. cbn. by rewrite IH. Qed.
Lemma textOf_object (v : Api.any) n s : Api.member v n = Some (Api.AStr s) → textOf v n = Some s.
Proof. unfold textOf. by intros ->. Qed.
Lemma textOf_absent (v : Api.any) n : Api.member v n = None → textOf v n = Some ""%string.
Proof. unfold textOf. by intros ->. Qed.
Definition decimal (acc : Z) (c : ascii) : Z := (10 * acc + digit c)%Z.
Lemma digit_char x : (x < 10)%N → digit (pretty_N_char x) = Z.of_N x ∧ is_digit (pretty_N_char x) = true.
Proof.
  intros Hx. assert (x ∈ [0;1;2;3;4;5;6;7;8;9]%N) as H by (rewrite !elem_of_cons; lia).
  repeat (apply elem_of_cons in H as [->|H]; [done|]). by apply not_elem_of_nil in H.
Qed.
Lemma pretty_value x s : foldl decimal 0%Z (bytes_of (pretty_N_go x s)) = foldl decimal (Z.of_N x) (bytes_of s) ∧
  (forallb is_digit (bytes_of s) = true → forallb is_digit (bytes_of (pretty_N_go x s)) = true).
Proof.
  revert s. induction (N.lt_wf_0 x) as [x _ IH]; intros s. destruct (decide (x = 0%N)) as [->|Hx].
  - rewrite pretty_N_go_0. done.
  - rewrite pretty_N_go_step by lia. destruct (IH (x `div` 10)%N ltac:(apply N.div_lt; lia) (String (pretty_N_char (x `mod` 10)) s)) as [H1 H2].
    pose proof (digit_char (x `mod` 10) ltac:(apply N.mod_lt; lia)) as [Hd Hi]. split.
    + rewrite H1. cbn. f_equal. unfold decimal. rewrite Hd. pose proof (N.div_mod x 10 ltac:(lia)). lia.
    + intros Hs. apply H2. cbn. by rewrite Hi.
Qed.
Lemma Atoi_signed c ds : is_digit c = true →
  match c :: ds with "-"%char :: ds => ((-1)%Z, ds) | "+"%char :: ds => (1%Z, ds) | ds => (1%Z, ds) end = (1%Z, c :: ds).
Proof. by destruct c as [[] [] [] [] [] [] [] []]. Qed.
Lemma pretty_pos p : ∃ c ds, bytes_of (pretty (N.pos p)) = c :: ds ∧ forallb is_digit (c :: ds) = true ∧ foldl decimal 0%Z (c :: ds) = Z.pos p.
Proof.
  change (pretty (N.pos p)) with (pretty_N_go (N.pos p) ""). destruct (pretty_value (N.pos p) "") as [H1 H2]. cbn [bytes_of] in H1.
  specialize (H2 eq_refl). change (foldl decimal (Z.of_N (N.pos p)) (bytes_of "")) with (Z.pos p) in H1.
  destruct (bytes_of (pretty_N_go (N.pos p) "")) as [|c ds]; [cbn in H1; lia|]. by exists c, ds.
Qed.
Lemma Atoi_pretty n : (min_int ≤ n ≤ max_int)%Z → Atoi (pretty n) = Some n.
Proof.
  intros Hn. destruct n as [|p|p]; [done| |].
  - change (pretty (Z.pos p)) with (pretty (N.pos p)). destruct (pretty_pos p) as (c & ds & Hb & Hd & Hv). unfold Atoi. rewrite Hb.
    rewrite Atoi_signed by (cbn in Hd; by apply andb_true_iff in Hd as [? _]). rewrite bool_decide_eq_false_2, Hd by done. cbn [orb negb].
    change (foldl (λ acc c, 10 * acc + digit c) 0 (c :: ds))%Z with (foldl decimal 0%Z (c :: ds)). rewrite Hv, Z.mul_1_l.
    by rewrite bool_decide_eq_true_2.
  - change (pretty (Z.neg p)) with (String "-" (pretty (N.pos p))). destruct (pretty_pos p) as (c & ds & Hb & Hd & Hv). unfold Atoi.
    change (bytes_of (String "-" (pretty (N.pos p)))) with ("-"%char :: bytes_of (pretty (N.pos p))). rewrite Hb.
    rewrite bool_decide_eq_false_2, Hd by done. cbn [orb negb].
    change (foldl (λ acc c, 10 * acc + digit c) 0 (c :: ds))%Z with (foldl decimal 0%Z (c :: ds)). rewrite Hv.
    replace (-1 * Z.pos p)%Z with (Z.neg p) by lia. by rewrite bool_decide_eq_true_2.
Qed.
Lemma dInt_number n : (min_int ≤ n ≤ max_int)%Z → dInt (Some (number n)) = (n, true).
Proof. intros Hn. unfold dInt, number. by rewrite Atoi_pretty. Qed.

(** ** A text that reads back

    For concrete inputs: JSON values as texts, by stdpp's codec of trees. *)

Fixpoint treeOf (v : Api.any) : gen_tree (bool + string) :=
  match v with
  | Api.ANull => GenNode 0 []
  | Api.ABool b => GenLeaf (inl b)
  | Api.AStr s => GenLeaf (inr s)
  | Api.ANum s => GenNode 1 [GenLeaf (inr s)]
  | Api.AArr l => GenNode 2 (treeOf <$> l)
  | Api.AObj ms => GenNode 3 ((λ m : string * Api.any, GenNode 4 [GenLeaf (inr m.1); treeOf m.2]) <$> ms)
  end.
Fixpoint ofTree (t : gen_tree (bool + string)) : Api.any :=
  match t with
  | GenLeaf (inl b) => Api.ABool b
  | GenLeaf (inr s) => Api.AStr s
  | GenNode 1 [GenLeaf (inr s)] => Api.ANum s
  | GenNode 2 l => Api.AArr (ofTree <$> l)
  | GenNode 3 l => Api.AObj ((λ m, match m with GenNode _ [GenLeaf (inr n); x] => (n, ofTree x) | _ => (""%string, Api.ANull) end) <$> l)
  | _ => Api.ANull
  end.
Fixpoint tree_roundtrip (v : Api.any) : ofTree (treeOf v) = v.
Proof.
  destruct v as [|b|s|s|l|ms]; [reflexivity..| |]; cbn; f_equal; rewrite <- list_fmap_compose.
  - induction l as [|x l IH]; [reflexivity|]. cbn. f_equal; [apply tree_roundtrip|exact IH].
  - induction ms as [|[n x] ms IH]; [reflexivity|]. cbn. f_equal; [f_equal; apply tree_roundtrip|exact IH].
Qed.
Fixpoint bitsOf (p : positive) : list ascii :=
  match p with xH => [] | xO p => "0"%char :: bitsOf p | xI p => "1"%char :: bitsOf p end.
Fixpoint ofBits (l : list ascii) : positive :=
  match l with [] => xH | c :: l => if Ascii.eqb c "0" then xO (ofBits l) else xI (ofBits l) end.
Lemma bits_roundtrip p : ofBits (bitsOf p) = p.
Proof. induction p; cbn; by rewrite ?IHp. Qed.
Definition toyRaw (v : Api.any) : list ascii := bitsOf (countable.encode (treeOf v)).
Definition toyUnmarshal (b : list ascii) : option Api.any := ofTree <$> countable.decode (ofBits b).
Lemma toy_parse v : toyUnmarshal (toyRaw v) = Some v.
Proof. unfold toyUnmarshal, toyRaw. by rewrite bits_roundtrip, countable.decode_encode; cbn; rewrite tree_roundtrip. Qed.
End Decode.
