(* ===== verification/Jobs.v ===== *)
(** * Background jobs: internal/jobs/jobs.go

    One background job per owner at a time, its last report kept for a
    while after it ends.  A job is a Go pointer: an address of [heap].  The
    goroutine that runs a job, the timers [time.AfterFunc] leaves and the
    cancellations that follow an unlocked mutex are explicit, so each
    transition is one critical section of [Runner.mu] or [Job.mu]. *)

From S2P Require Import Prelude.

Module Jobs.
Section Jobs.
(** [R] is the report type, [E] Go's [error], [zero] the zero report and
    [errPanicked] the error of a job whose work panicked. *)
Context {R E : Type} (zero : R) (errPanicked : E).

Inductive State := Running | Complete | Failed.

#[global] Instance State_eq_dec : EqDecision State.
Proof. solve_decision. Defined.

Record Status := mkStatus {
  St : State;
  Report : R;
  StErr : option E;
  StartedAt : Z;
  UpdatedAt : Z;
}.
#[global] Instance Status_eta : Eta Status :=
  λ s, mkStatus (St s) (Report s) (StErr s) (StartedAt s) (UpdatedAt s).

(** [done] is whether the job's channel is closed, [cancelled] whether its
    context was ended by [cancel], and [deadline] its context's deadline. *)
Record Job := mkJob {
  id : string;
  status : Status;
  done : bool;
  cancelled : bool;
  deadline : Z;
}.
#[global] Instance Job_eta : Eta Job :=
  λ j, mkJob (id j) (status j) (done j) (cancelled j) (deadline j).

(** Where the goroutine of a job stands: running its work, or past the
    locked end of [run] with the timer and the deferred cancel to do. *)
Inductive Phase := PWork | PTail.

Record World := mkWorld {
  budget : Z;
  retention : Z;
  jobs : gmap string nat;
  heap : gmap nat Job;
  procs : gmap nat (string * Phase);
  timers : list (string * nat);
  cancelling : list nat;
  next : nat;
}.
#[global] Instance World_eta : Eta World :=
  λ w, mkWorld (budget w) (retention w) (jobs w) (heap w) (procs w) (timers w)
               (cancelling w) (next w).

Definition New (b r : Z) : World := mkWorld b r ∅ ∅ ∅ [] [] 0.

(** The end of [start]: a new job, registered for its owner, its goroutine
    running. [name] is what [newID] drew. *)
Definition launch (w : World) (owner name : string) (now : Z) : World :=
  let job := mkJob name (mkStatus Running zero None now now) false false (now + budget w) in
  w <| jobs ::= <[owner := next w]> |>
    <| heap ::= <[next w := job]> |>
    <| procs ::= <[next w := (owner, PWork)]> |>
    <| next ::= S |>.

Definition start (w : World) (owner name : string) (now : Z) (replaceEnded : bool)
  : World * nat * bool :=
  match jobs w !! owner with
  | Some p =>
      let running := bool_decide (St ∘ status <$> heap w !! p = Some Running) in
      if negb replaceEnded || running then (w, p, false)
      else (launch (w <| jobs ::= delete owner |>) owner name now, next w, true)
  | None => (launch w owner name now, next w, true)
  end.

Definition Start (w : World) (owner name : string) (now : Z) := start w owner name now false.
Definition Restart (w : World) (owner name : string) (now : Z) := start w owner name now true.

Definition Get (w : World) (owner : string) : option nat := jobs w !! owner.

(** [Cancel]'s critical section; the job's context ends after the unlock. *)
Definition Cancel (w : World) (owner : string) : World * option nat :=
  let job := jobs w !! owner in
  let w' := w <| jobs ::= delete owner |> in
  (match job with
   | Some p => w' <| cancelling ::= cons p |>
   | None => w'
   end, job).

(** [job.cancel()] *)
Definition cancel_ctx (w : World) (p : nat) : World :=
  w <| heap ::= alter (λ j, j <| cancelled := true |>) p |>.

Definition report (j : Job) (progress : R) (now : Z) : Job :=
  j <| status ::= λ s, s <| Report := progress |> <| UpdatedAt := now |> |>.

(** How a job's work ended. *)
Inductive Outcome := Returned (r : R) (err : option E) | Panicked.

Definition guarded (o : Outcome) : option R * option E :=
  match o with
  | Returned r err => (Some r, err)
  | Panicked => (None, Some errPanicked)
  end.

(** [finish], or [None] where closing a closed channel would panic. *)
Definition finish (j : Job) (final : option R) (err : option E) (now : Z) : option Job :=
  let s := (status j) <| UpdatedAt := now |> in
  let s := match err with
           | Some _ => s <| St := Failed |> <| StErr := err |>
           | None => s <| St := Complete |>
           end in
  let s := match final with Some r => s <| Report := r |> | None => s end in
  if done j then None else Some (j <| status := s |> <| done := true |>).

(** The critical section that ends [run]; [None] is a Go panic. *)
Definition run_end (w : World) (owner : string) (p : nat) (o : Outcome) (now : Z)
  : option World :=
  let '(final, err) := guarded o in
  j ← heap w !! p;
  j' ← finish j final err now;
  let w1 := w <| heap ::= <[p := j']> |> in
  let w2 := if bool_decide (retention w ≤ 0)%Z && bool_decide (jobs w !! owner = Some p)
            then w1 <| jobs ::= delete owner |> else w1 in
  Some (w2 <| procs ::= <[p := (owner, PTail)]> |>).

(** What follows the unlock: the retention timer, then the deferred cancel. *)
Definition run_tail (w : World) (owner : string) (p : nat) : World :=
  let w1 := if bool_decide (0 < retention w)%Z
            then w <| timers ::= cons (owner, p) |> else w in
  cancel_ctx (w1 <| procs ::= delete p |>) p.

(** The retention timer's function. *)
Definition expire (w : World) (owner : string) (p : nat) : World :=
  if bool_decide (jobs w !! owner = Some p)
  then w <| jobs ::= delete owner |> else w.

(** What happens to a runner, one atomic action at a time. A job's work may
    report at any time, even from a goroutine it left behind. *)
Inductive Action :=
  | AStart (owner name : string) (now : Z) (replaceEnded : bool)
  | ACancel (owner : string)
  | ACancelCtx (p : nat)
  | AReport (p : nat) (progress : R) (now : Z)
  | AEnd (owner : string) (p : nat) (o : Outcome) (now : Z)
  | ATail (owner : string) (p : nat)
  | AExpire (owner : string) (p : nat).

Inductive step : World → Action → World → Prop :=
  | step_start w owner name now re :
      step w (AStart owner name now re) (start w owner name now re).1.1
  | step_cancel w owner :
      step w (ACancel owner) (Cancel w owner).1
  | step_cancel_ctx w p l1 l2 :
      cancelling w = l1 ++ p :: l2 →
      step w (ACancelCtx p) (cancel_ctx (w <| cancelling := l1 ++ l2 |>) p)
  | step_report w p progress now :
      step w (AReport p progress now)
        (w <| heap ::= alter (λ j, report j progress now) p |>)
  | step_end w owner p o now w' :
      procs w !! p = Some (owner, PWork) →
      run_end w owner p o now = Some w' →
      step w (AEnd owner p o now) w'
  | step_tail w owner p :
      procs w !! p = Some (owner, PTail) →
      step w (ATail owner p) (run_tail w owner p)
  | step_expire w owner p l1 l2 :
      timers w = l1 ++ (owner, p) :: l2 →
      step w (AExpire owner p) (expire (w <| timers := l1 ++ l2 |>) owner p).

Definition reach (b r : Z) : World → Prop := reachable (λ w, w = New b r) step.

(** ** The invariant of the runner *)

(** A job's status agrees with its channel and its goroutine. *)
Definition job_ok (w : World) (p : nat) (j : Job) : Prop :=
  (St (status j) = Running ↔ ∃ o, procs w !! p = Some (o, PWork)) ∧
  done j = bool_decide (St (status j) ≠ Running) ∧
  (is_Some (StErr (status j)) ↔ St (status j) = Failed).

Record Inv (w : World) : Prop := {
  inv_heap p : is_Some (heap w !! p) ↔ p < next w;
  inv_job p j : heap w !! p = Some j → job_ok w p j;
  inv_procs p x : procs w !! p = Some x → p < next w;
  inv_jobs o p : jobs w !! o = Some p →
    p < next w ∧ ∀ o' ph, procs w !! p = Some (o', ph) → o' = o;
  inv_work o p : procs w !! p = Some (o, PWork) →
    jobs w !! o = Some p ∨ p ∈ cancelling w ∨
    cancelled <$> heap w !! p = Some true;
  inv_timers o p : (o, p) ∈ timers w → p < next w ∧ ∀ o', procs w !! p ≠ Some (o', PWork);
  inv_free o p : (retention w ≤ 0)%Z → jobs w !! o = Some p →
    procs w !! p = Some (o, PWork);
}.

Lemma inv_new b r : Inv (New b r).
Proof. split; cbn; intros; try (rewrite ?lookup_empty in *; done); try set_solver. 
  rewrite lookup_empty. split; [intros [? ?]; done | lia].
Qed.

Lemma inv_unregister w o :
  Inv w → (∀ p, jobs w !! o = Some p → procs w !! p ≠ Some (o, PWork)) →
  Inv (w <| jobs ::= delete o |>).
Proof.
  intros [] Hended. split; cbn; eauto.
  - intros o' p Hp. apply lookup_delete_Some in Hp as [? ?]. eauto.
  - intros o' p Hp. destruct (inv_work0 _ _ Hp) as [Hj|]; [|eauto].
    left. rewrite lookup_delete_ne; [done|]. intros ->. by eapply Hended.
  - intros o' p Hr Hp. apply lookup_delete_Some in Hp as [? ?]. eauto.
Qed.

Lemma inv_launch w o name now :
  Inv w → jobs w !! o = None → Inv (launch w o name now).
Proof.
  intros [] Hfree.
  assert (Hnp : procs w !! next w = None).
  { destruct (procs w !! next w) eqn:E'; [apply inv_procs0 in E'; lia | done]. }
  split; cbn.
  - intros p. rewrite lookup_insert. case_decide; [subst; split; eauto; lia|].
    rewrite inv_heap0. lia.
  - intros p j. rewrite lookup_insert. case_decide as Hd.
    + intros [= <-]. unfold job_ok; cbn. subst p. rewrite lookup_insert_eq.
      repeat split; try done; eauto; by intros [? ?].
    + intros Hj. destruct (inv_job0 _ _ Hj) as (A & B & C).
      unfold job_ok; cbn. rewrite lookup_insert_ne; done.
  - intros p x. rewrite lookup_insert. case_decide; [lia|]. intros Hx.
    apply inv_procs0 in Hx. lia.
  - intros o' p. rewrite lookup_insert. case_decide; intros Hp; simplify_eq.
    + split; [lia|]. intros ? ?. rewrite lookup_insert_eq. by intros [= -> _].
    + apply inv_jobs0 in Hp as [? Hp]. split; [lia|]. intros ? ?.
      rewrite lookup_insert_ne by lia. eauto.
  - intros o' p. rewrite lookup_insert. case_decide; intros Hp; simplify_eq.
    + left. by rewrite lookup_insert_eq.
    + destruct (inv_work0 _ _ Hp) as [Hj|[Hc|Hc]].
      * left. rewrite lookup_insert_ne; [done|]. intros ->. congruence.
      * eauto.
      * right; right. rewrite lookup_insert_ne; [done|]. done.
  - intros o' p Ht. apply inv_timers0 in Ht as [? Ht]. split; [lia|].
    intros ?. rewrite lookup_insert_ne by lia. done.
  - intros o' p Hr. rewrite lookup_insert. case_decide; intros Hp; simplify_eq.
    + by rewrite lookup_insert_eq.
    + rewrite lookup_insert_ne; eauto. apply inv_jobs0 in Hp as [? ?]. lia.
Qed.

Lemma inv_heap_status w p f :
  Inv w →
  (∀ j, St (status (f j)) = St (status j) ∧ StErr (status (f j)) = StErr (status j) ∧
        done (f j) = done j ∧ (cancelled j = true → cancelled (f j) = true)) →
  Inv (w <| heap ::= alter f p |>).
Proof.
  intros [] Hf. split; cbn; eauto.
  - intros q. rewrite lookup_alter. case_decide; [|done]. subst.
    rewrite fmap_is_Some. done.
  - intros q j Hq. rewrite lookup_alter in Hq. case_decide; [|by apply inv_job0].
    apply fmap_Some in Hq as (j0 & Hq & ->). destruct (Hf j0) as (A & B & C & _).
    destruct (inv_job0 _ _ Hq) as (D & F & G).
    unfold job_ok; cbn. subst q. rewrite A, B, C. done.
  - intros o q Hq. destruct (inv_work0 _ _ Hq) as [|[|Hc]]; eauto.
    right; right. rewrite lookup_alter. case_decide; [|done]. subst.
    apply fmap_Some in Hc as (j0 & -> & Hj). cbn. f_equal.
    destruct (Hf j0) as (_ & _ & _ & D). by apply D.
Qed.

(** What the end of [run] does, when it does not panic. *)
Lemma run_end_Some w o p oc now w' :
  run_end w o p oc now = Some w' →
  ∃ j j', heap w !! p = Some j ∧ done j = false ∧
    finish j (guarded oc).1 (guarded oc).2 now = Some j' ∧
    St (status j') ≠ Running ∧ done j' = true ∧ cancelled j' = cancelled j ∧
    w' = w <| heap ::= <[p := j']> |>
           <| jobs ::= λ m, if bool_decide (retention w ≤ 0)%Z && bool_decide (jobs w !! o = Some p)
                            then delete o m else m |>
           <| procs ::= <[p := (o, PTail)]> |>.
Proof.
  unfold run_end. destruct (guarded oc) as [final err]; cbn.
  intros (j & Hj & H)%bind_Some. apply bind_Some in H as (j' & Hf & H).
  exists j, j'. unfold finish in Hf. destruct (done j) eqn:Hd; [done|].
  split_and!; try done.
  - unfold finish. by rewrite Hd.
  - destruct err, final; by simplify_eq/=.
  - by simplify_eq/=.
  - by simplify_eq/=.
  - simplify_eq. destruct (_ && _); done.
Qed.

Lemma finish_err j final err now j' :
  finish j final err now = Some j' → StErr (status j) = None →
  is_Some (StErr (status j')) ↔ St (status j') = Failed.
Proof.
  unfold finish. destruct (done j); [done|]. intros Hf HN.
  destruct err, final; simplify_eq/=; rewrite ?HN; unfold is_Some; clear;
    naive_solver.
Qed.

Lemma inv_run_end w o p oc now w' :
  Inv w → procs w !! p = Some (o, PWork) → run_end w o p oc now = Some w' → Inv w'.
Proof.
  intros HI Hp (j & j' & Hj & Hd & Hf & Hst & Hd' & Hc & ->)%run_end_Some.
  assert (Herr : is_Some (StErr (status j')) ↔ St (status j') = Failed).
  { destruct HI. destruct (inv_job0 _ _ Hj) as ((_ & Hrun) & _ & He).
    unfold finish in Hf. rewrite Hd in Hf. assert (St (status j) = Running) by eauto.
    assert (StErr (status j) = None) as HN.
    { destruct (StErr (status j)) eqn:X; [|done].
      assert (St (status j) = Failed) by (apply He; eauto). congruence. }
    eapply finish_err; [|done]. unfold finish. by rewrite Hd. }
  destruct HI. split; cbn.
  - intros q. rewrite lookup_insert. case_decide; [subst; split; eauto|done].
  - intros q k Hq. rewrite lookup_insert in Hq. case_decide as Hpq; simplify_eq.
    + unfold job_ok; cbn. rewrite lookup_insert_eq, Hd'.
      split_and!; [|by rewrite bool_decide_true|done].
      split; [done|by intros (? & ?)].
    + destruct (inv_job0 _ _ Hq) as (A & B & C). unfold job_ok; cbn.
      by rewrite lookup_insert_ne.
  - intros q x Hq. rewrite lookup_insert in Hq. case_decide; simplify_eq; eauto.
  - intros o' q Hq. assert (jobs w !! o' = Some q) as Hq'.
    { destruct (_ && _); [|done]. by apply lookup_delete_Some in Hq as [? ?]. }
    destruct (inv_jobs0 _ _ Hq') as [? Ho]. split; [done|]. intros o'' ph.
    rewrite lookup_insert. decide_eq; intros Hx; simplify_eq; by eapply Ho.
  - intros o' q. rewrite lookup_insert. case_decide as Hpq; [done|]. intros Hq.
    destruct (inv_work0 _ _ Hq) as [|[|]].
    + left. destruct (_ && _) eqn:Hb; [|done]. apply andb_true_iff in Hb as [_ Hb%bool_decide_eq_true].
      rewrite lookup_delete_ne; [done|]. intros ->. congruence.
    + eauto.
    + rewrite lookup_insert_ne by done. eauto.
  - intros o' q Ht. apply inv_timers0 in Ht as [? Ht]. split; [done|]. intros ?.
    rewrite lookup_insert. case_decide; [done|eauto].
  - intros o' q Hr. rewrite bool_decide_true by done. cbn. intros Hq.
    assert (p ≠ q) as Hpq.
    { intros ->. case_bool_decide as Hb.
      - apply lookup_delete_Some in Hq as [? Hq].
        apply inv_jobs0 in Hq as [_ Ho]. apply Ho in Hp. congruence.
      - specialize (inv_free0 _ _ Hr Hq). congruence. }
    rewrite lookup_insert_ne by done. apply inv_free0; [done|].
    case_bool_decide; [|done]. by apply lookup_delete_Some in Hq as [? ?].
Qed.

Lemma inv_run_tail w o p :
  Inv w → procs w !! p = Some (o, PTail) → Inv (run_tail w o p).
Proof.
  intros HI Hp. unfold run_tail, cancel_ctx. apply inv_heap_status; [|done].
  destruct HI. set (t := if bool_decide _ then _ else _).
  assert (heap t = heap w ∧ procs t = procs w ∧ jobs t = jobs w ∧ next t = next w ∧
          cancelling t = cancelling w ∧ retention t = retention w ∧
          ∀ x, x ∈ timers t → x = (o, p) ∨ x ∈ timers w) as (A & B & C & D & F & G & H).
  { unfold t. case_bool_decide; cbn; split_and!; try done; set_solver. }
  split; cbn; rewrite ?A, ?B, ?C, ?D, ?F, ?G; eauto.
  - intros q j Hj. destruct (inv_job0 _ _ Hj) as (K & L & M).
    split_and!; [|done|done]. cbn. rewrite K.
    split; intros [o' Ho']; exists o';
      [rewrite lookup_delete_ne; congruence | by apply lookup_delete_Some in Ho' as []].
  - intros q x Hq. apply lookup_delete_Some in Hq as []. eauto.
  - intros o' q Hq. destruct (inv_jobs0 _ _ Hq) as [? Ho]. split; [done|].
    intros ? ? Hd. apply lookup_delete_Some in Hd as []. eauto.
  - intros o' q Hq. apply lookup_delete_Some in Hq as []. eauto.
  - intros o' q [[=-> ->]|Ht]%H.
    + split; [eauto|]. intros ? Hq. apply lookup_delete_Some in Hq as []. done.
    + apply inv_timers0 in Ht as [? Ht]. split; [done|]. intros o'' Hq.
      apply lookup_delete_Some in Hq as []. by eapply Ht.
  - intros o' q Hr Hq. rewrite lookup_delete_ne; [eauto|]. intros ->.
    specialize (inv_free0 _ _ Hr Hq). congruence.
Qed.

Lemma inv_start w o name now re :
  Inv w → Inv (start w o name now re).1.1.
Proof.
  intros HI. unfold start. destruct (jobs w !! o) as [p|] eqn:Ho; [|by apply inv_launch].
  destruct (negb re || _) eqn:Hb; [done|]. apply orb_false_iff in Hb as [_ Hb].
  apply bool_decide_eq_false in Hb. apply inv_launch; [|cbn; apply lookup_delete_eq].
  apply inv_unregister; [done|]. intros q Hq Hw. simplify_eq.
  destruct HI. assert (Hs : is_Some (heap w !! p)) by (apply inv_heap0; eauto).
  destruct Hs as [j Hj]. destruct (inv_job0 _ _ Hj) as ((_ & A) & _).
  apply Hb. rewrite Hj. cbn. f_equal. eauto.
Qed.

Lemma inv_cancel w o : Inv w → Inv (Cancel w o).1.
Proof.
  intros []. unfold Cancel. destruct (jobs w !! o) as [p|] eqn:Ho; cbn.
  - split; cbn; eauto.
    + intros o' q [? ?]%lookup_delete_Some. eauto.
    + intros o' q Hq. destruct (inv_work0 _ _ Hq) as [Hj|[|]]; [|set_solver..].
      destruct (decide (o = o')) as [->|].
      * right; left. simplify_eq. set_solver.
      * left. by rewrite lookup_delete_ne.
    + intros o' q ? [? ?]%lookup_delete_Some. eauto.
  - split; cbn; eauto; rewrite delete_id by done; eauto.
Qed.

Lemma jobs_inv_step w a w' : Inv w → step w a w' → Inv w'.
Proof.
  intros HI Hs. destruct Hs as [| |w p l1 l2 H| | | |w owner p l1 l2 H].
  - by apply inv_start.
  - by apply inv_cancel.
  - unfold cancel_ctx. destruct HI. split; cbn; eauto.
    + intros q. rewrite lookup_alter. case_decide; [subst; by rewrite fmap_is_Some|done].
    + intros q j. rewrite lookup_alter. case_decide; [|eauto].
      intros (k & Hk & ->)%fmap_Some. subst. by apply inv_job0 in Hk.
    + intros o q Hq. rewrite lookup_alter. case_decide; subst.
      * right; right. destruct (heap w !! q) eqn:Hh; [done|].
        apply inv_procs0 in Hq. apply inv_heap0 in Hq as [? ?]. congruence.
      * destruct (inv_work0 _ _ Hq) as [|[Hin|]]; eauto.
        right; left. rewrite H in Hin. set_solver.
  - apply inv_heap_status; [done|]. intros j. done.
  - by eapply inv_run_end.
  - by apply inv_run_tail.
  - assert (Inv (w <| timers := l1 ++ l2 |>)) as HI'.
    { destruct HI. split; cbn; eauto. intros o q Ht. apply (inv_timers0 o).
      rewrite H. set_solver. }
    unfold expire. case_bool_decide; [|done]. apply inv_unregister; [done|]. cbn.
    intros q Hq. destruct HI. destruct (inv_timers0 owner p) as [_ Ht]; [rewrite H; set_solver|].
    simplify_eq/=. done.
Qed.

Lemma jobs_reach_inv b r w : reach b r w → Inv w.
Proof.
  apply (reachable_invariant _ _ Inv); [|by eauto using jobs_inv_step].
  intros ? ->. apply inv_new.
Qed.

Lemma step_retention w a w' : step w a w' → retention w' = retention w.
Proof.
  destruct 1; cbn; try done.
  - unfold start. cases; done.
  - unfold Cancel. cases; done.
  - apply run_end_Some in H0 as (? & ? & ? & ? & ? & ? & ? & ? & ->). done.
  - unfold run_tail, cancel_ctx. case_bool_decide; done.
  - unfold expire. case_bool_decide; done.
Qed.

Lemma reach_retention b r w : reach b r w → retention w = r.
Proof.
  apply (reachable_invariant _ _ (λ w, retention w = r)); [by intros ? ->|].
  intros s a s' _ <-. apply step_retention.
Qed.

(** *** Theorems *)

(** C39. A runner runs one background job per owner at a time: of two jobs
    whose work is still running for the same owner, one was cancelled (its
    context has ended, or its [Cancel] is about to end it). *)
Theorem one_job_per_owner b r w o p q :
  reach b r w →
  procs w !! p = Some (o, PWork) → procs w !! q = Some (o, PWork) → p ≠ q →
  let stopped x := x ∈ cancelling w ∨ cancelled <$> heap w !! x = Some true in
  stopped p ∨ stopped q.
Proof.
  intros HI%jobs_reach_inv Hp Hq Hne stopped. destruct HI.
  destruct (inv_work0 _ _ Hp) as [Hjp|]; [|by left].
  destruct (inv_work0 _ _ Hq) as [Hjq|]; [|by right]. congruence.
Qed.

(** The end of a job never panics by closing its channel twice: while a
    job's work runs, its end is defined whatever the work returned. *)
Theorem run_end_total b r w o p oc now :
  reach b r w → procs w !! p = Some (o, PWork) →
  is_Some (run_end w o p oc now).
Proof.
  intros HI%jobs_reach_inv Hp. destruct HI.
  assert (is_Some (heap w !! p)) as [j Hj] by (apply inv_heap0; eauto).
  destruct (inv_job0 _ _ Hj) as ((_ & Hr) & Hd & _).
  unfold run_end. destruct (guarded oc) as [f e]. rewrite Hj. cbn. unfold finish.
  rewrite Hd, Hr by eauto. cbn. eauto.
Qed.

(** Without a retention, whoever sees a job done finds its owner free:
    every registered job is still running, its channel open. *)
Theorem no_retention_registered_runs b r w o p :
  reach b r w → (r ≤ 0)%Z → Get w o = Some p →
  ∃ j, heap w !! p = Some j ∧ St (status j) = Running ∧ done j = false.
Proof.
  intros Hw Hr Hp. pose proof (reach_retention _ _ _ Hw) as <-.
  apply jobs_reach_inv in Hw as [].
  pose proof (inv_free0 _ _ Hr Hp) as Hq.
  assert (is_Some (heap w !! p)) as [j Hj] by (apply inv_heap0; eauto).
  destruct (inv_job0 _ _ Hj) as ((_ & Hrun) & Hd & _). exists j.
  rewrite Hd, Hrun by eauto. done.
Qed.

Definition ended (w : World) (p : nat) : Prop :=
  ∃ j, heap w !! p = Some j ∧ done j = true.

Lemma not_working_ended w p :
  Inv w → p < next w → (∀ o, procs w !! p ≠ Some (o, PWork)) → ended w p.
Proof.
  intros [] Hp Hn. destruct (inv_heap0 p) as [_ [j Hj]]; [done|].
  exists j. split; [done|]. destruct (inv_job0 _ _ Hj) as ((Hr & _) & Hd & _).
  rewrite Hd. apply bool_decide_eq_true. intros [? ?]%Hr. by eapply Hn.
Qed.

(** A job stays findable by its owner until one of four things: its
    owner cancels, a restart finds it ended, its own retention timer fires,
    or, without a retention, it ends. In particular a job that is running
    is taken from its owner only by [Cancel] or its own end, and an old
    job's timer never forgets the owner's next job. *)
Theorem registered_until b r w a w' o p :
  reach b r w → step w a w' →
  Get w o = Some p → Get w' o ≠ Some p →
  match a with
  | ACancel o' => o' = o
  | AStart o' _ _ replaceEnded => o' = o ∧ replaceEnded = true ∧ ended w p
  | AExpire o' p' => o' = o ∧ p' = p ∧ ended w p
  | AEnd o' p' _ _ => o' = o ∧ p' = p ∧ (r ≤ 0)%Z
  | _ => False
  end.
Proof.
  intros Hw Hs Hp. pose proof (reach_retention _ _ _ Hw) as <-.
  apply jobs_reach_inv in Hw. unfold Get in *.
  destruct Hs as [w o' name now re|w o'| |w q progress now|w o' q oc now w' Hq He
                 |w o' q Hq|w o' q l1 l2 Ht]; cbn; try done.
  - unfold start. destruct (jobs w !! o') as [q|] eqn:Ho'; cbn.
    + destruct (negb re || _) eqn:Hb; cbn; [done|].
      apply orb_false_iff in Hb as [->%negb_false_iff Hb%bool_decide_eq_false].
      destruct (decide (o' = o)) as [->|]; [|by rewrite lookup_insert_ne, lookup_delete_ne by done].
      intros _. split_and!; [done..|]. simplify_eq.
      apply not_working_ended; [done|by destruct Hw; eapply inv_jobs0|].
      intros o' Hw'. destruct Hw. destruct (inv_heap0 p) as [_ [j Hj]]; [eauto|].
      destruct (inv_job0 _ _ Hj) as ((_ & Hr) & _). rewrite Hj in Hb. cbn in Hb.
      apply Hb. f_equal. eauto.
    + rewrite lookup_insert_ne; [done|]. by intros ->; simplify_eq.
  - unfold Cancel. destruct (jobs w !! o'); cbn;
      (destruct (decide (o' = o)); [done|]); by rewrite lookup_delete_ne.
  - apply run_end_Some in He as (? & ? & ? & ? & ? & ? & ? & ? & ->). cbn.
    destruct (bool_decide _) eqn:Hb; cbn; [|done]. apply bool_decide_eq_true in Hb.
    case_bool_decide; [|done].
    destruct (decide (o' = o)) as [->|]; [|by rewrite lookup_delete_ne].
    by simplify_eq.
  - unfold run_tail. case_bool_decide; done.
  - unfold expire; cbn. case_bool_decide; [|done]. cbn.
    destruct (decide (o' = o)) as [->|]; [|by rewrite lookup_delete_ne].
    simplify_eq. intros _. split_and!; [done..|].
    destruct (inv_timers _ Hw o p) as [? ?]; [rewrite Ht; set_solver|].
    by apply not_working_ended.
Qed.

(** How a job ended is final: whatever happens next, its state and its
    error stay as they were and its channel stays closed. *)
Theorem ended_is_final b r w a w' p j :
  reach b r w → step w a w' → heap w !! p = Some j → done j = true →
  ∃ j', heap w' !! p = Some j' ∧ done j' = true ∧
        St (status j') = St (status j) ∧ StErr (status j') = StErr (status j).
Proof.
  intros Hw%jobs_reach_inv Hs Hj Hd.
  assert (Halter : ∀ f q, (∀ k, done (f k) = done k ∧ St (status (f k)) = St (status k) ∧
     StErr (status (f k)) = StErr (status k)) →
     ∃ j', alter f q (heap w) !! p = Some j' ∧ done j' = true ∧
        St (status j') = St (status j) ∧ StErr (status j') = StErr (status j)).
  { intros f q Hf. rewrite lookup_alter, Hj. destruct (Hf j) as (? & ? & ?).
    decide_eq; rewrite ?Hj; [exists (f j)|exists j]; split_and!; cbn; congruence. }
  assert (p < next w) by (destruct Hw; apply inv_heap0; eauto).
  destruct Hs as [w o' name now re|w o'| |w q progress now|w o' q oc now w' Hq He
                 |w o' q Hq|w o' q l1 l2 Ht]; cbn; try (by apply Halter).
  - unfold start. destruct (jobs w !! o'); cbn; [case_match; cbn; [eauto|]|];
      (rewrite lookup_insert_ne by lia); eauto.
  - unfold Cancel. case_match; cbn; eauto.
  - apply run_end_Some in He as (j0 & j1 & H1 & H2 & _ & _ & _ & _ & ->). cbn.
    rewrite lookup_insert_ne; [eauto|]. congruence.
  - unfold run_tail. case_bool_decide; by apply Halter.
  - unfold expire; cbn. case_bool_decide; cbn; eauto.
Qed.

End Jobs.

(** ** Concrete runs *)

Section Witnesses.
(** Reports are numbers and errors strings; a job is started, cancelled
    while its work runs, and its owner starts another. *)
Let w0 (r : Z) : World (R:=nat) (E:=string) := New 60 r.
Let w1 r := (start 0 (w0 r) "ann" "id1" 10 false).1.1.
Let w2 r := (Cancel (w1 r) "ann").1.
Let w3 r := (start 0 (w2 r) "ann" "id2" 20 false).1.1.

Let panicked : string := "jobs: the job panicked".

Lemma jobs_w0_reach r : reach 0 panicked 60 r (w0 r).
Proof. by constructor. Qed.
Lemma jobs_w1_reach r : reach 0 panicked 60 r (w1 r).
Proof. eapply reachable_step; [apply jobs_w0_reach|apply step_start]. Qed.
Lemma jobs_w3_reach r : reach 0 panicked 60 r (w3 r).
Proof.
  eapply reachable_step; [|apply step_start].
  eapply reachable_step; [apply jobs_w1_reach|apply step_cancel].
Qed.

Lemma one_job_per_owner_witness :
  procs (w3 5) !! 0 = Some ("ann", PWork) ∧ procs (w3 5) !! 1 = Some ("ann", PWork) ∧
  (0 ∈ cancelling (w3 5) ∨ cancelled <$> heap (w3 5) !! 0 = Some true ∨
   1 ∈ cancelling (w3 5) ∨ cancelled <$> heap (w3 5) !! 1 = Some true).
Proof.
  split; [reflexivity|]. split; [reflexivity|].
  destruct (one_job_per_owner 0 panicked 60 5 (w3 5) "ann" 0 1) as [[]|[]]; auto.
  apply jobs_w3_reach.
Defined.

Lemma run_end_total_witness :
  is_Some (run_end panicked (w1 5) "ann" 0 Panicked 30).
Proof. apply (run_end_total 0 panicked 60 5); [apply jobs_w1_reach|reflexivity]. Defined.

Lemma no_retention_registered_runs_witness :
  ∃ j, heap (w1 0) !! 0 = Some j ∧ St (status j) = Running ∧ done j = false.
Proof.
  apply (no_retention_registered_runs 0 panicked 60 0 (w1 0) "ann" 0);
    [apply jobs_w1_reach|lia|reflexivity].
Defined.

Lemma registered_until_witness : "ann" = "ann".
Proof.
  apply (registered_until 0 panicked 60 5 (w1 5) (ACancel "ann") (w2 5) "ann" 0);
    [apply jobs_w1_reach|apply step_cancel|reflexivity|vm_compute; discriminate].
Defined.

(** The cancelled job then ends while its owner's next one is running. *)
Let w4 r := default (w3 r) (run_end panicked (w3 r) "ann" 0 (Returned 7 None) 30).
Let job4 : Job (R:=nat) (E:=string) :=
  mkJob "id1" (mkStatus Complete 7 None 10 30) true false 70.

Lemma jobs_w4_reach : reach 0 panicked 60 5 (w4 5).
Proof.
  eapply reachable_step; [apply jobs_w3_reach|].
  apply (step_end _ _ _ "ann" 0 (Returned 7 None) 30); vm_compute; reflexivity.
Qed.

Lemma ended_is_final_witness :
  ∃ j', heap (run_tail (w4 5) "ann" 0) !! 0 = Some j' ∧ done j' = true ∧
        St (status j') = St (status job4) ∧ StErr (status j') = StErr (status job4).
Proof.
  apply (ended_is_final 0 panicked 60 5 (w4 5) (ATail "ann" 0) (run_tail (w4 5) "ann" 0) 0 job4).
  - exact jobs_w4_reach.
  - apply step_tail. vm_compute. reflexivity.
  - vm_compute. reflexivity.
  - reflexivity.
Defined.
End Witnesses.
End Jobs.
