(* ===== verification/RunLog.v ===== *)
(** * A run's frame log: internal/engine/runlog.go

    The frames of a run, kept for the clients that follow it, folded into a
    checkpoint past a budget, and wiped once the run has ended and nobody
    reads it.  Frames are Go byte slices shared between the log, the streams
    that send them and the retired list, so they are addresses of a memory,
    and wiping one changes what every holder of the slice sees. *)

From S2P Require Import Prelude GoStd.

Module RunLog.
Import GoStd.

(** What a checkpoint does with a frame. *)
Inductive frameKind := frameKept | frameDelta | frameActivity.
#[export] Instance frameKind_eq_dec : EqDecision frameKind.
Proof. solve_decision. Defined.

Definition runLogBudget : Z := Z.shiftl 32 20.
Definition mergedFrameBytes : Z := Z.shiftl 1 20.

Section RunLog.
(** [F] is a frame's content, [flen] its length and [fclear] the same
    bytes zeroed; [Er] is Go's [error]. *)
Context {F Er : Type} (flen : F → Z) (fclear : F → F).

(** ** Memory *)

Record Mem := mkMem { cells : gmap nat F; fresh : nat }.
#[global] Instance Mem_eta : Eta Mem := λ m, mkMem (cells m) (fresh m).

Definition alloc (m : Mem) (f : F) : Mem * nat :=
  (mkMem (<[fresh m := f]> (cells m)) (S (fresh m)), fresh m).
(** [clear(frame)] *)
Definition clear (m : Mem) (b : nat) : Mem := m <| cells ::= alter fclear b |>.
Definition clear_all (m : Mem) (bs : list nat) : Mem := foldl clear m bs.
Definition size_of (m : Mem) (b : nat) : Z := from_option flen 0%Z (cells m !! b).
(** The contents of frames that are all allocated. *)
Definition contents (m : Mem) (bs : list nat) : list F := omap (λ b, cells m !! b) bs.

(** ** The log *)

Record entry := mkEntry { data : nat; kind : frameKind; key : string }.

Record FrameLog := mkFrameLog {
  base : nat;
  checkpoint : list entry;
  frames : list entry;
  bytes : Z;
  budget : Z;
  closed : option Er;
  wake : nat;
  ended : bool;
  draining : Z;
  held : bool;
  folds : nat;
  lent : gmap nat Z;
  retired : list (nat * list nat);
}.
#[global] Instance FrameLog_eta : Eta FrameLog := λ l,
  mkFrameLog (base l) (checkpoint l) (frames l) (bytes l) (budget l) (closed l) (wake l)
    (ended l) (draining l) (held l) (folds l) (lent l) (retired l).

Definition newRunlog : FrameLog :=
  mkFrameLog 0 [] [] 0 runLogBudget None 0 false 0 false 0 ∅ [].

(** A new [wake] channel; the old one is closed. *)
Definition signal (l : FrameLog) : FrameLog := l <| wake ::= S |>.

Definition Readers (l : FrameLog) : Z := draining l.

Definition grow (m : Mem) (l : FrameLog) (frame : nat) (k : frameKind) (ky : string)
  : FrameLog * bool :=
  let l' := match closed l with
            | None => signal (l <| frames ::= λ fs, fs ++ [mkEntry frame k ky] |>
                                <| bytes ::= λ n, (n + size_of m frame)%Z |>)
            | Some _ => l
            end in
  (l', bool_decide (budget l' < bytes l')%Z).

(** *** Folding *)

(** The local variables of [fold]. *)
Record FoldSt := mkFoldSt {
  fmem : Mem;
  fck : list entry;
  run : list entry;
  dropped : list nat;
  size : Z;
  placed : gset string;
}.
#[global] Instance FoldSt_eta : Eta FoldSt := λ s,
  mkFoldSt (fmem s) (fck s) (run s) (dropped s) (size s) (placed s).

Section Fold.
Context (merge : list F → F) (activity : string → option F).

Definition flush (s : FoldSt) : FoldSt :=
  let s :=
    match run s with
    | e0 :: e1 :: e2 :: es =>
        let merged := removelast (run s) in
        let deltas := data <$> merged in
        let '(m, b) := alloc (fmem s) (merge (contents (fmem s) deltas)) in
        s <| fmem := m |>
          <| fck ::= λ c, c ++ [mkEntry b frameDelta (key e0)] |>
          <| dropped ::= λ d, d ++ deltas |>
          <| run := [List.last (run s) e0] |>
    | _ => s
    end in
  s <| fck ::= λ c, c ++ run s |> <| run := [] |> <| size := 0%Z |>.

Definition joins (s : FoldSt) (e : entry) : bool :=
  match run s with
  | e0 :: _ => bool_decide (key e0 = key e) &&
               bool_decide (size s + size_of (fmem s) (data e) ≤ mergedFrameBytes)%Z
  | [] => false
  end.

Definition fold_entry (s : FoldSt) (e : entry) : FoldSt :=
  if bool_decide (kind e = frameDelta) && joins s e then
    s <| run ::= λ r, r ++ [e] |> <| size ::= λ n, (n + size_of (fmem s) (data e))%Z |>
  else
    let s := flush s in
    match kind e with
    | frameDelta => s <| run := [e] |> <| size := size_of (fmem s) (data e) |>
    | frameKept => s <| fck ::= λ c, c ++ [e] |>
    | frameActivity =>
        let s :=
          if bool_decide (key e ∈ placed s) then s
          else
            let s := s <| placed ::= λ p, {[key e]} ∪ p |> in
            match activity (key e) with
            | Some now =>
                let '(m, b) := alloc (fmem s) now in
                s <| fmem := m |> <| fck ::= λ c, c ++ [mkEntry b frameActivity (key e)] |>
            | None => s
            end in
        s <| dropped ::= λ d, d ++ [data e] |>
    end.

(** The oldest fold count a stream holds frames by. *)
Definition oldest (l : FrameLog) : nat := foldr Nat.min (folds l) (map_to_list (lent l)).*1.

Definition reclaim (m : Mem) (l : FrameLog) : Mem * FrameLog :=
  let keep (r : nat * list nat) := bool_decide (oldest l < r.1) in
  (clear_all m (concat (List.filter (λ r, negb (keep r)) (retired l)).*2),
   l <| retired := List.filter keep (retired l) |>).

Definition fold (m : Mem) (l : FrameLog) : Mem * FrameLog :=
  match closed l with
  | Some _ => (m, l)
  | None =>
      let s := flush (foldl fold_entry (mkFoldSt m [] [] [] 0 ∅) (checkpoint l ++ frames l)) in
      let l := l <| checkpoint := fck s |> <| base ::= λ n, n + length (frames l) |>
                 <| frames := [] |> <| bytes := 0%Z |> <| folds ::= S |> in
      reclaim (fmem s) (l <| retired ::= λ r, r ++ [(folds l, dropped s)] |>)
  end.
End Fold.

(** *** Readers and the end *)

Definition wipe (m : Mem) (l : FrameLog) : Mem * FrameLog :=
  if negb (ended l) || bool_decide (0 < draining l)%Z || held l then (m, l)
  else
    (clear_all (clear_all m (data <$> (checkpoint l ++ frames l))) (concat (retired l).*2),
     l <| checkpoint := [] |> <| frames := [] |> <| retired := [] |>).

Definition Attach (l : FrameLog) : FrameLog := l <| draining ::= Z.succ |>.
Definition Detach (m : Mem) (l : FrameLog) : Mem * FrameLog :=
  wipe m (l <| draining ::= Z.pred |>).
Definition hold (l : FrameLog) : FrameLog := l <| held := true |>.
Definition release (m : Mem) (l : FrameLog) : Mem * FrameLog := wipe m (l <| held := false |>).

Definition close (m : Mem) (l : FrameLog) (err : Er) : Mem * FrameLog :=
  let l := match closed l with None => signal (l <| closed := Some err |>) | Some _ => l end in
  wipe m (l <| ended := true |>).

(** What [Read] returns, less the channel and the close error; its [done]
    is [done_reading] at the fold count it was lent by. *)
Definition Read (l : FrameLog) (from : nat) : FrameLog * (list nat * list nat * nat) :=
  let behind := bool_decide (from < base l) in
  let ck := if behind then data <$> checkpoint l else [] in
  let from := if behind then base l else from in
  let fs := data <$> drop (Nat.min (from - base l) (length (frames l))) (frames l) in
  (l <| lent ::= partial_alter (λ n, Some (default 0 n + 1)%Z) (folds l) |>, (ck, fs, from)).

Definition done_reading (m : Mem) (l : FrameLog) (fl : nat) : Mem * FrameLog :=
  let n := (default 0 (lent l !! fl) - 1)%Z in
  let l := l <| lent ::= if bool_decide (n = 0)%Z then delete fl else <[fl := n]> |> in
  reclaim m l.

Definition sent (l : FrameLog) : nat := base l + length (frames l).

(** ** The log and the streams that follow it

    A stream attaches to a log, then reads and, once it has sent what it
    read, gives it back, any number of times, then detaches: [Follow] of
    engine/stream.go between the [Attach] and the deferred [Detach] of its
    callers.  Everything else is the run's: it frames events, folds,
    holds, releases and closes the log.  Steps are the critical sections of
    [FrameLog.mu], in any order. *)

(** [loan] is the fold count and the frames of the read a stream has not
    given back, with what they held when they were read; [early] is
    whether it attached before the log was wiped. *)
Record Reader := mkReader { loan : option (nat * list (nat * F)); early : bool }.

(** [hist] is every frame the run appended and [wiped] whether the log was
    wiped; neither is a field of the program. *)
Record Sys := mkSys {
  smem : Mem;
  slog : FrameLog;
  readers : gmap nat Reader;
  hist : list nat;
  wiped : bool;
}.
#[global] Instance Sys_eta : Eta Sys := λ s,
  mkSys (smem s) (slog s) (readers s) (hist s) (wiped s).

Definition live (l : FrameLog) : list nat :=
  (data <$> (checkpoint l ++ frames l)) ++ concat (retired l).*2.

Definition can_wipe (l : FrameLog) : bool :=
  ended l && negb (bool_decide (0 < draining l)%Z) && negb (held l).

(** The system after an operation that may have wiped the log. *)
Definition with_wipe (s : Sys) (r : Mem * FrameLog) : Sys :=
  s <| smem := r.1 |> <| slog := r.2 |> <| wiped ::= λ w, w || can_wipe r.2 |>.

Definition snapshot (m : Mem) (bs : list nat) : list (nat * F) :=
  omap (λ b, (b,.) <$> cells m !! b) bs.

Inductive Action :=
  | AGrow (f : F) (k : frameKind) (ky : string)
  | AFold (merge : list F → F) (activity : string → option F)
  | AAttach (r : nat)
  | ARead (r from : nat)
  | ADone (r : nat)
  | ADetach (r : nat)
  | AHold
  | ARelease
  | AClose (err : Er).

Inductive step : Sys → Action → Sys → Prop :=
  | step_grow s f k ky m b :
      closed (slog s) = None → alloc (smem s) f = (m, b) →
      step s (AGrow f k ky)
        (s <| smem := m |> <| slog := (grow m (slog s) b k ky).1 |> <| hist ::= λ h, h ++ [b] |>)
  | step_fold s merge activity m l :
      fold merge activity (smem s) (slog s) = (m, l) →
      step s (AFold merge activity) (s <| smem := m |> <| slog := l |>)
  | step_attach s r :
      readers s !! r = None →
      step s (AAttach r)
        (s <| slog ::= Attach |> <| readers ::= <[r := mkReader None (negb (wiped s))]> |>)
  | step_read s r e from l ck fs first :
      readers s !! r = Some (mkReader None e) →
      Read (slog s) from = (l, (ck, fs, first)) →
      step s (ARead r from)
        (s <| slog := l |>
           <| readers ::= <[r := mkReader (Some (folds (slog s), snapshot (smem s) (ck ++ fs))) e]> |>)
  | step_done s r e fl bs m l :
      readers s !! r = Some (mkReader (Some (fl, bs)) e) →
      done_reading (smem s) (slog s) fl = (m, l) →
      step s (ADone r)
        (s <| smem := m |> <| slog := l |> <| readers ::= <[r := mkReader None e]> |>)
  | step_detach s r e :
      readers s !! r = Some (mkReader None e) →
      step s (ADetach r)
        (with_wipe (s <| readers ::= delete r |>) (Detach (smem s) (slog s)))
  | step_hold s :
      step s AHold (s <| slog ::= hold |>)
  | step_release s :
      step s ARelease (with_wipe s (release (smem s) (slog s)))
  | step_close s err :
      step s (AClose err) (with_wipe s (close (smem s) (slog s) err)).

Definition init (s : Sys) : Prop := s = mkSys (mkMem ∅ 0) newRunlog ∅ [] false.
Definition reach : Sys → Prop := reachable init step.

(** *** Clearing *)

Lemma fresh_clear_all bs m : fresh (clear_all m bs) = fresh m.
Proof. unfold clear_all. revert m. induction bs as [|b bs IH]; intros m; [done|]. cbn. by rewrite IH. Qed.

Lemma cells_clear_all_ne bs m b : b ∉ bs → cells (clear_all m bs) !! b = cells m !! b.
Proof.
  unfold clear_all. revert m. induction bs as [|c bs IH]; intros m Hb; [done|].
  cbn. rewrite IH by set_solver. cbn. rewrite lookup_alter_ne; [done|set_solver].
Qed.

Lemma dom_clear_all bs m b : is_Some (cells (clear_all m bs) !! b) ↔ is_Some (cells m !! b).
Proof.
  unfold clear_all. revert m. induction bs as [|c bs IH]; intros m; [done|].
  cbn. rewrite IH. cbn. rewrite lookup_alter. decide_eq; [by rewrite fmap_is_Some|done].
Qed.

(** [b] holds a frame's bytes zeroed. *)
Definition zeroed (m : Mem) (b : nat) : Prop := ∃ f, cells m !! b = Some (fclear f).

Lemma zeroed_clear m b c : zeroed m c → zeroed (clear m b) c.
Proof.
  intros [f Hf]. unfold zeroed, clear; cbn. rewrite lookup_alter. decide_eq; [|eauto].
  rewrite Hf; cbn; eauto.
Qed.

Lemma zeroed_clear_all bs m b :
  is_Some (cells m !! b) → (b ∈ bs ∨ zeroed m b) → zeroed (clear_all m bs) b.
Proof.
  unfold clear_all. revert m. induction bs as [|c bs IH]; intros m Hs Hb.
  - destruct Hb as [Hb|]; [set_solver|done].
  - cbn. apply IH.
    + cbn. rewrite lookup_alter. decide_eq; [by rewrite fmap_is_Some|done].
    + destruct Hb as [[->|Hb]%elem_of_cons|Hb]; [|by left|].
      * right. destruct Hs as [f Hf]. exists f. cbn. by rewrite lookup_alter_eq, Hf.
      * right. by apply zeroed_clear.
Qed.

(** *** What folding keeps, drops and makes *)

(** Memory below [n] is as it was and nothing above [fresh] is allocated. *)
Definition grown (m0 m : Mem) : Prop :=
  fresh m0 ≤ fresh m ∧
  (∀ b, b < fresh m0 → cells m !! b = cells m0 !! b) ∧
  (∀ b, fresh m0 ≤ b → (is_Some (cells m !! b) ↔ b < fresh m)).

Lemma grown_alloc m0 m f : grown m0 m → grown m0 (alloc m f).1.
Proof.
  intros (Hf & Hold & Hnew). split_and!; cbn; [lia| |].
  - intros b Hb. rewrite lookup_insert_ne by lia. eauto.
  - intros b Hb. rewrite lookup_insert. decide_eq; [split; eauto; lia|].
    rewrite Hnew by done. lia.
Qed.

(** The frames a fold has gone through are kept, waiting or dropped, once
    each, and with them the frames it made. *)
Record fold_ok (m0 : Mem) (done_ : list nat) (s : FoldSt) : Prop := {
  fold_grown : grown m0 (fmem s);
  fold_perm : (data <$> (fck s ++ run s)) ++ dropped s ≡ₚ
              done_ ++ seq (fresh m0) (fresh (fmem s) - fresh m0);
}.

Lemma removelast_app_last {A} (x : A) l :
  l ≠ [] → removelast l ++ [List.last l x] = l.
Proof. intros H. symmetry. by apply app_removelast_last. Qed.

Lemma seq_grow a b : a ≤ b → seq a (S b - a) = seq a (b - a) ++ [b].
Proof.
  intros. replace (S b - a) with (S (b - a)) by lia. rewrite seq_S. do 2 f_equal. lia.
Qed.

Lemma flush_run merge s : run (flush merge s) = [].
Proof. unfold flush. by destruct (run s) as [|? [|? [|? ?]]]. Qed.

Lemma fold_ok_flush merge m0 ds s : fold_ok m0 ds s → fold_ok m0 ds (flush merge s).
Proof.
  intros [Hg Hp]. unfold flush.
  destruct (run s) as [|e0 [|e1 [|e2 es]]] eqn:Hr.
  1,2,3: split; [done|]; cbn; rewrite Hr, app_nil_r; done.
  set (rn := e0 :: e1 :: e2 :: es) in *.
  split; [by apply grown_alloc|]. cbn -[removelast List.last fmap list_fmap].
  rewrite seq_grow by apply Hg.
  assert (Hl : data <$> rn = (data <$> removelast rn) ++ [data (List.last rn e0)]).
  { change [data (List.last rn e0)] with (data <$> [List.last rn e0]).
    by rewrite <- fmap_app, removelast_app_last. }
  rewrite fmap_app, Hl in Hp. rewrite (app_assoc ds), <- Hp, !fmap_app. cbn.
  solve_Permutation.
Qed.

Lemma fold_ok_entry merge activity m0 ds s e :
  fold_ok m0 ds s → fold_ok m0 (ds ++ [data e]) (fold_entry merge activity s e).
Proof.
  intros Hok. unfold fold_entry. destruct (_ && _).

  - destruct Hok as [Hg Hp]. split; [done|]. cbn.
    trans (((data <$> fck s ++ run s) ++ dropped s) ++ [data e]).
    + rewrite !fmap_app. cbn. solve_Permutation.
    + rewrite Hp. solve_Permutation.
  - apply (fold_ok_flush merge) in Hok. pose proof (flush_run merge s) as Hrun.
    revert Hok Hrun. generalize (flush merge s) as t. intros t [Hg Hp] Hrun.
    rewrite Hrun, app_nil_r in Hp.
    assert (Hskip : (data <$> fck t) ++ dropped t ++ [data e] ≡ₚ
                    (ds ++ [data e]) ++ seq (fresh m0) (fresh (fmem t) - fresh m0)).
    { rewrite app_assoc, Hp. solve_Permutation. }
    destruct (kind e); [| |case_bool_decide; [|destruct (activity _)]];
      (split; [try done; by apply grown_alloc|]); cbn;
      rewrite ?Hrun, ?app_nil_r, ?fmap_app; cbn.
    1,2,3,5: etrans; [|exact Hskip]; solve_Permutation.
    rewrite seq_grow, (app_assoc (ds ++ _)), <- Hskip by apply Hg. solve_Permutation.
Qed.

Lemma fold_ok_foldl merge activity m0 es ds s :
  fold_ok m0 ds s →
  fold_ok m0 (ds ++ (data <$> es)) (foldl (fold_entry merge activity) s es).
Proof.
  revert ds s. induction es as [|e es IH]; intros ds s Hok; cbn; [by rewrite app_nil_r|].
  rewrite cons_middle, app_assoc. apply IH. by apply fold_ok_entry.
Qed.

(** The state [fold] ends its loop in. *)
Definition folded merge activity (m : Mem) (l : FrameLog) : FoldSt :=
  flush merge (foldl (fold_entry merge activity) (mkFoldSt m [] [] [] 0 ∅)
                 (checkpoint l ++ frames l)).

Lemma folded_ok merge activity m l :
  (∀ b, is_Some (cells m !! b) ↔ b < fresh m) →
  let s := folded merge activity m l in
  grown m (fmem s) ∧
  (data <$> fck s) ++ dropped s ≡ₚ
  (data <$> (checkpoint l ++ frames l)) ++ seq (fresh m) (fresh (fmem s) - fresh m).
Proof.
  intros Hdom s.
  assert (H : fold_ok m (data <$> (checkpoint l ++ frames l)) s).
  { apply fold_ok_flush. apply (fold_ok_foldl _ _ _ _ []). split; cbn.
    - split_and!; [lia|done|]. intros b Hb. rewrite Hdom. done.
    - by rewrite Nat.sub_diag. }
  destruct H as [Hg Hp]. split; [done|].
  unfold s, folded in Hp. by rewrite flush_run, app_nil_r in Hp.
Qed.

(** *** The invariant *)

Definition lent_at (x : Reader) : option nat := fst <$> loan x.
Definition loans_at (rs : gmap nat Reader) (fl : nat) : Z :=
  Z.of_nat (base.size (filter (λ p : nat * Reader, lent_at p.2 = Some fl) rs)).

Lemma loans_at_insert rs r y fl :
  rs !! r = None →
  loans_at (<[r := y]> rs) fl =
  (loans_at rs fl + if decide (lent_at y = Some fl) then 1 else 0)%Z.
Proof.
  intros Hr. unfold loans_at. destruct (decide _) as [Hd|Hd].
  - rewrite map_filter_insert_True by done. rewrite map_size_insert_None; [lia|].
    apply map_lookup_filter_None. by left.
  - rewrite map_filter_insert_False by done. rewrite delete_id by done. lia.
Qed.

Lemma loans_at_delete rs r x fl :
  rs !! r = Some x →
  loans_at rs fl =
  (loans_at (delete r rs) fl + if decide (lent_at x = Some fl) then 1 else 0)%Z.
Proof.
  intros Hr. rewrite <- (loans_at_insert (delete r rs) r x) by apply lookup_delete_eq.
  by rewrite insert_delete_eq, insert_id.
Qed.

Lemma loans_at_update rs r x y fl :
  rs !! r = Some x →
  loans_at (<[r := y]> rs) fl =
  (loans_at rs fl - (if decide (lent_at x = Some fl) then 1 else 0)
   + (if decide (lent_at y = Some fl) then 1 else 0))%Z.
Proof.
  intros Hr. rewrite <- (insert_delete_eq rs).
  rewrite loans_at_insert by apply lookup_delete_eq.
  rewrite (loans_at_delete rs r x) by done. lia.
Qed.

Lemma loans_at_lent rs r x fl :
  rs !! r = Some x → lent_at x = Some fl → (0 < loans_at rs fl)%Z.
Proof.
  intros Hr Hx. rewrite (loans_at_delete rs r x) by done.
  rewrite decide_True by done. unfold loans_at. lia.
Qed.

(** What a stream holds: each frame is as it was read, and is in the log
    or retired by a fold made after it was read. *)
Definition intact (m : Mem) (l : FrameLog) (fl : nat) (bs : list (nat * F)) : Prop :=
  ∀ b f, (b, f) ∈ bs →
    cells m !! b = Some f ∧
    (b ∈ data <$> (checkpoint l ++ frames l) ∨ ∃ k ds, (k, ds) ∈ retired l ∧ fl < k ∧ b ∈ ds).

(** The invariant but for what wiping establishes. *)
Record Inv0 (s : Sys) : Prop := {
  i_dom b : is_Some (cells (smem s) !! b) ↔ b < fresh (smem s);
  i_nodup : NoDup (live (slog s));
  i_live b : b ∈ live (slog s) → b < fresh (smem s);
  i_zero b : b < fresh (smem s) → b ∈ live (slog s) ∨ zeroed (smem s) b;
  i_loan r fl bs e : readers s !! r = Some (mkReader (Some (fl, bs)) e) →
    fl ≤ folds (slog s) ∧ intact (smem s) (slog s) fl bs;
  i_lent fl : default 0%Z (lent (slog s) !! fl) = loans_at (readers s) fl ∧
    lent (slog s) !! fl ≠ Some 0%Z;
  i_drain : draining (slog s) = Z.of_nat (base.size (readers s));
  i_hist : wiped s = false →
    data <$> frames (slog s) = drop (base (slog s)) (hist s) ∧ base (slog s) ≤ length (hist s);
  i_early r x : readers s !! r = Some x → early x = true → wiped s = false;
  i_closed : ended (slog s) = true → is_Some (closed (slog s));
}.

Record Inv (s : Sys) : Prop := {
  i_inv0 :> Inv0 s;
  i_ended : can_wipe (slog s) = true → live (slog s) = [];
}.

Lemma i_lent_some s r fl bs e :
  Inv0 s → readers s !! r = Some (mkReader (Some (fl, bs)) e) → is_Some (lent (slog s) !! fl).
Proof.
  intros HI Hr. destruct (i_lent _ HI fl) as [Hl _].
  pose proof (loans_at_lent _ _ _ fl Hr eq_refl).
  destruct (lent (slog s) !! fl); [eauto|]. cbn in Hl. lia.
Qed.

Lemma oldest_le l fl : is_Some (lent l !! fl) → oldest l ≤ fl.
Proof.
  intros [n Hn]. unfold oldest.
  assert (Hin : fl ∈ (map_to_list (lent l)).*1).
  { apply list_elem_of_fmap. exists (fl, n). split; [done|]. by apply elem_of_map_to_list. }
  revert Hin. generalize ((map_to_list (lent l)).*1) as ks.
  induction ks as [|k ks IH]; [set_solver|]. cbn.
  intros [->|Hin]%elem_of_cons; [lia|]. specialize (IH Hin). lia.
Qed.

(** *** Reclaiming and wiping preserve it *)

Lemma concat_filter_perm (p : nat * list nat → bool) rs :
  concat rs.*2 ≡ₚ concat (List.filter p rs).*2 ++ concat (List.filter (λ r, negb (p r)) rs).*2.
Proof.
  induction rs as [|r rs IH]; [done|]. cbn. rewrite IH.
  destruct (p r); cbn; solve_Permutation.
Qed.

Lemma elem_of_concat_retired (rs : list (nat * list nat)) b :
  b ∈ concat rs.*2 ↔ ∃ k ds, (k, ds) ∈ rs ∧ b ∈ ds.
Proof.
  induction rs as [|[k ds] rs IH]; cbn; [set_solver|].
  rewrite elem_of_app, IH. set_solver.
Qed.

(** [clear_all] of the frames that leave the live ones. *)
Lemma inv0_cleared s l' gone :
  Inv0 s →
  live (slog s) ≡ₚ live l' ++ gone →
  folds l' = folds (slog s) → lent l' = lent (slog s) → draining l' = draining (slog s) →
  ended l' = ended (slog s) → closed l' = closed (slog s) →
  (∀ r fl bs e, readers s !! r = Some (mkReader (Some (fl, bs)) e) →
     ∀ b, b ∈ bs.*1 → b ∈ data <$> (checkpoint (slog s) ++ frames (slog s)) ∨
          (∃ k ds, (k, ds) ∈ retired (slog s) ∧ fl < k ∧ b ∈ ds) →
          b ∈ data <$> (checkpoint l' ++ frames l') ∨
          (∃ k ds, (k, ds) ∈ retired l' ∧ fl < k ∧ b ∈ ds)) →
  ∀ w, (w = false → wiped s = false ∧ frames l' = frames (slog s) ∧ base l' = base (slog s)) →
  (∀ r x, readers s !! r = Some x → w = wiped s) →
  Inv0 (s <| smem := clear_all (smem s) gone |> <| slog := l' |> <| wiped := w |>).
Proof.
  intros [] Hperm Hf Hl Hd Hen Hcl Hkeep w Hw Hr.
  assert (Hnd : NoDup (live l' ++ gone)) by (by rewrite <- Hperm).
  apply NoDup_app in Hnd as (Hnd & Hdisj & _).
  assert (Hlive : ∀ b, b ∈ live l' → b ∈ live (slog s)) by (intros; rewrite Hperm; set_solver).
  split; cbn; rewrite ?Hf, ?Hl, ?Hd, ?Hen, ?Hcl; eauto.
  - intros b. rewrite dom_clear_all, fresh_clear_all. done.
  - intros b Hb. rewrite fresh_clear_all. eauto.
  - intros b. rewrite fresh_clear_all. intros Hb.
    destruct (i_zero0 b Hb) as [Hin|]; [rewrite Hperm in Hin; apply elem_of_app in Hin as [|]|].
    + by left.
    + right. apply zeroed_clear_all; [by apply i_dom0|by left].
    + right. apply zeroed_clear_all; [by apply i_dom0|by right].
  - intros r fl bs e Hrr. destruct (i_loan0 _ _ _ _ Hrr) as [Hle Hint]. split; [done|].
    intros b f Hb. destruct (Hint b f Hb) as [Hc Hwh].
    specialize (Hkeep _ _ _ _ Hrr b).
    assert (Hb' : b ∈ data <$> (checkpoint l' ++ frames l') ∨
          (∃ k ds, (k, ds) ∈ retired l' ∧ fl < k ∧ b ∈ ds)).
    { apply Hkeep; [|done]. apply list_elem_of_fmap. by exists (b, f). }
    split; [|done]. rewrite cells_clear_all_ne; [done|]. intros Hg.
    apply (Hdisj b); [|done]. unfold live. apply elem_of_app.
    destruct Hb' as [|(k & ds & ? & _ & ?)]; [by left|right].
    apply elem_of_concat_retired; eauto.
  - intros Hww. destruct (Hw Hww) as (? & -> & ->). eauto.
Qed.

Lemma inv0_reclaim s :
  Inv0 s →
  Inv0 (s <| smem := (reclaim (smem s) (slog s)).1 |> <| slog := (reclaim (smem s) (slog s)).2 |>).
Proof.
  intros HI.
  refine (inv0_cleared s (reclaim (smem s) (slog s)).2
    (concat (List.filter (λ r, negb (bool_decide (oldest (slog s) < r.1))) (retired (slog s))).*2)
    HI _ _ _ _ _ _ _ (wiped s) _ _); try done.
  - unfold live. cbn. rewrite <- app_assoc. f_equiv. apply concat_filter_perm.
  - intros r fl bs e Hr b Hb [|(k & ds & Hin & Hlt & Hbd)]; [by left|right].
    exists k, ds. split; [|done]. apply list_elem_of_In, filter_In. split.
    + by apply list_elem_of_In.
    + apply bool_decide_eq_true. cbn.
      pose proof (oldest_le (slog s) fl (i_lent_some _ _ _ _ _ HI Hr)). lia.
Qed.

Lemma inv_wipe s m l :
  Inv0 (s <| smem := m |> <| slog := l |>) → Inv (with_wipe s (wipe m l)).
Proof.
  intros HI. unfold wipe, with_wipe.
  assert (Hc : negb (ended l) || bool_decide (0 < draining l)%Z || held l = negb (can_wipe l)).
  { unfold can_wipe. destruct (ended l), (bool_decide _), (held l); done. }
  rewrite Hc. destruct (can_wipe l) eqn:Hcw; cbn.
  - split; [|done]. unfold clear_all. rewrite <- foldl_app. fold (clear_all m).
    change (can_wipe _) with (can_wipe l). rewrite Hcw, orb_true_r.
    assert (Hnone : ∀ r x, readers s !! r = Some x → False).
    { pose proof (i_drain _ HI) as Hd. cbn in Hd. unfold can_wipe in Hcw.
      apply andb_true_iff in Hcw as [[_ Hz%negb_true_iff]%andb_true_iff _].
      apply bool_decide_eq_false in Hz. intros r x Hr.
      assert (readers s = ∅) as He by (apply map_size_empty_inv; lia).
      rewrite He in Hr. done. }
    refine (inv0_cleared _ (l <| checkpoint := [] |> <| frames := [] |> <| retired := [] |>) (live l) HI
              _ _ _ _ _ _ _ true _ _); try done.
    + intros r ? ? ? Hr. by destruct (Hnone _ _ Hr).
    + intros r ? Hr. by destruct (Hnone _ _ Hr).
  - split; [|cbn; rewrite Hcw; done]. rewrite Hcw, orb_false_r. done.
Qed.

(** *** Every step preserves it *)

#[local] Arguments reclaim : simpl never.
#[local] Arguments wipe : simpl never.

Lemma inv0_grow s f k ky m b :
  Inv0 s → closed (slog s) = None → alloc (smem s) f = (m, b) →
  Inv0 (s <| smem := m |> <| slog := (grow m (slog s) b k ky).1 |> <| hist ::= λ h, h ++ [b] |>).
Proof.
  intros [] Hcl [= <- <-]. unfold grow. rewrite Hcl. cbn.
  assert (Hp : (data <$> (checkpoint (slog s) ++ frames (slog s) ++ [mkEntry (fresh (smem s)) k ky])) ++
           concat (retired (slog s)).*2 ≡ₚ fresh (smem s) :: live (slog s)).
  { unfold live. rewrite !fmap_app. cbn. solve_Permutation. }
  assert (Hn : fresh (smem s) ∉ live (slog s)) by (intros H%i_live0; lia).
  split; unfold live; cbn; eauto.
  - intros c. rewrite lookup_insert. decide_eq; [split; eauto; lia|].
    rewrite i_dom0. lia.
  - rewrite Hp. by constructor.
  - intros c. rewrite Hp. intros [->|Hc%i_live0]%elem_of_cons; lia.
  - intros c Hc. destruct (decide (c = fresh (smem s))) as [->|].
    + left. rewrite Hp. left.
    + destruct (i_zero0 c) as [|[g Hg]]; [lia|left; rewrite Hp; by right|right].
      exists g. cbn. by rewrite lookup_insert_ne.
  - intros r fl bs e Hr. destruct (i_loan0 _ _ _ _ Hr) as [? Hi]. split; [done|].
    intros c g Hc. destruct (Hi _ _ Hc) as [Hg Hw]. split.
    + cbn. rewrite lookup_insert_ne; [done|]. intros <-.
      assert (is_Some (cells (smem s) !! fresh (smem s))) as Hx%i_dom0 by eauto. lia.
    + destruct Hw as [Hw|]; [left|by right]. cbn. rewrite app_assoc, fmap_app. set_solver.
  - intros Hw. destruct (i_hist0 Hw) as [Hd Hl]. rewrite fmap_app, Hd, length_app. cbn.
    split; [|lia]. by rewrite drop_app_le.
Qed.

Lemma inv0_fold s merge activity m l :
  Inv0 s → fold merge activity (smem s) (slog s) = (m, l) →
  Inv0 (s <| smem := m |> <| slog := l |>).
Proof.
  intros HI. unfold fold. destruct (closed (slog s)); [intros [= <- <-]; by destruct s|].
  fold (folded merge activity (smem s) (slog s)).
  pose proof (folded_ok merge activity (smem s) (slog s) (i_dom _ HI)) as [Hg Hp].
  revert Hg Hp. generalize (folded merge activity (smem s) (slog s)) as t.
  intros t (Hf & Hold & Hnew) Hp Hrec.
  set (l' := (slog s) <| checkpoint := fck t |> <| base ::= λ n, n + length (frames (slog s)) |>
     <| frames := [] |> <| bytes := 0%Z |> <| folds ::= S |>
     <| retired := retired (slog s) ++ [(S (folds (slog s)), dropped t)] |>).
  assert (HI' : Inv0 (s <| smem := fmem t |> <| slog := l' |>)); last first.
  { assert (Hr' : reclaim (fmem t) l' = (m, l)) by exact Hrec. clearbody l'.
    pose proof (inv0_reclaim _ HI') as H2. cbn in H2. by rewrite Hr' in H2. }
  destruct HI.
  assert (Hpl : live l' ≡ₚ live (slog s) ++ seq (fresh (smem s)) (fresh (fmem t) - fresh (smem s))).
  { unfold live at 1, l'. cbn. rewrite app_nil_r, fmap_app, concat_app. cbn. rewrite app_nil_r.
    unfold live. trans (((data <$> fck t) ++ dropped t) ++ concat (retired (slog s)).*2);
      [solve_Permutation|]. rewrite Hp. solve_Permutation. }
  split; cbn -[l']; eauto.
  - intros b. destruct (decide (b < fresh (smem s))); [rewrite Hold, i_dom0 by done; lia|].
    apply Hnew. lia.
  - rewrite Hpl. apply NoDup_app. split_and!; [done| |apply NoDup_seq].
    intros b Hb%i_live0 Hb'%elem_of_seq. lia.
  - intros b. rewrite Hpl, elem_of_app, elem_of_seq. intros [?%i_live0|]; lia.
  - intros b Hb. rewrite Hpl, elem_of_app, elem_of_seq.
    destruct (decide (b < fresh (smem s))) as [Hlt|]; [|left; right; lia].
    destruct (i_zero0 b Hlt) as [|[f Hz]]; [left; by left|right; exists f; by rewrite Hold].
  - intros r fl bs e Hr. destruct (i_loan0 _ _ _ _ Hr) as [? Hi]. split; [cbn; lia|].
    intros b f Hb. destruct (Hi _ _ Hb) as [Hc Hw]. split.
    { rewrite Hold; [done|]. apply i_dom0. eauto. }
    destruct Hw as [Hw|(k & ds & ? & ? & ?)].
    + assert (Hin : b ∈ (data <$> fck t) ++ dropped t) by (rewrite Hp; set_solver).
      apply elem_of_app in Hin as [Hin|Hin].
      * left. cbn. by rewrite app_nil_r.
      * right. exists (S (folds (slog s))), (dropped t). cbn. split_and!; [set_solver|lia|done].
    + right. exists k, ds. cbn. split_and!; [set_solver|done|done].
  - intros Hw. destruct (i_hist0 Hw) as [Hd Hl].
    assert (length (frames (slog s)) = length (hist s) - base (slog s)) as Hlen.
    { rewrite <- (length_fmap data), Hd, length_drop. done. }
    cbn. split; [|lia]. symmetry. apply drop_ge. lia.
Qed.

(** Changing only the fields no frame, loan or reader depends on. *)
Lemma inv0_log s l :
  Inv0 s →
  checkpoint l = checkpoint (slog s) → frames l = frames (slog s) →
  retired l = retired (slog s) → base l = base (slog s) → folds l = folds (slog s) →
  lent l = lent (slog s) → draining l = draining (slog s) →
  (ended l = true → is_Some (closed l)) →
  Inv0 (s <| slog := l |>).
Proof.
  intros [] Hc Hf Hr Hb Hfo Hle Hd Hec.
  assert (Hlive : live l = live (slog s)) by (unfold live; by rewrite Hc, Hf, Hr).
  split; cbn; rewrite ?Hlive, ?Hf, ?Hb, ?Hle, ?Hd; eauto.
  intros r fl bs e Hrd. rewrite Hfo. destruct (i_loan0 _ _ _ _ Hrd) as [? Hi].
  split; [done|]. intros b f Hbf. rewrite Hc, Hf, Hr. by apply Hi.
Qed.

Lemma elem_of_snapshot m bs b f : (b, f) ∈ snapshot m bs → b ∈ bs ∧ cells m !! b = Some f.
Proof.
  unfold snapshot. intros (x & Hx & Hs)%list_elem_of_omap.
  apply fmap_Some in Hs as (g & Hg & [= <- <-]). done.
Qed.

Lemma inv0_read s r e from l ck fs first :
  Inv0 s → readers s !! r = Some (mkReader None e) →
  Read (slog s) from = (l, (ck, fs, first)) →
  Inv0 (s <| slog := l |>
          <| readers ::= <[r := mkReader (Some (folds (slog s), snapshot (smem s) (ck ++ fs))) e]> |>).
Proof.
  intros [] Hr. unfold Read. intros [= <- Hck Hfs Hfirst].
  assert (Hin : ∀ b, b ∈ ck ++ fs → b ∈ data <$> (checkpoint (slog s) ++ frames (slog s))).
  { intros b. rewrite fmap_app, !elem_of_app. intros [Hb|Hb].
    - left. subst ck. case_bool_decide; set_solver.
    - right. subst fs. rewrite fmap_drop in Hb. by eapply elem_of_subseteq in Hb;
        [|apply (sublist_subseteq _ _ (sublist_drop _ _))]. }
  clear Hck Hfs Hfirst.
  split; cbn; eauto.
  - intros r' fl bs e' Hr'. destruct (decide (r = r')) as [->|].
    + rewrite lookup_insert_eq in Hr'. simplify_eq. split; [done|].
      intros b f [? ?]%elem_of_snapshot. split; [done|]. left. cbn. eauto.
    + rewrite lookup_insert_ne in Hr' by done. destruct (i_loan0 _ _ _ _ Hr') as [? Hi].
      done.
  - intros fl. rewrite (loans_at_update _ _ (mkReader None e)) by done.
    destruct (i_lent0 fl) as [Hl Hn]. rewrite lookup_partial_alter. cbn.
    destruct (decide (folds (slog s) = fl)) as [->|].
    + rewrite decide_False, decide_True by done. cbn. rewrite Hl.
      assert (0 <= loans_at (readers s) fl)%Z by (unfold loans_at; lia).
      split; [lia|]. intros [=]. lia.
    + rewrite decide_False, decide_False by naive_solver. split; [lia|done].
  - rewrite map_size_insert_Some; eauto.
  - intros r' x Hx He. destruct (decide (r = r')) as [->|].
    + rewrite lookup_insert_eq in Hx. simplify_eq. by eapply (i_early0 r').
    + rewrite lookup_insert_ne in Hx by done. eauto.
Qed.

Lemma inv0_done s r e fl bs m l :
  Inv0 s → readers s !! r = Some (mkReader (Some (fl, bs)) e) →
  done_reading (smem s) (slog s) fl = (m, l) →
  Inv0 (s <| smem := m |> <| slog := l |> <| readers ::= <[r := mkReader None e]> |>).
Proof.
  intros HI Hr. unfold done_reading.
  set (n := (default 0 (lent (slog s) !! fl) - 1)%Z).
  set (l1 := (slog s) <| lent ::= if bool_decide (n = 0)%Z then delete fl else <[fl := n]> |>).
  intros Hrec.
  assert (HI' : Inv0 (s <| slog := l1 |> <| readers ::= <[r := mkReader None e]> |>)); last first.
  { assert (Hrec' : reclaim (smem s) l1 = (m, l)) by exact Hrec. clearbody l1.
    pose proof (inv0_reclaim _ HI') as H2. cbn in H2. by rewrite Hrec' in H2. }
  destruct HI. clear Hrec. unfold l1. split; cbn; eauto.
  - intros r' fl' bs' e' Hr'. destruct (decide (r = r')) as [->|].
    + by rewrite lookup_insert_eq in Hr'.
    + rewrite lookup_insert_ne in Hr' by done. destruct (i_loan0 _ _ _ _ Hr') as [? Hi]. done.
  - intros fl'. rewrite (loans_at_update _ _ (mkReader (Some (fl, bs)) e)) by done. cbn.
    destruct (i_lent0 fl') as [Hl Hn].
    rewrite (decide_False (P := None = Some fl')) by done.
    destruct (decide (fl = fl')) as [->|].
    + rewrite (decide_True (P := Some fl' = Some fl')) by done. fold n.
      case_bool_decide as Hz; [rewrite lookup_delete_eq|rewrite lookup_insert_eq];
        unfold n in *; cbn; split; [lia|done|lia|congruence].
    + rewrite (decide_False (P := Some fl = Some fl')) by congruence. fold n.
      case_bool_decide; [rewrite lookup_delete_ne by done|rewrite lookup_insert_ne by done];
        (split; [lia|done]).
  - rewrite map_size_insert_Some; eauto.
  - intros r' x Hx He. destruct (decide (r = r')) as [->|].
    + rewrite lookup_insert_eq in Hx. simplify_eq. by eapply (i_early0 r').
    + rewrite lookup_insert_ne in Hx by done. eauto.
Qed.

Lemma inv_attach s r :
  Inv s → readers s !! r = None →
  Inv (s <| slog ::= Attach |> <| readers ::= <[r := mkReader None (negb (wiped s))]> |>).
Proof.
  intros [[] Hend] Hr. split; [split; cbn; eauto|].
  - intros r' fl bs e Hr'. destruct (decide (r = r')) as [->|].
    + by rewrite lookup_insert_eq in Hr'.
    + rewrite lookup_insert_ne in Hr' by done. destruct (i_loan0 _ _ _ _ Hr') as [? Hi]. done.
  - intros fl. rewrite loans_at_insert by done. cbn. rewrite decide_False by done.
    destruct (i_lent0 fl). split; [lia|done].
  - rewrite map_size_insert_None by done. lia.
  - intros r' x Hx He. destruct (decide (r = r')) as [->|].
    + rewrite lookup_insert_eq in Hx. simplify_eq/=. by destruct (wiped s).
    + rewrite lookup_insert_ne in Hx by done. eauto.
  - unfold can_wipe; cbn. rewrite i_drain0. intros H.
    apply andb_true_iff in H as [[_ H%negb_true_iff]%andb_true_iff _].
    apply bool_decide_eq_false in H. lia.
Qed.

(** A log somebody reads, or that still takes frames, cannot be wiped. *)
Lemma no_wipe_reader s r x : Inv0 s → readers s !! r = Some x → can_wipe (slog s) = false.
Proof.
  intros [] Hr. unfold can_wipe. rewrite i_drain0.
  assert (base.size (readers s) ≠ 0).
  { intros Hz%map_size_empty_inv. by rewrite Hz in Hr. }
  rewrite bool_decide_true by lia. by rewrite andb_false_r.
Qed.

Lemma no_wipe_open s : Inv0 s → closed (slog s) = None → can_wipe (slog s) = false.
Proof.
  intros [] Hc. unfold can_wipe. destruct (ended (slog s)); [|done].
  destruct i_closed0 as [? ?]; [done|congruence].
Qed.

Lemma inv_step s a s' : Inv s → step s a s' → Inv s'.
Proof.
  intros HI Hs.
  destruct Hs as [s f k ky m b Hc Ha|s mg ac m l Hf|s r Hr|s r e from l ck fs first Hr Hrd
                 |s r e fl bs m l Hr Hd|s r e Hr|s|s|s err].
  - split; [by apply (inv0_grow s f); [apply HI|..]|].
    pose proof (no_wipe_open _ HI Hc) as Hw. unfold grow. rewrite Hc.
    unfold can_wipe in *. cbn. by rewrite Hw.
  - split; [by eapply inv0_fold; [apply HI|]|]. unfold fold in Hf.
    destruct (closed (slog s)) eqn:Hc; [simplify_eq; apply HI|].
    pose proof (no_wipe_open _ HI Hc) as Hw. unfold reclaim in Hf. simplify_eq.
    unfold can_wipe in *. cbn. by rewrite Hw.
  - by apply inv_attach.
  - split; [by eapply inv0_read; [apply HI|..]|].
    pose proof (no_wipe_reader _ _ _ HI Hr) as Hw. unfold Read in Hrd. simplify_eq.
    unfold can_wipe in *. cbn. by rewrite Hw.
  - split; [by eapply inv0_done; [apply HI|..]|].
    pose proof (no_wipe_reader _ _ _ HI Hr) as Hw. unfold done_reading, reclaim in Hd.
    simplify_eq. unfold can_wipe in *. cbn. by rewrite Hw.
  - apply inv_wipe. destruct HI as [[] _]. split; cbn; eauto.
    + intros r' fl bs e' [? Hr']%lookup_delete_Some.
      destruct (i_loan0 _ _ _ _ Hr') as [? Hi]. done.
    + intros fl. destruct (i_lent0 fl) as [Hl Hn].
      rewrite (loans_at_delete _ _ _ fl Hr) in Hl. cbn in Hl.
      rewrite decide_False in Hl by done. split; [lia|done].
    + rewrite i_drain0. rewrite map_size_delete_Some by eauto.
      assert (base.size (readers s) ≠ 0); [|lia].
      intros Hz%map_size_empty_inv. by rewrite Hz in Hr.
    + intros r' x [? Hx]%lookup_delete_Some. eauto.
  - split; [apply (inv0_log s); try done; apply HI|].
    unfold can_wipe; cbn. by rewrite andb_false_r.
  - apply inv_wipe. destruct s. apply (inv0_log _ _ HI); try done. apply HI.
  - apply inv_wipe. destruct s as [sm l rd h w]. destruct (closed l) eqn:Hc;
      apply (inv0_log _ _ HI); cbn; rewrite ?Hc; eauto.
Qed.

Lemma inv_init s : init s → Inv s.
Proof.
  intros ->. split; [|done]. split; cbn; try done; try set_solver.
  - intros b. rewrite lookup_empty. split; [by intros []|lia].
  - constructor.
  - intros. lia.
Qed.

Lemma reach_inv s : reach s → Inv s.
Proof. apply (reachable_invariant _ _ Inv); eauto using inv_init, inv_step. Qed.

(** Folding leaves no frame in the checkpoint twice, and none that a retired
    list holds. *)
Lemma folded_nodup s merge activity :
  Inv0 s → let t := folded merge activity (smem s) (slog s) in
  NoDup ((data <$> fck t) ++ dropped t ++ concat (retired (slog s)).*2).
Proof.
  intros HI t. pose proof (folded_ok merge activity (smem s) (slog s) (i_dom _ HI)) as [Hg Hp].
  fold t in Hg, Hp. pose proof (i_nodup _ HI) as Hn. unfold live in Hn.
  assert (Hpl : (data <$> fck t) ++ dropped t ++ concat (retired (slog s)).*2 ≡ₚ
    live (slog s) ++ seq (fresh (smem s)) (fresh (fmem t) - fresh (smem s))).
  { rewrite app_assoc, Hp. unfold live. solve_Permutation. }
  rewrite Hpl. apply NoDup_app. split_and!; [apply HI| |apply NoDup_seq].
  intros b Hb%(i_live _ HI). rewrite elem_of_seq. lia.
Qed.

(** ** Following a run: engine/follow.go and engine/stream.go *)

Definition errCursor : ApiError :=
  mkApiError 400 "BAD_REQUEST" "Last-Event-ID must be an event's cursor".
Definition errNeverSent : ApiError :=
  mkApiError 400 "BAD_REQUEST" "Last-Event-ID names an event this run never sent".

Definition ResumeFrom (l : FrameLog) (lastEventID : string) : result ApiError nat :=
  if bool_decide (lastEventID = "") then Ok 0
  else
    match Atoi lastEventID with
    | None => Err errCursor
    | Some after =>
        if bool_decide (after < 0)%Z then Err errCursor
        else if bool_decide (after < Z.of_nat (sent l))%Z then Ok (Z.to_nat after + 1)
        else Err errNeverSent
    end.

(** The events [Follow] writes for one read, each with the cursor it
    names, if it names one. *)
Definition send (checkpoint frames : list nat) (first : nat) : list (option Z * nat) :=
  imap (λ i b, (if bool_decide (i = length checkpoint - 1) then Some (Z.of_nat first - 1)%Z
                else None, b)) checkpoint ++
  imap (λ i b, (Some (Z.of_nat (first + i)), b)) frames.

(** One turn of [Follow]'s loop: the log's frames from [from], the events
    written, and where the next turn reads from. *)
Definition Follow_turn (l : FrameLog) (from : nat) : FrameLog * list (option Z * nat) * nat :=
  let '(l', (ck, fs, first)) := Read l from in (l', send ck fs first, first + length fs).

Lemma sent_hist s : Inv0 s → wiped s = false → sent (slog s) = length (hist s).
Proof.
  intros HI Hw. destruct (i_hist _ HI Hw) as [Hf Hb]. unfold sent.
  apply (f_equal length) in Hf. rewrite length_fmap, length_drop in Hf. lia.
Qed.

Lemma Read_spec s from l ck fs first :
  Inv0 s → wiped s = false → from ≤ length (hist s) →
  Read (slog s) from = (l, (ck, fs, first)) →
  first = Nat.max from (base (slog s)) ∧ fs = drop first (hist s) ∧
  ck = (if decide (from < base (slog s)) then data <$> checkpoint (slog s) else []) ∧
  first + length fs = length (hist s).
Proof.
  intros HI Hw Hfrom. destruct (i_hist _ HI Hw) as [Hf Hb]. unfold Read.
  assert (Hlen : length (frames (slog s)) = length (hist s) - base (slog s)).
  { apply (f_equal length) in Hf. by rewrite length_fmap, length_drop in Hf. }
  case_bool_decide as Hlt; intros [= <- <- <- <-]; rewrite fmap_drop, Hf, !drop_drop;
    (split; [lia|]).
  - rewrite decide_True by done. split_and!; [f_equal; lia|done|].
    rewrite length_drop. lia.
  - rewrite decide_False by done. split_and!; [f_equal; lia|done|].
    rewrite length_drop. lia.
Qed.

(** C30. What a stream has read it can send. Between the read that lent it a
    run's frames and giving them back, no frame a stream holds changes: no
    fold, release, close or detach, by whatever goroutine and in whatever
    order, zeroes or reuses the bytes it is writing to its client. *)
Theorem lent_frames_intact s r fl bs e b f :
  reach s → readers s !! r = Some (mkReader (Some (fl, bs)) e) → (b, f) ∈ bs →
  cells (smem s) !! b = Some f.
Proof.
  intros HI%reach_inv Hr Hb. destruct (i_loan _ HI _ _ _ _ Hr) as [_ Hi].
  by apply (Hi b f).
Qed.

(** Nothing of a run outlives it. Once the run has ended, no stream
    follows it and its log is not held for its client, the log has no frame
    left and every frame ever made, whether it was sent, folded away,
    merged or retired, is zeroed. *)
Theorem ended_log_zeroed s :
  reach s → ended (slog s) = true → readers s = ∅ → held (slog s) = false →
  live (slog s) = [] ∧ ∀ b, is_Some (cells (smem s) !! b) → zeroed (smem s) b.
Proof.
  intros HI%reach_inv He Hr Hh.
  assert (Hw : can_wipe (slog s) = true).
  { unfold can_wipe. rewrite He, Hh, (i_drain _ HI), Hr, map_size_empty. done. }
  pose proof (i_ended _ HI Hw) as Hl. split; [done|]. intros b Hb%(i_dom _ HI).
  destruct (i_zero _ HI b Hb) as [Hin|]; [|done]. rewrite Hl in Hin. set_solver.
Qed.

(** C19. A follower is sent every frame once. A stream that resumes after a
    cursor its run sent reads the run's frames from the one after that
    cursor, in order and to the last; if those have been folded it reads
    the whole checkpoint and the frames since. Either way, the next turn of
    its loop reads from the frame after the last one appended. *)
Theorem follow_exact s r x id from l ck fs first :
  reach s → readers s !! r = Some x → early x = true →
  ResumeFrom (slog s) id = Ok from → Read (slog s) from = (l, (ck, fs, first)) →
  (from < base (slog s) → ck = data <$> checkpoint (slog s) ∧ fs = drop (base (slog s)) (hist s)) ∧
  (base (slog s) ≤ from → ck = [] ∧ fs = drop from (hist s)) ∧
  (Follow_turn (slog s) from).2 = length (hist s) ∧
  (id ≠ "" → Atoi id = Some (Z.of_nat from - 1)%Z ∧ from ≤ length (hist s)).
Proof.
  intros HI%reach_inv Hr He Hres HR.
  pose proof (i_early _ HI _ _ Hr He) as Hw. pose proof (sent_hist _ HI Hw) as Hs.
  assert (Hfrom : from ≤ length (hist s) ∧ (id ≠ "" → Atoi id = Some (Z.of_nat from - 1)%Z)).
  { unfold ResumeFrom in Hres. case_bool_decide; [simplify_eq; split; [lia|done]|].
    destruct (Atoi id) as [n|]; [|done]. case_bool_decide; [done|].
    case_bool_decide; [|done]. simplify_eq. split; [lia|]. intros _. f_equal. lia. }
  destruct Hfrom as [Hfrom Hid].
  unfold Follow_turn. rewrite HR. cbn.
  destruct (Read_spec _ _ _ _ _ _ HI Hw Hfrom HR) as (Hf & Hfs & Hck & Hn).
  split_and!; [| |done|by split; [apply Hid|]].
  - intros Hlt. rewrite decide_True in Hck by done. split; [done|].
    rewrite Hfs. f_equal. lia.
  - intros Hle. rewrite decide_False in Hck by lia. split; [done|].
    rewrite Hfs. f_equal. lia.
Qed.
End RunLog.

(** *** Instances of the theorems *)

Section Witnesses.
Let flen (f : string) : Z := Z.of_nat (String.length f).
Let fclear (f : string) : string := string_of (replicate (String.length f) Ascii.zero).
Let w0 : Sys (F:=string) (Er:=string) := mkSys (mkMem ∅ 0) newRunlog ∅ [] false.
Let grow_step (s : Sys (F:=string) (Er:=string)) f k ky :=
  let '(m, b) := alloc (smem s) f in
  s <| smem := m |> <| slog := (grow flen m (slog s) b k ky).1 |> <| hist ::= λ h, h ++ [b] |>.
Let read_step (s : Sys (F:=string) (Er:=string)) r from :=
  let p := Read (slog s) from in
  s <| slog := p.1 |>
    <| readers ::= <[r := mkReader (Some (folds (slog s), snapshot (smem s) (p.2.1.1 ++ p.2.1.2))) true]> |>.
(** Two deltas are framed, and a stream attaches and reads them. *)
Let w1 := grow_step (grow_step w0 "data: 1" frameDelta "t") "data: 2" frameDelta "t".
Let w2 := w1 <| slog ::= Attach |> <| readers ::= <[0 := mkReader None (negb (wiped w1))]> |>.
Let w3 := read_step w2 0 0.
(** Meanwhile the run folds its log. *)
Let folded_w3 := fold flen fclear (λ fs, String.concat "" fs) (λ _, None) (smem w3) (slog w3).
Let w4 := w3 <| smem := folded_w3.1 |> <| slog := folded_w3.2 |>.

Lemma w1_reach : reach flen fclear w1.
Proof.
  eapply reachable_step; [eapply reachable_step; [by apply reachable_init|]|];
    [exact (step_grow flen fclear w0 "data: 1" frameDelta "t" _ _ eq_refl eq_refl)|].
  exact (step_grow flen fclear (grow_step w0 "data: 1" frameDelta "t")
           "data: 2" frameDelta "t" _ _ eq_refl eq_refl).
Qed.

Lemma w2_reach : reach flen fclear w2.
Proof. eapply reachable_step; [apply w1_reach|]. by apply (step_attach _ _ w1 0). Qed.

Lemma w3_reach : reach flen fclear w3.
Proof.
  refine (reachable_step _ _ w2 _ w3 w2_reach _).
  apply (step_read flen fclear w2 0 true 0 (Read (slog w2) 0).1 (Read (slog w2) 0).2.1.1
           (Read (slog w2) 0).2.1.2 (Read (slog w2) 0).2.2); [vm_compute; reflexivity|].
  by destruct (Read (slog w2) 0) as [? [[? ?] ?]].
Qed.

Lemma w4_reach : reach flen fclear w4.
Proof.
  refine (reachable_step _ _ w3 _ w4 w3_reach _).
  exact (step_fold flen fclear w3 (λ fs, String.concat "" fs) (λ _, None)
           folded_w3.1 folded_w3.2 (surjective_pairing _)).
Qed.

Lemma lent_frames_intact_witness : cells (smem w4) !! 1 = Some "data: 2".
Proof.
  apply (lent_frames_intact flen fclear w4 0 0 [(0, "data: 1"); (1, "data: 2")] true);
    [exact w4_reach|reflexivity|]. right. left.
Defined.

Let w5 := with_wipe w1 (close fclear (smem w1) (slog w1) "ended").

Lemma ended_log_zeroed_witness : live (slog w5) = [] ∧ zeroed fclear (smem w5) 1.
Proof.
  destruct (ended_log_zeroed flen fclear w5) as [H1 H2];
    [|vm_compute; reflexivity|vm_compute; reflexivity|vm_compute; reflexivity|].
  - eapply reachable_step; [apply w1_reach|]. exact (step_close flen fclear w1 "ended").
  - split; [exact H1|]. apply H2. vm_compute. eexists; reflexivity.
Defined.

Lemma follow_exact_witness :
  (Follow_turn (slog w2) 1).2 = length (hist w2) ∧ (Read (slog w2) 1).2 = ([], [1], 1).
Proof.
  destruct (follow_exact flen fclear w2 0 (mkReader None true) "0" 1
              (Read (slog w2) 1).1 [] [1] 1) as (_ & _ & H & _);
    [exact w2_reach|vm_compute; reflexivity|reflexivity|vm_compute; reflexivity
    |vm_compute; reflexivity|].
  split; [exact H|vm_compute; reflexivity].
Defined.
End Witnesses.
End RunLog.
