(* ===== verification/SearchIndex.v ===== *)
(** * The per-user search index: internal/searchindex/index.go

    The inverted index from tokens to the slots of the chats that hold them,
    with tombstones for what was replaced or removed and the compaction that
    reclaims them, and the check a stored index passes when it is read. *)

From S2P Require Import Prelude GoStd.
From stdpp Require Import sorting.

Module SearchIndex.
Import GoStd.

Definition FormatVersion : Z := 1.
Definition MaxChats : Z := 50000.
Definition MaxTokensPerChat : Z := 512.
Definition MaxChunksPerChat : Z := 8.
Definition minTokenLen : Z := 2.
Definition maxIdentifierLen : Z := 64.
Definition compactionMinDead : Z := 64.
Definition maxReindexCursorLength : Z := 4096.
Definition maxSerializedSlots : Z := (MaxChats * 2)%Z.

(** What the operations and [Decode] refuse; the messages are not kept. *)
Inductive error :=
  | ErrDecode
  | ErrFormat
  | ErrTooLarge
  | ErrInvalid.
#[export] Instance error_eq_dec : EqDecision error.
Proof. solve_decision. Defined.

Definition Vector := list Z.

Record Entry := mkEntry {
  Slot : Z;
  ETag : string;
  SourceRevision : Z;
  UpdatedAt : string;
  Vectors : list Vector;
  EmbeddingPending : bool;
  EmbeddingKeyID : string;
}.
#[export] Instance Entry_eta : Eta Entry := λ e,
  mkEntry (Slot e) (ETag e) (SourceRevision e) (UpdatedAt e) (Vectors e)
    (EmbeddingPending e) (EmbeddingKeyID e).

Record ReindexProgress := mkReindex {
  NextCursor : string;
  TargetSourceRevision : Z;
  StartedAt : string;
}.

Record Index := mkIndex {
  Version : Z;
  Model : string;
  Dims : Z;
  Incomplete : bool;
  Reindex : option ReindexProgress;
  Slots : list string;
  Chats : gmap string Entry;
  Postings : gmap string (list Z);
  dead : Z;
}.
#[export] Instance Index_eta : Eta Index := λ ix,
  mkIndex (Version ix) (Model ix) (Dims ix) (Incomplete ix) (Reindex ix) (Slots ix) (Chats ix)
    (Postings ix) (dead ix).

Definition New (model : string) : Index :=
  mkIndex FormatVersion model 0 false None [] ∅ ∅ 0.

(** [slots[i]] and [slots[i] = v], which panic out of range. *)
Definition slot_at {A} (l : list A) (i : Z) : option A :=
  if bool_decide (0 ≤ i)%Z then l !! Z.to_nat i else None.
Definition set_slot {A} (l : list A) (i : Z) (v : A) : option (list A) :=
  match slot_at l i with
  | Some _ => Some (<[Z.to_nat i := v]> l)
  | None => None
  end.

(** The sizes of a list, a map and a string as Go counts them. *)
Definition len {A} (l : list A) : Z := Z.of_nat (length l).
Definition map_len {A} (m : gmap string A) : Z := Z.of_nat (size m).
Definition strlen (s : string) : Z := Z.of_nat (String.length s).

(** A hexadecimal digit as the index writes key ids. *)
Definition lower_hex (c : ascii) : bool :=
  is_digit c || bool_decide (97 ≤ byte_of c ≤ 102)%Z.

Definition validEmbeddingKeyID (keyID : string) : bool :=
  bool_decide (keyID = "") ||
  (bool_decide (strlen keyID = 32%Z) && forallb lower_hex (bytes_of keyID)).

Definition validPostingToken (tok : string) : bool :=
  bool_decide (minTokenLen ≤ strlen tok ≤ maxIdentifierLen)%Z.

Definition validatedVectorDims (indexDims : Z) (vectors : list Vector) : result error Z :=
  if bool_decide (MaxChunksPerChat < len vectors)%Z then Err ErrInvalid
  else
    foldl (λ acc v,
      match acc with
      | Err e => Err e
      | Ok dims =>
          if bool_decide (v = []) then Err ErrInvalid
          else if bool_decide (dims = 0)%Z then Ok (len v)
          else if bool_decide (len v = dims) then Ok dims
          else Err ErrInvalid
      end) (Ok indexDims) vectors.

(** ** Compaction *)

(** The loop over [Slots] that numbers the live ones anew. *)
Definition renumber (slots : list string) : gmap Z Z * list string :=
  foldl (λ '(remap, newSlots) '(oldSlot, id),
      if bool_decide (id = "") then (remap, newSlots)
      else (<[oldSlot := len newSlots]> remap, newSlots ++ [id]))
    (∅, []) (imap (λ i id, (Z.of_nat i, id)) slots).

Definition compacted (ix : Index) : Index :=
  let '(remap, newSlots) := renumber (Slots ix) in
  ix <| Chats ::= fmap (λ e, e <| Slot := default 0%Z (remap !! Slot e) |>) |>
     <| Postings ::= omap (λ slots,
          let kept := omap (λ s, remap !! s) slots in
          if bool_decide (kept = []) then None else Some (merge_sort Z.le kept)) |>
     <| Slots := newSlots |>
     <| dead := 0%Z |>.

Definition maybeCompact (ix : Index) : Index :=
  if bool_decide (dead ix < compactionMinDead)%Z || bool_decide (dead ix ≤ map_len (Chats ix))%Z
  then ix else compacted ix.

(** ** Mutations *)

(** The loop of [Upsert] over the chat's tokens, with what [seen] holds. *)
Fixpoint post (slot : Z) (tokens : list string) (seen : gset string)
    (postings : gmap string (list Z)) : gmap string (list Z) :=
  match tokens with
  | [] => postings
  | tok :: tokens =>
      if negb (validPostingToken tok) then post slot tokens seen postings
      else if bool_decide (tok ∈ seen) then post slot tokens seen postings
      else
        let seen := {[tok]} ∪ seen in
        let postings := <[tok := default [] (postings !! tok) ++ [slot]]> postings in
        if bool_decide (MaxTokensPerChat ≤ Z.of_nat (size seen))%Z then postings
        else post slot tokens seen postings
  end.

(** An operation either panics, or changes the index and returns its error:
    [option (result error () * Index)]. *)
Definition Upsert (ix : Index) (id : string) (e : Entry) (tokens : list string)
  : option (result error () * Index) :=
  if bool_decide (id = "") then Some (Err ErrInvalid, ix)
  else if bool_decide (SourceRevision e < 0)%Z then Some (Err ErrInvalid, ix)
  else if negb (validEmbeddingKeyID (EmbeddingKeyID e)) then Some (Err ErrInvalid, ix)
  else if negb (EmbeddingPending e) && negb (bool_decide (EmbeddingKeyID e = ""))
    then Some (Err ErrInvalid, ix)
  else
    match validatedVectorDims (Dims ix) (Vectors e) with
    | Err err => Some (Err err, ix)
    | Ok dims =>
        if bool_decide (Chats ix !! id = None) && bool_decide (MaxChats ≤ map_len (Chats ix))%Z
          then Some (Err ErrTooLarge, ix)
        else
          let ix := ix <| Dims := dims |> in
          ix ← match Chats ix !! id with
               | Some old =>
                   slots ← set_slot (Slots ix) (Slot old) "";
                   Some (ix <| Slots := slots |> <| dead ::= Z.succ |>)
               | None => Some ix
               end;
          let e := e <| Slot := len (Slots ix) |> in
          let ix := ix <| Slots ::= λ s, s ++ [id] |> <| Chats ::= <[id := e]> |> in
          Some (Ok (), maybeCompact (ix <| Postings ::= post (Slot e) tokens ∅ |>))
    end.

Definition RepairEmbedding (ix : Index) (id : string) (vectors : list Vector)
  : result error () * Index :=
  match Chats ix !! id with
  | None => (Err ErrInvalid, ix)
  | Some entry =>
      match validatedVectorDims (Dims ix) vectors with
      | Err err => (Err err, ix)
      | Ok dims =>
          let entry := entry <| Vectors := vectors |> <| EmbeddingPending := false |>
                             <| EmbeddingKeyID := "" |> in
          (Ok (), ix <| Chats ::= <[id := entry]> |> <| Dims := dims |>)
      end
  end.

Definition MarkEmbeddingKey (ix : Index) (id keyID : string) : bool * Index :=
  match Chats ix !! id with
  | None => (false, ix)
  | Some entry =>
      if negb (EmbeddingPending entry) || bool_decide (keyID = "") ||
         negb (validEmbeddingKeyID keyID) || bool_decide (EmbeddingKeyID entry = keyID)
      then (false, ix)
      else (true, ix <| Chats ::= <[id := entry <| EmbeddingKeyID := keyID |>]> |>)
  end.

Definition Remove (ix : Index) (id : string) : option Index :=
  match Chats ix !! id with
  | None => Some ix
  | Some e =>
      slots ← set_slot (Slots ix) (Slot e) "";
      Some (maybeCompact (ix <| Slots := slots |> <| dead ::= Z.succ |> <| Chats ::= delete id |>))
  end.

(** ** Queries *)

Definition Compatible (ix : Index) (model : string) : bool := bool_decide (Model ix = model).

Definition NeedsEmbeddingRepair (ix : Index) : bool :=
  existsb (λ p : string * Entry, EmbeddingPending p.2) (map_to_list (Chats ix)).

Definition NeedsEmbeddingRepairFor (ix : Index) (keyID : string) : bool :=
  existsb (λ p : string * Entry, EmbeddingPending p.2 &&
      (bool_decide (EmbeddingKeyID p.2 = "") || bool_decide (EmbeddingKeyID p.2 = keyID)))
    (map_to_list (Chats ix)).

(** [livePostings] panics where a posting is out of range. *)
Definition livePostings (ix : Index) (tok : string) : option (list Z) :=
  foldr (λ s live,
      id ← slot_at (Slots ix) s;
      live ← live;
      Some (if bool_decide (id = "") then live else s :: live))
    (Some []) (default [] (Postings ix !! tok)).

(** ** Reading a stored index *)

Section Decode.
(** [time.Parse(time.RFC3339Nano, _)] succeeds. *)
Context (validTime : string → bool).

Definition validEntry (dims : Z) (e : Entry) : bool :=
  bool_decide (0 ≤ SourceRevision e)%Z &&
  validEmbeddingKeyID (EmbeddingKeyID e) &&
  (EmbeddingPending e || bool_decide (EmbeddingKeyID e = "")) &&
  bool_decide (len (Vectors e) ≤ MaxChunksPerChat)%Z &&
  forallb (λ v, negb (bool_decide (v = [])) && bool_decide (len v = dims)) (Vectors e).

Definition validReindex (ix : Index) : bool :=
  match Reindex ix with
  | None => true
  | Some r =>
      Incomplete ix &&
      negb (bool_decide (NextCursor r = "")) &&
      bool_decide (strlen (NextCursor r) ≤ maxReindexCursorLength)%Z &&
      bool_decide (0 ≤ TargetSourceRevision r)%Z &&
      validTime (StartedAt r)
  end.

Fixpoint ascending (n : Z) (prev : Z) (slots : list Z) : bool :=
  match slots with
  | [] => true
  | s :: slots => bool_decide (0 ≤ s < n)%Z && bool_decide (prev < s)%Z && ascending n s slots
  end.

Definition validPosting (n : Z) (p : string * list Z) : bool :=
  validPostingToken p.1 && negb (bool_decide (p.2 = [])) && bool_decide (len p.2 ≤ n)%Z &&
  ascending n (-1) p.2.

Definition live_slots (slots : list string) : list string := filter (λ id, id ≠ "") slots.

Definition validSlot (ix : Index) (id : string) : bool :=
  match Chats ix !! id with
  | Some e => bool_decide (slot_at (Slots ix) (Slot e) = Some id)
  | None => false
  end.

Definition totalPostings (ix : Index) : Z :=
  Z.of_nat (sum_list (length <$> (map_to_list (Postings ix)).*2)).

Definition posted (ix : Index) (s : Z) : bool :=
  existsb (λ p : string * list Z, bool_decide (s ∈ p.2)) (map_to_list (Postings ix)).

(** The last loop: a chat whose tokens are posted but that has no vectors
    waits for them. It indexes by the entry's slot, whatever that is. *)
Definition pend (ix : Index) : option Index :=
  chats ← map_fold (λ id e chats,
      chats ← chats;
      if bool_decide (Vectors e = []) then
        _ ← slot_at (Slots ix) (Slot e);
        Some (if posted ix (Slot e) then <[id := e <| EmbeddingPending := true |>]> chats else chats)
      else Some chats)
    (Some (Chats ix)) (Chats ix);
  Some (ix <| Chats := chats |>).

(** [Decode] of what [json.Unmarshal] made of the stored bytes, if it made
    anything; [None] is a panic. *)
Definition Decode (parsed : option Index) : option (result error Index) :=
  match parsed with
  | None => Some (Err ErrDecode)
  | Some ix =>
      let live := len (live_slots (Slots ix)) in
      let ix := ix <| dead := (len (Slots ix) - live)%Z |> in
      if negb (bool_decide (Version ix = FormatVersion)) then Some (Err ErrFormat)
      else if bool_decide (maxSerializedSlots < len (Slots ix))%Z then Some (Err ErrInvalid)
      else if negb (forallb (validSlot ix) (live_slots (Slots ix))) then Some (Err ErrInvalid)
      else if negb (bool_decide (live = map_len (Chats ix))) then Some (Err ErrInvalid)
      else if bool_decide (compactionMinDead ≤ dead ix)%Z && bool_decide (live < dead ix)%Z
        then Some (Err ErrInvalid)
      else if bool_decide (MaxChats < map_len (Chats ix))%Z then Some (Err ErrInvalid)
      else if negb (validReindex ix) then Some (Err ErrInvalid)
      else if negb (forallb (λ p : string * Entry, validEntry (Dims ix) p.2) (map_to_list (Chats ix)))
        then Some (Err ErrInvalid)
      else if negb (forallb (validPosting (len (Slots ix))) (map_to_list (Postings ix)))
        then Some (Err ErrInvalid)
      else if bool_decide (len (Slots ix) * MaxTokensPerChat < totalPostings ix)%Z
        then Some (Err ErrInvalid)
      else ix ← pend ix; Some (Ok ix)
  end.
End Decode.

(** The tokens a chat is posted under: the valid ones, each once, and the
    first [MaxTokensPerChat] of those. *)
Fixpoint distinct (seen : gset string) (toks : list string) : list string :=
  match toks with
  | [] => []
  | t :: toks => if bool_decide (t ∈ seen) then distinct seen toks
                 else t :: distinct ({[t]} ∪ seen) toks
  end.
Definition chat_tokens (toks : list string) : list string :=
  take (Z.to_nat MaxTokensPerChat) (distinct ∅ (List.filter validPostingToken toks)).

(** ** Lemmas on slots and posting lists *)

Lemma slot_at_Some {A} (l : list A) i x :
  slot_at l i = Some x ↔ ∃ k, i = Z.of_nat k ∧ l !! k = Some x.
Proof.
  unfold slot_at. split.
  - case_bool_decide; [|done]. intros Hl. exists (Z.to_nat i). split; [lia|done].
  - intros (k & -> & Hl). rewrite bool_decide_true by lia. by rewrite Nat2Z.id.
Qed.

Lemma slot_at_nat {A} (l : list A) k : slot_at l (Z.of_nat k) = l !! k.
Proof. unfold slot_at. rewrite bool_decide_true by lia. by rewrite Nat2Z.id. Qed.

Lemma set_slot_Some {A} (l : list A) k x v :
  l !! k = Some x → set_slot l (Z.of_nat k) v = Some (<[k := v]> l).
Proof. intros Hl. unfold set_slot. by rewrite slot_at_nat, Hl, Nat2Z.id. Qed.

Lemma live_slots_app l1 l2 : live_slots (l1 ++ l2) = live_slots l1 ++ live_slots l2.
Proof. apply filter_app. Qed.

Lemma live_slots_one id : live_slots [id] = if bool_decide (id = "") then [] else [id].
Proof.
  unfold live_slots. rewrite filter_cons, filter_nil.
  case_bool_decide; destruct (decide _); naive_solver.
Qed.

Lemma live_slots_split l k id :
  l !! k = Some id → id ≠ "" →
  live_slots l = live_slots (take k l) ++ id :: live_slots (drop (S k) l).
Proof.
  intros Hk Hid. rewrite <- (take_drop_middle l k id Hk) at 1.
  rewrite live_slots_app. unfold live_slots at 2. rewrite filter_cons_True by done. done.
Qed.

Lemma live_slots_tomb l k id :
  l !! k = Some id → id ≠ "" → len (live_slots (<[k := ""]> l)) = (len (live_slots l) - 1)%Z.
Proof.
  intros Hk Hid. rewrite (live_slots_split l k id) by done.
  assert (Hlt : k < length l) by by eapply lookup_lt_Some.
  rewrite insert_take_drop by done. rewrite live_slots_app.
  unfold live_slots at 2. rewrite filter_cons_False by naive_solver.
  unfold len. rewrite !length_app. cbn [length]. fold (live_slots (drop (S k) l)). lia.
Qed.

Lemma live_slots_lookup l i x :
  live_slots l !! i = Some x →
  ∃ k, l !! k = Some x ∧ x ≠ "" ∧ i = length (live_slots (take k l)).
Proof.
  revert i. induction l as [|y l IH] using rev_ind; [done|].
  intros i. rewrite live_slots_app, live_slots_one, lookup_app_Some. intros [Hi|[Hle Hi]].
  - destruct (IH _ Hi) as (k & Hk & Hx & ->). exists k.
    pose proof (lookup_lt_Some _ _ _ Hk). rewrite lookup_app_l, take_app_le by lia. done.
  - case_bool_decide; [done|]. destruct (i - _) as [|j] eqn:Hj; [|done]. cbn in Hi. simplify_eq.
    exists (length l). rewrite lookup_app_r, Nat.sub_diag, take_app_length by lia.
    split_and!; [done..|lia].
Qed.

Lemma ascending_spec n prev l :
  ascending n prev l = true ↔
  Forall (λ s, 0 ≤ s < n ∧ prev < s)%Z l ∧ StronglySorted Z.lt l.
Proof.
  revert prev. induction l as [|s l IH]; intros prev; cbn.
  - split; [|done]. intros _. split; constructor.
  - rewrite !andb_true_iff, !bool_decide_eq_true, IH, Forall_cons. split.
    + intros [[Hs Hp] [Hl Hsort]]. split_and!; try lia.
      * eapply Forall_impl; [exact Hl|]. cbn. lia.
      * constructor; [done|]. eapply Forall_impl; [exact Hl|]. cbn. lia.
    + intros [[Hs Hl] Hsort]. inversion Hsort as [|? ? Hsort' Hlt]; subst.
      split_and!; [lia..| |done].
      apply Forall_forall. intros x Hx. rewrite Forall_forall in Hl, Hlt.
      specialize (Hl x Hx). specialize (Hlt x Hx). lia.
Qed.

Lemma sorted_lt_NoDup l : StronglySorted Z.lt l → NoDup l.
Proof.
  induction 1 as [|x l Hs IH Hx]; constructor; [|done].
  intros Hin. rewrite Forall_forall in Hx. specialize (Hx x Hin). lia.
Qed.

Lemma ascending_length n l : (0 ≤ n)%Z → ascending n (-1) l = true → (len l ≤ n)%Z.
Proof.
  intros Hn [Hf Hs]%ascending_spec. apply sorted_lt_NoDup in Hs.
  assert (Hsub : l ⊆ (Z.of_nat <$> seq 0 (Z.to_nat n))).
  { intros x Hx. rewrite Forall_forall in Hf. specialize (Hf x Hx).
    apply list_elem_of_fmap. exists (Z.to_nat x). rewrite elem_of_seq. lia. }
  pose proof (submseteq_length _ _ (NoDup_submseteq _ _ Hs Hsub)) as Hlen.
  rewrite length_fmap, length_seq in Hlen. unfold len. lia.
Qed.

Lemma validPosting_spec n tok l :
  (0 ≤ n)%Z →
  validPosting n (tok, l) = true ↔
  validPostingToken tok = true ∧ l ≠ [] ∧ Forall (λ s, 0 ≤ s < n)%Z l ∧ StronglySorted Z.lt l.
Proof.
  intros Hn. unfold validPosting; cbn.
  rewrite !andb_true_iff, negb_true_iff, bool_decide_eq_false, bool_decide_eq_true. split.
  - intros [[[? ?] ?] [Hf Hs]%ascending_spec]. split_and!; try done.
    eapply Forall_impl; [exact Hf|]. cbn. lia.
  - intros (? & ? & Hf & Hs).
    assert (Ha : ascending n (-1) l = true).
    { apply ascending_spec. split; [|done]. eapply Forall_impl; [exact Hf|]. cbn. lia. }
    split_and!; try done. by apply ascending_length.
Qed.

(** ** Renumbering *)

Lemma renumber_snoc slots id :
  renumber (slots ++ [id]) =
  let '(remap, newSlots) := renumber slots in
  if bool_decide (id = "") then (remap, newSlots)
  else (<[len slots := len newSlots]> remap, newSlots ++ [id]).
Proof.
  unfold renumber. rewrite imap_app, foldl_app. cbn. rewrite Nat.add_0_r.
  by destruct (foldl _ _ _).
Qed.

Lemma renumber_spec slots :
  (renumber slots).2 = live_slots slots ∧
  ∀ i n, (renumber slots).1 !! i = Some n ↔
    ∃ k id, i = Z.of_nat k ∧ slots !! k = Some id ∧ id ≠ "" ∧ n = len (live_slots (take k slots)).
Proof.
  induction slots as [|id slots [IH2 IH1]] using rev_ind.
  - split; [done|]. intros i n. cbn. rewrite lookup_empty. split; [done|].
    intros (k & id & _ & H & _). done.
  - rewrite renumber_snoc. destruct (renumber slots) as [remap new]. cbn in *. subst new.
    rewrite live_slots_app. split.
    + rewrite live_slots_one. case_bool_decide; cbn; by rewrite ?app_nil_r.
    + intros i n. split.
      * intros Hi. assert (Hcase : (remap !! i = Some n) ∨
          (id ≠ "" ∧ i = len slots ∧ n = len (live_slots slots))).
        { case_bool_decide; cbn in Hi; [by left|].
          apply lookup_insert_Some in Hi as [[<- <-]|[_ Hi]]; [by right|by left]. }
        destruct Hcase as [Hr|(Hid & -> & ->)].
        -- apply IH1 in Hr as (k & id' & -> & Hk & Hid' & ->). exists k, id'.
           assert (k < length slots) by by eapply lookup_lt_Some.
           rewrite lookup_app_l, take_app_le by lia. done.
        -- exists (length slots), id. rewrite lookup_app_r, Nat.sub_diag by lia.
           rewrite take_app_length. done.
      * intros (k & id' & -> & Hk & Hid' & ->). apply lookup_app_Some in Hk as [Hk|[Hle Hk]].
        -- assert (k < length slots) by by eapply lookup_lt_Some.
           rewrite take_app_le by lia.
           assert (Hr : remap !! Z.of_nat k = Some (len (live_slots (take k slots)))).
           { apply IH1. by exists k, id'. }
           case_bool_decide; cbn; [done|]. rewrite lookup_insert_ne; [done|]. unfold len. lia.
        -- destruct (k - length slots) as [|j] eqn:Hj; [|done]. cbn in Hk. simplify_eq.
           rewrite bool_decide_false by done. cbn.
           assert (k = length slots) as -> by lia. rewrite take_app_length.
           by rewrite lookup_insert_eq.
Qed.

Lemma renumber_mono slots i j n m :
  (renumber slots).1 !! i = Some n → (renumber slots).1 !! j = Some m → (i < j)%Z → (n < m)%Z.
Proof.
  destruct (renumber_spec slots) as [_ H].
  intros (k & id & -> & Hk & Hid & ->)%H (k' & id' & -> & Hk' & Hid' & ->)%H Hlt.
  assert (Hkk : k < k') by lia.
  assert (Hin : take k' slots !! k = Some id) by by rewrite lookup_take_lt.
  rewrite (live_slots_split _ _ _ Hin Hid). rewrite take_take, Nat.min_l by lia.
  unfold len. rewrite length_app. cbn. lia.
Qed.

Lemma renumber_inj slots i j n :
  (renumber slots).1 !! i = Some n → (renumber slots).1 !! j = Some n → i = j.
Proof.
  intros Hi Hj. destruct (Ztrichotomy i j) as [Hlt|[?|Hlt]]; [|done|].
  - pose proof (renumber_mono _ _ _ _ _ Hi Hj Hlt). lia.
  - pose proof (renumber_mono _ _ _ _ _ Hj Hi ltac:(lia)). lia.
Qed.

Lemma renumber_lookup slots i n :
  (renumber slots).1 !! i = Some n →
  ∃ k id, i = Z.of_nat k ∧ slots !! k = Some id ∧ id ≠ "" ∧ (0 ≤ n)%Z ∧
    live_slots slots !! Z.to_nat n = Some id.
Proof.
  destruct (renumber_spec slots) as [_ H]. intros (k & id & -> & Hk & Hid & ->)%H.
  exists k, id. split_and!; [done..|unfold len; lia|].
  rewrite (live_slots_split _ _ _ Hk Hid). unfold len. rewrite Nat2Z.id.
  by rewrite lookup_app_r, Nat.sub_diag by lia.
Qed.

Lemma renumber_sorted slots l :
  StronglySorted Z.lt l → StronglySorted Z.lt (omap (λ s, (renumber slots).1 !! s) l).
Proof.
  induction 1 as [|x l Hs IH Hx]; [constructor|]. cbn.
  destruct ((renumber slots).1 !! x) as [n|] eqn:Hn; [|done].
  constructor; [done|]. apply Forall_forall. intros m (y & Hy & Hm)%list_elem_of_omap.
  rewrite Forall_forall in Hx. by eapply renumber_mono; [..|apply Hx].
Qed.

Lemma merge_sort_sorted l : StronglySorted Z.lt l → merge_sort Z.le l = l.
Proof.
  intros Hl. eapply (StronglySorted_unique Z.le).
  - apply (StronglySorted_merge_sort Z.le). 
  - clear -Hl. induction Hl as [|x l Hs IH Hx]; constructor; [done|].
    eapply Forall_impl; [exact Hx|]. cbn. lia.
  - apply merge_sort_Permutation.
Qed.

(** ** The invariant *)

Section WellFormed.
Context (validTime : string → bool).

(** Every slot below [n] is posted under at most [MaxTokensPerChat] tokens. *)
Definition posts_of (P : gmap string (list Z)) (s : Z) : gmap string (list Z) :=
  filter (λ p : string * list Z, s ∈ p.2) P.

(** All of the invariant but the bound on tombstones. *)
Record WF0 (ix : Index) : Prop := {
  wf_version : Version ix = FormatVersion;
  wf_slot id e : Chats ix !! id = Some e → id ≠ "" ∧ slot_at (Slots ix) (Slot e) = Some id;
  wf_live k id : Slots ix !! k = Some id → id ≠ "" →
    ∃ e, Chats ix !! id = Some e ∧ Slot e = Z.of_nat k;
  wf_dead : dead ix = (len (Slots ix) - len (live_slots (Slots ix)))%Z;
  wf_size : map_len (Chats ix) = len (live_slots (Slots ix));
  wf_max : (map_len (Chats ix) ≤ MaxChats)%Z;
  wf_entry id e : Chats ix !! id = Some e → validEntry (Dims ix) e = true;
  wf_reindex : validReindex validTime ix = true;
  wf_posting tok l : Postings ix !! tok = Some l → validPosting (len (Slots ix)) (tok, l) = true;
}.

(** No chat is posted under more tokens than it may contribute. *)
Definition Bounded (ix : Index) : Prop :=
  ∀ s, (map_len (posts_of (Postings ix) s) ≤ MaxTokensPerChat)%Z.

(** A well-formed index: what every operation keeps. *)
Record WF (ix : Index) : Prop := {
  wf0 :> WF0 ix;
  wf_compact : (dead ix < compactionMinDead ∨ dead ix ≤ map_len (Chats ix))%Z;
}.

(** A chat is found under a token. *)
Definition indexed (ix : Index) (id tok : string) : Prop :=
  ∃ e l, Chats ix !! id = Some e ∧ Postings ix !! tok = Some l ∧ Slot e ∈ l.

Lemma len_nonneg {A} (l : list A) : (0 ≤ len l)%Z.
Proof. unfold len. lia. Qed.

Lemma wf_slot_nat ix id e :
  WF0 ix → Chats ix !! id = Some e →
  ∃ k, Slot e = Z.of_nat k ∧ Slots ix !! k = Some id ∧ id ≠ "".
Proof.
  intros HI He. destruct (wf_slot _ HI _ _ He) as [Hid (k & -> & Hk)%slot_at_Some]. eauto.
Qed.

Lemma compacted_posting ix tok l' :
  WF0 ix → Postings (compacted ix) !! tok = Some l' ↔
  ∃ l, Postings ix !! tok = Some l ∧ l' = omap (λ s, (renumber (Slots ix)).1 !! s) l ∧ l' ≠ [].
Proof.
  intros HI. unfold compacted. destruct (renumber (Slots ix)) as [remap new] eqn:Hr. cbn.
  rewrite lookup_omap. destruct (Postings ix !! tok) as [l|] eqn:Hl; cbn; [|naive_solver].
  pose proof (wf_posting _ HI _ _ Hl) as (_ & _ & _ & Hs)%validPosting_spec; [|apply len_nonneg].
  assert (Hm : merge_sort Z.le (omap (λ s, remap !! s) l) = omap (λ s, remap !! s) l).
  { apply merge_sort_sorted. pose proof (renumber_sorted (Slots ix) l Hs) as H'.
    by rewrite Hr in H'. }
  rewrite Hm. split.
  - case_bool_decide; [done|]. intros [= <-]. eauto.
  - intros (l0 & [= <-] & -> & Hne). by rewrite bool_decide_false.
Qed.

Lemma compacted_chat ix id e' :
  Chats (compacted ix) !! id = Some e' ↔
  ∃ e, Chats ix !! id = Some e ∧
    e' = e <| Slot := default 0%Z ((renumber (Slots ix)).1 !! Slot e) |>.
Proof.
  unfold compacted. destruct (renumber (Slots ix)) as [remap new]. cbn.
  rewrite lookup_fmap, fmap_Some. done.
Qed.

Lemma compacted_slot ix id e :
  WF0 ix → Chats ix !! id = Some e →
  ∃ n, (renumber (Slots ix)).1 !! Slot e = Some n ∧ (0 ≤ n)%Z ∧
       live_slots (Slots ix) !! Z.to_nat n = Some id.
Proof.
  intros HI He. destruct (wf_slot_nat _ _ _ HI He) as (k & Hk & Hs & Hid).
  destruct (renumber_spec (Slots ix)) as [_ H].
  destruct (proj2 (H (Slot e) (len (live_slots (take k (Slots ix)))))) as []; [by exists k, id|].
  eexists. split; [apply H; by exists k, id|].
  unfold len. split; [lia|]. rewrite Nat2Z.id. rewrite (live_slots_split _ _ _ Hs Hid).
  by rewrite lookup_app_r, Nat.sub_diag by lia.
Qed.

Lemma compacted_indexed ix id tok :
  WF0 ix → indexed (compacted ix) id tok ↔ indexed ix id tok.
Proof.
  intros HI. split.
  - intros (e' & l' & (e & He & ->)%compacted_chat & (l & Hl & -> & _)%compacted_posting & Hin);
      [|done].
    exists e, l. split_and!; [done..|]. cbn in Hin.
    apply list_elem_of_omap in Hin as (s & Hs & Hn).
    destruct (compacted_slot _ _ _ HI He) as (n & Hn' & _). rewrite Hn' in Hn. cbn in Hn.
    by rewrite (renumber_inj _ _ _ _ Hn' Hn).
  - intros (e & l & He & Hl & Hin).
    destruct (compacted_slot _ _ _ HI He) as (n & Hn & _).
    assert (Hin' : n ∈ omap (λ s, (renumber (Slots ix)).1 !! s) l) by (apply list_elem_of_omap; eauto).
    eexists _, _. split_and!.
    + apply compacted_chat. eauto.
    + apply compacted_posting; [done|]. eexists. split_and!; [done..|].
      intros Hnil. rewrite Hnil in Hin'. set_solver.
    + cbn. by rewrite Hn.
Qed.

Lemma live_slots_idem l : live_slots (live_slots l) = live_slots l.
Proof. unfold live_slots. rewrite list_filter_filter. apply list_filter_iff. naive_solver. Qed.

Lemma compacted_slots ix : Slots (compacted ix) = live_slots (Slots ix).
Proof.
  unfold compacted. pose proof (renumber_spec (Slots ix)) as [H _].
  by destruct (renumber (Slots ix)).
Qed.

Lemma compacted_fields ix :
  Version (compacted ix) = Version ix ∧ Dims (compacted ix) = Dims ix ∧
  Model (compacted ix) = Model ix ∧
  Incomplete (compacted ix) = Incomplete ix ∧ Reindex (compacted ix) = Reindex ix ∧
  dead (compacted ix) = 0%Z ∧ map_len (Chats (compacted ix)) = map_len (Chats ix).
Proof.
  unfold compacted, map_len. destruct (renumber (Slots ix)). cbn.
  by rewrite map_size_fmap.
Qed.

Lemma map_len_filter_le {A} (P Q : string * A → Prop) `{∀ x, Decision (P x), ∀ x, Decision (Q x)}
    (m m' : gmap string A) :
  (∀ k x, m !! k = Some x → P (k, x) → ∃ y, m' !! k = Some y ∧ Q (k, y)) →
  (map_len (filter P m) ≤ map_len (filter Q m'))%Z.
Proof.
  intros Hsub. unfold map_len. rewrite <- !size_dom. apply inj_le, subseteq_size.
  intros k Hk. apply elem_of_dom in Hk as [x [Hk HP]%map_lookup_filter_Some].
  apply elem_of_dom. destruct (Hsub _ _ Hk HP) as (y & ? & ?).
  exists y. by apply map_lookup_filter_Some.
Qed.

Lemma live_slot ix i id :
  WF0 ix → live_slots (Slots ix) !! i = Some id →
  ∃ e, Chats ix !! id = Some e ∧ (renumber (Slots ix)).1 !! Slot e = Some (Z.of_nat i).
Proof.
  intros HI (k & Hk & Hid & ->)%live_slots_lookup.
  destruct (wf_live _ HI _ _ Hk Hid) as (e & He & Hse). exists e. split; [done|].
  destruct (renumber_spec (Slots ix)) as [_ HR]. rewrite Hse. apply HR. by exists k, id.
Qed.

Lemma compacted_wf ix : WF0 ix → WF (compacted ix).
Proof.
  intros HI. destruct (compacted_fields ix) as (Hv & Hd & _ & Hi & Hre & H0 & Hsz).
  pose proof (compacted_slots ix) as Hs.
  split; [|left; rewrite H0; unfold compactionMinDead; lia].
  split; rewrite ?Hs, ?Hv, ?Hd, ?H0, ?Hsz, ?live_slots_idem; try apply HI.
  - intros id e' (e & He & ->)%compacted_chat. destruct (compacted_slot _ _ _ HI He) as (n & Hn & H0' & Hl).
    split; [by eapply wf_slot|]. cbn. rewrite Hn; cbn. apply slot_at_Some.
    exists (Z.to_nat n). split; [lia|done].
  - intros k id Hk Hid.
    destruct (live_slot _ _ _ HI Hk) as (e & He & Hn).
    eexists. split; [apply compacted_chat; eauto|]. cbn. by rewrite Hn.
  - unfold len. lia.
  - intros id e' (e & He & ->)%compacted_chat. pose proof (wf_entry _ HI _ _ He) as Hv'.
    exact Hv'.
  - unfold validReindex. rewrite Hre, Hi. apply HI.
  - intros tok l' (l & Hl & -> & Hne)%compacted_posting; [|done].
    pose proof (wf_posting _ HI _ _ Hl) as Hp.
    apply validPosting_spec in Hp as (Ht & _ & Hf & Hst); [|apply len_nonneg].
    apply validPosting_spec; [apply len_nonneg|]. split_and!; [done..| |by apply renumber_sorted].
    apply Forall_forall. intros n (s & Hin & Hn)%list_elem_of_omap.
    apply renumber_lookup in Hn as (k & id & _ & _ & _ & H0' & Hlk).
    apply lookup_lt_Some in Hlk. unfold len. lia.
Qed.

Lemma compacted_bounded ix : WF0 ix → Bounded ix → Bounded (compacted ix).
Proof.
  intros HI HB s. destruct (decide (posts_of (Postings (compacted ix)) s = ∅)) as [->|Hne].
  { unfold map_len. rewrite map_size_empty. unfold MaxTokensPerChat. lia. }
  apply map_choose in Hne as (tok & l' & [Hl' Hin]%map_lookup_filter_Some).
  apply compacted_posting in Hl' as (l & Hl & -> & _); [|done]. cbn in Hin.
  apply list_elem_of_omap in Hin as (s0 & _ & Hs0).
  etrans; [|apply (HB s0)]. apply map_len_filter_le.
  intros tok' l' (l1 & Hl1 & -> & _)%compacted_posting Hin; [|done]. cbn in Hin.
  exists l1. split; [done|]. cbn. apply list_elem_of_omap in Hin as (s1 & Hs1 & Hn).
  by rewrite (renumber_inj _ _ _ _ Hs0 Hn).
Qed.

Lemma maybeCompact_wf ix : WF0 ix → WF (maybeCompact ix).
Proof.
  intros HI. unfold maybeCompact. destruct (_ || _) eqn:Hc; [|by apply compacted_wf].
  split; [done|]. apply orb_true_iff in Hc as [?%bool_decide_eq_true|?%bool_decide_eq_true]; auto.
Qed.

Lemma maybeCompact_indexed ix id tok :
  WF0 ix → indexed (maybeCompact ix) id tok ↔ indexed ix id tok.
Proof. intros HI. unfold maybeCompact. destruct (_ || _); [done|by apply compacted_indexed]. Qed.

(** An entry but for the slot it is at. *)
Definition content (e : Entry) : Entry := e <| Slot := 0%Z |>.

Lemma maybeCompact_content ix id :
  content <$> (Chats (maybeCompact ix) !! id) = content <$> (Chats ix !! id).
Proof.
  unfold maybeCompact. destruct (_ || _); [done|]. unfold compacted.
  destruct (renumber _) as [remap new]. cbn. rewrite lookup_fmap.
  by destruct (Chats ix !! id).
Qed.

Lemma maybeCompact_fields ix :
  Dims (maybeCompact ix) = Dims ix ∧ Model (maybeCompact ix) = Model ix ∧
  Reindex (maybeCompact ix) = Reindex ix ∧ Incomplete (maybeCompact ix) = Incomplete ix.
Proof. unfold maybeCompact. destruct (_ || _); [done|]. by pose proof (compacted_fields ix); naive_solver. Qed.

(** *** Vector dimensions *)

Lemma dims_loop vs d d' :
  foldl (λ acc v,
    match acc with
    | Err e => Err e
    | Ok dims =>
        if bool_decide (v = []) then Err ErrInvalid
        else if bool_decide (dims = 0)%Z then Ok (len v)
        else if bool_decide (len v = dims) then Ok dims
        else Err ErrInvalid
    end) (Ok d) vs = Ok d' →
  Forall (λ v : Vector, v ≠ [] ∧ len v = d') vs ∧ (d ≠ 0 → d' = d)%Z.
Proof.
  revert d. induction vs as [|v vs IH]; intros d; cbn; [intros [= ->]; by split|].
  assert (Herr : ∀ e, foldl (λ acc v,
    match acc with
    | Err e => Err e
    | Ok dims =>
        if bool_decide (v = []) then Err ErrInvalid
        else if bool_decide (dims = 0)%Z then Ok (len v)
        else if bool_decide (len v = dims) then Ok dims
        else Err ErrInvalid
    end) (Err e) vs ≠ Ok d').
  { intros e. clear. induction vs; cbn; [done|]. done. }
  case_bool_decide as Hv; [by intros ?%Herr|].
  assert (Hlen : len v ≠ 0%Z) by (unfold len; destruct v; cbn; [done|lia]).
  case_bool_decide as Hd.
  - intros [Hf Hd']%IH. specialize (Hd' Hlen). split; [|done]. constructor; [|done]. split; [done|lia].
  - case_bool_decide as Hl; [|by intros ?%Herr]. intros [Hf Hd']%IH. split; [|done].
    specialize (Hd' Hd). constructor; [|done]. split; [done|lia].
Qed.

Lemma dims_ok vs d d' :
  validatedVectorDims d vs = Ok d' →
  Forall (λ v : Vector, v ≠ [] ∧ len v = d') vs ∧ (d ≠ 0 → d' = d)%Z ∧
  (len vs ≤ MaxChunksPerChat)%Z.
Proof.
  unfold validatedVectorDims. case_bool_decide; [done|].
  intros [? ?]%dims_loop. split_and!; [done..|lia].
Qed.

Lemma validEntry_spec d e :
  validEntry d e = true ↔
  (0 ≤ SourceRevision e)%Z ∧ validEmbeddingKeyID (EmbeddingKeyID e) = true ∧
  (EmbeddingPending e = true ∨ EmbeddingKeyID e = "") ∧ (len (Vectors e) ≤ MaxChunksPerChat)%Z ∧
  Forall (λ v, v ≠ [] ∧ len v = d) (Vectors e).
Proof.
  unfold validEntry. rewrite !andb_true_iff, orb_true_iff, !bool_decide_eq_true.
  rewrite forallb_forall, Forall_forall.
  setoid_rewrite andb_true_iff. setoid_rewrite negb_true_iff. setoid_rewrite bool_decide_eq_false.
  setoid_rewrite bool_decide_eq_true. setoid_rewrite list_elem_of_In. naive_solver.
Qed.

Lemma validEntry_dims d d' vs e :
  validEntry d e = true → validatedVectorDims d vs = Ok d' → validEntry d' e = true.
Proof.
  rewrite !validEntry_spec. intros (? & ? & ? & ? & Hf) (_ & Hd & _)%dims_ok.
  split_and!; [done..|]. destruct (decide (d = 0%Z)) as [->|Hne]; [|by rewrite Hd].
  destruct (Vectors e) as [|v vs']; [constructor|].
  inversion Hf as [|? ? [Hv Hl]]; subst. exfalso. unfold len in Hl. destruct v; cbn in *; [done|lia].
Qed.

(** *** Tombstones and additions *)

(** [id] leaves the index: its slot is a tombstone. *)
Definition tombed (ix : Index) (id : string) : Index :=
  match Chats ix !! id with
  | None => ix
  | Some e => ix <| Slots ::= <[Z.to_nat (Slot e) := ""]> |> <| dead ::= Z.succ |>
                 <| Chats ::= delete id |>
  end.

Lemma len_insert {A} k (x : A) l : len (<[k := x]> l) = len l.
Proof. unfold len. by rewrite length_insert. Qed.

Lemma tombed_wf ix id : WF0 ix → WF0 (tombed ix id).
Proof.
  intros HI. unfold tombed. destruct (Chats ix !! id) as [e|] eqn:He; [|done].
  destruct (wf_slot_nat _ _ _ HI He) as (k & Hse & Hk & Hid). rewrite Hse, Nat2Z.id.
  assert (Hsz : map_len (delete id (Chats ix)) = (map_len (Chats ix) - 1)%Z).
  { unfold map_len. rewrite map_size_delete_Some by eauto.
    assert (size (Chats ix) ≠ 0); [|lia]. intros Hz%map_size_empty_inv. by rewrite Hz in He. }
  split; cbn; rewrite ?len_insert, ?Hsz; try apply HI.
  - intros id' e' [Hne He']%lookup_delete_Some.
    destruct (wf_slot_nat _ _ _ HI He') as (k' & Hse' & Hk' & Hid').
    split; [done|]. rewrite Hse', slot_at_nat. rewrite list_lookup_insert_ne; [done|].
    intros <-. congruence.
  - intros k' id' Hk' Hid'. destruct (decide (k = k')) as [->|Hne].
    { rewrite list_lookup_insert_eq in Hk' by by eapply lookup_lt_Some. by simplify_eq. }
    rewrite list_lookup_insert_ne in Hk' by done.
    destruct (wf_live _ HI _ _ Hk' Hid') as (e' & He' & Hse'). exists e'. split; [|done].
    rewrite lookup_delete_ne; [done|]. intros <-. simplify_eq. lia.
  - fold (live_slots (<[k:=""]> (Slots ix))). rewrite (live_slots_tomb _ _ _ Hk Hid). rewrite (wf_dead _ HI). lia.
  - fold (live_slots (<[k:=""]> (Slots ix))). rewrite (live_slots_tomb _ _ _ Hk Hid). rewrite (wf_size _ HI). lia.
  - pose proof (wf_max _ HI). lia.
  - intros id' e' [_ ?]%lookup_delete_Some. by eapply wf_entry.
Qed.

Lemma tombed_bounded ix id : Bounded ix → Bounded (tombed ix id).
Proof. unfold tombed. by destruct (Chats ix !! id). Qed.

Lemma tombed_indexed ix id id' tok :
  indexed (tombed ix id) id' tok ↔ id' ≠ id ∧ indexed ix id' tok.
Proof.
  unfold indexed, tombed. destruct (Chats ix !! id) as [e|] eqn:He; cbn.
  - setoid_rewrite lookup_delete_Some. naive_solver.
  - split; [|naive_solver]. intros (e' & l & ? & ? & ?). split; [congruence|eauto].
Qed.

Lemma post_spec s toks seen P tok :
  (Z.of_nat (size seen) < MaxTokensPerChat)%Z →
  post s toks seen P !! tok =
  if decide (tok ∈ take (Z.to_nat MaxTokensPerChat - size seen)
               (distinct seen (List.filter validPostingToken toks)))
  then Some (default [] (P !! tok) ++ [s]) else P !! tok.
Proof.
  revert seen P. induction toks as [|t toks IH]; intros seen P Hs; cbn.
  { rewrite take_nil. by rewrite decide_False by set_solver. }
  destruct (validPostingToken t) eqn:Hv; cbn; [|by apply IH].
  case_bool_decide as Hin; [by apply IH|].
  assert (Hsz : size ({[t]} ∪ seen) = S (size seen)).
  { rewrite size_union by set_solver. by rewrite size_singleton. }
  destruct (Z.to_nat MaxTokensPerChat - size seen) as [|n] eqn:Hn; [lia|]. cbn [take].
  assert (Hrest : ∀ Q, Q !! t = Some (default [] (P !! t) ++ [s]) →
    (∀ t', t' ≠ t → Q !! t' = P !! t') →
    (if bool_decide (MaxTokensPerChat ≤ Z.of_nat (size ({[t]} ∪ seen)))%Z then Q
     else post s toks ({[t]} ∪ seen) Q) !! tok =
    if decide (tok ∈ t :: take n (distinct ({[t]} ∪ seen) (List.filter validPostingToken toks)))
    then Some (default [] (P !! tok) ++ [s]) else P !! tok); last first.
  { apply Hrest; [by rewrite lookup_insert_eq|]. intros. by rewrite lookup_insert_ne. }
  intros Q HQ HQ'.
  assert (Hnd : t ∉ distinct ({[t]} ∪ seen) (List.filter validPostingToken toks)).
  { assert (Hg : ∀ l seen', t ∈ seen' → t ∉ distinct seen' l); [|apply Hg; set_solver].
    clear. induction l as [|x l IH]; intros seen' Hi; cbn; [set_solver|].
    case_bool_decide; [by apply IH|].
    apply not_elem_of_cons. split; [set_solver|]. apply IH. set_solver. }
  assert (Htk : t ∉ take n (distinct ({[t]} ∪ seen) (List.filter validPostingToken toks))).
  { intros Hi. apply Hnd. by eapply elem_of_take in Hi as (? & ? & _); eapply list_elem_of_lookup_2. }
  case_bool_decide as Hmax.
  - assert (n = 0) as -> by lia. rewrite take_0. destruct (decide (tok = t)) as [->|Hne].
    + rewrite decide_True by set_solver. done.
    + rewrite decide_False by set_solver. by apply HQ'.
  - rewrite IH by lia. rewrite Hsz. replace (Z.to_nat MaxTokensPerChat - S (size seen)) with n by lia.
    destruct (decide (tok = t)) as [->|Hne].
    + rewrite decide_False by done. rewrite decide_True by set_solver. done.
    + rewrite HQ' by done. destruct (decide (tok ∈ take _ _)).
      * by rewrite decide_True by set_solver.
      * by rewrite decide_False by set_solver.
Qed.

Lemma post_chat_tokens s toks P tok :
  post s toks ∅ P !! tok =
  if decide (tok ∈ chat_tokens toks) then Some (default [] (P !! tok) ++ [s]) else P !! tok.
Proof.
  rewrite post_spec by (rewrite size_empty; unfold MaxTokensPerChat; lia).
  by rewrite size_empty, Nat.sub_0_r.
Qed.

Lemma distinct_subset seen l t : t ∈ distinct seen l → t ∈ l.
Proof.
  revert seen. induction l as [|x l IH]; intros seen; cbn; [done|].
  case_bool_decide; [intros ?%IH; set_solver|].
  intros [->|?%IH]%elem_of_cons; set_solver.
Qed.

Lemma chat_tokens_valid toks tok : tok ∈ chat_tokens toks → validPostingToken tok = true.
Proof.
  unfold chat_tokens. intros (i & Hi & _)%elem_of_take.
  apply list_elem_of_lookup_2, distinct_subset, list_elem_of_In, filter_In in Hi. by destruct Hi.
Qed.

Definition added (ix : Index) (id : string) (e : Entry) (toks : list string) : Index :=
  let e := e <| Slot := len (Slots ix) |> in
  ix <| Slots ::= λ s, s ++ [id] |> <| Chats ::= <[id := e]> |>
     <| Postings ::= post (Slot e) toks ∅ |>.

Lemma added_posting ix id e toks tok :
  Postings (added ix id e toks) !! tok =
  if decide (tok ∈ chat_tokens toks) then Some (default [] (Postings ix !! tok) ++ [len (Slots ix)])
  else Postings ix !! tok.
Proof. apply post_chat_tokens. Qed.

Lemma posting_range ix tok l s :
  WF0 ix → Postings ix !! tok = Some l → s ∈ l → (0 ≤ s < len (Slots ix))%Z.
Proof.
  intros HI Hl Hs.
  pose proof (wf_posting _ HI _ _ Hl) as (_ & _ & Hf & _)%validPosting_spec; [|apply len_nonneg].
  rewrite Forall_forall in Hf. by apply Hf.
Qed.

Lemma len_snoc {A} (l : list A) x : len (l ++ [x]) = (len l + 1)%Z.
Proof. unfold len. rewrite length_app. cbn. lia. Qed.

Lemma sorted_snoc l n :
  StronglySorted Z.lt l → Forall (λ s, s < n)%Z l → StronglySorted Z.lt (l ++ [n]).
Proof.
  induction 1 as [|x l Hs IH Hx]; intros Hf; cbn; [repeat constructor|].
  apply Forall_cons in Hf as [Hxn Hf]. constructor; [by apply IH|].
  apply Forall_app. split; [done|]. repeat constructor. done.
Qed.

Lemma live_slots_snoc l id : id ≠ "" → live_slots (l ++ [id]) = live_slots l ++ [id].
Proof. intros Hid. rewrite live_slots_app, live_slots_one. by rewrite bool_decide_false. Qed.

Lemma chat_tokens_length toks : length (chat_tokens toks) ≤ Z.to_nat MaxTokensPerChat.
Proof. unfold chat_tokens. rewrite length_take. lia. Qed.

(** An entry that is not in the index joins it. *)
Lemma added_wf ix id e toks :
  WF0 ix → id ≠ "" → Chats ix !! id = None → validEntry (Dims ix) e = true →
  (map_len (Chats ix) < MaxChats)%Z → WF0 (added ix id e toks).
Proof.
  intros HI Hid Hnone Hv Hmax.
  assert (Hsz : ∀ e', map_len (<[id := e']> (Chats ix)) = (map_len (Chats ix) + 1)%Z).
  { intros e'. unfold map_len. rewrite map_size_insert_None by done. lia. }
  split; unfold added; cbn -[post live_slots]; rewrite ?Hsz, ?len_snoc, ?live_slots_snoc, ?len_snoc by done;
    try apply HI.
  - intros id' e' [[<- <-]|[Hne He']]%lookup_insert_Some.
    + split; [done|]. cbn. unfold len. by rewrite slot_at_nat, lookup_app_r, Nat.sub_diag by lia.
    + destruct (wf_slot_nat _ _ _ HI He') as (k & -> & Hk & Hid').
      split; [done|]. rewrite slot_at_nat. by apply lookup_app_l_Some.
  - intros k id' [Hk|[Hle Hk]]%lookup_app_Some Hid'.
    + destruct (wf_live _ HI _ _ Hk Hid') as (e' & He' & Hse'). exists e'.
      rewrite lookup_insert_ne; [done|]. intros <-. congruence.
    + destruct (k - _) as [|j] eqn:Hj; [|done]. cbn in Hk. simplify_eq.
      eexists. rewrite lookup_insert_eq. split; [done|]. cbn. unfold len. lia.
  - rewrite (wf_dead _ HI). lia.
  - rewrite (wf_size _ HI). lia.
  - lia.
  - intros id' e' [[<- <-]|[Hne He']]%lookup_insert_Some; [exact Hv|by eapply wf_entry].
  - intros tok l. rewrite post_chat_tokens.
    assert (H0 : (0 ≤ len (Slots ix) + 1)%Z) by (unfold len; lia).
    rewrite validPosting_spec by done. case_decide as Hin.
    + intros [= <-]. split_and!; [by eapply chat_tokens_valid|by destruct (default _ _)|..].
      * apply Forall_app. split; [|repeat constructor; unfold len; lia].
        apply Forall_forall. intros s Hs. destruct (Postings ix !! tok) eqn:Hp; [|set_solver].
        pose proof (posting_range _ _ _ _ HI Hp Hs). lia.
      * destruct (Postings ix !! tok) as [l|] eqn:Hp; [|repeat constructor].
        pose proof (wf_posting _ HI _ _ Hp) as (_ & _ & Hf & Hst)%validPosting_spec;
          [|apply len_nonneg].
        apply sorted_snoc; [done|]. eapply Forall_impl; [exact Hf|]. cbn. lia.
    + intros Hp. pose proof (wf_posting _ HI _ _ Hp) as (? & ? & Hf & ?)%validPosting_spec;
        [|apply len_nonneg].
      split_and!; try done. eapply Forall_impl; [exact Hf|]. cbn. lia.
Qed.

Lemma added_bounded ix id e toks : WF0 ix → Bounded ix → Bounded (added ix id e toks).
Proof.
  intros HI HB s. unfold added; cbn. destruct (decide (s = len (Slots ix))) as [->|Hne].
  - trans (Z.of_nat (size (list_to_set (C:=gset string) (chat_tokens toks)))).
    + unfold map_len. rewrite <- size_dom. apply inj_le, subseteq_size.
      intros tok [l [Hl Hin]%map_lookup_filter_Some]%elem_of_dom.
      rewrite post_chat_tokens in Hl. apply elem_of_list_to_set. case_decide; [done|].
      cbn in Hin. pose proof (posting_range _ _ _ _ HI Hl Hin). lia.
    + pose proof (chat_tokens_length toks). 
      assert (size (list_to_set (C:=gset string) (chat_tokens toks)) ≤ length (chat_tokens toks)).
      { generalize (chat_tokens toks). clear. induction l as [|x l IH]; cbn; [by rewrite size_empty|].
        rewrite size_union_alt, size_singleton.
        assert (size (list_to_set (C:=gset string) l ∖ {[x]}) ≤ size (list_to_set (C:=gset string) l));
          [apply subseteq_size; set_solver|lia]. }
      unfold MaxTokensPerChat in *. lia.
  - etrans; [|apply (HB s)]. apply map_len_filter_le.
    intros tok l Hl Hin. rewrite post_chat_tokens in Hl. cbn in Hin.
    case_decide; [|eauto]. simplify_eq.
    apply elem_of_app in Hin as [Hin|Hin]; [|set_solver].
    destruct (Postings ix !! tok) as [l|] eqn:Hp; [eauto|set_solver].
Qed.

Lemma added_indexed ix id e toks id' tok :
  WF0 ix → Chats ix !! id = None →
  indexed (added ix id e toks) id' tok ↔
  if decide (id' = id) then tok ∈ chat_tokens toks else indexed ix id' tok.
Proof.
  intros HI Hnone. unfold indexed. setoid_rewrite added_posting. cbn.
  destruct (decide (id' = id)) as [->|Hne].
  - split.
    + intros (e' & l & He & Hl & Hin). rewrite lookup_insert_eq in He. simplify_eq. cbn in Hin.
      case_decide; [done|]. pose proof (posting_range _ _ _ _ HI Hl Hin). lia.
    + intros Hin. eexists _, _. rewrite lookup_insert_eq, decide_True by done.
      split_and!; [done..|]. cbn. set_solver.
  - split.
    + intros (e' & l & He & Hl & Hin). rewrite lookup_insert_ne in He by done.
      destruct (wf_slot_nat _ _ _ HI He) as (k & Hk & Hlk & _). apply lookup_lt_Some in Hlk.
      case_decide; [|eauto]. simplify_eq. apply elem_of_app in Hin as [Hin|Hin].
      * destruct (Postings ix !! tok); [eauto|set_solver].
      * exfalso. unfold len in Hin. rewrite list_elem_of_singleton in Hin. lia.
    + intros (e' & l & He & Hl & Hin). exists e'. rewrite lookup_insert_ne by done.
      case_decide; [|eauto]. eexists. rewrite Hl. split_and!; [done..|]. cbn. set_solver.
Qed.

Lemma upsert_shape ix id e toks :
  WF0 ix →
  (∃ err, Upsert ix id e toks = Some (Err err, ix) ∧
     (id = "" ∨ (∀ dims, validatedVectorDims (Dims ix) (Vectors e) = Ok dims →
        validEntry dims e = false ∨ (Chats ix !! id = None ∧ MaxChats ≤ map_len (Chats ix))%Z))) ∨
  ∃ dims, validatedVectorDims (Dims ix) (Vectors e) = Ok dims ∧ id ≠ "" ∧
    validEntry dims e = true ∧ (is_Some (Chats ix !! id) ∨ (map_len (Chats ix) < MaxChats)%Z) ∧
    Upsert ix id e toks =
      Some (Ok (), maybeCompact (added (tombed (ix <| Dims := dims |>) id) id e toks)).
Proof.
  intros HI. unfold Upsert.
  case_bool_decide as Hid; [left; eauto|].
  assert (Hbad : (¬ (0 ≤ SourceRevision e)%Z ∨ validEmbeddingKeyID (EmbeddingKeyID e) = false ∨
      (EmbeddingPending e = false ∧ EmbeddingKeyID e ≠ "")) → ∀ dims, validEntry dims e = false).
  { intros Hb dims. apply not_true_iff_false. rewrite validEntry_spec.
    intros (? & ? & Hp & _). destruct Hb as [?|[?|[? ?]]]; [lia|congruence|].
    destruct Hp; congruence. }
  case_bool_decide as Hrev; [left; eexists; split; [done|right; left; apply Hbad; lia]|].
  destruct (validEmbeddingKeyID (EmbeddingKeyID e)) eqn:Hkey; cbn;
    [|left; eexists; split; [done|right; left; auto]].
  destruct (negb (EmbeddingPending e) && negb (bool_decide (EmbeddingKeyID e = ""))) eqn:Hpk; cbn.
  { apply andb_true_iff in Hpk as [?%negb_true_iff ?%negb_true_iff%bool_decide_eq_false].
    left; eexists; split; [done|right; left; auto]. }
  destruct (validatedVectorDims (Dims ix) (Vectors e)) as [dims|err] eqn:Hd;
    [|left; eexists; split; [done|right; done]].
  destruct (bool_decide (Chats ix !! id = None) && _) eqn:Hfull.
  { apply andb_true_iff in Hfull as [?%bool_decide_eq_true ?%bool_decide_eq_true].
    left; eexists; split; [done|right; auto]. }
  right. exists dims. split_and!; [done..| | |].
  - pose proof (dims_ok _ _ _ Hd) as (? & ? & ?).
    apply validEntry_spec. split_and!; [lia|done| |done..].
    apply andb_false_iff in Hpk as [?%negb_false_iff|?%negb_false_iff%bool_decide_eq_true]; auto.
  - apply andb_false_iff in Hfull as [Hs%bool_decide_eq_false|?%bool_decide_eq_false]; [left|right; lia].
    by destruct (Chats ix !! id).
  - cbn. unfold tombed. cbn. destruct (Chats ix !! id) as [old|] eqn:Hold; [|done].
    destruct (wf_slot_nat _ _ _ HI Hold) as (k & Hse & Hk & _). rewrite Hse.
    rewrite (set_slot_Some _ _ _ _ Hk). cbn. unfold added; cbn. rewrite Nat2Z.id.
    by rewrite insert_delete_eq.
Qed.

Lemma with_dims_wf ix id e dims :
  WF0 ix → validatedVectorDims (Dims ix) (Vectors e) = Ok dims →
  WF0 (tombed (ix <| Dims := dims |>) id).
Proof.
  intros HI Hd. apply tombed_wf. destruct HI. split; try done.
  intros id' e' He'. eapply validEntry_dims; eauto.
Qed.

Lemma tombed_chat ix id id' :
  Chats (tombed ix id) !! id' = if decide (id' = id) then None else Chats ix !! id'.
Proof.
  unfold tombed. destruct (Chats ix !! id) eqn:He; cbn.
  - rewrite lookup_delete. by destruct (decide (id = id')), (decide (id' = id)).
  - by destruct (decide (id' = id)) as [->|].
Qed.

Lemma tombed_dims ix id : Dims (tombed ix id) = Dims ix.
Proof. unfold tombed. by destruct (Chats ix !! id). Qed.

Lemma tombed_size ix id :
  map_len (Chats (tombed ix id)) =
  (map_len (Chats ix) - if bool_decide (Chats ix !! id = None) then 0 else 1)%Z.
Proof.
  unfold tombed, map_len. destruct (Chats ix !! id) as [e|] eqn:He; cbn.
  - rewrite map_size_delete_Some by eauto.
    assert (size (Chats ix) ≠ 0); [|lia]. intros Hz%map_size_empty_inv. by rewrite Hz in He.
  - lia.
Qed.

(** What [Upsert] leaves in a chat's place, whatever it compacts. *)
Lemma upsert_added ix id e toks dims :
  WF0 ix → validatedVectorDims (Dims ix) (Vectors e) = Ok dims → id ≠ "" →
  validEntry dims e = true → is_Some (Chats ix !! id) ∨ (map_len (Chats ix) < MaxChats)%Z →
  WF0 (added (tombed (ix <| Dims := dims |>) id) id e toks).
Proof.
  intros HI Hd Hid Hv Hroom. apply added_wf; [by eapply with_dims_wf|done| | |].
  - rewrite tombed_chat. by rewrite decide_True.
  - by rewrite tombed_dims.
  - rewrite tombed_size. cbn. pose proof (wf_max _ HI).
    case_bool_decide as Hn; [|lia]. destruct Hroom as [[? Hs]|?]; [congruence|lia].
Qed.

(** [Upsert] on a well-formed index never panics and leaves one. It
    refuses an empty id, an entry the index could not be read back with and
    a chat past [MaxChats], changing nothing; otherwise the chat's entry is
    the one given, the chat is found under exactly the valid tokens given,
    each once and the first [MaxTokensPerChat] of them, and every other
    chat's entry and tokens are as they were, whatever was tombstoned or
    compacted. *)
Lemma upsert_correct ix id e toks :
  WF ix →
  ∃ r ix', Upsert ix id e toks = Some (r, ix') ∧ WF ix' ∧
    (is_ok r = true ↔ id ≠ "" ∧ ∃ dims, validatedVectorDims (Dims ix) (Vectors e) = Ok dims ∧
       validEntry dims e = true ∧ (is_Some (Chats ix !! id) ∨ map_len (Chats ix) < MaxChats)%Z) ∧
    match r with
    | Err _ => ix' = ix
    | Ok _ => ∀ id',
        content <$> Chats ix' !! id' =
          (if decide (id' = id) then Some (content e) else content <$> Chats ix !! id') ∧
        ∀ tok, indexed ix' id' tok ↔
          if decide (id' = id) then tok ∈ chat_tokens toks else indexed ix id' tok
    end.
Proof.
  intros [HI Hc]. destruct (upsert_shape ix id e toks HI) as [(err & -> & Hbad)|
    (dims & Hd & Hid & Hv & Hroom & ->)].
  - eexists _, _. split_and!; [done|done| |done]. cbn. split; [done|].
    intros (Hid & dims & Hd & Hv & Hroom). exfalso. destruct Hbad as [?|Hbad]; [done|].
    destruct (Hbad _ Hd) as [?|[Hn ?]]; [congruence|]. rewrite Hn in Hroom.
    destruct Hroom as [[? ?]|?]; [done|lia].
  - pose proof (upsert_added ix id e toks dims HI Hd Hid Hv Hroom) as HA.
    eexists _, _. split_and!; [done|by apply maybeCompact_wf| |].
    { cbn. split; [eauto 10|done]. }
    intros id'. split.
    + rewrite maybeCompact_content. unfold added; cbn.
      destruct (decide (id' = id)) as [->|Hne]; [by rewrite lookup_insert_eq|].
      rewrite lookup_insert_ne, tombed_chat, decide_False by done. done.
    + intros tok. rewrite maybeCompact_indexed by done.
      rewrite added_indexed; [|by eapply with_dims_wf|by rewrite tombed_chat, decide_True].
      destruct (decide (id' = id)) as [->|Hne]; [done|]. rewrite tombed_indexed. naive_solver.
Qed.

Lemma remove_shape ix id :
  WF0 ix → Remove ix id =
    Some (if bool_decide (Chats ix !! id = None) then ix else maybeCompact (tombed ix id)).
Proof.
  intros HI. unfold Remove, tombed. destruct (Chats ix !! id) as [e|] eqn:He; [|done]. cbn.
  destruct (wf_slot_nat _ _ _ HI He) as (k & Hse & Hk & _). rewrite Hse.
  rewrite (set_slot_Some _ _ _ _ Hk). cbn. by rewrite Nat2Z.id.
Qed.

(** [Remove] never panics on a well-formed index; the chat is gone, no
    query finds it, and every other chat is as it was. *)
Lemma remove_correct ix id :
  WF ix →
  ∃ ix', Remove ix id = Some ix' ∧ WF ix' ∧
    ∀ id',
      content <$> Chats ix' !! id' =
        (if decide (id' = id) then None else content <$> Chats ix !! id') ∧
      ∀ tok, indexed ix' id' tok ↔ id' ≠ id ∧ indexed ix id' tok.
Proof.
  intros [HI Hc].
  rewrite remove_shape by done. eexists. split; [done|].
  assert (Hid : ∀ tok, Chats ix !! id = None → ¬ indexed ix id tok).
  { intros tok Hn (e & l & He & _). congruence. }
  case_bool_decide as Hn.
  - split; [by split|]. intros id'. destruct (decide (id' = id)) as [->|Hne].
    + rewrite Hn. split; [done|]. intros tok. specialize (Hid tok Hn). naive_solver.
    + split; [done|]. intros tok. naive_solver.
  - pose proof (tombed_wf _ id HI) as HT. split; [by apply maybeCompact_wf|]. intros id'.
    rewrite maybeCompact_content, tombed_chat. split; [by case_decide|].
    intros tok. by rewrite maybeCompact_indexed, tombed_indexed.
Qed.

Lemma chats_update_wf ix id e e' dims :
  WF ix → Chats ix !! id = Some e → Slot e' = Slot e → validEntry dims e' = true →
  (∀ e0, validEntry (Dims ix) e0 = true → validEntry dims e0 = true) →
  WF (ix <| Chats ::= <[id := e']> |> <| Dims := dims |>).
Proof.
  intros [HI Hc] He Hs Hv Hd.
  assert (Hsz : map_len (<[id := e']> (Chats ix)) = map_len (Chats ix)).
  { unfold map_len. by rewrite map_size_insert_Some by eauto. }
  split; [|cbn; by rewrite Hsz]. destruct HI. split; cbn; rewrite ?Hsz; try done.
  - intros id' e0 [[<- <-]|[_ He0]]%lookup_insert_Some; [rewrite Hs|]; eauto.
  - intros k id' Hk Hid. destruct (wf_live0 _ _ Hk Hid) as (e0 & He0 & Hse).
    destruct (decide (id = id')) as [->|Hne].
    + exists e'. rewrite lookup_insert_eq. split; [done|]. rewrite Hs. congruence.
    + exists e0. by rewrite lookup_insert_ne.
  - intros id' e0 [[<- <-]|[_ He0]]%lookup_insert_Some; [done|]. eauto.
Qed.

(** The operations that only touch an entry's embedding keep the index
    well formed and every chat's tokens and slot as they were. *)
Lemma embedding_ops_correct ix id vectors keyID :
  WF ix →
  let r := RepairEmbedding ix id vectors in
  let m := MarkEmbeddingKey ix id keyID in
  WF r.2 ∧ WF m.2 ∧
  (is_ok r.1 = false → r.2 = ix) ∧ (m.1 = false → m.2 = ix) ∧
  (is_ok r.1 = true → ∃ e, Chats ix !! id = Some e ∧ Chats r.2 !! id =
      Some (e <| Vectors := vectors |> <| EmbeddingPending := false |> <| EmbeddingKeyID := "" |>)) ∧
  (∀ id' tok, indexed r.2 id' tok ↔ indexed ix id' tok) ∧
  (∀ id' tok, indexed m.2 id' tok ↔ indexed ix id' tok).
Proof.
  intros HI r m.
  assert (Hix : ∀ e e' dims id' tok, Chats ix !! id = Some e → Slot e' = Slot e →
    indexed (ix <| Chats ::= <[id := e']> |> <| Dims := dims |>) id' tok ↔ indexed ix id' tok).
  { intros e e' dims id' tok He Hs. unfold indexed; cbn.
    destruct (decide (id = id')) as [->|Hne].
    - rewrite lookup_insert_eq. split; intros (e0 & l & He0 & ? & ?); simplify_eq.
      + exists e, l. by rewrite <- Hs.
      + exists e', l. by rewrite Hs.
    - by rewrite lookup_insert_ne. }
  assert (Hr : WF r.2 ∧ (is_ok r.1 = false → r.2 = ix) ∧
    (is_ok r.1 = true → ∃ e, Chats ix !! id = Some e ∧ Chats r.2 !! id =
      Some (e <| Vectors := vectors |> <| EmbeddingPending := false |> <| EmbeddingKeyID := "" |>)) ∧
    (∀ id' tok, indexed r.2 id' tok ↔ indexed ix id' tok)).
  { unfold r, RepairEmbedding. destruct (Chats ix !! id) as [e|] eqn:He; [|done].
    destruct (validatedVectorDims (Dims ix) vectors) as [dims|err] eqn:Hd; [|done].
    split_and!.
    - apply (chats_update_wf ix id e); [done..| |].
      + pose proof (wf_entry _ HI _ _ He) as Hv. apply validEntry_spec in Hv as (? & _ & _ & _ & _).
        pose proof (dims_ok _ _ _ Hd) as (? & _ & ?). apply validEntry_spec; cbn. by split_and!; auto.
      + intros e0 He0. by eapply validEntry_dims.
    - done.
    - intros _. exists e. split; [done|]. cbn. by rewrite lookup_insert_eq.
    - intros id' tok. by apply (Hix e). }
  assert (Hm : WF m.2 ∧ (m.1 = false → m.2 = ix) ∧
    (∀ id' tok, indexed m.2 id' tok ↔ indexed ix id' tok)).
  { unfold m, MarkEmbeddingKey. destruct (Chats ix !! id) as [e|] eqn:He; [|done].
    destruct (_ || _) eqn:Hg; [done|].
    apply orb_false_iff in Hg as [[[Hp%negb_false_iff Hk]%orb_false_iff
      Hval%negb_false_iff]%orb_false_iff _].
    split_and!.
    - apply (chats_update_wf ix id e (e <| EmbeddingKeyID := keyID |>) (Dims ix)) in He as HW;
        [|done..| |done].
      + exact HW.
      + pose proof (wf_entry _ HI _ _ He) as Hv. apply validEntry_spec in Hv as (? & _ & _ & ? & ?).
        apply validEntry_spec; cbn. by split_and!; auto.
    - done.
    - intros id' tok. by apply (Hix e (e <| EmbeddingKeyID := keyID |>) (Dims ix) id' tok). }
  naive_solver.
Qed.

(** A token's live postings are, without a panic, the slots of exactly
    the chats found under it, each once. *)
Theorem livePostings_correct ix tok :
  WF ix → ∃ l, livePostings ix tok = Some l ∧ NoDup l ∧
    ∀ id, indexed ix id tok ↔ id ≠ "" ∧ ∃ s, s ∈ l ∧ slot_at (Slots ix) s = Some id.
Proof.
  intros [HI _]. unfold livePostings.
  set (f := λ (s : Z) (live : option (list Z)), id ← slot_at (Slots ix) s; live ← live;
              Some (if bool_decide (id = "") then live else s :: live)).
  assert (Hf : ∀ l, Forall (λ s, 0 ≤ s < len (Slots ix))%Z l → foldr f (Some []) l =
    Some (List.filter (λ s, negb (bool_decide (slot_at (Slots ix) s = Some ""))) l)).
  { induction 1 as [|s l Hs _ IH]; [done|]. cbn. rewrite IH. unfold f at 1; cbn.
    destruct (slot_at (Slots ix) s) as [id|] eqn:Hid; cbn.
    - f_equal. case_bool_decide; case_bool_decide; cbn; try done; congruence.
    - exfalso. unfold slot_at in Hid. rewrite bool_decide_true in Hid by lia.
      apply lookup_ge_None in Hid. unfold len in Hs. lia. }
  assert (Hin : ∀ l, Forall (λ s, 0 ≤ s < len (Slots ix))%Z l → ∀ s,
    s ∈ List.filter (λ s, negb (bool_decide (slot_at (Slots ix) s = Some ""))) l ↔
    s ∈ l ∧ slot_at (Slots ix) s ≠ Some "").
  { intros l _ s. rewrite !list_elem_of_In, filter_In, negb_true_iff, bool_decide_eq_false. done. }
  destruct (Postings ix !! tok) as [l|] eqn:Hl; cbn.
  - pose proof (wf_posting _ HI _ _ Hl) as (_ & _ & Hr & Hs)%validPosting_spec; [|apply len_nonneg].
    rewrite Hf by done. eexists. split_and!; [done| |].
    + by apply NoDup_ListNoDup, List.NoDup_filter, NoDup_ListNoDup, sorted_lt_NoDup.
    + intros id. setoid_rewrite (Hin l Hr). split.
      * intros (e & l' & He & Hl' & Hse). rewrite Hl in Hl'. simplify_eq.
        destruct (wf_slot _ HI _ _ He) as [Hne Hse']. split; [done|]. exists (Slot e).
        split_and!; [done|congruence|done].
      * intros (Hne & s & [Hsl Hns] & (k & -> & Hk)%slot_at_Some).
        destruct (wf_live _ HI _ _ Hk Hne) as (e & He & Hse). exists e, l. by rewrite Hse.
  - eexists. split_and!; [done|constructor|]. intros id. split.
    + intros (e & l' & _ & Hl' & _). congruence.
    + intros (_ & s & Hs & _). set_solver.
Qed.

(** ** Reading back *)

(** Counting slots one at a time bounds the posting lists together. *)
Lemma sum_postings (K N : nat) (L : list (list Z)) :
  Forall (λ l, NoDup l ∧ Forall (λ s, 0 ≤ s < Z.of_nat N)%Z l) L →
  (∀ s, length (filter (λ l, s ∈ l) L) ≤ K) →
  sum_list (length <$> L) ≤ N * K.
Proof.
  revert L. induction N as [|N IH]; intros L HL HK.
  - clear HK. induction HL as [|l L [Hn Hr] _ IHL]; cbn; [lia|].
    destruct l as [|s l]; cbn; [lia|]. inversion Hr; lia.
  - set (n := Z.of_nat N) in *.
    set (L' := (filter (λ s, s ≠ n)) <$> L).
    assert (Hsum : sum_list (length <$> L) =
      sum_list (length <$> L') + length (filter (λ l, n ∈ l) L)).
    { subst L'. clear HK IH. induction HL as [|l L [Hn Hr] _ IHL]; [done|]. cbn -[filter].
      rewrite IHL, filter_cons. clear IHL Hr.
      assert (Hl : length l = length (filter (λ s, s ≠ n) l) + if decide (n ∈ l) then 1 else 0).
      { induction Hn as [|x l Hx Hn IHl]; [by rewrite decide_False by set_solver|].
        rewrite filter_cons. cbn [length]. rewrite IHl.
        destruct (decide (x ≠ n)) as [Hne|Heq].
        - destruct (decide (n ∈ l)); [rewrite decide_True by set_solver|rewrite decide_False by set_solver];
            cbn; lia.
        - apply dec_stable in Heq as ->. rewrite decide_False by done.
          rewrite decide_True by set_solver. lia. }
      rewrite Hl. destruct (decide (n ∈ l)); cbn; lia. }
    rewrite Hsum. assert (sum_list (length <$> L') ≤ N * K); [|specialize (HK n); lia].
    apply IH.
    + subst L'. apply Forall_fmap. eapply Forall_impl; [exact HL|]. intros l [Hn Hr]. cbn. split.
      * by apply NoDup_filter.
      * apply Forall_forall. intros s [Hs Hsl]%list_elem_of_filter.
        rewrite Forall_forall in Hr. specialize (Hr _ Hsl). lia.
    + intros s. etrans; [|apply (HK s)]. subst L'. clear. induction L as [|l L IHL]; [done|].
      rewrite fmap_cons, !filter_cons.
      destruct (decide (s ∈ filter (λ s0 : Z, s0 ≠ n) l)) as [Hs|Hs].
      * rewrite decide_True by (by apply list_elem_of_filter in Hs as [_ ?]). cbn. lia.
      * case_decide; cbn; lia.
Qed.

Lemma totalPostings_le ix :
  WF0 ix → Bounded ix → (totalPostings ix ≤ len (Slots ix) * MaxTokensPerChat)%Z.
Proof.
  intros HI HB. unfold totalPostings.
  enough (sum_list (length <$> (map_to_list (Postings ix)).*2) ≤
          length (Slots ix) * Z.to_nat MaxTokensPerChat)
    by (unfold len, MaxTokensPerChat in *; lia).
  apply sum_postings.
  - apply Forall_fmap, Forall_forall. intros [tok l] Hp%elem_of_map_to_list. cbn.
    pose proof (wf_posting _ HI _ _ Hp) as (_ & _ & Hf & Hs)%validPosting_spec; [|apply len_nonneg].
    split; [by apply sorted_lt_NoDup|done].
  - intros s. specialize (HB s). unfold map_len in HB.
    trans (size (posts_of (Postings ix) s)); [apply Nat.eq_le_incl|lia].
    unfold posts_of. rewrite map_filter_alt, map_size_list_to_map.
    + generalize (map_to_list (Postings ix)). clear.
      induction l as [|[tok l] L IH]; [done|]. rewrite fmap_cons, !filter_cons. cbn.
      destruct (decide (s ∈ l)); cbn; by rewrite IH.
    + eapply sublist_NoDup; [apply (NoDup_fst_map_to_list (Postings ix))|].
      apply fmap_sublist, sublist_filter.
Qed.

(** What the last loop of [Decode] makes of an entry. *)
Definition pended (ix : Index) (e : Entry) : Entry :=
  if bool_decide (Vectors e = []) && posted ix (Slot e) then e <| EmbeddingPending := true |> else e.

Lemma pend_spec ix :
  (∀ id e, Chats ix !! id = Some e → is_Some (slot_at (Slots ix) (Slot e))) →
  pend ix = Some (ix <| Chats ::= fmap (pended ix) |>).
Proof.
  intros Hs. unfold pend.
  set (f := λ (id : string) (e : Entry) (chats : option (gmap string Entry)),
      chats ← chats;
      if bool_decide (Vectors e = []) then
        _ ← slot_at (Slots ix) (Slot e);
        Some (if posted ix (Slot e) then <[id := e <| EmbeddingPending := true |>]> chats else chats)
      else Some chats).
  assert (Hf : ∃ c, map_fold f (Some (Chats ix)) (Chats ix) = Some c ∧
    ∀ id, c !! id = pended ix <$> Chats ix !! id).
  { enough (Hg : ∀ m, m ⊆ Chats ix → ∃ c, map_fold f (Some (Chats ix)) m = Some c ∧
      ∀ id, c !! id = if decide (is_Some (m !! id)) then pended ix <$> Chats ix !! id
                      else Chats ix !! id).
    { destruct (Hg (Chats ix)) as (c & Hc & Hlk); [done|]. exists c. split; [done|].
      intros id. rewrite Hlk. case_decide as Hd; [done|]. apply eq_None_not_Some in Hd. by rewrite Hd. }
    apply (map_fold_weak_ind (λ r m, m ⊆ Chats ix → ∃ c, r = Some c ∧
      ∀ id, c !! id = if decide (is_Some (m !! id)) then pended ix <$> Chats ix !! id
                      else Chats ix !! id)).
    - intros _. exists (Chats ix). split; [done|]. intros id. rewrite lookup_empty.
      by rewrite decide_False by (by intros []).
    - intros id e m r Hm IH Hsub.
      assert (He : Chats ix !! id = Some e).
      { eapply lookup_weaken; [|exact Hsub]. apply lookup_insert_eq. }
      destruct IH as (c & -> & Hc).
      { etrans; [by apply insert_subseteq|done]. }
      unfold f; cbn. destruct (Hs _ _ He) as [x Hx].
      assert (Hcase : ∀ c' : gmap string Entry, (∀ id', c' !! id' = if decide (id' = id) then Some (pended ix e) else c !! id') →
        ∀ id', c' !! id' = if decide (is_Some (<[id := e]> m !! id')) then pended ix <$> Chats ix !! id'
                           else Chats ix !! id').
      { intros c' Hc' id'. rewrite Hc'. destruct (decide (id' = id)) as [->|Hne].
        - rewrite lookup_insert_eq, decide_True by eauto. by rewrite He.
        - by rewrite Hc, lookup_insert_ne by done. }
      assert (Hcid : c !! id = Some e).
      { rewrite Hc, Hm, decide_False by (by intros []). done. }
      unfold pended at 1. case_bool_decide as Hv; cbn.
      + rewrite Hx; cbn. eexists. split; [done|]. apply Hcase. intros id'.
        unfold pended. rewrite bool_decide_true by done. cbn.
        destruct (posted ix (Slot e)); cbn.
        * destruct (decide (id' = id)) as [->|Hne]; [by rewrite lookup_insert_eq|].
          by rewrite lookup_insert_ne.
        * by destruct (decide (id' = id)) as [->|Hne].
      + eexists. split; [done|]. apply Hcase. intros id'. unfold pended.
        rewrite bool_decide_false by done. cbn. by destruct (decide (id' = id)) as [->|Hne]. }
  destruct Hf as (c & -> & Hc). cbn. do 2 f_equal. destruct ix; cbn in *. f_equal.
  apply map_eq. intros id. rewrite Hc. by rewrite lookup_fmap.
Qed.

(** The checks of [Decode] but the last loop. *)
Definition accepted (ix : Index) : Prop :=
  Version ix = FormatVersion ∧ (len (Slots ix) ≤ maxSerializedSlots)%Z ∧
  (∀ id, id ∈ live_slots (Slots ix) → validSlot ix id = true) ∧
  len (live_slots (Slots ix)) = map_len (Chats ix) ∧
  (dead ix < compactionMinDead ∨ dead ix ≤ len (live_slots (Slots ix)))%Z ∧
  (map_len (Chats ix) ≤ MaxChats)%Z ∧ validReindex validTime ix = true ∧
  (∀ id e, Chats ix !! id = Some e → validEntry (Dims ix) e = true) ∧
  (∀ tok l, Postings ix !! tok = Some l → validPosting (len (Slots ix)) (tok, l) = true) ∧
  (totalPostings ix ≤ len (Slots ix) * MaxTokensPerChat)%Z.

Definition counted (ix : Index) : Index :=
  ix <| dead := (len (Slots ix) - len (live_slots (Slots ix)))%Z |>.

Lemma forallb_map {A} (f : string * A → bool) (m : gmap string A) :
  forallb f (map_to_list m) = true ↔ ∀ k x, m !! k = Some x → f (k, x) = true.
Proof.
  rewrite forallb_forall. split.
  - intros H k x Hx. apply H, list_elem_of_In. by apply elem_of_map_to_list.
  - intros H [k x] Hin%list_elem_of_In. apply H. by apply elem_of_map_to_list in Hin.
Qed.

Lemma Decode_accepted ix :
  accepted (counted ix) → Decode validTime (Some ix) = ix ← pend (counted ix); Some (Ok ix).
Proof.
  intros (Hv & Hs & Hl & Hsz & Hd & Hm & Hr & He & Hp & Ht). unfold Decode.
  fold (counted ix). cbn -[len map_len counted live_slots validReindex validEntry validPosting totalPostings pend].
  rewrite Hv. rewrite (bool_decide_true (FormatVersion = FormatVersion)) by done. cbn [negb].
  rewrite bool_decide_false by lia.
  destruct (forallb (validSlot (counted ix)) _) eqn:Hf; cbn [negb].
  2:{ apply not_true_iff_false in Hf. destruct Hf. apply forallb_forall.
      intros id Hid%list_elem_of_In. by apply Hl. }
  rewrite bool_decide_true by done. cbn [negb].
  destruct (_ && _) eqn:Hc; cbn [negb].
  { apply andb_true_iff in Hc as [?%bool_decide_eq_true ?%bool_decide_eq_true]. change (Slots (counted ix)) with (Slots ix) in *. lia. }
  rewrite bool_decide_false by lia. rewrite Hr; cbn [negb].
  rewrite (proj2 (forallb_map (λ p, validEntry _ p.2) _)) by done. cbn [negb].
  rewrite (proj2 (forallb_map _ (Postings _))) by done. cbn [negb].
  rewrite bool_decide_false by lia. done.
Qed.

Lemma Decode_cases ix :
  (∃ err, Decode validTime (Some ix) = Some (Err err)) ∨ accepted (counted ix).
Proof.
  unfold Decode. fold (counted ix).
  cbn -[len map_len counted live_slots validReindex validEntry validPosting totalPostings pend].
  case_bool_decide; cbn [negb]; [|left; eauto]. case_bool_decide; [left; eauto|].
  destruct (forallb (validSlot _) _) eqn:Hf; cbn [negb]; [|left; eauto].
  case_bool_decide; cbn [negb]; [|left; eauto]. destruct (_ && _) eqn:Hc; [left; eauto|].
  destruct (bool_decide (MaxChats < _)%Z) eqn:Hm; [left; eauto|].
  destruct (validReindex _ _) eqn:Hr; cbn [negb]; [|left; eauto].
  destruct (forallb (λ p, _) _) eqn:He; cbn [negb]; [|left; eauto].
  destruct (forallb _ (map_to_list (Postings _))) eqn:Hp; cbn [negb]; [|left; eauto].
  destruct (bool_decide (_ < totalPostings _)%Z) eqn:Ht; [left; eauto|]. right.
  apply bool_decide_eq_false in Hm, Ht.
  rewrite forallb_forall in Hf.
  apply andb_false_iff in Hc. rewrite !bool_decide_eq_false in Hc.
  split_and!; try done; try lia.
  - intros id Hid. apply Hf. by apply list_elem_of_In.
  - change (Slots (counted ix)) with (Slots ix) in *. destruct Hc; lia.
  - by apply (forallb_map (λ p, validEntry _ p.2)).
  - by apply forallb_map.
Qed.

Lemma live_slots_elem l id : id ∈ live_slots l ↔ id ≠ "" ∧ id ∈ l.
Proof. unfold live_slots. by rewrite list_elem_of_filter. Qed.

Lemma wf_accepted ix :
  WF ix → Bounded ix → counted ix = ix ∧ accepted ix.
Proof.
  intros [HI Hc] HB.
  assert (Hcnt : counted ix = ix).
  { unfold counted. pose proof (wf_dead _ HI) as Hd. destruct ix; cbn in *. by rewrite Hd. }
  split; [done|]. pose proof (wf_size _ HI) as Hsz. pose proof (wf_dead _ HI).
  pose proof (wf_max _ HI).
  split_and!; try apply HI; try lia.
  - unfold maxSerializedSlots, MaxChats, compactionMinDead in *. lia.
  - intros id [Hid [k Hk]%list_elem_of_lookup]%live_slots_elem.
    destruct (wf_live _ HI _ _ Hk Hid) as (e & He & Hse). unfold validSlot. rewrite He.
    apply bool_decide_eq_true. by rewrite Hse, slot_at_nat.
  - by apply totalPostings_le.
Qed.

(** [ix'] is [ix] with the entries that wait for vectors marked. *)
Definition marked (ix : Index) : Index := ix <| Chats ::= fmap (pended ix) |>.

Lemma pended_slot ix e : Slot (pended ix e) = Slot e.
Proof. unfold pended. by destruct (_ && _). Qed.

Lemma marked_wf ix : WF ix → WF (marked ix).
Proof.
  intros [HI Hc]. assert (Hsz : map_len (pended ix <$> Chats ix) = map_len (Chats ix)).
  { unfold map_len. by rewrite map_size_fmap. }
  split; [|cbn; by rewrite Hsz]. split; cbn; rewrite ?Hsz; try apply HI.
  - intros id e'. rewrite lookup_fmap, fmap_Some. intros (e & He & ->).
    rewrite pended_slot. by eapply wf_slot.
  - intros k id Hk Hid. destruct (wf_live _ HI _ _ Hk Hid) as (e & He & Hse).
    exists (pended ix e). rewrite lookup_fmap, He, pended_slot. done.
  - intros id e'. rewrite lookup_fmap, fmap_Some. intros (e & He & ->).
    pose proof (wf_entry _ HI _ _ He) as Hv. unfold pended. destruct (_ && _); [|done].
    apply validEntry_spec in Hv as (? & ? & _ & ? & ?). apply validEntry_spec. cbn.
    by split_and!; auto.
Qed.

Lemma marked_indexed ix id tok : indexed (marked ix) id tok ↔ indexed ix id tok.
Proof.
  unfold indexed, marked. cbn. setoid_rewrite lookup_fmap. split.
  - intros (e' & l & (e & He & ->)%fmap_Some & Hl & Hin). rewrite pended_slot in Hin. eauto.
  - intros (e & l & He & Hl & Hin). exists (pended ix e), l. rewrite He, pended_slot. done.
Qed.

(** The indexes a process can make from an empty one. *)
Inductive built (model : string) : Index → Prop :=
  | built_New : built model (New model)
  | built_Upsert ix id e toks r ix' :
      built model ix → Upsert ix id e toks = Some (r, ix') → built model ix'
  | built_Repair ix id vs : built model ix → built model (RepairEmbedding ix id vs).2
  | built_Mark ix id k : built model ix → built model (MarkEmbeddingKey ix id k).2
  | built_Remove ix id ix' : built model ix → Remove ix id = Some ix' → built model ix'.

Lemma New_wf model : WF (New model) ∧ Bounded (New model).
Proof.
  split.
  - split; [|left; done]. split; cbn; try done.
  - intros s. unfold posts_of, New; cbn. rewrite map_filter_empty.
    unfold map_len. rewrite map_size_empty. done.
Qed.

Lemma embedding_postings ix id vs k :
  Postings (RepairEmbedding ix id vs).2 = Postings ix ∧
  Postings (MarkEmbeddingKey ix id k).2 = Postings ix.
Proof.
  unfold RepairEmbedding, MarkEmbeddingKey. split.
  - destruct (Chats ix !! id); [|done]. by destruct (validatedVectorDims _ _).
  - destruct (Chats ix !! id); [|done]. by destruct (_ || _).
Qed.

Lemma maybeCompact_bounded ix : WF0 ix → Bounded ix → Bounded (maybeCompact ix).
Proof. intros HI HB. unfold maybeCompact. destruct (_ || _); [done|by apply compacted_bounded]. Qed.

Lemma embedding_wf ix id vs k :
  WF ix → WF (RepairEmbedding ix id vs).2 ∧ WF (MarkEmbeddingKey ix id k).2.
Proof.
  intros HI. split.
  - unfold RepairEmbedding. destruct (Chats ix !! id) as [e|] eqn:He; [|done].
    destruct (validatedVectorDims (Dims ix) vs) as [dims|err] eqn:Hd; [|done].
    apply (chats_update_wf ix id e); [done..| |].
    + pose proof (wf_entry _ HI _ _ He) as Hv. apply validEntry_spec in Hv as (? & _ & _ & _ & _).
      pose proof (dims_ok _ _ _ Hd) as (? & _ & ?). apply validEntry_spec; cbn. by split_and!; auto.
    + intros e0 He0. by eapply validEntry_dims.
  - unfold MarkEmbeddingKey. destruct (Chats ix !! id) as [e|] eqn:He; [|done].
    destruct (_ || _) eqn:Hg; [done|].
    apply orb_false_iff in Hg as [[[Hp%negb_false_iff Hk]%orb_false_iff
      Hval%negb_false_iff]%orb_false_iff _].
    apply (chats_update_wf ix id e (e <| EmbeddingKeyID := k |>) (Dims ix)) in He as HW;
      [exact HW|done..| |done].
    pose proof (wf_entry _ HI _ _ He) as Hv. apply validEntry_spec in Hv as (? & _ & _ & ? & ?).
    apply validEntry_spec; cbn. by split_and!; auto.
Qed.

Lemma upsert_wf ix id e toks r ix' :
  WF ix → Bounded ix → Upsert ix id e toks = Some (r, ix') → WF ix' ∧ Bounded ix'.
Proof.
  intros [HI Hc] HB Hu. destruct (upsert_shape ix id e toks HI) as [(err & Hu' & _)|
    (dims & Hd & Hid & Hv & Hroom & Hu')]; rewrite Hu in Hu'; simplify_eq; [done|].
  pose proof (upsert_added ix id e toks dims HI Hd Hid Hv Hroom) as HA.
  split; [by apply maybeCompact_wf|]. apply maybeCompact_bounded; [done|].
  apply added_bounded; [by eapply with_dims_wf|]. by apply tombed_bounded.
Qed.

Lemma built_wf model ix : built model ix → WF ix ∧ Bounded ix.
Proof.
  induction 1 as [|ix id e toks r ix' _ [HI HB] Hu|ix id vs _ [HI HB]|ix id k _ [HI HB]
                 |ix id ix' _ [HI HB] Hr].
  - apply New_wf.
  - by eapply upsert_wf.
  - split; [by apply (embedding_wf _ _ _ "")|].
    unfold Bounded. by rewrite (proj1 (embedding_postings ix id vs "")).
  - split; [by apply (embedding_wf _ _ [] _)|].
    unfold Bounded. by rewrite (proj2 (embedding_postings ix id [] k)).
  - rewrite remove_shape in Hr by apply HI. simplify_eq. case_bool_decide; [done|].
    pose proof (tombed_wf _ id (wf0 _ HI)). split; [by apply maybeCompact_wf|].
    by apply maybeCompact_bounded, tombed_bounded.
Qed.

Lemma wf_decodes ix d :
  WF ix → Bounded ix → Decode validTime (Some (ix <| dead := d |>)) = Some (Ok (marked ix)).
Proof.
  intros HI HB. pose proof (wf_accepted _ HI HB) as [Hcnt Hacc].
  assert (Hcnt' : counted (ix <| dead := d |>) = ix) by exact Hcnt.
  rewrite Decode_accepted by by rewrite Hcnt'.
  rewrite Hcnt', pend_spec; [done|].
  intros id e He. destruct (wf_slot _ HI _ _ He) as [_ Hs]. by eexists.
Qed.

(** C38. An index this code builds is one it reads back. However many
    chats were added, replaced, repaired and removed, and wherever
    compaction fired, [Decode] accepts what was encoded: every chat is found
    under the tokens it was found under, and its entry differs only in
    that one without vectors whose tokens are posted waits for them.
    [dead] is not serialized. *)
Theorem built_decodes model ix d :
  built model ix →
  Decode validTime (Some (ix <| dead := d |>)) = Some (Ok (marked ix)) ∧ WF (marked ix) ∧
  (∀ id tok, indexed (marked ix) id tok ↔ indexed ix id tok).
Proof.
  intros [HI HB]%built_wf. split_and!; [by apply wf_decodes|by apply marked_wf|apply marked_indexed].
Qed.

Lemma accepted_wf ix :
  NoDup (live_slots (Slots ix)) → accepted (counted ix) → WF (counted ix).
Proof.
  intros Hnd (Hv & Hs & Hl & Hsz & Hd & Hm & Hr & He & Hp & Ht).
  set (cx := counted ix) in *.
  assert (Hsl : ∀ id, id ∈ live_slots (Slots cx) → ∃ e, Chats cx !! id = Some e ∧
    slot_at (Slots cx) (Slot e) = Some id).
  { intros id Hid. specialize (Hl id Hid). unfold validSlot in Hl.
    destruct (Chats cx !! id) as [e|]; [|done]. apply bool_decide_eq_true in Hl. eauto. }
  assert (Hdom : ∀ id, id ∈ dom (Chats cx) → id ∈ live_slots (Slots cx)).
  { assert (Hsub : list_to_set (live_slots (Slots cx)) ⊆@{gset string} dom (Chats cx)).
    { intros id (e & ? & _)%elem_of_list_to_set%Hsl. apply elem_of_dom. eauto. }
    assert (Heq : (list_to_set (live_slots (Slots cx)) : gset string) ≡ dom (Chats cx)).
    { apply set_subseteq_size_equiv; [done|]. rewrite size_dom, size_list_to_set by done.
      unfold len, map_len in Hsz. lia. }
    intros id Hid. by apply (elem_of_list_to_set (C:=gset string)), Heq. }
  split; [|rewrite <- Hsz; exact Hd]. split; try done.
  - intros id e Hie. assert (Hid : id ∈ live_slots (Slots cx)) by (apply Hdom, elem_of_dom; eauto).
    destruct (Hsl _ Hid) as (e' & He' & Hse). rewrite Hie in He'. simplify_eq.
    split; [|done]. by apply live_slots_elem in Hid as [? _].
  - intros k id Hk Hid.
    assert (Hin : id ∈ live_slots (Slots cx)) by (apply live_slots_elem; split; [done|];
      by eapply list_elem_of_lookup_2).
    destruct (Hsl _ Hin) as (e & Hie & (k' & Hse & Hk')%slot_at_Some). exists e. split; [done|].
    rewrite Hse. f_equal. change (Slots cx) with (Slots ix) in *.
    destruct (Nat.lt_trichotomy k' k) as [Hlt|[?|Hlt]]; [exfalso|done|exfalso].
    + rewrite (live_slots_split _ _ _ Hk Hid) in Hnd. apply NoDup_app in Hnd as (_ & Hd' & _).
      apply (Hd' id); [|by left]. apply live_slots_elem. split; [done|].
      apply (list_elem_of_lookup_2 _ k'). by rewrite lookup_take_lt.
    + rewrite (live_slots_split _ _ _ Hk' Hid) in Hnd. apply NoDup_app in Hnd as (_ & Hd' & _).
      apply (Hd' id); [|by left]. apply live_slots_elem. split; [done|].
      apply (list_elem_of_lookup_2 _ k). by rewrite lookup_take_lt.
Qed.

(** [Decode] accepts only well-formed indexes, so that no operation on
    one panics, and does not panic itself, provided no chat has two slots. *)
Theorem decode_sound ix :
  NoDup (live_slots (Slots ix)) →
  Decode validTime (Some ix) ≠ None ∧
  ∀ ix', Decode validTime (Some ix) = Some (Ok ix') → WF ix'.
Proof.
  intros Hnd.
  assert (Hpend : accepted (counted ix) → pend (counted ix) = Some (marked (counted ix))).
  { intros Ha. pose proof (accepted_wf _ Hnd Ha) as HI. apply pend_spec.
    intros id e He. destruct (wf_slot _ HI _ _ He) as [_ Hs]. by eexists. }
  destruct (Decode_cases ix) as [[err ->]|Ha]; [by split|].
  rewrite Decode_accepted, Hpend by done. split; [done|]. intros ix' [= <-].
  by apply marked_wf, accepted_wf.
Qed.
End WellFormed.

(** A stored index that lists one chat at two slots, and so leaves another
    chat's slot unchecked: the chat's slot is past the table. *)
Definition doubled : Index :=
  mkIndex 1 "m" 0 false None ["a"; "a"]
    (<["a" := mkEntry 0 "" 0 "" [] false ""]> {["b" := mkEntry 5 "" 0 "" [] false ""]}) ∅ 0.

(** That the slots be distinct is needed to read a stored index. For an index that lists one chat at
    two slots [Decode] returns no error: it indexes past the slot table and
    panics, whatever times it takes as valid. *)
Theorem decode_panics validTime : Decode validTime (Some doubled) = None.
Proof. vm_compute. reflexivity. Qed.

(** ** Instances of the theorems *)

Section Witnesses.
Let vt (s : string) : bool := true.
Let e1 : Entry := mkEntry 0 "etag" 3 "2026" [[1; 2]%Z] false "".
Let e2 : Entry := mkEntry 0 "etag2" 4 "2026" [] true "".
Let run (r : option (result error () * Index)) : Index := default (New "m") (snd <$> r).
Let ix1 := run (Upsert (New "m") "c1" e1 ["alpha"; "x"; "beta"; "alpha"]).
Let ix2 := run (Upsert ix1 "c2" e2 ["beta"]).

Lemma ix1_built : built "m" ix1.
Proof. apply (built_Upsert "m" (New "m") "c1" e1 ["alpha"; "x"; "beta"; "alpha"] (Ok ())); [constructor|vm_compute; reflexivity]. Qed.
Lemma ix2_built : built "m" ix2.
Proof. apply (built_Upsert "m" ix1 "c2" e2 ["beta"] (Ok ()) _ ix1_built). vm_compute. reflexivity. Qed.

Lemma livePostings_correct_witness :
  ∃ l, livePostings ix2 "beta" = Some l ∧ NoDup l ∧ l = [0; 1]%Z.
Proof.
  destruct (livePostings_correct vt ix2 "beta") as (l & Hl & Hn & _).
  - apply (built_wf vt "m" ix2 ix2_built).
  - exists l. split; [exact Hl|]. split; [exact Hn|].
    assert (H : livePostings ix2 "beta" = Some l) by exact Hl.
    vm_compute in H. by injection H as <-.
Defined.

Lemma built_decodes_witness : Decode vt (Some (ix2 <| dead := 0%Z |>)) = Some (Ok (marked ix2)).
Proof. apply (built_decodes vt "m" ix2 0 ix2_built). Defined.

Lemma decode_sound_witness : Decode vt (Some ix2) ≠ None.
Proof. apply (decode_sound vt ix2). vm_compute. apply (bool_decide_unpack _). exact I. Defined.

End Witnesses.
End SearchIndex.
