(* ===== verification/LiveRuns.v ===== *)
(** * The runs this instance executes: internal/engine live.go, queue.go,
    accept.go, start.go, finish.go, follow.go and shutdown.go

    Each chat's running reply and the turns queued behind it, found by chat,
    by run and by the client request that started them.  Steps are the
    critical sections of [Live.mu], with what the goroutine does to channels
    before the next one; the reads, writes and model calls between them are
    inputs that succeed or fail. *)

From S2P Require Import Prelude GoStd RunLog.

Module LiveRuns.
Import GoStd.

(** ** A run's frame log, as its run uses it *)

(** [Frames] of engine/runlog.go: what a run needs of its frame log. *)
Class LogOps (L : Type) := {
  NewLog : L;
  Attach : L → L;
  Detach : L → L;
  hold_log : L → L;
  release_log : L → L;
  close_log : L → L;
  log_held : L → bool;
  log_ended : L → bool;
  log_new : log_held NewLog = false ∧ log_ended NewLog = false;
  log_attach l : log_held (Attach l) = log_held l ∧ log_ended (Attach l) = log_ended l;
  log_detach l : log_held (Detach l) = log_held l ∧ log_ended (Detach l) = log_ended l;
  log_hold l : log_held (hold_log l) = true ∧ log_ended (hold_log l) = log_ended l;
  log_release l : log_held (release_log l) = false ∧ log_ended (release_log l) = log_ended l;
  log_close l : log_held (close_log l) = log_held l ∧ log_ended (close_log l) = true;
}.

Definition MaxQueuedTurns : nat := 32.

Definition errAlreadyApplied : ApiError :=
  mkApiError 409 "ALREADY_APPLIED" "This request was already applied; reload the chat".
Definition errQueueFull : ApiError := mkApiError 429 "QUEUE_FULL" "The turn queue is full".
Definition errRunNotFound : ApiError :=
  mkApiError 404 "RUN_NOT_FOUND" "The run is not live on this instance".
Definition errShutdown : ApiError := mkApiError 503 "UPSTREAM_REFUSED" "The service is shutting down".
Definition errBusy : ApiError := mkApiError 503 "SERVICE_BUSY" "The chat service is busy; retry shortly".
Definition errThreadDeleted : ApiError :=
  mkApiError 404 "THREAD_NOT_FOUND" "The thread was deleted".
Definition errInFlight : ApiError := mkApiError 409 "RUN_IN_FLIGHT" "This run is no longer active".
Definition errStarted : ApiError := mkApiError 409 "RUN_IN_FLIGHT" "The queued turn has started".
Definition errUnavailable : ApiError :=
  mkApiError 404 "THREAD_NOT_FOUND" "The thread is unavailable".
Definition errCompacting : ApiError :=
  mkApiError 409 "RUN_IN_FLIGHT" "Wait for the reply to finish before compacting this chat".
Definition errTranscript : ApiError :=
  mkApiError 400 "BAD_REQUEST" "A local thread requires its transcript".
Definition errKeyMismatch : ApiError := mkApiError 409 "KEY_MISMATCH" "The run uses another key".
Definition errNonce : ApiError :=
  mkApiError 409 "REVISION_CONFLICT" "The request nonce was already used".

(** [liveKey], and the keys [forget], [hold] and [dropIdle] build. *)
Definition liveKey (scope id : string) : string :=
  String.append scope (String.append "/" id).

(** Where the goroutine that carries a run is.  Not a field of the program. *)
Inductive Phase :=
  (** [AcceptTurn] admits the run. *)
  | PAdmit
  (** Admission failed; [AcceptTurn] has to forget the request. *)
  | PRefused (e : ApiError)
  (** The request is refused. *)
  | PGone
  (** In its chat's queue. *)
  | PQueued
  (** [launch], called by [AcceptTurn] or by [runQueue]. *)
  | PLaunch (byAccept : bool)
  (** [launch] failed; [endUnstarted] is next. *)
  | PUnstarted (byAccept : bool) (e : ApiError)
  (** [endUnstarted] has retired the run. *)
  | PFailing (byAccept : bool) (e : ApiError)
  | PRun
  (** [finishRun] commits, with the [cancelled] it read. *)
  | PFinish (cancelled : bool)
  (** [finishRun] has retired the run. *)
  | PFinishing
  | PDone.

Section LiveRuns.
Context {L : Type} `{LO : !LogOps L}.

Record Run := mkRun {
  Thread : option nat;
  scope : string;
  LogID : string;
  nonce : string;
  digest : string;
  Kind : string;
  keyHash_of : string;
  Queued : bool;
  cancelled : bool;
  running : bool;
  ending : bool;
  yielded : bool;
  stopped : bool;
  accepted : bool;
  refused : option ApiError;
  Finished : bool;
  HoldsKey : bool;
  log : L;
  (** The queue the run's client was last sent; [AcceptTurn] has yet to close
      [accepted]. *)
  told : list nat;
  pending : bool;
  phase : Phase;
}.
#[global] Instance Run_eta : Eta Run := λ r,
  mkRun (Thread r) (scope r) (LogID r) (nonce r) (digest r) (Kind r) (keyHash_of r) (Queued r)
    (cancelled r) (running r) (ending r) (yielded r) (stopped r) (accepted r) (refused r)
    (Finished r) (HoldsKey r) (log r) (told r) (pending r) (phase r).

Record threadSession := mkSession {
  ID : string;
  owner : string;
  keyHash : string;
  deleted : bool;
  local : bool;
  keyless : bool;
  Active : option nat;
  Queue : list nat;
}.
#[global] Instance threadSession_eta : Eta threadSession := λ s,
  mkSession (ID s) (owner s) (keyHash s) (deleted s) (local s) (keyless s) (Active s) (Queue s).

Record heldRun := mkHeld { held_log : nat; held_owner : string; held_thread : string }.

Record World := mkWorld {
  closing : bool;
  threads : gmap string nat;
  runs : gmap string nat;
  requests : gmap string nat;
  held : gmap string heldRun;
  working : Z;
  sess : gmap nat threadSession;
  heap : gmap nat Run;
}.
#[global] Instance World_eta : Eta World := λ w,
  mkWorld (closing w) (threads w) (runs w) (requests w) (held w) (working w) (sess w) (heap w).

(** A write through a pointer; [None] where the program would panic. *)
Definition set_run (w : World) (r : nat) (f : Run → Run) : World := w <| heap ::= alter f r |>.
Definition set_sess (w : World) (s : nat) (f : threadSession → threadSession) : World :=
  w <| sess ::= alter f s |>.

Definition of_run (w : World) (r : nat) : option (Run * nat * threadSession) :=
  R ← heap w !! r; s ← Thread R; T ← sess w !! s; Some (R, s, T).

(** [close(ch)] panics on a closed channel. *)
Definition close_finished (R : Run) : option Run :=
  if Finished R then None else Some (R <| Finished := true |>).
Definition close_accepted (R : Run) : option Run :=
  if accepted R then None else Some (R <| accepted := true |>).
Definition upd_run (w : World) (r : nat) (f : Run → option Run) : option World :=
  R ← heap w !! r; R ← f R; Some (w <| heap ::= <[r := R]> |>).

(** ** live.go *)

Definition unset (m : gmap string nat) (k : string) (r : nat) : gmap string nat :=
  if bool_decide (m !! k = Some r) then delete k m else m.

Definition forget (w : World) (r : nat) : option World :=
  '(R, _, T) ← of_run w r;
  Some (w <| runs ::= λ m, unset m (liveKey (owner T) (LogID R)) r |>
          <| requests ::= λ m, unset m (liveKey (owner T) (nonce R)) r |>).

(** [Run.release] drops the content key, with the rest. *)
Definition run_release (R : Run) : Run := R <| HoldsKey := false |>.

Definition endQueued (w : World) (r : nat) (why : option ApiError) : option World :=
  w ← forget w r;
  upd_run w r (λ R,
    close_finished (run_release (R <| log ::= close_log |> <| phase := PDone |>))).

Fixpoint endAll (w : World) (rs : list nat) (why : option ApiError) : option World :=
  match rs with
  | [] => Some w
  | r :: rs => w ← endQueued w r why; endAll w rs why
  end.

(** The running reply is sent its chat's queue. *)
Definition queueChanged (w : World) (s : nat) : option World :=
  T ← sess w !! s;
  match Active T with
  | None => Some w
  | Some a =>
      A ← heap w !! a;
      Some (if running A then set_run w a (λ A, A <| told := Queue T |>) else w)
  end.

Definition makeActive (w : World) (s r : nat) : World := set_sess w s (λ T, T <| Active := Some r |>).

Definition dropIdle (w : World) (s : nat) : option World :=
  T ← sess w !! s;
  Some
    (if bool_decide (Active T ≠ None) || negb (bool_decide (Queue T = [])) then w
     else w <| threads ::= λ m, unset m (liveKey (owner T) (ID T)) s |>).

Definition advance (w : World) (r : nat) (goOn : bool) : option (World * option nat) :=
  w ← forget w r;
  '(_, s, T) ← of_run w r;
  let w := if bool_decide (Active T = Some r) then set_sess w s (λ T, T <| Active := None |>) else w in
  '(w, next) ←
    match Queue T with
    | n :: q =>
        if goOn && negb (deleted T) && negb (closing w) then
          Some (makeActive (set_sess w s (λ T, T <| Queue := q |>)) s n, Some n)
        else
          w ← endAll w (Queue T) None;
          Some (set_sess w s (λ T, T <| Queue := [] |>), None)
    | [] => Some (set_sess w s (λ T, T <| Queue := [] |>), None)
    end;
  w ← dropIdle w s;
  Some (w, next).

Definition hold (w : World) (r : nat) : option World :=
  '(R, _, T) ← of_run w r;
  Some ((set_run w r (λ R, R <| log ::= hold_log |>))
          <| held ::= <[liveKey (owner T) (LogID R) := mkHeld r (owner T) (ID T)]> |>).

Definition drop (w : World) (key : string) (h : heldRun) : World :=
  set_run (w <| held ::= delete key |>) (held_log h) (λ R, R <| log ::= release_log |>).

Definition release (w : World) (key : string) (r : nat) : World :=
  match held w !! key with
  | Some h => if bool_decide (held_log h = r) then drop w key h else w
  | None => w
  end.

Definition dropHeld (w : World) (matches : heldRun → bool) : World :=
  foldl (λ w '(key, h), if matches h then drop w key h else w) w (map_to_list (held w)).

Definition authorizedRun (w : World) (scope fingerprint threadID runID : string)
  : result ApiError nat :=
  match runs w !! liveKey scope runID with
  | None => Err errRunNotFound
  | Some r =>
      match of_run w r with
      | None => Err errRunNotFound
      | Some (_, _, T) =>
          if negb (bool_decide (ID T = threadID)) then Err errRunNotFound
          else if negb (keyless T) && negb (bool_decide (keyHash T = fingerprint))
            then Err errKeyMismatch
          else Ok r
      end
  end.

(** ** queue.go and shutdown.go *)

Definition slices_delete (q : list nat) (r : nat) : list nat :=
  match list_find (r =.) q with
  | Some (i, _) => take i q ++ list.drop (S i) q
  | None => q
  end.

Definition removeQueued (w : World) (r : nat) : option (World * bool) :=
  '(_, s, T) ← of_run w r;
  if bool_decide (r ∈ Queue T) then
    let w := set_sess w s (λ T, T <| Queue ::= λ q, slices_delete q r |>) in
    let w := set_run w r (λ R, R <| cancelled := true |>) in
    w ← endQueued w r None;
    w ← queueChanged w s;
    w ← dropIdle w s;
    Some (w, true)
  else Some (w, false).

Definition cancel_active (w : World) (a : nat) : World :=
  set_run w a (λ A, A <| cancelled := true |> <| stopped := true |>).

(** What [CancelThread] does once it has found the run. *)
Definition CancelThread (w : World) (r : nat) : option (World * result ApiError ()) :=
  '(w, removed) ← removeQueued w r;
  if (removed : bool) then Some (w, Ok ())
  else
    '(R, _, T) ← of_run w r;
    if negb (bool_decide (Active T = Some r)) || ending R then Some (w, Err errInFlight)
    else Some (cancel_active w r, Ok ()).

Definition SendQueued (w : World) (r : nat) : option (World * result ApiError ()) :=
  '(_, s, T) ← of_run w r;
  if negb (bool_decide (r ∈ Queue T)) then Some (w, Err errStarted)
  else
    let w := set_sess w s (λ T, T <| Queue ::= λ q, r :: slices_delete q r |>) in
    w ← queueChanged w s;
    a ← Active T;
    A ← heap w !! a;
    let w := set_run w a (λ A, A <| yielded := true |>) in
    Some (if ending A then w else cancel_active w a, Ok ()).

Definition RemoveQueued (w : World) (r : nat) : option (World * result ApiError ()) :=
  '(w, removed) ← removeQueued w r;
  Some (w, if (removed : bool) then Ok () else Err errStarted).

Definition isDevice (T : threadSession) : bool := local T && keyless T.

(** [stop]: a chat being deleted. *)
Definition stop (w : World) (s : nat) : option World :=
  T ← sess w !! s;
  let w := set_sess w s (λ T, T <| deleted := true |>) in
  let w := match Active T with Some a => cancel_active w a | None => w end in
  w ← endAll w (Queue T) None;
  dropIdle (set_sess w s (λ T, T <| Queue := [] |>)) s.

Definition StopThread (w : World) (scope id : string) : option World :=
  match threads w !! liveKey scope id with
  | Some s => stop w s
  | None => Some w
  end.

Definition StopDeviceThread (w : World) (scope id : string) : option World :=
  w ← match threads w !! liveKey scope id with
      | Some s => T ← sess w !! s; if isDevice T then stop w s else Some w
      | None => Some w
      end;
  Some (dropHeld w (λ h, bool_decide (held_owner h = scope) && bool_decide (held_thread h = id))).

Fixpoint stop_devices (w : World) (scope : string) (ss : list nat) : option World :=
  match ss with
  | [] => Some w
  | s :: ss =>
      T ← sess w !! s;
      w ← (if bool_decide (owner T = scope) && isDevice T then stop w s else Some w);
      stop_devices w scope ss
  end.

Definition StopDeviceThreads (w : World) (scope : string) : option World :=
  w ← stop_devices w scope (map_to_list (threads w)).*2;
  Some (dropHeld w (λ h, bool_decide (held_owner h = scope))).

Fixpoint stop_all (w : World) (ss : list nat) : option World :=
  match ss with
  | [] => Some w
  | s :: ss =>
      T ← sess w !! s;
      let w := match Active T with Some a => cancel_active w a | None => w end in
      w ← endAll w (Queue T) (Some errShutdown);
      stop_all (set_sess w s (λ T, T <| Queue := [] |>)) ss
  end.

Definition Stop (w : World) : option World :=
  stop_all (w <| closing := true |>) (map_to_list (threads w)).*2.

(** ** accept.go *)

(** What the first locked region of [AcceptTurn] decides. *)
Inductive Begun := BRefused (e : ApiError) | BPrevious (q : nat) | BFresh (w : World).

(** The run's own fields before it is admitted. *)
Definition fresh_run (scope nonce digest : string) : Run :=
  mkRun None scope "" nonce digest "" "" false false false false false false false None false false
    NewLog [] false PAdmit.

Definition accept_begin (w : World) (r : nat) (scope nonce digest : string) (low : bool) : Begun :=
  if closing w then BRefused errShutdown
  else
    match requests w !! liveKey scope nonce with
    | Some q => BPrevious q
    | None =>
        if low then BRefused errBusy
        else BFresh (w <| heap ::= <[r := fresh_run scope nonce digest]> |>
                       <| requests ::= <[liveKey scope nonce := r]> |>)
    end.

(** A retried request: the run it follows, if it is still live, is attached
    to; [None] has the request tried as a new one. The request's caller has
    seen [accepted] closed. *)
Definition accept_previous (w : World) (q : nat) (dg fingerprint key : string)
  : option (result ApiError (option World)) :=
  Q ← heap w !! q;
  if negb (bool_decide (digest Q = dg)) then Some (Err errNonce)
  else if bool_decide (refused Q ≠ None) then Some (Ok None)
  else
    '(_, _, T) ← of_run w q;
    if negb (keyless T) && negb (bool_decide (keyHash T = fingerprint)) then Some (Err errNonce)
    else if bool_decide (requests w !! key = Some q)
      then Some (Ok (Some (set_run w q (λ Q, Q <| log ::= Attach |>))))
    else Some (Ok None).

(** The inputs of [admit]'s locked region: the chat's id, the turn's kind,
    whether the chat is its client's ([in.Local]), the conversation an ask
    read and the client's copy of a local chat, the caller's key, and the
    run's token. *)
Record AdmitIn := mkAdmit {
  a_id : string;
  a_kind : string;
  a_local : bool;
  a_keyless : bool;
  a_source : bool;
  a_seed : bool;
  a_keyHash : string;
  a_token : string;
}.

(** [admit]'s locked region, for a chat with [s] for a new session. *)
Definition admitRun (w : World) (r s : nat) (i : AdmitIn) : option (World * result ApiError ()) :=
  R ← heap w !! r;
  if closing w then Some (w, Err errShutdown)
  else
    let key := liveKey (scope R) (a_id i) in
    let held := a_local i || a_source i in
    let existing := s ← threads w !! key; (s,.) <$> sess w !! s in
    let active := match existing with Some (_, T) => Active T | None => None end in
    let unavailable :=
      match existing with
      | Some (_, T) => deleted T || negb (bool_decide (local T = held)) ||
                       (negb (keyless T) && negb (bool_decide (keyHash T = a_keyHash i)))
      | None => false
      end in
    if unavailable then Some (w, Err errUnavailable)
    else if bool_decide (active ≠ None) && bool_decide (a_kind i = "compact")
      then Some (w, Err errCompacting)
    else if bool_decide (active ≠ None) &&
            bool_decide (MaxQueuedTurns ≤ match existing with Some (_, T) => length (Queue T) | None => 0 end)
      then Some (w, Err errQueueFull)
    else if bool_decide (active = None) && a_local i && negb (a_source i) && negb (a_seed i)
      then Some (w, Err errTranscript)
    else
      let '(w, s) :=
        match existing with
        | Some (s, _) => (w, s)
        | None =>
            (w <| sess ::= <[s := mkSession (a_id i) (scope R) (a_keyHash i) false held (a_keyless i) None []]> |>
               <| threads ::= <[key := s]> |>, s)
        end in
      let w := set_run w r (λ R, R <| LogID := a_token i |> <| Kind := a_kind i |>
                 <| keyHash_of := a_keyHash i |> <| HoldsKey := negb (a_keyless i) |>
                 <| Thread := Some s |> <| log ::= Attach |>) in
      let w := w <| runs ::= <[liveKey (scope R) (a_token i) := r]> |> in
      match active with
      | Some _ =>
          let w := set_run w r (λ R, R <| Queued := true |> <| phase := PQueued |>) in
          let w := set_sess w s (λ T, T <| Queue ::= λ q, q ++ [r] |>) in
          w ← queueChanged w s;
          w ← upd_run w r close_accepted;
          Some (w, Ok ())
      | None =>
          Some (makeActive (set_run w r (λ R, R <| phase := PLaunch true |>)) s r, Ok ())
      end.

(** [AcceptTurn] once [admit] failed: the request is forgotten and refused. *)
Definition accept_refuse (w : World) (r : nat) (e : ApiError) : option World :=
  R ← heap w !! r;
  let w := w <| requests ::= λ m, unset m (liveKey (scope R) (nonce R)) r |> in
  upd_run w r (λ R, close_accepted
    (R <| HoldsKey := false |> <| refused := Some e |> <| phase := PGone |>)).

(** ** start.go *)

(** The locked region that ends [launch]. *)
Definition launch (w : World) (r : nat) (byAccept : bool) : option World :=
  '(_, s, T) ← of_run w r;
  if deleted T then Some (set_run w r (λ R, R <| phase := PUnstarted byAccept errThreadDeleted |>))
  else if closing w then Some (set_run w r (λ R, R <| phase := PUnstarted byAccept errShutdown |>))
  else Some ((set_run w r (λ R, R <| running := true |> <| told := Queue T |> <| phase := PRun |>
                                 <| pending := byAccept |>))
               <| working ::= Z.succ |>).

(** [endUnstarted]'s locked region; the queued turn to start next has its
    goroutine. *)
Definition endUnstarted (w : World) (r : nat) (byAccept : bool) (e : ApiError) : option World :=
  '(w, next) ← advance w r true;
  let w := set_run w r (λ R, R <| phase := PFailing byAccept e |>) in
  Some match next with
       | Some n => set_run w n (λ R, R <| phase := PLaunch false |>)
       | None => w
       end.

(** The rest of [endUnstarted], and of [AcceptTurn] when it launched the turn. *)
Definition end_failed (w : World) (r : nat) (byAccept : bool) (e : ApiError) : option World :=
  upd_run w r (λ R,
    R ← close_finished (run_release (R <| log ::= close_log |> <| phase := PDone |>));
    if byAccept then close_accepted (R <| log ::= Detach |> <| refused := Some e |>) else Some R).

(** ** finish.go *)

Definition finish_begin (w : World) (r : nat) : option World :=
  upd_run w r (λ R, Some (R <| ending := true |> <| phase := PFinish (cancelled R) |>)).

(** The locked region that retires the run. [metadata.Thread] is set for a
    chat its client stores, but an ask. *)
Definition finish_retire (w : World) (r : nat) (was_cancelled : bool) : option World :=
  '(R, _, T) ← of_run w r;
  '(w, next) ← advance w r (negb was_cancelled || yielded R);
  w ← (if local T && negb (bool_decide (Kind R = "ask")) && negb (deleted T) then hold w r else Some w);
  let w := set_run w r (λ R, R <| phase := PFinishing |> <| HoldsKey := false |>) in
  Some match next with
       | Some n => set_run w n (λ R, R <| phase := PLaunch false |>)
       | None => w
       end.

(** The rest of [finishRun]. [WaitGroup.Done] panics below zero. *)
Definition finish_end (w : World) (r : nat) : option World :=
  w ← upd_run w r (λ R, close_finished (run_release (R <| log ::= close_log |> <| phase := PDone |>)));
  if bool_decide (working w ≤ 0)%Z then None else Some (w <| working ::= Z.pred |>).

(** ** Every interleaving *)

Inductive Action :=
  | AAccept (r : nat) (scope nonce digest : string) (low : bool)
  | ARetry (q : nat) (digest fingerprint key : string)
  | AAdmitFail (r : nat) (e : ApiError)
  | AAdmit (r s : nat) (i : AdmitIn)
  | ARefuse (r : nat)
  | AAccepted (r : nat)
  | ALaunch (r : nat)
  | ALaunchFail (r : nat) (e : ApiError)
  | AUnstarted (r : nat)
  | AFailed (r : nat)
  | AFinish (r : nat)
  | ARetire (r : nat)
  | AEnd (r : nat)
  | ACancel (r : nat)
  | ASend (r : nat)
  | ARemove (r : nat)
  | AStopThread (scope id : string)
  | AStopDevice (scope id : string)
  | AStopDevices (scope : string)
  | AStop
  | ARelease (key : string) (r : nat)
  | AFollow (r : nat)
  | ADetach (r : nat).

Definition phase_of (w : World) (r : nat) : option Phase := phase <$> heap w !! r.

(** An id that names a row or a token has no slash. *)
Definition slash_free (id : string) : Prop := "/"%char ∉ bytes_of id.

(** When a step may be taken: where its goroutine is, and that the tokens
    and pointers a step makes are new. *)
Definition enabled (w : World) (a : Action) : Prop :=
  match a with
  | AAccept r _ nonce _ _ => heap w !! r = None ∧ slash_free nonce
  | ARetry q _ _ _ => ∃ Q, heap w !! q = Some Q ∧ accepted Q = true
  | AAdmitFail r _ => phase_of w r = Some PAdmit
  | AAdmit r s i => phase_of w r = Some PAdmit ∧ sess w !! s = None ∧
      slash_free (a_id i) ∧ slash_free (a_token i) ∧
      (∀ r' R', heap w !! r' = Some R' → LogID R' ≠ a_token i)
  | ARefuse r => ∃ e, phase_of w r = Some (PRefused e)
  | AAccepted r => pending <$> heap w !! r = Some true
  | ALaunch r | ALaunchFail r _ => ∃ b, phase_of w r = Some (PLaunch b)
  | AUnstarted r => ∃ b e, phase_of w r = Some (PUnstarted b e)
  | AFailed r => ∃ b e, phase_of w r = Some (PFailing b e)
  | AFinish r => phase_of w r = Some PRun
  | ARetire r => ∃ c, phase_of w r = Some (PFinish c)
  | AEnd r => phase_of w r = Some PFinishing
  | ACancel r | ASend r | ARemove r => is_Some (of_run w r)
  | AFollow r | ADetach r => is_Some (heap w !! r)
  | AStopThread _ _ | AStopDevice _ _ | AStopDevices _ | AStop | ARelease _ _ => True
  end.

(** The step itself; [None] is a panic. *)
Definition exec (w : World) (a : Action) : option World :=
  match a with
  | AAccept r scope nonce digest low =>
      Some match accept_begin w r scope nonce digest low with BFresh w => w | _ => w end
  | ARetry q digest fingerprint key =>
      res ← accept_previous w q digest fingerprint key;
      Some match res with Ok (Some w) => w | _ => w end
  | AAdmitFail r e => Some (set_run w r (λ R, R <| phase := PRefused e |>))
  | AAdmit r s i =>
      '(w, res) ← admitRun w r s i;
      Some match res with
           | Ok _ => w
           | Err e => set_run w r (λ R, R <| phase := PRefused e |>)
           end
  | ARefuse r =>
      R ← heap w !! r;
      match phase R with PRefused e => accept_refuse w r e | _ => Some w end
  | AAccepted r => upd_run w r (λ R, close_accepted (R <| pending := false |>))
  | ALaunch r =>
      R ← heap w !! r;
      match phase R with PLaunch b => launch w r b | _ => Some w end
  | ALaunchFail r e =>
      R ← heap w !! r;
      match phase R with
      | PLaunch b => Some (set_run w r (λ R, R <| phase := PUnstarted b e |>))
      | _ => Some w
      end
  | AUnstarted r =>
      R ← heap w !! r;
      match phase R with PUnstarted b e => endUnstarted w r b e | _ => Some w end
  | AFailed r =>
      R ← heap w !! r;
      match phase R with PFailing b e => end_failed w r b e | _ => Some w end
  | AFinish r => finish_begin w r
  | ARetire r =>
      R ← heap w !! r;
      match phase R with PFinish c => finish_retire w r c | _ => Some w end
  | AEnd r => finish_end w r
  | ACancel r => '(w, _) ← CancelThread w r; Some w
  | ASend r => '(w, _) ← SendQueued w r; Some w
  | ARemove r => '(w, _) ← RemoveQueued w r; Some w
  | AStopThread scope id => StopThread w scope id
  | AStopDevice scope id => StopDeviceThread w scope id
  | AStopDevices scope => StopDeviceThreads w scope
  | AStop => Stop w
  | ARelease key r => Some (release w key r)
  | AFollow r => Some (set_run w r (λ R, R <| log ::= Attach |>))
  | ADetach r => Some (set_run w r (λ R, R <| log ::= Detach |>))
  end.

Definition step (w : World) (a : Action) (w' : World) : Prop := enabled w a ∧ exec w a = Some w'.
Definition empty : World := mkWorld false ∅ ∅ ∅ ∅ 0 ∅ ∅.
Definition reach : World → Prop := reachable (λ w, w = empty) step.

(** ** The invariant *)

Definition registered (p : Phase) : bool :=
  match p with
  | PQueued | PLaunch _ | PUnstarted _ _ | PRun | PFinish _ => true
  | _ => false
  end.
Definition requested (p : Phase) : bool :=
  match p with PAdmit | PRefused _ => true | _ => registered p end.
(** The run has its chat's running slot. *)
Definition is_active (p : Phase) : bool :=
  match p with PLaunch _ | PUnstarted _ _ | PRun | PFinish _ => true | _ => false end.
Definition is_queued (p : Phase) : bool := match p with PQueued => true | _ => false end.
Definition is_done (p : Phase) : bool := match p with PDone => true | _ => false end.
Definition unadmitted (p : Phase) : bool :=
  match p with PAdmit | PRefused _ | PGone => true | _ => false end.
Definition started (p : Phase) : bool :=
  match p with PRun | PFinish _ | PFinishing | PDone => true | _ => false end.

Definition rkey (R : Run) : string := liveKey (scope R) (LogID R).
Definition qkey (R : Run) : string := liveKey (scope R) (nonce R).
Definition skey (T : threadSession) : string := liveKey (owner T) (ID T).

(** What a run's fields say of where its goroutine is. *)
Record run_ok (R : Run) : Prop := {
  ok_thread : Thread R = None ↔ unadmitted (phase R) = true;
  ok_finished : Finished R = is_done (phase R);
  ok_accepted : accepted R =
    match phase R with
    | PAdmit | PRefused _ => false
    | PGone | PQueued => true
    | PLaunch b | PUnstarted b _ | PFailing b _ => negb b
    | _ => negb (pending R)
    end;
  ok_pending : pending R = true → started (phase R) = true;
  ok_key : phase R = PDone ∨ phase R = PGone → HoldsKey R = false;
  ok_ended : log_ended (log R) = is_done (phase R);
  ok_refused : phase R = PGone → refused R ≠ None;
  ok_slash : slash_free (nonce R) ∧ (Thread R ≠ None → slash_free (LogID R));
}.

Record sess_ok (T : threadSession) : Prop := {
  ok_nodup : NoDup (Queue T);
  ok_max : length (Queue T) ≤ MaxQueuedTurns;
  ok_behind : Queue T ≠ [] → Active T ≠ None;
  ok_id : slash_free (ID T);
}.

(** The registry and the pointers agree with where each run's goroutine is. *)
Record Inv (w : World) : Prop := {
  inv_runs k r : runs w !! k = Some r ↔
    ∃ R, heap w !! r = Some R ∧ rkey R = k ∧ registered (phase R) = true;
  inv_reqs k r : requests w !! k = Some r ↔
    ∃ R, heap w !! r = Some R ∧ qkey R = k ∧ requested (phase R) = true;
  inv_thr k s : threads w !! k = Some s ↔
    ∃ T, sess w !! s = Some T ∧ skey T = k ∧ Active T ≠ None;
  inv_act s T r : sess w !! s = Some T → Active T = Some r ↔
    ∃ R, heap w !! r = Some R ∧ Thread R = Some s ∧ is_active (phase R) = true;
  inv_queue s T r : sess w !! s = Some T → r ∈ Queue T ↔
    ∃ R, heap w !! r = Some R ∧ Thread R = Some s ∧ is_queued (phase R) = true;
  inv_sess s T : sess w !! s = Some T → sess_ok T;
  inv_run r R : heap w !! r = Some R → run_ok R;
  inv_owner r R s : heap w !! r = Some R → Thread R = Some s →
    ∃ T, sess w !! s = Some T ∧ owner T = scope R;
}.

(** *** A step that moves runs along and changes sessions *)

Record moves (w w' : World) (φ : nat → Run → Run) (θ : nat → threadSession → threadSession) : Prop := {
  mv_heap r : heap w' !! r = φ r <$> heap w !! r;
  mv_id r R : heap w !! r = Some R →
    Thread (φ r R) = Thread R ∧ scope (φ r R) = scope R ∧ LogID (φ r R) = LogID R ∧
    nonce (φ r R) = nonce R;
  mv_runs k r : runs w' !! k = Some r ↔ runs w !! k = Some r ∧
    (∀ R, heap w !! r = Some R → registered (phase (φ r R)) = true);
  mv_reqs k r : requests w' !! k = Some r ↔ requests w !! k = Some r ∧
    (∀ R, heap w !! r = Some R → requested (phase (φ r R)) = true);
  mv_reg r R : heap w !! r = Some R →
    (registered (phase (φ r R)) = true → registered (phase R) = true) ∧
    (requested (phase (φ r R)) = true → requested (phase R) = true);
  mv_sess s : sess w' !! s = θ s <$> sess w !! s;
  mv_sid s T : sess w !! s = Some T → ID (θ s T) = ID T ∧ owner (θ s T) = owner T;
  mv_thr k s : threads w' !! k = Some s ↔ threads w !! k = Some s ∧
    (∀ T, sess w !! s = Some T → Active (θ s T) ≠ None);
  mv_idle s T : sess w !! s = Some T → Active (θ s T) ≠ None → Active T ≠ None;
  mv_act s T r : sess w !! s = Some T → Active (θ s T) = Some r ↔
    ∃ R, heap w !! r = Some R ∧ Thread R = Some s ∧ is_active (phase (φ r R)) = true;
  mv_queue s T r : sess w !! s = Some T → r ∈ Queue (θ s T) ↔
    ∃ R, heap w !! r = Some R ∧ Thread R = Some s ∧ is_queued (phase (φ r R)) = true;
  mv_ok s T : sess w !! s = Some T → sess_ok (θ s T);
  mv_run r R : heap w !! r = Some R → run_ok (φ r R);
}.

Lemma moves_inv w w' φ θ : Inv w → moves w w' φ θ → Inv w'.
Proof.
  intros HI HM. split.
  - intros k r. rewrite (mv_runs _ _ _ _ HM), (inv_runs _ HI), (mv_heap _ _ _ _ HM). split.
    + intros [(R & HR & <- & Hp) Hreg]. rewrite HR. exists (φ r R).
      destruct (mv_id _ _ _ _ HM _ _ HR) as (_ & Hs & Hl & _). unfold rkey. rewrite Hs, Hl. eauto.
    + intros (R' & (R & HR & ->)%fmap_Some & <- & Hp).
      destruct (mv_id _ _ _ _ HM _ _ HR) as (_ & Hs & Hl & _). unfold rkey. rewrite Hs, Hl. split.
      * exists R. split_and!; [done..|]. by apply (mv_reg _ _ _ _ HM _ _ HR).
      * intros R0 HR0. by simplify_eq.
  - intros k r. rewrite (mv_reqs _ _ _ _ HM), (inv_reqs _ HI), (mv_heap _ _ _ _ HM). split.
    + intros [(R & HR & <- & Hp) Hreg]. rewrite HR. exists (φ r R).
      destruct (mv_id _ _ _ _ HM _ _ HR) as (_ & Hs & _ & Hl). unfold qkey. rewrite Hs, Hl. eauto.
    + intros (R' & (R & HR & ->)%fmap_Some & <- & Hp).
      destruct (mv_id _ _ _ _ HM _ _ HR) as (_ & Hs & _ & Hl). unfold qkey. rewrite Hs, Hl. split.
      * exists R. split_and!; [done..|]. by apply (mv_reg _ _ _ _ HM _ _ HR).
      * intros R0 HR0. by simplify_eq.
  - intros k s. rewrite (mv_thr _ _ _ _ HM), (inv_thr _ HI), (mv_sess _ _ _ _ HM). split.
    + intros [(T & HT & <- & Ha) Hact]. rewrite HT. exists (θ s T).
      destruct (mv_sid _ _ _ _ HM _ _ HT) as [Hi Ho]. unfold skey. rewrite Hi, Ho. eauto.
    + intros (T' & (T & HT & ->)%fmap_Some & <- & Ha).
      destruct (mv_sid _ _ _ _ HM _ _ HT) as [Hi Ho]. unfold skey. rewrite Hi, Ho. split.
      * exists T. split_and!; [done..|]. by apply (mv_idle _ _ _ _ HM _ _ HT).
      * intros T0 HT0. by simplify_eq.
  - intros s T' r. rewrite (mv_sess _ _ _ _ HM). intros (T & HT & ->)%fmap_Some.
    rewrite (mv_act _ _ _ _ HM s T r HT). setoid_rewrite (mv_heap _ _ _ _ HM). split.
    + intros (R & HR & Hth & Ha). exists (φ r R). rewrite HR.
      destruct (mv_id _ _ _ _ HM _ _ HR) as (-> & _). done.
    + intros (R' & (R & HR & ->)%fmap_Some & Hth & Ha). exists R.
      destruct (mv_id _ _ _ _ HM _ _ HR) as (Ht & _). rewrite Ht in Hth. done.
  - intros s T' r. rewrite (mv_sess _ _ _ _ HM). intros (T & HT & ->)%fmap_Some.
    rewrite (mv_queue _ _ _ _ HM s T r HT). setoid_rewrite (mv_heap _ _ _ _ HM). split.
    + intros (R & HR & Hth & Ha). exists (φ r R). rewrite HR.
      destruct (mv_id _ _ _ _ HM _ _ HR) as (-> & _). done.
    + intros (R' & (R & HR & ->)%fmap_Some & Hth & Ha). exists R.
      destruct (mv_id _ _ _ _ HM _ _ HR) as (Ht & _). rewrite Ht in Hth. done.
  - intros s T'. rewrite (mv_sess _ _ _ _ HM). intros (T & HT & ->)%fmap_Some.
    by apply (mv_ok _ _ _ _ HM).
  - intros r R'. rewrite (mv_heap _ _ _ _ HM). intros (R & HR & ->)%fmap_Some.
    by apply (mv_run _ _ _ _ HM).
  - intros r R' s. rewrite (mv_heap _ _ _ _ HM). intros (R & HR & ->)%fmap_Some.
    destruct (mv_id _ _ _ _ HM _ _ HR) as (-> & -> & _). intros Hth.
    destruct (inv_owner _ HI _ _ _ HR Hth) as (T & HT & Ho). exists (θ s T).
    rewrite (mv_sess _ _ _ _ HM), HT. destruct (mv_sid _ _ _ _ HM _ _ HT) as [_ ->]. done.
Qed.

(** *** What the operations do *)

(** Registered runs are found by their own keys, and belong to their chat's
    owner. *)
Record keyed (w : World) : Prop := {
  k_runs k r : runs w !! k = Some r → ∃ R, heap w !! r = Some R ∧ rkey R = k;
  k_reqs k r : requests w !! k = Some r → ∃ R, heap w !! r = Some R ∧ qkey R = k;
  k_owner r R s : heap w !! r = Some R → Thread R = Some s →
    ∃ T, sess w !! s = Some T ∧ owner T = scope R;
}.

Lemma inv_keyed w : Inv w → keyed w.
Proof.
  intros HI. split.
  - intros k r (R & ? & ? & _)%(inv_runs _ HI). eauto.
  - intros k r (R & ? & ? & _)%(inv_reqs _ HI). eauto.
  - apply HI.
Qed.

Definition admitted (w : World) (r : nat) : Prop :=
  ∃ R s, heap w !! r = Some R ∧ Thread R = Some s.

(** [w'] is [w] but for the registries, which lose the runs of [X]. *)
Record forgets (w w' : World) (X : nat → Prop) : Prop := {
  fg_runs k r : runs w' !! k = Some r ↔ runs w !! k = Some r ∧ ¬ X r;
  fg_reqs k r : requests w' !! k = Some r ↔ requests w !! k = Some r ∧ ¬ X r;
  fg_closing : closing w' = closing w;
  fg_threads : threads w' = threads w;
  fg_held : held w' = held w;
  fg_working : working w' = working w;
  fg_sess : sess w' = sess w;
}.

Lemma unset_spec m k r k' r' :
  (m !! k' = Some r → k' = k) →
  unset m k r !! k' = Some r' ↔ m !! k' = Some r' ∧ r' ≠ r.
Proof.
  intros Hk. unfold unset. case_bool_decide as Hm.
  - rewrite lookup_delete_Some. split.
    + intros [Hne Hm']. split; [done|]. intros ->. by rewrite Hk in Hne.
    + intros [Hm' Hne]. split; [|done]. intros ->. congruence.
  - split; [|naive_solver]. intros Hm'. split; [done|]. intros ->. by rewrite (Hk Hm') in Hm'.
Qed.

Lemma of_run_Some w r R s T :
  heap w !! r = Some R → Thread R = Some s → sess w !! s = Some T → of_run w r = Some (R, s, T).
Proof. intros HR Hs HT. unfold of_run. by rewrite HR; cbn; rewrite Hs; cbn; rewrite HT. Qed.

Lemma forget_spec w r :
  keyed w → admitted w r →
  ∃ w', forget w r = Some w' ∧ heap w' = heap w ∧ forgets w w' (λ x, x = r).
Proof.
  intros Hk (R & s & HR & Hs). destruct (k_owner _ Hk _ _ _ HR Hs) as (T & HT & Ho).
  unfold forget. rewrite (of_run_Some _ _ _ _ _ HR Hs HT). cbn. eexists. split; [done|].
  split; [done|]. split; try done; cbn; intros k x.
  - apply unset_spec. intros (R' & HR' & <-)%(k_runs _ Hk). simplify_eq. unfold rkey. by rewrite Ho.
  - apply unset_spec. intros (R' & HR' & <-)%(k_reqs _ Hk). simplify_eq. unfold qkey. by rewrite Ho.
Qed.

(** A run that [endQueued] ended. *)
Definition ended_run (R : Run) : Run :=
  run_release (R <| log ::= close_log |> <| phase := PDone |>) <| Finished := true |>.

Lemma keyed_forgets w w' X φ :
  keyed w → forgets w w' X → (∀ r, heap w' !! r = φ r <$> heap w !! r) →
  (∀ r R, Thread (φ r R) = Thread R ∧ scope (φ r R) = scope R ∧ LogID (φ r R) = LogID R ∧
          nonce (φ r R) = nonce R) → keyed w'.
Proof.
  intros Hk HF Hh Hid. split.
  - intros k r [(R & HR & <-)%(k_runs _ Hk) _]%(fg_runs _ _ _ HF). exists (φ r R).
    rewrite Hh, HR. destruct (Hid r R) as (_ & Hs & Hl & _). unfold rkey. by rewrite Hs, Hl.
  - intros k r [(R & HR & <-)%(k_reqs _ Hk) _]%(fg_reqs _ _ _ HF). exists (φ r R).
    rewrite Hh, HR. destruct (Hid r R) as (_ & Hs & _ & Hl). unfold qkey. by rewrite Hs, Hl.
  - intros r R' s. rewrite Hh. intros (R & HR & ->)%fmap_Some.
    destruct (Hid r R) as (-> & -> & _). rewrite (fg_sess _ _ _ HF). intros Hs. by eapply k_owner.
Qed.

Lemma endQueued_spec w r why :
  keyed w → admitted w r → Finished <$> heap w !! r = Some false →
  ∃ w', endQueued w r why = Some w' ∧ forgets w w' (λ x, x = r) ∧
    ∀ x, heap w' !! x = (if decide (x = r) then ended_run else id) <$> heap w !! x.
Proof.
  intros Hk Ha Hf. destruct (forget_spec w r Hk Ha) as (w1 & Hw1 & Hh & HF).
  unfold endQueued. rewrite Hw1. cbn. unfold upd_run.
  destruct (heap w !! r) as [R|] eqn:HR; [|done]. cbn in Hf. injection Hf as Hf.
  rewrite Hh, HR. cbn. unfold close_finished. cbn. rewrite Hf.
  eexists. split; [done|]. split; [by destruct HF; split|].
  intros x. cbn. rewrite Hh. decide_eq.
  - by rewrite lookup_insert_eq, HR.
  - rewrite lookup_insert_ne by done. by destruct (heap w !! x).
Qed.

Lemma ended_id (x r : nat) R :
  let R' := (if decide (x = r) then ended_run else id) R in
  Thread R' = Thread R ∧ scope R' = scope R ∧ LogID R' = LogID R ∧ nonce R' = nonce R.
Proof. by destruct (decide (x = r)). Qed.

Lemma endAll_spec w rs why :
  keyed w → NoDup rs → (∀ r, r ∈ rs → admitted w r ∧ Finished <$> heap w !! r = Some false) →
  ∃ w', endAll w rs why = Some w' ∧ forgets w w' (λ x, x ∈ rs) ∧
    ∀ x, heap w' !! x = (if decide (x ∈ rs) then ended_run else id) <$> heap w !! x.
Proof.
  intros Hk Hnd. revert w Hk. induction Hnd as [|r rs Hr Hnd IH]; intros w Hk Hall.
  - exists w. split; [done|]. split.
    + split; try done; intros; set_solver.
    + intros x. rewrite decide_False by set_solver. by destruct (heap w !! x).
  - destruct (Hall r) as [Ha Hf]; [set_solver|].
    destruct (endQueued_spec w r why Hk Ha Hf) as (w1 & Hw1 & HF1 & Hh1).
    destruct (IH w1) as (w2 & Hw2 & HF2 & Hh2).
    { eapply keyed_forgets; [exact Hk|exact HF1|exact Hh1|]. intros x R. apply (ended_id x r). }
    { intros x Hx. destruct (Hall x) as [(R & s & HR & Hs) Hfx]; [set_solver|].
      unfold admitted. rewrite Hh1. rewrite decide_False by (intros ->; done). rewrite HR.
      cbn. rewrite HR in Hfx. eauto. }
    cbn. rewrite Hw1. cbn. rewrite Hw2. eexists. split; [done|]. split.
    + destruct HF1, HF2. split; try congruence.
      * intros k x. rewrite fg_runs1, fg_runs0. set_solver.
      * intros k x. rewrite fg_reqs1, fg_reqs0. set_solver.
    + intros x. rewrite Hh2, Hh1. destruct (decide (x = r)) as [->|Hne].
      * rewrite decide_False, decide_True by set_solver. by destruct (heap w !! r).
      * destruct (decide (x ∈ rs)); [rewrite decide_True by set_solver|rewrite decide_False by set_solver];
          by destruct (heap w !! x).
Qed.

Lemma dropIdle_spec w s T :
  sess w !! s = Some T →
  ∃ w', dropIdle w s = Some w' ∧ heap w' = heap w ∧ sess w' = sess w ∧ runs w' = runs w ∧
    requests w' = requests w ∧ closing w' = closing w ∧ held w' = held w ∧ working w' = working w ∧
    threads w' = if bool_decide (Active T ≠ None) || negb (bool_decide (Queue T = []))
                 then threads w else unset (threads w) (skey T) s.
Proof.
  intros HT. unfold dropIdle. rewrite HT. cbn. eexists. split; [done|].
  destruct (bool_decide (Active T ≠ None) || _); done.
Qed.

Lemma queueChanged_spec w s T :
  sess w !! s = Some T → (∀ a, Active T = Some a → is_Some (heap w !! a)) →
  ∃ w', queueChanged w s = Some w' ∧ sess w' = sess w ∧ runs w' = runs w ∧
    requests w' = requests w ∧ closing w' = closing w ∧ held w' = held w ∧ threads w' = threads w ∧
    working w' = working w ∧
    ∀ x, heap w' !! x = (λ R, if bool_decide (Active T = Some x) && running R
                              then R <| told := Queue T |> else R) <$> heap w !! x.
Proof.
  intros HT Ha. unfold queueChanged. rewrite HT. cbn.
  destruct (Active T) as [a|] eqn:HA.
  - destruct (Ha a eq_refl) as [A HAa]. rewrite HAa. cbn. eexists. split; [done|].
    destruct (running A) eqn:Hr; cbn; (split_and!; [done..|]); intros x.
    + rewrite lookup_alter. decide_eq.
      * rewrite HAa. cbn. by rewrite bool_decide_true, Hr by done.
      * rewrite bool_decide_false by congruence. by destruct (heap w !! x).
    + destruct (decide (x = a)) as [->|Hne].
      * rewrite HAa. cbn. by rewrite Hr, andb_false_r.
      * rewrite bool_decide_false by congruence. by destruct (heap w !! x).
  - eexists. split; [done|]. split_and!; [done..|]. intros x.
    rewrite bool_decide_false by done. by destruct (heap w !! x).
Qed.

Lemma inv_active w s T a :
  Inv w → sess w !! s = Some T → Active T = Some a →
  ∃ A, heap w !! a = Some A ∧ Thread A = Some s ∧ is_active (phase A) = true.
Proof. intros HI HT Ha. by apply (inv_act _ HI s T). Qed.

Lemma inv_queued w s T q :
  Inv w → sess w !! s = Some T → q ∈ Queue T →
  ∃ Q, heap w !! q = Some Q ∧ Thread Q = Some s ∧ phase Q = PQueued.
Proof.
  intros HI HT Hq. apply (inv_queue _ HI s T) in Hq as (Q & HQ & Hs & Hp); [|done].
  exists Q. split_and!; [done..|]. by destruct (phase Q).
Qed.

Lemma queue_endable w s T :
  Inv w → sess w !! s = Some T →
  ∀ q, q ∈ Queue T → admitted w q ∧ Finished <$> heap w !! q = Some false.
Proof.
  intros HI HT q Hq. destruct (inv_queued _ _ _ _ HI HT Hq) as (Q & HQ & Hs & Hp).
  split; [by exists Q, s|]. rewrite HQ. cbn. f_equal.
  by rewrite (ok_finished _ (inv_run _ HI _ _ HQ)), Hp.
Qed.

(** What [advance] returns for the turn to start next, and the chat it leaves. *)
Definition next_of (w : World) (T : threadSession) (goOn : bool) : option nat :=
  match Queue T with
  | n :: _ => if goOn && negb (deleted T) && negb (closing w) then Some n else None
  | [] => None
  end.
Definition left_queue (w : World) (T : threadSession) (goOn : bool) : list nat :=
  match next_of w T goOn with Some _ => tail (Queue T) | None => [] end.
Definition ended_queue (w : World) (T : threadSession) (goOn : bool) : list nat :=
  match next_of w T goOn with Some _ => [] | None => Queue T end.

(** Equality tests that the context decides. *)
Ltac decided :=
  repeat (cbn [fmap option_fmap option_map];
    first [rewrite decide_True by done|rewrite decide_False by congruence]); try done.

Lemma advance_spec w r R s T goOn :
  Inv w → heap w !! r = Some R → Thread R = Some s → sess w !! s = Some T → Active T = Some r →
  ∃ w', advance w r goOn = Some (w', next_of w T goOn) ∧
    closing w' = closing w ∧ held w' = held w ∧ working w' = working w ∧
    (∀ k x, runs w' !! k = Some x ↔ runs w !! k = Some x ∧ x ≠ r ∧ x ∉ ended_queue w T goOn) ∧
    (∀ k x, requests w' !! k = Some x ↔ requests w !! k = Some x ∧ x ≠ r ∧ x ∉ ended_queue w T goOn) ∧
    (∀ x, sess w' !! x = (λ T', if decide (x = s)
       then T' <| Active := next_of w T goOn |> <| Queue := left_queue w T goOn |> else T') <$> sess w !! x) ∧
    (∀ x, heap w' !! x = (if decide (x ∈ ended_queue w T goOn) then ended_run else id) <$> heap w !! x) ∧
    (∀ k x, threads w' !! k = Some x ↔ threads w !! k = Some x ∧ (x = s → next_of w T goOn ≠ None)).
Proof.
  intros HI HR Hs HT Ha. pose proof (inv_keyed _ HI) as Hk.
  destruct (forget_spec w r Hk) as (w1 & Hw1 & Hh1 & HF1); [by exists R, s|].
  unfold advance. rewrite Hw1. cbn [mbind option_bind].
  assert (HT1 : sess w1 !! s = Some T) by by rewrite (fg_sess _ _ _ HF1).
  rewrite (of_run_Some w1 r R s T) by (rewrite ?Hh1; done). cbn [mbind option_bind].
  rewrite bool_decide_true by done.
  set (w2 := set_sess w1 s (λ T, T <| Active := None |>)).
  assert (Hcl : closing w2 = closing w) by (cbn; by rewrite (fg_closing _ _ _ HF1)).
  destruct (next_of w T goOn) as [n|] eqn:Hn.
  - (* the next turn starts *)
    unfold next_of in Hn. destruct (Queue T) as [|n' q] eqn:HQ; [done|]. rewrite Hcl.
    destruct (goOn && negb (deleted T) && negb (closing w)) eqn:Hgo; [|done]. simplify_eq.
    cbn [mbind option_bind].
    set (w3 := makeActive (set_sess w2 s (λ T0, T0 <| Queue := q |>)) s n).
    assert (HT3 : sess w3 !! s = Some (T <| Active := Some n |> <| Queue := q |>)).
    { unfold w3, w2, makeActive, set_sess; cbn. by rewrite !lookup_alter_eq, HT1. }
    destruct (dropIdle_spec w3 s _ HT3) as (w4 & Hw4 & Hh & Hse & Hru & Hre & Hc & Hhe & Hwo & Hth).
    rewrite Hw4. cbn. eexists. split; [done|].
    unfold ended_queue, left_queue, next_of. rewrite HQ, Hgo. cbn [tail].
    cbn in Hth. split_and!.
    + by rewrite Hc.
    + rewrite Hhe. apply (fg_held _ _ _ HF1).
    + rewrite Hwo. apply (fg_working _ _ _ HF1).
    + intros k x. rewrite Hru. cbn. rewrite (fg_runs _ _ _ HF1). set_solver.
    + intros k x. rewrite Hre. cbn. rewrite (fg_reqs _ _ _ HF1). set_solver.
    + intros x. rewrite Hse. unfold w3, w2, makeActive, set_sess; cbn.
      rewrite !lookup_alter, (fg_sess _ _ _ HF1).
      destruct (decide (s = x)) as [->|Hne].
      * rewrite HT. decided.
      * destruct (sess w !! x); decided.
    + intros x. rewrite Hh. cbn. rewrite Hh1. rewrite decide_False by set_solver.
      by destruct (heap w !! x).
    + intros k x. rewrite Hth. cbn. rewrite (fg_threads _ _ _ HF1). naive_solver.
  - (* the chat goes idle *)
    assert (Hend : ended_queue w T goOn = Queue T ∧ left_queue w T goOn = []).
    { unfold ended_queue, left_queue. by rewrite Hn. }
    destruct Hend as [-> ->].
    assert (Hstep : ∃ w3, (match Queue T with
        | [] => Some (set_sess w2 s (λ T0, T0 <| Queue := [] |>), None)
        | n :: q =>
          if goOn && negb (deleted T) && negb (closing w2)
          then Some (makeActive (set_sess w2 s (λ T0, T0 <| Queue := q |>)) s n, Some n)
          else w0 ← endAll w2 (Queue T) None;
               Some (set_sess w0 s (λ T0, T0 <| Queue := [] |>), None)
        end) = Some (w3, None) ∧ ∃ w0, forgets w2 w0 (λ x, x ∈ Queue T) ∧
        w3 = set_sess w0 s (λ T0, T0 <| Queue := [] |>) ∧
        ∀ x, heap w0 !! x = (if decide (x ∈ Queue T) then ended_run else id) <$> heap w2 !! x).
    { unfold next_of in Hn. rewrite Hcl. destruct (Queue T) as [|n q] eqn:HQ.
      - eexists. split; [done|]. exists w2. split_and!; [|done|].
        + split; try done; intros; set_solver.
        + intros x. rewrite decide_False by set_solver. by destruct (heap w2 !! x).
      - destruct (goOn && _ && _) eqn:Hgo; [done|].
        assert (Hk2 : keyed w2).
        { unfold w2. destruct HF1. split; cbn.
          - intros k x [(X & HX & <-)%(k_runs _ Hk) _]%fg_runs0. exists X. by rewrite Hh1.
          - intros k x [(X & HX & <-)%(k_reqs _ Hk) _]%fg_reqs0. exists X. by rewrite Hh1.
          - intros x X s' HX Hs'. rewrite Hh1 in HX.
            destruct (k_owner _ Hk _ _ _ HX Hs') as (T' & HT' & Ho). rewrite lookup_alter, fg_sess0.
            destruct (decide (s = s')) as [->|]; [|eauto]. rewrite HT'. cbn. eauto. }
        destruct (endAll_spec w2 (n :: q) None Hk2) as (w0 & Hw0 & HF0 & Hh0).
        { rewrite <- HQ. apply (inv_sess _ HI _ _ HT). }
        { intros x Hx. rewrite <- HQ in Hx. unfold admitted. cbn. rewrite Hh1.
          by apply (queue_endable _ _ _ HI HT). }
        rewrite Hw0. cbn. eexists. split; [done|]. exists w0. done. }
    destruct Hstep as (w3 & -> & w0 & HF0 & -> & Hh0). cbn [mbind option_bind].
    assert (HT0 : sess w0 !! s = Some (T <| Active := None |>)).
    { rewrite (fg_sess _ _ _ HF0). unfold w2. cbn. by rewrite lookup_alter_eq, HT1. }
    set (w3 := set_sess w0 s (λ T0, T0 <| Queue := [] |>)).
    assert (HT3 : sess w3 !! s = Some (T <| Active := None |> <| Queue := [] |>)).
    { unfold w3; cbn. by rewrite lookup_alter_eq, HT0. }
    destruct (dropIdle_spec w3 s _ HT3) as (w4 & Hw4 & Hh & Hse & Hru & Hre & Hc & Hhe & Hwo & Hth).
    rewrite Hw4. cbn. eexists. split; [done|]. cbn in Hth.
    destruct HF0, HF1. cbn in *.
    split_and!.
    + congruence.
    + congruence.
    + congruence.
    + intros k x. rewrite Hru, fg_runs0, fg_runs1. naive_solver.
    + intros k x. rewrite Hre, fg_reqs0, fg_reqs1. naive_solver.
    + intros x. rewrite Hse, lookup_alter, !fg_sess0, !lookup_alter, !fg_sess1.
      destruct (decide (s = x)) as [->|Hne].
      * rewrite HT. decided.
      * destruct (sess w !! x); decided.
    + intros x. rewrite Hh, Hh0, Hh1. done.
    + intros k x. rewrite Hth, fg_threads0, fg_threads1. rewrite unset_spec; [naive_solver|].
      intros (T' & HT' & <- & _)%(inv_thr _ HI). rewrite HT in HT'. by simplify_eq.
Qed.

Lemma run_ok_ended R : run_ok R → phase R = PQueued → run_ok (ended_run R).
Proof.
  intros [] Hp. rewrite Hp in *. split; cbn; try done.
  - rewrite ok_accepted0. destruct (pending R) eqn:He; [|done]. by specialize (ok_pending0 eq_refl).
  - by destruct (log_close (log R)) as [_ ->].
Qed.

Lemma run_ok_next R : run_ok R → phase R = PQueued → run_ok (R <| phase := PLaunch false |>).
Proof.
  intros [] Hp. rewrite Hp in *. split; cbn; try done.
  by intros [].
Qed.

Lemma next_of_in w T goOn n : next_of w T goOn = Some n → Queue T = n :: left_queue w T goOn.
Proof.
  unfold left_queue. unfold next_of. destruct (Queue T) as [|m q]; [done|].
  destruct (_ && _); [|done]. by intros [= ->].
Qed.

(** The run has left its chat, and the next turn has its goroutine. *)
Lemma retire_inv w r R s T goOn w1 f w' :
  Inv w → heap w !! r = Some R → Thread R = Some s → sess w !! s = Some T → Active T = Some r →
  advance w r goOn = Some (w1, next_of w T goOn) →
  (Thread (f R) = Thread R ∧ scope (f R) = scope R ∧ LogID (f R) = LogID R ∧ nonce (f R) = nonce R) →
  requested (phase (f R)) = false → run_ok (f R) →
  (∀ x, heap w' !! x = (λ X, if decide (x = r) then f X
      else if decide (next_of w T goOn = Some x) then X <| phase := PLaunch false |> else X) <$> heap w1 !! x) →
  threads w' = threads w1 → runs w' = runs w1 → requests w' = requests w1 → sess w' = sess w1 →
  closing w' = closing w1 →
  Inv w'.
Proof.
  intros HI HR Hs HT Ha Hadv Hfid Hfp Hfok Hh Hth Hru Hre Hse Hcl.
  destruct (advance_spec w r R s T goOn HI HR Hs HT Ha)
    as (w1' & Hadv' & Acl & Ahe & Awo & Aru & Are & Ase & Ahp & Ath).
  rewrite Hadv in Hadv'. injection Hadv' as <-.
  set (next := next_of w T goOn) in *. set (endq := ended_queue w T goOn) in *.
  pose proof (inv_sess _ HI _ _ HT) as HTok.
  assert (Hpf : registered (phase (f R)) = false ∧ is_active (phase (f R)) = false ∧
                is_queued (phase (f R)) = false) by by destruct (phase (f R)).
  destruct Hpf as (Hfr & Hfa & Hfq).
  assert (Hnextq : ∀ x, next = Some x → ∃ X, heap w !! x = Some X ∧ Thread X = Some s ∧ phase X = PQueued).
  { intros x Hx. apply next_of_in in Hx. apply (inv_queued _ _ _ _ HI HT). rewrite Hx. by left. }
  assert (Hendq : ∀ x, x ∈ endq → ∃ X, heap w !! x = Some X ∧ Thread X = Some s ∧ phase X = PQueued).
  { intros x Hx. apply (inv_queued _ _ _ _ HI HT). unfold endq, ended_queue in Hx.
    destruct (next_of w T goOn); [set_solver|done]. }
  destruct (inv_active _ _ _ _ HI HT Ha) as (R' & HR' & _ & Hra). rewrite HR in HR'. injection HR' as <-.
  assert (Hrn : next ≠ Some r ∧ r ∉ endq).
  { split; [intros (X & HX & _ & Hp)%Hnextq|intros (X & HX & _ & Hp)%Hendq]; simplify_eq; by rewrite Hp in Hra. }
  destruct Hrn as [Hrn Hre'].
  set (φ := λ x X, if decide (x = r) then f X
    else if decide (next = Some x) then X <| phase := PLaunch false |>
    else if decide (x ∈ endq) then ended_run X else X).
  set (θ := λ x (T' : threadSession), if decide (x = s)
     then T' <| Active := next |> <| Queue := left_queue w T goOn |> else T').
  assert (Hφ : ∀ x X, heap w !! x = Some X → x ≠ r →
     φ x X = X ∧ next ≠ Some x ∧ x ∉ endq ∨
     next = Some x ∧ x ∉ endq ∧ φ x X = (X <| phase := (PLaunch false) |>) ∨
     next = None ∧ x ∈ endq ∧ φ x X = ended_run X).
  { intros x X HX Hne. unfold φ. rewrite decide_False by done. destruct (decide (next = Some x)) as [Hn|Hn].
    - right. left. split_and!; [done| |done]. unfold endq, ended_queue. fold next. rewrite Hn. set_solver.
    - destruct (decide (x ∈ endq)) as [Hx|Hx]; [right; right|by left]. split_and!; try done.
      unfold endq, ended_queue in Hx. fold next in Hx. destruct next; [set_solver|done]. }
  apply (moves_inv w w' φ θ HI). split.
  - intros x. rewrite Hh, Ahp. destruct (heap w !! x) as [X|] eqn:HX; [|done]. cbn. f_equal.
    unfold φ. destruct (decide (x = r)) as [->|]; [by rewrite decide_False|].
    destruct (decide (next = Some x)) as [Hn|]; [|by destruct (decide (x ∈ endq))].
    rewrite decide_False; [done|]. unfold endq, ended_queue. fold next. rewrite Hn. set_solver.
  - intros x X HX. unfold φ. destruct (decide (x = r)) as [->|]; [by simplify_eq|].
    by destruct (decide (next = Some x)), (decide (x ∈ endq)).
  - intros k x. rewrite Hru, Aru. split.
    + intros (Hk & Hne & Hnin). split; [done|]. intros X HX.
      destruct (Hφ x X HX Hne) as [(-> & _)|[(_ & _ & ->)|(_ & ? & _)]]; [|done..].
      apply (inv_runs _ HI) in Hk as (X' & HX' & _ & ?). by simplify_eq.
    + intros [Hk Hx]. split; [done|]. apply (inv_runs _ HI) in Hk as (X & HX & _ & _).
      specialize (Hx X HX). split.
      * intros ->. unfold φ in Hx. rewrite decide_True in Hx by done. simplify_eq. congruence.
      * intros Hin. destruct (decide (x = r)) as [->|Hne]; [done|].
        destruct (Hφ x X HX Hne) as [(_ & _ & ?)|[(_ & ? & _)|(_ & _ & He)]]; [done..|].
        by rewrite He in Hx.
  - intros k x. rewrite Hre, Are. split.
    + intros (Hk & Hne & Hnin). split; [done|]. intros X HX.
      destruct (Hφ x X HX Hne) as [(-> & _)|[(_ & _ & ->)|(_ & ? & _)]]; [|done..].
      apply (inv_reqs _ HI) in Hk as (X' & HX' & _ & ?). by simplify_eq.
    + intros [Hk Hx]. split; [done|]. apply (inv_reqs _ HI) in Hk as (X & HX & _ & _).
      specialize (Hx X HX). split.
      * intros ->. unfold φ in Hx. rewrite decide_True in Hx by done. simplify_eq. congruence.
      * intros Hin. destruct (decide (x = r)) as [->|Hne]; [done|].
        destruct (Hφ x X HX Hne) as [(_ & _ & ?)|[(_ & ? & _)|(_ & _ & He)]]; [done..|].
        by rewrite He in Hx.
  - intros x X HX. destruct (decide (x = r)) as [->|Hne].
    + unfold φ. rewrite decide_True by done. simplify_eq. rewrite Hfr, Hfp. done.
    + destruct (Hφ x X HX Hne) as [(-> & _)|[(Hn & _ & ->)|(_ & _ & ->)]]; [done| |done].
      destruct (Hnextq _ Hn) as (X' & HX' & _ & Hp). simplify_eq. by rewrite Hp.
  - intros x. rewrite Hse, Ase. by destruct (sess w !! x).
  - intros x X HX. unfold θ. by destruct (decide (x = s)).
  - intros k x. rewrite Hth, Ath. split.
    + intros [Hk Hx]. split; [done|]. intros T0 HT0. unfold θ. destruct (decide (x = s)); [by apply Hx|].
      apply (inv_thr _ HI) in Hk as (T1 & HT1 & _ & ?). by simplify_eq.
    + intros [Hk Hx]. split; [done|]. intros ->. specialize (Hx T HT). unfold θ in Hx.
      by rewrite decide_True in Hx.
  - intros x T0 HT0. unfold θ. destruct (decide (x = s)) as [->|]; [|done]. simplify_eq. by rewrite Ha.
  - intros x T0 y HT0. unfold θ. destruct (decide (x = s)) as [->|Hxs].
    + simplify_eq. cbn. split.
      * intros Hn. destruct (Hnextq _ Hn) as (X & HX & HXs & Hp). exists X. split_and!; [done..|].
        assert (y ≠ r) by congruence.
        destruct (Hφ y X HX) as [(_ & ? & _)|[(_ & _ & ->)|(? & _)]]; [done|done|done|congruence].
      * intros (X & HX & HXs & Hact). destruct (decide (y = r)) as [->|Hne].
        { unfold φ in Hact. rewrite decide_True in Hact by done. simplify_eq. congruence. }
        destruct (Hφ y X HX Hne) as [(Hid & Hn & Hin)|[(? & _)|(_ & _ & He)]]; [|done|by rewrite He in Hact].
        rewrite Hid in Hact. exfalso. apply Hne. assert (Active T = Some y) by (apply (inv_act _ HI s T); eauto).
        congruence.
    + rewrite (inv_act _ HI x T0 y HT0). split; intros (X & HX & HXs & Hact); exists X; (split_and!; [done..|]).
      * assert (y ≠ r) by congruence. destruct (Hφ y X HX) as [(-> & _)|[(Hn & _)|(_ & Hn & _)]]; [done|done|..].
        -- destruct (Hnextq _ Hn) as (X' & HX' & ? & _). simplify_eq.
        -- destruct (Hendq _ Hn) as (X' & HX' & ? & _). simplify_eq.
      * assert (y ≠ r) by congruence. destruct (Hφ y X HX) as [(Hid & _)|[(Hn & _)|(_ & Hn & _)]]; [done|..].
        -- by rewrite Hid in Hact.
        -- destruct (Hnextq _ Hn) as (X' & HX' & ? & _). simplify_eq.
        -- destruct (Hendq _ Hn) as (X' & HX' & ? & _). simplify_eq.
  - intros x T0 y HT0. unfold θ. destruct (decide (x = s)) as [->|Hxs].
    + simplify_eq. cbn. split.
      * intros Hy.
        assert (Hyq : y ∈ Queue T).
        { unfold left_queue in Hy. destruct (next_of w T goOn) as [n|] eqn:Hn; [|set_solver].
          destruct (Queue T); [set_solver|]. cbn in Hy. by right. }
        destruct (inv_queued _ _ _ _ HI HT Hyq) as (X & HX & HXs & Hp). exists X. split_and!; [done..|].
        assert (y ≠ r) by (intros ->; simplify_eq; by rewrite Hp in Hra).
        destruct (Hφ y X HX) as [(-> & _)|[(Hn & _)|(Hn & _)]]; [done|by rewrite Hp|..].
        -- exfalso. pose proof (next_of_in _ _ _ _ Hn) as HQ. destruct HTok as [Hnd _ _ _].
           rewrite HQ in Hnd. apply NoDup_cons in Hnd as [? _]. done.
        -- exfalso. unfold left_queue in Hy. fold next in Hy. rewrite Hn in Hy. set_solver.
      * intros (X & HX & HXs & Hact). destruct (decide (y = r)) as [->|Hne].
        { unfold φ in Hact. rewrite decide_True in Hact by done. simplify_eq. congruence. }
        destruct (Hφ y X HX Hne) as [(Hid & Hn & Hin)|[(_ & _ & He)|(_ & _ & He)]];
          [|by rewrite He in Hact|by rewrite He in Hact].
        rewrite Hid in Hact. assert (Hyq : y ∈ Queue T) by (apply (inv_queue _ HI s T); eauto).
        unfold endq, ended_queue in Hin. unfold left_queue. fold next in Hin |- *.
        destruct next as [n|] eqn:Hnx; [|done]. rewrite (next_of_in _ _ _ _ Hnx) in Hyq |- *. cbn.
        apply elem_of_cons in Hyq as [->|?]; [done|done].
    + rewrite (inv_queue _ HI x T0 y HT0). split; intros (X & HX & HXs & Hact); exists X; (split_and!; [done..|]).
      * assert (y ≠ r) by congruence. destruct (Hφ y X HX) as [(-> & _)|[(Hn & _)|(_ & Hn & _)]]; [done|done|..].
        -- destruct (Hnextq _ Hn) as (X' & HX' & ? & _). simplify_eq.
        -- destruct (Hendq _ Hn) as (X' & HX' & ? & _). simplify_eq.
      * assert (y ≠ r) by congruence. destruct (Hφ y X HX) as [(Hid & _)|[(Hn & _)|(_ & Hn & _)]]; [done|..].
        -- by rewrite Hid in Hact.
        -- destruct (Hnextq _ Hn) as (X' & HX' & ? & _). simplify_eq.
        -- destruct (Hendq _ Hn) as (X' & HX' & ? & _). simplify_eq.
  - intros x T0 HT0. unfold θ. pose proof (inv_sess _ HI _ _ HT0) as [].
    destruct (decide (x = s)) as [->|Hxs]; [simplify_eq|by split].
    destruct next as [n|] eqn:Hn; unfold left_queue; fold next; rewrite ?Hn.
    + pose proof (next_of_in _ _ _ _ Hn) as HQ. split; cbn; try done.
      * rewrite HQ in ok_nodup0. cbn. rewrite HQ. cbn. by apply NoDup_cons in ok_nodup0 as [_ ?].
      * rewrite HQ in ok_max0 |- *. cbn in *. lia.
    + split; cbn; try done. constructor. lia.
  - intros x X HX. destruct (decide (x = r)) as [->|Hne].
    + unfold φ. rewrite decide_True by done. by simplify_eq.
    + pose proof (inv_run _ HI _ _ HX) as Hok.
      destruct (Hφ x X HX Hne) as [(-> & _)|[(Hn & _ & ->)|(_ & Hn & ->)]]; [done|..].
      * destruct (Hnextq _ Hn) as (X' & HX' & _ & Hp). simplify_eq. by apply run_ok_next.
      * destruct (Hendq _ Hn) as (X' & HX' & _ & Hp). simplify_eq. by apply run_ok_ended.
Qed.

(** A run but for flags that its place does not depend on. *)
Record same (X Y : Run) : Prop := {
  sm_thread : Thread Y = Thread X;
  sm_scope : scope Y = scope X;
  sm_token : LogID Y = LogID X;
  sm_nonce : nonce Y = nonce X;
  sm_phase : phase Y = phase X;
  sm_finished : Finished Y = Finished X;
  sm_accepted : accepted Y = accepted X;
  sm_pending : pending Y = pending X;
  sm_key : HoldsKey Y = HoldsKey X;
  sm_refused : refused Y = refused X;
  sm_ended : log_ended (log Y) = log_ended (log X);
}.

Lemma same_refl X : same X X.
Proof. by split. Qed.

Lemma same_ok X Y : same X Y → run_ok X → run_ok Y.
Proof.
  intros [] []. split; rewrite ?sm_thread0, ?sm_phase0, ?sm_finished0, ?sm_accepted0, ?sm_pending0,
    ?sm_key0, ?sm_refused0, ?sm_ended0, ?sm_nonce0, ?sm_token0; done.
Qed.

Lemma same_ended X Y : same X Y → phase X = PQueued → run_ok X → run_ok (ended_run Y).
Proof. intros Hs Hp Hok. apply run_ok_ended; [by eapply same_ok|]. by rewrite (sm_phase _ _ Hs). Qed.

Definition same_chat (T U : threadSession) : Prop :=
  ID U = ID T ∧ owner U = owner T ∧ Active U = Active T ∧ Queue U = Queue T.

Lemma flags_inv w w' :
  Inv w →
  (∀ x, ∃ f, heap w' !! x = f <$> heap w !! x ∧ ∀ X, heap w !! x = Some X → same X (f X)) →
  (∀ s, ∃ g, sess w' !! s = g <$> sess w !! s ∧ ∀ T, same_chat T (g T)) →
  threads w' = threads w → runs w' = runs w → requests w' = requests w → Inv w'.
Proof.
  intros HI Hh Hse Hth Hru Hre.
  assert (Hheap : ∀ x Y, heap w' !! x = Some Y → ∃ X, heap w !! x = Some X ∧ same X Y).
  { intros x Y HY. destruct (Hh x) as (f & Hf & Hs). rewrite Hf in HY.
    apply fmap_Some in HY as (X & HX & ->). eauto. }
  assert (Hheap' : ∀ x X, heap w !! x = Some X → ∃ Y, heap w' !! x = Some Y ∧ same X Y).
  { intros x X HX. destruct (Hh x) as (f & Hf & Hs). rewrite Hf, HX. cbn. eauto. }
  assert (Hsess : ∀ s U, sess w' !! s = Some U → ∃ T, sess w !! s = Some T ∧ same_chat T U).
  { intros s U HU. destruct (Hse s) as (g & Hg & Hs). rewrite Hg in HU.
    apply fmap_Some in HU as (T & HT & ->). eauto. }
  assert (Hsess' : ∀ s T, sess w !! s = Some T → ∃ U, sess w' !! s = Some U ∧ same_chat T U).
  { intros s T HT. destruct (Hse s) as (g & Hg & Hs). rewrite Hg, HT. cbn. eauto. }
  split.
  - intros k r. rewrite Hru, (inv_runs _ HI). unfold rkey. split; intros (R & HR & <- & Hp).
    + destruct (Hheap' _ _ HR) as (Y & HY & []). exists Y. split_and!; congruence.
    + destruct (Hheap _ _ HR) as (Y & HY & []). exists Y. split_and!; congruence.
  - intros k r. rewrite Hre, (inv_reqs _ HI). unfold qkey. split; intros (R & HR & <- & Hp).
    + destruct (Hheap' _ _ HR) as (Y & HY & []). exists Y. split_and!; congruence.
    + destruct (Hheap _ _ HR) as (Y & HY & []). exists Y. split_and!; congruence.
  - intros k s. rewrite Hth, (inv_thr _ HI). unfold skey. split; intros (T & HT & <- & Ha).
    + destruct (Hsess' _ _ HT) as (U & HU & (? & ? & ? & ?)). exists U. split_and!; congruence.
    + destruct (Hsess _ _ HT) as (U & HU & (? & ? & ? & ?)). exists U. split_and!; congruence.
  - intros s U r (T & HT & (_ & _ & -> & _))%Hsess. rewrite (inv_act _ HI s T r HT).
    split; intros (R & HR & Hs & Hp).
    + destruct (Hheap' _ _ HR) as (Y & HY & []). exists Y. split_and!; congruence.
    + destruct (Hheap _ _ HR) as (Y & HY & []). exists Y. split_and!; congruence.
  - intros s U r (T & HT & (_ & _ & _ & ->))%Hsess. rewrite (inv_queue _ HI s T r HT).
    split; intros (R & HR & Hs & Hp).
    + destruct (Hheap' _ _ HR) as (Y & HY & []). exists Y. split_and!; congruence.
    + destruct (Hheap _ _ HR) as (Y & HY & []). exists Y. split_and!; congruence.
  - intros s U (T & HT & (Hi & _ & Ha & Hq))%Hsess. destruct (inv_sess _ HI _ _ HT).
    split; rewrite ?Hi, ?Ha, ?Hq; done.
  - intros r Y (X & HX & Hs)%Hheap. eapply same_ok; [done|]. by apply (inv_run _ HI r).
  - intros r Y s (X & HX & [])%Hheap Hs.
    destruct (inv_owner _ HI r X s HX) as (T & HT & Ho); [congruence|].
    destruct (Hsess' _ _ HT) as (U & HU & (? & ? & ? & ?)). exists U. split; congruence.
Qed.

(** One run's place changes, but not its kind. *)
Lemma place_inv w w' r R R' :
  Inv w → heap w !! r = Some R → heap w' = <[r := R']> (heap w) →
  (Thread R' = Thread R ∧ scope R' = scope R ∧ LogID R' = LogID R ∧ nonce R' = nonce R) →
  registered (phase R') = registered (phase R) → is_active (phase R') = is_active (phase R) →
  is_queued (phase R') = is_queued (phase R) → run_ok R' →
  (∀ k x, requests w' !! k = Some x ↔ requests w !! k = Some x ∧ (x = r → requested (phase R') = true)) →
  (requested (phase R') = true → requested (phase R) = true) →
  threads w' = threads w → runs w' = runs w → sess w' = sess w → Inv w'.
Proof.
  intros HI HR Hh Hid Hreg Hact Hq Hok Hre Hreq Hth Hru Hse.
  set (φ := λ x X, if decide (x = r) then R' else X : Run).
  assert (Hφ : ∀ x X, heap w !! x = Some X → φ x X = X ∧ x ≠ r ∨ x = r ∧ X = R ∧ φ x X = R').
  { intros x X HX. unfold φ. destruct (decide (x = r)) as [->|]; [right|left; done]. by simplify_eq. }
  apply (moves_inv w w' φ (λ _ T, T) HI). split.
  - intros x. rewrite Hh, lookup_insert. unfold φ. destruct (decide (r = x)) as [->|Hne].
    + rewrite HR. decided.
    + destruct (heap w !! x); decided.
  - intros x X HX. by destruct (Hφ x X HX) as [[-> _]|(_ & -> & ->)].
  - intros k x. rewrite Hru. split; [|naive_solver]. intros Hk. split; [done|]. intros X HX.
    apply (inv_runs _ HI) in Hk as (X' & HX' & _ & Hp). assert (X' = X) as -> by congruence.
    destruct (Hφ x X HX) as [[-> _]|(_ & -> & ->)]; congruence.
  - intros k x. rewrite Hre. split; intros [Hk Hx]; (split; [done|]).
    + intros X HX. apply (inv_reqs _ HI) in Hk as (X' & HX' & _ & Hp). assert (X' = X) as -> by congruence.
      destruct (Hφ x X HX) as [[-> _]|(-> & -> & ->)]; [done|by apply Hx].
    + intros ->. specialize (Hx R HR). unfold φ in Hx. by rewrite decide_True in Hx.
  - intros x X HX. destruct (Hφ x X HX) as [[-> _]|(_ & -> & ->)]; [done|]. rewrite Hreg. done.
  - intros s. rewrite Hse. by destruct (sess w !! s).
  - done.
  - intros k s. rewrite Hth. split; [|naive_solver]. intros Hk. split; [done|].
    intros T HT. apply (inv_thr _ HI) in Hk as (T' & HT' & _ & ?). congruence.
  - done.
  - intros s T x HT. rewrite (inv_act _ HI s T x HT). split; intros (X & HX & Hs & Hp); exists X; (split_and!; [done..|]);
      destruct (Hφ x X HX) as [[He _]|(_ & -> & He)]; rewrite ?He in *; congruence.
  - intros s T x HT. rewrite (inv_queue _ HI s T x HT). split; intros (X & HX & Hs & Hp); exists X; (split_and!; [done..|]);
      destruct (Hφ x X HX) as [[He _]|(_ & -> & He)]; rewrite ?He in *; congruence.
  - intros s T HT. by apply (inv_sess _ HI s).
  - intros x X HX. destruct (Hφ x X HX) as [[-> _]|(_ & -> & ->)]; [by apply (inv_run _ HI x)|done].
Qed.

(** Every turn queued in a chat is ended. *)
Lemma endq_inv w s T why :
  Inv w → sess w !! s = Some T →
  ∃ w1, endAll w (Queue T) why = Some w1 ∧
    let w' := set_sess w1 s (λ T, T <| Queue := [] |>) in
    Inv w' ∧ closing w' = closing w ∧ held w' = held w ∧ working w' = working w ∧
    threads w' = threads w ∧ sess w1 = sess w ∧
    ∀ x, heap w' !! x = (if decide (x ∈ Queue T) then ended_run else id) <$> heap w !! x.
Proof.
  intros HI HT. pose proof (inv_sess _ HI _ _ HT) as HTok.
  destruct (endAll_spec w (Queue T) why (inv_keyed _ HI) (ok_nodup _ HTok) (queue_endable _ _ _ HI HT))
    as (w1 & Hw1 & HF & Hh).
  exists w1. split; [done|]. cbn zeta. destruct HF. split_and!; try done.
  set (φ := λ x X, if decide (x ∈ Queue T) then ended_run X else X).
  set (θ := λ x (T' : threadSession), if decide (x = s) then T' <| Queue := [] |> else T').
  assert (Hφ : ∀ x X, heap w !! x = Some X → φ x X = X ∧ x ∉ Queue T ∨
    x ∈ Queue T ∧ phase X = PQueued ∧ Thread X = Some s ∧ φ x X = ended_run X).
  { intros x X HX. unfold φ. destruct (decide (x ∈ Queue T)) as [Hx|]; [right|left; done].
    destruct (inv_queued _ _ _ _ HI HT Hx) as (X' & HX' & ? & ?). by simplify_eq. }
  apply (moves_inv w _ φ θ HI). split; cbn.
  - intros x. rewrite Hh. unfold φ. by destruct (heap w !! x), (decide (x ∈ Queue T)).
  - intros x X HX. by destruct (Hφ x X HX) as [[-> _]|(_ & _ & _ & ->)].
  - intros k x. rewrite fg_runs0. split.
    + intros [Hk Hx]. split; [done|]. intros X HX. destruct (Hφ x X HX) as [[-> _]|(? & _)]; [|done].
      apply (inv_runs _ HI) in Hk as (X' & HX' & _ & ?). congruence.
    + intros [Hk Hx]. split; [done|]. intros Hin. apply (inv_runs _ HI) in Hk as (X & HX & _).
      specialize (Hx X HX). by destruct (Hφ x X HX) as [[_ ?]|(_ & _ & _ & He)]; [|rewrite He in Hx].
  - intros k x. rewrite fg_reqs0. split.
    + intros [Hk Hx]. split; [done|]. intros X HX. destruct (Hφ x X HX) as [[-> _]|(? & _)]; [|done].
      apply (inv_reqs _ HI) in Hk as (X' & HX' & _ & ?). congruence.
    + intros [Hk Hx]. split; [done|]. intros Hin. apply (inv_reqs _ HI) in Hk as (X & HX & _).
      specialize (Hx X HX). by destruct (Hφ x X HX) as [[_ ?]|(_ & _ & _ & He)]; [|rewrite He in Hx].
  - intros x X HX. by destruct (Hφ x X HX) as [[-> _]|(_ & _ & _ & ->)].
  - intros x. rewrite lookup_alter, !fg_sess0. unfold θ.
    destruct (decide (s = x)) as [->|Hne]; destruct (sess w !! x); decided.
  - intros x X HX. unfold θ. by destruct (decide (x = s)).
  - intros k x. rewrite fg_threads0. split; [|naive_solver]. intros Hk. split; [done|].
    intros T0 HT0. apply (inv_thr _ HI) in Hk as (T1 & HT1 & _ & ?). unfold θ.
    destruct (decide (x = s)); cbn; congruence.
  - intros x T0 HT0. unfold θ. by destruct (decide (x = s)).
  - intros x T0 y HT0. trans (Active T0 = Some y); [unfold θ; by destruct (decide (x = s))|].
    rewrite (inv_act _ HI x T0 y HT0). split; intros (X & HX & Hs & Hp); exists X; (split_and!; [done..|]).
    + destruct (Hφ y X HX) as [[-> _]|(_ & Hq & _ & _)]; [done|by rewrite Hq in Hp].
    + destruct (Hφ y X HX) as [[He _]|(_ & _ & _ & He)]; rewrite He in Hp; done.
  - intros x T0 y HT0. unfold θ. destruct (decide (x = s)) as [->|Hxs].
    + simplify_eq. cbn. split; [set_solver|]. intros (X & HX & Hs & Hp).
      destruct (Hφ y X HX) as [[He Hn]|(_ & _ & _ & He)]; rewrite He in Hp; [|done].
      exfalso. apply Hn. apply (inv_queue _ HI s T); eauto.
    + rewrite (inv_queue _ HI x T0 y HT0). split; intros (X & HX & Hs & Hp); exists X; (split_and!; [done..|]).
      * destruct (Hφ y X HX) as [[-> _]|(_ & _ & ? & _)]; [done|congruence].
      * destruct (Hφ y X HX) as [[He _]|(_ & _ & _ & He)]; rewrite He in Hp; done.
  - intros x T0 HT0. unfold θ. pose proof (inv_sess _ HI _ _ HT0) as [].
    destruct (decide (x = s)); [|done]. split; cbn; try done; [constructor|lia].
  - intros x X HX. pose proof (inv_run _ HI _ _ HX).
    destruct (Hφ x X HX) as [[-> _]|(_ & ? & _ & ->)]; [done|by apply run_ok_ended].
Qed.

Lemma cancel_inv w a : Inv w → Inv (cancel_active w a).
Proof.
  intros HI. apply (flags_inv w _ HI); try done.
  - intros x. unfold cancel_active, set_run; cbn. rewrite lookup_alter.
    destruct (decide (a = x)) as [->|]; [eexists; split; [done|by intros; split]|].
    exists id. split; [by destruct (heap w !! x)|]. intros. apply same_refl.
  - intros s. exists id. cbn. split; [by destruct (sess w !! s)|done].
Qed.

Lemma cancel_sess w a : sess (cancel_active w a) = sess w ∧ threads (cancel_active w a) = threads w ∧
  closing (cancel_active w a) = closing w ∧ held (cancel_active w a) = held w.
Proof. done. Qed.

Lemma delete_flag_inv w s : Inv w → Inv (set_sess w s (λ T, T <| deleted := true |>)).
Proof.
  intros HI. apply (flags_inv w _ HI); try done.
  - intros x. exists id. cbn. split; [by destruct (heap w !! x)|]. intros. apply same_refl.
  - intros x. unfold set_sess; cbn. rewrite lookup_alter.
    destruct (decide (s = x)) as [->|]; [eexists; split; [done|by intros]|].
    exists id. split; [by destruct (sess w !! x)|done].
Qed.

Lemma closing_inv w : Inv w → Inv (w <| closing := true |>).
Proof. intros []. by split. Qed.

Lemma dropIdle_inv w s T :
  Inv w → sess w !! s = Some T →
  ∃ w', dropIdle w s = Some w' ∧ Inv w' ∧ heap w' = heap w ∧ sess w' = sess w ∧
    closing w' = closing w ∧ held w' = held w ∧ working w' = working w ∧ threads w' = threads w.
Proof.
  intros HI HT.
  destruct (dropIdle_spec w s T HT) as (w' & Hw' & Hh & Hse & Hru & Hre & Hc & Hhe & Hwo & Hth).
  exists w'. split; [done|].
  assert (Hthe : threads w' = threads w).
  { rewrite Hth. destruct (bool_decide (Active T ≠ None) || _) eqn:Hb; [done|].
    apply orb_false_iff in Hb as [Hb%bool_decide_eq_false _]. unfold unset.
    case_bool_decide as Hk; [|done]. exfalso. apply (inv_thr _ HI) in Hk as (T' & HT' & _ & ?).
    apply Hb. congruence. }
  split; [|done]. apply (flags_inv w _ HI); try done.
  - intros x. exists id. rewrite Hh. split; [by destruct (heap w !! x)|]. intros. apply same_refl.
  - intros x. exists id. rewrite Hse. split; [by destruct (sess w !! x)|done].
Qed.

(** Flags that are only ever raised, but on new runs. *)
Definition raised (w w' : World) : Prop :=
  ∀ x X, heap w !! x = Some X → ∃ Y, heap w' !! x = Some Y ∧
    (cancelled X = true → cancelled Y = true) ∧ (stopped X = true → stopped Y = true).

Lemma raised_refl w : raised w w.
Proof. intros x X HX. eauto. Qed.

Lemma raised_trans w1 w2 w3 : raised w1 w2 → raised w2 w3 → raised w1 w3.
Proof.
  intros H1 H2 x X HX. destruct (H1 x X HX) as (Y & HY & ? & ?).
  destruct (H2 x Y HY) as (Z & HZ & ? & ?). exists Z. auto.
Qed.

Lemma raised_fmap w w' (f : nat → Run → Run) :
  (∀ x, heap w' !! x = f x <$> heap w !! x) →
  (∀ x X, heap w !! x = Some X →
     (cancelled X = true → cancelled (f x X) = true) ∧ (stopped X = true → stopped (f x X) = true)) →
  raised w w'.
Proof. intros Hh Hf x X HX. exists (f x X). rewrite Hh, HX. split; [done|]. by apply Hf. Qed.

(** The runs that [working] counts. *)
Definition works (p : Phase) : bool :=
  match p with PRun | PFinish _ | PFinishing => true | _ => false end.
Definition is_working (w : World) (x : nat) : Prop :=
  ∃ X, heap w !! x = Some X ∧ works (phase X) = true.

(** No run starts or ends its work. *)
Definition calm (w w' : World) : Prop :=
  raised w w' ∧ working w' = working w ∧ ∀ x, is_working w' x ↔ is_working w x.

Lemma calm_refl w : calm w w.
Proof. split_and!; [apply raised_refl|done|done]. Qed.

Lemma calm_trans w1 w2 w3 : calm w1 w2 → calm w2 w3 → calm w1 w3.
Proof.
  intros (Hr1 & Hw1 & H1) (Hr2 & Hw2 & H2). split_and!; [by eapply raised_trans|congruence|].
  intros x. by rewrite H2.
Qed.

Lemma calm_fmap w w' (f : nat → Run → Run) :
  (∀ x, heap w' !! x = f x <$> heap w !! x) → working w' = working w →
  (∀ x X, heap w !! x = Some X →
     ((cancelled X = true → cancelled (f x X) = true) ∧ (stopped X = true → stopped (f x X) = true)) ∧
     works (phase (f x X)) = works (phase X)) →
  calm w w'.
Proof.
  intros Hh Hw Hf. split_and!; [|done|].
  - apply (raised_fmap _ _ f Hh). intros x X HX. by apply Hf.
  - intros x. unfold is_working. setoid_rewrite Hh. split.
    + intros (Y & (X & HX & ->)%fmap_Some & Hp). exists X. by rewrite (proj2 (Hf x X HX)) in Hp.
    + intros (X & HX & Hp). exists (f x X). by rewrite HX, (proj2 (Hf x X HX)).
Qed.

(** A chat being deleted ends what it runs, and keeps the invariant. *)
Lemma stop_inv w s T :
  Inv w → sess w !! s = Some T →
  ∃ w', stop w s = Some w' ∧ Inv w' ∧ closing w' = closing w ∧ held w' = held w ∧
    threads w' = threads w ∧ calm w w' ∧
    (∀ x, sess w' !! x = (λ T', if decide (x = s) then T' <| deleted := true |> <| Queue := [] |> else T')
                         <$> sess w !! x) ∧
    (∀ x, heap w' !! x = (λ X, if decide (x ∈ Queue T) then ended_run X
       else if decide (Active T = Some x) then X <| cancelled := true |> <| stopped := true |> else X) <$> heap w !! x).
Proof.
  intros HI HT. unfold stop. rewrite HT. cbn [mbind option_bind].
  set (w1 := set_sess w s (λ T, T <| deleted := true |>)).
  pose proof (delete_flag_inv w s HI) as HI1. fold w1 in HI1.
  set (w2 := match Active T with Some a => cancel_active w1 a | None => w1 end).
  assert (HI2 : Inv w2) by (unfold w2; destruct (Active T); [by apply cancel_inv|done]).
  assert (Hsess2 : sess w2 = sess w1) by (unfold w2; by destruct (Active T)).
  assert (HT2 : sess w2 !! s = Some (T <| deleted := true |>)).
  { rewrite Hsess2. unfold w1, set_sess; cbn. by rewrite lookup_alter_eq, HT. }
  destruct (endq_inv w2 s _ None HI2 HT2) as (w3 & Hw3 & HI3 & Hc & He & Hwo & Hth & Hse & Hh).
  change (Queue (T <| deleted := true |>)) with (Queue T) in *. rewrite Hw3. cbn [mbind option_bind].
  set (w4 := set_sess w3 s (λ T, T <| Queue := [] |>)) in *.
  assert (HT4 : sess w4 !! s = Some (T <| deleted := true |> <| Queue := [] |>)).
  { unfold w4, set_sess; cbn. by rewrite lookup_alter_eq, Hse, HT2. }
  destruct (dropIdle_inv w4 s _ HI3 HT4) as (w5 & Hw5 & HI5 & Hh5 & Hs5 & Hc5 & He5 & Hw5' & Ht5).
  rewrite Hw5. exists w5. split; [done|]. split; [done|].
  assert (Hf : closing w2 = closing w ∧ held w2 = held w ∧ threads w2 = threads w ∧ working w2 = working w)
    by (unfold w2; by destruct (Active T)).
  destruct Hf as (Hf1 & Hf2 & Hf3 & Hf4).
  assert (Hheap : ∀ x, heap w5 !! x = (λ X, if decide (x ∈ Queue T) then ended_run X
    else if decide (Active T = Some x) then X <| cancelled := true |> <| stopped := true |> else X) <$> heap w !! x).
  { intros x. rewrite Hh5, Hh. unfold w2. destruct (Active T) as [a|] eqn:Ha.
    - unfold cancel_active, set_run; cbn. rewrite lookup_alter.
      destruct (decide (a = x)) as [->|Hne].
      + rewrite <- option_fmap_compose. destruct (heap w !! x); [|done]. cbn. f_equal.
        destruct (decide (x ∈ Queue T)) as [Hx|]; [|decided].
        exfalso. apply (inv_queued _ _ _ _ HI HT) in Hx as (X & HX & _ & Hp).
        apply (inv_active _ _ _ _ HI HT) in Ha as (X' & HX' & _ & Ha). simplify_eq. by rewrite Hp in Ha.
      + destruct (heap w !! x); [|done]. cbn. f_equal. destruct (decide (x ∈ Queue T)); [done|]. decided.
    - cbn. destruct (heap w !! x); [|done]. cbn. f_equal. destruct (decide (x ∈ Queue T)); [done|]. decided. }
  split_and!; try congruence; [| |done].
  - apply (calm_fmap _ _ _ Hheap); [congruence|]. intros x X HX.
    destruct (decide (x ∈ Queue T)) as [Hx|]; [|by destruct (decide (Active T = Some x))].
    destruct (inv_queued _ _ _ _ HI HT Hx) as (X' & HX' & _ & Hp). simplify_eq. by rewrite Hp.
  - intros x. rewrite Hs5. unfold w4, set_sess; cbn. rewrite lookup_alter, !Hse, !Hsess2.
    unfold w1, set_sess; cbn. rewrite !lookup_alter.
    destruct (decide (s = x)) as [->|Hne]; [rewrite HT|destruct (sess w !! x)]; decided.
Qed.

(** The chat's queue is empty and its reply cancelled. *)
Definition halted (w : World) (T : threadSession) : Prop :=
  Queue T = [] ∧ ∀ a A, Active T = Some a → heap w !! a = Some A → cancelled A = true ∧ stopped A = true.

Lemma halted_raised w w' T U :
  (∀ a, Active T = Some a → is_Some (heap w !! a)) →
  halted w T → raised w w' → Active U = Active T → Queue U = [] → halted w' U.
Proof.
  intros Hex [HQ Ha] Hr HA HU. split; [done|]. intros a A Hact HAa. rewrite HA in Hact.
  destruct (Hex a Hact) as [A0 HA0]. destruct (Ha a A0 Hact HA0).
  destruct (Hr a A0 HA0) as (Y & HY & ? & ?). simplify_eq. auto.
Qed.

Lemma stop_all_inv w ss :
  Inv w → (∀ s, s ∈ ss → is_Some (sess w !! s)) →
  ∃ w', stop_all w ss = Some w' ∧ Inv w' ∧ closing w' = closing w ∧ held w' = held w ∧
    threads w' = threads w ∧ calm w w' ∧
    (∀ x, ∃ q, sess w' !! x = (λ T, T <| Queue := q T |>) <$> sess w !! x ∧
       (∀ T, q T = Queue T ∨ q T = []) ∧ (x ∈ ss → ∀ T, q T = [])) ∧
    (∀ x T, x ∈ ss → sess w' !! x = Some T → halted w' T).
Proof.
  revert w. induction ss as [|s ss IH]; intros w HI Hss.
  - exists w. cbn. split_and!; try done; [apply calm_refl| |set_solver].
    intros x. exists Queue. split_and!; [|by auto|set_solver].
    destruct (sess w !! x) as [T|]; [|done]. cbn. f_equal. by destruct T.
  - destruct (Hss s) as [T HT]; [set_solver|]. cbn [stop_all]. rewrite HT. cbn [mbind option_bind].
    set (w1 := match Active T with Some a => cancel_active w a | None => w end).
    assert (HI1 : Inv w1) by (unfold w1; destruct (Active T); [by apply cancel_inv|done]).
    assert (Hw1 : sess w1 = sess w ∧ closing w1 = closing w ∧ held w1 = held w ∧ threads w1 = threads w ∧
      working w1 = working w) by (unfold w1; by destruct (Active T)).
    destruct Hw1 as (Hs1 & Hc1 & Hh1 & Ht1 & Hwk1).
    assert (HT1 : sess w1 !! s = Some T) by by rewrite Hs1.
    destruct (endq_inv w1 s T (Some errShutdown) HI1 HT1) as (w2 & Hw2 & HI2 & Hc & He & Hwo & Hth & Hse & Hh).
    rewrite Hw2. cbn [mbind option_bind].
    set (w3 := set_sess w2 s (λ T, T <| Queue := [] |>)) in *.
    assert (Hs3 : ∀ x, sess w3 !! x = (λ T', if decide (x = s) then T' <| Queue := [] |> else T') <$> sess w !! x).
    { intros x. unfold w3, set_sess; cbn. rewrite lookup_alter, !Hse, !Hs1.
      destruct (decide (s = x)) as [->|Hne]; [rewrite HT|destruct (sess w !! x)]; decided. }
    destruct (IH w3 HI2) as (w4 & Hw4 & HI4 & Hc4 & He4 & Ht4 & Hr4 & Hq4 & Hh4).
    { intros x Hx. rewrite Hs3. apply fmap_is_Some, Hss. set_solver. }
    rewrite Hw4. exists w4. split; [done|]. split; [done|]. split; [congruence|].
    split; [congruence|]. split; [congruence|].
    assert (Hr13 : calm w w3).
    { apply (calm_trans w w1 w3).
      - unfold w1. destruct (Active T) as [a|]; [|apply calm_refl].
        apply (calm_fmap _ _ (λ x X, if decide (a = x) then X <| cancelled := true |> <| stopped := true |> else X));
          [|done|].
        + intros x. unfold cancel_active, set_run; cbn. rewrite lookup_alter.
          destruct (decide (a = x)) as [->|]; by destruct (heap w !! x).
        + intros x X _. by destruct (decide (a = x)).
      - apply (calm_fmap _ _ (λ x, if decide (x ∈ Queue T) then ended_run else id) Hh Hwo).
        intros x X HX. destruct (decide (x ∈ Queue T)) as [Hx|]; [|done].
        destruct (inv_queued _ _ _ _ HI1 HT1 Hx) as (X' & HX' & _ & Hp). simplify_eq. by rewrite Hp. }
    split; [by eapply calm_trans|].
    assert (Hhalt : ∀ U, sess w3 !! s = Some U → halted w3 U).
    { intros U. rewrite Hs3, HT. cbn. rewrite decide_True by done. intros [= <-]. split; [done|]. cbn.
      intros a A Ha HA. rewrite Hh in HA. unfold w1 in HA. rewrite Ha in HA.
      destruct (inv_active _ _ _ _ HI HT Ha) as (X & HX & _ & Hp).
      unfold cancel_active, set_run in HA; cbn in HA. rewrite lookup_alter_eq, HX in HA. cbn in HA.
      rewrite decide_False in HA; [by simplify_eq/=|].
      intros Hq. destruct (inv_queued _ _ _ _ HI HT Hq) as (X' & HX' & _ & Hp'). simplify_eq. by rewrite Hp' in Hp. }
    split.
    + intros x. destruct (Hq4 x) as (q & Hq & Hor & Hin). rewrite Hq, Hs3.
      exists (λ T', q (if decide (x = s) then T' <| Queue := [] |> else T')). split_and!.
      * destruct (sess w !! x) as [T'|]; [|done]. cbn. f_equal. by destruct (decide (x = s)).
      * intros T'. destruct (decide (x = s)); [right|by apply Hor].
        by destruct (Hor (T' <| Queue := [] |>)).
      * intros [->|Hx]%elem_of_cons T'; [|by apply Hin]. rewrite decide_True by done.
        by destruct (Hor (T' <| Queue := [] |>)).
    + intros x U [->|Hx]%elem_of_cons HU; [|by eapply Hh4].
      destruct (Hq4 s) as (q & Hq & Hor & _). rewrite Hq in HU.
      apply fmap_Some in HU as (U0 & HU0 & ->).
      apply (halted_raised w3 w4 U0); [|by apply Hhalt|apply Hr4|done|].
      * intros a Ha. destruct (inv_active _ _ _ _ HI2 HU0 Ha) as (A & HA & _). eauto.
      * cbn. destruct (Hhalt _ HU0) as [HQ0 _]. destruct (Hor U0) as [->| ->]; [done|done].
Qed.

(** Steps that keep every session, and only raise flags of runs and let go of
    logs. *)
Definition quiet (w w' : World) : Prop :=
  sess w' = sess w ∧ threads w' = threads w ∧ runs w' = runs w ∧ requests w' = requests w ∧
  closing w' = closing w ∧ calm w w' ∧
  ∀ x, ∃ f, heap w' !! x = f <$> heap w !! x ∧ ∀ X, heap w !! x = Some X → same X (f X).

Lemma quiet_refl w : quiet w w.
Proof.
  split_and!; try done; [apply calm_refl|]. intros x. exists id.
  split; [by destruct (heap w !! x)|]. intros. apply same_refl.
Qed.

Lemma same_trans X Y Z : same X Y → same Y Z → same X Z.
Proof. intros [] []. split; congruence. Qed.

Lemma quiet_trans w1 w2 w3 : quiet w1 w2 → quiet w2 w3 → quiet w1 w3.
Proof.
  intros (? & ? & ? & ? & ? & Hr1 & Hh1) (? & ? & ? & ? & ? & Hr2 & Hh2).
  split_and!; try congruence; [by eapply calm_trans|]. intros x.
  destruct (Hh1 x) as (f & Hf & Hsf), (Hh2 x) as (g & Hg & Hsg). exists (λ X, g (f X)).
  rewrite Hg, Hf. split; [by destruct (heap w1 !! x)|]. intros X HX.
  apply (same_trans _ (f X)); [by apply Hsf|]. apply Hsg. by rewrite Hf, HX.
Qed.

Lemma quiet_inv w w' : Inv w → quiet w w' → Inv w'.
Proof.
  intros HI (Hs & Ht & Hr & Hq & _ & _ & Hh). apply (flags_inv w _ HI); try done.
  intros s. exists id. rewrite Hs. split; [by destruct (sess w !! s)|done].
Qed.

Lemma quiet_set w r f :
  (∀ R, same R (f R)) → (∀ R, cancelled R = true → cancelled (f R) = true) →
  (∀ R, stopped R = true → stopped (f R) = true) → quiet w (set_run w r f).
Proof.
  intros Hs Hc Hst. assert (Hh : ∀ x, heap (set_run w r f) !! x = (if decide (r = x) then f else id) <$> heap w !! x).
  { intros x. unfold set_run; cbn. rewrite lookup_alter.
    destruct (decide (r = x)) as [->|]; by destruct (heap w !! x). }
  split_and!; try done.
  - apply (calm_fmap _ _ (λ x, if decide (r = x) then f else id) Hh); [done|].
    intros x X _. destruct (decide (r = x)); [|done]. split; [auto|]. by rewrite (sm_phase _ _ (Hs X)).
  - intros x. exists (if decide (r = x) then f else id). split; [apply Hh|].
    intros X _. destruct (decide (r = x)); [done|apply same_refl].
Qed.

Lemma quiet_drop w k h : quiet w (drop w k h).
Proof.
  unfold drop. apply (quiet_trans _ (w <| held ::= delete k |>)).
  - destruct (quiet_refl w) as (_ & _ & _ & _ & _ & Hr & Hh). by split_and!.
  - apply quiet_set; [|done..]. intros R. split; try done. cbn. by apply log_release.
Qed.

Lemma quiet_release w k r : quiet w (release w k r).
Proof.
  unfold release. destruct (held w !! k) as [h|]; [|apply quiet_refl].
  case_bool_decide; [apply quiet_drop|apply quiet_refl].
Qed.

Lemma quiet_dropHeld w p : quiet w (dropHeld w p).
Proof.
  unfold dropHeld. generalize (map_to_list (held w)). intros l. revert w.
  induction l as [|[k h] l IH]; intros w; [apply quiet_refl|]. cbn.
  destruct (p h); [|done]. eapply quiet_trans; [apply quiet_drop|apply IH].
Qed.

(** What a chat's turn being ended leaves of it. *)
Lemma slices_delete_elem q r x : NoDup q → x ∈ slices_delete q r ↔ x ∈ q ∧ x ≠ r.
Proof.
  intros Hnd. unfold slices_delete.
  destruct (list_find (r =.) q) as [[i y]|] eqn:Hf.
  - apply list_find_Some in Hf as (Hi & <- & _).
    pose proof (take_drop_middle q i r Hi) as Hq. revert Hq Hnd. clear.
    generalize (take i q) as a, (list.drop (S i) q) as b. intros a b <- Hnd.
    apply NoDup_app in Hnd as (Hn1 & Hn2 & [Hn3 Hn4]%NoDup_cons).
    rewrite !elem_of_app, elem_of_cons. split.
    + intros [Hx|Hx]; (split; [tauto|]); intros ->; [by apply (Hn2 r Hx); left|done].
    + intros [[Hx|[->|Hx]] Hne]; tauto.
  - apply list_find_None in Hf. split; [|tauto]. intros Hx. split; [done|]. intros ->.
    rewrite Forall_forall in Hf. by apply (Hf r).
Qed.

Lemma slices_delete_sublist q r : slices_delete q r `sublist_of` q.
Proof.
  unfold slices_delete. destruct (list_find (r =.) q) as [[i y]|] eqn:Hf; [|done].
  apply list_find_Some in Hf as (Hi & _). pose proof (take_drop_middle q i y Hi) as Hq. revert Hq. clear.
  generalize (take i q) as a, (list.drop (S i) q) as b. intros a b <-.
  apply sublist_app; [done|]. by apply sublist_cons.
Qed.

Lemma removeQueued_inv w r R s T :
  Inv w → heap w !! r = Some R → Thread R = Some s → sess w !! s = Some T →
  (r ∉ Queue T ∧ removeQueued w r = Some (w, false)) ∨
  (r ∈ Queue T ∧ ∃ w', removeQueued w r = Some (w', true) ∧ Inv w' ∧ closing w' = closing w ∧
    held w' = held w ∧ threads w' = threads w ∧ calm w w' ∧
    (∀ x, sess w' !! x = (λ T', if decide (x = s) then T' <| Queue ::= λ q, slices_delete q r |> else T')
                         <$> sess w !! x) ∧
    phase <$> heap w' !! r = Some PDone).
Proof.
  intros HI HR Hs HT. unfold removeQueued. rewrite (of_run_Some _ _ _ _ _ HR Hs HT). cbn [mbind option_bind].
  case_bool_decide as Hin; [right; split; [done|]|left; done].
  pose proof (inv_sess _ HI _ _ HT) as HTok.
  destruct (inv_queued _ _ _ _ HI HT Hin) as (R' & HR' & _ & Hp). rewrite HR in HR'. injection HR' as <-.
  set (w1 := set_sess w s (λ T0, T0 <| Queue ::= λ q, slices_delete q r |>)).
  set (w2 := set_run w1 r (λ R0, R0 <| cancelled := true |>)).
  assert (Hk2 : keyed w2).
  { unfold w2, w1, set_run, set_sess. pose proof (inv_keyed _ HI) as []. split; cbn.
    - intros k x (X & HX & <-)%k_runs0. rewrite lookup_alter.
      destruct (decide (r = x)) as [->|]; [rewrite HX; cbn|]; eauto.
    - intros k x (X & HX & <-)%k_reqs0. rewrite lookup_alter.
      destruct (decide (r = x)) as [->|]; [rewrite HX; cbn|]; eauto.
    - intros x X s' HX Hs'. rewrite lookup_alter in HX.
      assert (HX' : ∃ X', heap w !! x = Some X' ∧ Thread X' = Some s' ∧ scope X' = scope X).
      { destruct (decide (r = x)) as [->|]; [rewrite HR in HX|]; simplify_eq/=; eauto. }
      destruct HX' as (X' & HX' & Hs'' & Hsc). destruct (k_owner0 _ _ _ HX' Hs'') as (T' & HT' & Ho).
      rewrite lookup_alter. destruct (decide (s = s')) as [->|]; [rewrite HT'; cbn|];
        eexists; (split; [done|]); cbn; congruence. }
  assert (HR2 : heap w2 !! r = Some (R <| cancelled := true |>)).
  { unfold w2, w1; cbn. by rewrite lookup_alter_eq, HR. }
  destruct (endQueued_spec w2 r None Hk2) as (w3 & Hw3 & HF & Hh3).
  { exists (R <| cancelled := true |>), s. done. }
  { rewrite HR2. cbn. f_equal. by rewrite (ok_finished _ (inv_run _ HI _ _ HR)), Hp. }
  rewrite Hw3. cbn [mbind option_bind]. destruct HF.
  assert (HT3 : sess w3 !! s = Some (T <| Queue ::= λ q, slices_delete q r |>)).
  { rewrite fg_sess0. unfold w2, w1; cbn. by rewrite lookup_alter_eq, HT. }
  assert (Hh2 : ∀ x, heap w2 !! x = (λ X, if decide (x = r) then X <| cancelled := true |> else X) <$> heap w !! x).
  { intros x. unfold w2, w1; cbn. rewrite lookup_alter.
    destruct (decide (r = x)) as [->|]; destruct (heap w !! x); decided. }
  assert (Hact3 : ∀ a, Active T = Some a → is_Some (heap w3 !! a)).
  { intros a Ha. destruct (inv_active _ _ _ _ HI HT Ha) as (A & HA & _). rewrite Hh3, Hh2, HA. eauto. }
  destruct (queueChanged_spec w3 s _ HT3 Hact3) as (w4 & Hw4 & Hs4 & Hr4 & Hq4 & Hc4 & Hhe4 & Hth4 & Hwo4 & Hh4).
  rewrite Hw4. cbn [mbind option_bind].
  set (qd := slices_delete (Queue T) r) in *. cbn in Hh4.
  set (φ := λ x X, if decide (x = r) then ended_run (R <| cancelled := true |>)
    else if bool_decide (Active T = Some x) && running X then X <| told := qd |> else X).
  set (θ := λ x (T' : threadSession), if decide (x = s) then T' <| Queue ::= λ q, slices_delete q r |> else T').
  assert (Hheap : ∀ x, heap w4 !! x = φ x <$> heap w !! x).
  { intros x. rewrite Hh4, Hh3, Hh2. destruct (heap w !! x) as [X|] eqn:HX; [|done]. cbn. f_equal. unfold φ.
    destruct (decide (x = r)) as [->|Hne]; [|done]. simplify_eq. cbn.
    rewrite bool_decide_false; [done|]. intros Ha.
    destruct (inv_active _ _ _ _ HI HT Ha) as (X' & HX' & _ & Hpa). simplify_eq. by rewrite Hp in Hpa. }
  assert (Hφ : ∀ x X, heap w !! x = Some X → x = r ∧ X = R ∨ x ≠ r ∧ same X (φ x X)).
  { intros x X HX. unfold φ. destruct (decide (x = r)) as [->|Hne]; [left; by simplify_eq|right; split; [done|]].
    destruct (_ && _); [by split|apply same_refl]. }
  assert (Hφr : φ r R = ended_run (R <| cancelled := true |>)) by (unfold φ; by rewrite decide_True).
  assert (HI4 : Inv w4).
  { apply (moves_inv w w4 φ θ HI). split.
    - done.
    - intros x X HX. destruct (Hφ x X HX) as [[-> ->]|[_ []]]; [by rewrite Hφr|done].
    - intros k x. rewrite Hr4, fg_runs0. cbn. split; intros [Hk Hx]; (split; [done|]).
      + intros X HX. destruct (Hφ x X HX) as [[-> ->]|[_ []]]; [done|]. rewrite sm_phase0.
        apply (inv_runs _ HI) in Hk as (X' & HX' & _ & ?). congruence.
      + intros ->. specialize (Hx R HR). by rewrite Hφr in Hx.
    - intros k x. rewrite Hq4, fg_reqs0. cbn. split; intros [Hk Hx]; (split; [done|]).
      + intros X HX. destruct (Hφ x X HX) as [[-> ->]|[_ []]]; [done|]. rewrite sm_phase0.
        apply (inv_reqs _ HI) in Hk as (X' & HX' & _ & ?). congruence.
      + intros ->. specialize (Hx R HR). by rewrite Hφr in Hx.
    - intros x X HX. destruct (Hφ x X HX) as [[-> ->]|[_ []]]; [by rewrite Hφr|by rewrite sm_phase0].
    - intros x. rewrite Hs4, fg_sess0. unfold w2, w1, set_sess, set_run, θ; cbn. rewrite lookup_alter.
      destruct (decide (s = x)) as [->|]; destruct (sess w !! x); decided.
    - intros x X HX. unfold θ. by destruct (decide (x = s)).
    - intros k x. rewrite Hth4, fg_threads0. cbn. split; [|naive_solver]. intros Hk. split; [done|].
      intros T0 HT0. apply (inv_thr _ HI) in Hk as (T1 & HT1 & _ & ?). unfold θ.
      destruct (decide (x = s)); cbn; congruence.
    - intros x T0 HT0. unfold θ. by destruct (decide (x = s)).
    - intros x T0 y HT0. trans (Active T0 = Some y); [unfold θ; by destruct (decide (x = s))|].
      rewrite (inv_act _ HI x T0 y HT0). split; intros (X & HX & Hs' & Hp'); exists X; (split_and!; [done..|]).
      + destruct (Hφ y X HX) as [[-> ->]|[_ []]]; [by rewrite Hp in Hp'|by rewrite sm_phase0].
      + destruct (Hφ y X HX) as [[-> ->]|[_ []]]; [by rewrite Hφr in Hp'|by rewrite sm_phase0 in Hp'].
    - intros x T0 y HT0. trans (y ∈ Queue T0 ∧ y ≠ r).
      { unfold θ. destruct (decide (x = s)) as [->|Hxs].
        - cbn. rewrite slices_delete_elem; [done|]. apply (inv_sess _ HI _ _ HT0).
        - split; [|tauto]. intros Hy. split; [done|]. intros ->.
          destruct (inv_queued _ _ _ _ HI HT0 Hy) as (X & HX & Hxs' & _). simplify_eq. }
      rewrite (inv_queue _ HI x T0 y HT0). split.
      + intros [(X & HX & Hs' & Hp') Hne]. exists X. split_and!; [done..|].
        destruct (Hφ y X HX) as [[-> ->]|[_ []]]; [done|by rewrite sm_phase0].
      + intros (X & HX & Hs' & Hp').
        destruct (Hφ y X HX) as [[-> ->]|[Hne []]]; [by rewrite Hφr in Hp'|]. split; [|done].
        exists X. by rewrite sm_phase0 in Hp'.
    - intros x T0 HT0. unfold θ. pose proof (inv_sess _ HI _ _ HT0) as [].
      destruct (decide (x = s)); [|done]. pose proof (slices_delete_sublist (Queue T0) r) as Hsub.
      split; cbn; try done.
      + by eapply sublist_NoDup.
      + apply sublist_length in Hsub. lia.
      + intros Hne. apply ok_behind0. intros HQ. rewrite HQ in Hne. done.
    - intros x X HX. pose proof (inv_run _ HI _ _ HX) as Hok.
      destruct (Hφ x X HX) as [[-> ->]|[_ Hsm]]; [|by eapply same_ok].
      rewrite Hφr. eapply same_ended; [|exact Hp|done]. by split. }
  assert (HT4 : sess w4 !! s = Some (T <| Queue ::= λ q, slices_delete q r |>)) by by rewrite Hs4.
  destruct (dropIdle_inv w4 s _ HI4 HT4) as (w5 & Hw5 & HI5 & Hh5 & Hs5 & Hc5 & Hhe5 & Hwo5 & Hth5).
  rewrite Hw5. exists w5. cbn in *. split; [done|]. split; [done|]. split_and!; try congruence.
  - apply (calm_fmap _ _ φ); [by intros x; rewrite Hh5|congruence|]. intros x X HX. unfold φ.
    destruct (decide (x = r)) as [->|]; [simplify_eq; by rewrite Hp|]. by destruct (_ && _).
  - intros x. rewrite Hs5, Hs4, fg_sess0. rewrite lookup_alter.
    destruct (decide (s = x)) as [->|]; destruct (sess w !! x); decided.
  - rewrite Hh5, Hheap, HR. cbn [fmap option_fmap option_map]. by rewrite Hφr.
Qed.

Lemma sendQueued_inv w r R s T :
  Inv w → heap w !! r = Some R → Thread R = Some s → sess w !! s = Some T →
  (r ∉ Queue T ∧ SendQueued w r = Some (w, Err errStarted)) ∨
  (r ∈ Queue T ∧ ∃ w' a A, SendQueued w r = Some (w', Ok ()) ∧ Inv w' ∧
    Active T = Some a ∧ heap w !! a = Some A ∧
    closing w' = closing w ∧ held w' = held w ∧ threads w' = threads w ∧ calm w w' ∧
    (∀ x, sess w' !! x = (λ T', if decide (x = s) then T' <| Queue ::= λ q, r :: slices_delete q r |> else T')
                         <$> sess w !! x) ∧
    (∃ A', heap w' !! a = Some A' ∧ phase A' = phase A ∧ yielded A' = true ∧
       (ending A' = false → cancelled A' = true ∧ stopped A' = true))).
Proof.
  intros HI HR Hs HT. unfold SendQueued. rewrite (of_run_Some _ _ _ _ _ HR Hs HT). cbn [mbind option_bind].
  case_bool_decide as Hin; cbn [negb]; [right; split; [done|]|left; done].
  destruct (inv_sess _ HI _ _ HT) as [Hnd Hmax Hbehind Hslash].
  destruct (Active T) as [a|] eqn:Ha; [|exfalso; apply Hbehind; [|done]; intros HQ; rewrite HQ in Hin; set_solver].
  destruct (inv_active _ _ _ _ HI HT Ha) as (A & HA & HAs & HAp).
  set (q' := r :: slices_delete (Queue T) r).
  set (w1 := set_sess w s (λ T0, T0 <| Queue ::= λ q, r :: slices_delete q r |>)).
  assert (HT1 : sess w1 !! s = Some (T <| Queue := q' |>)).
  { unfold w1, set_sess; cbn. by rewrite lookup_alter_eq, HT. }
  destruct (queueChanged_spec w1 s _ HT1) as (w2 & Hw2 & Hs2 & Hr2 & Hq2 & Hc2 & Hhe2 & Hth2 & Hwo2 & Hh2).
  { cbn. intros a' Ha'. assert (a' = a) as -> by congruence. eauto. }
  rewrite Hw2. cbn [mbind option_bind]. cbn in Hh2.
  rewrite (Hh2 a), HA. cbn [fmap option_fmap option_map mbind option_bind].
  match goal with |- context [ending (if ?b then ?X else ?Y)] =>
    replace (ending (if b then X else Y)) with (ending A) by by destruct b end.
  set (f := λ X : Run, let X := X <| yielded := true |> in
        if ending A then X else X <| cancelled := true |> <| stopped := true |>).
  set (φ := λ x X, let X := if bool_decide (Active T = Some x) && running X then X <| told := q' |> else X in
        if decide (x = a) then f X else X).
  eexists _, a, A. split; [done|].
  match goal with |- Inv ?w' ∧ _ => set (w3 := w') end.
  assert (Hheap : ∀ x, heap w3 !! x = φ x <$> heap w !! x).
  { intros x. unfold w3, φ, f.
    destruct (ending A); unfold cancel_active, set_run; cbn; rewrite !lookup_alter, !Hh2;
      (destruct (decide (a = x)) as [->|Hne]; [rewrite HA|destruct (heap w !! x)]; decided). }
  assert (Hsame : ∀ x X, same X (φ x X)).
  { intros x X. unfold φ, f. destruct (bool_decide (Active T = Some x) && running X); destruct (decide (x = a));
      destruct (ending A); by split. }
  assert (Hw3 : closing w3 = closing w ∧ held w3 = held w ∧ threads w3 = threads w ∧ runs w3 = runs w ∧
    requests w3 = requests w ∧ sess w3 = sess w1 ∧ working w3 = working w).
  { unfold w3. destruct (ending A); cbn; split_and!; done. }
  destruct Hw3 as (Hc3 & He3 & Ht3 & Hr3 & Hq3 & Hs3 & Hw3').
  split_and!; try done.
  - apply (moves_inv w w3 φ (λ x (T' : threadSession),
        if decide (x = s) then T' <| Queue ::= λ q, r :: slices_delete q r |> else T') HI).
    assert (Hph : ∀ x X, phase (φ x X) = phase X) by (intros x X; by destruct (Hsame x X)).
    split; rewrite ?Ht3, ?Hr3, ?Hq3, ?Hs3.
    + done.
    + intros x X _. by destruct (Hsame x X).
    + intros k x. split; [|naive_solver]. intros Hk. split; [done|]. intros X HX. rewrite Hph.
      apply (inv_runs _ HI) in Hk as (X' & HX' & _ & ?). congruence.
    + intros k x. split; [|naive_solver]. intros Hk. split; [done|]. intros X HX. rewrite Hph.
      apply (inv_reqs _ HI) in Hk as (X' & HX' & _ & ?). congruence.
    + intros x X _. by rewrite Hph.
    + intros x. unfold w1, set_sess; cbn. rewrite lookup_alter.
      destruct (decide (s = x)) as [->|]; destruct (sess w !! x); decided.
    + intros x X _. by destruct (decide (x = s)).
    + intros k x. split; [|naive_solver]. intros Hk. split; [done|].
      intros T0 HT0. apply (inv_thr _ HI) in Hk as (T1 & HT1' & _ & ?).
      destruct (decide (x = s)); cbn; congruence.
    + intros x T0 _. by destruct (decide (x = s)).
    + intros x T0 y HT0. trans (Active T0 = Some y); [by destruct (decide (x = s))|].
      rewrite (inv_act _ HI x T0 y HT0). by setoid_rewrite Hph.
    + intros x T0 y HT0. setoid_rewrite Hph. rewrite <- (inv_queue _ HI x T0 y HT0).
      destruct (decide (x = s)) as [->|]; [|done]. simplify_eq. cbn.
      rewrite elem_of_cons, slices_delete_elem by done. split; [intros [->|[? _]]; done|].
      intros Hy. destruct (decide (y = r)); auto.
    + intros x T0 HT0. pose proof (inv_sess _ HI _ _ HT0) as [].
      destruct (decide (x = s)) as [->|]; [|done]. simplify_eq. split; cbn; try done.
      * constructor; [rewrite slices_delete_elem by done; tauto|].
        eapply sublist_NoDup; [done|apply slices_delete_sublist].
      * assert (Hlen : length (slices_delete (Queue T) r) < length (Queue T)); [|lia].
        assert (Hsub : r :: slices_delete (Queue T) r ⊆+ Queue T); [|by apply submseteq_length in Hsub].
        apply NoDup_submseteq.
        -- constructor; [rewrite slices_delete_elem by done; tauto|].
           eapply sublist_NoDup; [done|apply slices_delete_sublist].
        -- intros y [->|Hy]%elem_of_cons; [done|]. by apply slices_delete_elem in Hy as [? _].
      * by rewrite Ha.
    + intros x X HX. eapply same_ok; [apply Hsame|]. by apply (inv_run _ HI x).
  - apply (calm_fmap _ _ φ Hheap); [by rewrite Hw3'|]. intros x X _. unfold φ, f.
    destruct (_ && _); destruct (decide (x = a)); destruct (ending A); done.
  - intros x. rewrite Hs3. unfold w1, set_sess; cbn. rewrite lookup_alter.
    destruct (decide (s = x)) as [->|]; destruct (sess w !! x); decided.
  - exists (φ a A). rewrite Hheap, HA. split; [done|]. destruct (Hsame a A) as [].
    split; [done|]. unfold φ, f. rewrite decide_True by done.
    destruct (_ && _); destruct (ending A) eqn:He; cbn; rewrite ?He; done.
Qed.

(** *** New requests and turns *)

Lemma slash_split (a b i j : list ascii) (c : ascii) :
  a ++ c :: i = b ++ c :: j → c ∉ i → c ∉ j → a = b ∧ i = j.
Proof.
  revert b. induction a as [|x a IH]; intros [|y b]; cbn; intros Heq Hi Hj.
  - by simplify_eq.
  - injection Heq as <- Heq. exfalso. apply Hi. rewrite Heq. set_solver.
  - injection Heq as -> Heq. exfalso. apply Hj. rewrite <- Heq. set_solver.
  - injection Heq as <- Heq. destruct (IH _ Heq Hi Hj) as [-> ->]. done.
Qed.

Lemma liveKey_inj a b i j :
  liveKey a i = liveKey b j → slash_free i → slash_free j → a = b ∧ i = j.
Proof.
  unfold liveKey, slash_free. intros Heq Hi Hj.
  apply (f_equal bytes_of) in Heq. rewrite !bytes_of_append in Heq.
  destruct (slash_split _ _ _ _ _ Heq Hi Hj) as [Ha Hb].
  rewrite <- (string_of_bytes a), <- (string_of_bytes b), <- (string_of_bytes i), <- (string_of_bytes j).
  by rewrite Ha, Hb.
Qed.

Lemma accept_inv w r sc n dg :
  Inv w → heap w !! r = None → slash_free n → requests w !! liveKey sc n = None →
  Inv (w <| heap ::= <[r := fresh_run sc n dg]> |> <| requests ::= <[liveKey sc n := r]> |>).
Proof.
  intros HI Hr Hn Hq.
  assert (Hold : ∀ x X, heap w !! x = Some X → x ≠ r) by (intros x X HX ->; congruence).
  assert (Hlk : ∀ x X, <[r := fresh_run sc n dg]> (heap w) !! x = Some X ↔
    (x = r ∧ X = fresh_run sc n dg) ∨ heap w !! x = Some X).
  { intros x X. rewrite lookup_insert_Some. split; [naive_solver|].
    intros [[-> ->]|HX]; [by left|]. right. split; [|done]. intros <-. congruence. }
  split; cbn.
  - intros k x. rewrite (inv_runs _ HI). setoid_rewrite Hlk. split; [naive_solver|].
    intros (R & [[-> ->]|HR] & Hk & Hp); [done|eauto].
  - intros k x. rewrite lookup_insert_Some, (inv_reqs _ HI). setoid_rewrite Hlk. split.
    + intros [[<- <-]|[Hne (R & HR & Hk & Hp)]]; [|eauto 10]. eexists. split; [by left|]. done.
    + intros (R & [[-> ->]|HR] & Hk & Hp); [by left|]. right. split; [|eauto].
      intros Heq. rewrite <- Heq in Hk. assert (requests w !! liveKey sc n = Some x); [|congruence].
      apply (inv_reqs _ HI). eauto.
  - apply HI.
  - intros s T x HT. rewrite (inv_act _ HI s T x HT). setoid_rewrite Hlk. split; [naive_solver|].
    intros (R & [[-> ->]|HR] & Hk & Hp); [done|eauto].
  - intros s T x HT. rewrite (inv_queue _ HI s T x HT). setoid_rewrite Hlk. split; [naive_solver|].
    intros (R & [[-> ->]|HR] & Hk & Hp); [done|eauto].
  - apply HI.
  - intros x X [[-> ->]|HX]%Hlk; [|by apply (inv_run _ HI x)].
    split; cbn; try done. destruct log_new as [_ ->]. done.
  - intros x X s [[-> ->]|HX]%Hlk Hs; [done|]. by eapply inv_owner.
Qed.

(** What a run is once it is admitted to the chat [s]. *)
Definition admitted_run (R : Run) (s : nat) (i : AdmitIn) : Run :=
  R <| LogID := a_token i |> <| Kind := a_kind i |> <| keyHash_of := a_keyHash i |>
    <| HoldsKey := negb (a_keyless i) |> <| Thread := Some s |> <| log ::= Attach |>.

Definition new_token (w : World) (i : AdmitIn) : Prop :=
  ∀ r' R', heap w !! r' = Some R' → LogID R' ≠ a_token i.

Lemma admit_new_inv w r R s i T0 :
  Inv w → heap w !! r = Some R → phase R = PAdmit → sess w !! s = None →
  slash_free (a_id i) → slash_free (a_token i) → new_token w i →
  threads w !! liveKey (scope R) (a_id i) = None →
  ID T0 = a_id i → owner T0 = scope R → Active T0 = Some r → Queue T0 = [] →
  Inv (w <| sess ::= <[s := T0]> |> <| threads ::= <[liveKey (scope R) (a_id i) := s]> |>
         <| heap ::= <[r := (admitted_run R s i) <| phase := PLaunch true |>]> |>
         <| runs ::= <[liveKey (scope R) (a_token i) := r]> |>).
Proof.
  intros HI HR Hp Hs Hid Htok Hnew Hthr HT1 HT2 HT3 HT4.
  pose proof (inv_run _ HI _ _ HR) as HRok.
  set (R' := (admitted_run R s i) <| phase := PLaunch true |>).
  assert (Hlk : ∀ x X, <[r := R']> (heap w) !! x = Some X ↔
    (x = r ∧ X = R') ∨ (x ≠ r ∧ heap w !! x = Some X)) by (intros; rewrite lookup_insert_Some; naive_solver).
  assert (Hsk : ∀ x T, <[s := T0]> (sess w) !! x = Some T ↔ (x = s ∧ T = T0) ∨ (x ≠ s ∧ sess w !! x = Some T))
    by (intros; rewrite lookup_insert_Some; naive_solver).
  assert (Hfresh : ∀ x X, heap w !! x = Some X → Thread X ≠ Some s).
  { intros x X HX HXs. destruct (inv_owner _ HI _ _ _ HX HXs) as (T & HT & _). congruence. }
  split; cbn.
  - intros k x. rewrite lookup_insert_Some, (inv_runs _ HI). setoid_rewrite Hlk. split.
    + intros [[<- <-]|[Hne (X & HX & Hk & HXp)]]; [exists R'; by split; [left|]|].
      exists X. split; [right; split; [|done]|done]. intros ->. simplify_eq. by rewrite Hp in HXp.
    + intros (X & [[-> ->]|[Hne HX]] & Hk & HXp); [by left|]. right. split; [|eauto].
      intros Heq. rewrite <- Heq in Hk. unfold rkey in Hk. symmetry in Hk.
      destruct (inv_run _ HI _ _ HX) as [Hth _ _ _ _ _ _ [_ Hsl]].
      apply liveKey_inj in Hk as [_ Hk]; [by apply (Hnew x X)|done|].
      apply Hsl. intros Hn%Hth. by destruct (phase X).
  - intros k x. rewrite (inv_reqs _ HI). setoid_rewrite Hlk. split.
    + intros (X & HX & Hk & HXp). destruct (decide (x = r)) as [->|]; [|eauto 10].
      simplify_eq. exists R'. split; [by left|]. done.
    + intros (X & [[-> ->]|[Hne HX]] & Hk & HXp); [|eauto]. exists R. by rewrite Hp.
  - intros k x. rewrite lookup_insert_Some, (inv_thr _ HI). setoid_rewrite Hsk. split.
    + intros [[<- <-]|[Hne (T & HT & Hk & Ha)]].
      * exists T0. split; [by left|]. unfold skey. rewrite HT1, HT2, HT3. done.
      * exists T. split; [right; split; [|done]|done]. intros ->. congruence.
    + intros (T & [[-> ->]|[Hne HT]] & Hk & Ha).
      * left. unfold skey in Hk. by rewrite HT1, HT2 in Hk.
      * right. split; [|eauto]. intros Heq. rewrite <- Heq in Hk.
        assert (threads w !! liveKey (scope R) (a_id i) = Some x); [|congruence].
        apply (inv_thr _ HI). eauto.
  - intros x T y [[-> ->]|[Hne HT]]%Hsk.
    + rewrite HT3. split.
      * intros [= <-]. exists R'. split; [|done]. apply Hlk. by left.
      * intros (X & [[-> ->]|[Hne HX]]%Hlk & HXs & _); [done|]. by apply Hfresh in HX.
    + rewrite (inv_act _ HI x T y HT). setoid_rewrite Hlk. split.
      * intros (X & HX & HXs & HXa). exists X. split; [|done]. right. split; [|done].
        intros ->. simplify_eq. by rewrite Hp in HXa.
      * intros (X & [[-> ->]|[Hne' HX]] & HXs & HXa); [|eauto]. cbn in HXs. congruence.
  - intros x T y [[-> ->]|[Hne HT]]%Hsk.
    + rewrite HT4. split; [set_solver|].
      intros (X & [[-> ->]|[Hne HX]]%Hlk & HXs & HXp); [done|]. by apply Hfresh in HX.
    + rewrite (inv_queue _ HI x T y HT). setoid_rewrite Hlk. split.
      * intros (X & HX & HXs & HXa). exists X. split; [|done]. right. split; [|done].
        intros ->. simplify_eq. by rewrite Hp in HXa.
      * intros (X & [[-> ->]|[Hne' HX]] & HXs & HXa); [done|eauto].
  - intros x T [[-> ->]|[Hne HT]]%Hsk; [|by apply (inv_sess _ HI x)].
    split; rewrite ?HT1, ?HT3, ?HT4; cbn; try done; [constructor|lia].
  - intros x X [[-> ->]|[Hne HX]]%Hlk; [|by apply (inv_run _ HI x)].
    destruct HRok. rewrite Hp in *. split; cbn; try done.
    + intros []; done.
    + destruct (log_attach (log R)) as [_ ->]. done.
    + destruct ok_slash0. done.
  - intros x X y [[-> ->]|[Hne HX]]%Hlk HXs.
    + cbn in HXs. injection HXs as <-. exists T0. split; [apply Hsk; by left|]. by rewrite HT2.
    + destruct (inv_owner _ HI _ _ _ HX HXs) as (T & HT & Ho). exists T. split; [|done].
      apply Hsk. right. split; [|done]. intros ->. congruence.
Qed.

Lemma admit_queue_inv w r R s T i :
  Inv w → heap w !! r = Some R → phase R = PAdmit → sess w !! s = Some T →
  slash_free (a_token i) → new_token w i → owner T = scope R → Active T ≠ None →
  length (Queue T) < MaxQueuedTurns →
  Inv (w <| sess ::= <[s := T <| Queue ::= λ q, q ++ [r] |>]> |>
         <| heap ::= <[r := (admitted_run R s i) <| Queued := true |> <| phase := PQueued |>
                             <| accepted := true |>]> |>
         <| runs ::= <[liveKey (scope R) (a_token i) := r]> |>).
Proof.
  intros HI HR Hp HT Htok Hnew Ho Hact Hlen.
  pose proof (inv_run _ HI _ _ HR) as HRok.
  set (R' := (admitted_run R s i) <| Queued := true |> <| phase := PQueued |> <| accepted := true |>).
  assert (Hlk : ∀ x X, <[r := R']> (heap w) !! x = Some X ↔
    (x = r ∧ X = R') ∨ (x ≠ r ∧ heap w !! x = Some X)) by (intros; rewrite lookup_insert_Some; naive_solver).
  set (T' := T <| Queue ::= λ q, q ++ [r] |>).
  assert (Hsk : ∀ x U, <[s := T']> (sess w) !! x = Some U ↔ (x = s ∧ U = T') ∨ (x ≠ s ∧ sess w !! x = Some U))
    by (intros; rewrite lookup_insert_Some; naive_solver).
  assert (Hrq : r ∉ Queue T).
  { intros (X & HX & _ & Hq)%(inv_queue _ HI s T); [|done]. simplify_eq. by rewrite Hp in Hq. }
  assert (Hold : ∀ x y, (∃ X, <[r := R']> (heap w) !! x = Some X ∧ Thread X = Some y ∧ is_active (phase X) = true) ↔
    ∃ X, heap w !! x = Some X ∧ Thread X = Some y ∧ is_active (phase X) = true).
  { intros x y. setoid_rewrite Hlk. split.
    - intros (X & [[-> ->]|[_ HX]] & HXs & HXp); [done|eauto].
    - intros (X & HX & HXs & HXp). exists X. split; [|done]. right. split; [|done]. intros ->.
      simplify_eq. by rewrite Hp in HXp. }
  split; cbn.
  - intros k x. rewrite lookup_insert_Some, (inv_runs _ HI). setoid_rewrite Hlk. split.
    + intros [[<- <-]|[Hne (X & HX & Hk & HXp)]]; [exists R'; by split; [left|]|].
      exists X. split; [right; split; [|done]|done]. intros ->. simplify_eq. by rewrite Hp in HXp.
    + intros (X & [[-> ->]|[Hne HX]] & Hk & HXp); [by left|]. right. split; [|eauto].
      intros Heq. rewrite <- Heq in Hk. unfold rkey in Hk. symmetry in Hk.
      destruct (inv_run _ HI _ _ HX) as [Hth _ _ _ _ _ _ [_ Hsl]].
      apply liveKey_inj in Hk as [_ Hk]; [by apply (Hnew x X)|done|].
      apply Hsl. intros Hn%Hth. by destruct (phase X).
  - intros k x. rewrite (inv_reqs _ HI). setoid_rewrite Hlk. split.
    + intros (X & HX & Hk & HXp). destruct (decide (x = r)) as [->|]; [|eauto 10].
      simplify_eq. exists R'. split; [by left|]. done.
    + intros (X & [[-> ->]|[Hne HX]] & Hk & HXp); [|eauto]. exists R. by rewrite Hp.
  - intros k x. rewrite (inv_thr _ HI). setoid_rewrite Hsk. split.
    + intros (U & HU & Hk & Ha). destruct (decide (x = s)) as [->|]; [|eauto 10].
      simplify_eq. exists T'. split; [by left|]. done.
    + intros (U & [[-> ->]|[Hne HU]] & Hk & Ha); [|eauto]. exists T. done.
  - intros x U y [[-> ->]|[Hne HU]]%Hsk; rewrite Hold.
    + apply (inv_act _ HI s T y HT).
    + apply (inv_act _ HI x U y HU).
  - intros x U y [[-> ->]|[Hne HU]]%Hsk.
    + cbn. rewrite elem_of_app, list_elem_of_singleton, (inv_queue _ HI s T y HT). setoid_rewrite Hlk. split.
      * intros [(X & HX & HXs & HXp)| ->]; [|exists R'; by split; [left|]].
        exists X. split; [|done]. right. split; [|done]. intros ->. simplify_eq. by rewrite Hp in HXp.
      * intros (X & [[-> ->]|[Hne HX]] & HXs & HXp); [by right|left; eauto].
    + rewrite (inv_queue _ HI x U y HU). setoid_rewrite Hlk. split.
      * intros (X & HX & HXs & HXp). exists X. split; [|done]. right. split; [|done].
        intros ->. simplify_eq. by rewrite Hp in HXp.
      * intros (X & [[-> ->]|[Hne' HX]] & HXs & HXp); [cbn in HXs; congruence|eauto].
  - intros x U [[-> ->]|[Hne HU]]%Hsk; [|by apply (inv_sess _ HI x)].
    destruct (inv_sess _ HI _ _ HT). split; cbn; try done.
    + apply NoDup_app. split_and!; [done| |apply NoDup_singleton]. intros y Hy ->%list_elem_of_singleton. done.
    + rewrite length_app. cbn. lia.
  - intros x X [[-> ->]|[Hne HX]]%Hlk; [|by apply (inv_run _ HI x)].
    destruct HRok. rewrite Hp in *. split; cbn; try done.
    + by intros [].
    + destruct (log_attach (log R)) as [_ ->]. done.
    + destruct ok_slash0. done.
  - intros x X y [[-> ->]|[Hne HX]]%Hlk HXs.
    + cbn in HXs. injection HXs as <-. exists T'. split; [apply Hsk; by left|]. done.
    + destruct (inv_owner _ HI _ _ _ HX HXs) as (U & HU & HUo).
      destruct (decide (y = s)) as [->|]; [|exists U; split; [apply Hsk; by right|done]].
      simplify_eq. exists T'. split; [apply Hsk; by left|done].
Qed.

Lemma admit_calm w w' r R R' (f : nat → Run → Run) :
  heap w !! r = Some R → works (phase R) = false → works (phase R') = false →
  (cancelled R = true → cancelled R' = true) → (stopped R = true → stopped R' = true) →
  (∀ x X, phase (f x X) = phase X ∧ cancelled (f x X) = cancelled X ∧ stopped (f x X) = stopped X) →
  (∀ x, heap w' !! x = f x <$> <[r := R']> (heap w) !! x) → working w' = working w → calm w w'.
Proof.
  intros HR Hp Hp' Hc Hs Hf Hh Hw.
  apply (calm_fmap _ _ (λ x X, f x (if decide (x = r) then R' else X))); [|done|].
  - intros x. rewrite Hh, lookup_insert. destruct (decide (r = x)) as [->|Hne].
    + rewrite HR. decided.
    + destruct (heap w !! x); decided.
  - intros x X HX. destruct (Hf x (if decide (x = r) then R' else X)) as (-> & -> & ->).
    destruct (decide (x = r)) as [->|]; [|done]. simplify_eq. rewrite Hp, Hp'. done.
Qed.

(** [admit] refuses the turn and changes nothing, or admits it. *)
Lemma admit_spec w r R s i :
  Inv w → heap w !! r = Some R → phase R = PAdmit → sess w !! s = None →
  slash_free (a_id i) → slash_free (a_token i) → new_token w i →
  (∃ e, admitRun w r s i = Some (w, Err e)) ∨
  (∃ w' s' T', admitRun w r s i = Some (w', Ok ()) ∧ Inv w' ∧ calm w w' ∧
     closing w = false ∧ closing w' = false ∧ held w' = held w ∧
     (∀ x, x ≠ s' → sess w' !! x = sess w !! x) ∧ sess w' !! s' = Some T' ∧ deleted T' = false).
Proof.
  intros HI HR Hp Hs Hid Htok Hnew. unfold admitRun. rewrite HR. cbn [mbind option_bind].
  destruct (closing w) eqn:Hcl; [left; eauto|].
  set (key := liveKey (scope R) (a_id i)).
  destruct (threads w !! key) as [s0|] eqn:Hk; cbn [mbind option_bind].
  - destruct (proj1 (inv_thr _ HI _ _) Hk) as (T & HT & Hkey & Hact). rewrite HT.
    cbn [mbind option_bind fmap option_fmap option_map].
    destruct (deleted T || negb (bool_decide (local T = a_local i || a_source i)) ||
      negb (keyless T) && negb (bool_decide (keyHash T = a_keyHash i))) eqn:Hun; [left; eauto|].
    destruct (bool_decide (Active T ≠ None) && bool_decide (a_kind i = "compact"%string)); [left; eauto|].
    destruct (Active T) as [a|] eqn:Ha; [|done].
    rewrite (bool_decide_true (Some a ≠ None)) by done. rewrite (bool_decide_false (Some a = None)) by done.
    cbn [andb]. destruct (bool_decide (MaxQueuedTurns ≤ length (Queue T))) eqn:Hmax; [left; eauto|]. right.
    apply bool_decide_eq_false in Hmax.
    apply orb_false_iff in Hun as [[Hdel _]%orb_false_iff _].
    pose proof (inv_sess _ HI _ _ HT) as HTok.
    destruct (inv_active _ _ _ _ HI HT Ha) as (A & HA & HAs & HAp).
    assert (Hra : r ≠ a) by (intros ->; simplify_eq; by rewrite Hp in HAp).
    assert (Hown : owner T = scope R).
    { unfold skey, key in Hkey. apply liveKey_inj in Hkey as [? _]; [done|apply HTok|done]. }
    match goal with |- context [queueChanged ?X _] => set (w1 := X) end.
    set (T1 := T <| Queue ::= λ q, q ++ [r] |>).
    set (R1 := (admitted_run R s0 i) <| Queued := true |> <| phase := PQueued |>).
    assert (HT1 : sess w1 !! s0 = Some T1) by (unfold w1; cbn; by rewrite lookup_alter_eq, HT).
    assert (Hh1 : ∀ x, heap w1 !! x = <[r := R1]> (heap w) !! x).
    { intros x. unfold w1; cbn. rewrite !lookup_alter, lookup_insert.
      destruct (decide (r = x)) as [->|]; [rewrite HR; decided|done]. }
    destruct (queueChanged_spec w1 s0 T1 HT1) as (w2 & Hw2 & Hs2 & Hr2 & Hq2 & Hc2 & He2 & Ht2 & Hk2 & Hh2).
    { intros a' Ha'. change (Active T1) with (Active T) in Ha'. assert (a' = a) as -> by congruence.
      rewrite Hh1, lookup_insert_ne by done. eauto. }
    rewrite Hw2. cbn [mbind option_bind].
    assert (HR2 : heap w2 !! r = Some R1).
    { rewrite Hh2, Hh1, lookup_insert_eq. cbn [fmap option_fmap option_map].
      rewrite bool_decide_false; [done|]. change (Active T1) with (Active T). congruence. }
    unfold upd_run. rewrite HR2. cbn [mbind option_bind]. unfold close_accepted.
    replace (accepted R1) with false;
      [|change (accepted R1) with (accepted R); by rewrite (ok_accepted _ (inv_run _ HI _ _ HR)), Hp].
    cbn [mbind option_bind].
    match goal with |- context [Some (?X, Ok ())] => set (w3 := X) end.
    set (R3 := R1 <| accepted := true |>).
    set (f := λ x X, if bool_decide (Active T = Some x) && running X then X <| told := Queue T1 |> else X).
    assert (Hh3 : ∀ x, heap w3 !! x = f x <$> <[r := R3]> (heap w) !! x).
    { intros x. unfold w3; cbn [heap upd]. rewrite !lookup_insert. destruct (decide (r = x)) as [->|Hne].
      - cbn. f_equal. unfold f. rewrite bool_decide_false; [done|congruence].
      - rewrite Hh2, Hh1, lookup_insert_ne by done. done. }
    assert (HI3 : Inv (w <| sess ::= <[s0 := T1]> |> <| heap ::= <[r := R3]> |>
         <| runs ::= <[liveKey (scope R) (a_token i) := r]> |>)).
    { apply admit_queue_inv; try done; [congruence|lia]. }
    exists w3, s0, T1. split; [done|].
    assert (Hf3 : sess w3 = sess w1 ∧ threads w3 = threads w1 ∧ runs w3 = runs w1 ∧ requests w3 = requests w1 ∧
      closing w3 = closing w1 ∧ held w3 = held w1 ∧ working w3 = working w1) by (cbn; split_and!; done).
    destruct Hf3 as (Fs & Ft & Fr & Fq & Fc & Fh & Fw).
    split_and!.
    + eapply flags_inv; [exact HI3|..]; cbn.
      * intros x. exists (f x). split; [apply Hh3|]. intros X _. unfold f. destruct (_ && _); by split.
      * intros x. exists id. split; [|done]. rewrite Hs2. unfold w1; cbn.
        rewrite lookup_alter, lookup_insert. destruct (decide (s0 = x)) as [->|]; [by rewrite HT|].
        by destruct (sess w !! x).
      * done.
      * done.
      * done.
    + eapply (admit_calm w w3 r R R3 f); try done.
      * by rewrite Hp.
      * intros x X. unfold f. by destruct (_ && _).
    + done.
    + rewrite Fc; exact Hcl.
    + rewrite Fh; done.
    + intros x Hne. rewrite Fs. unfold w1; cbn. by rewrite lookup_alter_ne.
    + by rewrite Fs.
    + done.
  - rewrite (bool_decide_false (None ≠ None)) by tauto. cbn [andb].
    rewrite (bool_decide_true (None = None)) by done. cbn [andb].
    destruct (a_local i && negb (a_source i) && negb (a_seed i)); [left; eauto|]. right.
    set (T0 := mkSession (a_id i) (scope R) (a_keyHash i) false (a_local i || a_source i) (a_keyless i) (Some r) []).
    set (R1 := (admitted_run R s i) <| phase := PLaunch true |>).
    assert (HI1 : Inv (w <| sess ::= <[s := T0]> |> <| threads ::= <[key := s]> |>
         <| heap ::= <[r := R1]> |> <| runs ::= <[liveKey (scope R) (a_token i) := r]> |>)).
    { by apply admit_new_inv. }
    eexists _, s, T0. split; [done|].
    match goal with |- Inv ?X ∧ _ => set (w1 := X) end.
    assert (Hh1 : ∀ x, heap w1 !! x = <[r := R1]> (heap w) !! x).
    { intros x. unfold w1; cbn. rewrite !lookup_alter, lookup_insert.
      destruct (decide (r = x)) as [->|]; [rewrite HR; decided|done]. }
    assert (Hs1 : ∀ x, sess w1 !! x = <[s := T0]> (sess w) !! x).
    { intros x. unfold w1; cbn. rewrite lookup_alter, !lookup_insert.
      destruct (decide (s = x)); decided. }
    split_and!.
    + eapply flags_inv; [exact HI1|..]; try done.
      * intros x. exists id. rewrite Hh1. split; [by rewrite option_fmap_id|]. intros; apply same_refl.
      * intros x. exists id. rewrite Hs1. split; [by rewrite option_fmap_id|done].
    + eapply (admit_calm w w1 r R R1 (λ _ X, X)); try done; [by rewrite Hp|].
      intros x. rewrite Hh1. by destruct (<[r:=R1]> (heap w) !! x).
    + done.
    + exact Hcl.
    + done.
    + intros x Hne. rewrite Hs1. by rewrite lookup_insert_ne.
    + rewrite Hs1. by rewrite lookup_insert_eq.
    + done.
Qed.

(** *** Every step of a reachable world *)

(** Once the service shuts down or the chat is deleted, the chat's queue is
    empty and its reply cancelled. *)
Definition Halts (w : World) : Prop :=
  ∀ s T, sess w !! s = Some T → closing w || deleted T = true → halted w T.

(** [working] counts the runs that have started until their last write. *)
Definition counted (w : World) : Prop :=
  ∃ W : gset nat, (∀ x, x ∈ W ↔ is_working w x) ∧ working w = Z.of_nat (size W).

Record Good (w : World) : Prop := {
  good_inv : Inv w;
  good_halts : Halts w;
  good_counted : counted w;
}.

Lemma counted_calm w w' : counted w → calm w w' → counted w'.
Proof.
  intros (W & HW & Hn) (_ & Hw & Hx). exists W. split; [|congruence]. intros x. by rewrite Hx.
Qed.

Lemma halts_frame w w' :
  Inv w → Halts w → raised w w' →
  (∀ s T', sess w' !! s = Some T' → closing w' || deleted T' = true →
     halted w' T' ∨ ∃ T, sess w !! s = Some T ∧ closing w || deleted T = true ∧
       (Queue T = [] → Queue T' = []) ∧ (Active T' = None ∨ Active T' = Active T)) →
  Halts w'.
Proof.
  intros HI HH Hr Hf s T' HT' Hd. destruct (Hf s T' HT' Hd) as [|(T & HT & Hd' & HQ & HA)]; [done|].
  destruct (HH s T HT Hd') as [HQT HAT]. split; [by apply HQ|]. intros a A Ha HAa.
  destruct HA as [HA|HA]; [congruence|]. rewrite HA in Ha.
  destruct (inv_active _ _ _ _ HI HT Ha) as (A0 & HA0 & _). destruct (HAT a A0 Ha HA0).
  destruct (Hr a A0 HA0) as (Y & HY & ? & ?). simplify_eq. auto.
Qed.

Lemma alter_at {A} (m : gmap nat A) r x f : m !! r = Some x → alter f r m = <[r := f x]> m.
Proof.
  intros Hx. apply map_eq. intros k. rewrite lookup_alter, lookup_insert.
  destruct (decide (r = k)) as [->|]; [by rewrite Hx|done].
Qed.

Lemma place_raised w w' r R R' :
  heap w !! r = Some R → heap w' = <[r := R']> (heap w) →
  (cancelled R = true → cancelled R' = true) → (stopped R = true → stopped R' = true) → raised w w'.
Proof.
  intros HR Hh Hc Hs x X HX. rewrite Hh, lookup_insert.
  destruct (decide (r = x)) as [->|]; [simplify_eq|]; eauto.
Qed.

Lemma place_counted w w' r R R' :
  counted w → heap w !! r = Some R → heap w' = <[r := R']> (heap w) →
  (working w' + Z.b2z (works (phase R)) = working w + Z.b2z (works (phase R')))%Z → counted w'.
Proof.
  intros (W & HW & Hn) HR Hh Hwk.
  assert (Hr : r ∈ W ↔ works (phase R) = true).
  { rewrite HW. unfold is_working. rewrite HR. split; [intros (X & ? & ?); by simplify_eq|eauto]. }
  assert (Hw' : ∀ x, is_working w' x ↔ x = r ∧ works (phase R') = true ∨ x ≠ r ∧ x ∈ W).
  { intros x. rewrite HW. unfold is_working. rewrite Hh, lookup_insert.
    destruct (decide (r = x)) as [->|Hne]; [|naive_solver]. split; [|naive_solver].
    intros (X & ? & ?). simplify_eq. by left. }
  destruct (works (phase R)) eqn:Hp, (works (phase R')) eqn:Hp'; cbn [Z.b2z] in Hwk.
  - exists W. split; [|lia]. intros x. rewrite Hw'. destruct (decide (x = r)) as [->|]; naive_solver.
  - assert (r ∈ W) by by apply Hr. exists (W ∖ {[r]}). split.
    + intros x. rewrite Hw'. set_solver.
    + rewrite size_difference by set_solver. rewrite size_singleton.
      assert (size W ≠ 0); [|lia]. apply size_non_empty_iff. set_solver.
  - assert (r ∉ W) by naive_solver. exists (W ∪ {[r]}). split.
    + intros x. rewrite Hw'. set_solver.
    + rewrite size_union by set_solver. rewrite size_singleton. lia.
  - exists W. split; [|lia]. intros x. rewrite Hw'. destruct (decide (x = r)) as [->|]; naive_solver.
Qed.

(** One run's place changes, but not its kind. *)
Lemma place_good w w' r R R' :
  Good w → heap w !! r = Some R → heap w' = <[r := R']> (heap w) →
  (Thread R' = Thread R ∧ scope R' = scope R ∧ LogID R' = LogID R ∧ nonce R' = nonce R) →
  registered (phase R') = registered (phase R) ∧ is_active (phase R') = is_active (phase R) ∧
  is_queued (phase R') = is_queued (phase R) → run_ok R' →
  ((requests w' = requests w ∧ requested (phase R') = requested (phase R)) ∨
   (requests w' = unset (requests w) (qkey R) r ∧ requested (phase R') = false)) →
  threads w' = threads w ∧ runs w' = runs w ∧ sess w' = sess w ∧ closing w' = closing w →
  (cancelled R = true → cancelled R' = true) ∧ (stopped R = true → stopped R' = true) →
  (working w' + Z.b2z (works (phase R)) = working w + Z.b2z (works (phase R')))%Z → Good w'.
Proof.
  intros [HI HH HC] HR Hh Hid (Hp1 & Hp2 & Hp3) Hok Hreq (Ht & Hr & Hs & Hc) (Hf1 & Hf2) Hw. split.
  - apply (place_inv w w' r R R'); try done.
    + intros k x. destruct Hreq as [[-> Hp]|[-> Hp]].
      * split; [|tauto]. intros Hk. split; [done|]. intros ->. rewrite Hp.
        apply (inv_reqs _ HI) in Hk as (X & HX & _ & ?). congruence.
      * rewrite unset_spec; [|intros (X & HX & <- & _)%(inv_reqs _ HI); congruence].
        rewrite Hp. naive_solver.
    + destruct Hreq as [[_ Hp]|[_ Hp]]; rewrite Hp; done.
  - apply (halts_frame w); [done|done|by eapply place_raised|].
    intros s T HT Hd. right. exists T. rewrite Hs in HT. rewrite Hc in Hd. auto.
  - by eapply place_counted.
Qed.

Lemma calm_good w w' :
  Good w → Inv w' → calm w w' →
  (∀ s T', sess w' !! s = Some T' → closing w' || deleted T' = true →
     halted w' T' ∨ ∃ T, sess w !! s = Some T ∧ closing w || deleted T = true ∧
       (Queue T = [] → Queue T' = []) ∧ (Active T' = None ∨ Active T' = Active T)) → Good w'.
Proof.
  intros [HI HH HC] HI' Hc Hf. split; [done| |by eapply counted_calm].
  apply (halts_frame w); try done. apply Hc.
Qed.

Lemma quiet_good w w' : Good w → quiet w w' → Good w'.
Proof.
  intros HG Hq. eapply calm_good; [done|eapply quiet_inv; [apply HG|done]|apply Hq|].
  destruct Hq as (Hs & _ & _ & _ & Hc & _). intros s T HT Hd. right. exists T.
  rewrite Hs in HT. rewrite Hc in Hd. auto.
Qed.

Lemma in_chat w r R :
  Inv w → heap w !! r = Some R → unadmitted (phase R) = false →
  ∃ s T, Thread R = Some s ∧ sess w !! s = Some T ∧ of_run w r = Some (R, s, T).
Proof.
  intros HI HR Hp. destruct (inv_run _ HI _ _ HR) as [Hth _ _ _ _ _ _ _].
  destruct (Thread R) as [s|] eqn:Hs; [|by rewrite (proj1 Hth eq_refl) in Hp].
  destruct (inv_owner _ HI _ _ _ HR Hs) as (T & HT & _). exists s, T. split_and!; try done.
  by apply of_run_Some.
Qed.

Lemma phase_of_Some w r p : phase_of w r = Some p → ∃ R, heap w !! r = Some R ∧ phase R = p.
Proof. intros (R & HR & ->)%fmap_Some. eauto. Qed.

(** [run_ok] of a run that moved to a given place. *)
Ltac run_moved := split; cbn; try done; try (by intros []); try (by split).

Lemma admit_fail_good w r e : Good w → enabled w (AAdmitFail r e) →
  ∃ w', exec w (AAdmitFail r e) = Some w' ∧ Good w'.
Proof.
  intros HG (R & HR & Hp)%phase_of_Some. eexists. split; [done|].
  destruct (inv_run _ (good_inv _ HG) _ _ HR). rewrite Hp in *.
  eapply (place_good _ _ _ _ _ HG HR); [cbn; by apply alter_at|done|by rewrite Hp| |left|done..|].
  - run_moved.
  - by rewrite Hp.
  - by rewrite Hp.
Qed.

Lemma refuse_good w r : Good w → enabled w (ARefuse r) → ∃ w', exec w (ARefuse r) = Some w' ∧ Good w'.
Proof.
  intros HG (e & (R & HR & Hp)%phase_of_Some). cbn [exec]. rewrite HR. cbn [mbind option_bind]. rewrite Hp.
  destruct (inv_run _ (good_inv _ HG) _ _ HR). rewrite Hp in *.
  unfold accept_refuse, upd_run. rewrite HR. cbn [mbind option_bind]. cbn [heap upd]. rewrite HR.
  unfold close_accepted; cbn. rewrite ok_accepted0. eexists. split; [done|].
  eapply (place_good _ _ _ _ _ HG HR); [done|done|by rewrite Hp| |right; done|done..|].
  - run_moved.
  - by rewrite Hp.
Qed.

Lemma accepted_good w r : Good w → enabled w (AAccepted r) → ∃ w', exec w (AAccepted r) = Some w' ∧ Good w'.
Proof.
  intros HG (R & HR & Hpe)%fmap_Some. cbn [exec]. unfold upd_run. rewrite HR. cbn [mbind option_bind].
  destruct (inv_run _ (good_inv _ HG) _ _ HR). rewrite <- Hpe in *. specialize (ok_pending0 eq_refl).
  assert (Ha : accepted R = false) by by destruct (phase R).
  unfold close_accepted; cbn. rewrite Ha. eexists. split; [done|].
  eapply (place_good _ _ _ _ _ HG HR); [done|done|done| |left; done|done..].
  split; cbn; try done. by destruct (phase R).
Qed.

Lemma launch_good w r : Good w → enabled w (ALaunch r) → ∃ w', exec w (ALaunch r) = Some w' ∧ Good w'.
Proof.
  intros HG (b & (R & HR & Hp)%phase_of_Some). cbn [exec]. rewrite HR. cbn [mbind option_bind]. rewrite Hp.
  destruct (in_chat w r R (good_inv _ HG) HR) as (s & T & Hs & HT & Hof); [by rewrite Hp|].
  unfold launch. rewrite Hof. cbn [mbind option_bind].
  destruct (inv_run _ (good_inv _ HG) _ _ HR). rewrite Hp in *.
  destruct (deleted T); [|destruct (closing w)]; (eexists; split; [done|]).
  1,2: eapply (place_good _ _ _ _ _ HG HR);
    [cbn; by apply alter_at|done|by rewrite Hp| |left; by rewrite Hp|done..|by rewrite Hp].
  1,2: run_moved.
  eapply (place_good _ _ _ _ _ HG HR);
    [cbn; by apply alter_at|done|by rewrite Hp| |left; by rewrite Hp|done..|rewrite Hp; cbn; lia].
  run_moved.
Qed.

Lemma launch_fail_good w r e : Good w → enabled w (ALaunchFail r e) →
  ∃ w', exec w (ALaunchFail r e) = Some w' ∧ Good w'.
Proof.
  intros HG (b & (R & HR & Hp)%phase_of_Some). cbn [exec]. rewrite HR. cbn [mbind option_bind]. rewrite Hp.
  destruct (inv_run _ (good_inv _ HG) _ _ HR). rewrite Hp in *. eexists; split; [done|].
  eapply (place_good _ _ _ _ _ HG HR);
    [cbn; by apply alter_at|done|by rewrite Hp| |left; by rewrite Hp|done..|by rewrite Hp].
  run_moved.
Qed.

Lemma failed_good w r : Good w → enabled w (AFailed r) → ∃ w', exec w (AFailed r) = Some w' ∧ Good w'.
Proof.
  intros HG (b & e & (R & HR & Hp)%phase_of_Some). cbn [exec]. rewrite HR. cbn [mbind option_bind]. rewrite Hp.
  unfold end_failed, upd_run. rewrite HR. cbn [mbind option_bind].
  destruct (inv_run _ (good_inv _ HG) _ _ HR). rewrite Hp in *.
  assert (Hpe : pending R = false) by (destruct (pending R); [by discriminate ok_pending0|done]).
  unfold close_finished; cbn. rewrite ok_finished0. cbn.
  destruct (log_close (log R)) as [_ Hl]. destruct (log_detach (close_log (log R))) as [_ Hd].
  destruct b; [unfold close_accepted; cbn; rewrite ok_accepted0; cbn|]; (eexists; split; [done|]);
    (eapply (place_good _ _ _ _ _ HG HR); [done|done|by rewrite Hp| |left; by rewrite Hp|done..|by rewrite Hp]);
    (split; cbn; try done; rewrite ?Hpe, ?Hd; done).
Qed.

Lemma finish_good w r : Good w → enabled w (AFinish r) → ∃ w', exec w (AFinish r) = Some w' ∧ Good w'.
Proof.
  intros HG (R & HR & Hp)%phase_of_Some. cbn [exec]. unfold finish_begin, upd_run. rewrite HR. cbn [mbind option_bind].
  destruct (inv_run _ (good_inv _ HG) _ _ HR). rewrite Hp in *. eexists; split; [done|].
  eapply (place_good _ _ _ _ _ HG HR); [done|done|by rewrite Hp| |left; by rewrite Hp|done..|by rewrite Hp].
  run_moved.
Qed.

Lemma end_good w r : Good w → enabled w (AEnd r) → ∃ w', exec w (AEnd r) = Some w' ∧ Good w'.
Proof.
  intros HG (R & HR & Hp)%phase_of_Some. cbn [exec]. unfold finish_end, upd_run. rewrite HR. cbn [mbind option_bind].
  destruct (inv_run _ (good_inv _ HG) _ _ HR). rewrite Hp in *.
  unfold close_finished; cbn. rewrite ok_finished0. cbn.
  destruct (good_counted _ HG) as (W & HW & Hn).
  assert (Hin : r ∈ W) by (apply HW; exists R; by rewrite Hp).
  assert (size W ≠ 0) by (apply size_non_empty_iff; set_solver).
  rewrite bool_decide_false by lia. eexists; split; [done|].
  destruct (log_close (log R)) as [_ Hl].
  eapply (place_good _ _ _ _ _ HG HR);
    [done|done|by rewrite Hp| |left; by rewrite Hp|done..|rewrite Hp; cbn; lia].
  run_moved.
Qed.

Lemma accept_good w r sc n dg low : Good w → enabled w (AAccept r sc n dg low) →
  ∃ w', exec w (AAccept r sc n dg low) = Some w' ∧ Good w'.
Proof.
  intros HG [Hr Hn]. cbn [exec]. eexists. split; [done|]. unfold accept_begin.
  destruct (closing w) eqn:Hc; [done|].
  destruct (requests w !! liveKey sc n) as [q|] eqn:Hq; [done|]. destruct low; [done|].
  pose proof (good_inv _ HG) as HI. split.
  - by apply accept_inv.
  - apply (halts_frame w); [done|apply HG| |].
    + intros x X HX. exists X. split; [|done]. cbn. rewrite lookup_insert_ne; [done|congruence].
    + intros s T HT Hd. right. exists T. auto.
  - destruct (good_counted _ HG) as (W & HW & Hk). exists W. split; [|done]. intros x. rewrite HW.
    unfold is_working. cbn. setoid_rewrite lookup_insert_Some. split.
    + intros (X & HX & Hp). exists X. split; [|done]. right. split; [congruence|done].
    + intros (X & [[<- <-]|[_ HX]] & Hp); [done|eauto].
Qed.

Lemma admit_good w r s i : Good w → enabled w (AAdmit r s i) →
  ∃ w', exec w (AAdmit r s i) = Some w' ∧ Good w'.
Proof.
  intros HG ((R & HR & Hp)%phase_of_Some & Hs & Hid & Htok & Hnew). cbn [exec].
  destruct (admit_spec w r R s i) as [(e & ->)|(w' & s' & T' & -> & HI' & Hcalm & Hc & Hc' & _ & Hse & HT' & Hd)];
    try done; [apply HG|..]; cbn [mbind option_bind]; (eexists; split; [done|]).
  - destruct (admit_fail_good w r e HG) as (w' & Hw' & HG'); [|by injection Hw' as <-].
    unfold enabled, phase_of. rewrite HR. cbn. by rewrite Hp.
  - apply (calm_good w w' HG HI' Hcalm). intros x U HU Hx. right.
    destruct (decide (x = s')) as [->|Hne].
    + simplify_eq. by rewrite Hc', Hd in Hx.
    + exists U. rewrite Hse in HU by done. rewrite Hc' in Hx. cbn in Hx. rewrite Hx, orb_true_r. auto.
Qed.

(** The run leaves its chat to the turn queued next. *)
Lemma retire_good w r R s T goOn w1 f w' :
  Good w → heap w !! r = Some R → Thread R = Some s → sess w !! s = Some T → Active T = Some r →
  advance w r goOn = Some (w1, next_of w T goOn) →
  (Thread (f R) = Thread R ∧ scope (f R) = scope R ∧ LogID (f R) = LogID R ∧ nonce (f R) = nonce R) →
  requested (phase (f R)) = false → run_ok (f R) →
  (cancelled (f R) = cancelled R ∧ stopped (f R) = stopped R) ∧ works (phase (f R)) = works (phase R) →
  (∀ x, heap w' !! x = (λ X, if decide (x = r) then f X
      else if decide (next_of w T goOn = Some x) then X <| phase := PLaunch false |> else X) <$> heap w1 !! x) →
  threads w' = threads w1 ∧ runs w' = runs w1 ∧ requests w' = requests w1 ∧ sess w' = sess w1 ∧
  closing w' = closing w1 ∧ working w' = working w1 →
  Good w'.
Proof.
  intros HG HR Hs HT Ha Hadv Hfid Hfp Hfok [[Hfc Hfs] Hfw] Hh (Hth & Hru & Hre & Hse & Hcl & Hwk).
  pose proof (good_inv _ HG) as HI.
  destruct (advance_spec w r R s T goOn HI HR Hs HT Ha)
    as (w1' & Hadv' & Acl & _ & Awo & _ & _ & Ase & Ahp & _).
  rewrite Hadv in Hadv'. injection Hadv' as <-.
  assert (HI' : Inv w') by (eapply (retire_inv w r R s T goOn w1 f w'); done).
  assert (Hrq : r ∉ ended_queue w T goOn ∧ ∀ x, x ∈ ended_queue w T goOn → ∃ X, heap w !! x = Some X ∧ phase X = PQueued).
  { assert (Hq : ∀ x, x ∈ ended_queue w T goOn → ∃ X, heap w !! x = Some X ∧ phase X = PQueued).
    { intros x Hx. unfold ended_queue in Hx. destruct (next_of w T goOn); [set_solver|].
      destruct (inv_queued _ _ _ _ HI HT Hx) as (X & HX & _ & ?). eauto. }
    split; [|done]. intros (X & HX & Hp)%Hq. destruct (inv_active _ _ _ _ HI HT Ha) as (X' & HX' & _ & Hp').
    simplify_eq. by rewrite Hp in Hp'. }
  destruct Hrq as [Hrq Hqs].
  apply (calm_good w w' HG HI').
  - apply (calm_fmap _ _ (λ x X, if decide (x = r) then f X
      else if decide (next_of w T goOn = Some x) then ((if decide (x ∈ ended_queue w T goOn) then ended_run else id) X)
             <| phase := PLaunch false |> else (if decide (x ∈ ended_queue w T goOn) then ended_run else id) X)).
    + intros x. rewrite Hh, Ahp. destruct (heap w !! x) as [X|] eqn:HX; [|done]. cbn. f_equal.
      destruct (decide (x = r)) as [->|]; [|done]. by rewrite decide_False.
    + congruence.
    + intros x X HX. destruct (decide (x = r)) as [->|Hne].
      { simplify_eq. rewrite Hfc, Hfs, Hfw. done. }
      destruct (decide (next_of w T goOn = Some x)) as [Hn|].
      { apply next_of_in in Hn. destruct (inv_queued w s T x HI HT) as (X' & HX' & _ & Hp); [rewrite Hn; by left|].
        simplify_eq. rewrite Hp. by destruct (decide (x ∈ _)). }
      destruct (decide (x ∈ ended_queue w T goOn)) as [Hx|]; [|done].
      destruct (Hqs x Hx) as (X' & HX' & Hp). simplify_eq. by rewrite Hp.
  - intros x U HU Hd. rewrite Hse, Ase in HU. apply fmap_Some in HU as (U0 & HU0 & ->).
    rewrite Hcl, Acl in Hd. destruct (decide (x = s)) as [->|Hne]; [|right; exists U0; auto].
    simplify_eq. right. exists T. cbn in Hd |- *.
    assert (Hn : next_of w T goOn = None).
    { unfold next_of. destruct (Queue T); [done|]. by destruct goOn, (deleted T), (closing w). }
    unfold left_queue. rewrite Hn. auto.
Qed.

Lemma active_run w r R :
  Inv w → heap w !! r = Some R → is_active (phase R) = true →
  ∃ s T, Thread R = Some s ∧ sess w !! s = Some T ∧ of_run w r = Some (R, s, T) ∧ Active T = Some r.
Proof.
  intros HI HR Hp. destruct (in_chat w r R HI HR) as (s & T & Hs & HT & Hof); [by destruct (phase R)|].
  exists s, T. split_and!; try done. apply (inv_act _ HI s T r HT). eauto.
Qed.

Lemma next_not w s T r goOn n :
  Inv w → sess w !! s = Some T → Active T = Some r → next_of w T goOn = Some n → n ≠ r.
Proof.
  intros HI HT Ha Hn ->. apply next_of_in in Hn.
  destruct (inv_queued w s T r HI HT) as (X & HX & _ & Hp); [rewrite Hn; by left|].
  destruct (inv_active _ _ _ _ HI HT Ha) as (X' & HX' & _ & Hp'). simplify_eq. by rewrite Hp in Hp'.
Qed.

Lemma unstarted_good w r : Good w → enabled w (AUnstarted r) → ∃ w', exec w (AUnstarted r) = Some w' ∧ Good w'.
Proof.
  intros HG (b & e & (R & HR & Hp)%phase_of_Some). pose proof (good_inv _ HG) as HI.
  cbn [exec]. rewrite HR. cbn [mbind option_bind]. rewrite Hp.
  destruct (active_run w r R HI HR) as (s & T & Hs & HT & Hof & Ha); [by rewrite Hp|].
  destruct (advance_spec w r R s T true HI HR Hs HT Ha) as (w1 & Hadv & _).
  unfold endUnstarted. rewrite Hadv. cbn [mbind option_bind]. eexists. split; [done|].
  destruct (inv_run _ HI _ _ HR). rewrite Hp in *.
  eapply (retire_good w r R s T true w1 (λ R, R <| phase := PFailing b e |>)); try done.
  - run_moved.
  - by rewrite Hp.
  - intros x. destruct (next_of w T true) as [n|] eqn:Hn.
    + pose proof (next_not _ _ _ _ _ _ HI HT Ha Hn) as Hne. cbn. rewrite !lookup_alter.
      destruct (decide (n = x)) as [->|]; destruct (decide (r = x)) as [->|]; destruct (heap w1 !! x); decided.
    + cbn. rewrite !lookup_alter. destruct (decide (r = x)) as [->|]; destruct (heap w1 !! x); decided.
  - by destruct (next_of w T true).
Qed.

Lemma retired_good w r : Good w → enabled w (ARetire r) → ∃ w', exec w (ARetire r) = Some w' ∧ Good w'.
Proof.
  intros HG (c & (R & HR & Hp)%phase_of_Some). pose proof (good_inv _ HG) as HI.
  cbn [exec]. rewrite HR. cbn [mbind option_bind]. rewrite Hp.
  destruct (active_run w r R HI HR) as (s & T & Hs & HT & Hof & Ha); [by rewrite Hp|].
  unfold finish_retire. rewrite Hof. cbn [mbind option_bind].
  set (goOn := negb c || yielded R).
  destruct (advance_spec w r R s T goOn HI HR Hs HT Ha) as (w1 & Hadv & Acl & Ahe & Awo & _ & _ & Ase & Ahp & _).
  rewrite Hadv. cbn [mbind option_bind].
  assert (HR1 : heap w1 !! r = Some R).
  { rewrite Ahp, HR. cbn. rewrite decide_False; [done|]. unfold ended_queue.
    destruct (next_of w T goOn); [set_solver|]. intros Hq.
    destruct (inv_queued _ _ _ _ HI HT Hq) as (X & HX & _ & HpX). simplify_eq. by rewrite Hp in HpX. }
  assert (HT1 : ∃ T1, sess w1 !! s = Some T1 ∧ owner T1 = owner T ∧ ID T1 = ID T).
  { rewrite Ase, HT. eexists. split; [done|]. rewrite decide_True by done. done. }
  destruct HT1 as (T1 & HT1 & Ho1 & Hi1).
  set (keep := local T && negb (bool_decide (Kind R = "ask"%string)) && negb (deleted T)).
  assert (Hhold : ∃ w2, (if keep then hold w1 r else Some w1) = Some w2 ∧
    (∀ x, heap w2 !! x = (λ X, if decide (x = r) then (if keep then X <| log ::= hold_log |> else X) else X)
                         <$> heap w1 !! x) ∧
    threads w2 = threads w1 ∧ runs w2 = runs w1 ∧ requests w2 = requests w1 ∧ sess w2 = sess w1 ∧
    closing w2 = closing w1 ∧ working w2 = working w1).
  { destruct keep.
    - unfold hold. rewrite (of_run_Some w1 r R s T1 HR1 Hs HT1). cbn [mbind option_bind].
      eexists. split; [done|]. split; [|done]. intros x. cbn. rewrite lookup_alter.
      destruct (decide (r = x)) as [->|]; destruct (heap w1 !! x); decided.
    - eexists. split; [done|]. split; [|done]. intros x. destruct (decide (x = r)); by destruct (heap w1 !! x). }
  destruct Hhold as (w2 & Hw2 & Hh2 & Ht2 & Hr2 & Hq2 & Hs2 & Hc2 & Hk2).
  rewrite Hw2. cbn [mbind option_bind]. eexists. split; [done|].
  destruct (inv_run _ HI _ _ HR). rewrite Hp in *.
  eapply (retire_good w r R s T goOn w1 (λ R, (if keep then R <| log ::= hold_log |> else R)
      <| phase := PFinishing |> <| HoldsKey := false |>)); try done.
  - by destruct keep.
  - destruct keep; [|run_moved]. run_moved. by destruct (log_hold (log R)) as [_ ->].
  - rewrite Hp. by destruct keep.
  - intros x. destruct (next_of w T goOn) as [n|] eqn:Hn.
    + pose proof (next_not _ _ _ _ _ _ HI HT Ha Hn) as Hne. cbn. rewrite !lookup_alter, !Hh2.
      destruct (decide (n = x)) as [->|]; destruct (decide (r = x)) as [->|]; destruct (heap w1 !! x); decided.
    + cbn. rewrite !lookup_alter, !Hh2. destruct (decide (r = x)) as [->|]; destruct (heap w1 !! x); decided.
  - by destruct (next_of w T goOn).
Qed.

Lemma of_run_inv w r : is_Some (of_run w r) →
  ∃ R s T, of_run w r = Some (R, s, T) ∧ heap w !! r = Some R ∧ Thread R = Some s ∧ sess w !! s = Some T.
Proof.
  intros [[[R s] T] H]. exists R, s, T. split; [done|]. unfold of_run in H.
  destruct (heap w !! r) as [R'|]; [|done]. cbn in H. destruct (Thread R') as [s'|] eqn:Hs; [|done]. cbn in H.
  destruct (sess w !! s') eqn:HT; [|done]. cbn in H. by simplify_eq.
Qed.

(** A turn removed from its chat's queue. *)
Lemma removed_good w w' s r :
  Good w → Inv w' → closing w' = closing w → calm w w' →
  (∀ x, sess w' !! x = (λ T', if decide (x = s) then T' <| Queue ::= λ q, slices_delete q r |> else T')
                       <$> sess w !! x) → Good w'.
Proof.
  intros HG HI' Hc Hcalm Hse. apply (calm_good w w' HG HI' Hcalm).
  intros x U HU Hd. right. rewrite Hse in HU. apply fmap_Some in HU as (T & HT & ->). exists T.
  rewrite Hc in Hd. destruct (decide (x = s)); [|auto]. split_and!; [done..| |by right]. cbn.
  intros HQ. by rewrite HQ.
Qed.

Lemma cancel_calm w a : calm w (cancel_active w a).
Proof.
  apply (calm_fmap _ _ (λ x X, if decide (a = x) then X <| cancelled := true |> <| stopped := true |> else X));
    [|done|by intros x X _; destruct (decide (a = x))].
  intros x. unfold cancel_active, set_run; cbn. rewrite lookup_alter.
  destruct (decide (a = x)) as [->|]; by destruct (heap w !! x).
Qed.

Lemma cancel_good w r : Good w → is_Some (of_run w r) → ∃ w' res, CancelThread w r = Some (w', res) ∧ Good w'.
Proof.
  intros HG (R & s & T & Hof & HR & Hs & HT)%of_run_inv. unfold CancelThread.
  destruct (removeQueued_inv w r R s T (good_inv _ HG) HR Hs HT)
    as [(Hin & ->)|(Hin & w' & -> & HI' & Hc & _ & _ & Hcalm & Hse & _)]; cbn [mbind option_bind].
  - rewrite Hof. cbn [mbind option_bind]. destruct (_ || _); eexists _, _; (split; [done|]); [done|].
    apply (calm_good w _ HG); [apply cancel_inv, HG|apply cancel_calm|].
    intros x U HU Hd. right. exists U. auto.
  - eexists _, _. split; [done|]. by eapply removed_good.
Qed.

Lemma remove_good w r : Good w → is_Some (of_run w r) → ∃ w' res, RemoveQueued w r = Some (w', res) ∧ Good w'.
Proof.
  intros HG (R & s & T & Hof & HR & Hs & HT)%of_run_inv. unfold RemoveQueued.
  destruct (removeQueued_inv w r R s T (good_inv _ HG) HR Hs HT)
    as [(Hin & ->)|(Hin & w' & -> & HI' & Hc & _ & _ & Hcalm & Hse & _)]; cbn [mbind option_bind];
    eexists _, _; (split; [done|]); [done|]. by eapply removed_good.
Qed.

Lemma send_good w r : Good w → is_Some (of_run w r) → ∃ w' res, SendQueued w r = Some (w', res) ∧ Good w'.
Proof.
  intros HG (R & s & T & Hof & HR & Hs & HT)%of_run_inv.
  destruct (sendQueued_inv w r R s T (good_inv _ HG) HR Hs HT)
    as [(Hin & ->)|(Hin & w' & a & A & -> & HI' & _ & _ & Hc & _ & _ & Hcalm & Hse & _)];
    [by eexists _, _|]. eexists _, _. split; [done|].
  apply (calm_good w w' HG HI' Hcalm). intros x U HU Hd. right.
  rewrite Hse in HU. apply fmap_Some in HU as (T' & HT' & ->). exists T'. rewrite Hc in Hd.
  destruct (decide (x = s)) as [->|]; [|auto]. simplify_eq. cbn in Hd.
  destruct (good_halts _ HG s T HT Hd) as [HQ _]. rewrite HQ in Hin. set_solver.
Qed.

Lemma stop_good w s T : Good w → sess w !! s = Some T → ∃ w', stop w s = Some w' ∧ Good w' ∧
  threads w' = threads w ∧ ∀ x, is_Some (sess w !! x) → is_Some (sess w' !! x).
Proof.
  intros HG HT. destruct (stop_inv w s T (good_inv _ HG) HT) as (w' & Hw' & HI' & Hc & _ & Hth & Hcalm & Hse & Hh).
  exists w'. split; [done|]. split; [|split; [done|intros x; rewrite Hse; apply fmap_is_Some]].
  apply (calm_good w w' HG HI' Hcalm). intros x U HU Hd. rewrite Hc in Hd.
  rewrite Hse in HU. apply fmap_Some in HU as (T' & HT' & ->).
  destruct (decide (x = s)) as [->|]; [|right; exists T'; auto]. simplify_eq. left.
  split; [done|]. cbn. intros a A Ha HA. rewrite Hh in HA. apply fmap_Some in HA as (X & HX & ->).
  rewrite decide_False.
  - by rewrite decide_True.
  - intros Hq. destruct (inv_queued _ _ _ _ (good_inv _ HG) HT Hq) as (X' & HX' & _ & Hp).
    destruct (inv_active _ _ _ _ (good_inv _ HG) HT Ha) as (X'' & HX'' & _ & Hp'). simplify_eq. by rewrite Hp in Hp'.
Qed.

Lemma live_sess w k s : Inv w → threads w !! k = Some s → ∃ T, sess w !! s = Some T.
Proof. intros HI (T & HT & _)%(inv_thr _ HI). eauto. Qed.

Lemma drop_held_good w p : Good w → Good (dropHeld w p).
Proof. intros HG. eapply quiet_good; [done|apply quiet_dropHeld]. Qed.

Lemma stop_devices_good w sc ss : Good w → (∀ s, s ∈ ss → is_Some (sess w !! s)) →
  ∃ w', stop_devices w sc ss = Some w' ∧ Good w'.
Proof.
  revert w. induction ss as [|s ss IH]; intros w HG Hss; [by exists w|]. cbn [stop_devices].
  destruct (Hss s) as [T HT]; [set_solver|]. rewrite HT. cbn [mbind option_bind].
  destruct (bool_decide (owner T = sc) && isDevice T).
  - destruct (stop_good w s T HG HT) as (w1 & -> & HG1 & _ & Hx). cbn [mbind option_bind].
    apply IH; [done|]. intros x Hin. apply Hx, Hss. set_solver.
  - cbn [mbind option_bind]. apply IH; [done|]. intros x Hin. apply Hss. set_solver.
Qed.

Lemma threads_live w s : Inv w → s ∈ (map_to_list (threads w)).*2 → is_Some (sess w !! s).
Proof.
  intros HI ([k s'] & -> & Hk%elem_of_map_to_list)%list_elem_of_fmap. cbn.
  destruct (live_sess w k s' HI Hk) as [T HT]. eauto.
Qed.

Lemma stop_service_good w : Good w → ∃ w', Stop w = Some w' ∧ Good w'.
Proof.
  intros HG. unfold Stop. set (w0 := w <| closing := true |>).
  pose proof (closing_inv w (good_inv _ HG)) as HI0. fold w0 in HI0.
  destruct (stop_all_inv w0 (map_to_list (threads w)).*2 HI0) as
    (w' & Hw' & HI' & Hc & _ & Hth & Hcalm & Hq & Hh).
  { intros s Hs. by apply (threads_live w0). }
  exists w'. split; [done|]. split; [done| |].
  - intros s U HU _. destruct (Hq s) as (q & Hse & Hor & _). pose proof HU as HU'.
    rewrite Hse in HU'. apply fmap_Some in HU' as (T & HT & ->).
    destruct (decide (s ∈ (map_to_list (threads w)).*2)) as [Hin|Hin]; [by eapply Hh|].
    assert (Ha : Active T = None).
    { destruct (Active T) as [a|] eqn:Ha; [|done]. exfalso. apply Hin.
      apply list_elem_of_fmap. exists (skey T, s). split; [done|]. apply elem_of_map_to_list.
      apply (inv_thr _ (good_inv _ HG)). exists T. by rewrite Ha. }
    assert (HQ : Queue T = []).
    { destruct (Queue T) as [|n l] eqn:HQ; [done|]. destruct (inv_sess _ HI0 s T HT). rewrite HQ in ok_behind0.
      exfalso. by apply ok_behind0. }
    split; cbn; [|by rewrite Ha]. destruct (Hor T) as [->| ->]; done.
  - destruct (good_counted _ HG) as (W & HW & Hn). eapply counted_calm; [|exact Hcalm]. by exists W.
Qed.

Lemma retry_good w q dg fp key : Good w → enabled w (ARetry q dg fp key) →
  ∃ w', exec w (ARetry q dg fp key) = Some w' ∧ Good w'.
Proof.
  intros HG (Q & HQ & Hacc). cbn [exec]. unfold accept_previous. rewrite HQ. cbn [mbind option_bind].
  destruct (bool_decide (digest Q = dg)); cbn [negb]; [|by eexists].
  case_bool_decide as Href; [by eexists|].
  assert (Hun : unadmitted (phase Q) = false).
  { destruct (inv_run _ (good_inv _ HG) _ _ HQ). rewrite Hacc in ok_accepted0.
    destruct (phase Q); try done. by specialize (ok_refused0 eq_refl). }
  destruct (in_chat w q Q (good_inv _ HG) HQ Hun) as (s & T & Hs & HT & ->). cbn [mbind option_bind].
  destruct (negb (keyless T) && _); [by eexists|]. case_bool_decide; [|by eexists].
  eexists. split; [done|]. eapply quiet_good; [done|]. apply quiet_set; [|done..].
  intros X. split; try done. cbn. by destruct (log_attach (log X)).
Qed.

(** Every step that may be taken runs to its end. *)
Lemma exec_good w a : Good w → enabled w a → ∃ w', exec w a = Some w' ∧ Good w'.
Proof.
  intros HG He. destruct a.
  - by apply accept_good.
  - by apply retry_good.
  - by apply admit_fail_good.
  - by apply admit_good.
  - by apply refuse_good.
  - by apply accepted_good.
  - by apply launch_good.
  - by apply launch_fail_good.
  - by apply unstarted_good.
  - by apply failed_good.
  - by apply finish_good.
  - by apply retired_good.
  - by apply end_good.
  - destruct (cancel_good w r HG He) as (w' & res & Hw & ?). cbn [exec]. rewrite Hw. by exists w'.
  - destruct (send_good w r HG He) as (w' & res & Hw & ?). cbn [exec]. rewrite Hw. by exists w'.
  - destruct (remove_good w r HG He) as (w' & res & Hw & ?). cbn [exec]. rewrite Hw. by exists w'.
  - cbn [exec]. unfold StopThread. destruct (threads w !! _) as [s|] eqn:Hs; [|by exists w].
    destruct (live_sess _ _ _ (good_inv _ HG) Hs) as [T HT].
    destruct (stop_good w s T HG HT) as (w' & ? & ? & _). eauto.
  - cbn [exec]. unfold StopDeviceThread. destruct (threads w !! _) as [s|] eqn:Hs; cbn [mbind option_bind].
    + destruct (live_sess _ _ _ (good_inv _ HG) Hs) as [T HT]. rewrite HT. cbn [mbind option_bind].
      destruct (isDevice T); [|eexists; split; [done|]; by apply drop_held_good].
      destruct (stop_good w s T HG HT) as (w' & -> & ? & _). eexists. split; [done|]. by apply drop_held_good.
    + eexists. split; [done|]. by apply drop_held_good.
  - cbn [exec]. unfold StopDeviceThreads.
    destruct (stop_devices_good w scope0 (map_to_list (threads w)).*2 HG) as (w' & -> & ?).
    { intros s Hs. apply (threads_live w s (good_inv _ HG) Hs). }
    eexists. split; [done|]. by apply drop_held_good.
  - by apply stop_service_good.
  - eexists. split; [done|]. eapply quiet_good; [done|apply quiet_release].
  - eexists. split; [done|]. eapply quiet_good; [done|]. apply quiet_set; [|done..].
    intros X. split; try done. cbn. by destruct (log_attach (log X)).
  - eexists. split; [done|]. eapply quiet_good; [done|]. apply quiet_set; [|done..].
    intros X. split; try done. cbn. by destruct (log_detach (log X)).
Qed.

Lemma empty_good : Good empty.
Proof.
  split.
  - split; cbn; intros *; try (setoid_rewrite lookup_empty); try done; (split; [done|]);
      intros (? & ? & ?); done.
  - intros s T HT. done.
  - exists ∅. split; [|by rewrite size_empty]. intros x. split; [set_solver|]. intros (X & ? & _). done.
Qed.

Lemma reach_good w : reach w → Good w.
Proof.
  apply reachable_invariant.
  - intros s ->. apply empty_good.
  - intros s a s' _ HG [He Hx]. destruct (exec_good s a HG He) as (w' & Hw' & ?). congruence.
Qed.

(** ** What a client and an operator rely on *)

(** C5. No step panics: no channel is closed twice, no nil pointer is
    followed and the count of running replies never goes below zero. *)
Theorem no_panic w a : reach w → enabled w a → ∃ w', exec w a = Some w'.
Proof. intros HG%reach_good He. destruct (exec_good w a HG He) as (w' & ? & _). eauto. Qed.

(** C4. A chat has at most one reply between its admission and its
    hand-over, and that one is the chat's running slot; every other turn it
    has accepted is in its queue, once, and the queue is bounded and is empty
    when nothing runs. *)
Theorem one_reply_per_chat w s T :
  reach w → sess w !! s = Some T →
  (∀ r R, heap w !! r = Some R → Thread R = Some s →
     (is_active (phase R) = true ↔ Active T = Some r) ∧ (phase R = PQueued ↔ r ∈ Queue T)) ∧
  NoDup (Queue T) ∧ length (Queue T) ≤ MaxQueuedTurns ∧ (Queue T ≠ [] → Active T ≠ None).
Proof.
  intros HI%reach_good%good_inv HT. destruct (inv_sess _ HI _ _ HT). split; [|done].
  intros r R HR Hs. rewrite (inv_act _ HI s T r HT), (inv_queue _ HI s T r HT). split; split.
  - eauto.
  - intros (X & ? & _ & ?). congruence.
  - intros Hp. exists R. by rewrite Hp.
  - intros (X & HX & _ & Hp). assert (X = R) as -> by congruence. by destruct (phase R).
Qed.

(** The registry is exact: a chat is found while it has a running reply,
    a run by its chat's owner and its token from its admission until it is
    retired, and by its client's request from the moment it is taken, so a
    request tried again meets the run it started. *)
Theorem registry_exact w :
  reach w →
  (∀ k r, runs w !! k = Some r ↔
     ∃ R, heap w !! r = Some R ∧ liveKey (scope R) (LogID R) = k ∧ registered (phase R) = true) ∧
  (∀ k r, requests w !! k = Some r ↔
     ∃ R, heap w !! r = Some R ∧ liveKey (scope R) (nonce R) = k ∧ requested (phase R) = true) ∧
  (∀ k s, threads w !! k = Some s ↔
     ∃ T, sess w !! s = Some T ∧ liveKey (owner T) (ID T) = k ∧ Active T ≠ None).
Proof. intros HI%reach_good%good_inv. split_and!; apply HI. Qed.

(** A run that has ended is nowhere: no registry, slot or queue has it,
    its content key is dropped, its log and its channel are closed. *)
Theorem ended_run_released w r R :
  reach w → heap w !! r = Some R → phase R = PDone →
  (∀ k, runs w !! k ≠ Some r ∧ requests w !! k ≠ Some r) ∧
  (∀ s T, sess w !! s = Some T → Active T ≠ Some r ∧ r ∉ Queue T) ∧
  HoldsKey R = false ∧ log_ended (log R) = true ∧ Finished R = true.
Proof.
  intros HI%reach_good%good_inv HR Hp. split_and!.
  - intros k. split; [intros (X & HX & _ & Hx)%(inv_runs _ HI)|intros (X & HX & _ & Hx)%(inv_reqs _ HI)];
      simplify_eq; by rewrite Hp in Hx.
  - intros s T HT. split; [intros (X & HX & _ & Hx)%(inv_act _ HI s T r HT)|
      intros (X & HX & _ & Hx)%(inv_queue _ HI s T r HT)]; simplify_eq; by rewrite Hp in Hx.
  - apply (ok_key _ (inv_run _ HI _ _ HR)). by left.
  - by rewrite (ok_ended _ (inv_run _ HI _ _ HR)), Hp.
  - by rewrite (ok_finished _ (inv_run _ HI _ _ HR)), Hp.
Qed.

(** From the moment the service shuts down, or a chat is deleted, no
    turn of the chat waits and its running reply has been cancelled, for
    good. *)
Theorem shutdown_halts w s T :
  reach w → sess w !! s = Some T → closing w || deleted T = true →
  Queue T = [] ∧ ∀ a A, Active T = Some a → heap w !! a = Some A → cancelled A = true ∧ stopped A = true.
Proof. intros HH%reach_good%good_halts HT Hd. by apply (HH s T). Qed.

(** The count that the shutdown waits for is the number of replies that
    have started and not yet made their last write. *)
Theorem working_counts w :
  reach w →
  ∃ W : gset nat, working w = Z.of_nat (size W) ∧
    ∀ r, r ∈ W ↔ ∃ R, heap w !! r = Some R ∧
      (phase R = PRun ∨ (∃ c, phase R = PFinish c) ∨ phase R = PFinishing).
Proof.
  intros (W & HW & Hn)%reach_good%good_counted. exists W. split; [done|]. intros r. rewrite HW.
  unfold is_working. split; intros (R & HR & Hp); exists R; (split; [done|]).
  - destruct (phase R); try done; eauto.
  - by destruct Hp as [->|[[c ->]| ->]].
Qed.

(** What [finish_retire] leaves in the chat of the run it retires. *)
Lemma retire_spec w r R s T c :
  Good w → heap w !! r = Some R → phase R = PFinish c → Thread R = Some s → sess w !! s = Some T →
  ∃ w', finish_retire w r c = Some w' ∧
    let goOn := negb c || yielded R in
    sess w' !! s = Some (T <| Active := next_of w T goOn |> <| Queue := left_queue w T goOn |>) ∧
    (∀ n, next_of w T goOn = Some n → phase <$> heap w' !! n = Some (PLaunch false)) ∧
    (∀ q, q ∈ ended_queue w T goOn → phase <$> heap w' !! q = Some PDone).
Proof.
  intros HG HR Hp Hs HT. pose proof (good_inv _ HG) as HI.
  destruct (active_run w r R HI HR) as (s' & T' & Hs' & HT' & Hof & Ha); [by rewrite Hp|].
  assert (s' = s) as -> by congruence. assert (T' = T) as -> by congruence.
  unfold finish_retire. rewrite Hof. cbn [mbind option_bind]. set (goOn := negb c || yielded R).
  destruct (advance_spec w r R s T goOn HI HR Hs HT Ha) as (w1 & Hadv & Acl & Ahe & Awo & _ & _ & Ase & Ahp & _).
  rewrite Hadv. cbn [mbind option_bind].
  assert (Hq : r ∉ Queue T).
  { intros Hq. destruct (inv_queued _ _ _ _ HI HT Hq) as (X & HX & _ & HpX). simplify_eq. by rewrite Hp in HpX. }
  assert (HR1 : heap w1 !! r = Some R).
  { rewrite Ahp, HR. cbn. rewrite decide_False; [done|]. unfold ended_queue.
    destruct (next_of w T goOn); [set_solver|done]. }
  set (T1 := T <| Active := next_of w T goOn |> <| Queue := left_queue w T goOn |>).
  assert (HT1 : sess w1 !! s = Some T1) by (rewrite Ase, HT; cbn; by rewrite decide_True).
  set (keep := local T && negb (bool_decide (Kind R = "ask"%string)) && negb (deleted T)).
  assert (Hhold : ∃ w2, (if keep then hold w1 r else Some w1) = Some w2 ∧ sess w2 = sess w1 ∧
    ∀ x, x ≠ r → heap w2 !! x = heap w1 !! x).
  { destruct keep; [|by eexists]. unfold hold. rewrite (of_run_Some w1 r R s T1 HR1 Hs HT1). cbn [mbind option_bind].
    eexists. split; [done|]. split; [done|]. intros x Hx. cbn. by rewrite lookup_alter_ne. }
  destruct Hhold as (w2 & -> & Hs2 & Hh2). cbn [mbind option_bind]. eexists. split; [done|]. cbn zeta.
  split_and!.
  - assert (Hse : sess (match next_of w T goOn with
       | Some n => set_run (set_run w2 r (λ R0, R0 <| phase := PFinishing |> <| HoldsKey := false |>)) n
                           (λ R0, R0 <| phase := PLaunch false |>)
       | None => set_run w2 r (λ R0, R0 <| phase := PFinishing |> <| HoldsKey := false |>) end) = sess w2)
      by by destruct (next_of w T goOn).
    by rewrite Hse, Hs2.
  - intros n Hn. rewrite Hn. pose proof (next_not _ _ _ _ _ _ HI HT Ha Hn) as Hne. cbn.
    rewrite lookup_alter_eq, lookup_alter_ne by done. rewrite Hh2, Ahp by done.
    apply next_of_in in Hn. destruct (inv_queued w s T n HI HT) as (X & HX & _); [rewrite Hn; by left|].
    by rewrite HX.
  - intros q Hin. unfold ended_queue in Hin. destruct (next_of w T goOn) eqn:Hn; [set_solver|].
    assert (q ≠ r) by (intros ->; done). cbn. rewrite lookup_alter_ne by done. rewrite Hh2, Ahp by done.
    destruct (inv_queued w s T q HI HT Hin) as (X & HX & _). rewrite HX. cbn.
    unfold ended_queue. by rewrite Hn, decide_True.
Qed.

(** When a reply ends, its chat goes on with the turn queued first and
    keeps the others in their order, if the reply was not cancelled or made
    way for a queued turn; otherwise every queued turn is ended and the chat
    is left idle. *)
Theorem hand_over w r R s T c :
  reach w → heap w !! r = Some R → phase R = PFinish c → Thread R = Some s → sess w !! s = Some T →
  ∃ w' T', exec w (ARetire r) = Some w' ∧ sess w' !! s = Some T' ∧
    match Queue T with
    | n :: q =>
        if (negb c || yielded R) && negb (deleted T) && negb (closing w) then
          Active T' = Some n ∧ Queue T' = q ∧ phase <$> heap w' !! n = Some (PLaunch false)
        else Active T' = None ∧ Queue T' = [] ∧ ∀ x, x ∈ Queue T → phase <$> heap w' !! x = Some PDone
    | [] => Active T' = None ∧ Queue T' = []
    end.
Proof.
  intros HG%reach_good HR Hp Hs HT. destruct (retire_spec w r R s T c HG HR Hp Hs HT) as (w' & Hw' & Hse & Hn & Hq).
  eexists w', _. cbn [exec]. rewrite HR. cbn [mbind option_bind]. rewrite Hp. split; [done|]. split; [done|].
  cbn. unfold left_queue, next_of, ended_queue, next_of in *. destruct (Queue T) as [|n q]; [done|].
  destruct (_ && _ && _); [|done]. split_and!; [done|done|]. by apply Hn.
Qed.

(** A queued turn its client sends at once cancels the running reply
    and, when that reply's goroutine has ended and retired it, runs next,
    ahead of the turns queued before it, which keep their order. *)
Theorem send_queued_next w r R s T :
  reach w → heap w !! r = Some R → Thread R = Some s → sess w !! s = Some T → r ∈ Queue T →
  ∃ a w1 A1, Active T = Some a ∧ exec w (ASend r) = Some w1 ∧ heap w1 !! a = Some A1 ∧
    (ending A1 = false → cancelled A1 = true ∧ stopped A1 = true) ∧
    ∀ c, phase A1 = PFinish c →
      ∃ w2 T2, exec w1 (ARetire a) = Some w2 ∧ sess w2 !! s = Some T2 ∧
        Active T2 = Some r ∧ Queue T2 = slices_delete (Queue T) r ∧
        phase <$> heap w2 !! r = Some (PLaunch false).
Proof.
  intros HG%reach_good HR Hs HT Hin. pose proof (good_inv _ HG) as HI.
  destruct (send_good w r HG) as (w1 & res & Hw1 & HG1).
  { rewrite (of_run_Some _ _ _ _ _ HR Hs HT). eauto. }
  destruct (sendQueued_inv w r R s T HI HR Hs HT)
    as [(? & _)|(_ & w1' & a & A & Hw1' & HI1 & Ha & HA & Hc1 & _ & _ & _ & Hse1 & A1 & HA1 & Hp1 & Hy1 & Hcs)]; [done|].
  rewrite Hw1 in Hw1'. injection Hw1' as <- ->.
  exists a, w1, A1. cbn [exec]. rewrite Hw1. cbn [mbind option_bind].
  assert (HT1 : sess w1 !! s = Some (T <| Queue ::= λ q, r :: slices_delete q r |>)).
  { rewrite Hse1, HT. cbn. by rewrite decide_True. }
  assert (Has : Thread A1 = Some s).
  { destruct (inv_act _ HI1 s _ a HT1) as [Hact _]. destruct (Hact Ha) as (X & HX & ? & _). congruence. }
  split_and!; try done.
  - intros c Hpc.
    destruct (retire_spec w1 a A1 s _ c HG1 HA1 Hpc Has HT1) as (w2 & Hw2 & Hs2 & Hn & _).
    assert (Hgo : next_of w1 (T <| Queue ::= λ q, r :: slices_delete q r |>) (negb c || yielded A1) = Some r).
    { unfold next_of. cbn. rewrite Hy1, orb_true_r, Hc1. cbn.
      destruct (closing w || deleted T) eqn:Hd.
      - destruct (good_halts _ HG s T HT Hd) as [HQ _]. rewrite HQ in Hin. set_solver.
      - apply orb_false_iff in Hd as [-> ->]. done. }
    unfold left_queue in Hs2. rewrite Hgo in Hs2.
    eexists w2, _. rewrite HA1. cbn [mbind option_bind]. rewrite Hpc. split; [done|]. split; [done|].
    split_and!; [done|done|]. by apply Hn.
Qed.

(** Traces of steps, for concrete worlds. *)
Definition slash_freeb (id : string) : bool := forallb (λ c, negb (Ascii.eqb "/" c)) (bytes_of id).
Definition can (w : World) (a : Action) : bool :=
  match a with
  | AAccept r _ n _ _ => match heap w !! r with None => slash_freeb n | Some _ => false end
  | AAdmit r s i =>
      match phase_of w r, sess w !! s with
      | Some PAdmit, None =>
          slash_freeb (a_id i) && slash_freeb (a_token i) &&
          forallb (λ x, negb (String.eqb (LogID x.2) (a_token i))) (map_to_list (heap w))
      | _, _ => false
      end
  | ALaunch r => match phase_of w r with Some (PLaunch _) => true | _ => false end
  | AFinish r => match phase_of w r with Some PRun => true | _ => false end
  | ARetire r => match phase_of w r with Some (PFinish _) => true | _ => false end
  | AEnd r => match phase_of w r with Some PFinishing => true | _ => false end
  | AStop => true
  | _ => false
  end.

Fixpoint trace (w : World) (tr : list Action) : option World :=
  match tr with
  | [] => Some w
  | a :: tr => if can w a then w ← exec w a; trace w tr else None
  end.

Lemma slash_freeb_ok id : slash_freeb id = true → slash_free id.
Proof.
  unfold slash_freeb, slash_free. rewrite forallb_forall. intros H Hin%list_elem_of_In.
  specialize (H _ Hin). by rewrite Ascii.eqb_refl in H.
Qed.

Lemma can_enabled w a : can w a = true → enabled w a.
Proof.
  unfold can, enabled. destruct a; try done; unfold phase_of; try (destruct (heap w !! r) as [R|] eqn:HR; cbn;
    [destruct (phase R); try done; eauto|done]).
  - destruct (heap w !! r); [done|]. intros. split; [done|]. by apply slash_freeb_ok.
  - destruct (sess w !! s); [done|]. intros [[H1 H2]%andb_true_iff H3]%andb_true_iff.
    split_and!; [done|done|by apply slash_freeb_ok..|]. intros r' R' HR' Heq.
    rewrite forallb_forall in H3. specialize (H3 (r', R')). cbn in H3. rewrite Heq, String.eqb_refl in H3.
    discriminate H3. by apply list_elem_of_In, elem_of_map_to_list.
Qed.

Lemma trace_reach w tr w' : reach w → trace w tr = Some w' → reach w'.
Proof.
  revert w. induction tr as [|a tr IH]; cbn; intros w Hr Ht; [congruence|].
  destruct (can w a) eqn:Hc; [|done]. destruct (exec w a) as [w1|] eqn:Hx; [|done]. cbn in Ht.
  apply (IH w1); [|done]. eapply reachable_step; [exact Hr|]. split; [by apply can_enabled|done].
Qed.
End LiveRuns.

(** *** The frame log of RunLog.v *)

Section FrameLogs.
Context {F Er : Type} (flen : F → Z) (fclear : F → F) (why : Er).

#[export] Instance FrameLog_ops : LogOps (RunLog.Mem (F := F) * RunLog.FrameLog (Er := Er)).
Proof.
  refine {|
    NewLog := (RunLog.mkMem ∅ 0, RunLog.newRunlog);
    Attach l := (l.1, RunLog.Attach l.2);
    Detach l := RunLog.Detach fclear l.1 l.2;
    hold_log l := (l.1, RunLog.hold l.2);
    release_log l := RunLog.release fclear l.1 l.2;
    close_log l := RunLog.close fclear l.1 l.2 why;
    log_held l := RunLog.held l.2;
    log_ended l := RunLog.ended l.2;
  |}; try done.
  - intros l. unfold RunLog.Detach, RunLog.wipe. by destruct (_ || _).
  - intros l. unfold RunLog.release, RunLog.wipe. by destruct (_ || _).
  - intros l. unfold RunLog.close, RunLog.wipe. destruct (RunLog.closed l.2); by destruct (_ || _).
Defined.
End FrameLogs.

(** ** Witnesses *)

Definition Log0 : Type := RunLog.Mem (F := list nat) * RunLog.FrameLog (Er := unit).
#[local] Instance log0 : LogOps Log0 :=
  FrameLog_ops (fmap (λ _, 0)) ().

Definition turn0 (tok : string) : AdmitIn := mkAdmit "c" "send" false false false false "k" tok.
(** A reply that runs, and two turns queued behind it. *)
Definition queue0 : list (Action) :=
  [AAccept 1 "u" "n1" "d" false; AAdmit 1 1 (turn0 "t1"); ALaunch 1;
   AAccept 2 "u" "n2" "d" false; AAdmit 2 2 (turn0 "t2");
   AAccept 3 "u" "n3" "d" false; AAdmit 3 2 (turn0 "t3")].
Definition w0 : World (L := Log0) := default empty (trace empty queue0).
Definition w1 : World (L := Log0) := default empty (trace w0 [AFinish 1]).
Definition w2 : World (L := Log0) := default empty (trace w1 [ARetire 1; AEnd 1]).
Definition w3 : World (L := Log0) := default empty (trace w0 [AStop]).
Definition sess_at (w : World (L := Log0)) (s : nat) : threadSession :=
  default (mkSession "" "" "" false false false None []) (sess w !! s).
Definition run_at (w : World (L := Log0)) (r : nat) : Run (L := Log0) := default (fresh_run "" "" "") (heap w !! r).

Lemma w0_reach : reach w0.
Proof. apply (trace_reach empty queue0); [by apply reachable_init|vm_compute; reflexivity]. Qed.
Lemma w1_reach' : reach w1.
Proof. apply (trace_reach w0 [AFinish 1]); [apply w0_reach|vm_compute; reflexivity]. Qed.
Lemma w2_reach' : reach w2.
Proof. apply (trace_reach w1 [ARetire 1; AEnd 1]); [apply w1_reach'|vm_compute; reflexivity]. Qed.
Lemma w3_stopped : reach w3.
Proof. apply (trace_reach w0 [AStop]); [apply w0_reach|vm_compute; reflexivity]. Qed.

Lemma no_panic_witness : ∃ w', exec w0 (ASend 3) = Some w'.
Proof. apply (no_panic w0 (ASend 3)); [exact w0_reach|]. eexists. vm_compute. reflexivity. Defined.

Lemma one_reply_per_chat_witness : Active (sess_at w0 1) = Some 1 ∧ Queue (sess_at w0 1) = [2; 3] ∧
  NoDup (Queue (sess_at w0 1)).
Proof.
  split; [vm_compute; reflexivity|]. split; [vm_compute; reflexivity|].
  apply (one_reply_per_chat w0 1 (sess_at w0 1)); [exact w0_reach|vm_compute; reflexivity].
Defined.

Lemma registry_exact_witness : runs w0 !! "u/t2" = Some 2 ∧
  ∃ R, heap w0 !! 2 = Some R ∧ liveKey (scope R) (LogID R) = "u/t2" ∧ registered (phase R) = true.
Proof.
  split; [vm_compute; reflexivity|].
  apply (proj1 (registry_exact w0 w0_reach) "u/t2" 2). vm_compute; reflexivity.
Defined.

Lemma ended_run_released_witness : HoldsKey (run_at w2 1) = false ∧ log_ended (log (run_at w2 1)) = true ∧
  Finished (run_at w2 1) = true.
Proof.
  apply (ended_run_released w2 1 (run_at w2 1)); [exact w2_reach'|vm_compute; reflexivity..].
Defined.

Lemma shutdown_halts_witness : Queue (sess_at w3 1) = [] ∧
  ∀ a A, Active (sess_at w3 1) = Some a → heap w3 !! a = Some A → cancelled A = true ∧ stopped A = true.
Proof.
  apply (shutdown_halts w3 1 (sess_at w3 1)); [exact w3_stopped|vm_compute; reflexivity..].
Defined.

Lemma working_counts_witness : working w0 = 1%Z ∧
  ∃ W : gset nat, working w0 = Z.of_nat (size W) ∧
    ∀ r, r ∈ W ↔ ∃ R, heap w0 !! r = Some R ∧
      (phase R = PRun ∨ (∃ c, phase R = PFinish c) ∨ phase R = PFinishing).
Proof. split; [vm_compute; reflexivity|]. apply (working_counts w0). exact w0_reach. Defined.

Lemma hand_over_witness : Queue (sess_at w1 1) = [2; 3] ∧
  ∃ w' T', exec w1 (ARetire 1) = Some w' ∧ sess w' !! 1 = Some T' ∧
    Active T' = Some 2 ∧ Queue T' = [3] ∧ phase <$> heap w' !! 2 = Some (PLaunch false).
Proof.
  split; [vm_compute; reflexivity|].
  apply (hand_over w1 1 (run_at w1 1) 1 (sess_at w1 1) false);
    [exact w1_reach'|vm_compute; reflexivity..].
Defined.

Lemma send_queued_next_witness : ∃ a w' A1, Active (sess_at w1 1) = Some a ∧ exec w1 (ASend 3) = Some w' ∧
  heap w' !! a = Some A1 ∧ phase A1 = PFinish false ∧
  ∃ w'' T2, exec w' (ARetire a) = Some w'' ∧ sess w'' !! 1 = Some T2 ∧ Active T2 = Some 3.
Proof.
  destruct (send_queued_next w1 3 (run_at w1 3) 1 (sess_at w1 1)) as (a & w' & A1 & Ha & Hx & HA & _ & Hc);
    [exact w1_reach'|vm_compute; reflexivity..| |].
  { vm_compute. right. left. }
  exists a, w', A1. assert (Hp : phase A1 = PFinish false).
  { revert Ha Hx HA. vm_compute. intros [= <-] [= <-]. vm_compute. by intros [= <-]. }
  split_and!; try done. destruct (Hc false Hp) as (w'' & T2 & ? & ? & ? & _). eauto.
Defined.
End LiveRuns.
