(* ===== verification/Codec.v ===== *)
(** * encoding/hex, encoding/base64 and encoding/binary of the Go standard
    library, as the sealing package uses them

    Bytes are lists of [ascii].  Decoders take and refuse what Go's do:
    upper-case hex digits are read, base64 skips newlines, and [Strict]
    refuses spare bits. *)

From S2P Require Import Prelude GoStd.

Module Codec.
Import GoStd.

Definition bytes := list ascii.

Definition chr (n : Z) : ascii := ascii_of_N (Z.to_N n).

Lemma byte_of_range c : (0 ≤ byte_of c < 256)%Z.
Proof. unfold byte_of. pose proof (N_ascii_bounded c). lia. Qed.
Lemma chr_byte_of c : chr (byte_of c) = c.
Proof. unfold chr, byte_of. rewrite N2Z.id. apply ascii_N_embedding. Qed.
Lemma byte_of_chr n : (0 ≤ n < 256)%Z → byte_of (chr n) = n.
Proof. intros Hn. unfold chr, byte_of. rewrite N_ascii_embedding; lia. Qed.
Lemma chr_eq n c : n = byte_of c → chr n = c.
Proof. intros ->. apply chr_byte_of. Qed.
Lemma byte_of_inj c d : byte_of c = byte_of d → c = d.
Proof. intros H. by rewrite <- (chr_byte_of c), H, chr_byte_of. Qed.

(** A property of every byte, by cases. *)
Ltac each_byte c := destruct c as [[] [] [] [] [] [] [] []].

(** ** Hex *)

Definition hexDigit (n : Z) : ascii := if bool_decide (n < 10)%Z then chr (48 + n) else chr (87 + n).
Definition fromHexChar (c : ascii) : option Z :=
  let n := byte_of c in
  if bool_decide (48 ≤ n ≤ 57)%Z then Some (n - 48)%Z
  else if bool_decide (97 ≤ n ≤ 102)%Z then Some (n - 87)%Z
  else if bool_decide (65 ≤ n ≤ 70)%Z then Some (n - 55)%Z
  else None.

Definition hex_byte (c : ascii) : bytes :=
  [hexDigit (Z.shiftr (byte_of c) 4); hexDigit (Z.land (byte_of c) 15)].
Definition hex_bytes (b : bytes) : bytes := concat (hex_byte <$> b).

Fixpoint unhex (l : bytes) : option bytes :=
  match l with
  | [] => Some []
  | a :: b :: l =>
      x ← fromHexChar a; y ← fromHexChar b; r ← unhex l;
      Some (chr (16 * x + y) :: r)
  | _ => None
  end.

Definition EncodeToString (b : bytes) : string := string_of (hex_bytes b).
Definition DecodeString (s : string) : option bytes := unhex (bytes_of s).

Lemma unhex_byte c l : unhex (hex_byte c ++ l) = r ← unhex l; Some (c :: r).
Proof. each_byte c; cbn; by destruct (unhex l). Qed.

Lemma unhex_hex b : unhex (hex_bytes b) = Some b.
Proof.
  unfold hex_bytes. induction b as [|c b IH]; [done|]. cbn [fmap list_fmap concat].
  rewrite unhex_byte, IH. done.
Qed.

Lemma hex_roundtrip b : DecodeString (EncodeToString b) = Some b.
Proof. unfold DecodeString, EncodeToString. by rewrite bytes_of_string, unhex_hex. Qed.

Lemma hex_length b : String.length (EncodeToString b) = 2 * length b.
Proof.
  unfold EncodeToString. rewrite <- bytes_of_length.
  rewrite bytes_of_string. unfold hex_bytes. induction b as [|c b IH]; [done|]. cbn in *. lia.
Qed.

Definition lower_hex (c : ascii) : bool :=
  bool_decide (48 ≤ byte_of c ≤ 57)%Z || bool_decide (97 ≤ byte_of c ≤ 102)%Z.

Lemma hex_lower b : forallb lower_hex (bytes_of (EncodeToString b)) = true.
Proof.
  unfold EncodeToString. rewrite bytes_of_string. unfold hex_bytes. induction b as [|c b IH]; [done|].
  cbn [fmap list_fmap concat]. rewrite forallb_app, IH, andb_true_r. by each_byte c.
Qed.

Lemma unhex_length l b : unhex l = Some b → length l = 2 * length b.
Proof.
  revert b. induction l as [l IH] using (induction_ltof1 _ length). intros b.
  destruct l as [|x [|y l]]; cbn; [by intros [= <-]|done|].
  destruct (fromHexChar x); [|done]. destruct (fromHexChar y); [|done]. cbn.
  destruct (unhex l) as [r|] eqn:Hr; [|done]. cbn. intros [= <-].
  assert (Hl : length l = 2 * length r) by (apply IH; [unfold ltof; cbn; lia|done]). cbn. lia.
Qed.

(** ** Base64 *)

Record Encoding := mkEncoding { alphabet : string; padded : bool; strict : bool }.

Definition StdEncoding : Encoding :=
  mkEncoding "ABCDEFGHIJKLMNOPQRSTUVWXYZabcdefghijklmnopqrstuvwxyz0123456789+/" true false.
Definition RawStdEncoding : Encoding := mkEncoding (alphabet StdEncoding) false false.
Definition RawURLEncoding : Encoding :=
  mkEncoding "ABCDEFGHIJKLMNOPQRSTUVWXYZabcdefghijklmnopqrstuvwxyz0123456789-_" false false.
Definition Strict (e : Encoding) : Encoding := mkEncoding (alphabet e) (padded e) true.

Definition digit64 (e : Encoding) (n : Z) : ascii := default "A"%char (bytes_of (alphabet e) !! Z.to_nat n).
Definition index64 (e : Encoding) (c : ascii) : option Z :=
  (λ x, Z.of_nat x.1) <$> list_find (c =.) (bytes_of (alphabet e)).

Fixpoint encode64 (e : Encoding) (l : bytes) : bytes :=
  let d n := digit64 e n in
  match l with
  | a :: b :: c :: l =>
      let n := (65536 * byte_of a + 256 * byte_of b + byte_of c)%Z in
      d (n / 262144)%Z :: d (n / 4096 mod 64)%Z :: d (n / 64 mod 64)%Z :: d (n mod 64)%Z :: encode64 e l
  | [a; b] =>
      let n := (256 * byte_of a + byte_of b)%Z in
      [d (n / 1024)%Z; d (n / 16 mod 64)%Z; d (n mod 16 * 4)%Z] ++ (if padded e then ["="%char] else [])
  | [a] =>
      let n := byte_of a in
      [d (n / 4)%Z; d (n mod 4 * 16)%Z] ++ (if padded e then ["="%char; "="%char] else [])
  | [] => []
  end.

(** The last group of two or three digits. *)
Definition tail2 (e : Encoding) (x y : Z) : option bytes :=
  if strict e && negb (bool_decide (y mod 16 = 0)%Z) then None else Some [chr (4 * x + y / 16)].
Definition tail3 (e : Encoding) (x y z : Z) : option bytes :=
  if strict e && negb (bool_decide (z mod 4 = 0)%Z) then None
  else Some [chr (4 * x + y / 16); chr (y mod 16 * 16 + z / 4)].

Definition is_pad (e : Encoding) (c : ascii) : bool := padded e && bool_decide (c = "="%char).

Fixpoint decode64 (e : Encoding) (l : bytes) : option bytes :=
  match l with
  | [] => Some []
  | a :: b :: c :: d :: l =>
      x ← index64 e a; y ← index64 e b;
      if is_pad e c then
        if is_pad e d && bool_decide (l = []) then tail2 e x y else None
      else
        z ← index64 e c;
        if is_pad e d then if bool_decide (l = []) then tail3 e x y z else None
        else
          w ← index64 e d; r ← decode64 e l;
          Some (chr (4 * x + y / 16) :: chr (y mod 16 * 16 + z / 4) :: chr (z mod 4 * 64 + w) :: r)
  | [a; b; c] =>
      if padded e then None else x ← index64 e a; y ← index64 e b; z ← index64 e c; tail3 e x y z
  | [a; b] => if padded e then None else x ← index64 e a; y ← index64 e b; tail2 e x y
  | [_] => None
  end.

Definition newline (c : ascii) : bool := bool_decide (byte_of c = 10 ∨ byte_of c = 13)%Z.
Definition Encode64 (e : Encoding) (b : bytes) : string := string_of (encode64 e b).
Definition Decode64 (e : Encoding) (s : string) : option bytes :=
  decode64 e (List.filter (λ c, negb (newline c)) (bytes_of s)).

(** Standard base64 of the sealing package: its digits. *)
Definition std_digit (c : ascii) : bool :=
  let n := byte_of c in
  bool_decide (65 ≤ n ≤ 90)%Z || bool_decide (97 ≤ n ≤ 122)%Z || bool_decide (48 ≤ n ≤ 57)%Z ||
  bool_decide (n = 43)%Z || bool_decide (n = 47)%Z.

Definition sextets : list Z := Z.of_nat <$> seq 0 64.
Lemma sextet_in n : (0 ≤ n < 64)%Z → In n sextets.
Proof. intros Hn. apply list_elem_of_In, list_elem_of_fmap. exists (Z.to_nat n). split; [lia|]. apply elem_of_seq. lia. Qed.

Lemma std_digit64 n : (0 ≤ n < 64)%Z →
  std_digit (digit64 StdEncoding n) = true ∧ index64 StdEncoding (digit64 StdEncoding n) = Some n ∧
  digit64 StdEncoding n ≠ "="%char ∧ newline (digit64 StdEncoding n) = false.
Proof.
  intros Hn%sextet_in. revert n Hn. apply List.Forall_forall.
  repeat constructor; vm_compute; done.
Qed.

(** Every group of three bytes at a time. *)
Lemma triples_ind (P : bytes → Prop) :
  P [] → (∀ a, P [a]) → (∀ a b, P [a; b]) → (∀ a b c l, P l → P (a :: b :: c :: l)) → ∀ l, P l.
Proof.
  intros H0 H1 H2 H3 l. induction l as [l IH] using (induction_ltof1 _ length).
  destruct l as [|a [|b [|c l]]]; auto. apply H3, IH. unfold ltof. cbn. lia.
Qed.

Lemma digit_ok n : (0 ≤ n < 64)%Z →
  index64 StdEncoding (digit64 StdEncoding n) = Some n ∧
  (digit64 StdEncoding n =? "=")%char = false.
Proof.
  intros Hn. destruct (std_digit64 n Hn) as (_ & Hi & He & _). split; [done|]. by apply Ascii.eqb_neq.
Qed.

(** Bytes put together again from their bits. *)
Ltac same_bytes :=
  repeat match goal with
  | |- Some _ = Some _ => apply (f_equal Some)
  | |- _ :: _ = _ :: _ => apply (f_equal2 cons)
  end; try done; apply chr_eq; Z.to_euclidean_division_equations; lia.

Lemma decode_encode e l : e = StdEncoding ∨ e = Strict StdEncoding → decode64 e (encode64 e l) = Some l.
Proof.
  intros He. assert (Hd : ∀ n, digit64 e n = digit64 StdEncoding n) by (by destruct He as [->| ->]).
  assert (Hx : ∀ n, (0 ≤ n < 64)%Z → index64 e (digit64 StdEncoding n) = Some n ∧
                     is_pad e (digit64 StdEncoding n) = false).
  { intros n Hn. destruct (std_digit64 n Hn) as (_ & Hi & Hne & _).
    split; [by destruct He as [->| ->]|]. unfold is_pad. rewrite bool_decide_false by done. apply andb_false_r. }
  assert (Hp : padded e = true ∧ is_pad e "="%char = true) by (by destruct He as [->| ->]).
  destruct Hp as [Hp Hpe].
  induction l as [|a|a b|a b c l IH] using triples_ind; [done|..]; cbn [encode64]; rewrite ?Hp, ?Hd; cbn [app decode64].
  - pose proof (byte_of_range a).
    destruct (Hx (byte_of a / 4)%Z) as [-> _]; [Z.to_euclidean_division_equations; lia|].
    destruct (Hx (byte_of a mod 4 * 16)%Z) as [-> _]; [Z.to_euclidean_division_equations; lia|].
    cbn [mbind option_bind]. rewrite Hpe. cbn. unfold tail2.
    rewrite (bool_decide_true (_ = 0)%Z), andb_false_r by (Z.to_euclidean_division_equations; lia).
    same_bytes.
  - pose proof (byte_of_range a). pose proof (byte_of_range b).
    set (n := (256 * byte_of a + byte_of b)%Z).
    destruct (Hx (n / 1024)%Z) as [-> _]; [unfold n; Z.to_euclidean_division_equations; lia|].
    destruct (Hx (n / 16 mod 64)%Z) as [-> _]; [Z.to_euclidean_division_equations; lia|].
    destruct (Hx (n mod 16 * 4)%Z) as [-> ->]; [Z.to_euclidean_division_equations; lia|].
    cbn [mbind option_bind]. rewrite Hpe. cbn. unfold tail3.
    rewrite (bool_decide_true (_ = 0)%Z), andb_false_r by (Z.to_euclidean_division_equations; lia).
    unfold n. same_bytes.
  - pose proof (byte_of_range a). pose proof (byte_of_range b). pose proof (byte_of_range c).
    set (n := (65536 * byte_of a + 256 * byte_of b + byte_of c)%Z).
    destruct (Hx (n / 262144)%Z) as [-> _]; [unfold n; Z.to_euclidean_division_equations; lia|].
    destruct (Hx (n / 4096 mod 64)%Z) as [-> _]; [Z.to_euclidean_division_equations; lia|].
    destruct (Hx (n / 64 mod 64)%Z) as [-> ->]; [Z.to_euclidean_division_equations; lia|].
    destruct (Hx (n mod 64)%Z) as [-> ->]; [Z.to_euclidean_division_equations; lia|].
    cbn [mbind option_bind]. rewrite IH. cbn [mbind option_bind].
    unfold n. same_bytes.
Qed.

(** The characters of an encoding. *)
Lemma encode_chars l :
  ∃ ds p, encode64 StdEncoding l = ds ++ p ∧ forallb std_digit ds = true ∧
    (p = [] ∨ p = ["="%char] ∨ p = ["="%char; "="%char]) ∧ length (ds ++ p) `mod` 4 = 0 ∧
    (l ≠ [] → 2 ≤ length ds).
Proof.
  assert (Hd : ∀ n, (0 ≤ n < 64)%Z → std_digit (digit64 StdEncoding n) = true)
    by (intros n Hn; by apply std_digit64).
  induction l as [|a|a b|a b c l IH] using triples_ind; cbn [encode64 padded StdEncoding].
  - exists [], []. split_and!; auto. done.
  - pose proof (byte_of_range a). eexists [_; _], ["="%char; "="%char]. split; [done|]. split_and!; [|auto|done|cbn; lia].
    cbn [forallb]. rewrite !Hd by (Z.to_euclidean_division_equations; lia). done.
  - pose proof (byte_of_range a). pose proof (byte_of_range b).
    eexists [_; _; _], ["="%char]. split; [done|]. split_and!; [|auto|done|cbn; lia].
    cbn [forallb]. rewrite !Hd by (Z.to_euclidean_division_equations; lia). done.
  - destruct IH as (ds & p & -> & Hds & Hp & Hlen & _).
    pose proof (byte_of_range a). pose proof (byte_of_range b). pose proof (byte_of_range c).
    eexists (_ :: _ :: _ :: _ :: ds), p. split; [done|]. split_and!; [|done| |cbn; lia].
    + cbn [forallb]. rewrite !Hd by (Z.to_euclidean_division_equations; lia). done.
    + cbn [app length]. replace (S (S (S (S (length (ds ++ p)))))) with (length (ds ++ p) + 1 * 4) by lia.
      by rewrite Nat.Div0.mod_add.
Qed.

Lemma std_digit_plain c : std_digit c = true → newline c = false ∧ c ≠ "="%char ∧ (32 ≤ byte_of c < 127)%Z.
Proof. by each_byte c. Qed.

Lemma encode_no_newline l : forallb (λ c, negb (newline c)) (encode64 StdEncoding l) = true.
Proof.
  destruct (encode_chars l) as (ds & p & -> & Hds & Hp & _). rewrite forallb_app. apply andb_true_iff. split.
  - apply forallb_forall. intros c Hc. rewrite forallb_forall in Hds. specialize (Hds c Hc).
    by destruct (std_digit_plain c Hds) as [-> _].
  - by destruct Hp as [->|[->| ->]].
Qed.

Lemma base64_roundtrip e l : e = StdEncoding ∨ e = Strict StdEncoding →
  Decode64 e (Encode64 StdEncoding l) = Some l.
Proof.
  intros He. unfold Decode64, Encode64. rewrite bytes_of_string.
  assert (Hf : List.filter (λ c, negb (newline c)) (encode64 StdEncoding l) = encode64 StdEncoding l).
  { pose proof (encode_no_newline l) as Hn. induction (encode64 StdEncoding l) as [|c q IH]; [done|].
    cbn in Hn |- *. apply andb_true_iff in Hn as [-> Hn]. by rewrite IH. }
  rewrite Hf. replace (encode64 StdEncoding l) with (encode64 e l); [by apply decode_encode|].
  destruct He as [->| ->]; [done|]. clear Hf. induction l using triples_ind; cbn [encode64]; [done..|]. by rewrite IHl.
Qed.
End Codec.
