(* ===== verification/Aad.v ===== *)
(** * What ciphertexts and operations are bound to: internal/seal aad.go and
    ophash.go

    The canonical JSON of additional authenticated data and the canonical
    bytes of an operation.  A byte string decides what made it, so a
    ciphertext or a MAC made for one row, user or request is never one of
    another. *)

From S2P Require Import Prelude GoStd Codec.
From stdpp Require Import pretty sorting.

Module Aad.
Import GoStd Codec.

Definition AADDomain : string := "tinfoil-sync-envelope-v2".
Definition DEKWrapAADDomain : string := "tinfoil-dek-wrap-v2".
Definition BundleAADDomain : string := "tinfoil-key-bundle-v2".
Definition EnvelopeVersion : Z := 2.
Definition AlgAESGCM : string := "AES-256-GCM".
Definition ProfileSingletonID : string := "profile".

Definition ScopeChat : string := "chat".
Definition ScopeProfile : string := "profile".
Definition ScopeProject : string := "project".
Definition ScopeProjectDocument : string := "project_document".

Definition Valid (s : string) : bool :=
  bool_decide (s = ScopeChat ∨ s = ScopeProfile ∨ s = ScopeProject ∨ s = ScopeProjectDocument).

Record AAD := mkAAD { KeyIDHex : string; Scope : string; ID : string; ClerkUserID : string }.
Record BundleAAD := mkBundle { b_ClerkUserID : string; b_KeyIDHex : string; b_CredentialID : string }.

Inductive error := ErrAADInvalid | ErrNonFinite | ErrUnsupportedType | ErrOpHashKeyMaterial.

(** ** Canonical JSON *)

(** A value as Go's [any]: a float is its own type, told whether it is
    finite, integral within an [int64], and how [FormatFloat] writes it. *)
Record Float := mkFloat { isFinite : bool; integral : option Z; FormatFloat : string }.

Inductive value :=
  | Null
  | Bool (b : bool)
  | Str (s : string)
  | Int (n : Z)
  | Float64 (x : Float)
  | Number (s : string)
  | Object (m : list (string * value))
  | Array (l : list value)
  | Other.

Definition dq : ascii := "034"%char.
Definition backslash : ascii := "\"%char.

(** One byte of [writeJSONString]. *)
Definition escape (c : ascii) : bytes :=
  let n := byte_of c in
  if bool_decide (n = 34)%Z then [backslash; dq]
  else if bool_decide (n = 92)%Z then [backslash; backslash]
  else if bool_decide (n = 10)%Z then [backslash; "n"%char]
  else if bool_decide (n = 13)%Z then [backslash; "r"%char]
  else if bool_decide (n = 9)%Z then [backslash; "t"%char]
  else if bool_decide (n = 8)%Z then [backslash; "b"%char]
  else if bool_decide (n = 12)%Z then [backslash; "f"%char]
  else if bool_decide (n < 32)%Z then
    bytes_of "\u00" ++ [hexDigit (Z.shiftr n 4); hexDigit (Z.land n 15)]
  else [c].

Definition writeJSONString (buf : bytes) (s : string) : bytes :=
  buf ++ dq :: concat (escape <$> bytes_of s) ++ [dq].

Definition FormatInt (n : Z) : bytes := bytes_of (pretty n).

(** The values of an object or an array, with commas between. *)
Fixpoint commas (first : bool) (l : list bytes) : bytes :=
  match l with
  | [] => []
  | x :: l => (if first then [] else [","%char]) ++ x ++ commas false l
  end.

(** The first error of a list of writes, or all that they wrote. *)
Fixpoint all_ok {E A} (l : list (result E A)) : result E (list A) :=
  match l with
  | [] => Ok []
  | x :: l => x ← x; l ← all_ok l; Ok (x :: l)
  end.

Definition key_le {A} (x y : string * A) : Prop := String.leb x.1 y.1 = true.
#[export] Instance key_le_dec {A} (x y : string * A) : Decision (key_le x y).
Proof. unfold key_le. apply _. Defined.

Definition writeField (f : string * result error bytes) : result error bytes :=
  v ← f.2; Ok (writeJSONString [] f.1 ++ ":"%char :: v).

Fixpoint writeCanonicalValue (v : value) : result error bytes :=
  match v with
  | Null => Ok (bytes_of "null")
  | Bool true => Ok (bytes_of "true")
  | Bool false => Ok (bytes_of "false")
  | Str s => Ok (writeJSONString [] s)
  | Int n => Ok (FormatInt n)
  | Float64 x =>
      if negb (isFinite x) then Err ErrNonFinite
      else match integral x with
           | Some n => Ok (FormatInt n)
           | None => Ok (bytes_of (FormatFloat x))
           end
  | Number s => Ok (bytes_of s)
  | Object m =>
      fs ← all_ok (writeField <$> merge_sort key_le (map (λ kv, (kv.1, writeCanonicalValue kv.2)) m));
      Ok ("{"%char :: commas true fs ++ ["}"%char])
  | Array l =>
      vs ← all_ok (map writeCanonicalValue l);
      Ok ("["%char :: commas true vs ++ ["]"%char])
  | Other => Err ErrUnsupportedType
  end.

Definition marshalCanonical (fields : list (string * value)) : result error bytes :=
  fs ← all_ok ((λ kv, writeField (kv.1, writeCanonicalValue kv.2)) <$> fields);
  Ok ("{"%char :: commas true fs ++ ["}"%char]).

(** ** The three kinds of authenticated data *)

Definition isLowerHex (s : string) : bool := forallb lower_hex (bytes_of s).

(** What [CanonicalPayloadAAD] and [CanonicalDEKWrapAAD] check of a row. *)
Definition valid_row (a : AAD) : bool :=
  Valid (Scope a) && negb (bool_decide (ClerkUserID a = "")) &&
  negb (bool_decide (Scope a = ScopeProfile) && negb (bool_decide (ID a = ProfileSingletonID))) &&
  negb (bool_decide (ID a = "")).
Definition valid_kid (k : string) : bool := bool_decide (String.length k = 32) && isLowerHex k.

Definition CanonicalPayloadAAD (a : AAD) : result error bytes :=
  if negb (valid_row a) then Err ErrAADInvalid
  else marshalCanonical
    [("alg", Str AlgAESGCM); ("clerk_user_id", Str (ClerkUserID a)); ("domain", Str AADDomain);
     ("id", Str (ID a)); ("scope", Str (Scope a)); ("v", Int EnvelopeVersion)].

Definition CanonicalDEKWrapAAD (a : AAD) : result error bytes :=
  if negb (valid_row a && valid_kid (KeyIDHex a)) then Err ErrAADInvalid
  else marshalCanonical
    [("clerk_user_id", Str (ClerkUserID a)); ("domain", Str DEKWrapAADDomain); ("id", Str (ID a));
     ("kid", Str (KeyIDHex a)); ("scope", Str (Scope a)); ("v", Int EnvelopeVersion)].

Definition CanonicalBundleAAD (a : BundleAAD) : result error bytes :=
  if bool_decide (b_ClerkUserID a = "") || bool_decide (b_CredentialID a = "") || negb (valid_kid (b_KeyIDHex a))
  then Err ErrAADInvalid
  else marshalCanonical
    [("clerk_user_id", Str (b_ClerkUserID a)); ("credential_id", Str (b_CredentialID a));
     ("domain", Str BundleAADDomain); ("key_id", Str (b_KeyIDHex a))].

(** *** A canonical string is read back *)

(** Reads one byte of a JSON string; [None] at its closing quote. *)
Definition unescape (l : bytes) : option (ascii * bytes) :=
  match l with
  | [] => None
  | c :: l =>
      if Ascii.eqb c dq then None
      else if negb (Ascii.eqb c backslash) then Some (c, l)
      else match l with
           | [] => None
           | e :: l =>
               if Ascii.eqb e "n" then Some (chr 10, l)
               else if Ascii.eqb e "r" then Some (chr 13, l)
               else if Ascii.eqb e "t" then Some (chr 9, l)
               else if Ascii.eqb e "b" then Some (chr 8, l)
               else if Ascii.eqb e "f" then Some (chr 12, l)
               else if Ascii.eqb e "u" then
                 match l with
                 | _ :: _ :: h :: k :: l => x ← fromHexChar h; y ← fromHexChar k; Some (chr (16 * x + y), l)
                 | _ => None
                 end
               else Some (e, l)
           end
  end.

Lemma unescape_escape c l : unescape (escape c ++ l) = Some (c, l).
Proof. by each_byte c. Qed.

Lemma chars_inj s t x y :
  concat (escape <$> s) ++ dq :: x = concat (escape <$> t) ++ dq :: y → s = t ∧ x = y.
Proof.
  revert t. induction s as [|c s IH]; intros [|d t]; cbn [fmap list_fmap concat app].
  - intros [= ->]. done.
  - intros H. exfalso. apply (f_equal unescape) in H. rewrite <- app_assoc, unescape_escape in H. done.
  - intros H. exfalso. apply (f_equal unescape) in H. rewrite <- app_assoc, unescape_escape in H. done.
  - intros H. rewrite <- !app_assoc in H. pose proof (f_equal unescape H) as Hu.
    rewrite !unescape_escape in Hu. injection Hu as -> Hu. destruct (IH t Hu) as [-> ->]. done.
Qed.

Lemma json_string_inj s t x y :
  writeJSONString [] s ++ x = writeJSONString [] t ++ y → s = t ∧ x = y.
Proof.
  unfold writeJSONString. cbn [app]. rewrite <- !app_assoc. cbn [app].
  intros [= H]. apply chars_inj in H as [H ->]. split; [|done].
  by rewrite <- (string_of_bytes s), H, string_of_bytes.
Qed.

(** *** Fields of strings and of the version *)

Definition simple (f : string * value) : Prop :=
  match f.2 with Str _ => True | Int n => n = EnvelopeVersion | _ => False end.
Definition field_bytes (f : string * value) : bytes :=
  writeJSONString [] f.1 ++ ":"%char ::
    match f.2 with Str s => writeJSONString [] s | _ => FormatInt EnvelopeVersion end.

Lemma marshal_simple fs : Forall simple fs →
  marshalCanonical fs = Ok ("{"%char :: commas true (field_bytes <$> fs) ++ ["}"%char]).
Proof.
  intros Hfs. unfold marshalCanonical.
  assert (H : all_ok ((λ kv, writeField (kv.1, writeCanonicalValue kv.2)) <$> fs) = Ok (field_bytes <$> fs));
    [|by rewrite H].
  induction Hfs as [|[k v] fs Hf _ IH]; [done|]. cbn [fmap list_fmap all_ok].
  rewrite IH. destruct v; cbn in Hf; try done. by rewrite Hf.
Qed.

Lemma value_bytes_inj (v v' : value) k x y :
  simple (k, v) → simple (k, v') →
  match v with Str s => writeJSONString [] s | _ => FormatInt EnvelopeVersion end ++ x =
  match v' with Str s => writeJSONString [] s | _ => FormatInt EnvelopeVersion end ++ y →
  v = v' ∧ x = y.
Proof.
  intros H H' Heq. destruct v, v'; cbn in H, H'; try done.
  - by apply json_string_inj in Heq as [-> ->].
  - subst. vm_compute in Heq. by injection Heq as ->.
Qed.

Lemma commas_inj first fs gs x y :
  Forall simple fs → Forall simple gs →
  commas first (field_bytes <$> fs) ++ "}"%char :: x = commas first (field_bytes <$> gs) ++ "}"%char :: y →
  fs = gs.
Proof.
  intros Hfs. revert first gs. induction Hfs as [|[k v] fs Hf Hfs IH]; intros first gs Hgs;
    destruct Hgs as [|[k' v'] gs Hg Hgs]; cbn [fmap list_fmap commas]; [done| | |].
  - intros H. exfalso. destruct first; done.
  - intros H. exfalso. destruct first; done.
  - unfold field_bytes at 1 3. cbn [fst snd]. rewrite <- !app_assoc.
    intros H%app_inv_head. apply json_string_inj in H as [-> H]. cbn [app] in H. injection H as H.
    apply (value_bytes_inj v v' k') in H as [-> H]; [|done|done].
    by rewrite (IH _ _ Hgs H).
Qed.

Lemma marshal_inj fs gs b :
  Forall simple fs → Forall simple gs → marshalCanonical fs = Ok b → marshalCanonical gs = Ok b → fs = gs.
Proof.
  intros Hfs Hgs. rewrite !marshal_simple by done. intros [= <-] [= H].
  symmetry in H. by eapply commas_inj.
Qed.

(** The row an AAD binds: its owner, scope and id. *)
Definition row_of (a : AAD) : string * string * string := (ClerkUserID a, Scope a, ID a).

Lemma payload_inv a x : CanonicalPayloadAAD a = Ok x →
  marshalCanonical
    [("alg", Str AlgAESGCM); ("clerk_user_id", Str (ClerkUserID a)); ("domain", Str AADDomain);
     ("id", Str (ID a)); ("scope", Str (Scope a)); ("v", Int EnvelopeVersion)] = Ok x.
Proof. unfold CanonicalPayloadAAD. by destruct (valid_row a). Qed.
Lemma wrap_inv a x : CanonicalDEKWrapAAD a = Ok x →
  marshalCanonical
    [("clerk_user_id", Str (ClerkUserID a)); ("domain", Str DEKWrapAADDomain); ("id", Str (ID a));
     ("kid", Str (KeyIDHex a)); ("scope", Str (Scope a)); ("v", Int EnvelopeVersion)] = Ok x.
Proof. unfold CanonicalDEKWrapAAD. by destruct (_ && _). Qed.
Lemma bundle_inv a x : CanonicalBundleAAD a = Ok x →
  marshalCanonical
    [("clerk_user_id", Str (b_ClerkUserID a)); ("credential_id", Str (b_CredentialID a));
     ("domain", Str BundleAADDomain); ("key_id", Str (b_KeyIDHex a))] = Ok x.
Proof. unfold CanonicalBundleAAD. by destruct (_ || _ || _). Qed.

(** Two canonical field lists with the same bytes are the same. *)
Ltac same_fields H1 H2 :=
  let H := fresh "H" in
  pose proof (λ S1 S2, marshal_inj _ _ _ S1 S2 H1 H2) as H;
  specialize (H ltac:(repeat constructor) ltac:(repeat constructor));
  injection H; clear H; intros; subst.

Lemma payload_binds a b x : CanonicalPayloadAAD a = Ok x → CanonicalPayloadAAD b = Ok x → row_of a = row_of b.
Proof. intros Ha%payload_inv Hb%payload_inv. same_fields Ha Hb. unfold row_of. congruence. Qed.
Lemma wrap_binds a b x : CanonicalDEKWrapAAD a = Ok x → CanonicalDEKWrapAAD b = Ok x → a = b.
Proof. intros Ha%wrap_inv Hb%wrap_inv. same_fields Ha Hb. destruct a, b; cbn in *; congruence. Qed.

(** C8. Authenticated data decides what it binds: equal bytes are data of
    the same kind, and of the same owner, scope, row, key and credential. *)
Theorem aad_binds :
  (∀ a b x, CanonicalPayloadAAD a = Ok x → CanonicalPayloadAAD b = Ok x → row_of a = row_of b) ∧
  (∀ a b x, CanonicalDEKWrapAAD a = Ok x → CanonicalDEKWrapAAD b = Ok x → a = b) ∧
  (∀ a b x, CanonicalBundleAAD a = Ok x → CanonicalBundleAAD b = Ok x → a = b) ∧
  (∀ a b c x y z, CanonicalPayloadAAD a = Ok x → CanonicalDEKWrapAAD b = Ok y → CanonicalBundleAAD c = Ok z →
     x ≠ y ∧ y ≠ z ∧ x ≠ z).
Proof.
  split_and!.
  - apply payload_binds.
  - apply wrap_binds.
  - intros a b x Ha%bundle_inv Hb%bundle_inv. same_fields Ha Hb. destruct a, b; cbn in *; congruence.
  - intros a b c x y z Ha%payload_inv Hb%wrap_inv Hc%bundle_inv.
    split_and!; intros <-; [same_fields Ha Hb|same_fields Hb Hc|same_fields Ha Hc]; done.
Qed.

Definition aad0 : AAD := mkAAD "0123456789abcdef0123456789abcdef" "chat" "row-1" "user_1".
Example payload0 :
  (λ b, string_of (map (λ c, if Ascii.eqb c dq then "'"%char else c) b)) <$> CanonicalPayloadAAD aad0 =
  Ok "{'alg':'AES-256-GCM','clerk_user_id':'user_1','domain':'tinfoil-sync-envelope-v2','id':'row-1','scope':'chat','v':2}"%string.
Proof. reflexivity. Qed.

Lemma aad_binds_witness : ∃ x, CanonicalDEKWrapAAD aad0 = Ok x ∧
  ∀ b, CanonicalDEKWrapAAD b = Ok x → b = aad0.
Proof.
  eexists. split; [vm_compute; reflexivity|]. intros b Hb.
  apply (proj1 (proj2 aad_binds) b aad0 _ Hb). vm_compute. reflexivity.
Defined.

(** ** The operation hash *)

(** What the package uses of [crypto/hmac], [crypto/sha256] and
    [x/crypto/hkdf]. *)
Class Mac := {
  HMAC_SHA256 : bytes → bytes → bytes;
  hkdf : bytes → string → nat → bytes;
  hmac_size k m : length (HMAC_SHA256 k m) = 32;
  hkdf_size k info n : length (hkdf k info n) = n;
}.

Definition KeySize : nat := 32.
Definition opHashInfo : string := "tinfoil-op-hash-v1".
Definition opHashKeySize : nat := 32.

(** Bytes that may be [nil] are optional; [Body] is only ever read. *)
Record CanonicalInput := mkInput {
  Method : string;
  Path : string;
  c_KeyIDHex : string;
  IfMatch : string;
  IdempotencyKey : string;
  Body : bytes;
  in_AAD : option bytes;
  Envelope : option bytes;
  ProfileSyncProtocol : string;
}.

(** [binary.BigEndian.PutUint32] of a length, an [int]. *)
Definition PutUint32 (n : Z) : bytes :=
  let n := (n mod 4294967296)%Z in
  [chr (Z.shiftr n 24 mod 256); chr (Z.shiftr n 16 mod 256); chr (Z.shiftr n 8 mod 256); chr (n mod 256)].

Definition appendLenPrefixed (dst b : bytes) : bytes := dst ++ PutUint32 (Z.of_nat (length b)) ++ b.

Definition extended (c : CanonicalInput) : bool :=
  bool_decide (in_AAD c ≠ None) || bool_decide (Envelope c ≠ None) ||
  negb (bool_decide (ProfileSyncProtocol c = "")).

Definition AppendCanonical (dst : bytes) (c : CanonicalInput) : bytes :=
  let dst := appendLenPrefixed dst (bytes_of (Method c)) in
  let dst := appendLenPrefixed dst (bytes_of (Path c)) in
  let dst := appendLenPrefixed dst (bytes_of (c_KeyIDHex c)) in
  let dst := appendLenPrefixed dst (bytes_of (IfMatch c)) in
  let dst := appendLenPrefixed dst (bytes_of (IdempotencyKey c)) in
  let dst := appendLenPrefixed dst (Body c) in
  let dst :=
    if extended c then
      appendLenPrefixed (appendLenPrefixed dst (default [] (in_AAD c))) (default [] (Envelope c))
    else dst in
  if negb (bool_decide (ProfileSyncProtocol c = ""))
  then appendLenPrefixed dst (bytes_of (ProfileSyncProtocol c)) else dst.

Section OpHash.
Context `{MC : Mac}.

Definition DeriveOpHashKey (cek : bytes) : result error bytes :=
  if negb (bool_decide (length cek = KeySize)) then Err ErrOpHashKeyMaterial
  else Ok (hkdf cek opHashInfo opHashKeySize).

Definition ComputeOperationHash (opKey : bytes) (c : CanonicalInput) : string :=
  EncodeToString (HMAC_SHA256 opKey (AppendCanonical [] c)).

Definition VerifyOperationHash (cek : bytes) (provided : string) (c : CanonicalInput) : result error bool :=
  opKey ← DeriveOpHashKey cek;
  match DecodeString provided with
  | Some want =>
      if negb (bool_decide (length want = 32)) then Ok false
      else Ok (bool_decide (HMAC_SHA256 opKey (AppendCanonical [] c) = want))
  | None => Ok false
  end.
End OpHash.

(** *** The canonical bytes decide the operation *)

Definition op_fields (c : CanonicalInput) : list bytes :=
  [bytes_of (Method c); bytes_of (Path c); bytes_of (c_KeyIDHex c); bytes_of (IfMatch c);
   bytes_of (IdempotencyKey c); Body c] ++
  (if extended c then [default [] (in_AAD c); default [] (Envelope c)] else []) ++
  (if bool_decide (ProfileSyncProtocol c = "") then [] else [bytes_of (ProfileSyncProtocol c)]).

Lemma append_fields dst c :
  AppendCanonical dst c = dst ++ concat ((λ b, PutUint32 (Z.of_nat (length b)) ++ b) <$> op_fields c).
Proof.
  unfold AppendCanonical, op_fields, appendLenPrefixed.
  destruct (extended c), (bool_decide (ProfileSyncProtocol c = "")); cbn [negb app fmap list_fmap concat];
    rewrite <- !app_assoc; cbn [app]; by rewrite ?app_nil_r.
Qed.

Definition fits (b : bytes) : Prop := (Z.of_nat (length b) < 4294967296)%Z.

Lemma PutUint32_inj m n : (0 ≤ m < 4294967296)%Z → (0 ≤ n < 4294967296)%Z → PutUint32 m = PutUint32 n → m = n.
Proof.
  intros Hm Hn. unfold PutUint32. rewrite (Z.mod_small m), (Z.mod_small n) by done.
  rewrite !Z.shiftr_div_pow2 by lia.
  intros H.
  assert (Hb : ∀ x y, chr (x mod 256) = chr (y mod 256) → (x mod 256 = y mod 256)%Z).
  { intros x y Hc. apply (f_equal byte_of) in Hc. rewrite !byte_of_chr in Hc; [done|apply Z.mod_pos_bound; lia..]. }
  assert (H1 := f_equal (λ l, nth 0 l "000"%char) H). assert (H2 := f_equal (λ l, nth 1 l "000"%char) H).
  assert (H3 := f_equal (λ l, nth 2 l "000"%char) H). assert (H4 := f_equal (λ l, nth 3 l "000"%char) H).
  cbn [nth] in H1, H2, H3, H4. apply Hb in H1, H2, H3, H4. clear H Hb.
  change (2 ^ 24)%Z with 16777216%Z in *. change (2 ^ 16)%Z with 65536%Z in *. change (2 ^ 8)%Z with 256%Z in *.
  Z.to_euclidean_division_equations. lia.
Qed.

Lemma prefixed_inj a b x y : fits a → fits b →
  (PutUint32 (Z.of_nat (length a)) ++ a) ++ x = (PutUint32 (Z.of_nat (length b)) ++ b) ++ y → a = b ∧ x = y.
Proof.
  intros Ha Hb. rewrite <- !app_assoc. intros H.
  apply app_inj_1 in H as [Hl H]; [|done]. apply PutUint32_inj in Hl; [|unfold fits in *; lia..].
  apply app_inj_1 in H; [done|lia].
Qed.

Lemma fields_inj xs ys : Forall fits xs → Forall fits ys →
  concat ((λ b, PutUint32 (Z.of_nat (length b)) ++ b) <$> xs) =
  concat ((λ b, PutUint32 (Z.of_nat (length b)) ++ b) <$> ys) → xs = ys.
Proof.
  intros Hx. revert ys. induction Hx as [|x xs Hx Hxs IH]; intros ys Hys; destruct Hys as [|y ys Hy Hys];
    cbn [fmap list_fmap concat]; [done|done|done|].
  intros H. apply prefixed_inj in H as [-> H]; [|done|done]. by rewrite (IH ys Hys H).
Qed.

(** What the canonical bytes keep of an operation: all but whether absent
    bytes are [nil] or empty. *)
Definition op_of (c : CanonicalInput) :=
  (Method c, Path c, c_KeyIDHex c, IfMatch c, IdempotencyKey c, Body c, extended c,
   default [] (in_AAD c), default [] (Envelope c), ProfileSyncProtocol c).

Lemma bytes_of_inj s t : bytes_of s = bytes_of t → s = t.
Proof. intros H. by rewrite <- (string_of_bytes s), H, string_of_bytes. Qed.

Lemma canonical_inj a b : Forall fits (op_fields a) → Forall fits (op_fields b) →
  AppendCanonical [] a = AppendCanonical [] b → op_of a = op_of b.
Proof.
  intros Ha Hb. rewrite !append_fields. cbn [app]. intros H%fields_inj; [|done|done]. clear Ha Hb.
  assert (Hx : ∀ c, extended c = false → in_AAD c = None ∧ Envelope c = None ∧ ProfileSyncProtocol c = "").
  { intros c. unfold extended. intros [[H1 H2]%orb_false_iff H3]%orb_false_iff.
    apply bool_decide_eq_false in H1, H2. apply negb_false_iff, bool_decide_eq_true in H3.
    destruct (in_AAD c), (Envelope c); naive_solver. }
  unfold op_of. unfold op_fields in H.
  destruct (extended a) eqn:Ea, (extended b) eqn:Eb;
    try (destruct (Hx a Ea) as (Ea1 & Ea2 & Ea3); rewrite Ea1, Ea2, Ea3 in * );
    try (destruct (Hx b Eb) as (Eb1 & Eb2 & Eb3); rewrite Eb1, Eb2, Eb3 in * );
    repeat case_bool_decide; cbn [app] in H; try done;
    injection H; clear H; intros;
    repeat match goal with H : bytes_of _ = bytes_of _ |- _ => apply bytes_of_inj in H end; congruence.
Qed.

(** A request's own hash is accepted, and a hash accepted for a request
    was computed for its method, path, key, precondition, idempotency key,
    body, authenticated data, envelope and protocol, unless the two MACs
    collide. *)
Theorem op_hash_binds `{MC : Mac} cek opKey a b :
  DeriveOpHashKey cek = Ok opKey →
  Forall fits (op_fields a) → Forall fits (op_fields b) →
  (HMAC_SHA256 opKey (AppendCanonical [] a) = HMAC_SHA256 opKey (AppendCanonical [] b) →
   AppendCanonical [] a = AppendCanonical [] b) →
  VerifyOperationHash cek (ComputeOperationHash opKey a) a = Ok true ∧
  (VerifyOperationHash cek (ComputeOperationHash opKey b) a = Ok true ↔ op_of a = op_of b).
Proof.
  intros Hk Ha Hb Hcoll. unfold VerifyOperationHash, ComputeOperationHash. rewrite Hk. cbn [mbind result_bind].
  rewrite !hex_roundtrip, !hmac_size, (bool_decide_true (32 = 32)) by done. cbn [negb].
  split; [by rewrite bool_decide_true by done|].
  split.
  - intros [= H%bool_decide_eq_true]. by apply canonical_inj, Hcoll.
  - intros H. rewrite bool_decide_true; [done|]. f_equal. rewrite !append_fields. cbn [app]. do 2 f_equal.
    unfold op_of in H. injection H as H1 H2 H3 H4 H5 H6 H7 H8 H9 H10. unfold op_fields.
    by rewrite H1, H2, H3, H4, H5, H6, H7, H8, H9, H10.
Qed.

(** A MAC of the bytes' sum, for the witness. *)
Lemma take_pad_length (l : bytes) n : length (take n (l ++ replicate n "0"%char)) = n.
Proof. rewrite length_take, length_app, length_replicate. lia. Qed.
Definition toy_mac : Mac := {|
  HMAC_SHA256 k m := take 32 (rev m ++ replicate 32 "0"%char);
  hkdf k info n := take n (k ++ replicate n "0"%char);
  hmac_size k m := take_pad_length (rev m) 32;
  hkdf_size k info n := take_pad_length k n;
|}.

Definition put0 (body : bytes) : CanonicalInput :=
  mkInput "PUT" "/rows/chat/row-1" "0123456789abcdef0123456789abcdef" "3" "k-1" body (Some (bytes_of "aad")) None "".

Lemma op_hash_binds_witness : ∃ opKey,
  @VerifyOperationHash toy_mac (replicate 32 "k"%char)
    (@ComputeOperationHash toy_mac opKey (put0 (bytes_of "one"))) (put0 (bytes_of "one")) = Ok true ∧
  @VerifyOperationHash toy_mac (replicate 32 "k"%char)
    (@ComputeOperationHash toy_mac opKey (put0 (bytes_of "two"))) (put0 (bytes_of "one")) ≠ Ok true.
Proof.
  eexists. destruct (@op_hash_binds toy_mac (replicate 32 "k"%char) (replicate 32 "k"%char)
    (put0 (bytes_of "one")) (put0 (bytes_of "two"))) as [H1 H2].
  - vm_compute. reflexivity.
  - repeat constructor; vm_compute; reflexivity.
  - repeat constructor; vm_compute; reflexivity.
  - vm_compute. done.
  - split; [exact H1|]. intros H. apply H2 in H. discriminate H.
Defined.
End Aad.
