(* ===== verification/Seal.v ===== *)
(** * Sealing: internal/seal keyid.go, aesgcm.go, searchkey.go, envelope.go
    and share.go

    Keys derived from the caller's key, the envelope a row is stored in, the
    two formats older clients stored, and shared chats.  AES-GCM and gzip are
    parameters with their documented laws, and so is the JSON syntax; what
    the package does with the documents it parses is defined here.  The
    random bytes a function draws are its inputs. *)

From S2P Require Import Prelude GoStd Codec Aad.

Module Seal.
Import GoStd Codec Aad.

(** ** What the package calls *)

(** AES-256-GCM of [crypto/cipher] under a 32-byte key and a 12-byte nonce,
    and whole gzip streams of [compress/gzip]. *)
Class Crypto := {
  gcm_seal : bytes → bytes → bytes → bytes → bytes;
  gcm_open : bytes → bytes → bytes → bytes → option bytes;
  gcm_open_seal k n p a : gcm_open k n (gcm_seal k n p a) a = Some p;
  gcm_tag k n p a : 16 ≤ length (gcm_seal k n p a);
  gzipBytes : bytes → bytes;
  gunzip_all : bytes → option bytes;
  gunzip_gzip p : gunzip_all (gzipBytes p) = Some p;
}.

(** A JSON document; a number keeps its literal. *)
Inductive doc :=
  | DNull
  | DBool (b : bool)
  | DNum (lit : string)
  | DStr (s : string)
  | DArr (l : list doc)
  | DObj (ms : list (string * doc)).

(** Characters that JSON strings hold as they are. *)
Definition plain_char (c : ascii) : bool :=
  let n := byte_of c in
  bool_decide (32 ≤ n < 127)%Z && negb (bool_decide (n = 34 ∨ n = 38 ∨ n = 60 ∨ n = 62 ∨ n = 92)%Z).
Definition plain (s : string) : bool := forallb plain_char (bytes_of s).
Definition plain_member (m : string * doc) : Prop :=
  plain m.1 = true ∧ match m.2 with DStr s => plain s = true | DNum s => s = "2" | _ => False end.

(** [encoding/json]: the syntax, and the case folding of member names. *)
Class Json := {
  parse : bytes → option doc;
  MarshalObject : list (string * doc) → bytes;
  EqualFold : string → string → bool;
  parse_marshal ms : Forall plain_member ms → parse (MarshalObject ms) = Some (DObj ms);
  marshal_nonempty ms : MarshalObject ms ≠ [];
  fold_names s t : s ∈ ["v"; "alg"; "kid"; "wdek"; "wiv"; "iv"; "ct"; "data"]%string →
    t ∈ ["v"; "alg"; "kid"; "wdek"; "wiv"; "iv"; "ct"; "data"]%string → EqualFold s t = bool_decide (s = t);
}.

(** ** Errors *)

Inductive error :=
  | ErrKeySize
  | ErrKeyIDSize
  | ErrHex
  | ErrCipher
  | ErrOpen
  | ErrSearchKeyMaterial
  | ErrUnknownFormat
  | ErrV2Malformed
  | ErrV0Malformed
  | ErrV1Malformed
  | ErrNoMatchingKey
  | ErrLegacyDecrypt
  | ErrUnsupportedAlg
  | ErrPlaintextTooLarge
  | ErrShareTooLarge
  | ErrShareInvalid
  | ErrGunzip
  | ErrAAD (e : Aad.error).
Definition from_aad {A} (r : result Aad.error A) : result error A :=
  match r with Ok a => Ok a | Err e => Err (ErrAAD e) end.

(** ** keyid.go and searchkey.go *)

Definition KeyIDSize : nat := 16.
Definition keyIDInfo : string := "tinfoil-key-id-v1".
Definition searchIndexKeyInfo : string := "tinfoil-search-index-v1".
Definition searchIndexKeySize : nat := 32.

Section Keys.
Context `{MC : Mac}.
Definition DeriveKeyID (key : bytes) : result error bytes :=
  if negb (bool_decide (length key = KeySize)) then Err ErrKeySize
  else Ok (hkdf key keyIDInfo KeyIDSize).
Definition DeriveSearchIndexKey (cek : bytes) : result error bytes :=
  if negb (bool_decide (length cek = KeySize)) then Err ErrSearchKeyMaterial
  else Ok (hkdf cek searchIndexKeyInfo searchIndexKeySize).
End Keys.

Definition KeyIDHex_of (id : bytes) : string := EncodeToString id.
Definition ParseKeyIDHex (s : string) : result error bytes :=
  if negb (bool_decide (String.length s = KeyIDSize * 2)) then Err ErrKeyIDSize
  else match DecodeString s with Some b => Ok b | None => Err ErrHex end.
(** [Zero]: the bytes of a slice, zeroed. *)
Definition Zero (b : bytes) : bytes := (λ _, "000"%char) <$> b.

Section Seal.
Context `{CR : Crypto} `{JS : Json}.

(** ** aesgcm.go *)

Definition NonceSize : nat := 12.
Definition TagSize : nat := 16.

(** Seals under the nonce drawn. *)
Definition GCMSeal (key plaintext aad nonce : bytes) : result error (bytes * bytes) :=
  if negb (bool_decide (length key = KeySize)) then Err ErrKeySize
  else Ok (nonce, gcm_seal key nonce plaintext aad).

Definition GCMOpen (key nonce ciphertext aad : bytes) : result error bytes :=
  if negb (bool_decide (length key = KeySize)) then Err ErrKeySize
  else if negb (bool_decide (length nonce = NonceSize)) then Err ErrCipher
  else match gcm_open key nonce ciphertext aad with Some p => Ok p | None => Err ErrOpen end.

(** ** envelope.go *)

Inductive Version := VersionUnknown | VersionV0 | VersionV1 | VersionV2.
#[global] Instance Version_eq_dec : EqDecision Version.
Proof. solve_decision. Defined.

Record V2 := mkV2 {
  V : Z; Alg : string; KID : string; WDEK : string; WIV : string; IV : string; CT : string;
}.
Record legacyV0 := mkV0 { v0_IV : string; v0_Data : string }.
Record Key := mkKey { Bytes : bytes; k_KeyIDHex : string }.
Record DecryptResult := mkResult { Plaintext : bytes; r_KeyIDHex : string; r_Version : Version; NeedsRewrap : bool }.

Definition MaxPlaintextBytes : Z := 32 * 1024 * 1024.

(** How [json.Unmarshal] sets a struct's fields, one member at a time; a
    member of another type is an error, and [null] leaves a field as it is
    but clears a pointer. *)
Definition set_field {A} (conv : option A → doc → option A) (name : string) (zero : A) (ms : list (string * doc))
  : option A :=
  foldl (λ acc m, if EqualFold m.1 name then conv acc m.2 else acc) (Some zero) ms.
Definition put {A} (x : A) (acc : option A) : option A := (λ _, x) <$> acc.
Definition as_string (acc : option string) (d : doc) : option string :=
  match d with DNull => acc | DStr s => put s acc | _ => None end.
Definition as_int (acc : option Z) (d : doc) : option Z :=
  match d with DNull => acc | DNum s => n ← Atoi s; put n acc | _ => None end.
Definition as_string_ptr (acc : option (option string)) (d : doc) : option (option string) :=
  match d with DNull => put None acc | DStr s => put (Some s) acc | _ => None end.
Definition as_int_ptr (acc : option (option Z)) (d : doc) : option (option Z) :=
  match d with DNull => put None acc | DNum s => n ← Atoi s; put (Some n) acc | _ => None end.

(** The members of the document a struct is read from. *)
Definition members (blob : bytes) : option (list (string * doc)) :=
  match parse blob with
  | Some (DObj ms) => Some ms
  | Some DNull => Some []
  | _ => None
  end.

Definition unmarshalV2 (blob : bytes) : option V2 :=
  ms ← members blob;
  v ← set_field as_int "v" 0%Z ms;
  alg ← set_field as_string "alg" "" ms;
  kid ← set_field as_string "kid" "" ms;
  wdek ← set_field as_string "wdek" "" ms;
  wiv ← set_field as_string "wiv" "" ms;
  iv ← set_field as_string "iv" "" ms;
  ct ← set_field as_string "ct" "" ms;
  Some (mkV2 v alg kid wdek wiv iv ct).

Definition looksLikeV2 (blob : bytes) : bool :=
  match ms ← members blob; set_field as_int "v" 0%Z ms with
  | Some v => bool_decide (v = 2)%Z
  | None => false
  end.

Definition looksLikeV0 (blob : bytes) : bool :=
  match ms ← members blob;
        v ← set_field as_int_ptr "v" None ms;
        iv ← set_field as_string_ptr "iv" None ms;
        data ← set_field as_string_ptr "data" None ms; Some (v, iv, data) with
  | Some (None, Some _, Some _) => true
  | _ => false
  end.

Definition Detect (blob : bytes) : Version :=
  if bool_decide (blob = []) then VersionUnknown
  else if looksLikeV2 blob then VersionV2
  else if looksLikeV0 blob then VersionV0
  else if bool_decide (NonceSize + TagSize ≤ length blob) then VersionV1
  else VersionUnknown.

(** A gzip stream read up to one byte past the limit. *)
Definition gunzip (compressed : bytes) : result error bytes :=
  match gunzip_all compressed with
  | Some out => if bool_decide (MaxPlaintextBytes < Z.of_nat (length out))%Z then Err ErrGunzip else Ok out
  | None => Err ErrGunzip
  end.

(** [json.Marshal] of the envelope. *)
Definition marshalV2 (e : V2) : bytes :=
  MarshalObject [("v", DNum "2"); ("alg", DStr (Alg e)); ("kid", DStr (KID e)); ("wdek", DStr (WDEK e));
    ("wiv", DStr (WIV e)); ("iv", DStr (IV e)); ("ct", DStr (CT e))].

(** Seals under the data key and the two nonces drawn. *)
Definition Encrypt (key plaintext : bytes) (aad : AAD) (dek payload_nonce wrap_nonce : bytes)
  : result error bytes :=
  if negb (bool_decide (length key = KeySize)) then Err ErrKeySize
  else
    payloadAAD ← from_aad (CanonicalPayloadAAD aad);
    wrapAAD ← from_aad (CanonicalDEKWrapAAD aad);
    if bool_decide (MaxPlaintextBytes < Z.of_nat (length plaintext))%Z then Err ErrPlaintextTooLarge
    else
      '(payloadIV, payloadCT) ← GCMSeal dek (gzipBytes plaintext) payloadAAD payload_nonce;
      '(wrapIV, wrappedDEK) ← GCMSeal key dek wrapAAD wrap_nonce;
      Ok (marshalV2 (mkV2 2 AlgAESGCM (KeyIDHex aad) (Encode64 StdEncoding wrappedDEK)
        (EncodeToString wrapIV) (EncodeToString payloadIV) (Encode64 StdEncoding payloadCT))).

Definition isCanonicalStdBase64 (s : string) : bool :=
  let l := bytes_of s in
  let n := length l in
  if bool_decide (n = 0) || negb (bool_decide (n `mod` 4 = 0)) then false
  else
    let pad :=
      if bool_decide (l !! (n - 1) = Some "="%char)
      then if bool_decide (l !! (n - 2) = Some "="%char) then 2 else 1
      else 0 in
    forallb std_digit (take (n - pad) l).

Definition or_else {A} (o : option A) (e : error) : result error A :=
  match o with Some a => Ok a | None => Err e end.

(** The first key of the id. *)
Definition find_key (keys : list Key) (kid : string) : option Key :=
  List.find (λ k, bool_decide (k_KeyIDHex k = kid)) keys.

Definition DecryptV2 (blob : bytes) (keys : list Key) (aad : AAD) : result error DecryptResult :=
  env ← or_else (unmarshalV2 blob) ErrV2Malformed;
  if negb (bool_decide (V env = 2)%Z) then Err ErrV2Malformed
  else if negb (bool_decide (Alg env = AlgAESGCM)) then Err ErrUnsupportedAlg
  else if negb (valid_kid (KID env)) then Err ErrV2Malformed
  else if negb (bool_decide (String.length (IV env) = NonceSize * 2)) ||
          negb (bool_decide (String.length (WIV env) = NonceSize * 2)) then Err ErrV2Malformed
  else
    iv ← or_else (DecodeString (IV env)) ErrV2Malformed;
    wrapIV ← or_else (DecodeString (WIV env)) ErrV2Malformed;
    if negb (isCanonicalStdBase64 (CT env)) || negb (isCanonicalStdBase64 (WDEK env)) then Err ErrV2Malformed
    else
      ct ← or_else (Decode64 (Strict StdEncoding) (CT env)) ErrV2Malformed;
      wrappedDEK ← or_else (Decode64 (Strict StdEncoding) (WDEK env)) ErrV2Malformed;
      match_ ← or_else (find_key keys (KID env)) ErrNoMatchingKey;
      wrapAAD ← from_aad (CanonicalDEKWrapAAD (mkAAD (KID env) (Scope aad) (ID aad) (ClerkUserID aad)));
      dek ← GCMOpen (Bytes match_) wrapIV wrappedDEK wrapAAD;
      if negb (bool_decide (length dek = KeySize)) then Err ErrV2Malformed
      else
        payloadAAD ← from_aad (CanonicalPayloadAAD aad);
        compressed ← GCMOpen dek iv ct payloadAAD;
        match gunzip compressed with
        | Ok pt => Ok (mkResult pt (KID env) VersionV2 false)
        | Err _ => Err ErrV2Malformed
        end.

(** Tries each decoding in turn, for the wanted length. *)
Definition decodeBase64OrHex (s : string) (want : nat) : option bytes :=
  let take_if (o : option bytes) (rest : option bytes) :=
    match o with Some b => if bool_decide (length b = want) then Some b else rest | None => rest end in
  take_if (Decode64 StdEncoding s)
    (take_if (Decode64 RawStdEncoding s)
      (take_if (Decode64 RawURLEncoding s)
        (take_if (DecodeString s) None))).

Definition unmarshalV0 (blob : bytes) : option legacyV0 :=
  ms ← members blob;
  iv ← set_field as_string "iv" "" ms;
  data ← set_field as_string "data" "" ms;
  Some (mkV0 iv data).

(** The loops over the caller's keys. *)
Fixpoint try_v0 (keys : list Key) (iv ct : bytes) : result error DecryptResult :=
  match keys with
  | [] => Err ErrLegacyDecrypt
  | k :: keys =>
      if negb (bool_decide (length (Bytes k) = KeySize)) then try_v0 keys iv ct
      else match GCMOpen (Bytes k) iv ct [] with
           | Ok pt => Ok (mkResult pt (k_KeyIDHex k) VersionV0 true)
           | Err _ => try_v0 keys iv ct
           end
  end.
Fixpoint try_v1 (keys : list Key) (iv ct : bytes) : result error DecryptResult :=
  match keys with
  | [] => Err ErrLegacyDecrypt
  | k :: keys =>
      if negb (bool_decide (length (Bytes k) = KeySize)) then try_v1 keys iv ct
      else match GCMOpen (Bytes k) iv ct [] with
           | Err _ => try_v1 keys iv ct
           | Ok compressed =>
               match gunzip compressed with
               | Ok pt => Ok (mkResult pt (k_KeyIDHex k) VersionV1 true)
               | Err _ => Err ErrV1Malformed
               end
           end
  end.

Definition decryptV0 (blob : bytes) (keys : list Key) : result error DecryptResult :=
  raw ← or_else (unmarshalV0 blob) ErrV0Malformed;
  if bool_decide (v0_IV raw = "") || bool_decide (v0_Data raw = "") then Err ErrV0Malformed
  else
    iv ← or_else (decodeBase64OrHex (v0_IV raw) NonceSize) ErrV0Malformed;
    ct ← or_else (match Decode64 StdEncoding (v0_Data raw) with
                  | Some ct => Some ct
                  | None => Decode64 RawURLEncoding (v0_Data raw)
                  end) ErrV0Malformed;
    try_v0 keys iv ct.

Definition decryptV1 (blob : bytes) (keys : list Key) : result error DecryptResult :=
  if bool_decide (length blob < NonceSize + TagSize) then Err ErrV1Malformed
  else try_v1 keys (take NonceSize blob) (drop NonceSize blob).

Definition DecryptLegacy (blob : bytes) (keys : list Key) : result error DecryptResult :=
  match Detect blob with
  | VersionV0 => decryptV0 blob keys
  | VersionV1 => decryptV1 blob keys
  | _ => Err ErrUnknownFormat
  end.

(** ** share.go *)

Definition MaxSharePlaintextBytes : Z := Z.shiftl 32 20.
Definition MaxShareBytes : Z := MaxSharePlaintextBytes + Z.shiftl 1 20.

(** Seals under the key and the nonce drawn. *)
Definition SealShare (plaintext key nonce : bytes) : result error (bytes * string) :=
  if bool_decide (MaxSharePlaintextBytes < Z.of_nat (length plaintext))%Z then Err ErrShareTooLarge
  else
    '(nonce, ciphertext) ← GCMSeal key (gzipBytes plaintext) [] nonce;
    let sealed := nonce ++ ciphertext in
    if bool_decide (MaxShareBytes < Z.of_nat (length sealed))%Z then Err ErrShareTooLarge
    else Ok (sealed, EncodeToString key).

Definition OpenShare (key : string) (ciphertext : bytes) : result error bytes :=
  if negb (bool_decide (String.length key = KeySize * 2)) ||
     bool_decide (length ciphertext < NonceSize + TagSize) ||
     bool_decide (MaxShareBytes < Z.of_nat (length ciphertext))%Z then Err ErrShareInvalid
  else
    raw ← or_else (DecodeString key) ErrShareInvalid;
    match GCMOpen raw (take NonceSize ciphertext) (drop NonceSize ciphertext) [] with
    | Err _ => Err ErrShareInvalid
    | Ok compressed =>
        match gunzip_all compressed with
        | Some plaintext =>
            if bool_decide (MaxSharePlaintextBytes < Z.of_nat (length plaintext))%Z
            then Err ErrShareInvalid else Ok plaintext
        | None => Err ErrShareInvalid
        end
    end.

(** ** What is sealed is read back *)

Lemma plain_of s (f : ascii → bool) :
  (∀ c, f c = true → plain_char c = true) → forallb f (bytes_of s) = true → plain s = true.
Proof.
  intros Hf. unfold plain. rewrite !forallb_forall. intros H c Hc. by apply Hf, H.
Qed.
Lemma plain_hex b : plain (EncodeToString b) = true.
Proof. apply (plain_of _ lower_hex); [intros c; by each_byte c|apply hex_lower]. Qed.
Lemma plain_kid k : valid_kid k = true → plain k = true.
Proof. intros [_ H]%andb_true_iff. apply (plain_of _ lower_hex); [intros c; by each_byte c|done]. Qed.
Lemma plain_base64 b : plain (Encode64 StdEncoding b) = true.
Proof.
  apply (plain_of _ (λ c, std_digit c || Ascii.eqb c "=")); [intros c; by each_byte c|].
  unfold Encode64. rewrite bytes_of_string. destruct (encode_chars b) as (ds & p & -> & Hds & Hp & _).
  rewrite forallb_app. apply andb_true_iff. split; [|by destruct Hp as [->|[->| ->]]].
  rewrite forallb_forall in Hds |- *. intros c Hc. by rewrite Hds.
Qed.

Definition plain_env (e : V2) : Prop :=
  V e = 2%Z ∧ plain (Alg e) = true ∧ plain (KID e) = true ∧ plain (WDEK e) = true ∧ plain (WIV e) = true ∧
  plain (IV e) = true ∧ plain (CT e) = true.

Lemma members_marshal e : plain_env e →
  members (marshalV2 e) = Some [("v", DNum "2"); ("alg", DStr (Alg e)); ("kid", DStr (KID e));
    ("wdek", DStr (WDEK e)); ("wiv", DStr (WIV e)); ("iv", DStr (IV e)); ("ct", DStr (CT e))].
Proof.
  intros (_ & ? & ? & ? & ? & ? & ?). unfold members, marshalV2.
  rewrite parse_marshal; [done|]. repeat (apply List.Forall_cons; [by split|]). apply List.Forall_nil.
Qed.

(** The fields of an envelope, by the names of its members. *)
Ltac fields :=
  unfold set_field; cbn [foldl fst snd];
  rewrite !fold_names by set_solver;
  repeat (first [rewrite bool_decide_true by done|rewrite bool_decide_false by done]);
  cbn [as_string as_int as_int_ptr as_string_ptr mbind option_bind put fmap option_fmap option_map].

Lemma unmarshal_marshal e : plain_env e → unmarshalV2 (marshalV2 e) = Some e.
Proof.
  intros He. unfold unmarshalV2. rewrite (members_marshal e He). cbn [mbind option_bind]. fields.
  change (Atoi "2") with (Some 2%Z). cbn. destruct He as [HV _], e. cbn in *. by rewrite HV.
Qed.

Lemma detect_marshal e : plain_env e → Detect (marshalV2 e) = VersionV2.
Proof.
  intros He. unfold Detect. rewrite bool_decide_false by apply marshal_nonempty.
  unfold looksLikeV2. rewrite (members_marshal e He). cbn [mbind option_bind]. fields. done.
Qed.

Lemma canonical_base64 b : b ≠ [] → isCanonicalStdBase64 (Encode64 StdEncoding b) = true.
Proof.
  intros Hb. unfold isCanonicalStdBase64, Encode64. rewrite bytes_of_string.
  destruct (encode_chars b) as (ds & p & -> & Hds & Hp & Hlen & Hne). specialize (Hne Hb).
  rewrite (bool_decide_false (length (ds ++ p) = 0)) by (rewrite length_app; lia).
  rewrite (bool_decide_true (_ `mod` 4 = 0)) by done. cbn [orb negb].
  assert (Hd : ∀ i, ds !! i ≠ Some "="%char).
  { intros i Hi%list_elem_of_lookup_2%list_elem_of_In. rewrite forallb_forall in Hds.
    apply Hds in Hi. by apply std_digit_plain in Hi as (_ & ? & _). }
  destruct Hp as [->|[->| ->]]; rewrite ?length_app; cbn [length].
  - rewrite app_nil_r, bool_decide_false by apply Hd. by rewrite take_ge by lia.
  - rewrite lookup_app_r, bool_decide_true by (cbn; lia || (f_equal; by replace (length ds + 1 - 1 - length ds) with 0 by lia)).
    rewrite lookup_app_l, bool_decide_false by (lia || apply Hd).
    replace (length ds + 1 - 1) with (length ds + 0) by lia. by rewrite take_app_add, take_0, app_nil_r.
  - rewrite !lookup_app_r by lia.
    replace (length ds + 2 - 1 - length ds) with 1 by lia. replace (length ds + 2 - 2 - length ds) with 0 by lia.
    rewrite !bool_decide_true by done.
    replace (length ds + 2 - 2) with (length ds + 0) by lia. by rewrite take_app_add, take_0, app_nil_r.
Qed.

(** The two layers of authenticated data of a row with a key id. *)
Lemma aads_valid a : valid_row a = true → valid_kid (KeyIDHex a) = true →
  ∃ p w, CanonicalPayloadAAD a = Ok p ∧ CanonicalDEKWrapAAD a = Ok w.
Proof.
  intros Hr Hk. unfold CanonicalPayloadAAD, CanonicalDEKWrapAAD. rewrite Hr, Hk. cbn [andb negb].
  rewrite !marshal_simple by (repeat constructor). eauto.
Qed.

(** The envelope that [Encrypt] makes. *)
Definition envelope (key plaintext : bytes) (aad : AAD) (dek n1 n2 pa wa : bytes) : V2 :=
  mkV2 2 AlgAESGCM (KeyIDHex aad) (Encode64 StdEncoding (gcm_seal key n2 dek wa)) (EncodeToString n2)
    (EncodeToString n1) (Encode64 StdEncoding (gcm_seal dek n1 (gzipBytes plaintext) pa)).

Lemma envelope_plain key pt aad dek n1 n2 pa wa :
  valid_kid (KeyIDHex aad) = true → plain_env (envelope key pt aad dek n1 n2 pa wa).
Proof.
  intros Hk. unfold plain_env, envelope. split_and!; try reflexivity;
    first [by apply plain_kid|apply plain_hex|apply plain_base64].
Qed.

Lemma encrypt_ok key pt aad dek n1 n2 pa wa :
  length key = KeySize → length dek = KeySize → (Z.of_nat (length pt) ≤ MaxPlaintextBytes)%Z →
  CanonicalPayloadAAD aad = Ok pa → CanonicalDEKWrapAAD aad = Ok wa →
  Encrypt key pt aad dek n1 n2 = Ok (marshalV2 (envelope key pt aad dek n1 n2 pa wa)).
Proof.
  intros Hk Hd Hp Hpa Hwa. unfold Encrypt, GCMSeal. rewrite Hpa, Hwa. cbn [from_aad mbind result_bind].
  rewrite (bool_decide_false (_ < _)%Z) by lia. by rewrite !bool_decide_true by done.
Qed.

Lemma decrypt_envelope key pt aad dek n1 n2 pa wa keys aad' :
  length n1 = NonceSize → length n2 = NonceSize → valid_kid (KeyIDHex aad) = true →
  DecryptV2 (marshalV2 (envelope key pt aad dek n1 n2 pa wa)) keys aad' =
    (match_ ← or_else (find_key keys (KeyIDHex aad)) ErrNoMatchingKey;
     wrapAAD ← from_aad (CanonicalDEKWrapAAD (mkAAD (KeyIDHex aad) (Scope aad') (ID aad') (ClerkUserID aad')));
     dek' ← GCMOpen (Bytes match_) n2 (gcm_seal key n2 dek wa) wrapAAD;
     if negb (bool_decide (length dek' = KeySize)) then Err ErrV2Malformed
     else
       payloadAAD ← from_aad (CanonicalPayloadAAD aad');
       compressed ← GCMOpen dek' n1 (gcm_seal dek n1 (gzipBytes pt) pa) payloadAAD;
       match gunzip compressed with
       | Ok pt => Ok (mkResult pt (KeyIDHex aad) VersionV2 false)
       | Err _ => Err ErrV2Malformed
       end).
Proof.
  intros H1 H2 Hk. unfold DecryptV2. rewrite (unmarshal_marshal _ (envelope_plain _ _ _ _ _ _ _ _ Hk)).
  assert (Hct : ∀ k n p a, isCanonicalStdBase64 (Encode64 StdEncoding (gcm_seal k n p a)) = true).
  { intros k n p a. apply canonical_base64. intros Hn. pose proof (gcm_tag k n p a) as Ht. rewrite Hn in Ht. cbn in Ht. lia. }
  cbn [or_else mbind result_bind V Alg KID IV WIV CT WDEK envelope].
  rewrite Hk, !hex_length, H1, H2, !Hct, !hex_roundtrip, !base64_roundtrip by auto. done.
Qed.

Lemma find_key_bytes keys kid k : find_key keys kid = Some k → k_KeyIDHex k = kid.
Proof. intros [_ H]%List.find_some. by apply bool_decide_eq_true in H. Qed.

Lemma gunzip_gzip_ok pt : (Z.of_nat (length pt) ≤ MaxPlaintextBytes)%Z → gunzip (gzipBytes pt) = Ok pt.
Proof. intros Hp. unfold gunzip. rewrite gunzip_gzip. by rewrite bool_decide_false by lia. Qed.

Lemma gcm_roundtrip k n p a : length k = KeySize → length n = NonceSize → GCMOpen k n (gcm_seal k n p a) a = Ok p.
Proof. intros Hk Hn. unfold GCMOpen. rewrite !bool_decide_true by done. cbn. by rewrite gcm_open_seal. Qed.

(** What [Encrypt] makes opens again. *)
Lemma sealed_opens key pt aad dek n1 n2 :
  valid_row aad = true → valid_kid (KeyIDHex aad) = true → length key = KeySize → length dek = KeySize →
  length n1 = NonceSize → length n2 = NonceSize → (Z.of_nat (length pt) ≤ MaxPlaintextBytes)%Z →
  ∃ blob, Encrypt key pt aad dek n1 n2 = Ok blob ∧ Detect blob = VersionV2 ∧
    ∀ keys k, find_key keys (KeyIDHex aad) = Some k → Bytes k = key →
      DecryptV2 blob keys aad = Ok (mkResult pt (KeyIDHex aad) VersionV2 false).
Proof.
  intros Hrow Hkid Hkey Hdek Hn1 Hn2 Hpt.
  destruct (aads_valid aad Hrow Hkid) as (pa & wa & Hpa & Hwa).
  eexists. split; [by eapply encrypt_ok|]. split; [by apply detect_marshal, envelope_plain|].
  intros keys k Hk Hb. rewrite decrypt_envelope by done. rewrite Hk. cbn [or_else mbind result_bind].
  assert (Hwa' : CanonicalDEKWrapAAD (mkAAD (KeyIDHex aad) (Scope aad) (ID aad) (ClerkUserID aad)) = Ok wa)
    by by destruct aad.
  rewrite Hwa', Hb. cbn [from_aad mbind result_bind]. rewrite gcm_roundtrip by done. cbn [mbind result_bind].
  rewrite (bool_decide_true (_ = KeySize)) by done. cbn [negb]. rewrite Hpa. cbn [from_aad mbind result_bind].
  rewrite gcm_roundtrip by done. cbn [mbind result_bind]. by rewrite gunzip_gzip_ok.
Qed.

(** C7. Every plaintext within the limit is sealed, the envelope is known
    for one, and whoever holds the key under its id reads the plaintext
    back. *)
Theorem envelope_roundtrip key pt aad dek n1 n2 :
  valid_row aad = true → valid_kid (KeyIDHex aad) = true → length key = KeySize → length dek = KeySize →
  length n1 = NonceSize → length n2 = NonceSize → (Z.of_nat (length pt) ≤ MaxPlaintextBytes)%Z →
  ∃ blob, Encrypt key pt aad dek n1 n2 = Ok blob ∧ Detect blob = VersionV2 ∧
    ∀ keys k, find_key keys (KeyIDHex aad) = Some k → Bytes k = key →
      DecryptV2 blob keys aad = Ok (mkResult pt (KeyIDHex aad) VersionV2 false).
Proof. apply sealed_opens. Qed.

(** Nobody but the holder of a key makes a ciphertext that opens under it,
    and it opens only with what it was sealed with: the security of the
    cipher, taken as certain. *)
Definition authentic : Prop :=
  ∀ k n p a k' n' a' p', gcm_open k' n' (gcm_seal k n p a) a' = Some p' → k' = k ∧ n' = n ∧ a' = a ∧ p' = p.

Lemma GCMOpen_seal k n p a k' n' a' p' :
  authentic → GCMOpen k' n' (gcm_seal k n p a) a' = Ok p' → k' = k ∧ n' = n ∧ a' = a ∧ p' = p.
Proof.
  intros Hau. unfold GCMOpen. destruct (negb _); [done|]. destruct (negb _); [done|].
  destruct (gcm_open _ _ _ _) eqn:Ho; [|done]. intros [= ->]. by eapply Hau.
Qed.

(** It opens as nothing else. *)
Lemma sealed_binds key pt aad dek n1 n2 blob keys aad' r :
  authentic → valid_row aad = true → valid_kid (KeyIDHex aad) = true →
  length key = KeySize → length dek = KeySize → length n1 = NonceSize → length n2 = NonceSize →
  (Z.of_nat (length pt) ≤ MaxPlaintextBytes)%Z →
  Encrypt key pt aad dek n1 n2 = Ok blob → DecryptV2 blob keys aad' = Ok r →
  row_of aad' = row_of aad ∧ Plaintext r = pt ∧
  ∃ k, find_key keys (KeyIDHex aad) = Some k ∧ Bytes k = key.
Proof.
  intros Hau Hrow Hkid Hkey Hdek Hn1 Hn2 Hpt.
  destruct (aads_valid aad Hrow Hkid) as (pa & wa & Hpa & Hwa).
  rewrite (encrypt_ok _ _ _ _ _ _ pa wa) by done. intros [= <-].
  rewrite decrypt_envelope by done.
  destruct (find_key keys (KeyIDHex aad)) as [k|] eqn:Hk; [|done]. cbn [or_else mbind result_bind].
  destruct (CanonicalDEKWrapAAD (mkAAD _ _ _ _)) as [wa'|] eqn:Hwa'; [|done]. cbn [from_aad mbind result_bind].
  destruct (GCMOpen (Bytes k) n2 _ wa') as [dek'|] eqn:Ho; [|done]. cbn [mbind result_bind].
  apply GCMOpen_seal in Ho as (Hkk & _ & -> & ->); [|done].
  destruct (negb _); [done|].
  destruct (CanonicalPayloadAAD aad') as [pa'|] eqn:Hpa'; [|done]. cbn [from_aad mbind result_bind].
  destruct (GCMOpen dek n1 _ pa') as [c|] eqn:Ho; [|done]. cbn [mbind result_bind].
  apply GCMOpen_seal in Ho as (_ & _ & -> & ->); [|done].
  rewrite gunzip_gzip_ok by done. intros [= <-]. split_and!; [|done|eauto].
  by eapply payload_binds.
Qed.

(** C6. An envelope opens only as the row it was sealed as: whatever keys a
    reader tries and whatever row it takes it for, it opens under the sealing
    key alone, as that owner's row of that scope and id, and gives the
    plaintext that was sealed. *)
Theorem envelope_binds key pt aad dek n1 n2 blob keys aad' r :
  authentic → valid_row aad = true → valid_kid (KeyIDHex aad) = true →
  length key = KeySize → length dek = KeySize → length n1 = NonceSize → length n2 = NonceSize →
  (Z.of_nat (length pt) ≤ MaxPlaintextBytes)%Z →
  Encrypt key pt aad dek n1 n2 = Ok blob → DecryptV2 blob keys aad' = Ok r →
  row_of aad' = row_of aad ∧ Plaintext r = pt ∧
  ∃ k, find_key keys (KeyIDHex aad) = Some k ∧ Bytes k = key.
Proof. apply sealed_binds. Qed.

(** A shared chat within the limits is sealed, and its link's key reads
    it back. *)
Theorem share_roundtrip pt key nonce :
  length key = KeySize → length nonce = NonceSize → (Z.of_nat (length pt) ≤ MaxSharePlaintextBytes)%Z →
  (Z.of_nat (NonceSize + length (gcm_seal key nonce (gzipBytes pt) [])) ≤ MaxShareBytes)%Z →
  ∃ sealed link, SealShare pt key nonce = Ok (sealed, link) ∧ OpenShare link sealed = Ok pt.
Proof.
  intros Hk Hn Hp Hs. unfold SealShare, GCMSeal. rewrite (bool_decide_false (MaxSharePlaintextBytes < _)%Z) by lia.
  rewrite (bool_decide_true (length key = KeySize)) by done. cbn [negb mbind result_bind].
  assert (Hlen : length (nonce ++ gcm_seal key nonce (gzipBytes pt) []) =
    NonceSize + length (gcm_seal key nonce (gzipBytes pt) [])) by by rewrite length_app, Hn.
  rewrite Hlen, bool_decide_false by lia. eexists _, _. split; [done|].
  unfold OpenShare. rewrite hex_length, Hk, Hlen.
  rewrite (bool_decide_true (_ = KeySize * 2)) by done. cbn [negb orb].
  rewrite bool_decide_false by (pose proof (gcm_tag key nonce (gzipBytes pt) []); unfold TagSize; lia).
  rewrite bool_decide_false by lia. cbn [orb]. rewrite hex_roundtrip. cbn [or_else mbind result_bind].
  rewrite take_app_length', drop_app_length' by done. rewrite gcm_roundtrip by done.
  rewrite gunzip_gzip. by rewrite bool_decide_false by lia.
Qed.
End Seal.

(** ** Concrete ciphers and documents, for the witnesses *)

Definition quoted (b : bytes) : bytes := writeJSONString [] (string_of b).
Lemma quoted_inj a b x y : quoted a ++ x = quoted b ++ y → a = b ∧ x = y.
Proof.
  intros [H ->]%json_string_inj. split; [|done].
  by rewrite <- (bytes_of_string a), H, bytes_of_string.
Qed.

Definition stamp (k n a : bytes) : bytes := replicate 16 "x"%char ++ quoted k ++ quoted n ++ quoted a.
Fixpoint strip (p l : bytes) : option bytes :=
  match p, l with
  | [], l => Some l
  | c :: p, d :: l => if Ascii.eqb c d then strip p l else None
  | _, [] => None
  end.

Lemma strip_app p l : strip p (p ++ l) = Some l.
Proof. induction p as [|c p IH]; [done|]. cbn. by rewrite Ascii.eqb_refl. Qed.
Lemma strip_Some p l r : strip p l = Some r → l = p ++ r.
Proof.
  revert l. induction p as [|c p IH]; intros l; cbn; [by intros [= ->]|].
  destruct l as [|d l]; [done|]. destruct (Ascii.eqb c d) eqn:He; [|done].
  apply Ascii.eqb_eq in He as ->. intros H%IH. by rewrite H.
Qed.
Lemma stamp_tag k n p a : 16 ≤ length (stamp k n a ++ p).
Proof. unfold stamp. rewrite !length_app, length_replicate. lia. Qed.

(** A cipher that writes its key, nonce and data before the plaintext. *)
Definition toy_crypto : Crypto := {|
  gcm_seal k n p a := stamp k n a ++ p;
  gcm_open k n c a := strip (stamp k n a) c;
  gcm_open_seal k n p a := strip_app _ _;
  gcm_tag := stamp_tag;
  gzipBytes p := p;
  gunzip_all p := Some p;
  gunzip_gzip p := eq_refl;
|}.

Lemma toy_authentic : @authentic toy_crypto.
Proof.
  intros k n p a k' n' a' p' H%strip_Some. cbn [gcm_seal toy_crypto] in H. unfold stamp in H.
  rewrite <- !app_assoc in H. apply app_inv_head in H.
  apply quoted_inj in H as [-> H]. apply quoted_inj in H as [-> H]. by apply quoted_inj in H as [-> ->].
Qed.

(** A JSON reader of flat objects, each member its name, a letter and its
    value. *)
Fixpoint read_chars (fuel : nat) (l : bytes) : option (bytes * bytes) :=
  match fuel with
  | 0 => None
  | S fuel =>
      match unescape l with
      | Some (c, l) => '(s, l) ← read_chars fuel l; Some (c :: s, l)
      | None => match l with c :: l => if Ascii.eqb c dq then Some ([], l) else None | [] => None end
      end
  end.
Definition read_quoted (l : bytes) : option (string * bytes) :=
  match l with
  | c :: l => if Ascii.eqb c dq then (λ x, (string_of x.1, x.2)) <$> read_chars (S (length l)) l else None
  | [] => None
  end.

Lemma read_chars_escaped s x fuel : length s < fuel →
  read_chars fuel (concat (escape <$> s) ++ dq :: x) = Some (s, x).
Proof.
  revert fuel. induction s as [|c s IH]; intros [|fuel]; cbn [length fmap list_fmap concat]; try lia; intros Hf; [done|].
  cbn [read_chars]. rewrite <- app_assoc, unescape_escape, IH by lia. done.
Qed.

Lemma escape_length c : 1 ≤ length (escape c).
Proof. each_byte c; vm_compute; lia. Qed.
Lemma escaped_length s : length s ≤ length (concat (escape <$> s)).
Proof.
  induction s as [|c s IH]; [done|]. cbn [fmap list_fmap concat]. rewrite length_app.
  pose proof (escape_length c). cbn. lia.
Qed.

Lemma read_string_ok s x : read_quoted (writeJSONString [] s ++ x) = Some (s, x).
Proof.
  unfold read_quoted, writeJSONString. cbn [app].
  rewrite <- app_assoc. cbn [app]. rewrite read_chars_escaped.
  - cbn. by rewrite string_of_bytes.
  - rewrite length_app. pose proof (escaped_length (bytes_of s)). lia.
Qed.

Definition toy_member (m : string * doc) : bytes :=
  writeJSONString [] m.1 ++
  match m.2 with
  | DStr s => "s"%char :: writeJSONString [] s
  | DNum s => "n"%char :: writeJSONString [] s
  | _ => []
  end.
Fixpoint read_members (fuel : nat) (l : bytes) : option (list (string * doc)) :=
  match fuel, l with
  | _, [] => Some []
  | 0, _ => None
  | S fuel, l =>
      '(k, l) ← read_quoted l;
      match l with
      | t :: l =>
          '(v, l) ← read_quoted l;
          r ← read_members fuel l;
          Some ((k, if Ascii.eqb t "s" then DStr v else DNum v) :: r)
      | [] => None
      end
  end.

Lemma read_members_ok ms fuel : Forall plain_member ms → length ms ≤ fuel →
  read_members fuel (concat (toy_member <$> ms)) = Some ms.
Proof.
  intros Hms. revert fuel. induction Hms as [|[k d] ms [_ Hd] _ IH]; intros [|fuel]; cbn [length]; try lia;
    intros Hf; [done|done|]. cbn [fmap list_fmap concat].
  assert (Hne : ∃ c l, toy_member (k, d) ++ concat (toy_member <$> ms) = c :: l) by (eexists _, _; done).
  destruct Hne as (c & l & Hne). rewrite Hne. cbn [read_members]. rewrite <- Hne.
  unfold toy_member at 1. cbn [fst snd] in Hd |- *. rewrite <- app_assoc, read_string_ok. cbn [mbind option_bind].
  destruct d; try done; cbn [app]; rewrite read_string_ok; cbn [mbind option_bind]; rewrite IH by lia; done.
Qed.

Lemma member_length m : 1 ≤ length (toy_member m).
Proof. unfold toy_member, writeJSONString. rewrite length_app. cbn. lia. Qed.
Lemma members_length ms : length ms ≤ length (concat (toy_member <$> ms)).
Proof.
  induction ms as [|m ms IH]; [done|]. cbn [fmap list_fmap concat]. rewrite length_app.
  pose proof (member_length m). cbn. lia.
Qed.

Definition toy_parse (b : bytes) : option doc :=
  match b with
  | c :: l => if Ascii.eqb c "{" then DObj <$> read_members (length l) l else None
  | [] => None
  end.

Lemma toy_parse_marshal ms : Forall plain_member ms →
  toy_parse ("{"%char :: concat (toy_member <$> ms)) = Some (DObj ms).
Proof. intros Hms. cbn. by rewrite read_members_ok by (done || apply members_length). Qed.

Definition toy_json : Json := {|
  parse := toy_parse;
  MarshalObject ms := "{"%char :: concat (toy_member <$> ms);
  EqualFold s t := bool_decide (s = t);
  parse_marshal := toy_parse_marshal;
  marshal_nonempty ms := ltac:(done);
  fold_names s t _ _ := eq_refl;
|}.

(** ** Witnesses *)

#[local] Existing Instance toy_crypto.
#[local] Existing Instance toy_json.

Definition key0 : bytes := replicate 32 "k"%char.
Definition dek0 : bytes := replicate 32 "d"%char.
Definition nonce0 : bytes := replicate 12 "n"%char.
Definition text0 : bytes := bytes_of "a chat".
Definition ring0 : list Key := [mkKey (replicate 32 "o"%char) "ffff"; mkKey key0 (KeyIDHex aad0)].

Lemma envelope_roundtrip_witness : ∃ blob, Encrypt key0 text0 aad0 dek0 nonce0 nonce0 = Ok blob ∧
  DecryptV2 blob ring0 aad0 = Ok (mkResult text0 (KeyIDHex aad0) VersionV2 false).
Proof.
  destruct (envelope_roundtrip key0 text0 aad0 dek0 nonce0 nonce0) as (blob & He & _ & Hd);
    [vm_compute; try reflexivity; discriminate..|].
  exists blob. split; [exact He|]. apply (Hd ring0 (mkKey key0 (KeyIDHex aad0))); [vm_compute; reflexivity|reflexivity].
Defined.

Lemma envelope_binds_witness : ∃ blob, Encrypt key0 text0 aad0 dek0 nonce0 nonce0 = Ok blob ∧
  ∀ r, DecryptV2 blob ring0 (mkAAD "" "chat" "row-2" "user_1") ≠ Ok r.
Proof.
  destruct (Encrypt key0 text0 aad0 dek0 nonce0 nonce0) as [blob|e] eqn:He; [|discriminate He].
  exists blob. split; [reflexivity|]. intros r Hr.
  destruct (envelope_binds key0 text0 aad0 dek0 nonce0 nonce0 blob ring0 (mkAAD "" "chat" "row-2" "user_1") r)
    as (Hrow & _); [exact toy_authentic|vm_compute; try reflexivity; discriminate..|exact He|exact Hr|].
  discriminate Hrow.
Defined.

Lemma share_roundtrip_witness : ∃ sealed link, SealShare text0 key0 nonce0 = Ok (sealed, link) ∧
  OpenShare link sealed = Ok text0.
Proof. apply (share_roundtrip text0 key0 nonce0); vm_compute; try reflexivity; discriminate. Defined.
End Seal.
