(* ===== verification/Cache.v ===== *)
(** * Decoded search indexes kept in memory: internal/search/cache.go

    A cache of one index per owner under a byte budget, evicting the least
    recently used: a linked list whose elements a map finds by owner.  It is
    proved to behave as the list of its entries, most recent first, cut to
    the longest part that fits the budget. *)

From S2P Require Import Prelude GoStd Codec.

Module Cache.
Import GoStd Codec.

Definition cacheBudgetBytes : Z := Z.shiftl 4 30.

Section Cache.
(** A decoded index. *)
Context {Ix : Type}.

Record cacheEntry := mkEntry { owner : string; ix : Ix; key : bytes; size : Z; completeAt_ : Z }.
#[global] Instance cacheEntry_eta : Eta cacheEntry := λ e,
  mkEntry (owner e) (ix e) (key e) (size e) (completeAt_ e).

(** [container/list]: its elements from the front, and what each holds. *)
Record indexCache := mkCache {
  budget : Z;
  total : Z;
  lru : list nat;
  elements : gmap nat cacheEntry;
  byOwner : gmap string nat;
  fresh : nat;
}.
#[global] Instance indexCache_eta : Eta indexCache := λ c,
  mkCache (budget c) (total c) (lru c) (elements c) (byOwner c) (fresh c).

Definition newIndexCache (budget : Z) : indexCache := mkCache budget 0 [] ∅ ∅ 0.

(** [sha256] of [crypto/sha256] is a parameter. *)
Definition cacheKey (sha256 : bytes → bytes) (indexKey objectKey : bytes) : bytes := sha256 (indexKey ++ "000"%char :: objectKey).

Definition list_remove (l : list nat) (el : nat) : list nat := List.filter (λ x, negb (Nat.eqb x el)) l.
(** [list.MoveToFront]. *)
Definition moveToFront (c : indexCache) (el : nat) : indexCache := c <| lru ::= λ l, el :: list_remove l el |>.

(** [None] is a panic: an element that the cache does not hold. *)
Definition removeLocked (c : indexCache) (el : nat) : option indexCache :=
  e ← elements c !! el;
  if bool_decide (el ∈ lru c) then
    Some (c <| lru ::= λ l, list_remove l el |> <| elements ::= delete el |>
            <| byOwner ::= delete (owner e) |> <| total ::= λ n, (n - size e)%Z |>)
  else None.

Definition get (c : indexCache) (o : string) (k : bytes) : option (indexCache * option Ix) :=
  match byOwner c !! o with
  | None => Some (c, None)
  | Some el =>
      e ← elements c !! el;
      if negb (bool_decide (key e = k)) then c ← removeLocked c el; Some (c, None)
      else Some (moveToFront c el, Some (ix e))
  end.

(** The loop that evicts, with as many turns as the list has elements and
    one to see the budget met. *)
Fixpoint evict (fuel : nat) (c : indexCache) : option indexCache :=
  if bool_decide (total c ≤ budget c)%Z then Some c
  else match fuel with
       | 0 => None
       | S fuel => el ← last (lru c); c ← removeLocked c el; evict fuel c
       end.

Definition pushFront (c : indexCache) (e : cacheEntry) : indexCache :=
  c <| lru ::= cons (fresh c) |> <| elements ::= <[fresh c := e]> |>
    <| byOwner ::= <[owner e := fresh c]> |> <| fresh ::= S |>.

Definition put (c : indexCache) (o : string) (k : bytes) (x : Ix) (n : Z) : option indexCache :=
  c ← match byOwner c !! o with Some el => removeLocked c el | None => Some c end;
  if bool_decide (budget c < n)%Z then Some c
  else
    let c := (pushFront c (mkEntry o x k n 0)) <| total ::= λ t, (t + n)%Z |> in
    evict (length (lru c)) c.

Definition publishedComplete (c : indexCache) (o : string) (k : bytes) (generation : Z) : option indexCache :=
  match byOwner c !! o with
  | None => Some c
  | Some el =>
      e ← elements c !! el;
      Some (if bool_decide (key e = k)
            then c <| elements ::= <[el := e <| completeAt_ := generation |>]> |> else c)
  end.

Definition completeAt (c : indexCache) (o : string) (k : bytes) (generation : Z) : option bool :=
  match byOwner c !! o with
  | None => Some false
  | Some el =>
      e ← elements c !! el;
      Some (bool_decide (0 < generation)%Z && bool_decide (key e = k) && bool_decide (completeAt_ e = generation))
  end.

Definition drop (c : indexCache) (o : string) : option indexCache :=
  match byOwner c !! o with Some el => removeLocked c el | None => Some c end.

(** ** The specification: entries, the most recently used first *)

Definition mine (o : string) (e : cacheEntry) : bool := String.eqb (owner e) o.
Definition others (o : string) : list cacheEntry → list cacheEntry := List.filter (λ e, negb (mine o e)).
Definition find (o : string) : list cacheEntry → option cacheEntry := List.find (mine o).
Fixpoint sizes (l : list cacheEntry) : Z :=
  match l with [] => 0 | e :: l => size e + sizes l end.

(** The longest first part of the entries that fits. *)
Fixpoint fit (room : Z) (l : list cacheEntry) : list cacheEntry :=
  match l with
  | [] => []
  | e :: l => if bool_decide (size e ≤ room)%Z then e :: fit (room - size e) l else []
  end.

Inductive op :=
  | OGet (o : string) (k : bytes)
  | OPut (o : string) (k : bytes) (x : Ix) (n : Z)
  | OPublished (o : string) (k : bytes) (generation : Z)
  | OCompleteAt (o : string) (k : bytes) (generation : Z)
  | ODrop (o : string).
Inductive answer := AGot (x : option Ix) | ASaid (b : bool) | ANone.

Definition spec (b : Z) (l : list cacheEntry) (a : op) : list cacheEntry * answer :=
  match a with
  | OGet o k =>
      match find o l with
      | Some e => if bool_decide (key e = k) then (e :: others o l, AGot (Some (ix e))) else (others o l, AGot None)
      | None => (l, AGot None)
      end
  | OPut o k x n =>
      (if bool_decide (b < n)%Z then others o l else fit b (mkEntry o x k n 0 :: others o l), ANone)
  | OPublished o k g =>
      ((λ e, if mine o e && bool_decide (key e = k) then e <| completeAt_ := g |> else e) <$> l, ANone)
  | OCompleteAt o k g =>
      (l, ASaid match find o l with
                | Some e => bool_decide (0 < g)%Z && bool_decide (key e = k) && bool_decide (completeAt_ e = g)
                | None => false
                end)
  | ODrop o => (others o l, ANone)
  end.

Definition exec (c : indexCache) (a : op) : option (indexCache * answer) :=
  match a with
  | OGet o k => '(c, x) ← get c o k; Some (c, AGot x)
  | OPut o k x n => c ← put c o k x n; Some (c, ANone)
  | OPublished o k g => c ← publishedComplete c o k g; Some (c, ANone)
  | OCompleteAt o k g => b ← completeAt c o k g; Some (c, ASaid b)
  | ODrop o => c ← drop c o; Some (c, ANone)
  end.

Fixpoint spec_run (b : Z) (l : list cacheEntry) (ops : list op) : list cacheEntry * list answer :=
  match ops with
  | [] => (l, [])
  | a :: ops => let '(l, r) := spec b l a in let '(l, rs) := spec_run b l ops in (l, r :: rs)
  end.
Fixpoint run (c : indexCache) (ops : list op) : option (indexCache * list answer) :=
  match ops with
  | [] => Some (c, [])
  | a :: ops => '(c, r) ← exec c a; '(c, rs) ← run c ops; Some (c, r :: rs)
  end.

(** ** The cache as its list of entries *)

Definition view (c : indexCache) : list cacheEntry := omap (λ el, elements c !! el) (lru c).

Record wf (c : indexCache) : Prop := {
  wf_nodup : NoDup (lru c);
  wf_elements el : el ∈ lru c ↔ is_Some (elements c !! el);
  wf_owner o el : byOwner c !! o = Some el ↔ ∃ e, elements c !! el = Some e ∧ owner e = o;
  wf_fresh el : is_Some (elements c !! el) → el < fresh c;
  wf_total : total c = sizes (view c);
  wf_sizes el e : elements c !! el = Some e → (0 ≤ size e)%Z;
}.

Lemma list_remove_elem l el x : x ∈ list_remove l el ↔ x ∈ l ∧ x ≠ el.
Proof.
  unfold list_remove. rewrite !list_elem_of_In, List.filter_In, negb_true_iff, Nat.eqb_neq. done.
Qed.
Lemma filter_NoDup {A} (p : A → bool) l : NoDup l → NoDup (List.filter p l).
Proof. intros H. apply NoDup_ListNoDup, List.NoDup_filter, NoDup_ListNoDup, H. Qed.

Lemma owner_inj c a b e e' : wf c → elements c !! a = Some e → elements c !! b = Some e' →
  owner e = owner e' → a = b.
Proof.
  intros Hc Ha Hb Ho. assert (byOwner c !! owner e = Some a) by (apply (wf_owner _ Hc); eauto).
  assert (byOwner c !! owner e = Some b) by (apply (wf_owner _ Hc); eauto). congruence.
Qed.

Lemma view_remove (m : gmap nat cacheEntry) l el o :
  (∀ x e, x ∈ l → m !! x = Some e → owner e = o ↔ x = el) →
  omap (λ x, delete el m !! x) (list_remove l el) = others o (omap (λ x, m !! x) l).
Proof.
  unfold list_remove, others. induction l as [|x l IH]; intros H; [done|]. cbn.
  assert (IH' := IH ltac:(intros; apply H; [by right|done])).
  destruct (Nat.eqb x el) eqn:He.
  - apply Nat.eqb_eq in He as ->. cbn. destruct (m !! el) as [e|] eqn:Hm; [|done]. cbn.
    unfold mine at 1. rewrite (proj2 (H el e ltac:(by left) Hm) eq_refl), String.eqb_refl. done.
  - apply Nat.eqb_neq in He. cbn. rewrite lookup_delete_ne by done.
    destruct (m !! x) as [e|] eqn:Hm; [|done]. cbn. unfold mine at 1.
    destruct (String.eqb_spec (owner e) o) as [Ho|Ho]; [|cbn; by rewrite IH'].
    apply (H x e) in Ho; [done|by left|done].
Qed.

Lemma view_others c el e : wf c → elements c !! el = Some e →
  omap (λ x, delete el (elements c) !! x) (list_remove (lru c) el) = others (owner e) (view c).
Proof.
  intros Hc He. apply view_remove. intros x e' _ Hx. split; [|intros ->; congruence].
  intros Ho. by eapply owner_inj.
Qed.

Lemma sizes_others c el e : wf c → elements c !! el = Some e →
  (sizes (others (owner e) (view c)) + size e = sizes (view c))%Z.
Proof.
  intros Hc He. assert (Hin : el ∈ lru c) by (apply (wf_elements _ Hc); eauto).
  pose proof (wf_nodup _ Hc) as Hnd. rewrite <- (view_others c el e Hc He). unfold view.
  revert Hin Hnd. generalize (lru c). intros l. induction l as [|x l IH]; [set_solver|].
  intros Hin [Hx Hnd]%NoDup_cons. unfold list_remove. cbn.
  destruct (Nat.eqb x el) eqn:Hxe.
  - apply Nat.eqb_eq in Hxe as ->. cbn. rewrite He. cbn.
    assert (Hf : omap (λ x, delete el (elements c) !! x) (List.filter (λ x, negb (x =? el)) l) =
                 omap (λ x, elements c !! x) l); [|rewrite Hf; lia].
    clear IH Hin Hnd. induction l as [|y l IH]; [done|]. cbn.
    assert (y ≠ el) by set_solver. rewrite (proj2 (Nat.eqb_neq y el)) by done. cbn.
    rewrite lookup_delete_ne by done. rewrite IH by set_solver. done.
  - apply Nat.eqb_neq in Hxe. cbn. rewrite lookup_delete_ne by done.
    specialize (IH ltac:(set_solver) Hnd). unfold list_remove in IH.
    destruct (elements c !! x); cbn; lia.
Qed.

Lemma remove_ok c el e : wf c → elements c !! el = Some e →
  ∃ c', removeLocked c el = Some c' ∧ wf c' ∧ view c' = others (owner e) (view c) ∧ budget c' = budget c ∧
    lru c' = list_remove (lru c) el ∧ byOwner c' !! owner e = None.
Proof.
  intros Hc He. assert (Hin : el ∈ lru c) by (apply (wf_elements _ Hc); eauto).
  unfold removeLocked. rewrite He. cbn [mbind option_bind]. rewrite bool_decide_true by done.
  eexists. split; [done|].
  assert (Hv := view_others c el e Hc He). assert (Hs := sizes_others c el e Hc He).
  split_and!; [|exact Hv|done|done|cbn; by rewrite lookup_delete_eq].
  split; cbn.
  - apply filter_NoDup, Hc.
  - intros x. rewrite list_remove_elem, (wf_elements _ Hc). rewrite lookup_delete_is_Some. naive_solver.
  - intros o x. rewrite lookup_delete_Some, (wf_owner _ Hc). setoid_rewrite lookup_delete_Some. split.
    + intros [Ho (e' & He' & <-)]. exists e'. split_and!; [|done..]. intros ->. by simplify_eq.
    + intros (e' & [Hx He'] & <-). split; [|eauto]. intros Ho. apply Hx. by eapply owner_inj.
  - intros x [_ Hx]%lookup_delete_is_Some. by apply (wf_fresh _ Hc).
  - change (total c - size e = sizes (omap (λ x, delete el (elements c) !! x) (list_remove (lru c) el)))%Z.
    rewrite Hv, (wf_total _ Hc). lia.
  - intros x e' [_ He']%lookup_delete_Some. by eapply wf_sizes.
Qed.

Lemma view_elem c e : wf c → e ∈ view c ↔ ∃ el, elements c !! el = Some e.
Proof.
  intros Hc. unfold view. rewrite list_elem_of_omap. split.
  - intros (el & _ & H). eauto.
  - intros (el & H). exists el. split; [|done]. apply (wf_elements _ Hc). eauto.
Qed.

Lemma find_view c o : wf c → find o (view c) = el ← byOwner c !! o; elements c !! el.
Proof.
  intros Hc. destruct (byOwner c !! o) as [el|] eqn:Ho; cbn [mbind option_bind].
  - destruct (proj1 (wf_owner _ Hc _ _) Ho) as (e & He & Heo). rewrite He.
    unfold find. destruct (List.find (mine o) (view c)) as [e'|] eqn:Hf.
    + apply List.find_some in Hf as [Hin Hm]. apply list_elem_of_In, (view_elem c) in Hin as [el' He']; [|done].
      unfold mine in Hm. apply String.eqb_eq in Hm.
      assert (el' = el) as -> by (eapply owner_inj; [done..|]; congruence). congruence.
    + assert (Hin : In e (view c)) by (apply list_elem_of_In, view_elem; eauto).
      pose proof (List.find_none _ _ Hf e Hin) as Hn. unfold mine in Hn. by rewrite Heo, String.eqb_refl in Hn.
  - unfold find. destruct (List.find (mine o) (view c)) as [e|] eqn:Hf; [|done].
    apply List.find_some in Hf as [Hin Hm]. apply list_elem_of_In, (view_elem c) in Hin as [el He]; [|done].
    unfold mine in Hm. apply String.eqb_eq in Hm.
    assert (byOwner c !! o = Some el) by (apply (wf_owner _ Hc); eauto). congruence.
Qed.

Lemma others_none c o : wf c → byOwner c !! o = None → others o (view c) = view c.
Proof.
  intros Hc Ho. assert (Hall : ∀ e, e ∈ view c → mine o e = false).
  { intros e [el He]%view_elem; [|done]. unfold mine. apply String.eqb_neq. intros Heo.
    assert (byOwner c !! o = Some el) by (apply (wf_owner _ Hc); eauto). congruence. }
  revert Hall. generalize (view c). intros l. unfold others.
  induction l as [|e l IH]; [done|]. intros Hall. cbn. rewrite Hall by by left. cbn. rewrite IH; [done|].
  intros; apply Hall; by right.
Qed.

(** *** Eviction *)

Definition nonneg (l : list cacheEntry) : Prop := ∀ e, e ∈ l → (0 ≤ size e)%Z.

Lemma view_nonneg c : wf c → nonneg (view c).
Proof. intros Hc e [el He]%view_elem; [|done]. by eapply wf_sizes. Qed.

Lemma sizes_app l l' : sizes (l ++ l') = (sizes l + sizes l')%Z.
Proof. induction l as [|e l IH]; [done|]. cbn. lia. Qed.
Lemma sizes_nonneg l : nonneg l → (0 ≤ sizes l)%Z.
Proof.
  induction l as [|e l IH]; intros H; [done|]. cbn.
  pose proof (H e ltac:(by left)). assert (0 ≤ sizes l)%Z by (apply IH; intros x Hx; apply H; by right). lia.
Qed.

Lemma fit_all b l : nonneg l → (sizes l ≤ b)%Z → fit b l = l.
Proof.
  revert b. induction l as [|e l IH]; intros b Hn Hs; [done|]. cbn in Hs |- *.
  assert (Hn' : nonneg l) by (intros x Hx; apply Hn; by right). pose proof (sizes_nonneg l Hn').
  rewrite bool_decide_true by lia. rewrite IH; [done|done|lia].
Qed.

Lemma fit_snoc b l e : nonneg (l ++ [e]) → (b < sizes (l ++ [e]))%Z → fit b (l ++ [e]) = fit b l.
Proof.
  revert b. induction l as [|x l IH]; intros b Hn Hs; cbn in *.
  - rewrite bool_decide_false; [done|lia].
  - destruct (bool_decide (size x ≤ b)%Z) eqn:Hx; [|done]. f_equal. apply IH; [|lia].
    intros y Hy. apply Hn. by right.
Qed.

Lemma fit_sizes b l : (0 ≤ b)%Z → (sizes (fit b l) ≤ b)%Z.
Proof.
  revert b. induction l as [|e l IH]; intros b Hb; cbn; [done|].
  case_bool_decide; cbn; [|done]. specialize (IH (b - size e)%Z). lia.
Qed.

Lemma last_out c li el : wf c → lru c = li ++ [el] → ∃ e,
  elements c !! el = Some e ∧ view c = omap (λ x, elements c !! x) li ++ [e] ∧
  others (owner e) (view c) = omap (λ x, elements c !! x) li ∧ list_remove (lru c) el = li.
Proof.
  intros Hc Hl. pose proof (wf_nodup _ Hc) as Hnd. rewrite Hl in Hnd.
  apply NoDup_app in Hnd as (_ & Hnot & _).
  assert (Hel : el ∉ li) by (intros Hin; apply (Hnot el Hin); by left).
  destruct (proj1 (wf_elements _ Hc el)) as [e He]; [rewrite Hl; set_solver|]. exists e.
  assert (Hv : view c = omap (λ x, elements c !! x) li ++ [e]).
  { unfold view. rewrite Hl, omap_app. cbn. by rewrite He. }
  assert (Hr : list_remove (lru c) el = li).
  { rewrite Hl. unfold list_remove. rewrite List.filter_app. cbn. rewrite Nat.eqb_refl. cbn. rewrite app_nil_r.
    clear -Hel. induction li as [|x li IH]; [done|]. cbn.
    rewrite (proj2 (Nat.eqb_neq x el)) by set_solver. cbn. by rewrite IH by set_solver. }
  split_and!; try done. rewrite <- (view_others c el e Hc He), Hr. clear -Hel.
  induction li as [|x li IH]; [done|]. cbn. rewrite lookup_delete_ne by set_solver. by rewrite IH by set_solver.
Qed.

Lemma evict_ok fuel c : wf c → (0 ≤ budget c)%Z → length (lru c) ≤ fuel →
  ∃ c', evict fuel c = Some c' ∧ wf c' ∧ view c' = fit (budget c) (view c) ∧ budget c' = budget c.
Proof.
  revert c. induction fuel as [|fuel IH]; intros c Hc Hb Hf; cbn [evict];
    destruct (bool_decide (total c ≤ budget c)%Z) eqn:Ht.
  1, 3: apply bool_decide_eq_true in Ht; exists c; split_and!; try done;
    rewrite fit_all; [done|by apply view_nonneg|rewrite <- (wf_total _ Hc); done].
  all: apply bool_decide_eq_false in Ht.
  - destruct (lru c) eqn:Hl; [|cbn in Hf; lia]. exfalso. apply Ht.
    rewrite (wf_total _ Hc). unfold view. by rewrite Hl.
  - destruct (lru c) as [|x l] eqn:Hl using rev_ind.
    { exfalso. apply Ht. rewrite (wf_total _ Hc). unfold view. by rewrite Hl. }
    clear IHl. destruct (last_out c l x Hc Hl) as (e & He & Hv & Hoth & Hrem).
    rewrite last_snoc. cbn [mbind option_bind].
    destruct (remove_ok c x e Hc He) as (c1 & Hc1 & Hwf1 & Hv1 & Hb1 & Hl1 & _).
    rewrite Hc1. cbn [mbind option_bind].
    destruct (IH c1) as (c2 & Hc2 & Hwf2 & Hv2 & Hb2); [done|lia| |].
    { rewrite Hl1, Hrem. rewrite length_app in Hf. cbn in Hf. lia. }
    exists c2. split_and!; [done|done| |congruence]. rewrite Hv2, Hb1, Hv1, Hoth, Hv.
    symmetry. apply fit_snoc; rewrite <- Hv; [by apply view_nonneg|]. rewrite <- (wf_total _ Hc). lia.
Qed.

(** *** The operations *)

Lemma byOwner_elem c o el : wf c → byOwner c !! o = Some el → ∃ e, elements c !! el = Some e ∧ owner e = o.
Proof. intros Hc. apply (wf_owner _ Hc). Qed.

Lemma push_ok c e : wf c → byOwner c !! owner e = None → (0 ≤ size e)%Z →
  let c' := (pushFront c e) <| total ::= λ t, (t + size e)%Z |> in
  wf c' ∧ view c' = e :: view c ∧ budget c' = budget c.
Proof.
  intros Hc Ho He. cbn zeta.
  assert (Hnew : elements c !! fresh c = None).
  { apply eq_None_not_Some. intros Hs%(wf_fresh _ Hc). lia. }
  assert (Hv : omap (λ x, <[fresh c := e]> (elements c) !! x) (fresh c :: lru c) = e :: view c).
  { cbn. rewrite lookup_insert_eq. f_equal. unfold view.
    assert (Hall : ∀ x, x ∈ lru c → x ≠ fresh c) by (intros x Hx%(wf_elements _ Hc)%(wf_fresh _ Hc); lia).
    revert Hall. generalize (lru c). intros l. induction l as [|x l IH]; [done|]. intros Hall. cbn.
    rewrite lookup_insert_ne by (apply not_eq_sym, Hall; by left). rewrite IH; [done|].
    intros; apply Hall; by right. }
  split_and!; [|exact Hv|done]. split; cbn.
  - constructor; [|apply Hc]. intros Hx%(wf_elements _ Hc)%(wf_fresh _ Hc). lia.
  - intros x. rewrite elem_of_cons, (wf_elements _ Hc), lookup_insert_is_Some.
    destruct (decide (fresh c = x)); naive_solver.
  - intros o x. rewrite lookup_insert_Some, (wf_owner _ Hc). setoid_rewrite lookup_insert_Some. split.
    + intros [[<- <-]|[Hne (e' & He' & <-)]]; [eauto 10|]. exists e'. split; [|done]. right. split; [|done].
      intros <-. congruence.
    + intros (e' & [[<- <-]|[Hne He']] & <-); [by left|]. right. split; [|eauto].
      intros Heq. assert (byOwner c !! owner e' = Some x) by (apply (wf_owner _ Hc); eauto). congruence.
  - intros x Hx. rewrite lookup_insert_is_Some in Hx. destruct Hx as [<-|[_ Hx]]; [lia|].
    apply (wf_fresh _ Hc) in Hx. lia.
  - change (total c + size e = sizes (omap (λ x, <[fresh c := e]> (elements c) !! x) (fresh c :: lru c)))%Z.
    rewrite Hv, (wf_total _ Hc). cbn. lia.
  - intros x e'. rewrite lookup_insert_Some. intros [[_ <-]|[_ He']]; [done|]. by eapply wf_sizes.
Qed.

Lemma drop_ok c o : wf c →
  ∃ c', drop c o = Some c' ∧ wf c' ∧ view c' = others o (view c) ∧ budget c' = budget c ∧ byOwner c' !! o = None.
Proof.
  intros Hc. unfold drop. destruct (byOwner c !! o) as [el|] eqn:Ho.
  - destruct (byOwner_elem _ _ _ Hc Ho) as (e & He & <-).
    destruct (remove_ok c el e Hc He) as (c' & Hc' & ? & ? & ? & _ & ?). eauto 10.
  - exists c. split_and!; try done. by rewrite others_none.
Qed.

Lemma put_ok c o k x n : wf c → (0 ≤ budget c)%Z → (0 ≤ n)%Z →
  ∃ c', put c o k x n = Some c' ∧ wf c' ∧ view c' = (spec (budget c) (view c) (OPut o k x n)).1 ∧
    budget c' = budget c.
Proof.
  intros Hc Hb Hn. destruct (drop_ok c o Hc) as (c1 & Hc1 & Hwf1 & Hv1 & Hb1 & Ho1).
  unfold put. unfold drop in Hc1. rewrite Hc1. cbn [mbind option_bind spec fst]. rewrite <- Hv1, Hb1.
  destruct (bool_decide (budget c < n)%Z); [eauto|].
  destruct (push_ok c1 (mkEntry o x k n 0) Hwf1 Ho1 Hn) as (Hwf2 & Hv2 & Hb2). cbn [size] in *.
  set (c2 := (pushFront c1 (mkEntry o x k n 0)) <| total ::= λ t, (t + n)%Z |>) in *.
  destruct (evict_ok (length (lru c2)) c2 Hwf2) as (c3 & Hc3 & Hwf3 & Hv3 & Hb3); [lia|done|].
  exists c3. rewrite Hv3, Hv2, Hb3, Hb2, Hb1. done.
Qed.

Lemma move_ok c el e : wf c → elements c !! el = Some e →
  wf (moveToFront c el) ∧ view (moveToFront c el) = e :: others (owner e) (view c).
Proof.
  intros Hc He. assert (Hin : el ∈ lru c) by (apply (wf_elements _ Hc); eauto).
  assert (Hv : view (moveToFront c el) = e :: others (owner e) (view c)).
  { change (view (moveToFront c el)) with (omap (λ x, elements c !! x) (el :: list_remove (lru c) el)).
    cbn [omap list_omap]. rewrite He. f_equal. rewrite <- (view_others c el e Hc He).
    assert (Hall : ∀ x, x ∈ list_remove (lru c) el → x ≠ el) by (intros x [_ ?]%list_remove_elem; done).
    revert Hall. generalize (list_remove (lru c) el). intros l. induction l as [|x l IH]; [done|].
    intros Hall. cbn. rewrite lookup_delete_ne by (apply not_eq_sym, Hall; by left).
    rewrite IH; [done|]. intros; apply Hall; by right. }
  split; [|done]. destruct Hc. split; cbn; try done.
  - constructor; [by intros [_ ?]%list_remove_elem|by apply filter_NoDup].
  - intros x. rewrite elem_of_cons, list_remove_elem, <- wf_elements0.
    destruct (decide (x = el)) as [->|]; naive_solver.
  - change (total c = sizes (view (moveToFront c el))). rewrite Hv. cbn.
    pose proof (sizes_others c el e ltac:(by split) He). lia.
Qed.

Lemma get_ok c o k : wf c →
  ∃ c' x, get c o k = Some (c', x) ∧ wf c' ∧ budget c' = budget c ∧
    (view c', AGot x) = spec (budget c) (view c) (OGet o k).
Proof.
  intros Hc. unfold get. cbn [spec]. rewrite find_view by done.
  destruct (byOwner c !! o) as [el|] eqn:Ho; cbn [mbind option_bind]; [|eauto 10].
  destruct (byOwner_elem _ _ _ Hc Ho) as (e & He & <-). rewrite He. cbn [mbind option_bind].
  destruct (bool_decide (key e = k)); cbn [negb].
  - destruct (move_ok c el e Hc He) as [? Hv]. eexists _, _. split_and!; try done. by rewrite Hv.
  - destruct (remove_ok c el e Hc He) as (c' & -> & ? & Hv & ? & _). eexists _, _. split_and!; try done.
    by rewrite Hv.
Qed.

Lemma published_ok c o k g : wf c →
  ∃ c', publishedComplete c o k g = Some c' ∧ wf c' ∧ budget c' = budget c ∧
    view c' = (spec (budget c) (view c) (OPublished o k g)).1.
Proof.
  intros Hc. unfold publishedComplete. cbn [spec fst].
  assert (Hskip : (∀ e, e ∈ view c → mine o e && bool_decide (key e = k) = false) →
    ((λ e, if mine o e && bool_decide (key e = k) then e <| completeAt_ := g |> else e) <$> view c) = view c).
  { generalize (view c). intros l. induction l as [|e l IH]; [done|]. intros Hall. cbn.
    rewrite Hall by by left. f_equal. apply IH. intros; apply Hall; by right. }
  destruct (byOwner c !! o) as [el|] eqn:Ho; cycle 1.
  { exists c. split_and!; try done. symmetry. apply Hskip. intros e [el He]%view_elem; [|done].
    unfold mine. rewrite (proj2 (String.eqb_neq _ _)); [done|]. intros Heo.
    assert (byOwner c !! o = Some el) by (apply (wf_owner _ Hc); eauto). congruence. }
  destruct (byOwner_elem _ _ _ Hc Ho) as (e & He & Heo). rewrite He. cbn [mbind option_bind].
  destruct (bool_decide (key e = k)) eqn:Hk.
  - eexists. split; [done|].
    assert (Hv : view (c <| elements ::= <[el := e <| completeAt_ := g |>]> |>) =
      ((λ e, if mine o e && bool_decide (key e = k) then e <| completeAt_ := g |> else e) <$> view c)).
    { unfold view; cbn. generalize (lru c). intros l. induction l as [|x l IH]; [done|]. cbn.
      destruct (decide (el = x)) as [<-|Hne].
      - rewrite lookup_insert_eq, He. cbn. rewrite IH. unfold mine at 2. by rewrite Heo, String.eqb_refl, Hk.
      - rewrite lookup_insert_ne by done. destruct (elements c !! x) as [e'|] eqn:Hx; [|done]. cbn. rewrite IH.
        unfold mine at 2. rewrite (proj2 (String.eqb_neq _ _)); [done|]. intros Heo'. apply Hne.
        eapply owner_inj; [done..|congruence]. }
    split_and!; [|done|done]. pose proof Hc as Hc'. destruct Hc'. split; cbn; try done.
    + intros x. rewrite wf_elements0, lookup_insert_is_Some. destruct (decide (el = x)) as [<-|]; naive_solver.
    + intros o' x. rewrite wf_owner0. setoid_rewrite lookup_insert_Some. split.
      * intros (e' & He' & Ho'). destruct (decide (el = x)) as [<-|]; [|eauto]. simplify_eq. eauto.
      * intros (e' & [[<- <-]|[_ He']] & Ho'); eauto.
    + intros x. rewrite lookup_insert_is_Some. intros [<-|[_ Hx]]; [|by apply wf_fresh0].
      apply wf_fresh0. eauto.
    + change (total c = sizes (view (c <| elements ::= <[el := e <| completeAt_ := g |>]> |>))).
      rewrite Hv, wf_total0. generalize (view c). intros l. induction l as [|e' l IH]; [done|]. cbn.
      rewrite IH. by destruct (mine o e' && _).
    + intros x e'. rewrite lookup_insert_Some. intros [[_ <-]|[_ He']]; [|by eapply wf_sizes0].
      exact (wf_sizes0 el e He).
  - exists c. split_and!; try done. symmetry. apply Hskip. intros e' [x He']%view_elem; [|done].
    destruct (mine o e') eqn:Hm; [|done]. unfold mine in Hm. apply String.eqb_eq in Hm.
    assert (x = el) as -> by (eapply owner_inj; [done..|congruence]). by simplify_eq.
Qed.

Lemma completeAt_ok c o k g : wf c →
  ∃ b, completeAt c o k g = Some b ∧ spec (budget c) (view c) (OCompleteAt o k g) = (view c, ASaid b).
Proof.
  intros Hc. unfold completeAt. cbn [spec]. rewrite find_view by done.
  destruct (byOwner c !! o) as [el|] eqn:Ho; cbn [mbind option_bind]; [|eauto].
  destruct (byOwner_elem _ _ _ Hc Ho) as (e & He & _). rewrite He. cbn. eauto.
Qed.

(** The sizes a caller gives are lengths. *)
Definition op_ok (a : op) : Prop := match a with OPut _ _ _ n => (0 ≤ n)%Z | _ => True end.

Lemma exec_ok c a : wf c → (0 ≤ budget c)%Z → op_ok a →
  ∃ c' r, exec c a = Some (c', r) ∧ wf c' ∧ budget c' = budget c ∧ (view c', r) = spec (budget c) (view c) a.
Proof.
  intros Hc Hb Ha. destruct a; cbn [exec].
  - destruct (get_ok c o k Hc) as (c' & x & -> & ? & ? & ?). cbn. eauto 10.
  - destruct (put_ok c o k x n Hc Hb Ha) as (c' & -> & ? & Hv & ?). cbn [mbind option_bind].
    eexists _, _. split_and!; try done. by rewrite Hv.
  - destruct (published_ok c o k generation Hc) as (c' & -> & ? & ? & Hv). cbn [mbind option_bind].
    eexists _, _. split_and!; try done. by rewrite Hv.
  - destruct (completeAt_ok c o k generation Hc) as (b & -> & Hv). cbn [mbind option_bind].
    eexists _, _. split_and!; try done. 
  - destruct (drop_ok c o Hc) as (c' & -> & ? & Hv & ? & _). cbn [mbind option_bind].
    eexists _, _. split_and!; try done. by rewrite Hv.
Qed.

Lemma new_wf b : wf (newIndexCache b).
Proof.
  split; cbn; try done.
  - by apply NoDup_nil_2.
  - intros el. rewrite lookup_empty, is_Some_alt. set_solver.
  - intros o el. rewrite lookup_empty. setoid_rewrite lookup_empty. naive_solver.
  - intros el. rewrite lookup_empty. by intros [? [=]].
Qed.

Lemma others_sizes o l : nonneg l → (sizes (others o l) ≤ sizes l)%Z.
Proof.
  induction l as [|e l IH]; intros Hn; [done|]. cbn. pose proof (Hn e ltac:(by left)).
  assert (sizes (others o l) ≤ sizes l)%Z by (apply IH; intros x Hx; apply Hn; by right).
  destruct (mine o e); cbn; unfold others in *; lia.
Qed.
Lemma found_sizes o l e : nonneg l → find o l = Some e → (size e + sizes (others o l) ≤ sizes l)%Z.
Proof.
  unfold find. induction l as [|x l IH]; intros Hn; [done|]. cbn. pose proof (Hn x ltac:(by left)).
  assert (Hn' : nonneg l) by (intros y Hy; apply Hn; by right). pose proof (others_sizes o l Hn').
  destruct (mine o x); cbn.
  - intros [= ->]. unfold others in *. lia.
  - intros Hf. specialize (IH Hn' Hf). unfold others in *. lia.
Qed.

Lemma spec_published b l o k g : sizes (spec b l (OPublished o k g)).1 = sizes l.
Proof.
  cbn [spec fst]. induction l as [|e l IH]; [done|]. rewrite fmap_cons. cbn [sizes]. rewrite IH. by destruct (mine o e && _).
Qed.

Lemma spec_sizes b l a : (0 ≤ b)%Z → nonneg l → (sizes l ≤ b)%Z → (sizes (spec b l a).1 ≤ b)%Z.
Proof.
  intros Hb Hn Hs. destruct a.
  3: by rewrite spec_published.
  all: cbn [spec].
  - destruct (find o l) as [e|] eqn:Hf; [|done]. pose proof (found_sizes o l e Hn Hf).
    pose proof (others_sizes o l Hn). destruct (bool_decide (key e = k)); cbn; lia.
  - pose proof (others_sizes o l Hn). destruct (bool_decide (b < n)%Z); cbn [fst]; [lia|by apply fit_sizes].
  - done.
  - pose proof (others_sizes o l Hn). cbn. lia.
Qed.

(** C37. The cache is the list of its entries, most recently used first:
    from an empty cache, whatever its operations, none panics, each answers
    as it does on that list, where a new entry leaves the longest first part
    that fits the budget; and the bytes it counts are those of its entries,
    within the budget. *)
Theorem cache_refines b ops :
  (0 ≤ b)%Z → Forall op_ok ops →
  ∃ c rs, run (newIndexCache b) ops = Some (c, rs) ∧ spec_run b [] ops = (view c, rs) ∧
    total c = sizes (view c) ∧ (total c ≤ b)%Z.
Proof.
  intros Hb Hops.
  assert (Hgen : ∀ c, wf c → budget c = b → (sizes (view c) ≤ b)%Z →
    ∃ c' rs, run c ops = Some (c', rs) ∧ spec_run b (view c) ops = (view c', rs) ∧
      total c' = sizes (view c') ∧ (total c' ≤ b)%Z).
  { induction Hops as [|a ops Ha _ IH]; intros c Hc Hcb Hs; cbn [run spec_run].
    { exists c, []. pose proof (wf_total _ Hc). split_and!; try done. lia. }
    destruct (exec_ok c a Hc) as (c1 & r & -> & Hc1 & Hb1 & Hv1); [lia|done|]. cbn [mbind option_bind].
    pose proof (spec_sizes b (view c) a Hb (view_nonneg c Hc) Hs) as Hs1.
    rewrite Hcb in Hv1. rewrite <- Hv1 in Hs1 |- *. cbn [fst] in Hs1.
    destruct (IH c1 Hc1) as (c2 & rs & -> & Hrs & ? & ?); [congruence|done|]. cbn [mbind option_bind].
    rewrite Hrs. eauto 10. }
  destruct (Hgen (newIndexCache b)) as (c & rs & ? & ? & ? & ?); [apply new_wf|done|done|]. eauto 10.
Qed.
End Cache.

(** Three indexes in room for two. *)
Lemma cache_refines_witness :
  let put3 := [OPut "a" [] 1 4; OPut "b" [] 2 4; OGet "a" []; OPut "c" [] 3 4] in
  ∃ (c : indexCache (Ix := nat)) rs, run (newIndexCache 10) put3 = Some (c, rs) ∧
    spec_run 10 [] put3 = (view c, rs) ∧ owner <$> view c = ["c"; "a"]%string ∧
    rs = [ANone; ANone; AGot (Some 1); ANone] ∧ (total c ≤ 10)%Z.
Proof.
  cbn zeta.
  destruct (cache_refines (Ix := nat) 10 [OPut "a" [] 1 4; OPut "b" [] 2 4; OGet "a" []; OPut "c" [] 3 4])
    as (c & rs & Hr & Hs & _ & Ht); [lia|repeat constructor; cbn; lia|].
  exists c, rs. split; [exact Hr|]. split; [exact Hs|].
  assert (Hl : owner <$> (spec_run (Ix := nat) 10 []
      [OPut "a" [] 1 4; OPut "b" [] 2 4; OGet "a" []; OPut "c" [] 3 4]).1 = ["c"; "a"]%string) by reflexivity.
  assert (Hr' : (spec_run (Ix := nat) 10 []
      [OPut "a" [] 1 4; OPut "b" [] 2 4; OGet "a" []; OPut "c" [] 3 4]).2 =
      [ANone; ANone; AGot (Some 1); ANone]) by reflexivity.
  rewrite Hs in Hl, Hr'. split_and!; [exact Hl|exact Hr'|exact Ht].
Defined.
End Cache.
