(* ===== verification/Quota.v ===== *)
(** * A caller's quota: internal/api/quota.go

    What the credential exchanges answer of a caller's limits, and what a
    run's request and tokens leave of them. *)

From S2P Require Import Prelude GoStd.

Module Quota.
Import GoStd.

(** An [int] keeps its 64 bits. *)
Definition wrap64 (n : Z) : Z := ((n + 2 ^ 63) mod 2 ^ 64 - 2 ^ 63)%Z.
Definition is_int (n : Z) : Prop := (min_int ≤ n ≤ max_int)%Z.

Lemma wrap64_id n : is_int n → wrap64 n = n.
Proof. unfold is_int, wrap64, min_int, max_int. intros H. rewrite Z.mod_small; lia. Qed.
Lemma wrap64_int n : is_int (wrap64 n).
Proof. unfold is_int, wrap64, min_int, max_int. pose proof (Z.mod_pos_bound (n + 2 ^ 63) (2 ^ 64)). lia. Qed.

Record tokenBudget := mkBudget { Max : Z; Used : Z; Remaining : Z }.

(** [Kind] is nil or a string wherever the program sets it. *)
Record RateLimit := mkRateLimit {
  Kind : option string;
  MaxRequests : option Z;
  Requests : option Z; (* [Remaining] *)
  InputTokens : option tokenBudget;
  OutputTokens : option tokenBudget;
  ResetsAt : string;
}.
#[global] Instance RateLimit_eta : Eta RateLimit := λ l,
  mkRateLimit (Kind l) (MaxRequests l) (Requests l) (InputTokens l) (OutputTokens l) (ResetsAt l).

Definition Exhausted (l : RateLimit) : bool :=
  match Requests l with Some n => bool_decide (n ≤ 0)%Z | None => false end.

Definition ExhaustedLimit (kind : string) : RateLimit :=
  mkRateLimit (Some kind) (Some 0%Z) (Some 0%Z) None None "".

Record Quota := mkQuota {
  QMaxRequests : option Z;
  QRemaining : option Z;
  MaxInput : option Z;
  InputUsed : option Z;
  InputRemaining : option Z;
  MaxOutput : option Z;
  OutputUsed : option Z;
  OutputRemaining : option Z;
  QResetsAt : string;
}.

Definition budget (limit used remaining : option Z) : option tokenBudget :=
  match limit, used, remaining with
  | Some limit, Some used, Some remaining =>
      if bool_decide (limit ≤ 0)%Z then None else Some (mkBudget limit used remaining)
  | _, _, _ => None
  end.

Definition Limit (q : Quota) (kind : string) : RateLimit :=
  let l := mkRateLimit (Some kind) None None
             (budget (MaxInput q) (InputUsed q) (InputRemaining q))
             (budget (MaxOutput q) (OutputUsed q) (OutputRemaining q)) (QResetsAt q) in
  match QMaxRequests q, QRemaining q with
  | Some n, Some r =>
      if bool_decide (0 < n)%Z then l <| MaxRequests := Some n |> <| Requests := Some r |> else l
  | _, _ => l
  end.

Record Usage := mkUsage { Prompt : Z; Completion : Z; Total : Z }.

(** A nil budget stays nil; [int(tokens)] keeps an [int64]. *)
Definition spend (b : option tokenBudget) (tokens : Z) : option tokenBudget :=
  (λ b, mkBudget (Max b) (wrap64 (Used b + tokens)) (0 `max` wrap64 (Remaining b - tokens)))%Z <$> b.

Definition Debited (l : RateLimit) (spent : Usage) : RateLimit :=
  l <| Requests ::= fmap (λ n, 0 `max` wrap64 (n - 1))%Z |>
    <| InputTokens ::= λ b, spend b (Prompt spent) |>
    <| OutputTokens ::= λ b, spend b (Completion spent) |>.

Definition None_ (l : RateLimit) : RateLimit :=
  let l := match MaxRequests l with None => l <| MaxRequests := Some 0%Z |> | Some _ => l end in
  l <| Requests := Some 0%Z |>.

(** What a refusal for a spent quota leaves: [auth.Exhausted]. *)
Definition free_prefix : string := "free_".
Definition ExhaustedOf (inferenceKey : string) (held : RateLimit) : RateLimit :=
  None_ (if String.prefix free_prefix inferenceKey then held <| Kind := Some "free_daily"%string |> else held).

(** The quota a sequence of runs leaves. *)
Definition runs (l : RateLimit) (spends : list Usage) : RateLimit := foldl Debited l spends.

(** ** Bounds *)

Definition count (n : Z) : Prop := (0 ≤ n ≤ max_int)%Z.
Definition counts (n : option Z) : Prop := ∀ x, n = Some x → count x.
(** The numbers of a quota are counts where they are given. *)
Definition quota_ok (q : Quota) : Prop :=
  Forall counts [QMaxRequests q; QRemaining q; MaxInput q; InputUsed q; InputRemaining q;
                 MaxOutput q; OutputUsed q; OutputRemaining q].
Definition usage_ok (u : Usage) : Prop := count (Prompt u) ∧ count (Completion u).

Definition total_of (f : Usage → Z) (spends : list Usage) : Z := foldr (λ u n, f u + n)%Z 0%Z spends.

(** What is left of [n] after [spent]. *)
Definition left_of (n spent : Z) : Z := (0 `max` (n - spent))%Z.

Lemma left_count n k : count n → count k → left_of n k = (0 `max` wrap64 (n - k))%Z ∧ count (left_of n k).
Proof.
  unfold count, left_of. intros ??. rewrite wrap64_id; [split; lia|]. unfold is_int, min_int, max_int in *. lia.
Qed.
Lemma left_left n a b : (0 ≤ b)%Z → left_of (left_of n a) b = left_of n (a + b).
Proof. unfold left_of. lia. Qed.
Lemma wrap64_add a b : wrap64 (wrap64 a + b) = wrap64 (a + b).
Proof.
  unfold wrap64. f_equal.
  replace ((a + 2 ^ 63) mod 2 ^ 64 - 2 ^ 63 + b + 2 ^ 63)%Z with ((a + 2 ^ 63) mod 2 ^ 64 + b)%Z by lia.
  rewrite Z.add_mod_idemp_l by lia. f_equal. lia.
Qed.

Definition budget_ok (b : option tokenBudget) : Prop := ∀ x, b = Some x → is_int (Used x) ∧ count (Remaining x).

(** A budget after the tokens [spends] took from it. *)
Definition budget_after (b : option tokenBudget) (n : Z) : option tokenBudget :=
  (λ b, mkBudget (Max b) (wrap64 (Used b + n)) (left_of (Remaining b) n)) <$> b.

Lemma total_count f spends : Forall (λ u, count (f u)) spends → (0 ≤ total_of f spends)%Z.
Proof. unfold total_of. induction 1 as [|u l Hu _ IH]; cbn; [lia|]. unfold count in Hu. lia. Qed.

Lemma spend_runs f b spends :
  budget_ok b → Forall (λ u, count (f u)) spends →
  foldl (λ b u, spend b (f u)) b spends = budget_after b (total_of f spends).
Proof.
  intros Hb Hs. revert b Hb. induction Hs as [|u l Hu Hl IH]; intros b Hb.
  - cbn. destruct b as [[m us r]|]; [|done]. cbn. destruct (Hb _ eq_refl) as [H1 H2]. cbn in *.
    rewrite Z.add_0_r, wrap64_id by done. unfold left_of. rewrite Z.sub_0_r. destruct H2 as [H2 _]. by rewrite Z.max_r.
  - cbn [foldl total_of foldr]. destruct b as [[m us r]|]; cbn [spend fmap option_fmap option_map].
    2: { rewrite IH by done. done. }
    destruct (Hb _ eq_refl) as [H1 H2]. cbn in H1, H2 |- *. destruct (left_count r (f u) H2 Hu) as [He Hc].
    rewrite <- He. rewrite IH; cbn.
    + rewrite wrap64_add, Z.add_assoc, left_left by by apply total_count. done.
    + intros x [= <-]. cbn. split; [apply wrap64_int|done].
Qed.

Lemma requests_runs r (spends : list Usage) :
  counts r → foldl (λ r _, (λ n, 0 `max` wrap64 (n - 1))%Z <$> r) r spends =
             (λ n, left_of n (Z.of_nat (length spends))) <$> r.
Proof.
  revert r. induction spends as [|u l IH]; intros r Hr.
  - cbn. destruct r as [n|]; [|done]. cbn. specialize (Hr n eq_refl). unfold count, left_of in *. f_equal. lia.
  - cbn [foldl length]. destruct r as [n|]; cbn [fmap option_fmap option_map]; [|by rewrite IH].
    destruct (left_count n 1) as [He Hc]; [by apply Hr|done|]. rewrite <- He. rewrite IH.
    + cbn. rewrite left_left by lia. do 2 f_equal. lia.
    + by intros x [= <-].
Qed.

Lemma runs_fields l spends :
  runs l spends = mkRateLimit (Kind l) (MaxRequests l)
    (foldl (λ r _, (λ n, 0 `max` wrap64 (n - 1))%Z <$> r) (Requests l) spends)
    (foldl (λ b u, spend b (Prompt u)) (InputTokens l) spends)
    (foldl (λ b u, spend b (Completion u)) (OutputTokens l) spends) (ResetsAt l).
Proof.
  unfold runs. revert l. induction spends as [|u s IH]; intros l; [by destruct l|]. cbn [foldl]. by rewrite IH.
Qed.

Lemma budget_good a b c : counts b → counts c → budget_ok (budget a b c).
Proof.
  intros Hb Hc x. unfold budget. destruct a as [a|], b as [b|], c as [c|]; try done.
  destruct (bool_decide (a ≤ 0)%Z); [done|]. intros [= <-]. cbn. specialize (Hb _ eq_refl).
  split; [|by apply Hc]. unfold is_int, count, min_int in *. lia.
Qed.

(** The quota an exchange answered with, after any runs: the requests
    left are what there were less the runs, never below zero, so a caller
    whose requests count is refused exactly once its runs are as many; each
    token budget holds what its runs left of it, never below zero, and what
    they used, kept to 64 bits; and a limit the exchange left out stays
    unlimited. *)
Theorem quota_runs q kind spends :
  quota_ok q → Forall usage_ok spends →
  let l := Limit q kind in let l' := runs l spends in let n := Z.of_nat (length spends) in
  Requests l' = (λ r, left_of r n) <$> Requests l ∧
  InputTokens l' = budget_after (InputTokens l) (total_of Prompt spends) ∧
  OutputTokens l' = budget_after (OutputTokens l) (total_of Completion spends) ∧
  Kind l' = Some kind ∧ MaxRequests l' = MaxRequests l ∧ ResetsAt l' = QResetsAt q ∧
  (Exhausted l' = true ↔ ∃ m r, QMaxRequests q = Some m ∧ (0 < m)%Z ∧ QRemaining q = Some r ∧ (r ≤ n)%Z).
Proof.
  intros Hq Hs. cbn zeta. unfold quota_ok in Hq. rewrite !Forall_cons in Hq.
  destruct Hq as (_ & Hr & _ & Hiu & Hir & _ & Hou & Hor & _).
  assert (Hl : Requests (Limit q kind) = m ← QMaxRequests q; r ← QRemaining q;
             if bool_decide (0 < m)%Z then Some r else None).
  { unfold Limit. destruct (QMaxRequests q) as [m|], (QRemaining q) as [r|]; cbn; try done.
    by destruct (bool_decide (0 < m)%Z). }
  assert (Hl' : Kind (Limit q kind) = Some kind ∧ ResetsAt (Limit q kind) = QResetsAt q ∧
      InputTokens (Limit q kind) = budget (MaxInput q) (InputUsed q) (InputRemaining q) ∧
      OutputTokens (Limit q kind) = budget (MaxOutput q) (OutputUsed q) (OutputRemaining q)).
  { unfold Limit. destruct (QMaxRequests q) as [m|], (QRemaining q) as [r|]; cbn; try done.
    by destruct (bool_decide (0 < m)%Z). }
  destruct Hl' as (Hk & Ht & Hi & Ho).
  assert (Hc : counts (Requests (Limit q kind))).
  { rewrite Hl. intros x. destruct (QMaxRequests q) as [m|], (QRemaining q) as [r|]; cbn; try done.
    destruct (bool_decide (0 < m)%Z); [|done]. intros [= <-]. by apply Hr. }
  rewrite runs_fields. cbn [Requests InputTokens OutputTokens Kind MaxRequests ResetsAt].
  rewrite requests_runs, !spend_runs; [|rewrite ?Hi, ?Ho; by apply budget_good|
    eapply Forall_impl; [exact Hs|]; by intros u []|rewrite ?Hi, ?Ho; by apply budget_good|
    eapply Forall_impl; [exact Hs|]; by intros u []|done].
  split_and!; try done. unfold Exhausted. cbn [Requests]. rewrite Hl.
  destruct (QMaxRequests q) as [m|], (QRemaining q) as [r|]; cbn; try naive_solver.
  destruct (decide (0 < m)%Z); [rewrite (bool_decide_true (0 < m)%Z) by done|
    rewrite (bool_decide_false (0 < m)%Z) by done]; cbn; [|naive_solver lia].
  rewrite bool_decide_eq_true. unfold left_of. naive_solver lia.
Qed.

(** A free key with one request left. *)
Lemma quota_runs_witness :
  let q := mkQuota (Some 10%Z) (Some 1%Z) None None None (Some 100%Z) (Some 40%Z) (Some 60%Z) "midnight" in
  let l' := runs (Limit q "free_daily") [mkUsage 5 70 75]%Z in
  Exhausted (Limit q "free_daily") = false ∧ Exhausted l' = true ∧
  InputTokens l' = None ∧ OutputTokens l' = Some (mkBudget 100 110 0).
Proof.
  cbn zeta. split; [reflexivity|].
  destruct (quota_runs (mkQuota (Some 10%Z) (Some 1%Z) None None None (Some 100%Z) (Some 40%Z) (Some 60%Z) "midnight")
    "free_daily" [mkUsage 5 70 75]%Z) as (_ & Hi & Ho & _ & _ & _ & He).
  - unfold quota_ok, counts, count, max_int. rewrite !Forall_cons. split_and!; [intros x; cbn; intros H; simplify_eq; lia..|by apply Forall_nil_2].
  - rewrite Forall_singleton. split; cbn; unfold count, max_int; lia.
  - split; [|split; [rewrite Hi; reflexivity|rewrite Ho; reflexivity]].
    apply He. cbn. exists 10%Z, 1%Z. repeat split; lia.
Defined.

(** A refusal for a spent quota leaves no request, and none comes back. *)
Lemma exhausted_stays key held spends :
  Exhausted (ExhaustedOf key held) = true ∧ Exhausted (runs (ExhaustedOf key held) spends) = true.
Proof.
  assert (H : Requests (ExhaustedOf key held) = Some 0%Z) by done.
  split; [done|]. rewrite runs_fields. unfold Exhausted. cbn [Requests]. rewrite H, requests_runs by by intros x [= <-].
  cbn. unfold left_of. apply bool_decide_eq_true. lia.
Qed.
End Quota.
