(* ===== verification/Gate.v ===== *)
(** * The rationing of inference calls: internal/search/gate.go

    Calls in flight take a slot of their caller's and one of the process's,
    at a rate each; the callers tracked are bounded.  Calls of several
    goroutines interleave at each lock taken and each channel operation. *)

From S2P Require Import Prelude GoStd.

Module Gate.
Import GoStd.

(** [golang.org/x/time/rate]; times are nanoseconds. *)
Record RateOps := mkRateOps {
  Limiter : Type;
  Reservation : Type;
  NewLimiter : Z → Z → Limiter;
  Burst : Limiter → Z;
  ReserveN : Limiter → Z → Z → Limiter * Reservation;
  OK : Reservation → bool;
  DelayFrom : Reservation → Z → Z;
  CancelAt : Limiter → Reservation → Z → Limiter;
}.

Definition globalInputsPerSecond : Z := 100.
Definition globalInputBurst : Z := 256.
Definition globalConcurrentCalls : nat := 16.
Definition callerInputsPerSecond : Z := 10.
Definition callerInputBurst : Z := 32.
Definition callerConcurrentCalls : nat := 2.
Definition second : Z := 1000000000.
Definition limiterIdle : Z := 10 * 60 * second.
Definition limiterMaxCallers : nat := N.to_nat 10000.

Record inferenceLimits := mkLimits {
  globalRate : Z;
  globalBurst : Z;
  globalConcurrent : nat;
  callerRate : Z;
  callerBurst : Z;
  callerConcurrent : nat;
}.

Definition defaultInferenceLimits : inferenceLimits := {|
  globalRate := globalInputsPerSecond;
  globalBurst := globalInputBurst;
  globalConcurrent := globalConcurrentCalls;
  callerRate := callerInputsPerSecond;
  callerBurst := callerInputBurst;
  callerConcurrent := callerConcurrentCalls |}.

Section Gate.
Context (ops : RateOps).
Notation R := (Limiter ops).

(** [slots] is how many values the channel holds. *)
Record callerLimit := mkCaller {
  foreground : R;
  background : R;
  slots : nat;
  lastUsed : Z;
  active : Z;
}.
#[global] Instance callerLimit_eta : Eta callerLimit := λ l,
  mkCaller (foreground l) (background l) (slots l) (lastUsed l) (active l).

(** Where a call is in [acquire], its release or its refusal: before each
    operation on what it shares with other calls. *)
Inductive pc := PRate | PTicker | PSlot | PGlobal | PReserve | PHeld | PFreeGlobal | PFreeSlot | PFinish.
#[global] Instance pc_eq_dec : EqDecision pc.
Proof. solve_decision. Defined.

Record call := mkCall { c_owner : string; c_limit : nat; c_inputs : Z; c_wait : bool; c_pc : pc }.
#[global] Instance call_eta : Eta call := λ c,
  mkCall (c_owner c) (c_limit c) (c_inputs c) (c_wait c) (c_pc c).

(** [heap] holds the limits calls and [callers] point to. *)
Record inferenceGate := mkGate {
  limits : inferenceLimits;
  global : R;
  globalSlots : nat;
  heap : gmap nat callerLimit;
  callers : gmap string nat;
  next : nat;
  calls : gmap nat call;
}.
#[global] Instance inferenceGate_eta : Eta inferenceGate := λ g,
  mkGate (limits g) (global g) (globalSlots g) (heap g) (callers g) (next g) (calls g).

Definition newInferenceGate (l : inferenceLimits) : inferenceGate :=
  mkGate l (NewLimiter ops (globalRate l) (globalBurst l)) 0 ∅ ∅ 0 ∅.

(** The walk over the callers, in the order the map gives them: those idle
    are forgotten, and the longest unused of the rest is the result. *)
Fixpoint forgetIdle (g : inferenceGate) (now : Z) (order : list string) (oldest : string * Z)
    : inferenceGate * (string * Z) :=
  match order with
  | [] => (g, oldest)
  | id :: order =>
      match callers g !! id ≫= λ l, heap g !! l with
      | None => forgetIdle g now order oldest
      | Some limit =>
          if negb (bool_decide (active limit = 0%Z)) then forgetIdle g now order oldest
          else if bool_decide (limiterIdle ≤ now - lastUsed limit)%Z then
            forgetIdle (g <| callers ::= delete id |>) now order oldest
          else if String.eqb oldest.1 "" || bool_decide (lastUsed limit < oldest.2)%Z then
            forgetIdle g now order (id, lastUsed limit)
          else forgetIdle g now order oldest
      end
  end.

Definition forgetOne (g : inferenceGate) (oldestID : string) : inferenceGate :=
  if bool_decide (limiterMaxCallers ≤ size (callers g)) && negb (String.eqb oldestID "")
  then g <| callers ::= delete oldestID |> else g.

Definition track (g : inferenceGate) (owner : string) (now : Z) : inferenceGate * option nat :=
  if bool_decide (limiterMaxCallers ≤ size (callers g)) then (g, None)
  else
    let l := limits g in
    let limit := mkCaller (NewLimiter ops (callerRate l) (callerBurst l))
                   (NewLimiter ops (callerRate l) (callerBurst l)) 0 now 1 in
    (g <| heap ::= <[next g := limit]> |> <| callers ::= <[owner := next g]> |> <| next ::= S |>, Some (next g)).

Definition begin (g : inferenceGate) (owner : string) (now : Z) (order : list string)
    : inferenceGate * option nat :=
  match callers g !! owner with
  | Some l =>
      (g <| heap ::= alter (λ limit, limit <| lastUsed := now |> <| active ::= λ n, (n + 1)%Z |>) l |>, Some l)
  | None =>
      let g := if bool_decide (limiterMaxCallers ≤ size (callers g)) then
                 let '(g, oldest) := forgetIdle g now order (""%string, 0%Z) in forgetOne g oldest.1
               else g in
      track g owner now
  end.

(** [reserveRate]: the caller's limiter, the global one, and whether both
    had the inputs. *)
Definition reserve (caller global : R) (now inputs : Z) : R * R * bool :=
  let '(caller', r) := ReserveN ops caller now inputs in
  if negb (OK ops r) || bool_decide (0 < DelayFrom ops r now)%Z then
    ((if OK ops r then CancelAt ops caller' r now else caller'), global, false)
  else
    let '(global', s) := ReserveN ops global now inputs in
    if negb (OK ops s) || bool_decide (0 < DelayFrom ops s now)%Z then
      (CancelAt ops caller' r now, (if OK ops s then CancelAt ops global' s now else global'), false)
    else (caller', global', true).

Definition limiterOf (wait : bool) (l : callerLimit) : R := if wait then background l else foreground l.
Definition setLimiter (wait : bool) (r : R) (l : callerLimit) : callerLimit :=
  if wait then l <| background := r |> else l <| foreground := r |>.

Definition reserveRate (g : inferenceGate) (l : nat) (wait : bool) (now inputs : Z) : option (inferenceGate * bool) :=
  limit ← heap g !! l;
  let '(r, gl, ok) := reserve (limiterOf wait limit) (global g) now inputs in
  Some (g <| heap ::= alter (setLimiter wait r) l |> <| global := gl |>, ok).

(** [takeSlot] of a channel of [cap] values that holds [used]: [take] is
    the branch of the select that runs.  A send to a full channel does not
    run; the default runs only for one. *)
Definition takeSlot (used cap : nat) (wait take : bool) : option bool :=
  if take then (if bool_decide (used < cap) then Some true else None)
  else if wait then Some false
  else if bool_decide (used < cap) then None else Some false.

Definition set_pc (g : inferenceGate) (i : nat) (p : pc) : inferenceGate :=
  g <| calls ::= alter (λ c, c <| c_pc := p |>) i |>.

(** A receive: it blocks on an empty channel. *)
Definition receive (used : nat) : option nat := match used with 0 => None | S n => Some n end.

Inductive event :=
  | EBegin (i : nat) (owner : string) (inputs : Z) (wait : bool) (now : Z) (order : list string)
  | ERate (i : nat) (now : Z)      (* the background caller asks its rate *)
  | ETick (i : nat)                (* its ticker fires: it asks again *)
  | EEnded (i : nat)               (* its context ended while it waits for its rate *)
  | ESlot (i : nat) (take : bool)
  | EGlobal (i : nat) (take : bool)
  | EReserve (i : nat) (now : Z)
  | ERelease (i : nat)
  | EFreeGlobal (i : nat)
  | EFreeSlot (i : nat)
  | EFinish (i : nat) (now : Z).

Definition at_pc (g : inferenceGate) (i : nat) (p : pc) : option call :=
  c ← calls g !! i; if bool_decide (c_pc c = p) then Some c else None.

(** One turn of [waitForRate]: the rate is taken, or the ticker awaited. *)
Definition waitForRate (g : inferenceGate) (i : nat) (c : call) (now : Z) : option inferenceGate :=
  limit ← heap g !! c_limit c;
  if bool_decide (Burst ops (background limit) < c_inputs c)%Z || bool_decide (Burst ops (global g) < c_inputs c)%Z
  then Some (set_pc g i PFinish)
  else
    '(g, ok) ← reserveRate g (c_limit c) true now (c_inputs c);
    Some (set_pc g i (if ok : bool then PSlot else PTicker)).

(** [acquire] and what it returns, from one shared operation to the next;
    [None] where the event cannot happen. *)
Definition step (g : inferenceGate) (e : event) : option inferenceGate :=
  match e with
  | EBegin i owner inputs wait now order =>
      if bool_decide (is_Some (calls g !! i)) then None
      else if negb (bool_decide (NoDup order) && bool_decide (list_to_set order =@{gset string} dom (callers g)))
      then None
      else if bool_decide (inputs ≤ 0)%Z then Some g
      else
        let '(g, l) := begin g owner now order in
        match l with
        | None => Some g
        | Some l => Some (g <| calls ::= <[i := mkCall owner l inputs wait (if wait then PRate else PSlot)]> |>)
        end
  | ERate i now =>
      c ← at_pc g i PRate; waitForRate g i c now
  | ETick i => _ ← at_pc g i PTicker; Some (set_pc g i PRate)
  | EEnded i => _ ← at_pc g i PTicker; Some (set_pc g i PFinish)
  | ESlot i take =>
      c ← at_pc g i PSlot;
      limit ← heap g !! c_limit c;
      taken ← takeSlot (slots limit) (callerConcurrent (limits g)) (c_wait c) take;
      Some (if taken : bool
            then set_pc (g <| heap ::= alter (λ l, l <| slots ::= S |>) (c_limit c) |>) i PGlobal
            else set_pc g i PFinish)
  | EGlobal i take =>
      c ← at_pc g i PGlobal;
      taken ← takeSlot (globalSlots g) (globalConcurrent (limits g)) (c_wait c) take;
      Some (if taken : bool
            then set_pc (g <| globalSlots ::= S |>) i (if c_wait c then PHeld else PReserve)
            else set_pc g i PFreeSlot)
  | EReserve i now =>
      c ← at_pc g i PReserve;
      '(g, ok) ← reserveRate g (c_limit c) false now (c_inputs c);
      Some (set_pc g i (if ok : bool then PHeld else PFreeGlobal))
  | ERelease i => _ ← at_pc g i PHeld; Some (set_pc g i PFreeGlobal)
  | EFreeGlobal i =>
      _ ← at_pc g i PFreeGlobal;
      n ← receive (globalSlots g);
      Some (set_pc (g <| globalSlots := n |>) i PFreeSlot)
  | EFreeSlot i =>
      c ← at_pc g i PFreeSlot;
      limit ← heap g !! c_limit c;
      n ← receive (slots limit);
      Some (set_pc (g <| heap ::= alter (λ l, l <| slots := n |>) (c_limit c) |>) i PFinish)
  | EFinish i now =>
      c ← at_pc g i PFinish;
      Some (g <| heap ::= alter (λ l, l <| active ::= λ n, (n - 1)%Z |> <| lastUsed := now |>) (c_limit c) |>
              <| calls ::= delete i |>)
  end.

Fixpoint run (g : inferenceGate) (es : list event) : option inferenceGate :=
  match es with
  | [] => Some g
  | e :: es => g ← step g e; run g es
  end.

(** ** Counting calls *)

Definition count (p : call → bool) (m : gmap nat call) : nat :=
  map_fold (λ _ c n, (if p c then 1 else 0) + n) 0 m.

Lemma count_insert p m i c : m !! i = None → count p (<[i := c]> m) = (if p c then 1 else 0) + count p m.
Proof. intros H. unfold count. rewrite map_fold_insert_L; [done| |done]. intros. lia. Qed.

Lemma count_split p m i c : m !! i = Some c → count p m = (if p c then 1 else 0) + count p (delete i m).
Proof.
  intros H. rewrite <- (insert_id m i c) at 1 by done. rewrite <- insert_delete_eq.
  by rewrite count_insert by apply lookup_delete_eq.
Qed.

Lemma count_alter p f m i c : m !! i = Some c →
  count p (alter f i m) + (if p c then 1 else 0) = count p m + (if p (f c) then 1 else 0).
Proof.
  intros H. rewrite (count_split p m i c H).
  rewrite (count_split p (alter f i m) i (f c)) by (rewrite lookup_alter_eq, H; done).
  rewrite delete_alter_eq. lia.
Qed.

Lemma count_pos p m i c : m !! i = Some c → p c = true → 0 < count p m.
Proof. intros H Hp. rewrite (count_split p m i c H), Hp. lia. Qed.

Lemma count_le p q m : (∀ i c, m !! i = Some c → p c = true → q c = true) → count p m ≤ count q m.
Proof.
  induction m as [|i c m Hi IH] using map_ind; intros H; [done|]. rewrite !count_insert by done.
  assert (count p m ≤ count q m).
  { apply IH. intros j d Hj. apply H with j. rewrite lookup_insert_ne; [done|]. intros ->. congruence. }
  specialize (H i c (lookup_insert_eq _ _ _)). destruct (p c), (q c); lia.
Qed.

Lemma count_false m : count (λ _, false) m = 0.
Proof. induction m as [|i c m Hi IH] using map_ind; [done|]. by rewrite count_insert. Qed.

(** The calls that hold a slot of the process's, of the caller of a limit,
    and those the limit is in use by. *)
Definition holds_global (c : call) : bool :=
  match c_pc c with PReserve | PHeld | PFreeGlobal => true | _ => false end.
Definition holds_slot (c : call) : bool :=
  match c_pc c with PGlobal | PReserve | PHeld | PFreeGlobal | PFreeSlot => true | _ => false end.
Definition of_limit (l : nat) (c : call) : bool := Nat.eqb (c_limit c) l.
Definition slot_of (l : nat) (c : call) : bool := holds_slot c && of_limit l c.

Definition limit_ok (g : inferenceGate) (l : nat) : Prop :=
  ∃ limit, heap g !! l = Some limit ∧ slots limit = count (slot_of l) (calls g) ∧
    slots limit ≤ callerConcurrent (limits g) ∧ active limit = Z.of_nat (count (of_limit l) (calls g)).

Record wf (g : inferenceGate) : Prop := {
  wf_global : globalSlots g = count holds_global (calls g) ∧ globalSlots g ≤ globalConcurrent (limits g);
  wf_calls i c : calls g !! i = Some c → callers g !! c_owner c = Some (c_limit c);
  wf_limits o l : callers g !! o = Some l → limit_ok g l;
  wf_next o l : callers g !! o = Some l → l < next g;
  wf_size : size (callers g) ≤ limiterMaxCallers;
}.

(** A call at a point of its own has its limit. *)
Lemma at_pc_inv g i p c : at_pc g i p = Some c → calls g !! i = Some c ∧ c_pc c = p.
Proof.
  unfold at_pc. destruct (calls g !! i) as [d|]; [|done]. cbn.
  destruct (bool_decide (c_pc d = p)) eqn:Hp; [|done]. intros [= ->]. split; [done|]. by apply bool_decide_eq_true in Hp.
Qed.

Lemma call_limit g i c : wf g → calls g !! i = Some c → limit_ok g (c_limit c).
Proof. intros Hg Hc. eapply wf_limits, wf_calls; eauto. Qed.

Definition b2n (b : bool) : nat := if b then 1 else 0.
Definition to_pc (p : pc) (c : call) : call := c <| c_pc := p |>.

(** A call moved on, with what it took or gave back. *)
Lemma wf_move g g' i c p : wf g → calls g !! i = Some c →
  limits g' = limits g → callers g' = callers g → next g' = next g → calls g' = alter (to_pc p) i (calls g) →
  globalSlots g' + b2n (holds_global c) = globalSlots g + b2n (holds_global (to_pc p c)) →
  globalSlots g' ≤ globalConcurrent (limits g) →
  (∀ l limit, heap g !! l = Some limit → ∃ limit', heap g' !! l = Some limit' ∧ active limit' = active limit ∧
     slots limit' + b2n (slot_of l c) = slots limit + b2n (slot_of l (to_pc p c)) ∧
     (slots limit' ≤ callerConcurrent (limits g) ∨ slots limit' ≤ slots limit)) →
  wf g'.
Proof.
  intros Hg Hc Hl Hcs Hn Hm Hgl Hcap Hheap. destruct (wf_global _ Hg) as [Hw _].
  split.
  - rewrite Hl, Hm. split; [|done]. pose proof (count_alter holds_global (to_pc p) _ _ _ Hc). unfold b2n in *. lia.
  - intros j d. rewrite Hm, Hcs. destruct (decide (j = i)) as [->|Hne].
    + rewrite lookup_alter_eq, Hc. cbn [fmap option_fmap option_map]. intros [= <-]. exact (wf_calls _ Hg i c Hc).
    + rewrite lookup_alter_ne by done. apply (wf_calls _ Hg).
  - intros o l. rewrite Hcs. intros Ho. destruct (wf_limits _ Hg o l Ho) as (limit & Hh & Hs & Hsc & Ha).
    destruct (Hheap l limit Hh) as (limit' & Hh' & Ha' & Hs' & Hsc'). exists limit'.
    rewrite Hl, Hm. pose proof (count_alter (slot_of l) (to_pc p) _ _ _ Hc) as Hcount.
    pose proof (count_alter (of_limit l) (to_pc p) _ _ _ Hc) as Hcount'.
    assert (of_limit l (to_pc p c) = of_limit l c) as Hof by done. rewrite Hof in Hcount'.
    unfold b2n in *. split_and!; try done; try lia.
  - intros o l. rewrite Hcs, Hn. apply (wf_next _ Hg).
  - rewrite Hcs. apply Hg.
Qed.

(** The same where nothing is taken or given back. *)
Lemma wf_same g g' i c p : wf g → calls g !! i = Some c →
  limits g' = limits g → callers g' = callers g → next g' = next g → calls g' = alter (to_pc p) i (calls g) →
  globalSlots g' = globalSlots g →
  (∀ l limit, heap g !! l = Some limit →
     ∃ limit', heap g' !! l = Some limit' ∧ active limit' = active limit ∧ slots limit' = slots limit) →
  holds_global (to_pc p c) = holds_global c → holds_slot (to_pc p c) = holds_slot c → wf g'.
Proof.
  intros Hg Hc ????? Hheap H1 H2. eapply (wf_move g g' i c p); try done.
  - rewrite H1. lia.
  - destruct (wf_global _ Hg). congruence.
  - intros l limit Hh. destruct (Hheap l limit Hh) as (limit' & ? & ? & ?). exists limit'.
    assert (slot_of l (to_pc p c) = slot_of l c) as -> by (unfold slot_of; rewrite H2; done).
    split_and!; try done; lia.
Qed.

Lemma reserve_heap g l wait now n g' ok : reserveRate g l wait now n = Some (g', ok) →
  limits g' = limits g ∧ callers g' = callers g ∧ next g' = next g ∧ calls g' = calls g ∧
  globalSlots g' = globalSlots g ∧
  ∀ k limit, heap g !! k = Some limit →
    ∃ limit', heap g' !! k = Some limit' ∧ active limit' = active limit ∧ slots limit' = slots limit.
Proof.
  unfold reserveRate. destruct (heap g !! l) as [lim|]; [|done]. cbn [mbind option_bind].
  destruct (reserve _ _ _ _) as [[r gl] b]. intros [= <- <-]. cbn. split_and!; try done.
  intros k limit Hk. destruct (decide (k = l)) as [->|].
  - rewrite lookup_alter_eq, Hk. eexists. split; [done|]. by destruct wait.
  - rewrite lookup_alter_ne by done. eauto.
Qed.

(** A change of the limits that leaves their slots and their users. *)
Lemma wf_heap g g' : wf g → limits g' = limits g → callers g' = callers g → next g' = next g → calls g' = calls g →
  globalSlots g' = globalSlots g →
  (∀ k limit, heap g !! k = Some limit →
    ∃ limit', heap g' !! k = Some limit' ∧ active limit' = active limit ∧ slots limit' = slots limit) → wf g'.
Proof.
  intros Hg H1 H2 H3 H4 H5 Hh. split; rewrite ?H1, ?H2, ?H3, ?H4, ?H5; try apply Hg.
  intros o l Ho. destruct (wf_limits _ Hg o l Ho) as (limit & Hk & ?). unfold limit_ok.
  destruct (Hh l limit Hk) as (limit' & ? & Ha & Hs). exists limit'. rewrite H1, H4, Ha, Hs. naive_solver.
Qed.

(** ** The callers tracked *)

Definition idle (g : inferenceGate) (l : nat) : Prop := ∃ limit, heap g !! l = Some limit ∧ active limit = 0%Z.

(** [g'] is [g] with some idle callers forgotten. *)
Record forgot (g g' : inferenceGate) : Prop := {
  forgot_rest : limits g' = limits g ∧ globalSlots g' = globalSlots g ∧ heap g' = heap g ∧
                next g' = next g ∧ calls g' = calls g;
  forgot_sub o l : callers g' !! o = Some l → callers g !! o = Some l;
  forgot_idle o l : callers g !! o = Some l → callers g' !! o = Some l ∨ idle g l;
}.

Lemma forgot_refl g : forgot g g.
Proof. split; naive_solver. Qed.
Lemma forgot_trans g1 g2 g3 : forgot g1 g2 → forgot g2 g3 → forgot g1 g3.
Proof.
  intros [R1 S1 I1] [R2 S2 I2]. split; [intuition congruence|eauto|].
  intros o l Ho. destruct (I1 o l Ho) as [H|H]; [|by right]. destruct (I2 o l H) as [H'|H']; [by left|right].
  unfold idle in *. destruct R1 as (_ & _ & <- & _). done.
Qed.
Lemma forgot_delete g o : (∀ l, callers g !! o = Some l → idle g l) → forgot g (g <| callers ::= delete o |>).
Proof.
  intros H. split; [done| |]; cbn; intros o' l.
  - by intros [_ ?]%lookup_delete_Some.
  - intros Ho. destruct (decide (o' = o)) as [->|]; [right; by apply H|left; by rewrite lookup_delete_ne].
Qed.

(** The longest unused caller so far is idle. *)
Definition oldest_ok (g : inferenceGate) (oldest : string * Z) : Prop :=
  oldest.1 = ""%string ∨ ∀ l, callers g !! oldest.1 = Some l → idle g l.

Lemma oldest_forgot g g' old : forgot g g' → oldest_ok g old → oldest_ok g' old.
Proof.
  intros [R S I] [H|H]; [by left|right]. intros l Hl%S%H. unfold idle in *. destruct R as (_ & _ & -> & _). done.
Qed.

Lemma forgetIdle_ok g now order old g' old' : oldest_ok g old →
  forgetIdle g now order old = (g', old') → forgot g g' ∧ oldest_ok g' old'.
Proof.
  revert g old. induction order as [|id order IH]; intros g old Hold; cbn [forgetIdle].
  { intros [= <- <-]. split; [apply forgot_refl|done]. }
  destruct (callers g !! id ≫= λ l, heap g !! l) as [limit|] eqn:Hid; [|eauto].
  destruct (callers g !! id) as [l|] eqn:Hl; [|done]. cbn in Hid.
  destruct (negb (bool_decide (active limit = 0%Z))) eqn:Ha; [eauto|].
  apply negb_false_iff, bool_decide_eq_true in Ha.
  assert (Hi : ∀ k, callers g !! id = Some k → idle g k) by (intros k Hk; exists limit; split; [congruence|done]).
  destruct (bool_decide (limiterIdle ≤ now - lastUsed limit)%Z).
  - intros H. apply IH in H as [??]; [|eapply oldest_forgot; [by apply forgot_delete|done]].
    split; [|done]. eapply forgot_trans; [by apply forgot_delete|done].
  - destruct (_ || _); intros H; apply IH in H; eauto. by right.
Qed.

Lemma wf_forgot g g' : wf g → forgot g g' → wf g'.
Proof.
  intros Hg [(H1 & H2 & H3 & H4 & H5) S I].
  assert (Hl : ∀ l, limit_ok g l → limit_ok g' l).
  { intros l (limit & ?). exists limit. by rewrite H1, H3, H5. }
  split; rewrite ?H1, ?H2, ?H4, ?H5; try apply Hg.
  - intros i c Hc. destruct (I _ _ (wf_calls _ Hg i c Hc)) as [?|(limit & Hh & Ha)]; [done|].
    destruct (call_limit g i c Hg Hc) as (limit' & Hh' & _ & _ & Ha').
    pose proof (count_pos (of_limit (c_limit c)) _ i c Hc) as Hp. unfold of_limit at 1 in Hp.
    rewrite Nat.eqb_refl in Hp. specialize (Hp eq_refl). simplify_eq. lia.
  - intros o l Ho%S. by eapply Hl, wf_limits.
  - intros o l Ho%S. by eapply wf_next.
  - etrans; [|apply (wf_size _ Hg)]. apply map_subseteq_size, map_subseteq_spec, S.
Qed.

Lemma forgetOne_ok g old : oldest_ok g old → forgot g (forgetOne g old.1).
Proof.
  intros Hold. unfold forgetOne. destruct (bool_decide _); [|apply forgot_refl].
  destruct (String.eqb_spec old.1 ""); [apply forgot_refl|]. apply forgot_delete. by destruct Hold.
Qed.

(** What [begin] forgets before it tracks a new caller. *)
Definition forgetting (g : inferenceGate) (now : Z) (order : list string) : inferenceGate :=
  if bool_decide (limiterMaxCallers ≤ size (callers g)) then
    let '(g, oldest) := forgetIdle g now order (""%string, 0%Z) in forgetOne g oldest.1
  else g.

Lemma forgetting_ok g now order : forgot g (forgetting g now order).
Proof.
  unfold forgetting. destruct (bool_decide _); [|apply forgot_refl].
  destruct (forgetIdle g now order _) as [g' old'] eqn:H. apply forgetIdle_ok in H as [??]; [|by left].
  eapply forgot_trans; [done|]. by apply forgetOne_ok.
Qed.

Definition starts (c : call) : Prop := c_pc c = PRate ∨ c_pc c = PSlot.

Lemma starts_counts c l : c_limit c = l → starts c →
  holds_global c = false ∧ (∀ k, slot_of k c = false) ∧ ∀ k, of_limit k c = Nat.eqb l k.
Proof. unfold holds_global, slot_of, holds_slot, of_limit. intros -> [-> | ->]; done. Qed.

Lemma begin_ok g owner now order g' r i : wf g → calls g !! i = None → begin g owner now order = (g', r) →
  match r with
  | None => wf g'
  | Some l => ∀ c, c_owner c = owner → c_limit c = l → starts c → wf (g' <| calls ::= <[i := c]> |>)
  end.
Proof.
  intros Hg Hi. unfold begin. destruct (callers g !! owner) as [l|] eqn:Ho.
  - intros [= <- <-] c Hco Hcl Hs. destruct (starts_counts c _ Hcl Hs) as (Hs1 & Hs3 & Hs4).
    destruct (wf_global _ Hg). split; cbn.
    + rewrite count_insert, Hs1 by done. done.
    + intros j d [[<- <-]|[? ?]]%lookup_insert_Some; [by rewrite Hco, Hcl|by eapply wf_calls].
    + intros o k Hk. destruct (wf_limits _ Hg o k Hk) as (limit & Hh & Hsl & Hc & Ha). unfold limit_ok. cbn.
      rewrite !count_insert, Hs3, Hs4 by done.
      destruct (Nat.eqb_spec l k) as [<-|Hne].
      * rewrite lookup_alter_eq, Hh. eexists. split; [done|]. cbn. split_and!; try done. lia.
      * rewrite lookup_alter_ne by done. eauto 10.
    + apply (wf_next _ Hg).
    + apply Hg.
  - change (if bool_decide (limiterMaxCallers ≤ size (callers g)) then _ else g) with (forgetting g now order).
    pose proof (forgetting_ok g now order) as Hf. assert (Hg1 := wf_forgot _ _ Hg Hf).
    assert (Hi1 : calls (forgetting g now order) !! i = None).
    { destruct (forgot_rest _ _ Hf) as (_ & _ & _ & _ & ->). done. }
    assert (Ho1 : callers (forgetting g now order) !! owner = None).
    { destruct (callers (forgetting g now order) !! owner) as [l|] eqn:H; [|done]. apply (forgot_sub _ _ Hf) in H. congruence. }
    revert Hg1 Hi1 Ho1. generalize (forgetting g now order). clear. intros g Hg Hi Ho. unfold track.
    destruct (bool_decide _) eqn:Hsz; [by intros [= <- <-]|]. apply bool_decide_eq_false in Hsz.
    intros [= <- <-] c Hco Hcl Hs. destruct (starts_counts c _ Hcl Hs) as (Hs1 & Hs3 & Hs4). destruct (wf_global _ Hg).
    assert (Hzero : ∀ p, (∀ d, p d = true → of_limit (next g) d = true) → count p (calls g) = 0).
    { intros p Hp. destruct (count p (calls g)) eqn:Hn; [done|]. exfalso.
      assert (Hle : count p (calls g) ≤ count (λ _, false) (calls g)).
      { apply count_le. intros j d Hd Hpd%Hp. unfold of_limit in Hpd. apply Nat.eqb_eq in Hpd.
        pose proof (wf_next _ Hg _ _ (wf_calls _ Hg j d Hd)). lia. }
      rewrite count_false in Hle. lia. }
    split; cbn.
    + rewrite count_insert, Hs1 by done. done.
    + intros j d [[<- <-]|[? Hd]]%lookup_insert_Some; [by rewrite Hco, Hcl, lookup_insert_eq|].
      rewrite lookup_insert_ne; [by eapply wf_calls|]. intros Heq. apply (wf_calls _ Hg) in Hd. congruence.
    + intros o k Hk. unfold limit_ok. cbn. rewrite !count_insert, Hs3, Hs4 by done.
      apply lookup_insert_Some in Hk as [[_ <-]|[_ Hk]].
      * rewrite lookup_insert_eq, Nat.eqb_refl. eexists. split; [done|]. cbn.
        rewrite !Hzero; [split_and!; try done; lia|done|]. intros d [_ ?]%andb_prop. done.
      * pose proof (wf_next _ Hg o k Hk). destruct (Nat.eqb_spec (next g) k); [lia|].
        rewrite lookup_insert_ne by done. destruct (wf_limits _ Hg o k Hk) as (limit & ?). eauto.
    + intros o k [[_ <-]|[_ Hk]]%lookup_insert_Some; [lia|]. pose proof (wf_next _ Hg o k Hk). lia.
    + rewrite map_size_insert_None by done. lia.
Qed.

(** ** Steps *)

Lemma wf_finish g i c now : wf g → calls g !! i = Some c → c_pc c = PFinish →
  wf (g <| heap ::= alter (λ l, l <| active ::= λ n, (n - 1)%Z |> <| lastUsed := now |>) (c_limit c) |>
        <| calls ::= delete i |>).
Proof.
  intros Hg Hc Hp. destruct (wf_global _ Hg) as [Hgl Hcap].
  assert (H1 : holds_global c = false) by (unfold holds_global; by rewrite Hp).
  assert (H2 : ∀ l, slot_of l c = false) by (intros l; unfold slot_of, holds_slot; by rewrite Hp).
  split; cbn.
  - rewrite (count_split _ _ _ _ Hc), H1 in Hgl. done.
  - intros j d [_ Hd]%lookup_delete_Some. by eapply wf_calls.
  - intros o l Ho. destruct (wf_limits _ Hg o l Ho) as (limit & Hh & Hs & Hsc & Ha). unfold limit_ok. cbn.
    rewrite (count_split _ _ _ _ Hc), H2 in Hs. rewrite (count_split _ _ _ _ Hc) in Ha. unfold of_limit at 1 in Ha.
    destruct (Nat.eqb_spec (c_limit c) l) as [<-|Hne].
    + rewrite lookup_alter_eq, Hh. eexists. split; [done|]. cbn. split_and!; [done|done|lia].
    + rewrite lookup_alter_ne by done. eauto.
  - apply (wf_next _ Hg).
  - apply Hg.
Qed.

(** A change of one limit, seen from every limit. *)
Lemma heap_alter g (f : callerLimit → callerLimit) l k limit : heap g !! k = Some limit →
  alter f l (heap g) !! k = Some (if Nat.eqb l k then f limit else limit).
Proof.
  intros Hk. destruct (Nat.eqb_spec l k) as [<-|]; [by rewrite lookup_alter_eq, Hk|by rewrite lookup_alter_ne].
Qed.

Lemma slot_to_pc l p c : slot_of l (to_pc p c) = holds_slot (to_pc p c) && Nat.eqb (c_limit c) l.
Proof. done. Qed.

Ltac moved p := eapply (wf_move _ _ _ _ p); [done|done|done..| | |].
Ltac kept p := eapply (wf_same _ _ _ _ p); [done|done|done|done|done|done|done|eauto| |].
Ltac pcs Hp := unfold holds_global, holds_slot; cbn; rewrite ?Hp; try done.

Lemma slot_step g i c limit : wf g → calls g !! i = Some c → c_pc c = PSlot → heap g !! c_limit c = Some limit →
  slots limit < callerConcurrent (limits g) →
  wf (set_pc (g <| heap ::= alter (λ l, l <| slots ::= S |>) (c_limit c) |>) i PGlobal).
Proof.
  intros Hg Hc Hp Hh Hlt. moved PGlobal; cbn.
  - unfold holds_global. cbn. rewrite Hp. done.
  - apply (wf_global _ Hg).
  - intros l lim Hl. rewrite (heap_alter _ _ _ _ _ Hl). eexists. split; [done|].
    unfold slot_of, of_limit, holds_slot. rewrite Hp. cbn.
    destruct (Nat.eqb_spec (c_limit c) l) as [<-|]; cbn; [|auto]. simplify_eq. cbn. split_and!; [done|lia|lia].
Qed.

Lemma free_step g i c limit n : wf g → calls g !! i = Some c → c_pc c = PFreeSlot → heap g !! c_limit c = Some limit →
  slots limit = S n → wf (set_pc (g <| heap ::= alter (λ l, l <| slots := n |>) (c_limit c) |>) i PFinish).
Proof.
  intros Hg Hc Hp Hh Hn. moved PFinish; cbn.
  - unfold holds_global. cbn. rewrite Hp. done.
  - apply (wf_global _ Hg).
  - intros l lim Hl. rewrite (heap_alter _ _ _ _ _ Hl). eexists. split; [done|].
    unfold slot_of, of_limit, holds_slot. rewrite Hp. cbn.
    destruct (Nat.eqb_spec (c_limit c) l) as [<-|]; cbn; [|auto]. simplify_eq. cbn. split_and!; [done|lia|lia].
Qed.

(** A step that takes or gives back a slot of the process's at most. *)
Lemma global_step g i c p n : wf g → calls g !! i = Some c →
  n + b2n (holds_global c) = globalSlots g + b2n (holds_global (to_pc p c)) →
  n ≤ globalConcurrent (limits g) → holds_slot (to_pc p c) = holds_slot c →
  wf (set_pc (g <| globalSlots := n |>) i p).
Proof.
  intros Hg Hc Hn Hcap Hs. moved p; [done|done|]. intros l lim Hl. exists lim.
  rewrite slot_to_pc, Hs. auto.
Qed.

Lemma pc_step g i c p : wf g → calls g !! i = Some c →
  holds_global (to_pc p c) = holds_global c → holds_slot (to_pc p c) = holds_slot c → wf (set_pc g i p).
Proof. intros Hg Hc H1 H2. kept p; done. Qed.

Lemma takeSlot_inv used cap w take b : takeSlot used cap w take = Some b → b = take ∧ (b = true → used < cap).
Proof.
  unfold takeSlot. destruct (bool_decide (used < cap)) eqn:H; [apply bool_decide_eq_true in H|];
    destruct take, w; intros [= <-]; done.
Qed.

Lemma step_wf g e g' : wf g → step g e = Some g' → wf g'.
Proof.
  intros Hg. destruct e as [i owner inputs wait now order|i now|i|i|i take|i take|i now|i|i|i|i now]; cbn [step].
  - destruct (bool_decide _) eqn:Hi; [done|]. apply bool_decide_eq_false, eq_None_not_Some in Hi.
    destruct (negb _); [done|]. destruct (bool_decide _); [by intros [= <-]|].
    destruct (begin g owner now order) as [g1 r] eqn:Hb. pose proof (begin_ok _ _ _ _ _ _ i Hg Hi Hb) as H.
    destruct r as [l|]; intros [= <-]; [|done]. apply H; [done|done|]. destruct wait; [by left|by right].
  - destruct (at_pc g i PRate) as [c|] eqn:Hat; [|done]. apply at_pc_inv in Hat as [Hc Hp]. cbn [mbind option_bind].
    unfold waitForRate.
    destruct (heap g !! c_limit c) as [limit|]; [|done]. cbn [mbind option_bind].
    destruct (_ || _); [intros [= <-]; eapply pc_step; [done|done|pcs Hp..]|].
    destruct (reserveRate _ _ _ _ _) as [[g1 ok]|] eqn:Hr; [|done]. cbn [mbind option_bind].
    apply reserve_heap in Hr as (?&?&?&Hcs&?&?). intros [= <-].
    assert (Hg1 : wf g1) by by eapply (wf_heap g).
    eapply pc_step; [done|by rewrite Hcs|destruct ok; pcs Hp..].
  - destruct (at_pc g i PTicker) as [c|] eqn:Hat; [|done]. apply at_pc_inv in Hat as [Hc Hp]. intros [= <-].
    eapply pc_step; [done|done|pcs Hp..].
  - destruct (at_pc g i PTicker) as [c|] eqn:Hat; [|done]. apply at_pc_inv in Hat as [Hc Hp]. intros [= <-].
    eapply pc_step; [done|done|pcs Hp..].
  - destruct (at_pc g i PSlot) as [c|] eqn:Hat; [|done]. apply at_pc_inv in Hat as [Hc Hp]. cbn [mbind option_bind].
    destruct (heap g !! c_limit c) as [limit|] eqn:Hh; [|done]. cbn [mbind option_bind].
    destruct (takeSlot _ _ _ _) as [b|] eqn:Ht; [|done]. apply takeSlot_inv in Ht as [Hb Hlt]. intros [= <-].
    destruct b; [by eapply slot_step; eauto|]. eapply pc_step; [done|done|pcs Hp..].
  - destruct (at_pc g i PGlobal) as [c|] eqn:Hat; [|done]. apply at_pc_inv in Hat as [Hc Hp]. cbn [mbind option_bind].
    destruct (takeSlot _ _ _ _) as [b|] eqn:Ht; [|done]. apply takeSlot_inv in Ht as [Hb Hlt]. intros [= <-].
    destruct b; [|eapply pc_step; [done|done|pcs Hp..]].
    change (g <| globalSlots ::= S |>) with (g <| globalSlots := S (globalSlots g) |>).
    eapply global_step; [done|done| |by apply Hlt|]; unfold holds_global, holds_slot; cbn; rewrite Hp;
      destruct (c_wait c); cbn; lia || done.
  - destruct (at_pc g i PReserve) as [c|] eqn:Hat; [|done]. apply at_pc_inv in Hat as [Hc Hp]. cbn [mbind option_bind].
    destruct (reserveRate _ _ _ _ _) as [[g1 ok]|] eqn:Hr; [|done]. cbn [mbind option_bind].
    apply reserve_heap in Hr as (?&?&?&Hcs&?&?). intros [= <-].
    assert (Hg1 : wf g1) by by eapply (wf_heap g).
    eapply pc_step; [done|by rewrite Hcs|destruct ok; pcs Hp..].
  - destruct (at_pc g i PHeld) as [c|] eqn:Hat; [|done]. apply at_pc_inv in Hat as [Hc Hp]. intros [= <-].
    eapply pc_step; [done|done|pcs Hp..].
  - destruct (at_pc g i PFreeGlobal) as [c|] eqn:Hat; [|done]. apply at_pc_inv in Hat as [Hc Hp]. cbn [mbind option_bind].
    destruct (globalSlots g) as [|n] eqn:Hn; [done|]. cbn. intros [= <-].
    destruct (wf_global _ Hg) as [_ Hcap].
    eapply global_step; [done|done| |lia|pcs Hp]. rewrite Hn. unfold holds_global. cbn. rewrite Hp. cbn. lia.
  - destruct (at_pc g i PFreeSlot) as [c|] eqn:Hat; [|done]. apply at_pc_inv in Hat as [Hc Hp]. cbn [mbind option_bind].
    destruct (heap g !! c_limit c) as [limit|] eqn:Hh; [|done]. cbn [mbind option_bind].
    destruct (slots limit) as [|n] eqn:Hn; [done|]. cbn [receive mbind option_bind]. intros [= <-]. by eapply free_step.
  - destruct (at_pc g i PFinish) as [c|] eqn:Hat; [|done]. apply at_pc_inv in Hat as [Hc Hp]. cbn [mbind option_bind].
    intros [= <-]. by eapply wf_finish.
Qed.

Lemma gate_new_wf l : wf (newInferenceGate l).
Proof.
  split; cbn.
  - split; [done|lia].
  - by intros i c ?%lookup_empty_Some.
  - by intros o k ?%lookup_empty_Some.
  - by intros o k ?%lookup_empty_Some.
  - rewrite map_size_empty. lia.
Qed.

Lemma run_wf g es g' : wf g → run g es = Some g' → wf g'.
Proof.
  revert g. induction es as [|e es IH]; intros g Hg; cbn [run]; [by intros [= <-]|].
  destruct (step g e) as [g1|] eqn:He; [|done]. cbn [mbind option_bind]. apply IH. by eapply step_wf.
Qed.

Lemma begin_limits g owner now order g' r : begin g owner now order = (g', r) → limits g' = limits g.
Proof.
  unfold begin. destruct (callers g !! owner); [by intros [= <- <-]|].
  change (if bool_decide (limiterMaxCallers ≤ size (callers g)) then _ else g) with (forgetting g now order).
  pose proof (forgot_rest _ _ (forgetting_ok g now order)) as (Hl & _). unfold track.
  destruct (bool_decide _); intros [= <- <-]; done.
Qed.

Ltac on_call i p :=
  destruct (at_pc _ i p) as [?|]; [|done]; cbn [mbind option_bind].

Lemma step_limits g e g' : step g e = Some g' → limits g' = limits g.
Proof.
  destruct e as [i owner inputs wait now order|i now|i|i|i take|i take|i now|i|i|i|i now]; cbn [step].
  - destruct (bool_decide _); [done|]. destruct (negb _); [done|]. destruct (bool_decide _); [by intros [= <-]|].
    destruct (begin _ _ _ _) as [g1 r] eqn:Hb. apply begin_limits in Hb. destruct r; by intros [= <-].
  - on_call i PRate. unfold waitForRate. destruct (heap g !! _); [|done]. cbn [mbind option_bind]. destruct (_ || _); [by intros [= <-]|].
    destruct (reserveRate _ _ _ _ _) as [[g1 ok]|] eqn:Hr; [|done]. apply reserve_heap in Hr as [? _].
    by intros [= <-].
  - on_call i PTicker. by intros [= <-].
  - on_call i PTicker. by intros [= <-].
  - on_call i PSlot. destruct (heap g !! _); [|done]. cbn [mbind option_bind].
    destruct (takeSlot _ _ _ _) as [[]|]; by intros [= <-].
  - on_call i PGlobal. destruct (takeSlot _ _ _ _) as [[]|]; by intros [= <-].
  - on_call i PReserve. destruct (reserveRate _ _ _ _ _) as [[g1 ok]|] eqn:Hr; [|done].
    apply reserve_heap in Hr as [? _]. by intros [= <-].
  - on_call i PHeld. by intros [= <-].
  - on_call i PFreeGlobal. destruct (receive _); by intros [= <-].
  - on_call i PFreeSlot. destruct (heap g !! _); [|done]. cbn [mbind option_bind].
    destruct (receive _); by intros [= <-].
  - on_call i PFinish. by intros [= <-].
Qed.

Lemma run_limits g es g' : run g es = Some g' → limits g' = limits g.
Proof.
  revert g. induction es as [|e es IH]; intros g; cbn [run]; [by intros [= <-]|].
  destruct (step g e) as [g1|] eqn:He; [|done]. cbn [mbind option_bind]. intros H.
  rewrite (IH _ H). by eapply step_limits.
Qed.

(** C33. Whatever calls begin, wait, are refused or released, in any order:
    the calls that hold a slot of the process's are those counted and at
    most the limit; the calls of one caller that hold a slot are at most
    its limit; the callers tracked are at most [limiterMaxCallers], and the
    limit of a call in progress is still its caller's, never forgotten; and
    once no call is in progress, no slot is taken and no limit in use. *)
Theorem gate_safe l es g :
  run (newInferenceGate l) es = Some g →
  globalSlots g = count holds_global (calls g) ∧ globalSlots g ≤ globalConcurrent l ∧
  (∀ o, count (λ c, String.eqb (c_owner c) o && holds_slot c) (calls g) ≤ callerConcurrent l) ∧
  size (callers g) ≤ limiterMaxCallers ∧
  (∀ i c, calls g !! i = Some c → callers g !! c_owner c = Some (c_limit c) ∧ is_Some (heap g !! c_limit c)) ∧
  (calls g = ∅ → globalSlots g = 0 ∧ ∀ o k, callers g !! o = Some k →
     ∃ limit, heap g !! k = Some limit ∧ slots limit = 0 ∧ active limit = 0%Z).
Proof.
  intros Hr. assert (Hl := run_limits _ _ _ Hr). apply run_wf in Hr as Hg; [|apply gate_new_wf].
  destruct (wf_global _ Hg) as [Hgl Hcap]. cbn in Hl. rewrite Hl in Hcap. split_and!; try done.
  - intros o. destruct (callers g !! o) as [k|] eqn:Ho.
    + destruct (wf_limits _ Hg o k Ho) as (limit & _ & Hs & Hc & _). rewrite Hl in Hc. etrans; [|exact Hc].
      rewrite Hs. apply count_le. intros i c Hi [Ho'%String.eqb_eq Hh]%andb_prop.
      apply (wf_calls _ Hg) in Hi. rewrite Ho' in Hi. unfold slot_of, of_limit. rewrite Hh. simplify_eq. apply Nat.eqb_refl.
    + etrans; [apply (count_le _ (λ _, false))|].
      * intros i c Hi [Ho'%String.eqb_eq _]%andb_prop. apply (wf_calls _ Hg) in Hi. congruence.
      * rewrite count_false. lia.
  - apply Hg.
  - intros i c Hi. split; [by eapply wf_calls|]. destruct (call_limit g i c Hg Hi) as (limit & -> & _). eauto.
  - intros Hnone. rewrite Hgl, Hnone. split; [done|]. intros o k Ho.
    destruct (wf_limits _ Hg o k Ho) as (limit & Hh & Hs & _ & Ha). exists limit. rewrite Hs, Ha, Hnone. done.
Qed.

(** ** A call alone comes to its end *)

Definition event_of (e : event) : nat :=
  match e with
  | EBegin i _ _ _ _ _ | ERate i _ | ETick i | EEnded i | ESlot i _ | EGlobal i _ | EReserve i _
  | ERelease i | EFreeGlobal i | EFreeSlot i | EFinish i _ => i
  end.

Definition rank (p : pc) : nat :=
  match p with
  | PRate => 8 | PTicker => 7 | PSlot => 6 | PGlobal => 5 | PReserve => 4 | PHeld => 3 | PFreeGlobal => 2 | PFreeSlot => 1 | PFinish => 0
  end.

Lemma at_pc_some g i c p : calls g !! i = Some c → c_pc c = p → at_pc g i p = Some c.
Proof. intros Hc Hp. unfold at_pc. rewrite Hc. cbn. by rewrite bool_decide_true. Qed.

Lemma takeSlot_some used cap w : ∃ b, takeSlot used cap w b = Some b.
Proof.
  unfold takeSlot. destruct (bool_decide (used < cap)); [by exists true|exists false; by destruct w].
Qed.

Lemma set_pc_calls g i p c : calls g !! i = Some c → calls (set_pc g i p) !! i = Some (to_pc p c) ∧
  ∀ j, j ≠ i → calls (set_pc g i p) !! j = calls g !! j.
Proof.
  intros Hc. cbn. split; [by rewrite lookup_alter_eq, Hc|]. intros j Hj. by rewrite lookup_alter_ne.
Qed.

Lemma reserveRate_some g l wait now n limit : heap g !! l = Some limit →
  ∃ g' ok, reserveRate g l wait now n = Some (g', ok) ∧ calls g' = calls g.
Proof.
  intros Hh. unfold reserveRate. rewrite Hh. cbn [mbind option_bind].
  destruct (reserve _ _ _ _) as [[r gl] ok]. eexists _, ok. split; done.
Qed.

(** One step of a call towards its end. *)
Definition advances (g g' : inferenceGate) (i : nat) (c : call) : Prop :=
  (∃ c', calls g' !! i = Some c' ∧ rank (c_pc c') < rank (c_pc c)) ∧ ∀ j, j ≠ i → calls g' !! j = calls g !! j.

Lemma advance g i c : wf g → calls g !! i = Some c →
  ∃ e g', event_of e = i ∧ step g e = Some g' ∧
    (c_pc c ≠ PFinish → advances g g' i c) ∧
    (c_pc c = PFinish → calls g' !! i = None ∧ ∀ j, j ≠ i → calls g' !! j = calls g !! j).
Proof.
  intros Hg Hc. destruct (call_limit g i c Hg Hc) as (limit & Hh & Hs & _).
  assert (Hto : ∀ g' p, calls g' = calls g → rank p < rank (c_pc c) → advances g (set_pc g' i p) i c).
  { intros g' p Hcs Hp. destruct (set_pc_calls g' i p c) as [H1 H2]; [by rewrite Hcs|].
    split; [by exists (to_pc p c)|]. intros j Hj. rewrite H2, Hcs by done. done. }
  destruct (c_pc c) eqn:Hp; pose proof (at_pc_some g i c _ Hc Hp) as Hat.
  - destruct (bool_decide (Burst ops (background limit) < c_inputs c)%Z ||
              bool_decide (Burst ops (global g) < c_inputs c)%Z) eqn:Hb.
    { exists (ERate i 0%Z), (set_pc g i PFinish). split_and!; try done.
      - cbn [step]. rewrite Hat. unfold waitForRate. cbn [mbind option_bind]. rewrite Hh. cbn [mbind option_bind]. by rewrite Hb.
      - intros _. apply Hto; cbn; [done|lia]. }
    destruct (reserveRate_some g (c_limit c) true 0 (c_inputs c) limit Hh) as (g1 & ok & Hr & Hcs).
    exists (ERate i 0%Z). cbn [step]. rewrite Hat. unfold waitForRate. cbn [mbind option_bind]. rewrite Hh. cbn [mbind option_bind].
    rewrite Hb, Hr. cbn [mbind option_bind]. eexists. split_and!; try done.
    intros _. apply Hto; [done|]. destruct ok; cbn; lia.
  - exists (EEnded i), (set_pc g i PFinish). split_and!; try done; [cbn [step]; by rewrite Hat|].
    intros _. apply Hto; cbn; [done|lia].
  - destruct (takeSlot_some (slots limit) (callerConcurrent (limits g)) (c_wait c)) as [b Hb].
    exists (ESlot i b). cbn [step]. rewrite Hat. cbn [mbind option_bind]. rewrite Hh. cbn [mbind option_bind].
    rewrite Hb. eexists. split_and!; try done. intros _. destruct b; apply Hto; cbn; done || lia.
  - destruct (takeSlot_some (globalSlots g) (globalConcurrent (limits g)) (c_wait c)) as [b Hb].
    exists (EGlobal i b). cbn [step]. rewrite Hat. cbn [mbind option_bind].
    rewrite Hb. eexists. split_and!; try done. intros _. destruct b; apply Hto; try done; [|cbn; lia].
    destruct (c_wait c); cbn; lia.
  - exists (EReserve i 0%Z). cbn [step]. rewrite Hat. cbn [mbind option_bind].
    destruct (reserveRate_some g (c_limit c) false 0 (c_inputs c) limit Hh) as (g1 & ok & -> & Hcs).
    cbn [mbind option_bind]. eexists. split_and!; try done. intros _. apply Hto; [done|]. destruct ok; cbn; lia.
  - exists (ERelease i), (set_pc g i PFreeGlobal). split_and!; try done; [cbn [step]; by rewrite Hat|].
    intros _. apply Hto; cbn; [done|lia].
  - assert (Hpos := count_pos holds_global _ i c Hc). unfold holds_global at 1 in Hpos. rewrite Hp in Hpos.
    specialize (Hpos eq_refl). destruct (wf_global _ Hg) as [Hgl _]. rewrite <- Hgl in Hpos.
    exists (EFreeGlobal i). cbn [step]. rewrite Hat. cbn [mbind option_bind].
    destruct (globalSlots g) as [|n]; [lia|]. cbn [receive mbind option_bind]. eexists. split_and!; try done.
    intros _. apply Hto; cbn; [done|lia].
  - assert (Hpos := count_pos (slot_of (c_limit c)) _ i c Hc). unfold slot_of at 1, holds_slot, of_limit in Hpos.
    rewrite Hp, Nat.eqb_refl in Hpos. specialize (Hpos eq_refl). rewrite <- Hs in Hpos.
    exists (EFreeSlot i). cbn [step]. rewrite Hat. cbn [mbind option_bind]. rewrite Hh. cbn [mbind option_bind].
    destruct (slots limit) as [|n]; [lia|]. cbn [receive mbind option_bind]. eexists. split_and!; try done.
    intros _. apply Hto; cbn; [done|lia].
  - exists (EFinish i 0%Z). cbn [step]. rewrite Hat. cbn [mbind option_bind]. eexists. split_and!; try done.
    intros _. cbn. split; [apply lookup_delete_eq|]. intros j Hj. by rewrite lookup_delete_ne.
Qed.

(** C34. No call waits for ever on another: wherever a call in progress is,
    events of its own are possible that end it, at most nine, among them
    its context's end where it waits in the background; they leave every
    other call where it was.  In particular a release never blocks. *)
Theorem gate_progress l es g i c :
  run (newInferenceGate l) es = Some g → calls g !! i = Some c →
  ∃ own g', Forall (λ e, event_of e = i) own ∧ length own ≤ 9 ∧ run g own = Some g' ∧
    calls g' !! i = None ∧ ∀ j, j ≠ i → calls g' !! j = calls g !! j.
Proof.
  intros Hr Hc. apply run_wf in Hr as Hg; [|apply gate_new_wf]. clear Hr.
  assert (Hlen : rank (c_pc c) < 9) by (destruct (c_pc c); cbn; lia).
  enough (∃ own g', Forall (λ e, event_of e = i) own ∧ length own ≤ S (rank (c_pc c)) ∧ run g own = Some g' ∧
    calls g' !! i = None ∧ ∀ j, j ≠ i → calls g' !! j = calls g !! j) as (own & g' & ? & ? & ?).
  { exists own, g'. split_and!; try done; [lia|naive_solver..]. }
  clear Hlen. remember (rank (c_pc c)) as n eqn:Hn. revert g c Hg Hc Hn.
  induction n as [n IH] using lt_wf_ind. intros g c Hg Hc ->.
  destruct (advance g i c Hg Hc) as (e & g1 & He & Hs & Hadv & Hend).
  destruct (decide (c_pc c = PFinish)) as [Hf|Hf].
  - destruct (Hend Hf) as [H1 H2]. exists [e], g1. split_and!; try done; [by repeat constructor|cbn; lia|].
    cbn [run]. by rewrite Hs.
  - destruct (Hadv Hf) as [(c1 & Hc1 & Hlt) Hother].
    destruct (IH _ Hlt g1 c1) as (own & g' & Hown & Hle & Hrun & Hgone & Hrest); [by eapply step_wf|done|done|].
    exists (e :: own), g'. split_and!; [by constructor|cbn; lia| |done|].
    + cbn [run]. rewrite Hs. done.
    + intros j Hj. rewrite Hrest, Hother by done. done.
Qed.

End Gate.

(** A limiter that never refills. *)
Definition toy_rate : RateOps := mkRateOps (Z * Z) (bool * Z)
  (λ _ burst, (burst, burst)) fst
  (λ l _ n, if bool_decide (n ≤ l.2)%Z then ((l.1, l.2 - n)%Z, (true, n)) else (l, (false, n)))
  fst (λ _ _, 0%Z) (λ l r _, (l.1, l.2 + r.2)%Z).

(** One call of two inputs held, a second of the same caller past its
    slot, and a third refused one. *)
Definition three_calls : list event :=
  [EBegin 0 "ann" 2 false 0 []; ESlot 0 true; EGlobal 0 true; EReserve 0 0;
   EBegin 1 "ann" 2 true 5 ["ann"%string]; ERate 1 5; ESlot 1 true;
   EBegin 2 "ann" 2 false 6 ["ann"%string]; ESlot 2 false].

Lemma gate_safe_witness :
  ∃ g, run toy_rate (newInferenceGate toy_rate defaultInferenceLimits) three_calls = Some g ∧
    size (calls toy_rate g) = 3 ∧ globalSlots toy_rate g = 1 ∧
    count (λ c, String.eqb (c_owner c) "ann" && holds_slot c) (calls toy_rate g) ≤ 2.
Proof.
  eexists. split; [vm_compute; reflexivity|]. split; [reflexivity|].
  match goal with |- globalSlots _ ?g = _ ∧ _ =>
    destruct (gate_safe toy_rate defaultInferenceLimits three_calls g) as (H & _ & Ho & _); [vm_compute; reflexivity|]
  end.
  split; [exact H|exact (Ho "ann"%string)].
Defined.

Lemma gate_progress_witness :
  ∃ g c own g', run toy_rate (newInferenceGate toy_rate defaultInferenceLimits) three_calls = Some g ∧
    calls toy_rate g !! 1 = Some c ∧ c_pc c = PGlobal ∧ run toy_rate g own = Some g' ∧
    calls toy_rate g' !! 1 = None ∧ calls toy_rate g' !! 0 = calls toy_rate g !! 0.
Proof.
  destruct (run toy_rate (newInferenceGate toy_rate defaultInferenceLimits) three_calls) as [g|] eqn:Hr;
    [|vm_compute in Hr; discriminate].
  destruct (calls toy_rate g !! 1) as [c|] eqn:Hc; [|vm_compute in Hr; injection Hr as <-; discriminate].
  destruct (gate_progress toy_rate defaultInferenceLimits three_calls g 1 c Hr Hc) as (own & g' & _ & _ & H1 & H2 & H3).
  exists g, c, own, g'. split; [done|]. split; [done|]. split.
  - vm_compute in Hr. injection Hr as <-. vm_compute in Hc. injection Hc as <-. reflexivity.
  - split; [exact H1|]. split; [exact H2|]. by apply H3.
Defined.
End Gate.
