(* ===== verification/Chat.v ===== *)
(** * What a chat holds: internal/domain/thread.go

    The chat, its messages, their blocks and attachments, the changes made
    to a chat as a whole, and the replacement of a widget of
    internal/domain/widgets.go. *)

From S2P Require Import Prelude GoStd.
From Stdlib Require Import QArith_base.
Local Open Scope nat_scope.
Local Open Scope go_scope.

Module Chat.
Import GoStd.

(** A slice, nil kept apart from empty. *)
Definition slice (A : Type) : Type := option (list A).
Definition elems {A} (s : slice A) : list A := default [] s.

(** [slices.IndexFunc]; [None] is -1. *)
Fixpoint IndexFunc {A} (p : A → bool) (l : list A) : option nat :=
  match l with
  | [] => None
  | a :: l => if p a then Some 0 else S <$> IndexFunc p l
  end.

Lemma IndexFunc_Some {A} (p : A → bool) l i : IndexFunc p l = Some i →
  ∃ a, l !! i = Some a ∧ p a = true ∧ ∀ j b, j < i → l !! j = Some b → p b = false.
Proof.
  revert i. induction l as [|a l IH]; intros i; cbn; [done|]. destruct (p a) eqn:Hp.
  - intros [= <-]. exists a. split_and!; [done..|]. intros j b Hj. lia.
  - destruct (IndexFunc p l) as [k|]; [|done]. intros [= <-].
    destruct (IH k eq_refl) as (b & Hb & Hpb & Hn). exists b. split_and!; [done..|].
    intros [|j] c Hj Hc; [by injection Hc as <-|]. apply (Hn j); [lia|done].
Qed.
Lemma IndexFunc_None {A} (p : A → bool) l : IndexFunc p l = None ↔ ∀ a, a ∈ l → p a = false.
Proof.
  induction l as [|a l IH]; cbn; [set_solver|]. destruct (p a) eqn:Hp.
  - split; [done|]. intros H. specialize (H a ltac:(by left)). congruence.
  - rewrite fmap_None, IH. set_solver.
Qed.

(** JSON text kept as it came; [None] is a nil [json.RawMessage]. *)
Abbreviation RawMessage := (option string).

Record DisplaySource := mkSource { s_URL : string; s_Title : string; s_Snippet : string }.
Record ToolDisplay := mkDisplay { d_Query : string; d_URL : string; d_Status : string; d_Sources : list DisplaySource }.

(** Step times are numbers of milliseconds, durations of seconds. *)
Record Block := mkBlock {
  b_ID : string;
  b_Type : string;
  b_Content : string;
  b_ToolCallID : string;
  b_Name : string;
  b_Arguments : string;
  b_Complete : bool;
  b_Result : RawMessage;
  b_Metadata : RawMessage;
  b_Progress : slice string;
  b_Activity : RawMessage;
  b_Display : option ToolDisplay;
  b_StartedAt : Q;
  b_EndedAt : Q;
  b_Duration : Q;
  b_Answers : gmap string (list string);
  b_InvalidArguments : bool;
}.
#[global] Instance Block_eta : Eta Block := λ b,
  mkBlock (b_ID b) (b_Type b) (b_Content b) (b_ToolCallID b) (b_Name b) (b_Arguments b) (b_Complete b)
    (b_Result b) (b_Metadata b) (b_Progress b) (b_Activity b) (b_Display b) (b_StartedAt b) (b_EndedAt b)
    (b_Duration b) (b_Answers b) (b_InvalidArguments b).
Definition noBlock : Block :=
  mkBlock "" "" "" "" "" "" false None None None None None 0 0 0 ∅ false.

(** [CallID]: the id a tool call block answers to. *)
Definition CallID (b : Block) : string := if String.eqb (b_ToolCallID b) "" then b_ID b else b_ToolCallID b.

Record DocumentPage := mkPage { p_Image : string; p_IsScanned : bool; p_Page : Z; p_Text : string }.
Record Attachment := mkAttachment {
  a_ID : string;
  a_Kind : string;
  a_FileName : string;
  a_MimeType : string;
  a_Size : option Z;
  a_Thumbnail : string;
  a_TextContent : string;
  a_Description : string;
  a_Pages : list DocumentPage;
  a_Base64 : string;
  a_EncryptionKey : string;
  a_Key : string;
  a_StorageThreadID : string;
  a_InferenceMimeType : string;
}.
Definition IsImage (a : Attachment) : bool := String.eqb (a_Kind a) "image".
Definition StorageKey (a : Attachment) : string :=
  if String.eqb (a_EncryptionKey a) "" then a_Key a else a_EncryptionKey a.
Definition HasContent (a : Attachment) : bool :=
  negb (String.eqb (a_TextContent a) "") || negb (bool_decide (length (a_Pages a) = 0)).

Record URLCitation := mkCitation { c_URL : string; c_Title : string; c_StartIndex : Z; c_EndIndex : Z }.
Record Annotation := mkAnnotation { n_Type : string; n_URLCitation : option URLCitation }.
Record Compaction := mkCompaction {
  k_Messages : Z;
  k_StartedAt : Q;
  k_EndedAt : Q;
  k_Model : string;
  k_Version : Z;
}.

(** What a message sent of a questions widget (internal/domain/questions.go). *)
Record QuestionOption := mkOption { o_ID : string; o_Label : string }.
Record AnsweredQuestion := mkAnswered {
  aq_ID : string;
  aq_Prompt : string;
  aq_Answered : bool;
  aq_Selected : list QuestionOption;
}.
Record WidgetAnswers := mkAnswers { wa_ToolCallID : string; wa_Title : string; wa_Questions : list AnsweredQuestion }.

Record Message := mkMessage {
  m_ID : string;
  m_Role : string;
  m_CreatedAt : string;
  m_Content : string;
  m_Quote : string;
  m_Model : string;
  m_ModelDisplayName : string;
  m_Timeline : slice Block;
  m_Attachments : slice Attachment;
  m_Annotations : slice Annotation;
  m_Usage : RawMessage;
  m_IsError : option bool;
  m_IsInterrupted : option bool;
  m_Answers : slice WidgetAnswers;
  m_Compaction : option Compaction;
}.
#[global] Instance Message_eta : Eta Message := λ m,
  mkMessage (m_ID m) (m_Role m) (m_CreatedAt m) (m_Content m) (m_Quote m) (m_Model m) (m_ModelDisplayName m)
    (m_Timeline m) (m_Attachments m) (m_Annotations m) (m_Usage m) (m_IsError m) (m_IsInterrupted m)
    (m_Answers m) (m_Compaction m).
Definition noMessage : Message := mkMessage "" "" "" "" "" "" "" None None None None None None None None.

Record ActiveRun := mkRun { r_RunID : string; r_ExpiresAt : string; r_Instance : string }.
Record ContextUsage := mkUsage { u_UsedTokens : Z; u_LimitTokens : Z; u_Percentage : Q }.
Record ImportOrigin := mkOrigin {
  i_Format : string;
  i_Source : string;
  i_Kind : string;
  i_SourceID : string;
  i_Generation : Z;
}.

Record Thread := mkThread {
  t_ID : string;
  t_Title : string;
  t_TitleState : string;
  t_CreatedAt : string;
  t_UpdatedAt : string;
  t_Model : string;
  t_ProjectID : option string;
  t_PresetID : option string;
  t_Pinned : bool;
  t_WebSearchEnabled : bool;
  t_Messages : list Message;
  t_LastRequestID : string;
  t_LastRequestKind : string;
  t_ActiveRun : option ActiveRun;
  t_ContextUsage : option ContextUsage;
  t_Flagged : bool;
  t_HiddenCount : Z;
  t_RecordVersion : Z;
  t_ImportedFrom : option ImportOrigin;
}.
#[global] Instance Thread_eta : Eta Thread := λ t,
  mkThread (t_ID t) (t_Title t) (t_TitleState t) (t_CreatedAt t) (t_UpdatedAt t) (t_Model t) (t_ProjectID t)
    (t_PresetID t) (t_Pinned t) (t_WebSearchEnabled t) (t_Messages t) (t_LastRequestID t) (t_LastRequestKind t)
    (t_ActiveRun t) (t_ContextUsage t) (t_Flagged t) (t_HiddenCount t) (t_RecordVersion t) (t_ImportedFrom t).

Definition CompactionRole : string := "compaction".
Definition is_marker (m : Message) : bool := String.eqb (m_Role m) CompactionRole.

(** The walk back from index [i - 1]. *)
Fixpoint latestBefore (messages : list Message) (i : nat) : Z :=
  match i with
  | 0 => (-1)%Z
  | S i => match messages !! i with
           | Some m => if is_marker m then Z.of_nat i else latestBefore messages i
           | None => latestBefore messages i
           end
  end.
Definition LatestCompaction (messages : list Message) : Z := latestBefore messages (length messages).

(** [None] is a panic: an index past the messages. *)
Definition DropCompactionsAfter (t : Thread) (index : Z) : option Thread :=
  if bool_decide (0 ≤ index + 1 ≤ Z.of_nat (length (t_Messages t)))%Z then
    let n := Z.to_nat (index + 1) in
    Some (t <| t_Messages ::= λ ms, take n ms ++ List.filter (λ m, negb (is_marker m)) (drop n ms) |>)
  else None.

Definition MessageIndex (t : Thread) (id : string) : option nat :=
  IndexFunc (λ m, String.eqb (m_ID m) id) (t_Messages t).

Definition FindAttachment (t : Thread) (id : string) : option Attachment :=
  List.find (λ a, String.eqb (a_ID a) id) (t_Messages t ≫= λ m, elems (m_Attachments m)).

(** [EachAttachment]: a visit may change the attachment; an error stops. *)
Section Each.
Context {E : Type} (visit : Attachment → result E Attachment).

Fixpoint each (l : list Attachment) : list Attachment * option E :=
  match l with
  | [] => ([], None)
  | a :: l => match visit a with
              | Ok a' => let '(l', e) := each l in (a' :: l', e)
              | Err e => (a :: l, Some e)
              end
  end.
Fixpoint eachOf (ms : list Message) : list Message * option E :=
  match ms with
  | [] => ([], None)
  | m :: ms =>
      let '(l, e) := each (elems (m_Attachments m)) in
      let m' := m <| m_Attachments ::= λ s, match s with None => None | Some _ => Some l end |> in
      match e with
      | Some e => (m' :: ms, Some e)
      | None => let '(ms', e) := eachOf ms in (m' :: ms', e)
      end
  end.
Definition EachAttachment (t : Thread) : Thread * option E :=
  let '(ms, e) := eachOf (t_Messages t) in (t <| t_Messages := ms |>, e).
End Each.

Definition ValueOr {A} (p : option A) (fallback : A) : A := default fallback p.

(** ** Replacing a widget *)

Record ReplacedWidget := mkReplaced { rw_Arguments : string; rw_Result : RawMessage }.

Definition errWidgetChanged : ApiError := mkApiError 409 "REVISION_CONFLICT" "The widget changed during its retry".
Definition errWidgetRemoved : ApiError := mkApiError 409 "REVISION_CONFLICT" "The widget was removed during its retry".

(** The first block of the call: [None] where there is none. *)
Fixpoint replaceBlock (callID expected : string) (r : ReplacedWidget) (l : list Block)
    : option (result ApiError (list Block)) :=
  match l with
  | [] => None
  | b :: l =>
      if negb (String.eqb (CallID b) callID) then (λ x : result _ _, cons b <$> x) <$> replaceBlock callID expected r l
      else if negb (String.eqb (b_Arguments b) expected) && negb (String.eqb (b_Arguments b) (rw_Arguments r))
      then Some (Err errWidgetChanged)
      else Some (Ok (b <| b_Arguments := rw_Arguments r |> <| b_Result := rw_Result r |> <| b_Answers := ∅ |> :: l))
  end.
Fixpoint replaceIn (messageID callID expected : string) (r : ReplacedWidget) (ms : list Message)
    : result ApiError (list Message) :=
  match ms with
  | [] => Err errWidgetRemoved
  | m :: ms =>
      let rest := cons m <$> replaceIn messageID callID expected r ms in
      if negb (String.eqb (m_ID m) messageID) then rest
      else match m_Timeline m ≫= replaceBlock callID expected r with
           | None => rest
           | Some (Err e) => Err e
           | Some (Ok l) => Ok (m <| m_Timeline := Some l |> :: ms)
           end
  end.
Definition ReplaceWidget (t : Thread) (messageID callID expected : string) (r : ReplacedWidget) : result ApiError Thread :=
  ms ← replaceIn messageID callID expected r (t_Messages t); Ok (t <| t_Messages := ms |>).
End Chat.
