(* ===== verification/Timeline.v ===== *)
(** * A reply assembled from its run's events: internal/domain/timeline.go

    The messages a run's events build, with the events of
    internal/domain/events.go; the same text in fewer deltas builds the same
    messages. *)

From S2P Require Import Prelude GoStd Chat.
From stdpp Require Import pretty sorting.
From Stdlib Require Import QArith_base.
Local Open Scope nat_scope.
Local Open Scope go_scope.

Module Timeline.
Import GoStd Chat.

(** ** Events *)

Inductive patchValue := PNumber (q : Q) | PString (s : string) | POther.
Record ActivityPatch := mkPatch { Op : string; Path : string; Value : patchValue }.
Record ToolActivity := mkActivity { ta_ToolCallID : string; ta_Tool : string; ta_Progress : Q; ta_Output : list string }.
#[global] Instance ToolActivity_eta : Eta ToolActivity := λ a,
  mkActivity (ta_ToolCallID a) (ta_Tool a) (ta_Progress a) (ta_Output a).

(** The events that carry views of a chat, or end a run, by their type. *)
Inductive Event :=
  | RunStarted (ThreadID RunID Instance_ MessageID : string)
  | TextChunk (MessageID Role Delta : string)
  | ReasoningChunk (MessageID Delta : string)
  | ReasoningSummary (MessageID BlockID Content : string)
  | ToolCallStart (ToolCallID ToolCallName ParentMessageID : string)
  | ToolCallArgs (ToolCallID Delta : string)
  | ToolCallEnd (ToolCallID : string)
  | ToolCallResult (MessageID ToolCallID Role : string) (Content Metadata : RawMessage) (Display : option ToolDisplay)
  | ActivitySnapshot (MessageID ActivityType : string) (Content : ToolActivity) (Display : option ToolDisplay)
  | ActivityDelta (MessageID ActivityType : string) (Patch : list ActivityPatch) (Display : option ToolDisplay)
  | CompactionStart (MessageID BeforeMessageID : string)
  | CompactionEnd (MessageID BeforeMessageID Outcome : string)
  | OtherEvent (eventType : string).

Definition ReasoningSuffix : string := "-reasoning".
Definition ActivityPrefix : string := "act_".

Definition eventType (e : Event) : string :=
  match e with
  | RunStarted _ _ _ _ => "RUN_STARTED"
  | TextChunk _ _ _ => "TEXT_MESSAGE_CHUNK"
  | ReasoningChunk _ _ => "REASONING_MESSAGE_CHUNK"
  | ReasoningSummary _ _ _ => "REASONING_SUMMARY"
  | ToolCallStart _ _ _ => "TOOL_CALL_START"
  | ToolCallArgs _ _ => "TOOL_CALL_ARGS"
  | ToolCallEnd _ => "TOOL_CALL_END"
  | ToolCallResult _ _ _ _ _ _ => "TOOL_CALL_RESULT"
  | ActivitySnapshot _ _ _ _ => "ACTIVITY_SNAPSHOT"
  | ActivityDelta _ _ _ _ => "ACTIVITY_DELTA"
  | CompactionStart _ _ => "COMPACTION_START"
  | CompactionEnd _ _ _ => "COMPACTION_END"
  | OtherEvent t => t
  end.

(** [TextDelta]: its target, its text, and the same with another text. *)
Definition Target (e : Event) : option string :=
  match e with
  | TextChunk m _ _ => Some m
  | ReasoningChunk m _ => Some m
  | ToolCallArgs c _ => Some c
  | _ => None
  end.
Definition Text (e : Event) : string :=
  match e with TextChunk _ _ d | ReasoningChunk _ d | ToolCallArgs _ d => d | _ => "" end.
Definition WithText (e : Event) (text : string) : Event :=
  match e with
  | TextChunk m r _ => TextChunk m r text
  | ReasoningChunk m _ => ReasoningChunk m text
  | ToolCallArgs c _ => ToolCallArgs c text
  | e => e
  end.

(** [strings.TrimPrefix] and [strings.TrimSuffix]. *)
Definition TrimPrefix (s p : string) : string :=
  if String.prefix p s then String.substring (String.length p) (String.length s - String.length p) s else s.
Definition TrimSuffix (s p : string) : string :=
  let n := String.length s - String.length p in
  if bool_decide (String.length p ≤ String.length s) && String.eqb (String.substring n (String.length p) s) p
  then String.substring 0 n s else s.

Example TrimSuffix_reasoning : TrimSuffix "msg_1-reasoning" ReasoningSuffix = "msg_1" ∧ TrimSuffix "a" ReasoningSuffix = "a".
Proof. done. Qed.
Example TrimPrefix_activity : TrimPrefix "act_call" ActivityPrefix = "call" ∧ TrimPrefix "call" ActivityPrefix = "call".
Proof. done. Qed.

Section Timeline.
(** [time.Parse] of RFC 3339 and [UnixMilli] of what it reads; the JSON text
    of a patch's value. *)
Context (UnixMilli : string → option Z) (RawValue : patchValue → string).

Definition Millis (value : string) : Z := default 0%Z (UnixMilli value).
Definition millis (value : string) : Q := inject_Z (Millis value).

(** ** The assembler: messages by pointer *)

Record MessageAssembler := mkAssembler {
  heap : gmap nat Message;
  ordered : list nat;
  byID : gmap string nat;
  calls : gmap string (nat * nat);
  sealed : gmap string nat;
  fresh : nat;
}.
#[global] Instance MessageAssembler_eta : Eta MessageAssembler := λ a,
  mkAssembler (heap a) (ordered a) (byID a) (calls a) (sealed a) (fresh a).

Definition NewMessageAssembler : MessageAssembler := mkAssembler ∅ [] ∅ ∅ ∅ 0.

(** A new pointer to [m], the message of its id. *)
Definition place (a : MessageAssembler) (m : Message) : MessageAssembler :=
  a <| heap ::= <[fresh a := m]> |> <| byID ::= <[m_ID m := fresh a]> |>
    <| ordered ::= λ l, l ++ [fresh a] |> <| fresh ::= S |>.

Definition has_type (l : list Block) (i : nat) (kind : string) : bool :=
  match l !! i with Some b => String.eqb (b_Type b) kind | None => false end.

Definition Seed (a : MessageAssembler) (reply : Message) : MessageAssembler :=
  let m := reply <| m_Timeline ::= λ t, Some (elems t) |> in
  let blocks := elems (m_Timeline m) in
  let n := length blocks in
  let n := if bool_decide (0 < n) && has_type blocks (n - 1) "content" then n - 1 else n in
  (place a m) <| sealed ::= <[m_ID m := n]> |>.

(** [now] is [api.Timestamp()]. *)
Definition orphan (id : string) : string := if String.eqb id "" then "msg_orphan" else id.
Definition message (a : MessageAssembler) (id now : string) : MessageAssembler * nat :=
  let id := orphan id in
  match byID a !! id with
  | Some p => (a, p)
  | None =>
      (place a (noMessage <| m_ID := id |> <| m_Role := "assistant" |> <| m_CreatedAt := now |>
                  <| m_Timeline := Some [] |>), fresh a)
  end.

Definition stamp (sealed : option nat) (m : Message) (at_ : string) : Message :=
  if negb (String.eqb at_ "") && negb (bool_decide (is_Some sealed)) && Nat.eqb (length (elems (m_Timeline m))) 0
  then m <| m_CreatedAt := at_ |> else m.

(** The last block takes what was streamed. *)
Definition extend (kind delta : string) (at_ : Q) (b : Block) : Block :=
  let b := b <| b_Content ::= λ c, String.append c delta |> in
  if String.eqb kind "content" then b
  else if negb (Qle_bool (b_StartedAt b) 0) && Qle_bool (b_StartedAt b) at_
  then b <| b_EndedAt := at_ |> <| b_Duration := ((at_ - b_StartedAt b) / inject_Z 1000)%Q |>
  else b.

(** Reasoning that comes after the text it precedes. *)
Definition isTail (s : nat) (kind : string) (blocks : list Block) : bool :=
  let n := length blocks in
  String.eqb kind "thinking" && Nat.leb (s + 2) n && has_type blocks (n - 1) "content" && has_type blocks (n - 2) "thinking".

Definition opened (s : nat) (kind : string) (blocks : list Block) : bool :=
  let n := length blocks in negb (Nat.leb n s) && has_type blocks (n - 1) kind.

Definition newBlock (id kind : string) (n : nat) (at_ : Q) : Block :=
  let b := noBlock <| b_ID := String.append id (String.append "_" (String.append kind (String.append "_" (pretty n)))) |>
             <| b_Type := kind |> in
  if String.eqb kind "thinking" then b <| b_StartedAt := at_ |> else b.

(** [streamed] on the message's value, once it is dated. *)
Definition grown (id : string) (sealed : option nat) (kind delta emitted : string) (m : Message) : Message :=
  let s := default 0 sealed in
  let blocks := elems (m_Timeline m) in
  let n := length blocks in
  if isTail s kind blocks then
    m <| m_Timeline := Some (alter (λ b, b <| b_Content ::= λ c, String.append c delta |>) (n - 2) blocks) |>
  else
    let blocks := if opened s kind blocks then blocks else blocks ++ [newBlock id kind n (millis emitted)] in
    m <| m_Timeline := Some (alter (extend kind delta (millis emitted)) (length blocks - 1) blocks) |>
      <| m_Content ::= λ c, if String.eqb kind "content" then String.append c delta else c |>.
Definition grow (id : string) (sealed : option nat) (kind delta emitted : string) (m : Message) : Message :=
  grown id sealed kind delta emitted (stamp sealed m emitted).

Definition streamed (a : MessageAssembler) (id kind delta emitted now : string) : MessageAssembler :=
  let '(a, p) := message a id now in
  a <| heap ::= alter (grow id (sealed a !! id) kind delta emitted) p |>.

(** [block()] of a call, changed; [None] is a panic. *)
Definition onBlock (f : Block → Block) (r : nat * nat) (a : MessageAssembler) : option MessageAssembler :=
  m ← heap a !! r.1;
  _ ← elems (m_Timeline m) !! r.2;
  Some (a <| heap ::= alter (λ m, m <| m_Timeline ::= fmap (M := option) (alter f r.2) |>) r.1 |>).

Definition onCall (a : MessageAssembler) (id : string) (f : Block → Block) : option MessageAssembler :=
  match calls a !! id with Some r => onBlock f r a | None => Some a end.

Definition parentOf (a : MessageAssembler) (callID parent : string) : string :=
  let parent := if String.eqb parent "" then
                  match last (ordered a) ≫= λ p, heap a !! p with Some m => m_ID m | None => "" end
                else parent in
  if String.eqb parent "" then String.append "msg_" callID else parent.

Definition callBlock (id name : string) (at_ : Q) : Block :=
  noBlock <| b_ID := id |> <| b_Type := "tool_call" |> <| b_ToolCallID := id |> <| b_Name := name |>
    <| b_Progress := Some [] |> <| b_StartedAt := at_ |>.

Definition startCall (a : MessageAssembler) (id name parent at_ now : string) : MessageAssembler :=
  let parent := parentOf a id parent in
  let '(a, p) := message a parent now in
  let add m := let m := stamp (sealed a !! parent) m at_ in
               m <| m_Timeline ::= λ t, Some (elems t ++ [callBlock id name (millis at_)]) |> in
  let n := match heap a !! p with Some m => length (elems (m_Timeline m)) | None => 0 end in
  a <| heap ::= alter add p |> <| calls ::= <[id := (p, n)]> |>.

Definition withResult (content metadata : RawMessage) (display : option ToolDisplay) (at_ : Q) (b : Block) : Block :=
  let b := b <| b_Result := content |> in
  let b := if Qle_bool (b_StartedAt b) at_ then b <| b_EndedAt := at_ |> else b in
  let b := match metadata with
           | Some t => if String.eqb t "" then b else b <| b_Metadata := Some t |>
           | None => b
           end in
  match display with Some d => b <| b_Display := Some d |> | None => b end.

Definition withProgress (patch : list ActivityPatch) (b : Block) : Block :=
  foldl (λ b op, if String.eqb (Path op) "/output/-"
                 then b <| b_Progress ::= λ t, Some (elems t ++ [RawValue (Value op)]) |> else b) b patch.

Definition arguments (d : string) (b : Block) : Block := b <| b_Arguments ::= λ c, String.append c d |>.

Definition Apply (a : MessageAssembler) (e : Event) (at_ now : string) : option MessageAssembler :=
  match e with
  | TextChunk id _ delta => Some (streamed a id "content" delta at_ now)
  | ReasoningChunk id delta => Some (streamed a (TrimSuffix id ReasoningSuffix) "thinking" delta at_ now)
  | ToolCallStart id name parent => Some (startCall a id name parent at_ now)
  | ToolCallArgs id delta => onCall a id (arguments delta)
  | ToolCallEnd id => onCall a id (λ b, b <| b_Complete := true |>)
  | ToolCallResult _ id _ content metadata display => onCall a id (withResult content metadata display (millis at_))
  | ActivitySnapshot id _ _ (Some d) => onCall a (TrimPrefix id ActivityPrefix) (λ b, b <| b_Display := Some d |>)
  | ActivityDelta id _ patch _ => onCall a (TrimPrefix id ActivityPrefix) (withProgress patch)
  | _ => Some a
  end.

Definition LastBlock (a : MessageAssembler) (id : string) : option Block :=
  p ← byID a !! id; m ← heap a !! p; last (elems (m_Timeline m)).

Definition Messages (a : MessageAssembler) : list Message := omap (λ p, heap a !! p) (ordered a).

(** Events as they come: each with its time and the clock. *)
Record timed := mkTimed { t_event : Event; t_at : string; t_now : string }.
Fixpoint applyAll (a : MessageAssembler) (es : list timed) : option MessageAssembler :=
  match es with
  | [] => Some a
  | e :: es => a ← Apply a (t_event e) (t_at e) (t_now e); applyAll a es
  end.
(** ** A reply's text *)


Lemma alter_alter {A} (f g : A → A) i (l : list A) : alter f i (alter g i l) = alter (f ∘ g) i l.
Proof. apply list_alter_alter_eq. Qed.

Lemma has_type_alter l i j f k : (∀ b, b_Type (f b) = b_Type b) → has_type (alter f i l) j k = has_type l j k.
Proof.
  intros Hf. unfold has_type. destruct (decide (i = j)) as [->|Hne].
  - rewrite list_lookup_alter_eq. destruct (l !! j); cbn; [by rewrite Hf|done].
  - by rewrite list_lookup_alter_ne.
Qed.

Lemma extend_type kind d t b : b_Type (extend kind d t b) = b_Type b.
Proof. unfold extend. destruct (String.eqb kind "content"); [done|]. by destruct (_ && _). Qed.

Lemma isTail_alter s kind l i f : (∀ b, b_Type (f b) = b_Type b) → isTail s kind (alter f i l) = isTail s kind l.
Proof. intros Hf. unfold isTail. by rewrite length_alter, !has_type_alter. Qed.
Lemma opened_alter s kind l i f : (∀ b, b_Type (f b) = b_Type b) → opened s kind (alter f i l) = opened s kind l.
Proof. intros Hf. unfold opened. by rewrite length_alter, has_type_alter. Qed.

(** A message that has taken a delta of this kind last. *)
Definition warm (sealed : option nat) (kind : string) (m : Message) : Prop :=
  let s := default 0 sealed in let blocks := elems (m_Timeline m) in
  isTail s kind blocks = true ∨ isTail s kind blocks = false ∧ opened s kind blocks = true.
Lemma extend_join kind d1 d2 t1 t2 b : Qle t1 t2 →
  extend kind d2 t2 (extend kind d1 t1 b) = extend kind (String.append d1 d2) t2 b.
Proof.
  intros Ht. unfold extend. destruct (String.eqb kind "content"); cbn.
  - by rewrite string_app_assoc.
  - destruct (Qle_bool (b_StartedAt b) 0) eqn:H0; cbn; rewrite ?H0; cbn; [by rewrite string_app_assoc|].
    destruct (Qle_bool (b_StartedAt b) t1) eqn:H1; cbn; rewrite H0; cbn; [|by rewrite string_app_assoc].
    assert (H2 : Qle_bool (b_StartedAt b) t2 = true).
    { apply Qle_bool_iff. apply Qle_bool_iff in H1. by eapply Qle_trans. }
    by rewrite H2, string_app_assoc.
Qed.

Lemma alter_last {A} (f : A → A) l x : alter f (length l) (l ++ [x]) = l ++ [f x].
Proof. induction l as [|y l IH]; [done|]. cbn. f_equal. exact IH. Qed.

Lemma grown_tail id s kind d t m : isTail (default 0 s) kind (elems (m_Timeline m)) = true →
  grown id s kind d t m =
    m <| m_Timeline := Some (alter (λ b, b <| b_Content ::= λ c, String.append c d |>)
                               (length (elems (m_Timeline m)) - 2) (elems (m_Timeline m))) |>.
Proof. intros H. unfold grown. by rewrite H. Qed.
Lemma grown_opened id s kind d t m :
  isTail (default 0 s) kind (elems (m_Timeline m)) = false → opened (default 0 s) kind (elems (m_Timeline m)) = true →
  grown id s kind d t m =
    m <| m_Timeline := Some (alter (extend kind d (millis t)) (length (elems (m_Timeline m)) - 1) (elems (m_Timeline m))) |>
      <| m_Content ::= λ c, if String.eqb kind "content" then String.append c d else c |>.
Proof. intros H H'. unfold grown. by rewrite H, H'. Qed.
Lemma grown_new id s kind d t m :
  isTail (default 0 s) kind (elems (m_Timeline m)) = false → opened (default 0 s) kind (elems (m_Timeline m)) = false →
  grown id s kind d t m =
    m <| m_Timeline := Some (elems (m_Timeline m) ++
           [extend kind d (millis t) (newBlock id kind (length (elems (m_Timeline m))) (millis t))]) |>
      <| m_Content ::= λ c, if String.eqb kind "content" then String.append c d else c |>.
Proof.
  intros H H'. unfold grown. rewrite H, H', length_app. cbn [length].
  replace (length (elems (m_Timeline m)) + 1 - 1) with (length (elems (m_Timeline m))) by lia.
  by rewrite alter_last.
Qed.

Lemma content_app kind c d1 d2 :
  (if String.eqb kind "content" then String.append (if String.eqb kind "content" then String.append c d1 else c) d2
   else if String.eqb kind "content" then String.append c d1 else c) =
  (if String.eqb kind "content" then String.append c (String.append d1 d2) else c).
Proof. destruct (String.eqb kind "content"); [apply string_app_assoc|done]. Qed.

Lemma alter_same {A} (f g : A → A) i (l : list A) : (∀ x, f x = g x) → alter f i l = alter g i l.
Proof. intros H. apply list_alter_ext; auto. Qed.

(** Two deltas to a warm message are one whose text is both, at the time of
    the second. *)
Lemma grown_join id s kind d1 d2 e1 e2 m : warm s kind m → (Millis e1 ≤ Millis e2)%Z →
  grown id s kind d2 e2 (grown id s kind d1 e1 m) = grown id s kind (String.append d1 d2) e2 m.
Proof.
  intros Hw He. assert (Hq : Qle (millis e1) (millis e2)) by (unfold millis; by rewrite <- Zle_Qle).
  destruct Hw as [Ht|[Ht Ho]].
  - rewrite (grown_tail _ _ _ d1), (grown_tail _ _ _ (String.append d1 d2)) by done.
    rewrite grown_tail by (cbn; by rewrite isTail_alter). cbn. rewrite length_alter, alter_alter. do 2 f_equal.
    apply alter_same. intros b. cbn. by rewrite string_app_assoc.
  - rewrite (grown_opened _ _ _ d1), (grown_opened _ _ _ (String.append d1 d2)) by done.
    rewrite grown_opened;
      [|cbn; rewrite isTail_alter; [done|apply extend_type]|cbn; rewrite opened_alter; [done|apply extend_type]].
    cbn. rewrite length_alter, alter_alter, content_app. do 2 f_equal.
    apply alter_same. intros b. cbn. by apply extend_join.
Qed.

Lemma type_new id kind n t : b_Type (newBlock id kind n t) = kind.
Proof. unfold newBlock. by destruct (String.eqb kind "thinking"). Qed.
Lemma isTail_last s kind l b : b_Type b = kind → isTail s kind (l ++ [b]) = false.
Proof.
  intros Hb. unfold isTail. destruct (String.eqb_spec kind "thinking") as [->|]; [|done].
  rewrite length_app. cbn [length]. replace (length l + 1 - 1) with (length l) by lia.
  unfold has_type at 1. rewrite lookup_app_r, Nat.sub_diag by lia. cbn. rewrite Hb, andb_false_r. done.
Qed.
Lemma opened_last s kind l b : b_Type b = kind → s ≤ length l → opened s kind (l ++ [b]) = true.
Proof.
  intros Hb Hs. unfold opened. rewrite length_app. cbn [length]. replace (length l + 1 - 1) with (length l) by lia.
  unfold has_type. rewrite lookup_app_r, Nat.sub_diag by lia. cbn. rewrite Hb, String.eqb_refl, andb_true_r.
  apply negb_true_iff, Nat.leb_gt. lia.
Qed.

(** After a delta the message is warm for the next. *)
Lemma grown_warm id s kind d e m : default 0 s ≤ length (elems (m_Timeline m)) → warm s kind (grown id s kind d e m).
Proof.
  intros Hs. unfold warm. destruct (isTail (default 0 s) kind (elems (m_Timeline m))) eqn:Ht.
  { rewrite grown_tail by done. left. cbn. by rewrite isTail_alter. }
  right. destruct (opened (default 0 s) kind (elems (m_Timeline m))) eqn:Ho.
  - rewrite grown_opened by done. cbn. rewrite isTail_alter, opened_alter by apply extend_type. done.
  - rewrite grown_new by done. cbn. rewrite isTail_last, opened_last; try done; by rewrite extend_type, type_new.
Qed.

(** Two deltas of one time are one, to any message. *)
Lemma grown_same id s kind d1 d2 e m : default 0 s ≤ length (elems (m_Timeline m)) →
  grown id s kind d2 e (grown id s kind d1 e m) = grown id s kind (String.append d1 d2) e m.
Proof.
  intros Hs. destruct (isTail (default 0 s) kind (elems (m_Timeline m))) eqn:Ht.
  { apply grown_join; [by left|lia]. }
  destruct (opened (default 0 s) kind (elems (m_Timeline m))) eqn:Ho.
  { apply grown_join; [by right|lia]. }
  rewrite (grown_new _ _ _ d1), (grown_new _ _ _ (String.append d1 d2)) by done.
  rewrite grown_opened; [| |]; cbn; rewrite ?isTail_last, ?opened_last; try done; rewrite ?extend_type, ?type_new; try done.
  rewrite length_app. cbn [length].
  replace (length (elems (m_Timeline m)) + 1 - 1) with (length (elems (m_Timeline m))) by lia.
  rewrite alter_last, content_app, extend_join by apply Qle_refl. done.
Qed.
(** ** Well-formed assemblers *)

(** The text of a reply's content blocks. *)
Definition contentOf (b : Block) : string := if String.eqb (b_Type b) "content" then b_Content b else "".
Fixpoint textOf (l : list Block) : string :=
  match l with [] => "" | b :: l => String.append (contentOf b) (textOf l) end.
Definition texts (m : Message) : Prop := m_Content m = textOf (elems (m_Timeline m)).

Definition callAt (m : Message) (i : nat) (id : string) : Prop :=
  ∃ b, elems (m_Timeline m) !! i = Some b ∧ b_Type b = "tool_call" ∧ b_ToolCallID b = id.

Record wf (a : MessageAssembler) : Prop := {
  wf_ids id p : byID a !! id = Some p → ∃ m, heap a !! p = Some m ∧ m_ID m = id ∧ texts m;
  wf_fresh p : is_Some (heap a !! p) → p < fresh a;
  wf_ordered p : p ∈ ordered a ↔ ∃ id, byID a !! id = Some p;
  wf_nodup : NoDup (ordered a);
  wf_calls id p i : calls a !! id = Some (p, i) →
    p ∈ ordered a ∧ ∃ m, heap a !! p = Some m ∧ callAt m i id;
  wf_sealed id s : sealed a !! id = Some s →
    ∃ p m, byID a !! orphan id = Some p ∧ heap a !! p = Some m ∧ s ≤ length (elems (m_Timeline m));
}.

Lemma orphan_orphan id : orphan (orphan id) = orphan id.
Proof.
  unfold orphan. destruct (String.eqb id "") eqn:H; [done|]. by rewrite H.
Qed.

(** What a change of one message keeps. *)
Definition keeps (m m' : Message) : Prop :=
  m_ID m' = m_ID m ∧ (texts m → texts m') ∧ length (elems (m_Timeline m)) ≤ length (elems (m_Timeline m')) ∧
  ∀ i id, callAt m i id → callAt m' i id.

Lemma wf_alter a p f : wf a → (∀ m, heap a !! p = Some m → keeps m (f m)) → wf (a <| heap ::= alter f p |>).
Proof.
  intros [Hi Hf Ho Hn Hc Hs] Hk.
  assert (Hm : ∀ q m, heap a !! q = Some m → ∃ m', alter f p (heap a) !! q = Some m' ∧ keeps m m').
  { intros q m Hq. destruct (decide (q = p)) as [->|].
    - rewrite lookup_alter_eq, Hq. eauto.
    - rewrite lookup_alter_ne by done. exists m. unfold keeps. auto. }
  split; cbn; try done.
  - intros id q Hq. destruct (Hi id q Hq) as (m & Hh & <- & Ht). destruct (Hm q m Hh) as (m' & ? & ? & ? & _). eauto.
  - intros q [m Hq]. apply Hf. rewrite lookup_alter in Hq. destruct (decide (p = q)) as [->|]; [|eauto].
    destruct (heap a !! q); [eauto|done].
  - intros id q i Hq. destruct (Hc id q i Hq) as (Hin & m & Hh & Hcall). split; [done|].
    destruct (Hm q m Hh) as (m' & ? & _ & _ & _ & ?). eauto.
  - intros id s Hq. destruct (Hs id s Hq) as (q & m & ? & Hh & ?). destruct (Hm q m Hh) as (m' & ? & _ & _ & ? & _).
    exists q, m'. split_and!; [done..|lia].
Qed.

Lemma wf_place a m : wf a → byID a !! m_ID m = None → texts m → wf (place a m).
Proof.
  intros [Hi Hf Ho Hn Hc Hs] Hid Ht.
  assert (Hne : ∀ p, is_Some (heap a !! p) → fresh a ≠ p) by (intros p Hp <-; apply Hf in Hp; lia).
  split; cbn.
  - intros id p [[<- <-]|[? Hp]]%lookup_insert_Some; [exists m; by rewrite lookup_insert_eq|].
    destruct (Hi id p Hp) as (m' & Hh & ?). exists m'. rewrite lookup_insert_ne; eauto.
  - intros p [<-|[_ Hp]]%lookup_insert_is_Some; [lia|]. apply Hf in Hp. lia.
  - intros p. rewrite elem_of_app, list_elem_of_singleton, Ho. split.
    + intros [(id & Hp)| ->]; [|exists (m_ID m); by rewrite lookup_insert_eq].
      exists id. rewrite lookup_insert_ne; [done|]. congruence.
    + intros (id & [[_ <-]|[? Hp]]%lookup_insert_Some); eauto.
  - apply NoDup_app. split_and!; [done| |by apply NoDup_singleton]. intros p Hp ->%list_elem_of_singleton.
    apply Ho in Hp as (id & Hp). destruct (Hi id _ Hp) as (m' & Hh & _).
    assert (fresh a < fresh a) by (apply Hf; eauto). lia.
  - intros id p i Hp. destruct (Hc id p i Hp) as (? & m' & Hh & ?). rewrite elem_of_app. split; [by left|].
    exists m'. rewrite lookup_insert_ne; eauto.
  - intros id s Hp. destruct (Hs id s Hp) as (p & m' & Hb & Hh & ?). exists p, m'. split_and!; [|rewrite lookup_insert_ne; eauto|done].
    rewrite lookup_insert_ne; [done|]. congruence.
Qed.

(** [message] finds or makes the message of the id. *)
Lemma message_ok a id now a' p : wf a → message a id now = (a', p) →
  wf a' ∧ calls a' = calls a ∧ sealed a' = sealed a ∧ byID a' !! orphan id = Some p ∧
  (∀ q, q ∈ ordered a → q ∈ ordered a') ∧
  ∃ m, heap a' !! p = Some m ∧ m_ID m = orphan id ∧ default 0 (sealed a !! id) ≤ length (elems (m_Timeline m)).
Proof.
  intros Ha. unfold message. destruct (byID a !! orphan id) as [q|] eqn:Hq; intros [= <- <-].
  - split_and!; try done. destruct (wf_ids _ Ha _ _ Hq) as (m & Hh & Hid & _). exists m. split_and!; [done..|].
    destruct (sealed a !! id) as [s|] eqn:Hs; cbn; [|lia].
    destruct (wf_sealed _ Ha id s Hs) as (q' & m' & ? & ? & ?). simplify_eq. done.
  - split_and!; try done.
    + apply wf_place; done.
    + cbn. by rewrite lookup_insert_eq.
    + cbn. intros q. rewrite elem_of_app. by left.
    + cbn. eexists. rewrite lookup_insert_eq. split_and!; [done..|].
      destruct (sealed a !! id) as [s|] eqn:Hs; cbn; [|lia].
      destruct (wf_sealed _ Ha id s Hs) as (q' & m' & ? & ?). congruence.
Qed.
(** ** What each event keeps *)

Lemma textOf_app l1 l2 : textOf (l1 ++ l2) = String.append (textOf l1) (textOf l2).
Proof. induction l1 as [|b l IH]; [done|]. cbn. by rewrite IH, string_app_assoc. Qed.
Lemma textOf_one b : textOf [b] = contentOf b.
Proof. cbn. apply string_app_nil_r. Qed.
Lemma textOf_alter f i l : (∀ b, l !! i = Some b → contentOf (f b) = contentOf b) → textOf (alter f i l) = textOf l.
Proof.
  revert i. induction l as [|b l IH]; intros [|i] H; [done..| |]; cbn.
  - by rewrite (H b).
  - f_equal. apply IH, H.
Qed.

Lemma has_type_last l kind : has_type l (length l - 1) kind = true → ∃ l' b, l = l' ++ [b] ∧ b_Type b = kind.
Proof.
  destruct l as [|b l _] using rev_ind; [done|]. unfold has_type.
  rewrite length_app. cbn [length]. replace (length l + 1 - 1) with (length l) by lia.
  rewrite lookup_app_r, Nat.sub_diag by lia. cbn. intros ?%String.eqb_eq. eauto.
Qed.

Lemma opened_inv s kind l : opened s kind l = true → ∃ l' b, l = l' ++ [b] ∧ b_Type b = kind.
Proof. unfold opened. intros [_ H]%andb_prop. by apply has_type_last. Qed.

Lemma alter_end {A} (f : A → A) l x : alter f (length (l ++ [x]) - 1) (l ++ [x]) = l ++ [f x].
Proof. rewrite length_app. cbn [length]. replace (length l + 1 - 1) with (length l) by lia. apply alter_last. Qed.

Lemma callAt_alter m f i j id : (∀ b, b_Type (f b) = b_Type b ∧ b_ToolCallID (f b) = b_ToolCallID b) →
  callAt m j id → callAt (m <| m_Timeline := Some (alter f i (elems (m_Timeline m))) |>) j id.
Proof.
  intros Hf (b & Hb & Ht & Hid). unfold callAt. cbn. destruct (decide (i = j)) as [->|].
  - exists (f b). rewrite list_lookup_alter_eq, Hb. destruct (Hf b) as [-> ->]. done.
  - exists b. by rewrite list_lookup_alter_ne.
Qed.

Lemma extend_call kind d t b : b_ToolCallID (extend kind d t b) = b_ToolCallID b.
Proof. unfold extend. destruct (String.eqb kind "content"); [done|]. by destruct (_ && _). Qed.
Lemma extend_content kind d t b : b_Content (extend kind d t b) = String.append (b_Content b) d.
Proof. unfold extend. destruct (String.eqb kind "content"); [done|]. by destruct (_ && _). Qed.

Lemma stamp_keeps s m at_ : keeps m (stamp s m at_).
Proof. unfold stamp. destruct (_ && _); unfold keeps, texts, callAt; auto. Qed.
Lemma keeps_trans m1 m2 m3 : keeps m1 m2 → keeps m2 m3 → keeps m1 m3.
Proof. intros (?&?&?&?) (?&?&?&?). split_and!; [congruence|auto|lia|auto]. Qed.

Lemma grown_keeps id s kind d e m : kind = "content"%string ∨ kind = "thinking"%string → keeps m (grown id s kind d e m).
Proof.
  intros Hkind. destruct (isTail (default 0 s) kind (elems (m_Timeline m))) eqn:Ht.
  { rewrite grown_tail by done. unfold keeps. split_and!; [done| |cbn; by rewrite length_alter|
      intros i c; apply callAt_alter; done].
    unfold texts. cbn. intros ->. symmetry. apply textOf_alter. intros b Hb. unfold contentOf. cbn.
    unfold isTail in Ht. apply andb_prop in Ht as [_ Ht]. unfold has_type in Ht. rewrite Hb in Ht.
    apply String.eqb_eq in Ht. by rewrite Ht. }
  destruct (opened (default 0 s) kind (elems (m_Timeline m))) eqn:Ho.
  - rewrite grown_opened by done. unfold keeps.
    assert (Hcall : ∀ b, b_Type (extend kind d (millis e) b) = b_Type b ∧
        b_ToolCallID (extend kind d (millis e) b) = b_ToolCallID b)
      by (intros b; split; [apply extend_type|apply extend_call]).
    split_and!; [done| |cbn; by rewrite length_alter|
      intros i c Hc; apply (callAt_alter m (extend kind d (millis e)) (length (elems (m_Timeline m)) - 1) i c Hcall Hc)].
    unfold texts. cbn. intros ->. apply opened_inv in Ho as (l & b & -> & Hb).
    rewrite alter_end, !textOf_app, !textOf_one. unfold contentOf. rewrite extend_type, Hb, extend_content.
    destruct Hkind as [-> | ->]; cbn; by rewrite ?string_app_assoc.
  - rewrite grown_new by done. unfold keeps. split_and!; [done| |cbn; rewrite length_app; lia|].
    + unfold texts. cbn. intros ->. rewrite textOf_app, textOf_one. unfold contentOf.
      rewrite extend_type, type_new, extend_content. destruct Hkind as [-> | ->]; cbn; by rewrite ?string_app_nil_r.
    + intros i c (b & Hb & ?). exists b. split; [|done]. cbn. by apply lookup_app_l_Some.
Qed.

Lemma grow_keeps id s kind d e m : kind = "content"%string ∨ kind = "thinking"%string → keeps m (grow id s kind d e m).
Proof. intros H. eapply keeps_trans; [apply stamp_keeps|by apply grown_keeps]. Qed.

Lemma streamed_wf a id kind d e now : kind = "content"%string ∨ kind = "thinking"%string →
  wf a → wf (streamed a id kind d e now) ∧ calls (streamed a id kind d e now) = calls a.
Proof.
  intros Hk Ha. unfold streamed. destruct (message a id now) as [a' p] eqn:Hm.
  apply message_ok in Hm as (Ha' & Hc & _); [|done]. split; [|done].
  apply wf_alter; [done|]. intros m _. by apply grow_keeps.
Qed.

Lemma startCall_wf a id name parent e now : wf a → wf (startCall a id name parent e now).
Proof.
  intros Ha. unfold startCall. destruct (message a (parentOf a id parent) now) as [a' p] eqn:Hm.
  apply message_ok in Hm as (Ha' & Hc & _ & Hb & _ & m & Hh & _ & _); [|done]. rewrite Hh.
  set (f := λ m : Message, _).
  assert (Hf : elems (m_Timeline (f m)) = elems (m_Timeline m) ++ [callBlock id name (millis e)]).
  { unfold f, stamp. cbn. destruct (_ && _); done. }
  assert (Hnew : callAt (f m) (length (elems (m_Timeline m))) id).
  { exists (callBlock id name (millis e)). rewrite Hf, lookup_app_r, Nat.sub_diag by lia. done. }
  assert (Hfm : ∀ m, f m = (stamp (sealed a' !! parentOf a id parent) m e)
      <| m_Timeline ::= λ t, Some (elems t ++ [callBlock id name (millis e)]) |>) by done.
  clearbody f. clear Hf.
  assert (Hw : wf (a' <| heap ::= alter f p |>)).
  { apply wf_alter; [done|]. intros m' _. eapply keeps_trans; [apply (stamp_keeps (sealed a' !! parentOf a id parent) m' e)|].
    rewrite Hfm. set (m1 := stamp _ m' e). unfold keeps. split_and!; [done| |cbn; rewrite length_app; lia|].
    - unfold texts. cbn. intros ->. by rewrite textOf_app, textOf_one, string_app_nil_r.
    - intros i c (b & Hb' & ?). exists b. split; [|done]. cbn. by apply lookup_app_l_Some. }
  destruct Hw as [W1 W2 W3 W4 W5 W6]. split; try done. cbn in *.
  intros c q i [[<- [= <- <-]]|[_ Hq]]%lookup_insert_Some; [|by apply W5].
  split; [apply (wf_ordered _ Ha'); eauto|]. exists (f m). rewrite lookup_alter_eq, Hh. split; [done|].
  exact Hnew.
Qed.

(** A change of a call's block that keeps what the call is found by. *)
Definition tame (f : Block → Block) : Prop :=
  ∀ b, b_Type (f b) = b_Type b ∧ b_ToolCallID (f b) = b_ToolCallID b ∧ b_Content (f b) = b_Content b.

Lemma onCall_wf a id f : wf a → tame f → ∃ a', onCall a id f = Some a' ∧ wf a' ∧ calls a' = calls a.
Proof.
  intros Ha Hf. unfold onCall. destruct (calls a !! id) as [[p i]|] eqn:Hc; [|eauto].
  destruct (wf_calls _ Ha id p i Hc) as (_ & m & Hh & b & Hb & _). unfold onBlock. cbn [fst snd].
  rewrite Hh. cbn [mbind option_bind]. rewrite Hb. cbn [mbind option_bind]. eexists. split; [done|]. split; [|done].
  apply wf_alter; [done|]. intros m' _. unfold keeps. destruct (m_Timeline m') as [l|] eqn:Hl.
  - split_and!; [done| |cbn; rewrite Hl; cbn; by rewrite length_alter|].
    + unfold texts. cbn. rewrite Hl. cbn. intros ->. symmetry. apply textOf_alter. intros x _. unfold contentOf.
      destruct (Hf x) as (-> & _ & ->). done.
    + intros j c (x & Hx & ? & ?). unfold callAt. cbn. rewrite Hl in Hx |- *. cbn in Hx |- *.
      destruct (decide (i = j)) as [->|].
      * exists (f x). rewrite list_lookup_alter_eq, Hx. destruct (Hf x) as (-> & -> & _). done.
      * exists x. by rewrite list_lookup_alter_ne.
  - unfold texts, callAt. cbn. rewrite Hl. cbn. auto.
Qed.

Lemma withResult_tame c md d t : tame (withResult c md d t).
Proof.
  intros b. unfold withResult. destruct (Qle_bool _ _), md as [x|], d; try done; by destruct (String.eqb x "").
Qed.
Lemma withProgress_tame patch : tame (withProgress patch).
Proof.
  intros b. unfold withProgress. revert b. induction patch as [|op l IH]; intros b; [done|]. cbn [foldl].
  edestruct IH as (-> & -> & ->). by destruct (String.eqb (Path op) "/output/-").
Qed.

Lemma apply_wf a e at_ now : wf a → ∃ a', Apply a e at_ now = Some a' ∧ wf a' ∧
  calls a' = match e with ToolCallStart id _ _ => calls a' | _ => calls a end ∧
  match e with ToolCallStart id _ _ => dom (calls a') = {[id]} ∪ dom (calls a) | _ => True end.
Proof.
  intros Ha.
  assert (Hon : ∀ id f, tame f → ∃ a', onCall a id f = Some a' ∧ wf a' ∧ calls a' = calls a ∧ True).
  { intros id f Hf. destruct (onCall_wf a id f Ha Hf) as (a' & ? & ? & ?). eauto. }
  destruct e; cbn [Apply]; try (by eauto 10).
  - eexists. split; [done|]. destruct (streamed_wf a MessageID "content" Delta at_ now) as [? ?]; auto.
  - eexists. split; [done|].
    destruct (streamed_wf a (TrimSuffix MessageID ReasoningSuffix) "thinking" Delta at_ now) as [? ?]; auto.
  - eexists. split; [done|]. split_and!; [by apply startCall_wf|done|]. unfold startCall.
    destruct (message a _ now) as [a' p] eqn:Hm. apply message_ok in Hm as (_ & Hc & _); [|done].
    cbn. rewrite Hc. apply dom_insert_L.
  - apply Hon. done.
  - apply Hon. done.
  - apply Hon, withResult_tame.
  - destruct Display; [apply Hon; done|eauto 10].
  - apply Hon, withProgress_tame.
Qed.
(** An assembler as a run starts it: empty, or on the reply it continues. *)
Definition starts (a : MessageAssembler) : Prop :=
  a = NewMessageAssembler ∨
  ∃ reply, m_ID reply ≠ "" ∧ texts reply ∧ a = Seed NewMessageAssembler reply.

Lemma starts_wf a : starts a → wf a.
Proof.
  assert (Hnew : wf NewMessageAssembler).
  { split; cbn.
    - by intros ?? ?%lookup_empty_Some.
    - by intros p [? ?%lookup_empty_Some].
    - intros p. split; [by intros ?%elem_of_nil|by intros [id ?%lookup_empty_Some]].
    - by apply NoDup_nil_2.
    - by intros ??? ?%lookup_empty_Some.
    - by intros ?? ?%lookup_empty_Some. }
  intros [-> | (reply & Hid & Ht & ->)]; [done|]. unfold Seed.
  set (m := reply <| m_Timeline ::= _ |>). assert (Hw : wf (place NewMessageAssembler m)) by by apply wf_place.
  destruct Hw as [W1 W2 W3 W4 W5 W6]. split; try done. cbn. intros id s [[<- <-]|[_ Hs]]%lookup_insert_Some; [|done].
  exists 0, m. unfold orphan. rewrite (proj2 (String.eqb_neq _ _) Hid).
  split_and!; [by rewrite lookup_insert_eq..|]. unfold m; cbn; destruct (_ && _); lia.
Qed.

Lemma applyAll_app a es1 es2 : applyAll a (es1 ++ es2) = a ← applyAll a es1; applyAll a es2.
Proof.
  revert a. induction es1 as [|e es IH]; intros a; [done|]. cbn [applyAll app].
  destruct (Apply a (t_event e) (t_at e) (t_now e)) as [a1|]; [|done]. apply IH.
Qed.

(** The call ids that events start. *)
Definition started (es : list timed) : list string :=
  omap (λ e, match t_event e with ToolCallStart id _ _ => Some id | _ => None end) es.

Lemma applyAll_wf a es : wf a → ∃ a', applyAll a es = Some a' ∧ wf a' ∧
  ∀ id, is_Some (calls a' !! id) ↔ is_Some (calls a !! id) ∨ id ∈ started es.
Proof.
  revert a. induction es as [|e es IH]; intros a Ha; cbn [applyAll].
  { exists a. split_and!; [done..|]. intros id. set_solver. }
  destruct (apply_wf a (t_event e) (t_at e) (t_now e) Ha) as (a1 & -> & Ha1 & Hc & Hd). cbn [mbind option_bind].
  destruct (IH a1 Ha1) as (a' & -> & Ha' & Hcalls). exists a'. split_and!; [done..|]. intros id. rewrite Hcalls.
  unfold started. cbn. destruct (t_event e) eqn:He; rewrite ?Hc; try done.
  rewrite elem_of_cons, <- !elem_of_dom, Hd, elem_of_union, elem_of_singleton. tauto.
Qed.

(** C31. Whatever the events of a run and their order, assembling them never
    panics; the messages have distinct ids, each one's text is that of its
    content blocks in order, and every call that was started is found at
    its own block, of the message it was started in. *)
Theorem assembled a es : starts a → ∃ a', applyAll a es = Some a' ∧
  NoDup (m_ID <$> Messages a') ∧ Forall texts (Messages a') ∧
  (∀ id, is_Some (calls a' !! id) ↔ id ∈ started es) ∧
  (∀ id p i, calls a' !! id = Some (p, i) → ∃ m, heap a' !! p = Some m ∧ m ∈ Messages a' ∧ callAt m i id).
Proof.
  intros Hs. assert (Hnone : ∀ id, calls a !! id = None) by (intros id; by destruct Hs as [-> | (r & _ & _ & ->)]).
  destruct (applyAll_wf a es (starts_wf a Hs)) as (a' & Ha & Hw & Hc). exists a'. split; [done|].
  assert (Hm : ∀ p m, p ∈ ordered a' → heap a' !! p = Some m → byID a' !! m_ID m = Some p ∧ texts m).
  { intros p m (id & Hp)%(wf_ordered _ Hw) Hh. destruct (wf_ids _ Hw id p Hp) as (m' & ? & <- & ?). by simplify_eq. }
  split_and!.
  - unfold Messages. pose proof (wf_nodup _ Hw) as Hnd. revert Hnd Hm. generalize (ordered a').
    intros l Hnd Hm. induction Hnd as [|p l Hp Hnd IH]; cbn; [by apply NoDup_nil_2|].
    destruct (heap a' !! p) as [m|] eqn:Hh; [|apply IH; set_solver]. cbn. apply NoDup_cons. split; [|apply IH; set_solver].
    intros (m' & Hid & Hin)%list_elem_of_fmap. apply list_elem_of_omap in Hin as (q & Hq & Hhq).
    destruct (Hm p m) as [H1 _]; [by left|done|]. destruct (Hm q m') as [H2 _]; [by right|done|].
    rewrite Hid in H1. by simplify_eq.
  - apply Forall_forall. intros m (p & Hp & Hh)%list_elem_of_omap. by apply (Hm p).
  - intros id. rewrite Hc, Hnone. split; [|by right]. by intros [[? [=]]|?].
  - intros id p i Hid. destruct (wf_calls _ Hw id p i Hid) as (Hp & m & Hh & Hcall). exists m. split_and!; [done| |done].
    apply list_elem_of_omap. eauto.
Qed.

(** ** Deltas that follow each other *)

Definition warmIn (a : MessageAssembler) (id kind : string) : Prop :=
  ∃ p m, byID a !! orphan id = Some p ∧ heap a !! p = Some m ∧ warm (sealed a !! id) kind m.

(** A delta like this one was the last to change its target. *)
Definition warmFor (a : MessageAssembler) (e : Event) : Prop :=
  match e with
  | TextChunk id _ _ => warmIn a id "content"
  | ReasoningChunk id _ => warmIn a (TrimSuffix id ReasoningSuffix) "thinking"
  | ToolCallArgs _ _ => True
  | _ => False
  end.
Definition isDelta (e : Event) : Prop := is_Some (Target e).

Lemma warm_stamp s kind m at_ : warm s kind m → stamp s m at_ = m.
Proof.
  intros Hw. assert (length (elems (m_Timeline m)) ≠ 0) as Hn.
  { intros Hn. destruct (elems (m_Timeline m)) eqn:Hl; [|done]. unfold warm in Hw. rewrite Hl in Hw.
    unfold isTail, opened in Hw. destruct Hw as [Hw|[_ Hw]]; [|done].
    replace (default 0 s + 2 <=? length []) with false in Hw by (symmetry; apply Nat.leb_gt; cbn; lia).
    rewrite andb_false_r in Hw. done. }
  apply Nat.eqb_neq in Hn. unfold stamp. rewrite Hn. by rewrite andb_false_r.
Qed.

Lemma grow_join id s kind d1 d2 e1 e2 m : warm s kind m → (Millis e1 ≤ Millis e2)%Z →
  grow id s kind d2 e2 (grow id s kind d1 e1 m) = grow id s kind (String.append d1 d2) e2 m.
Proof.
  intros Hw He. unfold grow. rewrite !(warm_stamp s kind m) by done. rewrite (warm_stamp s kind).
  - by apply grown_join.
  - apply grown_warm. destruct Hw as [Hw|[_ Hw]].
    + unfold isTail in Hw. apply andb_prop in Hw as [[[_ Hw]%andb_prop _]%andb_prop _]. apply Nat.leb_le in Hw. lia.
    + unfold opened in Hw. apply andb_prop in Hw as [Hw _]. apply negb_true_iff, Nat.leb_gt in Hw. lia.
Qed.

Lemma grow_warm id s kind d e m : default 0 s ≤ length (elems (m_Timeline m)) → warm s kind (grow id s kind d e m).
Proof. intros Hs. apply grown_warm. destruct (stamp_keeps s m e) as (_ & _ & ? & _). lia. Qed.

(** Of three deltas the first two are one at the time of the first. *)
Lemma grow_merge id s kind d1 d2 d3 e1 e2 e3 m :
  default 0 s ≤ length (elems (m_Timeline m)) → (Millis e1 ≤ Millis e3)%Z → (Millis e2 ≤ Millis e3)%Z →
  grow id s kind d3 e3 (grow id s kind d2 e2 (grow id s kind d1 e1 m)) =
  grow id s kind d3 e3 (grow id s kind (String.append d1 d2) e1 m).
Proof.
  intros Hs H1 H2. assert (Hw := grow_warm id s kind d1 e1 m Hs).
  rewrite (grow_join id s kind d2 d3 e2 e3) by done.
  assert (Hsame : grow id s kind (String.append d1 d2) e1 m = grow id s kind d2 e1 (grow id s kind d1 e1 m)).
  { unfold grow at 2. rewrite (warm_stamp s kind) by done. unfold grow. rewrite grown_same; [done|].
    destruct (stamp_keeps s m e1) as (_ & _ & ? & _). lia. }
  rewrite Hsame, (grow_join id s kind d2 d3 e1 e3) by done. done.
Qed.

Lemma streamed_warm a id kind d e now : wf a → warmIn (streamed a id kind d e now) id kind.
Proof.
  intros Ha. unfold streamed. destruct (message a id now) as [a' p] eqn:Hm.
  apply message_ok in Hm as (Ha' & _ & Hs & Hb & _ & m & Hh & _ & Hle); [|done].
  exists p, (grow id (sealed a' !! id) kind d e m). cbn. rewrite lookup_alter_eq, Hh. split_and!; [done..|].
  apply grow_warm. by rewrite Hs.
Qed.

Lemma streamed_join a id kind d1 d2 e1 e2 n1 n2 n3 : warmIn a id kind → (Millis e1 ≤ Millis e2)%Z →
  streamed (streamed a id kind d1 e1 n1) id kind d2 e2 n2 = streamed a id kind (String.append d1 d2) e2 n3.
Proof.
  intros (p & m & Hb & Hh & Hw) He. unfold streamed, message. rewrite Hb. cbn. rewrite Hb. cbn.
  unfold upd. f_equal. rewrite alter_alter_eq. apply alter_ext. intros m' Hm'. simplify_eq.
  by apply grow_join.
Qed.

Lemma streamed_merge a id kind d1 d2 d3 e1 e2 e3 n1 n2 n3 : wf a → (Millis e1 ≤ Millis e3)%Z → (Millis e2 ≤ Millis e3)%Z →
  streamed (streamed (streamed a id kind d1 e1 n1) id kind d2 e2 n2) id kind d3 e3 n3 =
  streamed (streamed a id kind (String.append d1 d2) e1 n1) id kind d3 e3 n3.
Proof.
  intros Ha H1 H2. unfold streamed. destruct (message a id n1) as [a' p] eqn:Hm.
  apply message_ok in Hm as (Ha' & _ & Hs & Hb & _ & m & Hh & _ & Hle); [|done].
  unfold message. repeat (cbn; rewrite Hb). cbn.
  unfold upd. f_equal. rewrite !alter_alter_eq. apply alter_ext. intros m' Hm'. simplify_eq. cbn.
  apply grow_merge; [by rewrite Hs|done|done].
Qed.

Lemma args_join a id d1 d2 : wf a →
  (a ← onCall a id (arguments d1); onCall a id (arguments d2)) = onCall a id (arguments (String.append d1 d2)).
Proof.
  intros Ha. unfold onCall. destruct (calls a !! id) as [[p i]|] eqn:Hc; [|cbn; by rewrite Hc].
  destruct (wf_calls _ Ha id p i Hc) as (_ & m & Hh & b & Hb & _). unfold onBlock. cbn [fst snd].
  rewrite Hh. cbn [mbind option_bind]. rewrite Hb. cbn [mbind option_bind]. cbn [upd calls heap].
  rewrite Hc. cbn [fst snd]. rewrite lookup_alter_eq, Hh. cbn [fmap option_fmap option_map mbind option_bind].
  destruct (m_Timeline m) as [l|] eqn:Hl; [|by destruct i]. cbn in Hb.
  assert (Hb' : alter (arguments d1) i l !! i = Some (arguments d1 b)) by by rewrite list_lookup_alter_eq, Hb.
  cbn. rewrite Hb'. cbn. do 2 f_equal. rewrite alter_alter_eq. apply alter_ext. intros m' Hm'.
  simplify_eq. cbn. rewrite Hl. cbn. rewrite alter_alter. do 2 f_equal. apply alter_same. intros x.
  unfold arguments. cbn. by rewrite string_app_assoc.
Qed.

Lemma args_merge a id d1 d2 d3 : wf a →
  (a ← onCall a id (arguments d1); a ← onCall a id (arguments d2); onCall a id (arguments d3)) =
  (a ← onCall a id (arguments (String.append d1 d2)); onCall a id (arguments d3)).
Proof.
  intros Ha. rewrite <- (args_join a id d1 d2 Ha). by destruct (onCall a id (arguments d1)).
Qed.

(** ** Delta events *)

Lemma delta_join a e d1 d2 e1 e2 n1 n2 n3 : wf a → warmFor a e → (Millis e1 ≤ Millis e2)%Z →
  (a ← Apply a (WithText e d1) e1 n1; Apply a (WithText e d2) e2 n2) =
  Apply a (WithText e (String.append d1 d2)) e2 n3.
Proof.
  intros Ha Hw He. destruct e; try done; cbn [WithText Apply mbind option_bind].
  - by erewrite streamed_join.
  - by erewrite streamed_join.
  - by apply args_join.
Qed.

Lemma delta_merge a e d1 d2 d3 e1 e2 e3 n1 n2 n3 : wf a → isDelta e → (Millis e1 ≤ Millis e3)%Z → (Millis e2 ≤ Millis e3)%Z →
  applyAll a [mkTimed (WithText e d1) e1 n1; mkTimed (WithText e d2) e2 n2; mkTimed (WithText e d3) e3 n3] =
  applyAll a [mkTimed (WithText e (String.append d1 d2)) e1 n1; mkTimed (WithText e d3) e3 n3].
Proof.
  intros Ha [t Ht] H1 H2. destruct e; try done; cbn [applyAll t_event t_at t_now WithText Apply mbind option_bind].
  - by erewrite streamed_merge.
  - by erewrite streamed_merge.
  - pose proof (args_merge a ToolCallID d1 d2 d3 Ha) as H.
    destruct (onCall a ToolCallID (arguments (String.append d1 d2))) as [a3|];
      destruct (onCall a ToolCallID (arguments d1)) as [a1|]; cbn [mbind option_bind] in H |- *;
      [destruct (onCall a1 ToolCallID (arguments d2)) as [a2|]; cbn [mbind option_bind] in H |- *| |
       destruct (onCall a1 ToolCallID (arguments d2)) as [a2|]; cbn [mbind option_bind] in H |- *|];
      first [by rewrite H | by rewrite <- H | done].
Qed.

Lemma delta_warm a e at_ now a' : wf a → isDelta e → Apply a e at_ now = Some a' → warmFor a' e.
Proof.
  intros Ha [t Ht]. destruct e; try done; cbn [Apply warmFor]; intros [= <-]; by apply streamed_warm.
Qed.

Lemma delta_now a e d at_ n1 n2 : warmFor a e → Apply a (WithText e d) at_ n1 = Apply a (WithText e d) at_ n2.
Proof.
  destruct e; try done; cbn [warmFor WithText Apply]; intros (p & m & Hb & _);
    unfold streamed, message; by rewrite Hb.
Qed.

(** A run of deltas to one target: their texts, times and clocks. *)
Definition delta (e : Event) (d : string * (string * string)) : timed := mkTimed (WithText e d.1) d.2.1 d.2.2.
Definition not_after (x y : string * (string * string)) : Prop := (Millis x.2.1 ≤ Millis y.2.1)%Z.
Fixpoint concat_text (ds : list string) : string :=
  match ds with [] => "" | d :: ds => String.append d (concat_text ds) end.

(** A run whose deltas but the last are merged at the time of the first. *)
Lemma run_merge a e d1 ds d : wf a → isDelta e → StronglySorted not_after (d1 :: ds ++ [d]) →
  applyAll a (delta e <$> (d1 :: ds ++ [d])) =
  applyAll a [delta e (concat_text (d1.1 :: ds.*1), d1.2); delta e d].
Proof.
  intros Ha He. revert d1. induction ds as [|d2 ds IH]; intros d1 Hs.
  { cbn [concat_text fmap list_fmap]. rewrite string_app_nil_r. by destruct d1. }
  inversion_clear Hs as [|? ? Hs2 H1]. inversion_clear Hs2 as [|? ? Hs3 H2].
  transitivity (applyAll a (delta e <$> ((String.append d1.1 d2.1, d1.2) :: ds ++ [d]))).
  - cbn [app] in *. destruct (ds ++ [d]) as [|d3 rest] eqn:Hr; [by destruct ds|].
    change (applyAll a ([delta e d1; delta e d2; delta e d3] ++ (delta e <$> rest)) =
            applyAll a ([delta e (String.append d1.1 d2.1, d1.2); delta e d3] ++ (delta e <$> rest))).
    rewrite !applyAll_app. f_equal. apply delta_merge; [done|done|..].
    + inversion_clear H1 as [|? ? _ H1']. by inversion_clear H1'.
    + by inversion_clear H2.
  - rewrite IH.
    + cbn [fst snd fmap list_fmap concat_text]. by rewrite string_app_assoc.
    + constructor; [done|]. by inversion_clear H1.
Qed.
End Timeline.

(** ** Editing a reply *)

Definition isContent (b : Block) : bool := String.eqb (b_Type b) "content".

(** The loop over the timeline's indexes and one more. *)
Fixpoint editLoop (first : nat) (edited : Block) (text : string) (i : nat) (rest : list Block) : list Block :=
  (if Nat.eqb i first && negb (String.eqb text "") then [edited] else []) ++
  match rest with
  | [] => []
  | b :: rest => (if isContent b then [] else [b]) ++ editLoop first edited text (S i) rest
  end.

Definition ReplaceReplyText (message : Message) (text : string) : Message :=
  let timeline := elems (m_Timeline message) in
  let edited := noBlock <| b_Type := "content" |> <| b_ID := "edited-content" |> <| b_Content := text |> in
  let '(first, edited) :=
    match IndexFunc isContent timeline with
    | None => (length timeline, edited)
    | Some i => (i, match timeline !! i with Some b => edited <| b_ID := b_ID b |> | None => edited end)
    end in
  let blocks := editLoop first edited text 0 timeline in
  message <| m_Content := text |>
    <| m_Timeline := if bool_decide (0 < length blocks) then Some blocks else None |>.

Definition others (l : list Block) : list Block := List.filter (λ b, negb (isContent b)) l.
Definition inserted (edited : Block) (text : string) : list Block := if String.eqb text "" then [] else [edited].

Lemma others_app l1 l2 : others (l1 ++ l2) = others l1 ++ others l2.
Proof. apply List.filter_app. Qed.
Lemma others_id l : (∀ b, b ∈ l → isContent b = false) → others l = l.
Proof.
  unfold others. induction l as [|b l IH]; [done|]. intros H. cbn. rewrite (H b) by by left. cbn. f_equal.
  apply IH. intros x Hx. apply H. by right.
Qed.

Lemma editLoop_past first edited text i l : first < i → editLoop first edited text i l = others l.
Proof.
  revert i. induction l as [|b l IH]; intros i Hi; cbn [editLoop];
    rewrite (proj2 (Nat.eqb_neq i first)) by lia; cbn [andb app]; [done|].
  rewrite IH by lia. unfold others. cbn [List.filter]. by destruct (isContent b).
Qed.
Lemma editLoop_spec first edited text i l : i ≤ first ≤ i + length l →
  editLoop first edited text i l =
  others (take (first - i) l) ++ inserted edited text ++ others (drop (first - i) l).
Proof.
  assert (Hins : (if negb (String.eqb text "") then [edited] else []) = inserted edited text)
    by (unfold inserted; by destruct (String.eqb text "")).
  revert i. induction l as [|b l IH]; intros i Hi; cbn [editLoop].
  - cbn in Hi. replace i with first by lia. rewrite Nat.eqb_refl, Nat.sub_diag. cbn [andb]. by rewrite Hins.
  - destruct (Nat.eqb_spec i first) as [->|Hne]; cbn [andb].
    + rewrite Nat.sub_diag, Hins, editLoop_past by lia. cbn [take drop]. unfold others. cbn. by destruct (isContent b).
    + cbn [length] in Hi. rewrite IH by lia. replace (first - i) with (S (first - S i)) by lia.
      cbn [take drop app]. unfold others. cbn [List.filter]. by destruct (isContent b).
Qed.

Lemma others_kept l b : b ∈ others l → isContent b = false.
Proof. unfold others. rewrite list_elem_of_In, List.filter_In. intros [_ ?]. by apply negb_true_iff. Qed.
Lemma others_others l : others (others l) = others l.
Proof. apply others_id. intros b. apply others_kept. Qed.
Lemma others_inserted id text c : others (inserted (noBlock <| b_Type := "content" |> <| b_ID := id |> <| b_Content := c |>) text) = [].
Proof. unfold inserted. by destruct (String.eqb text ""). Qed.
Lemma textOf_none l : (∀ b, b ∈ l → isContent b = false) → textOf l = "".
Proof.
  induction l as [|b l IH]; intros H; [done|]. cbn. rewrite IH by (intros x Hx; apply H; by right).
  unfold contentOf. change (String.eqb (b_Type b) "content") with (isContent b). by rewrite (H b) by by left.
Qed.
Lemma textOf_inserted id text :
  textOf (inserted (noBlock <| b_Type := "content" |> <| b_ID := id |> <| b_Content := text |>) text) = text.
Proof.
  unfold inserted. destruct (String.eqb_spec text "") as [->|]; [done|]. cbn. apply string_app_nil_r.
Qed.

(** Editing a reply's text: the blocks that are not text stay, in their
    order, those before the reply's first text block still before the
    edited block, which takes that block's id and place, or the end where
    the reply had no text; an empty text leaves no text block, and no block
    at all a nil timeline; the reply then reads as its blocks do. *)
Theorem reply_edited m text : let l := elems (m_Timeline m) in let m' := ReplaceReplyText m text in
  ∃ pre post id, l = pre ++ post ∧ (∀ b, b ∈ pre → isContent b = false) ∧
    match post with
    | [] => id = "edited-content"%string
    | b :: _ => isContent b = true ∧ id = b_ID b
    end ∧
    elems (m_Timeline m') =
      pre ++ inserted (noBlock <| b_Type := "content" |> <| b_ID := id |> <| b_Content := text |>) text ++ others post ∧
    others (elems (m_Timeline m')) = others l ∧
    texts m' ∧ m_Content m' = text ∧ m_ID m' = m_ID m ∧ m_Timeline m' ≠ Some [].
Proof.
  cbn zeta. set (l := elems (m_Timeline m)).
  assert (Hmid : ∃ pre post id, l = pre ++ post ∧ (∀ b, b ∈ pre → isContent b = false) ∧
    match post with [] => id = "edited-content"%string | b :: _ => isContent b = true ∧ id = b_ID b end ∧
    elems (m_Timeline (ReplaceReplyText m text)) =
      pre ++ inserted (noBlock <| b_Type := "content" |> <| b_ID := id |> <| b_Content := text |>) text ++ others post).
  { assert (Hel : ∀ x : list Block, elems (if bool_decide (0 < length x) then Some x else None) = x) by by intros [].
    unfold ReplaceReplyText. fold l. destruct (IndexFunc isContent l) as [i|] eqn:Hi.
    - apply IndexFunc_Some in Hi as (b & Hb & Hc & Hpre).
      assert (Hlt : i < length l) by by eapply lookup_lt_Some. rewrite Hb.
      exists (take i l), (drop i l), (b_ID b).
      assert (Hn : ∀ x, x ∈ take i l → isContent x = false).
      { intros x (j & Hj)%list_elem_of_lookup. apply lookup_take_Some in Hj as [? ?]. by eapply Hpre. }
      rewrite take_drop. split_and!; [done|done|by rewrite (drop_S l b i Hb)|].
      cbn [m_Timeline upd]. rewrite Hel, editLoop_spec, Nat.sub_0_r by lia. by rewrite (others_id (take i l)).
    - exists l, [], "edited-content"%string. rewrite app_nil_r.
      assert (Hn := proj1 (IndexFunc_None isContent l) Hi). split_and!; [done..|].
      cbn [m_Timeline upd]. rewrite Hel, editLoop_spec, Nat.sub_0_r by lia.
      rewrite take_ge, drop_ge, others_id by (done || lia). done. }
  destruct Hmid as (pre & post & id & Hl & Hpre & Hpost & Hel). exists pre, post, id.
  split_and!; try done.
  - rewrite Hel, Hl, !others_app, others_inserted, others_others. done.
  - unfold texts. rewrite Hel, !textOf_app, (textOf_none pre), (textOf_none (others post)), textOf_inserted by
      (done || intros b Hb; by apply others_kept in Hb).
    cbn. rewrite string_app_nil_r. unfold ReplaceReplyText. by destruct (match IndexFunc _ _ with Some _ => _ | None => _ end).
  - unfold ReplaceReplyText. by destruct (match IndexFunc _ _ with Some _ => _ | None => _ end).
  - unfold ReplaceReplyText. by destruct (match IndexFunc _ _ with Some _ => _ | None => _ end).
  - unfold ReplaceReplyText. destruct (match IndexFunc _ _ with Some _ => _ | None => _ end) as [first edited].
    cbn [m_Timeline upd]. destruct (bool_decide _) eqn:Hb; [|done]. apply bool_decide_eq_true in Hb.
    intros [= He]. rewrite He in Hb. cbn in Hb. lia.
Qed.

(** A reply continued, with a call and a result for a call never made. *)
Definition continued : Message :=
  noMessage <| m_ID := "m" |> <| m_Role := "assistant" |> <| m_Content := "Hi" |>
    <| m_Timeline := Some [noBlock <| b_Type := "content" |> <| b_Content := "Hi" |>] |>.
Definition some_events : list timed :=
  [mkTimed (TextChunk "m" "assistant" " there") "" "";
   mkTimed (ToolCallStart "c1" "web_search" "m") "" "";
   mkTimed (ToolCallArgs "c1" "{}") "" "";
   mkTimed (ToolCallResult "m" "c2" "tool" (Some "{}"%string) None None) "" ""].

Lemma assembled_witness :
  let go := applyAll (λ _, None) (λ _, "null"%string) (Seed NewMessageAssembler continued) some_events in
  ∃ a, go = Some a ∧ Forall texts (Messages a) ∧ is_Some (calls a !! "c1"%string) ∧
    (m_Content <$> Messages a) = ["Hi there"]%string.
Proof.
  cbn zeta.
  destruct (assembled (λ _, None) (λ _, "null"%string) (Seed NewMessageAssembler continued) some_events)
    as (a & Ha & _ & Ht & Hc & _); [right; exists continued; split; [discriminate|split; reflexivity]|].
  exists a. split; [exact Ha|]. split; [exact Ht|]. split; [apply Hc; cbn; set_solver|].
  vm_compute in Ha. injection Ha as <-. reflexivity.
Defined.
End Timeline.
