(* ===== verification/Stream.v ===== *)
(** * A run's events framed: internal/engine/stream.go

    Deltas that follow each other closely leave as one frame; the log folds
    past its budget; the assembler observes what is framed.  What it
    assembles is what the events themselves would have made. *)

From S2P Require Import Prelude GoStd RunLog Quota Chat Timeline.
From Stdlib Require Import QArith_base.
From stdpp Require Import sorting.
Local Open Scope nat_scope.
Local Open Scope go_scope.

Module Stream.
Import GoStd Chat Timeline.
Import RunLog(frameKind(..)).
#[local] Existing Instance RunLog.frameKind_eq_dec.

(** A frame's content, or its bytes once wiped. *)
Inductive frame := Framed (e : Event) (at_ : string) | Wiped.

(** [deltaWindow], in nanoseconds. *)
Definition deltaWindow : Z := 50 * 1000000.

Definition kindOf (e : Event) : frameKind * string :=
  match e with
  | TextChunk m _ _ => (frameDelta, String.append "domain.TextChunk:" m)
  | ReasoningChunk m _ => (frameDelta, String.append "domain.ReasoningChunk:" m)
  | ToolCallArgs c _ => (frameDelta, String.append "domain.ToolCallArgs:" c)
  | ActivitySnapshot m _ _ _ | ActivityDelta m _ _ _ => (frameActivity, m)
  | _ => (frameKept, ""%string)
  end.

(** [merged]: the first frame's members, with each frame's delta in turn. *)
Definition frameText (f : frame) : string := match f with Framed e _ => Text e | Wiped => "" end.
Definition merged (deltas : list frame) : frame :=
  match deltas with
  | Framed e at_ :: _ => Framed (WithText e (concat_text (frameText <$> deltas))) at_
  | _ => Wiped
  end.

Record activity := mkActivitySnapshot {
  act_MessageID : string;
  act_Type : string;
  act_Content : ToolActivity;
  act_Display : option ToolDisplay;
}.
#[global] Instance activity_eta : Eta activity := λ a,
  mkActivitySnapshot (act_MessageID a) (act_Type a) (act_Content a) (act_Display a).

(** [pd_id] is the pointer the timer of these deltas holds. *)
Record pendingDelta := mkPending {
  pd_first : Event;
  pd_key : string;
  pd_text : string;
  pd_at : string;
  pd_id : nat;
}.
#[global] Instance pendingDelta_eta : Eta pendingDelta := λ p,
  mkPending (pd_first p) (pd_key p) (pd_text p) (pd_at p) (pd_id p).

Section Stream.
Context (UnixMilli : string → option Z) (RawValue : patchValue → string).
(** Whether [json.Marshal] takes an event, and the length of its frame;
    [Er] is the error a log is closed with. *)
Context (marshals : Event → bool) (frameLen : Event → string → Z) {Er : Type}.

Definition flen (f : frame) : Z := match f with Framed e at_ => frameLen e at_ | Wiped => 0 end.
Definition EncodeEvent (e : Event) (at_ : string) : option frame := if marshals e then Some (Framed e at_) else None.

(** [observe] is the assembler while [Observe] is its [Apply]. *)
Record Stream := mkStream {
  mem : RunLog.Mem (F := frame);
  log : RunLog.FrameLog (Er := Er);
  modelAccepted : bool;
  spend : Quota.Usage;
  observe : option MessageAssembler;
  folding : bool;
  activities : list activity;
  pending : option pendingDelta;
  lastDelta : string;
  lastAt : Z;
  timers : nat;
}.
#[global] Instance Stream_eta : Eta Stream := λ s,
  mkStream (mem s) (log s) (modelAccepted s) (spend s) (observe s) (folding s) (activities s) (pending s)
    (lastDelta s) (lastAt s) (timers s).

Definition isOf (id : string) (a : activity) : bool := String.eqb (act_MessageID a) id.

Definition patched (patch : list ActivityPatch) (a : activity) : activity :=
  foldl (λ a op,
    match Value op with
    | PNumber q => if String.eqb (Path op) "/progress" then a <| act_Content ::= λ c, c <| ta_Progress := q |> |> else a
    | PString v => if String.eqb (Path op) "/output/-"
                   then a <| act_Content ::= λ c, c <| ta_Output ::= λ l, l ++ [v] |> |> else a
    | POther => a
    end) a patch.

Definition track (s : Stream) (e : Event) : Stream :=
  match e with
  | ActivitySnapshot id ty content display =>
      let a := mkActivitySnapshot id ty content display in
      match IndexFunc (isOf id) (activities s) with
      | Some i => s <| activities ::= λ l, <[i := a]> l |>
      | None => s <| activities ::= λ l, l ++ [a] |>
      end
  | ActivityDelta id _ patch display =>
      match IndexFunc (isOf id) (activities s) with
      | Some i =>
          let put a := match display with Some d => a <| act_Display := Some d |> | None => a end in
          s <| activities ::= alter (λ a, put (patched patch a)) i |>
      | None => s
      end
  | _ => s
  end.

Definition activityFrame (s : Stream) (now id : string) : option frame :=
  i ← IndexFunc (isOf id) (activities s);
  a ← activities s !! i;
  EncodeEvent (ActivitySnapshot (act_MessageID a) (act_Type a) (act_Content a) (act_Display a)) now.

Definition Accepted (s : Stream) : Stream := s <| modelAccepted := true |>.
(** [Meter] of the usage a model reported. *)
Definition Meter (s : Stream) (turn : Quota.Usage) : Stream :=
  s <| spend ::= λ u, Quota.mkUsage (Quota.wrap64 (Quota.Prompt u + Quota.Prompt turn))
                        (Quota.wrap64 (Quota.Completion u + Quota.Completion turn))
                        (Quota.wrap64 (Quota.Total u + Quota.Total turn)) |>.

(** What a write reads of the clock: [api.Timestamp()] and [time.Now()]. *)
Record clock := mkClock { stampNow : string; timeNow : Z }.

(** [None] is a panic. *)
Definition write (s : Stream) (e : Event) (kind : frameKind) (key at_ : string) (now : clock) : option Stream :=
  match EncodeEvent e at_ with
  | None => Some s
  | Some f =>
      let '(m, b) := RunLog.alloc (mem s) f in
      let '(l, full) := RunLog.grow flen m (log s) b kind key in
      let s := s <| mem := m |> <| log := l |> <| lastDelta := "" |> in
      let s := if bool_decide (kind = frameDelta) then s <| lastDelta := key |> <| lastAt := timeNow now |> else s in
      let s := track s e in
      s ← match observe s with
          | None => Some s
          | Some a => a ← Apply UnixMilli RawValue a e at_ (stampNow now); Some (s <| observe := Some a |>)
          end;
      if full && folding s then
        let '(m, l) := RunLog.fold flen (λ _, Wiped) merged (activityFrame s (stampNow now)) (mem s) (log s) in
        Some (s <| mem := m |> <| log := l |>)
      else Some s
  end.

Definition framePending (s : Stream) (now : clock) : option Stream :=
  match pending s with
  | None => Some s
  | Some p => write (s <| pending := None |>) (WithText (pd_first p) (pd_text p)) frameDelta (pd_key p) (pd_at p) now
  end.

Definition Len (s : string) : Z := Z.of_nat (String.length s).

(** What is held back takes the delta. *)
Definition heldTakes (s : Stream) (key text : string) : option pendingDelta :=
  p ← pending s;
  if String.eqb (pd_key p) key && bool_decide (Len (pd_text p) + Len text ≤ RunLog.mergedFrameBytes)%Z
  then Some p else None.

Definition frame_ (s : Stream) (e : Event) (at_ : string) (now : clock) : option Stream :=
  let '(kind, key) := kindOf e in
  if negb (bool_decide (kind = frameDelta)) then
    s ← framePending s now; write s e kind key at_ now
  else
    match heldTakes s key (Text e) with
    | Some p => Some (s <| pending := Some (p <| pd_text ::= λ t, String.append t (Text e) |> <| pd_at := at_ |>) |>)
    | None =>
        s ← framePending s now;
        if String.eqb key (lastDelta s) && bool_decide (0 < deltaWindow - (timeNow now - lastAt s))%Z
        then Some (s <| pending := Some (mkPending e key (Text e) at_ (timers s)) |> <| timers ::= S |>)
        else write s e kind key at_ now
    end.

(** What the stream's goroutines do: emit an event, or a timer's call. *)
Inductive op :=
  | Emit (e : Event) (at_ : string) (now : clock)
  | Fire (timer : nat) (now : clock).

Definition step (s : Stream) (o : op) : option Stream :=
  match o with
  | Emit e at_ now => frame_ s e at_ now
  | Fire timer now =>
      match pending s with
      | Some p => if Nat.eqb (pd_id p) timer then framePending s now else Some s
      | None => Some s
      end
  end.
Fixpoint run (s : Stream) (ops : list op) : option Stream :=
  match ops with
  | [] => Some s
  | o :: ops => s ← step s o; run s ops
  end.

(** The events emitted, as they would be observed one by one. *)
Definition emitted (ops : list op) : list timed :=
  omap (λ o, match o with
             | Emit e at_ now => if marshals e then Some (mkTimed e at_ (stampNow now)) else None
             | Fire _ _ => None
             end) ops.

(** ** What the stream has observed *)

Notation Apply_ := (Apply UnixMilli RawValue).
Notation Millis_ := (Millis UnixMilli).

(** Marshalling a text delta never fails: its members are strings. *)
Hypothesis delta_marshals : ∀ e, isDelta e → marshals e = true.

Lemma track_same s e : observe (track s e) = observe s ∧ pending (track s e) = pending s ∧
  lastDelta (track s e) = lastDelta s.
Proof. destruct e; try done; cbn [track]; by destruct (IndexFunc _ _). Qed.

Lemma write_skips s e kind key at_ now : marshals e = false → write s e kind key at_ now = Some s.
Proof. intros He. unfold write, EncodeEvent. by rewrite He. Qed.

Lemma write_ok s e kind key at_ now A : marshals e = true → observe s = Some A → wf A →
  ∃ s' A', write s e kind key at_ now = Some s' ∧ Apply_ A e at_ (stampNow now) = Some A' ∧
    observe s' = Some A' ∧ wf A' ∧ pending s' = pending s ∧
    lastDelta s' = if bool_decide (kind = frameDelta) then key else ""%string.
Proof.
  intros He Ho Hw. unfold write, EncodeEvent. rewrite He.
  destruct (RunLog.alloc (mem s) (Framed e at_)) as [m b], (RunLog.grow flen m (log s) b kind key) as [l full].
  set (s0 := if bool_decide (kind = frameDelta) then _ else _).
  assert (H0 : observe s0 = Some A ∧ pending s0 = pending s ∧
    lastDelta s0 = if bool_decide (kind = frameDelta) then key else ""%string)
    by (unfold s0; by destruct (bool_decide (kind = frameDelta))).
  destruct (track_same s0 e) as (T1 & T2 & T3). revert T1 T2 T3. generalize (track s0 e). intros s1 T1 T2 T3.
  destruct H0 as (H01 & H02 & H03). rewrite T1, H01.
  destruct (apply_wf UnixMilli RawValue A e at_ (stampNow now) Hw) as (A' & Ha & Hw' & _).
  cbn [mbind option_bind]. rewrite Ha. cbn [mbind option_bind].
  destruct (full && _); [destruct (RunLog.fold _ _ _ _ _ _) as [m' l']|];
    eexists _, A'; (split_and!; [done|done|done|done|cbn; congruence|cbn; congruence]).
Qed.

(** What an event does depends on its target and its text alone. *)
Lemma prefixes_differ k t t' : String.append "domain.TextChunk:" t = k →
  k ≠ String.append "domain.ReasoningChunk:" t' ∧ k ≠ String.append "domain.ToolCallArgs:" t'.
Proof. intros <-. by split. Qed.

Lemma kindOf_delta e k : kindOf e = (frameDelta, k) → isDelta e.
Proof. unfold isDelta. destruct e; cbn; try done; eauto. Qed.

Lemma same_key e e' k : kindOf e = (frameDelta, k) → kindOf e' = (frameDelta, k) →
  (∀ a, warmFor a e → warmFor a e') ∧
  ∀ a d at_ now, Apply_ a (WithText e d) at_ now = Apply_ a (WithText e' d) at_ now.
Proof.
  destruct e; cbn; try done; intros [= <-]; destruct e'; cbn; try done; intros [= Hk]; simplify_eq; done.
Qed.

Lemma warm_text a e d : warmFor a (WithText e d) = warmFor a e.
Proof. by destruct e. Qed.
Lemma text_text e : WithText e (Text e) = e.
Proof. by destruct e. Qed.
Lemma text_kind e d : kindOf (WithText e d) = kindOf e.
Proof. by destruct e. Qed.

(** [B] is what the events emitted, up to [T], have made. *)
Definition Inv (s : Stream) (B : MessageAssembler) (T : Z) : Prop :=
  wf B ∧
  match pending s with
  | None => observe s = Some B ∧
      (lastDelta s ≠ ""%string → ∃ e, kindOf e = (frameDelta, lastDelta s) ∧ warmFor B e)
  | Some p => ∃ A, observe s = Some A ∧ wf A ∧ kindOf (pd_first p) = (frameDelta, pd_key p) ∧
      warmFor A (pd_first p) ∧ (∀ now, Apply_ A (WithText (pd_first p) (pd_text p)) (pd_at p) now = Some B) ∧
      (Millis_ (pd_at p) ≤ T)%Z
  end.

Lemma key_full e k : kindOf e = (frameDelta, k) → k ≠ ""%string.
Proof. destruct e; cbn; try done; by intros [= <-]. Qed.

Lemma framePending_ok s B T now : Inv s B T → ∃ s', framePending s now = Some s' ∧ Inv s' B T ∧ pending s' = None.
Proof.
  intros [Hw Hp]. unfold framePending. destruct (pending s) as [p|] eqn:Hs.
  - destruct Hp as (A & Ho & HwA & Hk & Hwarm & Ha & _).
    assert (Hd : isDelta (WithText (pd_first p) (pd_text p))) by (eapply kindOf_delta; by rewrite text_kind).
    destruct (write_ok (s <| pending := None |>) (WithText (pd_first p) (pd_text p)) frameDelta (pd_key p) (pd_at p) now A)
      as (s' & A' & Hwr & Ha' & Ho' & HwA' & Hp' & Hl); [by apply delta_marshals|done|done|].
    rewrite Ha in Ha'. injection Ha' as <-. exists s'. cbn in Hp'. split_and!; [done| |done].
    split; [done|]. rewrite Hp'. split; [done|]. intros _. exists (pd_first p). rewrite Hl. cbn. split; [done|].
    rewrite <- (warm_text _ _ (pd_text p)). by apply (delta_warm UnixMilli RawValue A _ (pd_at p) (stampNow now)).
  - exists s. split_and!; [done| |done]. split; [done|]. by rewrite Hs.
Qed.

(** Framing an event with nothing held back. *)
Lemma write_inv s B T e at_ now : Inv s B T → pending s = None → marshals e = true →
  ∃ s' B', write s e (kindOf e).1 (kindOf e).2 at_ now = Some s' ∧ Apply_ B e at_ (stampNow now) = Some B' ∧
    Inv s' B' (Millis_ at_).
Proof.
  intros [Hw Hp] Hs He. rewrite Hs in Hp. destruct Hp as [Ho Hlast].
  destruct (write_ok s e (kindOf e).1 (kindOf e).2 at_ now B He Ho Hw) as (s' & B' & Hwr & Ha & Ho' & Hw' & Hp' & Hl).
  exists s', B'. split_and!; [done..|]. split; [done|]. rewrite Hp', Hs. split; [done|]. rewrite Hl.
  destruct (kindOf e) as [k key] eqn:Hk. cbn. destruct (bool_decide (k = frameDelta)) eqn:Hkd; [|done].
  apply bool_decide_eq_true in Hkd as ->. intros _. exists e. split; [done|].
  eapply delta_warm; [exact Hw|by eapply kindOf_delta|exact Ha].
Qed.

Lemma Inv_later s B T T' : Inv s B T → (T ≤ T')%Z → Inv s B T'.
Proof.
  intros [Hw Hp] HT. split; [done|]. destruct (pending s); [|done].
  destruct Hp as (A & ? & ? & ? & ? & ? & ?). exists A. split_and!; try done. lia.
Qed.

(** A delta is held back after one to its target, and framed otherwise. *)
Lemma frame_held s B T e key at_ now : Inv s B T → pending s = None → kindOf e = (frameDelta, key) → marshals e = true →
  ∃ s' B', (if String.eqb key (lastDelta s) && bool_decide (0 < deltaWindow - (timeNow now - lastAt s))%Z
            then Some (s <| pending := Some (mkPending e key (Text e) at_ (timers s)) |> <| timers ::= S |>)
            else write s e frameDelta key at_ now) = Some s' ∧
    Apply_ B e at_ (stampNow now) = Some B' ∧ Inv s' B' (Millis_ at_).
Proof.
  intros Hinv Hs Hk He. destruct (_ && _) eqn:Hlast.
  - apply andb_prop in Hlast as [Hkey _]. apply String.eqb_eq in Hkey.
    destruct Hinv as [Hw Hp]. rewrite Hs in Hp. destruct Hp as [Ho Hl].
    destruct Hl as (e0 & Hk0 & Hwarm); [rewrite <- Hkey; by eapply key_full|]. rewrite <- Hkey in Hk0.
    destruct (same_key _ _ _ Hk0 Hk) as [Hwe _]. apply Hwe in Hwarm.
    destruct (apply_wf UnixMilli RawValue B e at_ (stampNow now) Hw) as (B' & HB & HwB' & _).
    eexists _, B'. split_and!; [done|done|]. split; [done|]. cbn [pending upd]. exists B.
    split_and!; try done; try (cbn; lia); try (by rewrite Hkey). intros n. cbn [pd_first pd_text pd_at upd].
    rewrite (delta_now UnixMilli RawValue B e (Text e) at_ n (stampNow now)) by done. by rewrite text_text.
  - pose proof (write_inv s B T e at_ now Hinv Hs He) as H. by rewrite Hk in H.
Qed.

(** An event emitted is observed, now or with what is held back. *)
Lemma frame_ok s B T e at_ now : Inv s B T → (T ≤ Millis_ at_)%Z → marshals e = true →
  ∃ s' B', frame_ s e at_ now = Some s' ∧ Apply_ B e at_ (stampNow now) = Some B' ∧ Inv s' B' (Millis_ at_).
Proof.
  intros Hinv HT He. unfold frame_. destruct (kindOf e) as [kind key] eqn:Hk.
  destruct (negb (bool_decide (kind = frameDelta))) eqn:Hkd.
  { destruct (framePending_ok s B T now Hinv) as (s1 & -> & H1 & Hp1). cbn [mbind option_bind].
    pose proof (write_inv s1 B T e at_ now H1 Hp1 He) as H. by rewrite Hk in H. }
  apply negb_false_iff, bool_decide_eq_true in Hkd as ->.
  unfold heldTakes. destruct (pending s) as [p|] eqn:Hs; cbn [mbind option_bind].
  - destruct (_ && _) eqn:Htakes.
    + apply andb_prop in Htakes as [Hkey _]. apply String.eqb_eq in Hkey.
      destruct Hinv as [Hw Hp]. rewrite Hs in Hp. destruct Hp as (A & Ho & HwA & Hkp & Hwarm & Ha & Hat).
      rewrite Hkey in Hkp. destruct (same_key _ _ _ Hkp Hk) as [_ Happ].
      destruct (apply_wf UnixMilli RawValue B e at_ (stampNow now) Hw) as (B' & HB & HwB' & _).
      eexists _, B'. split_and!; [done|done|]. split; [done|]. cbn [pending upd]. exists A.
      split_and!; try done; try (cbn; lia); try (by rewrite Hkey). intros n. cbn [pd_first pd_text pd_at upd].
      pose proof (delta_join UnixMilli RawValue A (pd_first p) (pd_text p) (Text e) (pd_at p) at_ n (stampNow now) n
        HwA Hwarm ltac:(lia)) as Hj.
      rewrite Ha in Hj. cbn [mbind option_bind] in Hj. by rewrite <- Hj, Happ, text_text.
    + destruct (framePending_ok s B T now Hinv) as (s1 & -> & H1 & Hp1). cbn [mbind option_bind].
      by apply (frame_held s1 B T).
  - destruct (framePending_ok s B T now Hinv) as (s1 & -> & H1 & Hp1). cbn [mbind option_bind].
    by apply (frame_held s1 B T).
Qed.

(** The times of the events emitted. *)
Definition times (ops : list op) : list Z := (λ e, Millis_ (t_at e)) <$> emitted ops.

Lemma step_ok s B T o : Inv s B T → StronglySorted Z.le (T :: times [o]) →
  ∃ s' B' T', step s o = Some s' ∧ applyAll UnixMilli RawValue B (emitted [o]) = Some B' ∧ Inv s' B' T' ∧
    ∀ t, (∀ x, x ∈ T :: times [o] → (x ≤ t)%Z) → (T' ≤ t)%Z.
Proof.
  intros Hinv Hs. destruct o as [e at_ now|timer now]; cbn [step].
  - unfold times, emitted in Hs |- *. cbn [omap list_omap] in Hs |- *. destruct (marshals e) eqn:He; cbn in Hs |- *.
    + destruct (frame_ok s B T e at_ now Hinv) as (s' & B' & Hf & Ha & Hi); [|done|].
      { inversion_clear Hs as [|? ? _ H]. by inversion_clear H. }
      exists s', B', (Millis_ at_). rewrite Hf, Ha. split_and!; try done. intros t Ht. apply Ht. set_solver.
    + assert (Hk : (kindOf e).1 ≠ frameDelta).
      { intros Hd. destruct (kindOf e) as [k key] eqn:Hk. cbn in Hd. subst. apply kindOf_delta, delta_marshals in Hk. congruence. }
      destruct (framePending_ok s B T now Hinv) as (s' & Hf & Hi & _). exists s', B, T.
      split_and!; try done; [|intros t Ht; apply Ht; by left]. unfold frame_. destruct (kindOf e) as [k key]. cbn in Hk.
      rewrite bool_decide_false by done. cbn [negb]. rewrite Hf. cbn [mbind option_bind]. by apply write_skips.
  - assert (Hsame : ∃ s', match pending s with
                         | Some p => if Nat.eqb (pd_id p) timer then framePending s now else Some s
                         | None => Some s
                         end = Some s' ∧ Inv s' B T).
    { destruct (pending s) as [p|]; [destruct (Nat.eqb _ _)|]; [|eauto..].
      destruct (framePending_ok s B T now Hinv) as (s' & ? & ? & _). eauto. }
    destruct Hsame as (s' & -> & Hi). exists s', B, T. split_and!; try done. intros t Ht. apply Ht. by left.
Qed.

Lemma run_ok s B T ops : Inv s B T → StronglySorted Z.le (T :: times ops) →
  ∃ s' B' T', run s ops = Some s' ∧ applyAll UnixMilli RawValue B (emitted ops) = Some B' ∧ Inv s' B' T'.
Proof.
  revert s B T. induction ops as [|o ops IH]; intros s B T Hinv Hs; cbn [run].
  { exists s, B, T. done. }
  assert (Hem : emitted (o :: ops) = emitted [o] ++ emitted ops).
  { unfold emitted. by rewrite <- omap_app. }
  unfold times in Hs. rewrite Hem, fmap_app in Hs. change (T :: ?x ++ ?y) with ((T :: x) ++ y) in Hs.
  apply StronglySorted_app in Hs as (Hle & H1 & H2).
  destruct (step_ok s B T o Hinv H1) as (s1 & B1 & T1 & -> & Ha1 & Hi1 & Hlast). cbn [mbind option_bind].
  destruct (IH s1 B1 T1 Hi1) as (s' & B' & T' & Hr & Ha & Hi).
  { constructor; [done|]. apply Forall_forall. intros t Ht. apply Hlast. intros x Hx. by apply Hle. }
  exists s', B', T'. rewrite Hem, applyAll_app, Ha1. done.
Qed.

(** C32. Holding deltas back to leave as one frame changes nothing of what
    a reply holds: whatever is emitted and whenever its timers fire, with
    times that do not go back, no event makes the stream panic, and once
    what is held back is framed, what it assembled is what the events
    emitted, one by one, assemble. *)
Theorem stream_equivalent s a ops now :
  observe s = Some a → starts a → pending s = None → lastDelta s = ""%string → StronglySorted Z.le (times ops) →
  ∃ s1 s2 b, run s ops = Some s1 ∧ framePending s1 now = Some s2 ∧ observe s2 = Some b ∧ pending s2 = None ∧
    applyAll UnixMilli RawValue a (emitted ops) = Some b.
Proof.
  intros Ho Hst Hp Hl Hs.
  assert (Hinv : ∀ T, Inv s a T).
  { intros T. split; [by apply starts_wf|]. rewrite Hp. by split. }
  destruct (run_ok s a (hd 0%Z (times ops)) ops (Hinv _)) as (s1 & b & T & Hr & Ha & Hi).
  { destruct (times ops) as [|t ts]; [by repeat constructor|]. constructor; [done|]. constructor; [done|].
    by inversion_clear Hs. }
  destruct (framePending_ok s1 b T now Hi) as (s2 & Hf & [_ Hi2] & Hp2). rewrite Hp2 in Hi2.
  exists s1, s2, b. split_and!; try done. apply Hi2.
Qed.

(** The run of frames a checkpoint merges assembles to what its frames do. *)
Lemma checkpoint_merges b e d1 ds d : wf b → isDelta e → StronglySorted (not_after UnixMilli) (d1 :: ds ++ [d]) →
  let frames := (λ d : string * (string * string), Framed (WithText e d.1) d.2.1) <$> (d1 :: ds) in
  ∃ m at_, merged frames = Framed m at_ ∧
    applyAll UnixMilli RawValue b (delta e <$> (d1 :: ds ++ [d])) =
    applyAll UnixMilli RawValue b [mkTimed m at_ d1.2.2; delta e d].
Proof.
  intros Hb He Hs. cbn zeta. eexists _, _. split; [done|]. rewrite (run_merge UnixMilli RawValue b e d1 ds d) by done.
  do 2 f_equal. unfold delta. cbn [fst snd]. f_equal. rewrite <- list_fmap_compose.
  assert (Ht : ∀ l : list (string * (string * string)),
    (frameText ∘ (λ d, Framed (WithText e d.1) d.2.1)) <$> l = l.*1).
  { intros l. apply list_fmap_ext. intros _ x _. cbn. destruct He as [t Ht]. by destruct e. }
  pose proof (Ht (d1 :: ds)) as H. cbn [fmap list_fmap] in H |- *. rewrite H. by destruct e.
Qed.

End Stream.

(** Times written in milliseconds, and a reply of three deltas that leaves
    as two frames. *)
Definition plain_millis (s : string) : option Z := Atoi s.
Definition no_value (v : patchValue) : string := "null".
Definition every (e : Event) : bool := true.
Definition a_stream : Stream (Er := string) :=
  mkStream (RunLog.mkMem ∅ 0) RunLog.newRunlog true (Quota.mkUsage 0 0 0) (Some NewMessageAssembler) true [] None "" 0 0.
Definition a_reply : list op :=
  [Emit (TextChunk "m" "assistant" "Hel") "1000" (mkClock "now" 0);
   Emit (TextChunk "m" "assistant" "l") "1001" (mkClock "now" 1000000);
   Emit (TextChunk "m" "assistant" "o") "1002" (mkClock "now" 2000000)].

Lemma stream_equivalent_witness :
  ∃ s1 s2 b, run plain_millis no_value every (λ _ _, 100%Z) a_stream a_reply = Some s1 ∧
    framePending plain_millis no_value every (λ _ _, 100%Z) s1 (mkClock "now" 60000000) = Some s2 ∧
    observe s2 = Some b ∧ length (RunLog.frames (log s2)) = 2 ∧
    (m_Content <$> Messages b) = ["Hello"]%string ∧
    applyAll plain_millis no_value NewMessageAssembler (emitted every a_reply) = Some b.
Proof.
  destruct (stream_equivalent plain_millis no_value every (λ _ _, 100%Z) (λ _ _, eq_refl) a_stream NewMessageAssembler
    a_reply (mkClock "now" 60000000)) as (s1 & s2 & b & Hr & Hf & Ho & _ & Ha);
    [reflexivity|by left|reflexivity|reflexivity|vm_compute; repeat constructor; discriminate|].
  exists s1, s2, b. split; [exact Hr|]. split; [exact Hf|]. split; [exact Ho|].
  split; [|split; [|exact Ha]].
  - vm_compute in Hr. injection Hr as <-. vm_compute in Hf. injection Hf as <-. reflexivity.
  - vm_compute in Ha. injection Ha as <-. reflexivity.
Defined.
End Stream.
