(* ===== verification/FoldReplay.v ===== *)
(** * What a client that attaches late makes of a run

    [FrameLog.fold] of internal/engine/runlog.go rewrites the frames that a
    client attaching late is sent, with the merge and the snapshots of
    internal/engine/stream.go.  What they say of the run to such a client is
    what its stream emitted and does not hold back, however often it folded
    and whoever followed it meanwhile. *)

From S2P Require Import Prelude GoStd RunLog Quota Chat Timeline Stream.

Module FoldReplay.
Import GoStd RunLog.

Section FoldReplay.
Context {F Er : Type} (flen : F → Z) (fclear : F → F).
Local Abbreviation Mem := (@Mem F).
Local Abbreviation FoldSt := (@FoldSt F).
Local Abbreviation FrameLog := (@FrameLog Er).

(** *** What a fold leaves *)

Lemma fold_texts (s : @Sys F Er) merge activity (m : Mem) (l : FrameLog) :
  reach flen fclear s → closed (slog s) = None → fold flen fclear merge activity (smem s) (slog s) = (m, l) →
  let t := folded flen merge activity (smem s) (slog s) in
  checkpoint l = fck t ∧ frames l = [] ∧ base l = base (slog s) + length (frames (slog s)) ∧ closed l = None ∧ ended l = ended (slog s) ∧
  ∀ e, e ∈ fck t → cells m !! data e = cells (fmem t) !! data e.
Proof.
  intros HI%reach_inv Hc. destruct HI as [HI _]. unfold fold. rewrite Hc.
  fold (folded flen merge activity (smem s) (slog s)).
  pose proof (folded_nodup flen fclear s merge activity HI) as Hn. cbn zeta in Hn. revert Hn.
  generalize (folded flen merge activity (smem s) (slog s)) as t. intros t Hn.
  unfold reclaim. intros [= <- <-]. split_and!; [done..|]. intros e He.
  apply cells_clear_all_ne. intros Hin. apply NoDup_app in Hn as (_ & Hd & _).
  apply (Hd (data e)); [by apply list_elem_of_fmap_2|].
  apply list_elem_of_In, in_concat in Hin as (bs & Hbs & Hin).
  apply in_map_iff in Hbs as (r & <- & [Hr _]%filter_In).
  apply list_elem_of_In in Hr, Hin. cbn in Hr. apply elem_of_app.
  apply elem_of_app in Hr as [Hr|Hr]; [right|left; set_solver].
  apply list_elem_of_In, in_concat. exists r.2. rewrite <- !list_elem_of_In.
  split; [|done]. by apply list_elem_of_fmap_2.
Qed.
(** Reclaiming clears nothing the log still has. *)
Lemma reclaim_texts (m : Mem) (l : FrameLog) :
  NoDup (live l) → ∀ e, e ∈ checkpoint l ++ frames l → cells (reclaim fclear m l).1 !! data e = cells m !! data e.
Proof.
  intros Hn e He. unfold live in Hn. apply NoDup_app in Hn as (_ & Hd & _).
  apply cells_clear_all_ne. intros Hin. apply (Hd (data e)); [by apply list_elem_of_fmap_2|].
  apply list_elem_of_In, in_concat in Hin as (bs & Hbs & Hin). apply in_map_iff in Hbs as (r & <- & [Hr _]%filter_In).
  apply list_elem_of_In, in_concat. exists r.2. split; [|done]. by apply in_map.
Qed.
Lemma done_texts (m m' : Mem) (l l' : FrameLog) fl : NoDup (live l) → done_reading fclear m l fl = (m', l') →
  closed l' = closed l ∧ base l' = base l ∧ checkpoint l' = checkpoint l ∧ frames l' = frames l ∧
  ∀ e, e ∈ checkpoint l ++ frames l → cells m' !! data e = cells m !! data e.
Proof.
  unfold done_reading. cbv zeta. set (f := if bool_decide _ then _ else _). intros Hn Hr.
  assert (m' = (reclaim fclear m (l <| lent ::= f |>)).1) as -> by (by rewrite Hr).
  unfold reclaim in Hr. injection Hr as <-. split_and!; try done. intros e He. by apply (reclaim_texts m (l <| lent ::= f |>)).
Qed.
End FoldReplay.
End FoldReplay.

(** ** What is said, and what activities come to *)
Module Late.
Import GoStd Chat Timeline Stream FoldReplay.
Import RunLog(frameKind(..), entry(..), data, kind, key, checkpoint, frames, cells, fresh, slog, smem, readers).
#[local] Existing Instance RunLog.frameKind_eq_dec.
Abbreviation Mem := (RunLog.Mem (F := frame)).
Abbreviation FoldSt := (RunLog.FoldSt (F := frame)).

(** What the events of a run say, the newest first: a delta goes on with what
    is said last when that is of the same target. *)
Definition say (l : list Event) (e : Event) : list Event :=
  match kindOf e with
  | (frameKept, _) => e :: l
  | (frameActivity, _) => l
  | (frameDelta, k) =>
      match l with
      | e' :: l' => if bool_decide (kindOf e' = (frameDelta, k)) then WithText e' (String.append (Text e') (Text e)) :: l' else e :: l
      | [] => [e]
      end
  end.
Definition said (es : list Event) : list Event := foldl say [] es.

(** An activity, by the message it is of: its last snapshot with the patches
    since; patches of one that was never shown say nothing. *)
Definition show (id : string) (a : option activity) (e : Event) : option activity :=
  match e with
  | ActivitySnapshot i ty content display => if String.eqb i id then Some (mkActivitySnapshot i ty content display) else a
  | ActivityDelta i _ patch display =>
      if String.eqb i id
      then (λ a, match display with Some d => (patched patch a) <| act_Display := Some d |> | None => patched patch a end) <$> a
      else a
  | _ => a
  end.
Definition shown (id : string) (es : list Event) : option activity := foldl (show id) None es.

Lemma said_app es es' : said (es ++ es') = foldl say (said es) es'.
Proof. apply foldl_app. Qed.
Lemma shown_app id es es' : shown id (es ++ es') = foldl (show id) (shown id es) es'.
Proof. apply foldl_app. Qed.

(** *** Deltas *)

Definition deltaOf (k : string) (e : Event) : Prop := kindOf e = (frameDelta, k).
#[local] Instance deltaOf_dec k e : Decision (deltaOf k e) := decide (kindOf e = (frameDelta, k)).
Lemma text_twice e t t' : WithText (WithText e t) t' = WithText e t'.
Proof. by destruct e. Qed.
Lemma text_of k e t : deltaOf k e → Text (WithText e t) = t.
Proof. by destruct e. Qed.
Lemma deltaOf_text k e t : deltaOf k (WithText e t) ↔ deltaOf k e.
Proof. unfold deltaOf. by rewrite text_kind. Qed.
Lemma say_delta k l e : deltaOf k e →
  say l e = match l with e' :: l' => if bool_decide (deltaOf k e') then WithText e' (String.append (Text e') (Text e)) :: l' else e :: l | [] => [e] end.
Proof. unfold say, deltaOf. by intros ->. Qed.
(** Saying one delta after another of its target, and saying both at once. *)
Lemma say_joined k l e e' t : deltaOf k e → deltaOf k e' →
  say (say l (WithText e t)) e' = say l (WithText e (String.append t (Text e'))).
Proof.
  intros He He'. rewrite !(say_delta k _ (WithText e _)) by (by apply deltaOf_text). rewrite !(text_of k) by done.
  destruct l as [|x l].
  - rewrite (say_delta k) by done. rewrite bool_decide_true by (by apply deltaOf_text). by rewrite text_twice, (text_of k).
  - case_bool_decide as Hx; rewrite (say_delta k) by done.
    + rewrite bool_decide_true by (by apply deltaOf_text). by rewrite text_twice, (text_of k), string_app_assoc.
    + rewrite bool_decide_true by (by apply deltaOf_text). by rewrite text_twice, (text_of k).
Qed.
Lemma say_run k es : ∀ l e t, deltaOf k e → Forall (deltaOf k) es →
  foldl say (say l (WithText e t)) es = say l (WithText e (String.append t (concat_text (Text <$> es)))).
Proof.
  induction es as [|e' es IH]; intros l e t He Hes; [cbn; by rewrite string_app_nil_r|].
  apply Forall_cons in Hes as [He' Hes]. cbn [foldl fmap list_fmap]. rewrite (say_joined k) by done. rewrite IH by done.
  f_equal. f_equal. cbn. by rewrite string_app_assoc.
Qed.
Lemma show_delta id k a e : deltaOf k e → show id a e = a.
Proof. by destruct e. Qed.
Lemma say_activity k l e : kindOf e = (frameActivity, k) → say l e = l.
Proof. unfold say. by intros ->. Qed.

(** *** Frames *)

(** What a frame holds is of its kind and its target. *)
Definition framed (m : Mem) (e : entry) (ev : Event) : Prop := (∃ at_, cells m !! data e = Some (Framed ev at_)) ∧ kindOf ev = (kind e, key e).
Definition hold (m : Mem) (es : list entry) (evs : list Event) : Prop := Forall2 (framed m) es evs.

Lemma hold_app m es es' evs evs' : hold m es evs → hold m es' evs' → hold m (es ++ es') (evs ++ evs').
Proof. apply Forall2_app. Qed.
Lemma framed_ext (m m' : Mem) e ev : cells m' !! data e = cells m !! data e → framed m e ev → framed m' e ev.
Proof. intros Hc [[at_ Ha] Hk]. split; [exists at_; by rewrite Hc|done]. Qed.
Lemma hold_ext (m m' : Mem) es evs : (∀ e, e ∈ es → is_Some (cells m !! data e) → cells m' !! data e = cells m !! data e) → hold m es evs → hold m' es evs.
Proof.
  intros Hc Hh. induction Hh as [|e ev es evs He _ IH]; constructor.
  - eapply framed_ext; [|exact He]. destruct He as [[at_ Ha] _]. apply Hc; [by left|by rewrite Ha].
  - apply IH. intros e' He'. apply Hc. by right.
Qed.
Lemma hold_deltas m es evs k : hold m es evs → Forall (λ e, kind e = frameDelta ∧ key e = k) es → Forall (deltaOf k) evs.
Proof.
  induction 1 as [|e ev es evs [_ He] _ IH]; intros Hall; constructor; apply Forall_cons in Hall as [[Hk <-] Hall]; [|by apply IH].
  unfold deltaOf. by rewrite He, Hk.
Qed.
Lemma shown_deltas k evs : Forall (deltaOf k) evs → ∀ id a, foldl (show id) a evs = a.
Proof. induction 1 as [|e evs He _ IH]; intros id a; [done|]. cbn. rewrite (show_delta _ k) by done. apply IH. Qed.

(** The frames of a run of deltas, merged into one. *)
Lemma merged_frame m es e evs : hold m es (e :: evs) →
  ∃ at_, merged (RunLog.contents m (data <$> es)) = Framed (WithText e (concat_text (Text <$> e :: evs))) at_.
Proof.
  intros Hh. assert (∀ es evs, hold m es evs → frameText <$> RunLog.contents m (data <$> es) = Text <$> evs) as Ht.
  { clear. induction 1 as [|x ev es evs [[at_ Ha] _] _ IH]; [done|]. unfold RunLog.contents in *. cbn. rewrite Ha. cbn. by rewrite IH. }
  pose proof (Ht _ _ Hh) as Htext. unfold merged. inversion Hh as [|x ev es' evs' [[at_ Ha] _] Hh']; subst.
  unfold RunLog.contents in *. cbn [fmap list_fmap omap list_omap] in *. rewrite Ha in *. exists at_. by rewrite Htext.
Qed.

(** *** The loop of a fold *)

Section Fold.
(** The stream's activities, and the frame of each. *)
Context (flen : frame → Z) (acts : string → option activity) (activity : string → option frame).
Hypothesis activity_shows : ∀ id,
  match acts id with
  | Some a => ∃ e at_, activity id = Some (Framed e at_) ∧ kindOf e = (frameActivity, id) ∧ ∀ id' o, show id' o e = if String.eqb id id' then Some a else o
  | None => activity id = None
  end.

(** The fold so far, of a log whose entries gone through hold [evs]. *)
Definition folds_to (m : Mem) (evs : list Event) (s : FoldSt) (cs rs : list Event) : Prop :=
  hold m (RunLog.fck s) cs ∧ hold m (RunLog.run s) rs ∧ said (cs ++ rs) = said evs ∧
  ∀ id, shown id cs = if bool_decide (id ∈ RunLog.placed s) then acts id else None.
Record follows (m0 : Mem) (evs : list Event) (s : FoldSt) : Prop := {
  f_old : ∀ b, is_Some (cells m0 !! b) → cells (RunLog.fmem s) !! b = cells m0 !! b;
  f_dom : ∀ b, is_Some (cells (RunLog.fmem s) !! b) → b < fresh (RunLog.fmem s);
  f_says : ∃ cs rs, folds_to (RunLog.fmem s) evs s cs rs;
  f_run : ∃ k, Forall (λ e, kind e = frameDelta ∧ key e = k) (RunLog.run s);
  f_placed : ∀ id, id ∈ RunLog.placed s ↔ ∃ e, e ∈ evs ∧ kindOf e = (frameActivity, id);
}.

Lemma alloc_ext (m : Mem) f b : (∀ b, is_Some (cells m !! b) → b < fresh m) → is_Some (cells m !! b) → cells (RunLog.alloc m f).1 !! b = cells m !! b.
Proof. intros Hd Hb. cbn. rewrite lookup_insert_ne; [done|]. intros <-. specialize (Hd _ Hb). lia. Qed.
Lemma alloc_dom (m : Mem) f b : (∀ b, is_Some (cells m !! b) → b < fresh m) → is_Some (cells (RunLog.alloc m f).1 !! b) → b < fresh (RunLog.alloc m f).1.
Proof. intros Hd. cbn. rewrite lookup_insert. decide_eq; [lia|]. intros Hb%Hd. lia. Qed.
Lemma follows_alloc m0 evs s f (s' : FoldSt) : follows m0 evs s → RunLog.fmem s' = (RunLog.alloc (RunLog.fmem s) f).1 →
  (∀ b, is_Some (cells m0 !! b) → cells (RunLog.fmem s') !! b = cells m0 !! b) ∧
  (∀ b, is_Some (cells (RunLog.fmem s') !! b) → b < fresh (RunLog.fmem s')) ∧
  ∀ es evs, hold (RunLog.fmem s) es evs → hold (RunLog.fmem s') es evs.
Proof.
  intros [Hold Hdom _ _ _] ->. split_and!.
  - intros b Hb. rewrite <- Hold by done. apply alloc_ext; [done|]. by rewrite Hold.
  - intros b. by apply alloc_dom.
  - intros es es'. apply hold_ext. intros e _. by apply alloc_ext.
Qed.

(** A run joins the checkpoint as it is. *)
Lemma follows_move m0 evs s : follows m0 evs s →
  follows m0 evs (s <| RunLog.fck ::= λ c, c ++ RunLog.run s |> <| RunLog.run := [] |> <| RunLog.size := 0%Z |>).
Proof.
  intros [Hold Hdom (cs & rs & Hc & Hr & Hs & Ha) [k Hk] Hp]. split; [done|done| |by exists ""%string|done].
  exists (cs ++ rs), []. split_and!; cbn; [by apply hold_app|constructor|by rewrite app_nil_r|].
  intros id. rewrite shown_app, (shown_deltas k) by (by eapply hold_deltas). apply Ha.
Qed.
(** All of a run but its last delta is merged into one frame. *)
Lemma follows_merge m0 evs s pre z k0 ds : follows m0 evs s → RunLog.run s = pre ++ [z] → 2 ≤ length pre → k0 = key (hd z pre) →
  let mb := RunLog.alloc (RunLog.fmem s) (merged (RunLog.contents (RunLog.fmem s) (data <$> pre))) in
  follows m0 evs (s <| RunLog.fmem := mb.1 |> <| RunLog.fck ::= λ c, c ++ [RunLog.mkEntry mb.2 frameDelta k0] |> <| RunLog.dropped ::= ds |> <| RunLog.run := [z] |>).
Proof.
  intros Hf Hrun Hlen -> mb. set (s' := s <| RunLog.fmem := _ |> <| RunLog.fck ::= _ |> <| RunLog.dropped ::= _ |> <| RunLog.run := _ |>).
  destruct (follows_alloc _ _ _ _ s' Hf eq_refl) as (Hold & Hdom & Hkeep). destruct Hf as [_ Hdom0 (cs & rs & Hc & Hr & Hs & Ha) [k Hk] Hp].
  pose proof (hold_deltas _ _ _ _ Hr Hk) as Hd. rewrite Hrun in Hr, Hk.
  apply Forall2_app_inv_l in Hr as (ps & zs & Hps & Hzs & ->). destruct ps as [|e ps].
  { apply Forall2_length in Hps. cbn in Hps. lia. }
  destruct (merged_frame _ _ _ _ Hps) as [at_ Hm]. apply Forall_app in Hk as [Hkp Hkz]. apply Forall_app in Hd as [Hd Hdz].
  apply Forall_cons in Hd as [He Hd]. set (t := concat_text (Text <$> e :: ps)) in *.
  split; [exact Hold|exact Hdom| |by exists k|done].
  exists (cs ++ [WithText e t]), zs. split_and!; cbn [RunLog.fck RunLog.run].
  - apply hold_app; [by apply Hkeep|]. constructor; [|constructor]. split.
    + exists at_. cbn. rewrite Hm. apply lookup_insert_eq.
    + cbn. rewrite text_kind. destruct pre as [|x pre]; [cbn in Hlen; lia|]. apply Forall_cons in Hkp as [[_ Hx] _]. cbn. by rewrite Hx.
  - by apply Hkeep.
  - rewrite <- Hs, !said_app. rewrite (foldl_app say (e :: ps) zs). f_equal. cbn [foldl].
    rewrite <- (text_text e) at 2. rewrite (say_run k) by done. done.
  - intros id. rewrite shown_app. cbn [foldl]. rewrite (show_delta _ k) by (by apply deltaOf_text). apply Ha.
Qed.
Lemma follows_flush m0 evs s : follows m0 evs s → follows m0 evs (RunLog.flush merged s).
Proof.
  intros Hf. unfold RunLog.flush.
  destruct (RunLog.run s) as [|e0 [|e1 [|e2 rest]]] eqn:Hr; try (by apply follows_move).
  rewrite <- Hr.
  assert (Hrn : RunLog.run s = removelast (RunLog.run s) ++ [List.last (RunLog.run s) e0]).
  { symmetry. apply RunLog.removelast_app_last. by rewrite Hr. }
  apply (follows_move m0 evs (_ <| RunLog.run := [List.last (RunLog.run s) e0] |>)).
  apply (follows_merge m0 evs s); [done|done| |].
  - apply (f_equal length) in Hrn. rewrite length_app, Hr in Hrn. rewrite Hr. cbn in Hrn |- *. lia.
  - by rewrite Hr.
Qed.

Lemma placed_same m0 evs ev s : (kindOf ev).1 ≠ frameActivity → follows m0 evs s →
  ∀ id, id ∈ RunLog.placed s ↔ ∃ e, e ∈ evs ++ [ev] ∧ kindOf e = (frameActivity, id).
Proof.
  intros Hev Hf id. rewrite (f_placed _ _ _ Hf). split; intros (e & He & Hk); exists e; (split; [|done]).
  - apply elem_of_app. by left.
  - apply elem_of_app in He as [He| ->%list_elem_of_singleton]; [done|]. by rewrite Hk in Hev.
Qed.
(** A delta goes on with a run. *)
Lemma follows_open m0 evs s e ev n : follows m0 evs s → framed m0 e ev → kind e = frameDelta → (∀ e', e' ∈ RunLog.run s → key e' = key e) →
  follows m0 (evs ++ [ev]) (s <| RunLog.run ::= λ r, r ++ [e] |> <| RunLog.size := n |>).
Proof.
  intros Hf He Hk Hkey. pose proof He as [[at_ Hcell] Hev].
  pose proof (placed_same m0 evs ev s ltac:(by rewrite Hev, Hk) Hf) as Hplaced.
  destruct Hf as [Hold Hdom (cs & rs & Hc & Hr & Hs & Ha) [k Hrun] _]. split; [done|done| | |exact Hplaced].
  - exists cs, (rs ++ [ev]). split_and!; cbn; [done| | |done].
    + apply hold_app; [done|]. constructor; [|constructor]. eapply framed_ext; [|exact He]. apply Hold. by rewrite Hcell.
    + by rewrite app_assoc, !(said_app _ [ev]), Hs.
  - exists (key e). cbn. apply Forall_app. split; [|by apply Forall_singleton]. rewrite Forall_forall in Hrun |- *.
    intros e' He'. split; [by apply Hrun|by apply Hkey].
Qed.
(** A frame that is kept joins the checkpoint. *)
Lemma follows_keep m0 evs s e ev : follows m0 evs s → framed m0 e ev → kind e = frameKept → RunLog.run s = [] →
  follows m0 (evs ++ [ev]) (s <| RunLog.fck ::= λ c, c ++ [e] |>).
Proof.
  intros Hf He Hk Hrun. pose proof He as [[at_ Hcell] Hev].
  pose proof (placed_same m0 evs ev s ltac:(by rewrite Hev, Hk) Hf) as Hplaced.
  destruct Hf as [Hold Hdom (cs & rs & Hc & Hr & Hs & Ha) _ _]. rewrite Hrun in Hr. inversion Hr; subst rs. rewrite app_nil_r in Hs.
  split; [done|done| |exists ""%string; cbn; by rewrite Hrun|exact Hplaced].
  exists (cs ++ [ev]), []. split_and!; cbn.
  - apply hold_app; [done|]. constructor; [|constructor]. eapply framed_ext; [|exact He]. apply Hold. by rewrite Hcell.
  - by rewrite Hrun.
  - by rewrite app_nil_r, !said_app, Hs.
  - intros id. rewrite shown_app. cbn [foldl]. rewrite Ha. rewrite Hk in Hev. by destruct ev.
Qed.
Lemma hold_nil m evs : hold m [] evs → evs = [].
Proof. by inversion 1. Qed.
(** An activity's frames give way to one of what it comes to. *)
Lemma follows_activity m0 evs s e ev ds : follows m0 evs s → framed m0 e ev → kind e = frameActivity → RunLog.run s = [] →
  follows m0 (evs ++ [ev])
    ((if bool_decide (key e ∈ RunLog.placed s) then s
      else
        let s := s <| RunLog.placed ::= λ p, {[key e]} ∪ p |> in
        match activity (key e) with
        | Some now =>
            let '(m, b) := RunLog.alloc (RunLog.fmem s) now in
            s <| RunLog.fmem := m |> <| RunLog.fck ::= λ c, c ++ [RunLog.mkEntry b frameActivity (key e)] |>
        | None => s
        end) <| RunLog.dropped ::= ds |>).
Proof.
  intros Hf [_ Hev] Hk Hrun. rewrite Hk in Hev. assert (Hsaid : said (evs ++ [ev]) = said evs).
  { rewrite said_app. cbn. by apply (say_activity (key e)). }
  assert (Hplaced : ∀ id, (id = key e ∨ id ∈ RunLog.placed s) ↔ ∃ e, e ∈ evs ++ [ev] ∧ kindOf e = (frameActivity, id)).
  { intros id. rewrite (f_placed _ _ _ Hf). split.
    - intros [->|(x & Hx & Hkx)]; [exists ev|exists x]; (split; [apply elem_of_app|done]); [right; by left|by left].
    - intros (x & [Hx| ->%list_elem_of_singleton]%elem_of_app & Hkx); [right; by exists x|left; congruence]. }
  pose proof (f_run _ _ _ Hf) as Hfr. pose proof (f_old _ _ _ Hf) as Hfo. pose proof (f_dom _ _ _ Hf) as Hfd.
  pose proof (f_says _ _ _ Hf) as (cs & rs & Hc & Hr & Hs & Ha). rewrite Hrun in Hr. apply hold_nil in Hr as ->. rewrite app_nil_r in Hs.
  case_bool_decide as Hin.
  { split; [done|done| |done|].
    - exists cs, []. split_and!; cbn; [done|rewrite Hrun; constructor|by rewrite app_nil_r, Hsaid|done].
    - intros id. cbn. rewrite <- Hplaced. split; [by right|]. by intros [->|]. }
  cbn zeta. pose proof (activity_shows (key e)) as Hact.
  assert (Hnew : ∀ id o, (if String.eqb (key e) id then o else shown id cs) = if bool_decide (id ∈ {[key e]} ∪ RunLog.placed s) then
    (if String.eqb (key e) id then o else acts id) else None).
  { intros id o. rewrite Ha. destruct (String.eqb_spec (key e) id) as [->|Hne].
    - rewrite bool_decide_true by set_solver. done.
    - rewrite (bool_decide_ext (id ∈ {[key e]} ∪ RunLog.placed s) (id ∈ RunLog.placed s)) by set_solver. done. }
  destruct (activity (key e)) as [now|]; cbn beta iota.
  - destruct (acts (key e)) as [a|] eqn:Hak; [|done]. destruct Hact as (e' & at_ & [= ->] & Hk' & Hshow).
    set (s' := _ <| RunLog.dropped ::= ds |>).
    destruct (follows_alloc m0 evs s (Framed e' at_) s' Hf eq_refl) as (Hold & Hdom & Hkeep).
    split; [exact Hold|exact Hdom| |done|intros id; cbn; rewrite <- Hplaced; set_solver].
    exists (cs ++ [e']), []. split_and!; cbn [RunLog.fck RunLog.run s' upd].
    + apply hold_app; [by apply Hkeep|]. constructor; [|constructor]. split; [|by rewrite Hk']. exists at_. cbn. apply lookup_insert_eq.
    + cbn. rewrite Hrun. constructor.
    + rewrite app_nil_r, said_app, Hs, Hsaid. cbn. by apply (say_activity (key e)).
    + intros id. rewrite shown_app. cbn [foldl]. rewrite Hshow, Hnew. cbn. destruct (String.eqb_spec (key e) id) as [Hid|]; [by rewrite <- Hid, Hak|done].
  - destruct (acts (key e)) as [a|] eqn:Hak; [by destruct Hact as (? & ? & ? & _)|].
    split; [done|done| |done|intros id; cbn; rewrite <- Hplaced; set_solver].
    exists cs, []. split_and!; cbn; [done|rewrite Hrun; constructor|by rewrite app_nil_r, Hsaid|].
    intros id. specialize (Hnew id None). destruct (String.eqb_spec (key e) id) as [Hid|]; [|done].
    subst id. rewrite Ha, Hak. by repeat case_bool_decide.
Qed.
Lemma follows_entry m0 evs s e ev : follows m0 evs s → framed m0 e ev → follows m0 (evs ++ [ev]) (RunLog.fold_entry flen merged activity s e).
Proof.
  intros Hf He. unfold RunLog.fold_entry.
  destruct (bool_decide (kind e = frameDelta) && RunLog.joins flen s e) eqn:Hj.
  - apply andb_true_iff in Hj as [Hk%bool_decide_eq_true Hj].
    eapply follows_open; [done|done|done|]. intros e' He'.
    unfold RunLog.joins in Hj. destruct (RunLog.run s) as [|e0 r] eqn:Hr; [done|].
    apply andb_true_iff in Hj as [Hke%bool_decide_eq_true _].
    destruct (f_run _ _ _ Hf) as [k Hall]. rewrite Hr, Forall_forall in Hall.
    destruct (Hall e0) as [_ ?]; [by left|]. destruct (Hall e') as [_ ?]; [done|congruence].
  - clear Hj. apply follows_flush in Hf. pose proof (RunLog.flush_run merged s) as Hr. revert Hf Hr.
    generalize (RunLog.flush merged s). intros s' Hf Hr. destruct (kind e) eqn:Hk.
    + by apply follows_keep.
    + pose proof (follows_open _ _ _ _ _ (RunLog.size_of flen (RunLog.fmem s') (data e)) Hf He Hk) as Ho. cbn in Ho. rewrite Hr in Ho.
      apply Ho. intros e' He'. by apply not_elem_of_nil in He'.
    + by apply follows_activity.
Qed.
Lemma follows_entries m0 es evs' : hold m0 es evs' → ∀ evs s, follows m0 evs s →
  follows m0 (evs ++ evs') (foldl (RunLog.fold_entry flen merged activity) s es).
Proof.
  induction 1 as [|e ev es evs' He _ IH]; intros evs s Hf; [by rewrite app_nil_r|].
  rewrite cons_middle, app_assoc. cbn. apply IH. by apply follows_entry.
Qed.
Lemma shown_none id evs : (∀ e, e ∈ evs → kindOf e ≠ (frameActivity, id)) → shown id evs = None.
Proof.
  intros Hn. unfold shown. cut (∀ a, foldl (show id) a evs = a); [auto|]. induction evs as [|e evs IH]; intros a; [done|]. cbn.
  rewrite IH by (intros; apply Hn; by right). pose proof (Hn e ltac:(by left)) as He. destruct e; try done; cbn in *; (case_match; [|done]).
  all: exfalso; apply He; f_equal; by apply String.eqb_eq.
Qed.
(** What a fold leaves says what the log said, and shows what its activities
    come to. *)
Lemma folded_says {Er} (m : Mem) (l : RunLog.FrameLog (Er := Er)) evs :
  (∀ b, is_Some (cells m !! b) → b < fresh m) → hold m (checkpoint l ++ frames l) evs → (∀ id, shown id evs = acts id) →
  let t := RunLog.folded flen merged activity m l in
  ∃ cs, hold (RunLog.fmem t) (RunLog.fck t) cs ∧ said cs = said evs ∧ ∀ id, shown id cs = acts id.
Proof.
  intros Hd Hh Hacts t.
  assert (Hf : follows m evs t).
  { apply follows_flush. apply (follows_entries m _ evs Hh []). split; cbn; [done|done| |by exists ""%string|].
    - exists [], []. by split_and!; try constructor.
    - intros id. split; [set_solver|]. intros (e & He & _). by apply not_elem_of_nil in He. }
  assert (Hr : RunLog.run t = []) by apply RunLog.flush_run.
  destruct (f_says _ _ _ Hf) as (cs & rs & Hc & Hrs & Hs & Ha). rewrite Hr in Hrs. apply hold_nil in Hrs as ->. rewrite app_nil_r in Hs.
  exists cs. split_and!; [done..|]. intros id. rewrite Ha. case_bool_decide as Hp; [done|]. rewrite <- Hacts. symmetry.
  apply shown_none. intros e He Hk. apply Hp, (f_placed _ _ _ Hf). by exists e.
Qed.
End Fold.

(** *** The activities of a stream *)

Lemma find_index {A} (p : A → bool) l : match IndexFunc p l with Some i => l !! i = List.find p l | None => List.find p l = None end.
Proof.
  induction l as [|a l IH]; [done|]. cbn [IndexFunc List.find]. destruct (p a); [done|]. by destruct (IndexFunc p l).
Qed.
Lemma isOf_eq id a : isOf id a = String.eqb (act_MessageID a) id.
Proof. done. Qed.
Lemma find_alter f id l i id' : IndexFunc (isOf id) l = Some i → (∀ a, act_MessageID (f a) = act_MessageID a) →
  List.find (isOf id') (alter f i l) = if String.eqb id id' then f <$> List.find (isOf id') l else List.find (isOf id') l.
Proof.
  intros Hi Hf. revert i Hi. induction l as [|a l IH]; intros i; [done|]. cbn [IndexFunc]. rewrite isOf_eq.
  destruct (String.eqb_spec (act_MessageID a) id) as [Ha|Ha].
  - intros [= <-]. cbn. rewrite !isOf_eq, Hf, Ha. by destruct (String.eqb id id').
  - destruct (IndexFunc (isOf id) l) as [j|]; [|done]. intros [= <-]. cbn. rewrite !isOf_eq.
    destruct (String.eqb_spec (act_MessageID a) id') as [<-|]; [|by apply IH].
    by rewrite (proj2 (String.eqb_neq _ _)) by congruence.
Qed.
Lemma find_insert id l i a id' : IndexFunc (isOf id) l = Some i → act_MessageID a = id →
  List.find (isOf id') (<[i := a]> l) = if String.eqb id id' then Some a else List.find (isOf id') l.
Proof.
  intros Hi Ha. revert i Hi. induction l as [|x l IH]; intros i; [done|]. cbn [IndexFunc]. rewrite isOf_eq.
  destruct (String.eqb_spec (act_MessageID x) id) as [Hx|Hx].
  - intros [= <-]. cbn. rewrite !isOf_eq, Ha, Hx. by destruct (String.eqb id id').
  - destruct (IndexFunc (isOf id) l) as [j|]; [|done]. intros [= <-]. cbn. rewrite !isOf_eq.
    destruct (String.eqb_spec (act_MessageID x) id') as [<-|]; [|by apply IH].
    by rewrite (proj2 (String.eqb_neq _ _)) by congruence.
Qed.
Lemma find_last id l a id' : IndexFunc (isOf id) l = None → act_MessageID a = id →
  List.find (isOf id') (l ++ [a]) = if String.eqb id id' then Some a else List.find (isOf id') l.
Proof.
  intros Hi Ha. induction l as [|x l IH]; cbn.
  - rewrite isOf_eq, Ha. by destruct (String.eqb id id').
  - cbn [IndexFunc] in Hi. rewrite isOf_eq in Hi. destruct (String.eqb_spec (act_MessageID x) id) as [Hx|Hx]; [done|].
    rewrite !isOf_eq. destruct (String.eqb_spec (act_MessageID x) id') as [<-|].
    + by rewrite (proj2 (String.eqb_neq _ _)) by congruence.
    + apply IH. by destruct (IndexFunc (isOf id) l).
Qed.
Lemma patched_id patch a : act_MessageID (patched patch a) = act_MessageID a.
Proof.
  unfold patched. revert a. induction patch as [|op patch IH]; intros a; [done|]. cbn. rewrite IH. destruct (Value op); [| |done]; by case_match.
Qed.
(** [track] keeps each activity as its events show it. *)
Lemma track_shows {Er} (s : Stream (Er := Er)) e id : List.find (isOf id) (activities (track s e)) = show id (List.find (isOf id) (activities s)) e.
Proof.
  destruct e as [| | | | | | | |i ty content display|i ty patch display| | |]; try done; cbn [track show].
  - destruct (IndexFunc (isOf i) (activities s)) as [j|] eqn:Hj; cbn [activities]; [by apply find_insert|by apply find_last].
  - pose proof (find_index (isOf i) (activities s)) as Hf. destruct (IndexFunc (isOf i) (activities s)) as [j|] eqn:Hj; cbn.
    + apply find_alter; [done|]. intros a. destruct display; cbn; apply patched_id.
    + destruct (String.eqb_spec i id) as [<-|]; [|done]. by rewrite Hf.
Qed.

(** ** What a client that attaches late reads *)

Section Late.
Context (UnixMilli : string → option Z) (RawValue : patchValue → string).
Context (marshals : Event → bool) (frameLen : Event → string → Z) {Er : Type}.
(** A delta's members are strings, and those of an activity strings, and a
    progress that is a number. *)
Hypothesis delta_marshals : ∀ e, isDelta e → marshals e = true.
Hypothesis snapshot_marshals : ∀ id ty content display, marshals (ActivitySnapshot id ty content display) = true.

Abbreviation Stream := (Stream (Er := Er)).
Abbreviation Sys := (RunLog.Sys (F := frame) (Er := Er)).
Abbreviation flen := (flen frameLen).
Abbreviation wiped := (λ _ : frame, Wiped).
Abbreviation write := (write UnixMilli RawValue marshals frameLen).
Abbreviation framePending := (framePending UnixMilli RawValue marshals frameLen).
Abbreviation step := (step UnixMilli RawValue marshals frameLen).
Abbreviation activityFrame := (activityFrame marshals).

(** What others do to the log while a run is open: they follow it, attach to
    it and detach, and hold it back from being wiped. *)
Definition reading (a : RunLog.Action (F := frame) (Er := Er)) : Prop :=
  match a with
  | RunLog.AGrow _ _ _ | RunLog.AFold _ _ | RunLog.AClose _ => False
  | _ => True
  end.
(** A run's stream and the readers of its log, once [ops] were the stream's
    own, and others read in between. *)
Inductive served (s0 : Stream) : list op → Stream → gmap nat RunLog.Reader → Prop :=
  | served_start : served s0 [] s0 ∅
  | served_op ops s rs o s' : served s0 ops s rs → step s o = Some s' → served s0 (ops ++ [o]) s' rs
  | served_reader ops s rs a y : served s0 ops s rs → reading a →
      RunLog.step flen wiped (RunLog.mkSys (mem s) (log s) rs [] false) a y →
      served s0 ops (s <| mem := smem y |> <| log := slog y |>) (readers y).

(** The log of a stream that framed [evs]. *)
Record tells (s : Stream) (rs : gmap nat RunLog.Reader) (evs : list Event) : Prop := {
  l_reach : ∃ h, RunLog.reach flen wiped (RunLog.mkSys (mem s) (log s) rs h false);
  l_closed : RunLog.closed (log s) = None;
  l_base : RunLog.base (log s) = 0 → checkpoint (log s) = [];
  l_says : ∃ cs, hold (mem s) (checkpoint (log s) ++ frames (log s)) cs ∧ said cs = said evs ∧ ∀ id, shown id cs = shown id evs;
  l_acts : ∀ id, List.find (isOf id) (activities s) = shown id evs;
}.
Lemma tells_same s s' rs evs : tells s rs evs → mem s' = mem s → log s' = log s → activities s' = activities s → tells s' rs evs.
Proof. intros [] Hm Hl Ha. split; rewrite ?Hm, ?Hl, ?Ha; done. Qed.

Lemma activity_frames (s : Stream) now id :
  match List.find (isOf id) (activities s) with
  | Some a => ∃ e at_, activityFrame s now id = Some (Framed e at_) ∧ kindOf e = (frameActivity, id) ∧
      ∀ id' o, show id' o e = if String.eqb id id' then Some a else o
  | None => activityFrame s now id = None
  end.
Proof.
  pose proof (find_index (isOf id) (activities s)) as Hi. unfold Stream.activityFrame.
  destruct (IndexFunc (isOf id) (activities s)) as [i|]; [|by rewrite Hi]. rewrite <- Hi. cbn [mbind option_bind].
  destruct (activities s !! i) as [a|] eqn:Ha; [|done]. cbn [mbind option_bind]. unfold EncodeEvent. rewrite snapshot_marshals.
  symmetry in Hi. apply List.find_some in Hi as [_ Hid%String.eqb_eq]. eexists _, now. split_and!; [done|cbn; by rewrite Hid|].
  intros id' o. cbn. rewrite <- Hid. by destruct a.
Qed.

(** A fold leaves a log that tells the same. *)
Lemma tells_fold s rs evs now m l : tells s rs evs → frames (log s) ≠ [] →
  RunLog.fold flen wiped merged (activityFrame s now) (mem s) (log s) = (m, l) → tells (s <| mem := m |> <| log := l |>) rs evs.
Proof.
  intros [[h Hr] Hc Hb (cs & Hh & Hs & Hsh) Ha] Hne Hf.
  destruct (fold_texts flen wiped _ merged (activityFrame s now) m l Hr Hc Hf) as (Hck & Hfr & Hba & Hcl & He & Hcells).
  pose proof (RunLog.reach_inv _ _ _ Hr) as [HI _].
  destruct (folded_says flen (λ id, List.find (isOf id) (activities s)) (activityFrame s now) (activity_frames s now) (mem s) (log s) cs)
    as (cs' & Hh' & Hs' & Hsh'); [apply (RunLog.i_dom _ _ HI)|done|intros id; by rewrite Hsh|].
  split; cbn.
  - exists h. eapply reachable_step; [exact Hr|]. exact (RunLog.step_fold flen wiped (RunLog.mkSys (mem s) (log s) rs h false) merged (activityFrame s now) m l Hf).
  - done.
  - rewrite Hba. cbn. intros Hz. by destruct (frames (log s)); [|cbn in Hz; lia].
  - exists cs'. rewrite Hck, Hfr, app_nil_r. split_and!; [|by rewrite Hs'|intros id; by rewrite Hsh', Ha].
    eapply hold_ext; [|exact Hh']. intros e Hin _. by apply Hcells.
  - done.
Qed.

(** Framing an event. *)
Lemma tells_grow s rs evs e at_ m b : tells s rs evs → RunLog.alloc (mem s) (Framed e at_) = (m, b) →
  tells (track (s <| mem := m |> <| log := (RunLog.grow flen m (log s) b (kindOf e).1 (kindOf e).2).1 |>) e) rs (evs ++ [e]).
Proof.
  intros [[h Hr] Hc Hb (cs & Hh & Hs & Hsh) Ha] Hal. set (s1 := s <| mem := m |> <| log := _ |>).
  assert (Htr : mem (track s1 e) = mem s1 ∧ log (track s1 e) = log s1) by (destruct e; try done; cbn; by destruct (IndexFunc _ _)).
  destruct Htr as [Hm Hl]. pose proof (RunLog.reach_inv _ _ _ Hr) as [HI _].
  assert (Hg : RunLog.grow flen m (log s) b (kindOf e).1 (kindOf e).2 = (log s1, bool_decide (RunLog.budget (log s1) < RunLog.bytes (log s1))%Z)) by done.
  assert (Hf : RunLog.closed (log s1) = None ∧ RunLog.base (log s1) = RunLog.base (log s) ∧ checkpoint (log s1) = checkpoint (log s) ∧
    frames (log s1) = frames (log s) ++ [RunLog.mkEntry b (kindOf e).1 (kindOf e).2]).
  { unfold s1. cbn. by rewrite Hc. }
  destruct Hf as (Hf1 & Hf2 & Hf3 & Hf4). split; rewrite ?Hm, ?Hl.
  - exists (h ++ [b]). eapply reachable_step; [exact Hr|].
    exact (RunLog.step_grow flen wiped (RunLog.mkSys (mem s) (log s) rs h false) (Framed e at_) _ _ m b Hc Hal).
  - done.
  - by rewrite Hf2, Hf3.
  - exists (cs ++ [e]). rewrite Hf3, Hf4, app_assoc. split_and!.
    + unfold RunLog.alloc in Hal. injection Hal as <- <-. apply hold_app.
      * eapply hold_ext; [|exact Hh]. intros x _. apply (alloc_ext (mem s) (Framed e at_)). apply (RunLog.i_dom _ _ HI).
      * constructor; [|constructor]. split; [|by destruct (kindOf e)]. exists at_. cbn. apply lookup_insert_eq.
    + by rewrite !said_app, Hs.
    + intros id. by rewrite !shown_app, Hsh.
  - intros id. rewrite track_shows, shown_app. cbn [foldl]. by rewrite <- Ha.
Qed.
Lemma tells_write s rs evs e at_ now s' : tells s rs evs → write s e (kindOf e).1 (kindOf e).2 at_ now = Some s' →
  tells s' rs (evs ++ if marshals e then [e] else []) ∧ pending s' = pending s.
Proof.
  intros Ht. unfold Stream.write, EncodeEvent. destruct (marshals e); [|intros [= <-]; by rewrite app_nil_r].
  destruct (RunLog.alloc (mem s) (Framed e at_)) as [m b] eqn:Hal.
  pose proof (tells_grow s rs evs e at_ m b Ht Hal) as Hg.
  assert (Hne : frames (RunLog.grow flen m (log s) b (kindOf e).1 (kindOf e).2).1 ≠ []).
  { unfold RunLog.grow. rewrite (l_closed _ _ _ Ht). cbn. by destruct (frames (log s)). }
  destruct (RunLog.grow flen m (log s) b (kindOf e).1 (kindOf e).2) as [l full]. cbn [fst] in *.
  set (s1 := if bool_decide ((kindOf e).1 = frameDelta) then _ else _).
  assert (H1 : mem s1 = m ∧ log s1 = l ∧ activities s1 = activities s ∧ pending s1 = pending s)
    by (unfold s1; by destruct (bool_decide _)).
  destruct H1 as (Hm1 & Hl1 & Ha1 & Hp1). destruct (track_same s1 e) as (_ & Hp2 & _).
  assert (H2 : tells (track s1 e) rs (evs ++ [e])).
  { eapply tells_same; [exact Hg|..]; clear - Hm1 Hl1 Ha1; destruct e; cbn; rewrite ?Ha1; try done; by destruct (IndexFunc _ _). }
  assert (Hl2 : log (track s1 e) = l) by (rewrite <- Hl1; clear; destruct e; cbn; try done; by destruct (IndexFunc _ _)).
  revert H2 Hl2 Hp2. rewrite Hp1. generalize (track s1 e). clear s1 Hm1 Hl1 Ha1 Hp1. intros s2 H2 Hl2 Hp2.
  assert (Hob : ∀ s3, match observe s2 with
    | None => Some s2
    | Some a => a ← Apply UnixMilli RawValue a e at_ (stampNow now); Some (s2 <| observe := Some a |>)
    end = Some s3 → tells s3 rs (evs ++ [e]) ∧ log s3 = l ∧ pending s3 = pending s).
  { intros s3. destruct (observe s2); [|by intros [= <-]]. destruct (Apply _ _ _ _ _ _); [|done]. cbn. intros [= <-].
    split_and!; [by eapply tells_same|done..]. }
  destruct (match observe s2 with None => _ | Some _ => _ end) as [s3|]; [|done]. cbn [mbind option_bind].
  destruct (Hob s3 eq_refl) as (H3 & Hl3 & Hp3). destruct (full && folding s3); [|by intros [= <-]].
  destruct (RunLog.fold _ _ _ _ _ _) as [m' l'] eqn:Hf. intros [= <-]. split; [|done].
  eapply tells_fold; [exact H3|by rewrite Hl3|exact Hf].
Qed.

(** What is held back: one delta to come, of the target of what it began with. *)
Definition heldBack (s : Stream) : list Event := match pending s with Some p => [WithText (pd_first p) (pd_text p)] | None => [] end.
Definition pends (s : Stream) : Prop := ∀ p, pending s = Some p → deltaOf (pd_key p) (pd_first p).
Lemma tells_pending s rs evs now s' : tells s rs evs → pends s → framePending s now = Some s' →
  tells s' rs (evs ++ heldBack s) ∧ pending s' = None.
Proof.
  intros Ht Hp. unfold Stream.framePending, heldBack. destruct (pending s) as [p|] eqn:Hs; [|intros [= <-]; by rewrite app_nil_r].
  pose proof (Hp p Hs) as Hd. pose proof (proj2 (deltaOf_text _ _ (pd_text p)) Hd) as Hdt.
  intros Hw. pose proof (tells_write (s <| pending := None |>) rs evs (WithText (pd_first p) (pd_text p)) (pd_at p) now s') as Htw.
  rewrite Hdt in Htw. cbn [fst snd] in Htw. rewrite delta_marshals in Htw by (by eapply kindOf_delta).
  apply Htw; [by eapply tells_same|done].
Qed.

(** The stream tells what was emitted, but for what it holds back. *)
Definition keepsUp (s : Stream) (rs : gmap nat RunLog.Reader) (es : list Event) : Prop :=
  pends s ∧ ∃ evs, tells s rs evs ∧ said (evs ++ heldBack s) = said es ∧ ∀ id, shown id evs = shown id es.
Lemma held_pending s : pends s → ∀ id a, foldl (show id) a (heldBack s) = a.
Proof.
  intros Hp id a. unfold heldBack. destruct (pending s) as [p|] eqn:Hs; [|done]. cbn.
  apply (show_delta _ (pd_key p)), deltaOf_text. by apply Hp.
Qed.
Lemma keepsUp_pending s rs es now s' : keepsUp s rs es → framePending s now = Some s' →
  pending s' = None ∧ ∃ evs, tells s' rs evs ∧ said evs = said es ∧ ∀ id, shown id evs = shown id es.
Proof.
  intros (Hp & evs & Ht & Hs & Hsh) Hf. destruct (tells_pending _ _ _ _ _ Ht Hp Hf) as [Ht' Hp']. split; [done|].
  exists (evs ++ heldBack s). split_and!; [done..|]. intros id. rewrite shown_app, held_pending by done. apply Hsh.
Qed.
Lemma keepsUp_write s rs es evs e at_ now s' : pending s = None → tells s rs evs → said evs = said es → (∀ id, shown id evs = shown id es) →
  write s e (kindOf e).1 (kindOf e).2 at_ now = Some s' → keepsUp s' rs (es ++ if marshals e then [e] else []).
Proof.
  intros Hn Ht Hs Hsh Hw. destruct (tells_write _ _ _ _ _ _ _ Ht Hw) as [Ht' Hp]. rewrite Hn in Hp. split; [intros p; by rewrite Hp|].
  eexists. split_and!; [exact Ht'| |].
  - unfold heldBack. rewrite Hp, app_nil_r, !said_app. by rewrite Hs.
  - intros id. rewrite !shown_app. by rewrite Hsh.
Qed.
Lemma keepsUp_frame s rs es e at_ now s' : keepsUp s rs es → frame_ UnixMilli RawValue marshals frameLen s e at_ now = Some s' →
  keepsUp s' rs (es ++ if marshals e then [e] else []).
Proof.
  intros Hk. unfold frame_. destruct (kindOf e) as [kd key] eqn:He. destruct (negb _) eqn:Hkd.
  { destruct (Stream.framePending _ _ _ _ s now) as [s1|] eqn:Hf; [|done]. cbn [mbind option_bind].
    destruct (keepsUp_pending _ _ _ _ _ Hk Hf) as (Hp & evs & Ht & Hs & Hsh). intros Hw.
    eapply keepsUp_write; [exact Hp|exact Ht|exact Hs|exact Hsh|]. rewrite He. exact Hw. }
  apply negb_false_iff, bool_decide_eq_true in Hkd as ->. rewrite (delta_marshals e) by (by eapply kindOf_delta).
  destruct (heldTakes s key (Text e)) as [p|] eqn:Htake.
  - unfold heldTakes in Htake. destruct (pending s) as [p'|] eqn:Hps; [|done]. cbn in Htake.
    destruct (String.eqb_spec (pd_key p') key) as [Hkey|]; [|done]. cbn in Htake. case_bool_decide; [|done]. injection Htake as <-.
    intros [= <-]. destruct Hk as (Hp & evs & Ht & Hs & Hsh). pose proof (Hp p' Hps) as Hd. rewrite Hkey in Hd. split.
    + intros p [= <-]. cbn. by rewrite Hkey.
    + exists evs. split_and!; [by eapply tells_same| |].
      * unfold heldBack in Hs |- *. rewrite Hps in Hs. cbn [pending upd pd_first pd_text]. rewrite (said_app es), <- Hs, !said_app. cbn.
        symmetry. by apply (say_joined key).
      * intros id. rewrite shown_app, Hsh. cbn. by rewrite (show_delta _ key).
  - destruct (Stream.framePending _ _ _ _ s now) as [s1|] eqn:Hf; [|done]. cbn [mbind option_bind].
    destruct (keepsUp_pending _ _ _ _ _ Hk Hf) as (Hp & evs & Ht & Hs & Hsh). destruct (_ && _).
    + intros [= <-]. split; [by intros p [= <-]|]. exists evs. split_and!; [by eapply tells_same| |].
      * unfold heldBack. cbn [pending upd pd_first pd_text]. by rewrite text_text, !said_app, Hs.
      * intros id. rewrite shown_app, Hsh. cbn. by rewrite (show_delta _ key).
    + intros Hw. pose proof (keepsUp_write s1 rs es evs e at_ now s' Hp Ht Hs Hsh) as H. rewrite He in H.
      rewrite delta_marshals in H by (by eapply kindOf_delta). by apply H.
Qed.

(** Others reading the log change nothing of what it tells. *)
Lemma tells_read s rs evs m l rs' : tells s rs evs → (∃ h, RunLog.reach flen wiped (RunLog.mkSys m l rs' h false)) →
  RunLog.closed l = RunLog.closed (log s) → RunLog.base l = RunLog.base (log s) → checkpoint l = checkpoint (log s) → frames l = frames (log s) →
  (∀ e, e ∈ checkpoint (log s) ++ frames (log s) → cells m !! data e = cells (mem s) !! data e) →
  tells (s <| mem := m |> <| log := l |>) rs' evs.
Proof.
  intros [_ Hc Hb (cs & Hh & Hs) Ha] Hr Hcl Hba Hck Hfr Hcells. split; cbn; rewrite ?Hcl, ?Hba, ?Hck, ?Hfr; try done.
  exists cs. split; [|done]. eapply hold_ext; [|exact Hh]. intros e He _. by apply Hcells.
Qed.
Lemma tells_reader s rs evs a y : tells s rs evs → reading a → RunLog.step flen wiped (RunLog.mkSys (mem s) (log s) rs [] false) a y →
  tells (s <| mem := smem y |> <| log := slog y |>) (readers y) evs.
Proof.
  intros Ht Ha Hst. pose proof Ht as [[h Hr] Hc _ _ _]. pose proof (RunLog.reach_inv _ _ _ Hr) as [HI _].
  assert (Hend : RunLog.ended (log s) = false).
  { destruct (RunLog.ended (log s)) eqn:He; [|done]. apply (RunLog.i_closed _ _ HI) in He as [? He]. cbn in He. congruence. }
  set (x := RunLog.mkSys (mem s) (log s) rs h false) in *.
  assert (Hwipe : ∀ l : RunLog.FrameLog (Er := Er), RunLog.ended l = false → RunLog.can_wipe l = false) by (intros l Hl; unfold RunLog.can_wipe; by rewrite Hl).
  assert (Hkeep : ∀ (l : RunLog.FrameLog (Er := Er)) m, RunLog.ended l = false → RunLog.wipe wiped m l = (m, l)) by (intros l m Hl; unfold RunLog.wipe; by rewrite Hl).
  inversion Hst; subst; try done.
  - apply tells_read with rs; try done. exists h. eapply reachable_step; [exact Hr|]. by apply (RunLog.step_attach flen wiped x r).
  - unfold RunLog.Read in *. simplify_eq. apply tells_read with rs; try done. exists h. eapply reachable_step; [exact Hr|].
    by eapply (RunLog.step_read flen wiped x r e from).
  - destruct (done_texts wiped (mem s) m (log s) l fl (RunLog.i_nodup _ _ HI)) as (H1 & H2 & H3 & H4 & H5); [done|].
    apply tells_read with rs; try done. exists h. eapply reachable_step; [exact Hr|]. by eapply (RunLog.step_done flen wiped x r e fl bs m l).
  - apply tells_read with rs; cbn; unfold RunLog.Detach; rewrite ?Hkeep; try done.
    exists h. eapply reachable_step; [exact Hr|]. pose proof (RunLog.step_detach flen wiped x r e ltac:(done)) as Hd.
    unfold RunLog.with_wipe, RunLog.Detach in Hd. cbn in Hd. rewrite Hkeep in Hd by done. cbn in Hd. rewrite Hwipe in Hd by done. exact Hd.
  - apply tells_read with rs; try done. exists h. eapply reachable_step; [exact Hr|]. by apply (RunLog.step_hold flen wiped x).
  - apply tells_read with rs; cbn; unfold RunLog.release; rewrite ?Hkeep; try done.
    exists h. eapply reachable_step; [exact Hr|]. pose proof (RunLog.step_release flen wiped x) as Hd.
    unfold RunLog.with_wipe, RunLog.release in Hd. cbn in Hd. rewrite Hkeep in Hd by done. cbn in Hd. rewrite Hwipe in Hd by done. exact Hd.
Qed.
Lemma keepsUp_reader s rs es a y : keepsUp s rs es → reading a → RunLog.step flen wiped (RunLog.mkSys (mem s) (log s) rs [] false) a y →
  keepsUp (s <| mem := smem y |> <| log := slog y |>) (readers y) es.
Proof.
  intros (Hp & evs & Ht & Hs & Hsh) Ha Hst. split; [done|]. exists evs. split_and!; [by eapply tells_reader|done|done].
Qed.

(** The events emitted, in order. *)
Definition events (ops : list op) : list Event := t_event <$> emitted marshals ops.
Lemma keepsUp_step s rs ops o s' : keepsUp s rs (events ops) → step s o = Some s' → keepsUp s' rs (events (ops ++ [o])).
Proof.
  intros Hk. unfold events, emitted. rewrite omap_app, fmap_app. destruct o as [e at_ now|timer now]; cbn [Stream.step].
  - intros Hf%(keepsUp_frame _ _ _ _ _ _ _ Hk). cbn. by destruct (marshals e).
  - cbn. rewrite app_nil_r.
    assert (Hp : Stream.framePending UnixMilli RawValue marshals frameLen s now = Some s' → keepsUp s' rs (events ops)).
    { intros Hf. destruct (keepsUp_pending _ _ _ _ _ Hk Hf) as (Hn & evs & Ht & Hs & Hsh). split; [intros p; by rewrite Hn|].
      exists evs. split_and!; [done| |done]. unfold heldBack. by rewrite Hn, app_nil_r. }
    destruct (pending s) as [p|]; [destruct (Nat.eqb _ _)|]; [exact Hp|by intros [= <-]..].
Qed.
(** A stream as a run begins. *)
Definition begins (s : Stream) : Prop := mem s = RunLog.mkMem ∅ 0 ∧ log s = RunLog.newRunlog ∧ activities s = [] ∧ pending s = None.
Lemma served_keepsUp s0 ops s rs : begins s0 → served s0 ops s rs → keepsUp s rs (events ops).
Proof.
  intros (Hm & Hl & Ha & Hp). induction 1 as [|ops s rs o s' _ IH Hs|ops s rs a y _ IH Ha' Hy].
  - split; [intros p; by rewrite Hp|]. exists []. split_and!; [|unfold heldBack; by rewrite Hp|done].
    split; rewrite ?Hm, ?Hl, ?Ha; try done.
    + exists []. by apply reachable_init.
    + exists []. by split_and!; try constructor.
  - by eapply keepsUp_step.
  - by eapply keepsUp_reader.
Qed.

(** C20. What a client attaching late is sent says all the run has: whatever
    its stream emitted, held back and folded, however often, and whoever
    attached, read and left meanwhile, a read of the log from its start
    lends frames that are all there, and that say and show, to one that
    takes them in order, what the events emitted so far do, but for the text
    that is still held back.  What is said are the events other than a
    tool's activity, in their order, with deltas of one target in a row
    taken together; what is shown of each activity is its last snapshot with
    the patches since. *)
Theorem fold_replays s0 ops s rs :
  begins s0 → served s0 ops s rs →
  let '(_, (ck, fs, _)) := RunLog.Read (log s) 0 in
  ∃ es, Forall2 (λ b e, ∃ at_, cells (mem s) !! b = Some (Framed e at_)) (ck ++ fs) es ∧
    said (es ++ heldBack s) = said (events ops) ∧ ∀ id, shown id es = shown id (events ops).
Proof.
  intros Hb Hs. destruct (served_keepsUp _ _ _ _ Hb Hs) as (_ & evs & [_ _ Hba (cs & Hh & Hsaid & Hshown) _] & Hk & Hi).
  unfold RunLog.Read. cbn zeta. exists cs. split_and!; [|by rewrite said_app, Hsaid, <- said_app|intros id; by rewrite Hshown].
  assert (∀ es' cs', hold (mem s) es' cs' → Forall2 (λ b e, ∃ at_, cells (mem s) !! b = Some (Framed e at_)) (data <$> es') cs') as Hd.
  { induction 1 as [|e ev es' cs' [He _] _ IH]; by constructor. }
  apply Hd in Hh. rewrite fmap_app in Hh. case_bool_decide as Hz.
  - by rewrite Nat.sub_diag, drop_0.
  - rewrite Hba in Hh by lia. by rewrite drop_0.
Qed.
End Late.
End Late.

(** *** A run that folds twice, with a follower *)
Module Witness.
Import GoStd Chat Timeline Stream Late.

(** Frames of activities fill the log. *)
Definition sizeOf (e : Event) (_ : string) : Z := match e with ActivitySnapshot _ _ _ _ | ActivityDelta _ _ _ _ => Z.shiftl 40 20 | _ => 100 end.
Definition looking : ToolActivity := mkActivity "c1" "web_search" (QArith_base.Qmake 0 1) [].
Definition second (n : Z) : clock := mkClock "now" (n * 1000000000).
Definition ops1 : list op :=
  [Emit (TextChunk "m" "assistant" "a") "1000" (second 1); Emit (TextChunk "m" "assistant" "b") "2000" (second 2);
   Emit (TextChunk "m" "assistant" "c") "3000" (second 3); Emit (ActivitySnapshot "act_c1" "TOOL" looking None) "4000" (second 4);
   Emit (ActivityDelta "act_c1" "TOOL" [mkPatch "replace" "/progress" (PNumber (QArith_base.Qmake 1 2))] None) "5000" (second 5)].
Definition ops2 : list op := [Emit (TextChunk "m" "assistant" "d") "6000" (second 6); Emit (TextChunk "m" "assistant" "e") "6000" (second 6)].
Abbreviation run_ := (run plain_millis no_value every sizeOf).
Abbreviation served_ := (served plain_millis no_value every sizeOf).
Definition late1 : Stream (Er := string) := default a_stream (run_ a_stream ops1).
Definition late2 : Stream (Er := string) := late1 <| log ::= RunLog.Attach |>.
Definition late3 : Stream (Er := string) := default a_stream (run_ late2 ops2).
Lemma run_served (s0 : Stream (Er := string)) ops s rs ops' s' : served_ s0 ops s rs → run_ s ops' = Some s' → served_ s0 (ops ++ ops') s' rs.
Proof.
  revert ops s. induction ops' as [|o ops' IH]; intros ops s Hs; cbn [run]; [intros [= <-]; by rewrite app_nil_r|].
  destruct (step plain_millis no_value every sizeOf s o) as [s1|] eqn:H1; [|done]. cbn. intros Hr.
  rewrite cons_middle, app_assoc. eapply IH; [|exact Hr]. by eapply served_op.
Qed.
Lemma some_default {A} (d : A) o : bool_decide (is_Some o) = true → o = Some (default d o).
Proof. by destruct o. Qed.
Lemma attach_served (s0 : Stream (Er := string)) ops s rs r : served_ s0 ops s rs → rs !! r = None →
  served_ s0 ops (s <| log ::= RunLog.Attach |>) (<[r := RunLog.mkReader None true]> rs).
Proof.
  intros Hs Hr. pose proof (served_reader plain_millis no_value every sizeOf s0 ops s rs (RunLog.AAttach r) _ Hs I
    (RunLog.step_attach (flen sizeOf) (λ _, Wiped) (RunLog.mkSys (mem s) (log s) rs [] false) r Hr)) as H.
  by destruct s.
Qed.
Lemma late1_served : served_ a_stream ops1 late1 ∅.
Proof. apply (run_served _ [] _ _ _ _ (served_start _ _ _ _ _)). apply some_default. vm_compute. reflexivity. Qed.
Lemma late2_served : served_ a_stream ops1 late2 (<[0 := RunLog.mkReader None true]> ∅).
Proof. exact (attach_served _ _ _ _ 0 late1_served (lookup_empty 0)). Qed.
Lemma late3_served : served_ a_stream (ops1 ++ ops2) late3 (<[0 := RunLog.mkReader None true]> ∅).
Proof. apply (run_served _ _ _ _ _ _ late2_served). apply some_default. vm_compute. reflexivity. Qed.

Lemma fold_replays_witness :
  let '(_, (ck, fs, _)) := RunLog.Read (log late3) 0 in
  length ck = 3 ∧ length fs = 1 ∧
  ∃ es, Forall2 (λ b e, ∃ at_, RunLog.cells (mem late3) !! b = Some (Framed e at_)) (ck ++ fs) es ∧
    said (es ++ heldBack late3) = [TextChunk "m" "assistant" "abcde"] ∧
    shown "act_c1" es = Some (mkActivitySnapshot "act_c1" "TOOL" (mkActivity "c1" "web_search" (QArith_base.Qmake 1 2) []) None).
Proof.
  pose proof (fold_replays plain_millis no_value every sizeOf (λ _ _, eq_refl) (λ _ _ _ _, eq_refl) a_stream (ops1 ++ ops2) late3 _
    (conj eq_refl (conj eq_refl (conj eq_refl eq_refl))) late3_served) as H.
  assert (let '(_, (ck, fs, _)) := RunLog.Read (log late3) 0 in length ck = 3 ∧ length fs = 1) as Hl by (vm_compute; split; reflexivity).
  destruct (RunLog.Read (log late3) 0) as [l [[ck fs] n]]. destruct Hl as [Hc Hf]. split; [exact Hc|]. split; [exact Hf|].
  destruct H as (es & Hes & Hsaid & Hshown).
  exists es. split; [exact Hes|]. split; [exact Hsaid|]. rewrite Hshown. reflexivity.
Defined.
End Witness.
