(* ===== verification/Questions.v ===== *)
(** * Questions answered in place: internal/domain/questions.go

    The questions a widget asks, the answers the user gives them, and the
    answers a new message sends, with the check of widget arguments of
    internal/domain/widgets.go. *)

From S2P Require Import Prelude GoStd Chat.
From stdpp Require Import pretty.
Local Open Scope nat_scope.
Local Open Scope go_scope.

Module Questions.
Import GoStd Chat.

Definition QuestionsWidget : string := "render_questions".
Definition SingleSelection : string := "single".

Record question := mkQuestion { q_ID : string; q_Prompt : string; q_Selection : string; q_Options : list QuestionOption }.
Record questions := mkQuestions { qs_Title : string; qs_Questions : list question }.

(** Why a widget's arguments cannot be drawn. *)
Inductive readError :=
  | BadJSON
  | QuestionTwice (id : string)
  | OptionTwice (option question : string)
  | NotSchema (message : string).

Fixpoint checkOptions (question : string) (offered : gset string) (l : list QuestionOption) : option readError :=
  match l with
  | [] => None
  | o :: l => if bool_decide (o_ID o ∈ offered) then Some (OptionTwice (o_ID o) question)
              else checkOptions question ({[o_ID o]} ∪ offered) l
  end.
Fixpoint checkQuestions (asked : gset string) (l : list question) : option readError :=
  match l with
  | [] => None
  | q :: l =>
      if bool_decide (q_ID q ∈ asked) then Some (QuestionTwice (q_ID q))
      else match checkOptions (q_ID q) ∅ (q_Options q) with
           | Some e => Some e
           | None => checkQuestions ({[q_ID q]} ∪ asked) l
           end
  end.

Section Questions.
(** [json.Unmarshal] of a widget's arguments, as any value and as questions;
    a widget's resolved schema, which says what is wrong with a value; and
    the widgets the clients draw. *)
Context {J : Type} (Unmarshal : string → option J) (UnmarshalQuestions : string → option questions).

Record Widget := mkWidget { w_Name : string; w_Validate : J → option string }.
Context (WidgetCatalog : list Widget).

Definition readQuestions (arguments : string) : result readError questions :=
  match UnmarshalQuestions arguments with
  | None => Err BadJSON
  | Some q => match checkQuestions ∅ (qs_Questions q) with Some e => Err e | None => Ok q end
  end.

(** [WidgetFailure]: what is wrong, which its result tells the model. *)
Definition WidgetFailure (w : Widget) (args : string) : option readError :=
  match Unmarshal (if String.eqb args "" then "{}" else args) with
  | None => Some BadJSON
  | Some value =>
      match w_Validate w value with
      | Some e => Some (NotSchema e)
      | None => if String.eqb (w_Name w) QuestionsWidget
                then match readQuestions args with Err e => Some e | Ok _ => None end
                else None
      end
  end.

Definition drawn (w : Widget) (b : Block) : bool :=
  match WidgetFailure w (b_Arguments b) with None => true | Some _ => false end.

(** [CheckedWidgets] and [CheckWidgets]. *)
Definition checkedBlock (b : Block) : Block :=
  let b := b <| b_InvalidArguments := false |> in
  if negb (String.eqb (b_Type b) "tool_call") then b
  else foldl (λ b w, if String.eqb (w_Name w) (b_Name b) then b <| b_InvalidArguments := negb (drawn w b) |> else b)
         b WidgetCatalog.
Definition CheckedWidgets (timeline : slice Block) : slice Block := (λ l : list Block, checkedBlock <$> l) <$> timeline.
Definition CheckWidgets (t : Thread) : Thread :=
  t <| t_Messages ::= fmap (M := list) (λ m, m <| m_Timeline ::= CheckedWidgets |>) |>.

Definition answerableQuestions (b : Block) : option questions :=
  if negb (String.eqb (b_Type b) "tool_call") || negb (String.eqb (b_Name b) QuestionsWidget) then None
  else match List.find (λ w, String.eqb (w_Name w) QuestionsWidget && drawn w b) WidgetCatalog with
       | None => None
       | Some _ => match readQuestions (b_Arguments b) with Ok q => Some q | Err _ => None end
       end.

Definition errUnoffered : ApiError := mkApiError 409 "REVISION_CONFLICT" "The question no longer offers that option".
Definition errSingle : ApiError := mkApiError 400 "BAD_REQUEST" "A single-choice question takes one option".
Definition errNotReply : ApiError := mkApiError 400 "BAD_REQUEST" "Only a reply takes answers".
Definition errRemoved : ApiError := mkApiError 409 "REVISION_CONFLICT" "The widget was removed".
Definition errNoAnswers : ApiError := mkApiError 400 "BAD_REQUEST" "The widget takes no answers".
Definition errUnanswerable : ApiError := mkApiError 400 "BAD_REQUEST" "The widget's questions cannot be answered".
Definition errUnasked : ApiError := mkApiError 409 "REVISION_CONFLICT" "The widget no longer asks that question".

Definition contains (ids : list string) (id : string) : bool := bool_decide (id ∈ ids).

(** The options of a question that [ids] name, in its order. *)
Definition chosenOf (q : question) (ids : list string) : list QuestionOption :=
  List.filter (λ o, contains ids (o_ID o)) (q_Options q).

Definition picked (q : question) (ids : list string) : result ApiError (list string) :=
  let chosen := o_ID <$> chosenOf q ids in
  if negb (forallb (contains chosen) ids) then Err errUnoffered
  else if String.eqb (q_Selection q) SingleSelection && negb (Nat.eqb (length chosen) 1) then Err errSingle
  else Ok chosen.

(** The changes of a request, in the order its map gives them. *)
Definition changes := list (string * option (list string)).

Definition questionOf (asked : questions) (id : string) : option question :=
  List.find (λ q, String.eqb (q_ID q) id) (qs_Questions asked).

Fixpoint change (asked : questions) (answers : gmap string (list string)) (cs : changes)
    : result ApiError (gmap string (list string)) :=
  match cs with
  | [] => Ok answers
  | (id, ids) :: cs =>
      match questionOf asked id with
      | None => Err errUnasked
      | Some q =>
          match ids with
          | None => change asked (delete id answers) cs
          | Some ids => chosen ← picked q ids; change asked (<[id := chosen]> answers) cs
          end
      end
  end.

Definition isCall (callID : string) (b : Block) : bool :=
  String.eqb (b_Type b) "tool_call" && String.eqb (CallID b) callID.

Definition AnswerQuestions (m : Message) (callID : string) (cs : changes) : result ApiError Message :=
  if negb (String.eqb (m_Role m) "assistant") then Err errNotReply
  else
    let timeline := elems (m_Timeline m) in
    match IndexFunc (isCall callID) timeline ≫= λ i, b ← timeline !! i; Some (i, b) with
    | None => Err errRemoved
    | Some (i, block) =>
        if negb (String.eqb (b_Name block) QuestionsWidget) then Err errNoAnswers
        else match answerableQuestions block with
             | None => Err errUnanswerable
             | Some asked =>
                 answers ← change asked (b_Answers block) cs;
                 Ok (m <| m_Timeline := Some (<[i := block <| b_Answers := answers |>]> timeline) |>)
             end
    end.

Definition answeredOf (answers : gmap string (list string)) (q : question) : AnsweredQuestion :=
  mkAnswered (q_ID q) (q_Prompt q) (bool_decide (is_Some (answers !! q_ID q)))
    (chosenOf q (default [] (answers !! q_ID q))).
Definition answersOf (b : Block) : option WidgetAnswers :=
  asked ← answerableQuestions b;
  Some (mkAnswers (CallID b) (qs_Title asked) (answeredOf (b_Answers b) <$> qs_Questions asked)).

Definition picks (w : WidgetAnswers) : gmap string (list string) :=
  foldl (λ p q, if aq_Answered q then <[aq_ID q := o_ID <$> aq_Selected q]> p else p) ∅ (wa_Questions w).

Definition sentBy (sent : gmap string (gmap string (list string))) (m : Message)
    : gmap string (gmap string (list string)) :=
  foldl (λ s w, <[wa_ToolCallID w := picks w]> s) sent (elems (m_Answers m)).
Definition sentIn (messages : list Message) : gmap string (gmap string (list string)) := foldl sentBy ∅ messages.

Definition isReply (m : Message) : bool := String.eqb (m_Role m) "assistant".

(** The answers every questions widget of the replies holds now. *)
Definition current (messages : list Message) : list WidgetAnswers :=
  m ← messages; if isReply m then omap answersOf (elems (m_Timeline m)) else [].

Definition changed (sent : gmap string (gmap string (list string))) (w : WidgetAnswers) : bool :=
  negb (bool_decide (picks w = default ∅ (sent !! wa_ToolCallID w))).

Definition PendingAnswers (messages : list Message) : list WidgetAnswers :=
  List.filter (changed (sentIn messages)) (current messages).

Definition isQuestions (b : Block) : bool :=
  String.eqb (b_Type b) "tool_call" && String.eqb (b_Name b) QuestionsWidget.
Definition given (timeline : list Block) : gmap string (gmap string (list string)) :=
  foldl (λ g b, if isQuestions b then <[CallID b := b_Answers b]> g else g) ∅ timeline.
Definition KeepAnswers (m from : Message) : Message :=
  let given := given (elems (m_Timeline from)) in
  if bool_decide (given = ∅) then m
  else m <| m_Timeline ::= fmap (M := option) (fmap (M := list) (λ b,
         match given !! CallID b with
         | Some answers => if isQuestions b then b <| b_Answers := answers |> else b
         | None => b
         end)) |>.

Definition cat (l : list string) : string := foldr String.append "" l.
Definition nl : string := String "010"%char "".

Definition questionPrompt (i : nat) (q : AnsweredQuestion) : string :=
  let labels := (λ o, cat ["["; o_ID o; "] "; o_Label o]%string) <$> aq_Selected q in
  let answer := if negb (aq_Answered q) then "(not answered)"%string
                else if Nat.eqb (length labels) 0 then "(none selected)"%string else Join labels "; " in
  cat [nl; pretty (i + 1); ". "; aq_Prompt q; nl; "Answer: "; answer]%string.
Definition widgetPrompt (w : WidgetAnswers) : string :=
  cat ([nl; "The user's answers to the questions of "; QuestionsWidget; " call "; wa_ToolCallID w]%string ++
       (if String.eqb (wa_Title w) "" then [] else [" ("; wa_Title w; ")"]%string) ++ [":"%string] ++
       imap questionPrompt (wa_Questions w)).
Definition AnswersPrompt (answers : list WidgetAnswers) : string :=
  cat (["<question_answers>"%string] ++ (widgetPrompt <$> answers) ++ [nl; "</question_answers>"%string]).

(** ** Answering *)

Lemma picked_spec q ids :
  match picked q ids with
  | Ok chosen => chosen = o_ID <$> chosenOf q ids ∧
      (∀ id, id ∈ ids → id ∈ o_ID <$> q_Options q) ∧ (q_Selection q = SingleSelection → length chosen = 1)
  | Err e => e = errUnoffered ∧ (∃ id, id ∈ ids ∧ id ∉ o_ID <$> q_Options q) ∨
      e = errSingle ∧ q_Selection q = SingleSelection ∧ length (chosenOf q ids) ≠ 1
  end.
Proof.
  assert (Hin : ∀ id, id ∈ o_ID <$> chosenOf q ids ↔ id ∈ ids ∧ id ∈ o_ID <$> q_Options q).
  { intros id. unfold chosenOf. rewrite !list_elem_of_fmap. setoid_rewrite list_elem_of_In. setoid_rewrite List.filter_In.
    unfold contains. setoid_rewrite bool_decide_eq_true. setoid_rewrite <- list_elem_of_In. naive_solver. }
  unfold picked. destruct (forallb _ ids) eqn:Hall; cbn [negb].
  - destruct (String.eqb_spec (q_Selection q) SingleSelection) as [Hs|Hs]; cbn [andb].
    + destruct (Nat.eqb_spec (length (o_ID <$> chosenOf q ids)) 1) as [Hl|Hl]; cbn [negb].
      * split_and!; [done| |done]. intros id Hid. rewrite forallb_forall in Hall.
        specialize (Hall id (proj1 (list_elem_of_In _ _) Hid)). apply bool_decide_eq_true in Hall. by apply Hin.
      * right. by rewrite length_fmap in Hl.
    + split_and!; [done| |done]. intros id Hid. rewrite forallb_forall in Hall.
      specialize (Hall id (proj1 (list_elem_of_In _ _) Hid)). apply bool_decide_eq_true in Hall. by apply Hin.
  - left. split; [done|]. apply not_true_iff_false in Hall. rewrite forallb_forall in Hall.
    destruct (decide (Exists (λ id, id ∉ o_ID <$> q_Options q) ids)) as [He|He].
    + by apply Exists_exists in He.
    + exfalso. apply Hall. intros id Hid%list_elem_of_In. apply bool_decide_eq_true, Hin. split; [done|].
      destruct (decide (id ∈ o_ID <$> q_Options q)) as [|Hn]; [done|]. destruct He. apply Exists_exists. eauto.
Qed.

(** What a list of changes leaves of the answers. *)
Definition changeOf (cs : changes) (id : string) : option (option (list string)) :=
  snd <$> List.find (λ c, String.eqb c.1 id) cs.
Definition answered (asked : questions) (old : gmap string (list string)) (cs : changes) (id : string) : option (list string) :=
  match changeOf cs id with
  | None => old !! id
  | Some None => None
  | Some (Some ids) => q ← questionOf asked id; Some (o_ID <$> chosenOf q ids)
  end.

(** A change the questions take. *)
Definition takes (asked : questions) (c : string * option (list string)) : Prop :=
  ∃ q, questionOf asked c.1 = Some q ∧
    ∀ ids, c.2 = Some ids → (∀ id, id ∈ ids → id ∈ o_ID <$> q_Options q) ∧
      (q_Selection q = SingleSelection → length (chosenOf q ids) = 1).

(** Why one does not. *)
Inductive refuses (asked : questions) (c : string * option (list string)) : ApiError → Prop :=
  | refuses_unasked : questionOf asked c.1 = None → refuses asked c errUnasked
  | refuses_unoffered q ids id : questionOf asked c.1 = Some q → c.2 = Some ids →
      id ∈ ids → id ∉ o_ID <$> q_Options q → refuses asked c errUnoffered
  | refuses_single q ids : questionOf asked c.1 = Some q → c.2 = Some ids →
      q_Selection q = SingleSelection → length (chosenOf q ids) ≠ 1 → refuses asked c errSingle.

Lemma changeOf_none cs id : id ∉ cs.*1 → changeOf cs id = None.
Proof.
  unfold changeOf. induction cs as [|[k v] cs IH]; [done|]. cbn. intros Hn. apply not_elem_of_cons in Hn as [Hne Hn].
  destruct (String.eqb_spec k id) as [->|]; [done|]. by apply IH.
Qed.

Lemma change_spec asked old cs : NoDup cs.*1 →
  match change asked old cs with
  | Ok new => (∀ c, c ∈ cs → takes asked c) ∧ ∀ id, new !! id = answered asked old cs id
  | Err e => ∃ c, c ∈ cs ∧ refuses asked c e
  end.
Proof.
  revert old. induction cs as [|[id ids] cs IH]; intros old Hnd; cbn [change].
  { split; [by intros c ?%elem_of_nil|done]. }
  inversion_clear Hnd as [|? ? Hid Hnd']. cbn in Hid.
  destruct (questionOf asked id) as [q|] eqn:Hq.
  2: { exists (id, ids). split; [by left|]. by constructor. }
  assert (Hstep : ∀ new', (∀ k, new' !! k = if String.eqb id k then q ← Some q; (λ ids, o_ID <$> chosenOf q ids) <$> ids else old !! k) →
    takes asked (id, ids) →
    match change asked new' cs with
    | Ok new => (∀ c, c ∈ (id, ids) :: cs → takes asked c) ∧ ∀ k, new !! k = answered asked old ((id, ids) :: cs) k
    | Err e => ∃ c, c ∈ (id, ids) :: cs ∧ refuses asked c e
    end).
  { intros new' Hnew Ht. specialize (IH new' Hnd'). destruct (change asked new' cs) as [new|e].
    - destruct IH as [IH1 IH2]. split; [intros c [->|?]%elem_of_cons; [done|by apply IH1]|]. intros k. rewrite IH2.
      unfold answered at 2. unfold changeOf at 1. cbn [List.find fst].
      destruct (String.eqb_spec id k) as [<-|Hne].
      + cbn [fmap option_fmap option_map snd]. unfold answered. rewrite changeOf_none, Hnew, String.eqb_refl by done.
        cbn [mbind option_bind]. rewrite Hq. by destruct ids.
      + unfold answered, changeOf. rewrite Hnew. by rewrite (proj2 (String.eqb_neq _ _) Hne).
    - destruct IH as (c & Hc & Hr). exists c. split; [by right|done]. }
  destruct ids as [ids|].
  - pose proof (picked_spec q ids) as Hp. destruct (picked q ids) as [chosen|e]; cbn [mbind result_bind].
    + destruct Hp as (-> & Hoff & Hone). apply Hstep.
      * intros k. cbn. destruct (String.eqb_spec id k) as [<-|]; [by rewrite lookup_insert_eq|by rewrite lookup_insert_ne].
      * exists q. split; [done|]. intros ids' [= <-]. split; [done|]. intros Hs. rewrite <- (Hone Hs). by rewrite length_fmap.
    + exists (id, Some ids). split; [by left|]. destruct Hp as [[-> (x & ? & ?)]|(-> & ? & ?)].
      * by eapply (refuses_unoffered _ _ q ids x).
      * by eapply (refuses_single _ _ q ids).
  - apply Hstep.
    + intros k. cbn. destruct (String.eqb_spec id k) as [<-|]; [by rewrite lookup_delete_eq|by rewrite lookup_delete_ne].
    + exists q. split; [done|]. by intros ids' [=].
Qed.

(** The widget call that answers go to: the first block of its id. *)
Definition callBlockOf (m : Message) (callID : string) (i : nat) (b : Block) : Prop :=
  elems (m_Timeline m) !! i = Some b ∧ isCall callID b = true ∧
  ∀ j c, j < i → elems (m_Timeline m) !! j = Some c → isCall callID c = false.

Inductive refused (m : Message) (callID : string) (cs : changes) : ApiError → Prop :=
  | refused_role : m_Role m ≠ "assistant"%string → refused m callID cs errNotReply
  | refused_removed : (∀ b, b ∈ elems (m_Timeline m) → isCall callID b = false) → refused m callID cs errRemoved
  | refused_other i b : callBlockOf m callID i b → b_Name b ≠ QuestionsWidget → refused m callID cs errNoAnswers
  | refused_undrawn i b : callBlockOf m callID i b → answerableQuestions b = None → refused m callID cs errUnanswerable
  | refused_change i b asked c e : callBlockOf m callID i b → answerableQuestions b = Some asked →
      c ∈ cs → refuses asked c e → refused m callID cs e.

(** C36. The answers a user gives in a widget of a reply, each question
    named once: they are taken only when every change is one its question
    takes, naming options it offers and one where it is single; then the
    call's block alone changes, each question named having the options
    picked in the order it offers them, or none, and the others what they
    had; otherwise the error says what refused them, and nothing changed. *)
Theorem answers_changed m callID cs : NoDup cs.*1 →
  match AnswerQuestions m callID cs with
  | Ok m' => m_Role m = "assistant"%string ∧ ∃ i b asked new, callBlockOf m callID i b ∧
      answerableQuestions b = Some asked ∧ (∀ c, c ∈ cs → takes asked c) ∧
      m' = m <| m_Timeline := Some (<[i := b <| b_Answers := new |>]> (elems (m_Timeline m))) |> ∧
      ∀ id, new !! id = answered asked (b_Answers b) cs id
  | Err e => refused m callID cs e
  end.
Proof.
  intros Hnd. unfold AnswerQuestions. destruct (String.eqb_spec (m_Role m) "assistant") as [Hr|Hr]; cbn [negb];
    [|by apply refused_role].
  destruct (IndexFunc (isCall callID) (elems (m_Timeline m))) as [i|] eqn:Hi; cbn [mbind option_bind].
  2: { apply refused_removed. by apply IndexFunc_None. }
  apply IndexFunc_Some in Hi as (b & Hb & Hc & Hfirst). rewrite Hb. cbn [mbind option_bind].
  assert (Hcall : callBlockOf m callID i b) by done.
  destruct (String.eqb_spec (b_Name b) QuestionsWidget) as [Hn|Hn]; cbn [negb]; [|by eapply refused_other].
  destruct (answerableQuestions b) as [asked|] eqn:Ha; [|by eapply refused_undrawn].
  pose proof (change_spec asked (b_Answers b) cs Hnd) as H.
  destruct (change asked (b_Answers b) cs) as [new|e]; cbn [mbind result_bind].
  - destruct H as [H1 H2]. split; [done|]. exists i, b, asked, new. done.
  - destruct H as (c & ? & ?). by eapply refused_change.
Qed.

(** ** Sending *)

Lemma sentIn_app ms m : sentIn (ms ++ [m]) = sentBy (sentIn ms) m.
Proof. unfold sentIn. by rewrite foldl_app. Qed.
Lemma current_app ms1 ms2 : current (ms1 ++ ms2) = current ms1 ++ current ms2.
Proof. unfold current. apply bind_app. Qed.

(** The last answers of a call in a message win. *)
Lemma sentBy_other (sent : gmap string (gmap string (list string))) l id : id ∉ wa_ToolCallID <$> l →
  foldl (λ s w, <[wa_ToolCallID w := picks w]> s) sent l !! id = sent !! id.
Proof.
  revert sent. induction l as [|w l IH]; intros sent Hn; [done|]. cbn in Hn |- *. apply not_elem_of_cons in Hn as [? Hn].
  rewrite IH by done. by apply lookup_insert_ne.
Qed.
Lemma sentBy_own (sent : gmap string (gmap string (list string))) l w : NoDup (wa_ToolCallID <$> l) → w ∈ l →
  foldl (λ s w, <[wa_ToolCallID w := picks w]> s) sent l !! wa_ToolCallID w = Some (picks w).
Proof.
  revert sent. induction l as [|v l IH]; intros sent Hnd; [by intros ?%elem_of_nil|].
  cbn in Hnd |- *. apply NoDup_cons in Hnd as [Hv Hnd]. intros [->|Hw]%elem_of_cons; [|by apply IH].
  rewrite sentBy_other by done. apply lookup_insert_eq.
Qed.

Lemma filter_calls p (l : list WidgetAnswers) : NoDup (wa_ToolCallID <$> l) → NoDup (wa_ToolCallID <$> List.filter p l).
Proof.
  induction l as [|w l IH]; [done|]. cbn. intros [Hw Hnd]%NoDup_cons. destruct (p w); [|by apply IH].
  cbn. apply NoDup_cons. split; [|by apply IH]. intros (v & Hv & Hin)%list_elem_of_fmap. apply Hw.
  apply list_elem_of_In, List.filter_In in Hin as [Hin _]. apply list_elem_of_fmap. exists v. split; [done|].
  by apply list_elem_of_In.
Qed.

Lemma PendingAnswers_spec ms w : w ∈ PendingAnswers ms ↔ w ∈ current ms ∧ picks w ≠ default ∅ (sentIn ms !! wa_ToolCallID w).
Proof.
  unfold PendingAnswers. rewrite !list_elem_of_In, List.filter_In. unfold changed.
  by rewrite negb_true_iff, bool_decide_eq_false.
Qed.

(** A message sent with the answers pending leaves none to send, where
    no two widgets of the replies share a call id: it sends those of every
    widget whose answers differ from what was last sent of it, and no
    other. *)
Theorem answers_sent messages m :
  NoDup (wa_ToolCallID <$> current messages) →
  m_Role m ≠ "assistant"%string → elems (m_Answers m) = PendingAnswers messages →
  PendingAnswers (messages ++ [m]) = [] ∧
  (∀ w, w ∈ PendingAnswers messages ↔
     w ∈ current messages ∧ picks w ≠ default ∅ (sentIn messages !! wa_ToolCallID w)) ∧
  ∀ w, w ∈ current messages → default ∅ (sentIn (messages ++ [m]) !! wa_ToolCallID w) = picks w.
Proof.
  intros Hnd Hr Hm.
  assert (Hpicks : ∀ w, w ∈ current messages → default ∅ (sentIn (messages ++ [m]) !! wa_ToolCallID w) = picks w).
  { intros w Hw. rewrite sentIn_app. unfold sentBy. rewrite Hm.
    destruct (decide (picks w = default ∅ (sentIn messages !! wa_ToolCallID w))) as [Heq|Hne].
    - rewrite sentBy_other; [done|]. intros (v & Hv & Hin)%list_elem_of_fmap.
      apply PendingAnswers_spec in Hin as [Hin Hp].
      assert (v = w) as ->; [|done]. apply list_elem_of_lookup in Hw as [i Hi], Hin as [j Hj].
      assert (i = j) as ->; [|congruence].
      eapply (NoDup_lookup _ _ _ (wa_ToolCallID w) Hnd); rewrite list_lookup_fmap; [by rewrite Hi|by rewrite Hj, Hv].
    - rewrite (sentBy_own _ _ w); [done|by apply filter_calls|]. by apply PendingAnswers_spec. }
  split_and!; [|apply PendingAnswers_spec|exact Hpicks].
  assert (Hcur : current (messages ++ [m]) = current messages).
  { rewrite current_app. unfold current at 2. cbn. unfold isReply. by rewrite (proj2 (String.eqb_neq _ _) Hr), app_nil_r. }
  destruct (PendingAnswers (messages ++ [m])) as [|w l] eqn:Hp; [done|].
  assert (Hw : w ∈ PendingAnswers (messages ++ [m])) by (rewrite Hp; by left).
  apply PendingAnswers_spec in Hw as [Hin Hne]. rewrite Hcur in Hin. by rewrite Hpicks in Hne.
Qed.

(** ** A continued reply keeps the answers given while it ran *)

Lemma keep_given m from i b answers : elems (m_Timeline m) !! i = Some b → isQuestions b = true →
  given (elems (m_Timeline from)) !! CallID b = Some answers →
  elems (m_Timeline (KeepAnswers m from)) !! i = Some (b <| b_Answers := answers |>).
Proof.
  intros Hb Hq Hg. unfold KeepAnswers. rewrite bool_decide_false.
  - cbn. destruct (m_Timeline m) as [l|]; [|by destruct i]. cbn in Hb |- *. rewrite list_lookup_fmap, Hb. cbn.
    by rewrite Hg, Hq.
  - intros He. by rewrite He, lookup_empty in Hg.
Qed.
End Questions.

(** One widget that asks for a fruit, of the two it offers. *)
Definition fruit : questions :=
  mkQuestions "Pick" [mkQuestion "q1" "Which?" "single" [mkOption "a" "Apple"; mkOption "b" "Pear"]].
Definition read_fruit (s : string) : option questions := if String.eqb s "fruit" then Some fruit else None.
Definition fruit_catalog : list (Widget (J := unit)) := [mkWidget QuestionsWidget (λ _, None)].
Definition fruit_reply : Message :=
  noMessage <| m_ID := "m" |> <| m_Role := "assistant" |> <| m_Timeline := Some
    [noBlock <| b_Type := "tool_call" |> <| b_ID := "c1" |> <| b_Name := QuestionsWidget |> <| b_Arguments := "fruit" |>] |>.

Example fruit_prompt : AnswersPrompt [mkAnswers "c1" "" [mkAnswered "q1" "Which?" true [mkOption "b" "Pear"]]] =
  cat ["<question_answers>"; nl; "The user's answers to the questions of render_questions call c1:"; nl;
       "1. Which?"; nl; "Answer: [b] Pear"; nl; "</question_answers>"]%string.
Proof. reflexivity. Qed.

Lemma answers_changed_witness :
  ∃ m' b', AnswerQuestions (λ _, Some tt) read_fruit fruit_catalog fruit_reply "c1" [("q1", Some ["b"])]%string = Ok m' ∧
    elems (m_Timeline m') = [b'] ∧ b_Answers b' !! "q1"%string = Some ["b"]%string ∧
    takes fruit ("q1", Some ["b"])%string.
Proof.
  pose proof (answers_changed (λ _, Some tt) read_fruit fruit_catalog fruit_reply "c1" [("q1", Some ["b"])]%string
    (NoDup_singleton _)) as H.
  destruct (AnswerQuestions (λ _, Some tt) read_fruit fruit_catalog fruit_reply "c1" [("q1", Some ["b"])]%string)
    as [m'|e] eqn:He; [|discriminate].
  destruct H as (_ & i & b & asked & new & (Hb & _ & _) & Ha & Ht & Hm & Hnew).
  destruct i as [|i]; [|destruct i; discriminate]. injection Hb as <-. injection Ha as <-.
  eexists m', _. split; [reflexivity|]. split; [rewrite Hm; reflexivity|]. split; [rewrite Hnew; reflexivity|].
  apply Ht. by left.
Defined.

Lemma answers_sent_witness :
  let answered := fruit_reply <| m_Timeline ::= fmap (M := option) (fmap (M := list)
                    (λ b, b <| b_Answers := {["q1" := ["a"]]}%string |>)) |> in
  let pending := PendingAnswers (λ _, Some tt) read_fruit fruit_catalog in
  let m := noMessage <| m_Role := "user" |> <| m_Answers := Some (pending [answered]) |> in
  length (pending [answered]) = 1 ∧ pending ([answered] ++ [m]) = [].
Proof.
  cbn zeta. split; [reflexivity|].
  apply (answers_sent (λ _, Some tt) read_fruit fruit_catalog); [apply NoDup_singleton|discriminate|reflexivity].
Defined.
End Questions.
