(* ===== verification/Reseal.v ===== *)
(** * Rows brought under the current key: internal/store/reseal.go and
    rewrap.go

    A reseal walks each scope's rows left to reseal, a page at a time, opens
    each with whichever key seals it and seals it again under the current
    one, moving the attachments a chat embeds keys for into buckets.  The
    control plane and the buckets are an arbitrary world that answers. *)

From S2P Require Import Prelude GoStd Codec Aad Seal.

Module Reseal.
Import GoStd Codec Aad.

(** ** What the store calls *)

(** [controlplane.Error] by what is read of it, the errors a legacy
    attachment's download tells apart, errors joined, and the rest. *)
Inductive err :=
  | ECp (StatusCode : Z) (Code : string)
  | ENotFound
  | EGone
  | EJoin (l : list err)
  | EOther.

(** [errors.As] a control plane error. *)
Fixpoint asCp (e : err) : option (Z * string) :=
  match e with
  | ECp s c => Some (s, c)
  | EJoin l => (fix first l := match l with
                               | [] => None
                               | e :: l => match asCp e with Some x => Some x | None => first l end
                               end) l
  | _ => None
  end.
Definition IsCode (e : err) (code : string) : bool :=
  match asCp e with Some (_, c) => String.eqb c code | None => false end.
Definition StatusStaleBlob : string := "STALE_BLOB".
Definition RewrapPath : string := "/api/sync/rewrap".

Record Blob := mkBlob { Ciphertext : bytes; b_KeyID : string; ETag : string }.
Record ListNeedsMigrationResponse := mkListing { IDs : list string; RetryableRemaining : Z; BlockedUnmigrated : Z }.
Record PutBlobRequest := mkPut {
  p_Scope : string;
  p_ID : string;
  p_ClerkUserID : string;
  p_KeyIDHex : string;
  p_IfMatch : string;
  p_IdempotencyKey : string;
  p_Rewrap : bool;
  p_Ciphertext : bytes;
  p_OperationHash : string;
}.

(** The world a reseal acts on: the context, the control plane, the buckets
    and the random bytes drawn.  Each call answers and leaves the world it
    leaves. *)
Record World := mkWorld {
  W : Type;
  ended : W → bool; (* [ctx.Err() != nil] *)
  ListNeedsMigration : W → string → Z → W * result err ListNeedsMigrationResponse;
  RecordMigrationFailure : W → string → string → W;
  GetBlob : W → string → string → W * result err Blob;
  PutBlob : W → PutBlobRequest → W * result err string;
  GetLegacyAttachment : W → string → W * result err bytes;
  RegisterAttachmentIndex : W → string → string → W * result err unit;
  Configured : bool;
  BucketsPut : W → string → string → bytes → bytes → W * result err unit;
  draw : W → W * (bytes * bytes * bytes);
}.

Definition resealPageSize : Z := 200.
Definition resealAttempts : nat := 3.
Definition legacyAttachmentKeySize : nat := 32.
Definition resealScopes : list string := [ScopeProfile; ScopeChat; ScopeProject; ScopeProjectDocument].

Record ResealReport := mkReport { Migrated : Z; Remaining : Z; Blocked : Z; Partial : bool }.

Inductive resealOutcome := resealed | resealBlocked | resealStopped.

Definition aadID (scope id : string) : string := if String.eqb scope "profile" then ProfileSingletonID else id.

Definition credentialRefused (e : err) : bool :=
  match asCp e with Some (s, _) => bool_decide (s = 401 ∨ s = 403)%Z | None => false end.

Section Reseal.
Context `{CR : Seal.Crypto} `{JS : Seal.Json} `{MC : Mac}.
(** A chat's first JSON value, its objects' members by unique names, and
    its text again. *)
Context (DecodeMap : bytes → option Seal.doc) (Marshal : Seal.doc → bytes).
Context (wd : World) (owner : string).
Notation Wd := (W wd).

(** ** Legacy attachments *)

Definition openLegacyAttachment (blob key : bytes) : result err bytes :=
  if bool_decide (length blob < Seal.NonceSize) then Err EOther
  else match Seal.GCMOpen key (take Seal.NonceSize blob) (drop Seal.NonceSize blob) [] with
       | Ok p => Ok p
       | Err _ => Err EOther
       end.

Definition promoteAttachment (w : Wd) (chatID attID legacyKeyB64 : string) : Wd * result err unit :=
  if negb (Configured wd) then (w, Err EOther)
  else
    let '(w, got) := GetLegacyAttachment wd w attID in
    match got with
    | Err ENotFound | Err EGone => (w, Ok tt)
    | Err e => (w, Err e)
    | Ok ciphertext =>
        match Decode64 StdEncoding legacyKeyB64 with
        | None => (w, Err EOther)
        | Some legacyKey =>
            if negb (bool_decide (length legacyKey = legacyAttachmentKeySize)) then (w, Err EOther)
            else
              match openLegacyAttachment ciphertext legacyKey with
              | Err e => (w, Err e)
              | Ok plaintext =>
                  let '(w, put) := BucketsPut wd w owner attID plaintext legacyKey in
                  match put with
                  | Err e => (w, Err e)
                  | Ok _ => RegisterAttachmentIndex wd w attID chatID
                  end
              end
        end
    end.

Definition member (ms : list (string * Seal.doc)) (name : string) : option Seal.doc :=
  snd <$> List.find (λ m, String.eqb m.1 name) ms.
Definition str (d : option Seal.doc) : string := match d with Some (Seal.DStr s) => s | _ => "" end.
Definition setMember (ms : list (string * Seal.doc)) (name : string) (d : Seal.doc) : list (string * Seal.doc) :=
  match member ms name with
  | Some _ => (λ m, if String.eqb m.1 name then (m.1, d) else m) <$> ms
  | None => ms ++ [(name, d)]
  end.

(** What one attachment comes to: the attachment, its failure, and whether
    its key was copied. *)
Definition walkAttachment (w : Wd) (chatID : string) (a : Seal.doc) : Wd * (Seal.doc * list err * bool) :=
  match a with
  | Seal.DObj ms =>
      if negb (String.eqb (str (member ms "type")) "image") then (w, (a, [], false))
      else
        let rawID := str (member ms "id") in
        let enc := str (member ms "encryptionKey") in
        let legacy := String.eqb enc "" && negb (String.eqb (str (member ms "key")) "") in
        let rawKey := if String.eqb enc "" then str (member ms "key") else enc in
        if String.eqb rawID "" || String.eqb rawKey "" then (w, (a, [], false))
        else
          let '(w, r) := promoteAttachment w chatID rawID rawKey in
          match r with
          | Err e => (w, (a, [e], false))
          | Ok _ => if legacy then (w, (Seal.DObj (setMember ms "encryptionKey" (Seal.DStr rawKey)), [], true))
                    else (w, (a, [], false))
          end
  | _ => (w, (a, [], false))
  end.

Fixpoint walkList (one : Wd → Seal.doc → Wd * (Seal.doc * list err * bool)) (w : Wd) (l : list Seal.doc)
    : Wd * (list Seal.doc * list err * bool) :=
  match l with
  | [] => (w, ([], [], false))
  | d :: l =>
      let '(w, (d', f1, n1)) := one w d in
      let '(w, (l', f2, n2)) := walkList one w l in
      (w, (d' :: l', f1 ++ f2, n1 || n2))
  end.

Definition walkMessage (chatID : string) (w : Wd) (m : Seal.doc) : Wd * (Seal.doc * list err * bool) :=
  match m with
  | Seal.DObj ms =>
      match member ms "attachments" with
      | Some (Seal.DArr atts) =>
          let '(w, (atts', f, n)) := walkList (λ w a, walkAttachment w chatID a) w atts in
          (w, (Seal.DObj (setMember ms "attachments" (Seal.DArr atts')), f, n))
      | _ => (w, (m, [], false))
      end
  | _ => (w, (m, [], false))
  end.

Definition rewrapChatAttachments (w : Wd) (chatID : string) (plaintext : bytes) : Wd * result err (option bytes) :=
  match DecodeMap plaintext with
  | Some (Seal.DObj ms) =>
      match member ms "messages" with
      | Some (Seal.DArr messages) =>
          let '(w, (messages', failures, normalized)) := walkList (walkMessage chatID) w messages in
          match failures with
          | _ :: _ => (w, Err (EJoin failures))
          | [] => (w, Ok (if normalized : bool
                          then Some (Marshal (Seal.DObj (setMember ms "messages" (Seal.DArr messages')))) else None))
          end
      | _ => (w, Ok None)
      end
  | _ => (w, Ok None)
  end.

(** ** One row *)

Definition from_seal {E A} (r : result E A) : result err A := match r with Ok a => Ok a | Err _ => Err EOther end.

(** What is sealed of a row, and the request that writes it back. *)
Definition rewrapRequest (scope id : string) (sealed : bytes) (priorETag : string) (target : Seal.Key)
    (random : bytes * bytes * bytes) : result err PutBlobRequest :=
  let key := Seal.Bytes target in
  let kidHex := Seal.k_KeyIDHex target in
  let aad := mkAAD kidHex scope (aadID scope id) owner in
  payloadAAD ← from_seal (CanonicalPayloadAAD aad);
  envelope ← from_seal (Seal.Encrypt key sealed aad random.1.1 random.1.2 random.2);
  let nonce := String.append "rewrap:" (String.append kidHex (String.append ":" (String.append id (String.append ":" priorETag)))) in
  opKey ← from_seal (DeriveOpHashKey key);
  Ok (mkPut scope id owner kidHex priorETag nonce true envelope
        (ComputeOperationHash opKey (mkInput "POST" RewrapPath kidHex priorETag nonce sealed (Some payloadAAD) None ""))).

Definition rewrapRow (w : Wd) (scope id : string) (plaintext : bytes) (priorETag : string) (target : Seal.Key)
    : Wd * result err string :=
  let '(w, sealed) := if String.eqb scope "chat"
                      then let '(w, r) := rewrapChatAttachments w id plaintext in (w, default plaintext <$> r)
                      else (w, Ok plaintext) in
  match sealed with
  | Err e => (w, Err e)
  | Ok sealed =>
      let '(w, random) := draw wd w in
      match rewrapRequest scope id sealed priorETag target random with
      | Err e => (w, Err e)
      | Ok request => PutBlob wd w request
      end
  end.

Definition openRow (ciphertext : bytes) (keys : list Seal.Key) (scope id : string) : option bytes :=
  let plain r := match r with Ok d => Some (Seal.Plaintext d) | Err _ => None end in
  match Seal.Detect ciphertext with
  | Seal.VersionV2 => plain (Seal.DecryptV2 ciphertext keys (mkAAD "" scope (aadID scope id) owner))
  | Seal.VersionV0 | Seal.VersionV1 => plain (Seal.DecryptLegacy ciphertext keys)
  | Seal.VersionUnknown => None
  end.

Definition resealFailure (w : Wd) (e : err) : resealOutcome :=
  if ended wd w || credentialRefused e then resealStopped else resealBlocked.

Fixpoint resealTries (attempts : nat) (w : Wd) (scope id : string) (keys : list Seal.Key) (target : Seal.Key)
    : Wd * resealOutcome :=
  match attempts with
  | 0 => (w, resealBlocked)
  | S attempts =>
      let '(w, blob) := GetBlob wd w scope id in
      match blob with
      | Err e => (w, resealFailure w e)
      | Ok blob =>
          if bool_decide (Seal.Detect (Ciphertext blob) = Seal.VersionV2) &&
             String.eqb (b_KeyID blob) (Seal.k_KeyIDHex target) then (w, resealed)
          else
            match openRow (Ciphertext blob) keys scope id with
            | None => (w, resealBlocked)
            | Some plaintext =>
                let '(w, r) := rewrapRow w scope id plaintext (ETag blob) target in
                match r with
                | Ok _ => (w, resealed)
                | Err e => if IsCode e StatusStaleBlob then resealTries attempts w scope id keys target
                           else (w, resealFailure w e)
                end
            end
      end
  end.
Definition resealOne (w : Wd) (scope id : string) (keys : list Seal.Key) (target : Seal.Key) : Wd * resealOutcome :=
  resealTries resealAttempts w scope id keys target.

(** ** Pages and scopes *)

Record resealedPage := mkResealed { rp_migrated : Z; rp_blocked : Z; rp_stopped : bool }.
#[global] Instance resealedPage_eta : Eta resealedPage := λ p,
  mkResealed (rp_migrated p) (rp_blocked p) (rp_stopped p).

Fixpoint resealPage (w : Wd) (page : resealedPage) (scope : string) (ids : list string) (keys : list Seal.Key)
    (target : Seal.Key) : Wd * resealedPage :=
  match ids with
  | [] => (w, page)
  | id :: ids =>
      if ended wd w then (w, page <| rp_stopped := true |>)
      else
        let '(w, outcome) := resealOne w scope id keys target in
        match outcome with
        | resealed => resealPage w (page <| rp_migrated ::= Z.succ |>) scope ids keys target
        | resealBlocked =>
            if ended wd w then (w, page <| rp_stopped := true |>)
            else resealPage (RecordMigrationFailure wd w scope id) (page <| rp_blocked ::= Z.succ |>) scope ids keys target
        | resealStopped => (w, page <| rp_stopped := true |>)
        end
  end.

(** What a scope's pages came to: the rows resealed, the last page's counts,
    and whether the walk was cut short. *)
Record walk := mkWalk { wk_migrated : Z; wk_remaining : Z; wk_blocked : Z; wk_cut : bool }.

(** [None] is out of fuel, a [for] that has not ended; an error ends the
    job. *)
Fixpoint resealPages (fuel : nat) (w : Wd) (s : walk) (scope : string) (keys : list Seal.Key) (target : Seal.Key)
    : option (Wd * result err walk) :=
  match fuel with
  | 0 => None
  | S fuel =>
      let cutShort (s : walk) := mkWalk (wk_migrated s) (wk_remaining s) (wk_blocked s) true in
      if ended wd w then Some (w, Ok (cutShort s))
      else
        let '(w, list) := ListNeedsMigration wd w scope resealPageSize in
        match list with
        | Err e => if ended wd w || credentialRefused e then Some (w, Ok (cutShort s)) else Some (w, Err e)
        | Ok list =>
            let '(w, page) := resealPage w (mkResealed 0 0 false) scope (IDs list) keys target in
            let remaining := (0 `max` (RetryableRemaining list - rp_migrated page - rp_blocked page))%Z in
            let s := mkWalk (wk_migrated s + rp_migrated page) remaining (BlockedUnmigrated list + rp_blocked page) false in
            if rp_stopped page then Some (w, Ok (cutShort s))
            else if bool_decide (rp_migrated page = 0%Z) || bool_decide (remaining = 0%Z) then Some (w, Ok s)
            else resealPages fuel w s scope keys target
        end
  end.

Fixpoint resealAll (fuel : nat) (w : Wd) (out : ResealReport) (scopes : list string) (keys : list Seal.Key)
    (target : Seal.Key) : option (Wd * result err ResealReport) :=
  match scopes with
  | [] => Some (w, Ok out)
  | scope :: scopes =>
      '(w, r) ← resealPages fuel w (mkWalk 0 0 0 false) scope keys target;
      match r with
      | Err e => Some (w, Err e)
      | Ok s =>
          let out := mkReport (Migrated out + wk_migrated s) (Remaining out + wk_remaining s)
                       (Blocked out + wk_blocked s) (wk_cut s) in
          if wk_cut s then Some (w, Ok out) else resealAll fuel w out scopes keys target
      end
  end.
Definition reseal (fuel : nat) (w : Wd) (keys : list Seal.Key) (target : Seal.Key) : option (Wd * result err ResealReport) :=
  resealAll fuel w (mkReport 0 0 0 false) resealScopes keys target.

(** ** A reseal ends with its context *)

Section Ends.
(** The calls a context still has time for: each call takes some, and the
    context has ended once none is left. *)
Context (left : Wd → nat).
Hypothesis left_ended : ∀ w, left w = 0 → ended wd w = true.
Hypothesis listing_left : ∀ w scope n, left (ListNeedsMigration wd w scope n).1 ≤ pred (left w).
Hypothesis record_left : ∀ w scope id, left (RecordMigrationFailure wd w scope id) ≤ pred (left w).
Hypothesis get_left : ∀ w scope id, left (GetBlob wd w scope id).1 ≤ pred (left w).
Hypothesis put_left : ∀ w r, left (PutBlob wd w r).1 ≤ pred (left w).
Hypothesis legacy_left : ∀ w id, left (GetLegacyAttachment wd w id).1 ≤ pred (left w).
Hypothesis register_left : ∀ w id chat, left (RegisterAttachmentIndex wd w id chat).1 ≤ pred (left w).
Hypothesis buckets_left : ∀ w o id p k, left (BucketsPut wd w o id p k).1 ≤ pred (left w).
Hypothesis draw_left : ∀ w, left (draw wd w).1 ≤ left w.

(** Takes a call apart and keeps what it leaves. *)
Ltac call H := match type of H with _ (fst ?c) ≤ _ => destruct c; cbn [fst] in H end.

Lemma promote_left w c id k : left (promoteAttachment w c id k).1 ≤ left w.
Proof.
  unfold promoteAttachment. destruct (negb _); [cbn; lia|]. pose proof (legacy_left w id) as H. call H.
  destruct r as [ct|[]]; cbn [fst]; try lia. destruct (Decode64 _ _) as [lk|]; [|cbn; lia]. destruct (negb _); [cbn; lia|].
  destruct (openLegacyAttachment _ _) as [p|]; [|cbn; lia]. pose proof (buckets_left w0 owner id p lk) as H'. call H'.
  destruct r; [|cbn; lia]. pose proof (register_left w1 id c). lia.
Qed.

Lemma walkAttachment_left w c a : left (walkAttachment w c a).1 ≤ left w.
Proof.
  unfold walkAttachment. destruct a; try (cbn; lia). destruct (negb _); [cbn; lia|]. destruct (_ || _); [cbn; lia|].
  pose proof (promote_left w c (str (member ms "id"))
    (if String.eqb (str (member ms "encryptionKey")) "" then str (member ms "key") else str (member ms "encryptionKey"))) as H.
  call H. destruct r; [destruct (_ && _)|]; cbn; lia.
Qed.

Lemma walkList_left one w l : (∀ w d, left (one w d).1 ≤ left w) → left (walkList one w l).1 ≤ left w.
Proof.
  intros Hone. revert w. induction l as [|d l IH]; intros w; [cbn; lia|]. cbn [walkList].
  pose proof (Hone w d) as H. destruct (one w d) as [w1 [[d' f1] n1]]. cbn [fst] in H.
  pose proof (IH w1) as H'. destruct (walkList one w1 l) as [w2 [[l' f2] n2]]. cbn [fst] in *. lia.
Qed.

Lemma walkMessage_left c w m : left (walkMessage c w m).1 ≤ left w.
Proof.
  unfold walkMessage. destruct m; try (cbn; lia). destruct (member ms "attachments") as [[]|]; try (cbn; lia).
  pose proof (walkList_left (λ w a, walkAttachment w c a) w l (λ w d, walkAttachment_left w c d)) as H.
  destruct (walkList _ w l) as [w1 [[l' f] n]]. cbn [fst] in *. lia.
Qed.

Lemma rewrapChat_left w c p : left (rewrapChatAttachments w c p).1 ≤ left w.
Proof.
  unfold rewrapChatAttachments. destruct (DecodeMap p) as [[]|]; try (cbn; lia).
  destruct (member ms "messages") as [[]|]; try (cbn; lia).
  pose proof (walkList_left (walkMessage c) w l (walkMessage_left c)) as H.
  destruct (walkList _ w l) as [w1 [[l' f] n]]. cbn [fst] in H. destruct f; cbn; lia.
Qed.

Lemma rewrapRow_left w scope id p etag target : left (rewrapRow w scope id p etag target).1 ≤ left w.
Proof.
  unfold rewrapRow.
  assert (H : left (if String.eqb scope "chat"
                    then let '(w, r) := rewrapChatAttachments w id p in (w, default p <$> r) else (w, Ok p)).1 ≤ left w).
  { destruct (String.eqb scope "chat"); [|done]. pose proof (rewrapChat_left w id p) as H. call H. done. }
  call H. destruct r as [sealed|]; [|done]. pose proof (draw_left w0) as H'. call H'.
  destruct (rewrapRequest _ _ _ _ _ _) as [r|]; [|cbn; lia]. pose proof (put_left w1 r). lia.
Qed.

Lemma resealTries_left n w scope id keys target : left (resealTries n w scope id keys target).1 ≤ left w.
Proof.
  revert w. induction n as [|n IH]; intros w; [done|]. cbn [resealTries].
  pose proof (get_left w scope id) as H. call H. destruct r as [blob|]; [|cbn; lia]. destruct (_ && _); [cbn; lia|].
  destruct (openRow _ _ _ _) as [p|]; [|cbn; lia].
  pose proof (rewrapRow_left w0 scope id p (ETag blob) target) as H'. call H'.
  destruct r as [|e]; [cbn; lia|]. destruct (IsCode e StatusStaleBlob); [|cbn; lia]. pose proof (IH w1). lia.
Qed.

Lemma resealPage_left w page scope ids keys target : left (resealPage w page scope ids keys target).1 ≤ left w.
Proof.
  revert w page. induction ids as [|id ids IH]; intros w page; [done|]. cbn [resealPage].
  destruct (ended wd w); [done|]. pose proof (resealTries_left resealAttempts w scope id keys target) as H.
  unfold resealOne. call H. destruct r.
  - etrans; [apply IH|done].
  - destruct (ended wd w0); [done|]. etrans; [apply IH|]. pose proof (record_left w0 scope id). lia.
  - done.
Qed.

(** The pages of one scope end, and more fuel than calls changes nothing. *)
Lemma resealPages_ends w s scope keys target : ∃ w' r, left w' ≤ left w ∧
  ∀ fuel, left w < fuel → resealPages fuel w s scope keys target = Some (w', r).
Proof.
  remember (left w) as n eqn:Hn. revert w s Hn. induction n as [n IH] using lt_wf_ind. intros w s ->.
  destruct (ended wd w) eqn:He.
  { eexists w, _. split; [lia|]. intros [|fuel] Hf; [lia|]. cbn [resealPages]. by rewrite He. }
  assert (Hpos : left w ≠ 0) by (intros H0; apply left_ended in H0; congruence).
  pose proof (listing_left w scope resealPageSize) as Hl.
  destruct (ListNeedsMigration wd w scope resealPageSize) as [w1 [list|e]] eqn:Hlist; cbn [fst] in Hl.
  2: { destruct (ended wd w1 || credentialRefused e) eqn:Hr; (eexists w1, _; split; [lia|]);
       intros [|fuel] Hf; try lia; cbn [resealPages]; rewrite He, Hlist, Hr; done. }
  pose proof (resealPage_left w1 (mkResealed 0 0 false) scope (IDs list) keys target) as Hp.
  destruct (resealPage w1 _ scope (IDs list) keys target) as [w2 page] eqn:Hpage. cbn [fst] in Hp.
  set (remaining := (0 `max` (RetryableRemaining list - rp_migrated page - rp_blocked page))%Z).
  set (s' := mkWalk (wk_migrated s + rp_migrated page) remaining (BlockedUnmigrated list + rp_blocked page) false).
  destruct (rp_stopped page) eqn:Hstop; [|destruct (bool_decide (rp_migrated page = 0%Z) || bool_decide (remaining = 0%Z)) eqn:Hdone].
  - eexists w2, _. split; [lia|]. intros [|fuel] Hf; [lia|]. cbn [resealPages]. by rewrite He, Hlist, Hpage, Hstop.
  - eexists w2, _. split; [lia|]. intros [|fuel] Hf; [lia|]. cbn [resealPages]. rewrite He, Hlist, Hpage, Hstop.
    fold remaining. fold s'. by rewrite Hdone.
  - destruct (IH (left w2) ltac:(lia) w2 s' eq_refl) as (w' & r & Hw' & Hr). exists w', r. split; [lia|].
    intros [|fuel] Hf; [lia|]. cbn [resealPages]. rewrite He, Hlist, Hpage, Hstop. fold remaining. fold s'. rewrite Hdone.
    apply Hr. lia.
Qed.

Lemma resealAll_ends w out scopes keys target : ∃ w' r,
  ∀ fuel, left w < fuel → resealAll fuel w out scopes keys target = Some (w', r).
Proof.
  revert w out. induction scopes as [|scope scopes IH]; intros w out; [by exists w, (Ok out)|]. cbn [resealAll].
  destruct (resealPages_ends w (mkWalk 0 0 0 false) scope keys target) as (w1 & r & Hw1 & Hr).
  destruct r as [s|e].
  2: { exists w1, (Err e). intros fuel Hf. by rewrite Hr. }
  destruct (wk_cut s) eqn:Hcut.
  - eexists w1, _. intros fuel Hf. rewrite Hr by done. cbn [mbind option_bind]. by rewrite Hcut.
  - destruct (IH w1 (mkReport (Migrated out + wk_migrated s) (Remaining out + wk_remaining s)
      (Blocked out + wk_blocked s) (wk_cut s))) as (w' & r & Hr'). exists w', r. intros fuel Hf.
    rewrite Hr by done. cbn [mbind option_bind]. rewrite Hcut. rewrite <- Hr' with fuel by lia. by rewrite Hcut.
Qed.
End Ends.

Definition sound_walk (s : walk) : Prop := (0 ≤ wk_migrated s ∧ 0 ≤ wk_remaining s)%Z.
Definition sound_report (r : ResealReport) : Prop := (0 ≤ Migrated r ∧ 0 ≤ Remaining r)%Z.

Lemma resealPage_sound w page scope ids keys target : (0 ≤ rp_migrated page)%Z →
  (0 ≤ rp_migrated (resealPage w page scope ids keys target).2)%Z.
Proof.
  revert w page. induction ids as [|id ids IH]; intros w page Hp; [done|]. cbn [resealPage].
  destruct (ended wd w); [done|]. destruct (resealOne w scope id keys target) as [w1 []]; [|destruct (ended wd w1)|]; try done.
  - apply IH. cbn. lia.
  - apply IH. done.
Qed.

Lemma resealPages_sound fuel w s scope keys target w' s' : sound_walk s →
  resealPages fuel w s scope keys target = Some (w', Ok s') → sound_walk s'.
Proof.
  revert w s. induction fuel as [|fuel IH]; intros w s Hs; [done|]. cbn [resealPages].
  destruct (ended wd w); [by intros [= <- <-]|].
  destruct (ListNeedsMigration _ _ _ _) as [w1 [list|e]]; [|destruct (_ || _); [by intros [= <- <-]|done]].
  pose proof (resealPage_sound w1 (mkResealed 0 0 false) scope (IDs list) keys target ltac:(done)) as Hp.
  destruct (resealPage _ _ _ _ _ _) as [w2 page]. cbn [snd] in Hp.
  assert (Hs' : sound_walk (mkWalk (wk_migrated s + rp_migrated page)
    (0 `max` (RetryableRemaining list - rp_migrated page - rp_blocked page)) (BlockedUnmigrated list + rp_blocked page) false)).
  { unfold sound_walk in *. cbn. lia. }
  destruct (rp_stopped page); [by intros [= <- <-]|]. destruct (_ || _); [by intros [= <- <-]|]. by apply IH.
Qed.

Lemma resealAll_sound fuel w out scopes keys target w' rep : sound_report out →
  resealAll fuel w out scopes keys target = Some (w', Ok rep) → sound_report rep.
Proof.
  revert w out. induction scopes as [|scope scopes IH]; intros w out Ho; cbn [resealAll]; [by intros [= <- <-]|].
  destruct (resealPages _ _ _ _ _ _) as [[w1 [s|e]]|] eqn:Hp; [|done|done]. cbn [mbind option_bind].
  apply resealPages_sound in Hp; [|done].
  assert (sound_report (mkReport (Migrated out + wk_migrated s) (Remaining out + wk_remaining s)
    (Blocked out + wk_blocked s) (wk_cut s))) by (unfold sound_report, sound_walk in *; cbn; lia).
  destruct (wk_cut s); [by intros [= <- <-]|by apply IH].
Qed.

(** Whatever the control plane and the buckets answer, a reseal ends
    once its context has: with more turns than the context has calls left,
    its walk returns, always the same; it then reports rows resealed and
    rows remaining that are never fewer than none, unless a listing was
    refused; and a reseal whose context has ended makes no call at all. *)
Theorem reseal_ends (left : Wd → nat) w keys target :
  (∀ w, left w = 0 → ended wd w = true) →
  (∀ w scope n, left (ListNeedsMigration wd w scope n).1 ≤ pred (left w)) →
  (∀ w scope id, left (RecordMigrationFailure wd w scope id) ≤ pred (left w)) →
  (∀ w scope id, left (GetBlob wd w scope id).1 ≤ pred (left w)) →
  (∀ w r, left (PutBlob wd w r).1 ≤ pred (left w)) →
  (∀ w id, left (GetLegacyAttachment wd w id).1 ≤ pred (left w)) →
  (∀ w id chat, left (RegisterAttachmentIndex wd w id chat).1 ≤ pred (left w)) →
  (∀ w o id p k, left (BucketsPut wd w o id p k).1 ≤ pred (left w)) →
  (∀ w, left (draw wd w).1 ≤ left w) →
  ∃ w' r, (∀ fuel, left w < fuel → reseal fuel w keys target = Some (w', r)) ∧
    (∀ rep, r = Ok rep → (0 ≤ Migrated rep ∧ 0 ≤ Remaining rep)%Z) ∧
    (ended wd w = true → w' = w ∧ r = Ok (mkReport 0 0 0 true)).
Proof.
  intros H1 H2 H3 H4 H5 H6 H7 H8 H9.
  destruct (resealAll_ends left H1 H2 H3 H4 H5 H6 H7 H8 H9 w (mkReport 0 0 0 false) resealScopes keys target)
    as (w' & r & Hr).
  exists w', r. split; [exact Hr|]. specialize (Hr (S (left w)) ltac:(lia)). split.
  - intros rep ->. by apply resealAll_sound in Hr.
  - intros He. unfold resealScopes in Hr. cbn [resealAll resealPages] in Hr. rewrite He in Hr.
    cbn in Hr. by injection Hr as <- <-.
Qed.
End Reseal.

(** A control plane that lists the same row for ever, already under the
    current key: the walk ends with its context, cut short. *)
Definition stuck_world : World :=
  let blob := Seal.MarshalObject (Json := Seal.toy_json) [("v"%string, Seal.DNum "2")] in
  mkWorld nat (Nat.eqb 0) (λ w _ _, (pred w, Ok (mkListing ["row"%string] 7 0))) (λ w _ _, pred w)
    (λ w _ _, (pred w, Ok (mkBlob blob "kid" "etag"))) (λ w _, (pred w, Err EOther)) (λ w _, (pred w, Err EGone))
    (λ w _ _, (pred w, Ok tt)) true (λ w _ _ _ _, (pred w, Ok tt)) (λ w, (w, ([], [], []))).

Lemma reseal_ends_witness :
  ∃ rep, reseal (CR := Seal.toy_crypto) (JS := Seal.toy_json) (MC := toy_mac) (λ _, None) (λ _, []) stuck_world "user"
           10 9 [] (Seal.mkKey [] "kid") = Some (0, Ok rep) ∧ (0 ≤ Migrated rep ∧ 0 ≤ Remaining rep)%Z ∧ Partial rep = true.
Proof.
  destruct (reseal_ends (CR := Seal.toy_crypto) (JS := Seal.toy_json) (MC := toy_mac) (λ _, None) (λ _, []) stuck_world "user"
    (λ w, w) 9 [] (Seal.mkKey [] "kid")) as (w' & r & Hr & Hrep & _); try (cbn; intros; lia).
  - by intros w ->.
  - specialize (Hr 10 ltac:(cbn; lia)). destruct r as [rep|e].
    + exists rep. assert (Hw : w' = 0 ∧ Partial rep = true).
      { vm_compute in Hr. injection Hr as <- <-. done. }
      destruct Hw as [-> Hp]. split; [exact Hr|]. split; [by apply Hrep|exact Hp].
    + vm_compute in Hr. discriminate.
Defined.
End Reseal.
