(* ===== verification/Prompt.v ===== *)
(** * A turn's prompt and its compaction: internal/engine/context.go and
    compaction.go

    How a chat reads to the model, what its prompt costs, and the marker
    that replaces the chat's earlier messages when the prompt would not fit
    the model's window. *)

From S2P Require Import Prelude GoStd Api Chat Questions Timeline.
From stdpp Require Import pretty.
From Stdlib Require Import QArith_base Qround.
Local Open Scope nat_scope.
Local Open Scope go_scope.

Module Prompt.
Import GoStd Api Chat Questions.

Definition role (message : any) : string := Str (member message "role").

(** [strings.Replacer] and [strings.ReplaceAll] of one character. *)
Definition replaceChar (c : ascii) (by_ : string) (s : string) : string :=
  cat ((λ d, if Ascii.eqb c d then by_ else String d "") <$> bytes_of s).

(** ** The first JSON object of a text: internal/domain/quirks.go *)

(** The scan after [taken] bytes: how deep it is, and whether it is within a
    string and after a backslash there. *)
Fixpoint extractLoop (l : list ascii) (taken : nat) (depth : Z) (inString escaped : bool) : option nat :=
  match l with
  | [] => None
  | c :: l =>
      let n := S taken in
      if escaped then extractLoop l n depth inString false
      else if inString then extractLoop l n depth (negb (Ascii.eqb c "034")) (Ascii.eqb c "\")
      else if Ascii.eqb c "034" then extractLoop l n depth true false
      else if Ascii.eqb c "{" then extractLoop l n (depth + 1) false false
      else if Ascii.eqb c "}" then
        let depth := (depth - 1)%Z in
        if bool_decide (depth = 0)%Z then Some n
        else if bool_decide (depth < 0)%Z then None
        else extractLoop l n depth false false
      else extractLoop l n depth false false
  end.
Definition opensObject (s : string) : bool := String.prefix "{" s.
Definition ExtractFirstJSONObject (s : string) : option string :=
  if negb (opensObject s) then None
  else (λ n, string_of (take n (bytes_of s))) <$> extractLoop (bytes_of s) 0 0 false false.

Example extract_kimi : ExtractFirstJSONObject "{'a':{}}Now I will" = Some "{'a':{}}"%string.
Proof. reflexivity. Qed.

(** [summaryTags]: where [<] opens or closes the summary's own tag, in any
    case; a long s is another s. *)
Definition lower (c : Z) : Z := if bool_decide (65 ≤ c ≤ 90)%Z then (c + 32)%Z else c.
Fixpoint tagAt (pattern : list ascii) (l : list ascii) : bool :=
  match pattern, l with
  | [], _ => true
  | _, [] => false
  | p :: pattern, c :: l =>
      if bool_decide (lower (byte_of c) = byte_of p) then tagAt pattern l
      else match l with
           | d :: l => Ascii.eqb p "s" && bool_decide (byte_of c = 197 ∧ byte_of d = 191)%Z && tagAt pattern l
           | [] => false
           end
  end.
Definition tagName : list ascii := bytes_of "conversation_summary".
Definition closes (l : list ascii) : bool :=
  tagAt tagName l || match l with "/"%char :: l => tagAt tagName l | _ => false end.
Fixpoint escapeTags (l : list ascii) : list ascii :=
  match l with
  | [] => []
  | c :: l => (if Ascii.eqb c "<" && closes l then bytes_of "&lt;" else [c]) ++ escapeTags l
  end.

Example escape_close : string_of (escapeTags (bytes_of "a</Conversation_Summary><b>")) = "a&lt;/Conversation_Summary><b>"%string.
Proof. reflexivity. Qed.

Definition imageTokens : Z := 1500.
Definition summaryReserve : Z := 4096.
Definition recentTokens : Z := 20000.
Definition recentShareTenths : Z := 5.

Definition compactedNote : string :=
  "The earlier part of this conversation was compacted into this summary to fit the context window. Treat it as your memory of those messages. Files, images and pages from that part are no longer available; ask the user to share them again if you need their exact content. Do not mention this summary unless the user asks about earlier messages.".
Definition withSummary (groups : list (list any)) (summary : string) : list (list any) :=
  let text := cat ["<conversation_summary>"; nl; compactedNote; nl; nl; string_of (escapeTags (bytes_of summary)); nl;
                   "</conversation_summary>"]%string in
  match groups with
  | (question :: rest) :: groups' =>
      if negb (String.eqb (role question) "user") then [AObj [("role", AStr "user"); ("content", AStr text)]%string] :: groups
      else
        let content := match member question "content" with
                       | Some (AStr s) => AStr (cat [text; nl; nl; s])
                       | c => AArr (AObj [("type", AStr "text"); ("text", AStr text)]%string :: Arr c)
                       end in
        (setMember question "content" content :: rest) :: groups'
  | _ => [AObj [("role", AStr "user"); ("content", AStr text)]%string] :: groups
  end.

(** A [time.Time] in a zone: its date and clock as [Format] writes them, and
    the zone's abbreviation and offset then, in seconds. *)
Record Clock := mkClock { formatted : string; abbreviation : string; offset : Z }.

(** [fmt]'s [%02d] of a number that is not negative. *)
Definition twoDigits (n : Z) : string := if bool_decide (n < 10)%Z then String.append "0" (pretty n) else pretty n.
Definition offsetName (offset : Z) : string :=
  if bool_decide (offset = 0)%Z then ""
  else
    let away := Z.abs offset in
    cat ([if bool_decide (offset < 0)%Z then "-" else "+"; pretty (Z.quot away 3600)]%string ++
         (if bool_decide (Z.rem away 3600 = 0)%Z then [] else [":"; twoDigits (Z.quot (Z.rem away 3600) 60)]%string)).
Definition named (zone : string) : bool :=
  String.eqb zone "UTC" || String.eqb zone "Etc/UTC" || String.prefix "America/" zone || String.eqb zone "Pacific/Honolulu".
Definition englishTime (now : Clock) (zone : string) : string :=
  String.append (formatted now)
    (if named zone then abbreviation now else String.append "GMT" (offsetName (offset now))).

Example kathmandu : englishTime (mkClock "Monday, January 5, 2026 at 03:04 PM " "+0545" 20700) "Asia/Kathmandu" =
  "Monday, January 5, 2026 at 03:04 PM GMT+5:45"%string.
Proof. reflexivity. Qed.

Section Prompt.
(** [json.Marshal] of a value and [json.Unmarshal] of a text, [json.Valid],
    the count of the third-party tokenizer, and the time [time.Parse] reads
    of a message, in the caller's zone, [None] where it cannot be read. *)
Context (Raw : any → string) (Parsed : string → any) (Valid : string → bool) (Count : string → option Z).
Context (sentTime : string → option Clock) (zone : string).

(** [inference.Tokens]. *)
Definition Tokens (s : string) : Z :=
  match Count s with Some n => n | None => Z.of_nat (String.length s) end.

Definition SanitizeToolCallArgumentsJSON (raw : string) : option string :=
  let trimmed := TrimSpace raw in
  if negb (opensObject trimmed) || Valid trimmed then None else ExtractFirstJSONObject trimmed.

Definition HistoryArgs (s : string) : string :=
  if Valid s then s
  else match SanitizeToolCallArgumentsJSON s with
       | Some repaired => if Valid repaired then repaired else "{}"
       | None => "{}"
       end.

Definition sentReminder (createdAt : string) : string :=
  match sentTime createdAt with
  | Some t => cat ["<system-reminder>Sent: "; englishTime t zone; "</system-reminder>"]%string
  | None => ""
  end.

(** ** A message as the model reads it *)

Definition textPart (s : string) : any := AObj [("type", AStr "text"); ("text", AStr s)]%string.
Definition imagePart (url : string) : any :=
  AObj [("type", AStr "image_url"); ("image_url", AObj [("url", AStr url)])]%string.

Definition pageLabel (page : DocumentPage) : string :=
  cat (["Page "; pretty (p_Page page)]%string ++ (if p_IsScanned page then [" (scanned)"%string] else []) ++ [":"%string] ++
       (if String.eqb (p_Text page) "" then [] else [nl; p_Text page])).
Definition pageParts (page : DocumentPage) : list any :=
  textPart (pageLabel page) ::
  (if String.eqb (p_Image page) "" then [] else [imagePart (String.append "data:image/png;base64," (p_Image page))]).

(** What the attachments of a question come to: documents, descriptions,
    parts and images, each in order. *)
Record attached := mkAttached { at_docs : list string; at_descriptions : list string; at_parts : list any; at_images : list any }.
#[global] Instance attached_eta : Eta attached := λ a,
  mkAttached (at_docs a) (at_descriptions a) (at_parts a) (at_images a).

Definition attach (vision : bool) (s : attached) (a : Attachment) : attached :=
  if IsImage a then
    if vision && negb (String.eqb (a_Base64 a) "") then
      s <| at_images ::= λ l, l ++ [imagePart (cat ["data:"; or (a_InferenceMimeType a) (a_MimeType a); ";base64,"; a_Base64 a]%string)] |>
    else if negb (String.eqb (a_Description a) "") then
      s <| at_descriptions ::= λ l, l ++ [cat ["Image: "; a_FileName a; nl; "Description:"; nl; a_Description a]%string] |>
    else s
  else if vision && negb (Nat.eqb (length (a_Pages a)) 0) then
    s <| at_parts ::= λ l, l ++ textPart (cat ["[Attached file: "; a_FileName a; "]"]%string) :: (a_Pages a ≫= pageParts) |>
  else if negb (String.eqb (a_TextContent a) "") then
    s <| at_docs ::= λ l, l ++ [cat ["Document title: "; a_FileName a; nl; "Document contents:"; nl; a_TextContent a]%string] |>
  else s.

Definition userContent (message : Message) (vision : bool) : any :=
  let text := m_Content message in
  let text := if String.eqb (m_Quote message) "" then text
              else cat (["In reply to:"; nl; "> "; replaceChar "010"%char (cat [nl; "> "]%string) (m_Quote message)]%string ++
                        (if String.eqb text "" then [] else [nl; nl; text])) in
  let text := match elems (m_Answers message) with
              | [] => text
              | answers => cat (AnswersPrompt answers :: if String.eqb text "" then [] else [nl; nl; text])
              end in
  let s := foldl (attach vision) (mkAttached [] [] [] []) (elems (m_Attachments message)) in
  let text := match at_docs s with
              | [] => text
              | docs => cat ["---"; nl; "Document content:"; nl; Join docs (cat [nl; nl]); nl; "---"; nl; nl; text]%string
              end in
  let text := match at_descriptions s with
              | [] => text
              | l => cat [text; nl; nl; "[Treat these descriptions as if they are the raw images.]"; nl; Join l (cat [nl; nl])]%string
              end in
  let sent := sentReminder (m_CreatedAt message) in
  let text := if String.eqb sent "" then text
              else if String.eqb text "" then String.append sent text else cat [sent; nl; nl; text] in
  match at_parts s ++ at_images s with
  | [] => AStr text
  | _ => AArr (at_parts s ++ [textPart text] ++ at_images s)
  end.

Definition answered_ (id content : string) : any :=
  AObj ([("role", AStr "tool")]%string ++ (if String.eqb content "" then [] else [("content", AStr content)]%string) ++
        [("tool_call_id", AStr id)]%string).

(** A tool call as it is replayed, and its result. *)
Definition callOf (b : Block) : any :=
  AObj [("id", AStr (CallID b)); ("type", AStr "function");
        ("function", AObj [("name", AStr (b_Name b)); ("arguments", AStr (HistoryArgs (or (b_Arguments b) "{}")))])]%string.
Definition resultOf (b : Block) : string :=
  match b_Result b with
  | Some r => if String.prefix "render_" (b_Name b) then "executed"
              else match Parsed r with AStr text => text | value => Raw value end
  | None => "executed"
  end.

Definition isToolCall (b : Block) : bool := String.eqb (b_Type b) "tool_call".
Definition textOfType (kind : string) (timeline : list Block) : string :=
  cat ((λ b, if String.eqb (b_Type b) kind then b_Content b else ""%string) <$> timeline).

Definition RenderMessage (message : Message) (vision : bool) (policy : string) : list any :=
  if String.eqb (m_Role message) "user" then
    [AObj [("role", AStr "user"); ("content", userContent message vision)]%string]
  else
    let timeline := elems (m_Timeline message) in
    let content := or (textOfType "content" timeline) (m_Content message) in
    let calls := List.filter isToolCall timeline in
    let some_calls := negb (Nat.eqb (length calls) 0) in
    AObj ([("role", AStr "assistant"); ("content", AStr content)]%string ++
          (if String.eqb policy "all" || String.eqb policy "tool-call-only" && some_calls
           then [("reasoning_content", AStr (textOfType "thinking" timeline))]%string else []) ++
          (if some_calls then [("tool_calls", AArr (callOf <$> calls))]%string else [])) ::
    ((λ b, answered_ (CallID b) (resultOf b)) <$> calls).

Definition partTokens (p : any) : Z :=
  if String.eqb (Str (member p "type")) "image_url" then imageTokens else Tokens (Str (member p "text")).
Definition sum (l : list Z) : Z := foldr Z.add 0%Z l.
Definition messageTokens (message : any) : Z :=
  let count := (4 + Tokens (Raw (without message "content")))%Z in
  match member message "content" with
  | Some (AStr text) => (count + Tokens text)%Z
  | c => (count + sum (partTokens <$> Arr c))%Z
  end.

(** ** The request of a turn *)

(** [canCompact] is whether [compact] is set; [searchInstructions] are the
    web search's, of tools.go. *)
Record Request := mkRequest {
  System : string;
  widgetHint : string;
  policy : string;
  window : Z;
  Groups : list (list any);
  history : list (list any);
  reminder : any;
  rendered : any;
  messages : list Message;
  vision : bool;
  webSearch : bool;
  clock : string;
  instruction : string;
  compacts : bool;
  usage : option ContextUsage;
  canCompact : bool;
}.
#[global] Instance Request_eta : Eta Request := λ r,
  mkRequest (System r) (widgetHint r) (policy r) (window r) (Groups r) (history r) (reminder r) (rendered r) (messages r)
    (vision r) (webSearch r) (clock r) (instruction r) (compacts r) (usage r) (canCompact r).
Context (searchInstructions : string).

Definition renderAll (req : Request) (ms : list Message) : list (list any) :=
  (λ m, RenderMessage m (vision req) (policy req)) <$> List.filter (λ m, negb (is_marker m)) ms.

(** [render]; the groups' costs, counted once, are worked out where they are
    asked for. *)
Definition render (req : Request) : Request :=
  let latest := LatestCompaction (messages req) in
  let groups := renderAll req (drop (Z.to_nat (latest + 1)) (messages req)) in
  let summary := match messages req !! Z.to_nat latest with Some m => m_Content m | None => "" end in
  req <| history := renderAll req (messages req) |>
      <| Groups := if bool_decide (0 ≤ latest)%Z then withSummary groups summary else groups |>.

Definition groupCosts (req : Request) : list Z := (λ g, sum (messageTokens <$> g)) <$> Groups req.

Definition limit (req : Request) : Z := Z.quot (window req * 4) 5.

Definition system (req : Request) (searching : bool) : string :=
  cat ([System req] ++ (if searching then [nl; nl; searchInstructions] else []) ++
       (if String.eqb (widgetHint req) "" then [] else [nl; nl; widgetHint req])).

Definition fixedCost (req : Request) (searching : bool) (definitions : string) : Z :=
  (Tokens (system req searching) + Tokens definitions + messageTokens (reminder req) + 8)%Z.

Definition cost (ms : list any) (definitions : string) : Z := (Tokens definitions + sum (messageTokens <$> ms))%Z.
Definition fits (req : Request) (ms : list any) (definitions : string) : bool := bool_decide (cost ms definitions ≤ limit req)%Z.

Definition promptOf (req : Request) (searching : bool) : list any :=
  (if TrimsToNothing (system req searching) then []
   else [AObj [("role", AStr "system"); ("content", AStr (system req searching))]%string]) ++
  mjoin (Groups req) ++ [reminder req].

Definition tooLarge (message : string) : ApiError := mkApiError 413 "CONTEXT_TOO_LARGE" message.
Definition errFixed : ApiError := tooLarge "The system and tools exceed the context window".
Definition errConversation : ApiError := tooLarge "The conversation exceeds the context window".
Definition errLatest : ApiError := tooLarge "The latest message exceeds the context window".

Definition BudgetConversation (req : Request) (searching : bool) (definitions : string) : result ApiError (list any) :=
  if bool_decide (limit req < fixedCost req searching definitions)%Z then Err errFixed
  else if negb (fits req (promptOf req searching) definitions) then Err errConversation
  else Ok (promptOf req searching).

(** [math.Round] of a number that is not negative. *)
Definition Round (q : Q) : Z := Qfloor (q + 1 / 2).
Definition thousands (tokens : Z) : string :=
  if bool_decide (tokens < 1000)%Z then pretty tokens
  else String.append (pretty (Round (inject_Z tokens / 1000))) "k".
Definition contextReminder (u : ContextUsage) (compacts : bool) : string :=
  cat (["Context used: "; pretty (Round (u_Percentage u)); "% of the room this conversation may fill (~";
        thousands (u_UsedTokens u); " of "; thousands (u_LimitTokens u); " tokens)."]%string ++
       (if compacts then [" Once it is full, the earlier messages are summarized to make room."%string] else [])).

Definition requestContextUsage (req : Request) : ContextUsage :=
  let system := cat ([System req; nl; nl; widgetHint req] ++
                     (if webSearch req then [nl; nl; searchInstructions] else [])) in
  let used := (Tokens system + Tokens (Raw (rendered req)) + messageTokens (reminder req) + 8 + sum (groupCosts req))%Z in
  mkUsage used (limit req) (inject_Z (used * 100) / inject_Z (1 `max` limit req)).

Definition reminderOf (req : Request) (context : string) : any :=
  AObj [("role", AStr "user");
        ("content", AStr (cat ["<system-reminder>"; clock req; context; "</system-reminder>"; instruction req]))]%string.
Definition remind (req : Request) : Request :=
  let req := req <| reminder := reminderOf req "" |> in
  let u := requestContextUsage req in
  req <| usage := Some u |> <| reminder := reminderOf req (String.append nl (contextReminder u (compacts req))) |>.

(** ** Compaction *)

Fixpoint lastUser (ms : list Message) (i : nat) : Z :=
  match i with
  | 0 => (-1)%Z
  | S i => match ms !! i with
           | Some m => if String.eqb (m_Role m) "user" then Z.of_nat i else lastUser ms i
           | None => lastUser ms i
           end
  end.
Definition lastQuestion (ms : list Message) : Z := lastUser ms (length ms).
Definition compactable (ms : list Message) : bool := bool_decide (LatestCompaction ms + 1 < lastQuestion ms)%Z.

Definition messageCost (req : Request) (m : Message) : Z :=
  sum (messageTokens <$> RenderMessage m (vision req) (policy req)).
Definition costBetween (req : Request) (from to : nat) : Z :=
  sum (messageCost req <$> take (to - from) (drop from (messages req))).

(** [keptFrom]: the walk back over the messages below index [n]. *)
Fixpoint keptLoop (req : Request) (low budget : Z) (kept : nat) (cost : Z) (n : nat) : nat :=
  match n with
  | 0 => kept
  | S i =>
      if bool_decide (Z.of_nat i < low)%Z then kept
      else match messages req !! i with
           | None => kept
           | Some m =>
               let cost := (cost + messageCost req m)%Z in
               if bool_decide (budget < cost)%Z then kept
               else keptLoop req low budget (if String.eqb (m_Role m) "user" then i else kept) cost i
           end
  end.
Definition keptFrom (req : Request) (latest : Z) (question : nat) (shown budget : Z) : nat :=
  keptLoop req ((latest + 2) `max` shown) budget question 0 question.

(** What a compaction meets: the summary written of the messages it covers,
    or [None] where none was, why the run's context had ended by then, if it
    had ([ctx.Err()]), and the ids, times and model it records. *)
Inductive ctxError := Canceled | DeadlineExceeded.
Definition ctxText (e : ctxError) : string :=
  match e with Canceled => "context canceled" | DeadlineExceeded => "context deadline exceeded" end.
Record Summarizer := mkSummarizer {
  firstShown : string;
  summarize : string → list Message → option string;
  ctxErr : option ctxError;
  markerID : string;
  createdAt : string;
  startedAt : Q;
  endedAt : Q;
  model : string;
  version : Z;
}.

Inductive compactError := errNothingToCompact | errCompactionFailed | errContext (e : ctxError).

(** The room for the exchanges a compaction keeps. *)
Definition roomOf (req : Request) (question : nat) (reserved : Z) : Z :=
  (limit req - reserved - summaryReserve - costBetween req question (length (messages req)))%Z.
Definition recentBudget (room : Z) : Z := (recentTokens `min` Z.quot (room * recentShareTenths) 10)%Z.

(** What the summary of a compaction that keeps the messages from [kept] on
    says: the chat's latest summary and the messages since are read for it. *)
Definition summaryOf (s : Summarizer) (req : Request) (kept : nat) : option string :=
  let ms := messages req in
  let latest := LatestCompaction ms in
  let earlier := match ms !! Z.to_nat latest with
                 | Some m => if bool_decide (0 ≤ latest)%Z then m_Content m else ""
                 | None => ""
                 end in
  let from := Z.to_nat (latest + 1) in
  summarize s earlier (take (kept - from) (drop from ms)).

(** [compact], its events aside. *)
Definition compact (s : Summarizer) (req : Request) (reserved : Z) : result compactError Request :=
  let ms := messages req in
  let latest := LatestCompaction ms in
  if bool_decide (lastQuestion ms ≤ latest + 1)%Z then Err errNothingToCompact
  else
    let question := Z.to_nat (lastQuestion ms) in
    let shown := match IndexFunc (λ m, String.eqb (m_ID m) (firstShown s)) ms with
                 | Some i => Z.of_nat i
                 | None => Z.of_nat question
                 end in
    let kept := keptFrom req latest question shown (recentBudget (roomOf req question reserved)) in
    match summaryOf s req kept with
    | None => Err (match ctxErr s with Some e => errContext e | None => errCompactionFailed end)
    | Some text =>
        let covered := length (List.filter (λ m, negb (is_marker m)) (take kept ms)) in
        let marker := noMessage <| m_ID := markerID s |> <| m_Role := CompactionRole |> <| m_CreatedAt := createdAt s |>
          <| m_Content := text |>
          <| m_Compaction := Some (mkCompaction (Z.of_nat covered) (startedAt s) (endedAt s) (model s) (version s)) |> in
        Ok (remind (render (req <| messages := take kept ms ++ marker :: drop kept ms |>)))
    end.

(** An error of [fitted]: a refusal, or that the run's context ended. *)
Inductive fitError := Refused (e : ApiError) | Ended (e : ctxError).
Definition errFailed : ApiError :=
  mkApiError 502 "COMPACTION_FAILED" "The chat could not be compacted to fit the context window".
Definition errCompaction (e : compactError) : fitError :=
  match e with
  | errNothingToCompact => Refused errLatest
  | errCompactionFailed => Refused errFailed
  | errContext e => Ended e
  end.
Definition refusing {A} (r : result ApiError A) : result fitError A :=
  match r with Ok a => Ok a | Err e => Err (Refused e) end.

Definition fitted (s : Summarizer) (req : Request) (searching : bool) (definitions : string)
    : Request * result fitError (list any) :=
  let prompt := refusing (BudgetConversation req searching definitions) in
  if is_ok prompt || bool_decide (limit req < fixedCost req searching definitions)%Z || negb (canCompact req)
  then (req, prompt)
  else
    let req := req <| canCompact := false |> in
    match compact s req (fixedCost req searching definitions) with
    | Err e => (req, Err (errCompaction e))
    | Ok req => (req, refusing (BudgetConversation req searching definitions))
    end.

(** The walk back to the question that opens the last group asked. *)
Fixpoint questionGroup (groups : list (list any)) (n : nat) : nat :=
  match n with
  | 0 => 0
  | S i => match groups !! n with
           | Some (m :: _) => if String.eqb (role m) "user" then n else questionGroup groups i
           | _ => questionGroup groups i
           end
  end.
Definition preflightBudget (req : Request) : option ApiError :=
  let definitions := Raw (rendered req) in
  if is_ok (BudgetConversation req (webSearch req) definitions) then None
  else
    let fixed := fixedCost req (webSearch req) definitions in
    if bool_decide (limit req < fixed)%Z then Some errFixed
    else
      let question := questionGroup (Groups req) (length (Groups req) - 1) in
      let kept := (fixed + (if Nat.ltb 0 question then summaryReserve else 0) +
                   sum (drop question (groupCosts req)))%Z in
      if bool_decide (limit req < kept)%Z then Some errLatest else None.

(** ** What a compaction keeps *)

Lemma lastUser_spec ms i : i ≤ length ms →
  lastUser ms i = (-1)%Z ∨ ∃ n m, lastUser ms i = Z.of_nat n ∧ n < i ∧ ms !! n = Some m ∧ m_Role m = "user"%string.
Proof.
  induction i as [|i IH]; [by left|]. intros Hi. cbn [lastUser].
  destruct (ms !! i) as [m|] eqn:Hm; [destruct (String.eqb_spec (m_Role m) "user") as [Hr|Hr]|].
  - right. exists i, m. split_and!; [done|lia|done|done].
  - destruct (IH ltac:(lia)) as [->|(n & m' & -> & ? & ?)]; [by left|]. right. exists n, m'. split_and!; [done|lia|naive_solver..].
  - destruct (IH ltac:(lia)) as [->|(n & m' & -> & ? & ?)]; [by left|]. right. exists n, m'. split_and!; [done|lia|naive_solver..].
Qed.

Lemma latestBefore_bound ms i : (-1 ≤ latestBefore ms i < Z.of_nat i)%Z ∨ i = 0 ∧ latestBefore ms i = (-1)%Z.
Proof.
  induction i as [|i IH]; [by right|]. left. cbn [latestBefore].
  destruct (ms !! i) as [m|]; [destruct (is_marker m)|]; lia.
Qed.
Lemma latest_bound ms : (-1 ≤ LatestCompaction ms)%Z.
Proof. unfold LatestCompaction. destruct (latestBefore_bound ms (length ms)); lia. Qed.

(** The message is a question. *)
Definition asks (ms : list Message) (i : nat) : Prop := ∃ m, ms !! i = Some m ∧ m_Role m = "user"%string.

Lemma costBetween_step req i question m : messages req !! i = Some m → i < question →
  costBetween req i question = (messageCost req m + costBetween req (S i) question)%Z.
Proof.
  intros Hm Hlt. unfold costBetween. rewrite (drop_S _ m i Hm). replace (question - i) with (S (question - S i)) by lia.
  done.
Qed.
Lemma costBetween_refl req i : costBetween req i i = 0%Z.
Proof. unfold costBetween. by rewrite Nat.sub_diag. Qed.

Lemma keptLoop_spec req low budget question kept n :
  n ≤ kept ≤ question → kept = question ∨ asks (messages req) kept ∧ (low ≤ Z.of_nat kept)%Z ∧ (costBetween req kept question ≤ budget)%Z →
  let k := keptLoop req low budget kept (costBetween req n question) n in
  k ≤ question ∧ (k = question ∨ asks (messages req) k ∧ (low ≤ Z.of_nat k)%Z ∧ (costBetween req k question ≤ budget)%Z).
Proof.
  revert kept. induction n as [|i IH]; intros kept Hn Hk; cbn [keptLoop]; [split; [lia|done]|].
  destruct (bool_decide (Z.of_nat i < low)%Z) eqn:Hlow; [split; [lia|done]|]. apply bool_decide_eq_false in Hlow.
  destruct (messages req !! i) as [m|] eqn:Hm; [|split; [lia|done]].
  assert (Hc : (costBetween req (S i) question + messageCost req m)%Z = costBetween req i question).
  { rewrite (costBetween_step req i question m Hm) by lia. lia. }
  rewrite Hc. destruct (bool_decide (budget < costBetween req i question)%Z) eqn:Hb; [split; [lia|done]|].
  apply bool_decide_eq_false in Hb. destruct (String.eqb_spec (m_Role m) "user") as [Hr|Hr].
  - apply IH; [lia|]. right. split; [by exists m|]. lia.
  - apply IH; [lia|done].
Qed.

(** [kept] is where a compaction of [ms] puts its marker. *)
Definition keeps (req : Request) (reserved : Z) (kept : nat) : Prop :=
  let ms := messages req in
  ∃ question, lastQuestion ms = Z.of_nat question ∧ kept ≤ question ∧ (LatestCompaction ms + 1 < Z.of_nat kept)%Z ∧
    asks ms kept ∧
    (kept = question ∨ (costBetween req kept question ≤ recentBudget (roomOf req question reserved))%Z).

(** A compaction puts its marker where [keeps] says, holding the summary; or
    it fails for one of three reasons. *)
Lemma compact_spec s req reserved : 
  match compact s req reserved with
  | Ok req' => ∃ kept text marker, keeps req reserved kept ∧ summaryOf s req kept = Some text ∧
      is_marker marker = true ∧ m_Content marker = text ∧
      req' = remind (render (req <| messages := take kept (messages req) ++ marker :: drop kept (messages req) |>))
  | Err errNothingToCompact => (lastQuestion (messages req) ≤ LatestCompaction (messages req) + 1)%Z
  | Err errCompactionFailed => ctxErr s = None ∧ ∃ kept, keeps req reserved kept ∧ summaryOf s req kept = None
  | Err (errContext c) => ctxErr s = Some c ∧ ∃ kept, keeps req reserved kept ∧ summaryOf s req kept = None
  end.
Proof.
  unfold compact. set (ms := messages req).
  destruct (bool_decide (lastQuestion ms ≤ LatestCompaction ms + 1)%Z) eqn:Hq; [by apply bool_decide_eq_true in Hq|].
  apply bool_decide_eq_false in Hq. pose proof (latest_bound ms) as Hlat.
  destruct (lastUser_spec ms (length ms)) as [Hnone|(question & mq & Hlast & Hlt & Hmq & Hrole)]; [done| |].
  { unfold lastQuestion in Hq. rewrite Hnone in Hq. lia. }
  fold (lastQuestion ms) in Hlast. rewrite Hlast, Nat2Z.id in *.
  set (shown := match IndexFunc _ ms with Some i => Z.of_nat i | None => Z.of_nat question end).
  set (kept := keptFrom req (LatestCompaction ms) question shown _).
  assert (Hkeeps : keeps req reserved kept).
  { pose proof (keptLoop_spec req ((LatestCompaction ms + 2) `max` shown) (recentBudget (roomOf req question reserved))
      question question question ltac:(lia) ltac:(by left)) as Hk.
    rewrite costBetween_refl in Hk. cbn zeta in Hk. fold (keptFrom req (LatestCompaction ms) question shown
      (recentBudget (roomOf req question reserved))) in Hk. fold kept in Hk. destruct Hk as [Hle Hk].
    exists question. fold ms. split_and!; [done|done| | |].
    - destruct Hk as [->|(_ & ? & _)]; lia.
    - destruct Hk as [->|(Ha & _)]; [by exists mq|done].
    - destruct Hk as [->|(_ & _ & ?)]; [by left|by right]. }
  destruct (summaryOf s req kept) as [text|] eqn:Hs.
  - exists kept, text. eexists. split_and!; [exact Hkeeps|exact Hs| | |reflexivity]; done.
  - destruct (ctxErr s); split; [done|by exists kept|done|by exists kept].
Qed.

Lemma remind_same req : limit (remind req) = limit req ∧ messages (remind req) = messages req ∧ canCompact (remind req) = canCompact req.
Proof. done. Qed.
Lemma render_same req : limit (render req) = limit req ∧ messages (render req) = messages req ∧ canCompact (render req) = canCompact req.
Proof. done. Qed.

Lemma budget_ok req searching definitions ms : BudgetConversation req searching definitions = Ok ms →
  ms = promptOf req searching ∧ (cost ms definitions ≤ limit req)%Z.
Proof.
  unfold BudgetConversation. destruct (bool_decide _); [done|]. destruct (negb _) eqn:Hf; [done|]. intros [= <-].
  apply negb_false_iff, bool_decide_eq_true in Hf. done.
Qed.

Lemma budget_err req searching definitions e : BudgetConversation req searching definitions = Err e →
  e = errFixed ∧ (limit req < fixedCost req searching definitions)%Z ∨
  e = errConversation ∧ (limit req < cost (promptOf req searching) definitions)%Z.
Proof.
  unfold BudgetConversation, fits. destruct (bool_decide _) eqn:H1.
  - intros [= <-]. left. by apply bool_decide_eq_true in H1.
  - destruct (negb _) eqn:H2; [|done]. intros [= <-]. right. split; [done|].
    apply negb_true_iff, bool_decide_eq_false in H2. lia.
Qed.

(** C35. A turn's prompt, when there is one, is all the model reads of the
    chat and fits its share of the window with the tools; the chat itself
    either stays as it was or, when it would not fit and was not compacted
    before, has one summary marker more, of the messages since the last
    marker, at least one, put before a question no later than the turn's,
    the exchanges it keeps besides fitting the budget for recent ones; and
    without a prompt the error says why: the system and tools, or the chat,
    exceed the window; the chat has nothing to compact; its summary was not
    written; or it was not and the run's context had ended. *)
Theorem fitted_prompt s req searching definitions : let '(req', r) := fitted s req searching definitions in
  let reserved := fixedCost req searching definitions in
  limit req' = limit req ∧
  (messages req' = messages req ∨
   canCompact req = true ∧ canCompact req' = false ∧
   ∃ kept text marker, keeps req reserved kept ∧ is_marker marker = true ∧
     summaryOf s req kept = Some text ∧ m_Content marker = text ∧ messages req' = take kept (messages req) ++ marker :: drop kept (messages req)) ∧
  match r with
  | Ok ms => ms = promptOf req' searching ∧ (cost ms definitions ≤ limit req)%Z
  | Err e => e = Refused errFixed ∧ (limit req < fixedCost req' searching definitions)%Z ∨
      e = Refused errConversation ∧ (limit req < cost (promptOf req' searching) definitions)%Z ∨
      e = Refused errLatest ∧ (lastQuestion (messages req) ≤ LatestCompaction (messages req) + 1)%Z ∨
      (∃ kept, keeps req reserved kept ∧ summaryOf s req kept = None) ∧
        match ctxErr s with Some c => e = Ended c | None => e = Refused errFailed end
  end.
Proof.
  set (goal := λ q (r : result fitError (list any)), match r with
    | Ok ms => ms = promptOf q searching ∧ (cost ms definitions ≤ limit req)%Z
    | Err e => e = Refused errFixed ∧ (limit req < fixedCost q searching definitions)%Z ∨
        e = Refused errConversation ∧ (limit req < cost (promptOf q searching) definitions)%Z ∨
        e = Refused errLatest ∧ (lastQuestion (messages req) ≤ LatestCompaction (messages req) + 1)%Z ∨
        (∃ kept, keeps req (fixedCost req searching definitions) kept ∧ summaryOf s req kept = None) ∧
          match ctxErr s with Some c => e = Ended c | None => e = Refused errFailed end
    end).
  assert (Hok : ∀ q, limit q = limit req → goal q (refusing (BudgetConversation q searching definitions))).
  { intros q Hl. destruct (BudgetConversation q searching definitions) as [ms|e] eqn:Hb.
    - apply budget_ok in Hb. by rewrite Hl in Hb.
    - cbn. apply budget_err in Hb. rewrite Hl in Hb. destruct Hb as [[-> ?]|[-> ?]]; auto. }
  unfold fitted. destruct (_ || _ || _) eqn:Hdirect.
  { split; [done|]. split; [by left|]. by apply Hok. }
  apply orb_false_iff in Hdirect as [_ Hcan]. apply negb_false_iff in Hcan.
  cbv zeta. change (fixedCost (req <| canCompact := false |>) searching definitions) with (fixedCost req searching definitions).
  pose proof (compact_spec s (req <| canCompact := false |>) (fixedCost req searching definitions)) as Hc.
  destruct (compact s _ _) as [req'|e].
  - destruct Hc as (kept & text & marker & Hk & Hs & Hm & Ht & ->).
    split; [done|]. split; [right; split; [done|]; split; [done|]; exists kept, text, marker; done|]. by apply Hok.
  - split; [done|]. split; [by left|]. destruct e as [| |c]; [auto|..]; destruct Hc as [Hctx Hkept]; cbn; rewrite Hctx; auto.
Qed.
End Prompt.
End Prompt.
