(* ===== verification/Tools.v ===== *)
(** * What models make of tools: internal/domain coerce.go and quirks.go

    The repairs of tool arguments before a call leaves: control tokens that
    leaked into them, and values whose types differ from the schema's. *)

From S2P Require Import Prelude GoStd Api Timeline Prompt.
From stdpp Require Import pretty.
From Stdlib Require Import QArith_base Qround.
Local Open Scope nat_scope.
Local Open Scope go_scope.

Module Tools.
Import GoStd.

(** ** Control tokens: quirks.go *)

Definition isByte (c : ascii) (r : list ascii * bool) : bool :=
  match r.1 with [d] => Ascii.eqb c d | _ => false end.
Definition framing (r : list ascii * bool) : bool := isByte "|" r || isByte "<" r || isByte ">" r.
(** [controlTokenPattern] after its [<|]: up to [n] characters, a bar, and
    perhaps a bracket. *)
Fixpoint tokenEnd (n : nat) (l : list (list ascii * bool)) : option (list (list ascii * bool)) :=
  match l with
  | [] => None
  | r :: l =>
      if isByte "|" r then Some (match l with r :: l' => if isByte ">" r then l' else l | [] => [] end)
      else if framing r then None
      else match n with 0 => None | S n => tokenEnd n l end
  end.
Definition controlToken (l : list (list ascii * bool)) : option (list (list ascii * bool)) :=
  match l with
  | a :: b :: l => if isByte "<" a && isByte "|" b then tokenEnd 64 l else None
  | _ => None
  end.
(** [ReplaceAllString]; a token takes some, so the length is enough fuel. *)
Fixpoint stripped (fuel : nat) (l : list (list ascii * bool)) : list ascii :=
  match fuel, l with
  | 0, _ | _, [] => []
  | S fuel, r :: l' =>
      match controlToken l with
      | Some rest => stripped fuel rest
      | None => r.1 ++ stripped fuel l'
      end
  end.
Definition StripModelControlTokens (s : string) : string :=
  if negb (Contains s "<|") then s else string_of (stripped (String.length s) (runes s)).
Example strips_kimi : StripModelControlTokens "https://a.b/<|end|>x<|q|y" = "https://a.b/xy"%string.
Proof. reflexivity. Qed.

Definition urlFields : list string := ["url"; "urls"; "fetch_url"; "page_url"; "href"; "link"]%string.
Definition looksLikeLeakedURL (s : string) : bool :=
  Contains s "<|" && (let stripped := StripModelControlTokens s in String.prefix "http://" stripped || String.prefix "https://" stripped).

(** ** Values: as [json.Unmarshal] decodes them, and as they are coerced

    A [float64] that is finite is the rational it is.  An array or object
    that JSON's null was decoded into is nil. *)
Inductive f64 := Fin (q : Q) | Inf (neg : bool) | NaN.
Inductive value :=
  | VNull
  | VBool (b : bool)
  | VFloat (f : f64)
  | VInt (n : Z)
  | VStr (s : string)
  | VArr (l : list value)
  | VObj (ms : list (string * value))
  | VNilArr
  | VNilObj.

Definition stripIf (url : bool) (s : string) : string :=
  if url || looksLikeLeakedURL s then StripModelControlTokens s else s.
(** [DeepStripURLTokens], and the strings of an object and of its arrays. *)
Fixpoint DeepStripURLTokens (v : value) : value :=
  match v with
  | VObj ms =>
      VObj ((λ m : string * value,
        let '(key, child) := m in
        let url := bool_decide (ToLower key ∈ urlFields) in
        let deep := DeepStripURLTokens child in
        (key, match child with
              | VStr s => VStr (stripIf url s)
              | VArr l => VArr ((λ item, let deep := DeepStripURLTokens item in
                                         match item with VStr s => VStr (stripIf url s) | _ => deep end) <$> l)
              | _ => deep
              end)) <$> ms)
  | VArr l => VArr (DeepStripURLTokens <$> l)
  | v => v
  end.

(** ** Schemas: of the third-party package, the members read here *)

Inductive Schema := mkSchema {
  Type_ : string;
  Types : list string;
  Properties : list (string * Schema);
  AllOf : list Schema;
  AnyOf : list Schema;
  OneOf : list Schema;
  Items : option Schema;
  Minimum : option Q;
  Maximum : option Q;
  ExclusiveMinimum : option Q;
  ExclusiveMaximum : option Q;
  MultipleOf : option Q;
  Enum : list value;
}.

Definition declaredTypes (s : Schema) : list string :=
  if String.eqb (Type_ s) "" then foldl (λ out t, if bool_decide (t ∈ out) then out else out ++ [t]) [] (Types s) else [Type_ s].

(** [propertySchema]: of the schema, or of one of its branches. *)
Definition firstOf {A B} (f : A → option B) (l : list A) : option B :=
  foldr (λ a rest, match f a with Some b => Some b | None => rest end) None l.
Fixpoint propertySchema (s : Schema) (key : string) : option Schema :=
  match firstOf (λ p : string * Schema, if String.eqb p.1 key then Some p.2 else None) (Properties s) with
  | Some sub => Some sub
  | None =>
      match firstOf (λ b, propertySchema b key) (AllOf s) with
      | Some sub => Some sub
      | None =>
          match firstOf (λ b, propertySchema b key) (AnyOf s) with
          | Some sub => Some sub
          | None => firstOf (λ b, propertySchema b key) (OneOf s)
          end
      end
  end.

Fixpoint height (s : Schema) : nat :=
  S (foldr (λ p n, height p.2 `max` n) 0 (Properties s) `max`
     (foldr (λ b n, height b `max` n) 0 (AllOf s) `max`
      (foldr (λ b n, height b `max` n) 0 (AnyOf s) `max`
       (foldr (λ b n, height b `max` n) 0 (OneOf s) `max` match Items s with Some i => height i | None => 0 end)))).

Definition isNumericValue (v : value) : bool := match v with VFloat _ | VInt _ => true | _ => false end.
Definition isIntegerValue (v : value) : bool := match v with VInt _ => true | _ => false end.
Definition valueMatchesType (v : value) (t : string) : bool :=
  if String.eqb t "string" then match v with VStr _ => true | _ => false end
  else if String.eqb t "boolean" then match v with VBool _ => true | _ => false end
  else if String.eqb t "integer" then isIntegerValue v
  else if String.eqb t "number" then isNumericValue v
  else if String.eqb t "array" then match v with VArr _ | VNilArr => true | _ => false end
  else if String.eqb t "object" then match v with VObj _ | VNilObj => true | _ => false end
  else if String.eqb t "null" then match v with VNull => true | _ => false end
  else false.
Definition valueMatchesAnyType (v : value) (types : list string) : bool := existsb (valueMatchesType v) types.

(** ** Coercion: coerce.go *)

Definition coerceMaxIntFromFloat : Z := 2 ^ 53.
Definition Qlt_bool (a b : Q) : bool := negb (Qle_bool b a).
Definition truncated (q : Q) : Z := Z.quot (Qnum q) (Zpos (Qden q)).
Definition whole (q : Q) : bool := Qeq_bool q (inject_Z (truncated q)).
Definition floatToBoundedInt64 (f : f64) : option Z :=
  match f with
  | Fin q => if whole q && bool_decide (Z.abs (truncated q) ≤ coerceMaxIntFromFloat)%Z then Some (truncated q) else None
  | _ => None
  end.

Definition Qmod (a b : Q) : Q := (a - b * inject_Z (truncated (a / b)))%Q.
(** Comparisons of a [float64] with a bound. *)
Definition below (f : f64) (q : Q) : bool :=
  match f with Fin p => Qlt_bool p q | Inf neg => neg | NaN => false end.
Definition atMost (f : f64) (q : Q) : bool :=
  match f with Fin p => Qle_bool p q | Inf neg => neg | NaN => false end.
Definition above (f : f64) (q : Q) : bool :=
  match f with Fin p => Qlt_bool q p | Inf neg => negb neg | NaN => false end.
Definition atLeast (f : f64) (q : Q) : bool :=
  match f with Fin p => Qle_bool q p | Inf neg => negb neg | NaN => false end.
(** [math.Mod(f, m) != 0]: it is NaN of what is not finite. *)
Definition notMultiple (f : f64) (m : Q) : bool :=
  match f with Fin q => negb (Qeq_bool (Qmod q m) 0) | _ => true end.
Definition floatEq (f : f64) (q : Q) : bool := match f with Fin p => Qeq_bool p q | _ => false end.

Definition splitOn (c : ascii) (s : string) : list string :=
  string_of <$> foldr (λ d parts, if Ascii.eqb d c then [] :: parts
                                  else match parts with p :: ps => (d :: p) :: ps | [] => [[d]] end) [[]] (bytes_of s).
Definition splitCSV (s : string) : list string :=
  List.filter (λ p, negb (String.eqb p "")) (TrimSpace <$> splitOn "," s).
Definition looksLikeCSV (s : string) : bool := Contains s "," && bool_decide (2 ≤ length (splitCSV s)).
Example csv_two : splitCSV " a, b,,c " = ["a"; "b"; "c"]%string ∧ looksLikeCSV "python.org" = false.
Proof. done. Qed.

Definition hasBound (o : option Q) (f : Q → bool) : bool := match o with Some q => f q | None => false end.

Section Coercion.
(** [strconv.ParseInt] within 64 bits is [Atoi]'s; [strconv.ParseFloat];
    [float64] of an integer; what [int64] makes of a float out of its range;
    [strconv.FormatFloat]; and [json.Unmarshal] of a text into an array or
    an object, nil where it is null. *)
Context (ParseFloat : string → option f64) (Float64 : Z → f64) (Wild : f64 → Z) (FormatFloat : f64 → string)
  (UnmarshalArray UnmarshalObject : string → option value).

Definition enumContainsNumeric (enum : list value) (f : f64) : bool :=
  bool_decide (enum = []) ||
  existsb (λ e, match e, f with
                | VFloat (Fin q), f => floatEq f q
                | VInt n, Fin p => match Float64 n with Fin q => Qeq_bool p q | _ => false end
                | _, _ => false
                end) enum.
Definition numberSatisfiesSchema (f : f64) (s : Schema) : bool :=
  if hasBound (Minimum s) (below f) || hasBound (Maximum s) (above f) ||
     hasBound (ExclusiveMinimum s) (atMost f) || hasBound (ExclusiveMaximum s) (atLeast f) ||
     hasBound (MultipleOf s) (λ m, negb (Qeq_bool m 0) && notMultiple f m)
  then false else enumContainsNumeric (Enum s) f.
Definition integerSatisfiesSchema (n : Z) (s : Schema) : bool := numberSatisfiesSchema (Float64 n) s.

Definition ofFloat (f : f64) (s : Schema) : option Z :=
  match floatToBoundedInt64 f with
  | Some n => if integerSatisfiesSchema n s then Some n else None
  | None => None
  end.
Definition coerceToInteger (v : value) (s : Schema) : option Z :=
  match v with
  | VStr text =>
      let text := TrimSpace text in
      if String.eqb text "" then None
      else match Atoi text with
           | Some n => if integerSatisfiesSchema n s then Some n else None
           | None => match ParseFloat text with Some f => ofFloat f s | None => None end
           end
  | VFloat f => ofFloat f s
  | _ => None
  end.
Definition coerceToNumber (v : value) (s : Schema) : option f64 :=
  match v with
  | VStr text =>
      let text := TrimSpace text in
      if String.eqb text "" then None
      else match ParseFloat text with Some f => if numberSatisfiesSchema f s then Some f else None | None => None end
  | _ => None
  end.
Definition coerceToBoolean (v : value) : option bool :=
  match v with
  | VStr text =>
      let text := ToLower (TrimSpace text) in
      if bool_decide (text ∈ ["true"; "1"; "yes"; "on"; "y"; "t"]%string) then Some true
      else if bool_decide (text ∈ ["false"; "0"; "no"; "off"; "n"; "f"]%string) then Some false
      else None
  | VFloat (Fin q) => if Qeq_bool q 1 then Some true else if Qeq_bool q 0 then Some false else None
  | _ => None
  end.
(** [int64(v)]. *)
Definition int64Of (f : f64) : Z :=
  match f with
  | Fin q => if bool_decide (min_int ≤ truncated q ≤ max_int)%Z then truncated q else Wild f
  | f => Wild f
  end.
Definition isWhole (f : f64) : bool := match f with Fin q => whole q | Inf _ => true | NaN => false end.
Definition coerceToString (v : value) : option string :=
  match v with
  | VFloat f => Some (if isWhole f then pretty (int64Of f) else FormatFloat f)
  | VBool b => Some (if b then "true" else "false")%string
  | _ => None
  end.
Definition coerceToNull (v : value) : bool :=
  match v with VStr text => String.eqb (ToLower (TrimSpace text)) "null" | _ => false end.

(** The recursion, on what each schema within makes of a value. *)
Section Within.
Context (coerce : Schema → value → value * bool).

Definition coerceItems (s : Schema) (l : list value) : list value :=
  match Items s with Some items => (λ v, (coerce items v).1) <$> l | None => l end.
Definition coerceObject (s : Schema) (ms : list (string * value)) : list (string * value) :=
  (λ m, (m.1, match propertySchema s m.1 with Some sub => (coerce sub m.2).1 | None => m.2 end)) <$> ms.
(** The leaves of a value. *)
Definition within (s : Schema) (v : value) : value :=
  match v with VObj ms => VObj (coerceObject s ms) | VArr l => VArr (coerceItems s l) | v => v end.
Definition coerceToArray (v : value) (s : Schema) : option value :=
  match v with
  | VStr text =>
      let text := TrimSpace text in
      if String.eqb text "" then None
      else match UnmarshalArray text with
           | Some parsed => Some (within s parsed)
           | None => if looksLikeCSV text then Some (within s (VArr (VStr <$> splitCSV text))) else None
           end
  | _ => None
  end.
Definition coerceToObject (v : value) (s : Schema) : option value :=
  match v with
  | VStr text =>
      let text := TrimSpace text in
      if String.eqb text "" then None
      else match UnmarshalObject text with Some parsed => Some (within s parsed) | None => None end
  | _ => None
  end.
Definition coerceTo (t : string) (v : value) (s : Schema) : option value :=
  if String.eqb t "integer" then VInt <$> coerceToInteger v s
  else if String.eqb t "number" then VFloat <$> coerceToNumber v s
  else if String.eqb t "boolean" then VBool <$> coerceToBoolean v
  else if String.eqb t "string" then VStr <$> coerceToString v
  else if String.eqb t "array" then coerceToArray v s
  else if String.eqb t "object" then coerceToObject v s
  else if String.eqb t "null" then if coerceToNull v then Some VNull else None
  else None.
End Within.

(** [coerceValue]; the height of the schema is enough fuel. *)
Fixpoint coerceWith (fuel : nat) (s : Schema) (v : value) : value * bool :=
  match fuel with
  | 0 => (v, false)
  | S fuel =>
      let types := declaredTypes s in
      let descend := (within (coerceWith fuel) s v, false) in
      if bool_decide (types = []) || valueMatchesAnyType v types then descend
      else match firstOf (λ t, coerceTo (coerceWith fuel) t v s) types with
           | Some coerced => (coerced, true)
           | None => descend
           end
  end.
Definition coerceValue (v : value) (s : Schema) : value * bool := coerceWith (height s) s v.

(** Every argument, where a schema is known of the tool. *)
Definition CoerceArgumentsToSchema (toolName : string) (arguments : list (string * value)) (schemas : gmap string Schema)
    : list (string * value) :=
  match schemas !! toolName with
  | Some s => coerceObject (λ sub v, coerceValue v sub) s arguments
  | None => arguments
  end.

(** *** Enough fuel *)

Lemma firstOf_spec {A B} (f : A → option B) l b : firstOf f l = Some b → ∃ a, a ∈ l ∧ f a = Some b.
Proof.
  induction l as [|a l IH]; [done|]. cbn. destruct (f a) as [b'|] eqn:Hf; intros H.
  - exists a. split; [left|congruence].
  - destruct (IH H) as (a' & Hin & Ha). exists a'. split; [by right|done].
Qed.
Lemma max_of {A} (h : A → nat) l a : a ∈ l → h a ≤ foldr (λ a n, h a `max` n) 0 l.
Proof. induction 1 as [|a b l _ IH]; cbn; lia. Qed.
Lemma propertySchema_eq s key : propertySchema s key =
  match firstOf (λ p : string * Schema, if String.eqb p.1 key then Some p.2 else None) (Properties s) with
  | Some sub => Some sub
  | None => match firstOf (λ b, propertySchema b key) (AllOf s) with
            | Some sub => Some sub
            | None => match firstOf (λ b, propertySchema b key) (AnyOf s) with
                      | Some sub => Some sub
                      | None => firstOf (λ b, propertySchema b key) (OneOf s)
                      end
            end
  end.
Proof. by destruct s. Qed.
Definition tallest (l : list Schema) : nat := foldr (λ b n, height b `max` n) 0 l.
Lemma height_eq s : tallest (snd <$> Properties s) < height s ∧ tallest (AllOf s) < height s ∧ tallest (AnyOf s) < height s ∧
  tallest (OneOf s) < height s ∧ ∀ items, Items s = Some items → height items < height s.
Proof.
  assert (Hf : ∀ l : list (string * Schema), foldr (λ p n, height p.2 `max` n) 0 l = tallest (snd <$> l)).
  { induction l as [|p l IH]; [done|]. cbn. by rewrite IH. }
  destruct s. cbn [height Properties AllOf AnyOf OneOf Items]. rewrite Hf. unfold tallest. split_and!; try lia. intros items ->. lia.
Qed.
Lemma property_height n s key sub : height s ≤ n → propertySchema s key = Some sub → height sub < height s.
Proof.
  revert s. induction n as [|n IH]; intros s Hn; [pose proof (height_eq s); lia|]. destruct (height_eq s) as (H1 & H2 & H3 & H4 & _).
  assert (Hb : ∀ l, tallest l < height s → firstOf (λ b, propertySchema b key) l = Some sub → height sub < height s).
  { intros l Hl (b & Hin & Hsub)%firstOf_spec. pose proof (max_of height _ _ Hin) as Hm. unfold tallest in Hl.
    pose proof (IH b ltac:(lia) Hsub). lia. }
  rewrite propertySchema_eq. destruct (firstOf _ (Properties s)) as [sub'|] eqn:Hp.
  { intros [= <-]. apply firstOf_spec in Hp as ([k s'] & Hin & Hs). cbn in Hs. destruct (String.eqb k key); simplify_eq.
    pose proof (max_of height (snd <$> Properties s) sub' (list_elem_of_fmap_2 snd _ _ Hin)) as Hm. unfold tallest in H1. lia. }
  destruct (firstOf _ (AllOf s)) eqn:Ha; [intros [= ->]; exact (Hb _ H2 Ha)|].
  destruct (firstOf _ (AnyOf s)) eqn:Ho; [intros [= ->]; exact (Hb _ H3 Ho)|]. exact (Hb _ H4).
Qed.
Lemma items_height s items : Items s = Some items → height items < height s.
Proof. apply height_eq. Qed.

(** What a schema makes of a value depends on the schemas within it alone. *)
Section Agree.
Context (f g : Schema → value → value * bool) (s : Schema) (Hfg : ∀ sub v, height sub < height s → f sub v = g sub v).
Lemma within_agree v : within f s v = within g s v.
Proof using Hfg.
  destruct v; try done; cbn; f_equal.
  - unfold coerceItems. destruct (Items s) as [items|] eqn:Hi; [|done]. apply list_fmap_ext. intros i v _. f_equal.
    apply Hfg. by apply items_height.
  - unfold coerceObject. apply list_fmap_ext. intros i [k v] _. cbn. f_equal. destruct (propertySchema s k) as [sub|] eqn:Hp; [|done].
    f_equal. apply Hfg. by apply (property_height (height s) s k).
Qed.
Lemma coerceTo_agree t v : coerceTo f t v s = coerceTo g t v s.
Proof using Hfg.
  unfold coerceTo, coerceToArray, coerceToObject. repeat (case_match; try done); by rewrite within_agree.
Qed.
End Agree.
Lemma coerceWith_fuel n m s v : height s ≤ n → height s ≤ m → coerceWith n s v = coerceWith m s v.
Proof.
  revert m s v. induction n as [|n IH]; intros [|m] s v Hn Hm; [done|pose proof (height_eq s); lia..|]. cbn [coerceWith].
  assert (Hfg : ∀ sub w, height sub < height s → coerceWith n sub w = coerceWith m sub w) by (intros; apply IH; lia).
  rewrite (within_agree _ _ s Hfg). case_match; [done|].
  assert (Hall : ∀ l, firstOf (λ t, coerceTo (coerceWith n) t v s) l = firstOf (λ t, coerceTo (coerceWith m) t v s) l).
  { induction l as [|t l IHl]; [done|]. unfold firstOf in *. cbn. by rewrite (coerceTo_agree _ _ s Hfg), IHl. }
  by rewrite Hall.
Qed.

(** *** What coercion makes of a value *)

Definition isArray (v : value) : Prop := v = VNilArr ∨ ∃ l, v = VArr l.
Definition isObject (v : value) : Prop := v = VNilObj ∨ ∃ ms, v = VObj ms.
(** A number satisfies the schema's bounds, its multiple and its enum. *)
Definition bounded (s : Schema) (v : value) : Prop :=
  match v with
  | VInt n => integerSatisfiesSchema n s = true
  | VFloat f => numberSatisfiesSchema f s = true
  | _ => True
  end.

Lemma within_matches f s v t : valueMatchesType (within f s v) t = valueMatchesType v t.
Proof. by destruct v. Qed.
Lemma within_matchesAny f s v types : valueMatchesAnyType (within f s v) types = valueMatchesAnyType v types.
Proof. unfold valueMatchesAnyType. induction types as [|t types IH]; [done|]. cbn [existsb]. by rewrite IH, within_matches. Qed.
Lemma within_coerceTo f s v t : coerceTo f t (within f s v) s = coerceTo f t v s.
Proof. by destruct v. Qed.
Lemma within_twice f s v : (∀ sub v, f sub (f sub v).1 = ((f sub v).1, false)) → within f s (within f s v) = within f s v.
Proof.
  intros Hf. destruct v as [| | | | |l|ms| |]; try done; cbn; f_equal.
  - unfold coerceItems. destruct (Items s) as [items|]; [|done]. rewrite <- list_fmap_compose.
    apply list_fmap_ext. intros i v _. cbn. by rewrite Hf.
  - unfold coerceObject. rewrite <- list_fmap_compose. apply list_fmap_ext. intros i [k v] _. cbn.
    destruct (propertySchema s k) as [sub|]; [|done]. by rewrite Hf.
Qed.
Lemma ofFloat_bounded g s n : ofFloat g s = Some n → integerSatisfiesSchema n s = true.
Proof. unfold ofFloat. repeat case_match; congruence. Qed.
Lemma coerceToInteger_bounded v s n : coerceToInteger v s = Some n → integerSatisfiesSchema n s = true.
Proof.
  unfold coerceToInteger. destruct v; try done; [apply ofFloat_bounded|]. repeat case_match; try congruence. apply ofFloat_bounded.
Qed.
Lemma coerceToNumber_bounded v s g : coerceToNumber v s = Some g → numberSatisfiesSchema g s = true.
Proof. unfold coerceToNumber. repeat case_match; congruence. Qed.

Section Decoded.
Context (HA : ∀ text v, UnmarshalArray text = Some v → isArray v) (HO : ∀ text v, UnmarshalObject text = Some v → isObject v).
Lemma coerceToArray_spec f v s v' : (∀ sub v, f sub (f sub v).1 = ((f sub v).1, false)) → coerceToArray f v s = Some v' →
  isArray v' ∧ within f s v' = v'.
Proof using HA.
  intros Hf. assert (Hw : ∀ v, isArray v → isArray (within f s v)) by (intros ? [->|[l ->]]; [by left|right; by eexists]).
  unfold coerceToArray. destruct v; try done. destruct (String.eqb _ ""); [done|].
  destruct (UnmarshalArray _) as [parsed|] eqn:Hp; [intros [= <-]|destruct (looksLikeCSV _); [intros [= <-]|done]].
  - split; [apply Hw; by eapply HA|by apply within_twice].
  - split; [apply (Hw (VArr _)); right; by eexists|by apply (within_twice f s (VArr _))].
Qed.
Lemma coerceToObject_spec f v s v' : (∀ sub v, f sub (f sub v).1 = ((f sub v).1, false)) → coerceToObject f v s = Some v' →
  isObject v' ∧ within f s v' = v'.
Proof using HO.
  intros Hf. unfold coerceToObject. destruct v; try done. destruct (String.eqb _ ""); [done|].
  destruct (UnmarshalObject _) as [parsed|] eqn:Hp; [intros [= <-]|done]. split; [|by apply within_twice].
  apply HO in Hp as [->|[ms ->]]; [by left|right; by eexists].
Qed.
Lemma coerceTo_spec f t v s v' : (∀ sub v, f sub (f sub v).1 = ((f sub v).1, false)) → coerceTo f t v s = Some v' →
  valueMatchesType v' t = true ∧ within f s v' = v' ∧ bounded s v'.
Proof using HA HO.
  intros Hf. unfold coerceTo, valueMatchesType.
  destruct (String.eqb_spec t "integer") as [->|]; [intros (n & Hn%coerceToInteger_bounded & ->)%fmap_Some; done|].
  destruct (String.eqb_spec t "number") as [->|]; [intros (g & Hg%coerceToNumber_bounded & ->)%fmap_Some; done|].
  destruct (String.eqb_spec t "boolean") as [->|]; [by intros (b & _ & ->)%fmap_Some|].
  destruct (String.eqb_spec t "string") as [->|]; [by intros (b & _ & ->)%fmap_Some|].
  destruct (String.eqb_spec t "array") as [->|]; [intros [[->|[l ->]] Hw]%coerceToArray_spec; done|].
  destruct (String.eqb_spec t "object") as [->|]; [intros [[->|[l ->]] Hw]%coerceToObject_spec; done|].
  destruct (String.eqb_spec t "null") as [->|]; [|done]. destruct (coerceToNull v); [by intros [= <-]|done].
Qed.
Lemma coerceWith_spec fuel s v : let '(v', changed) := coerceWith fuel s v in
  coerceWith fuel s v' = (v', false) ∧
  if changed : bool then valueMatchesAnyType v (declaredTypes s) = false ∧ valueMatchesAnyType v' (declaredTypes s) = true ∧ bounded s v'
  else ∀ t, valueMatchesType v' t = valueMatchesType v t.
Proof using HA HO.
  revert s v. induction fuel as [|fuel IH]; intros s v; [done|]. cbn [coerceWith].
  assert (Hf : ∀ sub v, coerceWith fuel sub (coerceWith fuel sub v).1 = ((coerceWith fuel sub v).1, false)).
  { intros sub w. pose proof (IH sub w) as H. destruct (coerceWith fuel sub w). apply H. }
  destruct (_ || _) eqn:Hm.
  { split; [|intros t; apply within_matches]. rewrite within_matchesAny, Hm, within_twice; done. }
  destruct (firstOf _ _) as [v'|] eqn:Hfirst.
  - apply firstOf_spec in Hfirst as (t & Hin & Ht). apply coerceTo_spec in Ht as (Hmatch & Hw & Hb); [|done].
    assert (Hany : valueMatchesAnyType v' (declaredTypes s) = true) by (apply existsb_exists; exists t; by rewrite <- list_elem_of_In).
    apply orb_false_iff in Hm as [_ Hm]. rewrite Hany, orb_true_r, Hw. done.
  - split; [|intros t; apply within_matches]. rewrite within_matchesAny, Hm, within_twice by done.
    assert (Hsame : ∀ l, firstOf (λ t, coerceTo (coerceWith fuel) t (within (coerceWith fuel) s v) s) l =
      firstOf (λ t, coerceTo (coerceWith fuel) t v s) l).
    { induction l as [|t l IHl]; [done|]. unfold firstOf in *. cbn. by rewrite within_coerceTo, IHl. }
    by rewrite Hsame, Hfirst.
Qed.
End Decoded.

(** An argument that is coerced was of none of the types its schema
    declares and becomes of one, a number within the schema's bounds, multiple
    and enum; one that is not keeps its kind; coercing again changes nothing
    more; and the height of the schema is fuel enough. *)
Theorem coercion_satisfies s v :
  (∀ text v, UnmarshalArray text = Some v → isArray v) → (∀ text v, UnmarshalObject text = Some v → isObject v) →
  let '(v', changed) := coerceValue v s in
  (if changed : bool
   then valueMatchesAnyType v (declaredTypes s) = false ∧ valueMatchesAnyType v' (declaredTypes s) = true ∧ bounded s v'
   else ∀ t, valueMatchesType v' t = valueMatchesType v t) ∧
  coerceValue v' s = (v', false) ∧ ∀ n, height s ≤ n → coerceWith n s v = (v', changed).
Proof.
  intros HA HO. unfold coerceValue. pose proof (coerceWith_spec HA HO (height s) s v) as H.
  assert (Hn : ∀ n, height s ≤ n → coerceWith n s v = coerceWith (height s) s v) by (intros n Hle; by apply coerceWith_fuel).
  destruct (coerceWith (height s) s v) as [v' changed]. destruct H as [H1 H2]. done.
Qed.
End Coercion.

(** ** Witnesses *)
Module Witness.

(** A list of integers from 1 to 5, and what a model sends for one. *)
Definition whole0 (text : string) : option f64 := (λ n, Fin (inject_Z n)) <$> Atoi text.
Definition float0 (n : Z) : f64 := Fin (inject_Z n).
Definition plain0 (ty : string) (items : option Schema) (low high : option Q) : Schema :=
  mkSchema ty [] [] [] [] [] items low high None None None [].
Definition schema0 : Schema := plain0 "array" (Some (plain0 "integer" None (Some (inject_Z 1)) (Some (inject_Z 5)))) None None.
Definition nothing0 (_ : string) : option value := None.
Abbreviation coerced0 := (coerceValue whole0 float0 (λ _, 0%Z) (λ _, ""%string) nothing0 nothing0).
Example coerced0_list : coerced0 (VStr "3, 4,9") schema0 = (VArr [VInt 3; VInt 4; VStr "9"], true).
Proof. vm_compute. reflexivity. Qed.
Lemma coercion_satisfies_witness : coerced0 (VArr [VInt 3; VInt 4; VStr "9"]) schema0 = (VArr [VInt 3; VInt 4; VStr "9"], false).
Proof.
  pose proof (coercion_satisfies whole0 float0 (λ _, 0%Z) (λ _, ""%string) nothing0 nothing0 schema0 (VStr "3, 4,9")
    (λ _ _ H, ltac:(discriminate H)) (λ _ _ H, ltac:(discriminate H))) as H.
  rewrite coerced0_list in H. exact (proj1 (proj2 H)).
Defined.
End Witness.
End Tools.
