(* ===== verification/Results.v ===== *)
(** * What tools return, as it is shown and read: internal/domain widgets.go
    and thread.go, internal/engine citations.go

    The arguments a widget is drawn with; the client's copy of a tool's
    result and what a search shows while it runs; and the model's copy, with
    the pages its answer may link. *)

From S2P Require Import Prelude GoStd Api Seal Chat Timeline Questions Prompt Tools.
From stdpp Require Import pretty.
From Stdlib Require Import QArith_base.
Local Open Scope nat_scope.
Local Open Scope go_scope.

Module Results.
Import GoStd Api Chat.
Import Questions(cat, nl).

Section Results.
Context `{JS : Seal.Json}.
(** [json.Marshal] and [json.Unmarshal] of any value, [json.Valid], and the
    decoding of one value with its numbers kept. *)
Context (Raw : any → string) (Unmarshal : string → option any) (Valid : string → bool) (decodeJSONValue : string → option any).

(** ** A widget's arguments *)

Definition opensValue (s : string) : bool := String.prefix "{" s || String.prefix "[" s.
Section Deeper.
Context (deeper : any → any * bool).
(** [deepUnwrapJSONStrings], where [deeper] unwraps what a string holds. *)
Fixpoint unwrapWith (v : any) : any * bool :=
  match v with
  | AStr s =>
      let trimmed := TrimSpace s in
      if negb (opensValue trimmed) then (v, false)
      else match decodeJSONValue trimmed with
           | None => (v, false)
           | Some nested => ((deeper nested).1, true)
           end
  | AArr l => (AArr ((λ item, (unwrapWith item).1) <$> l), existsb (λ item, (unwrapWith item).2) l)
  | AObj ms =>
      (AObj ((λ m : string * any, (m.1, (unwrapWith m.2).1)) <$> ms), existsb (λ m : string * any, (unwrapWith m.2).2) ms)
  | v => (v, false)
  end.
End Deeper.
(** The longest string of a value, and one more: a string within a value a
    string holds is shorter, so that is enough fuel. *)
Fixpoint deepest (v : any) : nat :=
  match v with
  | AStr s => S (String.length s)
  | AArr l => foldr (λ item n, deepest item `max` n) 0 l
  | AObj ms => foldr (λ (m : string * any) n, deepest m.2 `max` n) 0 ms
  | _ => 0
  end.
Fixpoint unwrap (fuel : nat) (v : any) : any * bool :=
  match fuel with 0 => (v, false) | S fuel => unwrapWith (unwrap fuel) v end.
Definition deepUnwrapJSONStrings (v : any) : any * bool := unwrap (S (deepest v)) v.

Definition CanonicalizeWidgetArguments (raw : string) : string :=
  let trimmed := TrimSpace raw in
  if negb (opensValue trimmed) then raw
  else match decodeJSONValue trimmed with
       | None => raw
       | Some decoded =>
           let '(unwrapped, changed) := deepUnwrapJSONStrings decoded in
           if changed : bool then Raw unwrapped else raw
       end.
Definition WidgetArguments (raw : string) : string :=
  CanonicalizeWidgetArguments
    match Prompt.SanitizeToolCallArgumentsJSON Valid raw with
    | Some repaired => if Valid repaired then repaired else raw
    | None => raw
    end.

(** ** The client's copy of a result *)

Definition MaxShownOutput : Z := 1048576.
Definition truncatedMark : string := String "010" "[truncated]".
(** [take]: what is left of the budget, and the text shown. *)
Definition takeShown (budget : Z) (s : string) : Z * string :=
  let s := if bool_decide (budget < Z.of_nat (String.length s))%Z
           then String.append (String.substring 0 (Z.to_nat budget) s) truncatedMark else s in
  ((budget - budget `min` Z.of_nat (String.length s))%Z, s).

Definition trimmed (v : option any) : string := TrimSpace (Str v).
Definition optional (name text : string) : list (string * any) := if String.eqb text "" then [] else [(name, AStr text)].

(** [piiReport]; an offset is a whole number a float holds. *)
Context (wholeNumber : string → option Z).
Definition piiOffset (v : option any) : option Z := match v with Some (ANum lit) => wholeNumber lit | _ => None end.
Definition redaction (item : any) : option any :=
  let span := Obj (Some item) in
  match piiOffset (member span "start"), piiOffset (member span "end") with
  | Some start, Some end_ =>
      Some (AObj [("type", AStr (Str (member span "type"))); ("start", ANum (pretty start)); ("end", ANum (pretty end_))]%string)
  | _, _ => None
  end.
Definition piiReport (result : any) : any :=
  AObj [("masked", ABool (Bool (member result "pii_masked") false)); ("redacted_query", AStr (Str (member result "redacted_query")));
        ("redactions", AArr (omap redaction (Arr (member result "pii_redactions"))))]%string.

(** The rows of a search, each URL once, within what is left to show. *)
Fixpoint searchRows (results : list any) (seen : gset string) (budget : Z) : list any :=
  match results with
  | [] => []
  | r :: results =>
      let row := Obj (Some r) in
      let url := trimmed (member row "url") in
      if String.eqb url "" || bool_decide (url ∈ seen) then searchRows results seen budget
      else
        let '(budget, snippet) := takeShown budget (FirstString [member row "snippet"; member row "content"; member row "text"]) in
        AObj ([("url", AStr url); ("title", AStr (trimmed (member row "title"))); ("snippet", AStr snippet)]%string ++
              optional "publishedDate" (trimmed (member row "published_date")) ++
              optional "author" (trimmed (member row "author"))) ::
        searchRows results ({[url]} ∪ seen) budget
  end.
Definition searchResult (value args : any) : any :=
  AObj ([("query", default ANull (member args "query")); ("results", AArr (searchRows (Arr (member value "results")) ∅ MaxShownOutput))]%string ++
        (if Bool (member value "pii_checked") false then [("pii", piiReport value)]%string else [])).

(** The pages fetched, and the first one's URL and text, which is shown
    twice. *)
Fixpoint fetchPages (pages : list any) (first : option (string * string)) (budget : Z) : list any * option (string * string) :=
  match pages with
  | [] => ([], first)
  | p :: pages =>
      let page := Obj (Some p) in
      let url := trimmed (member page "url") in
      if String.eqb url "" then fetchPages pages first budget
      else
        let '(budget, text) := takeShown budget (FirstString [member page "content"; member page "text"]) in
        let '(budget, first) := match first with
                                | Some f => (budget, Some f)
                                | None => let '(budget, again) := takeShown budget text in (budget, Some (url, again))
                                end in
        let '(rest, first) := fetchPages pages first budget in
        (AObj [("url", AStr url); ("title", AStr "Fetched page"); ("text", AStr text)]%string :: rest, first)
  end.
Definition failedFetches (results : list any) : list any :=
  omap (λ r, let result := Obj (Some r) in
             if String.eqb (Str (member result "status")) "completed" then None
             else Some (AObj [("url", default ANull (member result "url")); ("error", default ANull (member result "error"))]%string)) results.
Definition fetchResult (value args : any) : any :=
  let '(pages, first) := fetchPages (Arr (member value "pages")) None MaxShownOutput in
  let '(url, text) := match first with
                      | Some f => f
                      | None => (FirstString (Some <$> Arr (member args "urls")), ""%string)
                      end in
  AObj [("url", AStr url); ("title", AStr "Fetched page"); ("text", AStr text); ("pages", AArr pages);
        ("failed", AArr (failedFetches (Arr (member value "results"))))]%string.

(** [path.Base]. *)
Fixpoint dropSlashes (l : list ascii) : list ascii := match l with c :: l' => if Ascii.eqb c "/" then dropSlashes l' else l | [] => [] end.
Fixpoint untilSlash (l : list ascii) : list ascii := match l with c :: l' => if Ascii.eqb c "/" then [] else c :: untilSlash l' | [] => [] end.
Definition pathBase (s : string) : string :=
  if String.eqb s "" then "."
  else match dropSlashes (rev (bytes_of s)) with [] => "/" | l => string_of (rev (untilSlash l)) end.
Example base_of : pathBase "a/b.txt" = "b.txt"%string ∧ pathBase "//" = "/"%string ∧ pathBase "a/" = "a"%string.
Proof. done. Qed.

(** The code fence a presented file is in: its language and its contents. *)
Fixpoint backticks (l : list ascii) : nat := match l with c :: l => if Ascii.eqb c "`" then S (backticks l) else 0 | [] => 0 end.
Definition fenced (content : string) : string * string :=
  match CutAt content (String "010" "") with
  | None => ("", content)%string
  | Some (header, rest) =>
      let fence := String.substring 0 (backticks (bytes_of header)) header in
      if bool_decide (3 ≤ String.length fence)
      then (Timeline.TrimPrefix header fence, Timeline.TrimSuffix rest (String "010" fence))
      else ("", content)%string
  end.
Definition presentResult (value args : any) (content : string) : any :=
  match member value "filename" with
  | Some _ => value
  | None =>
      let '(language, body) := fenced content in
      AObj [("filename", AStr (pathBase (Str (member args "path")))); ("language", AStr language);
            ("content", AStr (takeShown MaxShownOutput body).2)]%string
  end.

Definition NormalizeToolResult (name arguments content : string) : any :=
  let result := match Unmarshal content with Some v => v | None => AObj [("output", AStr content)]%string end in
  let value := Obj (Some result) in
  let args := Obj (Unmarshal (Prompt.HistoryArgs Valid arguments)) in
  if String.prefix "render_" name then result
  else if String.eqb name "web_search" then searchResult value args
  else if String.eqb name "web_fetch" then fetchResult value args
  else if String.eqb name "present" then presentResult value args content
  else AObj [("output", AStr (takeShown MaxShownOutput (or (FirstString [member value "output"; member value "stdout"]) content)).2)]%string.
Definition ToolError : any := AObj [("error", AStr "tool_error")]%string.

(** ** What a search shows: thread.go

    Struct fields are matched to members as [encoding/json] matches them; one
    of the wrong type reads as absent. *)
Definition fieldOf (v : any) (name : string) : option any :=
  match v with AObj ms => foldl (λ acc (m : string * any), if Seal.EqualFold m.1 name then Some m.2 else acc) None ms | _ => None end.
Definition displaySource (v : any) : DisplaySource :=
  mkSource (Str (fieldOf v "url")) (Str (fieldOf v "title")) (Str (fieldOf v "snippet")).
Definition SearchDisplay (name args : string) (result : RawMessage) : option ToolDisplay :=
  if negb (String.eqb name "web_search") && negb (String.eqb name "web_fetch") then None
  else
    let arguments := default ANull (Unmarshal (Prompt.HistoryArgs Valid args)) in
    let shown := default ANull (result ≫= Unmarshal) in
    let status := match result with
                  | None => "running"
                  | Some r => if String.eqb r "" || String.eqb r "null" then "running"
                              else if bool_decide (is_Some (fieldOf shown "error")) then "failed" else "completed"
                  end%string in
    Some
      (if String.eqb name "web_search"
       then mkDisplay (or (Str (fieldOf shown "query")) (Str (fieldOf arguments "query"))) "" status
              (displaySource <$> Arr (fieldOf shown "results"))
       else
         let url := or (Str (fieldOf shown "url")) (Str (fieldOf arguments "url")) in
         let url := if String.eqb url "" then Str (head (Arr (fieldOf arguments "urls"))) else url in
         mkDisplay "" url status
           ((λ p, let s := displaySource p in mkSource (s_URL s) (s_Title s) "") <$> Arr (fieldOf shown "pages"))).

(** ** The model's copy, and its citations: citations.go *)

Record citationSource := mkCited { src_url : string; src_title : string }.

Definition line (label : string) (text : string) : string := cat [label; text; nl].
Definition optionalLine (label text : string) : string := if String.eqb text "" then "" else line label text.
Definition isObject (v : any) : bool := match v with AObj _ => true | _ => false end.

Definition formatSearchOutput (raw : option any) : string :=
  match Arr raw with
  | [] => "No safe search results were found."
  | results =>
      TrimSpace (cat ((λ r,
        cat [line "Source: " (or (trimmed (member r "title")) "Search result"); optionalLine "URL: " (trimmed (member r "url"));
             optionalLine "Published: " (trimmed (member r "published_date")); optionalLine "" (trimmed (member r "content")); nl])
        <$> List.filter isObject results))
  end.
Definition formatFetchOutput (raw : option any) : string :=
  TrimSpace (cat ((λ p,
    cat [line "Source: Fetched page" ""; optionalLine "URL: " (trimmed (member p "url"));
         optionalLine "" (trimmed (member p "content")); nl]) <$> List.filter isObject (Arr raw))).
Definition fetchFailure (r : any) : option string :=
  if negb (isObject r) || String.eqb (trimmed (member r "status")) "completed" then None
  else
    let url := trimmed (member r "url") in
    let failure := trimmed (member r "error") in
    if negb (String.eqb url "") && negb (String.eqb failure "") then Some (cat ["Fetch failed for "; url; ": "; failure]%string)
    else if negb (String.eqb url "") then Some (cat ["Fetch failed for "; url; "."]%string)
    else if negb (String.eqb failure "") then Some (String.append "Fetch failed: " failure)
    else None.
Definition formatFetchFailures (raw : option any) : string := Join (omap fetchFailure (Arr raw)) nl.

Definition modelCopy (name content : string) : string * list citationSource :=
  match Unmarshal content with
  | Some (AObj (_ :: _) as value) =>
      let '(formatted, sources) :=
        if String.eqb name "web_search"
        then (formatSearchOutput (member value "results"),
              (λ item, let item := Obj (Some item) in mkCited (trimmed (member item "url")) (trimmed (member item "title")))
                <$> Arr (member value "results"))
        else if String.eqb name "web_fetch"
        then (or (formatFetchOutput (member value "pages")) (formatFetchFailures (member value "results")),
              (λ item, mkCited (trimmed (member (Obj (Some item)) "url")) "Fetched page") <$> Arr (member value "pages"))
        else (""%string, []) in
      (or formatted content, sources)
  | _ => (content, [])
  end.
End Results.
End Results.
