(* ===== verification/Controlplane.v ===== *)
(** * The control plane: internal/controlplane client.go and the cpstub
    server

    The requests the store makes of the service that keeps the rows, as
    programs that send HTTP requests and read what answers come, and the
    service as its stub serves them. *)

From S2P Require Import Prelude GoStd Codec Aad.
From stdpp Require Import pretty sorting.

Module Controlplane.
Import GoStd Codec Aad.

(** ** Programs

    What a goroutine of the store does: it returns, panics, sends a request
    and waits for its reply, asks whether its context has ended, draws
    random bytes or an id, or reads the clock. *)

Record headers := mkHeaders {
  h_ETag : string;
  h_KeyID : string;
  h_ProjectIDSet : string;
  h_ProjectID : string;
  h_ActivityAt : option Z;
  h_UpdatedAt : option Z;
  h_SearchIndexFenced : bool;
}.
#[global] Instance headers_eta : Eta headers := λ h,
  mkHeaders (h_ETag h) (h_KeyID h) (h_ProjectIDSet h) (h_ProjectID h) (h_ActivityAt h) (h_UpdatedAt h) (h_SearchIndexFenced h).
Definition noHeaders : headers := mkHeaders "" "" "" "" None None false.

(** A content key wrapped under a passkey, as it is registered and as it is
    kept; a time is kept as it is. *)
Record RegisterKeyBundle := mkBundle { b_CredentialID : string; b_KEKIV : string; b_EncryptedKeys : string }.
Record CurrentKeyBundle := mkCurrentBundle { cb_bundle : RegisterKeyBundle; cb_RegisteredAt : Z }.

(** The members of a JSON answer that are read of one. *)
Record answer := mkAnswer {
  a_etag : string;
  a_key_id : string;
  a_source_revision : Z;
  a_ok : bool;
  a_wiped : list string;
  a_code : string;
  a_current_key_id : string;
  a_missing : list string;
  a_retry : Z;
  a_bundles : gmap string CurrentKeyBundle;
  a_created_via : string;
  a_created_at : option Z;
  a_has_data : bool;
  a_object_key : string;
}.
#[global] Instance answer_eta : Eta answer := λ a,
  mkAnswer (a_etag a) (a_key_id a) (a_source_revision a) (a_ok a) (a_wiped a) (a_code a) (a_current_key_id a)
    (a_missing a) (a_retry a) (a_bundles a) (a_created_via a) (a_created_at a) (a_has_data a) (a_object_key a).
Definition noAnswer : answer := mkAnswer "" "" 0 false [] "" "" [] 0 ∅ "" None false "".

(** A body: bytes, or one JSON object; [cut] when reading it failed after
    this much of it. *)
Inductive content := Bytes (b : bytes) | Json (a : answer).
Record response := mkResponse { Status : Z; Header : headers; Content : content; cut : bool }.
#[global] Instance response_eta : Eta response := λ r, mkResponse (Status r) (Header r) (Content r) (cut r).

(** What comes of a request: nothing, or a response. *)
Inductive reply := Failed | Replied (r : response).

Inductive route :=
  | RBlob (scope id : string) | RRewrap | RActivity | RCurrentKey
  | RKeys | RBundles (kid : string) | RBundle (kid cid : string) | RSearchIndex.
Inductive payload :=
  | QNone
  | QBytes (b : bytes)
  | QRewrap (scope id key_id if_match : string) (ciphertext : bytes)
  | QActivity (id etag : string) (at_ : Z)
  | QRegister (key_id created_via : string) (initial_bundle : option RegisterKeyBundle)
  | QBundle (b : RegisterKeyBundle).

(** A request by its method, its path and what [net/http] routes it to, its
    headers and its body; an absent header is empty. *)
Record request := mkRequest {
  q_method : string;
  q_path : string;
  q_route : route;
  q_user : string;
  q_KeyID : string;
  q_IfMatch : string;
  q_Idempotency : string;
  q_OperationHash : string;
  q_Protocol : string;
  q_ProjectIDSet : bool;
  q_ProjectID : string;
  q_AttachmentRefs : option string;
  q_ActivityAt : option Z;
  q_body : payload;
}.

Inductive prog (A : Type) : Type :=
  | Ret (a : A)
  | Panic
  | Send (q : request) (k : reply → prog A)
  | Ended (k : bool → prog A)
  | Draw (n : nat) (k : bytes → prog A)
  | NewID (k : string → prog A)
  | Now (k : Z → prog A).
Arguments Ret {A} a.
Arguments Panic {A}.
Arguments Send {A} q k.
Arguments Ended {A} k.
Arguments Draw {A} n k.
Arguments NewID {A} k.
Arguments Now {A} k.

#[global] Instance prog_ret : MRet prog := @Ret.
Fixpoint prog_bind {A B} (f : A → prog B) (p : prog A) : prog B :=
  match p with
  | Ret a => f a
  | Panic => Panic
  | Send q k => Send q (λ r, prog_bind f (k r))
  | Ended k => Ended (λ b, prog_bind f (k b))
  | Draw n k => Draw n (λ b, prog_bind f (k b))
  | NewID k => NewID (λ s, prog_bind f (k s))
  | Now k => Now (λ t, prog_bind f (k t))
  end.
#[global] Instance prog_mbind : MBind prog := @prog_bind.

Definition send (q : request) : prog reply := Send q Ret.
Definition ended : prog bool := Ended Ret.
Definition draw (n : nat) : prog bytes := Draw n Ret.
Definition newID : prog string := NewID Ret.
Definition now : prog Z := Now Ret.

(** ** client.go *)

Definition IfMatchCreateOnly : string := "0".
Definition IfMatchAnyKey : string := "*".
Definition ProfileSyncProtocolV2 : Z := 2.
Definition StatusPreconditionRequired : string := "PRECONDITION_REQUIRED".
Definition StatusStaleKey : string := "STALE_KEY".
Definition StatusStaleBlob : string := "STALE_BLOB".
Definition StatusProfileSyncUpgradeRequired : string := "PROFILE_SYNC_UPGRADE_REQUIRED".
Definition StatusMissingAttachment : string := "MISSING_ATTACHMENT".
Definition StatusExistingDataUnderOtherKey : string := "EXISTING_DATA_UNDER_OTHER_KEY".
Definition StatusIdempotencyConflict : string := "IDEMPOTENCY_CONFLICT".
Definition PutBlobMaxAttempts : nat := 2.

(** [Error] by what is read of it. *)
Record Error := mkError {
  StatusCode : Z;
  Code : string;
  CurrentKeyID : string;
  MissingAttachments : list string;
  RetryAfterSeconds : Z;
}.

Inductive PutBlobAmbiguity :=
  | PutBlobTransportFailure | PutBlobUpstreamFailure | PutBlobResponseRead | PutBlobResponseDecode | PutBlobInvalidResponse.

(** An error of the client, and the [Error] one of [PutBlob] wraps; the
    context's; any other. *)
Inductive error :=
  | EStatus (e : Error)
  | EAmbiguous (kind : PutBlobAmbiguity) (inner : option Error)
  | EUnknown (kind : PutBlobAmbiguity) (inner : option Error)
  | EContext
  | EOther.

(** [errors.As] an [Error]. *)
Definition asError (e : error) : option Error :=
  match e with EStatus e => Some e | EAmbiguous _ i | EUnknown _ i => i | _ => None end.
Definition IsCode (e : error) (code : string) : bool :=
  match asError e with Some e => String.eqb (Code e) code | None => false end.

Definition parseError (status : Z) (c : content) : Error :=
  match c with
  | Json a => mkError status (a_code a) (a_current_key_id a) (a_missing a) (a_retry a)
  | Bytes _ => mkError status "" "" [] 0
  end.

(** [url.PathEscape]. *)
Definition unreserved (c : ascii) : bool :=
  let n := byte_of c in
  bool_decide (48 ≤ n ≤ 57)%Z || bool_decide (65 ≤ n ≤ 90)%Z || bool_decide (97 ≤ n ≤ 122)%Z ||
  existsb (Ascii.eqb c) ["-"; "_"; "."; "~"; "$"; "&"; "+"; ":"; "="; "@"]%char.
Definition upperhex (n : Z) : ascii := default "0"%char (bytes_of "0123456789ABCDEF" !! Z.to_nat n).
Definition escapeByte (c : ascii) : bytes :=
  if unreserved c then [c] else ["%"%char; upperhex (Z.shiftr (byte_of c) 4); upperhex (Z.land (byte_of c) 15)].
Definition PathEscape (s : string) : string := string_of (concat (escapeByte <$> bytes_of s)).

(** The bytes before and after the first slash. *)
Fixpoint cutSlash (l : bytes) : option (bytes * bytes) :=
  match l with
  | [] => None
  | c :: l => if Ascii.eqb c "/" then Some ([], l) else (λ x, (c :: x.1, x.2)) <$> cutSlash l
  end.
Definition splitProjectDocID (id : string) : option (string * string) :=
  match cutSlash (bytes_of id) with
  | Some (parent, doc) =>
      if bool_decide (parent = []) || bool_decide (doc = []) then None else Some (string_of parent, string_of doc)
  | None => None
  end.

Definition PathFor (scope id : string) : option string :=
  if String.eqb scope "chat" then Some (String.append "/api/sync/blob/chat/" (PathEscape id))
  else if String.eqb scope "profile" then Some "/api/sync/blob/profile"
  else if String.eqb scope "project" then Some (String.append "/api/sync/blob/project/" (PathEscape id))
  else if String.eqb scope "project_document" then
    match splitProjectDocID id with
    | Some (parent, doc) =>
        Some (String.append "/api/sync/blob/project_document/" (String.append (PathEscape parent) (String.append "/" (PathEscape doc))))
    | None => None
    end
  else None.

Record PutBlobRequest := mkPutBlob {
  p_Scope : string;
  p_ID : string;
  p_ClerkUserID : string;
  p_KeyIDHex : string;
  p_IfMatch : string;
  p_IdempotencyKey : string;
  p_OperationHash : string;
  p_ProfileSyncProtocol : Z;
  p_Rewrap : bool;
  p_Ciphertext : bytes;
  p_ProjectIDSet : bool;
  p_ProjectID : option string;
  p_AttachmentRefs : option (list string);
  p_ActivityAt : option Z;
}.
#[global] Instance PutBlobRequest_eta : Eta PutBlobRequest := λ p,
  mkPutBlob (p_Scope p) (p_ID p) (p_ClerkUserID p) (p_KeyIDHex p) (p_IfMatch p) (p_IdempotencyKey p) (p_OperationHash p)
    (p_ProfileSyncProtocol p) (p_Rewrap p) (p_Ciphertext p) (p_ProjectIDSet p) (p_ProjectID p) (p_AttachmentRefs p)
    (p_ActivityAt p).
Record PutBlobResponse := mkPutResponse { pr_ETag : string; pr_KeyID : string; pr_SourceRevision : Z }.

Definition isRetryablePutBlobStatus (status : Z) : bool := bool_decide (500 ≤ status ≤ 599)%Z.

Definition httpPut (req : PutBlobRequest) (path : string) : request :=
  mkRequest "PUT" path (RBlob (p_Scope req) (p_ID req)) (p_ClerkUserID req) (p_KeyIDHex req) (p_IfMatch req)
    (p_IdempotencyKey req) (p_OperationHash req)
    (if bool_decide (0 < p_ProfileSyncProtocol req)%Z then pretty (p_ProfileSyncProtocol req) else "")
    (p_ProjectIDSet req) (if p_ProjectIDSet req then default "" (p_ProjectID req) else "")
    ((λ refs, Join refs ",") <$> p_AttachmentRefs req) (p_ActivityAt req) (QBytes (p_Ciphertext req)).

(** What [putBlobOnce] makes of what came of its request. *)
Definition readPut (keyIDHex : string) (r : reply) : result error PutBlobResponse :=
  match r with
  | Failed => Err (EAmbiguous PutBlobTransportFailure None)
  | Replied r =>
      if bool_decide (400 ≤ Status r)%Z then
        let e := parseError (Status r) (Content r) in
        Err (if isRetryablePutBlobStatus (Status r) then EAmbiguous PutBlobUpstreamFailure (Some e) else EStatus e)
      else if cut r then Err (EAmbiguous PutBlobResponseRead None)
      else
        match Content r with
        | Bytes _ => Err (EAmbiguous PutBlobResponseDecode None)
        | Json a =>
            let headerETag := h_ETag (Header r) in
            let headerKeyID := h_KeyID (Header r) in
            if String.eqb (a_etag a) "" && String.eqb headerETag "" then Err (EAmbiguous PutBlobInvalidResponse None)
            else if negb (String.eqb (a_etag a) "") && negb (String.eqb headerETag "") && negb (String.eqb (a_etag a) headerETag)
            then Err (EAmbiguous PutBlobInvalidResponse None)
            else if negb (String.eqb (a_key_id a) "") && negb (String.eqb headerKeyID "") && negb (String.eqb (a_key_id a) headerKeyID)
            then Err (EAmbiguous PutBlobInvalidResponse None)
            else
              let or (a b : string) := if String.eqb a "" then b else a in
              Ok (mkPutResponse (or (a_etag a) headerETag) (or (or (a_key_id a) headerKeyID) keyIDHex) (a_source_revision a))
        end
  end.

Definition putBlobOnce (req : PutBlobRequest) : prog (result error PutBlobResponse) :=
  match PathFor (p_Scope req) (p_ID req) with
  | None => Ret (Err EOther)
  | Some path => r ← send (httpPut req path); Ret (readPut (p_KeyIDHex req) r)
  end.

Definition RewrapPath : string := "/api/sync/rewrap".

Definition httpRewrap (req : PutBlobRequest) : request :=
  mkRequest "POST" RewrapPath RRewrap (p_ClerkUserID req) "" "" (p_IdempotencyKey req) (p_OperationHash req) "" false "" None
    None (QRewrap (p_Scope req) (p_ID req) (p_KeyIDHex req) (p_IfMatch req) (p_Ciphertext req)).

Definition rewrapBlob (req : PutBlobRequest) : prog (result error PutBlobResponse) :=
  r ← send (httpRewrap req);
  Ret match r with
      | Failed => Err EOther
      | Replied r =>
          if bool_decide (400 ≤ Status r)%Z then Err (EStatus (parseError (Status r) (Content r)))
          else match Content r with
               | Bytes _ => Err EOther
               | Json a =>
                   if String.eqb (a_etag a) "" then Err EOther
                   else Ok (mkPutResponse (a_etag a) (if String.eqb (a_key_id a) "" then p_KeyIDHex req else a_key_id a) 0)
               end
      end.

(** The loop of [PutBlob] with [tries] attempts left; it panics past the last. *)
Fixpoint putAttempts (tries : nat) (req : PutBlobRequest) : prog (result error PutBlobResponse) :=
  match tries with
  | 0 => Panic
  | S tries =>
      over ← ended;
      if over : bool then Ret (Err EContext)
      else
        r ← putBlobOnce req;
        match r with
        | Err (EAmbiguous kind inner) =>
            over ← ended;
            if over || Nat.eqb tries 0 then Ret (Err (EUnknown kind inner)) else putAttempts tries req
        | r => Ret r
        end
  end.
Definition PutBlob (req : PutBlobRequest) : prog (result error PutBlobResponse) :=
  if p_Rewrap req then rewrapBlob req else putAttempts PutBlobMaxAttempts req.

Record GetBlobResponse := mkGetResponse {
  g_Ciphertext : bytes;
  g_ETag : string;
  g_KeyID : string;
  g_ProjectIDSet : bool;
  g_ProjectID : option string;
  g_ActivityAt : option Z;
  g_UpdatedAt : option Z;
}.

Definition bare (method path : string) (to : route) (user : string) : request :=
  mkRequest method path to user "" "" "" "" "" false "" None None QNone.

Definition maxBlobBytes : Z := Z.shiftl 64 20.
(** [io.LimitReader]. *)
Definition limited (b : bytes) : bytes :=
  if bool_decide (Z.of_nat (length b) ≤ maxBlobBytes)%Z then b else take (Z.to_nat maxBlobBytes) b.

Definition readGet (scope : string) (r : reply) : result error GetBlobResponse :=
  match r with
  | Failed => Err EOther
  | Replied r =>
      if cut r then Err EOther
      else if bool_decide (400 ≤ Status r)%Z then Err (EStatus (parseError (Status r) (Content r)))
      else match Content r with
           | Json _ => Err EOther
           | Bytes b =>
               let h := Header r in
               let chat := String.eqb scope "chat" in
               let set := chat && String.eqb (h_ProjectIDSet h) "1" in
               Ok (mkGetResponse (limited b) (h_ETag h) (h_KeyID h) set
                     (if set && negb (String.eqb (h_ProjectID h) "") then Some (h_ProjectID h) else None)
                     (if chat then h_ActivityAt h else None) (h_UpdatedAt h))
           end
  end.
Definition GetBlob (scope id user : string) : prog (result error GetBlobResponse) :=
  match PathFor scope id with
  | None => Ret (Err EOther)
  | Some path => r ← send (bare "GET" path (RBlob scope id) user); Ret (readGet scope r)
  end.

Record DeleteBlobRequest := mkDelete {
  d_Scope : string;
  d_ID : string;
  d_ClerkUserID : string;
  d_IfMatch : string;
  d_IdempotencyKey : string;
  d_OperationHash : string;
}.
Record DeleteBlobResponse := mkDeleteResponse { dr_OK : bool; dr_WipedV2Attachments : list string; dr_SourceRevision : Z }.

Definition httpDelete (req : DeleteBlobRequest) (path : string) : request :=
  mkRequest "DELETE" path (RBlob (d_Scope req) (d_ID req)) (d_ClerkUserID req) "" (d_IfMatch req) (d_IdempotencyKey req)
    (d_OperationHash req) "" false "" None None QNone.
Definition readDelete (r : reply) : result error DeleteBlobResponse :=
  match r with
  | Failed => Err EOther
  | Replied r =>
      if bool_decide (400 ≤ Status r)%Z then Err (EStatus (parseError (Status r) (Content r)))
      else match Content r with
           | Bytes [] => Ok (mkDeleteResponse false [] 0)
           | Bytes _ => Err EOther
           | Json a => Ok (mkDeleteResponse (a_ok a) (a_wiped a) (a_source_revision a))
           end
  end.
Definition DeleteBlob (req : DeleteBlobRequest) : prog (result error DeleteBlobResponse) :=
  match PathFor (d_Scope req) (d_ID req) with
  | None => Ret (Err EOther)
  | Some path => r ← send (httpDelete req path); Ret (readDelete r)
  end.

Definition ChatActivityPath : string := "/api/sync/chat-activity".
Definition BackfillChatActivity (user id etag : string) (activityAt : Z) : prog (result error unit) :=
  r ← send (mkRequest "POST" ChatActivityPath RActivity user "" "" "" "" "" false "" None None (QActivity id etag activityAt));
  Ret match r with
      | Failed => Err EOther
      | Replied r =>
          if bool_decide (400 ≤ Status r)%Z then Err (EStatus (parseError (Status r) (Content r))) else Ok tt
      end.

(** *** The key registry *)

(** The registered key; of no key, its id is empty. *)
Record CurrentKeyResponse := mkCurrentKey {
  ck_KeyID : string;
  ck_ETag : string;
  ck_Bundles : gmap string CurrentKeyBundle;
  ck_CreatedVia : string;
  ck_CreatedAt : option Z;
  ck_HasData : bool;
}.
(** [None] without a registry for the caller. *)
Definition GetCurrentKey (user : string) : prog (result error (option CurrentKeyResponse)) :=
  r ← send (bare "GET" "/api/sync/keys/current" RCurrentKey user);
  Ret match r with
      | Failed => Err EOther
      | Replied r =>
          if bool_decide (Status r = 404)%Z then Ok None
          else if bool_decide (400 ≤ Status r)%Z then Err (EStatus (parseError (Status r) (Content r)))
          else match Content r with
               | Json a => Ok (Some (mkCurrentKey (a_key_id a) (a_etag a) (a_bundles a) (a_created_via a) (a_created_at a) (a_has_data a)))
               | Bytes _ => Err EOther
               end
      end.

Record RegisterKeyRequest := mkRegister {
  rk_ClerkUserID : string;
  rk_KeyIDHex : string;
  rk_IfMatch : string;
  rk_CreatedVia : string;
  rk_IdempotencyKey : string;
  rk_OperationHash : string;
  rk_InitialBundle : option RegisterKeyBundle;
}.
#[global] Instance RegisterKeyRequest_eta : Eta RegisterKeyRequest := λ r,
  mkRegister (rk_ClerkUserID r) (rk_KeyIDHex r) (rk_IfMatch r) (rk_CreatedVia r) (rk_IdempotencyKey r) (rk_OperationHash r)
    (rk_InitialBundle r).
Definition RegisterKeyPath : string := "/api/sync/keys".
Record RegisterKeyResponse := mkRegisterResponse {
  rr_OK : bool;
  rr_KeyID : string;
  rr_ETag : string;
  rr_SearchIndexFenced : bool;
  rr_WipedV2Attachments : list string;
}.
(** A change of the registry. *)
Definition keyChange (method path : string) (to : route) (user ifMatch nonce hash : string) (b : payload) : request :=
  mkRequest method path to user "" ifMatch nonce hash "" false "" None None b.
Definition httpRegister (req : RegisterKeyRequest) : request :=
  keyChange "POST" RegisterKeyPath RKeys (rk_ClerkUserID req) (rk_IfMatch req) (rk_IdempotencyKey req) (rk_OperationHash req)
    (QRegister (rk_KeyIDHex req) (rk_CreatedVia req) (rk_InitialBundle req)).
Definition readRegister (r : reply) : result error RegisterKeyResponse :=
  match r with
  | Failed => Err EOther
  | Replied r =>
      if bool_decide (400 ≤ Status r)%Z then Err (EStatus (parseError (Status r) (Content r)))
      else match Content r with
           | Bytes [] => Ok (mkRegisterResponse false "" "" (h_SearchIndexFenced (Header r)) [])
           | Bytes _ => Err EOther
           | Json a => Ok (mkRegisterResponse (a_ok a) (a_key_id a) (a_etag a) (h_SearchIndexFenced (Header r)) (a_wiped a))
           end
  end.
Definition RegisterKey (req : RegisterKeyRequest) : prog (result error RegisterKeyResponse) :=
  r ← send (httpRegister req); Ret (readRegister r).

Record BundleRequest := mkBundleRequest {
  br_ClerkUserID : string;
  br_KeyIDHex : string;
  br_IdempotencyKey : string;
  br_OperationHash : string;
}.
Definition AddBundlePath (keyIDHex : string) : string :=
  String.append "/api/sync/keys/" (String.append (PathEscape keyIDHex) "/bundles").
Definition RemoveBundlePath (keyIDHex credentialID : string) : string :=
  String.append "/api/sync/keys/" (String.append (PathEscape keyIDHex) (String.append "/bundles/" (PathEscape credentialID))).
Definition readDone (r : reply) : result error unit :=
  match r with
  | Failed => Err EOther
  | Replied r => if bool_decide (400 ≤ Status r)%Z then Err (EStatus (parseError (Status r) (Content r))) else Ok tt
  end.
Definition AddBundle (req : BundleRequest) (b : RegisterKeyBundle) : prog (result error unit) :=
  r ← send (keyChange "POST" (AddBundlePath (br_KeyIDHex req)) (RBundles (br_KeyIDHex req)) (br_ClerkUserID req) ""
              (br_IdempotencyKey req) (br_OperationHash req) (QBundle b));
  Ret (readDone r).
Definition RemoveBundle (req : BundleRequest) (credentialID : string) : prog (result error unit) :=
  r ← send (keyChange "DELETE" (RemoveBundlePath (br_KeyIDHex req) credentialID) (RBundle (br_KeyIDHex req) credentialID)
              (br_ClerkUserID req) "" (br_IdempotencyKey req) (br_OperationHash req) QNone);
  Ret (readDone r).

Definition SearchIndexStatePath : string := "/api/sync/search-index".
(** [GetSearchIndexState], by the object it names. *)
Definition GetSearchObject (user : string) : prog (result error string) :=
  r ← send (bare "GET" SearchIndexStatePath RSearchIndex user);
  Ret match r with
      | Failed => Err EOther
      | Replied r =>
          if cut r then Err EOther
          else if bool_decide (400 ≤ Status r)%Z then Err (EStatus (parseError (Status r) (Content r)))
          else match Content r with Json a => Ok (a_object_key a) | Bytes _ => Err EOther end
      end.

(** ** cpstub/stub.go: the service

    Its failure injection for tests is left out: here any request may fail
    on its way. *)

Record Blob := mkBlob {
  ETag : Z;
  KeyID : string;
  Body : bytes;
  ProjectIDSet : bool;
  ProjectID : option string;
  UpdatedAt : Z;
  ActivityAt : option Z;
  AttachmentRefs : option (list string);
}.
#[global] Instance Blob_eta : Eta Blob := λ b,
  mkBlob (ETag b) (KeyID b) (Body b) (ProjectIDSet b) (ProjectID b) (UpdatedAt b) (ActivityAt b) (AttachmentRefs b).

Record idempotentAnswer := mkIdempotent {
  i_method : string;
  i_path : string;
  i_operationHash : string;
  i_status : Z;
  i_etag : string;
  i_body : content;
}.

(** [last] is the last revision of each row that was ever stored; the service
    keeps it over a deletion, the stub does not.  [StoredKeyID] is
    [CurrentKeyID]; of the search index's publication, which Indexing.v has,
    its object and its fence are kept. *)
Record Store := mkStore {
  Blobs : gmap string Blob;
  answered : gmap string idempotentAnswer;
  SourceRevision : Z;
  AttachmentIndex : gmap string string;
  StoredKeyID : string;
  last : gmap string Z;
  KeyETag : Z;
  KeyCreatedVia : string;
  KeyRegisteredAt : Z;
  Bundles : gmap string (gmap string CurrentKeyBundle);
  MigrationFailures : gmap string Z;
  SearchObject : string;
  SearchFence : Z;
  MinimumProfileSyncProtocol : Z;
}.
#[global] Instance Store_eta : Eta Store := λ s,
  mkStore (Blobs s) (answered s) (SourceRevision s) (AttachmentIndex s) (StoredKeyID s) (last s) (KeyETag s) (KeyCreatedVia s)
    (KeyRegisteredAt s) (Bundles s) (MigrationFailures s) (SearchObject s) (SearchFence s)
    (MinimumProfileSyncProtocol s).
(** [New]. *)
Definition New : Store := mkStore ∅ ∅ 0 ∅ "" ∅ 0 "" 0 ∅ ∅ "" 0 0.

Definition Key (scope id : string) : string := String.append scope (String.append "/" id).
Definition FormatETag (n : Z) : string := pretty n.

Definition writeJSON (status : Z) (a : answer) : response := mkResponse status noHeaders (Json a) false.
Definition staleBlob (currentETag : string) : response := writeJSON 412 (noAnswer <| a_code := StatusStaleBlob |>).
Definition preconditionRequired : response := writeJSON 428 (noAnswer <| a_code := StatusPreconditionRequired |>).

(** [strings.Split] at commas. *)
Fixpoint splitComma (l : bytes) : list bytes :=
  match l with
  | [] => [[]]
  | c :: l => match splitComma l with
              | w :: ws => if Ascii.eqb c "," then [] :: w :: ws else (c :: w) :: ws
              | [] => [[c]]
              end
  end.

Definition extractID (scope id : string) : string := if String.eqb scope "profile" then "profile" else id.

(** [strconv.Atoi] with its error left aside: what is out of range is cut to
    the [int] nearest. *)
Definition AtoiValue (s : string) : Z :=
  match Atoi s with
  | Some n => n
  | None =>
      let '(sign, ds) := match bytes_of s with
                         | "-"%char :: ds => (min_int, ds)
                         | "+"%char :: ds => (max_int, ds)
                         | ds => (max_int, ds)
                         end in
      if bool_decide (ds = []) || negb (forallb is_digit ds) then 0%Z else sign
  end.

(** What a put is refused for. *)
Definition refusedPut (s : Store) (scope : string) (blob : option Blob) (q : request) : option response :=
  let ifMatch := q_IfMatch q in
  if String.eqb ifMatch "" then Some preconditionRequired
  else if String.eqb scope "profile" && bool_decide (is_Some blob) && bool_decide (0 < MinimumProfileSyncProtocol s)%Z &&
          bool_decide (AtoiValue (q_Protocol q) < MinimumProfileSyncProtocol s)%Z
  then Some (writeJSON 426 (noAnswer <| a_code := StatusProfileSyncUpgradeRequired |>))
  else
    match blob with
    | Some b => if negb (String.eqb ifMatch (FormatETag (ETag b))) then Some (staleBlob (FormatETag (ETag b))) else None
    | None => if negb (String.eqb ifMatch IfMatchCreateOnly) then Some (staleBlob "0") else None
    end.
(** A put whose row, where there is none, is made at revision [first]. *)
Definition putBlob (first : Z) (s : Store) (scope id : string) (q : request) (at_ : Z) : Store * response :=
  let key := Key scope (extractID scope id) in
  let blob := Blobs s !! key in
  match refusedPut s scope blob q with
  | Some r => (s, r)
  | None =>
      let nextETag := match blob with Some b => (ETag b + 1)%Z | None => first end in
      let '(set, project) := match blob with Some b => (ProjectIDSet b, ProjectID b) | None => (false, None) end in
      let '(set, project) :=
        if String.eqb scope "chat" && q_ProjectIDSet q
        then (true, if String.eqb (q_ProjectID q) "" then None else Some (q_ProjectID q))
        else (set, project) in
      let stored := mkBlob nextETag (q_KeyID q) (match q_body q with QBytes b => b | _ => [] end) set project at_
        (q_ActivityAt q)
        ((λ refs, if String.eqb refs "" then [] else string_of <$> splitComma (bytes_of refs)) <$> q_AttachmentRefs q) in
      let s := s <| Blobs ::= <[key := stored]> |> <| last ::= <[key := nextETag]> |> in
      let s := if String.eqb scope "chat" then s <| SourceRevision ::= Z.succ |> else s in
      (s, mkResponse 200 (noHeaders <| h_ETag := FormatETag nextETag |> <| h_KeyID := KeyID stored |>)
            (Json (noAnswer <| a_etag := FormatETag nextETag |> <| a_source_revision := SourceRevision s |>)) false)
  end.
(** The stub's put makes every row at revision 1, one deleted before too. *)
Definition handlePutBlob : Store → string → string → request → Z → Store * response := putBlob 1.
(** The control plane's own: a row made where one was deleted continues the
    deleted row's count, as store.go says of it at [nextRevision]. *)
Definition continuedRevision (s : Store) (scope id : string) : Z :=
  (default 0 (last s !! Key scope (extractID scope id)) + 1)%Z.

Section Server.
(** Whether the service continues the count of a row deleted: the control
    plane does, the stub does not. *)
Context (continues : bool).
Definition servePut (s : Store) (scope id : string) (q : request) (at_ : Z) : Store * response :=
  if continues then putBlob (continuedRevision s scope id) s scope id q at_ else handlePutBlob s scope id q at_.

Definition handleGetBlob (s : Store) (scope id : string) : response :=
  match Blobs s !! Key scope (extractID scope id) with
  | None => mkResponse 404 noHeaders (Bytes []) false
  | Some b =>
      let chat := String.eqb scope "chat" in
      mkResponse 200
        (mkHeaders (FormatETag (ETag b)) (KeyID b) (if chat && ProjectIDSet b then "1" else "")
           (if chat && ProjectIDSet b then default "" (ProjectID b) else "") (if chat then ActivityAt b else None)
           (Some (UpdatedAt b)) false)
        (Bytes (Body b)) false
  end.

Definition handleDeleteBlob (s : Store) (scope id : string) (q : request) : Store * response :=
  let id := extractID scope id in
  let key := Key scope id in
  let ifMatch := q_IfMatch q in
  if String.eqb ifMatch "" then (s, preconditionRequired)
  else
    match Blobs s !! key with
    | None => (s, staleBlob "0")
    | Some b =>
        if negb (String.eqb ifMatch (FormatETag (ETag b))) then (s, staleBlob (FormatETag (ETag b)))
        else
          let s := s <| Blobs ::= delete key |> in
          let wiped := if String.eqb scope "chat"
                       then (map_to_list (filter (λ x, x.2 = id) (AttachmentIndex s))).*1 else [] in
          let s := if String.eqb scope "chat"
                   then s <| SourceRevision ::= Z.succ |> <| AttachmentIndex ::= filter (λ x, x.2 ≠ id) |> else s in
          (s, writeJSON 200 (noAnswer <| a_ok := true |> <| a_wiped := wiped |> <| a_source_revision := SourceRevision s |>))
    end.

Definition handleRewrap (s : Store) (q : request) : Store * response :=
  match q_body q with
  | QRewrap scope id key_id if_match ciphertext =>
      let key := Key scope (extractID scope id) in
      match Blobs s !! key with
      | None => (s, staleBlob "0")
      | Some b =>
          if negb (String.eqb if_match (FormatETag (ETag b))) then (s, staleBlob (FormatETag (ETag b)))
          else
            let resealed := b <| ETag := (ETag b + 1)%Z |> <| KeyID := key_id |> <| Body := ciphertext |> in
            (s <| Blobs ::= <[key := resealed]> |> <| last ::= <[key := ETag resealed]> |>,
             writeJSON 200 (noAnswer <| a_ok := true |> <| a_etag := FormatETag (ETag resealed) |> <| a_key_id := key_id |>))
      end
  | _ => (s, mkResponse 400 noHeaders (Bytes []) false)
  end.

Definition handleBackfillChatActivity (s : Store) (q : request) : Store * response :=
  match q_body q with
  | QActivity id etag at_ =>
      let key := Key "chat" id in
      (match Blobs s !! key with
       | Some b =>
           if bool_decide (ActivityAt b = None) && String.eqb (FormatETag (ETag b)) etag
           then s <| Blobs ::= <[key := b <| ActivityAt := Some (at_ `min` UpdatedAt b)%Z |>]> |>
           else s
       | None => s
       end, writeJSON 200 noAnswer)
  | _ => (s, mkResponse 400 noHeaders (Bytes []) false)
  end.

(** *** The key registry *)

Definition hasDataUnderOtherKey (s : Store) (claim : string) (legacy : bool) : bool :=
  existsb (λ b, if String.eqb (KeyID b) "" then legacy else negb (String.eqb (KeyID b) claim)) (map_to_list (Blobs s)).*2.
Definition handleCurrentKey (s : Store) : response :=
  let a := noAnswer <| a_has_data := hasDataUnderOtherKey s (StoredKeyID s) true |> in
  writeJSON 200
    (if String.eqb (StoredKeyID s) "" then a
     else a <| a_key_id := StoredKeyID s |> <| a_etag := FormatETag (KeyETag s) |> <| a_created_via := KeyCreatedVia s |>
            <| a_created_at := Some (KeyRegisteredAt s) |> <| a_bundles := default ∅ (Bundles s !! StoredKeyID s) |>).

Definition badRequest : response := writeJSON 400 (noAnswer <| a_code := "BAD_REQUEST" |>).
Definition keyConflict (code currentKeyID : string) : response :=
  writeJSON 409 (noAnswer <| a_code := code |> <| a_current_key_id := currentKeyID |>).
Definition isLowerHexByte (c : ascii) : bool := bool_decide (48 ≤ byte_of c ≤ 57 ∨ 97 ≤ byte_of c ≤ 102)%Z.
Definition isLowerHex (s : string) : bool := forallb isLowerHexByte (bytes_of s).
Definition isLowerHex32 (s : string) : bool := Nat.eqb (String.length s) 32 && isLowerHex s.
Definition incompleteBundle (b : RegisterKeyBundle) : bool :=
  String.eqb (b_CredentialID b) "" || String.eqb (b_KEKIV b) "" || String.eqb (b_EncryptedKeys b) "".
Definition createdVias : list string := ["passkey"; "manual"; "recovery"; "start_fresh"]%string.

Definition fenceSearchIndex (s : Store) : Store := s <| SearchObject := "" |> <| SearchFence ::= Z.succ |>.
(** Every row and attachment dropped; the attachments that older clients
    stored here are not modelled. *)
Definition wipeAll (s : Store) : Store * list string :=
  let chats := length (List.filter (λ k, String.prefix "chat/" k) (map_to_list (Blobs s)).*1) in
  (s <| Blobs := ∅ |> <| SourceRevision ::= λ n, (n + Z.of_nat chats)%Z |> <| AttachmentIndex := ∅ |>,
   merge_sort String.le (map_to_list (AttachmentIndex s)).*1).
Definition addBundle (kid : string) (bundle : option RegisterKeyBundle) (at_ : Z) (s : Store) : Store :=
  match bundle with
  | None => s
  | Some b => s <| Bundles ::= λ m, <[kid := <[b_CredentialID b := mkCurrentBundle b at_]> (default ∅ (m !! kid))]> m |>
  end.
Definition registerAnswer (s : Store) (wiped : list string) (fenced : bool) : response :=
  mkResponse 200 (noHeaders <| h_SearchIndexFenced := fenced |>)
    (Json (noAnswer <| a_ok := true |> <| a_key_id := StoredKeyID s |> <| a_etag := FormatETag (KeyETag s) |> <| a_wiped := wiped |>)) false.
(** A key registered, once nothing refuses it. *)
Definition registered (kid via : string) (initial : option RegisterKeyBundle) (at_ : Z) (sw : Store * list string) : Store * response :=
  let '(s, wiped) := sw in
  let changed := negb (String.eqb (StoredKeyID s) kid) in
  let fenced := String.eqb via "start_fresh" || negb (String.eqb (StoredKeyID s) "") && changed in
  let s := if changed then s <| KeyRegisteredAt := at_ |> else s in
  let s := s <| StoredKeyID := kid |> <| KeyCreatedVia := via |> <| KeyETag ::= Z.succ |> in
  let s := if changed then s <| Bundles ::= filter (λ x, x.1 = kid) |> <| MigrationFailures := ∅ |> else s in
  let s := if fenced then fenceSearchIndex s else s in
  let s := addBundle kid initial at_ s in
  (s, registerAnswer s wiped fenced).
Definition handleRegisterKey (s : Store) (q : request) (at_ : Z) : Store * response :=
  if String.eqb (q_Idempotency q) "" || String.eqb (q_OperationHash q) "" then (s, badRequest)
  else
    match q_body q with
    | QRegister kid via initial =>
        let ifMatch := q_IfMatch q in
        let current := StoredKeyID s in
        let fresh := String.eqb via "start_fresh" in
        let asserting := String.eqb via "recovery" || String.eqb via "manual" in
        if negb (isLowerHex32 kid) || negb (existsb (String.eqb via) createdVias) || String.eqb ifMatch "" ||
           match initial with Some b => incompleteBundle b | None => false end
        then (s, badRequest)
        else if String.eqb current "" then
          if negb (String.eqb ifMatch IfMatchAnyKey) then (s, keyConflict StatusStaleKey "")
          else if negb asserting && hasDataUnderOtherKey s kid true then
            if negb fresh then (s, keyConflict StatusExistingDataUnderOtherKey "")
            else registered kid via initial at_ (wipeAll s)
          else registered kid via initial at_ (s, [])
        else if String.eqb ifMatch IfMatchAnyKey then
          if String.eqb current kid && negb fresh then
            let s := addBundle kid initial at_ s in (s, registerAnswer s [] false)
          else (s, keyConflict StatusExistingDataUnderOtherKey current)
        else if negb (String.eqb ifMatch (FormatETag (KeyETag s))) then (s, keyConflict StatusStaleKey current)
        else if negb (String.eqb current kid) && hasDataUnderOtherKey s kid (negb asserting) then
          if asserting || negb fresh then (s, keyConflict StatusExistingDataUnderOtherKey current)
          else registered kid via initial at_ (wipeAll s)
        else registered kid via initial at_ (s, [])
    | _ => (s, badRequest)
    end.

(** [bundleKey]: what refuses a change of the key's bundles. *)
Definition bundleKey (s : Store) (q : request) (kid : string) : option response :=
  if String.eqb (q_Idempotency q) "" || String.eqb (q_OperationHash q) "" || negb (isLowerHex32 kid) then Some badRequest
  else if String.eqb (StoredKeyID s) "" then Some (writeJSON 404 (noAnswer <| a_code := "NOT_FOUND" |>))
  else if negb (String.eqb kid (StoredKeyID s)) then Some (keyConflict StatusStaleKey (StoredKeyID s))
  else None.
Definition handleAddBundle (kid : string) (s : Store) (q : request) (at_ : Z) : Store * response :=
  match q_body q with
  | QBundle b =>
      if incompleteBundle b then (s, badRequest)
      else match bundleKey s q kid with
           | Some r => (s, r)
           | None => (addBundle kid (Some b) at_ s, writeJSON 200 (noAnswer <| a_ok := true |>))
           end
  | _ => (s, badRequest)
  end.
Definition handleRemoveBundle (kid cid : string) (s : Store) (q : request) : Store * response :=
  match bundleKey s q kid with
  | Some r => (s, r)
  | None => (s <| Bundles ::= alter (delete cid) kid |>, writeJSON 200 (noAnswer <| a_ok := true |>))
  end.
Definition handleGetSearchIndexState (s : Store) : response := writeJSON 200 (noAnswer <| a_object_key := SearchObject s |>).

(** [idempotent]: a change under a key of the caller's. *)
Definition idempotencyKey (q : request) : string := String.append (q_user q) (String "000" (q_Idempotency q)).
Definition idempotent (change : Store → request → Store * response) (s : Store) (q : request) : Store * response :=
  if String.eqb (q_Idempotency q) "" then change s q
  else if String.eqb (q_OperationHash q) "" then (s, writeJSON 400 (noAnswer <| a_code := "BAD_REQUEST" |>))
  else
    match answered s !! idempotencyKey q with
    | Some a =>
        if String.eqb (i_method a) (q_method q) && String.eqb (i_path a) (q_path q) &&
           String.eqb (i_operationHash a) (q_OperationHash q)
        then (s, mkResponse (i_status a)
                   (noHeaders <| h_ETag := i_etag a |>
                      <| h_KeyID := match i_body a with Json b => a_key_id b | Bytes _ => "" end |>)
                   (i_body a) false)
        else (s, writeJSON 409 (noAnswer <| a_code := StatusIdempotencyConflict |>))
    | None =>
        let '(s, served) := change s q in
        (if bool_decide (Z.quot (Status served) 100 = 2)%Z
         then s <| answered ::= <[idempotencyKey q :=
                    mkIdempotent (q_method q) (q_path q) (q_OperationHash q) (Status served) (h_ETag (Header served))
                      (Content served)]> |>
         else s, served)
    end.

(** A request served, as [ServeHTTP] does under its lock. *)
Definition ServeHTTP (s : Store) (q : request) (at_ : Z) : Store * response :=
  let notFound := (s, mkResponse 404 noHeaders (Bytes []) false) in
  match q_route q with
  | RBlob scope id =>
      if String.eqb (q_method q) "PUT" then idempotent (λ s q, servePut s scope id q at_) s q
      else if String.eqb (q_method q) "GET" then (s, handleGetBlob s scope id)
      else if String.eqb (q_method q) "DELETE" then idempotent (λ s q, handleDeleteBlob s scope id q) s q
      else notFound
  | RRewrap => if String.eqb (q_method q) "POST" then idempotent handleRewrap s q else notFound
  | RActivity => if String.eqb (q_method q) "POST" then handleBackfillChatActivity s q else notFound
  | RCurrentKey => if String.eqb (q_method q) "GET" then (s, handleCurrentKey s) else notFound
  | RKeys => if String.eqb (q_method q) "POST" then idempotent (λ s q, handleRegisterKey s q at_) s q else notFound
  | RBundles kid => if String.eqb (q_method q) "POST" then idempotent (λ s q, handleAddBundle kid s q at_) s q else notFound
  | RBundle kid cid => if String.eqb (q_method q) "DELETE" then idempotent (handleRemoveBundle kid cid) s q else notFound
  | RSearchIndex => if String.eqb (q_method q) "GET" then (s, handleGetSearchIndexState s) else notFound
  end.
End Server.

End Controlplane.
