(* ===== verification/Grants.v ===== *)
(** * What a run or an operation may do to the stored rows:
    internal/store/scope.go and the grants of rows.go

    A run's grant covers its chat, its profile and its project's documents;
    an operation's covers what it is for. *)

From S2P Require Import Prelude GoStd Codec Aad Seal Controlplane.

Module Grants.
Import GoStd Codec Aad Controlplane.

(** ** auth/grant.go *)

Record StorageGrant := mkGrant {
  Operation : string;
  ChatID : string;
  GrantProjectID : string;
  GrantKeyID : string;
  ExpiresAt : Z;
}.

(** [domain.StoredRow]; [Data] is its JSON text. *)
Record StoredRow := mkRow {
  ID : string;
  ETag : string;
  Data : bytes;
  Project : option string;
  ProjectSet : bool;
  UpdatedAt : option Z;
}.
#[global] Instance StoredRow_eta : Eta StoredRow := λ r,
  mkRow (ID r) (ETag r) (Data r) (Project r) (ProjectSet r) (UpdatedAt r).

(** ** scope.go *)

Definition maxResourceID : nat := 256.
Definition runIDValid (id : string) : bool :=
  negb (String.eqb id "") && negb (String.eqb id ".") && negb (String.eqb id "..") &&
  bool_decide (String.length id ≤ maxResourceID) &&
  negb (existsb (λ c, Ascii.eqb c "/" || Ascii.eqb c "000") (bytes_of id)).

Inductive storageOp := opPush | opPull | opList | opRemove | opPutAttachment | opGetAttachment | opImport.

Definition allows (g : StorageGrant) (now : Z) (op : storageOp) : bool :=
  if negb (bool_decide (now < ExpiresAt g)%Z) then false
  else if String.eqb (Operation g) "project-upload" then match op with opPull | opPush => true | _ => false end
  else if String.eqb (Operation g) "import" then match op with opImport => true | _ => false end
  else if String.eqb (Operation g) "export" then match op with opPull | opList | opGetAttachment => true | _ => false end
  else if String.eqb (Operation g) "" then
    match op with opPush | opPull | opList | opPutAttachment | opGetAttachment => true | _ => false end
  else false.

(** [strings.CutPrefix]. *)
Fixpoint CutPrefix (s p : string) : option string :=
  match p, s with
  | EmptyString, _ => Some s
  | String c p, String d s => if Ascii.eqb c d then CutPrefix s p else None
  | String _ _, EmptyString => None
  end.

Definition ownsDocument (g : StorageGrant) (id : string) : bool :=
  if String.eqb (GrantProjectID g) "" then false
  else match CutPrefix id (String.append (GrantProjectID g) "/") with
       | Some document => runIDValid document
       | None => false
       end.

Section Grants.
Context `{MC : Mac}.

(** [keyID]: an error leaves no id. *)
Definition keyID (key : bytes) : string :=
  match Seal.DeriveKeyID key with Ok id => Seal.KeyIDHex_of id | Err _ => "" end.
Definition keyMatches (g : StorageGrant) (key : bytes) : bool := String.eqb (keyID key) (GrantKeyID g).

Definition permitsPull (g : StorageGrant) (now : Z) (key : bytes) (scope : string) (ids : list string) : bool :=
  if negb (allows g now opPull) || negb (keyMatches g key) then false
  else if String.eqb (Operation g) "export" then Aad.Valid scope
  else if bool_decide (ids = []) then false
  else if String.eqb (Operation g) "project-upload" then
    forallb (λ id, String.eqb scope "project" && String.eqb id (GrantProjectID g) ||
                   String.eqb scope "project_document" && ownsDocument g id) ids
  else
    forallb (λ id,
      if String.eqb scope "chat" then String.eqb id (ChatID g)
      else if String.eqb scope "profile" then String.eqb id ProfileSingletonID
      else if String.eqb scope "project" then negb (String.eqb (GrantProjectID g) "" || negb (String.eqb id (GrantProjectID g)))
      else if String.eqb scope "project_document" then ownsDocument g id
      else false) ids.

Definition permitsPush (g : StorageGrant) (now : Z) (key : bytes) (scope : string) (row : StoredRow) : bool :=
  if negb (allows g now opPush) || negb (keyMatches g key) then false
  else if String.eqb (Operation g) "project-upload" then
    String.eqb scope "project_document" && ownsDocument g (ID row) && String.eqb (ETag row) "" &&
    match Project row with Some project => String.eqb project (GrantProjectID g) | None => false end
  else String.eqb (Operation g) "" && String.eqb scope "chat" && String.eqb (ID row) (ChatID g).

Definition permitsPutAttachment (g : StorageGrant) (now : Z) (chatID : string) : bool :=
  allows g now opPutAttachment && String.eqb chatID (ChatID g).

Definition permitsList (g : StorageGrant) (now : Z) (scope project : string) : bool :=
  if negb (allows g now opList) then false
  else String.eqb (Operation g) "export" ||
       String.eqb scope "project_document" && negb (String.eqb project "") && String.eqb project (GrantProjectID g).

(** ** The grants rows.go gives *)

Definition grantLifetime : Z := 3600000000000.
Definition badRequest (message : string) : ApiError := mkApiError 400 "BAD_REQUEST" message.

(** [AuthorizeRun], once its pull of the chat found [rows], each with the
    project its JSON names, [None] where that cannot be read. *)
Definition AuthorizeRun (rows : list (StoredRow * option string)) (now : Z) (key : bytes) (threadID : string)
    (projectID : option string) : result ApiError StorageGrant :=
  let project := default "" projectID in
  if negb (runIDValid threadID) || negb (String.eqb project "") && negb (runIDValid project)
  then Err (badRequest "invalid chat or project id")
  else
    project ← foldl (λ acc x,
      _ ← acc;
      if ProjectSet x.1 then Ok (default "" (Project x.1))
      else match x.2 with None => Err (badRequest "invalid chat") | Some p => Ok p end) (Ok project) rows;
    if negb (String.eqb project "") && negb (runIDValid project) then Err (badRequest "invalid project id")
    else Ok (mkGrant "" threadID project (keyID key) (now + grantLifetime)).

Definition AuthorizeStorage (now : Z) (key : bytes) (operation projectID : string) : result ApiError StorageGrant :=
  if String.eqb operation "import" || String.eqb operation "export" ||
     String.eqb operation "project-upload" && runIDValid projectID
  then Ok (mkGrant operation "" projectID (keyID key) (now + grantLifetime))
  else Err (badRequest (if String.eqb operation "project-upload" then "invalid project id" else "invalid storage operation")).

(** ** What a grant covers *)

Lemma CutPrefix_Some s p d : CutPrefix s p = Some d → s = String.append p d.
Proof.
  revert s. induction p as [|c p IH]; intros [|a s]; cbn [CutPrefix]; [by intros [= <-]..|done|].
  destruct (Ascii.eqb_spec c a) as [->|]; [|done]. intros ->%IH. done.
Qed.

(** The rows a grant is for, by what the control plane names them. *)
Definition covers (g : StorageGrant) (scope id : string) : Prop :=
  scope = "chat"%string ∧ id = ChatID g ∨
  scope = "profile"%string ∧ id = ProfileSingletonID ∨
  scope = "project"%string ∧ id = GrantProjectID g ∧ id ≠ ""%string ∨
  scope = "project_document"%string ∧ ∃ doc, splitProjectDocID id = Some (GrantProjectID g, doc) ∧ runIDValid doc = true.

Lemma valid_no_slash id : runIDValid id = true → "/"%char ∉ bytes_of id.
Proof.
  unfold runIDValid. intros H Hin. apply andb_true_iff in H as [_ H]. apply negb_true_iff in H.
  apply not_true_iff_false in H. apply H, existsb_exists. exists "/"%char. split; [by apply list_elem_of_In|done].
Qed.
Lemma valid_nonempty id : runIDValid id = true → bytes_of id ≠ [].
Proof. unfold runIDValid. by destruct id. Qed.

Lemma cutSlash_app p d : "/"%char ∉ p → cutSlash (p ++ "/"%char :: d) = Some (p, d).
Proof.
  induction p as [|c p IH]; intros Hp; [done|]. cbn [app cutSlash].
  destruct (Ascii.eqb_spec c "/") as [->|]; [by destruct Hp; left|]. rewrite IH; [done|]. intros H. apply Hp. by right.
Qed.

(** A document's id names its project up to the first slash. *)
Lemma split_document project doc : runIDValid project = true → runIDValid doc = true →
  splitProjectDocID (String.append project (String.append "/" doc)) = Some (project, doc).
Proof.
  intros Hp Hd. unfold splitProjectDocID. rewrite !bytes_of_append. cbn [bytes_of String.list_ascii_of_string app].
  rewrite cutSlash_app by by apply valid_no_slash.
  rewrite !bool_decide_false by by apply valid_nonempty. cbn [orb]. by rewrite !string_of_bytes.
Qed.

Definition well_granted (g : StorageGrant) : Prop :=
  GrantProjectID g = ""%string ∨ runIDValid (GrantProjectID g) = true.

Lemma cutSlash_split l p d : cutSlash l = Some (p, d) → l = p ++ "/"%char :: d.
Proof.
  revert p. induction l as [|c l IH]; intros p; [done|]. cbn [cutSlash]. destruct (Ascii.eqb_spec c "/") as [->|].
  - by intros [= <- <-].
  - destruct (cutSlash l) as [[q r]|]; [|done]. intros [= <- <-]. cbn. f_equal. by apply IH.
Qed.
Lemma CutPrefix_append p d : CutPrefix (String.append p d) p = Some d.
Proof. induction p as [|c p IH]; [by destruct d|]. change ((if Ascii.eqb c c then CutPrefix (String.append p d) p else None) = Some d). by rewrite Ascii.eqb_refl. Qed.
Lemma split_append id project doc : splitProjectDocID id = Some (project, doc) →
  project ≠ ""%string ∧ id = String.append (String.append project "/") doc.
Proof.
  unfold splitProjectDocID. destruct (cutSlash (bytes_of id)) as [[p d]|] eqn:Hc; [|done]. apply cutSlash_split in Hc.
  case_bool_decide as Hp; [done|]. cbn [orb]. case_bool_decide; [done|]. intros [= <- <-]. split.
  - intros Hs. apply Hp. apply (f_equal bytes_of) in Hs. by rewrite bytes_of_string in Hs.
  - apply (f_equal string_of) in Hc. rewrite string_of_bytes in Hc. rewrite Hc, <- (string_of_bytes (String.append _ _)).
    f_equal. rewrite !bytes_of_append, !bytes_of_string. by rewrite <- app_assoc.
Qed.

Lemma owns_split g id : well_granted g → ownsDocument g id = true ↔
  ∃ doc, splitProjectDocID id = Some (GrantProjectID g, doc) ∧ runIDValid doc = true.
Proof.
  intros Hg. unfold ownsDocument. split.
  - destruct (String.eqb_spec (GrantProjectID g) "") as [|Hne]; [done|].
    destruct (CutPrefix id _) as [doc|] eqn:Hc; [|done]. intros Hdoc. apply CutPrefix_Some in Hc as ->.
    destruct Hg as [|Hg]; [done|]. exists doc. split; [|done]. rewrite <- split_document by done. f_equal.
    apply string_app_assoc.
  - intros (doc & [Hne ->]%split_append & Hdoc). apply String.eqb_neq in Hne. by rewrite Hne, CutPrefix_append.
Qed.

Lemma authorize_run_ok rows now key threadID projectID g : AuthorizeRun rows now key threadID projectID = Ok g →
  Operation g = ""%string ∧ ChatID g = threadID ∧ GrantKeyID g = keyID key ∧ ExpiresAt g = (now + grantLifetime)%Z ∧ well_granted g.
Proof.
  unfold AuthorizeRun. destruct (_ || _); [done|]. destruct (foldl _ _ rows) as [project|]; [|done].
  cbn [mbind result_bind]. destruct (_ && _) eqn:Hp; [done|]. intros [= <-]. split_and!; [done..|].
  unfold well_granted. cbn. destruct (String.eqb_spec project "") as [|]; [by left|]. right.
  cbn in Hp. by apply negb_false_iff in Hp.
Qed.

(** What a run's grant allows at [t]: for its hour, all but removals and
    imports. *)
Definition runOps : list storageOp := [opPush; opPull; opList; opPutAttachment; opGetAttachment].
Lemma run_allows g t op : Operation g = ""%string → allows g t op = true ↔ (t < ExpiresAt g)%Z ∧ op ∈ runOps.
Proof.
  intros Hop. unfold allows, runOps. rewrite Hop. cbn [String.eqb negb]. case_bool_decide; cbn [negb].
  - destruct op; split; (done || (intros; split; [done|set_solver]) || (intros [_ Hin]; set_solver)).
  - split; [done|]. by intros [].
Qed.
Lemma pull_covers g scope id : well_granted g →
  (if String.eqb scope "chat" then String.eqb id (ChatID g)
   else if String.eqb scope "profile" then String.eqb id ProfileSingletonID
   else if String.eqb scope "project" then negb (String.eqb (GrantProjectID g) "" || negb (String.eqb id (GrantProjectID g)))
   else if String.eqb scope "project_document" then ownsDocument g id
   else false) = true ↔ covers g scope id.
Proof.
  intros Hg. unfold covers. destruct (String.eqb_spec scope "chat") as [->|].
  { rewrite String.eqb_eq. naive_solver. }
  destruct (String.eqb_spec scope "profile") as [->|].
  { rewrite String.eqb_eq. naive_solver. }
  destruct (String.eqb_spec scope "project") as [->|].
  { rewrite negb_true_iff, orb_false_iff, negb_false_iff, String.eqb_eq, String.eqb_neq. split.
    - intros [? ->]. naive_solver.
    - intros [?|[?|[(_ & -> & ?)|?]]]; naive_solver. }
  destruct (String.eqb_spec scope "project_document") as [->|]; [|naive_solver].
  rewrite (owns_split g id Hg). naive_solver.
Qed.

(** C9. What a run's grant lets its holder do, exactly, for the hour it
    lasts: under the content key it was given for, read the run's own chat,
    the caller's profile, and the project the chat belongs to with that
    project's documents, and write the chat; list that project's documents;
    store attachments under the chat; and read attachments, of any chat, as
    knowing an attachment's id and key is the whole proof of access to it
    (attachments.go). Nothing else is allowed: no other row is read, written
    or listed, and nothing is removed or imported. *)
Theorem grant_contained rows now key threadID projectID g : AuthorizeRun rows now key threadID projectID = Ok g →
  let lasts t := (t < now + grantLifetime)%Z in
  ChatID g = threadID ∧
  (∀ t op, allows g t op = true ↔ lasts t ∧ op ∈ [opPush; opPull; opList; opPutAttachment; opGetAttachment]) ∧
  (∀ t key' scope ids, permitsPull g t key' scope ids = true ↔
    lasts t ∧ keyID key' = keyID key ∧ ids ≠ [] ∧ Forall (covers g scope) ids) ∧
  (∀ t key' scope row, permitsPush g t key' scope row = true ↔
    lasts t ∧ keyID key' = keyID key ∧ scope = "chat"%string ∧ ID row = threadID) ∧
  (∀ t scope project, permitsList g t scope project = true ↔
    lasts t ∧ scope = "project_document"%string ∧ project = GrantProjectID g ∧ project ≠ ""%string) ∧
  (∀ t chatID, permitsPutAttachment g t chatID = true ↔ lasts t ∧ chatID = threadID).
Proof.
  intros (Hop & Hchat & Hkey & Hexp & Hg)%authorize_run_ok lasts. unfold lasts. rewrite <- Hexp, <- Hkey, <- Hchat.
  assert (Ha : ∀ t op, allows g t op = true ↔ (t < ExpiresAt g)%Z ∧ op ∈ runOps) by (intros; by apply run_allows).
  assert (Hand : ∀ t key' op (P : bool), op ∈ runOps →
    (if negb (allows g t op) || negb (keyMatches g key') then false else P) = true ↔
    (t < ExpiresAt g)%Z ∧ keyID key' = GrantKeyID g ∧ P = true).
  { intros t key' op P Hin. unfold keyMatches. specialize (Ha t op).
    destruct (allows g t op), (String.eqb_spec (keyID key') (GrantKeyID g)); cbn; naive_solver. }
  split_and!; [done|exact Ha|..].
  - intros t key' scope ids. unfold permitsPull. rewrite Hop, Hand by set_solver. cbn [String.eqb].
    case_bool_decide as Hids; [naive_solver|]. rewrite forallb_forall, Forall_forall. split.
    + intros (? & ? & H). split_and!; [done..|]. intros id Hid. apply pull_covers, H; [done|]. by apply list_elem_of_In.
    + intros (? & ? & _ & H). split_and!; [done..|]. intros id Hid. apply pull_covers, H; [done|]. by apply list_elem_of_In.
  - intros t key' scope row. unfold permitsPush. rewrite Hop, Hand by set_solver. cbn [String.eqb andb].
    by rewrite andb_true_iff, !String.eqb_eq.
  - intros t scope project. unfold permitsList. rewrite Hop. cbn [String.eqb orb]. specialize (Ha t opList).
    destruct (allows g t opList); cbn [negb]; [|naive_solver set_solver].
    rewrite !andb_true_iff, negb_true_iff, !String.eqb_eq, String.eqb_neq. naive_solver set_solver.
  - intros t chatID. unfold permitsPutAttachment. rewrite andb_true_iff, Ha, String.eqb_eq. naive_solver set_solver.
Qed.
End Grants.

#[local] Existing Instance toy_mac.
Definition key0 : bytes := replicate 32 "k"%char.

Lemma grant_contained_witness : ∃ g, AuthorizeRun [] 0 key0 "t1" (Some "p1"%string) = Ok g ∧
  permitsPull g 5 key0 "project_document" ["p1/d1"%string] = true ∧
  permitsPull g 5 key0 "project_document" ["p2/d1"%string] = false ∧
  allows g 5 opGetAttachment = true ∧ allows g 5 opRemove = false ∧
  ∀ t row, permitsPush g t key0 "chat" row = true → ID row = "t1"%string.
Proof.
  eexists. split; [vm_compute; reflexivity|]. do 4 (split; [vm_compute; reflexivity|]).
  intros t row H. edestruct (grant_contained [] 0 key0 "t1" (Some "p1"%string)) as (_ & _ & _ & Hpush & _);
    [vm_compute; reflexivity|]. by apply Hpush in H as (_ & _ & _ & ?).
Defined.
End Grants.
