(* ===== verification/Rows.v ===== *)
(** * Rows read and written: internal/store rows.go, rows_chat.go, errors.go
    and the commits of store.go

    A row is pulled, opened and, when an older client sealed it, resealed;
    pushed at the revision it was read at; and a change to it committed by
    reading, changing and pushing again until no other writer comes
    between.  Each operation is a program of the control plane's client. *)

From S2P Require Import Prelude GoStd Api Codec Aad Seal Controlplane Grants.
From stdpp Require Import pretty.

Module Rows.
Import GoStd Codec Aad Controlplane Grants.

(** ** Errors *)

(** What a client does about an error. *)
Definition action_of (code : string) : string := Api.Action (Api.Err_ 0 code "").

(** [api.Error] by its status, code and message, what a client does about it,
    and the fields the store sets. *)
Record apiError := mkApi {
  e_error : ApiError;
  Action : string;
  e_KeyID : string;
  e_Missing : list string;
  e_RetryAfter : Z;
  e_Status : Z;
}.
#[global] Instance apiError_eta : Eta apiError := λ e,
  mkApi (e_error e) (Action e) (e_KeyID e) (e_Missing e) (e_RetryAfter e) (e_Status e).
Definition api (status : Z) (code message : string) : apiError :=
  mkApi (mkApiError status code message) (action_of code) "" [] 0 0.
Definition RefusedAsSent (e : apiError) (status : Z) : apiError :=
  if String.eqb (GoStd.Code (e_error e)) "UPSTREAM_REFUSED" && bool_decide (Z.quot status 100 = 4)%Z
  then e <| Action := Api.ActionStop |> else e.
Definition HTTP (e : apiError) : Z := GoStd.Status (e_error e).
Definition ErrCode (e : apiError) : string := GoStd.Code (e_error e).

(** An [error]: the program's own, the control plane's, sealing's, or one of
    [errors.New]. *)
Inductive err :=
  | EApi (e : apiError)
  | EControlplane (e : Controlplane.error)
  | ESeal (e : Seal.error)
  | ENew (text : string).

Definition errRunScope : err := ENew "store: the operation is outside the grant's storage scope".
Definition ErrRowNotFetched : err := EApi (api 502 "UPSTREAM_REFUSED" "The storage service could not fetch the data in time").
Definition errRowUnreadable : err := EApi (api 502 "UPSTREAM_REFUSED" "The stored row cannot be opened").
Definition errEveryCommitConflicted : err := EApi (api 409 "REVISION_CONFLICT" "The row changed during every commit attempt").
Definition bad (message : string) : err := EApi (api 400 "BAD_REQUEST" message).
Definition keyMismatch : apiError := api 409 "KEY_MISMATCH" "The stored data uses another content key".

(** [api.AsError]; no error here is a model's refusal. *)
Definition AsError (e : err) : apiError :=
  match e with EApi e => e | _ => api 502 "UPSTREAM_REFUSED" "A downstream request failed" end.

Definition fromStatus (e : Controlplane.Error) : apiError :=
  let code := Controlplane.Code e in
  if existsb (String.eqb code) [StatusStaleKey; StatusExistingDataUnderOtherKey; "UNKNOWN_KEY"; "KEY_MISMATCH"]%string
  then keyMismatch <| e_KeyID := CurrentKeyID e |>
  else if String.eqb code StatusStaleBlob then api 409 "REVISION_CONFLICT" "The stored row changed"
  else if String.eqb code StatusMissingAttachment then
    (api 409 "MISSING_ATTACHMENT" "The chat references attachments that are not stored with it")
      <| e_Missing := MissingAttachments e |>
  else if String.eqb code "PAYLOAD_TOO_LARGE" then api 413 "THREAD_TOO_LARGE" "The chat is too large to store"
  else
    let status := StatusCode e in
    if bool_decide (status = 401)%Z then api 401 "UNAUTHENTICATED" "Authentication is required"
    else if bool_decide (status = 404)%Z then api 404 "THREAD_NOT_FOUND" "The requested data was not found"
    else if bool_decide (status = 412)%Z then api 409 "REVISION_CONFLICT" "The stored row changed"
    else if bool_decide (status = 429)%Z then
      (api 429 "QUOTA_EXHAUSTED" "The request quota is exhausted") <| e_RetryAfter := RetryAfterSeconds e |>
    else RefusedAsSent ((api 502 "UPSTREAM_REFUSED" "A downstream service refused the request") <| e_Status := status |>) status.

Definition FromControlplane (e : err) : apiError :=
  match e with
  | EApi e => e
  | ESeal Seal.ErrPlaintextTooLarge => api 413 "THREAD_TOO_LARGE" "The chat is too large to store"
  | EControlplane (EUnknown _ _) => api 503 "SYNC_OUTCOME_UNKNOWN" "The sync service may not have stored the change"
  | EControlplane e => match asError e with
                       | Some e => fromStatus e
                       | None => api 502 "UPSTREAM_REFUSED" "A downstream request failed"
                       end
  | _ => api 502 "UPSTREAM_REFUSED" "A downstream request failed"
  end.

Record Principal := mkPrincipal { PrincipalID : string; Grant : option StorageGrant }.

Definition PullBatch : nat := 100.
Definition MaxCommitAttempts : nat := 3.
Definition removeAttempts : nat := 3.
Definition profileSyncProtocol : Z := ProfileSyncProtocolV2.
Definition maxAttachmentRefsPerChat : nat := 500.

(** Whether the caller's grant, if it has one, permits an operation now. *)
Definition permitted (p : Principal) (may : StorageGrant → Z → bool) : prog bool :=
  match Grant p with None => Ret true | Some g => t ← now; Ret (may g t) end.

Section Rows.
Context `{CR : Seal.Crypto} `{JS : Seal.Json} `{MC : Mac}.
(** [time.Parse] of RFC 3339, from Go's zero time on. *)
Context (ParseTime : string → option Z).
(** The moving of a legacy chat's attachments into buckets, of rewrap.go: the
    chat as it then reads, where that changed it. *)
Context (rewrapChatAttachments : Principal → string → bytes → prog (result err (option bytes))).

(** ** rows_chat.go *)

(** The last member of a name, as a struct's field or as a map's key. *)
Definition field (ms : list (string * Seal.doc)) (name : string) : option Seal.doc :=
  foldl (λ acc m, if Seal.EqualFold m.1 name then Some m.2 else acc) None ms.
Definition lookup_key (ms : list (string * Seal.doc)) (name : string) : option Seal.doc :=
  foldl (λ acc m, if String.eqb m.1 name then Some m.2 else acc) None ms.

(** A field of a slice of what [read] reads, [None] where a type does not
    fit; an absent one or [null] is empty. *)
Definition read_list {A} (read : Seal.doc → option A) (d : option Seal.doc) : option (list A) :=
  match d with
  | None | Some Seal.DNull => Some []
  | Some (Seal.DArr l) => mapM read l
  | Some _ => None
  end.
Definition read_object (d : Seal.doc) : option (list (string * Seal.doc)) :=
  match d with Seal.DObj ms => Some ms | Seal.DNull => Some [] | _ => None end.
(** A string field: absent or null, it is empty. *)
Definition read_text (d : option Seal.doc) : option string :=
  match d with None | Some Seal.DNull => Some "" | Some (Seal.DStr s) => Some s | Some _ => None end%string.
(** [json.Unmarshal] of a raw value into an empty string. *)
Definition raw_string (d : option Seal.doc) : option string :=
  match d with Some (Seal.DStr s) => Some s | Some Seal.DNull => Some "" | _ => None end.

Definition attachmentServerKey (raw : list (string * Seal.doc)) : string :=
  let value (name : string) := default ""%string (raw_string (lookup_key raw name)) in
  if String.eqb (value "encryptionKey") "" then value "key" else value "encryptionKey".

Definition chatAttachmentRefs (plaintext : bytes) : option (list string) :=
  chat ← Seal.members plaintext;
  messages ← read_list (λ m, ms ← read_object m; read_list read_object (field ms "attachments")) (field chat "messages");
  Some (foldl (λ refs a,
    match raw_string (lookup_key a "id") with
    | Some id => if String.eqb id "" || String.eqb (attachmentServerKey a) "" || bool_decide (id ∈ refs) then refs
                 else refs ++ [id]
    | None => refs
    end) [] (mjoin messages)).

(** [consider]: the later of two times, and whether the value was one. *)
Definition consider (at_ : Z) (raw : option Seal.doc) : Z * bool :=
  match s ← raw_string raw; ParseTime s with
  | Some t => (at_ `max` t, true)%Z
  | None => (at_, false)
  end.
Definition chatActivityAt (plaintext : bytes) : option Z :=
  match chat ← Seal.members plaintext; ms ← read_list Some (field chat "messages"); Some (field chat "createdAt", ms) with
  | None => None
  | Some (createdAt, messages) =>
      let at_ := foldl (λ at_ m,
        match read_object m with
        | Some ms => let '(at', ok) := consider at_ (field ms "createdAt") in
                     if ok : bool then at' else (consider at' (field ms "timestamp")).1
        | None => at_
        end) (consider 0 createdAt).1 messages in
      if bool_decide (at_ = 0)%Z then None else Some at_
  end.

Definition backfillChatActivity (p : Principal) (scope id : string) (blob : GetBlobResponse) (etag : string)
    (plaintext : bytes) : prog unit :=
  if negb (String.eqb scope "chat") || bool_decide (g_ActivityAt blob ≠ None) then Ret tt
  else match chatActivityAt plaintext with
       | None => Ret tt
       | Some t => _ ← BackfillChatActivity (PrincipalID p) id etag t; Ret tt
       end.

(** ** rows.go *)

Definition operationHash (key : bytes) (method path kidHex ifMatch nonce : string) (protocol : Z)
    (aad : option bytes) (plaintext : bytes) : string :=
  let opKey := match DeriveOpHashKey key with Ok k => k | Err _ => [] end in
  ComputeOperationHash opKey
    (mkInput method path kidHex ifMatch nonce plaintext aad None
       (if bool_decide (0 < protocol)%Z then pretty protocol else "")).

Definition aadID (scope id : string) : string := if String.eqb scope "profile" then ProfileSingletonID else id.

(** A row sealed under what is drawn for it. *)
Definition sealRow (key data : bytes) (aad : AAD) : prog (result Seal.error bytes) :=
  dek ← draw KeySize;
  n1 ← draw Seal.NonceSize;
  n2 ← draw Seal.NonceSize;
  Ret (Seal.Encrypt key data aad dek n1 n2).

(** [Push], the search index aside. *)
Definition Push (p : Principal) (key : bytes) (scope : string) (row : StoredRow) (nonce : string) : prog (result err string) :=
  if negb (Aad.Valid scope) then Ret (Err (bad "invalid scope"))
  else if String.eqb (Grants.ID row) "" || String.eqb nonce "" then
    Ret (Err (bad "a row id and an idempotency key are required"))
  else
    ok ← permitted p (λ g t, permitsPush g t key scope row);
    if negb ok then Ret (Err errRunScope)
    else
      match PathFor scope (Grants.ID row) with
      | None => Ret (Err (bad "invalid row id"))
      | Some path =>
          let kidHex := keyID key in
          let aad := mkAAD kidHex scope (Grants.ID row) (PrincipalID p) in
          match CanonicalPayloadAAD aad with
          | Err _ => Ret (Err (bad "invalid envelope inputs"))
          | Ok payloadAAD =>
              sealed ← sealRow key (Data row) aad;
              match sealed with
              | Err e => Ret (Err (EApi (FromControlplane (ESeal e))))
              | Ok envelope =>
                  let ifMatch := if String.eqb (ETag row) "" then IfMatchCreateOnly else ETag row in
                  let protocol := if String.eqb scope "profile" then profileSyncProtocol else 0%Z in
                  let hash := operationHash key "PUT" path kidHex ifMatch nonce protocol (Some payloadAAD) (Data row) in
                  let req := mkPutBlob scope (Grants.ID row) (PrincipalID p) kidHex ifMatch nonce hash protocol false envelope
                               false None None None in
                  let refs := chatAttachmentRefs (Data row) in
                  let chat := String.eqb scope "chat" in
                  let req :=
                    if chat then
                      req <| p_ProjectIDSet := true |>
                          <| p_ProjectID := match Project row with
                                            | Some s => if String.eqb s "" then None else Some s
                                            | None => None end |>
                          <| p_AttachmentRefs := refs |> <| p_ActivityAt := chatActivityAt (Data row) |>
                    else req in
                  if chat && bool_decide (maxAttachmentRefsPerChat < length (default [] refs))
                  then Ret (Err (bad "The chat references more than 500 attachments"))
                  else
                    resp ← PutBlob req;
                    Ret match resp with
                        | Err e => Err (EApi (FromControlplane (EControlplane e)))
                        | Ok resp => Ok (pr_ETag resp)
                        end
              end
          end
      end.

(** *** Reading *)

Record pulled := mkPulled { pl_row : option StoredRow; pl_err : option err; pl_transient : bool }.
Definition absent : pulled := mkPulled None None false.
Definition failedPull (e : err) : pulled := mkPulled None (Some e) false.

Definition currentPrimaryKeyIs (p : Principal) (kidHex : string) : prog bool :=
  r ← GetCurrentKey (PrincipalID p);
  Ret match r with Ok (Some current) => String.eqb (ck_KeyID current) kidHex | _ => false end.

(** [rewrapRow] of rewrap.go. *)
Definition rewrapRow (p : Principal) (scope id : string) (plaintext : bytes) (priorETag : string) (target : Seal.Key)
    : prog (result err string) :=
  let key := Seal.Bytes target in
  let kidHex := Seal.k_KeyIDHex target in
  normalized ← (if String.eqb scope "chat" then rewrapChatAttachments p id plaintext else Ret (Ok None));
  match normalized with
  | Err e => Ret (Err e)
  | Ok normalized =>
      let data := default plaintext normalized in
      let aad := mkAAD kidHex scope (aadID scope id) (PrincipalID p) in
      match CanonicalPayloadAAD aad with
      | Err e => Ret (Err (ESeal (Seal.ErrAAD e)))
      | Ok payloadAAD =>
          sealed ← sealRow key data aad;
          match sealed with
          | Err e => Ret (Err (ESeal e))
          | Ok envelope =>
              let nonce := String.append "rewrap:" (String.append kidHex (String.append ":" (String.append id
                             (String.append ":" priorETag)))) in
              match DeriveOpHashKey key with
              | Err e => Ret (Err (ESeal (Seal.ErrAAD e)))
              | Ok opKey =>
                  let hash := ComputeOperationHash opKey
                                (mkInput "POST" RewrapPath kidHex priorETag nonce data (Some payloadAAD) None "") in
                  resp ← PutBlob (mkPutBlob scope id (PrincipalID p) kidHex priorETag nonce hash 0 true envelope false None None None);
                  Ret match resp with Err e => Err (EControlplane e) | Ok resp => Ok (pr_ETag resp) end
              end
          end
      end
  end.

Definition opensObject (data : bytes) : bool :=
  match Seal.parse data with Some (Seal.DObj _) => true | _ => false end.

(** [pullOne]; [probed] is what [canRewrap] answered, once it was asked. *)
Definition pullOne (p : Principal) (target : Seal.Key) (scope id : string) (probed : option bool) : prog (pulled * option bool) :=
  got ← GetBlob scope id (PrincipalID p);
  match got with
  | Err e =>
      Ret (match asError e with
           | Some s =>
               if bool_decide (StatusCode s = 404)%Z then absent
               else if bool_decide (Z.quot (StatusCode s) 100 = 4)%Z then failedPull (EApi (FromControlplane (EControlplane e)))
               else mkPulled None (Some (EApi (FromControlplane (EControlplane e)))) true
           | None => mkPulled None (Some (EApi (FromControlplane (EControlplane e)))) true
           end, probed)
  | Ok blob =>
      let opened :=
        match Seal.Detect (g_Ciphertext blob) with
        | Seal.VersionV2 =>
            match Seal.DecryptV2 (g_Ciphertext blob) [target] (mkAAD "" scope (aadID scope id) (PrincipalID p)) with
            | Err Seal.ErrNoMatchingKey =>
                Err (EApi (keyMismatch <| e_KeyID := from_option Seal.KID ""%string (Seal.unmarshalV2 (g_Ciphertext blob)) |>))
            | Err _ => Err errRowUnreadable
            | Ok dec => Ok (Seal.Plaintext dec, false)
            end
        | Seal.VersionV0 | Seal.VersionV1 =>
            match Seal.DecryptLegacy (g_Ciphertext blob) [target] with
            | Err _ => Err (EApi keyMismatch)
            | Ok dec => Ok (Seal.Plaintext dec, true)
            end
        | Seal.VersionUnknown => Err errRowUnreadable
        end in
      match opened with
      | Err e => Ret (failedPull e, probed)
      | Ok (data, legacy) =>
          if negb (opensObject data) then Ret (failedPull errRowUnreadable, probed)
          else
            let row := mkRow id (g_ETag blob) data (g_ProjectID blob) (g_ProjectIDSet blob) (g_UpdatedAt blob) in
            '(can, probed) ←
              (if legacy : bool then
                 match probed with
                 | Some can => Ret (can, probed)
                 | None => can ← currentPrimaryKeyIs p (Seal.k_KeyIDHex target); Ret (can, Some can)
                 end
               else Ret (false, probed));
            row ← (if can : bool then
                     r ← rewrapRow p scope id data (g_ETag blob) target;
                     Ret match r with Ok etag => row <| ETag := etag |> | Err _ => row end
                   else Ret row);
            _ ← backfillChatActivity p scope id blob (ETag row) data;
            Ret (mkPulled (Some row) None false, probed)
      end
  end.

Fixpoint distinct (seen ids : list string) : list string :=
  match ids with
  | [] => []
  | id :: ids => if bool_decide (id ∈ seen) then distinct seen ids else id :: distinct (id :: seen) ids
  end.

(** What a pull has: the rows opened, and why others were not. *)
Record pulling := mkPulling { pg_rows : list StoredRow; pg_failed : gmap string err; pg_probed : option bool }.

(** The fetches of a batch, one after another, and the ids to fetch again. *)
Fixpoint fetch (p : Principal) (target : Seal.Key) (scope : string) (retry : bool) (ids : list string) (s : pulling)
    : prog (pulling * list string) :=
  match ids with
  | [] => Ret (s, [])
  | id :: ids =>
      '(item, probed) ← pullOne p target scope id (pg_probed s);
      let s := mkPulling (pg_rows s) (pg_failed s) probed in
      if pl_transient item && retry then
        '(s, again) ← fetch p target scope retry ids s; Ret (s, id :: again)
      else if pl_transient item then
        fetch p target scope retry ids (mkPulling (pg_rows s) (<[id := ErrRowNotFetched]> (pg_failed s)) probed)
      else
        match pl_err item, pl_row item with
        | Some e, _ => fetch p target scope retry ids (mkPulling (pg_rows s) (<[id := e]> (pg_failed s)) probed)
        | None, Some row => fetch p target scope retry ids (mkPulling (pg_rows s ++ [row]) (pg_failed s) probed)
        | None, None => fetch p target scope retry ids s
        end
  end.
(** [pullBatch]: once more for what could not be served. *)
Definition pullBatch (p : Principal) (target : Seal.Key) (scope : string) (ids : list string) (s : pulling) : prog pulling :=
  '(s, again) ← fetch p target scope true (distinct [] ids) s;
  match again with
  | [] => Ret s
  | again => '(s, _) ← fetch p target scope false again s; Ret s
  end.
Fixpoint pullBatches (fuel : nat) (p : Principal) (target : Seal.Key) (scope : string) (ids : list string) (s : pulling) : prog pulling :=
  match fuel, ids with
  | _, [] | 0, _ => Ret s
  | S fuel, ids => s ← pullBatch p target scope (take PullBatch ids) s; pullBatches fuel p target scope (drop PullBatch ids) s
  end.

Definition Pull (p : Principal) (key : bytes) (scope : string) (ids : list string)
    : prog (result err (list StoredRow * gmap string err)) :=
  if bool_decide (ids = []) then Ret (Ok ([], ∅))
  else if negb (Aad.Valid scope) then Ret (Err (bad "invalid scope"))
  else
    ok ← permitted p (λ g t, permitsPull g t key scope ids);
    if negb ok then Ret (Err errRunScope)
    else
      s ← pullBatches (length ids) p (Seal.mkKey key (keyID key)) scope ids (mkPulling [] ∅ None);
      Ret (Ok (pg_rows s, pg_failed s)).

Definition Load (p : Principal) (key : bytes) (scope id : string) : prog (result err StoredRow) :=
  pulled ← Pull p key scope [id];
  Ret match pulled with
      | Err e => Err e
      | Ok (rows, failed) =>
          match failed !! id with
          | Some e => Err e
          | None =>
              match List.find (λ row, String.eqb (Grants.ID row) id) rows with
              | Some row => Ok row
              | None => Err (EApi (api 404 "THREAD_NOT_FOUND" "The requested data was not found"))
              end
          end
      end.

(** *** Removal, a chat's attachments and the search index aside *)

Definition removeAt (p : Principal) (key : bytes) (scope path id revision nonce : string)
    : prog (result Controlplane.error DeleteBlobResponse) :=
  DeleteBlob (mkDelete scope id (PrincipalID p) revision nonce
    (operationHash key "DELETE" path (keyID key) revision nonce 0 None [])).

(** The attempts of [Remove] from the one of number [attempt] on. *)
Fixpoint removeLoop (tries attempt : nat) (p : Principal) (key : bytes) (scope path id nonce : string)
    : prog (result err unit) :=
  match tries with
  | 0 => Ret (Err (EApi (api 409 "REVISION_CONFLICT" "The row changed during every delete attempt")))
  | S tries =>
      got ← GetBlob scope id (PrincipalID p);
      match got with
      | Err e =>
          Ret match asError e with
              | Some s => if bool_decide (StatusCode s = 404)%Z then Ok tt
                          else Err (EApi (FromControlplane (EControlplane e)))
              | None => Err (EApi (FromControlplane (EControlplane e)))
              end
      | Ok blob =>
          let attemptNonce := if bool_decide (0 < attempt)
                              then String.append nonce (String.append ":retry:" (pretty attempt)) else nonce in
          resp ← removeAt p key scope path id (g_ETag blob) attemptNonce;
          match resp with
          | Ok _ => Ret (Ok tt)
          | Err e => if IsCode e StatusStaleBlob then removeLoop tries (S attempt) p key scope path id nonce
                     else Ret (Err (EApi (FromControlplane (EControlplane e))))
          end
      end
  end.

Definition Remove (p : Principal) (key : bytes) (scope id : string) : prog (result err unit) :=
  if negb (Aad.Valid scope) then Ret (Err (bad "invalid scope"))
  else if String.eqb id "" then Ret (Err (bad "a row id is required"))
  else
    ok ← permitted p (λ g t, allows g t opRemove);
    if negb ok then Ret (Err errRunScope)
    else match PathFor scope id with
         | None => Ret (Err (bad "invalid row id"))
         | Some path => nonce ← newID; removeLoop removeAttempts 0 p key scope path id nonce
         end.

Definition RemoveRevision (p : Principal) (key : bytes) (id revision : string) : prog (result err unit) :=
  if String.eqb id "" || String.eqb revision "" then Ret (Err (bad "a row id and a revision are required"))
  else
    ok ← permitted p (λ g t, allows g t opRemove);
    if negb ok then Ret (Err errRunScope)
    else match PathFor "chat" id with
         | None => Ret (Err (bad "invalid row id"))
         | Some path =>
             nonce ← newID;
             resp ← removeAt p key "chat" path id revision nonce;
             Ret match resp with Err e => Err (EApi (FromControlplane (EControlplane e))) | Ok _ => Ok tt end
         end.

(** ** store.go *)

(** [Store.Push] from an attempt with [tries] left, this one included. *)
Fixpoint pushLoop (tries : nat) (p : Principal) (key : bytes) (scope : string) (row : StoredRow) (nonce : string)
    : prog (result err StoredRow) :=
  pushed ← Push p key scope row nonce;
  match pushed with
  | Ok etag => Ret (Ok (row <| ETag := etag |>))
  | Err e =>
      match tries with
      | S (S _ as tries) =>
          if String.eqb (ErrCode (AsError e)) "SYNC_OUTCOME_UNKNOWN" then pushLoop tries p key scope row nonce else Ret (Err e)
      | _ => Ret (Err e)
      end
  end.
Definition StorePush (p : Principal) (key : bytes) (scope : string) (row : StoredRow) : prog (result err StoredRow) :=
  nonce ← newID; pushLoop MaxCommitAttempts p key scope row nonce.

Definition emptyRow (id : string) : StoredRow := mkRow id "" [] None false None.

(** [CommitRow] with [tries] attempts left. *)
Fixpoint commitLoop (tries : nat) (p : Principal) (key : bytes) (scope id : string) (create : bool)
    (edit : StoredRow → bool → result err StoredRow) : prog (result err unit) :=
  match tries with
  | 0 => Ret (Err errEveryCommitConflicted)
  | S tries =>
      loaded ← Load p key scope id;
      let read :=
        match loaded with
        | Ok row => Ok (row, true)
        | Err e => if negb create || negb (bool_decide (HTTP (AsError e) = 404)%Z) then Err e else Ok (emptyRow id, false)
        end in
      match read with
      | Err e => Ret (Err e)
      | Ok (row, exists_) =>
          match edit row exists_ with
          | Err e => Ret (Err e)
          | Ok row =>
              pushed ← StorePush p key scope row;
              match pushed with
              | Ok _ => Ret (Ok tt)
              | Err e => if String.eqb (ErrCode (AsError e)) "REVISION_CONFLICT"
                         then commitLoop tries p key scope id create edit else Ret (Err e)
              end
          end
      end
  end.
Definition CommitRow (p : Principal) (key : bytes) (scope id : string) (create : bool)
    (edit : StoredRow → bool → result err StoredRow) : prog (result err unit) :=
  commitLoop MaxCommitAttempts p key scope id create edit.
End Rows.
End Rows.
