(* ===== verification/Keys.v ===== *)
(** * The key registry: internal/store/keys.go

    A caller's current content key as the control plane holds it, by id, and
    the passkey bundles that wrap it.  The registry itself is
    Controlplane.v's service. *)

From S2P Require Import Prelude GoStd Api Codec Aad Seal Controlplane Grants Rows.
From stdpp Require Import pretty.

Module Keys.
Import GoStd Codec Aad Controlplane Grants Rows.

Record KeyBundle := mkKeyBundle { kb_bundle : RegisterKeyBundle; kb_CreatedAt : Z; kb_UpdatedAt : Z }.
(** No id is the no-key state. *)
Record KeyState := mkKeyState {
  ks_KeyID : option string;
  ks_ETag : string;
  ks_Bundles : gmap string KeyBundle;
  ks_CreatedVia : string;
  ks_CreatedAt : option Z;
  ks_HasData : bool;
}.

Definition bundleIVHexLen : nat := 24.
Definition bundleWrappedKeyHexLen : nat := 96.
Definition keyIDHexLen : nat := 32.
Definition errKeyNotItsID : err := bad "The key does not match its id".

Definition errIfMatch : string :=
  String.append "if_match is required: the current key's etag, or " (String "034" (String "*" (String "034" " without one"))).

Definition validateKeyID (id : string) : result err unit :=
  if negb (Nat.eqb (String.length id) keyIDHexLen) || negb (isLowerHex id)
  then Err (bad "key_id must be 32 lowercase hex characters") else Ok tt.
Definition validateBundleShape (kekIV encryptedKeys : string) : result err unit :=
  if negb (Nat.eqb (String.length kekIV) bundleIVHexLen) || negb (isLowerHex kekIV)
  then Err (bad "kek_iv must be 24 lowercase hex characters")
  else if negb (Nat.eqb (String.length encryptedKeys) bundleWrappedKeyHexLen) || negb (isLowerHex encryptedKeys)
  then Err (bad "encrypted_keys must be 96 lowercase hex characters") else Ok tt.

Definition fromClient {A} (r : result Controlplane.error A) : result err A :=
  match r with Ok a => Ok a | Err e => Err (EApi (FromControlplane (EControlplane e))) end.

Definition ofBundle (b : CurrentKeyBundle) : KeyBundle := mkKeyBundle (cb_bundle b) (cb_RegisteredAt b) (cb_RegisteredAt b).
Definition CurrentKey (p : Principal) : prog (result err KeyState) :=
  r ← GetCurrentKey (PrincipalID p);
  Ret (current ← fromClient r;
       Ok match current with
          | None => mkKeyState None "" ∅ "" None false
          | Some c =>
              if String.eqb (ck_KeyID c) "" then mkKeyState None "" ∅ "" None (ck_HasData c)
              else mkKeyState (Some (ck_KeyID c)) (ck_ETag c) (ofBundle <$> ck_Bundles c) (ck_CreatedVia c) (ck_CreatedAt c) (ck_HasData c)
          end).

Definition errNotRegistered (id : string) : err :=
  EApi ((api 409 "KEY_MISMATCH" "The key is not the registered content key") <| e_KeyID := id |>).

(** What leaves the other services once a key is registered: attachments, from
    buckets, and the object of the search index, where one is to be
    forgotten. *)
Record cleanup := mkCleanup { deleteBucketAttachments : list string; Forget : option string }.

Section Keys.
Context `{JS : Seal.Json} `{MC : Mac}.
(** Whether there is a search service. *)
Context (searches : bool).

Definition CheckRegisteredKey (p : Principal) (key : bytes) : prog (result err unit) :=
  r ← GetCurrentKey (PrincipalID p);
  Ret (current ← fromClient r;
       match current with
       | Some c => if String.eqb (ck_KeyID c) (keyID key) then Ok tt else Err (errNotRegistered (ck_KeyID c))
       | None => Err (errNotRegistered "")
       end).
Definition CheckKeyNotReplaced (p : Principal) (key : bytes) : prog (result err unit) :=
  r ← GetCurrentKey (PrincipalID p);
  Ret (current ← fromClient r;
       match current with
       | None => Ok tt
       | Some c => if String.eqb (ck_KeyID c) "" || String.eqb (ck_KeyID c) (keyID key) then Ok tt
                   else Err (errNotRegistered (ck_KeyID c))
       end).

(** [json.Marshal] of the bodies, whose maps it writes in the order of their
    keys. *)
Definition bundleDoc (b : RegisterKeyBundle) : list (string * Seal.doc) :=
  [("credential_id", Seal.DStr (b_CredentialID b)); ("kek_iv", Seal.DStr (b_KEKIV b));
   ("encrypted_keys", Seal.DStr (b_EncryptedKeys b))]%string.
Definition RegisterKeyBody (req : RegisterKeyRequest) : bytes :=
  Seal.MarshalObject ([("created_via", Seal.DStr (rk_CreatedVia req))]%string ++
    match rk_InitialBundle req with Some b => [("initial_bundle", Seal.DObj (bundleDoc b))]%string | None => [] end ++
    [("key_id", Seal.DStr (rk_KeyIDHex req))]%string).
Definition AddBundleBody (b : RegisterKeyBundle) : bytes :=
  Seal.MarshalObject [("credential_id", Seal.DStr (b_CredentialID b)); ("encrypted_keys", Seal.DStr (b_EncryptedKeys b));
                      ("kek_iv", Seal.DStr (b_KEKIV b))]%string.

Definition checkRegister (ifMatch createdVia nonce : string) (bundle : option RegisterKeyBundle) : result err unit :=
  if negb (existsb (String.eqb createdVia) createdVias)
  then Err (bad "created_via must be passkey, manual, recovery or start_fresh")
  else if String.eqb ifMatch "" then Err (bad errIfMatch)
  else if String.eqb nonce "" then Err (bad "idempotency_key is required")
  else match bundle with
       | None => Ok tt
       | Some b => if String.eqb (b_CredentialID b) "" then Err (bad "initial_bundle.credential_id is required")
                   else validateBundleShape (b_KEKIV b) (b_EncryptedKeys b)
       end.
Definition RegisterKey (p : Principal) (key : bytes) (ifMatch createdVia nonce : string) (bundle : option RegisterKeyBundle)
    : prog (result err string * cleanup) :=
  let none := mkCleanup [] None in
  match checkRegister ifMatch createdVia nonce bundle with
  | Err e => Ret (Err e, none)
  | Ok _ =>
      let kidHex := keyID key in
      let req := mkRegister (PrincipalID p) kidHex ifMatch createdVia nonce "" bundle in
      let req := req <| rk_OperationHash := operationHash key "POST" RegisterKeyPath kidHex ifMatch nonce 0 None (RegisterKeyBody req) |> in
      fencedObject ← (if searches then r ← GetSearchObject (PrincipalID p); Ret match r with Ok o => o | Err _ => ""%string end
                      else Ret ""%string);
      r ← Controlplane.RegisterKey req;
      Ret match fromClient r with
          | Err e => (Err e, none)
          | Ok resp =>
              (Ok kidHex, mkCleanup (rr_WipedV2Attachments resp)
                            (if rr_SearchIndexFenced resp && searches then Some fencedObject else None))
          end
  end.

Definition AddKeyBundle (p : Principal) (key : bytes) (kid : string) (b : RegisterKeyBundle) (nonce : string) : prog (result err unit) :=
  match (_ ← validateKeyID kid;
         if incompleteBundle b then Err (bad "credential_id, kek_iv and encrypted_keys are required")
         else _ ← validateBundleShape (b_KEKIV b) (b_EncryptedKeys b);
              if String.eqb nonce "" then Err (bad "idempotency_key is required")
              else if negb (String.eqb (keyID key) kid) then Err errKeyNotItsID else Ok tt) with
  | Err e => Ret (Err e)
  | Ok _ =>
      let hash := operationHash key "POST" (AddBundlePath kid) kid "" nonce 0 None (AddBundleBody b) in
      r ← AddBundle (mkBundleRequest (PrincipalID p) kid nonce hash) b;
      Ret (fromClient r)
  end.
Definition RemoveKeyBundle (p : Principal) (key : bytes) (kid credentialID nonce : string) : prog (result err unit) :=
  match (_ ← validateKeyID kid;
         if String.eqb credentialID "" then Err (bad "credential_id is required")
         else if String.eqb nonce "" then Err (bad "idempotency_key is required")
         else if negb (String.eqb (keyID key) kid) then Err errKeyNotItsID else Ok tt) with
  | Err e => Ret (Err e)
  | Ok _ =>
      let hash := operationHash key "DELETE" (RemoveBundlePath kid credentialID) kid "" nonce 0 None [] in
      r ← RemoveBundle (mkBundleRequest (PrincipalID p) kid nonce hash) credentialID;
      Ret (fromClient r)
  end.
End Keys.

(** ** What the registry promises *)

Section Registry.
Context (continues : bool).

Lemma go_suffix x s : ∃ t, pretty_N_go x s = String.append t s.
Proof.
  revert s. induction (N.lt_wf_0 x) as [x _ IH]. intros s. destruct (decide (x = 0)%N) as [->|Hx].
  - exists ""%string. by rewrite pretty_N_go_0.
  - rewrite pretty_N_go_step by lia. destruct (IH (x `div` 10)%N ltac:(by apply N.div_lt; lia) (String (pretty_N_char (x `mod` 10)) s)) as [t ->].
    exists (String.append t (String (pretty_N_char (x `mod` 10)) "")). by rewrite string_app_assoc.
Qed.
Lemma digit_not_star x : pretty_N_char x ≠ "*"%char.
Proof. unfold pretty_N_char. by repeat case_match. Qed.
(** A revision is not the name of any key. *)
Lemma etag_not_any n : (0 ≤ n)%Z → FormatETag n ≠ IfMatchAnyKey.
Proof.
  intros Hn. unfold FormatETag. destruct n as [|n|n]; [done| |lia]. change (pretty_N_go (N.pos n) "" ≠ "*"%string).
  rewrite pretty_N_go_step by lia. destruct (go_suffix (N.pos n `div` 10) (String (pretty_N_char (N.pos n `mod` 10)) "")) as [t ->].
  destruct t as [|a t]; cbn; intros [= H1].
  - by apply digit_not_star in H1.
  - by destruct t.
Qed.

Lemma no_other_data s claim legacy k b : hasDataUnderOtherKey s claim legacy = false → Blobs s !! k = Some b →
  KeyID b = claim ∨ KeyID b = ""%string ∧ legacy = false.
Proof.
  unfold hasDataUnderOtherKey. intros Hf Hk.
  assert (Hin : In b (map_to_list (Blobs s)).*2).
  { apply list_elem_of_In, list_elem_of_fmap. exists (k, b). split; [done|]. by apply elem_of_map_to_list. }
  rewrite <- not_true_iff_false, existsb_exists in Hf. destruct (String.eqb_spec (KeyID b) "") as [He|He].
  - right. split; [done|]. destruct legacy; [|done]. destruct Hf. exists b. split; [done|]. by rewrite He.
  - left. destruct (String.eqb_spec (KeyID b) claim) as [|Hne]; [done|]. destruct Hf. exists b. split; [done|].
    rewrite (proj2 (String.eqb_neq _ _) He). by rewrite (proj2 (String.eqb_neq _ _) Hne).
Qed.

(** The registry is well formed: bundles are the current key's. *)
Definition wellKept (s : Store) : Prop :=
  (0 ≤ KeyETag s)%Z ∧ ∀ kid, is_Some (Bundles s !! kid) → kid = StoredKeyID s ∧ kid ≠ ""%string.
(** What a registration does: refuses; adds a bundle to the current key; or
    registers a key, over the rows there are or none. *)
Inductive registers (s : Store) (q : request) (at_ : Z) : Store → response → Prop :=
  | registers_refused r : (400 ≤ Status r)%Z → registers s q at_ s r
  | registers_again kid via initial : q_body q = QRegister kid via initial → q_IfMatch q = IfMatchAnyKey → StoredKeyID s = kid →
      kid ≠ ""%string → via ≠ "start_fresh"%string →
      registers s q at_ (addBundle kid initial at_ s) (registerAnswer s [] false)
  | registers_key kid via initial s0 wiped s' r : q_body q = QRegister kid via initial → kid ≠ ""%string →
      q_IfMatch q = (if String.eqb (StoredKeyID s) "" then IfMatchAnyKey else FormatETag (KeyETag s)) →
      (s0, wiped) = (s, []) ∧
        (StoredKeyID s = kid ∨ (via = "recovery" ∨ via = "manual")%string ∧ StoredKeyID s = ""%string ∨
         ∀ k b, Blobs s !! k = Some b → KeyID b = kid ∨ KeyID b = ""%string ∧ (via = "recovery" ∨ via = "manual")%string) ∨
      (s0, wiped) = wipeAll s ∧ via = "start_fresh"%string ∧ StoredKeyID s ≠ kid ∧ hasDataUnderOtherKey s kid true = true →
      registered kid via initial at_ (s0, wiped) = (s', r) → registers s q at_ s' r.

Lemma hex32_nonempty kid : isLowerHex32 kid = true → kid ≠ ""%string.
Proof. by intros H ->. Qed.
Lemma handleRegister_spec s q at_ s' r : handleRegisterKey s q at_ = (s', r) → registers s q at_ s' r.
Proof.
  unfold handleRegisterKey. destruct (_ || String.eqb (q_OperationHash q) ""); [intros [= <- <-]; by constructor|].
  destruct (q_body q) as [| | | |kid via initial|] eqn:Hb; try (intros [= <- <-]; by constructor). cbv zeta.
  destruct (negb (isLowerHex32 kid) || _ || _ || _) eqn:Hbad; [intros [= <- <-]; by constructor|].
  assert (Hkid : kid ≠ ""%string).
  { apply hex32_nonempty. by apply orb_false_iff in Hbad as [[[H%negb_false_iff _]%orb_false_iff _]%orb_false_iff _]. } clear Hbad.
  set (asserting := String.eqb via "recovery" || String.eqb via "manual").
  assert (Hassert : asserting = true → (via = "recovery" ∨ via = "manual")%string).
  { unfold asserting. intros [?%String.eqb_eq|?%String.eqb_eq]%orb_true_iff; auto. }
  destruct (String.eqb_spec (StoredKeyID s) "") as [Hcur|Hcur].
  - destruct (String.eqb_spec (q_IfMatch q) IfMatchAnyKey) as [Him|]; cbn [negb]; [|intros [= <- <-]; by constructor].
    assert (Hm : q_IfMatch q = (if String.eqb (StoredKeyID s) "" then IfMatchAnyKey else FormatETag (KeyETag s))) by (by rewrite Hcur).
    destruct (negb asserting && _) eqn:Hdata.
    + apply andb_true_iff in Hdata as [_ Hdata]. destruct (String.eqb_spec via "start_fresh") as [Hf|]; cbn [negb]; [|intros [= <- <-]; by constructor].
      intros Hreg. destruct (wipeAll s) as [s0 wiped] eqn:Hw. eapply registers_key; [done..| |exact Hreg]. right. by rewrite Hcur.
    + intros Hreg. eapply registers_key; [done..| |exact Hreg]. left. split; [done|]. right.
      apply andb_false_iff in Hdata as [Ha%negb_false_iff|Hd]; [left; auto|right]. intros k b Hk.
      destruct (no_other_data _ _ _ _ _ Hd Hk) as [|[_ ?]]; [by left|done].
  - destruct (String.eqb_spec (q_IfMatch q) IfMatchAnyKey) as [Him|Him].
    + destruct (String.eqb_spec (StoredKeyID s) kid) as [He|]; cbn [andb]; [|intros [= <- <-]; by constructor].
      destruct (String.eqb_spec via "start_fresh") as [|Hf]; cbn [negb]; intros [= <- <-]; [by constructor|].
      replace (registerAnswer _ [] false) with (registerAnswer s [] false) by (by destruct initial).
      by eapply registers_again.
    + destruct (String.eqb_spec (q_IfMatch q) (FormatETag (KeyETag s))) as [Het|]; cbn [negb]; [|intros [= <- <-]; by constructor].
      assert (Hm : q_IfMatch q = (if String.eqb (StoredKeyID s) "" then IfMatchAnyKey else FormatETag (KeyETag s))).
      { by rewrite (proj2 (String.eqb_neq _ _) Hcur). }
      destruct (negb (String.eqb (StoredKeyID s) kid) && _) eqn:Hdata.
      * apply andb_true_iff in Hdata as [Hne%negb_true_iff%String.eqb_neq Hdata].
        destruct (asserting || _) eqn:Ha; [intros [= <- <-]; by constructor|].
        apply orb_false_iff in Ha as [Ha Hf%negb_false_iff%String.eqb_eq]. intros Hreg.
        destruct (wipeAll s) as [s0 wiped] eqn:Hw. eapply registers_key; [done..| |exact Hreg]. right. rewrite Ha in Hdata. done.
      * intros Hreg. eapply registers_key; [done..| |exact Hreg]. left. split; [done|].
        apply andb_false_iff in Hdata as [He%negb_false_iff%String.eqb_eq|Hd]; [by left|]. right. right. intros k b Hk.
        destruct (no_other_data _ _ _ _ _ Hd Hk) as [|[? Ha%negb_false_iff]]; [by left|right; auto].
Qed.

Lemma registered_spec kid via initial at_ s wiped s' r : registered kid via initial at_ (s, wiped) = (s', r) →
  StoredKeyID s' = kid ∧ KeyETag s' = (KeyETag s + 1)%Z ∧ Blobs s' = Blobs s ∧ answered s' = answered s ∧ Status r = 200%Z ∧
  Content r = Json (noAnswer <| a_ok := true |> <| a_key_id := kid |> <| a_etag := FormatETag (KeyETag s') |> <| a_wiped := wiped |>) ∧
  (∀ k, is_Some (Bundles s' !! k) → k = kid ∨ StoredKeyID s = kid ∧ is_Some (Bundles s !! k)) ∧
  (∀ b, initial = Some b → ∃ bs, Bundles s' !! kid = Some bs ∧ bs !! b_CredentialID b = Some (mkCurrentBundle b at_)).
Proof.
  unfold registered. set (s1 := if negb _ then s <| KeyRegisteredAt := at_ |> else s).
  set (s2 := s1 <| StoredKeyID := kid |> <| KeyCreatedVia := via |> <| KeyETag ::= Z.succ |>).
  set (s3 := if negb _ then s2 <| Bundles ::= _ |> <| MigrationFailures := ∅ |> else s2).
  set (fenced := _ || _). set (s4 := if fenced then fenceSearchIndex s3 else s3). intros [= <- <-].
  assert (H4 : StoredKeyID s4 = kid ∧ KeyETag s4 = (KeyETag s + 1)%Z ∧ Blobs s4 = Blobs s ∧ answered s4 = answered s ∧
    ∀ k, is_Some (Bundles s4 !! k) → k = kid ∨ StoredKeyID s = kid ∧ is_Some (Bundles s !! k)).
  { unfold s4, s3, s2, s1. destruct (String.eqb_spec (StoredKeyID s) kid) as [He|He]; cbn [negb].
    - destruct fenced; cbn; split_and!; auto.
    - assert (Hfilter : ∀ k, is_Some (filter (λ x : string * gmap string CurrentKeyBundle, x.1 = kid) (Bundles s) !! k) →
        k = kid ∨ StoredKeyID s = kid ∧ is_Some (Bundles s !! k)) by (intros k [bs [_ Hk]%map_lookup_filter_Some]; by left).
      destruct fenced; cbn; split_and!; auto. }
  clearbody s4. destruct H4 as (H1 & H2 & H3 & H5 & H6).
  destruct initial as [b|]; cbn [addBundle]; [|split_and!; try done; cbn; by rewrite H1].
  split_and!; try done; cbn; [by rewrite H1| |].
  - intros k. destruct (decide (k = kid)) as [->|Hne]; [by left|]. rewrite lookup_insert_ne by done. apply H6.
  - intros b' [= <-]. eexists. by rewrite lookup_insert_eq, lookup_insert_eq.
Qed.

(** What a request leaves of the registry. *)
Definition advances (s s' : Store) : Prop :=
  wellKept s → wellKept s' ∧ (KeyETag s ≤ KeyETag s')%Z ∧ (KeyETag s' = KeyETag s → StoredKeyID s' = StoredKeyID s).
Lemma advances_same s s' : StoredKeyID s' = StoredKeyID s → KeyETag s' = KeyETag s → Bundles s' = Bundles s → advances s s'.
Proof. intros H1 H2 H3 Hw. unfold wellKept in *. rewrite H1, H2, H3. split_and!; [apply Hw..|lia|done]. Qed.
Lemma addBundle_advances kid initial at_ s : StoredKeyID s = kid → kid ≠ ""%string → advances s (addBundle kid initial at_ s).
Proof.
  intros Hk Hne [H1 H2]. destruct initial as [b|]; [|done]. cbn. split_and!; try done. split; [done|]. cbn. intros k.
  destruct (decide (k = kid)) as [->|Hd]; [by rewrite Hk|]. rewrite lookup_insert_ne by done. apply H2.
Qed.
Lemma registers_advances s q at_ s' r : registers s q at_ s' r → advances s s'.
Proof.
  intros [r' ?|kid via initial _ _ Hk Hne _|kid via initial s0 wiped s1 r1 _ Hne _ Hcase Hreg].
  - by apply advances_same.
  - by apply addBundle_advances.
  - apply registered_spec in Hreg as (H1 & H2 & _ & _ & _ & _ & H3 & _). intros [Hw Hb].
    assert (Hs0 : KeyETag s0 = KeyETag s ∧ StoredKeyID s0 = StoredKeyID s ∧ Bundles s0 = Bundles s)
      by (destruct Hcase as [[[= -> ->] _]|[[= -> ->] _]]; done).
    destruct Hs0 as (He & Hk & Hbs). rewrite He in H2. split_and!; [|lia|lia]. split; [lia|]. intros k Hsome. rewrite H1.
    destruct (H3 k Hsome) as [->|[Hs0 Hs]]; [done|]. rewrite Hbs in Hs. destruct (Hb k Hs) as [Hk' ?]. split; congruence.
Qed.
Lemma bundleKey_none s q kid : bundleKey s q kid = None → StoredKeyID s = kid ∧ kid ≠ ""%string.
Proof.
  unfold bundleKey. destruct (_ || _ || _); [done|]. destruct (String.eqb_spec (StoredKeyID s) ""); [done|].
  destruct (String.eqb_spec kid (StoredKeyID s)) as [->|]; [|done]. done.
Qed.
Lemma idempotent_advances change s q s' r : (∀ s1 r1, change s q = (s1, r1) → advances s s1) →
  idempotent change s q = (s', r) → advances s s'.
Proof.
  intros Hc. unfold idempotent. destruct (String.eqb _ ""); [apply Hc|]. destruct (String.eqb (q_OperationHash q) "").
  { intros [= <- <-]. by apply advances_same. }
  destruct (answered s !! _) as [a|]; [destruct (_ && _); intros [= <- <-]; by apply advances_same|].
  destruct (change s q) as [s1 r1] eqn:H1. specialize (Hc _ _ eq_refl). destruct (bool_decide _); intros [= <- <-]; [|done].
  intros Hw. exact (Hc Hw).
Qed.
Ltac unchanged := intros [= <- <-]; by apply advances_same.
Lemma serve_advances s q at_ s' r : ServeHTTP continues s q at_ = (s', r) → advances s s'.
Proof.
  unfold ServeHTTP. destruct (q_route q) as [scope id| | | | |kid|kid cid|].
  - destruct (String.eqb _ "PUT"); [apply idempotent_advances|].
    { intros s1 r1. unfold servePut, handlePutBlob, putBlob. cbv zeta. repeat case_match; unchanged. }
    destruct (String.eqb _ "GET"); [unchanged|]. destruct (String.eqb _ "DELETE"); [apply idempotent_advances|unchanged].
    intros s1 r1. unfold handleDeleteBlob. cbv zeta. repeat case_match; unchanged.
  - destruct (String.eqb _ "POST"); [apply idempotent_advances|unchanged].
    intros s1 r1. unfold handleRewrap. cbv zeta. repeat case_match; unchanged.
  - destruct (String.eqb _ "POST"); [|unchanged]. unfold handleBackfillChatActivity. repeat case_match; unchanged.
  - destruct (String.eqb _ "GET"); unchanged.
  - destruct (String.eqb _ "POST"); [apply idempotent_advances|unchanged].
    intros s1 r1 Hreg. by eapply registers_advances, handleRegister_spec.
  - destruct (String.eqb _ "POST"); [apply idempotent_advances|unchanged].
    intros s1 r1. unfold handleAddBundle. destruct (q_body q) as [| | | | |b]; try unchanged. destruct (incompleteBundle b); [unchanged|].
    destruct (bundleKey s q kid) eqn:Hk; [unchanged|]. apply bundleKey_none in Hk as [??]. intros [= <- <-].
    by apply (addBundle_advances kid (Some b) at_ s).
  - destruct (String.eqb _ "DELETE"); [apply idempotent_advances|unchanged].
    intros s1 r1. unfold handleRemoveBundle. destruct (bundleKey s q kid) eqn:Hk; [unchanged|]. intros [= <- <-].
    intros [H1 H2]. split_and!; try done. split; [done|]. cbn. intros k. rewrite lookup_alter. destruct (decide _) as [<-|Hd].
    + intros [x Hx]. apply H2. destruct (Bundles s !! kid); [by eexists|done].
    + apply H2.
  - destruct (String.eqb _ "GET"); unchanged.
Qed.

(** A request served, at any time. *)
Definition serves (s s' : Store) : Prop := ∃ q at_ r, ServeHTTP continues s q at_ = (s', r).
Lemma served_advances s s' : rtc serves s s' → advances s s'.
Proof.
  induction 1 as [s|s s1 s' (q & at_ & r & Hs) _ IH]; [by apply advances_same|]. intros Hw.
  destruct (serve_advances _ _ _ _ _ Hs Hw) as (Hw1 & H1 & H2). destruct (IH Hw1) as (Hw' & H3 & H4).
  split_and!; [done|lia|]. intros He. rewrite H4 by lia. apply H2. lia.
Qed.

Definition asserting (via : string) : Prop := via = "recovery"%string ∨ via = "manual"%string.
Lemma hasData_row s kid : kid ≠ ""%string → hasDataUnderOtherKey s kid true = true → ∃ k b, Blobs s !! k = Some b ∧ KeyID b ≠ kid.
Proof.
  intros Hkid (b & Hin & Hb)%existsb_exists. apply list_elem_of_In, list_elem_of_fmap in Hin as ([k b'] & -> & Hk%elem_of_map_to_list).
  exists k, b'. split; [done|]. cbn in Hb. destruct (String.eqb_spec (KeyID b') "") as [->|]; [congruence|].
  by apply negb_true_iff, String.eqb_neq in Hb.
Qed.

(** C10. A registration that changes the current key names the revision it
    replaces, and leaves the rows as they are: each under the new key, but for
    those that a recovered or a typed key takes over, which are the rows of no
    key and, where no key was registered, the rows of any other key too; or it
    starts fresh, some row being under another key, and leaves none.  So only
    a recovered or typed key registered over none leaves rows it cannot open,
    and it does where there are some (see [asserted_key_strands]). *)
Theorem register_keeps_rows s q at_ s' r : handleRegisterKey s q at_ = (s', r) → StoredKeyID s' ≠ StoredKeyID s →
  KeyETag s' = (KeyETag s + 1)%Z ∧ Status r = 200%Z ∧
  ∃ kid via initial, q_body q = QRegister kid via initial ∧ StoredKeyID s' = kid ∧
    q_IfMatch q = (if String.eqb (StoredKeyID s) "" then IfMatchAnyKey else FormatETag (KeyETag s)) ∧
    (Blobs s' = Blobs s ∧
       (∀ k b, Blobs s !! k = Some b → KeyID b = kid ∨ asserting via ∧ (KeyID b = ""%string ∨ StoredKeyID s = ""%string)) ∨
     Blobs s' = ∅ ∧ via = "start_fresh"%string ∧ ∃ k b, Blobs s !! k = Some b ∧ KeyID b ≠ kid).
Proof.
  intros [r' ?|kid via initial|kid via initial s0 wiped s1 r1 Hb Hne Hm Hcase Hreg]%handleRegister_spec Hch; [done|by destruct initial|].
  apply registered_spec in Hreg as (H1 & H2 & H3 & _ & H5 & _).
  destruct Hcase as [[[= -> ->] Hrows]|([= -> ->] & Hf & Hk & Hdata)].
  - split_and!; [done..|]. exists kid, via, initial. split_and!; try done. left. split; [done|]. intros k b Hkb.
    destruct Hrows as [He|[[Ha He]|Hrows]]; [congruence|by right; auto|].
    destruct (Hrows k b Hkb) as [|[]]; [by left|by right; auto].
  - split_and!; [done..|]. exists kid, via, initial. split_and!; try done. right. split_and!; [done..|]. by apply hasData_row.
Qed.

Lemma New_kept : wellKept New.
Proof. split; [done|]. cbn. intros kid [x Hx]. by rewrite lookup_empty in Hx. Qed.
(** C11. Whatever requests are served, a revision of the registry names one
    key; the bundles kept are the current key's; and a registration that
    names a revision since replaced is refused and changes nothing. *)
Theorem one_key_per_revision s s' : rtc serves New s → rtc serves s s' →
  (∀ kid, is_Some (Bundles s' !! kid) → kid = StoredKeyID s') ∧ (KeyETag s ≤ KeyETag s')%Z ∧
  (KeyETag s' = KeyETag s → StoredKeyID s' = StoredKeyID s) ∧
  (KeyETag s' ≠ KeyETag s → ∀ q at_, q_IfMatch q = FormatETag (KeyETag s) →
     ∃ r, handleRegisterKey s' q at_ = (s', r) ∧ (400 ≤ Status r)%Z).
Proof.
  intros H1 H2. apply served_advances in H1. destruct (H1 New_kept) as (Hw & _ & _).
  apply served_advances in H2. destruct (H2 Hw) as (Hw' & Hle & Hsame). split_and!; [intros kid Hk; by apply Hw'|done|done|].
  intros Hne q at_ Him. destruct (handleRegisterKey s' q at_) as [s2 r] eqn:Hreg. exists r.
  assert (Hany : FormatETag (KeyETag s) ≠ IfMatchAnyKey) by (apply etag_not_any, Hw).
  apply handleRegister_spec in Hreg as [r' Hr|kid via initial _ Hm|kid via initial s0 wiped s1 r1 _ _ Hm _ _]; [done|congruence|].
  rewrite Him in Hm. destruct (String.eqb (StoredKeyID s') ""); [congruence|]. apply (inj pretty) in Hm. lia.
Qed.
End Registry.

(** ** A call against the registry *)

(** What becomes of each request a program sends. *)
Inductive fate := Arrives | LostRequest | LostReply.
Section Client.
Context `{JS : Seal.Json} `{MC : Mac}.
Context (continues searches : bool).
Fixpoint run {A} (fates : nat → fate) (at_ : Z) (n : nat) (s : Store) (p : prog A) : Store * option A :=
  match p with
  | Ret a => (s, Some a)
  | Panic => (s, None)
  | Send q k =>
      match fates n with
      | LostRequest => run fates at_ (S n) s (k Failed)
      | LostReply => run fates at_ (S n) (ServeHTTP continues s q at_).1 (k Failed)
      | Arrives => let '(s, r) := ServeHTTP continues s q at_ in run fates at_ (S n) s (k (Replied r))
      end
  | Ended k => run fates at_ n s (k false)
  | Draw m k => run fates at_ n s (k (replicate m "0"%char))
  | NewID k => run fates at_ n s (k ""%string)
  | Now k => run fates at_ n s (k at_)
  end.
Abbreviation all := (λ _ : nat, Arrives).

Lemma check_registered at_ s p key : StoredKeyID s = keyID key → keyID key ≠ ""%string →
  run all at_ 0 s (CheckRegisteredKey p key) = (s, Some (Ok tt)).
Proof.
  intros Hk Hne. unfold CheckRegisteredKey, GetCurrentKey. cbn. rewrite (proj2 (String.eqb_neq _ _)) by congruence. cbn.
  rewrite !bool_decide_eq_false_2 by lia. cbn. by rewrite Hk, String.eqb_refl.
Qed.
Lemma read_current at_ s p : StoredKeyID s ≠ ""%string →
  run all at_ 0 s (CurrentKey p) = (s, Some (Ok (mkKeyState (Some (StoredKeyID s)) (FormatETag (KeyETag s))
    (ofBundle <$> default ∅ (Bundles s !! StoredKeyID s)) (KeyCreatedVia s) (Some (KeyRegisteredAt s))
    (hasDataUnderOtherKey s (StoredKeyID s) true)))).
Proof.
  intros Hne. unfold CurrentKey, GetCurrentKey. cbn. rewrite (proj2 (String.eqb_neq _ _) Hne). cbn.
  rewrite !bool_decide_eq_false_2 by lia. cbn. by rewrite (proj2 (String.eqb_neq _ _) Hne).
Qed.

(** What a registration served makes known. *)
Definition knows (s : Store) (key : bytes) (bundle : option RegisterKeyBundle) : Prop :=
  StoredKeyID s = keyID key ∧ keyID key ≠ ""%string ∧
  ∀ b, bundle = Some b → ∃ bs t, Bundles s !! keyID key = Some bs ∧ bs !! b_CredentialID b = Some (mkCurrentBundle b t).
Lemma idempotent_register s q at_ s' r : q_Idempotency q ≠ ""%string →
  idempotent (λ s q, handleRegisterKey s q at_) s q = (s', r) →
  (400 ≤ Status r)%Z ∧ s' = s ∨ is_Some (answered s !! idempotencyKey q) ∧ s' = s ∨
  ∃ s1, registers s q at_ s1 r ∧ StoredKeyID s' = StoredKeyID s1 ∧ Bundles s' = Bundles s1 ∧ ((400 ≤ Status r)%Z → s' = s1).
Proof.
  intros Hn. unfold idempotent. rewrite (proj2 (String.eqb_neq _ _) Hn).
  destruct (String.eqb (q_OperationHash q) ""); [intros [= <- <-]; by left|].
  destruct (answered s !! idempotencyKey q) as [a|] eqn:Ha.
  { destruct (_ && _); intros [= <- <-]; right; left; by eexists. }
  destruct (handleRegisterKey s q at_) as [s1 r1] eqn:Hreg. apply handleRegister_spec in Hreg.
  case_bool_decide as H2; intros [= <- <-]; right; right; exists s1; split_and!; try done.
  intros H4. pose proof (Z.quot_le_lower_bound (Status r1) 100 4 ltac:(lia) ltac:(lia)). lia.
Qed.
Lemma registers_knows s q at_ s' r kid via initial key : registers s q at_ s' r → q_body q = QRegister kid via initial → kid = keyID key →
  (400 ≤ Status r)%Z ∧ s' = s ∨ knows s' key initial ∧ (Status r < 400)%Z ∧ ∃ a, Content r = Json a.
Proof.
  intros [r' ?|kid' via' initial' Hb _ Hk Hne _|kid' via' initial' s0 wiped s1 r1 Hb Hne _ _ Hreg] Hq ->; [by left|right..];
    rewrite Hq in Hb; injection Hb as <- <- <-.
  - split; [|split; [done|by eexists]]. destruct initial as [b|]; [|done]. cbn. split_and!; [done..|]. intros b' [= <-]. eexists _, at_.
    split; [apply lookup_insert_eq|apply lookup_insert_eq].
  - apply registered_spec in Hreg as (H1 & _ & _ & _ & H4 & H5 & _ & H7). split; [|split; [lia|by eexists]]. split_and!; [done..|].
    intros b Hb'. destruct (H7 b Hb') as (bs & ? & ?). by exists bs, at_.
Qed.
Lemma knows_read at_ s p key bundle : knows s key bundle →
  run all at_ 0 s (CheckRegisteredKey p key) = (s, Some (Ok tt)) ∧
  ∃ st, run all at_ 0 s (CurrentKey p) = (s, Some (Ok st)) ∧ ks_KeyID st = Some (keyID key) ∧
    ∀ b, bundle = Some b → ∃ t, ks_Bundles st !! b_CredentialID b = Some (mkKeyBundle b t t).
Proof.
  intros (Hk & Hne & Hb). split; [by apply check_registered|]. eexists. split; [apply read_current; congruence|].
  cbn. split; [by rewrite Hk|]. intros b He. destruct (Hb b He) as (bs & t & Hbs & Ht). exists t.
  by rewrite Hk, Hbs, lookup_fmap; cbn; rewrite Ht.
Qed.

(** What a registration's request does: nothing, answered as an earlier
    call's was or refused; or what makes the key known. *)
Lemma register_served s at_ s' r req key : rk_KeyIDHex req = keyID key → rk_IdempotencyKey req ≠ ""%string →
  ServeHTTP continues s (httpRegister req) at_ = (s', r) →
  (400 ≤ Status r)%Z ∧ s' = s ∨ is_Some (answered s !! idempotencyKey (httpRegister req)) ∧ s' = s ∨
  knows s' key (rk_InitialBundle req) ∧ (Status r < 400)%Z ∧ ∃ a, Content r = Json a.
Proof.
  intros Hkid Hn. change (ServeHTTP _ _ _ _) with (idempotent (λ s q, handleRegisterKey s q at_) s (httpRegister req)).
  intros [H|[H|(s1 & Hreg & H1 & H2 & H3)]]%idempotent_register; [by left|by right; left| |done].
  eapply registers_knows in Hreg as [[H ->]|(Hk & H)]; [|right; right|done|done].
  - left. split; [done|]. by apply H3.
  - split; [|done]. unfold knows in *. by rewrite H1, H2.
Qed.

Lemma run_fenced {A} fates at_ s p (k : string → prog A) s' x :
  run fates at_ 0 s (fencedObject ← (if searches then r ← GetSearchObject (PrincipalID p); Ret match r with Ok o => o | Err _ => ""%string end
                      else Ret ""%string); k fencedObject) = (s', x) → ∃ n o, run fates at_ n s (k o) = (s', x).
Proof.
  destruct searches; [|by exists 0, ""%string]. unfold GetSearchObject. cbn. destruct (fates 0); intros H; by eexists 1, _.
Qed.
Lemma run_register {B} fates at_ n s req (f : result Controlplane.error RegisterKeyResponse → B) s' x :
  run fates at_ n s (r ← Controlplane.RegisterKey req; Ret (f r)) = (s', Some x) → ∃ r, x = f (readRegister r) ∧
  (r = Failed ∧ fates n ≠ Arrives ∨ ∃ resp, r = Replied resp ∧ ServeHTTP continues s (httpRegister req) at_ = (s', resp)).
Proof.
  unfold Controlplane.RegisterKey. cbn -[ServeHTTP]. destruct (fates n); [|intros [= _ <-]; exists Failed; split; [done|by left]..].
  destruct (ServeHTTP _ _ _ _) as [s1 resp]. intros [= <- <-]. exists (Replied resp). split; [done|]. right. by exists resp.
Qed.
Lemma checked_nonce ifMatch via nonce bundle : checkRegister ifMatch via nonce bundle = Ok tt → nonce ≠ ""%string.
Proof. intros H ->. unfold checkRegister in H. by destruct (negb _), (String.eqb ifMatch ""). Qed.

(** C12. A registration that is answered took effect: unless the answer is
    that of an earlier call under the same idempotency key, the caller's key
    is then the registered one, checks as such, and is read back with the
    bundle it was given.  With no request or answer lost, one that fails
    changed nothing. *)
Theorem registered_read_back fates at_ s s' p key ifMatch via nonce bundle res c :
  run fates at_ 0 s (RegisterKey searches p key ifMatch via nonce bundle) = (s', Some (res, c)) →
  match res with
  | Ok kid =>
      kid = keyID key ∧
      (s' = s ∧ is_Some (answered s !! String.append (PrincipalID p) (String "000" nonce)) ∨
       run all at_ 0 s' (CheckRegisteredKey p key) = (s', Some (Ok tt)) ∧
       ∃ st, run all at_ 0 s' (CurrentKey p) = (s', Some (Ok st)) ∧ ks_KeyID st = Some kid ∧
         ∀ b, bundle = Some b → ∃ t, ks_Bundles st !! b_CredentialID b = Some (mkKeyBundle b t t))
  | Err _ => (∀ n, fates n = Arrives) → s' = s ∨ is_Some (answered s !! String.append (PrincipalID p) (String "000" nonce))
  end.
Proof.
  unfold RegisterKey. destruct (checkRegister ifMatch via nonce bundle) as [[]|e] eqn:Hc; [|by intros [= <- <- <-]; left].
  apply checked_nonce in Hc as Hn. cbv zeta. match goal with |- context [Controlplane.RegisterKey ?r] => set (req := r) end.
  intros (n & o & (r & Hx & Hr)%run_register)%run_fenced.
  destruct Hr as [[-> Hf]|(resp & -> & Hserve)]; [injection Hx as -> ->; intros Hall; by rewrite Hall in Hf|].
  apply (register_served _ _ _ _ _ key) in Hserve; [|done|done].
  destruct (readRegister (Replied resp)) as [a|e] eqn:Hread; injection Hx as -> ->; cbn [fromClient].
  - split; [done|]. destruct Hserve as [[H _]|[[H ->]|(Hk & _)]]; [|by left|right].
    + unfold readRegister in Hread. by rewrite bool_decide_eq_true_2 in Hread by done.
    + by apply knows_read.
  - intros _. destruct Hserve as [[_ H]|[[H _]|(_ & H & a & Ha)]]; [by left|by right|].
    unfold readRegister in Hread. by rewrite bool_decide_eq_false_2, Ha in Hread by lia.
Qed.
End Client.

#[local] Existing Instance Seal.toy_json.
#[local] Existing Instance toy_mac.
Abbreviation key0 := (replicate 32 "k"%char).
Abbreviation bundle0 := (mkBundle "cred" "0123456789abcdef01234567"
  "0123456789abcdef0123456789abcdef0123456789abcdef0123456789abcdef0123456789abcdef0123456789abcdef").
Abbreviation ann := (mkPrincipal "ann" None).
Abbreviation register0 ifMatch kid via nonce :=
  (keyChange "POST" RegisterKeyPath RKeys "ann" ifMatch nonce "hash" (QRegister kid via None)).
Abbreviation kid1 := "0123456789abcdef0123456789abcdef"%string.
Abbreviation kid2 := "fedcba9876543210fedcba9876543210"%string.

Lemma register_keeps_rows_witness :
  let s1 := (ServeHTTP false New (register0 IfMatchAnyKey kid1 "passkey" "n1") 1).1 in
  let s2 := (handleRegisterKey s1 (register0 "1" kid2 "passkey" "n2") 2).1 in
  KeyETag s2 = 2%Z.
Proof.
  cbv zeta. set (s1 := (ServeHTTP _ _ _ _).1). set (q := register0 "1" kid2 "passkey" "n2").
  destruct (handleRegisterKey s1 q 2) as [s2 r] eqn:H.
  assert (Hk : StoredKeyID s2 = kid2) by (change s2 with (s2, r).1; rewrite <- H; vm_compute; reflexivity).
  destruct (register_keeps_rows s1 q 2 s2 r H) as [He _]; [rewrite Hk; vm_compute; discriminate|].
  cbn [fst]. rewrite He. vm_compute. reflexivity.
Defined.

(** A recovered key registered over none, where a row is under another: the
    row stays as it was. *)
Example asserted_key_strands :
  let row := mkBlob 1 kid1 [] false None 0 None None in
  let s := New <| Blobs := {["profile/profile"%string := row]} |> in
  let '(s', r) := handleRegisterKey s (register0 IfMatchAnyKey kid2 "recovery" "n1") 1 in
  Status r = 200%Z ∧ StoredKeyID s' = kid2 ∧ KeyID <$> Blobs s' !! "profile/profile"%string = Some kid1.
Proof. vm_compute. done. Qed.

Lemma one_key_per_revision_witness :
  let s1 := (ServeHTTP false New (register0 IfMatchAnyKey kid1 "passkey" "n1") 1).1 in
  let s2 := (ServeHTTP false s1 (register0 "1" kid2 "passkey" "n2") 2).1 in
  ∃ r, handleRegisterKey s2 (register0 "1" kid1 "manual" "n3") 3 = (s2, r) ∧ (400 ≤ Status r)%Z.
Proof.
  cbv zeta. set (s1 := (ServeHTTP false New _ _).1). set (s2 := (ServeHTTP false s1 _ _).1).
  assert (H1 : rtc (serves false) New s1) by (apply rtc_once; eexists _, 1%Z, _; apply surjective_pairing).
  assert (H2 : rtc (serves false) s1 s2) by (apply rtc_once; eexists _, 2%Z, _; apply surjective_pairing).
  apply (one_key_per_revision false s1 s2 H1 H2); [vm_compute; discriminate|vm_compute; reflexivity].
Defined.

Lemma registered_read_back_witness :
  ∃ s', run false (λ _, Arrives) 5 0 New (RegisterKey true ann key0 "*" "passkey" "n1" (Some bundle0)) =
    (s', Some (Ok (keyID key0), mkCleanup [] None)) ∧
  run false (λ _, Arrives) 5 0 s' (CheckRegisteredKey ann key0) = (s', Some (Ok tt)).
Proof.
  pose proof (registered_read_back false true (λ _, Arrives) 5 New
    (run false (λ _, Arrives) 5 0 New (RegisterKey true ann key0 "*" "passkey" "n1" (Some bundle0))).1
    ann key0 "*" "passkey" "n1" (Some bundle0) (Ok (keyID key0)) (mkCleanup [] None)) as H.
  eexists. split; [vm_compute; reflexivity|].
  destruct H as [_ [[H _]|[H _]]]; [vm_compute; reflexivity|vm_compute in H; discriminate|]. vm_compute in H |- *. exact H.
Defined.
End Keys.
