(* ===== verification/Profiles.v ===== *)
(** * Settings: internal/domain/profile.go

    A user's settings and saved prompts: how patches, edits of one prompt at a
    time and a device's own settings change them, and how a change is stamped
    for the clients that merge rows field by field. *)

From S2P Require Import Prelude GoStd Api Quota Codec Aad Seal Controlplane Grants Rows.
From stdpp Require Import pretty.

Module Profiles.
Import GoStd Codec.

(** ** Settings *)

(** A prompt the user saved; a date is the JSON value the client wrote. *)
Record CustomPreset := mkPreset {
  ID : string;
  Name : string;
  Description : option string;
  SystemPrompt : option string;
  Model : option string;
  PresetWebSearch : option bool;
  CreatedAt : option Api.any;
  PresetUpdatedAt : option Api.any;
}.
#[global] Instance CustomPreset_eta : Eta CustomPreset := λ p,
  mkPreset (ID p) (Name p) (Description p) (SystemPrompt p) (Model p) (PresetWebSearch p) (CreatedAt p) (PresetUpdatedAt p).

(** Every field is optional: none is a nil pointer, list or map. *)
Record Profile := mkProfile {
  ThemeMode : option string;
  ChatFont : option string;
  Language : option string;
  Nickname : option string;
  Profession : option string;
  Traits : option (list string);
  AdditionalContext : option string;
  IsUsingPersonalization : option bool;
  IsUsingCustomPrompt : option bool;
  CustomSystemPrompt : option string;
  CustomPromptPresets : option (list CustomPreset);
  FavoritePromptPresetIDs : option (list string);
  DefaultPromptPresetID : option string;
  SelectedModel : option string;
  AutoIntelligence : option string;
  ReasoningEffort : option string;
  ThinkingEnabled : option bool;
  WebSearchEnabled : option bool;
  WebSearchAvailable : option bool;
  PIICheckEnabled : option bool;
  GenUIEnabled : option bool;
  PixelateSidebarChatTitlesEnabled : option bool;
  BrowserTabChatTitleEnabled : option bool;
  EnterToNewlineEnabled : option bool;
  HasSeenOnboarding : option bool;
  HasSeenWebSearchIntro : option bool;
  Dismissed : option (list (string * bool));
}.

(** A loop over the fields by reflection: [f] of each field of two profiles,
    by its JSON name. *)
Definition each (f : ∀ T, string → option T → option T → option T) (p q : Profile) : Profile :=
  mkProfile
    (f _ "themeMode" (ThemeMode p) (ThemeMode q))
    (f _ "chatFont" (ChatFont p) (ChatFont q))
    (f _ "language" (Language p) (Language q))
    (f _ "nickname" (Nickname p) (Nickname q))
    (f _ "profession" (Profession p) (Profession q))
    (f _ "traits" (Traits p) (Traits q))
    (f _ "additionalContext" (AdditionalContext p) (AdditionalContext q))
    (f _ "isUsingPersonalization" (IsUsingPersonalization p) (IsUsingPersonalization q))
    (f _ "isUsingCustomPrompt" (IsUsingCustomPrompt p) (IsUsingCustomPrompt q))
    (f _ "customSystemPrompt" (CustomSystemPrompt p) (CustomSystemPrompt q))
    (f _ "customPromptPresets" (CustomPromptPresets p) (CustomPromptPresets q))
    (f _ "favoritePromptPresetIds" (FavoritePromptPresetIDs p) (FavoritePromptPresetIDs q))
    (f _ "defaultPromptPresetId" (DefaultPromptPresetID p) (DefaultPromptPresetID q))
    (f _ "selectedModel" (SelectedModel p) (SelectedModel q))
    (f _ "autoIntelligence" (AutoIntelligence p) (AutoIntelligence q))
    (f _ "reasoningEffort" (ReasoningEffort p) (ReasoningEffort q))
    (f _ "thinkingEnabled" (ThinkingEnabled p) (ThinkingEnabled q))
    (f _ "webSearchEnabled" (WebSearchEnabled p) (WebSearchEnabled q))
    (f _ "webSearchAvailable" (WebSearchAvailable p) (WebSearchAvailable q))
    (f _ "piiCheckEnabled" (PIICheckEnabled p) (PIICheckEnabled q))
    (f _ "genUIEnabled" (GenUIEnabled p) (GenUIEnabled q))
    (f _ "pixelateSidebarChatTitlesEnabled" (PixelateSidebarChatTitlesEnabled p) (PixelateSidebarChatTitlesEnabled q))
    (f _ "browserTabChatTitleEnabled" (BrowserTabChatTitleEnabled p) (BrowserTabChatTitleEnabled q))
    (f _ "enterToNewlineEnabled" (EnterToNewlineEnabled p) (EnterToNewlineEnabled q))
    (f _ "hasSeenOnboarding" (HasSeenOnboarding p) (HasSeenOnboarding q))
    (f _ "hasSeenWebSearchIntro" (HasSeenWebSearchIntro p) (HasSeenWebSearchIntro q))
    (f _ "dismissed" (Dismissed p) (Dismissed q)).
Definition noProfile : Profile :=
  mkProfile None None None None None None None None None None None None None None None None None None None None None None None
    None None None None.
#[global] Instance Profile_eta : Eta Profile := λ p,
  mkProfile (ThemeMode p) (ChatFont p) (Language p) (Nickname p) (Profession p) (Traits p) (AdditionalContext p)
    (IsUsingPersonalization p) (IsUsingCustomPrompt p) (CustomSystemPrompt p) (CustomPromptPresets p) (FavoritePromptPresetIDs p)
    (DefaultPromptPresetID p) (SelectedModel p) (AutoIntelligence p) (ReasoningEffort p) (ThinkingEnabled p) (WebSearchEnabled p)
    (WebSearchAvailable p) (PIICheckEnabled p) (GenUIEnabled p) (PixelateSidebarChatTitlesEnabled p)
    (BrowserTabChatTitleEnabled p) (EnterToNewlineEnabled p) (HasSeenOnboarding p) (HasSeenWebSearchIntro p) (Dismissed p).

(** What a field is when the second value, where it is set, takes the place of
    the first. *)
Definition over {A} (to from : option A) : option A := match from with Some _ => from | None => to end.
Definition Apply (p patch : Profile) : Profile := each (λ _ _ to from, over to from) p patch.

Definition AutoModelName : string := "auto".
Definition DefaultLanguage : string := "System".
Definition DefaultIntelligence : string := "high".
Definition defaultEffort : string := "medium".
Definition defaultTheme : string := "system".
Definition defaultFont : string := "system".
Definition DefaultProfile : Profile :=
  mkProfile (Some defaultTheme) (Some defaultFont) (Some DefaultLanguage) (Some "") (Some "") (Some []) (Some "")
    (Some true) (Some false) (Some "") (Some []) (Some []) (Some "") (Some AutoModelName) (Some DefaultIntelligence)
    (Some defaultEffort) None (Some true) (Some true) (Some true) (Some true) (Some false) (Some true) (Some false) (Some false)
    (Some false) (Some []).
Definition withDefaults (p : Profile) : Profile := Apply DefaultProfile p.

(** ** What a client may set *)

Definition maxProfileList : nat := 500.
Definition themeModes : list string := ["light"; "dark"; "system"]%string.
Definition chatFonts : list string := ["system"; "serif"; "mono"; "dyslexic"]%string.
Definition ReasoningEfforts : list string := ["low"; "medium"; "high"]%string.
Definition intelligenceIDs : list string := ["instant"; "low"; "medium"; "high"; "extra"; "max"]%string.

Definition badRequest (message : string) : Api.Error := Api.Err_ 400 "BAD_REQUEST" message.
(** [slices.Contains] of texts. *)
Definition contains (l : list string) (s : string) : bool := existsb (String.eqb s) l.
Definition unnamedPreset (p : CustomPreset) : bool := String.eqb (ID p) "" || String.eqb (Name p) "".

(** A step of [dropInvalid]: the first refusal so far, and the profile. *)
Definition refuse (first : option Api.Error) (message : string) : option Api.Error :=
  match first with None => Some (badRequest message) | Some e => Some e end.
Definition dropChoice (name : string) (choices : list string) (get : Profile → option string) (clear : Profile → Profile)
    (s : option Api.Error * Profile) : option Api.Error * Profile :=
  match get s.2 with
  | Some v => if contains choices v then s else (refuse s.1 (String.append "Invalid " name), clear s.2)
  | None => s
  end.
Definition dropLong {A} (name : string) (get : Profile → option (list A)) (clear : Profile → Profile)
    (s : option Api.Error * Profile) : option Api.Error * Profile :=
  if bool_decide (maxProfileList < length (default [] (get s.2)))
  then (refuse s.1 (String.append name " has too many entries"), clear s.2) else s.
Definition dropUnnamed (s : option Api.Error * Profile) : option Api.Error * Profile :=
  let presets := default [] (CustomPromptPresets s.2) in
  if existsb unnamedPreset presets
  then (refuse s.1 "A custom preset requires an id and name",
        s.2 <| CustomPromptPresets := Some (List.filter (λ p, negb (unnamedPreset p)) presets) |>)
  else s.
Definition dropInvalid (p : Profile) : option Api.Error * Profile :=
  dropUnnamed
    (dropLong "customPromptPresets" CustomPromptPresets (λ p, p <| CustomPromptPresets := None |>)
    (dropLong "favoritePromptPresetIds" FavoritePromptPresetIDs (λ p, p <| FavoritePromptPresetIDs := None |>)
    (dropLong "traits" Traits (λ p, p <| Traits := None |>)
    (dropChoice "autoIntelligence" intelligenceIDs AutoIntelligence (λ p, p <| AutoIntelligence := None |>)
    (dropChoice "reasoningEffort" ReasoningEfforts ReasoningEffort (λ p, p <| ReasoningEffort := None |>)
    (dropChoice "chatFont" chatFonts ChatFont (λ p, p <| ChatFont := None |>)
    (dropChoice "themeMode" themeModes ThemeMode (λ p, p <| ThemeMode := None |>) (None, p)))))))).
Definition Validate (p : Profile) : result Api.Error unit :=
  match (dropInvalid p).1 with Some e => Err e | None => Ok tt end.

(** ** Edits of saved prompts *)

(** [api.Nullable]: whether it is set, to what, and whether that is of
    another type. *)
Record Nullable (A : Type) := mkNullable { Set_ : bool; invalid : bool; Value : option A }.
Arguments mkNullable {A} Set_ invalid Value.
Arguments Set_ {A} n.
Arguments invalid {A} n.
Arguments Value {A} n.
Definition CheckNullable {A} (kind : string) (n : Nullable A) (name : string) : result Api.Error unit :=
  if invalid n then Err (badRequest (String.append name (String.append " must be " kind))) else Ok tt.

Record PresetUpdate := mkUpdate {
  u_ID : string;
  u_Name : option string;
  u_Description : option string;
  u_SystemPrompt : option string;
  u_Model : Nullable string;
  u_WebSearchEnabled : Nullable bool;
  u_UpdatedAt : option Api.any;
}.
Definition applied (u : PresetUpdate) (p : CustomPreset) : CustomPreset :=
  mkPreset (ID p) (default (Name p) (u_Name u)) (over (Description p) (u_Description u)) (over (SystemPrompt p) (u_SystemPrompt u))
    (if Set_ (u_Model u) then Value (u_Model u) else Model p)
    (if Set_ (u_WebSearchEnabled u) then Value (u_WebSearchEnabled u) else PresetWebSearch p)
    (CreatedAt p) (over (PresetUpdatedAt p) (u_UpdatedAt u)).

Record PromptEdits := mkEdits {
  SavePromptPresets : list CustomPreset;
  UpdatePromptPresets : list PresetUpdate;
  DeletePromptPresetIDs : list string;
  AddFavoritePromptPresetIDs : list string;
  RemoveFavoritePromptPresetIDs : list string;
}.
Definition noEdits : PromptEdits := mkEdits [] [] [] [] [].

Definition checkUpdate (u : PresetUpdate) : result Api.Error unit :=
  if String.eqb (u_ID u) "" || match u_Name u with Some n => String.eqb n "" | None => false end
  then Err (badRequest "A custom preset requires an id and name")
  else _ ← CheckNullable "a string" (u_Model u) "model"; CheckNullable "a boolean" (u_WebSearchEnabled u) "webSearchEnabled".
Definition ValidateEdits (e : PromptEdits) : result Api.Error unit :=
  if existsb unnamedPreset (SavePromptPresets e) then Err (badRequest "A custom preset requires an id and name")
  else
    _ ← foldl (λ r u, _ ← r; checkUpdate u) (Ok tt) (UpdatePromptPresets e);
    if existsb (λ ids, contains ids "")
         [DeletePromptPresetIDs e; AddFavoritePromptPresetIDs e; RemoveFavoritePromptPresetIDs e]
    then Err (badRequest "A prompt id is required") else Ok tt.

(** [slices.IndexFunc] of the prompt with an id, and the prompt. *)
Definition findPreset (presets : list CustomPreset) (id : string) : option (nat * CustomPreset) :=
  list_find (λ p, ID p = id) presets.
Definition savePreset (presets : list CustomPreset) (p : CustomPreset) : list CustomPreset :=
  match findPreset presets (ID p) with Some (i, _) => <[i := p]> presets | None => presets ++ [p] end.
Definition updatePreset (presets : list CustomPreset) (u : PresetUpdate) : list CustomPreset :=
  match findPreset presets (u_ID u) with Some (i, p) => <[i := applied u p]> presets | None => presets end.
Definition addFavorite (deleted : list string) (favorites : list string) (id : string) : list string :=
  if contains favorites id || contains deleted id then favorites else favorites ++ [id].

Definition ApplyPromptEdits (p : Profile) (e : PromptEdits) : result Api.Error Profile :=
  let deleted := DeletePromptPresetIDs e in
  let presets := foldl updatePreset (foldl savePreset (default [] (CustomPromptPresets p)) (SavePromptPresets e))
                   (UpdatePromptPresets e) in
  let presets := List.filter (λ p, negb (contains deleted (ID p))) presets in
  let unfavored := deleted ++ RemoveFavoritePromptPresetIDs e in
  let favorites := List.filter (λ id, negb (contains unfavored id)) (default [] (FavoritePromptPresetIDs p)) in
  let favorites := foldl (addFavorite deleted) favorites (AddFavoritePromptPresetIDs e) in
  if bool_decide (maxProfileList < length presets) || bool_decide (maxProfileList < length favorites)
  then Err (badRequest "The profile cannot hold that many saved prompts or favorites")
  else
    let p := p <| CustomPromptPresets := match CustomPromptPresets p, SavePromptPresets e with
                                         | None, [] => None
                                         | _, _ => Some presets
                                         end |> in
    let p := if bool_decide (favorites = default [] (FavoritePromptPresetIDs p)) then p
             else p <| FavoritePromptPresetIDs := Some favorites |> in
    let id := default "" (DefaultPromptPresetID p) in
    Ok (if negb (String.eqb id "") && contains deleted id then p <| DefaultPromptPresetID := Some ""%string |> else p).

(** [Profile.Preset]. *)
Definition Preset (p : Profile) (id : string) : option CustomPreset :=
  snd <$> findPreset (default [] (CustomPromptPresets p)) id.
Definition Personalized (p : Profile) : bool := default true (IsUsingPersonalization p).

(** ** A device's own settings *)

Section Text.
(** [api.Raw] of a value and [json.Unmarshal] of a text, whose objects have one
    member a name; [uuid.NewSHA1] of a URL; the [int64] that the [float64] of
    a literal converts to, [None] where the literal is no [float64]; RFC 3339,
    its parsing and [ISOTime]. *)
Context (Raw : Api.any → bytes) (Unmarshal : bytes → option Api.any) (NewSHA1 : bytes → string).
Context (Truncated : string → option Z).
Context (Format : Z → string) (ParseTime : string → option Z) (ISOTime : option Api.any → string).

Definition strings (l : list string) : Api.any := Api.AArr (Api.AStr <$> l).
(** The members an object has of those it may have. *)
Definition object (ms : list (string * option Api.any)) : list (string * Api.any) :=
  omap (λ m : string * option Api.any, (m.1,.) <$> m.2) ms.
Definition presetObject (p : CustomPreset) : Api.any :=
  Api.AObj (object
    [("id", Some (Api.AStr (ID p))); ("name", Some (Api.AStr (Name p))); ("description", Api.AStr <$> Description p);
     ("systemPrompt", Api.AStr <$> SystemPrompt p); ("model", Api.AStr <$> Model p);
     ("webSearchEnabled", Api.ABool <$> PresetWebSearch p); ("createdAt", CreatedAt p); ("updatedAt", PresetUpdatedAt p)]%string).

(** A prompt undated, one with its text, where unset, empty, and what a prompt
    is and reads as. *)
Definition undated (p : CustomPreset) : CustomPreset := p <| CreatedAt := None |> <| PresetUpdatedAt := None |>.
Definition texted (p : CustomPreset) : CustomPreset :=
  p <| Description := Some (default ""%string (Description p)) |> <| SystemPrompt := Some (default ""%string (SystemPrompt p)) |>.
(** [samePrompt] of the two, undated. *)
Definition reading (p : CustomPreset) : string * string * string * string * option string * option bool :=
  (ID p, Name p, default "" (Description p), default "" (SystemPrompt p), Model p, PresetWebSearch p)%string.
Definition samePrompt (a b : CustomPreset) : bool := bool_decide (reading a = reading b).

Definition copyID (incoming : CustomPreset) : string := String.append "user:" (NewSHA1 (Raw (presetObject incoming))).
(** What the loop over the device's prompts holds: the prompts so far, and the
    ids of those copied. *)
Definition mergePreset (s : list CustomPreset * gmap string string) (p : CustomPreset) : list CustomPreset * gmap string string :=
  let '(presets, remapped) := s in
  match findPreset presets (ID p) with
  | None => (presets ++ [p], remapped)
  | Some (_, kept) =>
      if samePrompt kept p then (presets, remapped)
      else
        let copy := copyID (undated p) in
        let remapped := <[ID p := copy]> remapped in
        match findPreset presets copy with
        | Some _ => (presets, remapped)
        | None => (presets ++ [p <| ID := copy |> <| Name ::= λ n, String.append n " (from this device)" |>], remapped)
        end
  end.
Definition mergeFavorite (remapped : gmap string string) (favorites : option (list string)) (id : string) : option (list string) :=
  let id := default id (remapped !! id) in
  if contains (default [] favorites) id then favorites else Some (default [] favorites ++ [id]).

Definition MergeDeviceProfile (remote local : Profile) (changed : list string) : Profile :=
  let merged := Apply local remote in
  let defaultChanged := contains changed "defaultPromptPresetId" in
  let merged := if defaultChanged then merged <| DefaultPromptPresetID := DefaultPromptPresetID local |> else merged in
  let merged := each (λ _ name to from, if contains changed name then over to from else to) merged local in
  let '(presets, remapped) := foldl mergePreset (default [] (CustomPromptPresets remote), ∅)
                                (default [] (CustomPromptPresets local)) in
  let merged := merged <| CustomPromptPresets := match CustomPromptPresets remote, presets with
                                                 | None, [] => None
                                                 | _, _ => Some presets
                                                 end |> in
  let favorites := if contains changed "favoritePromptPresetIds" then Some [] else FavoritePromptPresetIDs remote in
  let merged := merged <| FavoritePromptPresetIDs :=
                  foldl (mergeFavorite remapped) favorites (default [] (FavoritePromptPresetIDs local)) |> in
  match DefaultPromptPresetID local with
  | Some id =>
      if match DefaultPromptPresetID remote with None => true | _ => false end || defaultChanged
      then match remapped !! id with Some copy => merged <| DefaultPromptPresetID := Some copy |> | None => merged end
      else merged
  | None => merged
  end.

(** ** The profile row *)

Record StoredProfile := mkStored {
  profile : Profile;
  UpdatedAt : string;
  RecordVersion : Z;
  PinnedChatIDs : option (list string);
  Others : gmap string Api.any;
}.
#[global] Instance StoredProfile_eta : Eta StoredProfile := λ p,
  mkStored (profile p) (UpdatedAt p) (RecordVersion p) (PinnedChatIDs p) (Others p).
Definition newProfile : StoredProfile := mkStored noProfile "" 0 None ∅.

(** What [json.Marshal] writes of each named field. *)
Definition namedMembers (p : StoredProfile) : list (string * option Api.any) :=
  let q := profile p in
  [("themeMode", Api.AStr <$> ThemeMode q); ("chatFont", Api.AStr <$> ChatFont q); ("language", Api.AStr <$> Language q);
   ("nickname", Api.AStr <$> Nickname q); ("profession", Api.AStr <$> Profession q); ("traits", strings <$> Traits q);
   ("additionalContext", Api.AStr <$> AdditionalContext q);
   ("isUsingPersonalization", Api.ABool <$> IsUsingPersonalization q);
   ("isUsingCustomPrompt", Api.ABool <$> IsUsingCustomPrompt q);
   ("customSystemPrompt", Api.AStr <$> CustomSystemPrompt q);
   ("customPromptPresets", (λ l, Api.AArr (presetObject <$> l)) <$> CustomPromptPresets q);
   ("favoritePromptPresetIds", strings <$> FavoritePromptPresetIDs q);
   ("defaultPromptPresetId", Api.AStr <$> DefaultPromptPresetID q); ("selectedModel", Api.AStr <$> SelectedModel q);
   ("autoIntelligence", Api.AStr <$> AutoIntelligence q); ("reasoningEffort", Api.AStr <$> ReasoningEffort q);
   ("thinkingEnabled", Api.ABool <$> ThinkingEnabled q); ("webSearchEnabled", Api.ABool <$> WebSearchEnabled q);
   ("webSearchAvailable", Api.ABool <$> WebSearchAvailable q); ("piiCheckEnabled", Api.ABool <$> PIICheckEnabled q);
   ("genUIEnabled", Api.ABool <$> GenUIEnabled q);
   ("pixelateSidebarChatTitlesEnabled", Api.ABool <$> PixelateSidebarChatTitlesEnabled q);
   ("browserTabChatTitleEnabled", Api.ABool <$> BrowserTabChatTitleEnabled q);
   ("enterToNewlineEnabled", Api.ABool <$> EnterToNewlineEnabled q);
   ("hasSeenOnboarding", Api.ABool <$> HasSeenOnboarding q); ("hasSeenWebSearchIntro", Api.ABool <$> HasSeenWebSearchIntro q);
   ("dismissed", (λ l, Api.AObj ((λ m : string * bool, (m.1, Api.ABool m.2)) <$> l)) <$> Dismissed q);
   ("updatedAt", if String.eqb (UpdatedAt p) "" then None else Some (Api.AStr (UpdatedAt p)));
   ("recordVersion", if bool_decide (RecordVersion p = 0)%Z then None else Some (Api.ANum (pretty (RecordVersion p))));
   ("pinnedChatIds", strings <$> PinnedChatIDs p)]%string.
Definition storedProfileFields : list string := (namedMembers newProfile).*1.
Definition rowObject (p : StoredProfile) : Api.any := Api.AObj (object (namedMembers p)).
Definition MarshalJSON (p : StoredProfile) : Api.any :=
  Api.AObj (object (namedMembers p) ++
            List.filter (λ m, negb (contains storedProfileFields m.1)) (map_to_list (Others p))).

(** [reflect.DeepEqual] of JSON values, a number being its literal. *)
Fixpoint DeepEqual (a b : Api.any) : bool :=
  match a, b with
  | Api.ANull, Api.ANull => true
  | Api.ABool x, Api.ABool y => Bool.eqb x y
  | Api.ANum x, Api.ANum y => String.eqb x y
  | Api.AStr x, Api.AStr y => String.eqb x y
  | Api.AArr l, Api.AArr l' =>
      (fix all (l l' : list Api.any) := match l, l' with
                                        | [], [] => true
                                        | x :: l, y :: l' => DeepEqual x y && all l l'
                                        | _, _ => false
                                        end) l l'
  | Api.AObj ms, Api.AObj ns =>
      Nat.eqb (length ms) (length ns) &&
      forallb (λ m : string * Api.any, match Api.member (Api.AObj ns) m.1 with Some y => DeepEqual m.2 y | None => false end) ms
  | _, _ => false
  end.
Definition sameMember (a b : option Api.any) : bool :=
  match a, b with Some x, Some y => DeepEqual x y | None, None => true | _, _ => false end.

(** *** Edit clocks *)

Definition fieldClocksMember : string := "fieldClocks".
Definition clockVersionMember : string := "clockVersion".
Definition versionMember : string := "version".
Definition clockWriter : string := "harness".
Definition maxClock : Z := 2 ^ 53 - 1.

(** The counter of a clock; a member is found by its own case. *)
Definition clockV (raw : Api.any) : option Z :=
  match raw with
  | Api.ANull => Some 0%Z
  | Api.AObj _ => match Api.member raw "v" with
                  | None | Some Api.ANull => Some 0%Z
                  | Some (Api.ANum lit) => Truncated lit
                  | Some _ => None
                  end
  | _ => None
  end.
(** [json.Unmarshal] of the clocks into an empty map: [None] is the nil map
    that null leaves of it. *)
Definition readClocks (raw : option Api.any) : option (gmap string Api.any) :=
  match raw with
  | Some Api.ANull => None
  | Some (Api.AObj ms) => Some (list_to_map ms)
  | _ => Some ∅
  end.
Definition latestClock (clocks : gmap string Api.any) : Z :=
  foldr (λ raw n, match clockV raw with Some v => (n `max` v)%Z | None => n end) 0%Z (map_to_list clocks).*2.
Definition tickOf (clocks : gmap string Api.any) : Api.any :=
  Api.AObj [("v", Api.ANum (pretty (Quota.wrap64 (latestClock clocks + 1) `min` maxClock)%Z)); ("w", Api.AStr clockWriter)]%string.

Definition changedFields (p : StoredProfile) (data : bytes) : list string :=
  let was := default Api.ANull (Unmarshal data) in
  List.filter (λ name, negb (String.eqb name "updatedAt") && negb (String.eqb name "recordVersion") &&
                       negb (sameMember (Api.member was name) (Api.member (rowObject p) name))) storedProfileFields.
(** [None] is the panic of a nil map assigned to. *)
Definition stampEdits (p : StoredProfile) (data : bytes) (revision : Z) : option StoredProfile :=
  let changed := changedFields p data in
  others ← match changed with
           | [] => Some (Others p)
           | _ =>
               clocks ← readClocks (Others p !! fieldClocksMember);
               let tick := tickOf clocks in
               Some (<[fieldClocksMember := Api.AObj (map_to_list (foldr (λ name, <[name := tick]>) clocks changed))]> (Others p))
           end;
  Some (p <| Others := if bool_decide (0 < revision)%Z
                       then <[clockVersionMember := Api.ANum (pretty revision)]> (<[versionMember := Api.ANum (pretty revision)]> others)
                       else others |>).

Definition isNumber (raw : option Api.any) : bool := match raw with Some (Api.ANum _) => true | _ => false end.
(** [time.Time.UnixMilli] of a time in nanoseconds. *)
Definition UnixMilli (t : Z) : Z := (t / 1000000)%Z.
Definition completePreset (now : Z) (p : CustomPreset) : CustomPreset :=
  let p := texted p in
  let p := if isNumber (CreatedAt p) then p else p <| CreatedAt := Some (Api.ANum (pretty (UnixMilli now))) |> in
  if isNumber (PresetUpdatedAt p) then p else p <| PresetUpdatedAt := CreatedAt p |>.
Definition completePresets (now : Z) (p : Profile) : Profile :=
  p <| CustomPromptPresets ::= fmap (M := option) (fmap (M := list) (completePreset now)) |>.
Definition currentVersion : Z := 2.
Definition PrepareWrite (p : StoredProfile) (data : bytes) (revision now : Z) : option StoredProfile :=
  stampEdits (p <| profile ::= completePresets now |> <| UpdatedAt := Format now |> <| RecordVersion := currentVersion |>) data revision.
End Text.

(** ** Edits have their exact effect *)

Lemma contains_spec l s : contains l s = true ↔ s ∈ l.
Proof.
  unfold contains. rewrite existsb_exists, list_elem_of_In. split.
  - by intros (x & Hx & ->%String.eqb_eq).
  - intros H. exists s. split; [done|apply String.eqb_refl].
Qed.
Lemma not_contains l s : contains l s = false ↔ s ∉ l.
Proof. by rewrite <- contains_spec, not_true_iff_false. Qed.

(** The prompt with an id, of a list. *)
Definition promptOf (l : list CustomPreset) (id : string) : option CustomPreset := snd <$> findPreset l id.
#[local] Arguments promptOf : simpl never.
Lemma promptOf_cons x l id : promptOf (x :: l) id = if decide (ID x = id) then Some x else promptOf l id.
Proof. unfold promptOf, findPreset. cbn. destruct (decide _); [done|]. by destruct (list_find _ l) as [[]|]. Qed.
Lemma promptOf_app l k id : promptOf (l ++ k) id = match promptOf l id with Some p => Some p | None => promptOf k id end.
Proof. induction l as [|x l IH]; [done|]. cbn [app]. rewrite !promptOf_cons. by destruct (decide _). Qed.
Lemma promptOf_some l id p : promptOf l id = Some p → ID p = id ∧ p ∈ l.
Proof.
  induction l as [|x l IH]; [done|]. rewrite promptOf_cons. destruct (decide _) as [Hx|_].
  - intros [= <-]. split; [done|left].
  - intros [? ?]%IH. split; [done|by right].
Qed.
Lemma promptOf_none l id : promptOf l id = None ↔ id ∉ ID <$> l.
Proof.
  induction l as [|x l IH]; [split; [intros _; apply not_elem_of_nil|done]|]. rewrite promptOf_cons. cbn. rewrite not_elem_of_cons.
  destruct (decide _) as [->|Hx]; [split; [done|tauto]|]. rewrite IH. split; [by intros|by intros []].
Qed.
Lemma findPreset_cons x l id :
  findPreset (x :: l) id = if decide (ID x = id) then Some (0, x) else (λ r, (S r.1, r.2)) <$> findPreset l id.
Proof. unfold findPreset. cbn. destruct (decide _); [done|]. by destruct (list_find _ l) as [[]|]. Qed.
Lemma savePreset_cons x l p : savePreset (x :: l) p = if decide (ID x = ID p) then p :: l else x :: savePreset l p.
Proof.
  unfold savePreset. rewrite findPreset_cons. destruct (decide _); [done|]. by destruct (findPreset l (ID p)) as [[]|].
Qed.
Lemma updatePreset_cons x l u :
  updatePreset (x :: l) u = if decide (ID x = u_ID u) then applied u x :: l else x :: updatePreset l u.
Proof.
  unfold updatePreset. rewrite findPreset_cons. destruct (decide _); [done|]. by destruct (findPreset l (u_ID u)) as [[]|].
Qed.
Lemma promptOf_save l p id : promptOf (savePreset l p) id = if decide (ID p = id) then Some p else promptOf l id.
Proof.
  induction l as [|x l IH]; [apply promptOf_cons|]. rewrite savePreset_cons, promptOf_cons.
  destruct (decide (ID x = ID p)) as [Hx|Hx]; rewrite promptOf_cons.
  - rewrite Hx. by destruct (decide _).
  - rewrite IH. destruct (decide (ID x = id)), (decide (ID p = id)); congruence.
Qed.
Lemma promptOf_update l u id :
  promptOf (updatePreset l u) id = if decide (u_ID u = id) then applied u <$> promptOf l id else promptOf l id.
Proof.
  induction l as [|x l IH]; [by destruct (decide _)|]. rewrite updatePreset_cons, promptOf_cons.
  destruct (decide (ID x = u_ID u)) as [Hx|Hx]; rewrite promptOf_cons; cbn [applied ID].
  - rewrite Hx. by destruct (decide _).
  - rewrite IH. destruct (decide (ID x = id)), (decide (u_ID u = id)); congruence.
Qed.
Lemma promptOf_delete l ids id :
  promptOf (List.filter (λ p, negb (contains ids (ID p))) l) id = if contains ids id then None else promptOf l id.
Proof.
  induction l as [|x l IH]; [by destruct (contains ids id)|]. rewrite promptOf_cons. cbn [List.filter].
  destruct (decide (ID x = id)) as [Hx|Hx].
  - rewrite Hx. destruct (contains ids id) eqn:Hc; cbn [negb]; [by rewrite IH, ?Hc|]. rewrite promptOf_cons. by rewrite decide_True by done.
  - destruct (negb _); [|done]. rewrite promptOf_cons. by rewrite decide_False by done.
Qed.

(** What edits make of the prompt with an id, there before or not. *)
Definition saved (id : string) (o : option CustomPreset) (p : CustomPreset) : option CustomPreset :=
  if decide (ID p = id) then Some p else o.
Definition updated (id : string) (o : option CustomPreset) (u : PresetUpdate) : option CustomPreset :=
  if decide (u_ID u = id) then applied u <$> o else o.
Definition edited (e : PromptEdits) (id : string) (o : option CustomPreset) : option CustomPreset :=
  if contains (DeletePromptPresetIDs e) id then None
  else foldl (updated id) (foldl (saved id) o (SavePromptPresets e)) (UpdatePromptPresets e).
Definition unfavored (e : PromptEdits) (id : string) : Prop := id ∈ DeletePromptPresetIDs e ++ RemoveFavoritePromptPresetIDs e.

Lemma promptOf_saves l ps id : promptOf (foldl savePreset l ps) id = foldl (saved id) (promptOf l id) ps.
Proof. revert l. induction ps as [|p ps IH]; intros l; [done|]. cbn. by rewrite IH, promptOf_save. Qed.
Lemma promptOf_updates l us id : promptOf (foldl updatePreset l us) id = foldl (updated id) (promptOf l id) us.
Proof. revert l. induction us as [|u us IH]; intros l; [done|]. cbn. by rewrite IH, promptOf_update. Qed.
Lemma elem_of_favorites deleted f add id : id ∈ foldl (addFavorite deleted) f add ↔ id ∈ f ∨ id ∈ add ∧ id ∉ deleted.
Proof.
  revert f. induction add as [|x add IH]; intros f; cbn; [set_solver|]. rewrite IH. unfold addFavorite.
  destruct (contains f x) eqn:Hf; cbn; [apply contains_spec in Hf; set_solver|].
  destruct (contains deleted x) eqn:Hd; [apply contains_spec in Hd|apply not_contains in Hd]; set_solver.
Qed.
Lemma elem_of_kept (ids f : list string) id : id ∈ List.filter (λ id, negb (contains ids id)) f ↔ id ∈ f ∧ id ∉ ids.
Proof. by rewrite list_elem_of_In, List.filter_In, negb_true_iff, not_contains, <- list_elem_of_In. Qed.

(** The order prompts stand in. *)
Lemma ids_save l p : ∃ new, ID <$> savePreset l p = (ID <$> l) ++ new.
Proof.
  induction l as [|x l [new IH]]; [by eexists|]. rewrite savePreset_cons. destruct (decide _) as [Hx|_].
  - exists []. cbn. by rewrite Hx, app_nil_r.
  - exists new. cbn. by rewrite IH.
Qed.
Lemma ids_saves l ps : ∃ new, ID <$> foldl savePreset l ps = (ID <$> l) ++ new.
Proof.
  revert l. induction ps as [|p ps IH]; intros l; [exists []; by rewrite app_nil_r|]. cbn.
  destruct (IH (savePreset l p)) as [n1 ->]. destruct (ids_save l p) as [n2 ->]. exists (n2 ++ n1). by rewrite app_assoc.
Qed.
Lemma ids_update l u : ID <$> updatePreset l u = ID <$> l.
Proof. induction l as [|x l IH]; [done|]. rewrite updatePreset_cons. destruct (decide _); [done|]. cbn. by rewrite IH. Qed.
Lemma ids_updates l us : ID <$> foldl updatePreset l us = ID <$> l.
Proof. revert l. induction us as [|u us IH]; intros l; [done|]. cbn. by rewrite IH, ids_update. Qed.
Lemma ids_delete ids l : ID <$> List.filter (λ p, negb (contains ids (ID p))) l =
  List.filter (λ id, negb (contains ids id)) (ID <$> l).
Proof. induction l as [|x l IH]; [done|]. cbn. destruct (negb _); cbn; by rewrite IH. Qed.

(** What a profile reads as: its prompts by id, its favorites as a set, its
    default prompt, and the rest of its settings. *)
Definition presets (p : Profile) : list CustomPreset := default [] (CustomPromptPresets p).
Definition favorites (p : Profile) : list string := default [] (FavoritePromptPresetIDs p).
Definition settings (p : Profile) : Profile :=
  p <| CustomPromptPresets := None |> <| FavoritePromptPresetIDs := None |> <| DefaultPromptPresetID := None |>.
Lemma Preset_of p id : Preset p id = promptOf (presets p) id.
Proof. done. Qed.

Record effect (e : PromptEdits) (p q : Profile) : Prop := {
  edited_prompts id : Preset q id = edited e id (Preset p id);
  edited_favorites id : id ∈ favorites q ↔
    (id ∈ favorites p ∧ id ∉ RemoveFavoritePromptPresetIDs e ∨ id ∈ AddFavoritePromptPresetIDs e) ∧ id ∉ DeletePromptPresetIDs e;
  edited_default : DefaultPromptPresetID q =
    match DefaultPromptPresetID p with
    | Some id => Some (if negb (String.eqb id "") && contains (DeletePromptPresetIDs e) id then "" else id)%string
    | None => None
    end;
  edited_order : List.filter (λ id, negb (contains (DeletePromptPresetIDs e) id)) (ID <$> presets p) `prefix_of` (ID <$> presets q);
  edited_bounds : length (presets q) ≤ maxProfileList ∧ length (favorites q) ≤ maxProfileList;
  edited_rest : settings q = settings p;
}.
Lemma updates_nil us : foldl updatePreset [] us = [].
Proof. by induction us. Qed.
Lemma edits_effect p e q : ApplyPromptEdits p e = Ok q → effect e p q.
Proof.
  unfold ApplyPromptEdits. cbv zeta. change (default [] (CustomPromptPresets p)) with (presets p).
  change (default [] (FavoritePromptPresetIDs p)) with (favorites p).
  set (l := List.filter _ (foldl updatePreset _ _)). set (f := foldl _ _ _). case_bool_decide as Hl; [done|]. case_bool_decide as Hf; [done|].
  cbn [orb]. set (q1 := p <| CustomPromptPresets := _ |>).
  assert (presets q1 = l) as H1.
  { unfold q1, presets at 1; cbn. unfold l, presets. destruct (CustomPromptPresets p); [done|].
    destruct (SavePromptPresets e); [|done]. cbn. by rewrite updates_nil. }
  set (q2 := if bool_decide _ then q1 else _).
  assert (presets q2 = l ∧ favorites q2 = f ∧ DefaultPromptPresetID q2 = DefaultPromptPresetID p ∧ settings q2 = settings p) as (H2 & H3 & H4 & H5).
  { unfold q2. case_bool_decide as Hsame; [|done]. split_and!; [done| |done..]. by rewrite Hsame. }
  clearbody q2. clear q1 H1.
  assert (∀ q3, presets q3 = l → favorites q3 = f → settings q3 = settings p → DefaultPromptPresetID q3 =
      match DefaultPromptPresetID p with
      | Some id => Some (if negb (String.eqb id "") && contains (DeletePromptPresetIDs e) id then "" else id)%string
      | None => None
      end → effect e p q3) as Heffect.
  { intros q3 Hp Hf' Hs Hd. split; [..|split|]; rewrite ?Preset_of, ?Hp, ?Hf'; [| |done| |lia|lia|done].
    - intros id. unfold l. rewrite Preset_of, Hp. unfold l. by rewrite promptOf_delete, promptOf_updates, promptOf_saves.
    - intros id. unfold f. rewrite elem_of_favorites, elem_of_kept. set_solver.
    - unfold l. rewrite ids_delete, ids_updates. destruct (ids_saves (presets p) (SavePromptPresets e)) as [new ->].
      rewrite List.filter_app. by eexists. }
  rewrite H4. destruct (DefaultPromptPresetID p) as [id|] eqn:Hd; cbn [default from_option].
  - destruct (negb (String.eqb id "") && _) eqn:Hc; intros [= <-]; apply Heffect; try done; cbn; by rewrite ?H4, ?Hc.
  - intros [= <-]. by apply Heffect.
Qed.

(** The prompts edits name. *)
Definition names (e : PromptEdits) : list string :=
  (ID <$> SavePromptPresets e) ++ (u_ID <$> UpdatePromptPresets e) ++ DeletePromptPresetIDs e ++
  AddFavoritePromptPresetIDs e ++ RemoveFavoritePromptPresetIDs e.
Lemma saved_unnamed id o ps : id ∉ ID <$> ps → foldl (saved id) o ps = o.
Proof.
  revert o. induction ps as [|p ps IH]; intros o; [done|]. cbn. intros [H1 H2]%not_elem_of_cons. unfold saved at 2.
  rewrite decide_False by congruence. by apply IH.
Qed.
Lemma updated_unnamed id o us : id ∉ u_ID <$> us → foldl (updated id) o us = o.
Proof.
  revert o. induction us as [|u us IH]; intros o; [done|]. cbn. intros [H1 H2]%not_elem_of_cons. unfold updated at 2.
  rewrite decide_False by congruence. by apply IH.
Qed.
Lemma edited_unnamed e id o : id ∉ names e → edited e id o = o.
Proof.
  unfold names, edited. rewrite !not_elem_of_app. intros (H1 & H2 & H3 & _). apply not_contains in H3 as ->.
  by rewrite updated_unnamed, saved_unnamed.
Qed.

(** C21. Edits of saved prompts have their exact effect on the profile as it
    is when they apply: each prompt named is saved, updated or deleted, the
    favorites and the default follow, prompts keep their order, no list grows
    past its bound, and nothing else changes.  So edits of two devices that
    name different prompts end the same in either order. *)
Theorem edits_exact p e1 e2 q1 q12 q2 q21 :
  ApplyPromptEdits p e1 = Ok q1 → ApplyPromptEdits q1 e2 = Ok q12 →
  ApplyPromptEdits p e2 = Ok q2 → ApplyPromptEdits q2 e1 = Ok q21 →
  (effect e1 p q1 ∧ effect e2 q1 q12) ∧
  ((∀ id, id ∈ names e1 → id ∉ names e2) →
   (∀ id, Preset q12 id = Preset q21 id) ∧ (∀ id, id ∈ favorites q12 ↔ id ∈ favorites q21) ∧
   DefaultPromptPresetID q12 = DefaultPromptPresetID q21 ∧ settings q12 = settings q21).
Proof.
  intros H1%edits_effect H12%edits_effect H2%edits_effect H21%edits_effect. split; [done|]. intros Hdisj. split_and!.
  - intros id. rewrite (edited_prompts _ _ _ H12), (edited_prompts _ _ _ H1), (edited_prompts _ _ _ H21), (edited_prompts _ _ _ H2).
    destruct (decide (id ∈ names e1)) as [Hid|Hid].
    + by rewrite !(edited_unnamed e2) by auto.
    + by rewrite !(edited_unnamed e1) by done.
  - intros id. rewrite (edited_favorites _ _ _ H12), (edited_favorites _ _ _ H1), (edited_favorites _ _ _ H21), (edited_favorites _ _ _ H2).
    specialize (Hdisj id). unfold names in Hdisj. rewrite !elem_of_app in Hdisj. tauto.
  - rewrite (edited_default _ _ _ H12), (edited_default _ _ _ H1), (edited_default _ _ _ H21), (edited_default _ _ _ H2).
    destruct (DefaultPromptPresetID p) as [id|]; [|done]. f_equal.
    destruct (String.eqb id "") eqn:He; cbn; [by rewrite !He|].
    by destruct (contains (DeletePromptPresetIDs e1) id) eqn:Hd1, (contains (DeletePromptPresetIDs e2) id) eqn:Hd2; cbn;
      rewrite ?He, ?Hd1, ?Hd2; cbn.
  - by rewrite (edited_rest _ _ _ H12), (edited_rest _ _ _ H1), (edited_rest _ _ _ H21), (edited_rest _ _ _ H2).
Qed.


(** ** Merging a device's profile loses nothing and settles *)

Section Merge.
Context (Raw : Api.any → bytes) (NewSHA1 : bytes → string).
#[local] Abbreviation mergePreset := (mergePreset Raw NewSHA1).
#[local] Abbreviation copyID := (copyID Raw NewSHA1).

(** [c] keeps what a prompt is and reads as. *)
Definition reads_alike (c : CustomPreset → CustomPreset) : Prop := ∀ p, ID (c p) = ID p ∧ reading (c p) = reading p.
Lemma reads_alike_same c p q : reads_alike c → samePrompt (c p) q = samePrompt p q.
Proof. intros Hc. unfold samePrompt. by rewrite (proj2 (Hc p)). Qed.
Lemma samePrompt_refl p : samePrompt p p = true.
Proof. by apply bool_decide_eq_true_2. Qed.
Lemma completePreset_alike t : reads_alike (completePreset t).
Proof. intros p. unfold completePreset. cbv zeta. by destruct (isNumber _), (isNumber _). Qed.
Lemma find_map c l id : reads_alike c → findPreset (c <$> l) id = prod_map (λ i, i) c <$> findPreset l id.
Proof.
  intros Hc. induction l as [|x l IH]; [done|]. rewrite fmap_cons, !findPreset_cons, (proj1 (Hc x)), IH.
  destruct (decide _); [done|]. by destruct (findPreset l id) as [[]|].
Qed.
Lemma find_prefix l k id r : findPreset l id = Some r → findPreset (l ++ k) id = Some r.
Proof. destruct r as [i x]. apply list_find_app_l. Qed.
Lemma find_appended l p id : findPreset l id = None → ID p = id → ∃ i, findPreset (l ++ [p]) id = Some (i, p).
Proof.
  intros Hl Hp. unfold findPreset. rewrite list_find_app_r by done. cbn. rewrite decide_True by done. by eexists.
Qed.

Lemma mergePreset_grows s p : s.1 `prefix_of` (mergePreset s p).1.
Proof.
  destruct s as [l m]. unfold Profiles.mergePreset. destruct (findPreset l (ID p)) as [[i kept]|]; [|by eexists]. cbv zeta.
  destruct (samePrompt kept p); [done|]. destruct (findPreset l _); [done|by eexists].
Qed.
Lemma merges_grow s ps : s.1 `prefix_of` (foldl mergePreset s ps).1.
Proof.
  revert s. induction ps as [|p ps IH]; intros s; [done|]. cbn. etrans; [apply mergePreset_grows|apply IH].
Qed.
(** The prompts a merge ended with, or what was made of them since, take the
    prompt again with no change. *)
Lemma mergePreset_settles c s p rest : reads_alike c →
  mergePreset (c <$> ((mergePreset s p).1 ++ rest), s.2) p = (c <$> ((mergePreset s p).1 ++ rest), (mergePreset s p).2).
Proof.
  intros Hc. destruct s as [l m]. cbn [snd].
  destruct (mergePreset (l, m) p) as [l1 m1] eqn:Hm. cbn [fst snd]. unfold Profiles.mergePreset in *. rewrite find_map by done.
  destruct (findPreset l (ID p)) as [[i kept]|] eqn:Hf.
  - cbv zeta in *. assert (∃ new, l1 = l ++ new ∧ (samePrompt kept p = false → is_Some (findPreset l1 (copyID (undated p)))) ∧
      m1 = if samePrompt kept p then m else <[ID p := copyID (undated p)]> m) as (new & -> & Hcopy & ->).
    { destruct (samePrompt kept p); [injection Hm as <- <-; exists []; by rewrite app_nil_r|].
      destruct (findPreset l (copyID (undated p))) as [x|] eqn:Hx; injection Hm as <- <-.
      - exists []. rewrite app_nil_r. split_and!; [done|by eexists|done].
      - eexists. split_and!; [done| |done]. intros _.
        edestruct (find_appended l (p <| ID := copyID (undated p) |> <| Name ::= λ n, String.append n " (from this device)" |>) _ Hx) as [j Hj]; [done|].
        by eexists. }
    rewrite <- app_assoc, (find_prefix _ _ _ _ Hf). cbn [fmap option_fmap option_map prod_map fst snd]. rewrite reads_alike_same by done.
    destruct (samePrompt kept p) eqn:Hs; [done|]. destruct (Hcopy eq_refl) as [x Hx]. rewrite find_map by done.
    by rewrite app_assoc, (find_prefix _ _ _ _ Hx).
  - injection Hm as <- <-. destruct (find_appended l p (ID p) Hf eq_refl) as [i Hi]. rewrite (find_prefix _ _ _ _ Hi).
    cbn [fmap option_fmap option_map prod_map fst snd]. by rewrite reads_alike_same, samePrompt_refl.
Qed.
Lemma merges_settle c s ps rest : reads_alike c →
  foldl mergePreset (c <$> ((foldl mergePreset s ps).1 ++ rest), s.2) ps =
    (c <$> ((foldl mergePreset s ps).1 ++ rest), (foldl mergePreset s ps).2).
Proof.
  intros Hc. revert s. induction ps as [|p ps IH]; intros s; [done|]. cbn [foldl].
  destruct (merges_grow (mergePreset s p) ps) as [new Hnew].
  assert (Hstep : mergePreset (c <$> ((foldl mergePreset (mergePreset s p) ps).1 ++ rest), s.2) p =
            (c <$> ((foldl mergePreset (mergePreset s p) ps).1 ++ rest), (mergePreset s p).2)).
  { rewrite Hnew, <- app_assoc. by apply mergePreset_settles. }
  rewrite Hstep. apply IH.
Qed.

Lemma elem_of_mergeFavorite m f id x : x ∈ default [] (mergeFavorite m f id) ↔ x ∈ default [] f ∨ x = default id (m !! id).
Proof.
  unfold mergeFavorite. destruct (contains _ _) eqn:Hc; [apply contains_spec in Hc; set_solver|]. cbn. set_solver.
Qed.
Lemma elem_of_mergeFavorites m f ids x :
  x ∈ default [] (foldl (mergeFavorite m) f ids) ↔ x ∈ default [] f ∨ ∃ id, id ∈ ids ∧ x = default id (m !! id).
Proof.
  revert f. induction ids as [|id ids IH]; intros f; cbn; [set_solver|]. rewrite IH, elem_of_mergeFavorite. set_solver.
Qed.
Lemma mergeFavorites_settle m f ids : (∀ id, id ∈ ids → default id (m !! id) ∈ default [] f) → foldl (mergeFavorite m) f ids = f.
Proof.
  revert f. induction ids as [|id ids IH]; intros f Hf; [done|]. cbn. unfold mergeFavorite at 2.
  rewrite (proj2 (contains_spec _ _)) by (apply Hf; left). apply IH. intros x Hx. apply Hf. by right.
Qed.


(** The merge by field: the prompts and the ids of those copied, the
    favorites, the default prompt and every other field. *)
Definition mergedPresets (r l : Profile) : list CustomPreset * gmap string string := foldl mergePreset (presets r, ∅) (presets l).
Definition mergedField (changed : list string) A (name : string) (r l : option A) : option A :=
  if contains changed name then over (over l r) l else over l r.
Definition mergedDefault (r l : Profile) (changed : list string) : option string :=
  let replaced := contains changed "defaultPromptPresetId" in
  let kept := if replaced then DefaultPromptPresetID l else over (DefaultPromptPresetID l) (DefaultPromptPresetID r) in
  match DefaultPromptPresetID l with
  | Some id => if match DefaultPromptPresetID r with None => true | Some _ => false end || replaced
               then match (mergedPresets r l).2 !! id with Some copy => Some copy | None => kept end else kept
  | None => kept
  end.
Definition mergedFavorites (r l : Profile) (changed : list string) : option (list string) :=
  foldl (mergeFavorite (mergedPresets r l).2)
    (if contains changed "favoritePromptPresetIds" then Some [] else FavoritePromptPresetIDs r) (favorites l).
Lemma merge_form r l changed : MergeDeviceProfile Raw NewSHA1 r l changed =
  (each (mergedField changed) r l)
    <| CustomPromptPresets := match CustomPromptPresets r, (mergedPresets r l).1 with
                              | None, [] => None
                              | _, _ => Some (mergedPresets r l).1
                              end |>
    <| FavoritePromptPresetIDs := mergedFavorites r l changed |>
    <| DefaultPromptPresetID := mergedDefault r l changed |>.
Proof.
  unfold MergeDeviceProfile, mergedDefault, mergedFavorites. cbv zeta. change (foldl mergePreset _ _) with (mergedPresets r l).
  destruct (mergedPresets r l) as [ps m]. cbn [fst snd].
  unfold Apply, each, mergedField; cbn -[contains].
  destruct (contains changed "defaultPromptPresetId") eqn:Hd; cbn -[contains]; rewrite ?Hd;
    (destruct (DefaultPromptPresetID l) as [id|]; [|done]); destruct (DefaultPromptPresetID r); cbn [over orb];
    try done; by destruct (m !! id).
Qed.
Lemma mergedField_settles changed A name (r l : option A) :
  mergedField changed A name (mergedField changed A name r l) l = mergedField changed A name r l.
Proof. unfold mergedField. by destruct (contains changed name), r, l. Qed.

(** Merging the same settings once more, into what the merge left or a write
    completed of it, changes nothing. *)
Lemma merge_settles t r l changed :
  let q := completePresets t (MergeDeviceProfile Raw NewSHA1 r l changed) in MergeDeviceProfile Raw NewSHA1 q l changed = q.
Proof.
  cbv zeta. rewrite (merge_form r l changed). set (q1 := _ <| DefaultPromptPresetID := _ |>). set (q := completePresets t q1).
  assert (Hst : foldl mergePreset (completePreset t <$> (mergedPresets r l).1, ∅) (presets l) =
    (completePreset t <$> (mergedPresets r l).1, (mergedPresets r l).2)).
  { pose proof (merges_settle (completePreset t) (presets r, ∅) (presets l) [] (completePreset_alike t)) as H. by rewrite app_nil_r in H. }
  assert (Hps : mergedPresets q l = (completePreset t <$> (mergedPresets r l).1, (mergedPresets r l).2)).
  { rewrite <- Hst. unfold mergedPresets at 1. f_equal. f_equal. unfold q, presets; cbn.
    by destruct (CustomPromptPresets r), ((mergedPresets r l).1). }
  assert (Hfav : mergedFavorites q l changed = FavoritePromptPresetIDs q).
  { unfold mergedFavorites. rewrite Hps. cbn [snd]. change (FavoritePromptPresetIDs q) with (mergedFavorites r l changed).
    unfold mergedFavorites. destruct (contains changed _); [done|]. apply mergeFavorites_settle. intros id Hid.
    apply elem_of_mergeFavorites. right. by exists id. }
  assert (Hdef : mergedDefault q l changed = DefaultPromptPresetID q).
  { unfold mergedDefault at 1. rewrite Hps. cbn [snd]. change (DefaultPromptPresetID q) with (mergedDefault r l changed). unfold mergedDefault.
    destruct (DefaultPromptPresetID l) as [id|]; [|by destruct (contains changed _), (DefaultPromptPresetID r)].
    destruct (contains changed _), (DefaultPromptPresetID r); cbn; try done; by destruct (_ !! id). }
  rewrite merge_form, Hps, Hfav, Hdef. cbn [fst]. unfold each; cbn -[mergedField].
  rewrite !mergedField_settles. by destruct (CustomPromptPresets r), ((mergedPresets r l).1).
Qed.


(** A prompt of the device's that is kept apart from the stored one with its
    id. *)
Definition copyOf (p : CustomPreset) : CustomPreset :=
  p <| ID := copyID (undated p) |> <| Name ::= λ n, String.append n " (from this device)" |>.
(** What one prompt of the device's does. *)
Inductive merges (s : list CustomPreset * gmap string string) (p : CustomPreset) : list CustomPreset * gmap string string → Prop :=
  | merges_new : findPreset s.1 (ID p) = None → merges s p (s.1 ++ [p], s.2)
  | merges_same i k : findPreset s.1 (ID p) = Some (i, k) → samePrompt k p = true → merges s p s
  | merges_copied i k l : findPreset s.1 (ID p) = Some (i, k) → samePrompt k p = false →
      is_Some (findPreset l (copyID (undated p))) → l = s.1 ∨ l = s.1 ++ [copyOf p] →
      merges s p (l, <[ID p := copyID (undated p)]> s.2).
Lemma mergePreset_merges s p : merges s p (mergePreset s p).
Proof.
  destruct s as [l m]. unfold Profiles.mergePreset. destruct (findPreset l (ID p)) as [[i k]|] eqn:Hf; [|by apply (merges_new (l, m))].
  cbv zeta. destruct (samePrompt k p) eqn:Hs; [by eapply merges_same|].
  destruct (findPreset l (copyID (undated p))) as [x|] eqn:Hx; (eapply (merges_copied (l, m)); [done|done| |]); [by eexists|by left| |by right].
  destruct (find_appended l (copyOf p) _ Hx) as [j Hj]; [done|]. by eexists.
Qed.

Definition keeps (l : list CustomPreset) (p : CustomPreset) : Prop :=
  ∃ k, promptOf l (ID p) = Some k ∧ (samePrompt k p = true ∨ is_Some (promptOf l (copyID (undated p)))).
Lemma promptOf_prefix l l' id k : l `prefix_of` l' → promptOf l id = Some k → promptOf l' id = Some k.
Proof. intros [new ->] H. by rewrite promptOf_app, H. Qed.
Lemma keeps_prefix l l' p : l `prefix_of` l' → keeps l p → keeps l' p.
Proof.
  intros Hl (k & Hk & Hs). exists k. split; [by eapply promptOf_prefix|]. destruct Hs as [|[c Hc]]; [by left|right].
  exists c. by eapply promptOf_prefix.
Qed.
Lemma merges_keep s p s' : merges s p s' → keeps s'.1 p.
Proof.
  intros [Hf|i k Hf Hs|i k l Hf Hs Hc Hl]; cbn.
  - destruct (find_appended s.1 p (ID p) Hf eq_refl) as [i Hi]. exists p. unfold promptOf. rewrite Hi. split; [done|].
    left. apply samePrompt_refl.
  - exists k. unfold promptOf. rewrite Hf. auto.
  - exists k. split; [|right; unfold promptOf; destruct Hc as [? ->]; by eexists].
    apply (promptOf_prefix s.1); [destruct Hl as [->| ->]; [done|by eexists]|]. unfold promptOf. by rewrite Hf.
Qed.
Lemma foldl_keeps s ps p : p ∈ ps → keeps (foldl mergePreset s ps).1 p.
Proof.
  revert s. induction ps as [|x ps IH]; intros s; [by intros ?%not_elem_of_nil|]. intros [->|Hp]%elem_of_cons; cbn [foldl]; [|by apply IH].
  eapply keeps_prefix; [apply merges_grow|]. eapply merges_keep, mergePreset_merges.
Qed.
Lemma foldl_from s ps : 
  (∀ x, x ∈ (foldl mergePreset s ps).1 → x ∈ s.1 ∨ x ∈ ps ∨ ∃ p, p ∈ ps ∧ x = copyOf p) ∧
  (∀ id c, (foldl mergePreset s ps).2 !! id = Some c → s.2 !! id = Some c ∨ ∃ p, p ∈ ps ∧ ID p = id ∧ c = copyID (undated p)).
Proof.
  revert s. induction ps as [|p ps IH]; intros s; [by split; auto|]. cbn [foldl]. destruct (IH (mergePreset s p)) as [H1 H2].
  pose proof (mergePreset_merges s p) as Hm. remember (mergePreset s p) as s' eqn:Hs'. clear Hs' IH. split.
  - intros x [Hx|[Hx|(y & Hy & ->)]]%H1; [|set_solver|right; right; exists y; set_solver].
    destruct Hm as [_|i k _ _|i k l _ _ _ [->| ->]]; cbn in Hx; set_solver.
  - intros id c [Hc|(y & Hy & Hid & ->)]%H2; [|right; exists y; set_solver].
    destruct Hm as [_|i k _ _|i k l _ _ _ _]; cbn in Hc; try by left.
    apply lookup_insert_Some in Hc as [[<- <-]|[_ Hc]]; [right; exists p; set_solver|by left].
Qed.

(** A prompt of the device's reads as the stored one with its id, or not. *)
Definition reads_stored (l : list CustomPreset) (p : CustomPreset) (same : bool) : Prop :=
  ∃ k, promptOf l (ID p) = Some k ∧ samePrompt k p = same.
Lemma reads_stored_prefix l l' p b : l `prefix_of` l' → reads_stored l p b → reads_stored l' p b.
Proof. intros Hl (k & Hk & Hs). exists k. split; [by eapply promptOf_prefix|done]. Qed.
(** The prompts copied are those that read otherwise than the stored one. *)
Lemma mergePreset_copies s p :
  (∀ id c, (mergePreset s p).2 !! id = Some c → s.2 !! id = Some c ∨ ID p = id ∧ c = copyID (undated p) ∧ reads_stored (mergePreset s p).1 p false) ∧
  ((mergePreset s p).2 !! ID p = None → reads_stored (mergePreset s p).1 p true) ∧
  (∀ id, (mergePreset s p).2 !! id = None → s.2 !! id = None).
Proof.
  pose proof (mergePreset_merges s p) as Hm. pose proof (mergePreset_grows s p) as Hg. destruct Hm as [Hf|i k Hf Hs|i k l Hf Hs Hc Hl]; cbn in *.
  - destruct (find_appended s.1 p (ID p) Hf eq_refl) as [i Hi]. split_and!; [by left| |done]. intros _. exists p.
    split; [unfold promptOf; by rewrite Hi|apply samePrompt_refl].
  - split_and!; [by left| |done]. intros _. exists k. split; [unfold promptOf; by rewrite Hf|done].
  - assert (Hk : promptOf l (ID p) = Some k) by (eapply promptOf_prefix; [exact Hg|unfold promptOf; by rewrite Hf]). split_and!.
    + intros id c [[<- <-]|[_ Hin]]%lookup_insert_Some; [right|by left]. split_and!; [done..|]. by exists k.
    + by rewrite lookup_insert_eq.
    + by intros id [? _]%lookup_insert_None.
Qed.
Lemma foldl_copies s ps :
  let s' := foldl mergePreset s ps in
  (∀ id c, s'.2 !! id = Some c → s.2 !! id = Some c ∨ ∃ p, p ∈ ps ∧ ID p = id ∧ c = copyID (undated p) ∧ reads_stored s'.1 p false) ∧
  (∀ p, p ∈ ps → s'.2 !! ID p = None → reads_stored s'.1 p true) ∧ (∀ id, s'.2 !! id = None → s.2 !! id = None).
Proof.
  revert s. induction ps as [|p ps IH]; intros s; [split_and!; [by left|by intros ? ?%not_elem_of_nil|done]|]. cbn [foldl].
  destruct (mergePreset_copies s p) as (H1 & H2 & H3). destruct (IH (mergePreset s p)) as (G1 & G2 & G3).
  pose proof (merges_grow (mergePreset s p) ps) as Hg. split_and!.
  - intros id c [Hc|(x & Hx & Hrest)]%G1; [|right; exists x; split; [by right|done]].
    destruct (H1 id c Hc) as [?|(Hid & Hcp & Hr)]; [by left|right]. exists p. split_and!; [by left|done|done|by eapply reads_stored_prefix].
  - intros x [->|Hx]%elem_of_cons Hnone; [eapply reads_stored_prefix; [exact Hg|]; by apply H2, G3|by apply G2].
  - intros id Hid. by apply H3, G3.
Qed.

(** What a merge keeps of a prompt of the device's. *)
Definition held (r l : Profile) (ps : list CustomPreset) (p : CustomPreset) : Prop :=
  reads_stored ps p true ∨ reads_stored ps p false ∧
    ∃ c, promptOf ps (copyID (undated p)) = Some c ∧
      (c ∈ presets r ∨ c ∈ presets l ∨ ∃ p', p' ∈ presets l ∧ copyID (undated p') = copyID (undated p) ∧ c = copyOf p').

(** C22. Merging a device's settings loses nothing: the stored prompts stand as
    they were, ahead.  Each of the device's reads as the stored one with its
    id, or a prompt with its copy's id is there: its copy, with its text (or
    that of a prompt of the same digest), unless a prompt with that id was
    there already, which is left as it is, as an earlier merge left it or as
    it was edited since.  Nothing else comes in.  The favorites are exactly
    the stored ones, dropped if the device changed its favorites, and the
    device's, those of prompts copied under the copies' ids; so is the
    default prompt the device's where none is stored or the device changed
    it, else the stored one; and every other setting is the stored one unless
    unset or changed, and set, on the device. *)
Theorem merge_keeps r l changed :
  let q := MergeDeviceProfile Raw NewSHA1 r l changed in
  presets r `prefix_of` presets q ∧
  (∀ p, p ∈ presets l → held r l (presets q) p) ∧
  (∀ x, x ∈ presets q → x ∈ presets r ∨ x ∈ presets l ∨ ∃ p, p ∈ presets l ∧ x = copyOf p) ∧
  (∃ copies : gmap string string,
    (∀ id c, copies !! id = Some c → ∃ p, p ∈ presets l ∧ ID p = id ∧ c = copyID (undated p) ∧ reads_stored (presets q) p false) ∧
    (∀ p, p ∈ presets l → copies !! ID p = None → reads_stored (presets q) p true) ∧
    (∀ x, x ∈ favorites q ↔ contains changed "favoritePromptPresetIds" = false ∧ x ∈ favorites r ∨
       ∃ id, id ∈ favorites l ∧ x = default id (copies !! id)) ∧
    DefaultPromptPresetID q =
      if match DefaultPromptPresetID r with None => true | Some _ => false end || contains changed "defaultPromptPresetId"
      then (λ id, default id (copies !! id)) <$> DefaultPromptPresetID l else DefaultPromptPresetID r) ∧
  settings q = settings (each (mergedField changed) r l).
Proof.
  cbv zeta. rewrite merge_form. set (q := _ <| DefaultPromptPresetID := _ |>).
  assert (Hps : presets q = (mergedPresets r l).1).
  { unfold q, presets at 1; cbn. by destruct (CustomPromptPresets r), ((mergedPresets r l).1). }
  destruct (foldl_from (presets r, ∅) (presets l)) as [Hfrom _]. destruct (foldl_copies (presets r, ∅) (presets l)) as (Hc1 & Hc2 & _).
  fold (mergedPresets r l) in *. cbn [fst snd] in *. rewrite Hps. split_and!.
  - apply merges_grow.
  - intros p Hp. destruct (foldl_keeps (presets r, ∅) (presets l) p Hp) as (k & Hk & Hs). fold (mergedPresets r l) in Hk, Hs.
    destruct (samePrompt k p) eqn:Hsame; [left; by exists k|]. destruct Hs as [?|[c Hc]]; [done|]. right. split; [by exists k|].
    exists c. split; [done|]. apply promptOf_some in Hc as [Hid Hin].
    destruct (Hfrom c Hin) as [?|[?|(p' & Hp' & ->)]]; [by left|by right; left|]. right; right. by exists p'.
  - done.
  - exists (mergedPresets r l).2. split_and!.
    + intros id c [Hc|H]%Hc1; [by rewrite lookup_empty in Hc|done].
    + done.
    + intros x. unfold favorites at 1. change (FavoritePromptPresetIDs q) with (mergedFavorites r l changed). unfold mergedFavorites.
      rewrite elem_of_mergeFavorites. fold (favorites r). destruct (contains changed _); cbn; [|naive_solver]. set_solver.
    + change (DefaultPromptPresetID q) with (mergedDefault r l changed). unfold mergedDefault.
      destruct (DefaultPromptPresetID l) as [id|], (DefaultPromptPresetID r), (contains changed _); cbn; try done; by destruct (_ !! id).
  - done.
Qed.
End Merge.

(** ** Edit clocks *)

Lemma member_map (m : gmap string Api.any) name : Api.member (Api.AObj (map_to_list m)) name = m !! name.
Proof.
  cbn. destruct (List.find _ (map_to_list m)) as [[n v]|] eqn:Hf; cbn.
  - apply List.find_some in Hf as [Hin Hn]. cbn in Hn. apply String.eqb_eq in Hn as <-.
    symmetry. apply elem_of_map_to_list. by apply list_elem_of_In.
  - destruct (m !! name) as [v|] eqn:Hm; [|done]. apply elem_of_map_to_list, list_elem_of_In in Hm.
    pose proof (List.find_none _ _ Hf _ Hm) as Hn. cbn in Hn. by rewrite String.eqb_refl in Hn.
Qed.
Lemma ticks_lookup tick clocks names name :
  foldr (λ n, <[n := tick]>) clocks names !! name = if decide (name ∈ names) then Some tick else (clocks : gmap string Api.any) !! name.
Proof.
  induction names as [|n names IH]; cbn; [by rewrite decide_False by apply not_elem_of_nil|].
  destruct (decide (n = name)) as [->|Hn].
  - rewrite lookup_insert_eq, decide_True by left. done.
  - rewrite lookup_insert_ne, IH by done. destruct (decide (name ∈ names)), (decide (name ∈ n :: names)); set_solver.
Qed.

Section Clocks.
Context (Unmarshal : bytes → option Api.any) (Truncated : string → option Z).
#[local] Abbreviation stampEdits := (stampEdits Unmarshal Truncated).
#[local] Abbreviation changedFields := (changedFields Unmarshal).
Definition versioned (revision : Z) (others : gmap string Api.any) : gmap string Api.any :=
  if bool_decide (0 < revision)%Z
  then <[clockVersionMember := Api.ANum (pretty revision)]> (<[versionMember := Api.ANum (pretty revision)]> others) else others.
Lemma versioned_other revision others name : name ∉ [clockVersionMember; versionMember] → versioned revision others !! name = others !! name.
Proof. intros Hn. unfold versioned. case_bool_decide; [|done]. by rewrite !lookup_insert_ne by set_solver. Qed.
Lemma versioned_set revision others : (0 < revision)%Z →
  versioned revision others !! clockVersionMember = Some (Api.ANum (pretty revision)) ∧
  versioned revision others !! versionMember = Some (Api.ANum (pretty revision)).
Proof.
  intros Hr. unfold versioned. rewrite bool_decide_eq_true_2 by done. split; [by rewrite lookup_insert_eq|].
  by rewrite lookup_insert_ne, lookup_insert_eq by done.
Qed.
Lemma stamped p data revision : stampEdits p data revision =
  match changedFields p data, readClocks (Others p !! fieldClocksMember) with
  | [], _ => Some (p <| Others := versioned revision (Others p) |>)
  | _, None => None
  | ns, Some clocks =>
      Some (p <| Others := versioned revision
                  (<[fieldClocksMember := Api.AObj (map_to_list (foldr (λ n, <[n := tickOf Truncated clocks]>) clocks ns))]> (Others p)) |>)
  end.
Proof. unfold Profiles.stampEdits. cbv zeta. destruct (changedFields p data); [done|]. by destruct (readClocks _). Qed.

Lemma stamped_rest p data revision q : stampEdits p data revision = Some q → q = p <| Others := Others q |> ∧
  ∀ name, name ∉ [fieldClocksMember; clockVersionMember; versionMember] → Others q !! name = Others p !! name.
Proof.
  rewrite stamped. destruct (changedFields p data); [|destruct (readClocks _); [|done]]; intros [= <-]; (split; [done|]); intros name Hn;
    cbn -[versioned foldr]; rewrite versioned_other by set_solver; [done|]. apply lookup_insert_ne. set_solver.
Qed.

Lemma readClocks_null raw : readClocks raw = None ↔ raw = Some Api.ANull.
Proof. split; [|by intros ->]. unfold readClocks. by repeat case_match. Qed.

(** A conversion to [int64] gives one; of a float out of range, any. *)
Hypothesis Truncated_int : ∀ lit v, Truncated lit = Some v → Quota.is_int v.

Lemma latest_above clocks name raw v : clocks !! name = Some raw → clockV Truncated raw = Some v → (v ≤ latestClock Truncated clocks)%Z.
Proof.
  intros Hraw Hv. assert (Hin : raw ∈ (map_to_list clocks).*2).
  { apply list_elem_of_fmap. exists (name, raw). split; [done|]. by apply elem_of_map_to_list. }
  unfold latestClock. induction (map_to_list clocks).*2 as [|x l IH]; [by apply not_elem_of_nil in Hin|]. cbn.
  apply elem_of_cons in Hin as [->|Hin]; [rewrite Hv; lia|]. specialize (IH Hin). destruct (clockV Truncated x); lia.
Qed.
(** The latest clock is one of the row's, or 0. *)
Lemma latest_held clocks : latestClock Truncated clocks = 0%Z ∨
  ∃ name raw, clocks !! name = Some raw ∧ clockV Truncated raw = Some (latestClock Truncated clocks).
Proof.
  assert (H : latestClock Truncated clocks = 0%Z ∨ ∃ raw, raw ∈ (map_to_list clocks).*2 ∧ clockV Truncated raw = Some (latestClock Truncated clocks)).
  { unfold latestClock. induction (map_to_list clocks).*2 as [|x l IH]; [by left|]. cbn.
    set (n := foldr _ _ l) in *. destruct (clockV Truncated x) as [v|] eqn:Hv.
    - destruct (Z.max_spec n v) as [[_ ->]|[_ ->]]; [right; exists x; split; [left|done]|].
      destruct IH as [?|(raw & Hin & Hr)]; [by left|right; exists raw; split; [by right|done]].
    - destruct IH as [?|(raw & Hin & Hr)]; [by left|right; exists raw; split; [by right|done]]. }
  destruct H as [?|(raw & Hin & Hr)]; [by left|right]. apply list_elem_of_fmap in Hin as ([name raw'] & -> & Hin).
  exists name, raw'. split; [by apply elem_of_map_to_list|done].
Qed.
Lemma clockV_int raw v : clockV Truncated raw = Some v → Quota.is_int v.
Proof.
  unfold clockV. assert (Quota.is_int 0) by done. destruct raw; try done; [by intros [= <-]|].
  destruct (Api.member _ _) as [[]|]; try done; try (by intros [= <-]). apply Truncated_int.
Qed.
Lemma latest_int clocks : (0 ≤ latestClock Truncated clocks ≤ max_int)%Z.
Proof.
  unfold latestClock. induction (map_to_list clocks).*2 as [|x l IH]; cbn; [done|].
  destruct (clockV Truncated x) as [v|] eqn:Hv; [apply clockV_int in Hv; unfold Quota.is_int in Hv|]; lia.
Qed.

(** The clocks a row holds. *)
Definition clocksOf (p : StoredProfile) : gmap string Api.any := default ∅ (readClocks (Others p !! fieldClocksMember)).

(** The clock of a write: past every one of the row's, up to the largest the
    clients keep, unless one of them is the largest of an [int64]. *)
Definition nextClock (clocks : gmap string Api.any) : Z := (Quota.wrap64 (latestClock Truncated clocks + 1) `min` maxClock)%Z.
Lemma nextClock_past clocks :
  (∀ name raw n, clocks !! name = Some raw → clockV Truncated raw = Some n → (n < max_int)%Z) →
  (0 < nextClock clocks ≤ maxClock)%Z ∧
  ∀ name raw n, clocks !! name = Some raw → clockV Truncated raw = Some n → (n < nextClock clocks)%Z ∨ nextClock clocks = maxClock.
Proof.
  intros Hlt. pose proof (latest_int clocks) as Hint.
  assert (latestClock Truncated clocks < max_int)%Z.
  { destruct (latest_held clocks) as [->|(name & raw & Hraw & Hv)]; [done|by eapply Hlt]. }
  unfold nextClock, maxClock. rewrite Quota.wrap64_id by (unfold Quota.is_int, min_int in *; lia).
  split; [lia|]. intros name raw n Hraw Hn. pose proof (latest_above _ _ _ _ Hraw Hn). lia.
Qed.
Lemma nextClock_wraps clocks name raw :
  clocks !! name = Some raw → clockV Truncated raw = Some max_int → nextClock clocks = min_int.
Proof.
  intros Hraw Hv. pose proof (latest_above _ _ _ _ Hraw Hv). pose proof (latest_int clocks). unfold nextClock.
  by replace (latestClock Truncated clocks) with max_int by lia.
Qed.

(** C24. A write panics just where it changes a field and the row's clocks are
    null.  Else it gives each field it changes one edit clock, past every
    clock the row holds, short of the largest the clients keep, as long as
    each converts to less than the largest [int64]; one that is that largest,
    as a number out of range may convert to, makes the clock wrap to the
    least.  Each other field keeps its own; the clocks' version is the
    revision written; nothing else of the profile changes. *)
Theorem clocks_advance p data revision :
  (stampEdits p data revision = None ↔ changedFields p data ≠ [] ∧ Others p !! fieldClocksMember = Some Api.ANull) ∧
  ∀ q, stampEdits p data revision = Some q →
    q = p <| Others := Others q |> ∧
    (∀ name, name ∉ [fieldClocksMember; clockVersionMember; versionMember] → Others q !! name = Others p !! name) ∧
    (changedFields p data = [] → Others q !! fieldClocksMember = Others p !! fieldClocksMember) ∧
    ((0 < revision)%Z → Others q !! clockVersionMember = Some (Api.ANum (pretty revision)) ∧
                        Others q !! versionMember = Some (Api.ANum (pretty revision))) ∧
    ∃ v, (v ≤ maxClock)%Z ∧
      ((∀ name raw n, clocksOf p !! name = Some raw → clockV Truncated raw = Some n → (n < max_int)%Z) →
       (0 < v)%Z ∧ ∀ name raw n, clocksOf p !! name = Some raw → clockV Truncated raw = Some n → (n < v)%Z ∨ v = maxClock) ∧
      ((∃ name raw, clocksOf p !! name = Some raw ∧ clockV Truncated raw = Some max_int) → v = min_int) ∧
      ∀ name, changedFields p data ≠ [] →
        clocksOf q !! name =
          if decide (name ∈ changedFields p data)
          then Some (Api.AObj [("v", Api.ANum (pretty v)); ("w", Api.AStr clockWriter)]%string) else clocksOf p !! name.
Proof.
  split.
  { rewrite stamped, <- readClocks_null. destruct (changedFields p data); [by split; [|intros []]|].
    destruct (readClocks _); split; (done || by intros []). }
  intros q Hq. pose proof Hq as Hs. rewrite stamped in Hs. destruct (stamped_rest _ _ _ _ Hq) as [Hrest Hother]. split_and!; [done..| | |].
  - destruct (changedFields p data); [|done]. intros _. injection Hs as <-. cbn. apply versioned_other. set_solver.
  - destruct (changedFields p data); [|destruct (readClocks _); [|done]]; injection Hs as <-; apply versioned_set.
  - exists (nextClock (clocksOf p)). split_and!; [unfold nextClock; lia| | |].
    + intros Hlt. destruct (nextClock_past _ Hlt) as [[H1 _] Hpast]. done.
    + intros (name & raw & Hraw & Hv). by eapply nextClock_wraps.
    + intros name Hch. destruct (changedFields p data) as [|n ns]; [done|].
      destruct (readClocks (Others p !! fieldClocksMember)) as [clocks|] eqn:Hr; [|done].
      assert (clocksOf p = clocks) as -> by (unfold clocksOf; by rewrite Hr). injection Hs as <-.
      unfold clocksOf. cbn -[versioned foldr]. rewrite versioned_other, lookup_insert_eq by set_solver.
      cbn -[foldr]. rewrite list_to_map_to_list. exact (ticks_lookup _ _ (n :: ns) _).
Qed.
End Clocks.


(** ** What a client may set *)

Definition chosen (choices : list string) (o : option string) : Prop :=
  match o with Some v => contains choices v = true | None => True end.
(** A profile a client may set. *)
Record valid (p : Profile) : Prop := {
  valid_theme : chosen themeModes (ThemeMode p);
  valid_font : chosen chatFonts (ChatFont p);
  valid_effort : chosen ReasoningEfforts (ReasoningEffort p);
  valid_intelligence : chosen intelligenceIDs (AutoIntelligence p);
  valid_traits : length (default [] (Traits p)) ≤ maxProfileList;
  valid_favorites : length (favorites p) ≤ maxProfileList;
  valid_presets : length (presets p) ≤ maxProfileList;
  valid_named : existsb unnamedPreset (presets p) = false;
}.
(** A step that lets pass what [P] holds of, and refuses anything else; what
    it lets pass it does not change, and a refusal is not forgotten. *)
Definition checks (f : option Api.Error * Profile → option Api.Error * Profile) (P : Profile → Prop) : Prop :=
  ∀ s, (P s.2 → f s = s) ∧ ((f s).1 = None → P s.2 ∧ f s = s).
Lemma refuse_some first message : refuse first message ≠ None.
Proof. by destruct first. Qed.
Lemma dropChoice_checks name choices get clear : checks (dropChoice name choices get clear) (λ p, chosen choices (get p)).
Proof.
  intros s. unfold dropChoice, chosen. destruct (get s.2) as [v|]; [|done].
  destruct (contains choices v); [done|]. split; [done|]. by intros ?%refuse_some.
Qed.
Lemma dropLong_checks {A} name (get : Profile → option (list A)) clear :
  checks (dropLong name get clear) (λ p, length (default [] (get p)) ≤ maxProfileList).
Proof. intros s. unfold dropLong. case_bool_decide as Hl; (split; [try lia|]); [by intros ?%refuse_some|done|split; [lia|done]]. Qed.
Lemma dropUnnamed_checks : checks dropUnnamed (λ p, existsb unnamedPreset (presets p) = false).
Proof.
  intros s. unfold dropUnnamed. cbv zeta. change (default [] _) with (presets s.2).
  destruct (existsb unnamedPreset (presets s.2)); [|done]. split; [done|]. by intros ?%refuse_some.
Qed.
Lemma checks_then f g P Q : checks f P → checks g Q → checks (λ s, g (f s)) (λ p, P p ∧ Q p).
Proof.
  intros Hf Hg s. destruct (Hf s) as [Hf1 Hf2], (Hg (f s)) as [Hg1 Hg2]. split.
  - intros [Hp Hq]. rewrite Hf1 in * by done. auto.
  - intros Hn. destruct (Hg2 Hn) as [Hq He]. rewrite He in Hn. destruct (Hf2 Hn) as [Hp Hs]. rewrite He, Hs in *. auto.
Qed.
Lemma dropInvalid_checks p : (valid p → dropInvalid p = (None, p)) ∧ ((dropInvalid p).1 = None → valid p).
Proof.
  pose proof (dropChoice_checks "themeMode" themeModes ThemeMode (λ p, p <| ThemeMode := None |>)) as H.
  pose proof (checks_then _ _ _ _ H (dropChoice_checks "chatFont" chatFonts ChatFont (λ p, p <| ChatFont := None |>))) as H1.
  pose proof (checks_then _ _ _ _ H1 (dropChoice_checks "reasoningEffort" ReasoningEfforts ReasoningEffort
    (λ p, p <| ReasoningEffort := None |>))) as H2.
  pose proof (checks_then _ _ _ _ H2 (dropChoice_checks "autoIntelligence" intelligenceIDs AutoIntelligence
    (λ p, p <| AutoIntelligence := None |>))) as H3.
  pose proof (checks_then _ _ _ _ H3 (dropLong_checks "traits" Traits (λ p, p <| Traits := None |>))) as H4.
  pose proof (checks_then _ _ _ _ H4 (dropLong_checks "favoritePromptPresetIds" FavoritePromptPresetIDs
    (λ p, p <| FavoritePromptPresetIDs := None |>))) as H5.
  pose proof (checks_then _ _ _ _ H5 (dropLong_checks "customPromptPresets" CustomPromptPresets
    (λ p, p <| CustomPromptPresets := None |>))) as H6.
  destruct (checks_then _ _ _ _ H6 dropUnnamed_checks (None, p)) as [Hok Hbad]. clear H H1 H2 H3 H4 H5 H6.
  cbv beta in Hok, Hbad. unfold dropInvalid. split.
  - intros [H7 H8 H9 H10 H11 H12 H13 H14].
    exact (Hok (conj (conj (conj (conj (conj (conj (conj H7 H8) H9) H10) H11) H12) H13) H14)).
  - intros Hn. destruct (Hbad Hn) as [[[[[[[[H7 H8] H9] H10] H11] H12] H13] H14] _].
    exact (Build_valid _ H7 H8 H9 H10 H11 H12 H13 H14).
Qed.
Lemma Validate_valid p : Validate p = Ok tt ↔ valid p.
Proof.
  destruct (dropInvalid_checks p) as [H1 H2]. unfold Validate. split.
  - destruct (dropInvalid p).1; [done|]. auto.
  - intros Hv. by rewrite H1.
Qed.

(** What is left of each field. *)
Definition keepChoice (choices : list string) (o : option string) : option string :=
  match o with Some v => if contains choices v then o else None | None => None end.
Definition keepShort {A} (o : option (list A)) : option (list A) :=
  if bool_decide (maxProfileList < length (default [] o)) then None else o.
Definition keepNamed (o : option (list CustomPreset)) : option (list CustomPreset) :=
  if existsb unnamedPreset (default [] o) then Some (List.filter (λ p, negb (unnamedPreset p)) (default [] o)) else o.
Lemma keepChoice_chosen choices o : chosen choices (keepChoice choices o).
Proof. destruct o as [v|]; [|done]. cbn. by destruct (contains choices v) eqn:Hc. Qed.
Lemma keepShort_short {A} (o : option (list A)) : length (default [] (keepShort o)) ≤ maxProfileList.
Proof. unfold keepShort. case_bool_decide; [cbn; lia|lia]. Qed.
Lemma keepNamed_named o : existsb unnamedPreset (default [] (keepNamed o)) = false ∧ length (default [] (keepNamed o)) ≤ length (default [] o).
Proof.
  unfold keepNamed. destruct (existsb unnamedPreset (default [] o)) eqn:He; [|done]. cbn. split; [|apply List.filter_length_le].
  apply not_true_iff_false. intros (x & [_ Hx]%List.filter_In & Hu)%existsb_exists. by rewrite Hu in Hx.
Qed.
Ltac by_field := intros [first []]; unfold dropChoice, dropLong, dropUnnamed, keepChoice, keepShort, keepNamed; cbn -[maxProfileList existsb];
  repeat case_match; done.
Lemma dropInvalid_form p : (dropInvalid p).2 =
  p <| ThemeMode ::= keepChoice themeModes |> <| ChatFont ::= keepChoice chatFonts |>
    <| ReasoningEffort ::= keepChoice ReasoningEfforts |> <| AutoIntelligence ::= keepChoice intelligenceIDs |>
    <| Traits ::= keepShort |> <| FavoritePromptPresetIDs ::= keepShort |>
    <| CustomPromptPresets ::= λ o, keepNamed (keepShort o) |>.
Proof.
  assert (H1 : ∀ s, (dropChoice "themeMode" themeModes ThemeMode (λ p, p <| ThemeMode := None |>) s).2 =
    s.2 <| ThemeMode ::= keepChoice themeModes |>) by by_field.
  assert (H2 : ∀ s, (dropChoice "chatFont" chatFonts ChatFont (λ p, p <| ChatFont := None |>) s).2 =
    s.2 <| ChatFont ::= keepChoice chatFonts |>) by by_field.
  assert (H3 : ∀ s, (dropChoice "reasoningEffort" ReasoningEfforts ReasoningEffort (λ p, p <| ReasoningEffort := None |>) s).2 =
    s.2 <| ReasoningEffort ::= keepChoice ReasoningEfforts |>) by by_field.
  assert (H4 : ∀ s, (dropChoice "autoIntelligence" intelligenceIDs AutoIntelligence (λ p, p <| AutoIntelligence := None |>) s).2 =
    s.2 <| AutoIntelligence ::= keepChoice intelligenceIDs |>) by by_field.
  assert (H5 : ∀ s, (dropLong "traits" Traits (λ p, p <| Traits := None |>) s).2 = s.2 <| Traits ::= keepShort |>) by by_field.
  assert (H6 : ∀ s, (dropLong "favoritePromptPresetIds" FavoritePromptPresetIDs (λ p, p <| FavoritePromptPresetIDs := None |>) s).2 =
    s.2 <| FavoritePromptPresetIDs ::= keepShort |>) by by_field.
  assert (H7 : ∀ s, (dropLong "customPromptPresets" CustomPromptPresets (λ p, p <| CustomPromptPresets := None |>) s).2 =
    s.2 <| CustomPromptPresets ::= keepShort |>) by by_field.
  assert (H8 : ∀ s, (dropUnnamed s).2 = s.2 <| CustomPromptPresets ::= keepNamed |>) by by_field.
  unfold dropInvalid. by rewrite H8, H7, H6, H5, H4, H3, H2, H1.
Qed.

(** What a client may set is what [Validate] passes; a device's settings
    are never refused: each value it may not set, and each unnamed prompt, is
    left out, everything else is kept, and what is left it may set. *)
Theorem settings_cleaned p :
  (Validate p = Ok tt ↔ valid p) ∧ valid (dropInvalid p).2 ∧ (valid p → dropInvalid p = (None, p)) ∧
  (dropInvalid p).2 =
    p <| ThemeMode ::= keepChoice themeModes |> <| ChatFont ::= keepChoice chatFonts |>
      <| ReasoningEffort ::= keepChoice ReasoningEfforts |> <| AutoIntelligence ::= keepChoice intelligenceIDs |>
      <| Traits ::= keepShort |> <| FavoritePromptPresetIDs ::= keepShort |>
      <| CustomPromptPresets ::= λ o, keepNamed (keepShort o) |>.
Proof.
  split_and!; [apply Validate_valid| |apply dropInvalid_checks|apply dropInvalid_form]. rewrite dropInvalid_form.
  constructor; try apply keepChoice_chosen; try apply keepShort_short.
  - pose proof (keepNamed_named (keepShort (CustomPromptPresets p))) as [_ H]. pose proof (keepShort_short (CustomPromptPresets p)).
    unfold presets; cbn -[maxProfileList]. lia.
  - apply keepNamed_named.
Qed.

(** ** Concrete inputs *)

Definition poem : CustomPreset := mkPreset "p" "Poem" None (Some "Rhyme."%string) None None None None.
Definition essay : CustomPreset := mkPreset "q" "Essay" None (Some "Argue."%string) None (Some true) None None.
Lemma edits_exact_witness : ∃ q1 q2 q12 q21,
  let p := noProfile <| CustomPromptPresets := Some [poem] |> in
  let e1 := mkEdits [essay] [] [] ["q"%string] [] in
  let e2 := mkEdits [] [mkUpdate "p" (Some "Ode"%string) None None (mkNullable false false None) (mkNullable false false None) None]
              [] [] ["p"%string] in
  ApplyPromptEdits p e1 = Ok q1 ∧ ApplyPromptEdits q1 e2 = Ok q12 ∧ ApplyPromptEdits p e2 = Ok q2 ∧ ApplyPromptEdits q2 e1 = Ok q21 ∧
  ∀ id, Preset q12 id = Preset q21 id.
Proof.
  eexists _, _, _, _. cbv zeta. split; [reflexivity|]. split; [reflexivity|]. split; [reflexivity|]. split; [reflexivity|].
  refine (proj1 (proj2 (edits_exact (noProfile <| CustomPromptPresets := Some [poem] |>) (mkEdits [essay] [] [] ["q"%string] [])
    (mkEdits [] [mkUpdate "p" (Some "Ode"%string) None None (mkNullable false false None) (mkNullable false false None) None]
       [] [] ["p"%string]) _ _ _ _ eq_refl eq_refl eq_refl eq_refl) _)).
  intros id Hid. apply (bool_decide_unpack _). revert Hid.
  intros [->|[->|H]%elem_of_cons]%elem_of_cons; [vm_compute; exact I..|]. by apply not_elem_of_nil in H.
Defined.
(** A prompt of the device's whose id the store has for another. *)
Definition rivalEssay : CustomPreset := essay <| ID := "p"%string |>.
Lemma merge_keeps_witness :
  let r := noProfile <| CustomPromptPresets := Some [poem] |> in
  let l := noProfile <| CustomPromptPresets := Some [rivalEssay] |> <| FavoritePromptPresetIDs := Some ["p"%string] |> in
  let q := MergeDeviceProfile (λ _, []) (λ _, "sha"%string) r l [] in
  held (λ _, []) (λ _, "sha"%string) r l (presets q) rivalEssay ∧
  presets q = [poem; rivalEssay <| ID := "user:sha"%string |> <| Name := "Essay (from this device)"%string |>] ∧
  favorites q = ["user:sha"%string].
Proof.
  split; [|split; vm_compute; reflexivity].
  apply (merge_keeps (λ _, []) (λ _, "sha"%string) (noProfile <| CustomPromptPresets := Some [poem] |>)
    (noProfile <| CustomPromptPresets := Some [rivalEssay] |> <| FavoritePromptPresetIDs := Some ["p"%string] |>) []). left.
Defined.
Lemma clocks_advance_witness :
  let row clocks := newProfile <| profile := noProfile <| ThemeMode := Some "dark"%string |> |>
                      <| Others := {[ fieldClocksMember := clocks ]} |> in
  let read := λ _ : bytes, Some (Api.AObj []) in
  stampEdits read Atoi (row Api.ANull) [] 5 = None ∧
  ∃ q, stampEdits read Atoi (row (Api.AObj [("language", Api.AObj [("v", Api.ANum "7")])]))%string [] 5 = Some q ∧
    (∃ v, (7 < v)%Z ∧ clocksOf q !! "themeMode"%string = Some (Api.AObj [("v", Api.ANum (pretty v)); ("w", Api.AStr clockWriter)]%string)) ∧
    clocksOf q !! "language"%string = Some (Api.AObj [("v", Api.ANum "7")]%string).
Proof.
  cbv zeta. set (read := λ _ : bytes, Some (Api.AObj [])).
  assert (Hint : ∀ lit v, Atoi lit = Some v → Quota.is_int v).
  { intros lit v. unfold Atoi. destruct (match bytes_of lit with [] => _ | _ => _ end) as [sign ds]. destruct (_ || _); [done|].
    case_bool_decide; [|done]. by intros [= <-]. }
  split; [apply (clocks_advance read Atoi Hint); split; [by vm_compute|reflexivity]|].
  set (p := newProfile <| profile := _ |> <| Others := _ |>). destruct (clocks_advance read Atoi Hint p [] 5) as [Hnone H].
  destruct (stampEdits read Atoi p [] 5) as [q|]; [|by destruct (proj1 Hnone eq_refl)]. exists q. split; [done|].
  specialize (H _ eq_refl) as (_ & _ & _ & _ & v & Hle & Hpast & _ & Hset). clear Hnone.
  assert (Hch : changedFields read p [] = ["themeMode"%string]) by (vm_compute; reflexivity).
  assert (Hlang : clocksOf p !! "language"%string = Some (Api.AObj [("v", Api.ANum "7")]%string)) by reflexivity.
  split.
  - exists v. split.
    + destruct Hpast as [_ Hpast].
      * intros name raw n Hraw Hn. apply elem_of_map_to_list in Hraw. vm_compute in Hraw.
        apply elem_of_cons in Hraw as [[= -> ->]|Hraw]; [vm_compute in Hn; injection Hn as <-; done|by apply not_elem_of_nil in Hraw].
      * destruct (Hpast "language"%string _ 7%Z Hlang eq_refl) as [|Hv]; [done|]. by rewrite Hv.
    + by rewrite Hset, Hch by by rewrite Hch.
  - by rewrite Hset, Hch by by rewrite Hch.
Defined.
End Profiles.
