(* ===== verification/ProfileRows.v ===== *)
(** * Stored profiles: the profile readers of internal/domain/legacy.go, the
    views of profile.go and catalog.go, and the edits of server/records.go and
    store/pins.go

    A profile row as it is read, whatever wrote it, as its client is shown it,
    and as each operation changes it. *)

From S2P Require Import Prelude GoStd Api Decode Quota Codec Aad Seal Controlplane Grants Rows Profiles.
From stdpp Require Import pretty.

Module ProfileRows.
Import GoStd Codec Decode Profiles.

(** ** Decoding *)

Definition dPreset (v : Api.any) : CustomPreset * bool :=
  let field name := Api.member v name in
  (mkPreset (dText (field "id")).1 (dText (field "name")).1 (dStr (field "description")).1 (dStr (field "systemPrompt")).1
     (dStr (field "model")).1 (dBool (field "webSearchEnabled")).1 (field "createdAt") (field "updatedAt"),
   match v with
   | Api.ANull => true
   | Api.AObj _ =>
       (dText (field "id")).2 && (dText (field "name")).2 && (dStr (field "description")).2 && (dStr (field "systemPrompt")).2 &&
       (dStr (field "model")).2 && (dBool (field "webSearchEnabled")).2
   | _ => false
   end)%string.
Definition dFlags (v : option Api.any) : option (list (string * bool)) * bool :=
  match v with
  | None | Some Api.ANull => (None, true)
  | Some (Api.AObj ms) =>
      (Some ((λ m : string * Api.any, (m.1, default false (dBool (Some m.2)).1)) <$> ms),
       forallb (λ m : string * Api.any, (dBool (Some m.2)).2) ms)
  | Some _ => (None, false)
  end.
Definition decodeProfile (v : Api.any) : Profile * bool :=
  let m := Api.member v in
  let str n := dStr (m n) in
  let flag n := dBool (m n) in
  let strs n := dStrs (m n) in
  let presets := dList dPreset (m "customPromptPresets") in
  let dismissed := dFlags (m "dismissed") in
  (mkProfile (str "themeMode").1 (str "chatFont").1 (str "language").1 (str "nickname").1 (str "profession").1 (strs "traits").1
     (str "additionalContext").1 (flag "isUsingPersonalization").1 (flag "isUsingCustomPrompt").1 (str "customSystemPrompt").1
     presets.1 (strs "favoritePromptPresetIds").1 (str "defaultPromptPresetId").1 (str "selectedModel").1
     (str "autoIntelligence").1 (str "reasoningEffort").1 (flag "thinkingEnabled").1 (flag "webSearchEnabled").1
     (flag "webSearchAvailable").1 (flag "piiCheckEnabled").1 (flag "genUIEnabled").1 (flag "pixelateSidebarChatTitlesEnabled").1
     (flag "browserTabChatTitleEnabled").1 (flag "enterToNewlineEnabled").1 (flag "hasSeenOnboarding").1
     (flag "hasSeenWebSearchIntro").1 dismissed.1,
   forallb (λ n, (str n).2)
     ["themeMode"; "chatFont"; "language"; "nickname"; "profession"; "additionalContext"; "customSystemPrompt";
      "defaultPromptPresetId"; "selectedModel"; "autoIntelligence"; "reasoningEffort"] &&
   forallb (λ n, (flag n).2)
     ["isUsingPersonalization"; "isUsingCustomPrompt"; "thinkingEnabled"; "webSearchEnabled"; "webSearchAvailable";
      "piiCheckEnabled"; "genUIEnabled"; "pixelateSidebarChatTitlesEnabled"; "browserTabChatTitleEnabled";
      "enterToNewlineEnabled"; "hasSeenOnboarding"; "hasSeenWebSearchIntro"] &&
   forallb (λ n, (strs n).2) ["traits"; "favoritePromptPresetIds"] && presets.2 && dismissed.2)%string.
Definition decodeStored (v : Api.any) (others : gmap string Api.any) : StoredProfile * bool :=
  let '(profile, ok) := decodeProfile v in
  let updated := dText (Api.member v "updatedAt") in
  let version := dInt (Api.member v "recordVersion") in
  let pins := dStrs (Api.member v "pinnedChatIds") in
  (mkStored profile updated.1 version.1 pins.1 others, ok && updated.2 && version.2 && pins.2).

Definition readVersions : list Z := [1; 2]%Z.
Definition errRecordUnsupported : Api.Error :=
  Api.Err_ 409 "RECORD_UNSUPPORTED" "The record is in a format this harness cannot read".
(** [currentFormat] of a record's text. *)
Definition currentFormat (v : option Api.any) : result Api.Error bool :=
  match v with
  | Some (Api.AObj _ as v) =>
      let '(version, ok) := dInt (Api.member v "recordVersion") in
      if negb ok || negb (bool_decide (version = 0)%Z) && negb (existsb (Z.eqb version) readVersions) then Err errRecordUnsupported
      else Ok (negb (bool_decide (version = 0)%Z))
  | Some Api.ANull => Ok false
  | _ => Err errRecordUnsupported
  end.
Definition otherMembers (v : Api.any) : gmap string Api.any :=
  match v with
  | Api.AObj ms => list_to_map (List.filter (λ m, negb (contains storedProfileFields m.1)) ms)
  | _ => ∅
  end.

(** ** Settings of old clients *)

Definition legacyAutoModels : list string := ["auto-smart"; "auto-fast"]%string.
Definition normalizeModel (name : string) : string :=
  if String.eqb name "" || contains legacyAutoModels name then AutoModelName else name.
Definition presetModel (name : string) : string := if contains legacyAutoModels name then AutoModelName else name.
Definition MigratedPromptPresetID : string := "user:migrated-custom-prompt".

(** [systemTags.ReplaceAllString]: the tag at the front with the space after
    it, and the one that ends the text with the line's end before it. *)
Definition blank (c : ascii) : bool := bool_decide (byte_of c = 32 ∨ 9 ≤ byte_of c ≤ 10 ∨ 12 ≤ byte_of c ≤ 13)%Z.
Fixpoint dropBlank (l : list ascii) : list ascii :=
  match l with c :: l' => if blank c then dropBlank l' else l | [] => [] end.
Definition afterPrefix (p l : list ascii) : option (list ascii) :=
  if bool_decide (take (length p) l = p) then Some (drop (length p) l) else None.
Definition withoutSystemTags (s : string) : string :=
  let l := bytes_of s in
  let l := match afterPrefix (bytes_of "<system>") l with Some l => dropBlank l | None => l end in
  string_of
    match afterPrefix (rev (bytes_of "</system>")) (dropBlank (rev l)) with
    | Some r => rev match r with "010"%char :: r => r | r => r end
    | None => l
    end.
Example tags_stripped : withoutSystemTags "<system> hi</system> " = "hi"%string ∧ withoutSystemTags "a<system>" = "a<system>"%string.
Proof. done. Qed.

Definition migratedPreset (prompt : string) (now : Z) : CustomPreset :=
  let date := Some (Api.ANum (pretty (UnixMilli now))) in
  mkPreset MigratedPromptPresetID "My default prompt" (Some "Migrated from the custom default prompt setting"%string)
    (Some prompt) None None date date.
Definition upgradeProfile (p : Profile) (now : Z) : Profile :=
  let p := p <| SelectedModel ::= fmap (M := option) normalizeModel |>
             <| CustomPromptPresets ::= fmap (M := option) (fmap (M := list) (λ q, q <| Model ::= fmap (M := option) normalizeModel |>)) |> in
  if negb (default false (IsUsingCustomPrompt p)) then p
  else
    let prompt := default ""%string (CustomSystemPrompt p) in
    let p := p <| IsUsingCustomPrompt := Some false |> <| CustomSystemPrompt := Some ""%string |> in
    if String.eqb (TrimSpace (withoutSystemTags prompt)) "" || negb (String.eqb (default "" (DefaultPromptPresetID p)) "") then p
    else
      let p := match Preset p MigratedPromptPresetID with
               | Some _ => p
               | None => p <| CustomPromptPresets := Some (default [] (CustomPromptPresets p) ++ [migratedPreset prompt now]) |>
               end in
      p <| DefaultPromptPresetID := Some MigratedPromptPresetID |>.
Definition undatedProfile : Z := 0.

Section Text.
Context (Raw : Api.any → bytes) (Unmarshal : bytes → option Api.any) (NewSHA1 : bytes → string).
Context (Truncated : string → option Z).
Context (Format : Z → string) (ParseTime : string → option Z).

(** [v > 0] of the number a literal is. *)
Definition positiveLit (lit : string) : bool :=
  negb (String.prefix "-" lit) &&
  (fix mantissa (l : list ascii) := match l with
                                    | [] => false
                                    | c :: l => negb (Ascii.eqb c "e" || Ascii.eqb c "E") &&
                                                (bool_decide (49 ≤ byte_of c ≤ 57)%Z || mantissa l)
                                    end) (bytes_of lit).
Definition ISOTime (v : Api.any) : string :=
  match v with
  | Api.AStr s => match ParseTime s with Some t => Format t | None => s end
  | Api.ANum lit => match Truncated lit with
                    | Some n => if positiveLit lit then Format (n * 1000000)%Z else ""
                    | None => ""
                    end
  | _ => ""
  end.

Definition ReadProfile (data : bytes) : result Api.Error StoredProfile :=
  current ← currentFormat (Unmarshal data);
  let v := default Api.ANull (Unmarshal data) in
  if current : bool
  then let '(p, ok) := decodeStored v (otherMembers v) in
       if ok : bool then Ok p else Err errRecordUnsupported
  else
    let p := (decodeStored v (otherMembers v)).1 <| UpdatedAt := match Api.member v "updatedAt" with Some u => ISOTime u | None => "" end |> in
    Ok (p <| profile ::= λ q, upgradeProfile q (default undatedProfile (ParseTime (UpdatedAt p))) |>).
(** [LocalProfile] of a request's text, at a time. *)
Definition LocalProfile (data : bytes) (now : Z) : Profile :=
  (dropInvalid (upgradeProfile (decodeProfile (default Api.ANull (Unmarshal data))).1 now)).2.

(** ** What a client is shown *)

Record Catalog := mkCatalog { Models : list Api.any; Listed : list string }.
Definition ModelDefinition (c : Catalog) (name : string) : option Api.any :=
  List.find (λ m, String.eqb (Api.Str (Api.member m "modelName")) name) (Models c).
Definition Offers (c : Catalog) (name : string) : bool :=
  String.eqb name AutoModelName ||
  match ModelDefinition c name with Some m => Api.Bool (Api.member m "paid") true | None => false end.
Definition retired (c : Catalog) (name : string) : bool :=
  negb (String.eqb name AutoModelName) && match ModelDefinition c name with Some _ => false | None => true end &&
  negb (contains (Listed c) name).
Definition CatalogSelectedModel (c : Catalog) (p : Profile) : string :=
  let model := default "" (SelectedModel p) in if Offers c model then model else AutoModelName.
Definition offeredModel (c : Catalog) (model : string) : option string :=
  let name := presetModel model in if retired c name then None else Some name.
Definition EffectiveProfile (c : Catalog) (p : Profile) : Profile :=
  let p := p <| CustomPromptPresets ::=
                fmap (M := option) (fmap (M := list) (λ q, q <| Model ::= λ m, m ≫= offeredModel c |>)) |> in
  withDefaults (p <| SelectedModel := Some (CatalogSelectedModel c p) |>).

(** ** Changes *)

Definition errProfileUnchanged : Rows.err := Rows.ENew "profile unchanged".
Definition errNilMap : Rows.err := Rows.ENew "assignment to entry in nil map".
Definition ofApi {A} (r : result Api.Error A) : result Rows.err A :=
  match r with Ok a => Ok a | Err e => Err (Rows.EApi (Rows.api (Status (Api.error e)) (Code (Api.error e)) (Message (Api.error e)))) end.
Definition nextRevision (row : Grants.StoredRow) (exists_ : bool) : Z :=
  if exists_ then match Atoi (Grants.ETag row) with Some n => (n + 1)%Z | None => 0%Z end else 1%Z.
(** The edit [MutateProfile] commits, at a time; a panic is the error
    [errNilMap], which no caller sees. *)
Definition profileEdit (change : StoredProfile → result Rows.err StoredProfile) (now : Z)
    (row : Grants.StoredRow) (exists_ : bool) : result Rows.err Grants.StoredRow :=
  p ← (if exists_ then ofApi (ReadProfile (Grants.Data row)) else Ok newProfile);
  q ← change p;
  if bool_decide (Raw (MarshalJSON p) = Raw (MarshalJSON q)) then Err errProfileUnchanged
  else
    match PrepareWrite Unmarshal Truncated Format q (Grants.Data row) (nextRevision row exists_) now with
    | None => Err errNilMap
    | Some w => Ok (row <| Grants.Data := Raw (MarshalJSON w) |>)
    end.

(** The changes: of a request to update the profile, of one to merge a
    device's, and of a chat's pin. *)
Definition updateChange (patch : Profile) (clearsDefault : bool) (e : PromptEdits) (p : StoredProfile)
    : result Rows.err StoredProfile :=
  let q := Apply (profile p) patch in
  let q := if clearsDefault then q <| DefaultPromptPresetID := None |> else q in
  q ← ofApi (ApplyPromptEdits q e); Ok (p <| profile := q |>).
Definition mergeChange (local : Profile) (changed : list string) (p : StoredProfile) : result Rows.err StoredProfile :=
  let q := MergeDeviceProfile Raw NewSHA1 (profile p) local changed in
  _ ← ofApi (Validate q); Ok (p <| profile := q |>).
Definition pinChange (id : string) (pinned : bool) (p : StoredProfile) : result Rows.err StoredProfile :=
  let pins := fmap (M := option) (List.filter (λ pin, negb (String.eqb pin id))) (PinnedChatIDs p) in
  Ok (p <| PinnedChatIDs := if pinned then Some (default [] pins ++ [id]) else pins |>).

Section Store.
Context `{CR : Seal.Crypto} `{JS : Seal.Json} `{MC : Aad.Mac}.
Context (rewrapChatAttachments : Rows.Principal → string → bytes → Controlplane.prog (result Rows.err (option bytes))).

Definition LoadProfile (p : Rows.Principal) (key : bytes) : Controlplane.prog (result Rows.err (option StoredProfile)) :=
  loaded ← Rows.Load ParseTime rewrapChatAttachments p key "profile" "profile";
  Controlplane.Ret match loaded with
      | Err e => if bool_decide (Rows.HTTP (Rows.AsError e) = 404)%Z then Ok None else Err e
      | Ok row => Some <$> ofApi (ReadProfile (Grants.Data row))
      end.
(** The clock is read before the first attempt and not at each, and the
    profile as it was last changed is left out of what it returns. *)
Definition MutateProfile (p : Rows.Principal) (key : bytes) (change : StoredProfile → result Rows.err StoredProfile)
    : Controlplane.prog (result Rows.err unit) :=
  at_ ← Controlplane.now;
  r ← Rows.CommitRow ParseTime rewrapChatAttachments p key "profile" "profile" true (profileEdit change at_);
  match r with
  | Err (Rows.ENew text) =>
      if String.eqb text "profile unchanged" then Controlplane.Ret (Ok tt)
      else if String.eqb text "assignment to entry in nil map" then Controlplane.Panic else Controlplane.Ret r
  | _ => Controlplane.Ret r
  end.
Definition SetPin (p : Rows.Principal) (key : bytes) (id : string) (pinned : bool) : Controlplane.prog (result Rows.err unit) :=
  MutateProfile p key (pinChange id pinned).
Definition PinnedIDs (p : Rows.Principal) (key : bytes) : Controlplane.prog (result Rows.err (list string)) :=
  r ← LoadProfile p key;
  Controlplane.Ret (o ← r; Ok match o with Some q => default [] (PinnedChatIDs q) | None => [] end).
End Store.
End Text.

(** ** A row written is read back *)

#[local] Arguments contains : simpl never.
#[local] Arguments storedProfileFields : simpl never.

Definition fieldOf (ms : list (string * option Api.any)) (n : string) : option Api.any :=
  match List.find (λ m, String.eqb m.1 n) ms with Some m => m.2 | None => None end.
Lemma member_none rest n : n ∉ rest.*1 → Api.member (Api.AObj rest) n = None.
Proof.
  intros Hn. cbn. destruct (List.find _ rest) as [[x v]|] eqn:Hf; [|done]. apply List.find_some in Hf as [Hin Hx]. cbn in Hx.
  apply String.eqb_eq in Hx as ->. destruct Hn. apply list_elem_of_fmap. exists (n, v). split; [done|]. by apply list_elem_of_In.
Qed.
Lemma object_names ms n : n ∈ (object ms).*1 → n ∈ ms.*1.
Proof.
  intros ([x v] & -> & ([y o] & Hm & Ho)%list_elem_of_omap)%list_elem_of_fmap. cbn in *.
  destruct o as [w|]; [|done]. injection Ho as -> ->. apply list_elem_of_fmap. by exists (x, Some v).
Qed.
Lemma member_object ms rest n : NoDup ms.*1 → n ∉ rest.*1 → Api.member (Api.AObj (object ms ++ rest)) n = fieldOf ms n.
Proof.
  intros Hnd Hrest. induction ms as [|[x o] ms IH]; [by apply member_none|]. apply NoDup_cons in Hnd as [Hx Hnd]. specialize (IH Hnd).
  unfold fieldOf. cbn [List.find fst]. destruct (String.eqb_spec x n) as [->|Hne].
  - destruct o as [v|]; cbn [snd]; [cbn; by rewrite String.eqb_refl|]. apply member_none. rewrite fmap_app, not_elem_of_app.
    split; [|done]. intros H. by apply Hx, object_names.
  - destruct o as [v|]; [|exact IH]. cbn. rewrite (proj2 (String.eqb_neq _ _) Hne). exact IH.
Qed.

Lemma named_nodup p : NoDup (namedMembers p).*1.
Proof. change (namedMembers p).*1 with storedProfileFields. apply (bool_decide_unpack _). vm_compute. exact I. Qed.
(** The members a row is read with besides its named ones are unnamed. *)
Definition unnamed (others : gmap string Api.any) : Prop := ∀ n, is_Some (others !! n) → contains storedProfileFields n = false.
Definition restOf (p : StoredProfile) : list (string * Api.any) :=
  List.filter (λ m, negb (contains storedProfileFields m.1)) (map_to_list (Others p)).
Lemma marshal_member p n : contains storedProfileFields n = true → Api.member (MarshalJSON p) n = fieldOf (namedMembers p) n.
Proof.
  intros Hn. apply member_object; [apply named_nodup|]. intros ([x v] & -> & Hin%list_elem_of_In)%list_elem_of_fmap.
  apply List.filter_In in Hin as [_ Hx]. cbn in *. by rewrite Hn in Hx.
Qed.
Lemma marshal_others p : unnamed (Others p) → otherMembers (MarshalJSON p) = Others p.
Proof.
  intros Hu. unfold otherMembers, MarshalJSON. rewrite List.filter_app, (filter_none _ (object _)); cbn [app].
  - assert (Hall : ∀ m, m ∈ map_to_list (Others p) → negb (contains storedProfileFields m.1) = true).
    { intros [n v] Hm%elem_of_map_to_list. cbn. rewrite Hu; [done|by eexists]. }
    rewrite !(filter_all _ (map_to_list _)) by done. apply list_to_map_to_list.
  - intros [n v] Hm. cbn. apply negb_false_iff, contains_spec. change storedProfileFields with (namedMembers p).*1.
    apply object_names, list_elem_of_fmap. by exists (n, v).
Qed.

Lemma dStr_enc o : dStr (Api.AStr <$> o) = (o, true).
Proof. by destruct o. Qed.
Lemma dBool_enc o : dBool (Api.ABool <$> o) = (o, true).
Proof. by destruct o. Qed.
Lemma dList_enc {A} (enc : A → Api.any) item l : (∀ x, item (enc x) = (x, true)) → dList item (Some (Api.AArr (enc <$> l))) = (Some l, true).
Proof.
  intros Hi. cbn. assert (item <$> (enc <$> l) = (λ x, (x, true)) <$> l) as ->.
  { rewrite <- list_fmap_compose. apply list_fmap_ext. intros i x _. apply Hi. }
  f_equal; [f_equal|]; induction l as [|x l IH]; cbn; try done. by f_equal.
Qed.
Lemma dStrs_enc o : dStrs (strings <$> o) = (o, true).
Proof. destruct o as [l|]; [|done]. by apply (dList_enc Api.AStr). Qed.
Lemma dPreset_enc p : dPreset (presetObject p) = (p, true).
Proof.
  destruct p as [id name desc sys model web created upd]. unfold presetObject. cbn [ID Name Description SystemPrompt Model PresetWebSearch CreatedAt PresetUpdatedAt].
  set (ms := [_; _; _; _; _; _; _; _]). unfold dPreset.
  assert (Hm : ∀ n, Api.member (Api.AObj (object ms)) n = fieldOf ms n).
  { intros n. rewrite <- (app_nil_r (object ms)). apply member_object; [|by apply not_elem_of_nil]. apply (bool_decide_unpack _). vm_compute. exact I. }
  rewrite !Hm. unfold ms, fieldOf; cbn. by rewrite !dStr_enc, dBool_enc.
Qed.
Lemma dFlags_enc o : dFlags ((λ l, Api.AObj ((λ m : string * bool, (m.1, Api.ABool m.2)) <$> l)) <$> o) = (o, true).
Proof.
  destruct o as [l|]; [|done]. cbn. f_equal; [f_equal|]; induction l as [|[n b] l IH]; cbn; try done. by f_equal.
Qed.
Lemma dPresets_enc o : dList dPreset ((λ l, Api.AArr (presetObject <$> l)) <$> o) = (o, true).
Proof. destruct o as [l|]; [|done]. apply dList_enc, dPreset_enc. Qed.
Lemma dText_enc s : dText (if String.eqb s "" then None else Some (Api.AStr s)) = (s, true).
Proof. by destruct (String.eqb_spec s "") as [->|]. Qed.
Lemma dVersion_enc z : z ∈ readVersions → dInt (if bool_decide (z = 0)%Z then None else Some (Api.ANum (pretty z))) = (z, true).
Proof. intros Hz. unfold readVersions in Hz. by repeat (apply elem_of_cons in Hz as [->|Hz]; [done|]); apply not_elem_of_nil in Hz. Qed.
Lemma decode_fields v p : (∀ n, contains storedProfileFields n = true → Api.member v n = fieldOf (namedMembers p) n) →
  RecordVersion p ∈ readVersions → decodeStored v (Others p) = (p, true).
Proof.
  intros Hm Hv. unfold decodeStored, decodeProfile. cbv zeta. cbn [forallb]. rewrite !Hm by reflexivity.
  unfold fieldOf. cbn [List.find namedMembers fst snd String.eqb Ascii.eqb Bool.eqb].
  rewrite !dStr_enc, !dBool_enc, !dStrs_enc, dFlags_enc, dPresets_enc, dText_enc, dVersion_enc by done. cbn.
  by destruct p as [[] ? ? ? ?].
Qed.
Lemma currentFormat_marshal p : RecordVersion p ∈ readVersions → currentFormat (Some (MarshalJSON p)) = Ok true.
Proof.
  intros Hv. unfold currentFormat. change (MarshalJSON p) with (Api.AObj (object (namedMembers p) ++ restOf p)) at 1.
  cbn beta iota. change (Api.AObj _) with (MarshalJSON p). rewrite marshal_member by reflexivity.
  unfold fieldOf. cbn [List.find namedMembers fst snd String.eqb Ascii.eqb Bool.eqb]. rewrite dVersion_enc by done.
  unfold readVersions in Hv. by repeat (apply elem_of_cons in Hv as [->|Hv]; [done|]); apply not_elem_of_nil in Hv.
Qed.

Section RoundTrip.
Context (Raw : Api.any → bytes) (Unmarshal : bytes → option Api.any) (NewSHA1 : bytes → string).
Context (Truncated : string → option Z) (Format : Z → string) (ParseTime : string → option Z).
Hypothesis parse_row : ∀ p, Unmarshal (Raw (MarshalJSON p)) = Some (MarshalJSON p).
#[local] Abbreviation ReadProfile := (ReadProfile Unmarshal Truncated Format ParseTime).
#[local] Abbreviation profileEdit := (profileEdit Raw Unmarshal Truncated Format ParseTime).

Lemma read_marshal p : unnamed (Others p) → RecordVersion p ∈ readVersions → ReadProfile (Raw (MarshalJSON p)) = Ok p.
Proof.
  intros Hu Hv. unfold ProfileRows.ReadProfile. rewrite parse_row, currentFormat_marshal by done. cbn [mbind result_bind default from_option].
  change (id (MarshalJSON p)) with (MarshalJSON p). rewrite marshal_others by done. rewrite (decode_fields _ p); [done|apply marshal_member|done].
Qed.
Lemma others_unnamed v : unnamed (otherMembers v).
Proof.
  intros n [x Hx]. unfold otherMembers in Hx. destruct v as [| | | | |ms]; try (by rewrite lookup_empty in Hx).
  apply elem_of_list_to_map_2, list_elem_of_In, List.filter_In in Hx as [_ Hx]. by apply negb_true_iff in Hx.
Qed.
Lemma decodeStored_others v o : Others (decodeStored v o).1 = o.
Proof. unfold decodeStored. by destruct (decodeProfile v). Qed.
Lemma read_unnamed data p : ReadProfile data = Ok p → unnamed (Others p).
Proof.
  unfold ProfileRows.ReadProfile. destruct (currentFormat _) as [c|]; [|done]. cbn [mbind result_bind].
  set (v := default _ _). pose proof (decodeStored_others v (otherMembers v)) as Ho. pose proof (others_unnamed v) as Hu.
  destruct c; [destruct (decodeStored _ _) as [q []]; [|done]|]; intros [= <-]; cbn -[decodeStored otherMembers] in *; by rewrite ?Ho.
Qed.

(** A row that was written is read back as what was written. *)
Lemma prepared_reads p data revision t w : unnamed (Others p) →
  PrepareWrite Unmarshal Truncated Format p data revision t = Some w → 
  ReadProfile (Raw (MarshalJSON w)) = Ok w ∧ profile w = completePresets t (profile p) ∧ PinnedChatIDs w = PinnedChatIDs p ∧
  UpdatedAt w = Format t ∧
  ∀ name, name ∉ [fieldClocksMember; clockVersionMember; versionMember] → Others w !! name = Others p !! name.
Proof.
  unfold PrepareWrite. set (q := _ <| RecordVersion := _ |>). intros Hu Hs.
  assert (Hq : w = q <| Others := Others w |> ∧
    ∀ name, name ∉ [fieldClocksMember; clockVersionMember; versionMember] → Others w !! name = Others q !! name) by by eapply stamped_rest.
  destruct Hq as [Hw Ho]. split; [|rewrite Hw; by split_and!].
  apply read_marshal.
  - intros n Hn. destruct (decide (n ∈ [fieldClocksMember; clockVersionMember; versionMember])) as [Hin|Hn'].
    + by repeat (apply elem_of_cons in Hin as [->|Hin]; [done|]); apply not_elem_of_nil in Hin.
    + apply Hu. by rewrite Ho in Hn.
  - rewrite Hw. right; left.
Qed.

Lemma edit_wrote change t row exists_ row' : profileEdit change t row exists_ = Ok row' →
  ∃ p q w, (if exists_ then ReadProfile (Grants.Data row) = Ok p else p = newProfile) ∧ change p = Ok q ∧
    PrepareWrite Unmarshal Truncated Format q (Grants.Data row) (nextRevision row exists_) t = Some w ∧
    row' = row <| Grants.Data := Raw (MarshalJSON w) |>.
Proof.
  unfold ProfileRows.profileEdit. intros H.
  assert (∃ p, (if exists_ then ofApi (ReadProfile (Grants.Data row)) else Ok newProfile) = Ok p ∧
    (if exists_ then ReadProfile (Grants.Data row) = Ok p else p = newProfile)) as (p & Hp & Hread).
  { destruct exists_; [|by eexists]. destruct (ReadProfile (Grants.Data row)) as [p|]; [by exists p|done]. }
  rewrite Hp in H. cbn [mbind result_bind] in H. destruct (change p) as [q|] eqn:Hq; [|done]. cbn [mbind result_bind] in H.
  case_bool_decide; [done|]. destruct (PrepareWrite _ _ _ _ _ _ _) as [w|] eqn:Hw; [|done]. injection H as <-. by exists p, q, w.
Qed.
Lemma completed_valid t p : Validate p = Ok tt → Validate (completePresets t p) = Ok tt.
Proof.
  rewrite !Validate_valid. intros Hv.
  assert (Hps : presets (completePresets t p) = completePreset t <$> presets p) by (unfold presets; cbn; by destruct (CustomPromptPresets p)).
  constructor; try apply Hv; rewrite Hps; [rewrite length_fmap; apply Hv|].
  rewrite <- (valid_named _ Hv). clear Hps Hv. induction (presets p) as [|x l IH]; [done|].
  cbn [fmap list_fmap existsb]. rewrite IH. f_equal. unfold completePreset. cbv zeta. by destruct (isNumber _), (isNumber _).
Qed.
Lemma start_unnamed data (exists_ : bool) p : (if exists_ then ReadProfile data = Ok p else p = newProfile) → unnamed (Others p).
Proof. destruct exists_; [apply read_unnamed|]. intros -> n [x Hx]. cbn in Hx. by rewrite lookup_empty in Hx. Qed.

(** C23. What a change of the profile wrote is read back: the change, its
    prompts completed and dated, and the members other clients keep as they
    were. *)
Theorem profile_written change t row exists_ row' :
  (∀ p q, change p = Ok q → Others q = Others p) →
  profileEdit change t row exists_ = Ok row' →
  ∃ p q w, (if exists_ then ReadProfile (Grants.Data row) = Ok p else p = newProfile) ∧ change p = Ok q ∧
    ReadProfile (Grants.Data row') = Ok w ∧ profile w = completePresets t (profile q) ∧ PinnedChatIDs w = PinnedChatIDs q ∧
    UpdatedAt w = Format t ∧
    (∀ name, name ∉ [fieldClocksMember; clockVersionMember; versionMember] → Others w !! name = Others p !! name).
Proof.
  intros Hothers (p & q & w & Hp & Hq & Hw & ->)%edit_wrote. exists p, q, w.
  destruct (prepared_reads q (Grants.Data row) (nextRevision row exists_) t w) as (H1 & H2 & H3 & H4 & H5); [|exact Hw|].
  - rewrite (Hothers _ _ Hq). by eapply start_unnamed.
  - split_and!; try done. intros n Hn. by rewrite H5, (Hothers _ _ Hq).
Qed.

Lemma edit_unchanged change t row w : ReadProfile (Grants.Data row) = Ok w → change w = Ok w →
  profileEdit change t row true = Err errProfileUnchanged.
Proof. intros H1 H2. unfold ProfileRows.profileEdit. rewrite H1. cbn [ofApi mbind result_bind]. rewrite H2. cbn [mbind result_bind]. by rewrite bool_decide_eq_true_2. Qed.
Lemma merged_again w p m local changed t : MergeDeviceProfile Raw NewSHA1 p local changed = m →
  profile w = completePresets t m → Validate m = Ok tt → mergeChange Raw NewSHA1 local changed w = Ok w.
Proof.
  intros <- Hw Hv. apply (completed_valid t) in Hv. pose proof (merge_settles Raw NewSHA1 t p local changed) as Hm. cbv zeta in Hm.
  rewrite <- Hw in Hm, Hv. unfold mergeChange. rewrite Hm, Hv. cbn [mbind result_bind ofApi]. by destruct w.
Qed.
Lemma mergeChange_ok local changed p q : mergeChange Raw NewSHA1 local changed p = Ok q →
  ∃ m, MergeDeviceProfile Raw NewSHA1 (profile p) local changed = m ∧ Validate m = Ok tt ∧ q = p <| profile := m |>.
Proof. unfold mergeChange. destruct (Validate _) as [[]|] eqn:Hv; [|done]. intros [= <-]. by eexists. Qed.

(** A device's settings are merged once: merged again into the row that
    the merge wrote, as a retry does, they change nothing and nothing is
    written. *)
Theorem merge_once local changed t t' row exists_ row' :
  profileEdit (mergeChange Raw NewSHA1 local changed) t row exists_ = Ok row' →
  profileEdit (mergeChange Raw NewSHA1 local changed) t' row' true = Err errProfileUnchanged.
Proof.
  intros (p & q & w & Hp & (m & Hm & Hv & ->)%mergeChange_ok & Hw & ->)%edit_wrote.
  assert (Hu : unnamed (Others (p <| profile := m |>))) by exact (start_unnamed _ _ _ Hp).
  destruct (prepared_reads _ _ _ _ _ Hu Hw) as (H1 & H2 & _).
  apply (edit_unchanged _ _ _ w); [exact H1|]. exact (merged_again w (profile p) m local changed t Hm H2 Hv).
Qed.
End RoundTrip.


(** ** Settings of old clients *)

Lemma normalizeModel_twice name : normalizeModel (normalizeModel name) = normalizeModel name.
Proof. unfold normalizeModel at 2. destruct (_ || _) eqn:H; [|done]. unfold normalizeModel. by rewrite H. Qed.
Definition normalPreset (q : CustomPreset) : CustomPreset := q <| Model ::= fmap (M := option) normalizeModel |>.
Definition normalized (p : Profile) : Profile :=
  p <| SelectedModel ::= fmap (M := option) normalizeModel |>
    <| CustomPromptPresets ::= fmap (M := option) (fmap (M := list) normalPreset) |>.
Lemma normalPreset_twice q : normalPreset (normalPreset q) = normalPreset q.
Proof. unfold normalPreset. destruct q as [? ? ? ? [m|] ? ? ?]; cbn; [|done]. by rewrite normalizeModel_twice. Qed.
Lemma normalPresets_twice (l : list CustomPreset) : normalPreset <$> (normalPreset <$> l) = normalPreset <$> l.
Proof. rewrite <- list_fmap_compose. apply list_fmap_ext. intros i q _. apply normalPreset_twice. Qed.
Lemma promptOf_normal (l : list CustomPreset) id : promptOf (normalPreset <$> l) id = normalPreset <$> promptOf l id.
Proof.
  induction l as [|x l IH]; [done|]. rewrite fmap_cons, !promptOf_cons, IH. change (ID (normalPreset x)) with (ID x).
  by destruct (decide (ID x = id)).
Qed.
Lemma normalized_default p d :
  normalized p = p → normalized (p <| DefaultPromptPresetID := d |>) = p <| DefaultPromptPresetID := d |>.
Proof. unfold normalized. destruct p; cbn. intros Hn. injection Hn as H1 H2. by rewrite H1, H2. Qed.
Lemma upgradeProfile_eq p t : upgradeProfile p t =
  if negb (default false (IsUsingCustomPrompt p)) then normalized p
  else
    let prompt := default ""%string (CustomSystemPrompt p) in
    let q := (normalized p) <| IsUsingCustomPrompt := Some false |> <| CustomSystemPrompt := Some ""%string |> in
    if String.eqb (TrimSpace (withoutSystemTags prompt)) "" || negb (String.eqb (default "" (DefaultPromptPresetID p)) "") then q
    else
      match promptOf (normalPreset <$> presets p) MigratedPromptPresetID with
      | Some _ => q
      | None => q <| CustomPromptPresets := Some ((normalPreset <$> presets p) ++ [migratedPreset prompt t]) |>
      end <| DefaultPromptPresetID := Some MigratedPromptPresetID |>.
Proof.
  unfold upgradeProfile, normalized, Preset, presets. change (findPreset ?l) with (findPreset l).
  destruct p as [? ? ? ? ? ? ? ? [[]|] ? [l|]]; cbn -[TrimSpace withoutSystemTags String.eqb findPreset MigratedPromptPresetID migratedPreset];
    reflexivity.
Qed.
(** Nothing is left of old settings to read as current ones. *)
Lemma upgraded_again p t : normalized p = p → default false (IsUsingCustomPrompt p) = false → upgradeProfile p t = p.
Proof. intros Hn Hu. by rewrite upgradeProfile_eq, Hu. Qed.
Lemma normalized_with p (l : list CustomPreset) :
  normalized p = p → normalPreset <$> l = l → normalized (p <| CustomPromptPresets := Some l |>) = p <| CustomPromptPresets := Some l |>.
Proof. unfold normalized. destruct p; cbn. intros Hn Hl. injection Hn as H1 H2. by rewrite ?H1, ?H2, Hl. Qed.

(** Old settings are read as current ones once: what is read again is the
    same.  An enabled custom prompt is turned off; unless it is blank or
    another default was chosen, it is a saved prompt that new chats start
    with, beside the ones there were. *)
Theorem legacy_prompt_kept p t :
  let q := upgradeProfile p t in
  (∀ t', upgradeProfile q t' = q) ∧
  default false (IsUsingCustomPrompt q) = false ∧
  (normalPreset <$> presets p) `prefix_of` presets q ∧
  (default false (IsUsingCustomPrompt p) = true →
   TrimSpace (withoutSystemTags (default "" (CustomSystemPrompt p)))%string ≠ ""%string →
   default "" (DefaultPromptPresetID p) = ""%string →
   DefaultPromptPresetID q = Some MigratedPromptPresetID ∧
   ∃ k, Preset q MigratedPromptPresetID = Some k ∧
     (Preset p MigratedPromptPresetID = None → SystemPrompt k = Some (default "" (CustomSystemPrompt p))%string)).
Proof.
  cbv zeta.
  assert (Hn : normalized (normalized p) = normalized p).
  { unfold normalized. destruct p as [? ? ? ? ? ? ? ? ? ? [l|] ? ? [m|]]; cbn; rewrite ?normalizeModel_twice, ?normalPresets_twice; done. }
  assert (Hps : presets (normalized p) = normalPreset <$> presets p) by (unfold presets; cbn; by destruct (CustomPromptPresets p)).
  assert (Hl : normalPreset <$> (normalPreset <$> presets p) = normalPreset <$> presets p) by apply normalPresets_twice.
  rewrite upgradeProfile_eq. destruct (default false (IsUsingCustomPrompt p)) eqn:Hu; cbn [negb];
    [|split_and!; [intros t'; by apply upgraded_again|done|by rewrite Hps|done]].
  cbv zeta. set (prompt := default ""%string (CustomSystemPrompt p)).
  set (q := (normalized p) <| IsUsingCustomPrompt := Some false |> <| CustomSystemPrompt := Some ""%string |>).
  assert (Hq : normalized q = q) by (unfold q; destruct (normalized p); unfold normalized in *; cbn in *; congruence).
  assert (Hqs : presets q = normalPreset <$> presets p) by exact Hps.
  destruct (_ || _) eqn:Hkeep.
  - split_and!; [intros t'; by apply upgraded_again|done|by rewrite Hqs|]. intros _ Hblank Hdef.
    apply orb_true_iff in Hkeep as [H%String.eqb_eq|H%negb_true_iff%String.eqb_neq]; congruence.
  - assert (Hold : promptOf (normalPreset <$> presets p) MigratedPromptPresetID = normalPreset <$> Preset p MigratedPromptPresetID)
      by apply promptOf_normal.
    rewrite Hold. destruct (Preset p MigratedPromptPresetID) as [k|] eqn:Hk; cbn [fmap option_fmap option_map].
    + split_and!; [intros t'; apply upgraded_again; [by apply normalized_default|done]|done|by change (presets (q <| DefaultPromptPresetID := Some MigratedPromptPresetID |>)) with (presets q); rewrite Hqs|].
      intros _ _ _. split; [done|]. exists (normalPreset k). split; [|done].
      change (promptOf (presets q) MigratedPromptPresetID = Some (normalPreset k)). by rewrite Hqs, Hold.
    + set (l := (normalPreset <$> presets p) ++ [migratedPreset prompt t]).
      assert (Hln : normalPreset <$> l = l) by (unfold l; by rewrite fmap_app, Hl).
      split_and!; [|done|by eexists|].
      * intros t'. apply upgraded_again; [|done]. by apply normalized_default, normalized_with.
      * intros _ _ _. split; [done|]. exists (migratedPreset prompt t). split; [|done].
        change (promptOf l MigratedPromptPresetID = Some (migratedPreset prompt t)). unfold l. by rewrite promptOf_app, Hold.
Qed.


Lemma presetModel_twice name : presetModel (presetModel name) = presetModel name.
Proof. unfold presetModel at 2 3. destruct (contains legacyAutoModels name) eqn:H; [done|]. unfold presetModel. by rewrite H. Qed.
(** What a client is shown of a profile has every setting but thinking,
    a selected model new chats may start on, and no saved prompt with a model
    that is no longer listed; shown again, it is the same. *)
Theorem effective_shown c p :
  let q := EffectiveProfile c p in
  (∀ r, Apply r q = q <| ThinkingEnabled := over (ThinkingEnabled r) (ThinkingEnabled q) |>) ∧
  (∃ m, SelectedModel q = Some m ∧ Offers c m = true) ∧
  (∀ k m, k ∈ presets q → Model k = Some m → retired c m = false) ∧
  EffectiveProfile c q = q.
Proof.
  assert (Hover : ∀ A (d : A) r o, over r (over (Some d) o) = over (Some d) o) by (by intros A d r []).
  assert (Hsel : Offers c (CatalogSelectedModel c p) = true) 
    by (unfold CatalogSelectedModel; by destruct (Offers c (default _ _)) eqn:Ho).
  assert (Hmodel : ∀ k, offeredModel c k ≫= offeredModel c = offeredModel c k).
  { intros k. unfold offeredModel. destruct (retired c (presetModel k)) eqn:Hr; [done|]. cbn [mbind option_bind].
    by rewrite presetModel_twice, Hr. }
  set (shown := λ q, q <| Model ::= λ m, m ≫= offeredModel c |>).
  assert (Hshown : ∀ k, shown (shown k) = shown k).
  { intros [? ? ? ? [m|] ? ? ?]; unfold shown; cbn; [|done]. by rewrite Hmodel. }
  cbv zeta. split_and!.
  - intros r. unfold EffectiveProfile, withDefaults, Apply, each. cbn -[CatalogSelectedModel over]. by rewrite !Hover.
  - eexists. split; [reflexivity|exact Hsel].
  - intros k m Hk Hm. unfold presets, EffectiveProfile in Hk. cbn in Hk. destruct (CustomPromptPresets p) as [l|]; [|by apply not_elem_of_nil in Hk].
    cbn in Hk. apply list_elem_of_fmap in Hk as (k' & -> & _). cbn in Hm. destruct (Model k') as [m'|]; [|done]. cbn in Hm.
    unfold offeredModel in Hm. destruct (retired c (presetModel m')) eqn:Hr; [done|]. by injection Hm as <-.
  - unfold EffectiveProfile, withDefaults, Apply, each. cbn -[CatalogSelectedModel over]. rewrite !Hover. f_equal.
    + destruct (CustomPromptPresets p) as [l|]; [|done]. cbn. f_equal. rewrite <- list_fmap_compose. apply list_fmap_ext.
      intros i k _. apply Hshown.
    + change (CatalogSelectedModel c _) with (CatalogSelectedModel c p) at 2 3. cbn [over]. f_equal.
      change (CatalogSelectedModel c _) with (if Offers c (CatalogSelectedModel c p) then CatalogSelectedModel c p else AutoModelName) at 1.
      by rewrite Hsel.
    + by destruct (ThinkingEnabled p).
Qed.

(** ** Concrete inputs *)

Definition toyTruncated (lit : string) : option Z := Atoi lit.
Definition toyFormat (t : Z) : string := pretty t.

Definition device : Profile := noProfile <| CustomPromptPresets := Some [essay <| ID := "p"%string |>] |> <| FavoritePromptPresetIDs := Some ["p"%string] |>
  <| ThemeMode := Some "dark"%string |>.
Abbreviation toyEdit := (profileEdit toyRaw toyUnmarshal toyTruncated toyFormat (λ _, None)).
Definition storedRow : Grants.StoredRow :=
  Grants.mkRow "profile" "4" (toyRaw (MarshalJSON (newProfile <| profile := noProfile <| CustomPromptPresets := Some [poem] |> |>
    <| RecordVersion := 2%Z |> <| Others := {[ "fieldClocks"%string := Api.AObj [("chatFont", Api.AObj [("v", Api.ANum "7")])]%string ]} |>)))
    None false None.

Lemma profile_written_witness : ∃ row' w, toyEdit (pinChange "c1" true) 5000000 storedRow true = Ok row' ∧
  ReadProfile toyUnmarshal toyTruncated toyFormat (λ _, None) (Grants.Data row') = Ok w ∧ PinnedChatIDs w = Some ["c1"%string].
Proof.
  destruct (toyEdit (pinChange "c1" true) 5000000 storedRow true) as [row'|] eqn:He; [|vm_compute in He; discriminate].
  destruct (profile_written toyRaw toyUnmarshal toyTruncated toyFormat (λ _, None) (λ p, toy_parse _) (pinChange "c1" true)
    5000000 storedRow true row') as (p & q & w & Hp & Hq & Hw & _ & Hpins & _);
    [intros p0 q0 [= <-]; reflexivity|exact He|].
  exists row', w. split; [reflexivity|]. split; [exact Hw|]. rewrite Hpins. injection Hq as <-.
  assert (PinnedChatIDs p = None) as Hnone.
  { assert (PinnedChatIDs <$> (match ReadProfile toyUnmarshal toyTruncated toyFormat (λ _, None) (Grants.Data storedRow) with
                               | Ok p => Some p | Err _ => None end) = Some None) as H by (vm_compute; reflexivity).
    rewrite Hp in H. injection H as H. exact H. }
  cbn. rewrite Hnone. reflexivity.
Defined.
Lemma merge_once_witness : ∃ row', toyEdit (mergeChange toyRaw (λ _, "sha"%string) device ["themeMode"%string]) 5000000 storedRow true = Ok row' ∧
  toyEdit (mergeChange toyRaw (λ _, "sha"%string) device ["themeMode"%string]) 6000000 row' true = Err errProfileUnchanged.
Proof.
  destruct (toyEdit (mergeChange toyRaw (λ _, "sha"%string) device ["themeMode"%string]) 5000000 storedRow true) as [row'|] eqn:He;
    [|vm_compute in He; discriminate].
  exists row'. split; [reflexivity|].
  apply (merge_once toyRaw toyUnmarshal (λ _, "sha"%string) toyTruncated toyFormat (λ _, None) (λ p, toy_parse _) device ["themeMode"%string]
    5000000 6000000 storedRow true row'). exact He.
Defined.
End ProfileRows.
