(* ===== verification/Importer.v ===== *)
(** * Exports of other assistants: internal/importer

    The readers of ChatGPT's and Claude's exports, the index that finds the
    entries of an archive an attachment names, and what of the archive a
    conversation they read can reach. *)

From S2P Require Import Prelude GoStd Api Decode Chat Timeline Results.
From stdpp Require Import sorting.
From Stdlib Require Import QArith_base.
Local Open Scope nat_scope.
Local Open Scope go_scope.

Module Importer.
Import GoStd Decode.

(** ** The entries of an archive *)

Record indexEntry := mkEntry { base : string; name : string }.
Record idMatch := mkMatch { m_name : string; m_count : nat }.
Record Index := mkIndex {
  byName : gset string;
  byBase : gmap string string;
  byStem : gmap string idMatch;
  sorted : list indexEntry;
}.

Definition noMatch : idMatch := mkMatch "" 0.
Definition unique (m : idMatch) : option string := if Nat.eqb (m_count m) 1 then Some (m_name m) else None.
(** One more entry found. *)
Definition found (m : idMatch) (name : string) : idMatch :=
  mkMatch (if Nat.eqb (m_count m) 0 then name else m_name m) (S (m_count m)).
Definition addID (ids : gmap string idMatch) (id name : string) : gmap string idMatch :=
  <[id := found (default noMatch (ids !! id)) name]> ids.

(** [path.Clean] of a rooted path, without its root. *)
Fixpoint segments (l : list ascii) : list string :=
  match l with
  | [] => [""%string]
  | c :: l => if Ascii.eqb c "/" then ""%string :: segments l
              else match segments l with s :: ss => String c s :: ss | [] => [String c ""] end
  end.
Definition cleanSegment (kept : list string) (s : string) : list string :=
  if String.eqb s "" || String.eqb s "." then kept else if String.eqb s ".." then tail kept else s :: kept.
Definition slashes (s : string) : list ascii := (λ c, if Ascii.eqb c "\" then "/"%char else c) <$> bytes_of s.
Definition normalizeEntry (name : string) : string := Join (rev (foldl cleanSegment [] (segments (slashes name)))) "/".
Example entries_clean : normalizeEntry "a\.\b//../c.png" = "a/c.png"%string ∧ normalizeEntry "/../x" = "x"%string ∧ normalizeEntry "." = ""%string.
Proof. done. Qed.

(** [path.Ext], and a name less it. *)
Fixpoint extBack (l acc : list ascii) : list ascii :=
  match l with
  | [] => []
  | c :: l => if Ascii.eqb c "/" then [] else if Ascii.eqb c "." then c :: acc else extBack l (c :: acc)
  end.
Definition pathExt (s : string) : string := string_of (extBack (rev (bytes_of s)) []).
Definition stemOf (s : string) : string := Timeline.TrimSuffix s (pathExt s).
Example ext_of : pathExt "a.b/c.png" = ".png"%string ∧ pathExt "a.b/c" = ""%string ∧ stemOf "c.tar.gz" = "c.tar"%string.
Proof. done. Qed.

Definition idSeparators : list ascii := ["."; "-"; "_"]%char.

Definition addEntry (idx : Index) (n : string) : Index :=
  let clean := normalizeEntry n in
  if String.eqb clean "" || bool_decide (clean ∈ byName idx) then idx
  else
    let b := Results.pathBase clean in
    mkIndex ({[clean]} ∪ byName idx)
      (match byBase idx !! b with Some _ => byBase idx | None => <[b := clean]> (byBase idx) end)
      (addID (byStem idx) (stemOf b) clean) (sorted idx ++ [mkEntry b clean]).
(** [slices.SortFunc] leaves open the order of entries of one basename. *)
Definition baseLe (a b : indexEntry) : Prop := String.le (base a) (base b).
#[global] Instance baseLe_dec a b : Decision (baseLe a b).
Proof. unfold baseLe. apply _. Defined.
Definition emptyIndex : Index := mkIndex ∅ ∅ ∅ [].
Definition NewIndex (names : list string) : Index :=
  let idx := foldl addEntry emptyIndex names in
  mkIndex (byName idx) (byBase idx) (byStem idx) (merge_sort baseLe (sorted idx)).

(** [slices.BinarySearchFunc] for the first entry not before a text. *)
Fixpoint searchBetween (fuel : nat) (l : list indexEntry) (p : string) (i j : nat) : nat :=
  match fuel with
  | 0 => i
  | S fuel =>
      if bool_decide (i < j) then
        let h := (i + j) `div` 2 in
        if match l !! h with Some e => String.ltb (base e) p | None => false end
        then searchBetween fuel l p (S h) j else searchBetween fuel l p i h
      else i
  end.
Definition BinarySearch (l : list indexEntry) (p : string) : nat := searchBetween (length l) l p 0 (length l).
(** The loop from there, over the entries with the prefix. *)
Fixpoint countPrefixed (p : string) (l : list indexEntry) (m : idMatch) : idMatch :=
  match l with
  | e :: l => if bool_decide (m_count m < 2) && String.prefix p (base e) then countPrefixed p l (found m (name e)) else m
  | [] => m
  end.
Definition byPrefix (idx : Index) (id : string) : idMatch :=
  foldl (λ m sep, let p := String.append id (String sep "") in
                  countPrefixed p (drop (BinarySearch (sorted idx) p) (sorted idx)) m) noMatch idSeparators.

(** [None] is the nil index of an upload that is no archive. *)
Definition Exact (i : option Index) (ref : string) : option string :=
  idx ← i;
  let clean := normalizeEntry ref in
  if bool_decide (clean ∈ byName idx) && negb (String.eqb clean "") then Some clean else None.
Definition Basename (i : option Index) (ref : string) : option string :=
  idx ← i;
  let clean := normalizeEntry ref in
  if String.eqb clean "" then None else byBase idx !! Results.pathBase clean.
Definition ByIDPrefix (i : option Index) (id : string) : option string :=
  let id := TrimSpace id in
  idx ← i;
  if String.eqb id "" then None
  else
    match byBase idx !! id with
    | Some name => Some name
    | None => match byStem idx !! id ≫= unique with
              | Some name => Some name
              | None => unique (byPrefix idx id)
              end
    end.

Definition imageTypes : list (string * string) :=
  [(".png", "image/png"); (".jpg", "image/jpeg"); (".jpeg", "image/jpeg"); (".gif", "image/gif"); (".webp", "image/webp");
   (".bmp", "image/bmp"); (".svg", "image/svg+xml")]%string.
Definition imageTypeOf (name : string) : option string :=
  snd <$> List.find (λ t, String.eqb t.1 (ToLower (pathExt name))) imageTypes.
Definition isImage (mimeType name : string) : bool :=
  String.prefix "image/" (ToLower mimeType) || match imageTypeOf name with Some _ => true | None => false end.
Definition imageType (name : string) : string := default ""%string (imageTypeOf name).

(** The cases of index_test.go. *)
Definition testIndex : option Index := Some (NewIndex
  ["p/shared.png"; "q/shared.png"; "img/file-a.png"; "img/file-a-thumb.png"; "x/file-b.png"; "y/file-b.jpg"; "file-c_photo.png";
   "file-d-1.png"; "file-d_2.png"; "file-ex.png"; "dup/file-f.png"; "dup/file-f.png"]%string).
Example ids_found :
  ByIDPrefix testIndex <$> ["shared.png"; "file-a"; "file-b"; "file-c"; "file-d"; "file-e"; "file-f"]%string =
  [Some "p/shared.png"; Some "img/file-a.png"; None; Some "file-c_photo.png"; None; None; Some "dup/file-f.png"]%string.
Proof. vm_compute. reflexivity. Qed.

(** ** What an export is read as *)

(** A time is nanoseconds since the epoch, or [None] for the zero time. *)
Abbreviation time := (option Z).

Record Attachment := mkAttachment {
  ID : string;
  Image : bool;
  FileName : string;
  MimeType : string;
  Size : Z;
  TextContent : string;
  Entry : string;
}.
Record Message := mkMessage {
  Role : string;
  Content : string;
  CreatedAt : time;
  Thoughts : string;
  Attachments : list Attachment;
}.
Record Conversation := mkConversation {
  Key : string;
  Title : string;
  c_CreatedAt : time;
  c_UpdatedAt : time;
  Messages : list Message;
}.
Record Document := mkDocument { d_Key : string; d_FileName : string; d_Content : string; d_CreatedAt : time }.
Record Project := mkProject {
  p_Key : string;
  Name : string;
  Description : string;
  Instructions : string;
  p_CreatedAt : time;
  p_UpdatedAt : time;
  Documents : list Document;
}.

(** [invalid]; what the decoder said of the record is left out. *)
Definition ErrInvalid (what : string) : string := String.append "importer: invalid export: " what.

Inductive Format := ChatGPT | Claude | ClaudeProjects.
Definition marks (value : option Api.any) : bool := match value with None | Some Api.ANull => false | Some _ => true end.
Definition Classify (record : Api.any) : option Format :=
  if marks (Api.member record "mapping") then Some ChatGPT
  else if marks (Api.member record "chat_messages") then Some Claude
  else if marks (Api.member record "prompt_template") || marks (Api.member record "docs") then Some ClaudeProjects
  else None.

Section Readers.
(** The [float64] a number is, none past its range; the time [unixSeconds]
    computes of one above zero; times in RFC 3339, in the same without a
    zone, and written. *)
Context (ParseFloat : string → option Q) (UnixTime : Q → Z).
Context (ParseTime ParseLocal : string → option Z) (Format_ : Z → string).

Definition unixSeconds (sec : Q) : time := if Qle_bool sec 0 then None else Some (UnixTime sec).
Definition parseISOTime (s : string) : time :=
  let s := TrimSpace s in match ParseTime s with Some t => Some t | None => ParseLocal s end.
Definition formatTime (t : time) : string := match t with Some t => Format_ t | None => "0001-01-01T00:00:00Z" end.
Definition floatOf (v : Api.any) (name : string) : option Q :=
  match Api.member v name with
  | None | Some Api.ANull => Some 0%Q
  | Some (Api.ANum lit) => ParseFloat lit
  | Some _ => None
  end.

(** *** ChatGPT *)

Record chatgptMessage := mkGPTMessage {
  g_Role : string;
  g_ContentType : string;
  g_Parts : list Api.any;
  g_Thoughts : list (string * string);
  g_CreateTime : Q;
  g_Attachments : list (string * string * string);
}.
Record chatgptNode := mkNode { n_Message : option chatgptMessage; n_Parent : string; n_Children : list string }.
Record chatgptConversation := mkGPT {
  g_ID : string;
  g_ConversationID : string;
  g_Title : string;
  g_Created : Q;
  g_Updated : Q;
  g_CurrentNode : string;
  g_Mapping : gmap string chatgptNode;
}.

Definition fieldStruct (v : Api.any) (name : string) : option Api.any := structOf (default Api.ANull (Api.member v name)).
Definition decodeGPTMessage (v : Api.any) : option chatgptMessage :=
  v ← structOf v;
  author ← fieldStruct v "author";
  role ← textOf author "role";
  content ← fieldStruct v "content";
  kind ← textOf content "content_type";
  parts ← listOf Some content "parts";
  thoughts ← listOf (λ t, t ← structOf t; c ← textOf t "content"; s ← textOf t "summary"; Some (c, s)) content "thoughts";
  created ← floatOf v "create_time";
  metadata ← fieldStruct v "metadata";
  attachments ← listOf (λ a, a ← structOf a; id ← textOf a "id"; n ← textOf a "name"; m ← textOf a "mime_type"; Some (id, n, m))
                  metadata "attachments";
  Some (mkGPTMessage role kind parts thoughts created attachments).
Definition decodeNode (v : Api.any) : option chatgptNode :=
  v ← structOf v;
  message ← match Api.member v "message" with
            | None | Some Api.ANull => Some None
            | Some m => Some <$> decodeGPTMessage m
            end;
  parent ← textOf v "parent";
  children ← listOf (λ c, strict (dText (Some c))) v "children";
  Some (mkNode message parent children).
Definition decodeMapping (v : Api.any) : option (gmap string chatgptNode) :=
  match Api.member v "mapping" with
  | None | Some Api.ANull => Some ∅
  | Some (Api.AObj ms) =>
      list_to_map <$> mapM (λ m : string * Api.any, n ← decodeNode m.2; Some (m.1, n)) ms
  | Some _ => None
  end.
Definition decodeGPT (v : Api.any) : option chatgptConversation :=
  v ← structOf v;
  id ← textOf v "id";
  conversation ← textOf v "conversation_id";
  title ← textOf v "title";
  created ← floatOf v "create_time";
  updated ← floatOf v "update_time";
  current ← textOf v "current_node";
  mapping ← decodeMapping v;
  Some (mkGPT id conversation title created updated current mapping).

Definition chatgptRoot : string := "client-created-root".
Definition contains (l : list string) (s : string) : bool := existsb (String.eqb s) l.
Definition isEmpty {A} (l : list A) : bool := match l with [] => true | _ => false end.
Definition chatgptRenderable (m : chatgptMessage) : bool :=
  contains ["user"; "assistant"]%string (g_Role m) && contains ["text"; "multimodal_text"]%string (g_ContentType m) &&
  (negb (isEmpty (g_Parts m)) || negb (isEmpty (g_Attachments m))).

(** The walks over the tree of a conversation are bounded by fuel, and [None]
    says that it ran out; that the fuel given is enough, as no walk enters a
    node twice, is shown of every tree ([branch_read]).

    The nodes from the one that is current up to a root, the root first;
    [Some None] where a node is missing or met again. *)
Fixpoint climb (fuel : nat) (m : gmap string chatgptNode) (seen : gset string) (current : string) (path : list string)
    : option (option (list string)) :=
  if String.eqb current "" || String.eqb current chatgptRoot then Some (Some path)
  else
    match fuel with
    | 0 => None
    | S fuel =>
        match m !! current with
        | None => Some None
        | Some node =>
            if bool_decide (current ∈ seen) then Some None
            else climb fuel m ({[current]} ∪ seen) (n_Parent node) (current :: path)
        end
    end.
Definition chatgptActivePath (conv : chatgptConversation) : option (list string) :=
  default [] <$> climb (S (size (g_Mapping conv))) (g_Mapping conv) ∅ (g_CurrentNode conv) [].

Definition chatgptRoots (m : gmap string chatgptNode) : list string :=
  merge_sort String.le
    (List.filter (λ p : string * chatgptNode, String.eqb (n_Parent p.2) "" || String.eqb (n_Parent p.2) chatgptRoot) (map_to_list m)).*1.

Definition trimFileID (ref : string) : string :=
  Timeline.TrimPrefix (Timeline.TrimPrefix (TrimSpace ref) "file-service://") "sediment://".

(** What [add] keeps: an id once, and every attachment without one. *)
Definition addAttachment (s : list Attachment * gset string) (a : Attachment) (key : string) : list Attachment * gset string :=
  let '(out, seen) := s in
  if negb (String.eqb key "") && bool_decide (key ∈ seen) then s else (out ++ [a], {[key]} ∪ seen).
Definition gptFile (index : option Index) (f : string * string * string) : Attachment * string :=
  let '(ref, fileName, mime) := f in
  let id := trimFileID ref in
  (match ByIDPrefix index id with
   | None => mkAttachment "" (isImage mime fileName) fileName mime 0 "" ""
   | Some entry =>
       mkAttachment "" (isImage mime fileName || isImage mime entry) (Api.or fileName (Results.pathBase entry))
         (Api.or mime (imageType entry)) 0 "" entry
   end, id).
Definition gptPointer (index : option Index) (pointer : string) : option (Attachment * string) :=
  let id := trimFileID pointer in
  entry ← ByIDPrefix index id;
  Some (mkAttachment "" true (Results.pathBase entry) (imageType entry) 0 "" entry, id).
Definition chatgptAttachments (m : chatgptMessage) (pointers : list string) (index : option Index) : list Attachment :=
  (foldl (λ s a, addAttachment s a.1 a.2) ([], ∅)
     ((gptFile index <$> g_Attachments m) ++ omap (gptPointer index) pointers)).1.

(** The texts of a message's parts, and the files the others point to. *)
Definition gptParts (parts : list Api.any) : list string * list string :=
  foldr (λ part r,
    let '(texts, pointers) := r in
    match strict (dText (Some part)) with
    | Some text => (text :: texts, pointers)
    | None => match structOf part ≫= λ v, textOf v "asset_pointer" with
              | Some pointer => if String.eqb pointer "" then r else (texts, pointer :: pointers)
              | None => r
              end
    end) ([], []) parts.

(** The text of a node of thoughts. *)
Definition thoughtTexts (m : chatgptMessage) : list string :=
  omap (λ t : string * string, let text := Api.or t.1 t.2 in if String.eqb text "" then None else Some text) (g_Thoughts m).
Fixpoint thoughtsFrom (fuel : nat) (m : gmap string chatgptNode) (seen : gset string) (current : string) : option string :=
  match fuel with
  | 0 => None
  | S fuel =>
      if String.eqb current "" || bool_decide (current ∈ seen) then Some ""%string
      else
        match m !! current with
        | None => Some ""%string
        | Some node =>
            let up := thoughtsFrom fuel m ({[current]} ∪ seen) (n_Parent node) in
            match n_Message node with
            | None => up
            | Some msg =>
                if String.eqb (g_Role msg) "user" then Some ""%string
                else if String.eqb (g_ContentType msg) "thoughts" && negb (isEmpty (thoughtTexts msg))
                then Some (Join (thoughtTexts msg) (String "010" (String "010" ""))) else up
            end
        end
  end.
Definition chatgptThoughts (nodeID : string) (m : gmap string chatgptNode) : option string := thoughtsFrom (S (S (size m))) m ∅ nodeID.

(** A node's message, [Some None] where it has none to show. *)
Definition chatgptMessageOf (nodeID : string) (msg : chatgptMessage) (conv : chatgptConversation) (index : option Index)
    : option (option Message) :=
  let '(texts, pointers) := gptParts (g_Parts msg) in
  let content := TrimSpace (Join texts (String "010" "")) in
  let attachments := chatgptAttachments msg pointers index in
  if String.eqb content "" && isEmpty attachments then Some None
  else
    let created := unixSeconds (if Qeq_bool (g_CreateTime msg) 0 then g_Created conv else g_CreateTime msg) in
    thoughts ← (if String.eqb (g_Role msg) "assistant" then chatgptThoughts nodeID (g_Mapping conv) else Some ""%string);
    Some (Some (mkMessage (g_Role msg) content created thoughts attachments)).

Definition nodeMessage (conv : chatgptConversation) (index : option Index) (nodeID : string) : option (option Message) :=
  match g_Mapping conv !! nodeID with
  | Some (mkNode (Some msg) _ _) => if chatgptRenderable msg then chatgptMessageOf nodeID msg conv index else Some None
  | _ => Some None
  end.
(** [visit] and [follow]: the nodes visited, and the messages of them. *)
Definition visit (conv : chatgptConversation) (index : option Index) (s : gset string * list Message) (nodeID : string)
    : option (gset string * list Message) :=
  let '(visited, messages) := s in
  if bool_decide (nodeID ∈ visited) then Some s
  else
    message ← nodeMessage conv index nodeID;
    Some ({[nodeID]} ∪ visited, messages ++ match message with Some m => [m] | None => [] end).
Fixpoint follow (fuel : nat) (conv : chatgptConversation) (index : option Index)
    (s : gset string * (gset string * list Message)) (nodeID : string) : option (gset string * (gset string * list Message)) :=
  match fuel with
  | 0 => None
  | S fuel =>
      let '(followed, st) := s in
      if bool_decide (nodeID ∈ followed) then Some s
      else
        st ← visit conv index st nodeID;
        let s := ({[nodeID]} ∪ followed, st) in
        match g_Mapping conv !! nodeID with
        | Some (mkNode _ _ (child :: _)) => follow fuel conv index s child
        | _ => Some s
        end
  end.
(** A walk of several nodes. *)
Fixpoint each {S A : Type} (f : S → A → option S) (s : S) (l : list A) : option S :=
  match l with [] => Some s | a :: l => s ← f s a; each f s l end.
Lemma each_holds {S A} (P : S → Prop) (f : S → A → option S) l s s' :
  (∀ s a s', P s → f s a = Some s' → P s') → P s → each f s l = Some s' → P s'.
Proof.
  intros Hf. revert s. induction l as [|a l IH]; intros s Hs; cbn; [by intros [= <-]|].
  destruct (f s a) as [s1|] eqn:H1; [|done]. cbn. eapply IH, Hf, H1. done.
Qed.
Definition gptMessages (conv : chatgptConversation) (index : option Index) : option (list Message) :=
  branch ← chatgptActivePath conv;
  match branch with
  | [] => (λ s, s.2.2) <$> each (follow (S (S (size (g_Mapping conv)))) conv index) (∅, (∅, [])) (chatgptRoots (g_Mapping conv))
  | _ => snd <$> each (visit conv index) (∅, []) branch
  end.
Definition ReadChatGPT (record : Api.any) (index : option Index) : option (result string (option Conversation)) :=
  match decodeGPT record with
  | None => Some (Err (ErrInvalid "chatgpt conversation"))
  | Some conv =>
      messages ← gptMessages conv index;
      Some match messages with
           | [] => Ok None
           | _ =>
               let created := unixSeconds (g_Created conv) in
               let key := Api.or (Api.or (g_ID conv) (g_ConversationID conv))
                            (Join ["chatgpt"; g_Title conv; formatTime created]%string ":") in
               Ok (Some (mkConversation key (g_Title conv) created (unixSeconds (g_Updated conv)) messages))
           end
  end.

(** *** Claude, and the export of this service *)

Record claudeAttachment := mkClaudeAttachment {
  ca_FileName : string;
  ca_FileSize : Z;
  ca_ExtractedContent : string;
  ca_ID : string;
  ca_Type : string;
  ca_Name : string;
  ca_MimeType : string;
  ca_Size : Z;
  ca_ExportPath : string;
  ca_TextContent : string;
}.
Record claudeFile := mkClaudeFile { f_FileName : string; f_FileUUID : string }.
Record claudeMessage := mkClaudeMessage {
  cm_Text : string;
  cm_Sender : string;
  cm_CreatedAt : string;
  cm_Content : list (string * string);
  cm_Attachments : list claudeAttachment;
  cm_Files : list claudeFile;
  cm_FilesV2 : list claudeFile;
}.
Record claudeConversation := mkClaude {
  cc_UUID : string;
  cc_Name : string;
  cc_CreatedAt : string;
  cc_UpdatedAt : string;
  cc_ChatMessages : list claudeMessage;
}.

Definition decodeClaudeAttachment (v : Api.any) : option claudeAttachment :=
  v ← structOf v;
  fileName ← textOf v "file_name"; fileSize ← intOf v "file_size"; extracted ← textOf v "extracted_content";
  id ← textOf v "id"; type ← textOf v "type"; name ← textOf v "fileName"; mime ← textOf v "mimeType"; size ← intOf v "fileSize";
  exportPath ← textOf v "exportPath"; text ← textOf v "textContent";
  Some (mkClaudeAttachment fileName fileSize extracted id type name mime size exportPath text).
Definition decodeClaudeFile (v : Api.any) : option claudeFile :=
  v ← structOf v; name ← textOf v "file_name"; uuid ← textOf v "file_uuid"; Some (mkClaudeFile name uuid).
Definition decodeClaudeContent (v : Api.any) : option (string * string) :=
  v ← structOf v; type ← textOf v "type"; thinking ← textOf v "thinking"; Some (type, thinking).
Definition decodeClaudeMessage (v : Api.any) : option claudeMessage :=
  v ← structOf v;
  text ← textOf v "text"; sender ← textOf v "sender"; created ← textOf v "created_at";
  content ← listOf decodeClaudeContent v "content";
  attachments ← listOf decodeClaudeAttachment v "attachments";
  files ← listOf decodeClaudeFile v "files";
  filesV2 ← listOf decodeClaudeFile v "files_v2";
  Some (mkClaudeMessage text sender created content attachments files filesV2).
Definition decodeClaude (v : Api.any) : option claudeConversation :=
  v ← structOf v;
  uuid ← textOf v "uuid"; name ← textOf v "name"; created ← textOf v "created_at"; updated ← textOf v "updated_at";
  messages ← listOf decodeClaudeMessage v "chat_messages";
  Some (mkClaude uuid name created updated messages).

(** An attachment; none of a kind the export does not hold. *)
Definition claudeAttached (index : option Index) (a : claudeAttachment) : option Attachment :=
  if String.eqb (ca_Type a) "image" then
    let att entry fileName := mkAttachment (ca_ID a) true fileName (ca_MimeType a) (ca_Size a) "" entry in
    Some match Exact index (ca_ExportPath a) with
         | Some name => if String.eqb (ca_ExportPath a) "" then att ""%string (ca_Name a)
                        else att name (Api.or (ca_Name a) (Results.pathBase name))
         | None => att ""%string (ca_Name a)
         end
  else if negb (String.eqb (ca_Type a) "") || negb (String.eqb (ca_TextContent a) "")
  then Some (mkAttachment (ca_ID a) false (ca_Name a) (ca_MimeType a) (ca_Size a) (ca_TextContent a) "")
  else if negb (String.eqb (ca_ExtractedContent a) "")
  then Some (mkAttachment "" false (ca_FileName a) "" (ca_FileSize a) (ca_ExtractedContent a) "")
  else None.
(** The loop over the files: those out, and the keys seen. *)
Definition claudeFileAttached (index : option Index) (s : list Attachment * gset string) (f : claudeFile) : list Attachment * gset string :=
  let '(out, seen) := s in
  let key := Api.or (f_FileUUID f) (f_FileName f) in
  if String.eqb key "" || bool_decide (key ∈ seen) then s
  else
    let entry := match ByIDPrefix index (f_FileUUID f) with
                 | Some n => Some n
                 | None => match Exact index (f_FileName f) with Some n => Some n | None => Basename index (f_FileName f) end
                 end in
    (match entry with
     | Some n => if isImage "" n then out ++ [mkAttachment "" true (Results.pathBase n) (imageType n) 0 "" n] else out
     | None => out
     end, {[key]} ∪ seen).
Definition claudeAttachments (m : claudeMessage) (index : option Index) : list Attachment :=
  (foldl (claudeFileAttached index) (omap (claudeAttached index) (cm_Attachments m), ∅) (cm_Files m ++ cm_FilesV2 m)).1.

Definition claudeRole (sender : string) : string :=
  if String.eqb sender "human" then "user" else if String.eqb sender "assistant" then "assistant" else "".
Definition claudeThoughts (content : list (string * string)) : list string :=
  omap (λ c : string * string, if String.eqb c.1 "thinking" && negb (String.eqb c.2 "") then Some c.2 else None) content.
Definition claudeMessageOf (index : option Index) (m : claudeMessage) : option Message :=
  let role := claudeRole (cm_Sender m) in
  let text := TrimSpace (cm_Text m) in
  let attachments := claudeAttachments m index in
  if String.eqb role "" || String.eqb text "" && isEmpty attachments then None
  else Some (mkMessage role text (parseISOTime (cm_CreatedAt m))
               (if String.eqb role "assistant" then Join (claudeThoughts (cm_Content m)) (String "010" (String "010" "")) else "")
               attachments).
Definition ReadClaude (record : Api.any) (index : option Index) : result string (option Conversation) :=
  match decodeClaude record with
  | None => Err (ErrInvalid "claude conversation")
  | Some conv =>
      match omap (claudeMessageOf index) (cc_ChatMessages conv) with
      | [] => Ok None
      | messages =>
          Ok (Some (mkConversation (Api.or (cc_UUID conv) (Join ["claude"; cc_Name conv; cc_CreatedAt conv]%string ":")) (cc_Name conv)
                      (parseISOTime (cc_CreatedAt conv)) (parseISOTime (cc_UpdatedAt conv)) messages))
      end
  end.

Record claudeDoc := mkDoc { cd_UUID : string; cd_Filename : string; cd_Content : string; cd_CreatedAt : string }.
Record claudeProject := mkClaudeProject {
  cp_UUID : string;
  cp_Name : string;
  cp_Description : string;
  cp_PromptTemplate : string;
  cp_CreatedAt : string;
  cp_UpdatedAt : string;
  cp_Docs : list claudeDoc;
}.
Definition decodeClaudeProject (v : Api.any) : option claudeProject :=
  v ← structOf v;
  uuid ← textOf v "uuid"; name ← textOf v "name"; description ← textOf v "description"; prompt ← textOf v "prompt_template";
  created ← textOf v "created_at"; updated ← textOf v "updated_at";
  docs ← listOf (λ d, d ← structOf d; uuid ← textOf d "uuid"; name ← textOf d "filename"; content ← textOf d "content";
                      created ← textOf d "created_at"; Some (mkDoc uuid name content created)) v "docs";
  Some (mkClaudeProject uuid name description prompt created updated docs).
Definition ReadClaudeProject (record : Api.any) : result string (option Project) :=
  match decodeClaudeProject record with
  | None => Err (ErrInvalid "claude project")
  | Some p =>
      let documents := omap (λ d, if negb (String.eqb (cd_Content d) "") && negb (String.eqb (cd_Filename d) "")
                                  then Some (mkDocument (cd_UUID d) (cd_Filename d) (cd_Content d) (parseISOTime (cd_CreatedAt d)))
                                  else None) (cp_Docs p) in
      if String.eqb (cp_Name p) "" && String.eqb (cp_PromptTemplate p) "" && isEmpty documents then Ok None
      else Ok (Some (mkProject (Api.or (cp_UUID p) (Join ["claude-project"; cp_Name p; cp_CreatedAt p]%string ":")) (cp_Name p)
                       (cp_Description p) (cp_PromptTemplate p) (parseISOTime (cp_CreatedAt p)) (parseISOTime (cp_UpdatedAt p)) documents))
  end.
End Readers.

(** ** The records of an export

    A reader of JSON text: one value, and what follows it. *)
Section Records.
Context (scanValue : list ascii → option (Api.any * list ascii)).
Context {St E : Type} (invalid : string → E) (visit : St → Api.any → St * option E).

Definition jsonSpace (c : ascii) : bool := contains [" "; String "009" ""; String "010" ""; String "013" ""]%string (String c "").
Fixpoint pastSpace (l : list ascii) : list ascii :=
  match l with c :: l' => if jsonSpace c then pastSpace l' else l | [] => [] end.
(** [firstByte], which leaves the byte unread. *)
Definition firstByte (l : list ascii) : option (ascii * list ascii) :=
  let l := match l with "239"%char :: "187"%char :: "191"%char :: l => l | _ => l end in
  match pastSpace l with [] => None | c :: l => Some (c, c :: l) end.

(** [record]: a value, which must be an object, visited. *)
Definition record (s : St) (l : list ascii) : St * result E (list ascii) :=
  match scanValue l with
  | None => (s, Err (invalid "decode record"))
  | Some (Api.AObj _ as v, rest) => let '(s, e) := visit s v in (s, match e with Some e => Err e | None => Ok rest end)
  | Some _ => (s, Err (invalid "a record is not an object"))
  end.
(** The loop over an array's elements; [more] is [dec.More], and a comma is
    read before each but the first. *)
Fixpoint elements (fuel : nat) (first : bool) (s : St) (l : list ascii) : St * result E (list ascii) :=
  match fuel with
  | 0 => (s, Err (invalid "decode record"))
  | S fuel =>
      match pastSpace l with
      | [] => (s, Err (invalid "close array"))
      | c :: rest =>
          if Ascii.eqb c "]" then (s, Ok rest)
          else if Ascii.eqb c "}" then (s, Err (invalid "close array"))
          else
            let step l := match record s l with
                          | (s, Ok rest) => elements fuel false s rest
                          | (s, Err e) => (s, Err e)
                          end in
            if first then step (c :: rest)
            else if Ascii.eqb c "," then step rest else (s, Err (invalid "decode record"))
      end
  end.
Definition Records (s : St) (text : list ascii) : St * option E :=
  match firstByte text with
  | None => (s, Some (invalid "the export is empty"))
  | Some (c, l) =>
      let '(s, r) :=
        if Ascii.eqb c "{" then record s l
        else if Ascii.eqb c "[" then elements (length l) true s (tail l)
        else (s, Err (invalid "the export is not a JSON array or object")) in
      (s, match r with
          | Err e => Some e
          | Ok rest => if isEmpty (pastSpace rest) then None else Some (invalid "data after the export")
          end)
  end.
End Records.

(** ** Entries by their basenames' order *)

Lemma ltb_leb a b : String.ltb a b = negb (String.leb b a).
Proof. unfold String.ltb, String.leb. rewrite (String.compare_antisym b a). by destruct (String.compare a b). Qed.
Lemma ascii_le_ge a b : Ascii.compare a b = Gt ↔ Ascii.compare b a = Lt.
Proof. rewrite (Ascii.compare_antisym a b). by destruct (Ascii.compare b a). Qed.
Lemma ascii_compare_refl a : Ascii.compare a a = Eq.
Proof. unfold Ascii.compare. apply N.compare_refl. Qed.
Lemma prefix_le p b : String.prefix p b = true → String.leb p b = true.
Proof.
  revert b. induction p as [|a p IH]; intros [|x b] H; [done..|]. cbn in H.
  destruct (ascii_dec a x) as [->|]; [|done]. unfold String.leb in *. cbn. rewrite ascii_compare_refl. by apply IH.
Qed.
(** What is between a text and a text it is a prefix of has it as a prefix. *)
Lemma prefix_between p b c :
  String.leb p b = true → String.leb b c = true → String.prefix p c = true → String.prefix p b = true.
Proof.
  revert b c. induction p as [|a p IH]; intros b c Hpb Hbc Hp; [by destruct b|].
  destruct c as [|x c]; [done|]. cbn in Hp. destruct (ascii_dec a x) as [<-|]; [|done].
  destruct b as [|y b]; [done|]. unfold String.leb in Hpb, Hbc. cbn in Hpb, Hbc.
  destruct (Ascii.compare a y) eqn:Hay; [|apply ascii_le_ge in Hay; by rewrite Hay in Hbc|done].
  apply Ascii.compare_eq_iff in Hay as ->. rewrite ascii_compare_refl in Hbc. cbn.
  destruct (ascii_dec y y); [|done]. by apply (IH b c).
Qed.

Section Sorted.
Context (l : list indexEntry) (Hl : StronglySorted baseLe l).

Lemma sorted_le i j a b : i ≤ j → l !! i = Some a → l !! j = Some b → String.leb (base a) (base b) = true.
Proof.
  intros Hij Ha Hb. destruct (decide (i = j)) as [->|Hn].
  - rewrite Ha in Hb. injection Hb as ->. apply Is_true_true. reflexivity.
  - assert (baseLe a b) as H; [|by apply Is_true_true in H].
    apply (StronglySorted_app_1_elem_of baseLe (take j l) (drop j l)).
    + by rewrite take_drop.
    + apply list_elem_of_lookup. exists i. rewrite lookup_take_lt; [done|lia].
    + apply list_elem_of_lookup. exists 0. by rewrite lookup_drop, Nat.add_0_r.
Qed.

(** Where a search ends: past the entries before the text. *)
Definition splits (p : string) (k : nat) : Prop :=
  (∀ x e, x < k → l !! x = Some e → String.ltb (base e) p = true) ∧
  (∀ x e, k ≤ x → l !! x = Some e → String.ltb (base e) p = false).
Lemma searchBetween_splits fuel p i j : j ≤ i + fuel → i ≤ j → j ≤ length l →
  (∀ x e, x < i → l !! x = Some e → String.ltb (base e) p = true) →
  (∀ x e, j ≤ x → l !! x = Some e → String.ltb (base e) p = false) →
  splits p (searchBetween fuel l p i j).
Proof.
  revert i j. induction fuel as [|fuel IH]; intros i j Hf Hij Hj H1 H2; cbn -[Nat.div].
  { split; [done|]. intros x e Hx. apply H2. lia. }
  destruct (bool_decide (i < j)) eqn:Hlt; [apply bool_decide_eq_true in Hlt|apply bool_decide_eq_false in Hlt; split; [done|]; intros x e Hx; apply H2; lia].
  set (h := (i + j) `div` 2). assert (i ≤ h < j) as Hh by (unfold h; split; [apply Nat.div_le_lower_bound|apply Nat.Div0.div_lt_upper_bound]; lia).
  destruct (lookup_lt_is_Some_2 l h) as [e He]; [lia|]. rewrite He. destruct (String.ltb (base e) p) eqn:Hb.
  - apply IH; [lia..| |done]. intros x e' Hx He'. rewrite ltb_leb in Hb |- *. apply negb_true_iff in Hb. apply negb_true_iff.
    destruct (String.leb p (base e')) eqn:Hp; [|done]. rewrite <- Hb. symmetry. apply Is_true_true.
    etrans; apply Is_true_true; [exact Hp|]. apply (sorted_le x h); [lia|done..].
  - apply IH; [lia..|done|]. intros x e' Hx He'. rewrite ltb_leb in Hb |- *. apply negb_false_iff in Hb. apply negb_false_iff.
    apply Is_true_true. etrans; apply Is_true_true; [exact Hb|]. apply (sorted_le h x); [lia|done..].
Qed.
Lemma BinarySearch_splits p : splits p (BinarySearch l p).
Proof.
  apply searchBetween_splits; [lia..|intros x e Hx; lia|]. intros x e Hx He. apply lookup_lt_Some in He. lia.
Qed.
End Sorted.

(** The one element of a list of one. *)
Definition only {A} (l : list A) : option A := match l with [a] => Some a | _ => None end.
Lemma only_perm {A} (l k : list A) : l ≡ₚ k → only l = only k.
Proof.
  intros Hp. destruct l as [|a [|b l]].
  - by apply Permutation_nil_l in Hp as ->.
  - symmetry in Hp. by apply Permutation_singleton_r in Hp as ->.
  - apply Permutation_length in Hp. by destruct k as [|? [|? ?]].
Qed.
Lemma only_map {A B} (f : A → B) l : only (f <$> l) = f <$> only l.
Proof. by destruct l as [|? [|? ?]]. Qed.

(** Every entry counted, past a second too. *)
Definition tally (m : idMatch) (names : list string) : idMatch := foldl found m names.
Definition alike (m m' : idMatch) : Prop := m = m' ∨ (2 ≤ m_count m ∧ 2 ≤ m_count m').
Lemma tally_count m l : m_count (tally m l) = m_count m + length l.
Proof. revert m. induction l as [|x l IH]; intros m; cbn; [lia|]. rewrite IH. cbn. lia. Qed.
Lemma alike_unique m m' : alike m m' → unique m = unique m'.
Proof. intros [->|[H1 H2]]; [done|]. unfold unique. by destruct (Nat.eqb_spec (m_count m) 1), (Nat.eqb_spec (m_count m') 1); [lia..|]. Qed.
Lemma tally_unique l : unique (tally noMatch l) = only l.
Proof.
  destruct l as [|a [|b l]]; [done..|]. unfold unique. rewrite tally_count. cbn. done.
Qed.
Lemma found_alike m m' n : alike m m' → alike (found m n) (found m' n).
Proof. intros [->|[H1 H2]]; [by left|right]. cbn. lia. Qed.

Definition prefixed (p : string) (l : list indexEntry) : list indexEntry := List.filter (λ e, String.prefix p (base e)) l.
(** From the first entry not before it, the entries with a prefix come first. *)
Lemma countPrefixed_alike p l m m' : StronglySorted baseLe l → (∀ e, e ∈ l → String.ltb (base e) p = false) → alike m m' →
  alike (countPrefixed p l m) (tally m' (name <$> prefixed p l)).
Proof.
  intros Hs. revert m m'. induction Hs as [|e l Hs IH Hle]; intros m m' Hp Hm; [done|].
  assert (Hstop : String.prefix p (base e) = false → prefixed p (e :: l) = []).
  { intros He. unfold prefixed. cbn. rewrite He. apply filter_none. intros x Hx. apply not_true_is_false. intros Hpx.
    rewrite (prefix_between p (base e) (base x)) in He; [done| | |done].
    - specialize (Hp e ltac:(by left)). rewrite ltb_leb in Hp. by apply negb_false_iff in Hp.
    - apply Is_true_true. rewrite Forall_forall in Hle. by apply Hle. }
  cbn [countPrefixed]. destruct (bool_decide (m_count m < 2)) eqn:H2; cbn [andb].
  - destruct (String.prefix p (base e)) eqn:He; [|by rewrite Hstop].
    unfold prefixed. cbn. rewrite He. apply IH; [intros x Hx; apply Hp; by right|by apply found_alike].
  - apply bool_decide_eq_false in H2. destruct Hm as [->|[H3 H4]]; right; rewrite tally_count; lia.
Qed.
Lemma drop_ahead p l k : splits l p k → prefixed p l = prefixed p (drop k l).
Proof.
  intros [H1 _]. rewrite <- (take_drop k l) at 1. unfold prefixed. rewrite List.filter_app.
  rewrite filter_none; [done|]. intros e He. apply not_true_is_false. intros Hp. apply list_elem_of_lookup in He as [i Hi].
  assert (i < k) by (apply lookup_lt_Some in Hi; rewrite length_take in Hi; lia). rewrite lookup_take_lt in Hi by done.
  specialize (H1 i e ltac:(done) Hi). rewrite ltb_leb in H1. apply prefix_le in Hp. by rewrite Hp in H1.
Qed.
Lemma search_alike p l m m' : StronglySorted baseLe l → alike m m' →
  alike (countPrefixed p (drop (BinarySearch l p) l) m) (tally m' (name <$> prefixed p l)).
Proof.
  intros Hs Hm. pose proof (BinarySearch_splits l Hs p) as Hk. rewrite (drop_ahead p l _ Hk).
  apply countPrefixed_alike; [| |done].
  - rewrite <- (take_drop (BinarySearch l p) l) in Hs. by apply StronglySorted_app_1_r in Hs.
  - intros e He. apply list_elem_of_lookup in He as [i Hi]. rewrite lookup_drop in Hi.
    destruct Hk as [_ Hk]. by apply (Hk (BinarySearch l p + i) e); [lia|].
Qed.

(** The basenames that are an id, a separator and more. *)
Definition follows (id b : string) : bool := existsb (λ sep, String.prefix (String.append id (String sep "")) b) idSeparators.
Lemma prefix_sep id c c' b :
  String.prefix (String.append id (String c "")) b = true → String.prefix (String.append id (String c' "")) b = true → c = c'.
Proof.
  revert b. induction id as [|a id IH]; intros b.
  - change (String.prefix (String c "") b = true → String.prefix (String c' "") b = true → c = c').
    destruct b as [|x b]; cbn; [done|]. destruct (ascii_dec c x) as [<-|]; [|done]. by destruct (ascii_dec c' c).
  - change (String.prefix (String a (String.append id (String c ""))) b = true →
      String.prefix (String a (String.append id (String c' ""))) b = true → c = c').
    destruct b as [|x b]; cbn; [done|]. destruct (ascii_dec a x); [apply IH|done].
Qed.
Lemma filters_join {A} (P Q : A → bool) l : (∀ x, P x = true → Q x = false) →
  List.filter P l ++ List.filter Q l ≡ₚ List.filter (λ x, P x || Q x) l.
Proof.
  intros H. induction l as [|x l IH]; [done|]. cbn. specialize (H x). destruct (P x), (Q x); cbn; rewrite <- ?IH; [by specialize (H eq_refl)|done|solve_Permutation|done].
Qed.
Lemma byPrefix_only idx id : StronglySorted baseLe (sorted idx) →
  unique (byPrefix idx id) = only (name <$> List.filter (λ e, follows id (base e)) (sorted idx)).
Proof.
  intros Hs. set (p c := String.append id (String c "")).
  assert (alike (byPrefix idx id) (tally (tally (tally noMatch (name <$> prefixed (p ".") (sorted idx)))
    (name <$> prefixed (p "-") (sorted idx))) (name <$> prefixed (p "_") (sorted idx)))%char) as ->%alike_unique.
  { unfold byPrefix, idSeparators. cbn [foldl]. by repeat apply search_alike; [..|left]. }
  unfold tally. rewrite <- !foldl_app, <- !fmap_app. fold (tally noMatch). rewrite tally_unique. apply only_perm, fmap_Permutation.
  unfold prefixed. rewrite !filters_join.
  - apply reflexive_eq, List.filter_ext. intros e. unfold follows, idSeparators. cbn [existsb]. by rewrite orb_false_r.
  - intros e H. apply orb_false_intro; apply not_true_is_false; intros H'; by apply (prefix_sep _ _ _ _ H) in H'.
  - intros e H. apply not_true_is_false. intros H'. by apply (prefix_sep _ _ _ _ H) in H'.
Qed.

(** ** The index finds what its names say *)

(** The entries of an archive: each clean name once, in its order. *)
Definition addName (E : list string) (n : string) : list string :=
  let c := normalizeEntry n in if String.eqb c "" || bool_decide (c ∈ E) then E else E ++ [c].
Definition entriesOf (names : list string) : list string := foldl addName [] names.
Definition ofBase (b : string) (E : list string) : list string := List.filter (λ c, String.eqb (Results.pathBase c) b) E.
Definition ofStem (id : string) (E : list string) : list string := List.filter (λ c, String.eqb (stemOf (Results.pathBase c)) id) E.
Definition ofPrefix (id : string) (E : list string) : list string := List.filter (λ c, follows id (Results.pathBase c)) E.
(** What an id names: the first entry with it as its basename; else the one
    whose basename is it less the extension; else the one whose basename is
    it, a separator and more. *)
Definition idNames (E : list string) (id : string) : option string :=
  if String.eqb id "" then None
  else match ofBase id E, ofStem id E with
       | c :: _, _ => Some c
       | [], [c] => Some c
       | [], [] => only (ofPrefix id E)
       | [], _ => None
       end.

Definition entry (c : string) : indexEntry := mkEntry (Results.pathBase c) c.
Record indexes (E : list string) (idx : Index) : Prop := {
  ix_names : byName idx = list_to_set E;
  ix_nonempty : ""%string ∉ E;
  ix_sorted : sorted idx ≡ₚ entry <$> E;
  ix_base : ∀ b, byBase idx !! b = head (ofBase b E);
  ix_stem : ∀ id, default noMatch (byStem idx !! id) = tally noMatch (ofStem id E);
}.
Lemma filter_last {A} (f : A → bool) l x : List.filter f (l ++ [x]) = List.filter f l ++ if f x then [x] else [].
Proof. rewrite List.filter_app. cbn. by destruct (f x). Qed.
Lemma addEntry_indexes E idx n : indexes E idx → indexes (addName E n) (addEntry idx n).
Proof.
  intros [H1 H2 H3 H4 H5]. unfold addEntry, addName. cbv zeta. set (c := normalizeEntry n). rewrite H1.
  replace (bool_decide (c ∈ list_to_set (C := gset string) E)) with (bool_decide (c ∈ E)) by (apply bool_decide_ext; symmetry; apply elem_of_list_to_set).
  destruct (String.eqb_spec c "") as [|Hc]; [by constructor|]. destruct (bool_decide (c ∈ E)) eqn:Hin; [by constructor|]. cbn [orb].
  constructor; cbn [byName byBase byStem sorted].
  - rewrite list_to_set_app_L. cbn. set_solver.
  - rewrite elem_of_app, list_elem_of_singleton. intros [?|?]; congruence.
  - by rewrite fmap_app, H3.
  - intros b. unfold ofBase. rewrite filter_last. fold (ofBase b E). specialize (H4 b) as Hb. specialize (H4 (Results.pathBase c)).
    destruct (String.eqb_spec (Results.pathBase c) b) as [<-|Hne].
    + destruct (byBase idx !! Results.pathBase c) eqn:Hk; [rewrite Hk; by destruct (ofBase _ E)|].
      rewrite lookup_insert_eq. by destruct (ofBase _ E).
    + rewrite app_nil_r, <- Hb. destruct (byBase idx !! Results.pathBase c); [done|]. by rewrite lookup_insert_ne.
  - intros id. unfold ofStem. rewrite filter_last. fold (ofStem id E). unfold addID.
    destruct (String.eqb_spec (stemOf (Results.pathBase c)) id) as [<-|Hne].
    + rewrite lookup_insert_eq, H5. cbn. unfold tally. by rewrite foldl_app.
    + rewrite lookup_insert_ne by done. by rewrite app_nil_r.
Qed.
Lemma NewIndex_indexes names : indexes (entriesOf names) (NewIndex names).
Proof.
  assert (∀ E idx, indexes E idx → indexes (foldl addName E names) (foldl addEntry idx names)) as H.
  { induction names as [|n names IH]; intros E idx Hi; [done|]. apply IH. by apply addEntry_indexes. }
  destruct (H [] emptyIndex) as [H1 H2 H3 H4 H5]; [by constructor; try set_solver|].
  constructor; try done. cbn. by rewrite merge_sort_Permutation.
Qed.

(** A name less its extension, with it, is the name. *)
Lemma extBack_spec l acc : ∀ e, extBack l acc = e → e = [] ∨ ∃ r t, e = "."%char :: t ∧ rev l ++ acc = r ++ e.
Proof.
  revert acc. induction l as [|c l IH]; intros acc e He; cbn in He; [by left|].
  destruct (Ascii.eqb_spec c "/"); [by left|]. destruct (Ascii.eqb_spec c ".") as [->|].
  - right. exists (rev l), acc. split; [done|]. cbn. by rewrite <- He, <- app_assoc.
  - destruct (IH _ _ He) as [|(r & t & Ht & Hr)]; [by left|right]. exists r, t. split; [done|]. cbn. by rewrite <- app_assoc.
Qed.
Lemma pathExt_spec s : pathExt s = ""%string ∨ ∃ r t, pathExt s = String "." t ∧ s = String.append r (String "." t).
Proof.
  unfold pathExt. destruct (extBack_spec (rev (bytes_of s)) [] _ eq_refl) as [->|(r & t & Ht & Hr)]; [by left|right].
  rewrite rev_involutive, app_nil_r, Ht in Hr. rewrite Ht. exists (string_of r), (string_of t). split; [done|].
  rewrite <- (string_of_bytes s), Hr. rewrite <- (string_of_bytes (String.append _ _)), bytes_of_append. f_equal.
  change (bytes_of (String "." (string_of t))) with ("."%char :: bytes_of (string_of t)). by rewrite !bytes_of_string.
Qed.
Lemma substring_front s t : String.substring 0 (String.length s) (String.append s t) = s.
Proof. induction s as [|a s IH]; [by destruct t|]. change (String a (String.substring 0 (String.length s) (String.append s t)) = String a s). by rewrite IH. Qed.
Lemma substring_back s t : String.substring (String.length s) (String.length t) (String.append s t) = t.
Proof.
  induction s as [|a s IH]; [|exact IH]. change (String.substring 0 (String.length t) t = t).
  rewrite <- (string_app_nil_r t) at 2. apply substring_front.
Qed.
Lemma length_append s t : String.length (String.append s t) = String.length s + String.length t.
Proof. by rewrite <- !bytes_of_length, bytes_of_append, length_app. Qed.
Lemma TrimSuffix_append s t : Timeline.TrimSuffix (String.append s t) t = s.
Proof.
  unfold Timeline.TrimSuffix. rewrite length_append. replace (_ + _ - _) with (String.length s) by lia.
  rewrite substring_back, String.eqb_refl, bool_decide_eq_true_2 by lia. apply substring_front.
Qed.
Lemma prefix_append s t : String.prefix s (String.append s t) = true.
Proof.
  induction s as [|a s IH]; [by destruct t|]. change (String.prefix (String a s) (String a (String.append s t)) = true).
  cbn. by destruct (ascii_dec a a).
Qed.
Lemma stem_follows b id : stemOf b = id → b = id ∨ follows id b = true.
Proof.
  unfold stemOf. destruct (pathExt_spec b) as [He|(r & t & He & Hb)]; rewrite He.
  - rewrite <- (string_app_nil_r b) at 1. rewrite TrimSuffix_append. by left.
  - rewrite Hb at 1. rewrite TrimSuffix_append. intros <-. right. unfold follows, idSeparators. cbn [existsb].
    rewrite Hb. change (String "." t) with (String.append "." t). by rewrite <- string_app_assoc, prefix_append.
Qed.
Lemma filter_more {A} (f g : A → bool) l : (∀ x, x ∈ l → f x = true → g x = true) → length (List.filter f l) ≤ length (List.filter g l).
Proof.
  induction l as [|x l IH]; intros H; [done|]. cbn. specialize (IH ltac:(intros y Hy; apply H; by right)).
  destruct (f x) eqn:Hf; [rewrite (H x ltac:(by left) Hf); cbn; lia|destruct (g x); cbn; lia].
Qed.

Lemma filter_entries f E : name <$> List.filter (λ e, f (base e)) (entry <$> E) = List.filter (λ c, f (Results.pathBase c)) E.
Proof.
  induction E as [|c E IH]; [done|]. rewrite fmap_cons. cbn [List.filter]. change (base (entry c)) with (Results.pathBase c).
  destruct (f (Results.pathBase c)); [|done]. by rewrite fmap_cons, IH.
Qed.
#[global] Instance filter_perm {A} (f : A → bool) : Proper ((≡ₚ) ==> (≡ₚ)) (List.filter f).
Proof.
  intros l k H. induction H as [|x l k H IH|x y l|l k h H1 IH1 H2 IH2]; cbn; [done| | |by etrans].
  - by destruct (f x); rewrite ?IH.
  - destruct (f x), (f y); try done. constructor.
Qed.

Lemma ids_named names l id :
  l ≡ₚ sorted (NewIndex names) → Sorted baseLe l →
  let idx := NewIndex names in
  ByIDPrefix (Some (mkIndex (byName idx) (byBase idx) (byStem idx) l)) id = idNames (entriesOf names) (TrimSpace id).
Proof.
  intros Hp Hs. cbv zeta. destruct (NewIndex_indexes names) as [_ _ Hsorted Hbase Hstem].
  unfold ByIDPrefix, idNames. cbn [mbind option_bind byBase byStem]. generalize (TrimSpace id). clear id. intros id.
  destruct (String.eqb id ""); [done|]. rewrite Hbase. destruct (ofBase id (entriesOf names)) as [|c cs] eqn:Hb; [|done]. cbn [head].
  assert (byStem (NewIndex names) !! id ≫= unique = only (ofStem id (entriesOf names))) as ->.
  { rewrite <- tally_unique, <- Hstem. by destruct (byStem _ !! id). }
  assert (unique (byPrefix (mkIndex (byName (NewIndex names)) (byBase (NewIndex names)) (byStem (NewIndex names)) l) id) =
    only (ofPrefix id (entriesOf names))) as ->.
  { rewrite byPrefix_only by (apply Sorted_StronglySorted; [|done]; intros x y z; unfold baseLe; by etrans).
    cbn [sorted]. apply only_perm. rewrite Hp, Hsorted. by rewrite (filter_entries (follows id)). }
  destruct (ofStem id (entriesOf names)) as [|c1 [|c2 cs]] eqn:Hst; [done..|]. cbn [only].
  assert (2 ≤ length (ofPrefix id (entriesOf names))) as H2; [|by destruct (ofPrefix id _) as [|? [|? ?]]; cbn in H2; try lia].
  transitivity (length (ofStem id (entriesOf names))); [rewrite Hst; cbn; lia|]. apply filter_more.
  intros c Hc Hcs%String.eqb_eq. destruct (stem_follows _ _ Hcs) as [He|]; [|done].
  assert (c ∈ ofBase id (entriesOf names)) as H; [apply filter_incl; split; [done|by apply String.eqb_eq]|]. rewrite Hb in H. by apply not_elem_of_nil in H.
Qed.

(** C26. An id finds the entry the names of the archive say, whichever order
    sorting leaves entries of one basename in: the binary searches find what
    reading every name would, and no id finds one of several entries it names
    alike. *)
Theorem ids_exact names l id :
  l ≡ₚ sorted (NewIndex names) → Sorted baseLe l →
  let idx := NewIndex names in
  ByIDPrefix (Some (mkIndex (byName idx) (byBase idx) (byStem idx) l)) id = idNames (entriesOf names) (TrimSpace id).
Proof. apply ids_named. Qed.

(** ** What a conversation reaches of an archive *)

(** A path below the archive's top, with no step up. *)
Definition below (e : string) : Prop := ∀ s, s ∈ segments (bytes_of e) → s ∉ [""; "."; ".."]%string.
Definition slashless (s : string) : Prop := "/"%char ∉ bytes_of s.
Lemma segments_slashless l s : s ∈ segments l → slashless s.
Proof.
  revert s. induction l as [|c l IH]; intros s; cbn.
  - intros ->%list_elem_of_singleton. unfold slashless. cbn. apply not_elem_of_nil.
  - destruct (Ascii.eqb_spec c "/") as [->|Hc].
    + intros [->|Hs]%elem_of_cons; [unfold slashless; cbn; apply not_elem_of_nil|by apply IH].
    + assert (∀ x, slashless x → slashless (String c x)) as Hcons by (unfold slashless; cbn; set_solver).
      destruct (segments l) as [|x xs]; intros Hs.
      * apply list_elem_of_singleton in Hs as ->. apply Hcons. unfold slashless. cbn. apply not_elem_of_nil.
      * apply elem_of_cons in Hs as [->|Hs]; [apply Hcons, IH; by left|apply IH; by right].
Qed.
Lemma segments_front s l : slashless s →
  segments (bytes_of s ++ l) = match segments l with x :: xs => String.append s x :: xs | [] => [s] end.
Proof.
  induction s as [|c s IH]; intros Hs.
  - change (bytes_of "" ++ l) with l. destruct l as [|c l]; [done|]. cbn.
    destruct (Ascii.eqb c "/"); [done|]. by destruct (segments l).
  - unfold slashless in Hs. cbn in Hs. apply not_elem_of_cons in Hs as [Hc Hs].
    change (bytes_of (String c s) ++ l) with (c :: (bytes_of s ++ l)). cbn. destruct (Ascii.eqb_spec c "/"); [congruence|].
    rewrite IH by exact Hs. by destruct (segments l).
Qed.
Lemma segments_slash l : segments ("/"%char :: l) = ""%string :: segments l.
Proof. done. Qed.
Lemma segments_join ss : ss ≠ [] → (∀ s, s ∈ ss → slashless s) → segments (bytes_of (Join ss "/")) = ss.
Proof.
  intros Hne Hss. induction ss as [|s [|s' ss] IH]; [done| |].
  - cbn [Join]. rewrite <- (app_nil_r (bytes_of s)), segments_front by (apply Hss; by left). cbn. by rewrite string_app_nil_r.
  - change (Join (s :: s' :: ss) "/") with (String.append s (String.append "/" (Join (s' :: ss) "/"))).
    specialize (IH ltac:(done) ltac:(intros x Hx; apply Hss; by right)). revert IH. generalize (Join (s' :: ss) "/"). intros rest IH.
    rewrite bytes_of_append, segments_front by (apply Hss; by left). rewrite bytes_of_append. change (bytes_of "/") with ["/"%char].
    cbn [app]. by rewrite segments_slash, IH, string_app_nil_r.
Qed.
Lemma clean_kept ss kept s : s ∈ foldl cleanSegment kept ss → s ∈ kept ∨ s ∈ ss ∧ s ∉ [""; "."; ".."]%string.
Proof.
  revert kept. induction ss as [|x ss IH]; intros kept Hs; [by left|]. destruct (IH _ Hs) as [Hk|[Hin Hn]]; [|right; set_solver].
  unfold cleanSegment in Hk. destruct (String.eqb_spec x ""), (String.eqb_spec x "."); [by left..|]. cbn in Hk.
  destruct (String.eqb_spec x ".."); [left; by destruct kept; [|right]|].
  apply elem_of_cons in Hk as [->|Hk]; [right; set_solver|by left].
Qed.
Lemma normalize_below n : normalizeEntry n ≠ ""%string → below (normalizeEntry n).
Proof.
  unfold normalizeEntry, below. set (ss := rev _). intros Hne.
  assert (∀ s, s ∈ ss → slashless s ∧ s ∉ [""; "."; ".."]%string) as Hss.
  { intros s Hs. unfold ss in Hs. rewrite list_elem_of_In, <- in_rev, <- list_elem_of_In in Hs.
    apply clean_kept in Hs as [H%not_elem_of_nil|[Hs Hn]]; [done|]. split; [by eapply segments_slashless|done]. }
  rewrite segments_join; [intros s Hs; by apply Hss|by intros Hn; rewrite Hn in Hne|intros s Hs; by apply Hss].
Qed.
Lemma entries_clean_names names e : e ∈ entriesOf names → below e ∧ ∃ n, n ∈ names ∧ e = normalizeEntry n.
Proof.
  unfold entriesOf. assert (∀ E, e ∈ foldl addName E names → e ∈ E ∨ e ≠ ""%string ∧ ∃ n, n ∈ names ∧ e = normalizeEntry n) as H.
  { induction names as [|n names IH]; intros E He; [by left|]. destruct (IH _ He) as [Hin|(H1 & x & Hx & Hex)]; [|right; set_solver].
    unfold addName in Hin. destruct (String.eqb_spec (normalizeEntry n) ""); [by left|]. cbn in Hin.
    destruct (bool_decide _); [by left|]. apply elem_of_app in Hin as [?| ->%list_elem_of_singleton]; [by left|right].
    split; [done|]. exists n. split; [by left|done]. }
  intros [Hn%not_elem_of_nil|(Hne & n & Hn & ->)]%H; [done|]. split; [by apply normalize_below|by exists n].
Qed.

Lemma entriesOf_in names n : n ∈ names → normalizeEntry n ≠ ""%string → normalizeEntry n ∈ entriesOf names.
Proof.
  intros Hn Hne. unfold entriesOf. assert (∀ E, n ∈ names ∨ normalizeEntry n ∈ E → normalizeEntry n ∈ foldl addName E names) as H; [|apply H; by left].
  clear Hn. induction names as [|x names IH]; intros E Hn; [by destruct Hn as [?%not_elem_of_nil|]|]. apply IH. unfold addName.
  destruct Hn as [[->|Hn]%elem_of_cons|Hn]; [right|by left|right].
  - rewrite (proj2 (String.eqb_neq _ _)) by done. cbn. destruct (bool_decide _) eqn:Hb; [by apply bool_decide_eq_true in Hb|].
    apply elem_of_app. right. by left.
  - destruct (_ || _); [done|]. apply elem_of_app. by left.
Qed.

(** An attachment names no entry, or one the archive holds. *)
Definition held (names : option (list string)) (a : Attachment) : Prop :=
  Entry a = ""%string ∨ ∃ l, names = Some l ∧ Entry a ∈ entriesOf l.
Definition holds (names : option (list string)) (e : option string) : Prop :=
  ∀ n, e = Some n → ∃ l, names = Some l ∧ n ∈ entriesOf l.
Lemma Exact_held names ref : holds names (Exact (NewIndex <$> names) ref).
Proof.
  intros n Hn. destruct names as [l|]; [|done]. exists l. split; [done|]. cbn in Hn.
  destruct (bool_decide _) eqn:Hin; [|done]. cbn in Hn. destruct (negb _); [|done]. injection Hn as <-.
  apply bool_decide_eq_true in Hin. pose proof (ix_names _ _ (NewIndex_indexes l)) as H. cbn in H. rewrite H in Hin. by apply elem_of_list_to_set in Hin.
Qed.
Lemma Exact_entry names n : n ∈ names → normalizeEntry n = n → n ≠ ""%string → Exact (Some (NewIndex names)) n = Some n.
Proof.
  intros Hn Hc Hne. unfold Exact. cbn [mbind option_bind]. rewrite Hc, (ix_names _ _ (NewIndex_indexes names)).
  assert (n ∈ entriesOf names) as Hin by (rewrite <- Hc; apply entriesOf_in; congruence).
  rewrite bool_decide_eq_true_2 by by apply elem_of_list_to_set. by rewrite (proj2 (String.eqb_neq n "")).
Qed.
Lemma ofBase_held b l n : head (ofBase b (entriesOf l)) = Some n → n ∈ entriesOf l.
Proof.
  intros H. assert (n ∈ ofBase b (entriesOf l)) as Hin by (destruct (ofBase b (entriesOf l)); [done|injection H as ->; by left]).
  by apply filter_incl in Hin as [? _].
Qed.
Lemma Basename_held names ref : holds names (Basename (NewIndex <$> names) ref).
Proof.
  intros n Hn. destruct names as [l|]; [|done]. exists l. split; [done|]. unfold Basename in Hn. cbn [fmap option_fmap option_map mbind option_bind] in Hn.
  destruct (String.eqb _ ""); [done|]. rewrite (ix_base _ _ (NewIndex_indexes l)) in Hn. by apply ofBase_held in Hn.
Qed.
Lemma only_held f l (n : string) : only (List.filter f (entriesOf l)) = Some n → n ∈ entriesOf l.
Proof.
  intros H. assert (n ∈ List.filter f (entriesOf l)) as Hin by (destruct (List.filter f (entriesOf l)) as [|? [|? ?]]; [done|injection H as ->; by left|done]).
  by apply filter_incl in Hin as [? _].
Qed.
Lemma ByIDPrefix_held names id : holds names (ByIDPrefix (NewIndex <$> names) id).
Proof.
  intros n Hn. destruct names as [l|]; [|done]. exists l. split; [done|]. cbn [fmap option_fmap option_map] in Hn.
  assert (ByIDPrefix (Some (NewIndex l)) id = idNames (entriesOf l) (TrimSpace id)) as H.
  { apply (ids_named l (sorted (NewIndex l)) id); [done|]. apply Sorted_merge_sort. intros x y. apply String.le_total. }
  rewrite H in Hn.
  unfold idNames in Hn. destruct (String.eqb _ ""); [done|].
  destruct (ofBase _ _) as [|c cs] eqn:Hb; [|injection Hn as ->; eapply ofBase_held; by rewrite Hb].
  destruct (ofStem _ _) as [|c [|c' cs]] eqn:Hs; [by apply only_held in Hn| |done].
  apply (only_held (λ c, String.eqb (stemOf (Results.pathBase c)) (TrimSpace id))). unfold ofStem in Hs. by rewrite Hs.
Qed.

Lemma foldl_holds {A B} (P : A → Prop) (f : A → B → A) l s : (∀ s x, P s → P (f s x)) → P s → P (foldl f s l).
Proof. intros Hf. revert s. induction l as [|x l IH]; intros s Hs; [done|]. by apply IH, Hf. Qed.

Section Reach.
Context (ParseFloat : string → option Q) (UnixTime : Q → Z).
Context (ParseTime ParseLocal : string → option Z) (Format_ : Z → string).
Context (names : option (list string)).
#[local] Abbreviation index := (NewIndex <$> names).

(** A message an import takes: of the user or the assistant, with text or an
    attachment, each attachment within the archive. *)
Definition well_read (m : Message) : Prop :=
  Role m ∈ ["user"; "assistant"]%string ∧ (Content m = ""%string → Attachments m ≠ []) ∧ Forall (held names) (Attachments m).

Lemma no_entry a : Entry a = ""%string → held names a.
Proof. by left. Qed.
Lemma an_entry a e : holds names e → e = Some (Entry a) → held names a.
Proof. intros H He. right. by apply H. Qed.
Lemma gptFile_held f : held names (gptFile index f).1.
Proof.
  destruct f as [[ref fileName] mime]. unfold gptFile. destruct (ByIDPrefix index (trimFileID ref)) as [e|] eqn:He; [|by apply no_entry].
  by eapply an_entry; [apply ByIDPrefix_held|exact He].
Qed.
Lemma gptPointer_held p a : gptPointer index p = Some a → held names a.1.
Proof.
  unfold gptPointer. destruct (ByIDPrefix index (trimFileID p)) as [e|] eqn:He; [|done]. intros [= <-].
  by eapply an_entry; [apply ByIDPrefix_held|exact He].
Qed.
Lemma addAttachment_held l s : Forall (λ a : Attachment * string, held names a.1) l → Forall (held names) s.1 →
  Forall (held names) (foldl (λ s a, addAttachment s a.1 a.2) s l).1.
Proof.
  intros Hl. revert s. induction Hl as [|a l Ha Hl IH]; intros s Hs; [done|]. apply IH. destruct s as [out seen].
  unfold addAttachment. destruct (_ && _); [done|]. cbn in *. apply Forall_app. split; [done|by constructor].
Qed.
Lemma gptAttachments_held m pointers : Forall (held names) (chatgptAttachments m pointers index).
Proof.
  apply addAttachment_held; [|constructor]. apply Forall_app. split; rewrite Forall_forall.
  - intros a (f & -> & _)%list_elem_of_fmap. apply gptFile_held.
  - intros a (p & _ & Ha)%list_elem_of_omap. by eapply gptPointer_held.
Qed.
Lemma nodeMessage_read conv n m : nodeMessage UnixTime conv index n = Some (Some m) → well_read m.
Proof.
  unfold nodeMessage. destruct (g_Mapping conv !! n) as [[[msg|] parent children]|]; [|done..].
  destruct (chatgptRenderable msg) eqn:Hr; [|done]. unfold chatgptMessageOf. destruct (gptParts _) as [texts pointers].
  destruct (_ && _) eqn:He; [done|]. destruct (if String.eqb (g_Role msg) "assistant" then _ else _) as [thoughts|]; [|done].
  intros Hm. assert (Hr' := Hr). unfold chatgptRenderable, contains in Hr'.
  rewrite !andb_true_iff in Hr'. destruct Hr' as [[Hrole _] _]. cbn [existsb] in Hrole.
  apply andb_false_iff in He. cbn in Hm. injection Hm as <-. split_and!; cbn [Role Content Attachments].
  - destruct (String.eqb_spec (g_Role msg) "user"), (String.eqb_spec (g_Role msg) "assistant"); try done; set_solver.
  - intros Hc Hn. rewrite Hc, Hn in He. by destruct He.
  - apply gptAttachments_held.
Qed.

Lemma visit_read conv n s s' : Forall well_read s.2 → visit UnixTime conv index s n = Some s' → Forall well_read s'.2.
Proof.
  destruct s as [vs ms]. intros Hs. unfold visit. destruct (bool_decide _); [by intros [= <-]|].
  destruct (nodeMessage _ _ _ n) as [m|] eqn:Hm; [|done]. intros [= <-]. apply Forall_app. split; [done|].
  destruct m; [|done]. constructor; [by eapply nodeMessage_read|done].
Qed.
Lemma follow_read fuel conv s n s' : Forall well_read s.2.2 → follow UnixTime fuel conv index s n = Some s' → Forall well_read s'.2.2.
Proof.
  revert s n. induction fuel as [|fuel IH]; intros [followed st] n Hs; [done|]. cbn. destruct (bool_decide _); [by intros [= <-]|].
  destruct (visit _ _ _ st n) as [st'|] eqn:Hv; [|done]. cbn. apply visit_read in Hv; [|done].
  destruct (g_Mapping conv !! n) as [[? ? [|child cs]]|]; [by intros [= <-]|by apply IH|by intros [= <-]].
Qed.
Lemma gptMessages_read conv ms : gptMessages UnixTime conv index = Some ms → Forall well_read ms.
Proof.
  unfold gptMessages. destruct (chatgptActivePath conv) as [[|b bs]|]; [..|done]; cbn [mbind option_bind].
  - destruct (each _ _ _) as [s|] eqn:He; [|done]. intros [= <-].
    apply (each_holds (λ s, Forall well_read s.2.2)) in He; [done| |constructor]. intros s0 n s' Hs. by apply follow_read.
  - destruct (each _ _ _) as [s|] eqn:He; [|done]. intros [= <-].
    apply (each_holds (λ s, Forall well_read s.2)) in He; [done| |constructor]. intros s0 n s' Hs. by apply visit_read.
Qed.

Lemma claudeAttached_held a b : claudeAttached index a = Some b → held names b.
Proof.
  unfold claudeAttached. destruct (String.eqb (ca_Type a) "image").
  - destruct (Exact index (ca_ExportPath a)) as [e|] eqn:He; [destruct (String.eqb (ca_ExportPath a) "")|]; intros [= <-]; try by apply no_entry.
    by eapply an_entry; [apply Exact_held|exact He].
  - destruct (_ || _); [by intros [= <-]; apply no_entry|]. destruct (negb _); [by intros [= <-]; apply no_entry|done].
Qed.
Lemma claudeFile_held s f : Forall (held names) s.1 → Forall (held names) (claudeFileAttached index s f).1.
Proof.
  destruct s as [out seen]. intros Hs. unfold claudeFileAttached. cbv zeta. destruct (_ || _); [done|].
  destruct (match ByIDPrefix _ _ with Some _ => _ | None => _ end) as [e|] eqn:He; cbn [fst]; [|done].
  destruct (isImage "" e); [|done]. apply Forall_app. split; [done|]. constructor; [|done]. right. cbn [Entry].
  destruct (ByIDPrefix index _) as [e1|] eqn:H1; [injection He as ->; by apply ByIDPrefix_held in H1|].
  destruct (Exact index _) as [e2|] eqn:H2; [injection He as ->; by apply Exact_held in H2|]. by apply Basename_held in He.
Qed.
Lemma claudeMessage_read cm m : claudeMessageOf ParseTime ParseLocal index cm = Some m → well_read m.
Proof.
  unfold claudeMessageOf. destruct (_ || _) eqn:He; [done|]. intros [= <-]. apply orb_false_iff in He as [Hr He].
  split_and!; cbn [Role Content Attachments].
  - unfold claudeRole in *. destruct (String.eqb (cm_Sender cm) "human"); [by left|].
    destruct (String.eqb (cm_Sender cm) "assistant"); [by right; left|done].
  - intros Hc Hn. rewrite Hc, Hn in He. done.
  - apply (foldl_holds (λ s, Forall (held names) s.1)); [intros s f Hs; by apply claudeFile_held|].
    apply Forall_forall. intros b (a & _ & Ha)%list_elem_of_omap. by eapply claudeAttached_held.
Qed.

(** C40. Whatever an export says, a conversation read of it has messages, each
    of the user or the assistant with text or an attachment, and its
    attachments name entries of the archive it came with, each a path within
    the archive, or none. *)
Theorem entries_held record c :
  ReadChatGPT ParseFloat UnixTime Format_ record index = Some (Ok (Some c)) ∨ ReadClaude ParseTime ParseLocal record index = Ok (Some c) →
  Messages c ≠ [] ∧ Forall well_read (Messages c) ∧
  ∀ m a, m ∈ Messages c → a ∈ Attachments m → Entry a ≠ ""%string →
    below (Entry a) ∧ ∃ l n, names = Some l ∧ n ∈ l ∧ Entry a = normalizeEntry n.
Proof.
  intros H. assert (Messages c ≠ [] ∧ Forall well_read (Messages c)) as [H1 H2].
  { destruct H as [H|H].
    - unfold ReadChatGPT in H. destruct (decodeGPT ParseFloat record) as [conv|]; [|done].
      destruct (gptMessages UnixTime conv index) as [ms|] eqn:Hm; [|done]. apply gptMessages_read in Hm.
      cbn in H. destruct ms; [done|]. by injection H as <-.
    - unfold ReadClaude in H. destruct (decodeClaude record) as [conv|]; [|done].
      destruct (omap (claudeMessageOf _ _ _) _) as [|m ms] eqn:Hm; [done|]. injection H as <-. cbn [Messages]. rewrite <- Hm. split; [by rewrite Hm|].
      apply Forall_forall. intros x (y & _ & Hx)%list_elem_of_omap. by eapply claudeMessage_read. }
  split_and!; [done..|]. intros m a Hm Ha He. rewrite Forall_forall in H2. destruct (H2 m Hm) as (_ & _ & Hh). rewrite Forall_forall in Hh.
  destruct (Hh a Ha) as [?|(l & Hl & Hin)]; [done|]. apply entries_clean_names in Hin as [Hb (n & Hn & Heq)]. split; [done|]. by exists l, n.
Qed.
End Reach.

(** ** A conversation is read along its branch *)

Section Branch.
Context (m : gmap string chatgptNode).

Definition isRoot (c : string) : bool := String.eqb c "" || String.eqb c chatgptRoot.
(** The nodes from a root down to one, by their parents. *)
Inductive leads : string → list string → Prop :=
  | leads_root c : isRoot c = true → leads c []
  | leads_up c node p : isRoot c = false → m !! c = Some node → leads (n_Parent node) p → leads c (p ++ [c]).

Lemma leads_unique c p q : leads c p → leads c q → p = q.
Proof.
  intros Hp. revert q. induction Hp as [c Hc|c node p Hc Hn Hp IH]; intros q Hq; inversion Hq; subst; try congruence.
  assert (node0 = node) as -> by congruence. by rewrite (IH p0).
Qed.
Lemma leads_within c p x : leads c p → x ∈ p → ∃ q, leads x q ∧ length q ≤ length p ∧ is_Some (m !! x).
Proof.
  intros Hp. induction Hp as [c Hc|c node p Hc Hn Hp IH]; [by intros ?%not_elem_of_nil|].
  intros [Hx| ->%list_elem_of_singleton]%elem_of_app.
  - destruct (IH Hx) as (q & Hq & Hl & Hs). exists q. split_and!; [done|rewrite length_app; lia|done].
  - exists (p ++ [c]). split_and!; [by eapply leads_up|done|by rewrite Hn].
Qed.
Lemma leads_nodup c p : leads c p → NoDup p.
Proof.
  intros Hp. induction Hp as [c Hc|c node p Hc Hn Hp IH]; [constructor|]. apply NoDup_app. split_and!; [done| |apply NoDup_singleton].
  intros x Hx ->%list_elem_of_singleton. destruct (leads_within _ _ _ Hp Hx) as (q & Hq & Hl & _).
  assert (q = p ++ [c]) as -> by (eapply leads_unique; [exact Hq|by eapply leads_up]). rewrite length_app in Hl. cbn in Hl. lia.
Qed.
Lemma leads_size c p : leads c p → length p ≤ size m.
Proof.
  intros Hp. rewrite <- size_dom, <- (size_list_to_set (C := gset string)) by by eapply leads_nodup. apply subseteq_size.
  intros x Hx%elem_of_list_to_set. apply elem_of_dom. by destruct (leads_within _ _ _ Hp Hx) as (q & _ & _ & Hs).
Qed.

Lemma climb_leads fuel seen c acc path : climb fuel m seen c acc = Some (Some path) → ∃ p, leads c p ∧ path = p ++ acc.
Proof.
  revert seen c acc. induction fuel as [|fuel IH]; intros seen c acc H; cbn in H; fold (isRoot c) in H; destruct (isRoot c) eqn:Hc; try done.
  1, 2: injection H as <-; exists []; split; [by constructor|done].
  destruct (m !! c) as [node|] eqn:Hn; [|done]. destruct (bool_decide (c ∈ seen)); [done|].
  destruct (IH _ _ _ H) as (p & Hp & ->). exists (p ++ [c]). split; [by eapply leads_up|by rewrite <- app_assoc].
Qed.
Lemma leads_climb c p : leads c p → ∀ fuel seen acc, length p ≤ fuel → (∀ x, x ∈ p → x ∉ seen) →
  climb fuel m seen c acc = Some (Some (p ++ acc)).
Proof.
  intros Hp. pose proof (leads_nodup _ _ Hp) as Hnd. revert Hnd. induction Hp as [c Hc|c node p Hc Hn Hp IH]; intros Hnd fuel seen acc Hf Hs.
  - destruct fuel; cbn; fold (isRoot c); by rewrite Hc.
  - rewrite length_app in Hf. cbn in Hf. destruct fuel as [|fuel]; [lia|]. cbn. fold (isRoot c). rewrite Hc, Hn.
    rewrite bool_decide_eq_false_2 by (apply Hs, elem_of_app; right; by left). apply NoDup_app in Hnd as (Hnd & Hd & _).
    rewrite <- app_assoc. apply IH; [done|lia|]. intros x Hx. specialize (Hs x ltac:(apply elem_of_app; by left)).
    specialize (Hd x Hx). set_solver.
Qed.

(** The nodes a walk has not met: one fewer with each it meets. *)
Definition unseen (seen : gset string) : nat := size (dom m ∖ seen).
Lemma unseen_meets seen c : is_Some (m !! c) → c ∉ seen → unseen ({[c]} ∪ seen) < unseen seen.
Proof.
  intros Hc Hs. unfold unseen. apply subset_size. apply elem_of_dom in Hc. set_solver.
Qed.
Lemma unseen_bound seen : unseen seen ≤ size m.
Proof. unfold unseen. rewrite <- size_dom. apply subseteq_size. set_solver. Qed.
(** No walk runs out of fuel while nodes are unseen. *)
Lemma climb_ends fuel seen c acc : unseen seen < fuel → is_Some (climb fuel m seen c acc).
Proof.
  revert seen c acc. induction fuel as [|fuel IH]; intros seen c acc Hf; [lia|]. cbn. case_match; [by eexists|].
  destruct (m !! c) as [node|] eqn:Hn; [|by eexists]. case_bool_decide as Hs; [by eexists|].
  apply IH. pose proof (unseen_meets seen c (ex_intro _ _ Hn) Hs). lia.
Qed.
Lemma thoughts_end fuel seen c : unseen seen < fuel → is_Some (thoughtsFrom fuel m seen c).
Proof.
  revert seen c. induction fuel as [|fuel IH]; intros seen c Hf; [lia|]. cbn. destruct (_ || _) eqn:Hs; [by eexists|].
  apply orb_false_iff in Hs as [_ Hs%bool_decide_eq_false].
  destruct (m !! c) as [[msg parent children]|] eqn:Hn; [|by eexists]. cbn.
  assert (Hup : is_Some (thoughtsFrom fuel m ({[c]} ∪ seen) parent)).
  { apply IH. pose proof (unseen_meets seen c (ex_intro _ _ Hn) Hs). lia. }
  destruct msg as [msg|]; [|done]. destruct (String.eqb _ _); [by eexists|]. destruct (_ && _); [by eexists|done].
Qed.
End Branch.
Lemma path_ends conv : is_Some (chatgptActivePath conv).
Proof.
  unfold chatgptActivePath. destruct (climb_ends (g_Mapping conv) (S (size (g_Mapping conv))) ∅ (g_CurrentNode conv) []) as [p ->].
  - pose proof (unseen_bound (g_Mapping conv) ∅). lia.
  - by eexists.
Qed.
Lemma path_leads conv p : p ≠ [] → chatgptActivePath conv = Some p ↔ leads (g_Mapping conv) (g_CurrentNode conv) p.
Proof.
  intros Hp. unfold chatgptActivePath. split.
  - destruct (climb _ _ _ _ _) as [[q|]|] eqn:Hc; [|by intros [= <-]|done]. intros [= <-].
    apply climb_leads in Hc as (q' & Hq & ->). by rewrite app_nil_r.
  - intros Hl. rewrite (leads_climb _ _ _ Hl); [cbn; by rewrite app_nil_r|pose proof (leads_size _ _ _ Hl); lia|set_solver].
Qed.
Lemma nodeMessage_ends UnixTime conv index n : is_Some (nodeMessage UnixTime conv index n).
Proof.
  unfold nodeMessage. destruct (g_Mapping conv !! n) as [[[msg|] parent children]|]; [|by eexists..].
  destruct (chatgptRenderable msg); [|by eexists]. unfold chatgptMessageOf. destruct (gptParts _). destruct (_ && _); [by eexists|].
  destruct (String.eqb (g_Role msg) "assistant"); [|by eexists]. unfold chatgptThoughts.
  destruct (thoughts_end (g_Mapping conv) (S (S (size (g_Mapping conv)))) ∅ n) as [s ->]; [|by eexists].
  pose proof (unseen_bound (g_Mapping conv) ∅). lia.
Qed.

Section Visits.
Context (UnixTime : Q → Z) (conv : chatgptConversation) (index : option Index).
#[local] Abbreviation m := (g_Mapping conv).
(** What a node reads as. *)
Definition read (n : string) : option Message := default None (nodeMessage UnixTime conv index n).
Lemma read_node n : nodeMessage UnixTime conv index n = Some (read n).
Proof. unfold read. by destruct (nodeMessage_ends UnixTime conv index n) as [o ->]. Qed.

(** The state of the visits: the nodes visited, in order. *)
Definition visited (vs : list string) (s : gset string * list Message) : Prop :=
  NoDup vs ∧ s = (list_to_set vs, omap read vs).
Lemma visit_visited vs s n : visited vs s → n ∉ vs → ∃ s', visit UnixTime conv index s n = Some s' ∧ visited (vs ++ [n]) s'.
Proof.
  intros [Hnd ->] Hn. unfold visit. rewrite bool_decide_eq_false_2 by by rewrite elem_of_list_to_set. rewrite read_node. cbn.
  eexists. split; [done|]. split; [apply NoDup_app; split_and!; [done|set_solver|apply NoDup_singleton]|]. f_equal.
  - rewrite list_to_set_app_L. cbn. set_solver.
  - by rewrite omap_app.
Qed.
Lemma visit_path p : ∀ vs s, visited vs s → NoDup (vs ++ p) → ∃ s', each (visit UnixTime conv index) s p = Some s' ∧ visited (vs ++ p) s'.
Proof.
  induction p as [|n p IH]; intros vs s Hv Hnd; cbn; [exists s; by rewrite app_nil_r|].
  destruct (visit_visited vs s n Hv) as (s1 & -> & Hv1); [apply NoDup_app in Hnd as (_ & Hd & _); intros Hn; apply (Hd n Hn); by left|].
  cbn. destruct (IH _ _ Hv1) as (s' & Hs & Hv'); rewrite <- app_assoc in *; [done|]. by exists s'.
Qed.

Definition firstChild (n c : string) : Prop := ∃ node cs, m !! n = Some node ∧ n_Children node = c :: cs.
(** Every node visited has its first child visited, or about to be. *)
Definition closed (pending : option string) (vs : list string) : Prop :=
  ∀ n c, n ∈ vs → firstChild n c → c ∈ vs ∨ pending = Some c.
Definition reached (from : string → Prop) (vs : list string) : Prop := ∀ n, n ∈ vs → from n ∨ ∃ x, x ∈ vs ∧ firstChild x n.
Lemma follow_visited fuel vs st n : visited vs st → unseen m (list_to_set vs) < fuel → closed (Some n) vs →
  ∃ ws st', follow UnixTime fuel conv index (list_to_set vs, st) n = Some (list_to_set (vs ++ ws), st') ∧
    visited (vs ++ ws) st' ∧ n ∈ vs ++ ws ∧ closed None (vs ++ ws) ∧
    ∀ from, reached from vs → (from n ∨ ∃ x, x ∈ vs ∧ firstChild x n) → reached from (vs ++ ws).
Proof.
  revert vs st n. induction fuel as [|fuel IH]; intros vs st n Hv Hf Hc; [lia|]. cbn.
  destruct (bool_decide (n ∈ list_to_set vs)) eqn:Hin.
  { apply bool_decide_eq_true, elem_of_list_to_set in Hin. exists [], st. rewrite app_nil_r. split_and!; [done..| |done].
    intros x c Hx Hxc. destruct (Hc x c Hx Hxc) as [?|[= <-]]; by left. }
  apply bool_decide_eq_false in Hin. assert (Hin' := Hin). rewrite elem_of_list_to_set in Hin'.
  destruct (visit_visited vs st n Hv Hin') as (st' & -> & Hv'). cbn.
  assert (Hset : {[n]} ∪ list_to_set vs = list_to_set (vs ++ [n]) :> gset string) by (rewrite list_to_set_app_L; cbn; set_solver).
  assert (Hreach : ∀ from, reached from vs → (from n ∨ ∃ x, x ∈ vs ∧ firstChild x n) → reached from (vs ++ [n])).
  { intros from Hr Hn x [Hx| ->%list_elem_of_singleton]%elem_of_app; [destruct (Hr x Hx) as [?|(y & Hy & Hyx)]|destruct Hn as [?|(y & Hy & Hyx)]];
      try (by left); right; exists y; set_solver. }
  assert (Hstop : (∀ c, ¬ firstChild n c) → closed None (vs ++ [n])).
  { intros Hno x c [Hx| ->%list_elem_of_singleton]%elem_of_app Hxc; [|by destruct (Hno c)].
    destruct (Hc x c Hx Hxc) as [?|[= <-]]; left; set_solver. }
  assert (Hlast : (∀ c, ¬ firstChild n c) → ∃ ws st0, Some ({[n]} ∪ list_to_set vs : gset string, st') = Some (list_to_set (vs ++ ws), st0) ∧
    visited (vs ++ ws) st0 ∧ n ∈ vs ++ ws ∧ closed None (vs ++ ws) ∧
    ∀ from, reached from vs → (from n ∨ ∃ x, x ∈ vs ∧ firstChild x n) → reached from (vs ++ ws)).
  { intros Hno. exists [n], st'. rewrite Hset. split_and!; [done..|set_solver|by apply Hstop|done]. }
  destruct (m !! n) as [[msg parent [|child cs]]|] eqn:Hn.
  - apply Hlast. intros c (node & cs & Hnode & Hch). rewrite Hn in Hnode. by injection Hnode as <-.
  - rewrite Hset. destruct (IH (vs ++ [n]) st' child) as (ws & st1 & H1 & H2 & H3 & H4 & H5); [done| | |].
    + pose proof (unseen_meets m (list_to_set vs) n (ex_intro _ _ Hn) Hin). rewrite <- Hset. lia.
    + intros x c [Hx| ->%list_elem_of_singleton]%elem_of_app Hxc.
      * destruct (Hc x c Hx Hxc) as [?|[= <-]]; left; set_solver.
      * destruct Hxc as (node & cs' & Hnode & Hch). rewrite Hn in Hnode. injection Hnode as <-. injection Hch as <- _. by right.
    + exists (n :: ws), st1. rewrite <- app_assoc in *. cbn in *. split_and!; [done..|set_solver|done|].
      intros from Hr Hfn. apply H5; [by apply Hreach|]. right. exists n. split; [set_solver|]. by exists (mkNode msg parent (child :: cs)), cs.
  - apply Hlast. intros c (node & cs & Hnode & _). by rewrite Hn in Hnode.
Qed.
Lemma roots_visited fuel (roots rs vs : list string) st : size m < fuel → (∀ r, r ∈ rs → r ∈ roots) →
  visited vs st → closed None vs → reached (.∈ roots) vs →
  ∃ ws st', each (follow UnixTime fuel conv index) (list_to_set vs, st) rs = Some (list_to_set (vs ++ ws), st') ∧
    visited (vs ++ ws) st' ∧ closed None (vs ++ ws) ∧ reached (.∈ roots) (vs ++ ws) ∧ ∀ r, r ∈ rs → r ∈ vs ++ ws.
Proof.
  intros Hf. revert vs st. induction rs as [|r rs IH]; intros vs st Hrs Hv Hc Hr; cbn.
  { exists [], st. rewrite app_nil_r. split_and!; [done..|]. by intros r ?%not_elem_of_nil. }
  destruct (follow_visited fuel vs st r Hv) as (ws & st' & -> & H2 & H3 & H4 & H5).
  - pose proof (unseen_bound m (list_to_set vs)). lia.
  - intros x c Hx Hxc. destruct (Hc x c Hx Hxc) as [?|?]; [by left|done].
  - cbn. specialize (H5 (.∈ roots) Hr ltac:(left; apply Hrs; by left)).
    destruct (IH (vs ++ ws) st' ltac:(intros x Hx; apply Hrs; by right) H2 H4 H5) as (ws' & st1 & G1 & G2 & G3 & G4 & G5).
    exists (ws ++ ws'), st1. rewrite app_assoc. split_and!; [done..|]. intros x [->|Hx]%elem_of_cons; [set_solver|by apply G5].
Qed.

(** C25. The reader of a ChatGPT conversation always ends, whatever the tree,
    cycles included: no walk, of the branch, of the first children or of the
    thoughts before a message, runs out of the fuel it is given.  It reads
    the conversation along its current branch, each node once from the root
    down; only where the tree has no such branch, along the first children of
    every root, each node once. *)
Theorem branch_read :
  ∃ vs, NoDup vs ∧ gptMessages UnixTime conv index = Some (omap read vs) ∧
    (∀ n, nodeMessage UnixTime conv index n = Some (read n)) ∧
    (∀ p, p ≠ [] → leads m (g_CurrentNode conv) p → vs = p) ∧
    ((∀ p, leads m (g_CurrentNode conv) p → p = []) →
     (∀ r, r ∈ chatgptRoots m → r ∈ vs) ∧ (∀ n c, n ∈ vs → firstChild n c → c ∈ vs) ∧
     ∀ n, n ∈ vs → n ∈ chatgptRoots m ∨ ∃ x, x ∈ vs ∧ firstChild x n).
Proof.
  unfold gptMessages. destruct (path_ends conv) as [b Hp]. rewrite Hp. cbn [mbind option_bind]. destruct b as [|b bs].
  - destruct (roots_visited (S (S (size m))) (chatgptRoots m) (chatgptRoots m) [] (∅, [])) as (vs & st & He & [Hnd Hs] & Hc & Hr & Ha);
      [lia|done|split; [constructor|done]|intros n c ?%not_elem_of_nil; done|intros n ?%not_elem_of_nil; done|].
    exists vs. change (list_to_set []) with (∅ : gset string) in He. rewrite He. cbn in Hs |- *. subst st.
    split_and!; [done|done|exact read_node|intros p Hne H%(path_leads _ _ Hne); congruence|].
    intros _. split_and!; [done| |done]. intros n c Hn Hnc. destruct (Hc n c Hn Hnc) as [?|?]; done.
  - apply path_leads in Hp as Hl; [|done]. pose proof (leads_nodup _ _ _ Hl) as Hnd. exists (b :: bs).
    destruct (visit_path (b :: bs) [] (∅, [])) as (s & He & _ & Hs); [by split; [constructor|]|done|]. rewrite He. cbn in Hs |- *. subst s.
    split_and!; [done|done|exact read_node|intros p _ H; by eapply leads_unique|]. intros H. by specialize (H _ Hl).
Qed.
End Visits.

(** ** Concrete inputs *)

Definition someNames : list string := ["a\file-1.png"; "../file-2.png"; "b/file-1.txt"]%string.
Lemma ids_exact_witness : Sorted baseLe (sorted (NewIndex someNames)) ∧
  ByIDPrefix (Some (NewIndex someNames)) " file-2" = Some "file-2.png"%string ∧ ByIDPrefix (Some (NewIndex someNames)) "file-1" = None.
Proof.
  assert (Sorted baseLe (sorted (NewIndex someNames))) as Hs by (apply Sorted_merge_sort; intros x y; apply String.le_total).
  split; [exact Hs|]. split.
  - pose proof (ids_exact someNames (sorted (NewIndex someNames)) " file-2" ltac:(reflexivity) Hs) as H. vm_compute in H. vm_compute. exact H.
  - pose proof (ids_exact someNames (sorted (NewIndex someNames)) "file-1" ltac:(reflexivity) Hs) as H. vm_compute in H. vm_compute. exact H.
Defined.
Definition claudeRecord : Api.any :=
  Api.AObj [("uuid", Api.AStr "c1"); ("name", Api.AStr "Hi"); ("chat_messages", Api.AArr [Api.AObj
    [("sender", Api.AStr "human"); ("text", Api.AStr "look");
     ("files", Api.AArr [Api.AObj [("file_name", Api.AStr "../../file-2.png")]])]])]%string.
Lemma entries_held_witness : ∃ c, ReadClaude (λ _, None) (λ _, None) claudeRecord (NewIndex <$> Some someNames) = Ok (Some c) ∧
  Messages c ≠ [] ∧ Forall (well_read (Some someNames)) (Messages c).
Proof.
  destruct (ReadClaude (λ _, None) (λ _, None) claudeRecord (NewIndex <$> Some someNames)) as [[c|]|] eqn:He; try (vm_compute in He; discriminate).
  exists c. split; [reflexivity|].
  destruct (entries_held (λ _, None) (λ _, 0%Z) (λ _, None) (λ _, None) (λ _, ""%string) (Some someNames) claudeRecord c (or_intror He)) as (H1 & H2 & _).
  split; [exact H1|exact H2].
Defined.
End Importer.
