(* ===== verification/Exports.v ===== *)
(** * The conversations export: internal/archives/export.go

    A chat written in Claude's format with its images beside it, the names of
    those images in the archive, and the chat as internal/importer reads it
    back. *)

From S2P Require Import Prelude GoStd Api Decode Chat Timeline Results Importer.
From stdpp Require Import pretty sorting.
Local Open Scope nat_scope.
Local Open Scope go_scope.

Module Exports.
Import GoStd Decode Chat.

(** ** Names in the archive *)

Definition lastSegment (name : string) : string :=
  string_of (rev ((fix until l := match l with
                                  | c :: l => if Ascii.eqb c "/" || Ascii.eqb c "\" then [] else c :: until l
                                  | [] => []
                                  end) (rev (bytes_of name)))).
Definition isAllowed (c : ascii) : bool :=
  bool_decide (97 ≤ byte_of c ≤ 122 ∨ 65 ≤ byte_of c ≤ 90 ∨ 48 ≤ byte_of c ≤ 57)%Z ||
  existsb (Ascii.eqb c) ["."; "_"; " "; "("; ")"; "+"; "-"]%char.
(** What a character is replaced by: two for one outside the basic plane. *)
Definition cleanRune (r : list ascii * bool) : list ascii :=
  match r with
  | ([c], true) => if bool_decide (byte_of c < 32 ∨ byte_of c = 127)%Z then [] else if isAllowed c then [c] else ["_"%char]
  | ([_; _; _; _], true) => ["_"; "_"]%char
  | _ => ["_"%char]
  end.
Fixpoint trimLeft (x : ascii) (l : list ascii) : list ascii :=
  match l with c :: l' => if Ascii.eqb c x then trimLeft x l' else l | [] => [] end.
Definition trimBoth (x : ascii) (l : list ascii) : list ascii := rev (trimLeft x (rev (trimLeft x l))).
Definition cleanFilename (name : string) : string :=
  string_of (trimBoth " " (trimLeft "." (runes (lastSegment name) ≫= cleanRune))).
Definition sanitizeFilename (name fallback : string) : string := Api.or (Api.or (cleanFilename name) (cleanFilename fallback)) "file".

(** [strings.LastIndex] of a dot past the start: what is before it, and from
    it on. *)
Fixpoint beforeDot (l after : list ascii) : option (list ascii * list ascii) :=
  match l with
  | [] => None
  | c :: l => if Ascii.eqb c "." then (if Importer.isEmpty l then None else Some (rev l, c :: after)) else beforeDot l (c :: after)
  end.
Definition splitName (safeName : string) : string * string :=
  match beforeDot (rev (bytes_of safeName)) [] with Some (r, e) => (string_of r, string_of e) | None => (safeName, ""%string) end.
Definition candidate (safeID root extension : string) (suffix : nat) : string :=
  Join ["attachments"; safeID; String.append root (String.append "-" (String.append (pretty (N.of_nat suffix)) extension))]%string "/".
Fixpoint firstFree (fuel : nat) (used : gset string) (path : nat → string) (suffix : nat) : string :=
  match fuel with
  | 0 => path suffix
  | S fuel => if bool_decide (path suffix ∈ used) then firstFree fuel used path (S suffix) else path suffix
  end.
Definition uniquePath (used : gset string) (safeID safeName : string) : string * gset string :=
  let base := Join ["attachments"; safeID; safeName]%string "/" in
  let path := if bool_decide (base ∈ used)
              then let '(root, extension) := splitName safeName in firstFree (size used) used (candidate safeID root extension) 2
              else base in
  (path, {[path]} ∪ used).

Example names_cleaned : sanitizeFilename "a/b\..my photo%.png" "x" = "my photo_.png"%string ∧ sanitizeFilename "" "" = "file"%string ∧
  (uniquePath {["attachments/i/a.png"; "attachments/i/a-2.png"]} "i" "a.png").1 = "attachments/i/a-3.png"%string.
Proof. done. Qed.

(** ** What is written of a chat *)

Record exportAttachment := mkExportAttachment {
  x_ID : string;
  x_Type : string;
  x_FileName : string;
  x_MimeType : string;
  x_FileSize : option Z;
  x_ExportPath : string;
  x_TextContent : string;
}.
Record exportMessage := mkExportMessage {
  xm_UUID : string;
  xm_Text : string;
  xm_Sender : string;
  xm_CreatedAt : string;
  xm_Content : list (string * string);
  xm_Attachments : list exportAttachment;
}.
Record exportConversation := mkExport {
  xc_UUID : string;
  xc_Name : string;
  xc_CreatedAt : string;
  xc_UpdatedAt : string;
  xc_ProjectID : string;
  xc_ChatMessages : list exportMessage;
}.

(** How reading an attachment fails: it is missing, or the export fails. *)
Inductive readErr := Missing | Failed (err : string).
(** An image named by a chat, to write later: where, the digest it had and
    whether its chat holds its bytes. *)
Record exportedImage := mkImage { i_path : string; i_sha256 : string; i_attachment : Attachment; i_held : option (nat * nat) }.
Record exportedFile := mkFile { xf_ExportPath : string; xf_SHA256 : string; xf_FileSize : Z }.
Record conversationsExport := mkConversations {
  used : gset string;
  images : list exportedImage;
  e_Attachments : list exportedFile;
  e_Warnings : list string;
  e_ChatCount : nat;
}.
#[global] Instance conversationsExport_eta : Eta conversationsExport := λ e,
  mkConversations (used e) (images e) (e_Attachments e) (e_Warnings e) (e_ChatCount e).

Definition TimelineText (timeline : slice Block) (kind : string) : string :=
  foldr (λ b rest, if String.eqb (b_Type b) kind then String.append (b_Content b) rest else rest) ""%string (elems timeline).
Definition blankText (s : string) : bool := String.eqb (TrimSpace s) "".
Definition exportDocumentText (text : string) (pages : list DocumentPage) : string :=
  if negb (blankText text) then text
  else
    let parts := List.filter (λ t, negb (blankText t)) (p_Text <$> pages) in
    let joined := Join parts (String "010" (String "010" (String.append "---" (String "010" (String "010" ""))))) in
    if blankText joined then ""%string else joined.

Section Export.
(** RFC 3339, a date as JavaScript writes it, a digest in hex, and how an
    attachment's bytes, or the content of a document, are read. *)
Context (ParseTime : string → option Z) (archiveTime : Z → string) (HashHex : list ascii → string).
Context (image : Attachment → result readErr (list ascii)) (document : Attachment → string * list DocumentPage * option readErr).

Definition exportTime (values : list string) : string := archiveTime (default 0%Z (head (omap ParseTime values))).

Definition warn (text : string) (e : conversationsExport) : conversationsExport := e <| e_Warnings ::= λ l, l ++ [text] |>.
(** [attachment], of the one at a place of its chat. *)
Definition exportOne (e : conversationsExport) (place : nat * nat) (a : Attachment)
    : result string (conversationsExport * exportAttachment) :=
  if negb (IsImage a) then
    let '(text, pages, failed) := if HasContent a then (a_TextContent a, a_Pages a, None) else document a in
    match failed with
    | Some (Failed err) => Err err
    | _ =>
        let e := match failed with Some _ => warn (String.append "Could not fetch document " (a_ID a)) e | None => e end in
        Ok (e, mkExportAttachment (a_ID a) "document" (a_FileName a) (a_MimeType a) (a_Size a) ""
                 (exportDocumentText text pages))
    end
  else
    let safeID := sanitizeFilename (a_ID a) "attachment" in
    let safeName := sanitizeFilename (a_FileName a) (String.append safeID ".bin") in
    let '(path, taken) := uniquePath (used e) safeID safeName in
    let e := e <| used := taken |> in
    match image a with
    | Err (Failed err) => Err err
    | Err Missing =>
        Ok (warn (String.append "Could not fetch attachment " (a_ID a)) e,
            mkExportAttachment (a_ID a) "image" safeName (a_MimeType a) (a_Size a) "" "")
    | Ok data =>
        let sum := HashHex data in
        let size := Z.of_nat (length data) in
        let kept := mkImage path sum
                      (mkAttachment (a_ID a) (a_Kind a) "" "" None "" "" "" [] "" (a_EncryptionKey a) (a_Key a) "" "")
                      (if String.eqb (a_Base64 a) "" then None else Some place) in
        Ok (e <| images ::= λ l, l ++ [kept] |> <| e_Attachments ::= λ l, l ++ [mkFile path sum size] |>,
            mkExportAttachment (a_ID a) "image" safeName (a_MimeType a) (Some size) path "")
    end.
Definition messageText (m : Message) : string :=
  if String.eqb (m_Role m) "assistant" then Api.or (m_Content m) (TimelineText (m_Timeline m) "content") else m_Content m.
Fixpoint exportAll (e : conversationsExport) (i j : nat) (l : list Attachment)
    : result string (conversationsExport * list exportAttachment) :=
  match l with
  | [] => Ok (e, [])
  | a :: l =>
      match exportOne e (i, j) a with
      | Err err => Err err
      | Ok (e, x) => match exportAll e i (S j) l with Err err => Err err | Ok (e, xs) => Ok (e, x :: xs) end
      end
  end.
Definition exportMessageOf (t : Thread) (n : nat) (m : Message) (attachments : list exportAttachment) : exportMessage :=
  let reply := String.eqb (m_Role m) "assistant" in
  let thoughts := TimelineText (m_Timeline m) "thinking" in
  mkExportMessage (String.append (t_ID t) (String.append "_msg_" (pretty (N.of_nat n))))
    (messageText m)
    (if String.eqb (m_Role m) "user" then "human" else "assistant")
    (exportTime [m_CreatedAt m; t_CreatedAt t])
    (if reply && negb (String.eqb thoughts "") then [("thinking", thoughts)]%string else []) attachments.
(** The loop over the messages from the [i]th, [n] of which are written. *)
Fixpoint exportMessages (e : conversationsExport) (t : Thread) (i n : nat) (l : list Message)
    : result string (conversationsExport * list exportMessage) :=
  match l with
  | [] => Ok (e, [])
  | m :: l =>
      if is_marker m then exportMessages e t (S i) n l
      else
        match exportAll e i 0 (elems (m_Attachments m)) with
        | Err err => Err err
        | Ok (e, xs) =>
            match exportMessages e t (S i) (S n) l with
            | Err err => Err err
            | Ok (e, ms) => Ok (e, exportMessageOf t n m xs :: ms)
            end
        end
  end.
Definition exportChat (e : conversationsExport) (t : Thread) (projectID : string)
    : result string (conversationsExport * exportConversation) :=
  match exportMessages e t 0 0 (t_Messages t) with
  | Err err => Err err
  | Ok (e, ms) =>
      Ok (e <| e_ChatCount ::= S |>,
          mkExport (t_ID t) (t_Title t) (exportTime [t_CreatedAt t; t_UpdatedAt t]) (exportTime [t_UpdatedAt t; t_CreatedAt t]) projectID ms)
  end.
End Export.

(** What [json.Marshal] writes of a conversation. *)
Definition attachmentObject (x : exportAttachment) : Api.any :=
  object [("id", always (x_ID x)); ("type", always (x_Type x)); ("fileName", always (x_FileName x)); ("mimeType", omitempty (x_MimeType x));
          ("fileSize", number <$> x_FileSize x); ("exportPath", omitempty (x_ExportPath x));
          ("textContent", omitempty (x_TextContent x))]%string.
Definition thinkingObject (c : string * string) : Api.any := object [("type", always c.1); ("thinking", always c.2)]%string.
Definition messageObject (m : exportMessage) : Api.any :=
  object [("uuid", always (xm_UUID m)); ("text", always (xm_Text m)); ("sender", always (xm_Sender m)); ("created_at", always (xm_CreatedAt m));
          ("content", omitnone thinkingObject (xm_Content m)); ("attachments", omitnone attachmentObject (xm_Attachments m))]%string.
Definition conversationObject (c : exportConversation) : Api.any :=
  object [("uuid", always (xc_UUID c)); ("name", always (xc_Name c)); ("created_at", always (xc_CreatedAt c)); ("updated_at", always (xc_UpdatedAt c));
          ("projectId", omitempty (xc_ProjectID c)); ("chat_messages", Some (Api.AArr (messageObject <$> xc_ChatMessages c)))]%string.

(** ** Names of their own *)

Lemma append_cancel_r s t u : String.append s u = String.append t u → s = t.
Proof.
  intros H%(f_equal bytes_of). rewrite !bytes_of_append in H. apply app_inv_tail in H.
  by rewrite <- (string_of_bytes s), H, string_of_bytes.
Qed.
Lemma append_cancel_l s t u : String.append u s = String.append u t → s = t.
Proof.
  intros H%(f_equal bytes_of). rewrite !bytes_of_append in H. apply app_inv_head in H.
  by rewrite <- (string_of_bytes s), H, string_of_bytes.
Qed.
Lemma candidate_inj id root ext i j : candidate id root ext i = candidate id root ext j → i = j.
Proof.
  unfold candidate. cbn [Join]. intros H. repeat apply append_cancel_l in H. apply append_cancel_r in H.
  apply pretty_N_inj in H. lia.
Qed.
Lemma firstFree_free path (n : gset string) i fuel : (∀ i j, path i = path j → i = j) → (size n ≤ fuel + i)%nat → 
  (∀ k, k < i → path (2 + k) ∈ n) → firstFree fuel n path (2 + i) ∉ n.
Proof.
  intros Hinj. revert i. induction fuel as [|fuel IH]; intros i Hs Hk; cbn.
  - intros Hin. assert (size (list_to_set (C := gset string) (path <$> seq 2 (S i))) ≤ size n) as H.
    { apply subseteq_size. intros x (k & -> & Hx%elem_of_seq)%elem_of_list_to_set%list_elem_of_fmap.
      destruct (decide (k = 2 + i)) as [->|]; [done|]. replace k with (2 + (k - 2)) by lia. apply Hk. lia. }
    rewrite size_list_to_set, length_fmap, length_seq in H; [lia|]. apply NoDup_fmap_2_strong; [intros; by apply Hinj|apply NoDup_seq].
  - destruct (bool_decide (path (S (S i)) ∈ n)) eqn:Hin; [|by apply bool_decide_eq_false in Hin]. apply bool_decide_eq_true in Hin.
    apply (IH (S i)); [lia|]. intros k Hk'. destruct (decide (k = i)) as [->|]; [done|]. apply Hk. lia.
Qed.
Lemma uniquePath_fresh n id name : (fst (uniquePath n id name) ∉ n) ∧ snd (uniquePath n id name) = {[fst (uniquePath n id name)]} ∪ n.
Proof.
  unfold uniquePath. cbv zeta. split; [|done]. cbn [fst]. destruct (bool_decide _) eqn:Hb; [|by apply bool_decide_eq_false in Hb].
  destruct (splitName name) as [root ext]. apply (firstFree_free (candidate id root ext) n 0); [apply candidate_inj|lia|lia].
Qed.

(** A segment of a path that names something in its directory. *)
Definition allowed (s : string) : Prop := ∀ c, c ∈ bytes_of s → isAllowed c = true.
Definition segment (s : string) : Prop := allowed s ∧ s ∉ [""; "."; ".."]%string.
Lemma allowed_not s c : allowed s → isAllowed c = false → c ∉ bytes_of s.
Proof. intros Hs Hc Hin. rewrite (Hs c Hin) in Hc. done. Qed.
Lemma slashes_id ss : (∀ s, s ∈ ss → allowed s) → Importer.slashes (Join ss "/") = bytes_of (Join ss "/").
Proof.
  intros Hss. unfold Importer.slashes. assert ("\"%char ∉ bytes_of (Join ss "/")) as Hn.
  - induction ss as [|s ss IH]; [cbn; apply not_elem_of_nil|]. specialize (IH ltac:(intros x Hx; apply Hss; by right)).
    assert ("\"%char ∉ bytes_of s) as Hs by (apply allowed_not; [apply Hss; by left|done]). destruct ss as [|s' ss]; [done|].
    change (Join (s :: s' :: ss) "/") with (String.append s (String.append "/" (Join (s' :: ss) "/"))).
    rewrite !bytes_of_append, !not_elem_of_app. split_and!; [done|by intros ?%list_elem_of_singleton|done].
  - revert Hn. generalize (bytes_of (Join ss "/")). intros l. induction l as [|c l IH]; [done|]. intros [Hc Hl]%not_elem_of_cons.
    rewrite fmap_cons, IH by done. destruct (Ascii.eqb_spec c "\"); [congruence|done].
Qed.
Lemma clean_segments ss kept : (∀ s, s ∈ ss → segment s) → foldl Importer.cleanSegment kept ss = rev ss ++ kept.
Proof.
  revert kept. induction ss as [|s ss IH]; intros kept Hss; [done|]. cbn. rewrite IH by (intros x Hx; apply Hss; by right).
  destruct (Hss s ltac:(by left)) as [_ Hs]. unfold Importer.cleanSegment.
  rewrite (proj2 (String.eqb_neq s "")), (proj2 (String.eqb_neq s ".")), (proj2 (String.eqb_neq s "..")) by set_solver. cbn. by rewrite <- app_assoc.
Qed.
Lemma normalize_join ss : ss ≠ [] → (∀ s, s ∈ ss → segment s) → Importer.normalizeEntry (Join ss "/") = Join ss "/".
Proof.
  intros Hne Hss. unfold Importer.normalizeEntry. rewrite slashes_id by (intros s Hs; by apply Hss).
  rewrite Importer.segments_join; [|done|intros s Hs; apply allowed_not; [by apply Hss|done]].
  rewrite clean_segments, app_nil_r, rev_involutive by done. done.
Qed.

(** What names are made safe as: allowed characters, and some. *)
Lemma cleanRune_allowed r c : c ∈ cleanRune r → isAllowed c = true.
Proof.
  destruct r as [[|x [|? [|? [|? [|? ?]]]]] []]; cbn; try (intros ->%list_elem_of_singleton; done).
  - destruct (bool_decide _); [by intros ?%not_elem_of_nil|]. destruct (isAllowed x) eqn:Hx; by intros ->%list_elem_of_singleton.
  - by intros [->| ->%list_elem_of_singleton]%elem_of_cons.
Qed.
Lemma trimLeft_incl x l c : c ∈ trimLeft x l → c ∈ l.
Proof. induction l as [|y l IH]; cbn; [done|]. destruct (Ascii.eqb y x); [intros H; right; by apply IH|done]. Qed.
Lemma elem_rev {A} (x : A) l : x ∈ rev l ↔ x ∈ l.
Proof. by rewrite !list_elem_of_In, <- in_rev. Qed.
Lemma cleanFilename_allowed name : allowed (cleanFilename name).
Proof.
  intros c. unfold cleanFilename, trimBoth. rewrite bytes_of_string, elem_rev. intros H%trimLeft_incl. rewrite elem_rev in H.
  apply trimLeft_incl, trimLeft_incl, list_elem_of_bind in H as (r & Hc & _). by eapply cleanRune_allowed.
Qed.
Lemma sanitize_allowed name fallback : allowed (sanitizeFilename name fallback) ∧ sanitizeFilename name fallback ≠ ""%string.
Proof.
  unfold sanitizeFilename, Api.or. destruct (String.eqb_spec (cleanFilename name) ""); cbn.
  - destruct (String.eqb_spec (cleanFilename fallback) ""); [split; [|done]|by split; [apply cleanFilename_allowed|]].
    intros c. cbn. rewrite !elem_of_cons. intros Hc. destruct_or!; try by subst. by apply not_elem_of_nil in Hc.
  - rewrite (proj2 (String.eqb_neq _ _)) by done. by split; [apply cleanFilename_allowed|].
Qed.
Lemma sanitized_segment name fallback : sanitizeFilename name fallback ∉ ["."; ".."]%string → segment (sanitizeFilename name fallback).
Proof.
  destruct (sanitize_allowed name fallback) as [Ha Hne]. intros Hd. split; [done|]. by intros [?|?]%elem_of_cons.
Qed.
Lemma beforeDot_incl l after r e c : beforeDot l after = Some (r, e) → c ∈ r ++ e → c ∈ l ++ after.
Proof.
  revert after. induction l as [|x l IH]; intros after H Hc; cbn in H; [done|]. destruct (Ascii.eqb x ".").
  - destruct (Importer.isEmpty l); [done|]. injection H as <- <-. revert Hc. rewrite !elem_of_app, elem_rev, !elem_of_cons. tauto.
  - specialize (IH _ H Hc). revert IH. rewrite !elem_of_app, !elem_of_cons. tauto.
Qed.
Lemma splitName_allowed name : allowed name → allowed (splitName name).1 ∧ allowed (splitName name).2.
Proof.
  intros Hn. unfold splitName. destruct (beforeDot _ _) as [[r e]|] eqn:Hb; [|by split; [|intros c ?%not_elem_of_nil]].
  assert (∀ c, c ∈ r ++ e → isAllowed c = true) as H.
  { intros c Hc. apply Hn. apply (beforeDot_incl _ _ _ _ _ Hb) in Hc. by rewrite app_nil_r, elem_rev in Hc. }
  split; intros c; cbn; rewrite bytes_of_string; intros Hc; apply H, elem_of_app; auto.
Qed.
Lemma digit_allowed c : is_digit c = true → isAllowed c = true.
Proof. intros H%bool_decide_eq_true. unfold isAllowed. rewrite bool_decide_eq_true_2 by lia. done. Qed.
Lemma pretty_allowed n : allowed (pretty (N.of_nat n)).
Proof.
  destruct n as [|n]; [intros c; by intros ->%list_elem_of_singleton|]. destruct (Decode.pretty_pos (Pos.of_succ_nat n)) as (c & ds & Hb & Hd & _).
  intros x Hx. change (N.of_nat (S n)) with (N.pos (Pos.of_succ_nat n)) in Hx. rewrite Hb in Hx. apply digit_allowed.
  rewrite forallb_forall in Hd. apply Hd. by apply list_elem_of_In.
Qed.
Lemma append_allowed s t : allowed s → allowed t → allowed (String.append s t).
Proof. intros Hs Ht c. rewrite bytes_of_append, elem_of_app. intros [?|?]; auto. Qed.
Lemma uniquePath_segments n id name : segment id → segment name →
  ∃ x, segment x ∧ (uniquePath n id name).1 = Join ["attachments"; id; x]%string "/".
Proof.
  intros Hid Hname. unfold uniquePath. cbv zeta. cbn [fst]. destruct (bool_decide _); [|by exists name].
  destruct (splitName_allowed name) as [H1 H2]; [apply Hname|]. destruct (splitName name) as [root ext]. cbn [fst snd] in H1, H2.
  generalize 2 (size n). intros i fuel. assert (∃ k, firstFree fuel n (candidate id root ext) i = candidate id root ext k) as [k ->].
  { revert i. induction fuel as [|fuel IH]; intros i; cbn; [by exists i|]. destruct (bool_decide _); [apply IH|by exists i]. }
  eexists. split; [|reflexivity]. assert (allowed "-") as Hdash by (intros c; by intros ->%list_elem_of_singleton).
  split; [by repeat apply append_allowed; [| |apply pretty_allowed|]|]. intros Hin.
  assert ("-"%char ∈ bytes_of (String.append root (String.append "-" (String.append (pretty (N.of_nat k)) ext)))) as Hd.
  { rewrite !bytes_of_append, !elem_of_app. right. left. by left. }
  apply elem_of_cons in Hin as [Hx|[Hx|[Hx|?%not_elem_of_nil]%elem_of_cons]%elem_of_cons]; [rewrite Hx in Hd; cbn in Hd..|done]; set_solver.
Qed.
Lemma uniquePath_clean n id name : segment id → segment name →
  Importer.normalizeEntry (uniquePath n id name).1 = (uniquePath n id name).1 ∧ (uniquePath n id name).1 ≠ ""%string.
Proof.
  intros Hid Hname. destruct (uniquePath_segments n id name Hid Hname) as (x & Hx & ->). split; [|done].
  apply normalize_join; [done|]. intros s Hs. apply elem_of_cons in Hs as [->|Hs]; [|set_solver].
  split; [|set_solver]. intros c Hc. cbn in Hc. rewrite !elem_of_cons in Hc. destruct_or!; try by subst. by apply not_elem_of_nil in Hc.
Qed.

(** ** What is written decodes as Claude's *)

Import Importer Decode.

Definition toClaude (x : exportAttachment) : claudeAttachment :=
  mkClaudeAttachment "" 0 "" (x_ID x) (x_Type x) (x_FileName x) (x_MimeType x) (default 0%Z (x_FileSize x)) (x_ExportPath x) (x_TextContent x).
Definition toClaudeMessage (m : exportMessage) : claudeMessage :=
  mkClaudeMessage (xm_Text m) (xm_Sender m) (xm_CreatedAt m) (xm_Content m) (toClaude <$> xm_Attachments m) [] [].
Definition inRange (n : Z) : Prop := (min_int ≤ n ≤ max_int)%Z.
Definition sizeInRange (x : exportAttachment) : Prop := ∀ n, x_FileSize x = Some n → inRange n.

Lemma attachment_decodes x : sizeInRange x → decodeClaudeAttachment (attachmentObject x) = Some (toClaude x).
Proof.
  destruct x as [id type fileName mime size path text]. unfold sizeInRange, toClaude. cbn [x_FileSize]. intros Hs. unfold decodeClaudeAttachment, attachmentObject.
  cbn [x_ID x_Type x_FileName x_MimeType x_FileSize x_ExportPath x_TextContent]. unfold number, omitempty.
  assert (∀ lit n, size = Some n → lit = pretty n → dInt (Some (Api.ANum lit)) = (n, true)) as Hint.
  { intros lit n Hn ->. unfold dInt. by rewrite Atoi_pretty by by apply Hs. }
  destruct (String.eqb_spec mime "") as [->|], (String.eqb_spec path "") as [->|], (String.eqb_spec text "") as [->|], size as [k|]; cbn -[dInt pretty];
    unfold intOf, textOf; cbn -[dInt pretty]; try rewrite (Hint _ k) by done; done.
Qed.
Lemma thinking_decodes c : decodeClaudeContent (thinkingObject c) = Some c.
Proof. by destruct c. Qed.
Lemma message_decodes m : Forall sizeInRange (xm_Attachments m) → decodeClaudeMessage (messageObject m) = Some (toClaudeMessage m).
Proof.
  destruct m as [uuid text sender created content attachments]. cbn [xm_Attachments]. intros Hs.
  assert (mapM decodeClaudeAttachment (attachmentObject <$> attachments) = Some (toClaude <$> attachments)) as Ha.
  { apply mapM_encoded. eapply Forall_impl; [exact Hs|]. apply attachment_decodes. }
  assert (mapM decodeClaudeContent (thinkingObject <$> content) = Some (id <$> content)) as Hc by (apply mapM_encoded, Forall_true; intros c; apply thinking_decodes).
  rewrite list_fmap_id in Hc. unfold decodeClaudeMessage, messageObject, toClaudeMessage.
  cbn [xm_UUID xm_Text xm_Sender xm_CreatedAt xm_Content xm_Attachments]. unfold omitnone.
  revert Ha Hc. generalize (attachmentObject <$> attachments), (toClaude <$> attachments), (thinkingObject <$> content).
  intros xs ys tc Ha Hc. destruct tc as [|t ts]; [injection Hc as <-|]; (destruct xs as [|x xs]; [injection Ha as <-|]);
    cbn -[mapM decodeClaudeAttachment decodeClaudeContent]; unfold listOf, textOf; cbn -[mapM decodeClaudeAttachment decodeClaudeContent]; rewrite ?Ha, ?Hc; done.
Qed.
Definition sizesInRange (m : exportMessage) : Prop := Forall sizeInRange (xm_Attachments m).
Lemma conversation_decodes c : Forall sizesInRange (xc_ChatMessages c) →
  decodeClaude (conversationObject c) =
  Some (mkClaude (xc_UUID c) (xc_Name c) (xc_CreatedAt c) (xc_UpdatedAt c) (toClaudeMessage <$> xc_ChatMessages c)).
Proof.
  intros Hs. assert (mapM decodeClaudeMessage (messageObject <$> xc_ChatMessages c) = Some (toClaudeMessage <$> xc_ChatMessages c)) as Hm.
  { apply mapM_encoded. eapply Forall_impl; [exact Hs|]. apply message_decodes. }
  destruct c as [uuid nm created updated project messages]. cbn [xc_ChatMessages] in Hm. unfold decodeClaude, conversationObject.
  cbn [xc_UUID xc_Name xc_CreatedAt xc_UpdatedAt xc_ProjectID xc_ChatMessages]. unfold omitempty.
  revert Hm. generalize (messageObject <$> messages). intros l Hm.
  destruct (String.eqb project ""); cbn -[mapM decodeClaudeMessage]; unfold listOf, textOf; cbn -[mapM decodeClaudeMessage]; by rewrite Hm.
Qed.

(** ** A chat exported is read back *)

#[local] Opaque sanitizeFilename.

Section ReadBack.
Context (ParseTime ParseLocal : string → option Z) (archiveTime : Z → string) (HashHex : list ascii → string).
Context (image : Chat.Attachment → result readErr (list ascii)) (document : Chat.Attachment → string * list DocumentPage * option readErr).
#[local] Abbreviation exportOne := (exportOne HashHex image document).
#[local] Abbreviation exportAll := (exportAll HashHex image document).
#[local] Abbreviation exportTime := (exportTime ParseTime archiveTime).
#[local] Abbreviation exportMessages := (exportMessages ParseTime archiveTime HashHex image document).
#[local] Abbreviation exportChat := (exportChat ParseTime archiveTime HashHex image document).

(** The images an export has named are each at a path of its own. *)
Definition placed (e : conversationsExport) : Prop :=
  NoDup (i_path <$> images e) ∧ ∀ i, i ∈ images e → i_path i ∈ used e.
Definition safeID (a : Chat.Attachment) : string := sanitizeFilename (a_ID a) "attachment".
Definition safeName (a : Chat.Attachment) : string := sanitizeFilename (a_FileName a) (String.append (safeID a) ".bin").
Definition contentOf (a : Chat.Attachment) : string * list DocumentPage :=
  if HasContent a then (a_TextContent a, a_Pages a) else (document a).1.

(** An attachment, and what it is read back as from an archive that holds
    some images. *)
Definition back (held : list exportedImage) (a : Chat.Attachment) (b : Attachment) : Prop :=
  ID b = a_ID a ∧ Image b = IsImage a ∧ MimeType b = a_MimeType a ∧
  if IsImage a then
    FileName b = safeName a ∧ TextContent b = ""%string ∧
    match image a with
    | Ok data => Size b = Z.of_nat (length data) ∧
                 ∃ i, i ∈ held ∧ i_path i = Entry b ∧ i_sha256 i = HashHex data ∧ a_ID (i_attachment i) = a_ID a
    | Err _ => Size b = default 0%Z (a_Size a) ∧ Entry b = ""%string
    end
  else FileName b = a_FileName a ∧ Size b = default 0%Z (a_Size a) ∧ Entry b = ""%string ∧
       TextContent b = exportDocumentText (contentOf a).1 (contentOf a).2.
(** What may be exported: sizes are integers of the machine, and no image's
    name is made a step of a path. *)
Record exportable (a : Chat.Attachment) : Prop := {
  fits_size : ∀ n, a_Size a = Some n → inRange n;
  fits_data : ∀ data, image a = Ok data → inRange (Z.of_nat (length data));
  no_steps : IsImage a = true → (safeID a ∉ ["."; ".."]%string) ∧ (safeName a ∉ ["."; ".."]%string);
}.

Lemma back_grows held more a b : held `prefix_of` more → back held a b → back more a b.
Proof.
  intros [k ->] (H1 & H2 & H3 & H). split_and!; [done..|]. destruct (IsImage a); [|done]. destruct H as (H4 & H5 & H). split_and!; [done..|].
  destruct (image a); [|done]. destruct H as (H6 & i & Hi & H). split; [done|]. exists i. split; [|done]. apply elem_of_app. by left.
Qed.

(** What one attachment adds to the export. *)
Definition adds (e e' : conversationsExport) : Prop :=
  (placed e → placed e') ∧ images e `prefix_of` images e'.
Lemma adds_refl e : adds e e.
Proof. by split; [|exists []; rewrite app_nil_r]. Qed.
Lemma adds_warn e text : adds e (warn text e).
Proof. by split; [|exists []; rewrite app_nil_r]. Qed.
Lemma adds_trans e1 e2 e3 : adds e1 e2 → adds e2 e3 → adds e1 e3.
Proof. intros [H1 H2] [H3 H4]. split; [auto|by etrans]. Qed.
Lemma safe_segments a : exportable a → IsImage a = true → segment (safeID a) ∧ segment (safeName a).
Proof.
  intros Hx Hi. destruct (no_steps a Hx Hi) as [H1 H2]. split; [exact (sanitized_segment _ _ H1)|exact (sanitized_segment _ _ H2)].
Qed.
Lemma exportOne_adds e place a e' x : exportOne e place a = Ok (e', x) → adds e e'.
Proof.
  unfold Exports.exportOne. destruct (IsImage a); cbn [negb].
  - cbv zeta. fold (safeID a). fold (safeName a). destruct (uniquePath_fresh (used e) (safeID a) (safeName a)) as [Hf Hu].
    destruct (uniquePath (used e) (safeID a) (safeName a)) as [path taken]. cbn [fst snd] in Hf, Hu. subst taken.
    destruct (image a) as [data|[|]]; [| |done]; intros [= <- _]; split; cbn [images used].
    + intros [Hnd Hin]. split; cbn.
      * rewrite fmap_app. apply NoDup_app. split_and!; [done| |apply NoDup_singleton].
        intros p (i & -> & Hi)%list_elem_of_fmap Heq%list_elem_of_singleton. apply Hf. cbn in Heq. rewrite <- Heq. by apply Hin.
      * intros i [Hi| ->%list_elem_of_singleton]%elem_of_app; [specialize (Hin i Hi)|cbn]; set_solver.
    + by eexists.
    + intros [Hnd Hin]. split; [done|]. cbn. intros i Hi. specialize (Hin i Hi). set_solver.
    + by exists []; rewrite app_nil_r.
  - destruct (if HasContent a then _ else _) as [[text pages] [[|]|]]; [..|done|]; intros [= <- _]; [apply adds_warn|apply adds_refl].
Qed.
Lemma exportOne_back e place a e' x names : exportable a → exportOne e place a = Ok (e', x) →
  (∀ i, i ∈ images e' → i_path i ∈ names) →
  sizeInRange x ∧ ∃ b, claudeAttached (Some (NewIndex names)) (toClaude x) = Some b ∧ back (images e') a b.
Proof.
  intros Hx. unfold Exports.exportOne, back. destruct (IsImage a) eqn:Hi; cbn [negb].
  - cbv zeta. fold (safeID a). fold (safeName a). destruct (safe_segments a Hx Hi) as [Hs1 Hs2].
    destruct (uniquePath_clean (used e) (safeID a) (safeName a) Hs1 Hs2) as [Hc Hne].
    destruct (uniquePath (used e) (safeID a) (safeName a)) as [path taken]. cbn [fst] in Hc, Hne.
    assert (String.eqb (safeName a) "" = false) as Hname by (apply String.eqb_neq; intros Hn; destruct Hs2 as [_ Hs2]; apply Hs2; rewrite Hn; by left).
    destruct (image a) as [data|[|]] eqn:Hd; [| |done]; intros [= <- <-] Hnames.
    + split; [intros n [= <-]; by eapply fits_data|]. specialize (Hnames _ ltac:(apply elem_of_app; right; by left)). cbn in Hnames.
      unfold claudeAttached, toClaude. cbn [ca_Type ca_ExportPath ca_Name x_Type x_ExportPath x_FileName]. rewrite Exact_entry by done.
      rewrite (proj2 (String.eqb_neq path "")) by done. cbn [String.eqb]. eexists. split; [reflexivity|].
      unfold Api.or. cbn -[String.eqb]. rewrite Hname. split_and!; [done..|].
      eexists. split; [apply elem_of_app; right; by left|done].
    + split; [intros n Hn; by eapply fits_size|]. unfold claudeAttached, toClaude. cbn [ca_Type ca_ExportPath ca_Name x_Type x_ExportPath x_FileName].
      assert (Exact (Some (NewIndex names)) "" = None) as ->.
      { unfold Exact. cbn. by destruct (bool_decide _). }
      eexists. split; [reflexivity|done].
  - assert ((if HasContent a then (a_TextContent a, a_Pages a, None) else document a).1 = contentOf a) as Hc by (unfold contentOf; by destruct (HasContent a)).
    destruct (if HasContent a then _ else _) as [[text pages] failed]. cbn [fst] in Hc. rewrite <- Hc.
    destruct failed as [[|]|]; [|done|]; intros [= <- <-] _; (split; [intros n Hn; by eapply fits_size|]);
      eexists; (split; [reflexivity|]); by rewrite ?Hi.
Qed.
Lemma exportAll_adds e i j l e' xs : exportAll e i j l = Ok (e', xs) → adds e e'.
Proof.
  revert e j xs. induction l as [|a l IH]; intros e j xs H; cbn in H; [injection H as <- <-; apply adds_refl|].
  destruct (exportOne e (i, j) a) as [[e1 x]|] eqn:H1; [|done]. destruct (exportAll e1 i (S j) l) as [[e2 ys]|] eqn:H2; [|done].
  injection H as <- <-. eapply adds_trans; [by eapply exportOne_adds|by eapply IH].
Qed.
Lemma exportAll_back e i j l e' xs names : Forall exportable l → exportAll e i j l = Ok (e', xs) →
  (∀ i, i ∈ images e' → i_path i ∈ names) →
  Forall sizeInRange xs ∧ Forall2 (back (images e')) l (omap (claudeAttached (Some (NewIndex names))) (toClaude <$> xs)).
Proof.
  intros Hl. revert e j xs. induction Hl as [|a l Ha Hl IH]; intros e j xs H Hn; cbn in H; [by injection H as <- <-|].
  destruct (exportOne e (i, j) a) as [[e1 x]|] eqn:H1; [|done]. destruct (exportAll e1 i (S j) l) as [[e2 ys]|] eqn:H2; [|done].
  injection H as <- <-. destruct (exportAll_adds _ _ _ _ _ _ H2) as [_ Hp].
  destruct (exportOne_back _ _ _ _ _ names Ha H1) as (Hs & b & Hb & Hback).
  { intros k Hk. apply Hn. destruct Hp as [more ->]. apply elem_of_app. by left. }
  destruct (IH _ _ _ H2 Hn) as [Hss Hbs]. split; [by constructor|]. rewrite fmap_cons. cbn [omap list_omap]. rewrite Hb.
  constructor; [by eapply back_grows|exact Hbs].
Qed.

(** A message, and what it is read back as. *)
Definition shown (t : Thread) (held : list exportedImage) (m : Chat.Message) (m' : Message) : Prop :=
  Role m' = (if String.eqb (m_Role m) "user" then "user" else "assistant")%string ∧
  Content m' = TrimSpace (messageText m) ∧
  CreatedAt m' = parseISOTime ParseTime ParseLocal (exportTime [m_CreatedAt m; t_CreatedAt t]) ∧
  Thoughts m' = (if String.eqb (m_Role m) "assistant" then TimelineText (m_Timeline m) "thinking" else ""%string) ∧
  Forall2 (back held) (elems (m_Attachments m)) (Attachments m').
(** The messages with anything to show. *)
Definition kept (m : Chat.Message) : bool :=
  negb (is_marker m) && negb (String.eqb (TrimSpace (messageText m)) "" && isEmpty (elems (m_Attachments m))).
Lemma isEmpty_Forall2 {A B} (R : A → B → Prop) l k : Forall2 R l k → isEmpty k = isEmpty l.
Proof. by destruct 1. Qed.
Lemma message_back t n m xs held idx : Forall2 (back held) (elems (m_Attachments m)) (omap (claudeAttached idx) (toClaude <$> xs)) →
  is_marker m = false →
  match claudeMessageOf ParseTime ParseLocal idx (toClaudeMessage (exportMessageOf ParseTime archiveTime t n m xs)) with
  | Some m' => kept m = true ∧ shown t held m m'
  | None => kept m = false
  end.
Proof.
  intros Hb Hm. unfold claudeMessageOf. cbv zeta.
  assert (claudeAttachments (toClaudeMessage (exportMessageOf ParseTime archiveTime t n m xs)) idx = omap (claudeAttached idx) (toClaude <$> xs)) as -> by done.
  unfold toClaudeMessage, exportMessageOf. cbn [cm_Sender cm_Text cm_CreatedAt cm_Content xm_Text xm_Sender xm_CreatedAt xm_Content].
  rewrite (isEmpty_Forall2 _ _ _ Hb). unfold kept. rewrite Hm. cbn [negb andb].
  assert (∀ s, claudeRole (if String.eqb s "user" then "human" else "assistant") = if String.eqb s "user" then "user" else "assistant")%string as Hrole
    by (intros s; by destruct (String.eqb s "user")).
  rewrite Hrole. destruct (String.eqb (TrimSpace (messageText m)) "" && isEmpty (elems (m_Attachments m))) eqn:He.
  { by destruct (String.eqb (m_Role m) "user"). }
  destruct (String.eqb_spec (m_Role m) "user") as [Hu|Hu]; cbn [orb String.eqb].
  - rewrite Hu. split; [done|]. unfold shown. rewrite Hu. done.
  - destruct (String.eqb (m_Role m) "assistant") eqn:Hr; cbn [andb].
    + split; [done|]. unfold shown. rewrite Hr, (proj2 (String.eqb_neq _ _) Hu). split_and!; try done. cbn [Thoughts].
      destruct (String.eqb_spec (TimelineText (m_Timeline m) "thinking") "") as [->|Hne]; cbn [negb]; [done|].
      unfold claudeThoughts. cbn -[String.eqb]. by rewrite (proj2 (String.eqb_neq _ _) Hne).
    + split; [done|]. unfold shown. rewrite Hr, (proj2 (String.eqb_neq _ _) Hu). done.
Qed.
Lemma exportMessages_adds e t i n l e' ms : exportMessages e t i n l = Ok (e', ms) → adds e e'.
Proof.
  revert e i n ms. induction l as [|m l IH]; intros e i n ms H; cbn in H; [injection H as <- <-; apply adds_refl|].
  destruct (is_marker m); [by eapply IH|].
  destruct (exportAll e i 0 _) as [[e1 xs]|] eqn:H1; [|done]. destruct (exportMessages e1 t (S i) (S n) l) as [[e2 ys]|] eqn:H2; [|done].
  injection H as <- <-. eapply adds_trans; [by eapply exportAll_adds|by eapply IH].
Qed.
Lemma exportMessages_back e t i n l e' ms names :
  Forall (λ m, Forall exportable (elems (m_Attachments m))) l → exportMessages e t i n l = Ok (e', ms) →
  (∀ i, i ∈ images e' → i_path i ∈ names) →
  Forall sizesInRange ms ∧
  Forall2 (shown t (images e')) (List.filter kept l)
    (omap (claudeMessageOf ParseTime ParseLocal (Some (NewIndex names))) (toClaudeMessage <$> ms)).
Proof.
  intros Hl. revert e i n ms. induction Hl as [|m l Hm Hl IH]; intros e i n ms H Hn; cbn in H; [by injection H as <- <-|].
  cbn [List.filter]. destruct (is_marker m) eqn:Hmark.
  { assert (kept m = false) as -> by (unfold kept; by rewrite Hmark). by eapply IH. }
  destruct (exportAll e i 0 _) as [[e1 xs]|] eqn:H1; [|done]. destruct (exportMessages e1 t (S i) (S n) l) as [[e2 ys]|] eqn:H2; [|done].
  injection H as <- <-. destruct (exportMessages_adds _ _ _ _ _ _ _ H2) as [_ Hp].
  destruct (exportAll_back _ _ _ _ _ _ names Hm H1) as [Hs Hb].
  { intros k Hk. apply Hn. destruct Hp as [more ->]. apply elem_of_app. by left. }
  destruct (IH _ _ _ _ H2 Hn) as [Hss Hbs]. split; [by constructor|]. rewrite fmap_cons. cbn [omap list_omap].
  pose proof (message_back t n m xs (images e2) (Some (NewIndex names))) as Hmsg.
  specialize (Hmsg ltac:(eapply Forall2_impl; [exact Hb|]; intros a b; by apply back_grows) Hmark).
  destruct (claudeMessageOf _ _ _ _) as [m'|]; [destruct Hmsg as [-> Hshown]; by constructor|by rewrite Hmsg].
Qed.

(** C27. A chat exported, none of whose images has an id or a name that is
    cleaned to a step of a path ([exportable]; such a name is written where no
    import reads it, below), is read back as it was: each message with anything to
    show, in order, with its role, its text trimmed, its reasoning, its date
    and its attachments; a document with its text, an image with the entry of
    the archive that holds its bytes, which no other image shares.  The
    summaries of compactions are left out. *)
Theorem export_imported e t project e' c names :
  Forall (λ m, Forall exportable (elems (m_Attachments m))) (t_Messages t) →
  placed e → exportChat e t project = Ok (e', c) → (∀ i, i ∈ images e' → i_path i ∈ names) →
  placed e' ∧
  ∃ ms, Forall2 (shown t (images e')) (List.filter kept (t_Messages t)) ms ∧
    ReadClaude ParseTime ParseLocal (conversationObject c) (Some (NewIndex names)) =
    Ok (match ms with
        | [] => None
        | _ => Some (mkConversation (Api.or (t_ID t) (Join ["claude"; t_Title t; xc_CreatedAt c]%string ":")) (t_Title t)
                       (parseISOTime ParseTime ParseLocal (exportTime [t_CreatedAt t; t_UpdatedAt t]))
                       (parseISOTime ParseTime ParseLocal (exportTime [t_UpdatedAt t; t_CreatedAt t])) ms)
        end).
Proof.
  intros Hx Hp He Hn. unfold Exports.exportChat in He. destruct (exportMessages e t 0 0 (t_Messages t)) as [[e1 xs]|] eqn:Hm; [|done].
  injection He as <- <-. destruct (exportMessages_adds _ _ _ _ _ _ _ Hm) as [Hplaced _]. split; [by apply Hplaced|].
  destruct (exportMessages_back _ _ _ _ _ _ _ names Hx Hm Hn) as [Hs Hb]. eexists. split; [exact Hb|].
  unfold ReadClaude. rewrite conversation_decodes by done. cbn [xc_ChatMessages cc_ChatMessages]. by destruct (omap _ _).
Qed.
End ReadBack.

(** An image whose name is a space and two dots is written at a path with a
    step up, which no import takes. *)
Lemma steps_kept : sanitizeFilename " .." "x" = ".."%string ∧
  Importer.normalizeEntry (uniquePath ∅ "i" (sanitizeFilename " .." "x")).1 = "attachments"%string.
Proof. by vm_compute. Qed.

(** ** Concrete inputs *)

Definition photo : Chat.Attachment :=
  Chat.mkAttachment "a1" "image" "my photo?.png" "image/png" None "" "" "" [] "AA==" "" "" "" "".
Definition sampleChat : Thread :=
  mkThread "t1" "Cats" "manual" "d1" "d2" "auto" None None false true
    [noMessage <| m_ID := "m1" |> <| m_Role := "user" |> <| m_Content := " look " |> <| m_Attachments := Some [photo] |>;
     noMessage <| m_ID := "m2" |> <| m_Role := "assistant" |> <| m_Content := "A cat." |>
       <| m_Timeline := Some [noBlock <| b_Type := "thinking" |> <| b_Content := "Hmm." |>] |>]%string
    "" "" None None false 0 2 None.
Lemma photo_exportable : exportable (λ _, Ok ["0"%char]) photo.
Proof.
  split.
  - done.
  - intros d [= <-]. unfold inRange, min_int, max_int. cbn. lia.
  - intros _. split; apply (bool_decide_unpack _); vm_compute; exact I.
Qed.
Abbreviation emptyExport := (mkConversations ∅ [] [] [] 0).
Abbreviation sampleExport := (exportChat (λ _, None) (λ _, "1970-01-01T00:00:00.000Z"%string) (λ _, "00"%string) (λ _, Ok ["0"%char])
  (λ _, (""%string, [], None)) emptyExport sampleChat "").
Definition sampleResult : conversationsExport * exportConversation :=
  Eval vm_compute in match sampleExport with Ok r => r | Err _ => (emptyExport, mkExport "" "" "" "" "" []) end.
Lemma export_imported_witness : sampleExport = Ok sampleResult ∧ ∃ m1 m2,
  ReadClaude (λ _, None) (λ _, None) (conversationObject sampleResult.2) (Some (NewIndex ["attachments/a1/my photo_.png"]%string)) =
    Ok (Some (mkConversation "t1" "Cats" None None [m1; m2])) ∧
  Content m1 = "look"%string ∧ Entry <$> Attachments m1 = ["attachments/a1/my photo_.png"]%string ∧ Thoughts m2 = "Hmm."%string.
Proof.
  assert (sampleExport = Ok sampleResult) as He by (vm_compute; reflexivity). split; [exact He|].
  destruct (export_imported (λ _, None) (λ _, None) (λ _, "1970-01-01T00:00:00.000Z"%string) (λ _, "00"%string) (λ _, Ok ["0"%char])
    (λ _, (""%string, [], None)) emptyExport sampleChat "" sampleResult.1 sampleResult.2 ["attachments/a1/my photo_.png"]%string) as (Hp & ms & Hms & Hr).
  - apply Forall_cons. split; [apply Forall_cons; split; [exact photo_exportable|exact (Forall_nil_2 _)]|].
    apply Forall_cons. split; exact (Forall_nil_2 _).
  - split; [apply NoDup_nil_2|intros i Hi; by apply not_elem_of_nil in Hi].
  - exact He.
  - intros i Hi. cbn in Hi. apply list_elem_of_singleton in Hi as ->. by left.
  - cbn [sampleChat t_Messages] in Hms. destruct ms as [|m1 [|m2 [|]]]; [by apply Forall2_length in Hms..| |by apply Forall2_length in Hms].
    apply Forall2_cons in Hms as [(_ & Hc & _ & _ & Ha) [(_ & _ & _ & Ht & _) _]%Forall2_cons].
    exists m1, m2. split; [exact Hr|]. split; [exact Hc|]. split; [|exact Ht].
    destruct (Attachments m1) as [|b [|]]; [by apply Forall2_length in Ha| |by apply Forall2_length in Ha].
    apply Forall2_cons in Ha as [(_ & _ & _ & _ & _ & _ & i & Hi & Hpath & _) _]. cbn in Hi. apply list_elem_of_singleton in Hi as ->.
    cbn in Hpath. cbn. rewrite <- Hpath. reflexivity.
Defined.
End Exports.
