(* ===== verification/Archives.v ===== *)
(** * ZIP archives: internal/archives/backup.go

    The entries of an archive and how they are read within limits, the names
    that stay inside it, and the names of a native backup's entries. *)

From S2P Require Import Prelude GoStd Api Decode Codec Timeline Results Importer.
Local Open Scope nat_scope.
Local Open Scope go_scope.

Module Archives.
Import GoStd Codec Decode.

(** ** Entries *)

(** A [zip.File]: its name, the size and the flag for encryption its header
    has, whether it is a regular file, and what opening it gives: the bytes it
    holds and whether reading them to their end fails. *)
Record File := mkEntry {
  Name : string;
  UncompressedSize64 : Z;
  Encrypted : bool;
  IsRegular : bool;
  Contents : option (bytes * bool);
}.

Definition MaxArchiveExpansion : Z := 2 * 2 ^ 30.
Definition maxArchiveEntries : Z := 50000.
Definition maxArchiveJSONEntry : Z := 256 * 2 ^ 20.
Definition MaxUploadBytes : Z := 33 * 2 ^ 20.
Definition maxArchiveImage : Z := MaxUploadBytes.
Definition maxBackupManifestBytes : Z := 32 * 2 ^ 20.
Definition backupEntryLimit (name : string) : Z :=
  if String.eqb (Importer.pathExt name) ".bin" then maxArchiveImage else maxArchiveJSONEntry.

(** [uint64] addition. *)
Definition add64 (a b : Z) : Z := (a + b) mod 2 ^ 64.

Definition invalidImport (message : string) : Api.err := Api.EApi (Api.Err_ 400 "IMPORT_INVALID" message).
Definition tooLarge (message : string) : Api.err := Api.EApi (Api.Err_ 413 "IMPORT_TOO_LARGE" message).
Definition readEntry (f : File) (limit : Z) : result Api.err bytes :=
  if bool_decide (limit < UncompressedSize64 f)%Z then Err (tooLarge "An archive entry exceeds the size limit")
  else
    match Contents f with
    | None => Err (invalidImport "An archive entry cannot be read")
    | Some (data, failed) =>
        if failed || negb (bool_decide (Z.of_nat (length data) = UncompressedSize64 f))
        then Err (invalidImport "An archive entry does not match its size") else Ok data
    end.

Section Json.
Context (Unmarshal : bytes → option Api.any).
Definition decodeEntry {A} (decode : Api.any → option A) (f : File) : result Api.err A :=
  b ← readEntry f maxArchiveJSONEntry;
  match Unmarshal b ≫= decode with
  | Some v => Ok v
  | None => Err (invalidImport (String.append "An archive entry is not valid JSON: " (Name f)))
  end.
End Json.

(** [writeEntry], as reading the archive finds the entry. *)
Definition writtenEntry (name : string) (data : bytes) : File := mkEntry name (Z.of_nat (length data)) false true (Some (data, false)).

Lemma readEntry_ok f limit data : readEntry f limit = Ok data →
  Contents f = Some (data, false) ∧ UncompressedSize64 f = Z.of_nat (length data) ∧ (UncompressedSize64 f ≤ limit)%Z.
Proof.
  unfold readEntry. case_bool_decide; [done|]. destruct (Contents f) as [[d failed]|]; [|done]. destruct failed; cbn; [done|].
  case_bool_decide; cbn; [|done]. intros [= ->]. split_and!; [done..|lia].
Qed.
Lemma readEntry_written name data limit : (Z.of_nat (length data) ≤ limit)%Z → readEntry (writtenEntry name data) limit = Ok data.
Proof. intros Hl. unfold readEntry. cbn. rewrite bool_decide_eq_false_2 by lia. by rewrite bool_decide_eq_true_2. Qed.

(** ** Names inside the archive *)

(** [path.Clean]: of a path that is not rooted, the steps up at its front stay. *)
Definition cleanRelative (kept : list string) (s : string) : list string :=
  if String.eqb s "" || String.eqb s "." then kept
  else if String.eqb s ".." then
    match kept with [] => [".."%string] | k :: rest => if String.eqb k ".." then ".."%string :: kept else rest end
  else s :: kept.
Definition Clean (name : string) : string :=
  match name with
  | String "/" rest => String "/" (Join (rev (foldl Importer.cleanSegment [] (Importer.segments (bytes_of rest)))) "/")
  | _ => Api.or (Join (rev (foldl cleanRelative [] (Importer.segments (bytes_of name)))) "/") "."
  end.
Example cleaned : Clean "a/./b//../c" = "a/c"%string ∧ Clean "../a/../../b" = "../../b"%string ∧ Clean "/../a" = "/a"%string ∧ Clean "a/.." = "."%string.
Proof. done. Qed.

Definition unsafeByte (c : ascii) : bool := Ascii.eqb c "\" || Ascii.eqb c "000".
Definition safeEntryName (f : File) : bool :=
  let name := Name f in
  negb (String.eqb name "") && String.eqb name (Clean name) && negb (String.prefix "/" name) && negb (String.prefix "../" name) &&
  negb (String.eqb name "..") && negb (existsb unsafeByte (bytes_of name)) && IsRegular f.

(** ** The names of a backup's entries *)

Definition ManifestPath : string := "manifest.json".
Definition relationshipsPath : string := "relationships.json".
Definition idComponent (id : string) : string := String.append "id-" (EncodeToString (bytes_of id)).
Definition BackupEntityPath (kind id : string) : string := Join [kind; String.append (idComponent id) ".json"]%string "/".
Definition BackupDocumentPath (projectID id : string) : string :=
  Join ["project_documents"; idComponent projectID; String.append (idComponent id) ".json"]%string "/".
Definition BackupImagePath (id extension : string) : string := Join ["images"; String.append (idComponent id) extension]%string "/".

(** The expression [backupPaths], a segment at a time. *)
Definition idSegment (s : string) : bool :=
  match bytes_of s with
  | "i"%char :: "d"%char :: "-"%char :: hex => negb (bool_decide (hex = [])) && forallb lower_hex hex
  | _ => false
  end.
Definition fileSegment (extensions : list string) (s : string) : bool :=
  match CutAt s "." with Some (id, extension) => idSegment id && Importer.contains extensions extension | None => false end.
Definition backupPaths (name : string) : bool :=
  match Importer.segments (bytes_of name) with
  | [f] => Importer.contains [ManifestPath; relationshipsPath] f
  | [d; f] => if String.eqb d "images" then fileSegment ["json"; "bin"]%string f
              else Importer.contains ["projects"; "cloud_chats"; "local_chats"]%string d && fileSegment ["json"]%string f
  | [d; p; f] => String.eqb d "project_documents" && idSegment p && fileSegment ["json"]%string f
  | _ => false
  end.
Definition BackupKind (name : string) : string :=
  if String.eqb name relationshipsPath then "relationships" else match CutAt name "/" with Some (kind, _) => kind | None => name end.
Example backup_names : backupPaths (BackupDocumentPath "p" "d") = true ∧ backupPaths (BackupImagePath "c/0/1" ".bin") = true ∧
  backupPaths "images/id-6g.bin" = false ∧ backupPaths "projects/id-.json" = false ∧ BackupKind (BackupEntityPath "local_chats" "a/b") = "local_chats"%string.
Proof. done. Qed.

(** ** What their names are made of *)

Lemma substring_past p t : String.substring (String.length p) (String.length p + String.length t) (String.append p t) = t.
Proof.
  assert (∀ k, String.substring (String.length p) (String.length t + k) (String.append p t) = t) as H; [|rewrite Nat.add_comm; apply H].
  intros k. induction p as [|x p IH]; [|exact IH]. change (String.substring 0 (String.length t + k) t = t).
  revert k. induction t as [|x t IH]; intros k; [by destruct k|]. cbn. f_equal. apply IH.
Qed.
Lemma CutAt_first s c t : c ∉ bytes_of s → CutAt (String.append s (String c t)) (String c "") = Some (s, t).
Proof.
  intros Hc. assert (Index (String.append s (String c t)) (String c "") = Some (String.length s)) as Hi.
  { unfold Index. induction s as [|x s IH].
    - change (String.index 0 (String c "") (String c t) = Some 0). cbn [String.index String.prefix]. destruct (ascii_dec c c); [by destruct t|done].
    - cbn in Hc. apply not_elem_of_cons in Hc as [Hx Hs].
      change (String.append (String x s) (String c t)) with (String x (String.append s (String c t))).
      cbn [String.index String.prefix]. destruct (ascii_dec c x); [done|]. by rewrite IH. }
  unfold CutAt. rewrite Hi. cbn. rewrite Importer.substring_front. do 2 f_equal.
  replace (String.append s (String c t)) with (String.append (String.append s (String c "")) t) by (by rewrite string_app_assoc).
  replace (String.length s + 1) with (String.length (String.append s (String c ""))) by (by rewrite Importer.length_append).
  rewrite (Importer.length_append _ t). apply substring_past.
Qed.
Lemma pathExt_last r t : "."%char ∉ bytes_of t → "/"%char ∉ bytes_of t → Importer.pathExt (String.append r (String "." t)) = String "." t.
Proof.
  intros Hd Hs. unfold Importer.pathExt. rewrite bytes_of_append. change (bytes_of (String "." t)) with ("."%char :: bytes_of t).
  rewrite rev_app_distr. cbn [rev]. rewrite <- app_assoc. cbn [app]. rewrite <- (string_of_bytes (String "." t)). f_equal.
  change (bytes_of (String "." t)) with ("."%char :: bytes_of t).
  assert (∀ l acc, "."%char ∉ l → "/"%char ∉ l → Importer.extBack (l ++ "."%char :: rev (bytes_of r)) acc = "."%char :: rev l ++ acc) as H.
  { clear. induction l as [|c l IH]; intros acc Hd Hs; [done|]. apply not_elem_of_cons in Hd as [Hcd Hd], Hs as [Hcs Hs].
    cbn. destruct (Ascii.eqb_spec c "/"), (Ascii.eqb_spec c "."); [congruence..|]. rewrite IH by done. by rewrite <- app_assoc. }
  rewrite H, rev_involutive, app_nil_r; [done|..]; by rewrite list_elem_of_In, <- in_rev, <- list_elem_of_In.
Qed.
Lemma join_segments l : bytes_of (Join (Importer.segments l) "/") = l.
Proof.
  induction l as [|c l IH]; [done|]. cbn. assert (Importer.segments l ≠ []) as Hne by (destruct l as [|d l]; cbn; [done|]; by case_match; [|destruct (Importer.segments l)]).
  destruct (Importer.segments l) as [|s ss] eqn:Hs; [done|]. destruct (Ascii.eqb_spec c "/") as [->|].
  - change (Join (""%string :: s :: ss) "/") with (String "/" (Join (s :: ss) "/")). change (bytes_of (String ?c ?r)) with (c :: bytes_of r). by rewrite IH.
  - replace (Join (String c s :: ss) "/") with (String c (Join (s :: ss) "/")) by (by destruct ss).
    change (bytes_of (String ?c ?r)) with (c :: bytes_of r). by rewrite IH.
Qed.

(** Bytes a segment may have: none that ends it or that no name may hold. *)
Definition plainByte (c : ascii) : bool := negb (Ascii.eqb c "/") && negb (unsafeByte c).
Definition plainSegment (s : string) : Prop := (s ∉ [""; "."; ".."]%string) ∧ forallb plainByte (bytes_of s) = true.
Lemma plain_slashless s : forallb plainByte (bytes_of s) = true → Importer.slashless s.
Proof.
  intros Hs Hin. rewrite forallb_forall in Hs. apply list_elem_of_In in Hin. by specialize (Hs _ Hin).
Qed.

Lemma cleanRelative_plain ss kept : (∀ s, s ∈ ss → s ∉ [""; "."; ".."]%string) → foldl cleanRelative kept ss = rev ss ++ kept.
Proof.
  revert kept. induction ss as [|s ss IH]; intros kept Hs; [done|]. cbn. rewrite IH by (intros x Hx; apply Hs; by right).
  assert (cleanRelative kept s = s :: kept) as ->; [|by rewrite <- app_assoc]. specialize (Hs s ltac:(by left)). rewrite !not_elem_of_cons in Hs.
  unfold cleanRelative. by rewrite !(proj2 (String.eqb_neq _ _)) by naive_solver.
Qed.
Lemma Join_bytes ss c : c ∈ bytes_of (Join ss "/") → c = "/"%char ∨ ∃ s, s ∈ ss ∧ c ∈ bytes_of s.
Proof.
  induction ss as [|s [|s' ss] IH]; cbn [Join]; intros Hc; [by apply not_elem_of_nil in Hc|right; exists s; split; [by left|done]|].
  change (Join (s :: s' :: ss) "/") with (String.append s (String "/" (Join (s' :: ss) "/"))) in Hc.
  rewrite bytes_of_append in Hc. change (bytes_of (String "/" ?r)) with ("/"%char :: bytes_of r) in Hc.
  apply elem_of_app in Hc as [Hc|[->|Hc]%elem_of_cons]; [right; exists s; split; [by left|done]|by left|].
  destruct (IH Hc) as [|(x & Hx & Hcx)]; [by left|right]. exists x. split; [by right|done].
Qed.
Lemma prefix_split p s : String.prefix p s = true → ∃ r, s = String.append p r.
Proof.
  revert s. induction p as [|c p IH]; intros s; [by exists s|]. destruct s as [|d s]; [done|]. cbn [String.prefix].
  destruct (ascii_dec c d) as [->|]; [|done]. intros (r & ->)%IH. by exists r.
Qed.
(** A path of plain segments stays inside the archive. *)
Lemma plain_safe f : IsRegular f = true → (∀ s, s ∈ Importer.segments (bytes_of (Name f)) → plainSegment s) → safeEntryName f = true.
Proof.
  intros Hr Hs. unfold safeEntryName. rewrite Hr, andb_true_r. set (ss := Importer.segments (bytes_of (Name f))) in *.
  assert (Join ss "/" = Name f) as Hj by (rewrite <- (string_of_bytes (Join ss "/")); unfold ss; by rewrite join_segments, string_of_bytes).
  assert (ss ≠ []) as Hne by (unfold ss; destruct (bytes_of (Name f)) as [|c l]; cbn; [done|]; by case_match; [|destruct (Importer.segments l)]).
  assert (∀ s, s ∈ ss → s ∉ [""; "."; ".."]%string) as Hp by (intros s Hin; by apply Hs).
  assert (∀ s, s ∈ [""; ".."]%string → Name f ≠ s) as Hnot.
  { intros s Hin Hn. unfold ss in Hp. rewrite Hn in Hp. apply elem_of_cons in Hin as [->| ->%list_elem_of_singleton].
    - apply (Hp ""%string); cbn; [by left|by left].
    - apply (Hp ".."%string); cbn; [by left|]. right. right. by left. }
  assert (∀ r, Name f ≠ String "/" r) as Hroot.
  { intros r Hn. apply (Hp ""%string); [|by left]. unfold ss. rewrite Hn. change (bytes_of (String "/" r)) with ("/"%char :: bytes_of r). cbn. by left. }
  assert (Clean (Name f) = Name f) as Hc.
  { assert (Api.or (Join (rev (foldl cleanRelative [] ss)) "/") "." = Name f) as H.
    { rewrite (cleanRelative_plain _ _ Hp), app_nil_r, rev_involutive, Hj. unfold Api.or. rewrite (proj2 (String.eqb_neq _ _)); [done|]. apply Hnot. by left. }
    unfold Clean. fold ss. destruct (Name f) as [|[[] [] [] [] [] [] [] []] r] eqn:Hn; try exact H. by destruct (Hroot r). }
  rewrite Hc, String.eqb_refl, !(proj2 (String.eqb_neq (Name f) _)) by (apply Hnot; set_solver). cbn [negb andb].
  destruct (existsb unsafeByte (bytes_of (Name f))) eqn:He.
  { apply existsb_exists in He as (c & Hc'%list_elem_of_In & Hu). rewrite <- Hj in Hc'. apply Join_bytes in Hc' as [->|(s & Hin & Hcs)]; [done|].
    destruct (Hs s Hin) as [_ Hb]. rewrite forallb_forall in Hb. apply list_elem_of_In in Hcs. specialize (Hb c Hcs). unfold plainByte in Hb. rewrite Hu in Hb. by rewrite andb_false_r in Hb. }
  destruct (String.prefix "../" (Name f)) eqn:Hu.
  { exfalso. apply prefix_split in Hu as [r Hu]. apply (Hp ".."%string); [|set_solver]. unfold ss. rewrite Hu. cbn. by left. }
  destruct (String.prefix "/" (Name f)) eqn:Hu'; [|done]. apply prefix_split in Hu' as [r Hu']. by destruct (Hroot r).
Qed.

(** An entry that is safe, other than the archive itself, is below its top. *)
Definition stepped (kept : list string) : Prop :=
  ∃ n k, kept = k ++ repeat ".."%string n ∧ ∀ x, x ∈ k → x ∉ [""; "."; ".."]%string.
Lemma stepped_nil : stepped [].
Proof. exists 0, []. split; [done|]. by intros x ?%not_elem_of_nil. Qed.
Lemma cleanRelative_stepped ss kept : stepped kept → stepped (foldl cleanRelative kept ss).
Proof.
  revert kept. induction ss as [|x ss IH]; intros kept Hk; [done|]. cbn [foldl]. apply IH. unfold cleanRelative.
  destruct (String.eqb_spec x ""), (String.eqb_spec x "."); [done..|]. cbn [orb]. destruct Hk as (up & k & -> & Hk).
  destruct (String.eqb_spec x "..") as [->|].
  - destruct k as [|y k].
    + destruct up as [|up]; [by exists 1, []|by exists (S (S up)), []].
    + cbn. rewrite (proj2 (String.eqb_neq _ _)) by (specialize (Hk y ltac:(by left)); set_solver).
      exists up, k. split; [done|]. intros z Hz. apply Hk. by right.
  - exists up, (x :: k). split; [done|]. intros y [->|Hy]%elem_of_cons; [set_solver|by apply Hk].
Qed.
Lemma cleanRelative_from ss kept x : x ∈ foldl cleanRelative kept ss → x ∈ kept ∨ x ∈ ss.
Proof.
  revert kept. induction ss as [|y ss IH]; intros kept Hx; [by left|]. destruct (IH _ Hx) as [Hk|]; [|right; by right].
  unfold cleanRelative in Hk. destruct (_ || _); [by left|]. destruct (String.eqb_spec y "..") as [->|].
  - destruct kept as [|k rest]; [apply list_elem_of_singleton in Hk as ->; right; by left|]. destruct (String.eqb k ".."); [|left; by right].
    apply elem_of_cons in Hk as [->|Hk]; [right; by left|by left].
  - apply elem_of_cons in Hk as [->|Hk]; [right; by left|by left].
Qed.
Lemma safe_below f : safeEntryName f = true → Name f ≠ "."%string → Importer.below (Name f).
Proof.
  unfold safeEntryName. rewrite !andb_true_iff, !negb_true_iff. intros ((((((He & Hc) & Hroot) & Hup) & Hdd) & _) & _) Hdot.
  apply String.eqb_eq in Hc. apply String.eqb_neq in He, Hdd.
  set (kept := foldl cleanRelative [] (Importer.segments (bytes_of (Name f)))).
  assert (Name f = Join (rev kept) "/") as Hn.
  { assert (Clean (Name f) = Api.or (Join (rev kept) "/") ".") as Hcl.
    { unfold Clean, kept. destruct (Name f) as [|[[] [] [] [] [] [] [] []] r]; try done. cbn in Hroot. by destruct r. }
    rewrite Hcl in Hc. unfold Api.or in Hc. destruct (String.eqb_spec (Join (rev kept) "/") ""); done. }
  destruct (cleanRelative_stepped (Importer.segments (bytes_of (Name f))) [] stepped_nil) as (n & k & Hk & Hp). fold kept in Hk.
  assert (∀ x, x ∈ rev kept → Importer.slashless x) as Hsl.
  { intros x Hx. rewrite list_elem_of_In, <- in_rev, <- list_elem_of_In in Hx.
    destruct (cleanRelative_from _ _ _ Hx) as [Hx'%not_elem_of_nil|Hx']; [done|]. by eapply Importer.segments_slashless. }
  assert (rev kept ≠ []) as Hne by (intros Hr; rewrite Hr in Hn; cbn in Hn; done).
  destruct n as [|n].
  - cbn in Hk. rewrite app_nil_r in Hk. unfold Importer.below. rewrite Hn, Importer.segments_join by done. rewrite Hk. intros s Hs.
    apply Hp. by rewrite list_elem_of_In, <- in_rev, <- list_elem_of_In in Hs.
  - exfalso. rewrite Hk, rev_app_distr, List.rev_repeat in Hn. cbn [repeat app] in Hn.
    destruct (repeat _ n ++ rev k) as [|y l]; [done|].
    change (Join (".." :: y :: l)%string "/") with (String.append "../" (Join (y :: l) "/")) in Hn. by rewrite Hn, Importer.prefix_append in Hup.
Qed.

(** ** The names of a backup *)

Lemma lower_hex_plain c : lower_hex c = true → plainByte c = true ∧ c ≠ "."%char.
Proof. by destruct c as [[] [] [] [] [] [] [] []]. Qed.
Lemma idSegment_shape s : idSegment s = true → ∃ r, s = String "i" (String "d" (String "-" r)) ∧ forallb lower_hex (bytes_of r) = true.
Proof.
  unfold idSegment. destruct s as [|c1 [|c2 [|c3 s]]]; try done; cbn; [by repeat case_match..|].
  destruct (Ascii.eqb_spec c1 "i") as [->|]; [|by repeat case_match]. destruct (Ascii.eqb_spec c2 "d") as [->|]; [|by repeat case_match].
  destruct (Ascii.eqb_spec c3 "-") as [->|]; [|by repeat case_match]. intros [_ Hh]%andb_true_iff. by exists s.
Qed.
Lemma idSegment_plain s : idSegment s = true → plainSegment s ∧ "."%char ∉ bytes_of s.
Proof.
  intros (r & -> & Hh)%idSegment_shape. rewrite forallb_forall in Hh. split; [split|].
  - rewrite !not_elem_of_cons. split_and!; try done. apply not_elem_of_nil.
  - cbn. fold (bytes_of r). apply forallb_forall. intros c Hc. by apply lower_hex_plain, Hh.
  - cbn. fold (bytes_of r). rewrite !not_elem_of_cons. split_and!; try done. intros Hd%list_elem_of_In. by apply Hh, lower_hex_plain in Hd as [_ ?].
Qed.
Lemma idComponent_segment id : id ≠ ""%string → idSegment (idComponent id) = true.
Proof.
  intros Hid. unfold idSegment, idComponent. change (bytes_of (String.append "id-" ?s)) with ("i" :: "d" :: "-" :: bytes_of s)%char.
  cbn beta iota. rewrite hex_lower, andb_true_r. rewrite bool_decide_eq_false_2; [done|]. intros Hn%(f_equal length).
  rewrite bytes_of_length, hex_length, bytes_of_length in Hn. destruct id; [done|]. cbn in Hn. lia.
Qed.
Lemma fileSegment_of id extension l : id ≠ ""%string → Importer.contains l extension = true →
  fileSegment l (String.append (idComponent id) (String "." extension)) = true.
Proof.
  intros Hid Hl. unfold fileSegment. rewrite CutAt_first by (by apply idSegment_plain, idComponent_segment). by rewrite idComponent_segment.
Qed.
Lemma CutAt_split s c a b : CutAt s (String c "") = Some (a, b) → s = String.append a (String c b).
Proof.
  unfold CutAt. destruct (Index s (String c "")) as [n|] eqn:Hi; [|done]. cbn. intros [= <- <-].
  assert (∃ r t, s = String.append r (String c t) ∧ n = String.length r) as (r & t & -> & ->).
  { revert n Hi. unfold Index. induction s as [|x s IH]; intros n; [done|]. cbn [String.index String.prefix]. destruct (ascii_dec c x) as [->|].
    - replace (String.prefix "" s) with true by (by destruct s). intros [= <-]. by exists ""%string, s.
    - destruct (String.index 0 (String c "") s) as [k|]; [|done]. intros [= <-]. destruct (IH k eq_refl) as (r & t & -> & ->). by exists (String x r), t. }
  rewrite Importer.substring_front. f_equal.
  replace (String.append r (String c t)) with (String.append (String.append r (String c "")) t) by (by rewrite string_app_assoc).
  replace (String.length r + 1) with (String.length (String.append r (String c ""))) by (by rewrite Importer.length_append).
  rewrite (Importer.length_append _ t). by rewrite substring_past.
Qed.
Lemma fileSegment_plain l s : (∀ e, e ∈ l → forallb plainByte (bytes_of e) = true) → fileSegment l s = true → plainSegment s.
Proof.
  intros Hl. unfold fileSegment. destruct (CutAt s ".") as [[id e]|] eqn:Hc; [|done]. intros [Hi He]%andb_true_iff.
  apply CutAt_split in Hc as ->. destruct (idSegment_plain _ Hi) as [[_ Hp] _]. split.
  - destruct (idSegment_shape _ Hi) as (r & -> & _). rewrite !not_elem_of_cons. split_and!; try done. apply not_elem_of_nil.
  - rewrite bytes_of_append, forallb_app, Hp. change (bytes_of (String "." e)) with ("."%char :: bytes_of e). cbn. apply Hl.
    apply existsb_exists in He as (x & Hx & ->%String.eqb_eq). by apply list_elem_of_In.
Qed.
Lemma contains_elem l s : Importer.contains l s = true ↔ s ∈ l.
Proof.
  unfold Importer.contains. rewrite existsb_exists, list_elem_of_In. split; [by intros (x & Hx & ->%String.eqb_eq)|].
  intros Hs. exists s. by rewrite String.eqb_refl.
Qed.
(** The expression takes only names that stay inside the archive. *)
Lemma backup_safe f : backupPaths (Name f) = true → IsRegular f = true → safeEntryName f = true.
Proof.
  intros Hb Hr. apply plain_safe; [done|]. unfold backupPaths in Hb.
  assert (∀ l s, s ∈ l → forallb (λ x, negb (Importer.contains [""; "."; ".."]%string x) && forallb plainByte (bytes_of x)) l = true → plainSegment s) as Hk.
  { intros l s Hs%list_elem_of_In Hl. rewrite forallb_forall in Hl. apply Hl in Hs as [Hn ?]%andb_true_iff. split; [|done].
    intros Hin%contains_elem. by rewrite Hin in Hn. }
  assert (∀ s e, fileSegment e s = true → e ∈ [["json"]; ["json"; "bin"]]%string → plainSegment s) as Hf.
  { intros s e Hs He. eapply fileSegment_plain; [|exact Hs]. intros x Hx. repeat (apply elem_of_cons in He as [->|He]); [..|by apply not_elem_of_nil in He];
      repeat (apply elem_of_cons in Hx as [->|Hx]); try done; by apply not_elem_of_nil in Hx. }
  destruct (Importer.segments (bytes_of (Name f))) as [|d [|g [|h [|? ?]]]]; [done|..|done].
  - apply contains_elem in Hb. intros s ->%list_elem_of_singleton. by eapply Hk.
  - intros s Hs. destruct (String.eqb_spec d "images") as [->|].
    + apply elem_of_cons in Hs as [->| ->%list_elem_of_singleton]; [by apply (Hk ["images"]%string); [left|]|]. eapply Hf; [done|]. right. by left.
    + apply andb_true_iff in Hb as [Hd Hg]. apply contains_elem in Hd.
      apply elem_of_cons in Hs as [->| ->%list_elem_of_singleton]; [by eapply Hk|]. eapply Hf; [done|by left].
  - apply andb_true_iff in Hb as [[->%String.eqb_eq Hp]%andb_true_iff Hh]. intros s Hs.
    apply elem_of_cons in Hs as [->|[->| ->%list_elem_of_singleton]%elem_of_cons].
    + by apply (Hk ["project_documents"]%string); [left|].
    + by apply idSegment_plain.
    + eapply Hf; [done|by left].
Qed.

(** What is asked of the names the code makes. *)
Definition namedAs (name kind extension : string) : Prop :=
  backupPaths name = true ∧ BackupKind name = kind ∧ Importer.pathExt name = extension ∧ name ≠ ManifestPath.
Lemma file_slashless id e : "/"%char ∉ bytes_of e → Importer.slashless (String.append (idComponent id) (String "." e)).
Proof.
  intros He. unfold Importer.slashless, idComponent. rewrite !bytes_of_append. change (bytes_of (String "." e)) with ("."%char :: bytes_of e).
  rewrite elem_of_app, elem_of_app, elem_of_cons. intros [[H|H]|[H|H]]; try done; [set_solver|].
  pose proof (hex_lower (bytes_of id)) as Hh. rewrite forallb_forall in Hh. apply list_elem_of_In, Hh in H. done.
Qed.
Lemma kind_name kind rest : Importer.slashless kind → rest ≠ ""%string → BackupKind (String.append kind (String "/" rest)) = kind.
Proof.
  intros Hk Hr. unfold BackupKind. rewrite CutAt_first by done. destruct (String.eqb_spec (String.append kind (String "/" rest)) relationshipsPath) as [He|]; [|done].
  exfalso. apply (f_equal bytes_of) in He. rewrite bytes_of_append in He. assert ("/"%char ∈ bytes_of relationshipsPath) as Hin.
  { rewrite <- He. apply elem_of_app. right. by left. }
  vm_compute in Hin. by repeat (apply elem_of_cons in Hin as [?|Hin]); [..|apply not_elem_of_nil in Hin].
Qed.
Lemma path_named kind dirs id extension l : Importer.slashless kind → (∀ d, d ∈ dirs → Importer.slashless d) → id ≠ ""%string →
  "/"%char ∉ bytes_of extension → "."%char ∉ bytes_of extension →
  let f := String.append (idComponent id) (String "." extension) in
  let name := Join (kind :: dirs ++ [f]) "/" in
  Importer.segments (bytes_of name) = kind :: dirs ++ [f] ∧ BackupKind name = kind ∧ Importer.pathExt name = String "." extension ∧ name ≠ ManifestPath ∧
  (Importer.contains l extension = true → fileSegment l f = true).
Proof.
  intros Hk Hds Hid Hs Hd f name. assert (Importer.segments (bytes_of name) = kind :: dirs ++ [f]) as Hseg.
  { apply Importer.segments_join; [done|]. intros s [->|[Hin| ->%list_elem_of_singleton]%elem_of_app]%elem_of_cons; [done|by apply Hds|by apply file_slashless]. }
  split_and!; [done| | | |by apply fileSegment_of].
  - unfold name. destruct (dirs ++ [f]) as [|x xs] eqn:Hx; [by destruct dirs|].
    change (Join (kind :: x :: xs) "/") with (String.append kind (String "/" (Join (x :: xs) "/"))). apply kind_name; [done|].
    intros He. destruct xs as [|y ys]; cbn in He; [|by destruct x]. destruct dirs as [|d dirs]; [|by destruct dirs]. by injection Hx as <-.
  - unfold name, f. assert (∀ ds, ∃ r, Join (ds ++ [String.append (idComponent id) (String "." extension)]) "/" = String.append r (String "." extension)) as H.
    { induction ds as [|d ds IHds]; [by exists (idComponent id)|]. destruct IHds as (r & Hr). cbn [app].
      destruct (ds ++ _) as [|x xs] eqn:Hx; [by destruct ds|]. exists (String.append d (String "/" r)).
      change (Join (d :: x :: xs) "/") with (String.append d (String.append "/" (Join (x :: xs) "/"))). rewrite Hr. by rewrite string_app_assoc. }
    destruct (H (kind :: dirs)) as (r & Hr). cbn [app] in Hr. rewrite Hr. by apply pathExt_last.
  - intros Hn. rewrite Hn in Hseg. change (Importer.segments (bytes_of ManifestPath)) with [ManifestPath] in Hseg. by destruct dirs.
Qed.
Ltac byte_absent := intros ?Hin; vm_compute in Hin; repeat (apply elem_of_cons in Hin as [Hin|Hin]; [done|]); by apply not_elem_of_nil in Hin.
Lemma entity_named kind id : kind ∈ ["projects"; "cloud_chats"; "local_chats"]%string → id ≠ ""%string → namedAs (BackupEntityPath kind id) kind ".json".
Proof.
  intros Hk Hid. unfold namedAs, BackupEntityPath. assert (Importer.slashless kind ∧ kind ≠ "images"%string) as [Hs Hi].
  { repeat (apply elem_of_cons in Hk as [->|Hk]; [split; [byte_absent|done]|]). by apply not_elem_of_nil in Hk. }
  destruct (path_named kind [] id "json" ["json"]%string Hs) as (Hseg & Hkind & Hext & Hm & Hf); [by intros d ?%not_elem_of_nil|done|byte_absent..|].
  cbn [app] in Hseg, Hkind, Hext, Hm. split_and!; [|done..]. unfold backupPaths. rewrite Hseg, (proj2 (String.eqb_neq _ _)), Hf by done.
  by rewrite (proj2 (contains_elem _ _) Hk).
Qed.
Lemma document_named project id : project ≠ ""%string → id ≠ ""%string → namedAs (BackupDocumentPath project id) "project_documents" ".json".
Proof.
  intros Hp Hid. unfold namedAs, BackupDocumentPath.
  destruct (path_named "project_documents" [idComponent project] id "json" ["json"]%string ltac:(byte_absent)) as (Hseg & Hkind & Hext & Hm & Hf);
    [|done|byte_absent..|].
  - intros d ->%list_elem_of_singleton. destruct (idSegment_plain _ (idComponent_segment _ Hp)) as [[_ ?] _]. by apply plain_slashless.
  - cbn [app] in Hseg, Hkind, Hext, Hm. split_and!; [|done..]. unfold backupPaths. rewrite Hseg, Hf, idComponent_segment by done. done.
Qed.
Lemma image_named id e : e ∈ ["json"; "bin"]%string → id ≠ ""%string → namedAs (BackupImagePath id (String "." e)) "images" (String "." e).
Proof.
  intros He Hid. unfold namedAs, BackupImagePath.
  destruct (path_named "images" [] id e ["json"; "bin"]%string ltac:(byte_absent)) as (Hseg & Hkind & Hext & Hm & Hf);
    [by intros d ?%not_elem_of_nil|done|repeat (apply elem_of_cons in He as [->|He]; [byte_absent|]); by apply not_elem_of_nil in He..|].
  cbn [app] in Hseg, Hkind, Hext, Hm. split_and!; [|done..]. unfold backupPaths. rewrite Hseg. cbn [String.eqb Ascii.eqb Bool.eqb]. apply Hf. by apply contains_elem.
Qed.
Lemma relationships_named : namedAs relationshipsPath "relationships" ".json".
Proof. by vm_compute. Qed.
End Archives.
