(* ===== verification/Backup.v ===== *)
(** * Native backups: internal/archives/backup.go, restore.go and the writing
    of backups in export.go

    A backup as it is written, entry by entry, with the manifest that lists
    them; and as a restore opens it, checking every entry against the
    manifest. *)

From S2P Require Import Prelude GoStd Api Decode Codec Chat Timeline Results Importer Archives.
From stdpp Require Import pretty.
Local Open Scope nat_scope.
Local Open Scope go_scope.

Module Backup.
Import GoStd Codec Decode Chat Archives.

(** ** The manifest *)

Record BackupCounts := mkCounts {
  c_Projects : Z;
  c_ProjectDocuments : Z;
  c_CloudChats : Z;
  c_LocalChats : Z;
  c_Relationships : Z;
  c_Images : Z;
  c_Files : Z;
}.
#[global] Instance BackupCounts_eta : Eta BackupCounts := λ c,
  mkCounts (c_Projects c) (c_ProjectDocuments c) (c_CloudChats c) (c_LocalChats c) (c_Relationships c) (c_Images c) (c_Files c).
#[global] Instance BackupCounts_eq_dec : EqDecision BackupCounts.
Proof. solve_decision. Defined.
Definition noCounts : BackupCounts := mkCounts 0 0 0 0 0 0 0.
Record backupFile := mkBackupFile { bf_Path : string; bf_Kind : string; bf_SHA256 : string; bf_SizeBytes : Z }.
Record BackupOmission := mkOmission {
  o_Kind : string;
  o_SourceID : string;
  o_ParentSourceID : string;
  o_Category : string;
  o_Reason : string;
}.
Record backupWarning := mkWarning { w_Code : string; w_Category : string; w_Count : Z }.
Record BackupManifest := mkManifest {
  mf_Format : string;
  mf_Version : Z;
  mf_BackupID : string;
  mf_CreatedAt : string;
  mf_Complete : bool;
  mf_Counts : BackupCounts;
  mf_Notices : bool * bool;
  mf_Files : list backupFile;
  mf_Omissions : list BackupOmission;
  mf_Warnings : list backupWarning;
}.
#[global] Instance BackupManifest_eta : Eta BackupManifest := λ m,
  mkManifest (mf_Format m) (mf_Version m) (mf_BackupID m) (mf_CreatedAt m) (mf_Complete m) (mf_Counts m) (mf_Notices m)
    (mf_Files m) (mf_Omissions m) (mf_Warnings m).

Definition NativeBackupFormat : string := "tinfoil-native-backup".
Definition nativeBackupVersion : Z := 3.

(** As JSON. *)
Definition countsObject (c : BackupCounts) : Api.any :=
  object [("projects", Some (number (c_Projects c))); ("project_documents", Some (number (c_ProjectDocuments c)));
          ("cloud_chats", Some (number (c_CloudChats c))); ("local_chats", Some (number (c_LocalChats c)));
          ("relationships", Some (number (c_Relationships c))); ("images", Some (number (c_Images c))); ("files", Some (number (c_Files c)))]%string.
Definition fileObject (f : backupFile) : Api.any :=
  object [("path", always (bf_Path f)); ("kind", always (bf_Kind f)); ("sha256", always (bf_SHA256 f)); ("size_bytes", Some (number (bf_SizeBytes f)))]%string.
Definition omissionObject (o : BackupOmission) : Api.any :=
  object [("kind", always (o_Kind o)); ("source_id", always (o_SourceID o)); ("parent_source_id", omitempty (o_ParentSourceID o));
          ("category", always (o_Category o)); ("reason", always (o_Reason o))]%string.
Definition warningObject (w : backupWarning) : Api.any :=
  object [("code", always (w_Code w)); ("category", always (w_Category w)); ("count", Some (number (w_Count w)))]%string.
Definition noticesObject (n : bool * bool) : Api.any :=
  object [("contains_plaintext", Some (Api.ABool n.1)); ("documents_are_extracted_text_only", Some (Api.ABool n.2))]%string.
Definition manifestObject (m : BackupManifest) : Api.any :=
  object [("format", always (mf_Format m)); ("version", Some (number (mf_Version m))); ("backup_id", always (mf_BackupID m));
          ("created_at", always (mf_CreatedAt m)); ("complete", Some (Api.ABool (mf_Complete m))); ("counts", Some (countsObject (mf_Counts m)));
          ("notices", Some (noticesObject (mf_Notices m))); ("files", Some (Api.AArr (fileObject <$> mf_Files m)));
          ("omissions", Some (Api.AArr (omissionObject <$> mf_Omissions m))); ("warnings", Some (Api.AArr (warningObject <$> mf_Warnings m)))]%string.

(** From JSON: a member of another type fails the whole. *)
Definition boolOf (v : Api.any) (name : string) : option bool := default false <$> strict (dBool (Api.member v name)).
Definition structMember (v : Api.any) (name : string) : option Api.any := structOf (default Api.ANull (Api.member v name)).
Definition decodeCounts (v : Api.any) : option BackupCounts :=
  v ← structOf v; a ← intOf v "projects"; b ← intOf v "project_documents"; c ← intOf v "cloud_chats"; d ← intOf v "local_chats";
  e ← intOf v "relationships"; f ← intOf v "images"; g ← intOf v "files"; Some (mkCounts a b c d e f g).
Definition decodeFile (v : Api.any) : option backupFile :=
  v ← structOf v; a ← textOf v "path"; b ← textOf v "kind"; c ← textOf v "sha256"; d ← intOf v "size_bytes"; Some (mkBackupFile a b c d).
Definition decodeOmission (v : Api.any) : option BackupOmission :=
  v ← structOf v; a ← textOf v "kind"; b ← textOf v "source_id"; c ← textOf v "parent_source_id"; d ← textOf v "category"; e ← textOf v "reason";
  Some (mkOmission a b c d e).
Definition decodeWarning (v : Api.any) : option backupWarning :=
  v ← structOf v; a ← textOf v "code"; b ← textOf v "category"; c ← intOf v "count"; Some (mkWarning a b c).
Definition decodeNotices (v : Api.any) : option (bool * bool) :=
  v ← structOf v; a ← boolOf v "contains_plaintext"; b ← boolOf v "documents_are_extracted_text_only"; Some (a, b).
Definition decodeManifest (v : Api.any) : option BackupManifest :=
  v ← structOf v;
  format ← textOf v "format"; version ← intOf v "version"; id ← textOf v "backup_id"; created ← textOf v "created_at"; complete ← boolOf v "complete";
  counts ← structMember v "counts" ≫= decodeCounts; notices ← structMember v "notices" ≫= decodeNotices;
  files ← listOf decodeFile v "files"; omissions ← listOf decodeOmission v "omissions"; warnings ← listOf decodeWarning v "warnings";
  Some (mkManifest format version id created complete counts notices files omissions warnings).

(** ** What the entries hold *)

Record backupRelationships := mkRelationships {
  r_ProjectChats : list (string * string);
  r_ProjectDocuments : list (string * string);
  r_ChatImages : list (string * string);
}.
#[global] Instance backupRelationships_eta : Eta backupRelationships := λ r,
  mkRelationships (r_ProjectChats r) (r_ProjectDocuments r) (r_ChatImages r).
Definition count (r : backupRelationships) : Z :=
  Z.of_nat (length (r_ProjectChats r) + length (r_ProjectDocuments r) + length (r_ChatImages r)).
Definition linkObject (from to : string) (l : string * string) : Api.any := object [(from, always l.1); (to, always l.2)]%string.
Definition relationshipsObject (r : backupRelationships) : Api.any :=
  object [("projectChats", Some (Api.AArr (linkObject "projectId" "chatId" <$> r_ProjectChats r)));
          ("projectDocuments", Some (Api.AArr (linkObject "projectId" "documentId" <$> r_ProjectDocuments r)));
          ("chatImages", Some (Api.AArr (linkObject "chatId" "imageId" <$> r_ChatImages r)))]%string.
Definition decodeLink (from to : string) (v : Api.any) : option (string * string) :=
  v ← structOf v; a ← textOf v from; b ← textOf v to; Some (a, b).
Definition decodeRelationships (v : Api.any) : option backupRelationships :=
  v ← structOf v; a ← listOf (decodeLink "projectId" "chatId") v "projectChats"; b ← listOf (decodeLink "projectId" "documentId") v "projectDocuments";
  c ← listOf (decodeLink "chatId" "imageId") v "chatImages"; Some (mkRelationships a b c).

Record backupImage := mkImage {
  im_ID : string;
  im_ChatID : string;
  im_MessageIndex : Z;
  im_AttachmentID : string;
  im_Page : option Z;
  im_LegacyIndex : option Z;
  im_FileName : string;
  im_MimeType : string;
  im_SizeBytes : option Z;
  im_Description : string;
}.
#[global] Instance backupImage_eta : Eta backupImage := λ i,
  mkImage (im_ID i) (im_ChatID i) (im_MessageIndex i) (im_AttachmentID i) (im_Page i) (im_LegacyIndex i) (im_FileName i) (im_MimeType i)
    (im_SizeBytes i) (im_Description i).
Definition imageObject (i : backupImage) : Api.any :=
  object [("id", always (im_ID i)); ("chatId", always (im_ChatID i)); ("messageIndex", Some (number (im_MessageIndex i)));
          ("attachmentId", omitempty (im_AttachmentID i)); ("page", number <$> im_Page i); ("legacyIndex", number <$> im_LegacyIndex i);
          ("fileName", always (im_FileName i)); ("mimeType", always (im_MimeType i)); ("sizeBytes", number <$> im_SizeBytes i);
          ("description", omitempty (im_Description i))]%string.
Definition optIntOf (v : Api.any) (name : string) : option (option Z) :=
  match Api.member v name with None | Some Api.ANull => Some None | Some x => Some <$> strict (dInt (Some x)) end.
Definition decodeImage (v : Api.any) : option backupImage :=
  v ← structOf v; a ← textOf v "id"; b ← textOf v "chatId"; c ← intOf v "messageIndex"; d ← textOf v "attachmentId"; e ← optIntOf v "page";
  f ← optIntOf v "legacyIndex"; g ← textOf v "fileName"; h ← textOf v "mimeType"; i ← optIntOf v "sizeBytes"; j ← textOf v "description";
  Some (mkImage a b c d e f g h i j).

(** A project and a document of one (internal/domain/project.go). *)
Record Project := mkProject {
  pr_ID : string;
  pr_Name : string;
  pr_Description : string;
  pr_SystemInstructions : string;
  pr_Color : option string;
  pr_CreatedAt : string;
  pr_UpdatedAt : string;
}.
Definition projectObject (p : Project) : Api.any :=
  object [("id", always (pr_ID p)); ("name", always (pr_Name p)); ("description", always (pr_Description p));
          ("systemInstructions", always (pr_SystemInstructions p)); ("color", Some (match pr_Color p with Some c => Api.AStr c | None => Api.ANull end));
          ("createdAt", omitempty (pr_CreatedAt p)); ("updatedAt", omitempty (pr_UpdatedAt p))]%string.
Record BackupDocument := mkDocument {
  bd_ID : string;
  bd_ProjectID : string;
  bd_Filename : string;
  bd_ContentType : string;
  bd_SizeBytes : Z;
  bd_ExtractedText : string;
  bd_CreatedAt : string;
  bd_UpdatedAt : string;
}.
Definition documentObject (d : BackupDocument) : Api.any :=
  object [("id", always (bd_ID d)); ("projectId", always (bd_ProjectID d)); ("filename", always (bd_Filename d)); ("contentType", always (bd_ContentType d));
          ("sizeBytes", Some (number (bd_SizeBytes d))); ("extractedText", always (bd_ExtractedText d)); ("createdAt", always (bd_CreatedAt d));
          ("updatedAt", always (bd_UpdatedAt d))]%string.

Record backupPage := mkBackupPage { bp_Page : Z; bp_Text : string; bp_IsScanned : bool; bp_ImageID : string }.
Record backupAttachment := mkBackupAttachment { ba_Attachment : Attachment; ba_ImageID : string; ba_Pages : list backupPage }.
Record backupMessage := mkBackupMessage { bm_Message : Message; bm_Attachments : list backupAttachment }.
Record backupThread := mkBackupThread { bt_Thread : Thread; bt_Messages : list backupMessage }.

(** ** Writing *)

Section Writer.
(** JSON as text, the digest of an entry in hex, the type of an image's
    bytes, the members of a chat's JSON after its id, and what the response
    answers the writing of its last entry with. *)
Context (Raw : Api.any → bytes) (Unmarshal : bytes → option Api.any) (HashHex : bytes → string) (DetectContentType : bytes → string).
Context (otherMembers : backupThread → list (string * Api.any)) (sink : list File → option Api.err).

Definition threadObject (t : backupThread) : Api.any := Api.AObj (("id"%string, Api.AStr (t_ID (bt_Thread t))) :: otherMembers t).

Record BackupWriter := mkWriter {
  zip : list File;
  manifest : BackupManifest;
  expanded : Z;
  written : gset string;
}.
#[local] Instance BackupWriter_eta : Eta BackupWriter := λ b, mkWriter (zip b) (manifest b) (expanded b) (written b).
Definition NewBackupWriter : BackupWriter :=
  mkWriter [] (mkManifest NativeBackupFormat nativeBackupVersion "" "" false noCounts (true, true) [] [] []) 0 ∅.
Definition onCounts (f : BackupCounts → BackupCounts) (b : BackupWriter) : BackupWriter :=
  b <| manifest ::= λ m, m <| mf_Counts ::= f |> |>.

(** [write], with [writeEntry]. *)
Definition write (name : string) (data : bytes) (limit : Z) (b : BackupWriter) : result Api.err BackupWriter :=
  let size := Z.of_nat (length data) in
  let b := b <| expanded ::= λ n, add64 n size |> in
  if bool_decide (limit < size)%Z || bool_decide (MaxArchiveExpansion < expanded b)%Z
  then Err (Api.EApi (Api.Err_ 413 "ARCHIVE_TOO_LARGE" "The backup exceeds the size a restore takes"))
  else
    let b := b <| zip ::= λ l, l ++ [writtenEntry name data] |> in
    match sink (zip b) with Some err => Err err | None => Ok b end.
Definition Add (kind name : string) (data : bytes) (b : BackupWriter) : result Api.err BackupWriter :=
  if bool_decide (maxArchiveEntries ≤ Z.of_nat (length (mf_Files (manifest b))) + 1)%Z
  then Err (Api.EApi (Api.Err_ 413 "ARCHIVE_TOO_LARGE" "The backup holds too many items"))
  else if bool_decide (name ∈ written b) then Err (Api.EOther "the backup already holds an entry it was given again")
  else
    b ← write name data (backupEntryLimit name) b;
    Ok (b <| written ::= λ w, {[name]} ∪ w |>
          <| manifest ::= λ m, m <| mf_Files ::= λ l, l ++ [mkBackupFile name kind (HashHex data) (Z.of_nat (length data))] |> |>).
Definition addJSON (kind name : string) (v : Api.any) : BackupWriter → result Api.err BackupWriter := Add kind name (Raw v).
Definition omit (o : BackupOmission) (b : BackupWriter) : BackupWriter := b <| manifest ::= λ m, m <| mf_Omissions ::= λ l, l ++ [o] |> |>.
Definition isRelationship (o : BackupOmission) : bool := String.eqb (o_Kind o) "relationship".
Definition closed (id created : string) (m : BackupManifest) : BackupManifest :=
  let detached := length (List.filter isRelationship (mf_Omissions m)) in
  let omitted := length (List.filter (λ o, negb (isRelationship o)) (mf_Omissions m)) in
  m <| mf_BackupID := id |> <| mf_CreatedAt := created |> <| mf_Complete := bool_decide (mf_Omissions m = []) |>
    <| mf_Counts ::= λ c, c <| c_Files := Z.of_nat (length (mf_Files m)) |> |>
    <| mf_Warnings := (if bool_decide (0 < omitted) then [mkWarning "source_items_omitted" "source_coverage" (Z.of_nat omitted)] else []) ++
                      (if bool_decide (0 < detached) then [mkWarning "chats_detached_from_omitted_projects" "relationship_adjustment" (Z.of_nat detached)] else []) |>.
Definition close (id created : string) (b : BackupWriter) : result Api.err BackupWriter :=
  let b := b <| manifest ::= closed id created |> in
  write ManifestPath (Raw (manifestObject (manifest b))) maxBackupManifestBytes b.

(** What is written so far, with the relationships. *)
Definition State : Type := BackupWriter * backupRelationships.
Definition onWriter (f : BackupWriter → BackupWriter) (s : State) : State := (f s.1, s.2).
Definition adding (f : BackupWriter → result Api.err BackupWriter) (s : State) : result Api.err State := b ← f s.1; Ok (b, s.2).

(** A loop over a slice that may leave its items out, or fail. *)
Fixpoint walk {S A B} (step : nat → A → S → result Api.err (S * option B)) (k : nat) (l : list A) (s : S)
    : result Api.err (S * list B) :=
  match l with
  | [] => Ok (s, [])
  | a :: l => '(s, b) ← step k a s; '(s, bs) ← walk step (Datatypes.S k) l s; Ok (s, match b with Some b => b :: bs | None => bs end)
  end.

(** How reading an attachment fails. *)
Inductive readErr := NotFound | Unavailable | Failed (e : Api.err).
Definition omitAttachment (chat id : string) (reason : string) : State → State :=
  onWriter (omit (mkOmission "attachment" id chat "unavailable" reason)).
Definition missingReason (e : readErr) : string := match e with Unavailable => "attachment_unreadable" | _ => "attachment_not_found" end.

(** The bytes an image's description names are beside it. *)
Definition addImage (meta : backupImage) (data : bytes) (s : State) : result Api.err State :=
  let meta := meta <| im_MimeType := DetectContentType data |> <| im_SizeBytes := Some (Z.of_nat (length data)) |> in
  s ← adding (addJSON "images" (BackupImagePath (im_ID meta) ".json") (imageObject meta)) s;
  s ← adding (Add "images" (BackupImagePath (im_ID meta) ".bin") data) s;
  Ok (onCounts (λ c, c <| c_Images ::= Z.succ |>) s.1, s.2 <| r_ChatImages ::= λ l, l ++ [(im_ChatID meta, im_ID meta)] |>).
Definition place (chat : string) (i j : nat) : string := Join [chat; pretty (N.of_nat i); pretty (N.of_nat j)] "/".
Definition pageData (image : string) : string :=
  match CutAt image "," with Some (_, encoded) => if String.prefix "data:" image then encoded else image | None => image end.
Definition backupPageOf (chat id : string) (i : nat) (a : Attachment) (k : nat) (p : DocumentPage) (s : State)
    : result Api.err (State * option backupPage) :=
  let shown := mkBackupPage (p_Page p) (p_Text p) (p_IsScanned p) in
  if String.eqb (p_Image p) "" then Ok (s, Some (shown ""))
  else
    let pageID := Join [id; "page"; pretty (N.of_nat k)]%string "/" in
    match Decode64 StdEncoding (pageData (p_Image p)) with
    | None => Ok (omitAttachment chat pageID (missingReason NotFound) s, Some (shown ""))
    | Some data =>
        let name := String.append (a_ID a) (String.append "-page-" (String.append (pretty (p_Page p)) ".jpg")) in
        s ← addImage (mkImage pageID chat (Z.of_nat i) (a_ID a) (Some (p_Page p)) None name "" None "") data s;
        Ok (s, Some (shown pageID))
    end.
Definition stripped (a : Attachment) : Attachment :=
  mkAttachment (a_ID a) (a_Kind a) (a_FileName a) (a_MimeType a) (a_Size a) (a_Thumbnail a) (a_TextContent a) (a_Description a) [] "" "" "" ""
    (a_InferenceMimeType a).

(** ** A chat, and the whole *)

(** An attachment, which [document] fills in and [image] reads the bytes of. *)
Definition backupAttachmentOf (chat : string) (image : Attachment → result readErr bytes) (document : Attachment → Attachment * option readErr)
    (i j : nat) (a : Attachment) (s : State) : result Api.err (State * option backupAttachment) :=
  let id := place chat i j in
  let '(a, failed) := if negb (IsImage a) && negb (HasContent a) && negb (String.eqb (StorageKey a) "") then document a else (a, None) in
  match failed with
  | Some (Failed e) => Err e
  | Some e => Ok (omitAttachment chat id (missingReason e) s, None)
  | None =>
      '(s, imageID) ←
        (if IsImage a then
           match image a with
           | Err (Failed e) => Err e
           | Err e => Ok (omitAttachment chat id (missingReason e) s, None)
           | Ok data =>
               s ← addImage (mkImage id chat (Z.of_nat i) (a_ID a) None None (Api.or (a_FileName a) "image") "" None (a_Description a)) data s;
               Ok (s, Some id)
           end
         else Ok (s, Some ""%string));
      match imageID with
      | None => Ok (s, None)
      | Some imageID =>
          '(s, pages) ← walk (backupPageOf chat id i a) 0 (a_Pages a) s;
          Ok (s, Some (mkBackupAttachment (stripped a) imageID pages))
      end
  end.
Definition backupMessageOf (chat : string) (image : Attachment → result readErr bytes) (document : Attachment → Attachment * option readErr)
    (i : nat) (m : Message) (s : State) : result Api.err (State * option backupMessage) :=
  '(s, attachments) ← walk (backupAttachmentOf chat image document i) 0 (elems (m_Attachments m)) s;
  Ok (s, Some (mkBackupMessage m attachments)).
Definition ownState (t : Thread) : Thread :=
  t <| t_ActiveRun := None |> <| t_LastRequestID := ""%string |> <| t_LastRequestKind := ""%string |> <| t_Flagged := false |>
    <| t_HiddenCount := 0%Z |> <| t_RecordVersion := 0%Z |> <| t_ImportedFrom := None |>.
Definition backupChat (kind : string) (t : Thread) (image : Attachment → result readErr bytes) (document : Attachment → Attachment * option readErr)
    (s : State) : result Api.err State :=
  '(s, messages) ← walk (backupMessageOf (t_ID t) image document) 0 (t_Messages t) s;
  s ← adding (addJSON kind (BackupEntityPath kind (t_ID t)) (threadObject (mkBackupThread (ownState t) messages))) s;
  Ok (onWriter (onCounts (λ c, if String.eqb kind "cloud_chats" then c <| c_CloudChats ::= Z.succ |> else c <| c_LocalChats ::= Z.succ |>)) s).

(** What the store's rows are read as, in the order they are visited: a
    project's row with its documents, the ids of those that cannot be read
    and, where listing them fails, how. *)
Inductive projectRow :=
  | ProjectUnreadable (id : string)
  | ProjectRead (p : Project) (unreadable : list string) (docs : result Api.err (list BackupDocument)).
Inductive chatRow :=
  | ChatUnreadable (id : string)
  | ChatRead (t : Thread) (image : Attachment → result readErr bytes) (document : Attachment → Attachment * option readErr).
(** With the errors that granting the reads or listing the rows ends in. *)
Record CloudRows := mkCloud {
  granted : option Api.err;
  projectRows : list projectRow;
  projectsEnd : option Api.err;
  chatRows : list chatRow;
  chatsEnd : option Api.err;
}.

Definition unreadableRow (kind id parent : string) : State → State := onWriter (omit (mkOmission kind id parent "invalid" "row_unreadable")).
Definition writeDocument (project : string) (_ : nat) (d : BackupDocument) (s : State) : result Api.err (State * option ()) :=
  s ← adding (addJSON "project_documents" (BackupDocumentPath project (bd_ID d)) (documentObject d)) s;
  Ok ((onCounts (λ c, c <| c_ProjectDocuments ::= Z.succ |>) s.1, s.2 <| r_ProjectDocuments ::= λ l, l ++ [(project, bd_ID d)] |>), None).
Definition writeProject (_ : nat) (r : projectRow) (st : State * gset string) : result Api.err ((State * gset string) * option ()) :=
  let '(s, projects) := st in
  match r with
  | ProjectUnreadable id => Ok ((unreadableRow "project" id "" s, projects), None)
  | ProjectRead p unreadable docs =>
      s ← adding (addJSON "projects" (BackupEntityPath "projects" (pr_ID p)) (projectObject p)) s;
      let s := onWriter (onCounts (λ c, c <| c_Projects ::= Z.succ |>)) s in
      let s := foldl (λ s row, unreadableRow "project_document" (Timeline.TrimPrefix row (String.append (pr_ID p) "/")) (pr_ID p) s) s unreadable in
      docs ← docs;
      '(s, _) ← walk (writeDocument (pr_ID p)) 0 docs s;
      Ok ((s, {[pr_ID p]} ∪ projects), None)
  end.
Definition writeCloudChat (projects : gset string) (_ : nat) (r : chatRow) (st : State * gset string)
    : result Api.err ((State * gset string) * option ()) :=
  let '(s, cloudChats) := st in
  match r with
  | ChatUnreadable id => Ok ((unreadableRow "cloud_chat" id "" s, cloudChats), None)
  | ChatRead t image document =>
      let project := default ""%string (t_ProjectID t) in
      let '(t, s) :=
        if String.eqb project "" then (t, s)
        else if bool_decide (project ∈ projects) then (t, (s.1, s.2 <| r_ProjectChats ::= λ l, l ++ [(project, t_ID t)] |>))
        else (t <| t_ProjectID := None |>,
              onWriter (omit (mkOmission "relationship" (t_ID t) project "unavailable" "project_reference_unavailable")) s) in
      s ← backupChat "cloud_chats" t image document s;
      Ok ((s, {[t_ID t]} ∪ cloudChats), None)
  end.
Definition ends {A} (e : option Api.err) (a : A) : result Api.err A := match e with Some e => Err e | None => Ok a end.
Definition writeCloud (c : CloudRows) (s : State) : result Api.err (State * gset string) :=
  _ ← ends (granted c) tt;
  '((s, projects), _) ← walk writeProject 0 (projectRows c) (s, ∅);
  _ ← ends (projectsEnd c) tt;
  '(st, _) ← walk (writeCloudChat projects) 0 (chatRows c) (s, ∅);
  ends (chatsEnd c) st.

(** A device chat's image: the original its client sent, or the chat's copy. *)
Definition deviceImage (originals : gmap string (result Api.err bytes)) (a : Attachment) : result readErr bytes :=
  match originals !! a_ID a with
  | Some (Ok data) => Ok data
  | Some (Err e) => Err (Failed e)
  | None => if String.eqb (a_Base64 a) "" then Err NotFound
            else match Decode64 StdEncoding (a_Base64 a) with Some data => Ok data | None => Err NotFound end
  end.
Definition noDocument (a : Attachment) : Attachment * option readErr := (a, Some NotFound).
Definition writeLocalChat (originals : gmap string (result Api.err bytes)) (cloudChats : gset string) (_ : nat) (t : result Api.err Thread) (s : State)
    : result Api.err (State * option ()) :=
  t ← t;
  if bool_decide (t_ID t ∈ cloudChats) then Ok (onWriter (omit (mkOmission "local_chat" (t_ID t) "" "invalid" "duplicate_chat_id")) s, None)
  else s ← backupChat "local_chats" t (deviceImage originals) noDocument s; Ok (s, None).
Definition writeBackup (cloud : option CloudRows) (threads : list (result Api.err Thread)) (originals : gmap string (result Api.err bytes))
    (id created : string) : result Api.err BackupWriter :=
  let s := (NewBackupWriter, mkRelationships [] [] []) in
  '(s, cloudChats) ← match cloud with Some c => writeCloud c s | None => Ok (s, ∅) end;
  '(s, _) ← walk (writeLocalChat originals cloudChats) 0 threads s;
  s ← adding (addJSON "relationships" relationshipsPath (relationshipsObject s.2)) s;
  close id created (onCounts (λ c, c <| c_Relationships := count s.2 |>) s.1).

(** ** Opening *)

Record nativeBackup := mkBackup {
  nb_manifest : BackupManifest;
  entries : gmap string File;
  images : gmap string backupImage;
  chatImages : gmap string (list string);
}.
Definition errInvalidBackup (why : string) : Api.err := invalidImport (String.append "The backup is invalid: " why).
Definition toInt64 (n : Z) : Z := if bool_decide (n < 2 ^ 63)%Z then n else n - 2 ^ 64.

Fixpoint gather (l : list File) (known : gmap string File) (size : Z) : result Api.err (gmap string File) :=
  match l with
  | [] => Ok known
  | f :: l =>
      if negb (safeEntryName f) || Encrypted f || negb (backupPaths (Name f)) || bool_decide (is_Some (known !! Name f))
      then Err (errInvalidBackup "it holds an unknown, unsafe or repeated entry")
      else
        let size := add64 size (UncompressedSize64 f) in
        if bool_decide (backupEntryLimit (Name f) < UncompressedSize64 f)%Z || bool_decide (MaxArchiveExpansion < size)%Z
        then Err (tooLarge "The backup exceeds the size limits")
        else gather l (<[Name f := f]> known) size
  end.
Definition checkEntryHash (f : File) (want : string) : result Api.err () :=
  match Contents f with
  | None => Err (errInvalidBackup "an entry cannot be read")
  | Some (data, failed) =>
      if failed || negb (String.eqb (HashHex data) want) then Err (errInvalidBackup "an entry does not match its hash") else Ok tt
  end.
(** The description of an image, which must sit beside its bytes. *)
Definition readImage (b : nativeBackup) (f : File) : result Api.err nativeBackup :=
  image ← decodeEntry Unmarshal decodeImage f;
  if String.eqb (im_ID image) "" || negb (String.eqb (BackupImagePath (im_ID image) ".json") (Name f)) ||
     bool_decide (entries b !! BackupImagePath (im_ID image) ".bin" = None)
  then Err (errInvalidBackup "an image is described apart from its bytes")
  else Ok (mkBackup (nb_manifest b) (entries b) (<[im_ID image := image]> (images b))
             (<[im_ChatID image := default [] (chatImages b !! im_ChatID image) ++ [im_ID image]]> (chatImages b))).
(** The loop over the manifest's files. *)
Definition Checked : Type := nativeBackup * BackupCounts * gset string.
Definition checkFile (s : Checked) (file : backupFile) : result Api.err Checked :=
  let '(b, counts, listed) := s in
  let wrong := Err (errInvalidBackup "its manifest does not match its entries") in
  match entries b !! bf_Path file with
  | None => wrong
  | Some f =>
      if bool_decide (bf_Path file ∈ listed) || String.eqb (bf_Path file) ManifestPath || negb (String.eqb (BackupKind (bf_Path file)) (bf_Kind file)) ||
         negb (bool_decide (toInt64 (UncompressedSize64 f) = bf_SizeBytes file))
      then wrong
      else
        _ ← checkEntryHash f (bf_SHA256 file);
        let listed := {[bf_Path file]} ∪ listed in
        let kind := bf_Kind file in
        if String.eqb kind "projects" then Ok (b, counts <| c_Projects ::= Z.succ |>, listed)
        else if String.eqb kind "project_documents" then Ok (b, counts <| c_ProjectDocuments ::= Z.succ |>, listed)
        else if String.eqb kind "cloud_chats" then Ok (b, counts <| c_CloudChats ::= Z.succ |>, listed)
        else if String.eqb kind "local_chats" then Ok (b, counts <| c_LocalChats ::= Z.succ |>, listed)
        else if String.eqb kind "images" then
          if String.eqb (Importer.pathExt (bf_Path file)) ".json"
          then b ← readImage b f; Ok (b, counts <| c_Images ::= Z.succ |>, listed)
          else Ok (b, counts, listed)
        else if String.eqb kind "relationships" then
          relationships ← decodeEntry Unmarshal decodeRelationships f;
          Ok (b, counts <| c_Relationships := count relationships |>, listed)
        else Ok (b, counts, listed)
  end.
Fixpoint checkFiles (s : Checked) (l : list backupFile) : result Api.err Checked :=
  match l with [] => Ok s | file :: l => s ← checkFile s file; checkFiles s l end.
Definition manifestFile (files : list File) : option File :=
  foldl (λ found f, if String.eqb (Name f) ManifestPath then Some f else found) None files.
Definition namesBackup (f : File) : bool :=
  match readEntry f maxBackupManifestBytes with
  | Err _ => false
  | Ok b => bool_decide ((v ← Unmarshal b; v ← structOf v; textOf v "format") = Some NativeBackupFormat)
  end.
(** [None] of an archive that does not name itself a backup. *)
Definition openNativeBackup (files : list File) : result Api.err (option nativeBackup) :=
  match manifestFile files with
  | None => Ok None
  | Some head =>
      if negb (namesBackup head) then Ok None
      else
        known ← gather files ∅ 0;
        m ← decodeEntry Unmarshal decodeManifest head;
        if bool_decide (mf_Version m < 1)%Z || bool_decide (nativeBackupVersion < mf_Version m)%Z
        then Err (errInvalidBackup "its version is not supported")
        else
          '(b, counts, listed) ← checkFiles (mkBackup m known ∅ ∅, noCounts <| c_Files := Z.of_nat (length (mf_Files m)) |>, ∅) (mf_Files m);
          if negb (bool_decide (size listed + 1 = size known)) then Err (errInvalidBackup "it holds entries its manifest does not list")
          else if negb (bool_decide (counts = mf_Counts m)) then Err (errInvalidBackup "its counts do not match its entries")
          else Ok (Some b)
  end.
Definition listed (b : nativeBackup) (kind : string) : list File :=
  omap (λ file, if String.eqb (bf_Kind file) kind then entries b !! bf_Path file else None) (mf_Files (nb_manifest b)).
(** A chat, which must be filed under its id. *)
Definition chatData (f : File) : result Api.err (string * bytes) :=
  data ← readEntry f maxArchiveJSONEntry;
  match (v ← Unmarshal data; v ← structOf v; textOf v "id") with
  | Some id =>
      if String.eqb id "" || negb (String.eqb (BackupEntityPath (BackupKind (Name f)) id) (Name f))
      then Err (errInvalidBackup "a chat is filed under another id") else Ok (id, data)
  | None => Err (errInvalidBackup "a chat is filed under another id")
  end.

(** ** What a writer holds *)

#[local] Abbreviation item := (string * bytes)%type.
Definition fileOf (i : item) : backupFile := mkBackupFile i.1 (BackupKind i.1) (HashHex i.2) (Z.of_nat (length i.2)).
Definition entryOf (i : item) : File := writtenEntry i.1 i.2.
Fixpoint total (items : list item) : Z := match items with [] => 0 | i :: items => Z.of_nat (length i.2) + total items end.
Lemma total_nonneg items : (0 ≤ total items)%Z.
Proof. induction items as [|i items IH]; cbn; lia. Qed.
Lemma total_app items items' : total (items ++ items') = (total items + total items')%Z.
Proof. induction items as [|j items IH]; cbn; lia. Qed.
Definition fitting (i : item) : Prop :=
  backupPaths i.1 = true ∧ i.1 ≠ ManifestPath ∧ (Z.of_nat (length i.2) ≤ backupEntryLimit i.1)%Z.

(** The entries and the list of them in the manifest. *)
Record Written (items : list item) (b : BackupWriter) : Prop := {
  w_zip : zip b = entryOf <$> items;
  w_files : mf_Files (manifest b) = fileOf <$> items;
  w_fit : Forall fitting items;
  w_nodup : NoDup items.*1;
  w_written : written b = list_to_set items.*1;
  w_expanded : expanded b = total items;
  w_bound : (total items ≤ MaxArchiveExpansion)%Z;
  w_length : (Z.of_nat (length items) < maxArchiveEntries)%Z;
  w_format : mf_Format (manifest b) = NativeBackupFormat ∧ mf_Version (manifest b) = nativeBackupVersion;
}.
Lemma NewBackupWriter_written : Written [] NewBackupWriter.
Proof. split; try done; apply NoDup_nil_2 || by rewrite Forall_nil. Qed.
Lemma limit_bound name : (0 ≤ backupEntryLimit name < 2 ^ 63)%Z.
Proof. unfold backupEntryLimit. by destruct (String.eqb _ _). Qed.
Lemma write_written items b name data limit b' : Written items b → (limit < 2 ^ 63)%Z → write name data limit b = Ok b' →
  zip b' = zip b ++ [entryOf (name, data)] ∧ manifest b' = manifest b ∧ written b' = written b ∧
  expanded b' = (total items + Z.of_nat (length data))%Z ∧ (expanded b' ≤ MaxArchiveExpansion)%Z ∧ (Z.of_nat (length data) ≤ limit)%Z.
Proof.
  intros Hw Hlim. unfold write. cbn. pose proof (w_expanded _ _ Hw) as He. pose proof (w_bound _ _ Hw) as Hb. pose proof (total_nonneg items) as Hn.
  case_bool_decide as Hl; [done|]. cbn. case_bool_decide as Hm; [done|]. destruct (sink _); [done|]. intros [= <-]. cbn in *.
  rewrite He in Hm |- *. assert (add64 (total items) (Z.of_nat (length data)) = total items + Z.of_nat (length data))%Z as Ha.
  { unfold add64. apply Z.mod_small. unfold MaxArchiveExpansion in Hb. lia. }
  rewrite Ha in *. split_and!; try done; lia.
Qed.
Lemma Add_written items b name data b' : Written items b → backupPaths name = true → name ≠ ManifestPath →
  Add (BackupKind name) name data b = Ok b' →
  Written (items ++ [(name, data)]) b' ∧ mf_Counts (manifest b') = mf_Counts (manifest b) ∧ mf_Omissions (manifest b') = mf_Omissions (manifest b).
Proof.
  intros Hw Hp Hm. unfold Add. case_bool_decide as Hlen; [done|]. case_bool_decide as Hin; [done|].
  destruct (write _ _ _ _) as [b1|] eqn:He; [|done]. cbn. intros [= <-].
  pose proof (proj2 (limit_bound name)) as Hlb. destruct (write_written _ _ _ _ _ _ Hw Hlb He) as (Hz & Hman & Hwr & Hex & Hb & Hl).
  rewrite (w_files _ _ Hw), length_fmap in Hlen. split; [|cbn; by rewrite Hman]. destruct (w_format _ _ Hw) as [Hf Hv].
  assert (name ∉ items.*1) as Hfresh by (rewrite (w_written _ _ Hw) in Hin; by rewrite elem_of_list_to_set in Hin).
  split; cbn; rewrite ?Hman, ?Hz, ?Hwr, ?(w_zip _ _ Hw), ?(w_files _ _ Hw), ?(w_written _ _ Hw), ?fmap_app, ?total_app; cbn; try done.
  - apply Forall_app. split; [apply (w_fit _ _ Hw)|]. by apply Forall_singleton.
  - apply NoDup_app. split_and!; [apply (w_nodup _ _ Hw)| |apply NoDup_singleton]. intros x Hx ->%list_elem_of_singleton. done.
  - set_solver.
  - lia.
  - lia.
  - rewrite length_app. cbn. lia.
Qed.

(** *** Kinds of entries *)

Definition ofKind (kind : string) (items : list item) : list item := List.filter (λ i, String.eqb (BackupKind i.1) kind) items.
Lemma ofKind_app kind items items' : ofKind kind (items ++ items') = ofKind kind items ++ ofKind kind items'.
Proof. unfold ofKind. apply List.filter_app. Qed.
Definition isDescription (i : item) : bool := String.eqb (BackupKind i.1) "images" && String.eqb (Importer.pathExt i.1) ".json".
(** An image's description, beside its bytes. *)
Definition describes (names : list string) (i : item) (meta : backupImage) : Prop :=
  Unmarshal i.2 ≫= decodeImage = Some meta ∧ im_ID meta ≠ ""%string ∧ BackupImagePath (im_ID meta) ".json" = i.1 ∧
  BackupImagePath (im_ID meta) ".bin" ∈ names.
Lemma describes_more names names' i meta : names ⊆ names' → describes names i meta → describes names' i meta.
Proof. intros Hn (H1 & H2 & H3 & H4). split_and!; try done. by apply Hn. Qed.

(** The projects, documents and chats written, in order. *)
Record Kinds := mkKinds { k_projects : list string; k_documents : list (string * string); k_cloud : list string; k_local : list string }.
Definition noKinds : Kinds := mkKinds [] [] [] [].
Record Whole (k : Kinds) (items : list item) (s : State) : Prop := {
  h_written : Written items s.1;
  h_projects : (ofKind "projects" items).*1 = BackupEntityPath "projects" <$> k_projects k;
  h_documents : (ofKind "project_documents" items).*1 = (λ d, BackupDocumentPath d.1 d.2) <$> k_documents k;
  h_cloud : (ofKind "cloud_chats" items).*1 = BackupEntityPath "cloud_chats" <$> k_cloud k;
  h_local : (ofKind "local_chats" items).*1 = BackupEntityPath "local_chats" <$> k_local k;
  h_relationships : ofKind "relationships" items = [];
  h_images : Forall (λ i, isDescription i = true → ∃ meta, describes items.*1 i meta) items;
  h_chats : Forall (λ i, BackupKind i.1 ∈ ["cloud_chats"; "local_chats"]%string →
              ∃ id ms, id ≠ ""%string ∧ Unmarshal i.2 = Some (Api.AObj (("id"%string, Api.AStr id) :: ms)) ∧ i.1 = BackupEntityPath (BackupKind i.1) id) items;
  h_counts : mf_Counts (manifest s.1) = mkCounts (Z.of_nat (length (k_projects k))) (Z.of_nat (length (k_documents k))) (Z.of_nat (length (k_cloud k)))
               (Z.of_nat (length (k_local k))) 0 (Z.of_nat (length (List.filter isDescription items))) 0;
  h_links : r_ProjectDocuments s.2 = k_documents k ∧ length (r_ChatImages s.2) = length (List.filter isDescription items);
}.

(** *** Loops *)

Lemma walk_each {S A B G} (I : G → S → Prop) (R : S → S → Prop) `{!PreOrder R} (P : nat → A → S → Prop) (upd : G → A → G)
    (step : nat → A → S → result Api.err (S * option B)) l :
  (∀ i a g s s' b, a ∈ l → I g s → step i a s = Ok (s', b) → I (upd g a) s' ∧ R s s' ∧ P i a s') →
  (∀ i a s s', P i a s → R s s' → P i a s') →
  ∀ k g s s' bs, I g s → walk step k l s = Ok (s', bs) → I (foldl upd g l) s' ∧ R s s' ∧ ∀ i a, l !! i = Some a → P (k + i) a s'.
Proof.
  intros Hstep Hmono. induction l as [|a l IH]; intros k g s s' bs Hi; cbn.
  - intros [= <- <-]. by split_and!.
  - destruct (step k a s) as [[s1 b]|] eqn:Hs; [|done]. cbn. destruct (walk step (Datatypes.S k) l s1) as [[s2 bs']|] eqn:Hw; [|done].
    cbn. intros [= <- _]. destruct (Hstep k a g s s1 b) as (Hi1 & Hr1 & Hp1); [by left|done..|].
    destruct (IH ltac:(intros; eapply Hstep; [by right|done..]) _ _ _ _ _ Hi1 Hw) as (Hi2 & Hr2 & Hp2).
    split_and!; [done|by etrans|]. intros [|i] x Hx.
    + cbn in Hx. injection Hx as <-. rewrite Nat.add_0_r. by eapply Hmono.
    + replace (k + Datatypes.S i) with (Datatypes.S k + i) by lia. by apply Hp2.
Qed.
Lemma foldl_same {G A} (g : G) (l : list A) : foldl (λ g _, g) g l = g.
Proof. by induction l. Qed.
(** What a loop makes, where each step makes what its item alone says. *)
Lemma walk_makes {S A B} (f : nat → A → option B) (step : nat → A → S → result Api.err (S * option B)) l :
  (∀ k a s s' b, step k a s = Ok (s', b) → b = f k a) →
  ∀ k s s' bs, walk step k l s = Ok (s', bs) → bs = omap id (imap (λ i, f (k + i)) l).
Proof.
  intros Hf. induction l as [|a l IH]; intros k s s' bs; cbn [walk]; [by intros [= _ <-]|].
  destruct (step k a s) as [[s1 b]|] eqn:Hs; [|done]. cbn [mbind result_bind].
  destruct (walk step (Datatypes.S k) l s1) as [[s2 bs']|] eqn:Hw; [|done]. cbn. intros [= _ <-].
  rewrite (Hf _ _ _ _ _ Hs), (IH _ _ _ _ Hw), Nat.add_0_r.
  assert (imap (λ i, f (Datatypes.S k + i)) l = imap ((λ i, f (k + i)) ∘ Datatypes.S) l) as ->.
  { apply imap_ext. intros i x _. cbn. by rewrite Nat.add_succ_r. }
  by destruct (f k a).
Qed.
Lemma omap_made {A B} (f : nat → A → B) l : omap id (imap (λ i a, Some (f i a)) l) = imap f l.
Proof. revert f. induction l as [|a l IH]; intros f; [done|]. cbn. f_equal. apply (IH (f ∘ Datatypes.S)). Qed.

(** *** What a chat's entry shows

    Of each message, in order, the attachments that could be read, under
    their places in the chat; of a document, its pages, with the place of
    each page's image. *)

Definition filledIn (document : Attachment → Attachment * option readErr) (a : Attachment) : Attachment * option readErr :=
  if negb (IsImage a) && negb (HasContent a) && negb (String.eqb (StorageKey a) "") then document a else (a, None).
Definition pagePlace (id : string) (n : nat) : string := Join [id; "page"; pretty (N.of_nat n)]%string "/".
Definition pageShown (id : string) (n : nat) (p : DocumentPage) : backupPage :=
  mkBackupPage (p_Page p) (p_Text p) (p_IsScanned p)
    (if String.eqb (p_Image p) "" then "" else match Decode64 StdEncoding (pageData (p_Image p)) with Some _ => pagePlace id n | None => "" end).
Definition attachmentShown (chat : string) (image : Attachment → result readErr bytes) (document : Attachment → Attachment * option readErr)
    (i j : nat) (a : Attachment) : option backupAttachment :=
  let '(a, failed) := filledIn document a in
  let shown picture := Some (mkBackupAttachment (stripped a) picture (imap (pageShown (place chat i j)) (a_Pages a))) in
  match failed with
  | Some _ => None
  | None => if IsImage a then match image a with Ok _ => shown (place chat i j) | Err _ => None end else shown ""%string
  end.
Definition messagesShown (chat : string) (image : Attachment → result readErr bytes) (document : Attachment → Attachment * option readErr)
    (ms : list Message) : list backupMessage :=
  imap (λ i m, mkBackupMessage m (omap id (imap (attachmentShown chat image document i) (elems (m_Attachments m))))) ms.
Definition chatObject (t : Thread) (image : Attachment → result readErr bytes) (document : Attachment → Attachment * option readErr) : Api.any :=
  threadObject (mkBackupThread (ownState t) (messagesShown (t_ID t) image document (t_Messages t))).

Lemma pageOf_shows chat id i a n p s s' b : backupPageOf chat id i a n p s = Ok (s', b) → b = Some (pageShown id n p).
Proof.
  unfold backupPageOf, pageShown. destruct (String.eqb _ ""); [by intros [= _ <-]|]. destruct (Decode64 _ _) as [data|]; [|by intros [= _ <-]].
  destruct (addImage _ data s); [|done]. cbn. by intros [= _ <-].
Qed.
Lemma pages_show chat id i a n l s s' bs : walk (backupPageOf chat id i a) n l s = Ok (s', bs) → bs = imap (λ k, pageShown id (n + k)) l.
Proof. intros H%(walk_makes (λ k p, Some (pageShown id k p))); [|apply pageOf_shows]. rewrite H. apply (omap_made (λ k, pageShown id (n + k))). Qed.
Lemma attachmentOf_shows chat image document i j a s s' b :
  backupAttachmentOf chat image document i j a s = Ok (s', b) → b = attachmentShown chat image document i j a.
Proof.
  unfold backupAttachmentOf, attachmentShown. fold (filledIn document a). destruct (filledIn document a) as [a' failed].
  destruct failed as [[| |e]|]; [by intros [= _ <-]..|done|]. destruct (IsImage a').
  - destruct (image a') as [data|[| |e]]; [|by intros [= _ <-]..|done]. destruct (addImage _ data s) as [s1|]; [|done]. cbn [mbind result_bind].
    destruct (walk _ 0 _ s1) as [[s2 bs]|] eqn:Hw; [|done]. cbn. intros [= _ <-]. by rewrite (pages_show _ _ _ _ _ _ _ _ _ Hw).
  - cbn [mbind result_bind]. destruct (walk _ 0 _ s) as [[s2 bs]|] eqn:Hw; [|done]. cbn. intros [= _ <-]. by rewrite (pages_show _ _ _ _ _ _ _ _ _ Hw).
Qed.
Lemma messages_show chat image document ms s s' bs :
  walk (backupMessageOf chat image document) 0 ms s = Ok (s', bs) → bs = messagesShown chat image document ms.
Proof.
  intros H%(walk_makes (λ i m, Some (mkBackupMessage m (omap id (imap (attachmentShown chat image document i) (elems (m_Attachments m))))))).
  { rewrite H. apply (omap_made (λ i m, mkBackupMessage m (omap id (imap (attachmentShown chat image document i) (elems (m_Attachments m)))))). }
  intros k m s1 s2 b. unfold backupMessageOf. destruct (walk _ 0 _ s1) as [[s3 bs']|] eqn:Hw; [|done]. cbn. intros [= _ <-].
  apply (walk_makes (attachmentShown chat image document k)) in Hw; [by rewrite Hw|]. intros. by eapply attachmentOf_shows.
Qed.

(** *** What the parts of a chat write *)

Definition prefixed {A} (l l' : list A) : Prop := ∃ r, l' = l ++ r.
#[local] Instance prefixed_preorder A : PreOrder (@prefixed A).
Proof.
  split; [intros l; exists []; by rewrite app_nil_r|]. intros l1 l2 l3 [r ->] [r' ->]. exists (r ++ r'). by rewrite app_assoc.
Qed.
Lemma prefixed_elem {A} (l l' : list A) x : prefixed l l' → x ∈ l → x ∈ l'.
Proof. intros [r ->] Hx. apply elem_of_app. by left. Qed.
Record grows (s s' : State) : Prop := {
  g_zip : prefixed (zip s.1) (zip s'.1);
  g_omissions : prefixed (mf_Omissions (manifest s.1)) (mf_Omissions (manifest s'.1));
  g_links : prefixed (r_ProjectChats s.2) (r_ProjectChats s'.2);
}.
Definition within (s s' : State) : Prop := grows s s' ∧ r_ProjectChats s'.2 = r_ProjectChats s.2.
#[local] Instance grows_preorder : PreOrder grows.
Proof. split; [by intros s|]. intros s1 s2 s3 [H1 H2 H3] [H4 H5 H6]. split; by etrans. Qed.
#[local] Instance within_preorder : PreOrder within.
Proof. split; [by intros s|]. intros s1 s2 s3 [H1 H2] [H3 H4]. split; [by etrans|congruence]. Qed.

Definition plus (k k' : Kinds) : Kinds :=
  mkKinds (k_projects k ++ k_projects k') (k_documents k ++ k_documents k') (k_cloud k ++ k_cloud k') (k_local k ++ k_local k').
Lemma plus_none k : plus k noKinds = k.
Proof. destruct k. unfold plus. cbn. by rewrite !app_nil_r. Qed.
Definition chatItem (i : item) : Prop := BackupKind i.1 ∈ ["cloud_chats"; "local_chats"]%string →
  ∃ id ms, id ≠ ""%string ∧ Unmarshal i.2 = Some (Api.AObj (("id"%string, Api.AStr id) :: ms)) ∧ i.1 = BackupEntityPath (BackupKind i.1) id.
Lemma Whole_step k kn items new s s' : Whole k items s → Written (items ++ new) s'.1 →
  (ofKind "projects" new).*1 = BackupEntityPath "projects" <$> k_projects kn →
  (ofKind "project_documents" new).*1 = (λ d, BackupDocumentPath d.1 d.2) <$> k_documents kn →
  (ofKind "cloud_chats" new).*1 = BackupEntityPath "cloud_chats" <$> k_cloud kn →
  (ofKind "local_chats" new).*1 = BackupEntityPath "local_chats" <$> k_local kn →
  ofKind "relationships" new = [] →
  Forall (λ i, isDescription i = true → ∃ meta, describes (items ++ new).*1 i meta) new → Forall chatItem new →
  mf_Counts (manifest s'.1) = mkCounts (c_Projects (mf_Counts (manifest s.1)) + Z.of_nat (length (k_projects kn)))
    (c_ProjectDocuments (mf_Counts (manifest s.1)) + Z.of_nat (length (k_documents kn))) (c_CloudChats (mf_Counts (manifest s.1)) + Z.of_nat (length (k_cloud kn)))
    (c_LocalChats (mf_Counts (manifest s.1)) + Z.of_nat (length (k_local kn))) 0
    (c_Images (mf_Counts (manifest s.1)) + Z.of_nat (length (List.filter isDescription new))) 0 →
  r_ProjectDocuments s'.2 = r_ProjectDocuments s.2 ++ k_documents kn →
  length (r_ChatImages s'.2) = length (r_ChatImages s.2) + length (List.filter isDescription new) →
  Whole (plus k kn) (items ++ new) s'.
Proof.
  intros H Hw Hp Hd Hc Hl Hr Hi Hch Hn Hrd Hri. split; rewrite ?ofKind_app, ?fmap_app; cbn [plus k_projects k_documents k_cloud k_local]; rewrite ?fmap_app.
  - done.
  - f_equal; [apply (h_projects _ _ _ H)|done].
  - f_equal; [apply (h_documents _ _ _ H)|done].
  - f_equal; [apply (h_cloud _ _ _ H)|done].
  - f_equal; [apply (h_local _ _ _ H)|done].
  - by rewrite (h_relationships _ _ _ H), Hr.
  - apply Forall_app. rewrite <- fmap_app. split; [|done]. eapply Forall_impl; [apply (h_images _ _ _ H)|]. cbn. intros i Hx Hdi.
    destruct (Hx Hdi) as (meta & Hm). exists meta. eapply describes_more; [|done]. rewrite fmap_app. set_solver.
  - apply Forall_app. split; [apply (h_chats _ _ _ H)|done].
  - rewrite Hn, (h_counts _ _ _ H). cbn. rewrite !length_app, List.filter_app, length_app. f_equal; lia.
  - destruct (h_links _ _ _ H) as [H1 H2]. split; [by rewrite Hrd, H1|]. rewrite Hri, H2, List.filter_app, length_app. done.
Qed.
Lemma Whole_same k items s s' : Whole k items s → zip s'.1 = zip s.1 → mf_Files (manifest s'.1) = mf_Files (manifest s.1) →
  written s'.1 = written s.1 → expanded s'.1 = expanded s.1 → mf_Format (manifest s'.1) = mf_Format (manifest s.1) →
  mf_Version (manifest s'.1) = mf_Version (manifest s.1) → mf_Counts (manifest s'.1) = mf_Counts (manifest s.1) →
  r_ProjectDocuments s'.2 = r_ProjectDocuments s.2 → r_ChatImages s'.2 = r_ChatImages s.2 → Whole k items s'.
Proof.
  intros H Hz Hf Hw He Hfo Hv Hc Hd Hi. destruct (h_written _ _ _ H). split; try apply H.
  - split; rewrite ?Hz, ?Hf, ?Hw, ?He, ?Hfo, ?Hv; done.
  - rewrite Hc. apply H.
  - rewrite Hd, Hi. apply H.
Qed.
Lemma omit_whole k items o s : Whole k items s → Whole k items (onWriter (omit o) s) ∧ within s (onWriter (omit o) s) ∧
  o ∈ mf_Omissions (manifest (onWriter (omit o) s).1).
Proof.
  intros H. split_and!.
  - by eapply Whole_same.
  - split; [|done]. split; cbn; [done|by exists [o]|done].
  - cbn. apply elem_of_app. right. by left.
Qed.

Lemma adding_step items s kind name data s' : Written items s.1 → namedAs name kind (Importer.pathExt name) → adding (Add kind name data) s = Ok s' →
  Written (items ++ [(name, data)]) s'.1 ∧ mf_Counts (manifest s'.1) = mf_Counts (manifest s.1) ∧ s'.2 = s.2 ∧ within s s' ∧
  entryOf (name, data) ∈ zip s'.1.
Proof.
  intros Hw (Hp & Hk & _ & Hm). subst kind. unfold adding. destruct (Add _ _ _ _) as [b|] eqn:Ha; [|done]. cbn. intros [= <-]. cbn.
  destruct (Add_written _ _ _ _ _ Hw Hp Hm Ha) as (Hw' & Hc & Ho). split_and!; try done.
  - split; [|done]. split; cbn; [|by rewrite Ho|done]. rewrite (w_zip _ _ Hw), (w_zip _ _ Hw'), fmap_app. by eexists.
  - rewrite (w_zip _ _ Hw'), fmap_app. apply elem_of_app. right. by left.
Qed.
Lemma namedAs_ext name kind e : namedAs name kind e → namedAs name kind (Importer.pathExt name).
Proof. unfold namedAs. intros (H1 & H2 & -> & H4). by split_and!. Qed.

Lemma Written_counts items b f : Written items b → Written items (onCounts f b).
Proof. intros []. by split. Qed.
Lemma ofKind_cons kind i items : ofKind kind (i :: items) = if String.eqb (BackupKind i.1) kind then i :: ofKind kind items else ofKind kind items.
Proof. done. Qed.
Lemma description_cons i items :
  List.filter isDescription (i :: items) = if isDescription i then i :: List.filter isDescription items else List.filter isDescription items.
Proof. done. Qed.

Definition inRange (n : Z) : Prop := (min_int ≤ n ≤ max_int)%Z.
Definition sizedImage (i : backupImage) : Prop :=
  inRange (im_MessageIndex i) ∧ (∀ n, im_Page i = Some n → inRange n) ∧ (∀ n, im_LegacyIndex i = Some n → inRange n) ∧ (∀ n, im_SizeBytes i = Some n → inRange n).
Lemma image_decodes i : sizedImage i → decodeImage (imageObject i) = Some i.
Proof.
  destruct i as [id chat index attachment page legacy name mime size description]. unfold sizedImage. cbn. intros (Hi & Hp & Hl & Hs).
  unfold decodeImage, imageObject, omitempty. cbn [im_ID im_ChatID im_MessageIndex im_AttachmentID im_Page im_LegacyIndex im_FileName im_MimeType im_SizeBytes im_Description].
  destruct (String.eqb_spec attachment "") as [->|], (String.eqb_spec description "") as [->|], page as [p|], legacy as [l|], size as [z|];
    cbn -[dInt number]; unfold intOf, textOf, optIntOf; cbn -[dInt number]; rewrite ?(dInt_number index) by done; cbn -[dInt number];
    rewrite ?(dInt_number p) by (by apply Hp); cbn -[dInt number]; rewrite ?(dInt_number l) by (by apply Hl); cbn -[dInt number];
    rewrite ?(dInt_number z) by (by apply Hs); done.
Qed.

Section Read.
(** What is written as JSON is read back. *)
Hypothesis parse_raw : ∀ v, Unmarshal (Raw v) = Some v.

(** An image in the backup under an id, its description beside it. *)
Definition imageAt (chat id : string) (data : bytes) (s : State) : Prop :=
  entryOf (BackupImagePath id ".bin", data) ∈ zip s.1 ∧
  ∃ meta, im_ID meta = id ∧ im_ChatID meta = chat ∧ sizedImage meta ∧ entryOf (BackupImagePath id ".json", Raw (imageObject meta)) ∈ zip s.1.
Lemma imageAt_grows chat id data s s' : imageAt chat id data s → grows s s' → imageAt chat id data s'.
Proof.
  intros (Hb & meta & Hid & Hc & Hm & Hj) [Hz _ _]. split; [by eapply prefixed_elem|]. exists meta. split_and!; try done. by eapply prefixed_elem.
Qed.
Definition inside (k : Kinds) (s : State) : Prop := ∃ items, Whole k items s.

Lemma addImage_whole k s meta data s' : inside k s → im_ID meta ≠ ""%string → sizedImage meta → addImage meta data s = Ok s' →
  inside k s' ∧ within s s' ∧ imageAt (im_ChatID meta) (im_ID meta) data s'.
Proof.
  intros [items H] Hid Hm. unfold addImage. set (meta' := _ <| im_SizeBytes := _ |>).
  pose proof (image_named (im_ID meta) "json" ltac:(by left) Hid) as Hj. pose proof (image_named (im_ID meta) "bin" ltac:(right; by left) Hid) as Hb.
  change (im_ID meta') with (im_ID meta). change (im_ChatID meta') with (im_ChatID meta).
  destruct (adding (addJSON _ _ _) s) as [s1|] eqn:H1; [|done]. cbn [mbind result_bind].
  destruct (adding_step _ _ _ _ _ _ (h_written _ _ _ H) (namedAs_ext _ _ _ Hj) H1) as (Hw1 & Hc1 & Hs1 & Hin1 & Hz1).
  destruct (adding (Add _ _ _) s1) as [s2|] eqn:H2; [|done]. cbn [mbind result_bind].
  destruct (adding_step _ _ _ _ _ _ Hw1 (namedAs_ext _ _ _ Hb) H2) as (Hw2 & Hc2 & Hs2 & Hin2 & Hz2). intros [= <-].
  assert (sizedImage meta') as Hm'.
  { destruct Hm as (? & ? & ? & _). split_and!; try done. cbn. intros n [= <-]. pose proof (w_fit _ _ Hw2) as Hfit.
    rewrite Forall_app, Forall_singleton in Hfit. destruct Hfit as [_ (_ & _ & Hlim)]. pose proof (limit_bound (BackupImagePath (im_ID meta) ".bin")).
    unfold inRange, min_int, max_int. cbn [fst snd] in Hlim. lia. }
  destruct Hj as (_ & Hjk & Hje & _), Hb as (_ & Hbk & Hbe & _).
  split_and!; [|by etrans; [exact Hin1|]; etrans; [exact Hin2|]; split|].
  - exists ((items ++ [(BackupImagePath (im_ID meta) ".json", Raw (imageObject meta'))]) ++ [(BackupImagePath (im_ID meta) ".bin", data)]).
    rewrite <- app_assoc in Hw2 |- *. cbn [app] in *. rewrite <- (plus_none k).
    eapply (Whole_step k noKinds items _ s); [done|by apply Written_counts|..]; rewrite ?ofKind_cons, ?description_cons; cbn [fst snd];
      unfold isDescription; cbn [fst snd]; rewrite ?Hjk, ?Hbk, ?Hje, ?Hbe; try done.
    + apply Forall_cons. split; [|apply Forall_singleton]; unfold isDescription; cbn [fst snd]; rewrite ?Hbk, ?Hbe; [|done]. intros _. exists meta'.
      split_and!; cbn [fst snd]; [by rewrite parse_raw; cbn; apply image_decodes|done|done|]. rewrite fmap_app. apply elem_of_app. right. right. by left.
    + apply Forall_cons. split; [|apply Forall_singleton]; unfold chatItem; cbn [fst snd]; rewrite ?Hjk, ?Hbk; by intros ?%contains_elem.
    + cbn. rewrite Hc2, Hc1. rewrite (h_counts _ _ _ H). cbn. f_equal; lia.
    + cbn. by rewrite Hs2, Hs1, app_nil_r.
    + cbn. rewrite Hs2, Hs1, length_app. cbn. done.
  - split; [exact Hz2|]. exists meta'. split_and!; try done. eapply prefixed_elem; [apply Hin2|]. exact Hz1.
Qed.

Lemma Join_nonempty a b l : Join (a :: b :: l) "/" ≠ ""%string.
Proof. change (Join (a :: b :: l) "/") with (String.append a (String "/" (Join (b :: l) "/"))). by destruct a. Qed.
(** What became of an attachment of a chat: its image, or those of its
    pages, are in the backup, or what could not be read is listed as left
    out. *)
Record Account := mkAccount {
  holds : string → Api.any → Prop;
  pictures : string → string → bytes → Prop;
  lists : BackupOmission → Prop;
  links : string * string → Prop;
}.
Record covers (A A' : Account) : Prop := {
  cv_holds : ∀ name v, holds A name v → holds A' name v;
  cv_pictures : ∀ chat id data, id ≠ ""%string → pictures A chat id data → pictures A' chat id data;
  cv_lists : ∀ o, lists A o → lists A' o;
  cv_links : ∀ l, links A l → links A' l;
}.
Section Accounts.
Context (A : Account) (chat : string) (image : Attachment → result readErr bytes) (document : Attachment → Attachment * option readErr).
Definition leftOut (id : string) (e : readErr) : BackupOmission := mkOmission "attachment" id chat "unavailable" (missingReason e).
Definition pageAccounted (id : string) (n : nat) (p : DocumentPage) : Prop :=
  p_Image p ≠ ""%string →
  match Decode64 StdEncoding (pageData (p_Image p)) with
  | Some data => pictures A chat (pagePlace id n) data
  | None => lists A (leftOut (pagePlace id n) NotFound)
  end.
Definition pagesAccounted (id : string) (ps : list DocumentPage) : Prop := ∀ n p, ps !! n = Some p → pageAccounted id n p.
Definition accounted (i j : nat) (a : Attachment) : Prop :=
  let '(a, failed) := filledIn document a in
  match failed with
  | Some e => lists A (leftOut (place chat i j) e)
  | None =>
      if IsImage a then
        match image a with
        | Ok data => pictures A chat (place chat i j) data ∧ pagesAccounted (place chat i j) (a_Pages a)
        | Err e => lists A (leftOut (place chat i j) e)
        end
      else pagesAccounted (place chat i j) (a_Pages a)
  end.
Definition messageAccounted (i : nat) (m : Message) : Prop := ∀ j a, elems (m_Attachments m) !! j = Some a → accounted i j a.
Definition messagesAccounted (ms : list Message) : Prop := ∀ i m, ms !! i = Some m → messageAccounted i m.
End Accounts.
(** A chat: its entry, with every message, and their attachments. *)
Definition accountsThread (A : Account) (kind : string) (t : Thread) (image : Attachment → result readErr bytes)
    (document : Attachment → Attachment * option readErr) : Prop :=
  holds A (BackupEntityPath kind (t_ID t)) (chatObject t image document) ∧ messagesAccounted A (t_ID t) image document (t_Messages t).

Section Mono.
Context (A A' : Account) (Hc : covers A A').
Lemma page_mono chat id n p : pageAccounted A chat id n p → pageAccounted A' chat id n p.
Proof using Hc.
  intros Hk Hi. specialize (Hk Hi). destruct (Decode64 _ _); [|by apply Hc]. apply Hc; [apply Join_nonempty|done].
Qed.
Lemma accounted_mono chat image document i j a : accounted A chat image document i j a → accounted A' chat image document i j a.
Proof using Hc.
  unfold accounted. destruct (filledIn document a) as [a' [e|]]; [by apply Hc|].
  assert (pagesAccounted A chat (place chat i j) (a_Pages a') → pagesAccounted A' chat (place chat i j) (a_Pages a')) as Hp.
  { intros Hps n p Hn. apply page_mono. by apply Hps. }
  destruct (IsImage a'); [|done]. destruct (image a'); [|by apply Hc]. intros [H1 H2]. split; [|by auto]. apply Hc; [apply Join_nonempty|done].
Qed.
Lemma message_mono chat image document i m : messageAccounted A chat image document i m → messageAccounted A' chat image document i m.
Proof using Hc. intros Hk j a Ha. by apply accounted_mono, Hk. Qed.
Lemma messages_mono chat image document ms : messagesAccounted A chat image document ms → messagesAccounted A' chat image document ms.
Proof using Hc. intros Hk i m Hm. by apply message_mono, Hk. Qed.
Lemma thread_mono kind t image document : accountsThread A kind t image document → accountsThread A' kind t image document.
Proof using Hc. intros [H1 H2]. split; [by apply Hc|by apply messages_mono]. Qed.
End Mono.

(** What is written so far. *)
Definition writtenAs (s : State) (name : string) (v : Api.any) : Prop := entryOf (name, Raw v) ∈ zip s.1.
Definition so_far (s : State) : Account :=
  mkAccount (writtenAs s) (λ chat id data, imageAt chat id data s) (λ o, o ∈ mf_Omissions (manifest s.1)) (λ l, l ∈ r_ProjectChats s.2).
Lemma grows_covers s s' : grows s s' → covers (so_far s) (so_far s').
Proof.
  intros Hg. split; cbn.
  - intros name v. by apply prefixed_elem, Hg.
  - intros chat id data _ Hi. by eapply imageAt_grows.
  - intros o. by apply prefixed_elem, Hg.
  - intros l. by apply prefixed_elem, Hg.
Qed.
Lemma inside_omit k s o : inside k s → inside k (onWriter (omit o) s) ∧ within s (onWriter (omit o) s) ∧
  o ∈ mf_Omissions (manifest (onWriter (omit o) s).1).
Proof. intros [items H]. destruct (omit_whole _ _ o _ H) as (H1 & H2 & H3). split_and!; try done. by exists items. Qed.

Lemma pageOf_whole chat id i a n k p s s' b : inside k s → inRange (Z.of_nat i) → inRange (p_Page p) →
  backupPageOf chat id i a n p s = Ok (s', b) → inside k s' ∧ within s s' ∧ pageAccounted (so_far s') chat id n p.
Proof.
  intros H Hi Hp. unfold backupPageOf, pageAccounted.
  destruct (String.eqb_spec (p_Image p) "") as [|Hne]; [intros [= <- <-]; by split_and!|]. fold (pagePlace id n).
  destruct (Decode64 _ _) as [data|].
  - destruct (addImage _ data s) as [s1|] eqn:Ha; [|done]. cbn [mbind result_bind]. intros [= <- _].
    apply (addImage_whole k) in Ha as (H1 & H2 & H3); try done; [apply Join_nonempty|]. split_and!; try done; cbn; by intros n' [= <-].
  - intros [= <- _]. by destruct (inside_omit k s (leftOut chat (pagePlace id n) NotFound) H) as (? & ? & ?).
Qed.
Lemma pages_whole chat id i a k l s s' bs : inside k s → inRange (Z.of_nat i) → (∀ p, p ∈ l → inRange (p_Page p)) →
  walk (backupPageOf chat id i a) 0 l s = Ok (s', bs) → inside k s' ∧ within s s' ∧ ∀ n p, l !! n = Some p → pageAccounted (so_far s') chat id n p.
Proof.
  intros H Hi Hp Hw.
  destruct (walk_each (λ k, inside k) within (λ n p s, pageAccounted (so_far s) chat id n p) (λ k _, k) (backupPageOf chat id i a) l) with 0 k s s' bs as (H1 & H2 & H3); try done.
  - intros j p g s1 s2 b Hin H1 Hs. eapply pageOf_whole; [done|done|by apply Hp|done].
  - intros j p s1 s2 Hk [Hg _]. by eapply page_mono; [apply grows_covers|].
  - rewrite foldl_same in H1. done.
Qed.
Lemma attachmentOf_whole chat image document i j k a s s' b : inside k s → inRange (Z.of_nat i) →
  (∀ p, p ∈ a_Pages a ++ a_Pages (document a).1 → inRange (p_Page p)) →
  backupAttachmentOf chat image document i j a s = Ok (s', b) → inside k s' ∧ within s s' ∧ accounted (so_far s') chat image document i j a.
Proof.
  intros H Hi Hp. unfold backupAttachmentOf, accounted. fold (filledIn document a).
  assert (∀ p, p ∈ a_Pages (filledIn document a).1 → inRange (p_Page p)) as Hp'.
  { intros p Hin. apply Hp, elem_of_app. revert Hin. unfold filledIn. destruct (_ && _); [by right|by left]. }
  destruct (filledIn document a) as [a' failed]. cbn [fst] in Hp'.
  destruct (inside_omit k s (leftOut chat (place chat i j) NotFound) H) as (Ho1 & Ho2 & Ho3).
  destruct (inside_omit k s (leftOut chat (place chat i j) Unavailable) H) as (Hu1 & Hu2 & Hu3).
  destruct failed as [[| |e]|]; [by intros [= <- _]..|done|].
  destruct (IsImage a').
  - destruct (image a') as [data|[| |e]]; [|by intros [= <- _]..|done].
    destruct (addImage _ data s) as [s1|] eqn:Hadd; [|done]. cbn [mbind result_bind].
    apply (addImage_whole k) in Hadd as (H1 & Hw1 & Hat); [|done|apply Join_nonempty|by split_and!; cbn].
    destruct (walk _ 0 _ s1) as [[s2 bs]|] eqn:Hw; [|done]. cbn. intros [= <- _].
    destruct (pages_whole _ _ _ _ _ _ _ _ _ H1 Hi Hp' Hw) as (H2 & Hw2 & Hk2). split_and!; [done|by etrans| |done].
    eapply imageAt_grows; [exact Hat|apply Hw2].
  - cbn [mbind result_bind]. destruct (walk _ 0 _ s) as [[s2 bs]|] eqn:Hw; [|done]. cbn. intros [= <- _].
    by destruct (pages_whole _ _ _ _ _ _ _ _ _ H Hi Hp' Hw) as (H2 & Hw2 & Hk2).
Qed.

(** *** A chat *)

Definition countedMessage (document : Attachment → Attachment * option readErr) (m : Message) : Prop :=
  ∀ a p, a ∈ elems (m_Attachments m) → p ∈ a_Pages a ++ a_Pages (document a).1 → inRange (p_Page p).
(** A chat with an id, whose numbers are Go's [int]s. *)
Definition counted (t : Thread) (document : Attachment → Attachment * option readErr) : Prop :=
  t_ID t ≠ ""%string ∧ inRange (Z.of_nat (length (t_Messages t))) ∧ ∀ m, m ∈ t_Messages t → countedMessage document m.
Lemma messageOf_whole chat image document i k m s s' b : inside k s → inRange (Z.of_nat i) → countedMessage document m →
  backupMessageOf chat image document i m s = Ok (s', b) → inside k s' ∧ within s s' ∧ messageAccounted (so_far s') chat image document i m.
Proof.
  intros H Hi Hm. unfold backupMessageOf. destruct (walk _ _ _ _) as [[s1 bs]|] eqn:Hw; [|done]. cbn. intros [= <- _].
  destruct (walk_each (λ k, inside k) within (λ j a s, accounted (so_far s) chat image document i j a) (λ k _, k) (backupAttachmentOf chat image document i)
    (elems (m_Attachments m))) with 0 k s s1 bs as (H1 & H2 & H3); try done.
  - intros j a g s2 s3 b' Hin Hg Hs. eapply attachmentOf_whole; [done|done| |done]. intros p Hp. by eapply Hm.
  - intros j a s2 s3 Hk [Hg _]. by eapply accounted_mono; [apply grows_covers|].
  - rewrite foldl_same in H1. by split_and!.
Qed.
Lemma lookup_range {A} (l : list A) i a : inRange (Z.of_nat (length l)) → l !! i = Some a → inRange (Z.of_nat i).
Proof. intros Hl Hi%lookup_lt_Some. unfold inRange, min_int in *. lia. Qed.
Lemma messages_whole t image document k s s' bs : counted t document → inside k s →
  walk (backupMessageOf (t_ID t) image document) 0 (t_Messages t) s = Ok (s', bs) → inside k s' ∧ within s s' ∧ messagesAccounted (so_far s') (t_ID t) image document (t_Messages t).
Proof.
  intros (Hid & Hlen & Hm) H Hw.
  assert (∀ l n, (∀ i m, l !! i = Some m → m ∈ t_Messages t ∧ inRange (Z.of_nat (n + i))) → ∀ s s' bs, inside k s →
    walk (backupMessageOf (t_ID t) image document) n l s = Ok (s', bs) →
    inside k s' ∧ within s s' ∧ ∀ i m, l !! i = Some m → messageAccounted (so_far s') (t_ID t) image document (n + i) m) as Hall.
  { clear s s' bs H Hw. induction l as [|m l IH]; intros n Hl s s' bs H; cbn; [by intros [= <- <-]; split_and!|].
    destruct (backupMessageOf _ _ _ _ _ _) as [[s1 b]|] eqn:Hb; [|done]. cbn [mbind result_bind].
    destruct (walk _ _ _ _) as [[s2 bs']|] eqn:Hw; [|done]. cbn. intros [= <- _]. destruct (Hl 0 m eq_refl) as [Hin Hr]. rewrite Nat.add_0_r in Hr.
    destruct (messageOf_whole _ _ _ _ _ _ _ _ _ H Hr (Hm m Hin) Hb) as (H1 & Hw1 & Hk1).
    destruct (IH (Datatypes.S n)) with s1 s2 bs' as (H2 & Hw2 & Hk2); [|done..|].
    - intros i x Hx. replace (Datatypes.S n + i) with (n + Datatypes.S i) by lia. by apply Hl.
    - split_and!; [done|by etrans|]. intros [|i] x Hx.
      + cbn in Hx. injection Hx as <-. rewrite Nat.add_0_r. eapply message_mono; [apply grows_covers, Hw2|done].
      + replace (n + Datatypes.S i) with (Datatypes.S n + i) by lia. by apply Hk2. }
  destruct (Hall (t_Messages t) 0) with s s' bs as (H1 & H2 & H3); try done.
  intros i m Hi. split; [by eapply list_elem_of_lookup_2|]. by eapply lookup_range.
Qed.
Definition chatKinds (kind id : string) : Kinds :=
  if String.eqb kind "cloud_chats" then mkKinds [] [] [id] [] else mkKinds [] [] [] [id].

(** One entry of a kind of its own. *)
Lemma entity_whole k kn s kind name v s' : inside k s → namedAs name kind ".json" → kind ≠ "images"%string → kind ≠ "relationships"%string →
  adding (addJSON kind name v) s = Ok s' →
  (if String.eqb kind "projects" then [name] else []) = BackupEntityPath "projects" <$> k_projects kn →
  (if String.eqb kind "project_documents" then [name] else []) = (λ d, BackupDocumentPath d.1 d.2) <$> k_documents kn →
  (if String.eqb kind "cloud_chats" then [name] else []) = BackupEntityPath "cloud_chats" <$> k_cloud kn →
  (if String.eqb kind "local_chats" then [name] else []) = BackupEntityPath "local_chats" <$> k_local kn →
  chatItem (name, Raw v) →
  ∀ f rel, f (mf_Counts (manifest s.1)) = mkCounts (c_Projects (mf_Counts (manifest s.1)) + Z.of_nat (length (k_projects kn)))
    (c_ProjectDocuments (mf_Counts (manifest s.1)) + Z.of_nat (length (k_documents kn))) (c_CloudChats (mf_Counts (manifest s.1)) + Z.of_nat (length (k_cloud kn)))
    (c_LocalChats (mf_Counts (manifest s.1)) + Z.of_nat (length (k_local kn))) 0 (c_Images (mf_Counts (manifest s.1)) + 0) 0 →
  r_ProjectDocuments rel = r_ProjectDocuments s.2 ++ k_documents kn → r_ChatImages rel = r_ChatImages s.2 → r_ProjectChats rel = r_ProjectChats s.2 →
  inside (plus k kn) (onCounts f s'.1, rel) ∧ within s (onCounts f s'.1, rel).
Proof.
  intros [items H] Hn Hni Hnr Ha H1 H2 H3 H4 Hci f rel Hf Hrd Hri Hrp. destruct (adding_step _ _ _ _ _ _ (h_written _ _ _ H) (namedAs_ext _ _ _ Hn) Ha) as (Hw & Hc & Hs & Hin & _).
  destruct Hn as (_ & Hkind & Hext & _). split.
  - exists (items ++ [(name, Raw v)]).
    eapply Whole_step; [done|by apply Written_counts|..]; rewrite ?ofKind_cons, ?description_cons; cbn [fst snd]; unfold isDescription; cbn [fst snd];
      rewrite ?Hkind, ?(proj2 (String.eqb_neq kind _) Hni), ?(proj2 (String.eqb_neq kind _) Hnr); cbn [andb]; try done.
    + rewrite <- H1. by destruct (String.eqb kind "projects").
    + rewrite <- H2. by destruct (String.eqb kind "project_documents").
    + rewrite <- H3. by destruct (String.eqb kind "cloud_chats").
    + rewrite <- H4. by destruct (String.eqb kind "local_chats").
    + apply Forall_singleton. unfold isDescription. cbn [fst]. by rewrite Hkind, (proj2 (String.eqb_neq kind _) Hni).
    + by apply Forall_singleton.
    + cbn. rewrite Hc. exact Hf.
    + cbn. by rewrite Hri, Nat.add_0_r.
  - split; [|done]. split; cbn; [apply Hin..|by rewrite Hrp].
Qed.
Lemma backupChat_whole kind t image document k s s' : kind ∈ ["cloud_chats"; "local_chats"]%string → counted t document → inside k s →
  backupChat kind t image document s = Ok s' → inside (plus k (chatKinds kind (t_ID t))) s' ∧ within s s' ∧ accountsThread (so_far s') kind t image document.
Proof.
  intros Hkind Hc H. unfold backupChat. destruct (walk _ _ _ _) as [[s1 ms]|] eqn:Hw; [|done]. cbn [mbind result_bind].
  destruct (messages_whole _ _ _ _ _ _ _ Hc H Hw) as (H1 & Hw1 & Hk1). destruct Hc as (Hid & _ & _).
  destruct (adding _ s1) as [s2|] eqn:Ha; [|done]. cbn [mbind result_bind]. intros [= <-].
  assert (namedAs (BackupEntityPath kind (t_ID t)) kind ".json") as Hn by (apply entity_named; [set_solver|done]).
  destruct H1 as [items1 H1]. destruct (adding_step _ _ _ _ _ _ (h_written _ _ _ H1) (namedAs_ext _ _ _ Hn) Ha) as (_ & _ & Hs2 & _ & Hentry).
  pose proof (h_counts _ _ _ H1) as Hcs.
  assert (kind ≠ "images"%string ∧ kind ≠ "relationships"%string) as [Hni Hnr] by (split; intros ->; by apply contains_elem in Hkind).
  destruct (entity_whole k (chatKinds kind (t_ID t)) s1 kind _ _ s2 ltac:(by exists items1) Hn Hni Hnr Ha) with
    (f := λ c : BackupCounts, if String.eqb kind "cloud_chats" then c <| c_CloudChats ::= Z.succ |> else c <| c_LocalChats ::= Z.succ |>) (rel := s2.2)
    as [H2 Hw2]; try (repeat (apply elem_of_cons in Hkind as [->|Hkind]; [done|]); by apply not_elem_of_nil in Hkind).
  - intros _. exists (t_ID t). eexists. split_and!; [done|cbn [snd]; by rewrite parse_raw|]. cbn [fst]. by rewrite (proj1 (proj2 Hn)).
  - rewrite Hcs. cbn. repeat (apply elem_of_cons in Hkind as [->|Hkind]; [cbn; f_equal; lia|]). by apply not_elem_of_nil in Hkind.
  - rewrite Hs2. repeat (apply elem_of_cons in Hkind as [->|Hkind]; [cbn; by rewrite app_nil_r|]). by apply not_elem_of_nil in Hkind.
  - by rewrite Hs2.
  - by rewrite Hs2.
  - unfold onWriter. split_and!; [done|by etrans|]. split; [|by eapply messages_mono; [apply grows_covers, Hw2|]].
    rewrite (messages_show _ _ _ _ _ _ _ Hw) in Hentry. exact Hentry.
Qed.

(** *** The cloud's rows, and the device's chats *)

Definition projectKinds (r : projectRow) : Kinds :=
  match r with ProjectRead p _ (Ok docs) => mkKinds [pr_ID p] ((λ d, (pr_ID p, bd_ID d)) <$> docs) [] [] | _ => noKinds end.
Definition projectNamed (r : projectRow) : Prop :=
  match r with ProjectRead p _ (Ok docs) => pr_ID p ≠ ""%string ∧ ∀ d, d ∈ docs → bd_ID d ≠ ""%string | ProjectRead p _ _ => pr_ID p ≠ ""%string | _ => True end.
Definition unread (kind id parent : string) : BackupOmission := mkOmission kind id parent "invalid" "row_unreadable".
Definition from_ok {E A} (d : A) (r : result E A) : A := match r with Ok a => a | Err _ => d end.
(** A project's entry and those of its documents. *)
Definition accountsProject (A : Account) (r : projectRow) : Prop :=
  match r with
  | ProjectUnreadable id => lists A (unread "project" id "")
  | ProjectRead p rows docs =>
      holds A (BackupEntityPath "projects" (pr_ID p)) (projectObject p) ∧
      (∀ row, row ∈ rows → lists A (unread "project_document" (Timeline.TrimPrefix row (String.append (pr_ID p) "/")) (pr_ID p))) ∧
      ∀ d, d ∈ from_ok [] docs → holds A (BackupDocumentPath (pr_ID p) (bd_ID d)) (documentObject d)
  end.
Lemma project_mono A A' r : covers A A' → accountsProject A r → accountsProject A' r.
Proof. intros Hc. destruct r as [id|p rows docs]; cbn; [by apply Hc|]. intros (H1 & H2 & H3). split_and!; [by apply Hc|..]; intros; apply Hc; auto. Qed.
Lemma omitted_grows o s s' : o ∈ mf_Omissions (manifest s.1) → grows s s' → o ∈ mf_Omissions (manifest s'.1).
Proof. intros Ho Hg. by apply (cv_lists _ _ (grows_covers _ _ Hg)). Qed.

Lemma writeDocument_whole project d i k s s' b : project ≠ ""%string → bd_ID d ≠ ""%string → inside k s → writeDocument project i d s = Ok (s', b) →
  inside (plus k (mkKinds [] [(project, bd_ID d)] [] [])) s' ∧ within s s' ∧ writtenAs s' (BackupDocumentPath project (bd_ID d)) (documentObject d).
Proof.
  intros Hp Hd [items H]. unfold writeDocument. destruct (adding _ s) as [s1|] eqn:Ha; [|done]. cbn [mbind result_bind]. intros [= <- _].
  pose proof (document_named _ _ Hp Hd) as Hn. destruct (adding_step _ _ _ _ _ _ (h_written _ _ _ H) (namedAs_ext _ _ _ Hn) Ha) as (_ & _ & Hs1 & _ & Hentry).
  pose proof (h_counts _ _ _ H) as Hcs.
  destruct (entity_whole k (mkKinds [] [(project, bd_ID d)] [] []) s "project_documents" _ _ s1 ltac:(by exists items) Hn ltac:(done) ltac:(done) Ha) with
    (f := λ c : BackupCounts, c <| c_ProjectDocuments ::= Z.succ |>) (rel := s1.2 <| r_ProjectDocuments ::= λ l, l ++ [(project, bd_ID d)] |>) as [H2 Hw2];
    try done; try (cbn; by rewrite Hs1).
  - intros Hk. cbn [fst] in Hk. rewrite (proj1 (proj2 Hn)) in Hk. by apply contains_elem in Hk.
  - rewrite Hcs. cbn. f_equal; lia.
Qed.
Lemma unreadable_whole kind f parent rows k s : inside k s →
  inside k (foldl (λ s row, unreadableRow kind (f row) parent s) s rows) ∧ within s (foldl (λ s row, unreadableRow kind (f row) parent s) s rows) ∧
  ∀ row : string, row ∈ rows → unread kind (f row) parent ∈ mf_Omissions (manifest (foldl (λ s row, unreadableRow kind (f row) parent s) s rows).1).
Proof.
  revert s. induction rows as [|row rows IH]; intros s H; cbn; [split_and!; [done|done|by intros ? ?%not_elem_of_nil]|].
  destruct (inside_omit k s (unread kind (f row) parent) H) as (H1 & Hw1 & Ho1). destruct (IH _ H1) as (H2 & Hw2 & Ho2).
  split_and!; [done|by etrans|]. intros r [->|Hr]%elem_of_cons; [|by apply Ho2]. eapply omitted_grows; [exact Ho1|apply Hw2].
Qed.
Lemma foldl_plus {A} (f : A → Kinds) l k : foldl (λ k a, plus k (f a)) k l = plus k (foldr (λ a r, plus (f a) r) noKinds l).
Proof.
  revert k. induction l as [|a l IH]; intros k; cbn; [by rewrite plus_none|]. rewrite IH. unfold plus. cbn. by rewrite <- !app_assoc.
Qed.
Lemma documents_plus p docs :
  foldr (λ d r, plus (mkKinds [] [(p, bd_ID d)] [] []) r) noKinds docs = mkKinds [] ((λ d, (p, bd_ID d)) <$> docs) [] [].
Proof. induction docs as [|d docs IH]; [done|]. cbn [foldr]. by rewrite IH. Qed.
Lemma writeProject_whole i r k st st' b : projectNamed r → inside k st.1 → writeProject i r st = Ok (st', b) →
  inside (plus k (projectKinds r)) st'.1 ∧ within st.1 st'.1 ∧ accountsProject (so_far st'.1) r.
Proof.
  destruct st as [s projects]. cbn [fst]. intros Hr H. destruct r as [id|p rows docs]; cbn [writeProject].
  - intros [= <- _]. destruct (inside_omit k s (unread "project" id "") H) as (H1 & H2 & H3). cbn [projectKinds]. rewrite plus_none. done.
  - destruct (adding _ s) as [s1|] eqn:Ha; [|done]. cbn [mbind result_bind].
    assert (pr_ID p ≠ ""%string) as Hp by (destruct docs; apply Hr).
    pose proof (entity_named "projects" (pr_ID p) ltac:(by left) Hp) as Hn. destruct H as [items H].
    destruct (adding_step _ _ _ _ _ _ (h_written _ _ _ H) (namedAs_ext _ _ _ Hn) Ha) as (_ & _ & Hs1 & _ & Hentry). pose proof (h_counts _ _ _ H) as Hcs.
    destruct (entity_whole k (mkKinds [pr_ID p] [] [] []) s "projects" _ _ s1 ltac:(by exists items) Hn ltac:(done) ltac:(done) Ha) with
      (f := λ c : BackupCounts, c <| c_Projects ::= Z.succ |>) (rel := s1.2) as [H2 Hw2]; try done; try (cbn; rewrite Hs1; by rewrite ?app_nil_r).
    { intros Hk. cbn [fst] in Hk. rewrite (proj1 (proj2 Hn)) in Hk. by apply contains_elem in Hk. }
    { rewrite Hcs. cbn. f_equal; lia. }
    destruct (unreadable_whole "project_document" (λ row, Timeline.TrimPrefix row (String.append (pr_ID p) "/")) (pr_ID p) rows _ _ H2) as (H3 & Hw3 & Ho3).
    unfold onWriter at 1. set (s3 := foldl _ _ _) in *. destruct docs as [docs|e]; [|done]. destruct Hr as [_ Hd]. cbn [mbind result_bind].
    destruct (walk _ _ _ s3) as [[s4 u]|] eqn:Hw; [|done]. cbn. intros [= <- _]. cbn [fst].
    destruct (walk_each inside within (λ _ d s, writtenAs s (BackupDocumentPath (pr_ID p) (bd_ID d)) (documentObject d)) (λ k d, plus k (mkKinds [] [(pr_ID p, bd_ID d)] [] [])) (writeDocument (pr_ID p)) docs) with 0
      (plus k (mkKinds [pr_ID p] [] [] [])) s3 s4 u as (H4 & Hw4 & Hk4); try done.
    { intros j d g s5 s6 b' Hin Hg Hs. eapply writeDocument_whole; [done|by apply Hd|done|done]. }
    { intros j d s5 s6 He [Hg _]. by apply (cv_holds _ _ (grows_covers _ _ Hg)). }
    split; [|split; [by etrans; [exact Hw2|]; etrans|]].
    + rewrite foldl_plus, documents_plus in H4. revert H4. unfold plus. cbn. by rewrite !app_nil_r.
    + cbn. split_and!.
      * eapply (cv_holds _ _ (grows_covers _ _ ltac:(etrans; [apply Hw3|apply Hw4]))). exact Hentry.
      * intros row Hrow. eapply omitted_grows; [by apply Ho3|apply Hw4].
      * intros d [i' Hi']%list_elem_of_lookup. by apply (Hk4 i').
Qed.

Definition chatRowKinds (r : chatRow) : Kinds := match r with ChatRead t _ _ => chatKinds "cloud_chats" (t_ID t) | ChatUnreadable _ => noKinds end.
Definition chatRowCounted (r : chatRow) : Prop := match r with ChatRead t _ document => counted t document | ChatUnreadable _ => True end.
(** A chat's project: the one it has, unless it could not be read, which
    leaves it without one. *)
Definition projectOf (t : Thread) : string := default ""%string (t_ProjectID t).
Definition adopted (projects : list string) (t : Thread) : Thread :=
  if String.eqb (projectOf t) "" || bool_decide (projectOf t ∈ projects) then t else t <| t_ProjectID := None |>.
Definition linkAccounted (A : Account) (projects : list string) (t : Thread) : Prop :=
  projectOf t ≠ ""%string →
  if bool_decide (projectOf t ∈ projects) then links A (projectOf t, t_ID t)
  else lists A (mkOmission "relationship" (t_ID t) (projectOf t) "unavailable" "project_reference_unavailable").
Definition accountsChat (A : Account) (projects : list string) (r : chatRow) : Prop :=
  match r with
  | ChatUnreadable id => lists A (unread "cloud_chat" id "")
  | ChatRead t image document => accountsThread A "cloud_chats" (adopted projects t) image document ∧ linkAccounted A projects t
  end.
Lemma chat_mono A A' projects r : covers A A' → accountsChat A projects r → accountsChat A' projects r.
Proof.
  intros Hc. destruct r as [id|t image document]; cbn; [by apply Hc|]. intros [H1 H2]. split; [by eapply thread_mono|].
  intros Hp. specialize (H2 Hp). case_bool_decide; by apply Hc.
Qed.
Lemma adopted_same projects t : t_ID (adopted projects t) = t_ID t ∧ t_Messages (adopted projects t) = t_Messages t.
Proof. unfold adopted. by destruct (_ || _). Qed.
Definition cloudInside (k : Kinds) (st : State * gset string) : Prop :=
  inside k st.1 ∧ (∀ x, x ∈ st.2 ↔ x ∈ k_cloud k) ∧ length (r_ProjectChats st.1.2) ≤ length (k_cloud k).
Lemma writeCloudChat_whole projects known i r k st st' b : (∀ x, x ∈ projects ↔ x ∈ known) → chatRowCounted r → cloudInside k st →
  writeCloudChat projects i r st = Ok (st', b) →
  cloudInside (plus k (chatRowKinds r)) st' ∧ grows st.1 st'.1 ∧ accountsChat (so_far st'.1) known r.
Proof.
  intros Hknown. destruct st as [s cloud]. intros Hr (H & Hc & Hl). cbn [fst snd] in *. destruct r as [id|t image document]; cbn [writeCloudChat].
  - intros [= <- _]. destruct (inside_omit k s (unread "cloud_chat" id "") H) as (H1 & H2 & H3). cbn [chatRowKinds]. rewrite plus_none.
    split_and!; [done|apply H2|exact H3].
  - fold (projectOf t). set (linked := if String.eqb (projectOf t) "" then (t, s) else _).
    assert (∃ s1, linked = (adopted known t, s1) ∧ inside k s1 ∧ grows s s1 ∧
      length (r_ProjectChats s1.2) ≤ S (length (k_cloud k)) ∧ linkAccounted (so_far s1) known t) as (s1 & -> & H1 & Hg1 & Hl1 & Hk1).
    { unfold linked, adopted, linkAccounted. rewrite (bool_decide_ext _ _ (Hknown (projectOf t))).
      destruct (String.eqb_spec (projectOf t) "") as [|Hp]; [exists s; split_and!; [done..|lia|done]|]. cbn [orb]. case_bool_decide.
      - eexists. split_and!; [done| | | |].
        + destruct H as [items H]. exists items. by eapply Whole_same.
        + split; cbn; [done..|by eexists].
        + cbn. rewrite length_app. cbn. lia.
        + intros _. cbn. apply elem_of_app. right. by left.
      - eexists. destruct (inside_omit k s (mkOmission "relationship" (t_ID t) (projectOf t) "unavailable" "project_reference_unavailable") H) as (H1 & H2 & H3).
        split_and!; [done..|apply H2|cbn; lia|]. intros _. exact H3. }
    destruct (backupChat _ _ _ _ _) as [s2|] eqn:Hb; [|done]. cbn [mbind result_bind]. intros [= <- _]. destruct (adopted_same known t) as [Hid Hm].
    assert (counted (adopted known t) document) as Hcd by (unfold counted; rewrite Hid, Hm; exact Hr).
    destruct (backupChat_whole _ _ _ _ _ _ _ ltac:(by left) Hcd H1 Hb) as (H2 & Hw2 & Hk2). rewrite Hid in H2 |- *. cbn [fst snd].
    split_and!; [split_and!|..].
    + done.
    + intros x. cbn. rewrite elem_of_union, elem_of_singleton, elem_of_app, list_elem_of_singleton, Hc. tauto.
    + destruct Hw2 as [_ Hlk]. cbn [fst snd]. rewrite Hlk. cbn. rewrite length_app. cbn. lia.
    + etrans; [exact Hg1|]. apply Hw2.
    + split; [done|]. intros Hp. specialize (Hk1 Hp). pose proof (grows_covers _ _ (proj1 Hw2)) as Hcov. case_bool_decide; by apply Hcov.
Qed.

(** What the store and the client gave is fit to be written: everything has
    an id, and numbers are Go's [int]s. *)
Definition cloudFit (c : CloudRows) : Prop := Forall projectNamed (projectRows c) ∧ Forall chatRowCounted (chatRows c).
Definition cloudKinds (c : option CloudRows) : Kinds :=
  match c with
  | Some c => plus (foldl (λ k r, plus k (projectKinds r)) noKinds (projectRows c)) (foldr (λ r k, plus (chatRowKinds r) k) noKinds (chatRows c))
  | None => noKinds
  end.
Definition projectIDs (rows : list projectRow) : list string := rows ≫= λ r, k_projects (projectKinds r).
Definition accountsCloud (A : Account) (c : CloudRows) : Prop :=
  (∀ r, r ∈ projectRows c → accountsProject A r) ∧ (∀ r, r ∈ chatRows c → accountsChat A (projectIDs (projectRows c)) r).
Lemma cloud_mono A A' c : covers A A' → accountsCloud A c → accountsCloud A' c.
Proof. intros Hc [H1 H2]. split; intros r Hr; [eapply project_mono|eapply chat_mono]; eauto. Qed.
Lemma start_inside : inside noKinds (NewBackupWriter, mkRelationships [] [] []).
Proof. exists []. split; try done; [apply NewBackupWriter_written|by rewrite Forall_nil..]. Qed.
Lemma projects_cloudless (k : Kinds) rows : k_cloud k = [] → k_cloud (foldl (λ k r, plus k (projectKinds r)) k rows) = [].
Proof.
  revert k. induction rows as [|r rows IH]; intros k Hk; [done|]. cbn. apply IH. cbn. rewrite Hk. by destruct r as [|? ? []].
Qed.
Lemma projects_plus rows k : let k' := foldl (λ k r, plus k (projectKinds r)) k rows in
  k_projects k' = k_projects k ++ projectIDs rows.
Proof.
  revert k. induction rows as [|r rows IH]; intros k; [cbn; by rewrite app_nil_r|]. cbn [foldl]. cbv zeta in IH. rewrite IH. cbn. by rewrite <- app_assoc.
Qed.
Lemma writeProject_known i r st st' b : writeProject i r st = Ok (st', b) → ∀ x, x ∈ st'.2 ↔ x ∈ st.2 ∨ x ∈ k_projects (projectKinds r).
Proof.
  destruct st as [s projects]. destruct r as [id|p rows docs]; cbn [writeProject].
  - intros [= <- _] x. cbn. rewrite elem_of_nil. tauto.
  - destruct (adding _ s) as [s1|]; [|done]. cbn [mbind result_bind]. destruct docs as [docs|]; [|done]. cbn [mbind result_bind].
    destruct (walk _ _ _ _) as [[s2 u]|]; [|done]. cbn. intros [= <- _] x. cbn. set_solver.
Qed.
Definition on_state {A} (R : State → State → Prop) (x y : State * A) : Prop := R x.1 y.1.
#[local] Instance on_state_preorder {A} R `{!PreOrder R} : PreOrder (@on_state A R).
Proof. split; [by intros x; unfold on_state|]. intros x y z. unfold on_state. by etrans. Qed.
Lemma writeCloud_whole c st : cloudFit c → writeCloud c (NewBackupWriter, mkRelationships [] [] []) = Ok st →
  cloudInside (cloudKinds (Some c)) st ∧ accountsCloud (so_far st.1) c.
Proof.
  intros [Hp Hc]. rewrite Forall_forall in Hp. rewrite Forall_forall in Hc. unfold writeCloud. destruct (granted c); [done|]. cbn [mbind result_bind ends].
  destruct (walk writeProject _ _ _) as [[[s1 projects] u]|] eqn:H1; [|done]. cbn [mbind result_bind]. destruct (projectsEnd c); [done|].
  cbn [mbind result_bind ends]. destruct (walk (writeCloudChat projects) _ _ _) as [[st2 u2]|] eqn:H2; [|done]. cbn [mbind result_bind].
  destruct (chatsEnd c); [done|]. intros [= <-].
  destruct (walk_each (λ k (st : State * gset string), inside k st.1 ∧ r_ProjectChats st.1.2 = [] ∧ ∀ x, x ∈ st.2 ↔ x ∈ k_projects k) (on_state within)
    (λ _ r st, accountsProject (so_far st.1) r) (λ k r, plus k (projectKinds r)) writeProject (projectRows c))
    with 0 noKinds ((NewBackupWriter, mkRelationships [] [] []), ∅ : gset string) (s1, projects) u as ((Hi1 & Hl1 & Hps) & Hw1 & Hk1); try done.
  { intros i r g s s' b Hin (Hg & Hl & Hx) Hs. destruct (writeProject_whole _ _ _ _ _ _ (Hp r Hin) Hg Hs) as (H3 & H4 & H5). split_and!; try done.
    - rewrite <- Hl. apply H4.
    - intros x. rewrite (writeProject_known _ _ _ _ _ Hs). cbn. rewrite elem_of_app. by rewrite Hx. }
  { intros i r s s' Hr Hw. eapply project_mono; [apply grows_covers, Hw|done]. }
  { split_and!; [apply start_inside|done|]. cbn. intros x. rewrite elem_of_nil. set_solver. }
  cbn [fst snd] in *. pose proof (projects_plus (projectRows c) noKinds) as Hpp. cbv zeta in Hpp. rewrite Hpp in Hps. cbn [k_projects noKinds app] in Hps.
  destruct (walk_each cloudInside (on_state grows) (λ _ r st, accountsChat (so_far st.1) (projectIDs (projectRows c)) r)
    (λ k r, plus k (chatRowKinds r)) (writeCloudChat projects) (chatRows c)) with 0 (foldl (λ k r, plus k (projectKinds r)) noKinds (projectRows c)) (s1, ∅ : gset string) st2 u2
    as (Hi2 & Hw2 & Hk2); try done.
  { intros i r g s s' b Hin Hg Hs. eapply writeCloudChat_whole; [done|by apply Hc|done|done]. }
  { intros i r s s' Hr Hw. eapply chat_mono; [apply grows_covers, Hw|done]. }
  { split_and!; [done| |cbn; rewrite Hl1; cbn; lia]. cbn [snd]. rewrite projects_cloudless by done. set_solver. }
  rewrite foldl_plus in Hi2. split; [exact Hi2|]. split; intros r [i Hr]%list_elem_of_lookup.
  - eapply project_mono; [apply grows_covers, Hw2|]. by eapply (Hk1 i).
  - by eapply (Hk2 i).
Qed.

Definition localKinds (cloud : list string) (t : result Api.err Thread) : Kinds :=
  match t with Ok t => if bool_decide (t_ID t ∈ cloud) then noKinds else chatKinds "local_chats" (t_ID t) | Err _ => noKinds end.
Definition localCounted (t : result Api.err Thread) : Prop := match t with Ok t => counted t noDocument | Err _ => True end.
Definition accountsLocal (A : Account) (originals : gmap string (result Api.err bytes)) (cloud : list string) (t : result Api.err Thread) : Prop :=
  match t with
  | Ok t => if bool_decide (t_ID t ∈ cloud) then lists A (mkOmission "local_chat" (t_ID t) "" "invalid" "duplicate_chat_id")
            else accountsThread A "local_chats" t (deviceImage originals) noDocument
  | Err _ => False
  end.
Lemma local_mono A A' originals cloud t : covers A A' → accountsLocal A originals cloud t → accountsLocal A' originals cloud t.
Proof. intros Hc. destruct t as [t|]; [|done]. cbn. case_bool_decide; [by apply Hc|by apply thread_mono]. Qed.
Lemma writeLocalChat_whole originals set cloud i t k s s' b : (∀ x, x ∈ set ↔ x ∈ cloud) → localCounted t → inside k s →
  writeLocalChat originals set i t s = Ok (s', b) → inside (plus k (localKinds cloud t)) s' ∧ within s s' ∧ accountsLocal (so_far s') originals cloud t.
Proof.
  intros Hset Ht H. unfold writeLocalChat. destruct t as [t|]; [|done]. cbn [mbind result_bind localKinds accountsLocal].
  rewrite (bool_decide_ext _ _ (Hset (t_ID t))). case_bool_decide.
  - intros [= <- _]. rewrite plus_none. apply inside_omit. done.
  - destruct (backupChat _ _ _ _ _) as [s1|] eqn:Hb; [|done]. cbn [mbind result_bind]. intros [= <- _].
    eapply backupChat_whole; [set_solver|done..].
Qed.

(** *** The manifest is read back *)

Lemma intOf_number (v : Api.any) n z : Api.member v n = Some (number z) → inRange z → intOf v n = Some z.
Proof. unfold intOf. intros -> Hz. by rewrite dInt_number. Qed.
Lemma listOf_encoded {A} (dec : Api.any → option A) (enc : A → Api.any) (v : Api.any) n l : Api.member v n = Some (Api.AArr (enc <$> l)) →
  Forall (λ x, dec (enc x) = Some x) l → listOf dec v n = Some l.
Proof.
  unfold listOf. intros -> Hl. rewrite (mapM_encoded dec enc id) by done. by rewrite list_fmap_id.
Qed.
Definition countsRange (c : BackupCounts) : Prop :=
  inRange (c_Projects c) ∧ inRange (c_ProjectDocuments c) ∧ inRange (c_CloudChats c) ∧ inRange (c_LocalChats c) ∧ inRange (c_Relationships c) ∧
  inRange (c_Images c) ∧ inRange (c_Files c).
Lemma counts_decode c : countsRange c → decodeCounts (countsObject c) = Some c.
Proof.
  intros (H1 & H2 & H3 & H4 & H5 & H6 & H7). unfold decodeCounts. change (structOf (countsObject c)) with (Some (countsObject c)).
  cbn [mbind option_bind]. rewrite (intOf_number _ "projects" (c_Projects c)), (intOf_number _ "project_documents" (c_ProjectDocuments c)),
    (intOf_number _ "cloud_chats" (c_CloudChats c)), (intOf_number _ "local_chats" (c_LocalChats c)), (intOf_number _ "relationships" (c_Relationships c)),
    (intOf_number _ "images" (c_Images c)), (intOf_number _ "files" (c_Files c)) by done. by destruct c.
Qed.
Lemma file_decodes f : inRange (bf_SizeBytes f) → decodeFile (fileObject f) = Some f.
Proof.
  intros H. unfold decodeFile. change (structOf (fileObject f)) with (Some (fileObject f)). cbn [mbind option_bind].
  rewrite !(intOf_number _ "size_bytes" (bf_SizeBytes f)) by done. by destruct f.
Qed.
Lemma omission_decodes o : decodeOmission (omissionObject o) = Some o.
Proof. destruct o as [kind id parent category reason]. unfold decodeOmission, omissionObject, omitempty. cbn. by destruct (String.eqb_spec parent "") as [->|]. Qed.
Lemma warning_decodes w : inRange (w_Count w) → decodeWarning (warningObject w) = Some w.
Proof.
  intros H. unfold decodeWarning. change (structOf (warningObject w)) with (Some (warningObject w)). cbn [mbind option_bind].
  rewrite !(intOf_number _ "count" (w_Count w)) by done. by destruct w.
Qed.
Lemma notices_decode n : decodeNotices (noticesObject n) = Some n.
Proof. by destruct n as [[] []]. Qed.
Definition manifestRange (m : BackupManifest) : Prop :=
  inRange (mf_Version m) ∧ countsRange (mf_Counts m) ∧ Forall (λ f, inRange (bf_SizeBytes f)) (mf_Files m) ∧ Forall (λ w, inRange (w_Count w)) (mf_Warnings m).
Lemma manifest_decodes m : manifestRange m → decodeManifest (manifestObject m) = Some m.
Proof.
  intros (Hv & Hc & Hf & Hw). unfold decodeManifest. change (structOf (manifestObject m)) with (Some (manifestObject m)). cbn [mbind option_bind].
  rewrite (intOf_number _ "version" (mf_Version m)) by done.
  rewrite (listOf_encoded decodeFile fileObject _ "files" (mf_Files m)) by (done || by eapply Forall_impl; [exact Hf|]; intros; apply file_decodes).
  rewrite (listOf_encoded decodeOmission omissionObject _ "omissions" (mf_Omissions m)) by (done || by apply Forall_true; intros; apply omission_decodes).
  rewrite (listOf_encoded decodeWarning warningObject _ "warnings" (mf_Warnings m)) by (done || by eapply Forall_impl; [exact Hw|]; intros; apply warning_decodes).
  change (structMember (manifestObject m) "counts") with (structOf (countsObject (mf_Counts m))).
  change (structMember (manifestObject m) "notices") with (structOf (noticesObject (mf_Notices m))).
  change (structOf (countsObject ?c)) with (Some (countsObject c)). change (structOf (noticesObject ?c)) with (Some (noticesObject c)).
  cbn [mbind option_bind]. rewrite counts_decode, notices_decode by done. by destruct m.
Qed.
Lemma link_decodes from to l : (from, to) ∈ [("projectId", "chatId"); ("projectId", "documentId"); ("chatId", "imageId")]%string →
  decodeLink from to (linkObject from to l) = Some l.
Proof. intros H. repeat (apply elem_of_cons in H as [[= -> ->]|H]; [by destruct l|]). by apply not_elem_of_nil in H. Qed.
Lemma relationships_decode r : decodeRelationships (relationshipsObject r) = Some r.
Proof.
  unfold decodeRelationships. change (structOf (relationshipsObject r)) with (Some (relationshipsObject r)). cbn [mbind option_bind].
  rewrite (listOf_encoded (decodeLink "projectId" "chatId") (linkObject "projectId" "chatId") _ "projectChats" (r_ProjectChats r)) by (done || apply Forall_true; intros; apply link_decodes; set_solver).
  rewrite (listOf_encoded (decodeLink "projectId" "documentId") (linkObject "projectId" "documentId") _ "projectDocuments" (r_ProjectDocuments r)) by (done || apply Forall_true; intros; apply link_decodes; set_solver).
  rewrite (listOf_encoded (decodeLink "chatId" "imageId") (linkObject "chatId" "imageId") _ "chatImages" (r_ChatImages r)) by (done || apply Forall_true; intros; apply link_decodes; set_solver).
  by destruct r.
Qed.

(** *** Opening what was written *)

Definition pairs (l : list item) : gmap string File := list_to_map ((λ i, (i.1, entryOf i)) <$> l).
Lemma pairs_lookup (l : list item) i : NoDup l.*1 → i ∈ l → pairs l !! i.1 = Some (entryOf i).
Proof.
  intros Hn Hi. unfold pairs. apply elem_of_list_to_map_1.
  - rewrite <- list_fmap_compose. exact Hn.
  - apply list_elem_of_fmap. by exists i.
Qed.
Lemma pairs_none (l : list item) n : n ∉ l.*1 → pairs l !! n = None.
Proof. intros Hn. unfold pairs. apply not_elem_of_list_to_map_1. by rewrite <- list_fmap_compose. Qed.
Lemma pairs_size (l : list item) : NoDup l.*1 → size (pairs l) = length l.
Proof.
  induction l as [|i l IH]; intros Hn; [by unfold pairs; cbn; rewrite map_size_empty|]. rewrite fmap_cons in Hn; apply NoDup_cons in Hn as [Hi Hn].
  unfold pairs. cbn. rewrite map_size_insert_None by (by apply pairs_none). f_equal. by apply IH.
Qed.
Lemma gather_written (l : list item) known size : Forall (λ i : item, backupPaths i.1 = true ∧ (Z.of_nat (length i.2) ≤ backupEntryLimit i.1)%Z) l → NoDup l.*1 →
  (∀ i, i ∈ l → known !! i.1 = None) → (0 ≤ size)%Z → (size + total l ≤ MaxArchiveExpansion)%Z →
  gather (entryOf <$> l) known size = Ok (pairs l ∪ known).
Proof.
  revert known size. induction l as [|i l IH]; intros known size Hf Hn Hk Hs Ht; cbn [fmap list_fmap gather].
  - unfold pairs. cbn. by rewrite map_empty_union.
  - apply Forall_cons in Hf as [[Hp Hl] Hf]. rewrite fmap_cons in Hn; apply NoDup_cons in Hn as [Hi Hn]. cbn [total] in Ht. pose proof (total_nonneg l).
    rewrite backup_safe by done. change (Encrypted (entryOf i)) with false. change (Name (entryOf i)) with i.1. rewrite Hp, Hk by (by left).
    rewrite bool_decide_eq_false_2 by (by intros [? ?]). cbn [negb orb]. change (UncompressedSize64 (entryOf i)) with (Z.of_nat (length i.2)).
    assert (add64 size (Z.of_nat (length i.2)) = size + Z.of_nat (length i.2))%Z as Ha by (unfold add64; apply Z.mod_small; unfold MaxArchiveExpansion in Ht; lia).
    rewrite Ha, !bool_decide_eq_false_2 by lia. cbn [orb]. rewrite IH; [|done..| |lia|lia].
    + f_equal. unfold pairs. cbn. rewrite <- insert_union_l. symmetry. apply insert_union_r. by apply pairs_none.
    + intros j Hj. rewrite lookup_insert_ne; [apply Hk; by right|]. intros He. apply Hi. rewrite He. by apply list_elem_of_fmap_2.
Qed.
Lemma limit_json name : (backupEntryLimit name ≤ maxArchiveJSONEntry)%Z.
Proof. unfold backupEntryLimit. by destruct (String.eqb _ _). Qed.
Lemma decode_written {A} (dec : Api.any → option A) i v : fitting i → Unmarshal i.2 ≫= dec = Some v → decodeEntry Unmarshal dec (entryOf i) = Ok v.
Proof.
  intros (_ & _ & Hl) Hd. unfold decodeEntry, entryOf. pose proof (limit_json i.1). rewrite readEntry_written by lia. cbn [mbind result_bind]. by rewrite Hd.
Qed.

Definition tally (c : BackupCounts) (i : item) : BackupCounts :=
  let kind := BackupKind i.1 in
  if String.eqb kind "projects" then c <| c_Projects ::= Z.succ |>
  else if String.eqb kind "project_documents" then c <| c_ProjectDocuments ::= Z.succ |>
  else if String.eqb kind "cloud_chats" then c <| c_CloudChats ::= Z.succ |>
  else if String.eqb kind "local_chats" then c <| c_LocalChats ::= Z.succ |>
  else if String.eqb kind "images" then if String.eqb (Importer.pathExt i.1) ".json" then c <| c_Images ::= Z.succ |> else c
  else if String.eqb kind "relationships" then
    match Unmarshal i.2 ≫= decodeRelationships with Some r => c <| c_Relationships := count r |> | None => c end
  else c.
Lemma tally_sum (l : list item) c : (∀ i, i ∈ l → BackupKind i.1 ≠ "relationships"%string) →
  foldl tally c l = mkCounts (c_Projects c + Z.of_nat (length (ofKind "projects" l))) (c_ProjectDocuments c + Z.of_nat (length (ofKind "project_documents" l)))
    (c_CloudChats c + Z.of_nat (length (ofKind "cloud_chats" l))) (c_LocalChats c + Z.of_nat (length (ofKind "local_chats" l)))
    (c_Relationships c) (c_Images c + Z.of_nat (length (List.filter isDescription l))) (c_Files c).
Proof.
  revert c. induction l as [|i l IH]; intros c Hr.
  - destruct c. cbn. f_equal; lia.
  - cbn [foldl]. rewrite IH by (intros j Hj; apply Hr; by right). specialize (Hr i ltac:(by left)).
    rewrite !ofKind_cons, description_cons. unfold tally, isDescription.
    destruct (String.eqb_spec (BackupKind i.1) "projects") as [->|]; [cbn; f_equal; lia|].
    destruct (String.eqb_spec (BackupKind i.1) "project_documents") as [->|]; [cbn; f_equal; lia|].
    destruct (String.eqb_spec (BackupKind i.1) "cloud_chats") as [->|]; [cbn; f_equal; lia|].
    destruct (String.eqb_spec (BackupKind i.1) "local_chats") as [->|]; [cbn; f_equal; lia|].
    destruct (String.eqb_spec (BackupKind i.1) "images") as [_|]; [destruct (String.eqb (Importer.pathExt i.1) ".json"); cbn; f_equal; lia|].
    rewrite (proj2 (String.eqb_neq _ "relationships")) by done. cbn. done.
Qed.

(** An entry as the check of the manifest takes it. *)
Definition checkable (known : gmap string File) (i : item) : Prop :=
  fitting i ∧ known !! i.1 = Some (entryOf i) ∧
  (isDescription i = true → ∃ meta, Unmarshal i.2 ≫= decodeImage = Some meta ∧ im_ID meta ≠ ""%string ∧ BackupImagePath (im_ID meta) ".json" = i.1 ∧
     is_Some (known !! BackupImagePath (im_ID meta) ".bin")) ∧
  (BackupKind i.1 = "relationships"%string → is_Some (Unmarshal i.2 ≫= decodeRelationships)).
Definition shown (cim : gmap string (list string)) (chat id : string) : Prop := id ∈ default [] (cim !! chat).
Lemma checkFile_ok m known i im cim c L : checkable known i → i.1 ∉ L →
  ∃ im' cim', checkFile (mkBackup m known im cim, c, L) (fileOf i) = Ok (mkBackup m known im' cim', tally c i, {[i.1]} ∪ L) ∧
    (∀ chat id, shown cim chat id → shown cim' chat id) ∧
    (∀ meta, isDescription i = true → Unmarshal i.2 ≫= decodeImage = Some meta → shown cim' (im_ChatID meta) (im_ID meta)).
Proof.
  intros (Hf & Hk & Hi & Hr) HL. unfold checkFile. cbn [bf_Path bf_Kind bf_SHA256 bf_SizeBytes fileOf entries]. rewrite Hk.
  pose proof (limit_bound i.1) as Hlb. pose proof Hf as (Hp & Hm & Hl). change (UncompressedSize64 (entryOf i)) with (Z.of_nat (length i.2)).
  assert (toInt64 (Z.of_nat (length i.2)) = Z.of_nat (length i.2)) as Hint by (unfold toInt64; rewrite bool_decide_eq_true_2; [done|lia]).
  rewrite bool_decide_eq_false_2, Hint, (proj2 (String.eqb_neq i.1 ManifestPath)), String.eqb_refl, bool_decide_eq_true_2 by done. cbn [negb orb].
  assert (checkEntryHash (entryOf i) (HashHex i.2) = Ok tt) as Hh by (unfold checkEntryHash; cbn; by rewrite String.eqb_refl).
  rewrite Hh. cbn [mbind result_bind].
  assert (∀ c', isDescription i = false → ∃ im' cim', (Ok (mkBackup m known im cim, c', {[i.1]} ∪ L) : result Api.err Checked) = Ok (mkBackup m known im' cim', c', {[i.1]} ∪ L) ∧
    (∀ chat id, shown cim chat id → shown cim' chat id) ∧
    (∀ meta, isDescription i = true → Unmarshal i.2 ≫= decodeImage = Some meta → shown cim' (im_ChatID meta) (im_ID meta))) as Hsame.
  { intros c' Hd. exists im, cim. split_and!; [done..|]. by rewrite Hd. }
  unfold tally. destruct (String.eqb_spec (BackupKind i.1) "projects") as [He|]; [apply Hsame; unfold isDescription; by rewrite He|].
  destruct (String.eqb_spec (BackupKind i.1) "project_documents") as [He|]; [apply Hsame; unfold isDescription; by rewrite He|].
  destruct (String.eqb_spec (BackupKind i.1) "cloud_chats") as [He|]; [apply Hsame; unfold isDescription; by rewrite He|].
  destruct (String.eqb_spec (BackupKind i.1) "local_chats") as [He|]; [apply Hsame; unfold isDescription; by rewrite He|].
  destruct (String.eqb_spec (BackupKind i.1) "images") as [He|Hni].
  - destruct (String.eqb (Importer.pathExt i.1) ".json") eqn:Hext; [|apply Hsame; unfold isDescription; by rewrite He, Hext].
    destruct Hi as (meta & Hd & Hid & Hpath & Hbin); [unfold isDescription; by rewrite He, Hext|]. unfold readImage.
    rewrite (decode_written decodeImage i meta Hf Hd). cbn [mbind result_bind entries]. change (Name (entryOf i)) with i.1.
    rewrite Hpath, String.eqb_refl, (proj2 (String.eqb_neq _ _)) by done. cbn [negb orb]. rewrite bool_decide_eq_false_2 by (by intros Hn; rewrite Hn in Hbin; destruct Hbin).
    cbn [mbind result_bind images chatImages nb_manifest]. eexists _, _. split_and!; [done| |].
    + intros chat id. unfold shown. destruct (decide (im_ChatID meta = chat)) as [->|]; [|by rewrite lookup_insert_ne].
      rewrite lookup_insert. cbn. intros ?. case_decide; [|done]. cbn. apply elem_of_app. by left.
    + intros meta' _ Hd'. rewrite Hd in Hd'. injection Hd' as <-. unfold shown. rewrite lookup_insert. case_decide; [|done]. cbn. apply elem_of_app. right. by left.
  - destruct (String.eqb_spec (BackupKind i.1) "relationships") as [He|].
    + destruct (Hr He) as [rel Hrel]. rewrite (decode_written decodeRelationships i rel Hf Hrel). cbn [mbind result_bind]. rewrite Hrel.
      apply Hsame. unfold isDescription. by rewrite He.
    + apply Hsame. unfold isDescription. by rewrite (proj2 (String.eqb_neq _ "images")).
Qed.
Lemma checkFiles_ok m known (l : list item) : Forall (checkable known) l → NoDup l.*1 → ∀ im cim c L, (∀ i, i ∈ l → i.1 ∉ L) →
  ∃ im' cim', checkFiles (mkBackup m known im cim, c, L) (fileOf <$> l) = Ok (mkBackup m known im' cim', foldl tally c l, list_to_set l.*1 ∪ L) ∧
    (∀ chat id, shown cim chat id → shown cim' chat id) ∧
    (∀ i meta, i ∈ l → isDescription i = true → Unmarshal i.2 ≫= decodeImage = Some meta → shown cim' (im_ChatID meta) (im_ID meta)).
Proof.
  induction l as [|i l IH]; intros Hc Hn im cim c L HL; cbn [fmap list_fmap checkFiles].
  - exists im, cim. split_and!; [|done|by intros i meta ?%not_elem_of_nil]. f_equal. f_equal. set_solver.
  - apply Forall_cons in Hc as [Hi Hc]. rewrite fmap_cons in Hn; apply NoDup_cons in Hn as [Hin Hn].
    destruct (checkFile_ok m known i im cim c L Hi (HL i ltac:(by left))) as (im1 & cim1 & -> & Hs1 & Hd1). cbn [mbind result_bind].
    destruct (IH Hc Hn im1 cim1 (tally c i) ({[i.1]} ∪ L)) as (im2 & cim2 & -> & Hs2 & Hd2).
    { intros j Hj. rewrite not_elem_of_union, not_elem_of_singleton. split; [|apply HL; by right]. intros He. apply Hin. rewrite <- He. by apply list_elem_of_fmap_2. }
    exists im2, cim2. split_and!; [|naive_solver|].
    + cbn [foldl]. f_equal. f_equal. cbn. set_solver.
    + intros j meta [->|Hj]%elem_of_cons Hdj Hm; [by apply Hs2, Hd1|by eapply Hd2].
Qed.

Definition headItem (m : BackupManifest) : item := (ManifestPath, Raw (manifestObject m)).
Lemma readEntry_entry (i : item) limit : (Z.of_nat (length i.2) ≤ limit)%Z → readEntry (entryOf i) limit = Ok i.2.
Proof. apply readEntry_written. Qed.
Lemma manifest_last l m : (∀ i, i ∈ l → i.1 ≠ ManifestPath) →
  manifestFile ((entryOf <$> l) ++ [entryOf (headItem m)]) = Some (entryOf (headItem m)).
Proof. intros _. unfold manifestFile. rewrite foldl_app. done. Qed.
Lemma head_names m : mf_Format m = NativeBackupFormat → (Z.of_nat (length (Raw (manifestObject m))) ≤ maxBackupManifestBytes)%Z → namesBackup (entryOf (headItem m)) = true.
Proof.
  intros Hf Hl. unfold namesBackup. rewrite readEntry_entry by done. cbn [headItem snd]. rewrite parse_raw. cbn [mbind option_bind].
  change (structOf (manifestObject m)) with (Some (manifestObject m)). cbn [mbind option_bind].
  change (textOf (manifestObject m) "format") with (Some (mf_Format m)). rewrite Hf. by apply bool_decide_eq_true_2.
Qed.
Lemma fitting_all (all : list item) m : Forall fitting all → (Z.of_nat (length (Raw (manifestObject m))) ≤ maxBackupManifestBytes)%Z →
  Forall (λ i : item, backupPaths i.1 = true ∧ (Z.of_nat (length i.2) ≤ backupEntryLimit i.1)%Z) (all ++ [headItem m]).
Proof.
  intros Hf Hl. apply Forall_app. split; [by eapply Forall_impl; [exact Hf|]; intros i (H1 & _ & H2)|]. apply Forall_singleton.
  split; [done|]. change (backupEntryLimit (headItem m).1) with maxArchiveJSONEntry. cbn [headItem snd]. unfold maxBackupManifestBytes, maxArchiveJSONEntry in *. lia.
Qed.
Lemma nodup_all (all : list item) m : Forall fitting all → NoDup all.*1 → NoDup (all ++ [headItem m]).*1.
Proof.
  intros Hf Hn. rewrite fmap_app. apply NoDup_app. split_and!; [done| |apply NoDup_singleton].
  intros n (i & -> & Hi)%list_elem_of_fmap He%list_elem_of_singleton. rewrite Forall_forall in Hf. destruct (Hf i Hi) as (_ & Hm & _). by apply Hm.
Qed.
Lemma open_written (all : list item) m :
  Forall fitting all → NoDup all.*1 → (total all + Z.of_nat (length (Raw (manifestObject m))) ≤ MaxArchiveExpansion)%Z →
  (Z.of_nat (length (Raw (manifestObject m))) ≤ maxBackupManifestBytes)%Z →
  mf_Files m = fileOf <$> all → mf_Format m = NativeBackupFormat → mf_Version m = nativeBackupVersion → manifestRange m →
  Forall (λ i, isDescription i = true → ∃ meta, describes all.*1 i meta) all →
  Forall (λ i, BackupKind i.1 = "relationships"%string → is_Some (Unmarshal i.2 ≫= decodeRelationships)) all →
  foldl tally (noCounts <| c_Files := Z.of_nat (length all) |>) all = mf_Counts m →
  ∃ nb, openNativeBackup (entryOf <$> (all ++ [headItem m])) = Ok (Some nb) ∧ nb_manifest nb = m ∧ entries nb = pairs (all ++ [headItem m]) ∧
    ∀ i meta, i ∈ all → isDescription i = true → Unmarshal i.2 ≫= decodeImage = Some meta → shown (chatImages nb) (im_ChatID meta) (im_ID meta).
Proof.
  intros Hf Hn Ht Hl Hfiles Hfo Hv Hr Hd Hrel Htally. unfold openNativeBackup. rewrite fmap_app. cbn [fmap list_fmap].
  rewrite manifest_last by (rewrite Forall_forall in Hf; intros i Hi; by apply Hf). rewrite head_names by done. cbn [negb].
  change [entryOf (headItem m)] with (entryOf <$> [headItem m]). rewrite <- fmap_app. pose proof (nodup_all all m Hf Hn) as Hna.
  rewrite gather_written; [|by apply fitting_all|done|intros; apply lookup_empty|done|rewrite total_app; cbn; lia]. cbn [mbind result_bind].
  rewrite map_union_empty. unfold decodeEntry. rewrite readEntry_entry by (cbn [headItem snd]; unfold maxBackupManifestBytes, maxArchiveJSONEntry in *; lia).
  cbn [mbind result_bind headItem snd]. rewrite parse_raw. cbn [mbind option_bind]. rewrite manifest_decodes by done. cbn [mbind result_bind].
  rewrite Hv, !bool_decide_eq_false_2 by done. cbn [orb]. rewrite Hfiles, length_fmap.
  set (known := pairs (all ++ [headItem m])).
  destruct (checkFiles_ok m known all) with (im := ∅ : gmap string backupImage) (cim := ∅ : gmap string (list string))
    (c := noCounts <| c_Files := Z.of_nat (length all) |>) (L := ∅ : gset string) as (im' & cim' & Hc & _ & Hshown); [|done|intros; apply not_elem_of_empty|].
  { rewrite Forall_forall in Hf, Hd, Hrel |- *. intros i Hi. split_and!; [by apply Hf|apply pairs_lookup; [done|apply elem_of_app; by left]| |by apply Hrel].
    intros Hdi. destruct (Hd i Hi Hdi) as (meta & H1 & H2 & H3 & (j & Hj & Hj')%list_elem_of_fmap). exists meta. split_and!; try done.
    rewrite Hj. unfold known. rewrite pairs_lookup; [done..|apply elem_of_app; by left]. }
  rewrite Hc. cbn [mbind result_bind]. rewrite (union_empty_r_L (list_to_set all.*1)). rewrite size_list_to_set by done.
  unfold known. rewrite pairs_size by done. rewrite length_app, length_fmap. cbn [length]. rewrite bool_decide_eq_true_2 by done. cbn [negb].
  rewrite bool_decide_eq_true_2 by done. cbn [negb]. eexists. split_and!; [done..|]. cbn [chatImages]. exact Hshown.
Qed.

(** ** What a backup holds once it is opened *)

(** The chats of a kind, by the ids [chatData] finds them under. *)
Definition chatIDs (nb : nativeBackup) (kind : string) : result Api.err (list string) := mapM (λ f, fst <$> chatData f) (listed nb kind).
(** The bytes of an image, among its chat's. *)
Definition holdsImage (nb : nativeBackup) (chat id : string) (data : bytes) : Prop :=
  shown (chatImages nb) chat id ∧ ∃ f, entries nb !! BackupImagePath id ".bin" = Some f ∧ readEntry f maxArchiveImage = Ok data.
Definition listsOmission (nb : nativeBackup) (o : BackupOmission) : Prop := o ∈ mf_Omissions (nb_manifest nb).
(** What an entry is read as. *)
Definition holdsJSON (nb : nativeBackup) (name : string) (v : Api.any) : Prop :=
  ∃ f data, entries nb !! name = Some f ∧ readEntry f maxArchiveJSONEntry = Ok data ∧ Unmarshal data = Some v.
(** The links of the chats to their projects. *)
Definition linksProject (nb : nativeBackup) (l : string * string) : Prop :=
  ∃ f rel, entries nb !! relationshipsPath = Some f ∧ decodeEntry Unmarshal decodeRelationships f = Ok rel ∧ l ∈ r_ProjectChats rel.
Definition opened (nb : nativeBackup) : Account := mkAccount (holdsJSON nb) (holdsImage nb) (listsOmission nb) (linksProject nb).
Definition rowsOf {A} (f : CloudRows → list A) (c : option CloudRows) : list A := match c with Some c => f c | None => [] end.
Definition cloudIDs (rows : list chatRow) : list string := omap (λ r, match r with ChatRead t _ _ => Some (t_ID t) | _ => None end) rows.
Definition localIDs (cloud : list string) (threads : list (result Api.err Thread)) : list string :=
  omap (λ t, match t with Ok t => if bool_decide (t_ID t ∈ cloud) then None else Some (t_ID t) | Err _ => None end) threads.

Lemma cloudKinds_cloud c : k_cloud (cloudKinds c) = cloudIDs (rowsOf chatRows c).
Proof.
  destruct c as [c|]; [|done]. cbn. rewrite projects_cloudless by done. cbn [app]. induction (chatRows c) as [|r l IH]; [done|]. destruct r; cbn; [exact IH|]. by rewrite IH.
Qed.
Lemma cloudKinds_local c : k_local (cloudKinds c) = [].
Proof.
  destruct c as [c|]; [|done]. cbn. assert (∀ k, k_local k = [] → k_local (foldl (λ k r, plus k (projectKinds r)) k (projectRows c)) = []) as H.
  { induction (projectRows c) as [|r l IH]; intros k Hk; [done|]. cbn. apply IH. cbn. rewrite Hk. by destruct r as [|? ? []]. }
  rewrite H by done. induction (chatRows c) as [|r l IH]; [done|]. by destruct r.
Qed.
Lemma local_plus cloud threads k : let k' := foldl (λ k t, plus k (localKinds cloud t)) k threads in
  k_cloud k' = k_cloud k ∧ k_local k' = k_local k ++ localIDs cloud threads ∧ k_projects k' = k_projects k ∧ k_documents k' = k_documents k.
Proof.
  revert k. induction threads as [|t threads IH]; intros k; cbn; [by rewrite app_nil_r|].
  destruct (IH (plus k (localKinds cloud t))) as (-> & -> & -> & ->). cbn. destruct t as [t|]; cbn; [case_bool_decide|]; cbn; rewrite ?app_nil_r; [done| |done].
  by rewrite <- app_assoc.
Qed.
Definition documentIDs (rows : list projectRow) : list (string * string) := rows ≫= λ r, k_documents (projectKinds r).
Lemma documents_plus_rows rows k : let k' := foldl (λ k r, plus k (projectKinds r)) k rows in
  k_documents k' = k_documents k ++ documentIDs rows.
Proof.
  revert k. induction rows as [|r rows IH]; intros k; [cbn; by rewrite app_nil_r|]. cbn [foldl]. cbv zeta in IH. rewrite IH. cbn. by rewrite <- app_assoc.
Qed.
Lemma cloudKinds_projects c : k_projects (cloudKinds c) = projectIDs (rowsOf projectRows c) ∧ k_documents (cloudKinds c) = documentIDs (rowsOf projectRows c).
Proof.
  destruct c as [c|]; [|done]. cbn [cloudKinds plus k_projects k_documents rowsOf]. rewrite (projects_plus (projectRows c) noKinds), (documents_plus_rows (projectRows c) noKinds). cbn [noKinds k_projects k_documents app].
  assert (k_projects (foldr (λ r k, plus (chatRowKinds r) k) noKinds (chatRows c)) = [] ∧ k_documents (foldr (λ r k, plus (chatRowKinds r) k) noKinds (chatRows c)) = []) as [-> ->].
  { induction (chatRows c) as [|r l [IH1 IH2]]; [done|]. cbn. rewrite IH1, IH2. by destruct r. }
  by rewrite !app_nil_r.
Qed.

(** What is written up to the relationships. *)
Lemma writeBackup_steps cloud threads originals id created b :
  from_option cloudFit True cloud → Forall localCounted threads → writeBackup cloud threads originals id created = Ok b →
  ∃ k items s s', Whole k items s ∧ length (r_ProjectChats s.2) ≤ length (k_cloud k) ∧ k_cloud k = cloudIDs (rowsOf chatRows cloud) ∧
    k_local k = localIDs (k_cloud k) threads ∧
    k_projects k = projectIDs (rowsOf projectRows cloud) ∧ k_documents k = documentIDs (rowsOf projectRows cloud) ∧
    (∀ c, cloud = Some c → accountsCloud (so_far s) c) ∧ (∀ t, t ∈ threads → accountsLocal (so_far s) originals (k_cloud k) t) ∧
    adding (addJSON "relationships" relationshipsPath (relationshipsObject s.2)) s = Ok s' ∧
    close id created (onCounts (λ c, c <| c_Relationships := count s'.2 |>) s'.1) = Ok b.
Proof.
  intros Hc Hl. unfold writeBackup. set (s0 := (NewBackupWriter, mkRelationships [] [] [])).
  assert (∀ st, match cloud with Some c => writeCloud c s0 | None => Ok (s0, ∅) end = Ok st →
    cloudInside (cloudKinds cloud) st ∧ ∀ c, cloud = Some c → accountsCloud (so_far st.1) c) as Hstart.
  { destruct cloud as [c|]; [intros st Hst; split; [|intros c' [= <-]]; by apply writeCloud_whole|]. intros st [= <-]. split; [|done]. split; [apply start_inside|]. cbn. split; [set_solver|lia]. }
  destruct (match cloud with Some c => _ | None => _ end) as [[s1 set]|]; [|done]. destruct (Hstart _ eq_refl) as [(H1 & Hset & Hlen) Hk]. cbn [fst snd] in *.
  cbn [mbind result_bind]. destruct (walk (writeLocalChat originals set) _ _ _) as [[s2 u]|] eqn:Hw; [|done]. cbn [mbind result_bind].
  destruct (adding _ s2) as [s3|] eqn:Ha; [|done]. cbn [mbind result_bind]. intros Hclose. rewrite Forall_forall in Hl.
  destruct (walk_each inside within (λ _ t s, accountsLocal (so_far s) originals (k_cloud (cloudKinds cloud)) t) (λ k t, plus k (localKinds (k_cloud (cloudKinds cloud)) t))
    (writeLocalChat originals set) threads) with 0 (cloudKinds cloud) s1 s2 u as ([items H2] & Hw2 & Hk2); try done.
  { intros i t g s s' b' Hin Hg Hs. eapply writeLocalChat_whole; [done|by apply Hl|done|done]. }
  { intros i t s s' Ht [Hg _]. eapply local_mono; [by apply grows_covers|done]. }
  destruct (local_plus (k_cloud (cloudKinds cloud)) threads (cloudKinds cloud)) as (Hcl & Hlo & Hpr & Hdo). rewrite cloudKinds_local in Hlo.
  destruct (cloudKinds_projects cloud) as [Hp Hd]. rewrite Hp in Hpr. rewrite Hd in Hdo.
  exists (foldl (λ k t, plus k (localKinds (k_cloud (cloudKinds cloud)) t)) (cloudKinds cloud) threads), items, s2, s3. rewrite Hcl. split_and!; try done.
  - destruct Hw2 as [_ ->]. done.
  - apply cloudKinds_cloud.
  - intros c Hcc. eapply cloud_mono; [apply grows_covers, Hw2|by apply Hk].
  - intros t [i Hi]%list_elem_of_lookup. by eapply (Hk2 i).
Qed.

Lemma entity_inj kind a b : BackupEntityPath kind a = BackupEntityPath kind b → a = b.
Proof.
  unfold BackupEntityPath. cbn [Join]. intros H%(f_equal bytes_of). rewrite !bytes_of_append in H. unfold idComponent in H. rewrite !bytes_of_append in H.
  apply app_inv_head, app_inv_head, app_inv_tail, app_inv_head in H.
  assert (EncodeToString (bytes_of a) = EncodeToString (bytes_of b)) as He by (by rewrite <- (string_of_bytes (EncodeToString (bytes_of a))), H, string_of_bytes).
  apply (f_equal DecodeString) in He. rewrite !hex_roundtrip in He. injection He as He. by rewrite <- (string_of_bytes a), He, string_of_bytes.
Qed.
Lemma ofKind_elem kind items i : i ∈ ofKind kind items → i ∈ items ∧ BackupKind i.1 = kind.
Proof. unfold ofKind. intros [H1 H2%String.eqb_eq]%filter_incl. done. Qed.
Lemma ofKind_length kind items : length (ofKind kind items) ≤ length items.
Proof. unfold ofKind. apply List.filter_length_le. Qed.
Lemma listed_items nb (all : list item) m kind : nb_manifest nb = m → mf_Files m = fileOf <$> all → (∀ i, i ∈ all → entries nb !! i.1 = Some (entryOf i)) →
  listed nb kind = entryOf <$> ofKind kind all.
Proof.
  intros Hm Hf He. unfold listed. rewrite Hm, Hf. clear Hf. induction all as [|i all IH]; [done|]. cbn [fmap list_fmap omap list_omap].
  rewrite ofKind_cons. cbn [bf_Kind bf_Path fileOf]. destruct (String.eqb (BackupKind i.1) kind); [|apply IH; intros j Hj; apply He; by right].
  rewrite He by (by left). cbn. f_equal. apply IH. intros j Hj. apply He. by right.
Qed.
Lemma chatData_item (i : item) : fitting i → BackupKind i.1 ∈ ["cloud_chats"; "local_chats"]%string → chatItem i →
  ∃ id, chatData (entryOf i) = Ok (id, i.2) ∧ i.1 = BackupEntityPath (BackupKind i.1) id.
Proof.
  intros (_ & _ & Hl) Hk Hi. destruct (Hi Hk) as (id & ms & Hid & Hu & Hp). exists id. split; [|done]. unfold chatData. 
  rewrite readEntry_entry by (etrans; [exact Hl|apply limit_json]). cbn [mbind result_bind]. rewrite Hu. cbn [mbind option_bind structOf].
  change (textOf (Api.AObj (("id"%string, Api.AStr id) :: ms)) "id") with (Some id). cbn [mbind option_bind].
  change (Name (entryOf i)) with i.1. rewrite (proj2 (String.eqb_neq id "")), <- Hp, String.eqb_refl by done. done.
Qed.
Lemma chatIDs_items nb kind (items : list item) ids : listed nb kind = entryOf <$> items → kind ∈ ["cloud_chats"; "local_chats"]%string →
  Forall (λ i, fitting i ∧ chatItem i ∧ BackupKind i.1 = kind) items → items.*1 = BackupEntityPath kind <$> ids → chatIDs nb kind = Ok ids.
Proof.
  intros Hl Hk. unfold chatIDs. rewrite Hl. clear Hl. revert ids. induction items as [|i items IH]; intros ids Hf Hn; [by destruct ids|].
  destruct ids as [|id ids]; [done|]. rewrite !fmap_cons in Hn. injection Hn as Hid Hn. apply Forall_cons in Hf as [(Hfi & Hci & Hki) Hf].
  destruct (chatData_item i Hfi ltac:(by rewrite Hki) Hci) as (id' & Hd & Hp). rewrite Hki in Hp. rewrite fmap_cons. cbn [mapM]. rewrite Hd. cbn [fmap result_fmap mbind result_bind fst].
  rewrite (IH ids) by done. cbn. f_equal. f_equal. apply (entity_inj kind). by rewrite <- Hp.
Qed.
Lemma whole_lengths k items s : Whole k items s → length (k_projects k) ≤ length items ∧ length (k_documents k) ≤ length items ∧
  length (k_cloud k) ≤ length items ∧ length (k_local k) ≤ length items ∧ length (List.filter isDescription items) ≤ length items.
Proof.
  intros H. pose proof (f_equal length (h_projects _ _ _ H)) as H1. pose proof (f_equal length (h_documents _ _ _ H)) as H2.
  pose proof (f_equal length (h_cloud _ _ _ H)) as H3. pose proof (f_equal length (h_local _ _ _ H)) as H4. rewrite !length_fmap in *.
  pose proof (ofKind_length "projects" items). pose proof (ofKind_length "project_documents" items). pose proof (ofKind_length "cloud_chats" items).
  pose proof (ofKind_length "local_chats" items). pose proof (List.filter_length_le isDescription items). lia.
Qed.

(** The closing of a backup, with its relationships, is opened. *)
Lemma closed_opened k items s s' id created b : Whole k items s → length (r_ProjectChats s.2) ≤ length (k_cloud k) →
  adding (addJSON "relationships" relationshipsPath (relationshipsObject s.2)) s = Ok s' →
  close id created (onCounts (λ c, c <| c_Relationships := count s'.2 |>) s'.1) = Ok b → inRange (Z.of_nat (length (mf_Omissions (manifest b)))) →
  let rel := (relationshipsPath, Raw (relationshipsObject s.2)) in
  let all := items ++ [rel] in
  mf_Omissions (manifest b) = mf_Omissions (manifest s.1) ∧ mf_Files (manifest b) = fileOf <$> all ∧ Forall fitting all ∧ NoDup all.*1 ∧
  ∃ nb, openNativeBackup (zip b) = Ok (Some nb) ∧ nb_manifest nb = manifest b ∧ entries nb = pairs (all ++ [headItem (manifest b)]) ∧
    ∀ i meta, i ∈ all → isDescription i = true → Unmarshal i.2 ≫= decodeImage = Some meta → shown (chatImages nb) (im_ChatID meta) (im_ID meta).
Proof.
  intros H Hlinks Ha Hc Hom rel all.
  destruct (adding_step _ _ _ _ _ _ (h_written _ _ _ H) (namedAs_ext _ _ _ relationships_named) Ha) as (Hw & Hcounts & Hs & [[_ [o Ho]] _] & _).
  fold rel in Hw. fold all in Hw. assert (mf_Omissions (manifest s'.1) = mf_Omissions (manifest s.1)) as Homs.
  { revert Ha. unfold adding, addJSON. destruct (Add _ _ _ _) as [b'|] eqn:Hadd; [|done]. cbn. intros [= <-]. cbn.
    rewrite <- (proj1 (proj2 relationships_named)) in Hadd. destruct (Add_written _ _ relationshipsPath _ _ (h_written _ _ _ H) ltac:(done) ltac:(done) Hadd) as (_ & _ & Ho'). exact Ho'. }
  set (m := closed id created (manifest (onCounts (λ c, c <| c_Relationships := count s'.2 |>) s'.1))).
  unfold close in Hc. set (b1 := _ <| manifest ::= _ |>) in Hc. assert (Written all b1) as Hw1 by (destruct Hw; by split).
  change (manifest b1) with m in Hc. destruct (write_written _ _ _ _ maxBackupManifestBytes _ Hw1 ltac:(done) Hc) as (Hz & Hm & _ & Hex & Hb & Hl).
  change (manifest b1) with m in Hm. assert (mf_Files m = fileOf <$> all) as Hfiles by apply (w_files _ _ Hw).
  assert (mf_Omissions m = mf_Omissions (manifest s.1)) as Hmo by exact Homs. rewrite Hm.
  destruct (whole_lengths _ _ _ H) as (L1 & L2 & L3 & L4 & L5). pose proof (w_length _ _ Hw) as Hlen. unfold all in Hlen. rewrite length_app in Hlen. cbn in Hlen.
  destruct (h_links _ _ _ H) as [Hrd Hri]. unfold maxArchiveEntries in Hlen.
  assert (mf_Counts m = mkCounts (Z.of_nat (length (k_projects k))) (Z.of_nat (length (k_documents k))) (Z.of_nat (length (k_cloud k)))
    (Z.of_nat (length (k_local k))) (count s.2) (Z.of_nat (length (List.filter isDescription items))) (Z.of_nat (length all))) as Hmc.
  { unfold m. cbn. rewrite (w_files _ _ Hw), length_fmap, Hcounts, (h_counts _ _ _ H), Hs. done. }
  split_and!; [done|done|apply Hw|apply Hw|]. rewrite Hz. change (zip b1) with (zip s'.1). rewrite (w_zip _ _ Hw).
  change [entryOf (ManifestPath, Raw (manifestObject m))] with (entryOf <$> [headItem m]). rewrite <- fmap_app.
  apply open_written; [apply Hw|apply Hw|lia|done|done|apply (w_format _ _ Hw)|apply (w_format _ _ Hw)|..].
  - split_and!; [by rewrite (proj2 (w_format _ _ Hw1) : mf_Version m = _)| | |].
    + rewrite Hmc. unfold countsRange, inRange, min_int, max_int, count, all. cbn. rewrite Hrd, Hri, length_app. cbn. lia.
    + rewrite Hfiles. apply Forall_fmap. eapply Forall_impl; [apply (w_fit _ _ Hw)|]. intros i (_ & _ & Hi). cbn. pose proof (limit_bound i.1). unfold inRange, min_int, max_int. lia.
    + pose proof (List.filter_length_le isRelationship (mf_Omissions m)). pose proof (List.filter_length_le (λ o, negb (isRelationship o)) (mf_Omissions m)).
      rewrite Hm in Hom. unfold inRange, min_int, max_int in *. cbn [mf_Warnings m closed]. change (mf_Omissions m) with (mf_Omissions (manifest s'.1)) in *.
      apply Forall_app. split; case_bool_decide; try apply Forall_nil; try done; apply Forall_singleton; cbn; lia.
  - apply Forall_app. split; [|by apply Forall_singleton]. eapply Forall_impl; [apply (h_images _ _ _ H)|]. intros i Hi Hd. destruct (Hi Hd) as (meta & Hmeta).
    exists meta. eapply describes_more; [|done]. unfold all. rewrite fmap_app. set_solver.
  - apply Forall_app. split; [|apply Forall_singleton; intros _; change (is_Some (Unmarshal (Raw (relationshipsObject s.2)) ≫= decodeRelationships)); rewrite parse_raw; cbn [mbind option_bind]; by rewrite relationships_decode].
    apply Forall_forall. intros i Hi Hk. exfalso. pose proof (h_relationships _ _ _ H) as Hr. apply (not_elem_of_nil i). rewrite <- Hr. unfold ofKind.
    apply filter_incl. split; [done|]. by apply String.eqb_eq.
  - unfold all at 2. rewrite foldl_app, (tally_sum items).
    + rewrite Hmc. cbn [foldl]. unfold tally. cbn [fst snd rel]. change (BackupKind relationshipsPath) with "relationships"%string. cbn [String.eqb Ascii.eqb Bool.eqb].
      rewrite parse_raw. cbn [mbind option_bind]. rewrite relationships_decode. cbn. pose proof (f_equal length (h_projects _ _ _ H)) as H1. pose proof (f_equal length (h_documents _ _ _ H)) as H2.
      pose proof (f_equal length (h_cloud _ _ _ H)) as H3. pose proof (f_equal length (h_local _ _ _ H)) as H4. rewrite !length_fmap in *. f_equal; lia.
    + intros i Hi Hk. pose proof (h_relationships _ _ _ H) as Hr. apply (not_elem_of_nil i). rewrite <- Hr. unfold ofKind.
      apply filter_incl. split; [done|]. by apply String.eqb_eq.
Qed.
End Read.

Section Opened.
Context (items : list item) (s : State) (nb : nativeBackup).
Hypothesis parse_raw : ∀ v, Unmarshal (Raw v) = Some v.
Hypothesis written_s : zip s.1 = entryOf <$> items.
Hypothesis fits : Forall fitting items.
Hypothesis known : ∀ i, i ∈ items → entries nb !! i.1 = Some (entryOf i).
Hypothesis described : ∀ i meta, i ∈ items → isDescription i = true → Unmarshal i.2 ≫= decodeImage = Some meta → shown (chatImages nb) (im_ChatID meta) (im_ID meta).
Hypothesis omissions : ∀ o, o ∈ mf_Omissions (manifest s.1) → listsOmission nb o.
Hypothesis linked : ∀ l, l ∈ r_ProjectChats s.2 → linksProject nb l.

Lemma entry_item i : entryOf i ∈ zip s.1 → i ∈ items.
Proof using written_s.
  rewrite written_s. intros (j & He & Hj)%list_elem_of_fmap. destruct i as [n d], j as [n' d']. unfold entryOf, writtenEntry in He. cbn in He. by injection He as <- _ <-.
Qed.
Lemma imageAt_holds chat id data : id ≠ ""%string → imageAt chat id data s → holdsImage nb chat id data.
Proof using parse_raw written_s fits known described.
  intros Hid (Hb%entry_item & meta & <- & <- & Hm & Hj%entry_item). split.
  - apply (described _ meta Hj).
    + destruct (image_named (im_ID meta) "json" ltac:(by left) Hid) as (_ & Hk & He & _). unfold isDescription. cbn [fst]. by rewrite Hk, He.
    + cbn [snd]. rewrite parse_raw. cbn [mbind option_bind]. by apply image_decodes.
  - exists (entryOf (BackupImagePath (im_ID meta) ".bin", data)). split; [by apply (known _ Hb)|]. apply readEntry_entry. cbn [snd].
    rewrite Forall_forall in fits. destruct (fits _ Hb) as (_ & _ & Hl). unfold backupEntryLimit in Hl. cbn [fst snd] in Hl.
    destruct (image_named (im_ID meta) "bin" ltac:(right; by left) Hid) as (_ & _ & He & _). by rewrite He in Hl.
Qed.
Lemma written_holds name v : writtenAs s name v → holdsJSON nb name v.
Proof using parse_raw written_s fits known.
  intros Hi%entry_item. exists (entryOf (name, Raw v)), (Raw v). split_and!; [by apply (known _ Hi)| |by apply parse_raw].
  apply readEntry_entry. rewrite Forall_forall in fits. destruct (fits _ Hi) as (_ & _ & Hl). etrans; [exact Hl|apply limit_json].
Qed.
Lemma opened_covers : covers (so_far s) (opened nb).
Proof using All. split; cbn; [apply written_holds|apply imageAt_holds|done|done]. Qed.
End Opened.

(** C14. A backup that was written is one a restore opens, checks included: it
    finds the projects, documents and chats that could be read, each once
    and in order.  The entry of each project and document is read as what
    was given; that of each chat as the chat with every one of its messages
    in order, and of each message the attachments that could be read, a
    document's with its pages; each image of a message or a page is there
    under its place in its chat with its bytes; a chat is linked to its
    project, or loses one that is not there.  Whatever was left out, the
    manifest lists: a row, a document's row, an attachment or the image of a
    page that could not be read, a link to a project that is not there, and
    a chat of the device that the cloud has. *)
Theorem backup_opened cloud threads originals id created b :
  (∀ v, Unmarshal (Raw v) = Some v) → from_option cloudFit True cloud → Forall localCounted threads →
  writeBackup cloud threads originals id created = Ok b → inRange (Z.of_nat (length (mf_Omissions (manifest b)))) →
  ∃ nb, openNativeBackup (zip b) = Ok (Some nb) ∧ nb_manifest nb = manifest b ∧
    chatIDs nb "cloud_chats" = Ok (cloudIDs (rowsOf chatRows cloud)) ∧
    chatIDs nb "local_chats" = Ok (localIDs (cloudIDs (rowsOf chatRows cloud)) threads) ∧
    Name <$> listed nb "projects" = BackupEntityPath "projects" <$> projectIDs (rowsOf projectRows cloud) ∧
    Name <$> listed nb "project_documents" = (λ d, BackupDocumentPath d.1 d.2) <$> documentIDs (rowsOf projectRows cloud) ∧
    (∀ c, cloud = Some c →
       (∀ r, r ∈ projectRows c → accountsProject (opened nb) r) ∧
       (∀ r, r ∈ chatRows c → accountsChat (opened nb) (projectIDs (projectRows c)) r)) ∧
    (∀ t, t ∈ threads → accountsLocal (opened nb) originals (cloudIDs (rowsOf chatRows cloud)) t).
Proof.
  intros parse_raw Hc Hl Hw Hom.
  destruct (writeBackup_steps parse_raw _ _ _ _ _ _ Hc Hl Hw) as (k & items & s & s' & H & Hlen & Hkc & Hkl & Hkp & Hkd & Hkept & Hkt & Ha & Hcl).
  destruct (closed_opened parse_raw k items s s' id created b H Hlen Ha Hcl Hom) as (Ho & Hf & Hfit & Hnd & nb & Hopen & Hm & He & Hd).
  set (rel := (relationshipsPath, Raw (relationshipsObject s.2))) in *.
  assert (∀ i, i ∈ items ++ [rel] → entries nb !! i.1 = Some (entryOf i)) as Hknown.
  { intros i Hi. rewrite He. apply pairs_lookup; [by apply nodup_all|]. apply elem_of_app. by left. }
  assert (∀ kind, kind ≠ "relationships"%string → listed nb kind = entryOf <$> ofKind kind items) as Hlisted.
  { intros kind Hk. rewrite (listed_items nb (items ++ [rel]) (manifest b)) by done. rewrite ofKind_app. replace (ofKind kind [rel]) with (@nil item); [by rewrite app_nil_r|].
    rewrite ofKind_cons. change (BackupKind rel.1) with "relationships"%string. by rewrite (proj2 (String.eqb_neq _ _)) by congruence. }
  apply Forall_app in Hfit as [Hfi Hrel]. rewrite Forall_singleton in Hrel.
  assert (∀ kind, kind ∈ ["cloud_chats"; "local_chats"]%string → Forall (λ i, fitting i ∧ chatItem i ∧ BackupKind i.1 = kind) (ofKind kind items)) as Hkinds.
  { intros kind _. apply Forall_forall. intros i [Hi Hk]%ofKind_elem. pose proof (h_chats _ _ _ H) as Hci. rewrite Forall_forall in Hfi. rewrite Forall_forall in Hci.
    split_and!; [by apply Hfi|exact (Hci i Hi)|done]. }
  assert (∀ kind, Name <$> (entryOf <$> ofKind kind items) = (ofKind kind items).*1) as Hnames by (intros kind; by rewrite <- list_fmap_compose).
  assert (covers (so_far s) (opened nb)) as Hcov.
  { apply (opened_covers items); [done|apply (h_written _ _ _ H)|done|intros i Hi; apply Hknown, elem_of_app; by left| | |].
    - intros i meta Hi. apply Hd, elem_of_app. by left.
    - intros o. unfold listsOmission. by rewrite Hm, Ho.
    - intros l Hl'. exists (entryOf rel), s.2. split_and!; [by apply (Hknown rel), elem_of_app; right; left| |done].
      apply decode_written; [apply Hrel|]. cbn [rel snd]. rewrite parse_raw. cbn [mbind option_bind]. by apply relationships_decode. }
  rewrite <- Hkc. exists nb. split_and!; [done|done|..].
  - apply (chatIDs_items nb _ (ofKind "cloud_chats" items)); [by apply Hlisted|set_solver|apply Hkinds; set_solver|apply H].
  - rewrite <- Hkl. apply (chatIDs_items nb _ (ofKind "local_chats" items)); [by apply Hlisted|set_solver|apply Hkinds; set_solver|apply H].
  - rewrite Hlisted, Hnames, <- Hkp by done. apply H.
  - rewrite Hlisted, Hnames, <- Hkd by done. apply H.
  - intros c Hcc. eapply cloud_mono; [exact Hcov|by apply Hkept].
  - intros t Ht. eapply local_mono; [exact Hcov|by apply Hkt].
Qed.

(** ** What is known of an archive that was opened *)

Fixpoint expansion (files : list File) : Z := match files with [] => 0 | f :: files => UncompressedSize64 f + expansion files end.
Definition accepted (f : File) : Prop :=
  safeEntryName f = true ∧ Encrypted f = false ∧ backupPaths (Name f) = true ∧ (UncompressedSize64 f ≤ backupEntryLimit (Name f))%Z.
Lemma gather_inv files known sz known' : Forall (λ f, 0 ≤ UncompressedSize64 f)%Z files → (0 ≤ sz ≤ MaxArchiveExpansion)%Z → gather files known sz = Ok known' →
  Forall accepted files ∧ NoDup (Name <$> files) ∧ (∀ f, f ∈ files → known !! Name f = None) ∧ (sz + expansion files ≤ MaxArchiveExpansion)%Z ∧
  (∀ f, f ∈ files → known' !! Name f = Some f) ∧ (∀ n, n ∉ Name <$> files → known' !! n = known !! n) ∧ size known' = size known + length files.
Proof.
  revert known sz. induction files as [|f files IH]; intros known sz Hpos Hsz; cbn [gather].
  - intros [= <-]. cbn. split_and!; try done; try (by intros f ?%not_elem_of_nil); try lia; apply NoDup_nil_2.
  - apply Forall_cons in Hpos as [Hp Hpos]. destruct (safeEntryName f) eqn:Hs; [|done]. destruct (Encrypted f) eqn:He; [done|].
    destruct (backupPaths (Name f)) eqn:Hb; [|done]. case_bool_decide as Hk; [done|]. cbn [negb orb].
    case_bool_decide as Hl; [done|]. case_bool_decide as Hm; [done|]. cbn [orb]. pose proof (limit_bound (Name f)) as Hlb.
    assert (add64 sz (UncompressedSize64 f) = sz + UncompressedSize64 f)%Z as Ha.
    { unfold add64. apply Z.mod_small. unfold MaxArchiveExpansion in Hsz. lia. }
    rewrite Ha in *. assert (known !! Name f = None) as Hkf by (destruct (known !! Name f); [by destruct Hk; eexists|done]).
    intros (H1 & H2 & H3 & H4 & H5 & H6 & H7)%IH; [|done|lia]. assert (Name f ∉ Name <$> files) as Hfresh.
    { intros (g & Hg & Hin)%list_elem_of_fmap. specialize (H3 g Hin). rewrite <- Hg, lookup_insert in H3. by case_decide. }
    split_and!.
    + constructor; [|done]. split_and!; try done. lia.
    + rewrite fmap_cons. by constructor.
    + intros g [->|Hg]%elem_of_cons; [done|]. specialize (H3 g Hg). by apply lookup_insert_None in H3 as [? _].
    + cbn. lia.
    + intros g [->|Hg]%elem_of_cons; [|by apply H5]. rewrite H6 by done. rewrite lookup_insert. by case_decide.
    + intros n Hn. rewrite fmap_cons, not_elem_of_cons in Hn. destruct Hn as [Hn1 Hn2]. rewrite H6 by done. by rewrite lookup_insert_ne.
    + rewrite H7, map_size_insert_None by done. cbn. lia.
Qed.

(** A file of the manifest, found as it is listed. *)
Definition foundAs (known : gmap string File) (file : backupFile) : Prop :=
  ∃ f data, known !! bf_Path file = Some f ∧ bf_Path file ≠ ManifestPath ∧ BackupKind (bf_Path file) = bf_Kind file ∧
    toInt64 (UncompressedSize64 f) = bf_SizeBytes file ∧ Contents f = Some (data, false) ∧ HashHex data = bf_SHA256 file.
(** An image, whose description and bytes are both there. *)
Definition imageFound (known : gmap string File) (id : string) (meta : backupImage) : Prop :=
  im_ID meta = id ∧ id ≠ ""%string ∧ (∃ f, known !! BackupImagePath id ".json" = Some f ∧ decodeEntry Unmarshal decodeImage f = Ok meta) ∧
  is_Some (known !! BackupImagePath id ".bin").
Definition named_alike (known : gmap string File) : Prop := ∀ n f, known !! n = Some f → Name f = n.
Definition checkedSoFar (known : gmap string File) (m : BackupManifest) (done : list backupFile) (s : Checked) : Prop :=
  let '(b, counts, paths) := s in
  nb_manifest b = m ∧ entries b = known ∧ Forall (foundAs known) done ∧ NoDup (bf_Path <$> done) ∧ paths = list_to_set (bf_Path <$> done) ∧
  (∀ id meta, images b !! id = Some meta → imageFound known id meta).
Lemma checked_none known m counts : checkedSoFar known m [] (mkBackup m known ∅ ∅, counts, ∅).
Proof. cbn. split_and!; try done; apply NoDup_nil_2 || (intros id meta; by rewrite lookup_empty). Qed.
Lemma checkFile_inv known m files s file s' : named_alike known → checkedSoFar known m files s → checkFile s file = Ok s' → checkedSoFar known m (files ++ [file]) s'.
Proof.
  intros Hal. destruct s as [[b counts] paths]. intros (Hm & He & Hf & Hn & Hp & Hi). unfold checkFile. rewrite He.
  destruct (known !! bf_Path file) as [f|] eqn:Hk; [|done]. case_bool_decide as Hin; [done|]. destruct (String.eqb_spec (bf_Path file) ManifestPath); [done|].
  destruct (String.eqb_spec (BackupKind (bf_Path file)) (bf_Kind file)) as [Hkind|]; [|done]. case_bool_decide as Hsz; [|done]. cbn [negb orb].
  destruct (checkEntryHash f (bf_SHA256 file)) as [u|] eqn:Hh; [|done]. cbn [mbind result_bind].
  assert (foundAs known file) as Hfound.
  { unfold checkEntryHash in Hh. destruct (Contents f) as [[data []]|] eqn:Hc; [done| |done]. cbn in Hh.
    destruct (String.eqb_spec (HashHex data) (bf_SHA256 file)) as [Heq|]; [|done]. exists f, data. by split_and!. }
  assert (∀ b' c', nb_manifest b' = m → entries b' = known → (∀ id meta, images b' !! id = Some meta → imageFound known id meta) →
    checkedSoFar known m (files ++ [file]) (b', c', {[bf_Path file]} ∪ paths)) as Hnext.
  { intros b' c' Hm' He' Hi'. split_and!; [done|done|apply Forall_app; split; [done|by apply Forall_singleton]| | |done].
    - rewrite fmap_app. apply NoDup_app. split_and!; [done| |apply NoDup_singleton]. intros x Hx ->%list_elem_of_singleton.
      apply Hin. rewrite Hp. by apply elem_of_list_to_set.
    - rewrite Hp, fmap_app. cbn. set_solver. }
  destruct (String.eqb (bf_Kind file) "projects"); [intros [= <-]; by apply Hnext|]. destruct (String.eqb (bf_Kind file) "project_documents"); [intros [= <-]; by apply Hnext|].
  destruct (String.eqb (bf_Kind file) "cloud_chats"); [intros [= <-]; by apply Hnext|]. destruct (String.eqb (bf_Kind file) "local_chats"); [intros [= <-]; by apply Hnext|].
  destruct (String.eqb (bf_Kind file) "images").
  - destruct (String.eqb (Importer.pathExt (bf_Path file)) ".json"); [|intros [= <-]; by apply Hnext].
    unfold readImage. destruct (decodeEntry _ _ f) as [meta|] eqn:Hd; [|done]. cbn [mbind result_bind].
    destruct (String.eqb_spec (im_ID meta) ""); [done|]. destruct (String.eqb_spec (BackupImagePath (im_ID meta) ".json") (Name f)) as [Hpath|]; [|done]. cbn [negb orb].
    case_bool_decide as Hbin; [done|]. intros [= <-]. apply Hnext; [done|done|]. cbn [images]. intros id meta'. rewrite lookup_insert_Some. intros [[<- <-]|[_ Hid]]; [|by apply Hi].
    split_and!; [done|done| |].
    + exists f. split; [|done]. rewrite Hpath, (Hal _ _ Hk). done.
    + by rewrite He in Hbin; apply not_eq_None_Some.
  - destruct (String.eqb (bf_Kind file) "relationships"); [|intros [= <-]; by apply Hnext].
    destruct (decodeEntry _ _ f); [|done]. cbn [mbind result_bind]. intros [= <-]. by apply Hnext.
Qed.
Lemma checkFiles_inv known m files more s s' : named_alike known → checkedSoFar known m files s → checkFiles s more = Ok s' → checkedSoFar known m (files ++ more) s'.
Proof.
  intros Hal. revert files s. induction more as [|file more IH]; intros files s Hs; cbn [checkFiles]; [intros [= <-]; by rewrite app_nil_r|].
  destruct (checkFile s file) as [s1|] eqn:H1; [|done]. cbn [mbind result_bind]. intros H2.
  pose proof (checkFile_inv _ _ _ _ _ _ Hal Hs H1) as Hs1. replace (files ++ file :: more) with ((files ++ [file]) ++ more) by (by rewrite <- app_assoc). by eapply IH.
Qed.

Lemma manifestFile_in files head : manifestFile files = Some head → head ∈ files ∧ Name head = ManifestPath.
Proof.
  clear sink. unfold manifestFile. assert (∀ l found, (∀ f, found = Some f → f ∈ files ∧ Name f = ManifestPath) → l ⊆ files →
    foldl (λ found f, if String.eqb (Name f) ManifestPath then Some f else found) found l = Some head → head ∈ files ∧ Name head = ManifestPath) as H.
  { induction l as [|f l IH]; intros found Hfound Hl; cbn [foldl]; [apply Hfound|]. apply IH; [|set_solver].
    destruct (String.eqb_spec (Name f) ManifestPath) as [He|]; [|done]. intros g [= <-]. split; [set_solver|done]. }
  by apply (H files None).
Qed.

(** C15. An archive taken for a backup is one whose every entry is named once,
    by a name of the backup's own that stays inside it, within the limits of
    an entry and of the whole; whose manifest lists every entry but itself,
    once and under its kind, by the size and the hash of what it holds; and
    whose images are each described beside their bytes. *)
Theorem backup_checked files nb : Forall (λ f, 0 ≤ UncompressedSize64 f)%Z files → openNativeBackup files = Ok (Some nb) →
  NoDup (Name <$> files) ∧ (expansion files ≤ MaxArchiveExpansion)%Z ∧
  (∀ f, f ∈ files → Importer.below (Name f) ∧ backupPaths (Name f) = true ∧ Encrypted f = false ∧ (UncompressedSize64 f ≤ backupEntryLimit (Name f))%Z ∧
     entries nb !! Name f = Some f) ∧
  (∀ f, f ∈ files → Name f = ManifestPath ∨ Name f ∈ bf_Path <$> mf_Files (nb_manifest nb)) ∧ NoDup (bf_Path <$> mf_Files (nb_manifest nb)) ∧
  (∀ file, file ∈ mf_Files (nb_manifest nb) → ∃ f data, f ∈ files ∧ Name f = bf_Path file ∧ Name f ≠ ManifestPath ∧ bf_Kind file = BackupKind (Name f) ∧
     Contents f = Some (data, false) ∧ bf_SHA256 file = HashHex data ∧ bf_SizeBytes file = UncompressedSize64 f) ∧
  (∀ id meta, images nb !! id = Some meta → imageFound (entries nb) id meta).
Proof.
  intros Hpos. unfold openNativeBackup. destruct (manifestFile files) as [head|] eqn:Hhead; [|done]. destruct (namesBackup head); [|done]. cbn [negb].
  destruct (gather files ∅ 0) as [known|] eqn:Hg; [|done]. cbn [mbind result_bind].
  destruct (decodeEntry _ _ head) as [m|] eqn:Hm; [|done]. cbn [mbind result_bind]. destruct (_ || _); [done|].
  destruct (checkFiles _ _) as [[[b counts] paths]|] eqn:Hc; [|done]. cbn [mbind result_bind].
  case_bool_decide as Hsz; [|done]. cbn [negb]. destruct (negb _); [done|]. intros [= <-].
  destruct (gather_inv _ _ _ _ Hpos ltac:(done) Hg) as (Hacc & Hnd & _ & Hexp & Hknown & Hother & Hsize). rewrite map_size_empty in Hsize.
  assert (∀ n f, known !! n = Some f → f ∈ files ∧ Name f = n) as Hin.
  { intros n f Hn. destruct (decide (n ∈ Name <$> files)) as [(g & -> & Hgf)%list_elem_of_fmap|Hno]; [|by rewrite Hother in Hn by done].
    rewrite Hknown in Hn by done. by injection Hn as <-. }
  destruct (checkFiles_inv known m [] (mf_Files m) _ _ ltac:(intros n f Hn; by apply Hin) (checked_none known m _) Hc)
    as (Hbm & Hbe & Hfound & Hpaths & -> & Himages). cbn [app] in *. rewrite Hbm, Hbe. rewrite Forall_forall in Hacc. rewrite Forall_forall in Hfound.
  assert (∀ file, file ∈ mf_Files m → ∃ f data, f ∈ files ∧ Name f = bf_Path file ∧ Name f ≠ ManifestPath ∧ bf_Kind file = BackupKind (Name f) ∧
    Contents f = Some (data, false) ∧ bf_SHA256 file = HashHex data ∧ bf_SizeBytes file = UncompressedSize64 f) as Hlist.
  { intros file (f & data & Hk & Hne & Hkind & Hint & Hcon & Hhash)%Hfound. destruct (Hin _ _ Hk) as [Hff Hname]. exists f, data.
    rewrite Hname. split_and!; try done. rewrite <- Hint. destruct (Hacc f Hff) as (_ & _ & _ & Hl). pose proof (limit_bound (Name f)).
    unfold toInt64. rewrite bool_decide_eq_true_2; [done|lia]. }
  split_and!; [done|lia| | |done|done|done].
  - intros f Hf. destruct (Hacc f Hf) as (Hs & He & Hb & Hl). split_and!; [|done..|by apply Hknown]. apply safe_below; [done|]. intros Hd. by rewrite Hd in Hb.
  - intros f Hf. destruct (decide (Name f ∈ bf_Path <$> mf_Files m)) as [|Hno]; [by right|left]. destruct (decide (Name f = ManifestPath)) as [|Hnm]; [done|exfalso].
    assert (length (bf_Path <$> mf_Files m) + 2 ≤ length files) as Hlen.
    { assert (head ∈ files ∧ Name head = ManifestPath) as [Hhf Hhn] by (by apply manifestFile_in).
      assert ((Name f :: ManifestPath :: (bf_Path <$> mf_Files m)) ⊆+ (Name <$> files)) as Hsub.
      { apply NoDup_submseteq.
        - constructor; [rewrite not_elem_of_cons; done|]. constructor; [|done]. intros (file & Hp & Hfile)%list_elem_of_fmap.
          destruct (Hlist file Hfile) as (g & _ & _ & Hgn & Hgm & _). congruence.
        - intros n. rewrite !elem_of_cons. intros [->|[->|(file & -> & Hfile)%list_elem_of_fmap]].
          + by apply list_elem_of_fmap_2.
          + rewrite <- Hhn. by apply list_elem_of_fmap_2.
          + destruct (Hlist file Hfile) as (g & _ & Hgf & <- & _). by apply list_elem_of_fmap_2. }
      apply submseteq_length in Hsub. rewrite length_fmap in Hsub. cbn in Hsub. lia. }
    rewrite size_list_to_set in Hsz by done. lia.
Qed.
End Writer.

(** ** Concrete inputs *)

(** A checksum in place of a digest. *)
Definition checksum (b : bytes) : string := pretty (foldl (λ n c, (31 * n + Z.of_N (N_of_ascii c)) mod 65521)%Z 7%Z b).
Definition pngType (_ : bytes) : string := "image/png".
Definition samplePhoto : Attachment := mkAttachment "a1" "image" "cat.png" "image/png" None "" "" "" [] "" "" "key" "" "".
Definition lostPhoto : Attachment := mkAttachment "a2" "image" "" "image/png" None "" "" "" [] "" "" "" "" "".
Definition sampleThread (id project : string) (attachments : list Attachment) : Thread :=
  mkThread id "Cats" "manual" "d1" "d2" "auto" (Some project) None false true
    [noMessage <| m_ID := "m1" |> <| m_Role := "user" |> <| m_Content := "look" |> <| m_Attachments := Some attachments |>]%string
    "" "" None None false 0 2 None.
Definition samplePicture (a : Attachment) : result readErr bytes := if String.eqb (a_Key a) "" then Err NotFound else Ok ["P"; "N"]%char.
(** A project with a document and one that cannot be read; a chat of the
    project, with a photo and a lost one, and a chat that cannot be read. *)
Definition sampleCloud : CloudRows :=
  mkCloud None
    [ProjectRead (mkProject "p" "Home" "" "" None "2025-01-01T00:00:00Z" "2025-01-01T00:00:00Z") ["p/e"%string]
       (Ok [mkDocument "d" "p" "n.txt" "text/plain" 3 "abc" "2025-01-01T00:00:00Z" "2025-01-01T00:00:00Z"])]%string None
    [ChatRead (sampleThread "t1" "p" [samplePhoto; lostPhoto]) samplePicture noDocument; ChatUnreadable "t9"]%string None.
(** A chat of the device, and the copy it has of one of the cloud's. *)
Definition sampleThreads : list (result Api.err Thread) := [Ok (sampleThread "t2" "" []); Ok (sampleThread "t1" "p" [])].
Definition sampleMembers (t : backupThread) : list (string * Api.any) :=
  [("messages", Api.AArr ((λ m, object [("content", always (m_Content (bm_Message m))); ("attachments", Some (Api.AArr ((λ a, Api.AStr (ba_ImageID a)) <$> bm_Attachments m)))]) <$> bt_Messages t))]%string.
Abbreviation sampleWritten := (writeBackup toyRaw checksum pngType sampleMembers (λ _, None) (Some sampleCloud) sampleThreads ∅ "b1" "2025-01-01T00:00:00.000Z").
Definition sampleBackup : BackupWriter :=
  Eval vm_compute in match sampleWritten with Ok b => b | Err _ => NewBackupWriter end.
Lemma sample_cloudFit : cloudFit sampleCloud.
Proof.
  split.
  - repeat constructor; [done|]. by intros d ->%list_elem_of_singleton.
  - apply Forall_cons. split; [|by repeat constructor]. split_and!; [done|done|]. intros m ->%list_elem_of_singleton a p Ha Hp.
    cbn in Ha. apply elem_of_cons in Ha as [->| ->%list_elem_of_singleton]; by apply not_elem_of_nil in Hp.
Qed.
Lemma sample_localCounted : Forall localCounted sampleThreads.
Proof.
  apply Forall_forall. intros t [->| ->%list_elem_of_singleton]%elem_of_cons.
  all: split_and!; [done|done|]; intros m ->%list_elem_of_singleton a p Ha; by apply not_elem_of_nil in Ha.
Qed.

Lemma backup_opened_witness : sampleWritten = Ok sampleBackup ∧ ∃ nb, openNativeBackup toyUnmarshal checksum (zip sampleBackup) = Ok (Some nb) ∧
  chatIDs toyUnmarshal nb "cloud_chats" = Ok ["t1"%string] ∧ chatIDs toyUnmarshal nb "local_chats" = Ok ["t2"%string] ∧
  holdsJSON toyUnmarshal nb (BackupEntityPath "cloud_chats" "t1")
    (Api.AObj [("id", Api.AStr "t1"); ("messages", Api.AArr [object [("content", always "look"); ("attachments", Some (Api.AArr [Api.AStr "t1/0/0"]))]])]%string) ∧
  holdsImage nb "t1" "t1/0/0" ["P"; "N"]%char ∧ listsOmission nb (mkOmission "attachment" "t1/0/1" "t1" "unavailable" "attachment_not_found") ∧
  linksProject toyUnmarshal nb ("p", "t1")%string.
Proof.
  assert (sampleWritten = Ok sampleBackup) as Hw by (vm_compute; reflexivity). split; [exact Hw|].
  destruct (backup_opened toyRaw toyUnmarshal checksum pngType sampleMembers (λ _, None) (Some sampleCloud) sampleThreads ∅ "b1"
    "2025-01-01T00:00:00.000Z" sampleBackup toy_parse sample_cloudFit sample_localCounted Hw) as (nb & Ho & _ & Hc & Hl & _ & _ & Hk & _).
  { vm_compute. by split. }
  exists nb. split; [exact Ho|]. split; [exact Hc|]. split; [exact Hl|].
  destruct (proj2 (Hk sampleCloud eq_refl) (ChatRead (sampleThread "t1" "p" [samplePhoto; lostPhoto]) samplePicture noDocument) (list_elem_of_here _ _))
    as [[He Hm] Hp].
  split; [exact He|]. split; [exact (proj1 (Hm 0 _ eq_refl 0 samplePhoto eq_refl))|]. split; [exact (Hm 0 _ eq_refl 1 lostPhoto eq_refl)|].
  apply Hp. discriminate.
Defined.

Definition opens (files : list File) : bool := match openNativeBackup toyUnmarshal checksum files with Ok (Some _) => true | _ => false end.
Lemma backup_checked_witness : ∃ nb, openNativeBackup toyUnmarshal checksum (zip sampleBackup) = Ok (Some nb) ∧ NoDup (Name <$> zip sampleBackup) ∧
  NoDup (bf_Path <$> mf_Files (nb_manifest nb)).
Proof.
  assert (opens (zip sampleBackup) = true) as Ho by (vm_compute; reflexivity). unfold opens in Ho.
  destruct (openNativeBackup toyUnmarshal checksum (zip sampleBackup)) as [[nb|]|e] eqn:He; [|discriminate Ho..]. exists nb.
  destruct (backup_checked toyUnmarshal checksum (zip sampleBackup) nb) as (Hd & _ & _ & _ & Hp & _).
  - apply (bool_decide_unpack _). vm_compute. exact I.
  - exact He.
  - split; [reflexivity|]. split; [exact Hd|exact Hp].
Defined.
End Backup.
