(* ===== verification/CloudImport.v ===== *)
(** * Cloud imports: internal/archives/cloudimport.go, and the cloud archive
    of import.go

    What an import puts in the cloud is written to an archive, which a job
    stores in the background: its projects, then their documents, then its
    chats with their images, each under an id derived from where it came
    from, so that the same import run again finds what it stored. *)

From S2P Require Import Prelude GoStd Api Codec Decode Chat Timeline Grants Rows Archives Backup.
From stdpp Require Import pretty.
Local Open Scope nat_scope.
Local Open Scope go_scope.

Module CloudImport.
Import GoStd Codec Decode Chat Archives Grants.

Definition cloudImportFormat : string := "tinfoil-native-cloud-import".
Definition cloudImportSource : string := "tinfoil_backup".
Definition maxImportGenerations : nat := 100.
Definition maxImportNotes : nat := 100.
Definition importIDInfo : string := "tinfoil-restore-id-v1".
Definition importWriteInfo : string := "tinfoil-restore-write-v1".
Definition importImageInfo : string := "import-att".
Definition importIDHexLen : nat := 32.
Definition importNonceBytes : nat := 16.
Definition importFailureTimeout : string := "timeout".
Definition importFailureAuthorization : string := "authorization_failed".
Definition importFailureWorker : string := "worker_failed".
Definition importFailureInternal : string := "internal".
Definition importFailureMessages : list (string * string) :=
  [(importFailureTimeout, "import timed out");
   (importFailureAuthorization, "Tinfoil could not authorize access to cloud storage for the import; please retry from a signed-in device");
   (importFailureWorker, "the import worker stopped unexpectedly; please retry the import");
   (importFailureInternal, "import failed")]%string.
Definition sniffedImages : list string := ["image/png"; "image/jpeg"; "image/gif"; "image/webp"; "image/bmp"]%string.
Definition RecordVersion : Z := 2.

(** An error of reading the archive, among the store's. *)
Definition readError (e : Api.err) : Rows.err :=
  match e with
  | Api.EApi e => Rows.EApi (Rows.api (Api.HTTP e) (GoStd.Code (Api.error e)) (GoStd.Message (Api.error e)))
  | _ => Rows.ENew ""
  end.

(** ** The cloud archive *)

Record cloudEntity := mkEntity { Kind : string; SourceID : string; ProjectSourceID : string; Path : string }.
#[global] Instance cloudEntity_eq_dec : EqDecision cloudEntity.
Proof. solve_decision. Defined.
Record cloudManifest := mkManifest { cm_Format : string; cm_Version : Z; cm_Source : string; cm_Entities : list cloudEntity }.
Record cloudProject := mkProject { cp_Name : string; cp_Description : string; cp_SystemInstructions : string; cp_Color : string }.
Record cloudDocument := mkDocument { cd_Filename : string; cd_ContentType : string; cd_SizeBytes : Z; cd_Content : string }.
Record cloudAttachment := mkCloudAttachment { at_Attachment : Attachment; ArchivePath : string }.
Record cloudMessage := mkCloudMessage { cg_Message : Message; cg_Attachments : list cloudAttachment }.
Record cloudChat := mkCloudChat { cc_Thread : Thread; cc_Messages : list cloudMessage }.

#[global] Instance chatAttachment_eta : Eta Attachment := λ a,
  mkAttachment (a_ID a) (a_Kind a) (a_FileName a) (a_MimeType a) (a_Size a) (a_Thumbnail a) (a_TextContent a) (a_Description a) (a_Pages a)
    (a_Base64 a) (a_EncryptionKey a) (a_Key a) (a_StorageThreadID a) (a_InferenceMimeType a).

Definition entityObject (e : cloudEntity) : Api.any :=
  object [("kind", always (Kind e)); ("sourceId", always (SourceID e)); ("projectSourceId", omitempty (ProjectSourceID e)); ("path", always (Path e))]%string.
Definition manifestObject (m : cloudManifest) : Api.any :=
  object [("format", always (cm_Format m)); ("version", Some (number (cm_Version m))); ("source", always (cm_Source m));
          ("entities", Some (Api.AArr (entityObject <$> cm_Entities m)))]%string.
Definition cloudProjectObject (p : cloudProject) : Api.any :=
  object [("name", always (cp_Name p)); ("description", omitempty (cp_Description p)); ("systemInstructions", omitempty (cp_SystemInstructions p));
          ("color", omitempty (cp_Color p))]%string.
Definition cloudDocumentObject (d : cloudDocument) : Api.any :=
  object [("filename", always (cd_Filename d)); ("contentType", always (cd_ContentType d)); ("sizeBytes", Some (number (cd_SizeBytes d)));
          ("content", always (cd_Content d))]%string.

Definition decodeEntity (v : Api.any) : option cloudEntity :=
  v ← structOf v; a ← textOf v "kind"; b ← textOf v "sourceId"; c ← textOf v "projectSourceId"; d ← textOf v "path"; Some (mkEntity a b c d).
Definition decodeManifest (v : Api.any) : option cloudManifest :=
  v ← structOf v; a ← textOf v "format"; b ← intOf v "version"; c ← textOf v "source"; d ← listOf decodeEntity v "entities"; Some (mkManifest a b c d).
Definition decodeCloudProject (v : Api.any) : option cloudProject :=
  v ← structOf v; a ← textOf v "name"; b ← textOf v "description"; c ← textOf v "systemInstructions"; d ← textOf v "color"; Some (mkProject a b c d).
Definition decodeCloudDocument (v : Api.any) : option cloudDocument :=
  v ← structOf v; a ← textOf v "filename"; b ← textOf v "contentType"; c ← intOf v "sizeBytes"; d ← textOf v "content"; Some (mkDocument a b c d).

(** ** The rows an import stores *)

Definition originObject (o : ImportOrigin) : Api.any :=
  object [("format", always (i_Format o)); ("sourceBackupId", always (i_Source o)); ("kind", always (i_Kind o)); ("sourceId", always (i_SourceID o));
          ("generation", Some (number (i_Generation o)))]%string.
Definition decodeOrigin (v : Api.any) : option ImportOrigin :=
  v ← structOf v; a ← textOf v "format"; b ← textOf v "sourceBackupId"; c ← textOf v "kind"; d ← textOf v "sourceId"; e ← intOf v "generation";
  Some (mkOrigin a b c d e).
#[global] Instance ImportOrigin_eq_dec : EqDecision ImportOrigin.
Proof. solve_decision. Defined.

Definition Present (s : string) : option string := if String.eqb s "" then None else Some s.
Definition nullable (s : option string) : option Api.any := Some (match s with Some s => Api.AStr s | None => Api.ANull end).
(** [domain.StoredProject], its [domain.Project] embedded. *)
Definition storedProject (id now : string) (origin : ImportOrigin) (p : cloudProject) : Api.any :=
  object [("id", always id); ("name", always (cp_Name p)); ("description", always (cp_Description p)); ("systemInstructions", always (cp_SystemInstructions p));
          ("color", nullable (Present (cp_Color p))); ("createdAt", omitempty now); ("updatedAt", omitempty now);
          ("recordVersion", Some (number RecordVersion)); ("_restore", Some (originObject origin))]%string.
Definition storedDocument (id projectID now : string) (origin : ImportOrigin) (d : cloudDocument) : Api.any :=
  object [("id", always id); ("projectId", always projectID); ("filename", always (cd_Filename d)); ("contentType", always (cd_ContentType d));
          ("sizeBytes", Some (number (cd_SizeBytes d))); ("content", omitempty (cd_Content d)); ("createdAt", omitempty now); ("updatedAt", omitempty now);
          ("recordVersion", Some (number RecordVersion)); ("_restore", Some (originObject origin))]%string.

(** ** The report *)

Record ImportKindCounts := mkKindCounts { Imported : nat; Skipped : nat; Failed : nat; Blocked : nat }.
#[global] Instance ImportKindCounts_eta : Eta ImportKindCounts := λ c, mkKindCounts (Imported c) (Skipped c) (Failed c) (Blocked c).
Definition noCounts : ImportKindCounts := mkKindCounts 0 0 0 0.
Record ImportReport := mkReport {
  Phase : string;
  ImportedTotal : nat;
  FailedTotal : nat;
  Total : nat;
  Counts : gmap string ImportKindCounts;
  Warnings : list string;
  Errors : list string;
  FailureReason : string;
}.
#[global] Instance ImportReport_eta : Eta ImportReport := λ r,
  mkReport (Phase r) (ImportedTotal r) (FailedTotal r) (Total r) (Counts r) (Warnings r) (Errors r) (FailureReason r).
Definition noReport : ImportReport := mkReport "" 0 0 0 ∅ [] [] "".
Record ImportOutcome := mkOutcome {
  ClerkUserID : string;
  JobID : string;
  io_Source : string;
  io_Completed : bool;
  io_Imported : nat;
  io_Failed : nat;
  io_FailureReason : string;
}.

(** [cloudImport], with its caller's id; the channel, the file and the key
    aside. *)
Record Job := mkJob {
  j_user : string;
  j_source : string;
  j_id : string;
  j_entries : gmap string File;
  j_report : ImportReport;
  j_held : gmap string (gset string);
}.
#[global] Instance Job_eta : Eta Job := λ j, mkJob (j_user j) (j_source j) (j_id j) (j_entries j) (j_report j) (j_held j).

(** ** What a job does

    It reads and writes rows and attachments through the store, asks whether
    its context has ended, reads the clock, publishes its report and has the
    user told; each may panic. *)

Inductive op : Type → Type :=
  | Load (scope id : string) : op (result Rows.err StoredRow)
  | Push (scope : string) (row : StoredRow) (nonce : string) : op (result Rows.err string)
  | IDs (scope : string) : op (result Rows.err (list string))
  | PutAttachment (chat identity : string) (data : bytes) : op (result Rows.err (string * string))
  | RetireAttachments (ids : list string) : op unit
  | ContextErr : op (option Rows.err)
  | Timestamp : op string
  | Publish (r : ImportReport) : op unit
  | NotifyImportOutcome (o : ImportOutcome) : op unit.

Inductive io (A : Type) : Type :=
  | Done (a : A)
  | Do {X} (o : op X) (k : option X → io A).
Arguments Done {A} a.
Arguments Do {A X} o k.
Fixpoint io_bind {A B} (f : A → io B) (p : io A) : io B :=
  match p with Done a => f a | Do o k => Do o (λ x, io_bind f (k x)) end.

(** A step of the job: its memory outlives a panic, which ends in [None]. *)
Definition M (A : Type) : Type := Job → io (Job * option A).
#[local] Instance M_ret : MRet M := λ A a j, Done (j, Some a).
#[local] Instance M_bind : MBind M := λ A B f m j,
  io_bind (λ r, match r.2 with Some a => f a r.1 | None => Done (r.1, None) end) (m j).
Definition do {X} (o : op X) : M X := λ j, Do o (λ x, Done (j, x)).
Definition get : M Job := λ j, Done (j, Some j).
Definition modify (f : Job → Job) : M unit := λ j, Done (f j, Some tt).
(** [if err != nil { return err }]. *)
Definition try {A B} (k : A → M (result Rows.err B)) (m : M (result Rows.err A)) : M (result Rows.err B) :=
  r ← m; match r with Ok a => k a | Err e => mret (Err e) end.
Notation "x ←? m ; k" := (try (λ x, k) m) (at level 20, m at level 100, k at level 200).
Notation "' p ←? m ; k" := (try (λ x, match x with p => k end) m) (at level 20, p pattern, m at level 100, k at level 200).

Section Import.
(** JSON as text and back, a chat read from its JSON, the members of a
    stored chat's JSON past where it came from, SHA-256, the sniffed type of
    an image's bytes, the thumbnail made of one, and the archive as
    [zip.NewReader] finds it. *)
Context (Raw : Api.any → bytes) (Unmarshal : bytes → option Api.any) (readChat : bytes → option cloudChat)
  (otherMembers : Thread → list (string * Api.any)) (Sum256 : bytes → bytes) (DetectContentType : bytes → string)
  (thumbnail : bytes → option string).

Definition rowScope (kind : string) : string := if String.eqb kind "document" then "project_document" else kind.
Definition conflicted (e : Rows.err) : bool := String.eqb (Rows.ErrCode (Rows.AsError e)) "REVISION_CONFLICT".
Definition digest (parts : list string) : string := EncodeToString (Sum256 (bytes_of (Join parts (String "000" "")))).
Definition importedID (user source kind sourceID : string) (generation : nat) : string :=
  let h := String.substring 0 importIDHexLen (digest [importIDInfo; user; source; kind; sourceID; pretty generation]) in
  Join [String.substring 0 8 h; String.substring 8 4 h; String.substring 12 4 h; String.substring 16 4 h; String.substring 20 12 h] "-".
Definition importedNonce (jobID kind sourceID : string) (generation : nat) : string :=
  String.substring 0 (2 * importNonceBytes) (digest [importWriteInfo; jobID; kind; sourceID; pretty generation]).
Definition importedImage (chatID blobPath : string) (index : nat) : string :=
  String.substring 0 (2 * importNonceBytes) (EncodeToString (Sum256 (bytes_of (Join [importImageInfo; chatID; blobPath; pretty index] ":")))).

Definition ReadImportOrigin (row : StoredRow) : option ImportOrigin :=
  v ← Unmarshal (Data row); v ← structOf v;
  match Api.member v "_restore" with None | Some Api.ANull => None | Some o => decodeOrigin o end.

(** *** The report *)

Definition onReport (f : ImportReport → ImportReport) : M unit := modify (λ j, j <| j_report ::= f |>).
Definition total (f : ImportKindCounts → nat) (counts : gmap string ImportKindCounts) : nat := map_fold (λ _ c n, f c + n) 0 counts.
Definition progress : M unit :=
  _ ← onReport (λ r, r <| ImportedTotal := total Imported (Counts r) |> <| FailedTotal := total Failed (Counts r) |>);
  j ← get; do (Publish (j_report j)).
Definition note (l : list string) (text : string) : list string := if bool_decide (length l < maxImportNotes) then l ++ [text] else l.
Definition warn (text : string) : M unit := _ ← onReport (λ r, r <| Warnings ::= λ l, note l text |>); progress.
Definition phase (name : string) : M unit := _ ← onReport (λ r, r <| Phase := name |>); progress.
Definition fail (reason : string) (e : Rows.err) : M (result Rows.err unit) :=
  _ ← onReport (λ r, r <| FailureReason := reason |>); mret (Err e).
Definition onCounts (kind : string) (f : ImportKindCounts → ImportKindCounts) : M unit :=
  onReport (λ r, r <| Counts ::= λ m, <[kind := f (default noCounts (m !! kind))]> m |>).
Definition block (kind : string) : M unit := _ ← onCounts kind (λ c, c <| Blocked ::= S |>); progress.

Inductive restored := storedNow | storedBefore.
Inductive occupant := vacant | sameImport | anotherRow | otherKey.

(** [count]: it fails where every later entity would too. *)
Definition count (kind : string) (r : result Rows.err restored) : M (result Rows.err unit) :=
  _ ← (match r with
       | Err _ => _ ← onReport (λ r, r <| Errors ::= λ l, note l (String.append kind " failed") |>); onCounts kind (λ c, c <| Failed ::= S |>)
       | Ok storedBefore => onCounts kind (λ c, c <| Skipped ::= S |>)
       | Ok storedNow => onCounts kind (λ c, c <| Imported ::= S |>)
       end);
  _ ← progress;
  match r with
  | Ok _ => mret (Ok tt)
  | Err e =>
      ended ← do ContextErr;
      match ended with
      | Some over => fail importFailureTimeout over
      | None => if bool_decide (Rows.HTTP (Rows.AsError e) = 401%Z) then fail importFailureAuthorization e else mret (Ok tt)
      end
  end.

(** *** The archive's entries *)

Definition readArchived (name : string) (limit : Z) (j : Job) : result Rows.err bytes :=
  match j_entries j !! name with
  | None => Err (Rows.ENew (String.append "the archive holds no " name))
  | Some f => match readEntry f limit with Ok data => Ok data | Err e => Err (readError e) end
  end.
Definition entity {A} (decode : bytes → option A) (name : string) : M (result Rows.err A) :=
  j ← get;
  mret (data ← readArchived name maxArchiveJSONEntry j;
        match decode data with Some v => Ok v | None => Err (Rows.ENew "an entry is not valid JSON") end).
Definition blob (name : string) : M (result Rows.err bytes) := j ← get; mret (readArchived name maxArchiveImage j).

(** *** One entity *)

Definition hold (entities : list cloudEntity) (kind : string) : M (result Rows.err unit) :=
  if negb (existsb (λ e, String.eqb (Kind e) kind) entities) then mret (Ok tt)
  else
    let scope := rowScope kind in
    listed ← do (IDs scope);
    match listed with
    | Ok ids => _ ← modify (λ j, j <| j_held ::= <[scope := list_to_set ids]> |>); mret (Ok tt)
    | Err e =>
        ended ← do ContextErr;
        match ended with
        | Some over => fail importFailureTimeout over
        | None => fail (if bool_decide (Rows.HTTP (Rows.AsError e) = 401%Z) then importFailureAuthorization else importFailureInternal) e
        end
    end.
Definition inspect (scope id : string) (origin : option ImportOrigin) : M (result Rows.err occupant) :=
  loaded ← do (Load scope id);
  mret match loaded with
       | Err e =>
           let a := Rows.AsError e in
           if bool_decide (Rows.HTTP a = 404%Z) then Ok vacant
           else if String.eqb (Rows.ErrCode a) "KEY_MISMATCH" then Ok otherKey else Err e
       | Ok row =>
           match ReadImportOrigin row, origin with
           | Some found, Some origin => if bool_decide (found = origin) then Ok sameImport else Ok anotherRow
           | _, _ => Ok anotherRow
           end
       end.

(** What makes the row for an id, and names the attachments it stored. *)
Definition builder : Type := string → ImportOrigin → M (result Rows.err (StoredRow * list string)).
Definition rowIDOf (kind projectID id : string) : string :=
  if String.eqb kind "document" then String.append projectID (String "/" id) else id.
Definition originOf (j : Job) (e : cloudEntity) (generation : nat) : ImportOrigin :=
  mkOrigin cloudImportFormat (j_source j) (Kind e) (SourceID e) (Z.of_nat generation).
Fixpoint restoreFrom (tries generation : nat) (e : cloudEntity) (projectID : string) (build : builder)
    : M (result Rows.err (string * restored)) :=
  match tries with
  | 0 => mret (Err (Rows.ENew "every id for the entity is taken"))
  | S tries =>
      j ← get;
      let scope := rowScope (Kind e) in
      let id := importedID (j_user j) (j_source j) (Kind e) (SourceID e) generation in
      let rowID := rowIDOf (Kind e) projectID id in
      let origin := originOf j e generation in
      holder ←? inspect scope rowID (Some origin);
      match holder with
      | sameImport => mret (Ok (id, storedBefore))
      | anotherRow | otherKey => restoreFrom tries (S generation) e projectID build
      | vacant =>
          '(row, attachments) ←? build id origin;
          pushed ← do (Push scope (row <| ID := rowID |>) (importedNonce (j_id j) (Kind e) (SourceID e) generation));
          match pushed with
          | Ok _ => mret (Ok (id, storedNow))
          | Err err =>
              settled ← inspect scope rowID (Some origin);
              match settled with
              | Err _ => mret (Err err)
              | Ok sameImport => mret (Ok (id, if conflicted err then storedBefore else storedNow))
              | Ok _ =>
                  _ ← do (RetireAttachments attachments);
                  if conflicted err then restoreFrom tries (S generation) e projectID build else mret (Err err)
              end
          end
      end
  end.
Definition restore (e : cloudEntity) (projectID : string) (build : builder) : M (result Rows.err (string * restored)) :=
  j ← get;
  let scope := rowScope (Kind e) in
  let document := String.eqb (Kind e) "document" in
  let fresh := restoreFrom maxImportGenerations 0 e projectID build in
  if bool_decide (SourceID e ∈ default ∅ (j_held j !! scope)) && (negb document || String.eqb projectID (ProjectSourceID e))
  then
    holder ←? inspect scope (SourceID e) None;
    match holder with
    | anotherRow => mret (Ok (if document then Timeline.TrimPrefix (SourceID e) (String.append projectID "/") else SourceID e, storedBefore))
    | _ => fresh
    end
  else fresh.

(** *** A chat and its images *)

Definition documentHasContent (a : Attachment) : bool :=
  negb (String.eqb (TrimSpace (a_TextContent a)) "") ||
  existsb (λ p, negb (String.eqb (TrimSpace (p_Text p)) "") || negb (String.eqb (TrimSpace (p_Image p)) "")) (a_Pages a).
(** What is stored so far and how many images were uploaded. *)
Definition Uploads : Type := list string * nat.
Definition storedAttachment (id : string) (c : cloudAttachment) (u : Uploads) : M (option Attachment * Uploads) :=
  let a := at_Attachment c in
  if IsImage a then
    read ← blob (ArchivePath c);
    match read with
    | Err _ => _ ← warn "image attachment blob missing"; mret (None, u)
    | Ok data =>
        let kind := DetectContentType data in
        if negb (existsb (String.eqb kind) sniffedImages) then _ ← warn "image attachment type rejected"; mret (None, u)
        else
          put ← do (PutAttachment id (importedImage id (ArchivePath c) u.2) data);
          match put with
          | Err _ => _ ← warn "image attachment upload failed"; mret (None, (u.1, S u.2))
          | Ok (attID, attKey) =>
              let a := a <| a_ID := attID |> <| a_EncryptionKey := attKey |> <| a_MimeType := kind |> <| a_Base64 := ""%string |> in
              let u := (u.1 ++ [attID], S u.2) in
              if negb (String.eqb (a_Thumbnail a) "") then mret (Some a, u)
              else match thumbnail data with
                   | Some thumb => mret (Some (a <| a_Thumbnail := thumb |>), u)
                   | None => _ ← warn "image attachment stored without a thumbnail"; mret (Some a, u)
                   end
          end
    end
  else if documentHasContent a then mret (Some a, u)
  else _ ← warn "document attachment without content skipped"; mret (None, u).
Fixpoint storedAttachments (id : string) (l : list cloudAttachment) (u : Uploads) : M (list Attachment * Uploads) :=
  match l with
  | [] => mret ([], u)
  | c :: l => '(a, u) ← storedAttachment id c u; '(rest, u) ← storedAttachments id l u; mret (match a with Some a => a :: rest | None => rest end, u)
  end.
Fixpoint storedMessages (id : string) (l : list cloudMessage) (u : Uploads) : M (list Message * Uploads) :=
  match l with
  | [] => mret ([], u)
  | m :: l =>
      '(attachments, u) ← storedAttachments id (cg_Attachments m) u;
      '(rest, u) ← storedMessages id l u;
      mret ((cg_Message m) <| m_Attachments := match attachments with [] => None | _ => Some attachments end |> :: rest, u)
  end.
Definition chat (id projectID : string) (origin : ImportOrigin) (c : cloudChat) : M (Thread * list string) :=
  '(messages, u) ← storedMessages id (cc_Messages c) ([], 0);
  mret ((cc_Thread c) <| t_ID := id |> <| t_ImportedFrom := Some origin |> <| t_RecordVersion := RecordVersion |>
          <| t_ProjectID := Present projectID |> <| t_Messages := messages |>, u.1).
Definition threadObject (t : Thread) : Api.any :=
  Api.AObj (match t_ImportedFrom t with Some o => [("_restore"%string, originObject o)] | None => [] end ++ otherMembers t).

Definition decoded {A} (decode : Api.any → option A) (data : bytes) : option A := Unmarshal data ≫= decode.
Definition buildProject (e : cloudEntity) : builder := λ id origin,
  project ←? entity (decoded decodeCloudProject) (Path e);
  now ← do Timestamp;
  mret (Ok (mkRow "" "" (Raw (storedProject id now origin project)) None false None, [])).
Definition buildDocument (e : cloudEntity) (projectID : string) : builder := λ id origin,
  doc ←? entity (decoded decodeCloudDocument) (Path e);
  now ← do Timestamp;
  mret (Ok (mkRow "" "" (Raw (storedDocument id projectID now origin doc)) (Some projectID) true None, [])).
Definition buildChat (e : cloudEntity) (projectID : string) : builder := λ id origin,
  c ←? entity readChat (Path e);
  '(thread, images) ← chat id projectID origin c;
  mret (Ok (mkRow "" "" (Raw (threadObject thread)) (Present projectID) true None, images)).

(** *** Every entity *)

(** The projects' ids by their source's, and those that failed. *)
Definition Projects : Type := gmap string string * gset string.
Definition outcomeOf (r : result Rows.err (string * restored)) : result Rows.err restored :=
  match r with Ok (_, outcome) => Ok outcome | Err e => Err e end.
Fixpoint storeProjects (l : list cloudEntity) (ps : Projects) : M (result Rows.err Projects) :=
  match l with
  | [] => mret (Ok ps)
  | e :: l =>
      if negb (String.eqb (Kind e) "project") then storeProjects l ps
      else
        r ← restore e "" (buildProject e);
        let ps := match r with Ok (id, _) => (<[SourceID e := id]> ps.1, ps.2) | Err _ => (ps.1, {[SourceID e]} ∪ ps.2) end in
        _ ←? count (Kind e) (outcomeOf r);
        storeProjects l ps
  end.
Definition projectOf (ps : Projects) (source : string) : option string :=
  if bool_decide (source ∈ ps.2) then None else ps.1 !! source.
Fixpoint storeDocuments (ps : Projects) (l : list cloudEntity) : M (result Rows.err unit) :=
  match l with
  | [] => mret (Ok tt)
  | e :: l =>
      if negb (String.eqb (Kind e) "document") then storeDocuments ps l
      else
        match projectOf ps (ProjectSourceID e) with
        | None => _ ← block (Kind e); storeDocuments ps l
        | Some projectID =>
            r ← restore e projectID (buildDocument e projectID);
            _ ←? count (Kind e) (outcomeOf r);
            storeDocuments ps l
        end
  end.
Fixpoint storeChats (ps : Projects) (l : list cloudEntity) : M (result Rows.err unit) :=
  match l with
  | [] => mret (Ok tt)
  | e :: l =>
      if negb (String.eqb (Kind e) "chat") then storeChats ps l
      else
        match (if String.eqb (ProjectSourceID e) "" then Some ""%string else projectOf ps (ProjectSourceID e)) with
        | None => _ ← block (Kind e); storeChats ps l
        | Some projectID =>
            r ← restore e "" (buildChat e projectID);
            _ ←? count (Kind e) (outcomeOf r);
            storeChats ps l
        end
  end.
Definition kinds : list string := ["project"; "document"; "chat"]%string.
Definition store (entities : list cloudEntity) : M (result Rows.err unit) :=
  _ ← onReport (λ r, r <| Total := length entities |> <| Counts := list_to_map ((λ k, (k, noCounts)) <$> kinds) |>);
  _ ← phase "projects";
  _ ←? hold entities "project";
  ps ←? storeProjects entities (∅, ∅);
  _ ← phase "documents";
  _ ←? hold entities "document";
  _ ←? storeDocuments ps entities;
  _ ← phase "chats";
  _ ←? hold entities "chat";
  _ ←? storeChats ps entities;
  _ ← phase "complete";
  mret (Ok tt).

(** *** The job *)

Definition reading (archive : option (list File)) : M (result Rows.err unit) :=
  match archive with
  | None => fail importFailureInternal (Rows.ENew "the archive cannot be read")
  | Some files =>
      _ ← modify (λ j, j <| j_entries := foldl (λ m f, <[Name f := f]> m) ∅ files |>);
      manifest ← entity (decoded decodeManifest) ManifestPath;
      match manifest with
      | Err e => fail importFailureInternal e
      | Ok m => store (cm_Entities m)
      end
  end.
Definition failureMessage (reason : string) : string :=
  match List.find (λ p, String.eqb p.1 reason) importFailureMessages with Some p => p.2 | None => "" end.
(** [run], for the job of a caller under an id: what it did and how it ended. *)
Definition ending (j : Job) (r : option (result Rows.err unit)) : M (ImportReport * option Rows.err) :=
  let j := match r with None => j <| j_report ::= λ r, r <| FailureReason := importFailureWorker |> |> | Some _ => j end in
  let err := match r with None => Some (Rows.ENew "a cloud import failed") | Some (Err e) => Some e | Some (Ok _) => None end in
  let report := match err with
                | Some _ => (j_report j) <| Errors ::= λ l, note l (failureMessage (FailureReason (j_report j))) |>
                | None => j_report j
                end in
  _ ← do (NotifyImportOutcome (mkOutcome (j_user j) (j_id j) cloudImportSource (bool_decide (err = None)) (ImportedTotal report) (FailedTotal report)
            (match err with Some _ => FailureReason report | None => "" end)));
  mret (report, err).
Definition run (user source id : string) (archive : option (list File)) : io (option (ImportReport * option Rows.err)) :=
  let job := mkJob user source id ∅ noReport ∅ in
  io_bind (λ r, io_bind (λ r, Done r.2) (ending r.1 r.2 r.1)) (reading archive job).

(** *** The archive as an import writes it

    [cloudArchive] of import.go; [sink] is how the disk answers a write. *)

Record cloudArchive := mkCloudArchive { ca_zip : list File; ca_Source : string; ca_Entities : list cloudEntity; ca_blobs : nat }.
#[local] Instance cloudArchive_eta : Eta cloudArchive := λ c, mkCloudArchive (ca_zip c) (ca_Source c) (ca_Entities c) (ca_blobs c).
Section Writer.
Context (writeChat : cloudChat → bytes) (sink : list File → option Rows.err).
Definition newCloudArchive (source : string) : cloudArchive := mkCloudArchive [] source [] 0.
Definition writeArchived (name : string) (data : bytes) (c : cloudArchive) : result Rows.err cloudArchive :=
  let c := c <| ca_zip ::= λ l, l ++ [writtenEntry name data] |> in
  match sink (ca_zip c) with Some e => Err e | None => Ok c end.
Definition entityPath (kind : string) (n : nat) : string := Join ["entities"; kind; String.append (pretty n) ".json"]%string "/".
Definition blobPath (n : nat) : string := Join ["blobs"; String.append (pretty n) ".bin"]%string "/".
Definition writeEntity (kind sourceID projectSourceID : string) (payload : bytes) (c : cloudArchive) : result Rows.err cloudArchive :=
  let name := entityPath kind (length (ca_Entities c)) in
  c ← writeArchived name payload c;
  Ok (c <| ca_Entities ::= λ l, l ++ [mkEntity kind sourceID projectSourceID name] |>).
Definition writeAttachment (a : Attachment) (c : cloudArchive) : result Rows.err (cloudArchive * cloudAttachment) :=
  if negb (IsImage a) then Ok (c, mkCloudAttachment a "")
  else
    match Decode64 StdEncoding (a_Base64 a) with
    | None => Err (Rows.EApi (Rows.api 400 "IMPORT_INVALID" "An image is not valid base64"))
    | Some data =>
        let name := blobPath (ca_blobs c) in
        c ← writeArchived name data c;
        Ok (c <| ca_blobs ::= S |>, mkCloudAttachment (a <| a_Base64 := ""%string |>) name)
    end.
Fixpoint writeEach {A B} (write : A → cloudArchive → result Rows.err (cloudArchive * B)) (l : list A) (c : cloudArchive)
    : result Rows.err (cloudArchive * list B) :=
  match l with
  | [] => Ok (c, [])
  | a :: l => '(c, b) ← write a c; '(c, bs) ← writeEach write l c; Ok (c, b :: bs)
  end.
Definition writeMessage (m : Message) (c : cloudArchive) : result Rows.err (cloudArchive * cloudMessage) :=
  '(c, l) ← writeEach writeAttachment (elems (m_Attachments m)) c; Ok (c, mkCloudMessage m l).
(** [chat], of a prepared thread. *)
Definition writeThread (sourceID projectSourceID : string) (t : Thread) (c : cloudArchive) : result Rows.err cloudArchive :=
  '(c, l) ← writeEach writeMessage (t_Messages t) c;
  writeEntity "chat" sourceID projectSourceID (writeChat (mkCloudChat (t <| t_ProjectID := None |>) l)) c.
Definition finish (c : cloudArchive) : result Rows.err (list File) :=
  c ← writeArchived ManifestPath (Raw (manifestObject (mkManifest cloudImportFormat 1 (ca_Source c) (ca_Entities c)))) c; Ok (ca_zip c).
End Writer.

(** ** The account

    What a store keeps for a caller, by scope and id: a row the key reads, or
    one sealed under another key. *)

Inductive stored := Readable (row : StoredRow) | Sealed.
Definition place_eq : EqDecision (string * string) := _.
Definition place_countable : @Countable (string * string) place_eq := _.
Abbreviation Account := (@gmap (string * string) place_eq place_countable stored).
Definition origin (x : stored) : option ImportOrigin := match x with Readable row => ReadImportOrigin row | Sealed => None end.

Section Account.
(** Whose import it is; whether what it calls may fail, and whether others
    write to the account meanwhile. *)
Context (user source : string) (faulty others : bool).

Definition ours (o : ImportOrigin) : Prop := i_Format o = cloudImportFormat ∧ i_Source o = source.
(** Others add rows and edit them: they delete none, change the key of none
    the import stored, and write none in its name. *)
Definition drift (w w' : Account) : Prop :=
  if others
  then (∀ k x, w !! k = Some x → ∃ x', w' !! k = Some x' ∧ origin x' = origin x) ∧
       (∀ k x' o, w' !! k = Some x' → w !! k = None → origin x' = Some o → ¬ ours o)
  else w' = w.
(** A push without a revision is of a new row. *)
Definition pushes (w : Account) (scope : string) (row : StoredRow) (w' : Account) : Prop :=
  (ETag row = ""%string → w !! (scope, ID row) = None) ∧ w' = <[(scope, ID row) := Readable row]> w.
(** What the store answers, and leaves: a row that is not there is not found,
    one under another key is said to be, a conflict is with a row that is
    there; and, where it is [faulty], any other error or a panic, a push
    then stored or not. *)
Definition acts (w : Account) {X} (o : op X) : option X → Account → Prop :=
  match o in op X return option X → Account → Prop with
  | Load scope id => λ x w', w' = w ∧
      match x with
      | Some (Ok row) => w !! (scope, id) = Some (Readable row)
      | Some (Err e) =>
          let a := Rows.AsError e in
          (Rows.HTTP a = 404%Z ∧ w !! (scope, id) = None) ∨
          (Rows.HTTP a ≠ 404%Z ∧ Rows.ErrCode a = "KEY_MISMATCH"%string ∧ w !! (scope, id) = Some Sealed) ∨
          (faulty = true ∧ Rows.HTTP a ≠ 404%Z ∧ Rows.ErrCode a ≠ "KEY_MISMATCH"%string)
      | None => faulty = true
      end
  | Push scope row nonce => λ x w',
      match x with
      | Some (Ok _) => pushes w scope row w'
      | Some (Err e) => w' = w ∧ (if conflicted e then is_Some (w !! (scope, ID row)) else faulty = true) ∨ faulty = true ∧ pushes w scope row w'
      | None => faulty = true ∧ (w' = w ∨ pushes w scope row w')
      end
  | IDs scope => λ x w', w' = w ∧
      match x with Some (Ok ids) => others = true ∨ ∀ i, i ∈ ids ↔ is_Some (w !! (scope, i)) | _ => faulty = true end
  | PutAttachment _ _ _ => λ x w', w' = w ∧ match x with Some (Ok _) => True | _ => faulty = true end
  | ContextErr => λ x w', w' = w ∧ match x with Some None => True | _ => faulty = true end
  | _ => λ x w', w' = w ∧ match x with Some _ => True | None => faulty = true end
  end.

(** A run of a program from an account, and what holds of every run. *)
Fixpoint exec {A} (p : io A) (w w' : Account) (a : A) : Prop :=
  match p with
  | Done b => w' = w ∧ a = b
  | Do o k => ∃ w1 w2 x, drift w w1 ∧ acts w1 o x w2 ∧ exec (k x) w2 w' a
  end.
Fixpoint wp {A} (p : io A) (w : Account) (Q : Account → A → Prop) : Prop :=
  match p with
  | Done a => Q w a
  | Do o k => ∀ w1 w2 x, drift w w1 → acts w1 o x w2 → wp (k x) w2 Q
  end.
Lemma wp_exec {A} (p : io A) w Q w' a : wp p w Q → exec p w w' a → Q w' a.
Proof.
  revert w. induction p as [b|X o k IH]; intros w; cbn.
  - by intros HQ [-> ->].
  - intros Hp (w1 & w2 & x & Hd & Ha & Hk). eapply (IH x); [by eapply Hp|done].
Qed.
Lemma wp_io_mono {A} (p : io A) w (Q R : Account → A → Prop) : wp p w Q → (∀ w a, Q w a → R w a) → wp p w R.
Proof. revert w. induction p as [b|X o k IH]; intros w Hp HQ; cbn in *; [by apply HQ|]. intros w1 w2 x Hd Ha. eapply (IH x); eauto. Qed.
Lemma wp_io_bind {A B} (f : A → io B) (p : io A) w Q : wp p w (λ w a, wp (f a) w Q) → wp (io_bind f p) w Q.
Proof. revert w. induction p as [b|X o k IH]; intros w Hp; cbn in *; [done|]. intros w1 w2 x Hd Ha. by apply (IH x), (Hp w1). Qed.

(** Of a step of the job. *)
Definition after {A} (m : M A) (j : Job) (w : Account) (Q : Account → Job → option A → Prop) : Prop := wp (m j) w (λ w r, Q w r.1 r.2).
Lemma after_mono {A} (m : M A) j w (Q R : Account → Job → option A → Prop) : after m j w Q → (∀ w j r, Q w j r → R w j r) → after m j w R.
Proof. intros Hm HQ. eapply wp_io_mono; [exact Hm|]. intros w' [j' r]. apply HQ. Qed.
Lemma after_ret {A} (a : A) j w (Q : Account → Job → option A → Prop) : Q w j (Some a) → after (mret a) j w Q.
Proof. done. Qed.
Lemma after_bind {A B} (m : M A) (f : A → M B) j w Q :
  after m j w (λ w j r, match r with Some a => after (f a) j w Q | None => Q w j None end) → after (m ≫= f) j w Q.
Proof. intros Hm. apply wp_io_bind. eapply wp_io_mono; [exact Hm|]. intros w' [j' [a|]]; done. Qed.
Lemma after_try {A B} (m : M (result Rows.err A)) (f : A → M (result Rows.err B)) j w Q :
  after m j w (λ w j r, match r with Some (Ok a) => after (f a) j w Q | Some (Err e) => Q w j (Some (Err e)) | None => Q w j None end) →
  after (try f m) j w Q.
Proof. intros Hm. apply after_bind. eapply after_mono; [exact Hm|]. by intros w' j' [[a|e]|]. Qed.

(** *** Steps that store no row *)

(** What a step of an entity leaves of the job's memory. *)
Definition bounded (r : ImportReport) : Prop := length (Warnings r) ≤ maxImportNotes ∧ length (Errors r) ≤ maxImportNotes.
Definition keeps (j j' : Job) : Prop :=
  (j_user j', j_source j', j_id j', j_entries j', j_held j') = (j_user j, j_source j, j_id j, j_entries j, j_held j) ∧
  (Phase (j_report j'), Total (j_report j'), Counts (j_report j'), FailureReason (j_report j')) =
    (Phase (j_report j), Total (j_report j), Counts (j_report j), FailureReason (j_report j)) ∧
  (bounded (j_report j) → bounded (j_report j')).
#[local] Instance keeps_preorder : PreOrder keeps.
Proof.
  split; [done|]. intros j1 j2 j3 (H1 & H2 & H3) (H4 & H5 & H6). split_and!; [by rewrite H4|by rewrite H5|auto].
Qed.
(** True whatever others write. *)
Definition stable (P : Account → Prop) : Prop := ∀ w w', P w → drift w w' → P w'.
Definition quiet {A} (m : M A) : Prop :=
  ∀ j w P, stable P → P w → after m j w (λ w' j' _, P w' ∧ keeps j j').
(** With what is known of the result. *)
Definition quietly {A} (m : M A) (R : A → Prop) : Prop :=
  ∀ j w P, stable P → P w → after m j w (λ w' j' r, P w' ∧ keeps j j' ∧ ∀ a, r = Some a → R a).
Lemma quietly_quiet {A} (m : M A) : quietly m (λ _, True) → quiet m.
Proof. intros Hm j w P HP Hw. eapply after_mono; [by apply Hm|]. by intros w' j' r (? & ? & _). Qed.
Lemma quiet_quietly {A} (m : M A) : quiet m → quietly m (λ _, True).
Proof. intros Hm j w P HP Hw. eapply after_mono; [by apply Hm|]. by intros w' j' r [? ?]. Qed.
Lemma quietly_mono {A} (m : M A) (R S : A → Prop) : quietly m R → (∀ a, R a → S a) → quietly m S.
Proof. intros Hm HR j w P HP Hw. eapply after_mono; [by apply Hm|]. intros w' j' r (? & ? & H). split_and!; auto. Qed.
Lemma quietly_ret {A} (a : A) (R : A → Prop) : R a → quietly (mret a) R.
Proof. intros HR j w P HP Hw. apply after_ret. split_and!; [done|done|]. by intros b [= <-]. Qed.
Lemma quietly_bind {A B} (m : M A) (f : A → M B) (R : A → Prop) (S : B → Prop) :
  quietly m R → (∀ a, R a → quietly (f a) S) → quietly (m ≫= f) S.
Proof.
  intros Hm Hf j w P HP Hw. apply after_bind. eapply after_mono; [by apply Hm|]. intros w1 j1 [a|] (Hw1 & Hk1 & Hr); [|done].
  eapply after_mono; [by apply Hf; [apply Hr|..]|]. intros w2 j2 r (? & Hk2 & ?). split_and!; [done|by etrans|done].
Qed.
Lemma quietly_try {A B} (m : M (result Rows.err A)) (f : A → M (result Rows.err B)) (R : A → Prop) (S : result Rows.err B → Prop) :
  quietly m (λ r, ∀ a, r = Ok a → R a) → (∀ e, S (Err e)) → (∀ a, R a → quietly (f a) S) → quietly (try f m) S.
Proof. intros Hm He Hf. eapply quietly_bind; [exact Hm|]. intros [a|e] Hr; [by apply Hf, Hr|by apply quietly_ret]. Qed.
Lemma quiet_bind {A B} (m : M A) (f : A → M B) : quiet m → (∀ a, quiet (f a)) → quiet (m ≫= f).
Proof.
  intros Hm Hf. apply quietly_quiet. eapply quietly_bind; [by apply quiet_quietly|]. intros a _. by apply quiet_quietly.
Qed.
Lemma quiet_ret {A} (a : A) : quiet (mret a).
Proof. intros j w P HP Hw. by apply after_ret. Qed.
(** A call that is no push. *)
Lemma quiet_do {X} (o : op X) : (∀ w x w', acts w o x w' → w' = w) → quiet (do o).
Proof. intros Ho j w P HP Hw w1 w2 x Hd ->%Ho. split; [by eapply HP|done]. Qed.
Lemma quiet_get : quiet get.
Proof. intros j w P HP Hw. by split. Qed.
Lemma quiet_report (f : ImportReport → ImportReport) : (∀ j, keeps j (j <| j_report ::= f |>)) → quiet (onReport f).
Proof. intros Hf j w P HP Hw. split; [done|apply Hf]. Qed.
Lemma quiet_progress : quiet progress.
Proof.
  unfold progress. apply quiet_bind; [by apply quiet_report|]. intros _. apply quiet_bind; [apply quiet_get|]. intros j. apply quiet_do. by intros w x w' [-> _].
Qed.
Lemma note_bound l text : length l ≤ maxImportNotes → length (note l text) ≤ maxImportNotes.
Proof. intros Hl. unfold note. case_bool_decide; [rewrite length_app; cbn; lia|done]. Qed.
Lemma quiet_warn text : quiet (warn text).
Proof.
  unfold warn. apply quiet_bind; [|intros _; apply quiet_progress]. apply quiet_report. intros j. split_and!; [done|done|].
  intros [H1 H2]. split; cbn; [by apply note_bound|done].
Qed.
Lemma quiet_inspect scope id o : quiet (inspect scope id o).
Proof. unfold inspect. apply quiet_bind; [|intros r; apply quiet_ret]. apply quiet_do. by intros w x w' [-> _]. Qed.
Lemma quiet_entity {A} (decode : bytes → option A) name : quiet (entity decode name).
Proof. unfold entity. apply quiet_bind; [apply quiet_get|]. intros j. apply quiet_ret. Qed.
Lemma quiet_blob name : quiet (blob name).
Proof. unfold blob. apply quiet_bind; [apply quiet_get|]. intros j. apply quiet_ret. Qed.
Create HintDb quiet.
#[local] Hint Resolve quiet_ret quiet_get quiet_progress quiet_warn quiet_inspect quiet_entity quiet_blob : quiet.
Ltac quiet := repeat first [ by auto with quiet | apply quiet_bind; [|intros ?] | case_match; simplify_eq/= | by (apply quiet_do; intros ??? [-> _]) ].

Lemma quiet_attachment id c u : quiet (storedAttachment id c u).
Proof. unfold storedAttachment. quiet. Qed.
#[local] Hint Resolve quiet_attachment : quiet.
Lemma quiet_attachments id l u : quiet (storedAttachments id l u).
Proof. revert u. induction l as [|c l IH]; intros u; cbn [storedAttachments]; quiet. Qed.
#[local] Hint Resolve quiet_attachments : quiet.
Lemma quiet_messages id l u : quiet (storedMessages id l u).
Proof. revert u. induction l as [|m l IH]; intros u; cbn [storedMessages]; quiet. Qed.
#[local] Hint Resolve quiet_messages : quiet.

(** *** The rows built *)

(** What is written as JSON is read back. *)
Context (parse_raw : ∀ v, Unmarshal (Raw v) = Some v).

Definition numbered (o : ImportOrigin) : Prop := (min_int ≤ i_Generation o ≤ max_int)%Z.
Lemma origin_decodes o : numbered o → decodeOrigin (originObject o) = Some o.
Proof.
  intros Ho. destruct o as [format src kind sid gen]. unfold decodeOrigin, originObject. cbn -[dInt number]. unfold textOf, intOf. cbn -[dInt number].
  by rewrite (dInt_number gen) by done.
Qed.
Lemma origin_read v o row : numbered o → Data row = Raw v → structOf v = Some v → Api.member v "_restore" = Some (originObject o) →
  ReadImportOrigin row = Some o.
Proof.
  intros Ho Hd Hs Hm. unfold ReadImportOrigin. rewrite Hd, parse_raw. cbn. rewrite Hs. cbn. rewrite Hm.
  cbn [originObject object]. by apply origin_decodes.
Qed.
(** A row as it is built: new, and marked with where it came from. *)
Definition marked (o : ImportOrigin) (row : StoredRow) : Prop := ETag row = ""%string ∧ ReadImportOrigin row = Some o.
Definition builds (build : builder) : Prop :=
  ∀ id o, numbered o → quietly (build id o) (λ r, ∀ row attachments, r = Ok (row, attachments) → marked o row).
Lemma buildProject_ok e : builds (buildProject e).
Proof.
  intros id o Ho. unfold buildProject. eapply quietly_try with (R := λ _, True); [|done|].
  - eapply quietly_mono; [apply quiet_quietly, quiet_entity|done].
  - intros p _. eapply quietly_bind; [apply quiet_quietly, quiet_do; by intros ??? [-> _]|]. intros now _. apply quietly_ret.
    intros row attachments [= <- _]. split; [done|]. eapply origin_read; [done|reflexivity|done|].
    unfold storedProject, omitempty. by destruct (String.eqb now "").
Qed.
Lemma buildDocument_ok e projectID : builds (buildDocument e projectID).
Proof.
  intros id o Ho. unfold buildDocument. eapply quietly_try with (R := λ _, True); [|done|].
  - eapply quietly_mono; [apply quiet_quietly, quiet_entity|done].
  - intros d _. eapply quietly_bind; [apply quiet_quietly, quiet_do; by intros ??? [-> _]|]. intros now _. apply quietly_ret.
    intros row attachments [= <- _]. split; [done|]. eapply origin_read; [done|reflexivity|done|].
    unfold storedDocument, omitempty. by destruct (String.eqb now ""), (String.eqb (cd_Content d) "").
Qed.
Lemma buildChat_ok e projectID : builds (buildChat e projectID).
Proof.
  intros id o Ho. unfold buildChat. eapply quietly_try with (R := λ _, True); [|done|].
  - eapply quietly_mono; [apply quiet_quietly, quiet_entity|done].
  - intros c _. eapply quietly_bind with (R := λ r, t_ImportedFrom r.1 = Some o).
    + unfold chat. eapply quietly_bind; [apply quiet_quietly, quiet_messages|]. intros [messages u] _. by apply quietly_ret.
    + intros [thread images] Ht. apply quietly_ret. intros row attachments [= <- _]. split; [done|].
      eapply origin_read; [done|reflexivity|done|]. unfold threadObject. cbn in Ht. by rewrite Ht.
Qed.

(** *** Where an import's rows are *)

(** Where a row of the import is put, of the project it is of. *)
Definition place (project : string) (o : ImportOrigin) : string * string :=
  (rowScope (i_Kind o), rowIDOf (i_Kind o) project (importedID user source (i_Kind o) (i_SourceID o) (Z.to_nat (i_Generation o)))).
Definition copy (o : ImportOrigin) (g : nat) : ImportOrigin := mkOrigin (i_Format o) (i_Source o) (i_Kind o) (i_SourceID o) (Z.of_nat g).
(** A place that holds another row, for good. *)
Definition taken (project : string) (o : ImportOrigin) (w : Account) : Prop := ∃ x, w !! place project o = Some x ∧ origin x ≠ Some o.
Definition placed (w : Account) (k : string * string) (o : ImportOrigin) : Prop :=
  ∃ project gen, gen < maxImportGenerations ∧ i_Generation o = Z.of_nat gen ∧ k = place project o ∧ ∀ g, g < gen → taken project (copy o g) w.
(** Every row of the import is at its place, and the places before are taken. *)
Definition Inv (w : Account) : Prop := ∀ k x o, w !! k = Some x → origin x = Some o → ours o → placed w k o.

Lemma taken_stable project o : stable (taken project o).
Proof.
  intros w w' (x & Hx & Ho) Hd. unfold drift in Hd. destruct others; [|subst; by exists x]. destruct (proj1 Hd _ _ Hx) as (x' & Hx' & He).
  exists x'. by rewrite He.
Qed.
Lemma Inv_stable : stable Inv.
Proof.
  intros w w' Hw Hd k x o Hx Ho Hour. assert (placed w k o) as (project & gen & Hg & Hgen & Hk & Ht).
  { unfold drift in Hd. destruct others; [|subst; by eapply Hw]. destruct Hd as [Hold Hnew]. destruct (w !! k) as [y|] eqn:Hy; [|by edestruct Hnew].
    destruct (Hold _ _ Hy) as (x' & Hx' & He). rewrite Hx in Hx'. injection Hx' as <-. eapply Hw; [done|by rewrite <- He|done]. }
  exists project, gen. split_and!; [done..|]. intros g Hlt. eapply taken_stable; [by apply Ht|done].
Qed.
Lemma stable_and P R : stable P → stable R → stable (λ w, P w ∧ R w).
Proof. intros HP HR w w' [? ?] Hd. split; [by eapply HP|by eapply HR]. Qed.
Lemma stable_forall {A} (P : A → Account → Prop) : (∀ a, stable (P a)) → stable (λ w, ∀ a, P a w).
Proof. intros HP w w' Hw Hd a. by eapply HP. Qed.
Lemma stable_impl (H : Prop) P : stable P → stable (λ w, H → P w).
Proof. intros HP w w' Hw Hd Hh. eapply HP; [by apply Hw|done]. Qed.

(** A row pushed at the place the ones before which are taken. *)
Lemma Inv_pushed project o gen row w w' : Inv w → (∀ g, g < gen → taken project (copy o g) w) → gen < maxImportGenerations →
  i_Generation o = Z.of_nat gen → marked o row → pushes w (place project o).1 (row <| ID := (place project o).2 |>) w' → Inv w'.
Proof.
  intros Hw Ht Hg Hgen [Hetag Hread] [Hnew ->] k x o' Hx Ho' Hour. specialize (Hnew Hetag). change (ID (row <| ID := (place project o).2 |>)) with (place project o).2 in *.
  set (k0 := ((place project o).1, (place project o).2)) in *. assert (∀ k1, k1 = k0 → w !! k1 = None) as Hk0 by (by intros ? ->).
  assert (∀ p q, taken p q w → taken p q (<[k0 := Readable (row <| ID := (place project o).2 |>)]> w)) as Hmore.
  { intros p q (y & Hy & Hyo). exists y. split; [|done]. rewrite lookup_insert_ne; [done|]. intros Heq. by rewrite (Hk0 (place p q)) in Hy. }
  apply lookup_insert_Some in Hx as [[<- <-]|[Hne Hx]].
  - cbn in Ho'. unfold ReadImportOrigin in Ho', Hread. cbn in Ho'. assert (o' = o) as -> by congruence.
    exists project, gen. split_and!; [done|done| |auto]. subst k0. by rewrite <- surjective_pairing.
  - destruct (Hw _ _ _ Hx Ho' Hour) as (p & g & ? & ? & ? & Hl). exists p, g. split_and!; [done..|]. intros g' Hlt. by apply Hmore, Hl.
Qed.

(** *** One entity stored *)

Definition originAt (e : cloudEntity) (g : nat) : ImportOrigin := mkOrigin cloudImportFormat source (Kind e) (SourceID e) (Z.of_nat g).
(** Found under the id its [g]th copy has, the earlier taken. *)
Definition found (project : string) (e : cloudEntity) (id : string) (w : Account) : Prop :=
  ∃ g, g < maxImportGenerations ∧ id = importedID user source (Kind e) (SourceID e) g ∧
    (∃ x, w !! place project (originAt e g) = Some x ∧ origin x = Some (originAt e g)) ∧ ∀ g', g' < g → taken project (originAt e g') w.
(** Where no other writes, what was there from [w0] on stays, and what is new
    is the import's. *)
Definition grown (w0 w : Account) : Prop :=
  others = false → w0 ⊆ w ∧ ∀ k x, w !! k = Some x → w0 !! k = None → ∃ o, origin x = Some o ∧ ours o.
Definition kept (w0 w : Account) : Prop := Inv w ∧ grown w0 w.
Lemma grown_stable w0 : stable (grown w0).
Proof. intros w w' Hw Hd Ho. unfold drift in Hd. rewrite Ho in Hd. subst. by apply Hw. Qed.
Lemma kept_stable w0 : stable (kept w0).
Proof. apply stable_and; [apply Inv_stable|apply grown_stable]. Qed.
Lemma place_at project e g : place project (originAt e g) = (rowScope (Kind e), rowIDOf (Kind e) project (importedID user source (Kind e) (SourceID e) g)).
Proof. unfold place. cbn. by rewrite Nat2Z.id. Qed.

Definition occupied (w : Account) (k : string * string) (o : option ImportOrigin) (h : occupant) : Prop :=
  match h with
  | vacant => w !! k = None
  | sameImport => ∃ row, w !! k = Some (Readable row) ∧ ReadImportOrigin row = o ∧ is_Some o
  | anotherRow => ∃ row, w !! k = Some (Readable row) ∧ (o = None ∨ ReadImportOrigin row ≠ o)
  | otherKey => w !! k = Some Sealed
  end.
Lemma inspect_ok scope id o j w P : stable P → P w →
  after (inspect scope id o) j w (λ w' j' r, P w' ∧ j' = j ∧ match r with Some (Ok h) => occupied w' (scope, id) o h | _ => faulty = true end).
Proof.
  intros HP Hw. unfold inspect. apply after_bind. intros w1 w2 x Hd [-> Hx]. assert (P w1) as Hw1 by (by eapply HP).
  cbn. destruct x as [[row|e]|]; cbn; [| |by split_and!].
  - split_and!; [done..|]. destruct (ReadImportOrigin row) as [f|] eqn:Hf, o as [o|]; cbn; [case_bool_decide|..]; cbn.
    + subst. exists row. by split_and!.
    + exists row. split; [done|]. right. congruence.
    + exists row. by auto.
    + exists row. split; [done|]. right. by rewrite Hf.
    + exists row. by auto.
  - split_and!; [done..|]. case_bool_decide as H404; [by destruct Hx as [[_ ?]|[[? _]|[_ [? _]]]]|].
    destruct (String.eqb_spec (Rows.ErrCode (Rows.AsError e)) "KEY_MISMATCH") as [Hm|Hm]; [|by destruct Hx as [[? _]|[(_ & ? & _)|(? & _)]]].
    by destruct Hx as [[? _]|[(_ & _ & ?)|(_ & _ & ?)]].
Qed.
Lemma occupied_taken w k o h : occupied w k (Some o) h → (h = anotherRow ∨ h = otherKey) → ∃ x, w !! k = Some x ∧ origin x ≠ Some o.
Proof. intros Hh [->| ->]; cbn in Hh; [|by exists Sealed]. destruct Hh as (row & Hr & [?|?]); [done|]. by exists (Readable row). Qed.

(** What a push leaves, whatever it was answered. *)
Lemma push_kept w0 project e gen row w w' : kept w0 w → (∀ g, g < gen → taken project (originAt e g) w) → gen < maxImportGenerations →
  marked (originAt e gen) row → pushes w (rowScope (Kind e)) (row <| ID := rowIDOf (Kind e) project (importedID user source (Kind e) (SourceID e) gen) |>) w' →
  kept w0 w' ∧ (∀ g, g < gen → taken project (originAt e g) w') ∧
  ∃ x, w' !! place project (originAt e gen) = Some x ∧ origin x = Some (originAt e gen).
Proof.
  intros [Hi Hg] Ht Hlt Hmk Hpush. pose proof Hpush as [Hnew Hw']. pose proof Hmk as [Hetag Hread]. specialize (Hnew Hetag).
  change (ID (_ <| ID := ?x |>)) with x in Hnew, Hw'. rewrite <- (place_at project) in Hnew, Hw'. split_and!; [split|..].
  - eapply (Inv_pushed project (originAt e gen) gen row w w'); try done. by rewrite place_at.
  - intros Ho. destruct (Hg Ho) as [Hsub Hours]. split.
    + etrans; [exact Hsub|]. rewrite Hw'. by apply insert_subseteq.
    + intros k x. rewrite Hw', lookup_insert_Some. intros [[<- <-]|[_ Hk]] Hno; [|by eapply Hours]. by exists (originAt e gen).
  - intros g' Hg'. destruct (Ht g' Hg') as (x & Hx & Hox). exists x. split; [|done]. rewrite Hw', lookup_insert_ne; [done|].
    intros Heq. rewrite Heq in Hnew. congruence.
  - exists (Readable (row <| ID := rowIDOf (Kind e) project (importedID user source (Kind e) (SourceID e) gen) |>)). split; [|exact Hread].
    rewrite Hw'. by rewrite lookup_insert_eq.
Qed.
#[local] Arguments importedID : simpl never.

Definition restoredAs (project : string) (e : cloudEntity) (w : Account) (r : option (result Rows.err (string * restored))) : Prop :=
  match r with Some (Ok (id, _)) => found project e id w | _ => True end.
Lemma found_here project e gen w : gen < maxImportGenerations → (∀ g, g < gen → taken project (originAt e g) w) →
  occupied w (rowScope (Kind e), rowIDOf (Kind e) project (importedID user source (Kind e) (SourceID e) gen)) (Some (originAt e gen)) sameImport →
  found project e (importedID user source (Kind e) (SourceID e) gen) w.
Proof. intros Hg Ht (row & Hr & Ho & _). exists gen. split_and!; [done..| |done]. exists (Readable row). by rewrite place_at. Qed.
Lemma taken_next project e gen w h : (∀ g, g < gen → taken project (originAt e g) w) → h = anotherRow ∨ h = otherKey →
  occupied w (rowScope (Kind e), rowIDOf (Kind e) project (importedID user source (Kind e) (SourceID e) gen)) (Some (originAt e gen)) h →
  ∀ g, g < S gen → taken project (originAt e g) w.
Proof.
  intros Ht Hh Ho g Hg. destruct (decide (g = gen)) as [->|Hne]; [|by apply Ht; lia]. apply occupied_taken in Ho; [|done].
  unfold taken. by rewrite place_at.
Qed.
Lemma conflict_taken project e gen w k h : (∀ g, g < gen → taken project (originAt e g) w) →
  k = (rowScope (Kind e), rowIDOf (Kind e) project (importedID user source (Kind e) (SourceID e) gen)) →
  occupied w k (Some (originAt e gen)) h → h ≠ sameImport → is_Some (w !! k) → ∀ g, g < S gen → taken project (originAt e g) w.
Proof.
  intros Ht -> Ho Hs Hk. eapply taken_next; [done| |exact Ho]. destruct h; [|done|by left|by right]. cbn in Ho. rewrite Ho in Hk. by destruct Hk.
Qed.

Section Restore.
Context (w0 : Account) (e : cloudEntity) (project : string) (build : builder) (Hbuild : builds build).
Definition below (gen : nat) (w : Account) : Prop := kept w0 w ∧ ∀ g, g < gen → taken project (originAt e g) w.
Lemma below_stable gen : stable (below gen).
Proof. apply stable_and; [apply kept_stable|]. apply stable_forall. intros g. apply stable_impl, taken_stable. Qed.
Definition rows_of (j : Job) : Prop := j_user j = user ∧ j_source j = source.
Lemma keeps_rows j j' : keeps j j' → rows_of j → rows_of j'.
Proof. intros ([= H1 H2 _ _ _] & _) [? ?]. split; congruence. Qed.
Definition ended_well (j : Job) (w' : Account) (j' : Job) (r : option (result Rows.err (string * restored))) : Prop :=
  kept w0 w' ∧ keeps j j' ∧ restoredAs project e w' r.
Lemma present_stable k : stable (λ w, is_Some (w !! k)).
Proof. intros w w' [x Hx] Hd. unfold drift in Hd. destruct others; [|subst; by eexists]. destruct (proj1 Hd _ _ Hx) as (y & -> & _). by eexists. Qed.

(** Once a push has failed. *)
Lemma after_settled tries gen j j2 w err attachments :
  (∀ j w, rows_of j → below (S gen) w → after (restoreFrom tries (S gen) e project build) j w (ended_well j)) →
  keeps j j2 → rows_of j → gen < maxImportGenerations →
  let k := (rowScope (Kind e), rowIDOf (Kind e) project (importedID user source (Kind e) (SourceID e) gen)) in
  below gen w ∧ (conflicted err = true → is_Some (w !! k)) →
  after (settled ← inspect k.1 k.2 (Some (originAt e gen));
         match settled with
         | Err _ => mret (Err err)
         | Ok sameImport => mret (Ok (importedID user source (Kind e) (SourceID e) gen, if conflicted err then storedBefore else storedNow))
         | Ok _ => _ ← do (RetireAttachments attachments);
                   if conflicted err then restoreFrom tries (S gen) e project build else mret (Err err)
         end) j2 w (ended_well j).
Proof.
  intros IH Hk Hj Hg k Hw. apply after_bind. eapply after_mono.
  { apply (inspect_ok k.1 k.2) with (P := λ w, below gen w ∧ (conflicted err = true → is_Some (w !! k))); [|done].
    apply stable_and; [apply below_stable|]. apply stable_impl, present_stable. }
  intros w1 j1 r ([Hb Hc] & -> & Hr). destruct r as [[h|e1]|]; [|by split_and!; [apply Hb|..]..].
  assert (h ≠ sameImport → after (_ ← do (RetireAttachments attachments);
    if conflicted err then restoreFrom tries (S gen) e project build else mret (Err err)) j2 w1 (ended_well j)) as Hretire.
  { intros Hs. apply after_bind. intros w2 w3 x Hd [-> Hx]. assert (conflicted err = true → below (S gen) w2) as Hnext.
    { intros Hcon. eapply below_stable; [|exact Hd]. split; [apply Hb|]. by eapply conflict_taken; [apply Hb|reflexivity|exact Hr| |apply Hc]. }
    assert (kept w0 w2) as Hkept by (eapply kept_stable; [apply Hb|exact Hd]). destruct x as [[]|]; cbn -[restoreFrom]; [|by split_and!].
    destruct (conflicted err) eqn:Hcon; [|by apply after_ret; split_and!].
    eapply after_mono; [apply IH; [by eapply keeps_rows|by apply Hnext]|]. intros w4 j4 r4 (? & ? & ?). split_and!; [done|by etrans|done]. }
  destruct h; [by apply Hretire| |by apply Hretire..]. apply after_ret. split_and!; [apply Hb|done|]. by eapply found_here; [|apply Hb|].
Qed.
Lemma restoreFrom_ok tries : ∀ gen j w, tries + gen = maxImportGenerations → rows_of j → below gen w →
  after (restoreFrom tries gen e project build) j w (ended_well j).
Proof.
  induction tries as [|tries IH]; intros gen j w Hsum Hj Hw; cbn [restoreFrom]; [apply after_ret; by split_and!; [apply Hw|..]|].
  apply after_bind. cbn. pose proof Hj as [Hu Hs]. rewrite Hu, Hs. replace (originOf j e gen) with (originAt e gen) by (unfold originOf; by rewrite Hs).
  assert (gen < maxImportGenerations) as Hgen by lia.
  set (id := importedID user source (Kind e) (SourceID e) gen) in *. set (rowID := rowIDOf (Kind e) project id) in *.
  apply after_try. eapply after_mono; [by apply inspect_ok; [apply (below_stable gen)|]|]. intros w1 j1 r (Hw1 & -> & Hr).
  destruct r as [[h|err]|]; [|by split_and!; [apply Hw1|..]..].
  assert (h = anotherRow ∨ h = otherKey → after (restoreFrom tries (S gen) e project build) j w1 (ended_well j)) as Hnext.
  { intros Hh. apply IH; [lia|done|]. split; [apply Hw1|]. eapply taken_next; [apply Hw1|done|done]. }
  destruct h; [|by apply after_ret; split_and!; [apply Hw1|done|eapply found_here; [done|apply Hw1|exact Hr]]|by apply Hnext; left|by apply Hnext; right].
  clear Hnext Hr. apply after_try. eapply after_mono; [apply (Hbuild id (originAt e gen)) with (P := below gen)|].
  { unfold numbered. cbn. unfold min_int, max_int. unfold maxImportGenerations in Hgen. lia. }
  { apply below_stable. }
  { done. }
  intros w2 j2 r (Hw2 & Hk2 & Hb). destruct r as [[[row attachments]|err]|]; [|by split_and!; [apply Hw2|..]..].
  pose proof (Hb _ eq_refl row attachments eq_refl) as Hmk. apply after_bind. intros w3 w4 x Hd Hx.
  assert (below gen w3) as Hw3 by (by eapply below_stable).
  assert (∀ w', pushes w3 (rowScope (Kind e)) (row <| ID := rowID |>) w' →
    below gen w' ∧ ∃ x, w' !! place project (originAt e gen) = Some x ∧ origin x = Some (originAt e gen)) as Hpushed.
  { intros w' Hp. destruct (push_kept w0 project e gen row w3 w' ltac:(apply Hw3) ltac:(apply Hw3) Hgen Hmk Hp) as (? & ? & ?). by split; [split|]. }
  assert (keeps j j2) as Hkj by done. cbn in Hx. destruct x as [[etag|err]|].
  - destruct (Hpushed _ Hx) as [[Hk Ht] Hf]. cbn. split_and!; [done..|]. by exists gen.
  - refine (after_settled tries gen j j2 w4 err attachments _ Hkj Hj Hgen _); [intros; apply IH; [lia|done..]|]. clear Hd. destruct Hx as [[-> Hc]|[_ Hp]].
    + split; [done|]. intros Hcon. by rewrite Hcon in Hc.
    + destruct (Hpushed _ Hp) as [Hk (y & Hy & _)]. split; [done|]. intros _. rewrite place_at in Hy. by eexists.
  - cbn. destruct Hx as [_ [->|Hp]]; [|destruct (Hpushed _ Hp) as [[? ?] _]]; split_and!; try done. apply Hw3.
Qed.
End Restore.

Definition isHeld (j : Job) (e : cloudEntity) (project : string) : bool :=
  bool_decide (SourceID e ∈ default ∅ (j_held j !! rowScope (Kind e))) && (negb (String.eqb (Kind e) "document") || String.eqb project (ProjectSourceID e)).
Definition ownID (e : cloudEntity) (project : string) : string :=
  if String.eqb (Kind e) "document" then Timeline.TrimPrefix (SourceID e) (String.append project "/") else SourceID e.
Definition ownPlace (e : cloudEntity) : string * string := (rowScope (Kind e), SourceID e).
Definition readable (w : Account) (k : string * string) : Prop := ∃ row, w !! k = Some (Readable row).
(** What an entity came to: its own row, or the import's. *)
Definition resolved (w0 : Account) (j : Job) (e : cloudEntity) (project id : string) (w : Account) : Prop :=
  (isHeld j e project = true ∧ id = ownID e project ∧ (others = false → readable w (ownPlace e))) ∨
  (found project e id w ∧ (isHeld j e project = true → others = false → ¬ readable w0 (ownPlace e))).
#[local] Opaque maxImportGenerations.
Lemma restore_from e project build j :
  restore e project build j =
  (if isHeld j e project
   then holder ←? inspect (rowScope (Kind e)) (SourceID e) None;
        match holder with
        | anotherRow => mret (Ok (ownID e project, storedBefore))
        | _ => restoreFrom maxImportGenerations 0 e project build
        end
   else restoreFrom maxImportGenerations 0 e project build) j.
Proof. reflexivity. Qed.
Lemma after_same {A} (m m' : M A) j w (Q : Account → Job → option A → Prop) : m j = m' j → after m' j w Q → after m j w Q.
Proof. unfold after. by intros ->. Qed.
Lemma restore_ok w0 e project build j w : builds build → rows_of j → kept w0 w →
  after (restore e project build) j w (λ w' j' r, kept w0 w' ∧ keeps j j' ∧
    match r with Some (Ok (id, _)) => resolved w0 j e project id w' | _ => True end).
Proof.
  intros Hb Hj Hw. eapply after_same; [apply restore_from|].
  assert (∀ w, kept w0 w → (isHeld j e project = true → others = false → ¬ readable w0 (ownPlace e)) →
    after (restoreFrom maxImportGenerations 0 e project build) j w (λ w' j' r, kept w0 w' ∧ keeps j j' ∧
      match r with Some (Ok (id, _)) => resolved w0 j e project id w' | _ => True end)) as Hfresh.
  { intros w1 Hw1 Hno. eapply after_mono; [by eapply (restoreFrom_ok w0); [|done..|split; [done|intros g Hg; lia]]|].
    intros w2 j2 r (? & ? & Hr). split_and!; [done..|]. destruct r as [[[id out]|]|]; [|done..]. by right. }
  destruct (isHeld j e project) eqn:Hheld; [|by apply Hfresh]. apply after_try.
  eapply after_mono; [by apply (inspect_ok (rowScope (Kind e)) (SourceID e)) with (P := kept w0); [apply kept_stable|]|].
  intros w1 j1 r (Hw1 & -> & Hr). destruct r as [[h|err]|]; [|by split_and!..].
  assert (∀ row, w1 !! ownPlace e ≠ Some (Readable row) → others = false → w0 !! ownPlace e ≠ Some (Readable row)) as Hno.
  { intros row H1 Ho H0. destruct Hw1 as [_ Hg]. destruct (Hg Ho) as [Hsub _]. by apply H1, (lookup_weaken _ _ _ _ H0). }
  destruct h; [| |apply after_ret; split_and!; [done..|by left; split_and!; [..|intros _; destruct Hr as (row & ? & _); exists row]]|].
  - apply Hfresh; [done|]. intros _ Ho [row Hrow]. apply (Hno row); [|done..]. unfold ownPlace. cbn in Hr. by rewrite Hr.
  - by destruct Hr as (row & _ & _ & [o Ho]).
  - apply Hfresh; [done|]. intros _ Ho [row Hrow]. apply (Hno row); [|done..]. unfold ownPlace. cbn in Hr. by rewrite Hr.
Qed.

(** *** The whole *)

(** What every step leaves: who the job is for, and the bounds of its notes. *)
Definition follows (j j' : Job) : Prop :=
  (j_user j', j_source j', j_id j') = (j_user j, j_source j, j_id j) ∧ (bounded (j_report j) → bounded (j_report j')).
#[local] Instance follows_preorder : PreOrder follows.
Proof. split; [done|]. intros j1 j2 j3 [H1 H2] [H3 H4]. split; [by rewrite H3|auto]. Qed.
Lemma keeps_follows j j' : keeps j j' → follows j j'.
Proof. intros ([= H1 H2 H3 _ _] & _ & Hb). split; [by rewrite H1, H2, H3|done]. Qed.
Lemma follows_rows j j' : follows j j' → rows_of j → rows_of j'.
Proof. intros ([= H1 H2 _] & _) [? ?]. split; congruence. Qed.
Lemma kept_refl w : Inv w → kept w w.
Proof. intros Hw. split; [done|]. intros _. split; [done|]. intros k x H1 H2. congruence. Qed.
Lemma kept_trans w1 w2 w3 : kept w1 w2 → kept w2 w3 → kept w1 w3.
Proof.
  intros [_ H12] [Hi H23]. split; [done|]. intros Ho. destruct (H12 Ho) as [Ha Hb], (H23 Ho) as [Hc Hd]. split; [by etrans|].
  intros k x Hx Hn. destruct (w2 !! k) as [y|] eqn:Hy; [|by eapply Hd]. rewrite (lookup_weaken _ _ _ _ Hy Hc) in Hx. injection Hx as ->. by eapply Hb.
Qed.
Lemma kept_drift w w' : Inv w → drift w w' → kept w w'.
Proof. intros Hi Hd. by apply (kept_stable w w w'); [apply kept_refl|]. Qed.

(** How the counts stand. *)
Definition countsOf (j : Job) (kind : string) : ImportKindCounts := default noCounts (Counts (j_report j) !! kind).
Definition tally (j : Job) (kind : string) : nat := let c := countsOf j kind in Imported c + Skipped c + Failed c + Blocked c.
Definition bad (j : Job) (kind : string) : nat := Failed (countsOf j kind) + Blocked (countsOf j kind).
Definition advanced (kind : string) (n : nat) (j j' : Job) : Prop :=
  (∀ k, tally j' k = tally j k + if String.eqb k kind then n else 0) ∧ (∀ k, bad j k ≤ bad j' k).
Lemma advanced_trans kind n n' j1 j2 j3 : advanced kind n j1 j2 → advanced kind n' j2 j3 → advanced kind (n + n') j1 j3.
Proof.
  intros [H1 H2] [H3 H4]. split; [|intros k; by apply (Nat.le_trans _ (bad j2 k))]. intros k. rewrite H3, H1. destruct (String.eqb k kind); lia.
Qed.
Lemma advanced_same kind j j' : Counts (j_report j') = Counts (j_report j) → advanced kind 0 j j'.
Proof. intros Hc. unfold advanced, tally, bad, countsOf. rewrite Hc. split; intros k; [destruct (String.eqb k kind); lia|done]. Qed.
(** Where it stands otherwise. *)
Definition standing (j : Job) : string * nat * string := (Phase (j_report j), Total (j_report j), FailureReason (j_report j)).
Definition failing (j : Job) : Prop := FailureReason (j_report j) ∈ importFailureMessages.*1.
(** What a step of the storing leaves, panics included; and one that ends. *)
Definition moved (j j' : Job) (w w' : Account) : Prop := kept w w' ∧ follows j j'.
Lemma moved_trans j1 j2 j3 w1 w2 w3 : moved j1 j2 w1 w2 → moved j2 j3 w2 w3 → moved j1 j3 w1 w3.
Proof. intros [H1 H2] [H3 H4]. split; [by eapply kept_trans|by etrans]. Qed.

Lemma after_modify f j w (Q : Account → Job → option unit → Prop) : Q w (f j) (Some tt) → after (modify f) j w Q.
Proof. done. Qed.
Definition totaled (r : ImportReport) : ImportReport :=
  r <| ImportedTotal := total Imported (Counts r) |> <| FailedTotal := total Failed (Counts r) |>.
Lemma after_progress j w (Q : Account → Job → option unit → Prop) :
  (∀ w' x, drift w w' → Q w' (j <| j_report ::= totaled |>) x) → after progress j w Q.
Proof. intros HQ. unfold progress. apply after_bind, after_modify, after_bind. intros w1 w2 x Hd [-> _]. destruct x; by apply HQ. Qed.
Lemma after_fail reason e j w (Q : Account → Job → option (result Rows.err unit) → Prop) :
  Q w (j <| j_report ::= λ r, r <| FailureReason := reason |> |>) (Some (Err e)) → after (fail reason e) j w Q.
Proof. intros HQ. unfold fail. apply after_bind. done. Qed.

Definition counted (r : result Rows.err restored) (c : ImportKindCounts) : ImportKindCounts :=
  match r with Err _ => c <| Failed ::= S |> | Ok storedBefore => c <| Skipped ::= S |> | Ok storedNow => c <| Imported ::= S |> end.
Definition bumped (kind : string) (f : ImportKindCounts → ImportKindCounts) (j j' : Job) : Prop :=
  Counts (j_report j') = <[kind := f (default noCounts (Counts (j_report j) !! kind))]> (Counts (j_report j)).
Lemma bumped_counts kind f j j' k : bumped kind f j j' → countsOf j' k = if String.eqb k kind then f (countsOf j k) else countsOf j k.
Proof.
  intros Hb. unfold countsOf. rewrite Hb. destruct (String.eqb_spec k kind) as [->|Hne]; [by rewrite lookup_insert_eq|by rewrite lookup_insert_ne].
Qed.
Definition whole (c : ImportKindCounts) : nat := Imported c + Skipped c + Failed c + Blocked c.
Lemma bumped_advanced kind f j j' : (∀ c, whole (f c) = S (whole c) ∧ Failed c + Blocked c ≤ Failed (f c) + Blocked (f c)) → bumped kind f j j' → advanced kind 1 j j'.
Proof.
  intros Hf Hb. split; intros k; unfold tally, bad; rewrite (bumped_counts _ _ _ _ k Hb); destruct (String.eqb k kind); try lia.
  - destruct (Hf (countsOf j k)) as [H _]. unfold whole in H. lia.
  - apply Hf.
Qed.
Lemma counted_one r c : whole (counted r c) = S (whole c) ∧ Failed c + Blocked c ≤ Failed (counted r c) + Blocked (counted r c).
Proof. unfold whole. destruct r as [[]|]; cbn; lia. Qed.

Definition totals (j : Job) : Prop :=
  ImportedTotal (j_report j) = total Imported (Counts (j_report j)) ∧ FailedTotal (j_report j) = total Failed (Counts (j_report j)).
Lemma count_ok kind r j w : Inv w → after (count kind r) j w (λ w' j' x, moved j j' w w' ∧ j_held j' = j_held j ∧ bumped kind (counted r) j j' ∧
  match x with
  | Some (Ok _) => standing j' = standing j
  | Some (Err _) => failing j' ∧ r ≠ Ok storedNow ∧ r ≠ Ok storedBefore
  | None => True
  end).
Proof.
  intros Hi. unfold count. apply after_bind.
  assert (∃ f, (∀ j, follows j (j <| j_report ::= f |>) ∧ standing (j <| j_report ::= f |>) = standing j ∧ bumped kind (counted r) j (j <| j_report ::= f |>)) ∧
    (match r with
     | Err _ => _ ← onReport (λ r, r <| Errors ::= λ l, note l (String.append kind " failed") |>); onCounts kind (λ c, c <| Failed ::= S |>)
     | Ok storedBefore => onCounts kind (λ c, c <| Skipped ::= S |>)
     | Ok storedNow => onCounts kind (λ c, c <| Imported ::= S |>)
     end) j = modify (λ j, j <| j_report ::= f |>) j) as (f & Hf & Heq).
  { destruct r as [[]|e].
    - eexists. split; [|reflexivity]. intros j0. by split_and!.
    - eexists. split; [|reflexivity]. intros j0. by split_and!.
    - exists (λ r, r <| Errors ::= λ l, note l (String.append kind " failed") |> <| Counts ::= λ m, <[kind := (default noCounts (m !! kind)) <| Failed ::= S |>]> m |>).
      split; [|reflexivity]. intros j0. split_and!; [|done|done]. split; [done|]. intros [H1 H2]. split; [done|by apply note_bound]. }
  eapply after_same; [exact Heq|]. apply after_modify, after_bind, after_progress. intros w1 x Hd. destruct (Hf j) as (Hfo & Hst & Hb).
  set (j1 := j <| j_report ::= f |>) in *. set (j2 := j1 <| j_report ::= totaled |>).
  assert (moved j j2 w w1) as Hm by (split; [by apply kept_drift|exact Hfo]).
  destruct x as [[]|]; [|by split_and!]. destruct r as [out|e]; [by split_and!|].
  apply after_bind. intros w2 w3 y Hd2 [-> Hy]. assert (moved j j2 w w2) as Hm2.
  { destruct Hm as [Hk Hfo2]. split; [|exact Hfo2]. by eapply kept_stable. }
  destruct y as [[over|]|]; cbn; [| |by split_and!].
  - split_and!; try done. unfold failing. cbn. set_solver.
  - case_bool_decide; cbn; split_and!; try done. unfold failing. cbn. set_solver.
Qed.
(** The ids of a scope, as they are listed. *)
Definition lists (j : Job) (scope : string) (w : Account) : Prop :=
  others = false → ∀ i, i ∈ default ∅ (j_held j !! scope) ↔ is_Some (w !! (scope, i)).
Lemma hold_ok entities kind j w : Inv w → after (hold entities kind) j w (λ w' j' x, moved j j' w w' ∧
  Counts (j_report j') = Counts (j_report j) ∧ (Phase (j_report j'), Total (j_report j')) = (Phase (j_report j), Total (j_report j)) ∧
  match x with
  | Some (Ok _) => FailureReason (j_report j') = FailureReason (j_report j) ∧ (Exists (λ e, Kind e = kind) entities → lists j' (rowScope kind) w')
  | Some (Err _) => failing j'
  | None => True
  end).
Proof.
  intros Hi. unfold hold. destruct (existsb _ entities) eqn:Hex; cbn [negb].
  - apply after_bind. intros w1 w2 x Hd [-> Hx]. assert (kept w w1) as Hk by (by apply kept_drift).
    assert (∀ f, (∀ r, bounded r → bounded (f r)) → moved j (j <| j_report ::= f |>) w w1) as Hm by (intros f Hf; split; [done|split; [done|apply Hf]]).
    cbn [do]. destruct x as [[ids|e]|]; [| |by split_and!].
    + cbn. split_and!; [by split|done..|]. cbn. split; [done|]. intros _ Ho i. destruct Hx as [?|Hx]; [congruence|]. cbn. rewrite lookup_insert_eq. cbn.
      rewrite elem_of_list_to_set. apply Hx.
    + apply after_bind. intros w3 w4 y Hd2 [-> Hy]. assert (kept w w3) as Hk3 by (by eapply kept_stable). assert (follows j j) as Hfo by done.
      destruct y as [[over|]|]; cbn; [| |by split_and!].
      * split_and!; try done. unfold failing. cbn. set_solver.
      * split_and!; try done. unfold failing. cbn. case_bool_decide; set_solver.
  - apply after_ret. split_and!; [by split; [apply kept_refl|]|done..|]. intros Hall. exfalso. apply not_true_iff_false in Hex. apply Hex, existsb_exists.
    apply Exists_exists in Hall as (e & He & Hk). exists e. split; [by apply list_elem_of_In|by apply String.eqb_eq].
Qed.
Lemma phase_ok name j w : Inv w → after (phase name) j w (λ w' j' x, moved j j' w w' ∧ j_held j' = j_held j ∧
  Counts (j_report j') = Counts (j_report j) ∧ (Phase (j_report j'), Total (j_report j'), FailureReason (j_report j')) =
    (name, Total (j_report j), FailureReason (j_report j)) ∧ totals j').
Proof.
  intros Hi. unfold phase. apply after_bind, after_modify, after_progress. intros w1 x Hd. split_and!; try done. split; [by apply kept_drift|done].
Qed.
Lemma block_ok kind j w : Inv w → after (block kind) j w (λ w' j' x, moved j j' w w' ∧ j_held j' = j_held j ∧
  bumped kind (λ c, c <| Blocked ::= S |>) j j' ∧ standing j' = standing j).
Proof.
  intros Hi. unfold block. apply after_bind, after_modify, after_progress. intros w1 x Hd. split_and!; try done. split; [by apply kept_drift|done].
Qed.

(** *** The loops *)

Lemma grown_of w w' : kept w w' → others = false → w ⊆ w'.
Proof. intros [_ Hg] Ho. by apply Hg. Qed.
Lemma taken_more project o w w' : w ⊆ w' → taken project o w → taken project o w'.
Proof. intros Hs (x & Hx & Ho). exists x. split; [|done]. by eapply lookup_weaken. Qed.
Lemma found_more project e id w w' : w ⊆ w' → found project e id w → found project e id w'.
Proof.
  intros Hs (g & Hg & Hid & (x & Hx & Ho) & Ht). exists g. split_and!; [done..| |]; [exists x; split; [by eapply lookup_weaken|done]|].
  intros g' Hg'. eapply taken_more; [done|by apply Ht].
Qed.

Section Loops.
Context (entities : list cloudEntity).
(** Others do not write, and no entity is named in its source as this import
    names rows. *)
Definition foreign : Prop := others = false ∧ ∀ e project o, e ∈ entities → ours o → ownPlace e ≠ place project o.

Definition fits (e : cloudEntity) (project : string) : bool := negb (String.eqb (Kind e) "document") || String.eqb project (ProjectSourceID e).
(** What an entity is stored as: its own row where that can be read, the
    import's first otherwise. *)
Definition settled (e : cloudEntity) (project id : string) (w : Account) : Prop :=
  (readable w (ownPlace e) ∧ fits e project = true ∧ id = ownID e project) ∨
  (found project e id w ∧ ¬ (readable w (ownPlace e) ∧ fits e project = true)).
Lemma own_same e w w' : foreign → e ∈ entities → kept w w' → w' !! ownPlace e = w !! ownPlace e.
Proof.
  intros [Ho Hforeign] He [Hi Hg]. destruct (Hg Ho) as [Hs Hn]. destruct (w !! ownPlace e) as [x|] eqn:Hx; [by eapply lookup_weaken|].
  destruct (w' !! ownPlace e) as [x|] eqn:Hx'; [|done]. destruct (Hn _ _ Hx' Hx) as (o & Hox & Hours). exfalso.
  destruct (Hi _ _ _ Hx' Hox Hours) as (project & gen & _ & _ & Heq & _). by eapply Hforeign.
Qed.
Lemma settled_more e project id w w' : foreign → e ∈ entities → kept w w' → settled e project id w → settled e project id w'.
Proof.
  intros Hfor He Hk. pose proof (proj1 Hfor) as Ho. assert (readable w' (ownPlace e) ↔ readable w (ownPlace e)) as Hr by (unfold readable; by rewrite (own_same e w w')).
  unfold settled. rewrite Hr. intros [?|[Hf ?]]; [by left|right]. split; [|done]. eapply found_more; [by apply grown_of|done].
Qed.
(** What is held of a kind is what the account held when its storing began. *)
Definition rightly (kind : string) (j : Job) (w : Account) : Prop :=
  ∀ e, e ∈ entities → Kind e = kind → (SourceID e ∈ default ∅ (j_held j !! rowScope kind) ↔ is_Some (w !! ownPlace e)).
Lemma rightly_more kind j j' w w' : foreign → kept w w' → j_held j' = j_held j → rightly kind j w → rightly kind j' w'.
Proof. intros Hfor Hk Hh Hr e He Hkind. rewrite Hh, (own_same e w w') by done. by apply Hr. Qed.
Lemma resolved_settled e project id j w0 w : foreign → e ∈ entities → rightly (Kind e) j w0 → kept w0 w → resolved w0 j e project id w →
  settled e project id w.
Proof.
  intros Hfor He Hr Hk Hres. pose proof (proj1 Hfor) as Ho. assert (readable w (ownPlace e) ↔ readable w0 (ownPlace e)) as Hown by (unfold readable; by rewrite (own_same e w0 w)).
  destruct Hres as [(Hheld & Hid & Hread)|[Hf Hno]].
  - left. apply andb_true_iff in Hheld as [_ Hfit]. by split_and!; [apply Hread| |].
  - right. split; [done|]. intros [Hread Hfit]. apply Hown in Hread. apply Hno; [|done..]. apply andb_true_iff. split; [|exact Hfit].
    apply bool_decide_eq_true_2, (Hr e He eq_refl). destruct Hread as [row Hrow]. rewrite Hrow. by eexists.
Qed.

(** One entity of a loop. *)
Definition step_of (e : cloudEntity) (project : string) (j j' : Job) (w w' : Account) (r : result Rows.err (string * restored)) : Prop :=
  moved j j' w w' ∧ j_held j' = j_held j ∧ standing j' = standing j ∧ advanced (Kind e) 1 j j' ∧
  match r with
  | Ok (id, _) => foreign → e ∈ entities → rightly (Kind e) j w → settled e project id w'
  | Err _ => bad j (Kind e) < bad j' (Kind e)
  end.
(** How a loop may end before its end. *)
Definition stopped {B} (j j' : Job) (w w' : Account) (r : option (result Rows.err B)) : Prop :=
  moved j j' w w' ∧ match r with Some (Ok _) => False | Some (Err _) => failing j' | None => True end.
Lemma entity_ok {B} e project build (K : result Rows.err (string * restored) → M (result Rows.err B)) j w (Q : Account → Job → option (result Rows.err B) → Prop) :
  builds build → rows_of j → Inv w → (∀ w' j' r, stopped j j' w w' r → Q w' j' r) →
  (∀ r w' j', step_of e project j j' w w' r → after (K r) j' w' Q) →
  after (r ← restore e project build; _ ←? count (Kind e) (outcomeOf r); K r) j w Q.
Proof.
  intros Hb Hj Hi Hstop Hgo. apply after_bind. eapply after_mono; [apply (restore_ok w); [done..|by apply kept_refl]|].
  intros w1 j1 r (Hk & Hkeep & Hr). assert (moved j j1 w w1) as Hm by (split; [done|by apply keeps_follows]).
  destruct r as [r|]; [|by apply Hstop]. apply after_try. eapply after_mono; [apply (count_ok (Kind e) (outcomeOf r) j1 w1), Hk|].
  intros w2 j2 x (Hm2 & Hheld & Hbump & Hx). assert (moved j j2 w w2) as Hmm by (by eapply moved_trans).
  destruct x as [[[]|err]|]; [|apply Hstop; split; [done|apply Hx]|by apply Hstop].
  destruct Hkeep as ([= H1 H2 H3 H4 H5] & [= H6 H7 H8 H9] & _). apply Hgo. split_and!.
  - done.
  - by rewrite Hheld.
  - rewrite Hx. unfold standing. by rewrite H6, H7, H9.
  - assert (advanced (Kind e) (0 + 1) j j2) as H; [|exact H]. eapply advanced_trans; [by apply advanced_same|].
    eapply bumped_advanced; [|exact Hbump]. apply counted_one.
  - destruct r as [[id out]|err].
    + intros Hfor He Hrightly. eapply settled_more; [done|done|apply Hm2|]. eapply resolved_settled; [done|done|exact Hrightly|exact Hk|exact Hr].
    + unfold bad. rewrite !(bumped_counts _ _ _ _ (Kind e) Hbump), String.eqb_refl. unfold countsOf. rewrite H8. cbn. lia.
Qed.

Lemma found_unique e project id id' w : found project e id w → found project e id' w → id = id'.
Proof.
  intros (g & _ & -> & (x & Hx & Ho) & Ht) (g' & _ & -> & (x' & Hx' & Ho') & Ht'). destruct (Nat.lt_trichotomy g g') as [Hlt|[->|Hlt]]; [|done|].
  - destruct (Ht' g Hlt) as (y & Hy & Hyo). congruence.
  - destruct (Ht g' Hlt) as (y & Hy & Hyo). congruence.
Qed.
Lemma settled_unique e project id id' w : settled e project id w → settled e project id' w → id = id'.
Proof. intros [(H1 & H2 & ->)|[H1 H2]] [(H3 & H4 & ->)|[H3 H4]]; [done|by destruct H4|by destruct H2|by eapply found_unique]. Qed.

Definition of_kind (kind : string) (l : list cloudEntity) : nat := length (List.filter (λ e, String.eqb (Kind e) kind) l).
(** What a loop over the entities of a kind leaves. *)
Definition looped (kind : string) (l : list cloudEntity) (j j' : Job) (w w' : Account) : Prop :=
  moved j j' w w' ∧ j_held j' = j_held j ∧ standing j' = standing j ∧ advanced kind (of_kind kind l) j j'.
Lemma looped_nil kind j w : Inv w → looped kind [] j j w w.
Proof. intros Hi. split_and!; [split; [by apply kept_refl|done]|done..|by apply advanced_same]. Qed.
Lemma looped_other kind e l j j' w w' : Kind e ≠ kind → looped kind l j j' w w' → looped kind (e :: l) j j' w w'.
Proof. intros Hne. unfold looped, of_kind. cbn. by rewrite (proj2 (String.eqb_neq _ _) Hne). Qed.
Lemma looped_cons kind e l j j1 j' w w1 w' : Kind e = kind → moved j j1 w w1 → j_held j1 = j_held j → standing j1 = standing j → advanced kind 1 j j1 →
  looped kind l j1 j' w1 w' → looped kind (e :: l) j j' w w'.
Proof.
  intros <- Hm Hh Hs Ha (Hm2 & Hh2 & Hs2 & Ha2). split_and!; [by eapply moved_trans|congruence|congruence|].
  unfold of_kind. cbn. rewrite String.eqb_refl. by eapply (advanced_trans _ 1).
Qed.
Lemma stopped_trans {B} j1 j2 j3 w1 w2 w3 (r : option (result Rows.err B)) : moved j1 j2 w1 w2 → stopped j2 j3 w2 w3 r → stopped j1 j3 w1 w3 r.
Proof. intros Hm [Hm2 Hr]. split; [by eapply moved_trans|done]. Qed.
Lemma moved_rows j j' w w' : moved j j' w w' → rows_of j → rows_of j'.
Proof. intros [_ Hf]. by eapply follows_rows. Qed.

(** The projects of the entities, by what ids they were stored as. *)
Definition projectsFrom (f : cloudEntity → string) (l : list cloudEntity) (ps : Projects) : Projects :=
  foldl (λ ps e, if String.eqb (Kind e) "project" then (<[SourceID e := f e]> ps.1, ps.2) else ps) ps l.
Lemma projectsFrom_ext f g l ps : (∀ e, e ∈ l → Kind e = "project"%string → f e = g e) → projectsFrom f l ps = projectsFrom g l ps.
Proof.
  revert ps. induction l as [|e l IH]; intros ps Hfg; [done|]. cbn. destruct (String.eqb_spec (Kind e) "project").
  - rewrite (Hfg e) by (by left || done). apply IH. intros e' He'. apply Hfg. by right.
  - apply IH. intros e' He'. apply Hfg. by right.
Qed.
Lemma storeProjects_ok l : l ⊆ entities → ∀ ps j w, rows_of j → Inv w → after (storeProjects l ps) j w (λ w' j' r,
  stopped j j' w w' r ∨ ∃ ps', r = Some (Ok ps') ∧ looped "project" l j j' w w' ∧
    (foreign → rightly "project" j w → bad j' "project" = bad j "project" →
     ∃ f, ps' = projectsFrom f l ps ∧ ∀ e, e ∈ l → Kind e = "project"%string → settled e "" (f e) w')).
Proof.
  induction l as [|e l IH]; intros Hl ps j w Hj Hi; cbn [storeProjects].
  - apply after_ret. right. exists ps. split_and!; [done|by apply looped_nil|]. intros _ _ _. exists (λ _, ""%string). split; [done|]. intros e He. by apply not_elem_of_nil in He.
  - assert (e ∈ entities ∧ l ⊆ entities) as [He Hl'] by set_solver. destruct (String.eqb_spec (Kind e) "project") as [Hkind|Hkind]; cbn [negb].
    + apply entity_ok; [apply buildProject_ok|done|done|by left|]. intros r w1 j1 (Hm & Hh & Hs & Ha & Hr). rewrite Hkind in *.
      eapply after_mono; [apply IH; [done|by eapply moved_rows|apply Hm]|]. intros w2 j2 r2 [Hst|(ps' & -> & Hloop & Hps)]; [left; by eapply stopped_trans|].
      right. exists ps'. split_and!; [done|by eapply looped_cons|]. intros Hfor Hright Hbad. destruct Hloop as (Hm2 & Hh2 & _ & Ha2).
      destruct Ha as [_ Hb1], Ha2 as [_ Hb2]. specialize (Hb1 "project"%string). specialize (Hb2 "project"%string).
      destruct r as [[id out]|err]; [|lia].
      destruct Hps as (f & -> & Hf); [done|by eapply rightly_more; [|apply Hm| |]|lia|].
      assert (settled e "" id w2) as Hid by (apply (settled_more e "" id w1 w2); [done|done|apply Hm2|by apply Hr]).
      exists (λ x, if decide (x = e) then id else f x). split.
      * cbn. rewrite Hkind. cbn. rewrite decide_True by done. apply projectsFrom_ext. intros x Hx Hxk. case_decide; [subst|done].
        eapply settled_unique; [by apply Hf|done].
      * intros x [->|Hx]%elem_of_cons Hxk; case_decide; subst; [done|done|done|by apply Hf].
    + eapply after_mono; [by apply IH|]. intros w2 j2 r2 [Hst|(ps' & -> & Hloop & Hps)]; [by left|]. right. exists ps'. split_and!; [done|by apply looped_other|].
      intros Hfor Hright Hbad. destruct (Hps Hfor Hright Hbad) as (f & -> & Hf). exists f. split.
      * cbn. by rewrite (proj2 (String.eqb_neq _ _) Hkind).
      * intros x [->|Hx]%elem_of_cons Hk; [done|by apply Hf].
Qed.
(** An entity of a project that was stored, or of none. *)
Definition homed (ps : Projects) (e : cloudEntity) : option string :=
  if String.eqb (Kind e) "chat" && String.eqb (ProjectSourceID e) "" then Some ""%string else projectOf ps (ProjectSourceID e).
(** The project a row is filed under. *)
Definition filed (e : cloudEntity) (project : string) : string := if String.eqb (Kind e) "document" then project else "".
Definition storedUnder (ps : Projects) (kind : string) (l : list cloudEntity) (w : Account) : Prop :=
  ∀ e, e ∈ l → Kind e = kind → ∃ project id, homed ps e = Some project ∧ settled e (filed e project) id w.
(** What the loops over the documents and over the chats share. *)
Definition under (ps : Projects) (kind : string) (loop : list cloudEntity → M (result Rows.err unit)) : Prop := ∀ l, l ⊆ entities → ∀ j w, rows_of j → Inv w →
  after (loop l) j w (λ w' j' r, stopped j j' w w' r ∨ r = Some (Ok tt) ∧ looped kind l j j' w w' ∧
    (foreign → rightly kind j w → bad j' kind = bad j kind → storedUnder ps kind l w')).
(** A loop over the entities of a kind. *)
Definition loops (ps : Projects) (kind : string) (loop : list cloudEntity → M (result Rows.err unit)) (build : cloudEntity → string → builder) : Prop :=
  (∀ j, loop [] j = (mret (Ok tt) : M (result Rows.err unit)) j) ∧
  ∀ e l j, loop (e :: l) j = (if negb (String.eqb (Kind e) kind) then loop l else
     match homed ps e with
     | None => _ ← block (Kind e); loop l
     | Some project => r ← restore e (filed e project) (build e project); _ ←? count (Kind e) (outcomeOf r); loop l
     end) j.
Lemma documents_loop ps : loops ps "document" (storeDocuments ps) buildDocument.
Proof.
  split; [done|]. intros e l j. cbn [storeDocuments]. destruct (String.eqb_spec (Kind e) "document") as [Hk|]; [|done].
  cbn [negb]. unfold homed, filed. by rewrite Hk.
Qed.
Lemma chats_loop ps : loops ps "chat" (storeChats ps) buildChat.
Proof.
  split; [done|]. intros e l j. cbn [storeChats]. destruct (String.eqb_spec (Kind e) "chat") as [Hk|]; [|done].
  cbn [negb]. unfold homed, filed. rewrite Hk. cbn. by destruct (String.eqb (ProjectSourceID e) "").
Qed.
Lemma loop_ok ps kind (loop : list cloudEntity → M (result Rows.err unit)) (build : cloudEntity → string → builder) :
  loops ps kind loop build → (∀ e project, builds (build e project)) → under ps kind loop.
Proof.
  intros [Hnil Hcons] Hbuild l. induction l as [|e l IH]; intros Hl j w Hj Hi.
  - eapply after_same; [apply Hnil|]. apply after_ret. right. split_and!; [done|by apply looped_nil|]. intros _ _ _ e He. by apply not_elem_of_nil in He.
  - assert (e ∈ entities ∧ l ⊆ entities) as [He Hl'] by set_solver. eapply after_same; [apply Hcons|].
    destruct (String.eqb_spec (Kind e) kind) as [Hkind|Hkind]; cbn [negb].
    + destruct (homed ps e) as [project|] eqn:Hhome.
      * apply entity_ok; [apply Hbuild|done|done|by left|]. intros r w1 j1 (Hm & Hh & Hs & Ha & Hr). rewrite Hkind in Ha, Hr.
        eapply after_mono; [apply IH; [done|by eapply moved_rows|apply Hm]|]. intros w2 j2 r2 [Hst|(-> & Hloop & Hps)]; [left; by eapply stopped_trans|].
        right. split_and!; [done|by eapply looped_cons|]. intros Hfor Hright Hbad. destruct Hloop as (Hm2 & Hh2 & _ & Ha2).
        destruct Ha as [_ Hb1], Ha2 as [_ Hb2]. specialize (Hb1 kind). specialize (Hb2 kind). destruct r as [[id out]|err]; [|lia].
        intros x [->|Hx]%elem_of_cons Hxk.
        -- exists project, id. split; [done|]. eapply settled_more; [done|done|apply Hm2|]. by apply Hr.
        -- apply Hps; [done|by eapply rightly_more; [|apply Hm| |]|lia|done..].
      * apply after_bind. eapply after_mono; [by apply block_ok|]. intros w1 j1 x (Hm & Hh & Hbump & Hs).
        destruct x as [[]|]; [|by left]. eapply after_mono; [apply IH; [done|by eapply moved_rows|apply Hm]|].
        assert (advanced (Kind e) 1 j j1) as Ha by (eapply bumped_advanced; [|exact Hbump]; intros c; unfold whole; cbn; lia).
        intros w2 j2 r2 [Hst|(-> & Hloop & Hps)]; [left; by eapply stopped_trans|]. right. rewrite Hkind in Ha.
        split_and!; [done|by eapply looped_cons|]. intros _ _ Hbad. exfalso. destruct Hloop as (_ & _ & _ & [_ Hb2]). specialize (Hb2 kind).
        assert (bad j1 kind = S (bad j kind)); [|lia]. unfold bad. rewrite !(bumped_counts _ _ _ _ kind Hbump), Hkind, String.eqb_refl. cbn. lia.
    + eapply after_mono; [by apply IH|]. intros w2 j2 r2 [Hst|(-> & Hloop & Hps)]; [by left|]. right. split_and!; [done|by apply looped_other|].
      intros Hfor Hright Hbad x [->|Hx]%elem_of_cons Hxk; [done|by apply Hps].
Qed.
Lemma storeDocuments_ok ps : under ps "document" (storeDocuments ps).
Proof. eapply loop_ok; [apply documents_loop|apply buildDocument_ok]. Qed.
Lemma storeChats_ok ps : under ps "chat" (storeChats ps).
Proof. eapply loop_ok; [apply chats_loop|apply buildChat_ok]. Qed.
(** A phase begun, and what is held of its kind. *)
Definition begun (kind : string) (j j' : Job) (w w' : Account) : Prop :=
  moved j j' w w' ∧ Counts (j_report j') = Counts (j_report j) ∧
  (Total (j_report j'), FailureReason (j_report j')) = (Total (j_report j), FailureReason (j_report j)) ∧ (foreign → rightly kind j' w').
Lemma store_begins {B} name kind (K : M (result Rows.err B)) j w (Q : Account → Job → option (result Rows.err B) → Prop) : Inv w →
  (∀ w' j' r, stopped j j' w w' r → Q w' j' r) → (∀ w' j', begun kind j j' w w' → after K j' w' Q) →
  after (_ ← phase name; _ ←? hold entities kind; K) j w Q.
Proof.
  intros Hi Hstop Hgo. apply after_bind. eapply after_mono; [by apply phase_ok|]. intros w1 j1 x (Hm & _ & Hc & [= Hp Ht Hf] & _).
  destruct x as [[]|]; [|by apply Hstop]. apply after_try. eapply after_mono; [apply hold_ok, Hm|]. intros w2 j2 y (Hm2 & Hc2 & [= Hp2 Ht2] & Hy).
  assert (moved j j2 w w2) as Hmm by (by eapply moved_trans).
  destruct y as [[[]|err]|]; [|by apply Hstop|by apply Hstop]. destruct Hy as [Hf2 Hl]. apply Hgo. split_and!; [done|congruence|congruence|].
  intros Hfor e He Hk. unfold ownPlace. rewrite Hk. apply Hl; [apply Exists_exists; by exists e|apply Hfor].
Qed.
Lemma begun_rows kind j j' w w' : begun kind j j' w w' → rows_of j → rows_of j'.
Proof. intros (Hm & _). by eapply moved_rows. Qed.

(** Everything stored. *)
Definition allStored (w : Account) : Prop := ∃ f, let ps := projectsFrom f entities (∅, ∅) in
  (∀ e, e ∈ entities → Kind e = "project"%string → settled e "" (f e) w) ∧ storedUnder ps "document" entities w ∧ storedUnder ps "chat" entities w.
Lemma storedUnder_more ps kind w w' : foreign → kept w w' → storedUnder ps kind entities w → storedUnder ps kind entities w'.
Proof. intros Hfor Hk Hs e He Hkind. destruct (Hs e He Hkind) as (p & id & Hp & Hid). exists p, id. split; [done|]. by eapply settled_more. Qed.
Lemma begun_advanced kind j j' w w' k : begun kind j j' w w' → tally j' k = tally j k ∧ bad j' k = bad j k.
Proof. intros (_ & Hc & _). unfold tally, bad, countsOf. by rewrite Hc. Qed.
Lemma looped_advanced kind l j j' w w' k : looped kind l j j' w w' →
  tally j' k = tally j k + (if String.eqb k kind then of_kind kind l else 0) ∧ bad j k ≤ bad j' k.
Proof. intros (_ & _ & _ & [H1 H2]). by split. Qed.
Lemma begun_standing kind j j' w w' : begun kind j j' w w' → (Total (j_report j'), FailureReason (j_report j')) = (Total (j_report j), FailureReason (j_report j)).
Proof. by intros (_ & _ & ? & _). Qed.
Lemma looped_standing kind l j j' w w' : looped kind l j j' w w' → (Total (j_report j'), FailureReason (j_report j')) = (Total (j_report j), FailureReason (j_report j)).
Proof. intros (_ & _ & [= _ H1 H2] & _). by rewrite H1, H2. Qed.
Definition completed (j j' : Job) (w w' : Account) : Prop :=
  moved j j' w w' ∧ (Phase (j_report j'), Total (j_report j'), FailureReason (j_report j')) = ("complete"%string, length entities, FailureReason (j_report j)) ∧
  totals j' ∧ (∀ k, k ∈ kinds → tally j' k = of_kind k entities) ∧
  (foreign → (∀ k, k ∈ kinds → bad j' k = 0) → allStored w').
Lemma fresh_tally j k : k ∈ kinds →
  tally (j <| j_report ::= λ r, r <| Total := length entities |> <| Counts := list_to_map ((λ k, (k, noCounts)) <$> kinds) |> |>) k = 0.
Proof. intros Hk. unfold tally, countsOf. cbn [j_report Counts]. unfold kinds in *. by repeat (apply elem_of_cons in Hk as [->|Hk]; [reflexivity|]); apply not_elem_of_nil in Hk. Qed.
Lemma store_ok j w : rows_of j → Inv w → after (store entities) j w (λ w' j' r, stopped j j' w w' r ∨ r = Some (Ok tt) ∧ completed j j' w w').
Proof.
  intros Hj Hi. unfold store. apply after_bind, after_modify. set (j0 := j <| j_report ::= _ |>).
  assert (moved j j0 w w) as Hm0 by (split; [by apply kept_refl|done]). assert (rows_of j0) as Hj0 by exact Hj.
  apply store_begins; [done|intros; left; by eapply stopped_trans|]. intros w1 j1 Hb1.
  apply after_try. eapply after_mono; [apply (storeProjects_ok entities); [done|by eapply begun_rows|apply Hb1]|].
  assert (moved j j1 w w1) as Hm1 by (eapply moved_trans; [exact Hm0|apply Hb1]).
  intros w2 j2 r [Hst|(ps & -> & Hl2 & Hps)].
  { destruct Hst as [? ?]. destruct r as [[a|err]|]; [done|left; split; [by eapply moved_trans|done]..]. }
  assert (moved j j2 w w2) as Hm2 by (eapply moved_trans; [exact Hm1|apply Hl2]).
  apply store_begins; [apply Hm2|intros; left; by eapply stopped_trans|]. intros w3 j3 Hb3.
  assert (moved j j3 w w3) as Hm3 by (eapply moved_trans; [exact Hm2|apply Hb3]).
  apply after_try. eapply after_mono; [apply (storeDocuments_ok ps entities); [done|by eapply moved_rows|apply Hm3]|].
  intros w4 j4 r [[? ?]|(-> & Hl4 & Hd)]; [destruct r as [[a|err]|]; [done|left; split; [by eapply moved_trans|done]..]|].
  assert (moved j j4 w w4) as Hm4 by (eapply moved_trans; [exact Hm3|apply Hl4]).
  apply store_begins; [apply Hm4|intros; left; by eapply stopped_trans|]. intros w5 j5 Hb5.
  assert (moved j j5 w w5) as Hm5 by (eapply moved_trans; [exact Hm4|apply Hb5]).
  apply after_try. eapply after_mono; [apply (storeChats_ok ps entities); [done|by eapply moved_rows|apply Hm5]|].
  intros w6 j6 r [[? ?]|(-> & Hl6 & Hc)]; [destruct r as [[a|err]|]; [done|left; split; [by eapply moved_trans|done]..]|].
  assert (moved j j6 w w6) as Hm6 by (eapply moved_trans; [exact Hm5|apply Hl6]).
  apply after_bind. eapply after_mono; [apply phase_ok, Hm6|]. intros w7 j7 x (Hm67 & _ & Hcounts & Hst & Htot).
  assert (moved j j7 w w7) as Hm7 by (by eapply moved_trans). destruct x as [[]|]; [|by left]. right. split; [done|].
  apply begun_standing in Hb1 as Hs1. apply looped_standing in Hl2 as Hs2. apply begun_standing in Hb3 as Hs3. apply looped_standing in Hl4 as Hs4.
  apply begun_standing in Hb5 as Hs5. apply looped_standing in Hl6 as Hs6.
  assert (∀ k, tally j7 k = tally j6 k ∧ bad j7 k = bad j6 k) as H7 by (intros k; unfold tally, bad, countsOf; by rewrite Hcounts).
  pose proof (λ k, begun_advanced _ _ _ _ _ k Hb1) as A1. pose proof (λ k, looped_advanced _ _ _ _ _ _ k Hl2) as A2. pose proof (λ k, begun_advanced _ _ _ _ _ k Hb3) as A3.
  pose proof (λ k, looped_advanced _ _ _ _ _ _ k Hl4) as A4. pose proof (λ k, begun_advanced _ _ _ _ _ k Hb5) as A5. pose proof (λ k, looped_advanced _ _ _ _ _ _ k Hl6) as A6.
  split_and!; [done| |done| |].
  - cbn [fst]. rewrite Hst. change (length entities) with (Total (j_report j0)). change (FailureReason (j_report j)) with (FailureReason (j_report j0)).
    f_equal; [f_equal|]; congruence.
  - intros k Hk. cbn [fst]. rewrite (proj1 (H7 k)), (proj1 (A6 k)), (proj1 (A5 k)), (proj1 (A4 k)), (proj1 (A3 k)), (proj1 (A2 k)), (proj1 (A1 k)).
    assert (tally j0 k = 0) as -> by (by apply fresh_tally). unfold kinds in Hk.
    repeat (apply elem_of_cons in Hk as [->|Hk]; [cbn -[of_kind]; lia|]). by apply not_elem_of_nil in Hk.
  - cbn [fst]. intros Hfor Hclean. assert (∀ k, k ∈ kinds → bad j6 k = 0 ∧ bad j5 k = 0 ∧ bad j4 k = 0 ∧ bad j3 k = 0 ∧ bad j2 k = 0 ∧ bad j1 k = 0) as Hz.
    { intros k Hk. specialize (Hclean k Hk). destruct (H7 k) as [_ ?], (A1 k) as [_ ?], (A2 k) as [_ ?], (A3 k) as [_ ?], (A4 k) as [_ ?], (A5 k) as [_ ?], (A6 k) as [_ ?]. lia. }
    assert (kept w2 w7 ∧ kept w4 w7 ∧ kept w6 w7) as (K2 & K4 & K6).
    { assert (kept w6 w7) as K6 by apply Hm67. assert (kept w4 w7) as K4 by (eapply kept_trans; [apply Hb5|]; eapply kept_trans; [apply Hl6|done]).
      split_and!; [|done..]. eapply kept_trans; [apply Hb3|]. eapply kept_trans; [apply Hl4|done]. }
    destruct Hps as (f & -> & Hf); [done|by apply Hb1|by destruct (Hz "project"%string ltac:(by left)) as (_&_&_&_&->&->)|].
    exists f. split_and!.
    + intros e He Hk. eapply settled_more; [done|done|exact K2|]. by apply Hf.
    + eapply storedUnder_more; [done|exact K4|]. apply Hd; [done|by apply Hb3|by destruct (Hz "document"%string ltac:(by right; left)) as (_&_&->&->&_)].
    + eapply storedUnder_more; [done|exact K6|]. apply Hc; [done|by apply Hb5|by destruct (Hz "chat"%string ltac:(by right; right; left)) as (->&->&_)].
Qed.
End Loops.

(** *** The run *)

Definition manifestIn (archive : option (list File)) : option cloudManifest :=
  files ← archive; f ← foldl (λ m f, <[Name f := f]> m) (∅ : gmap string File) files !! ManifestPath;
  match readEntry f maxArchiveJSONEntry with Ok data => decoded decodeManifest data | Err _ => None end.
Definition startingJob (user source id : string) : Job := mkJob user source id ∅ noReport ∅.
Lemma reading_ok archive j w : rows_of j → Inv w → after (reading archive) j w (λ w' j' r,
  stopped j j' w w' r ∨ r = Some (Ok tt) ∧ ∃ m j0, manifestIn archive = Some m ∧ follows j j0 ∧ FailureReason (j_report j0) = FailureReason (j_report j) ∧
    completed (cm_Entities m) j0 j' w w').
Proof.
  intros Hj Hi. unfold reading.
  assert (∀ e w' j', moved j j' w w' → after (fail importFailureInternal e) j' w' (λ w' j' r, stopped j j' w w' r)) as Hfail.
  { intros e w' j' Hm. apply after_fail. split; [exact Hm|]. unfold failing. cbn. set_solver. }
  destruct archive as [files|].
  - apply after_bind, after_modify. set (j1 := j <| j_entries := _ |>).
    assert (moved j j1 w w) as Hm by (split; [by apply kept_refl|done]). apply after_bind. unfold entity. apply after_bind, after_ret.
    set (r := (_ ← readArchived _ _ _; _)).
    assert (match r with Ok m => manifestIn (Some files) = Some m | Err _ => True end) as Hr.
    { subst r. unfold readArchived, manifestIn. subst j1. cbn [j_entries mbind option_bind].
      change (j_entries (_ <| j_entries := ?x |>)) with x. destruct (_ !! ManifestPath) as [f|]; cbn; [|done].
      destruct (readEntry f maxArchiveJSONEntry) as [data|]; cbn; [|done]. by destruct (decoded decodeManifest data). }
    destruct r as [m|e].
    + eapply after_mono; [apply store_ok; [exact Hj|done]|]. intros w' j' x [Hst|[-> Hc]].
      * left. by eapply stopped_trans.
      * right. split; [done|]. exists m, j1. by split_and!.
    + eapply after_mono; [by apply Hfail|]. intros w' j' x ?. by left.
  - eapply after_mono; [apply Hfail; split; [by apply kept_refl|done]|]. intros w' j' x ?. by left.
Qed.

(** What a report says of a run that ended as it should. *)
Definition reportCounts (r : ImportReport) (kind : string) : ImportKindCounts := default noCounts (Counts r !! kind).
Definition accounts (entities : list cloudEntity) (r : ImportReport) : Prop :=
  Phase r = "complete"%string ∧ FailureReason r = ""%string ∧ Total r = length entities ∧
  ImportedTotal r = total Imported (Counts r) ∧ FailedTotal r = total Failed (Counts r) ∧
  ∀ k, k ∈ kinds → whole (reportCounts r k) = of_kind k entities.
Definition explains (r : ImportReport) : Prop :=
  FailureReason r ∈ importFailureMessages.*1 ∧ (last (Errors r) = Some (failureMessage (FailureReason r)) ∨ length (Errors r) = maxImportNotes).
Lemma note_last l text : length l ≤ maxImportNotes → last (note l text) = Some text ∨ length (note l text) = maxImportNotes.
Proof. intros Hl. unfold note. case_bool_decide; [left; apply last_snoc|right; lia]. Qed.
Lemma import_ok id archive w : Inv w → wp (run user source id archive) w (λ w' x, kept w w' ∧
  match x with
  | Some (report, err) => bounded report ∧
      match err with
      | None => ∃ m, manifestIn archive = Some m ∧ accounts (cm_Entities m) report ∧
          (foreign (cm_Entities m) → (∀ k, k ∈ kinds → Failed (reportCounts report k) + Blocked (reportCounts report k) = 0) → allStored (cm_Entities m) w')
      | Some _ => explains report
      end
  | None => True
  end).
Proof.
  intros Hi. unfold run. apply wp_io_bind. eapply wp_io_mono; [apply (reading_ok archive (startingJob user source id)); [done|exact Hi]|].
  intros w1 [j1 r] Hr. cbn [fst snd] in *. apply wp_io_bind.
  assert (follows (startingJob user source id) j1 ∧ kept w w1) as [Hf Hk] by (destruct Hr as [[[? ?] _]|(_ & m & j0 & _ & Hf & _ & [[? ?] _])]; split; [done|done|by etrans|done]).
  assert (bounded (j_report j1)) as Hb by (apply Hf; unfold bounded; cbn; lia).
  unfold ending. cbn. intros w2 w3 x Hd [-> _].
  assert (kept w w2) as Hk2 by (by eapply kept_stable). destruct x as [[]|]; cbn; [|done]. split; [done|].
  destruct r as [[[]|e]|]; cbn.
  - split; [done|]. destruct Hr as [[_ []]|(_ & m & j0 & Hm & _ & Hfr & (_ & [= Hp Ht Hf0] & [Ht1 Ht2] & Hta & Hall))]. exists m. split; [done|]. split.
    + split_and!; try done. rewrite Hf0, Hfr. done.
    + intros Hfor Hclean. assert (allStored (cm_Entities m) w1) as (f & H1 & H2 & H3) by (apply Hall; [done|exact Hclean]). exists f.
      assert (kept w1 w2) as Hk12 by (apply kept_drift; [apply Hk|done]). split_and!.
      * intros e He Hkind. eapply settled_more; [done|done|exact Hk12|]. by apply H1.
      * by eapply storedUnder_more.
      * by eapply storedUnder_more.
  - destruct Hr as [[_ Hfail]|(? & _)]; [|done]. split; [split; [apply Hb|apply note_bound, Hb]|]. split; [exact Hfail|]. apply note_last, Hb.
  - split; [split; [apply Hb|apply note_bound, Hb]|]. split; [cbn; set_solver|]. apply note_last, Hb.
Qed.
Lemma Inv_fresh w : (∀ k x o, w !! k = Some x → origin x = Some o → ¬ ours o) → Inv w.
Proof. intros Hw k x o Hx Ho Hour. by destruct (Hw k x o). Qed.
End Account.

(** ** A run of an import run again

    Where nothing fails and others do not write: each entity is found where
    the first run stored it. *)

Section Again.
#[local] Arguments importedID : simpl never.
#[local] Opaque maxImportGenerations.
Context (user source : string).
#[local] Abbreviation sure := (after source false false).
Context (entities : list cloudEntity) (w : Account).


Lemma sure_inspect scope id o j (Q : Account → Job → option (result Rows.err occupant) → Prop) : (∀ h, occupied w (scope, id) o h → Q w j (Some (Ok h))) → sure (inspect scope id o) j w Q.
Proof.
  intros HQ. eapply after_mono; [apply (inspect_ok source false false scope id o j w (λ w', w' = w)); [by intros w1 w2 -> ->|done]|].
  intros w' j' r (-> & -> & Hr). destruct r as [[h|e]|]; [by apply HQ|done..].
Qed.
(** What occupies a place is one thing. *)
Lemma occupied_one k o h h' : occupied w k o h → occupied w k o h' → h = h'.
Proof.
  destruct h, h'; cbn; try done; try (by intros (? & ? & _) ?; congruence); try (by intros ? (? & ? & _); congruence); try congruence.
  - intros (r & H1 & H2 & [x Hx]) (r' & H3 & [H4|H4]); congruence.
  - intros (r' & H3 & [H4|H4]) (r & H1 & H2 & [x Hx]); congruence.
Qed.
Lemma sure_found project e build id tries : ∀ gen j, tries + gen = maxImportGenerations → rows_of user source j →
  (∃ g, gen ≤ g ∧ g < maxImportGenerations ∧ id = importedID user source (Kind e) (SourceID e) g ∧
    (∃ x, w !! place user source project (originAt source e g) = Some x ∧ origin x = Some (originAt source e g)) ∧
    ∀ g', g' < g → taken user source project (originAt source e g') w) →
  sure (restoreFrom tries gen e project build) j w (λ w' j' r, w' = w ∧ j' = j ∧ r = Some (Ok (id, storedBefore))).
Proof.
  induction tries as [|tries IH]; intros gen j Hsum Hj (g & Hle & Hlt & Hid & (x & Hx & Hox) & Ht); [lia|]. cbn [restoreFrom].
  apply after_bind. cbn. destruct Hj as [Hu Hs]. rewrite Hu, Hs. replace (originOf j e gen) with (originAt source e gen) by (unfold originOf; by rewrite Hs).
  apply after_try, sure_inspect. rewrite <- (place_at user source project e gen). intros h Hh. rewrite place_at in Hx.
  destruct (decide (g = gen)) as [->|Hne].
  - assert (h = sameImport) as ->; [|by apply after_ret; rewrite Hid]. eapply occupied_one; [exact Hh|]. rewrite place_at.
    destruct x as [row|]; [|done]. exists row. by split_and!.
  - destruct (Ht gen ltac:(lia)) as (y & Hy & Hyo).
    assert (h = anotherRow ∨ h = otherKey) as Hor.
    { destruct y as [row|]; [left|right]; eapply occupied_one; [exact Hh| |exact Hh|exact Hy]. exists row. split; [done|]. by right. }
    assert (sure (restoreFrom tries (S gen) e project build) j w (λ w' j' r, w' = w ∧ j' = j ∧ r = Some (Ok (id, storedBefore)))) as Hn.
    { apply IH; [lia|done|]. exists g. split_and!; [lia|done..| |done]. exists x. by rewrite place_at. }
    by destruct Hor as [->| ->].
Qed.
(** What is held of a kind is what the account holds. *)
Definition exactly (kind : string) (j : Job) : Prop :=
  ∀ e, e ∈ entities → Kind e = kind → (SourceID e ∈ default ∅ (j_held j !! rowScope kind) ↔ is_Some (w !! ownPlace e)).
Lemma sure_restore e project build id j : e ∈ entities → exactly (Kind e) j → rows_of user source j → settled user source e project id w →
  sure (restore e project build) j w (λ w' j' r, w' = w ∧ j' = j ∧ r = Some (Ok (id, storedBefore))).
Proof.
  intros He Hex Hj Hs. eapply after_same; [apply restore_from|].
  assert (∀ k, k = restoreFrom maxImportGenerations 0 e project build → (found user source project e id w) →
    sure k j w (λ w' j' r, w' = w ∧ j' = j ∧ r = Some (Ok (id, storedBefore)))) as Hfresh.
  { intros k -> (g & Hg & Hid & Hx & Ht). apply sure_found; [lia|done|]. exists g. split_and!; [lia|done..]. }
  destruct (isHeld j e project) eqn:Hheld.
  - apply after_try, sure_inspect. intros h Hh. apply andb_true_iff in Hheld as [Hin Hfit]. destruct Hs as [([row Hrow] & _ & Hid)|[Hf Hno]].
    + assert (h = anotherRow) as ->; [|by apply after_ret; rewrite Hid]. eapply occupied_one; [exact Hh|]. exists row. split; [exact Hrow|by left].
    + destruct h; [by apply Hfresh| |destruct Hh as (row & Hrow & _)|by apply Hfresh]; [by destruct Hh as (row & _ & _ & [o Ho])|].
      exfalso. apply Hno. split; [by exists row|done].
  - apply Hfresh; [done|]. destruct Hs as [([row Hrow] & Hfit & Hid)|[Hf Hno]]; [|done]. exfalso. unfold isHeld in Hheld.
    apply not_true_iff_false in Hheld. apply Hheld, andb_true_iff. split; [|exact Hfit]. apply bool_decide_eq_true_2, (Hex e He eq_refl).
    unfold readable in Hrow. rewrite Hrow. by eexists.
Qed.

(** That many more of a kind were skipped. *)
Definition skips (kind : string) (n : nat) (j j' : Job) : Prop :=
  (j_user j', j_source j', j_held j') = (j_user j, j_source j, j_held j) ∧
  ∀ k, countsOf j' k = if String.eqb k kind then (countsOf j k) <| Skipped ::= λ m, m + n |> else countsOf j k.
Lemma skips_refl kind j : skips kind 0 j j.
Proof.
  split; [done|]. intros k. destruct (String.eqb k kind); [|done]. destruct (countsOf j k) as [a b c d]. cbn. by rewrite Nat.add_0_r.
Qed.
Lemma skips_trans kind n m j1 j2 j3 : skips kind n j1 j2 → skips kind m j2 j3 → skips kind (n + m) j1 j3.
Proof.
  intros [H1 H2] [H3 H4]. split; [by rewrite H3|]. intros k. rewrite H4, H2. destruct (String.eqb k kind); [|done].
  destruct (countsOf j1 k) as [a b c d]. cbn. by rewrite Nat.add_assoc.
Qed.
Lemma skips_rows kind n j j' : skips kind n j j' → rows_of user source j → rows_of user source j'.
Proof. intros [[= H1 H2 _] _] [? ?]. split; congruence. Qed.
Lemma skips_exactly kind' kind n j j' : skips kind n j j' → exactly kind' j → exactly kind' j'.
Proof. intros [[= _ _ H] _] Hex e He Hk. rewrite H. by apply Hex. Qed.
Lemma sure_progress j (Q : Account → Job → option unit → Prop) : Q w (j <| j_report ::= totaled |>) (Some tt) → sure progress j w Q.
Proof.
  intros HQ. unfold progress. apply after_bind, after_modify, after_bind. intros w1 w2 x -> [-> Hx]. by destruct x as [[]|].
Qed.
Lemma sure_count kind j (Q : Account → Job → option (result Rows.err unit) → Prop) :
  (∀ j', skips kind 1 j j' → Q w j' (Some (Ok tt))) → sure (count kind (Ok storedBefore)) j w Q.
Proof.
  intros HQ. unfold count. apply after_bind, after_modify, after_bind, sure_progress, after_ret, HQ. split; [done|]. intros k.
  rewrite (bumped_counts kind (λ c, c <| Skipped ::= S |>) j) by done. destruct (String.eqb k kind); [|done].
  destruct (countsOf j k) as [a b c d]. cbn. by rewrite Nat.add_1_r.
Qed.
Lemma sure_entity {B} e project build id (K : result Rows.err (string * restored) → M (result Rows.err B)) j (Q : Account → Job → option (result Rows.err B) → Prop) :
  e ∈ entities → exactly (Kind e) j → rows_of user source j → settled user source e project id w →
  (∀ j', skips (Kind e) 1 j j' → sure (K (Ok (id, storedBefore))) j' w Q) →
  sure (r ← restore e project build; _ ←? count (Kind e) (outcomeOf r); K r) j w Q.
Proof.
  intros He Hex Hj Hs HK. apply after_bind. eapply after_mono; [by apply (sure_restore e project build id)|]. intros w' j' r (-> & -> & ->).
  apply after_try, sure_count. exact HK.
Qed.
Lemma skips_cons kind e l j j1 j' : Kind e = kind → skips kind 1 j j1 → skips kind (of_kind kind l) j1 j' → skips kind (of_kind kind (e :: l)) j j'.
Proof. intros <- H1 H2. unfold of_kind. cbn. rewrite String.eqb_refl. by eapply (skips_trans _ 1). Qed.
Lemma skips_other kind e l j j' : Kind e ≠ kind → skips kind (of_kind kind l) j j' → skips kind (of_kind kind (e :: l)) j j'.
Proof. intros Hne. unfold of_kind. cbn. by rewrite (proj2 (String.eqb_neq _ _) Hne). Qed.

Lemma sure_projects f l : l ⊆ entities → (∀ e, e ∈ entities → Kind e = "project"%string → settled user source e "" (f e) w) → ∀ ps j,
  rows_of user source j → exactly "project" j → sure (storeProjects l ps) j w (λ w' j' r, w' = w ∧ skips "project" (of_kind "project" l) j j' ∧
    r = Some (Ok (projectsFrom f l ps))).
Proof.
  intros Hl Hf. induction l as [|e l IH]; intros ps j Hj Hex; cbn [storeProjects]; [apply after_ret; by split_and!; [|apply skips_refl|]|].
  assert (e ∈ entities ∧ l ⊆ entities) as [He Hl'] by set_solver. destruct (String.eqb_spec (Kind e) "project") as [Hk|Hk]; cbn [negb].
  - apply (sure_entity e "" _ (f e)); [done|by rewrite Hk|done|by apply Hf|]. intros j1 H1. rewrite Hk in H1.
    eapply after_mono; [apply IH; [done|by eapply skips_rows|by eapply skips_exactly]|]. intros w' j' r (-> & H2 & ->). split_and!; [done|by eapply skips_cons|].
    cbn. by rewrite Hk.
  - eapply after_mono; [by apply IH|]. intros w' j' r (-> & H2 & ->). split_and!; [done|by apply skips_other|]. cbn. by rewrite (proj2 (String.eqb_neq _ _) Hk).
Qed.
Definition surely (ps : Projects) (kind : string) (loop : list cloudEntity → M (result Rows.err unit)) : Prop := ∀ l, l ⊆ entities → ∀ j,
  rows_of user source j → exactly kind j → sure (loop l) j w (λ w' j' r, w' = w ∧ skips kind (of_kind kind l) j j' ∧ r = Some (Ok tt)).
Lemma sure_loop ps kind (loop : list cloudEntity → M (result Rows.err unit)) (build : cloudEntity → string → builder) :
  loops ps kind loop build → storedUnder user source ps kind entities w → surely ps kind loop.
Proof.
  intros [Hnil Hcons] Hst l. induction l as [|e l IH]; intros Hl j Hj Hex; [eapply after_same; [apply Hnil|]; apply after_ret; by split_and!; [|apply skips_refl|]|].
  assert (e ∈ entities ∧ l ⊆ entities) as [He Hl'] by set_solver. eapply after_same; [apply Hcons|].
  destruct (String.eqb_spec (Kind e) kind) as [Hk|Hk]; cbn [negb].
  - destruct (Hst e He Hk) as (project & id & -> & Hs). apply (sure_entity e _ _ id); [done|by rewrite Hk|done|done|]. intros j1 H1. rewrite Hk in H1.
    eapply after_mono; [apply IH; [done|by eapply skips_rows|by eapply skips_exactly]|]. intros w' j' r (-> & H2 & ->). split_and!; [done|by eapply skips_cons|done].
  - eapply after_mono; [by apply IH|]. intros w' j' r (-> & H2 & ->). split_and!; [done|by apply skips_other|done].
Qed.
Lemma sure_begin {B} name kind (K : M (result Rows.err B)) j (Q : Account → Job → option (result Rows.err B) → Prop) : rows_of user source j →
  (∀ j', rows_of user source j' → exactly kind j' → (∀ k, countsOf j' k = countsOf j k) → sure K j' w Q) →
  sure (_ ← phase name; _ ←? hold entities kind; K) j w Q.
Proof.
  intros Hj HK. apply after_bind. unfold phase. apply after_bind, after_modify, sure_progress. apply after_try. unfold hold.
  set (j1 := _ <| j_report ::= totaled |>). assert (rows_of user source j1) as Hj1 by exact Hj.
  destruct (existsb _ entities) eqn:Hex; cbn [negb].
  - apply after_bind. intros w1 w2 x -> [-> Hx]. destruct x as [[ids|e]|]; [|done..]. destruct Hx as [?|Hx]; [done|].
    apply after_bind, after_modify, after_ret, HK; [done| |done]. intros e He Hk. cbn. rewrite lookup_insert_eq. cbn. rewrite elem_of_list_to_set, Hx.
    unfold ownPlace. by rewrite Hk.
  - apply after_ret, HK; [done| |done]. intros e He Hk. exfalso. apply not_true_iff_false in Hex. apply Hex, existsb_exists. exists e.
    split; [by apply list_elem_of_In|by apply String.eqb_eq].
Qed.
Definition allSkipped (j j' : Job) : Prop := ∀ k, k ∈ kinds → countsOf j' k = mkKindCounts 0 (of_kind k entities) 0 0.
Lemma sure_store j : rows_of user source j → allStored user source entities w → sure (store entities) j w (λ w' j' r, w' = w ∧ r = Some (Ok tt) ∧ allSkipped j j').
Proof.
  intros Hj (f & Hp & Hd & Hc). unfold store. apply after_bind, after_modify. set (j0 := j <| j_report ::= _ |>).
  assert (∀ k, k ∈ kinds → countsOf j0 k = noCounts) as H0.
  { intros k Hk. unfold countsOf. cbn [j_report Counts]. unfold kinds in *. by repeat (apply elem_of_cons in Hk as [->|Hk]; [reflexivity|]); apply not_elem_of_nil in Hk. }
  apply sure_begin; [exact Hj|]. intros j1 Hj1 Hx1 C1. apply after_try.
  eapply after_mono; [by apply (sure_projects f)|]. intros w2 j2 r (-> & S2 & ->).
  apply sure_begin; [by eapply skips_rows|]. intros j3 Hj3 Hx3 C3. apply after_try.
  eapply after_mono; [by eapply sure_loop; [apply documents_loop|exact Hd|..]|]. intros w4 j4 r (-> & S4 & ->).
  apply sure_begin; [by eapply skips_rows|]. intros j5 Hj5 Hx5 C5. apply after_try.
  eapply after_mono; [by eapply sure_loop; [apply chats_loop|exact Hc|..]|]. intros w6 j6 r (-> & S6 & ->).
  apply after_bind. unfold phase. apply after_bind, after_modify, sure_progress, after_ret. split_and!; [done..|]. intros k Hk.
  change (countsOf _ k) with (countsOf j6 k). rewrite (proj2 S6), C5, (proj2 S4), C3, (proj2 S2), C1, H0 by done. unfold kinds in Hk.
  by repeat (apply elem_of_cons in Hk as [->|Hk]; [reflexivity|]); apply not_elem_of_nil in Hk.
Qed.
Lemma sure_run id archive m : manifestIn archive = Some m → cm_Entities m = entities → allStored user source entities w →
  wp source false false (run user source id archive) w (λ w' x, w' = w ∧ ∃ report, x = Some (report, None) ∧
    ∀ k, k ∈ kinds → reportCounts report k = mkKindCounts 0 (of_kind k entities) 0 0).
Proof.
  intros Hm He Hall. unfold run. apply wp_io_bind. destruct archive as [files|]; [|done].
  assert (sure (reading (Some files)) (startingJob user source id) w (λ w' j' r, w' = w ∧ r = Some (Ok tt) ∧
    allSkipped (startingJob user source id) j')) as Hreading.
  { unfold reading. apply after_bind, after_modify. set (j1 := _ <| j_entries := _ |>). apply after_bind. unfold entity. apply after_bind, after_ret.
    set (r := (_ ← readArchived _ _ _; _)). assert (r = Ok m) as ->.
    { subst r. unfold readArchived. unfold manifestIn in Hm. cbn [mbind option_bind] in Hm. subst j1. change (j_entries (_ <| j_entries := ?x |>)) with x.
      destruct (_ !! ManifestPath) as [f|]; [|done]. cbn in Hm |- *. destruct (readEntry f maxArchiveJSONEntry) as [data|]; [|done]. cbn. by rewrite Hm. }
    rewrite He. eapply after_mono; [by apply sure_store|]. done. }
  eapply wp_io_mono; [exact Hreading|]. intros w1 [j1 r] (-> & Hr & Hskip). cbn in Hr. subst r. apply wp_io_bind. unfold ending. cbn. intros w2 w3 x -> [-> Hx].
  destruct x as [[]|]; [|done]. cbn. split; [done|]. exists (j_report j1). split; [done|]. exact Hskip.
Qed.
End Again.

(** ** An account that answers: nothing fails, and no other writes *)

Definition refusal (status : Z) (code : string) : Rows.err := Rows.EApi (Rows.api status code "").
Definition serve (w : Account) {X} (o : op X) : option X * Account :=
  match o in op X return option X * Account with
  | Load scope id =>
      (Some match w !! (scope, id) with
            | Some (Readable row) => Ok row
            | Some Sealed => Err (refusal 409 "KEY_MISMATCH")
            | None => Err (refusal 404 "THREAD_NOT_FOUND")
            end, w)
  | Push scope row nonce =>
      if String.eqb (ETag row) "" && bool_decide (is_Some (w !! (scope, ID row))) then (Some (Err (refusal 409 "REVISION_CONFLICT")), w)
      else (Some (Ok "1"%string), <[(scope, ID row) := Readable row]> w)
  | IDs scope => (Some (Ok (omap (λ x, if decide (x.1.1 = scope) then Some x.1.2 else None) (map_to_list w))), w)
  | PutAttachment _ identity _ => (Some (Ok (identity, identity)), w)
  | ContextErr => (Some None, w)
  | Timestamp => (Some "2026-01-02T00:00:00Z"%string, w)
  | RetireAttachments _ | Publish _ | NotifyImportOutcome _ => (Some tt, w)
  end.
Fixpoint drive {A} (p : io A) (w : Account) : Account * A :=
  match p with Done a => (w, a) | Do o k => let '(x, w) := serve w o in drive (k x) w end.
Lemma serve_acts faulty others w {X} (o : op X) : acts faulty others w o (serve w o).1 (serve w o).2.
Proof.
  destruct o as [scope id|scope row nonce|scope|chat identity data|ids| | |r|o]; cbn; try done.
  - split; [done|]. destruct (w !! (scope, id)) as [[row|]|] eqn:Hw; [done|right; left; by split_and!|by left].
  - destruct (String.eqb_spec (ETag row) "") as [He|He]; cbn; [case_bool_decide as Hp; cbn|]; [left; by split| |].
    + split; [|done]. intros _. by apply eq_None_not_Some.
    + by split.
  - split; [done|]. right. intros i. rewrite list_elem_of_omap. split.
    + intros ([[s i'] x] & Hx & Heq). cbn in Heq. case_decide; [|done]. injection Heq as <-. subst. apply elem_of_map_to_list in Hx. by eexists.
    + intros [x Hx]. exists ((scope, i), x). split; [by apply elem_of_map_to_list|]. cbn. by rewrite decide_True.
Qed.
Lemma drift_refl source others w : drift source others w w.
Proof. unfold drift. destruct others; [|done]. split; [intros k x Hx; by exists x|]. intros k x' o H1 H2. congruence. Qed.
Lemma drive_exec source faulty others {A} (p : io A) w : exec source faulty others p w (drive p w).1 (drive p w).2.
Proof.
  revert w. induction p as [a|X o k IH]; intros w; cbn; [done|]. destruct (serve w o) as [x w'] eqn:Hs. exists w, w', x. split_and!; [apply drift_refl| |apply IH].
  pose proof (serve_acts faulty others w o) as Ha. by rewrite Hs in Ha.
Qed.

(** ** What is promised *)

Section Promises.
Context (parse_raw : ∀ v, Unmarshal (Raw v) = Some v) (user source : string).

(** The account of a caller into which nothing of the import was stored, and
    what it becomes as the import is run any number of times, others write,
    and calls fail. *)
Definition fresh (w : Account) : Prop := ∀ k x o, w !! k = Some x → origin x = Some o → ¬ ours source o.
Definition ran (faulty others : bool) (w w' : Account) : Prop := ∃ id archive x, exec source faulty others (run user source id archive) w w' x.
Definition session (w w' : Account) : Prop := fresh w ∧ rtc (λ w w', drift source true w w' ∨ ran true true w w') w w'.
Lemma session_inv w w' : session w w' → Inv user source w'.
Proof.
  intros [Hf Hs]. apply (Inv_fresh user) in Hf. induction Hs as [w|w1 w2 w3 Hstep _ IH]; [done|]. apply IH.
  destruct Hstep as [Hd|(id & archive & x & Hx)]; [by eapply Inv_stable|].
  eapply wp_exec in Hx; [|by apply (import_ok user source true true parse_raw)]. apply Hx.
Qed.
Lemma append_cancel p q s : String.append p s = String.append q s → p = q.
Proof.
  intros H. apply (f_equal bytes_of) in H. rewrite !bytes_of_append in H. apply app_inv_tail in H. rewrite <- (string_of_bytes p), <- (string_of_bytes q). by rewrite H.
Qed.
Lemma place_inj p q o : i_Kind o = "document"%string → place user source p o = place user source q o → p = q.
Proof. unfold place, rowIDOf. intros ->. cbn. intros [= H]. by apply append_cancel in H. Qed.
Lemma placed_once w k k' x x' o o' project : Inv user source w → w !! k = Some x → w !! k' = Some x' → origin x = Some o → origin x' = Some o' →
  ours source o → ours source o' → i_Kind o = i_Kind o' → i_SourceID o = i_SourceID o' → k = place user source project o → k' = place user source project o' →
  (i_Generation o ≤ i_Generation o')%Z → k = k'.
Proof.
  intros Hi Hx Hx' Ho Ho' Hour Hour' Hkind Hsid Hk Hk' Hle.
  destruct (Hi _ _ _ Hx Ho Hour) as (p & g & _ & Hg & _ & _), (Hi _ _ _ Hx' Ho' Hour') as (p' & g' & _ & Hg' & Hp' & Ht).
  assert (o = copy o' g) as Heq. { destruct o, o', Hour, Hour'. cbn in *. unfold copy. cbn. by subst. }
  destruct (decide (g = g')) as [->|Hne]; [rewrite Hk, Hk', Heq; unfold copy; destruct o'; cbn in *; by subst|]. exfalso.
  destruct (Ht g ltac:(lia)) as (y & Hy & Hyo). rewrite <- Heq in Hy, Hyo. assert (place user source p' o = k) as Hpk.
  { rewrite Hk. destruct (decide (i_Kind o = "document"%string)) as [Hd|Hd].
    - rewrite Hkind in Hd. f_equal. eapply place_inj; [exact Hd|]. congruence.
    - unfold place, rowIDOf. by rewrite (proj2 (String.eqb_neq _ _) Hd). }
  rewrite Hpk in Hy. congruence.
Qed.

(** C13. However often an import is run, whatever of it fails on the way, its
    pushes and its answers lost included, and whatever rows others add and
    edit meanwhile: every row it stored is filed under the id derived from
    where it came from, and of each thing of its source there is one row, a
    document's in its project. *)
Theorem imported_once w w' : session w w' →
  (∀ k x o, w' !! k = Some x → origin x = Some o → ours source o → ∃ project, k = place user source project o) ∧
  ∀ k k' x x' o o', w' !! k = Some x → w' !! k' = Some x' → origin x = Some o → origin x' = Some o' → ours source o → ours source o' →
    i_Kind o = i_Kind o' → i_SourceID o = i_SourceID o' →
    (i_Kind o = "document"%string → ∃ project, k = place user source project o ∧ k' = place user source project o') → k = k'.
Proof.
  intros Hs%session_inv. split.
  - intros k x o Hx Ho Hour. destruct (Hs _ _ _ Hx Ho Hour) as (p & g & _ & _ & Hk & _). by exists p.
  - intros k k' x x' o o' Hx Hx' Ho Ho' Hour Hour' Hkind Hsid Hdoc.
    assert (∃ p, k = place user source p o ∧ k' = place user source p o') as (p & Hk & Hk').
    { destruct (decide (i_Kind o = "document"%string)) as [Hd|Hd]; [by apply Hdoc|]. exists ""%string.
      destruct (Hs _ _ _ Hx Ho Hour) as (p & g & _ & _ & -> & _), (Hs _ _ _ Hx' Ho' Hour') as (p' & g' & _ & _ & -> & _).
      unfold place, rowIDOf. rewrite <- Hkind. by rewrite (proj2 (String.eqb_neq _ _) Hd). }
    destruct (Z.le_ge_cases (i_Generation o) (i_Generation o')).
    + by eapply placed_once.
    + symmetry. by eapply (placed_once w' k' k x' x o' o p).
Qed.

(** C16. Whatever the store answers, a run of an import ends with what it did:
    one that completes counts every entity once, as stored, found, failed or
    blocked, and where no other wrote it changed no row that was there and
    left only rows marked as its own; one that ends early says why. *)
Theorem import_accounted faulty others w0 w id archive w' report err : session w0 w →
  exec source faulty others (run user source id archive) w w' (Some (report, err)) →
  (length (Warnings report) ≤ maxImportNotes ∧ length (Errors report) ≤ maxImportNotes) ∧
  (others = false → w ⊆ w' ∧ ∀ k x, w' !! k = Some x → w !! k = None → ∃ o, origin x = Some o ∧ ours source o) ∧
  match err with
  | None => ∃ m, manifestIn archive = Some m ∧ Phase report = "complete"%string ∧ FailureReason report = ""%string ∧
      Total report = length (cm_Entities m) ∧ ImportedTotal report = total Imported (Counts report) ∧ FailedTotal report = total Failed (Counts report) ∧
      ∀ k, k ∈ kinds → whole (reportCounts report k) = of_kind k (cm_Entities m)
  | Some _ => FailureReason report ∈ importFailureMessages.*1 ∧
      (last (Errors report) = Some (failureMessage (FailureReason report)) ∨ length (Errors report) = maxImportNotes)
  end.
Proof.
  intros Hs%session_inv Hx. eapply wp_exec in Hx; [|by apply (import_ok user source faulty others parse_raw)].
  destruct Hx as ([_ Hg] & Hb & Hr). split; [exact Hb|]. split; [exact Hg|]. destruct err; [exact Hr|].
  destruct Hr as (m & Hm & Ha & _). exists m. split; [exact Hm|exact Ha].
Qed.

(** C28. An import run again, once a run of it stored or found everything,
    ends, finds everything and stores nothing: so a client may run it again
    where it cannot tell how it ended. *)
Theorem import_resumed faulty w0 w id archive m w1 report : session w0 w → manifestIn archive = Some m →
  (∀ e project o, e ∈ cm_Entities m → ours source o → ownPlace e ≠ place user source project o) →
  exec source faulty false (run user source id archive) w w1 (Some (report, None)) →
  (∀ k, k ∈ kinds → Failed (reportCounts report k) = 0 ∧ Blocked (reportCounts report k) = 0) →
  ∀ id', (∃ w2 x, exec source false false (run user source id' archive) w1 w2 x) ∧
    ∀ w2 x, exec source false false (run user source id' archive) w1 w2 x →
      w2 = w1 ∧ ∃ report', x = Some (report', None) ∧ ∀ k, k ∈ kinds → reportCounts report' k = mkKindCounts 0 (of_kind k (cm_Entities m)) 0 0.
Proof.
  intros Hs%session_inv Hm Hforeign Hx Hclean id'. eapply wp_exec in Hx; [|by apply (import_ok user source faulty false parse_raw)].
  destruct Hx as (_ & _ & m' & Hm' & _ & Hall). rewrite Hm in Hm'. injection Hm' as <-. split.
  - do 2 eexists. apply drive_exec.
  - intros w2 x Hx. refine (wp_exec source false false _ _ _ _ _ (sure_run user source (cm_Entities m) w1 id' archive m Hm eq_refl _) Hx).
    apply Hall; [by split|]. intros k Hk. destruct (Hclean k Hk). lia.
Qed.
End Promises.

(** ** What an import writes, a job reads *)

Section Archived.
Context (writeChat : cloudChat → bytes) (sink : list File → option Rows.err).
#[local] Arguments blobPath : simpl never.
#[local] Arguments entityPath : simpl never.
Inductive item :=
  | IProject (sourceID : string) (p : cloudProject)
  | IDocument (sourceID projectSourceID : string) (d : cloudDocument)
  | IChat (sourceID projectSourceID : string) (t : Thread).
Definition writeItem (i : item) : cloudArchive → result Rows.err cloudArchive :=
  match i with
  | IProject sid p => writeEntity sink "project" sid "" (Raw (cloudProjectObject p))
  | IDocument sid psid d => writeEntity sink "document" sid psid (Raw (cloudDocumentObject d))
  | IChat sid psid t => writeThread writeChat sink sid psid t
  end.
Fixpoint writeItems (l : list item) (c : cloudArchive) : result Rows.err cloudArchive :=
  match l with [] => Ok c | i :: l => c ← writeItem i c; writeItems l c end.

(** The names given so far. *)
Definition named (entities blobs : nat) (name : string) : Prop :=
  (∃ k n, k ∈ kinds ∧ n < entities ∧ name = entityPath k n) ∨ ∃ n, n < blobs ∧ name = blobPath n.
Record Laid (c : cloudArchive) : Prop := {
  l_nodup : NoDup (Name <$> ca_zip c);
  l_named : Forall (λ f, named (length (ca_Entities c)) (ca_blobs c) (Name f)) (ca_zip c);
}.
Lemma pretty_inj' (a b : nat) t : String.append (pretty a) t = String.append (pretty b) t → a = b.
Proof. intros H%append_cancel. by apply (inj pretty) in H. Qed.
Lemma entityPath_inj k k' n n' : k ∈ kinds → k' ∈ kinds → entityPath k n = entityPath k' n' → n = n'.
Proof.
  intros Hk Hk'. unfold kinds in *. repeat (apply elem_of_cons in Hk as [->|Hk]); try by apply not_elem_of_nil in Hk.
  all: repeat (apply elem_of_cons in Hk' as [->|Hk']); try by apply not_elem_of_nil in Hk'.
  all: unfold entityPath; cbn -[pretty]; intros [= H]; by apply pretty_inj' in H.
Qed.
Lemma blobPath_inj n n' : blobPath n = blobPath n' → n = n'.
Proof. unfold blobPath. cbn -[pretty]. intros [= H]. by apply pretty_inj' in H. Qed.
Lemma entity_blob k n n' : entityPath k n ≠ blobPath n'.
Proof. done. Qed.
Lemma named_manifest e b : ¬ named e b ManifestPath.
Proof. by intros [(k & n & _ & _ & H)|(n & _ & H)]. Qed.
Lemma named_entity e b k : k ∈ kinds → ¬ named e b (entityPath k e).
Proof. intros Hk [(k' & n & Hk' & Hn & H)|(n & _ & H)]; [apply entityPath_inj in H; [lia|done..]|done]. Qed.
Lemma named_blob e b : ¬ named e b (blobPath b).
Proof. intros [(k' & n & Hk' & Hn & H)|(n & Hn & H)]; [by symmetry in H|apply blobPath_inj in H; lia]. Qed.
Lemma named_more e e' b b' name : e ≤ e' → b ≤ b' → named e b name → named e' b' name.
Proof. intros He Hb [(k & n & ? & ? & ->)|(n & ? & ->)]; [left; exists k, n; split_and!; [done|lia|done]|right; exists n; split; [lia|done]]. Qed.

Lemma writeArchived_ok name data c c' : writeArchived sink name data c = Ok c' → c' = c <| ca_zip ::= λ l, l ++ [writtenEntry name data] |>.
Proof. unfold writeArchived. destruct (sink _); [done|]. by intros [= <-]. Qed.
Lemma laid_more c name data e b : Laid c → ¬ named (length (ca_Entities c)) (ca_blobs c) name → length (ca_Entities c) ≤ e → ca_blobs c ≤ b → named e b name →
  NoDup (Name <$> (ca_zip c ++ [writtenEntry name data])) ∧ Forall (λ f, named e b (Name f)) (ca_zip c ++ [writtenEntry name data]).
Proof.
  intros [Hn Hf] Hno He Hb Hname. split.
  - rewrite fmap_app. apply NoDup_app. split_and!; [done| |apply NoDup_singleton]. intros x Hx ->%list_elem_of_singleton.
    apply list_elem_of_fmap in Hx as (f & Heq & Hfin). apply Hno. cbn in Heq. rewrite Heq. rewrite Forall_forall in Hf. by apply Hf.
  - apply Forall_app. split; [|by apply Forall_singleton]. eapply Forall_impl; [exact Hf|]. intros f. by apply named_more.
Qed.
(** What a step of the writing keeps. *)
Definition onto (c c' : cloudArchive) : Prop := Laid c' ∧ ca_zip c ⊆ ca_zip c' ∧ ca_Source c' = ca_Source c ∧ ca_Entities c' = ca_Entities c.
Lemma writeEntity_ok kind sid psid payload c c' : kind ∈ kinds → Laid c → writeEntity sink kind sid psid payload c = Ok c' →
  let e := mkEntity kind sid psid (entityPath kind (length (ca_Entities c))) in
  Laid c' ∧ ca_zip c ⊆ ca_zip c' ∧ ca_Source c' = ca_Source c ∧ ca_Entities c' = ca_Entities c ++ [e] ∧ writtenEntry (Path e) payload ∈ ca_zip c'.
Proof.
  intros Hk Hc. unfold writeEntity. destruct (writeArchived _ _ _ _) as [c1|] eqn:Hw; [|done]. apply writeArchived_ok in Hw as ->. cbn. intros [= <-]. cbn.
  destruct (laid_more c (entityPath kind (length (ca_Entities c))) payload (S (length (ca_Entities c))) (ca_blobs c)) as [H1 H2]; [done|by apply named_entity|lia..|left; exists kind, (length (ca_Entities c)); split_and!; [done|lia|done]|].
  split_and!; [|set_solver|done..|set_solver]. split; cbn; [exact H1|]. rewrite length_app. cbn. by rewrite Nat.add_1_r.
Qed.
(** An attachment as it is written: an image's bytes are beside the chat. *)
Definition attachmentWritten (files : list File) (a : Attachment) (c : cloudAttachment) : Prop :=
  if IsImage a
  then at_Attachment c = (a <| a_Base64 := ""%string |>) ∧ ∃ n data, ArchivePath c = blobPath n ∧ Decode64 StdEncoding (a_Base64 a) = Some data ∧ writtenEntry (blobPath n) data ∈ files
  else c = mkCloudAttachment a "".
Lemma writeAttachment_ok a c c' b : Laid c → writeAttachment sink a c = Ok (c', b) → onto c c' ∧ attachmentWritten (ca_zip c') a b.
Proof.
  intros Hc. unfold writeAttachment, attachmentWritten. destruct (IsImage a); cbn [negb]; [|by intros [= <- <-]; split_and!].
  destruct (Decode64 _ _) as [data|] eqn:Hd; [|done]. destruct (writeArchived _ _ _ _) as [c1|] eqn:Hw; [|done]. apply writeArchived_ok in Hw as ->. cbn.
  intros [= <- <-]. cbn. destruct (laid_more c (blobPath (ca_blobs c)) data (length (ca_Entities c)) (S (ca_blobs c))) as [H1 H2]; [done|by apply named_blob|lia..|right; exists (ca_blobs c); split; [lia|done]|].
  split; [split_and!; [by split|cbn; set_solver|done..]|]. split; [done|]. exists (ca_blobs c), data. split_and!; [done..|]. set_solver.
Qed.
Lemma onto_trans c1 c2 c3 : onto c1 c2 → onto c2 c3 → onto c1 c3.
Proof. intros (_ & H1 & H2 & H3) (H4 & H5 & H6 & H7). split_and!; [done|set_solver|congruence|congruence]. Qed.
Lemma writeEach_ok {A B} (write : A → cloudArchive → result Rows.err (cloudArchive * B)) (R : list File → A → B → Prop) l :
  (∀ fs fs' a b, fs ⊆ fs' → R fs a b → R fs' a b) → (∀ a c c' b, Laid c → write a c = Ok (c', b) → onto c c' ∧ R (ca_zip c') a b) →
  ∀ c c' bs, Laid c → writeEach write l c = Ok (c', bs) → onto c c' ∧ Forall2 (R (ca_zip c')) l bs.
Proof.
  intros Hmore Hw. induction l as [|a l IH]; intros c c' bs Hc; cbn [writeEach].
  - intros [= <- <-]. by split_and!.
  - destruct (write a c) as [[c1 b]|] eqn:H1; [|done]. cbn. destruct (writeEach write l c1) as [[c2 bs2]|] eqn:H2; [|done]. cbn. intros [= <- <-].
    destruct (Hw _ _ _ _ Hc H1) as [Ho1 Hr1]. destruct (IH c1 c2 bs2 (proj1 Ho1) H2) as [Ho2 Hr2]. split; [by eapply onto_trans|].
    constructor; [|done]. eapply Hmore; [|exact Hr1]. apply Ho2.
Qed.
Lemma Forall2_more {A B} (R : list File → A → B → Prop) fs fs' l bs : (∀ a b, R fs a b → R fs' a b) → Forall2 (R fs) l bs → Forall2 (R fs') l bs.
Proof. intros Hm Hf. by eapply Forall2_impl. Qed.
Lemma attachmentWritten_more fs fs' a b : fs ⊆ fs' → attachmentWritten fs a b → attachmentWritten fs' a b.
Proof.
  intros Hs. unfold attachmentWritten. destruct (IsImage a); [|done]. intros (H1 & n & data & H2 & H3 & H4). split; [done|]. exists n, data.
  split_and!; [done..|by apply Hs].
Qed.
Definition messageWritten (files : list File) (m : Message) (c : cloudMessage) : Prop :=
  cg_Message c = m ∧ Forall2 (attachmentWritten files) (elems (m_Attachments m)) (cg_Attachments c).
Definition threadWritten (files : list File) (t : Thread) (c : cloudChat) : Prop :=
  cc_Thread c = (t <| t_ProjectID := None |>) ∧ Forall2 (messageWritten files) (t_Messages t) (cc_Messages c).
Lemma messageWritten_more fs fs' a b : fs ⊆ fs' → messageWritten fs a b → messageWritten fs' a b.
Proof. intros Hs [H1 H2]. split; [done|]. eapply Forall2_more; [|exact H2]. intros x y. by apply attachmentWritten_more. Qed.
Lemma writeMessage_ok m c c' b : Laid c → writeMessage sink m c = Ok (c', b) → onto c c' ∧ messageWritten (ca_zip c') m b.
Proof.
  intros Hc. unfold writeMessage. destruct (writeEach _ _ _) as [[c1 l]|] eqn:Hw; [|done]. cbn. intros [= <- <-].
  eapply writeEach_ok in Hw as [Ho Hf]; [by split| |apply writeAttachment_ok|done]. intros ????. apply attachmentWritten_more.
Qed.
(** An entity as it is listed, and what its entry holds. *)
Definition itemWritten (files : list File) (i : item) (e : cloudEntity) : Prop :=
  ∃ data, writtenEntry (Path e) data ∈ files ∧
  match i with
  | IProject sid p => e = mkEntity "project" sid "" (Path e) ∧ data = Raw (cloudProjectObject p)
  | IDocument sid psid d => e = mkEntity "document" sid psid (Path e) ∧ data = Raw (cloudDocumentObject d)
  | IChat sid psid t => e = mkEntity "chat" sid psid (Path e) ∧ ∃ c, threadWritten files t c ∧ data = writeChat c
  end.
Lemma itemWritten_more fs fs' i e : fs ⊆ fs' → itemWritten fs i e → itemWritten fs' i e.
Proof.
  intros Hs (data & Hd & Hi). exists data. split; [by apply Hs|]. destruct i as [sid p|sid psid d|sid psid t]; [done..|].
  destruct Hi as (He & c & [H1 H2] & Hdata). split; [done|]. exists c. split; [|done]. split; [done|]. eapply Forall2_more; [|exact H2].
  intros a b. by apply messageWritten_more.
Qed.
Lemma writeItem_ok i c c' : Laid c → writeItem i c = Ok c' →
  Laid c' ∧ ca_zip c ⊆ ca_zip c' ∧ ca_Source c' = ca_Source c ∧ ∃ e, ca_Entities c' = ca_Entities c ++ [e] ∧ itemWritten (ca_zip c') i e.
Proof.
  intros Hc. destruct i as [sid p|sid psid d|sid psid t]; cbn [writeItem]; intros Hw.
  - apply writeEntity_ok in Hw as (H1 & H2 & H3 & H4 & H5); [|by left|done]. split_and!; [done..|]. eexists. split; [exact H4|]. by eexists.
  - apply writeEntity_ok in Hw as (H1 & H2 & H3 & H4 & H5); [|by right; left|done]. split_and!; [done..|]. eexists. split; [exact H4|]. by eexists.
  - unfold writeThread in Hw. destruct (writeEach _ _ _) as [[c1 l]|] eqn:He; [|done]. cbn in Hw.
    eapply writeEach_ok in He as [(Hl & Hz & Hs & Hen) Hf]; [|intros ????; apply messageWritten_more|apply writeMessage_ok|done].
    apply writeEntity_ok in Hw as (H1 & H2 & H3 & H4 & H5); [|by right; right; left|done].
    split_and!; [done|set_solver|congruence|]. rewrite Hen in H4. eexists. split; [exact H4|]. eexists. rewrite Hen in H5. split; [exact H5|]. split; [done|].
    eexists. split; [|reflexivity]. split; [done|]. eapply Forall2_more; [|exact Hf]. intros a b. by apply messageWritten_more.
Qed.
Lemma writeItems_ok l : ∀ c c', Laid c → writeItems l c = Ok c' →
  Laid c' ∧ ca_zip c ⊆ ca_zip c' ∧ ca_Source c' = ca_Source c ∧ ∃ es, ca_Entities c' = ca_Entities c ++ es ∧ Forall2 (itemWritten (ca_zip c')) l es.
Proof.
  induction l as [|i l IH]; intros c c' Hc; cbn [writeItems].
  - intros [= <-]. split_and!; [done..|]. exists []. by rewrite app_nil_r.
  - destruct (writeItem i c) as [c1|] eqn:H1; [|done]. cbn. intros H2. destruct (writeItem_ok _ _ _ Hc H1) as (Hl1 & Hz1 & Hs1 & e & He & Hi).
    destruct (IH _ _ Hl1 H2) as (Hl2 & Hz2 & Hs2 & es & Hes & Hf). split_and!; [done|set_solver|congruence|]. exists (e :: es).
    split; [by rewrite Hes, He, <- app_assoc|]. constructor; [|done]. by eapply itemWritten_more.
Qed.

(** *** Reading *)

Context (parse_raw : ∀ v, Unmarshal (Raw v) = Some v).
Definition archived (files : list File) : gmap string File := foldl (λ m f, <[Name f := f]> m) ∅ files.
Lemma archived_lookup files f : NoDup (Name <$> files) → f ∈ files → archived files !! Name f = Some f.
Proof.
  unfold archived. assert (∀ l (m : gmap string File), NoDup (Name <$> l) → f ∈ l ∨ (m !! Name f = Some f ∧ Name f ∉ Name <$> l) →
    foldl (λ m f, <[Name f := f]> m) m l !! Name f = Some f) as H; [|intros Hn Hf; apply H; [done|by left]].
  induction l as [|g l IH]; intros m Hn Hf; cbn [foldl]; [destruct Hf as [Hf|[? _]]; [by apply not_elem_of_nil in Hf|done]|]. rewrite fmap_cons in Hn, Hf.
  apply NoDup_cons in Hn as [Hg Hn]. apply IH; [done|]. destruct Hf as [[->|Hf]%elem_of_cons|[Hm Hno]].
  - right. split; [by rewrite lookup_insert_eq|done].
  - by left.
  - right. rewrite not_elem_of_cons in Hno. split; [|apply Hno]. rewrite lookup_insert_ne; [done|]. intros Heq. by apply (proj1 Hno).
Qed.
Lemma project_decodes p : decodeCloudProject (cloudProjectObject p) = Some p.
Proof.
  destruct p as [a b c d]. unfold decodeCloudProject, cloudProjectObject, omitempty. cbn.
  destruct (String.eqb_spec b "") as [->|], (String.eqb_spec c "") as [->|], (String.eqb_spec d "") as [->|]; done.
Qed.
Lemma document_decodes d : (min_int ≤ cd_SizeBytes d ≤ max_int)%Z → decodeCloudDocument (cloudDocumentObject d) = Some d.
Proof.
  intros Hd. destruct d as [a b c d]. unfold decodeCloudDocument, cloudDocumentObject. cbn -[dInt number]. unfold textOf, intOf. cbn -[dInt number].
  by rewrite (dInt_number c) by done.
Qed.
Lemma entity_decodes e : decodeEntity (entityObject e) = Some e.
Proof. destruct e as [a b c d]. unfold decodeEntity, entityObject, omitempty. cbn. by destruct (String.eqb_spec c "") as [->|]. Qed.
Lemma cloudManifest_decodes m : cm_Version m = 1%Z → decodeManifest (manifestObject m) = Some m.
Proof.
  destruct m as [a b c l]. cbn. intros ->. unfold decodeManifest, manifestObject. cbn -[mapM]. unfold listOf. cbn -[mapM].
  rewrite (mapM_encoded decodeEntity entityObject id) by (apply Forall_forall; intros e _; apply entity_decodes). cbn. by rewrite list_fmap_id.
Qed.

(** What a job reads of an entity. *)
Definition reads {A} (j : Job) (m : M (result Rows.err A)) (a : A) : Prop := m j = Done (j, Some (Ok a)).
Definition attachmentRead (j : Job) (a : Attachment) (c : cloudAttachment) : Prop :=
  if IsImage a
  then at_Attachment c = (a <| a_Base64 := ""%string |>) ∧ ∃ data, Decode64 StdEncoding (a_Base64 a) = Some data ∧ reads j (blob (ArchivePath c)) data
  else at_Attachment c = a.
Definition chatRead (j : Job) (t : Thread) (c : cloudChat) : Prop :=
  cc_Thread c = (t <| t_ProjectID := None |>) ∧
  Forall2 (λ m cm, cg_Message cm = m ∧ Forall2 (attachmentRead j) (elems (m_Attachments m)) (cg_Attachments cm)) (t_Messages t) (cc_Messages c).
Definition itemRead (j : Job) (i : item) (e : cloudEntity) : Prop :=
  match i with
  | IProject sid p => (Kind e, SourceID e, ProjectSourceID e) = ("project", sid, "")%string ∧ reads j (entity (decoded decodeCloudProject) (Path e)) p
  | IDocument sid psid d => (Kind e, SourceID e, ProjectSourceID e) = ("document"%string, sid, psid) ∧ reads j (entity (decoded decodeCloudDocument) (Path e)) d
  | IChat sid psid t => (Kind e, SourceID e, ProjectSourceID e) = ("chat"%string, sid, psid) ∧ ∃ c, reads j (entity readChat (Path e)) c ∧ chatRead j t c
  end.
Section Read.
Context (files : list File) (Hnodup : NoDup (Name <$> files)) (Hsize : ∀ f, f ∈ files → (UncompressedSize64 f ≤ backupEntryLimit (Name f))%Z).
Context (j : Job) (Hj : j_entries j = archived files).
Lemma archived_read name data limit : writtenEntry name data ∈ files → (backupEntryLimit name ≤ limit)%Z → readArchived name limit j = Ok data.
Proof.
  intros Hin Hl. unfold readArchived. rewrite Hj. pose proof (archived_lookup files _ Hnodup Hin) as Hlook. cbn in Hlook. rewrite Hlook.
  rewrite readEntry_written; [done|]. pose proof (Hsize _ Hin) as Hs. cbn in Hs. lia.
Qed.
Lemma json_limit name : (backupEntryLimit name ≤ maxArchiveJSONEntry)%Z.
Proof. unfold backupEntryLimit. by destruct (String.eqb _ _). Qed.
Lemma limit_blob n : (backupEntryLimit (blobPath n) ≤ maxArchiveImage)%Z.
Proof.
  unfold backupEntryLimit, blobPath.
  replace (Join _ "/") with (String.append (String.append "blobs/" (pretty n)) (String "." "bin")) by (cbn -[pretty]; reflexivity).
  rewrite pathExt_last; [done|by apply (bool_decide_unpack _)..].
Qed.
Lemma entity_read {A} (decode : bytes → option A) name data a : writtenEntry name data ∈ files → decode data = Some a → reads j (entity decode name) a.
Proof.
  intros Hin Hd. unfold reads, entity, get, mbind, M_bind, mret, M_ret. cbn -[readArchived]. rewrite (archived_read name data) by (done || apply json_limit). cbn. by rewrite Hd.
Qed.
Lemma attachment_read a c : attachmentWritten files a c → attachmentRead j a c.
Proof.
  unfold attachmentWritten, attachmentRead. destruct (IsImage a); [|by intros ->]. intros (H1 & n & data & H2 & H3 & H4). split; [done|]. exists data. split; [done|].
  unfold reads, blob, get, mbind, M_bind, mret, M_ret. cbn -[readArchived]. rewrite H2. by rewrite (archived_read _ data) by (done || apply limit_blob).
Qed.
Lemma item_read i e : (∀ sid psid d, i = IDocument sid psid d → min_int ≤ cd_SizeBytes d ≤ max_int)%Z →
  (∀ sid psid t c, i = IChat sid psid t → threadWritten files t c → readChat (writeChat c) = Some c) → itemWritten files i e → itemRead j i e.
Proof.
  intros Hint Hchat (data & Hin & Hi). destruct i as [sid p|sid psid d|sid psid t]; destruct Hi as [He Hdata].
  - split; [by rewrite He|]. eapply entity_read; [exact Hin|]. unfold decoded. rewrite Hdata, parse_raw. apply project_decodes.
  - split; [by rewrite He|]. eapply entity_read; [exact Hin|]. unfold decoded. rewrite Hdata, parse_raw. apply document_decodes. by eapply Hint.
  - split; [by rewrite He|]. destruct Hdata as (c & [Ht Hm] & ->). exists c. split; [eapply entity_read; [exact Hin|by eapply Hchat]|]. split; [done|].
    eapply Forall2_impl; [exact Hm|]. intros m cm [H1 H2]. split; [done|]. eapply Forall2_impl; [exact H2|]. apply attachment_read.
Qed.
End Read.

(** C29. What an import writes for the cloud is what the job reads: an archive
    within the limits lists every project, document and chat, in order, each
    by its kind and the ids its source has, and holds each as it was
    prepared, an image's bytes beside its chat under a name of their own. *)
Theorem archive_read source l c files : writeItems l (newCloudArchive source) = Ok c → finish sink c = Ok files →
  (∀ f, f ∈ files → (UncompressedSize64 f ≤ backupEntryLimit (Name f))%Z) →
  (∀ sid psid d, IDocument sid psid d ∈ l → min_int ≤ cd_SizeBytes d ≤ max_int)%Z →
  (∀ sid psid t c, IChat sid psid t ∈ l → threadWritten files t c → readChat (writeChat c) = Some c) →
  ∃ m, manifestIn (Some files) = Some m ∧ cm_Source m = source ∧
    ∀ j, j_entries j = archived files → Forall2 (itemRead j) l (cm_Entities m).
Proof.
  intros Hw Hf Hsize Hint Hchat. destruct (writeItems_ok l (newCloudArchive source) c) as (Hl & _ & Hs & es & Hes & Hall); [split; [by apply NoDup_nil_2|by apply Forall_nil]|done|].
  cbn in Hs, Hes. unfold finish in Hf. destruct (writeArchived _ _ _ _) as [c1|] eqn:H1; [|done]. apply writeArchived_ok in H1 as ->. cbn in Hf. injection Hf as <-.
  set (m := mkManifest _ _ _ _) in *. set (head := writtenEntry ManifestPath (Raw (manifestObject m))) in *.
  assert (NoDup (Name <$> ca_zip c ++ [head])) as Hnodup.
  { rewrite fmap_app. apply NoDup_app. split_and!; [apply Hl| |apply NoDup_singleton]. intros x Hx ->%list_elem_of_singleton.
    apply list_elem_of_fmap in Hx as (f & Heq & Hfin). pose proof (l_named _ Hl) as Hn. rewrite Forall_forall in Hn. specialize (Hn f Hfin).
    cbn in Heq. rewrite <- Heq in Hn. by apply named_manifest in Hn. }
  exists m. split_and!; [|done|].
  - unfold manifestIn. cbn [mbind option_bind]. fold (archived (ca_zip c ++ [head])).
    assert (head ∈ ca_zip c ++ [head]) as Hin by set_solver. pose proof (archived_lookup _ _ Hnodup Hin) as Hlook. cbn in Hlook. rewrite Hlook. cbn [mbind option_bind].
    unfold head. rewrite readEntry_written; [|pose proof (Hsize _ Hin) as Hs'; pose proof (json_limit (Name head)); cbn in *; lia].
    unfold decoded. rewrite parse_raw. by apply cloudManifest_decodes.
  - intros j Hj. cbn. rewrite Hes. cbn.
    assert (∀ i e, i ∈ l → itemWritten (ca_zip c) i e → itemRead j i e) as Hread.
    { intros i e Hi Hwritten. eapply (item_read (ca_zip c ++ [head])); [done..| | |eapply itemWritten_more; [|exact Hwritten]; set_solver].
      - intros sid psid d ->. by eapply Hint.
      - intros sid psid t c' ->. by eapply Hchat. }
    clear -Hall Hread. induction Hall as [|i e l es Hi _ IH]; constructor; [apply Hread; [by left|done]|]. apply IH. intros i' e' Hi'. apply Hread. by right.
Qed.
End Archived.
End Import.

(** ** Concrete inputs *)

(** A project with a document, and a chat in it with a photo. *)
Definition sampleProject : cloudProject := mkProject "Home" "" "" "".
Definition sampleDocument : cloudDocument := mkDocument "n.txt" "text/plain" 3 "abc".
Definition samplePhoto : Attachment := mkAttachment "a1" "image" "cat.png" "image/png" None "" "" "" [] "AA==" "" "" "" "".
Definition sampleChat : Thread := Backup.sampleThread "c1" "p1" [samplePhoto].
Definition sampleItems : list item := [IProject "p1" sampleProject; IDocument "p1/d1" "p1" sampleDocument; IChat "c1" "p1" sampleChat]%string.
(** A chat's JSON in these archives: where its photo is. *)
Definition sampleWrite (c : cloudChat) : bytes :=
  bytes_of (default ""%string (ArchivePath <$> head (concat (cg_Attachments <$> cc_Messages c)))).
Definition sampleStored (path : string) : cloudChat :=
  mkCloudChat (sampleChat <| t_ProjectID := None |>)
    ((λ m, mkCloudMessage m [mkCloudAttachment (samplePhoto <| a_Base64 := ""%string |>) path]) <$> t_Messages sampleChat).
Definition sampleRead (data : bytes) : option cloudChat := Some (sampleStored (string_of data)).
(** A checksum of 32 bytes in place of SHA-256. *)
Definition sampleSum (b : bytes) : bytes :=
  bytes_of (Backup.checksum b) ++ replicate (32 - length (bytes_of (Backup.checksum b))) "0"%char.
Definition sampleThumbnail (_ : bytes) : option string := Some "thumb"%string.
Definition sampleArchive : cloudArchive :=
  Eval vm_compute in match writeItems toyRaw sampleWrite (λ _, None) sampleItems (newCloudArchive "b1") with Ok c => c | Err _ => newCloudArchive "" end.
Definition sampleFiles : list File := Eval vm_compute in match finish toyRaw (λ _, None) sampleArchive with Ok l => l | Err _ => [] end.
Definition sampleManifest : cloudManifest := mkManifest cloudImportFormat 1 "b1" (ca_Entities sampleArchive).
Abbreviation sampleRun := (run toyRaw toyUnmarshal sampleRead (λ _, []) sampleSum Backup.pngType sampleThumbnail "u1" "b1" "j1" (Some sampleFiles)).
Abbreviation sampleDrive := (drive sampleRun ∅).
Lemma sample_session : session toyRaw toyUnmarshal sampleRead (λ _, []) sampleSum Backup.pngType sampleThumbnail "u1" "b1" ∅ (sampleDrive).1.
Proof.
  split; [by intros k x o Hx|]. apply rtc_once. right. exists "j1"%string, (Some sampleFiles), (sampleDrive).2. apply drive_exec.
Qed.

Lemma imported_once_witness : size (sampleDrive).1 = 3 ∧
  ∀ k x o, (sampleDrive).1 !! k = Some x → origin toyUnmarshal x = Some o → ours "b1" o → ∃ project, k = place sampleSum "u1" "b1" project o.
Proof.
  split; [vm_compute; reflexivity|].
  exact (proj1 (imported_once toyRaw toyUnmarshal sampleRead (λ _, []) sampleSum Backup.pngType sampleThumbnail toy_parse "u1" "b1" ∅ (sampleDrive).1 sample_session)).
Defined.

Definition endsWell (x : option (ImportReport * option Rows.err)) : bool :=
  match x with
  | Some (report, None) =>
      forallb (λ k, bool_decide (Failed (reportCounts report k) = 0 ∧ Blocked (reportCounts report k) = 0 ∧ Imported (reportCounts report k) = 1)) kinds
  | _ => false
  end.
Lemma sample_fresh : session toyRaw toyUnmarshal sampleRead (λ _, []) sampleSum Backup.pngType sampleThumbnail "u1" "b1" ∅ ∅.
Proof. split; [by intros k x o Hx|]. reflexivity. Qed.
Lemma sample_manifest : manifestIn toyUnmarshal (Some sampleFiles) = Some sampleManifest.
Proof. vm_compute. reflexivity. Qed.
Lemma import_accounted_witness : ∃ report, (sampleDrive).2 = Some (report, None) ∧ Total report = 3 ∧ Phase report = "complete"%string ∧
  whole (reportCounts report "document") = 1.
Proof.
  assert (endsWell (sampleDrive).2 = true) as He by (vm_compute; reflexivity). destruct (sampleDrive).2 as [[report [e|]]|] eqn:Hd; [discriminate He| |discriminate He].
  exists report. split; [reflexivity|].
  destruct (import_accounted toyRaw toyUnmarshal sampleRead (λ _, []) sampleSum Backup.pngType sampleThumbnail toy_parse "u1" "b1" false false ∅ ∅ "j1"
    (Some sampleFiles) (sampleDrive).1 report None sample_fresh) as (_ & _ & m & Hm & Hp & _ & Ht & _ & _ & Hk).
  - rewrite <- Hd. apply drive_exec.
  - rewrite sample_manifest in Hm. injection Hm as <-. split; [exact Ht|]. split; [exact Hp|]. rewrite Hk by (right; left). reflexivity.
Defined.

(** No id an import makes is one the archive's source has. *)
Lemma sample_foreign e project o : e ∈ cm_Entities sampleManifest → ownPlace e ≠ place sampleSum "u1" "b1" project o.
Proof.
  assert (∀ user source kind sid gen, "-"%char ∈ bytes_of (importedID sampleSum user source kind sid gen)) as Hdash.
  { intros user source kind sid gen. unfold importedID. cbn [Join]. rewrite !bytes_of_append. set_solver. }
  intros He. destruct (decide (SourceID e = (place sampleSum "u1" "b1" project o).2)) as [Hs|Hs]; [|intros Hp; apply Hs; by rewrite <- Hp].
  exfalso. assert ("-"%char ∈ bytes_of (SourceID e)) as Hin.
  { rewrite Hs. unfold place, rowIDOf. cbn [snd]. destruct (String.eqb _ _); rewrite ?bytes_of_append; [|apply Hdash].
    apply elem_of_app. right. apply elem_of_cons. right. apply Hdash. }
  clear Hs. cbn in He. repeat (apply elem_of_cons in He as [->|He]); [..|by apply not_elem_of_nil in He].
  all: revert Hin; apply (bool_decide_unpack _); vm_compute; exact I.
Qed.
Lemma import_resumed_witness : ∃ report, (sampleDrive).2 = Some (report, None) ∧
  ∀ w2 x, exec toyUnmarshal "b1" false false (run toyRaw toyUnmarshal sampleRead (λ _, []) sampleSum Backup.pngType sampleThumbnail "u1" "b1" "j2" (Some sampleFiles))
    (sampleDrive).1 w2 x → w2 = (sampleDrive).1.
Proof.
  assert (endsWell (sampleDrive).2 = true) as He by (vm_compute; reflexivity). destruct (sampleDrive).2 as [[report [e|]]|] eqn:Hd; [discriminate He| |discriminate He].
  exists report. split; [reflexivity|]. intros w2 x Hx.
  destruct (import_resumed toyRaw toyUnmarshal sampleRead (λ _, []) sampleSum Backup.pngType sampleThumbnail toy_parse "u1" "b1" false ∅ ∅ "j1"
    (Some sampleFiles) sampleManifest (sampleDrive).1 report sample_fresh sample_manifest) with "j2"%string as [_ Hr].
  - intros e project o Hin _. by apply sample_foreign.
  - rewrite <- Hd. apply drive_exec.
  - intros k Hk. apply (proj1 (forallb_forall _ _)) with (x := k) in He; [|by apply list_elem_of_In]. apply bool_decide_eq_true in He. split; apply He.
  - exact (proj1 (Hr w2 x Hx)).
Defined.

Lemma sample_chat c t : threadWritten sampleFiles t c → t = sampleChat → sampleRead (sampleWrite c) = Some c.
Proof.
  intros [Ht Hm] ->. destruct c as [t messages]. cbn in Ht, Hm. subst t. apply Forall2_cons_inv_l in Hm as (m & l & [H1 H2] & Hl & ->).
  apply Forall2_nil_inv_l in Hl as ->. destruct m as [m attachments]. cbn in H1, H2. subst m. apply Forall2_cons_inv_l in H2 as (a & l & Ha & Hl & ->).
  apply Forall2_nil_inv_l in Hl as ->. unfold attachmentWritten in Ha. cbn in Ha. destruct Ha as (Hat & _). destruct a as [a path]. cbn in Hat. subst a.
  unfold sampleRead, sampleWrite. cbn -[bytes_of string_of]. by rewrite string_of_bytes.
Qed.
Lemma archive_read_witness : ∃ m, manifestIn toyUnmarshal (Some sampleFiles) = Some m ∧
  ∀ j, j_entries j = archived sampleFiles → Forall2 (itemRead toyUnmarshal sampleRead j) sampleItems (cm_Entities m).
Proof.
  destruct (archive_read toyRaw toyUnmarshal sampleRead (λ _, []) sampleSum Backup.pngType sampleThumbnail sampleWrite (λ _, None) toy_parse "b1" sampleItems
    sampleArchive sampleFiles) as (m & Hm & _ & Hr).
  - vm_compute. reflexivity.
  - vm_compute. reflexivity.
  - intros f Hf. revert f Hf. apply Forall_forall. apply (bool_decide_unpack _). vm_compute. exact I.
  - intros sid psid d Hd. unfold sampleItems in Hd. rewrite !elem_of_cons in Hd. destruct Hd as [?|[[= _ _ ->]|[?|[]%not_elem_of_nil]]]; [discriminate| |discriminate].
    vm_compute. split; discriminate.
  - intros sid psid t c Ht. unfold sampleItems in Ht. rewrite !elem_of_cons in Ht. destruct Ht as [?|[?|[[= _ _ ->]|[]%not_elem_of_nil]]]; [discriminate..|].
    intros Hw. by eapply sample_chat.
  - exists m. split; [exact Hm|exact Hr].
Defined.
End CloudImport.
