(* ===== verification/Agent.v ===== *)
(** * The agent: internal/engine/agent.go, tools.go and widget_calls.go

    A reply is a loop of turns: the model is asked, its stream read into
    text, reasoning and tool calls, the calls carried out at once, and their
    results asked about in the next turn, until it answers. *)

From S2P Require Import Prelude GoStd Api Quota Chat Timeline Questions Prompt Seal Rows Results.
From stdpp Require Import pretty.
Local Open Scope nat_scope.
Local Open Scope go_scope.

Module Agent.
Import GoStd Api Chat Timeline Results.
Import Rows(field, read_list, read_object, read_text) Questions(cat).

(** ** A model's stream *)

Record toolCallDelta := mkDelta { d_Index : Z; d_ID : string; d_Name : string; d_Arguments : string }.
Record choice := mkChoice {
  FinishReason : string;
  Content : string;
  Reasoning : string;
  ReasoningAlt : string;
  ToolCalls : list toolCallDelta;
}.
Record chunk := mkChunk {
  ck_Model : string;
  ck_Object : string;
  ck_Error : bool;
  ck_Choices : list choice;
  ck_Usage : option Quota.Usage;
}.

Section Chunks.
Context `{JS : Seal.Json}.

(** A chunk of the stream, as [json.Unmarshal] reads it, [None] where it
    fails: whether it holds an error, and the usage [Meter] would read, empty
    where that is not one. *)
Definition read_int (d : option Seal.doc) : option Z :=
  match d with None | Some Seal.DNull => Some 0%Z | Some (Seal.DNum lit) => Atoi lit | Some _ => None end.
Definition read_struct (d : option Seal.doc) : option (list (string * Seal.doc)) :=
  match d with None => Some [] | Some d => read_object d end.
Definition read_delta (d : Seal.doc) : option toolCallDelta :=
  ms ← read_object d;
  index ← read_int (field ms "index");
  id ← read_text (field ms "id");
  f ← read_struct (field ms "function");
  name ← read_text (field f "name");
  arguments ← read_text (field f "arguments");
  Some (mkDelta index id name arguments).
Definition read_choice (d : Seal.doc) : option choice :=
  ms ← read_object d;
  finish ← read_text (field ms "finish_reason");
  delta ← read_struct (field ms "delta");
  content ← read_text (field delta "content");
  reasoning ← read_text (field delta "reasoning_content");
  alt ← read_text (field delta "reasoning");
  calls ← read_list read_delta (field delta "tool_calls");
  Some (mkChoice finish content reasoning alt calls).
Definition read_usage (d : Seal.doc) : Quota.Usage :=
  default (Quota.mkUsage 0 0 0)
    (ms ← read_object d;
     prompt ← read_int (field ms "prompt_tokens");
     completion ← read_int (field ms "completion_tokens");
     total ← read_int (field ms "total_tokens");
     Some (Quota.mkUsage prompt completion total)).
Definition present_ (d : option Seal.doc) : option Seal.doc :=
  match d with Some Seal.DNull | None => None | Some d => Some d end.
Definition read_chunk (data : string) : option chunk :=
  d ← Seal.parse (bytes_of data);
  ms ← read_object d;
  model ← read_text (field ms "model");
  object ← read_text (field ms "object");
  choices ← read_list read_choice (field ms "choices");
  Some (mkChunk model object (bool_decide (is_Some (present_ (field ms "error")))) choices (read_usage <$> present_ (field ms "usage"))).
End Chunks.

(** ** What a turn adds to the run's stream

    The events emitted, in order, which Stream.v frames; what the stream
    keeps besides them; and how many tokens [api.Token] has drawn. *)

Record Out := mkOut {
  emitted : list Event;
  concreteModel : string;
  modelAccepted : bool;
  replyID : string;
  turnReasoning : string;
  reasoningField : string;
  spend : Quota.Usage;
  sources : list citationSource;
  drawn : nat;
}.
#[global] Instance Out_eta : Eta Out := λ o,
  mkOut (emitted o) (concreteModel o) (modelAccepted o) (replyID o) (turnReasoning o) (reasoningField o) (spend o) (sources o) (drawn o).
Definition emit (e : Event) (o : Out) : Out := o <| emitted ::= λ l, l ++ [e] |>.

Record ToolCall := mkCall { ID : string; Name : string; Args : string; open : bool; held : bool }.
#[global] Instance ToolCall_eta : Eta ToolCall := λ c, mkCall (ID c) (Name c) (Args c) (open c) (held c).

Definition maxToolCalls : Z := 128.
Definition upstreamRefused (message : string) : err := EApi (Err_ 502 "UPSTREAM_REFUSED" message).

(** What a turn has read: its calls, whether it has ended, the answer, the
    reasoning and the field it came in, and the last usage. *)
Record turning := mkTurning {
  out : Out;
  calls : list ToolCall;
  ended : bool;
  answer : string;
  reasoningText : string;
  tn_field : string;
  usage : option Quota.Usage;
}.
#[global] Instance turning_eta : Eta turning := λ t,
  mkTurning (out t) (calls t) (ended t) (answer t) (reasoningText t) (tn_field t) (usage t).

(** What the loop over the stream does after a line. *)
Inductive after := More | Stop | Refuse (e : err).

Section Turn.
Context `{JS : Seal.Json}.
Context (Raw : any → string) (Unmarshal : string → option any) (Valid : string → bool) (decodeJSONValue : string → option any).
(** [api.Token]'s draws; [json.Unmarshal] into an object; [int] of a number. *)
Context (Token : nat → string) (UnmarshalObject : string → option (list (string * any))) (Truncated : string → Z).
(** Whether a widget has a name. *)
Context (widget : string → bool).

Abbreviation WidgetArguments := (Results.WidgetArguments Raw Valid decodeJSONValue).
Abbreviation StreamError := (Api.StreamError UnmarshalObject Truncated).

Definition token (prefix : string) (o : Out) : string := String.append prefix (Token (drawn o)).
Fixpoint padded (n : nat) (o : Out) (calls : list ToolCall) : Out * list ToolCall :=
  match n with
  | 0 => (o, calls)
  | S n => padded n (o <| drawn ::= S |>) (calls ++ [mkCall (token "call_" o) "" "" false false])
  end.
(** [announce]'s change of the call, and the events it is shown with. *)
Definition announced (c : ToolCall) (d : toolCallDelta) : ToolCall :=
  let c := c <| ID ::= λ id, or (d_ID d) id |> <| Name ::= λ s, String.append s (d_Name d) |>
             <| Args ::= λ s, String.append s (d_Arguments d) |> in
  if negb (open c) && negb (String.eqb (Name c) "") then c <| held := widget (Name c) |> <| open := true |> else c.
Definition announcing (message : string) (before c : ToolCall) (d : toolCallDelta) : list Event :=
  if negb (open before) && open c then
    ToolCallStart (ID c) (Name c) message ::
    (if negb (held c) && negb (String.eqb (Args c) "") then [ToolCallArgs (ID c) (Args c)] else [])
  else if open before && negb (held c) && negb (String.eqb (d_Arguments d) "") then [ToolCallArgs (ID c) (d_Arguments d)]
  else [].
Definition announce (message : string) (o : Out) (calls : list ToolCall) (d : toolCallDelta) : Out * list ToolCall :=
  let i := Z.to_nat (d_Index d) in
  let '(o, calls) := padded (S i - length calls) o calls in
  match calls !! i with
  | None => (o, calls)
  | Some before =>
      let c := announced before d in
      (foldl (λ o e, emit e o) o (announcing message before c d), <[i := c]> calls)
  end.
Fixpoint announceAll (message : string) (ds : list toolCallDelta) (t : turning) : turning * after :=
  match ds with
  | [] => (t, More)
  | d :: ds =>
      if bool_decide (d_Index d < 0)%Z || bool_decide (maxToolCalls ≤ d_Index d)%Z
      then (t <| calls := [] |>, Refuse (upstreamRefused "The model exceeded the tool call limit"))
      else
        let '(o, cs) := announce message (out t) (calls t) d in
        announceAll message ds (t <| out := o |> <| calls := cs |>)
  end.

(** What a chunk's first choice adds. *)
Definition onDelta (message : string) (c : choice) (t : turning) : turning * after :=
  let t := if String.eqb (FinishReason c) "" then t else t <| ended := true |> in
  let reasoning := or (Reasoning c) (ReasoningAlt c) in
  let t := if String.eqb reasoning "" then t
           else let t := if String.eqb (Reasoning c) "" then t <| tn_field := "reasoning" |> else t in
                t <| reasoningText ::= λ s, String.append s reasoning |>
                  <| out ::= emit (ReasoningChunk (String.append message ReasoningSuffix) reasoning) |> in
  let t := if String.eqb (Content c) "" then t
           else t <| answer ::= λ s, String.append s (Content c) |>
                  <| out ::= emit (TextChunk message "assistant" (Content c)) |> in
  announceAll message (ToolCalls c) t.
Definition onChunk (message data : string) (c : chunk) (t : turning) : turning * after :=
  if ck_Error c || String.eqb (ck_Object c) "error" then (t <| calls := [] |>, Refuse (EApi (StreamError data)))
  else
    let t := if String.eqb (ck_Model c) "" || String.eqb (ck_Model c) "auto" then t
             else t <| out ::= λ o, o <| concreteModel := ck_Model c |> |> in
    let t := match ck_Usage c with Some u => t <| usage := Some u |> | None => t end in
    match ck_Choices c with [] => (t, More) | c :: _ => onDelta message c t end.
Definition onLine (message line : string) (t : turning) : turning * after :=
  if negb (String.prefix "data:" line) then (t, More)
  else
    let data := TrimSpace (TrimPrefix line "data:") in
    if String.eqb data "[DONE]" then (t <| ended := true |>, Stop)
    else if String.eqb data "" then (t, More)
    else match read_chunk data with
         | None => (t <| calls := [] |>, Refuse (upstreamRefused "The model stream contains invalid JSON"))
         | Some c => onChunk message data c t
         end.
Fixpoint scan (message : string) (lines : list string) (cut : option err) (t : turning) : turning * option err :=
  match lines with
  | [] => (t, cut)
  | line :: lines =>
      match onLine message line t with
      | (t, More) => scan message lines cut t
      | (t, Stop) => (t, None)
      | (t, Refuse e) => (t, Some e)
      end
  end.

(** The calls closed, once the stream has ended. *)
Definition parent (message answer : string) : string := if String.eqb answer "" then "" else message.
Definition closeCall (message answer : string) (c : ToolCall) : ToolCall * list Event :=
  let shown := open c && negb (held c) in
  let start := if open c then [] else [ToolCallStart (ID c) (Name c) (parent message answer)] in
  let c := if held c then c <| Args ::= WidgetArguments |> else c in
  let args := if String.eqb (Args c) "" then [ToolCallArgs (ID c) "{}"]
              else if shown then [] else [ToolCallArgs (ID c) (Args c)] in
  (c, start ++ args ++ [ToolCallEnd (ID c)]).

(** What answers a model's request: none, a refusal, or a stream, of its
    lines and of how it was cut, if it was. *)
Inductive response := NoResponse (e : err) | Refused (status : Z) (detail : string) (retryAfter : Z) | Streamed (lines : list string) (cut : option err).

Definition Meter (u : Quota.Usage) (o : Out) : Out :=
  o <| spend ::= λ s, Quota.mkUsage (Quota.wrap64 (Quota.Prompt s + Quota.Prompt u))
                        (Quota.wrap64 (Quota.Completion s + Quota.Completion u)) (Quota.wrap64 (Quota.Total s + Quota.Total u)) |>.
(** What is deferred: the usage counts, and the reasoning is kept. *)
Definition turned (t : turning) : Out :=
  let o := (out t) <| turnReasoning := reasoningText t |> <| reasoningField := tn_field t |> in
  match usage t with Some u => Meter u o | None => o end.
Definition opened (o : Out) : Out * string :=
  let o := o <| modelAccepted := true |> in
  let message := token "msg_" o in
  let o := o <| drawn ::= S |> in
  let o := if String.eqb (replyID o) "" then o <| replyID := message |> else o in
  (o, replyID o).
Definition begun (o : Out) : turning := mkTurning o [] false "" "" "reasoning_content" None.
Definition turn (o : Out) (r : response) : Out * result err (list ToolCall * string) :=
  match r with
  | NoResponse e => (o, Err e)
  | Refused status detail retryAfter => (o, Err (ERefusal status detail retryAfter))
  | Streamed lines cut =>
      let '(o, message) := opened o in
      let '(t, e) := scan message lines cut (begun o) in
      match e with
      | Some e => (turned t, Err e)
      | None =>
          if negb (ended t) then (turned t, Err (upstreamRefused "The model stream ended before completion"))
          else
            let closed := closeCall message (answer t) <$> calls t in
            let o := foldl (λ o e, emit e o) (out t) (mjoin closed.*2) in
            (turned (t <| out := o |>), Ok (closed.*1, answer t))
      end
  end.

(** ** What a turn shows of its calls

    A model is steady with a call when it says the call's name once, and its
    ID no later than its name. *)

Definition is_tool (e : Event) : bool :=
  match e with ToolCallStart _ _ _ | ToolCallArgs _ _ | ToolCallEnd _ => true | _ => false end.
Definition callOf (e : Event) : option string :=
  match e with ToolCallStart id _ _ | ToolCallArgs id _ | ToolCallEnd id => Some id | _ => None end.
Definition steady (calls : list ToolCall) (d : toolCallDelta) : bool :=
  match calls !! Z.to_nat (d_Index d) with
  | Some c => negb (open c) || String.eqb (d_Name d) "" && (String.eqb (d_ID d) "" || String.eqb (d_ID d) (ID c))
  | None => true
  end.
(** The calls there were at each delta of a stream. *)
Definition deltasOf (line : string) : list toolCallDelta :=
  if negb (String.prefix "data:" line) then []
  else match read_chunk (TrimSpace (TrimPrefix line "data:")) with
       | Some c => match ck_Choices c with c :: _ => ToolCalls c | [] => [] end
       | None => []
       end.
Fixpoint trailAll (message : string) (ds : list toolCallDelta) (t : turning) : list (list ToolCall * toolCallDelta) :=
  match ds with [] => [] | d :: ds => (calls t, d) :: trailAll message ds (announceAll message [d] t).1 end.
Fixpoint trail (message : string) (lines : list string) (t : turning) : list (list ToolCall * toolCallDelta) :=
  match lines with
  | [] => []
  | line :: lines =>
      trailAll message (deltasOf line) t ++ match onLine message line t with (t, More) => trail message lines t | _ => [] end
  end.

(** *** Emitting *)

Lemma emitted_all es o : emitted (foldl (λ o e, emit e o) o es) = emitted o ++ es.
Proof.
  revert o. induction es as [|e es IH]; intros o; cbn [foldl]; [by rewrite app_nil_r|]. rewrite IH. cbn. by rewrite <- app_assoc.
Qed.
Definition fresh_call (c : ToolCall) : Prop := open c = false ∧ Name c = ""%string ∧ held c = false ∧ Args c = ""%string.
Lemma padded_spec n o cs : ∃ new,
  (padded n o cs).2 = cs ++ new ∧ length new = n ∧ Forall fresh_call new ∧ emitted (padded n o cs).1 = emitted o.
Proof.
  revert o cs. induction n as [|n IH]; intros o cs; cbn [padded]; [exists []; by rewrite app_nil_r|].
  destruct (IH (o <| drawn ::= S |>) (cs ++ [mkCall (token "call_" o) "" "" false false])) as (new & -> & Hl & Hf & ->). eexists (_ :: new). rewrite <- app_assoc. split_and!; [done|cbn; by rewrite Hl|by constructor|done].
Qed.

(** What the events so far say: the text, the reasoning, and of each call the
    events of its index. *)
Definition saidText (e : Event) : string := match e with TextChunk _ _ d => d | _ => "" end.
Definition saidReasoning (e : Event) : string := match e with ReasoningChunk _ d => d | _ => "" end.
Definition is_end (e : Event) : bool := match e with ToolCallEnd _ => true | _ => false end.
Definition at_index (i : nat) (E : list (nat * Event)) : list Event := (filter (λ p, p.1 = i) E).*2.
Definition piece (p : string * string) : Event := ToolCallArgs p.1 p.2.
(** What is shown of a call so far: nothing before its name is said; then its
    start, under the ID and as much of the name as were said by then, and its
    arguments as they came, each piece under the ID it had.  [b]: the model
    has been steady with it. *)
Definition shows (b : Prop) (message : string) (c : ToolCall) (es : list Event) : Prop :=
  if open c then
    ∃ id name pieces, es = ToolCallStart id name message :: (piece <$> pieces) ∧ String.prefix name (Name c) = true ∧
      held c = widget name ∧ (if held c then pieces = [] else cat pieces.*2 = Args c) ∧
      (b → id = ID c ∧ name = Name c ∧ Forall (λ p, p.1 = ID c) pieces)
  else es = [] ∧ Name c = ""%string ∧ held c = false.
Definition reads (b : nat → Prop) (base : list Event) (message : string) (t : turning) (E : list (nat * Event)) : Prop :=
  ∃ es, emitted (out t) = base ++ es ∧ List.filter is_tool es = E.*2 ∧ forallb (λ e, negb (is_end e)) es = true ∧
    cat (saidText <$> es) = answer t ∧ cat (saidReasoning <$> es) = reasoningText t ∧
    Forall (λ p, p.1 < length (calls t)) E ∧ ∀ i c, calls t !! i = Some c → shows (b i) message c (at_index i E).
Lemma shows_weaken (b b' : Prop) message c es : (b' → b) → shows b message c es → shows b' message c es.
Proof. intros Hb. unfold shows. destruct (open c); [|done]. intros (id & name & ps & H1 & H2 & H3 & H4 & H5). exists id, name, ps. split_and!; auto. Qed.
Lemma reads_weaken (b b' : nat → Prop) base message t E : (∀ i, b' i → b i) → reads b base message t E → reads b' base message t E.
Proof.
  intros Hb (es & H1 & H2 & H3 & H4 & H5 & H6 & H7). exists es. split_and!; try done. intros i c Hc. eapply shows_weaken; [apply Hb|by apply H7].
Qed.

Lemma at_index_app i E E' : at_index i (E ++ E') = at_index i E ++ at_index i E'.
Proof. unfold at_index. by rewrite filter_app, fmap_app. Qed.
Lemma at_index_same i es : at_index i (pair i <$> es) = es.
Proof.
  unfold at_index. induction es as [|e es IH]; [done|]. cbn [fmap list_fmap]. rewrite filter_cons_True by done. cbn. by f_equal.
Qed.
Lemma at_index_other i j es : i ≠ j → at_index i (pair j <$> es) = [].
Proof.
  intros Hne. unfold at_index. induction es as [|e es IH]; [done|]. cbn [fmap list_fmap]. by rewrite filter_cons_False by (cbn; congruence).
Qed.
Lemma at_index_none i E n : Forall (λ p : nat * Event, p.1 < n) E → n ≤ i → at_index i E = [].
Proof.
  intros Hf Hi. unfold at_index. induction Hf as [|[j e] E Hj Hf IH]; [done|]. rewrite filter_cons_False by (cbn in *; lia). done.
Qed.
Lemma cat_app l l' : cat (l ++ l') = String.append (cat l) (cat l').
Proof. induction l as [|s l IH]; [done|]. change (String.append s (cat (l ++ l')) = String.append (String.append s (cat l)) (cat l')). by rewrite IH, string_app_assoc. Qed.

Lemma announcing_tools message before c d : Forall (λ e, is_tool e = true ∧ is_end e = false ∧ saidText e = ""%string ∧ saidReasoning e = ""%string) (announcing message before c d).
Proof. unfold announcing. repeat case_match; repeat constructor. Qed.
Lemma quiet_tools es : Forall (λ e, is_tool e = true ∧ is_end e = false ∧ saidText e = ""%string ∧ saidReasoning e = ""%string) es →
  List.filter is_tool es = es ∧ forallb (λ e, negb (is_end e)) es = true ∧ cat (saidText <$> es) = ""%string ∧ cat (saidReasoning <$> es) = ""%string.
Proof.
  induction 1 as [|e es (Ht & He & Hs & Hr) _ (IH1 & IH2 & IH3 & IH4)]; [done|]. cbn. rewrite Ht, He, Hs, Hr, IH1, IH2. done.
Qed.
Lemma prefix_refl s : String.prefix s s = true.
Proof. induction s as [|a s IH]; [done|]. cbn. by destruct (ascii_dec a a). Qed.
Lemma prefix_more n s x : String.prefix n s = true → String.prefix n (String.append s x) = true.
Proof.
  revert s. induction n as [|a n IH]; intros [|c s] H; try done; [by destruct (String.append _ x)|].
  change (String.append (String c s) x) with (String c (String.append s x)). cbn [String.prefix] in *.
  destruct (ascii_dec a c); [exact (IH s H)|done].
Qed.
(** A call as a delta of it leaves it, and what has been shown of it. *)
Definition steadyDelta (c : ToolCall) (d : toolCallDelta) : bool :=
  negb (open c) || String.eqb (d_Name d) "" && (String.eqb (d_ID d) "" || String.eqb (d_ID d) (ID c)).
Lemma shows_announced (b : Prop) message c d es :
  shows b message c es →
  shows (b ∧ steadyDelta c d = true) message (announced c d) (es ++ announcing message c (announced c d) d).
Proof.
  destruct c as [cid name args op he], d as [i did dname dargs]. unfold shows, announced, announcing, steadyDelta. cbn. destruct op; cbn.
  - intros (id & start & ps & -> & Hpre & Hheld & Ha & Hb).
    assert (Hsteady : b ∧ String.eqb dname "" && (String.eqb did "" || String.eqb did cid) = true →
      id = or did cid ∧ start = String.append name dname ∧ Forall (λ p, p.1 = or did cid) ps ∧ or did cid = cid).
    { intros [[-> [-> Hps]]%Hb [->%String.eqb_eq Hid]%andb_true_iff].
      assert (or did cid = cid) as ->; [|by rewrite string_app_nil_r].
      unfold or. destruct (String.eqb_spec did ""); [done|]. cbn in Hid. by apply String.eqb_eq in Hid. }
    destruct he; cbn.
    + exists id, start, []. subst ps. split_and!; try done; [by apply prefix_more|]. intros H. by destruct (Hsteady H) as (-> & -> & _).
    + destruct (String.eqb_spec dargs "") as [->|Hd]; cbn.
      * exists id, start, ps. rewrite app_nil_r, string_app_nil_r. split_and!; try done; [by apply prefix_more|].
        intros H. by destruct (Hsteady H) as (-> & -> & ? & _).
      * exists id, start, (ps ++ [(or did cid, dargs)]). rewrite !fmap_app, cat_app, Ha. cbn. rewrite string_app_nil_r.
        split_and!; try done; [by apply prefix_more|]. intros H. destruct (Hsteady H) as (-> & -> & Hps & _). split_and!; [done..|].
        apply Forall_app. split; [done|]. by constructor.
  - intros (-> & -> & ->). change (String.append "" dname) with dname. destruct (String.eqb_spec dname "") as [->|Hd]; cbn; [done|].
    exists (or did cid), dname. destruct (widget dname) eqn:Hw; cbn; [exists []; split_and!; try done; apply prefix_refl|].
    destruct (String.eqb_spec (String.append args dargs) "") as [He|He]; cbn.
    + exists []. rewrite He. split_and!; try done. apply prefix_refl.
    + exists [(or did cid, String.append args dargs)]. cbn. rewrite string_app_nil_r. split_and!; try done; [apply prefix_refl|].
      intros _. split_and!; [done..|]. by constructor.
Qed.

(** The deltas of call [i], steady. *)
Definition steadyAt (i : nat) (l : list (list ToolCall * toolCallDelta)) : Prop :=
  Forall (λ p, Z.to_nat (d_Index p.2) = i → steady p.1 p.2 = true) l.
Lemma announce_reads b base message t E d :
  reads b base message t E →
  ∃ E', reads (λ i, b i ∧ steadyAt i [(calls t, d)]) base message
          (t <| out := (announce message (out t) (calls t) d).1 |> <| calls := (announce message (out t) (calls t) d).2 |>) E'.
Proof.
  intros (es & He & Htool & Hend & Htext & Hreas & HE & Hshow). unfold announce. set (i := Z.to_nat (d_Index d)).
  destruct (padded_spec (S i - length (calls t)) (out t) (calls t)) as (new & Hp & Hlen & Hnew & Hem).
  destruct (padded _ _ _) as [o cs]. cbn in Hp, Hem. subst cs.
  assert (Hi : i < length (calls t ++ new)) by (rewrite length_app; lia).
  destruct (lookup_lt_is_Some_2 _ _ Hi) as [before Hb]. rewrite Hb. cbn [fst snd].
  assert (Hall : ∀ j c, (calls t ++ new) !! j = Some c → shows (b j) message c (at_index j E)).
  { intros j c [Hj|[Hj Hn]]%lookup_app_Some; [by apply Hshow|]. rewrite (at_index_none _ _ _ HE) by lia.
    destruct (Forall_lookup_1 _ _ _ _ Hnew Hn) as (Ho & Hnm & Hh & _). unfold shows. by rewrite Ho. }
  assert (Hopen : steadyAt i [(calls t, d)] → steadyDelta before d = true).
  { intros Hst. apply Forall_cons in Hst as [Hst _]. specialize (Hst eq_refl). cbn in Hst. unfold steady in Hst. fold i in Hst.
    apply lookup_app_Some in Hb as [Hb|[Hj Hn]]; [by rewrite Hb in Hst|].
    destruct (Forall_lookup_1 _ _ _ _ Hnew Hn) as (Ho & _). unfold steadyDelta. by rewrite Ho. }
  set (ev := announcing message before (announced before d) d).
  destruct (quiet_tools ev (announcing_tools _ _ _ _)) as (Hq1 & Hq2 & Hq3 & Hq4).
  exists (E ++ (pair i <$> ev)), (es ++ ev). cbn. split_and!.
  - by rewrite emitted_all, Hem, He, <- app_assoc.
  - rewrite List.filter_app, Htool, Hq1, fmap_app. f_equal. clear. induction ev; [done|]. cbn. by f_equal.
  - by rewrite forallb_app, Hend, Hq2.
  - by rewrite fmap_app, cat_app, Hq3, string_app_nil_r.
  - by rewrite fmap_app, cat_app, Hq4, string_app_nil_r.
  - rewrite length_insert. apply Forall_app. split.
    + eapply Forall_impl; [exact HE|]. intros p Hpl. cbn in Hpl. rewrite length_app. lia.
    + apply Forall_fmap, Forall_true. intros e. cbn. done.
  - intros j c Hj. rewrite at_index_app. apply list_lookup_insert_Some in Hj as [(<- & <- & _)|[Hne Hj]].
    + rewrite at_index_same. eapply shows_weaken; [|apply shows_announced, Hall, Hb]. intros [? ?]. split; [done|]. by apply Hopen.
    + rewrite at_index_other by done. rewrite app_nil_r. eapply shows_weaken; [|by apply Hall]. by intros [].
Qed.

(** A change that shows nothing of the calls. *)
Lemma reads_quiet b base message t t' E e :
  reads b base message t E → calls t' = calls t → emitted (out t') = emitted (out t) ++ [e] → is_tool e = false →
  answer t' = String.append (answer t) (saidText e) → reasoningText t' = String.append (reasoningText t) (saidReasoning e) →
  reads b base message t' E.
Proof.
  intros (es & He & Htool & Hend & Htext & Hreas & HE & Hshow) Hc Hem Ht Ha Hr. exists (es ++ [e]). split_and!.
  - by rewrite Hem, He, <- app_assoc.
  - rewrite List.filter_app. cbn. by rewrite Ht, app_nil_r.
  - rewrite forallb_app, Hend. cbn. by destruct e.
  - rewrite fmap_app, cat_app, Htext, Ha. cbn. by rewrite string_app_nil_r.
  - rewrite fmap_app, cat_app, Hreas, Hr. cbn. by rewrite string_app_nil_r.
  - by rewrite Hc.
  - by rewrite Hc.
Qed.
Lemma reads_same b base message t t' E :
  reads b base message t E → calls t' = calls t → emitted (out t') = emitted (out t) → answer t' = answer t →
  reasoningText t' = reasoningText t → reads b base message t' E.
Proof. intros (es & H) Hc He Ha Hr. exists es. by rewrite Hc, He, Ha, Hr. Qed.

(** What holds of a stream read to its end, or refused: then no more than
    that none of its calls was closed. *)
Definition unended (base : list Event) (o : Out) : Prop :=
  ∃ es, emitted o = base ++ es ∧ forallb (λ e, negb (is_end e)) es = true.
Definition readTo (b : nat → Prop) (base : list Event) (message : string) (r : turning * after) : Prop :=
  match r.2 with Refuse _ => unended base (out r.1) | _ => ∃ E, reads b base message r.1 E end.
Lemma reads_unended b base message t E : reads b base message t E → unended base (out t).
Proof. intros (es & ? & _ & ? & _). by exists es. Qed.
Lemma readTo_weaken (b b' : nat → Prop) base message r : (∀ i, b' i → b i) → readTo b base message r → readTo b' base message r.
Proof. intros Hb. unfold readTo. destruct r.2; [| |done]; intros [E HE]; exists E; by eapply reads_weaken. Qed.

Lemma announceAll_reads b base message ds t E :
  reads b base message t E → readTo (λ i, b i ∧ steadyAt i (trailAll message ds t)) base message (announceAll message ds t).
Proof.
  revert b t E. induction ds as [|d ds IH]; intros b t E HR; [exists E; eapply reads_weaken; [|exact HR]; by intros i []|].
  cbn [announceAll]. destruct (_ || _) eqn:Hi; [by apply (reads_unended b _ message t E)|].
  destruct (announce_reads b base message t E d HR) as [E' HR']. 
  assert (Htrail : trailAll message (d :: ds) t = (calls t, d) :: trailAll message ds
    (t <| out := (announce message (out t) (calls t) d).1 |> <| calls := (announce message (out t) (calls t) d).2 |>)).
  { cbn [trailAll announceAll]. rewrite Hi. by destruct (announce message (out t) (calls t) d). }
  rewrite Htrail. clear Htrail. destruct (announce message (out t) (calls t) d) as [o cs]. cbn [fst snd] in *.
  eapply readTo_weaken; [|by eapply IH]. intros i [Hb Hs]. apply Forall_cons in Hs as [Hd Hs]. split; [split; [done|]|done].
  by constructor.
Qed.

(** Trails are of the calls, and of what has been drawn. *)
Lemma drawn_all es o : drawn (foldl (λ o e, emit e o) o es) = drawn o.
Proof. revert o. induction es as [|e es IH]; intros o; [done|]. cbn [foldl]. by rewrite IH. Qed.
Lemma padded_same n o o' cs : drawn o = drawn o' →
  (padded n o cs).2 = (padded n o' cs).2 ∧ drawn (padded n o cs).1 = drawn (padded n o' cs).1.
Proof.
  revert o o' cs. induction n as [|n IH]; intros o o' cs Hd; [done|]. cbn [padded].
  replace (token "call_" o') with (token "call_" o) by (unfold token; by rewrite Hd). apply IH. cbn. by rewrite Hd.
Qed.
Lemma announce_same message o o' cs d : drawn o = drawn o' →
  (announce message o cs d).2 = (announce message o' cs d).2 ∧ drawn (announce message o cs d).1 = drawn (announce message o' cs d).1.
Proof.
  intros Hd. unfold announce. destruct (padded_same (S (Z.to_nat (d_Index d)) - length cs) o o' cs Hd) as [Hc Hd'].
  destruct (padded _ o cs) as [o1 cs1], (padded _ o' cs) as [o2 cs2]. cbn in Hc, Hd'. subst cs2.
  destruct (cs1 !! _) as [c|]; [|done]. split; [done|]. cbn [fst]. by rewrite !drawn_all.
Qed.
Lemma trailAll_same message ds t t' :
  calls t = calls t' → drawn (out t) = drawn (out t') → trailAll message ds t = trailAll message ds t'.
Proof.
  revert t t'. induction ds as [|d ds IH]; intros t t' Hc Hd; [done|]. cbn [trailAll]. rewrite Hc. f_equal.
  cbn [announceAll]. rewrite Hc. destruct (_ || _); [by apply IH|].
  destruct (announce_same message (out t) (out t') (calls t') d Hd) as [Hc' Hd'].
  destruct (announce message (out t) (calls t') d), (announce message (out t') (calls t') d). by apply IH.
Qed.

Lemma onDelta_reads b base message c t E :
  reads b base message t E → readTo (λ i, b i ∧ steadyAt i (trailAll message (ToolCalls c) t)) base message (onDelta message c t).
Proof.
  intros HR. unfold onDelta.
  set (t1 := if String.eqb (FinishReason c) "" then t else _).
  assert (H1 : reads b base message t1 E ∧ calls t1 = calls t ∧ drawn (out t1) = drawn (out t)).
  { unfold t1. case_match; [done|]. split_and!; [|done..]. by eapply reads_same. }
  clearbody t1. destruct H1 as (HR1 & Hc1 & Hd1). set (reasoning := or (Reasoning c) (ReasoningAlt c)).
  set (t2 := if String.eqb reasoning "" then t1 else _).
  assert (H2 : reads b base message t2 E ∧ calls t2 = calls t1 ∧ drawn (out t2) = drawn (out t1)).
  { unfold t2. destruct (String.eqb reasoning ""); [done|]. destruct (String.eqb (Reasoning c) ""); (split_and!; [|done..]);
      (eapply (reads_quiet _ _ _ t1 _ _ (ReasoningChunk _ reasoning)); [done..| |]; [cbn; by rewrite string_app_nil_r|done]). }
  clearbody t2. destruct H2 as (HR2 & Hc2 & Hd2). set (t3 := if String.eqb (Content c) "" then t2 else _).
  assert (H3 : reads b base message t3 E ∧ calls t3 = calls t2 ∧ drawn (out t3) = drawn (out t2)).
  { unfold t3. destruct (String.eqb (Content c) ""); [done|]. split_and!; [|done..].
    eapply (reads_quiet _ _ _ t2 _ _ (TextChunk message "assistant" (Content c))); [done..|]. cbn. by rewrite string_app_nil_r. }
  clearbody t3. destruct H3 as (HR3 & Hc3 & Hd3).
  rewrite (trailAll_same _ _ t t3) by congruence. by eapply announceAll_reads.
Qed.
Lemma readTo_more b base message t E l : reads b base message t E → readTo (λ i, b i ∧ steadyAt i l) base message (t, More).
Proof. intros HR. exists E. eapply reads_weaken; [|exact HR]. by intros i []. Qed.
Lemma onLine_reads b base message line t E :
  reads b base message t E → readTo (λ i, b i ∧ steadyAt i (trailAll message (deltasOf line) t)) base message (onLine message line t).
Proof.
  intros HR. unfold onLine, deltasOf. destruct (negb (String.prefix "data:" line)); [by eapply readTo_more|].
  set (data := TrimSpace _). destruct (String.eqb data "[DONE]").
  { exists E. eapply reads_weaken; [|by eapply reads_same]. by intros i []. }
  destruct (String.eqb data ""); [by eapply readTo_more|]. destruct (read_chunk data) as [c|]; [|exact (reads_unended _ _ _ _ _ HR)].
  unfold onChunk. destruct (_ || _); [exact (reads_unended _ _ _ _ _ HR)|].
  set (t1 := if _ || _ then t else _). set (t2 := match ck_Usage c with Some u => _ | None => t1 end).
  assert (H2 : reads b base message t2 E ∧ calls t2 = calls t ∧ drawn (out t2) = drawn (out t)).
  { unfold t2, t1. split_and!; [eapply reads_same; [exact HR|..]|..]; by repeat case_match. }
  clearbody t2. destruct H2 as (HR2 & Hc2 & Hd2). destruct (ck_Choices c) as [|ch chs]; [by eapply readTo_more|].
  rewrite (trailAll_same _ _ t t2) by done. by eapply onDelta_reads.
Qed.
Lemma scan_reads b base message lines cut t E :
  reads b base message t E →
  let '(t', e) := scan message lines cut t in
  match e with None => ∃ E, reads (λ i, b i ∧ steadyAt i (trail message lines t)) base message t' E | Some _ => unended base (out t') end.
Proof.
  revert b t E. induction lines as [|line lines IH]; intros b t E HR; cbn [scan].
  - destruct cut; [by eapply reads_unended|by eapply readTo_more].
  - pose proof (onLine_reads b base message line t E HR) as Hr. cbn [trail].
    destruct (onLine message line t) as [t' []]; cbn in Hr; [| |exact Hr].
    + destruct Hr as [E' Hr]. specialize (IH _ _ _ Hr). destruct (scan message lines cut t') as [t2 [e|]]; [done|].
      destruct IH as [E2 H2]. exists E2. eapply reads_weaken; [|exact H2]. intros i [Hb Hs]. by apply Forall_app in Hs as [? ?].
    + destruct Hr as [E' Hr]. exists E'. by rewrite app_nil_r.
Qed.

(** *** The calls closed *)

#[local] Arguments Results.WidgetArguments : simpl never.
Definition shownArgs (c : ToolCall) : string := if String.eqb (Args c) "" then "{}" else Args c.
Lemma cat_pieces (id : string) (args : list string) : (piece <$> (pair id <$> args)) = ToolCallArgs id <$> args.
Proof. by rewrite <- list_fmap_compose. Qed.
(** What is shown of a call by its end. *)
Definition ended_as (b : Prop) (c : ToolCall) (es : list Event) : Prop :=
  ∃ id name parent pieces, es = ToolCallStart id name parent :: (piece <$> pieces) ++ [ToolCallEnd (ID c)] ∧
    String.prefix name (Name c) = true ∧ cat pieces.*2 = shownArgs c ∧ (held c = true → length pieces = 1) ∧
    (b → id = ID c ∧ name = Name c ∧ Forall (λ p, p.1 = ID c) pieces).
Lemma closeCall_shows b message answer_ c es :
  shows b message c es →
  let '(c', ev) := closeCall message answer_ c in
  ID c' = ID c ∧ Name c' = Name c ∧ held c' = held c ∧ ended_as b c' (es ++ ev).
Proof.
  unfold shows, closeCall, ended_as, shownArgs. destruct c as [cid name args op he]. cbn. destruct op; cbn.
  - intros (id & start & ps & -> & Hpre & _ & Ha & Hb). destruct he; cbn.
    + subst ps. destruct (String.eqb_spec (WidgetArguments args) "") as [Hw|Hw]; cbn; (split_and!; [done..|]); exists id, start, message.
      * exists [(cid, "{}"%string)]. split_and!; try done. intros H. destruct (Hb H) as (-> & -> & _). split_and!; [done..|]. by constructor.
      * exists [(cid, WidgetArguments args)]. cbn. rewrite string_app_nil_r. split_and!; try done.
        intros H. destruct (Hb H) as (-> & -> & _). split_and!; [done..|]. by constructor.
    + destruct (String.eqb_spec args "") as [->|Hw]; cbn; (split_and!; [done..|]); exists id, start, message.
      * exists (ps ++ [(cid, "{}"%string)]). rewrite !fmap_app, cat_app, Ha, <- app_assoc. split_and!; try done.
        intros H. destruct (Hb H) as (-> & -> & ?). split_and!; [done..|]. apply Forall_app. split; [done|]. by constructor.
      * exists ps. by split_and!.
  - intros (-> & -> & ->). cbn. destruct (String.eqb_spec args "") as [->|Hw]; cbn; (split_and!; [done..|]); exists cid, ""%string, (parent message answer_).
    + exists [(cid, "{}"%string)]. split_and!; try done. intros _. split_and!; [done..|]. by constructor.
    + exists [(cid, args)]. cbn. rewrite string_app_nil_r. split_and!; try done. intros _. split_and!; [done..|]. by constructor.
Qed.
Lemma closeCall_quiet message answer_ c :
  Forall (λ e, is_tool e = true ∧ callOf e = Some (ID c) ∧ saidText e = ""%string ∧ saidReasoning e = ""%string) (closeCall message answer_ c).2.
Proof. unfold closeCall. destruct c as [cid name args op he], op, he; cbn; case_match; repeat constructor. Qed.

(** A call's own events, of all of a turn's. *)
Definition of_call (id : string) (es : list Event) : list Event := filter (λ e, callOf e = Some id) es.
Lemma of_call_tools id es : of_call id (List.filter is_tool es) = of_call id es.
Proof.
  unfold of_call. induction es as [|e es IH]; [done|]. cbn [List.filter]. destruct (is_tool e) eqn:Ht; rewrite !filter_cons.
  - by destruct (decide _); rewrite IH.
  - rewrite decide_False by (by destruct e). done.
Qed.
(** The events tagged with the index of their call, by which each shows its
    own ID. *)
Lemma of_call_tagged (cs : list ToolCall) (E : list (nat * Event)) i c :
  NoDup (ID <$> cs) → cs !! i = Some c →
  Forall (λ p, ∃ c, cs !! p.1 = Some c ∧ callOf p.2 = Some (ID c)) E → of_call (ID c) E.*2 = at_index i E.
Proof.
  intros Hnd Hi. unfold of_call, at_index. induction 1 as [|[j e] E (c' & Hj & He) _ IH]; [done|]. cbn [fmap list_fmap fst snd] in *.
  rewrite !filter_cons. cbn [fst]. destruct (decide (j = i)) as [->|Hne].
  - assert (c' = c) as -> by congruence. rewrite decide_True by done. cbn. by f_equal.
  - rewrite decide_False; [done|]. rewrite He. intros [= Heq]. apply Hne.
    eapply NoDup_lookup; [exact Hnd| |]; rewrite list_lookup_fmap; [by rewrite Hj|]. rewrite Hi. cbn. by rewrite Heq.
Qed.

(** Every event of a call's is the call's own, with its index. *)
Definition tagged (cs : list ToolCall) (E : list (nat * Event)) : Prop :=
  Forall (λ p, ∃ c, cs !! p.1 = Some c ∧ callOf p.2 = Some (ID c)) E.
Definition closing (message answer_ : string) (cs : list ToolCall) : list (list Event) := (λ c, (closeCall message answer_ c).2) <$> cs.
Fixpoint tag (i : nat) (l : list (list Event)) : list (nat * Event) :=
  match l with [] => [] | es :: l => (pair i <$> es) ++ tag (S i) l end.
Lemma tag_events i l : (tag i l).*2 = mjoin l.
Proof.
  revert i. induction l as [|es l IH]; intros i; [done|]. cbn [tag]. rewrite fmap_app, IH. cbn. f_equal.
  rewrite <- list_fmap_compose. by apply list_fmap_id.
Qed.
Lemma tag_index i j l es : l !! j = Some es → at_index (i + j) (tag i l) = es.
Proof.
  revert i j. induction l as [|es' l IH]; intros i [|j] Hj; try done; cbn [tag]; rewrite at_index_app.
  - injection Hj as ->. rewrite Nat.add_0_r, at_index_same.
    assert (Hz : ∀ l k, i < k → at_index i (tag k l) = []).
    { clear. intros l. induction l as [|es l IH]; intros k Hk; [done|]. cbn [tag]. rewrite at_index_app, at_index_other by lia. apply IH. lia. }
    rewrite Hz by lia. by rewrite app_nil_r.
  - rewrite at_index_other by lia. rewrite <- Nat.add_succ_comm. by apply IH.
Qed.
Lemma tag_bound i l : Forall (λ p, p.1 < i + length l) (tag i l).
Proof.
  revert i. induction l as [|es l IH]; intros i; [constructor|]. cbn [tag]. apply Forall_app. split.
  - apply Forall_fmap, Forall_true. intros e. cbn. lia.
  - eapply Forall_impl; [apply IH|]. cbn. intros p. lia.
Qed.
Lemma silent_tools es id : Forall (λ e, is_tool e = true ∧ callOf e = Some id ∧ saidText e = ""%string ∧ saidReasoning e = ""%string) es →
  List.filter is_tool es = es ∧ cat (saidText <$> es) = ""%string ∧ cat (saidReasoning <$> es) = ""%string.
Proof. induction 1 as [|e es (Ht & _ & Hs & Hr) _ (IH1 & IH2 & IH3)]; [done|]. cbn. by rewrite Ht, Hs, Hr, IH1. Qed.
Lemma closing_quiet message answer_ cs :
  List.filter is_tool (mjoin (closing message answer_ cs)) = mjoin (closing message answer_ cs) ∧
  cat (saidText <$> mjoin (closing message answer_ cs)) = ""%string ∧
  cat (saidReasoning <$> mjoin (closing message answer_ cs)) = ""%string.
Proof.
  induction cs as [|c cs (IH1 & IH2 & IH3)]; [done|].
  change (mjoin (closing message answer_ (c :: cs))) with ((closeCall message answer_ c).2 ++ mjoin (closing message answer_ cs)).
  rewrite List.filter_app, !fmap_app, !cat_app, IH1, IH2, IH3, !string_app_nil_r.
  destruct (silent_tools _ _ (closeCall_quiet message answer_ c)) as (-> & -> & ->). done.
Qed.

#[local] Arguments closeCall : simpl never.
Lemma closed_ids message answer_ (cs : list ToolCall) : ID <$> (closeCall message answer_ <$> cs).*1 = ID <$> cs.
Proof.
  induction cs as [|c cs IH]; [done|]. cbn. f_equal; [|done]. unfold closeCall. by destruct c as [cid name args op he], op, he.
Qed.
(** What a turn has shown once it is closed, its tool events by the index of
    their call. *)
Definition closes (b : nat → Prop) (es : list Event) (cs : list ToolCall) (E : list (nat * Event)) : Prop :=
  List.filter is_tool es = E.*2 ∧ Forall (λ p, p.1 < length cs) E ∧
  ∀ i c, cs !! i = Some c → ended_as (b i) c (at_index i E).
Lemma turn_closes b base message t E : reads b base message t E →
  let closed := closeCall message (answer t) <$> calls t in
  ∃ es E', emitted (foldl (λ o e, emit e o) (out t) (mjoin closed.*2)) = base ++ es ∧
    cat (saidText <$> es) = answer t ∧ cat (saidReasoning <$> es) = reasoningText t ∧ closes b es closed.*1 E'.
Proof.
  intros (es & Hem & Htool & _ & Htext & Hreas & HEl & Hshow) closed.
  assert (Hcl : closed.*2 = closing message (answer t) (calls t)) by (unfold closed, closing; by rewrite <- list_fmap_compose).
  rewrite emitted_all, Hcl. destruct (closing_quiet message (answer t) (calls t)) as (Hq1 & Hq2 & Hq3).
  exists (es ++ mjoin (closing message (answer t) (calls t))), (E ++ tag 0 (closing message (answer t) (calls t))).
  unfold closes. split_and!.
  - by rewrite Hem, <- app_assoc.
  - by rewrite fmap_app, cat_app, Hq2, string_app_nil_r.
  - by rewrite fmap_app, cat_app, Hq3, string_app_nil_r.
  - by rewrite List.filter_app, Htool, Hq1, fmap_app, tag_events.
  - unfold closed. rewrite !length_fmap. apply Forall_app. split; [done|].
    eapply Forall_impl; [apply tag_bound|]. intros p. unfold closing. by rewrite length_fmap.
  - intros i c' Hi. unfold closed in Hi. rewrite !list_lookup_fmap in Hi. destruct (calls t !! i) as [c|] eqn:Hc; [|done].
    cbn in Hi. apply (inj Some) in Hi. subst c'. pose proof (closeCall_shows (b i) message (answer t) c _ (Hshow _ _ Hc)) as Hs.
    rewrite at_index_app, (tag_index 0 i _ (closeCall message (answer t) c).2) by (unfold closing; by rewrite list_lookup_fmap, Hc).
    destruct (closeCall message (answer t) c) as [c' ev]. apply Hs.
Qed.
(** The events of a call, by its ID, where the model was steady with each
    call and their IDs tell them apart. *)
Lemma closes_tagged (b : nat → Prop) es cs E : closes b es cs E → (∀ i, b i) → tagged cs E.
Proof.
  intros (_ & HE & Hcs) Hb. apply Forall_forall. intros [i e] Hin. pose proof (proj1 (Forall_forall _ _) HE _ Hin) as Hi. cbn in Hi.
  destruct (lookup_lt_is_Some_2 _ _ Hi) as [c Hc]. exists c. split; [done|].
  assert (Hmem : e ∈ at_index i E) by (apply list_elem_of_fmap; exists (i, e); split; [done|]; by apply list_elem_of_filter).
  destruct (Hcs _ _ Hc) as (id & name & p & pieces & Hes & _ & _ & _ & Hst). destruct (Hst (Hb i)) as (-> & _ & Hps).
  rewrite Hes in Hmem. apply elem_of_cons in Hmem as [->|[Hmem|Hmem]%elem_of_app]; [done| |by apply list_elem_of_singleton in Hmem as ->].
  apply list_elem_of_fmap in Hmem as (q & -> & Hq). cbn. f_equal. by apply (proj1 (Forall_forall _ _) Hps).
Qed.
Lemma closes_steady (b : nat → Prop) es cs E : closes b es cs E → (∀ i, b i) → NoDup (ID <$> cs) →
  (∀ c, c ∈ cs → ∃ parent args,
     of_call (ID c) es = ToolCallStart (ID c) (Name c) parent :: (ToolCallArgs (ID c) <$> args) ++ [ToolCallEnd (ID c)] ∧
     cat args = shownArgs c ∧ (held c = true → length args = 1)) ∧
  (∀ e, e ∈ es → is_tool e = true → ∃ c, c ∈ cs ∧ callOf e = Some (ID c)).
Proof.
  intros Hcl Hb Hnd. pose proof (closes_tagged _ _ _ _ Hcl Hb) as Htag. destruct Hcl as (Htool & HE & Hcs). split.
  - intros c Hin. apply list_elem_of_lookup in Hin as [i Hi].
    destruct (Hcs i c Hi) as (id & name & p & pieces & Hes & _ & Hcat & Hone & Hst). destruct (Hst (Hb i)) as (-> & -> & Hps).
    exists p, pieces.*2. rewrite <- of_call_tools, Htool, (of_call_tagged cs E i c Hnd Hi Htag), Hes. split_and!; [|done|by rewrite length_fmap].
    f_equal. f_equal. clear -Hps. induction Hps as [|[id a] ps Hid _ IH]; [done|]. cbn in *. subst id. by rewrite IH.
  - intros e He Ht. assert (Hin : e ∈ E.*2).
    { rewrite <- Htool. apply list_elem_of_In, List.filter_In. split; [by apply list_elem_of_In|done]. }
    apply list_elem_of_fmap in Hin as ([i e'] & -> & Hin). destruct (proj1 (Forall_forall _ _) Htag _ Hin) as (c & Hc & Hcall).
    exists c. split; [exact (list_elem_of_lookup_2 _ _ _ Hc)|done].
Qed.

(** *** What a turn keeps, and how it fails

    The reasoning is in one of two fields; and a stream's failure is not the
    refusal a credential is renewed for. *)
Definition inField (f : string) : Prop := f = "reasoning_content"%string ∨ f = "reasoning"%string.
Definition unauthenticated (e : err) : Prop := HTTP (Api.AsError UnmarshalObject Truncated e) = 401%Z.
Definition steps (t : turning) (r : turning * after) : Prop :=
  (inField (tn_field t) → inField (tn_field r.1)) ∧ ∀ e, r.2 = Refuse e → ¬ unauthenticated e.
Lemma upstreamRefused_401 text : ¬ unauthenticated (upstreamRefused text).
Proof. done. Qed.
Lemma announceAll_steps message ds t : steps t (announceAll message ds t).
Proof.
  revert t. induction ds as [|d ds IH]; intros t; cbn [announceAll]; [by split|]. destruct (_ || _).
  - split; [done|]. intros e [= <-]. apply upstreamRefused_401.
  - destruct (announce _ _ _ _) as [o cs]. destruct (IH (t <| out := o |> <| calls := cs |>)) as [H1 H2]. by split.
Qed.
Lemma onLine_steps message line t : steps t (onLine message line t).
Proof.
  unfold onLine. destruct (negb _); [by split|]. destruct (String.eqb _ "[DONE]"); [by split|]. destruct (String.eqb _ ""); [by split|].
  destruct (read_chunk _) as [c|]; [|split; [done|]; intros e [= <-]; apply upstreamRefused_401].
  unfold onChunk. destruct (_ || _); [split; [done|]; intros e [= <-]; apply Api.StreamError_401|].
  cbv zeta. set (t1 := match ck_Usage c with Some _ => _ | None => _ end).
  assert (H1 : tn_field t1 = tn_field t) by (unfold t1; repeat case_match; done). clearbody t1.
  destruct (ck_Choices c) as [|ch chs]; [by split; cbn; rewrite ?H1|].
  unfold onDelta. cbv zeta. set (t2 := if String.eqb (FinishReason ch) "" then t1 else _).
  assert (H2 : tn_field t2 = tn_field t) by (unfold t2; case_match; done). clearbody t2.
  set (t3 := if String.eqb (or _ _) "" then t2 else _).
  assert (H3 : inField (tn_field t) → inField (tn_field t3)).
  { unfold t3. rewrite <- H2. repeat case_match; cbn; unfold inField; tauto. }
  clearbody t3. set (t4 := if String.eqb (Content ch) "" then t3 else _).
  assert (H4 : tn_field t4 = tn_field t3) by (unfold t4; case_match; done). clearbody t4.
  destruct (announceAll_steps message (ToolCalls ch) t4) as [Ha Hb]. split; [|exact Hb]. intros Hf. apply Ha. rewrite H4. auto.
Qed.
Lemma scan_steps message lines cut t : inField (tn_field t) →
  let '(t', e) := scan message lines cut t in inField (tn_field t') ∧ ∀ x, e = Some x → unauthenticated x → cut = Some x.
Proof.
  revert t. induction lines as [|line lines IH]; intros t Hf; cbn [scan]; [done|].
  destruct (onLine_steps message line t) as [H1 H2]. destruct (onLine message line t) as [t' []]; cbn in *.
  - apply IH. auto.
  - split; [auto|done].
  - split; [auto|]. intros x [= ->] Hx. by destruct (H2 x).
Qed.
(** What answers a request is plain when a stream that is cut is not cut by
    an unauthenticated refusal. *)
Definition plain (a : response) : Prop := ∀ lines e, a = Streamed lines (Some e) → ¬ unauthenticated e.
Lemma turn_field o a o' x : turn o a = (o', Ok x) → inField (reasoningField o').
Proof.
  unfold turn. destruct a as [|status detail after_|lines cut]; [done..|]. destruct (opened o) as [o1 message].
  pose proof (scan_steps message lines cut (begun o1) (or_introl eq_refl)) as Hs.
  destruct (scan message lines cut (begun o1)) as [t [e|]]; [done|]. destruct (negb _); [done|]. intros [= <- _].
  unfold turned. cbn. destruct (usage t); apply Hs.
Qed.
Lemma turn_unauthenticated o a o' e : turn o a = (o', Err e) → unauthenticated e → plain a → o' = o.
Proof.
  unfold turn. destruct a as [e'|status detail after_|lines cut]; [by intros [= <- _]..|]. destruct (opened o) as [o1 message].
  pose proof (scan_steps message lines cut (begun o1) (or_introl eq_refl)) as Hs.
  destruct (scan message lines cut (begun o1)) as [t [e'|]].
  - intros [= <- ->] Hu Hp. apply (proj2 Hs e eq_refl) in Hu as Hc. subst cut. by destruct (Hp _ _ eq_refl).
  - destruct (negb _); [|done]. intros [= _ <-] Hu. by destruct (upstreamRefused_401 _ Hu).
Qed.

(** C17. What a turn shows its client is what it asks for, whatever the stream:
    the turn's text and reasoning are what its stream said; and its tool
    events are, by the index of their call, of each call it returns, in
    order, its start, under the ID it had by then and as much of its name as
    had come, its arguments in one or more pieces, each under the ID it had
    by then, which together are those it is carried out with, in one piece
    for a widget, and its end.  Where the model was steady with a call, its
    name said once and its ID no later, all of that is under its ID and its
    name; and where it was with every call, under IDs that tell them apart,
    those are the events of the call's ID, and no event is of another.  A turn
    that fails closes none. *)
Theorem turn_shows_calls o lines cut o' r :
  turn o (Streamed lines cut) = (o', r) →
  let steadily i := steadyAt i (trail (opened o).2 lines (begun (opened o).1)) in
  ∃ es, emitted o' = emitted o ++ es ∧
  match r with
  | Err _ => forallb (λ e, negb (is_end e)) es = true
  | Ok (cs, answer) =>
      cat (saidText <$> es) = answer ∧ cat (saidReasoning <$> es) = turnReasoning o' ∧
      (∃ E, List.filter is_tool es = E.*2 ∧ Forall (λ p, p.1 < length cs) E ∧
       ∀ i c, cs !! i = Some c → ∃ id name parent pieces,
         at_index i E = ToolCallStart id name parent :: (piece <$> pieces) ++ [ToolCallEnd (ID c)] ∧
         String.prefix name (Name c) = true ∧ cat pieces.*2 = shownArgs c ∧ (held c = true → length pieces = 1) ∧
         (steadily i → id = ID c ∧ name = Name c ∧ Forall (λ p, p.1 = ID c) pieces)) ∧
      ((∀ i, steadily i) → NoDup (ID <$> cs) →
       (∀ c, c ∈ cs → ∃ parent args,
          of_call (ID c) es = ToolCallStart (ID c) (Name c) parent :: (ToolCallArgs (ID c) <$> args) ++ [ToolCallEnd (ID c)] ∧
          cat args = shownArgs c ∧ (held c = true → length args = 1)) ∧
       (∀ e, e ∈ es → is_tool e = true → ∃ c, c ∈ cs ∧ callOf e = Some (ID c)))
  end.
Proof.
  unfold turn. assert (Hop : emitted (opened o).1 = emitted o) by (unfold opened; cbn; by case_match).
  destruct (opened o) as [o1 message]. cbn in Hop |- *. intros Ht.
  assert (HR : reads (λ _, True) (emitted o1) message (begun o1) []).
  { exists []. cbn. rewrite app_nil_r. split_and!; try done. }
  pose proof (scan_reads _ _ _ lines cut _ _ HR) as Hscan. rewrite Hop in Hscan. destruct (scan message lines cut (begun o1)) as [t e].
  assert (Hturned : ∀ t, emitted (turned t) = emitted (out t)) by (intros t'; unfold turned; by destruct (usage t')).
  destruct e as [e|].
  { injection Ht as <- <-. rewrite Hturned. apply Hscan. }
  destruct Hscan as [E HE]. destruct (negb (ended t)).
  { injection Ht as <- <-. rewrite Hturned. destruct (reads_unended _ _ _ _ _ HE) as (es & ? & ?). by exists es. }
  apply (reads_weaken _ (λ i, steadyAt i (trail message lines (begun o1)))) in HE; [|done].
  injection Ht as <- <-. destruct (turn_closes _ _ _ _ _ HE) as (es & E' & Hem & Htext & Hreas & Hcl).
  exists es. rewrite Hturned. split_and!; [done|done| | |].
  - rewrite Hreas. unfold turned. by destruct (usage _).
  - exists E'. exact Hcl.
  - intros Hb Hnd. by apply (closes_steady _ _ _ _ Hcl).
Qed.
End Turn.

(** ** Witnesses *)
Module Witness.

(** A syntax in which a few words are chunks of a stream. *)
Definition ofMembers (ms : list (string * Seal.doc)) : Seal.doc := Seal.DObj ms.
Definition chunkOf (delta : list (string * Seal.doc)) : Seal.doc :=
  ofMembers [("model", Seal.DStr "m"); ("choices", Seal.DArr [ofMembers [("delta", ofMembers delta)]])]%string.
Definition callDelta (index id name arguments : string) : Seal.doc :=
  ofMembers [("index", Seal.DNum index); ("id", Seal.DStr id);
             ("function", ofMembers [("name", Seal.DStr name); ("arguments", Seal.DStr arguments)])]%string.
Definition words : list (string * Seal.doc) :=
  [("said", chunkOf [("reasoning", Seal.DStr "hm"); ("content", Seal.DStr "Hi")]);
   ("calls", chunkOf [("tool_calls", Seal.DArr [callDelta "0" "c0" "web_search" "{"; callDelta "1" "c1" "render_x" "["])]);
   ("rest", chunkOf [("tool_calls", Seal.DArr [callDelta "1" "" "" "]"; callDelta "0" "" "" "}"])])]%string.
Definition word_parse (b : list ascii) : option Seal.doc :=
  match b with
  | c :: _ => if Ascii.eqb c "{" then Seal.toy_parse b else snd <$> List.find (λ w, String.eqb w.1 (string_of b)) words
  | [] => None
  end.
Lemma word_parse_marshal ms : Forall Seal.plain_member ms →
  word_parse ("{"%char :: concat (Seal.toy_member <$> ms)) = Some (Seal.DObj ms).
Proof. exact (Seal.toy_parse_marshal ms). Qed.
Definition words_json : Seal.Json := {|
  Seal.parse := word_parse;
  Seal.MarshalObject ms := "{"%char :: concat (Seal.toy_member <$> ms);
  Seal.EqualFold s t := bool_decide (s = t);
  Seal.parse_marshal := word_parse_marshal;
  Seal.marshal_nonempty ms := ltac:(done);
  Seal.fold_names s t _ _ := eq_refl;
|}.
#[local] Existing Instance words_json.

Definition start : Out := mkOut [] "" false "" "" "" (Quota.mkUsage 0 0 0) [] 0.
Definition lines0 : list string := ["data: said"; ": a comment"; "data: calls"; "data: rest"; "data: [DONE]"]%string.
Definition isRender (name : string) : bool := String.prefix "render_" name.
Abbreviation turn0 :=
  (turn (λ _, ""%string) (λ _, true) (λ _, None) (λ _, "t"%string) (λ _, None) (λ _, 0%Z) isRender start (Streamed lines0 None)).

Abbreviation opened0 := (opened (λ _, "t"%string) start).
Abbreviation trail0 := (trail (λ _, "t"%string) (λ _, None) (λ _, 0%Z) isRender opened0.2 lines0 (begun opened0.1)).
Lemma trail0_steady i : steadyAt i trail0.
Proof.
  assert (H : forallb (λ p, steady p.1 p.2) trail0 = true) by (vm_compute; reflexivity).
  apply Forall_forall. intros p Hp _. apply (proj1 (forallb_forall _ _) H p). by apply list_elem_of_In.
Qed.
Example turn0_calls : turn0.2 = Ok ([mkCall "c0" "web_search" "{}" true false; mkCall "c1" "render_x" "[]" true true], "Hi"%string).
Proof. vm_compute. reflexivity. Qed.
Lemma turn_shows_calls_witness : ∃ es parent args, emitted turn0.1 = es ∧ cat (saidText <$> es) = "Hi"%string ∧
  of_call "c1" es = ToolCallStart "c1" "render_x" parent :: (ToolCallArgs "c1" <$> args) ++ [ToolCallEnd "c1"] ∧
  cat args = "[]"%string ∧ length args = 1.
Proof.
  pose proof (turn_shows_calls (λ _, ""%string) (λ _, true) (λ _, None) (λ _, "t"%string) (λ _, None) (λ _, 0%Z) isRender
    start lines0 None turn0.1 turn0.2 (surjective_pairing turn0)) as H.
  destruct H as (es & Hem & Hr).
  rewrite turn0_calls in Hr. destruct Hr as (Htext & _ & _ & Hcalls).
  destruct (Hcalls trail0_steady) as [Hc _]; [apply (bool_decide_eq_true_1 _); vm_compute; reflexivity|].
  destruct (Hc (mkCall "c1" "render_x" "[]" true true)) as (parent_ & args & Hof & Hcat & Hone); [right; left|].
  exists es, parent_, args. split_and!; [exact Hem|exact Htext|exact Hof|exact Hcat|exact (Hone eq_refl)].
Defined.
End Witness.
End Agent.
