(* ===== verification/Loop.v ===== *)
(** * The agent's loop: internal/engine/agent.go, tools.go and
    internal/domain/coerce.go

    The calls of a turn are carried out at once, each in a goroutine of its
    own, over the run's stream and its count of rejected widgets; the loop
    asks the model in turns, within the window and a number of turns, and
    renews the caller's credential once. *)

From S2P Require Import Prelude GoStd Api Quota Chat Timeline Questions Prompt Tools Results Seal Agent.
From stdpp Require Import pretty.
From Stdlib Require Import QArith_base.
Local Open Scope nat_scope.
Local Open Scope go_scope.

Module Loop.
Import GoStd Api Chat Timeline Tools Results Agent.
Import Questions(cat).

Section Loop.
Context `{JS : Seal.Json}.
Context (Raw : any → string) (Unmarshal : string → option any) (Valid : string → bool) (decodeJSONValue : string → option any)
  (wholeNumber : string → option Z).
Context (Token : nat → string) (UnmarshalObject : string → option (list (string * any))) (Truncated : string → Z).

(** ** A search tool's call: tools.go

    The arguments as they leave, and the answer of the tool's server: an
    error's text, or whether it is an error, its structured content as JSON
    text, its texts and its metadata. *)
Record callResult := mkResult { IsError : bool; Structured : option string; Texts : list string; Meta : option string }.
Definition output (r : callResult) : string :=
  match Structured r with
  | Some s => if negb (IsError r) then s else Join (Texts r) (String "010" "")
  | None => Join (Texts r) (String "010" "")
  end.

(** [strings.Trim] and [strings.TrimRight] of the characters of [cut]. *)
Fixpoint trimLeftOf (cut l : list ascii) : list ascii :=
  match l with c :: l' => if bool_decide (c ∈ cut) then trimLeftOf cut l' else l | [] => [] end.
Definition TrimRight (s cut : string) : string := string_of (rev (trimLeftOf (bytes_of cut) (rev (bytes_of s)))).
Definition Trim (s cut : string) : string := string_of (trimLeftOf (bytes_of cut) (bytes_of (TrimRight s cut))).

(** [%q], and [json.Marshal] of arguments. *)
Context (Quote : string → string) (MarshalArgs : list (string * value) → string).
Definition parseTypeMismatch (s : string) : string * string :=
  match CutAt s "want " with
  | None => ("", "")%string
  | Some (before, after_) =>
      let want := Trim (TrimSpace after_) (String "034" "' .,") in
      match CutAt before "has type " with
      | None => (want, ""%string)
      | Some (_, has) => (want, TrimRight (TrimSpace has) " ,")
      end
  end.
Definition extractValidatorSummary (raw : string) : string :=
  match CutAt raw "/properties/" with
  | None => ""
  | Some (_, tail) =>
      match CutAt tail ":" with
      | None => ""
      | Some (field, rest) =>
          let field := TrimSpace field in
          let invalid := cat ["Invalid field "; Quote field; "."]%string in
          match CutAt rest "type:" with
          | None => invalid
          | Some (_, rest) =>
              let '(expected, actual) := parseTypeMismatch rest in
              if String.eqb expected "" || String.eqb actual "" then invalid
              else cat ["Field "; Quote field; " must be "; expected; " (received "; actual; "). Retry with the corrected type."]%string
          end
      end
  end.
Definition HumanizeToolArgError (toolName raw : string) (arguments : list (string * value)) : string :=
  let summary := extractValidatorSummary raw in
  if String.eqb summary "" then cat ["Tool "; Quote toolName; " rejected the arguments: "; raw]%string
  else cat ["Tool "; Quote toolName; " rejected the arguments. "; summary; " Original args: "; MarshalArgs arguments]%string.

(** The arguments decoded, the schemas they are coerced to, by name, and what
    coercion is a parameter of (see Tools.v). *)
Context (UnmarshalArgs : string → result string (list (string * value))) (schemas : gmap string Schema).
Context (ParseFloat : string → option f64) (Float64 : Z → f64) (Wild : f64 → Z) (FormatFloat : f64 → string)
  (DecodeArray DecodeObject : string → option value).
Definition stripArgs (ms : list (string * value)) : list (string * value) :=
  match DeepStripURLTokens (VObj ms) with VObj ms => ms | _ => ms end.
(** The arguments a call leaves with. *)
Definition argumentsOf (name args : string) : result string (list (string * value)) :=
  decoded ← (if TrimsToNothing args then Ok []
             else match UnmarshalArgs (default args (Prompt.SanitizeToolCallArgumentsJSON Valid args)) with
                  | Ok ms => Ok ms
                  | Err e => Err (String.append "arguments are not a JSON object: " e)
                  end);
  Ok (CoerceArgumentsToSchema ParseFloat Float64 Wild FormatFloat DecodeArray DecodeObject name (stripArgs decoded) schemas).
(** [call]'s answer, from what [CallTool] answers. *)
Definition called (name args : string) (answer : result string callResult) : result string (string * option string) :=
  arguments ← argumentsOf name args;
  match answer with
  | Err e => Err (HumanizeToolArgError name e arguments)
  | Ok r =>
      if IsError r then Err (HumanizeToolArgError name (or (output r) "tool call failed") arguments)
      else Ok (output r, Meta r)
  end.

(** ** A call carried out *)

(** The tools of a run: those of its search session, and its widgets; and
    what is wrong with a widget's arguments, in words. *)
Context (searches : string → bool) (widgets : gmap string (Questions.Widget (J := any)))
  (UnmarshalQuestions : string → option Questions.questions) (problem : Questions.readError → string).
Definition MaxWidgetRetries : nat := 2.
Definition MaxToolOutput : Z := 30000.

Definition widgetFailure (w : Questions.Widget (J := any)) (args : string) : option string :=
  match Questions.WidgetFailure Unmarshal UnmarshalQuestions w args with
  | None => None
  | Some e =>
      let name := Questions.w_Name w in
      Some (Raw (AObj [("status", AStr "error");
        ("error", AStr (cat ["The arguments for "; name; " did not match the tool's parameter schema and the component was not displayed: ";
          problem e; ". Call "; name; " again with corrected arguments that match the schema exactly."]))]%string))
  end.
(** [Toolset.retry]. *)
Definition retry (name : string) (rejected : gmap string nat) : gmap string nat * bool :=
  let n := default 0 (rejected !! name) in
  if bool_decide (MaxWidgetRetries ≤ n) then (rejected, false) else (<[name := S n]> rejected, true).

Definition clip (out : string) (limit : Z) : string :=
  if bool_decide (limit < Z.of_nat (String.length out))%Z
  then String.append (String.substring 0 (Z.to_nat limit) out) truncatedMark
  else if String.eqb out "" then "[no output]" else out.

(** What [Invoke]'s goroutine is told: to go on; what the widget's own result
    is; what the tool's server answers; that it has panicked. *)
Inductive told := Go | LocalResult (r : result err any) | ToolResult (r : result string callResult) | Panicked.
(** Where it is: at its start; its widget's failure shown; its widget's
    result awaited; its search under way; its sources given; returned. *)
Inductive invoking :=
  | Starting
  | Failing (failure : string)
  | Rendering
  | Searching
  | Showing (read : string) (meta : option string) (shown : any)
  | Returned (content : string).
Record shared := mkShared { sh_out : Out; rejected : gmap string nat }.
#[global] Instance shared_eta : Eta shared := λ s, mkShared (sh_out s) (rejected s).

Definition QuestionsShown : string := "The questions are shown to the user, who answers them in place. Their answers reach you with their next message.".
Definition resultEvent (c : ToolCall) (content : string) (meta : option string) (display : option ToolDisplay) (o : Out) : Out :=
  emit (ToolCallResult (token Token "msg_" o) (ID c) "tool" (Some content) meta display) (o <| drawn ::= S |>).

(** What a call answers otherwise. *)
Definition panicked (c : ToolCall) : string := Raw (AObj [("error", AStr (cat ["tool "; Name c; " failed"]))]%string).
Definition dq : string := String "034" "".
Definition unknownTool : string := cat ["{"; dq; "error"; dq; ":"; dq; "unknown tool"; dq; "}"]%string.
Definition executed : string := cat ["{"; dq; "status"; dq; ":"; dq; "executed"; dq; "}"]%string.
Definition drawn_ (c : ToolCall) : string :=
  if String.eqb (Name c) Questions.QuestionsWidget then QuestionsShown else "[rendered for the user]".

(** A search's result as the model reads it, its metadata, what is shown of
    it and the pages it cites. *)
Definition searched (c : ToolCall) (r : result string callResult) : string * option string * any * list citationSource :=
  let '(content, meta, e) := match called (Name c) (Args c) r with
                             | Ok (content, meta) => (content, meta, None)
                             | Err e => (""%string, None, Some e)
                             end in
  let '(read, cited) := modelCopy Unmarshal (Name c) content in
  match e with
  | Some e => (Raw (AObj [("error", AStr e)]%string), None, ToolError, cited)
  | None => (read, meta, NormalizeToolResult Unmarshal Valid wholeNumber (Name c) (Args c) content, cited)
  end.

Definition invoke (c : ToolCall) (s : shared) (at_ : invoking) (t : told) : option (shared * invoking) :=
  match at_, t with
  | Returned _, _ => None
  | _, Panicked => Some (s, Returned (panicked c))
  | Starting, Go =>
      if negb (searches (Name c)) then
        match widgets !! Name c with
        | None => Some (s, Returned unknownTool)
        | Some w =>
            match widgetFailure w (Args c) with
            | Some failure => Some (s <| sh_out ::= resultEvent c failure None None |>, Failing failure)
            | None => Some (s, Rendering)
            end
        end
      else
        let activity := ActivitySnapshot (String.append ActivityPrefix (ID c)) "TOOL"
          (mkActivity (ID c) (Name c) 0%Q []) (SearchDisplay Unmarshal Valid (Name c) (Args c) None) in
        Some (s <| sh_out ::= emit activity |>, Searching)
  | Failing failure, Go =>
      let '(counts, said) := retry (Name c) (rejected s) in
      Some (s <| rejected := counts |>,
            Returned (if said : bool then failure else executed))
  | Rendering, LocalResult r =>
      let content := match r with Ok v => v | Err e => AObj [("error", AStr (GoStd.Message (error (AsError UnmarshalObject Truncated e))))]%string end in
      Some (s <| sh_out ::= resultEvent c (Raw content) None None |>,
            Returned (drawn_ c))
  | Searching, ToolResult r =>
      let '(read, meta, shown, cited) := searched c r in
      Some (s <| sh_out ::= λ o, o <| sources ::= λ l, l ++ cited |> |>, Showing read meta shown)
  | Showing read meta shown, Go =>
      Some (s <| sh_out ::= resultEvent c (Raw shown) meta (SearchDisplay Unmarshal Valid (Name c) (Args c) (Some (Raw shown))) |>,
            Returned (clip read MaxToolOutput))
  | _, _ => None
  end.

(** ** The calls of a turn, at once

    A turn of a goroutine's, or a note of the progress of a call. *)
Inductive happening := Turn (i : nat) (t : told) | Progress (call note : string) (done : Q).
Definition progressEvent (call note : string) (done : Q) : Event :=
  ActivityDelta (String.append ActivityPrefix call) "TOOL"
    (mkPatch "replace" "/progress" (PNumber done) ::
     (if String.eqb note "" then [] else [mkPatch "add" "/output/-" (PString note)])) None.
Definition happens (calls : list ToolCall) (s : shared * list invoking) (h : happening) : shared * list invoking :=
  let '(s, gs) := s in
  match h with
  | Progress call note done => (s <| sh_out ::= emit (progressEvent call note done) |>, gs)
  | Turn i t =>
      match calls !! i, gs !! i with
      | Some c, Some g => match invoke c s g t with Some (s, g) => (s, <[i := g]> gs) | None => (s, gs) end
      | _, _ => (s, gs)
      end
  end.
Definition returned (g : invoking) : option string := match g with Returned content => Some content | _ => None end.
(** What the calls answer, once all have returned; a schedule that leaves one
    at work is one that is not over. *)
Definition execute (calls : list ToolCall) (schedule : list happening) (s : shared) : option (shared * list any) :=
  let '(s, gs) := foldl (happens calls) (s, (λ _, Starting) <$> calls) schedule in
  match mapM returned gs with
  | Some contents => Some (s, zip_with (λ c content, Prompt.answered_ (ID c) content) calls contents)
  | None => None
  end.

(** *** What calls carried out at once answer

    What a call can answer, of what has happened, and whether it is a widget
    call told that it failed. *)
Definition fails (c : ToolCall) (failure : string) : Prop :=
  searches (Name c) = false ∧ ∃ w, widgets !! Name c = Some w ∧ widgetFailure w (Args c) = Some failure.
Definition draws (c : ToolCall) : Prop :=
  searches (Name c) = false ∧ ∃ w, widgets !! Name c = Some w ∧ widgetFailure w (Args c) = None.
Definition readBack (c : ToolCall) (r : result string callResult) : string := clip (searched c r).1.1.1 MaxToolOutput.
Definition rejections (name : string) (s : shared) : nat := default 0 (rejected s !! name).
Inductive answers (past : list happening) (s : shared) (i : nat) (c : ToolCall) : string → bool → Prop :=
  | answers_panicked : Turn i Panicked ∈ past → answers past s i c (panicked c) false
  | answers_unknown : searches (Name c) = false → widgets !! Name c = None → answers past s i c unknownTool false
  | answers_failure failure : fails c failure → answers past s i c failure true
  | answers_executed failure : fails c failure → MaxWidgetRetries ≤ rejections (Name c) s → answers past s i c executed false
  | answers_drawn r : draws c → Turn i (LocalResult r) ∈ past → answers past s i c (drawn_ c) false
  | answers_searched r : searches (Name c) = true → Turn i (ToolResult r) ∈ past → answers past s i c (readBack c r) false.
(** Where a call can be. *)
Definition stands (past : list happening) (s : shared) (i : nat) (c : ToolCall) (g : invoking) (told : bool) : Prop :=
  match g with
  | Starting => told = false
  | Failing failure => told = false ∧ fails c failure
  | Rendering => told = false ∧ draws c
  | Searching => told = false ∧ searches (Name c) = true
  | Showing read _ _ =>
      told = false ∧ searches (Name c) = true ∧ ∃ r, Turn i (ToolResult r) ∈ past ∧ clip read MaxToolOutput = readBack c r
  | Returned content => answers past s i c content told
  end.
(** The calls of a name that are told they failed. *)
Definition toldOf (name : string) (calls : list ToolCall) (tolds : list bool) : nat :=
  sum_list (zip_with (λ (c : ToolCall) (told : bool), if told && String.eqb (Name c) name then 1 else 0) calls tolds).
Definition going (calls : list ToolCall) (past : list happening) (s0 s : shared) (gs : list invoking) (tolds : list bool) : Prop :=
  length gs = length calls ∧ length tolds = length calls ∧
  (∀ i c g t, calls !! i = Some c → gs !! i = Some g → tolds !! i = Some t → stands past s i c g t) ∧
  (∀ name, rejections name s = rejections name s0 + toldOf name calls tolds ∧
    (rejections name s0 ≤ MaxWidgetRetries → rejections name s ≤ MaxWidgetRetries)).

Lemma toldOf_insert name calls tolds i c : calls !! i = Some c → tolds !! i = Some false →
  toldOf name calls (<[i := true]> tolds) = toldOf name calls tolds + (if String.eqb (Name c) name then 1 else 0).
Proof.
  unfold toldOf. revert tolds i. induction calls as [|c' calls IH]; intros [|t tolds] [|i] Hc Ht; try done; cbn in *.
  - simplify_eq. cbn. lia.
  - rewrite <- Nat.add_assoc. f_equal. exact (IH tolds i Hc Ht).
Qed.
Lemma toldOf_none name calls : toldOf name calls ((λ _, false) <$> calls) = 0.
Proof. unfold toldOf. by induction calls. Qed.
Lemma answers_mono past past' s s' i c content t : (∀ h, h ∈ past → h ∈ past') →
  (∀ name, rejections name s ≤ rejections name s') → answers past s i c content t → answers past' s' i c content t.
Proof.
  intros Hp Hr [| |failure|failure ? Hle|r|r]; econstructor; eauto. etrans; [exact Hle|apply Hr].
Qed.
Lemma stands_mono past past' s s' i c g t : (∀ h, h ∈ past → h ∈ past') →
  (∀ name, rejections name s ≤ rejections name s') → stands past s i c g t → stands past' s' i c g t.
Proof.
  intros Hp Hr. destruct g; cbn; try done; [|by apply answers_mono]. intros (-> & Hs & r & Hin & Heq). eauto 10.
Qed.

(** One goroutine's step. *)
Lemma invoke_stands past s i c g t s' g' : stands past s i c g false → invoke c s g t = Some (s', g') →
  ∃ told, stands (past ++ [Turn i t]) s' i c g' told ∧
    ∀ name, rejections name s' = rejections name s + (if told && String.eqb (Name c) name then 1 else 0) ∧
      (rejections name s ≤ MaxWidgetRetries → rejections name s' ≤ MaxWidgetRetries).
Proof.
  intros Hst Hinv.
  assert (Hin : Turn i t ∈ past ++ [Turn i t]) by (apply elem_of_app; right; by apply list_elem_of_singleton).
  assert (Hcalm : rejected s' = rejected s → ∀ told, told = false → ∀ name,
    rejections name s' = rejections name s + (if told && String.eqb (Name c) name then 1 else 0) ∧
    (rejections name s ≤ MaxWidgetRetries → rejections name s' ≤ MaxWidgetRetries)).
  { intros Heq told -> name. unfold rejections. rewrite Heq. cbn. split; [lia|done]. }
  destruct g as [|failure| | |read meta shown|content]; destruct t as [|r|r|]; try done; cbn in Hst, Hinv;
    try (injection Hinv as <- <-; exists false; split; [by constructor|by apply Hcalm]).
  - destruct (searches (Name c)) eqn:Hs; cbn in Hinv.
    { injection Hinv as <- <-. exists false. split; [done|by apply Hcalm]. }
    destruct (widgets !! Name c) as [w|] eqn:Hw; [|injection Hinv as <- <-; exists false; split; [by constructor|by apply Hcalm]].
    destruct (widgetFailure w (Args c)) as [failure|] eqn:Hf; injection Hinv as <- <-; exists false;
      (split; [|by apply Hcalm]); cbn; (split; [done|]); split; [done|by exists w|done|by exists w].
  - destruct Hst as [_ Hf]. unfold retry in Hinv. case_bool_decide as Hb; cbn in Hinv; injection Hinv as <- <-.
    + exists false. split; [apply (answers_executed _ _ _ _ failure); done|by apply Hcalm].
    + exists true. split; [by constructor|]. intros name. unfold rejections in *. cbn. destruct (String.eqb_spec (Name c) name) as [<-|Hne].
      * rewrite lookup_insert. rewrite decide_True by done. cbn. unfold MaxWidgetRetries in *. lia.
      * rewrite lookup_insert_ne by done. lia.
  - destruct Hst as [_ Hd]. injection Hinv as <- <-. exists false. split; [by econstructor|by apply Hcalm].
  - destruct Hst as [_ Hs]. destruct (searched c r) as [[[read meta] shown] cited] eqn:Hr. injection Hinv as <- <-.
    exists false. split; [|by apply Hcalm]. cbn. split_and!; [done|done|]. exists r. split; [done|]. unfold readBack. by rewrite Hr.
  - destruct Hst as (_ & Hs & r & Hin' & Heq). injection Hinv as <- <-. exists false. split; [|by apply Hcalm]. cbn. rewrite Heq.
    econstructor; [done|]. apply elem_of_app. by left.
Qed.

Lemma going_start calls s : going calls [] s s ((λ _, Starting) <$> calls) ((λ _, false) <$> calls).
Proof.
  split_and!; [by rewrite length_fmap..| |].
  - intros i c g t Hc Hg Ht. rewrite list_lookup_fmap, Hc in Hg. rewrite list_lookup_fmap, Hc in Ht. by simplify_eq/=.
  - intros name. rewrite toldOf_none. split; [lia|done].
Qed.
Lemma going_happens calls past s0 s gs tolds h : going calls past s0 s gs tolds →
  ∃ tolds', let '(s', gs') := happens calls (s, gs) h in going calls (past ++ [h]) s0 s' gs' tolds'.
Proof.
  intros (Hg & Ht & Hst & Hr).
  assert (Hp : ∀ h', h' ∈ past → h' ∈ past ++ [h]) by (intros h' ?; apply elem_of_app; by left).
  assert (Hstay : ∀ s1, rejected s1 = rejected s → going calls (past ++ [h]) s0 s1 gs tolds).
  { intros s1 Heq. split_and!; [done..| |]; unfold rejections in *; rewrite ?Heq; [|done].
    intros. eapply stands_mono; [done| |by eapply Hst]. unfold rejections. by rewrite Heq. }
  destruct h as [i t|call note done_].
  2: { exists tolds. cbn. by apply Hstay. }
  unfold happens. destruct (calls !! i) as [c|] eqn:Hc; [|exists tolds; by apply Hstay].
  destruct (gs !! i) as [g|] eqn:Hgi; [|exists tolds; by apply Hstay].
  destruct (invoke c s g t) as [[s' g']|] eqn:Hinv; [|exists tolds; by apply Hstay].
  destruct (lookup_lt_is_Some_2 tolds i) as [b Hb]; [apply lookup_lt_Some in Hc; lia|].
  pose proof (Hst _ _ _ _ Hc Hgi Hb) as Hs.
  assert (b = false) as ->. { destruct g; cbn in Hs; try tauto. by destruct t. }
  destruct (invoke_stands past s i c g t s' g' Hs Hinv) as (told_ & Hs' & Hr').
  exists (<[i := told_]> tolds).
  assert (Hmono : ∀ name, rejections name s ≤ rejections name s') by (intros name; destruct (Hr' name) as [-> _]; lia).
  split_and!; [by rewrite length_insert..| |].
  - intros j c' g'' t' Hc' Hg' Ht'. destruct (decide (j = i)) as [->|Hne].
    + rewrite list_lookup_insert_eq in Hg' by (by eapply lookup_lt_Some). rewrite list_lookup_insert_eq in Ht' by (by eapply lookup_lt_Some). by simplify_eq.
    + rewrite list_lookup_insert_ne in Hg' by done. rewrite list_lookup_insert_ne in Ht' by done. eapply stands_mono; [done|done|]. by eapply Hst.
  - intros name. destruct (Hr' name) as [Hn Hle], (Hr name) as [Hn0 Hle0]. split; [|auto]. rewrite Hn, Hn0.
    destruct told_; cbn [andb].
    + rewrite (toldOf_insert _ _ _ _ _ Hc Hb). lia.
    + rewrite list_insert_id by done. lia.
Qed.
Lemma going_all calls past s0 s gs tolds schedule : going calls past s0 s gs tolds →
  ∃ tolds', let '(s', gs') := foldl (happens calls) (s, gs) schedule in going calls (past ++ schedule) s0 s' gs' tolds'.
Proof.
  revert past s gs tolds. induction schedule as [|h schedule IH]; intros past s gs tolds Hg.
  - exists tolds. by rewrite app_nil_r.
  - cbn [foldl]. destruct (going_happens _ _ _ _ _ _ h Hg) as [tolds1 H1]. destruct (happens calls (s, gs) h) as [s1 gs1].
    destruct (IH _ _ _ _ H1) as [tolds2 H2]. exists tolds2. by rewrite <- app_assoc in H2.
Qed.

(** C18. However the calls of a turn interleave, once all are over message [i]
    answers call [i], under its ID, with what that call comes to: its failure
    to a widget call whose arguments do not fit, or that it ran, but only past
    [MaxWidgetRetries] failures of its name; what its own search returned,
    clipped, to a search; that it panicked only if it did.  The failures told
    of each name are those counted, and never pass the cap. *)
Theorem calls_answered calls schedule s s' ms : execute calls schedule s = Some (s', ms) →
  ∃ contents tolds, ms = zip_with (λ c content, Prompt.answered_ (ID c) content) calls contents ∧
    length contents = length calls ∧ length tolds = length calls ∧
    (∀ i c content t, calls !! i = Some c → contents !! i = Some content → tolds !! i = Some t → answers schedule s' i c content t) ∧
    ∀ name, rejections name s' = rejections name s + toldOf name calls tolds ∧
      (rejections name s ≤ MaxWidgetRetries → rejections name s' ≤ MaxWidgetRetries).
Proof.
  unfold execute. destruct (going_all calls [] s s _ _ schedule (going_start calls s)) as [tolds Hg].
  destruct (foldl (happens calls) _ schedule) as [s1 gs]. destruct Hg as (Hlen & Hlen' & Hst & Hr). cbn in Hst.
  destruct (mapM returned gs) as [contents|] eqn:Hm; [|done]. intros [= -> <-]. apply mapM_Some in Hm.
  exists contents, tolds. split_and!; [done|by rewrite <- (Forall2_length _ _ _ Hm)|done| |done].
  intros i c content t Hc Hcontent Ht. destruct (Forall2_lookup_r _ _ _ _ _ Hm Hcontent) as (g & Hgi & Hret).
  specialize (Hst _ _ _ _ Hc Hgi Ht). destruct g; cbn in Hret; by simplify_eq.
Qed.

(** ** The loop over the turns *)

Definition MaxTurns : nat := 16.
Definition FinalAnswerInstruction : string :=
  "You have reached the maximum number of tool iterations. Do not call any more tools. Provide the best answer you can.".
Definition finalInstruction : any := AObj [("role", AStr "system"); ("content", AStr FinalAnswerInstruction)]%string.
Definition errExchangeTooLarge : err := EApi (Err_ 413 "CONTEXT_TOO_LARGE" "The current tool exchange exceeds the context window").
Definition errMaxTurns : err := EApi (Err_ 502 "MAX_TURNS" "The model called tools for 16 turns without answering").

Definition callJSON (c : ToolCall) : any :=
  AObj [("id", AStr (ID c)); ("type", AStr "function");
        ("function", AObj [("name", AStr (Name c)); ("arguments", AStr (Prompt.HistoryArgs Valid (Args c)))])]%string.
Definition requested (answer : string) (calls : list ToolCall) : any :=
  AObj ([("role", AStr "assistant")]%string ++ (if String.eqb answer "" then [] else [("content", AStr answer)]%string) ++
        [("tool_calls", AArr (callJSON <$> calls))]%string).

(** The caller's part of a request's payload, what compacts a chat (see
    Prompt.v), whether the caller's credential can be renewed, and the search
    session's declarations, [None] where the run does not search. *)
Context (modelName cacheScope : string) (params : list (string * any)) (refreshes : bool).
Context (Parsed : string → any) (Count : string → option Z) (sentTime : string → option Prompt.Clock) (zone searchInstructions : string).
Context (session : option (list any)).
Abbreviation messageTokens := (Prompt.messageTokens Raw Count).
Abbreviation fixedCost := (Prompt.fixedCost Raw Count searchInstructions).
Abbreviation compact := (Prompt.compact Raw Parsed Valid Count sentTime zone searchInstructions).
Abbreviation fitted := (Prompt.fitted Raw Parsed Valid Count sentTime zone searchInstructions).
Abbreviation promptOf := (Prompt.promptOf searchInstructions).

Definition searching : bool := bool_decide (is_Some session).
Definition offer (rendered : any) : list any := default [] session ++ match rendered with AArr l => l | _ => [] end.
(** The declarations as they are sent; none are no text at all. *)
Definition declared (tools : list any) : string := match tools with [] => "" | _ => Raw (AArr tools) end.
Definition fits (req : Prompt.Request) (conversation tools : list any) : bool :=
  Prompt.fits Raw Count req conversation (declared tools).
Definition body (conversation tools : list any) : any :=
  let payload := AObj [("model", AStr modelName); ("stream", ABool true); ("stream_options", AObj [("include_usage", ABool true)]);
                       ("messages", AArr conversation); ("user_cache_secret", AStr cacheScope)]%string in
  let payload := foldl (λ payload (p : string * any), setMember payload p.1 p.2) payload params in
  match tools with [] => payload | _ => setMember payload "tools" (AArr tools) end.

(** What a turn meets: what answers its request, the credential renewed or
    why not, what answers the request replayed, how its calls run, and what
    a compaction meets. *)
Record meeting := mkMeeting {
  first : response;
  renewed : result err string;
  again : response;
  schedule : list happening;
  summarizer : Prompt.Summarizer;
}.
(** A request the model is sent: its payload, whether the customer is billed
    for it, and the credential it is sent under. *)
Record asked := mkAsked { payload : any; billed : bool; under : string }.
(** The run: [history] messages of the conversation are the prompt. *)
Record running := mkRunning {
  req : Prompt.Request;
  conversation : list any;
  history : nat;
  refreshed : bool;
  key : string;
  state : shared;
  asks : list asked;
}.
#[global] Instance running_eta : Eta running := λ r,
  mkRunning (req r) (conversation r) (history r) (refreshed r) (key r) (state r) (asks r).

Definition isWidget (name : string) : bool := bool_decide (is_Some (widgets !! name)).
Abbreviation turnOf := (Agent.turn Raw Valid decodeJSONValue Token UnmarshalObject Truncated isWidget).
Abbreviation AsError := (Api.AsError UnmarshalObject Truncated).

(** The error of a prompt that could not be fitted. *)
Definition ErrFit (e : Prompt.fitError) : err :=
  match e with Prompt.Refused e => EApi (ErrOf e) | Prompt.Ended c => EOther (Prompt.ctxText c) end.
(** The history compacted, where the exchange has outgrown the window. *)
Definition fitting (s : Prompt.Summarizer) (tools : list any) (r : running) : running * option err :=
  if fits (req r) (conversation r) tools then (r, None)
  else
    let exchange := drop (history r) (conversation r) in
    let can := Prompt.canCompact (req r) in
    let r := r <| req ::= λ q, q <| Prompt.canCompact := false |> |> in
    if negb can then (r, Some errExchangeTooLarge)
    else
      let reserved := (fixedCost (req r) searching (declared tools) + Prompt.sum (messageTokens <$> exchange))%Z in
      match compact s (req r) reserved with
      | Err Prompt.errNothingToCompact => (r, Some errExchangeTooLarge)
      | Err e => (r, Some (ErrFit (Prompt.errCompaction e)))
      | Ok q =>
          let prompt := promptOf q searching in
          let r := r <| req := q |> <| conversation := prompt ++ exchange |> <| history := length prompt |> in
          (r, if fits q (conversation r) tools then None else Some errExchangeTooLarge)
      end.
(** A request sent, and replayed under a renewed credential where it was
    refused as unauthenticated. *)
Definition sending (p : any) (turn : nat) (a : response) (r : running) : running * result err (list ToolCall * string) :=
  let r := r <| asks ::= λ l, l ++ [mkAsked p (turn =? 1) (key r)] |> in
  let '(o, res) := turnOf (sh_out (state r)) a in
  (r <| state ::= λ s, s <| sh_out := o |> |>, res).
Definition asking (p : any) (turn : nat) (m : meeting) (r : running) : running * result err (list ToolCall * string) :=
  let '(r, res) := sending p turn (first m) r in
  match res with
  | Err e =>
      if refreshes && negb (refreshed r) && bool_decide (HTTP (AsError e) = 401)%Z then
        let r := r <| refreshed := true |> in
        match renewed m with
        | Err e => (r, Err e)
        | Ok key_ => sending p turn (again m) (r <| key := key_ |>)
        end
      else (r, res)
  | Ok _ => (r, res)
  end.
(** The model's reply as the next turn reads it, with its reasoning where the
    model reads it back. *)
Definition echoed (r : running) (reply : any) : any :=
  let o := sh_out (state r) in
  if (String.eqb (Prompt.policy (req r)) "all" || String.eqb (Prompt.policy (req r)) "tool-call-only") && negb (String.eqb (turnReasoning o) "")
  then setMember reply (reasoningField o) (AStr (turnReasoning o)) else reply.

(** How a run ends, or that what it meets leaves it at work. *)
Inductive ending := Done | Failed (e : err) | AtWork.
Fixpoint turns (fuel turn : nat) (meets : nat → meeting) (defs : list any) (r : running) : running * ending :=
  match fuel with
  | 0 => (r, AtWork)
  | S fuel =>
      let m := meets turn in
      let past := MaxTurns <? turn in
      let tools := if past then [] else defs in
      let r := if past then r <| conversation ::= λ l, l ++ [finalInstruction] |> else r in
      let '(r, e) := fitting (summarizer m) tools r in
      match e with
      | Some e => (r, Failed e)
      | None =>
          let '(r, res) := asking (body (conversation r) tools) turn m r in
          match res with
          | Err e => (r, Failed e)
          | Ok ([], _) => (r, Done)
          | Ok (calls, answer) =>
              if past then (r, Failed errMaxTurns)
              else
                match execute calls (schedule m) (state r) with
                | None => (r, AtWork)
                | Some (s, answers) =>
                    let reply := echoed r (requested answer calls) in
                    turns fuel (S turn) meets defs (r <| state := s |> <| conversation ::= λ l, l ++ reply :: answers |>)
                end
          end
      end
  end.
Definition loop (meets : nat → meeting) (q : Prompt.Request) (apiKey : string) (s : shared) : running * ending :=
  let defs := offer (Prompt.rendered q) in
  let '(q, prompt) := fitted (summarizer (meets 0)) q searching (declared defs) in
  let r := mkRunning q [] 0 false apiKey s [] in
  match prompt with
  | Err e => (r, Failed (ErrFit e))
  | Ok ms => turns (S MaxTurns) 1 meets defs (r <| conversation := ms |> <| history := length ms |>)
  end.

(** *** What the model is asked

    The exchange of [n] turns: each the model's reply, with its calls, and an
    answer of each, in order. *)
Inductive exchanged : nat → list any → Prop :=
  | exchanged_none : exchanged 0 []
  | exchanged_turn n l reply calls contents : exchanged n l → calls ≠ [] → length contents = length calls →
      member reply "role" = Some (AStr "assistant") → member reply "tool_calls" = Some (AArr (callJSON <$> calls)) →
      exchanged (S n) (l ++ reply :: zip_with (λ (c : ToolCall) content, Prompt.answered_ (ID c) content) calls contents).
(** The request a prompt is made of: as it was, or its chat compacted, once,
    and rendered anew. *)
Definition uncompactable (q : Prompt.Request) : Prompt.Request := q <| Prompt.canCompact := false |>.
Definition compactedAt (kept : nat) (marker : Message) (q : Prompt.Request) : Prompt.Request :=
  Prompt.remind Raw Count searchInstructions (Prompt.render Raw Parsed Valid sentTime zone
    (uncompactable q <| Prompt.messages := take kept (Prompt.messages q) ++ marker :: drop kept (Prompt.messages q) |>)).
Definition version (q q' : Prompt.Request) : Prop :=
  q' = q ∨ q' = uncompactable q ∨ ∃ kept marker, is_marker marker = true ∧ q' = compactedAt kept marker q.
(** The payload of the request after [n] turns: the prompt, the exchange so
    far, and past the cap the instruction to answer, with no tools; all of it
    within the window. *)
Definition toolsAfter (n : nat) (defs : list any) : list any := if MaxTurns <? S n then [] else defs.
Definition proper (q : Prompt.Request) (defs : list any) (n : nat) (p : any) : Prop :=
  ∃ q' x, version q q' ∧ exchanged n x ∧
    let conversation := promptOf q' searching ++ x ++ (if MaxTurns <? S n then [finalInstruction] else []) in
    p = body conversation (toolsAfter n defs) ∧
    (Prompt.cost Raw Count conversation (declared (toolsAfter n defs)) ≤ Prompt.limit q)%Z.
(** The requests of [n] turns: one a turn, the customer billed for the
    first's alone; at most one of them is refused, its exact payload sent
    again under the credential renewed, which the rest are sent under. *)
Inductive requests (q : Prompt.Request) (defs : list any) (apiKey : string) : nat → bool → string → list asked → Prop :=
  | requests_none : requests q defs apiKey 0 false apiKey []
  | requests_turn n b k l p : requests q defs apiKey n b k l → proper q defs n p →
      requests q defs apiKey (S n) b k (l ++ [mkAsked p (S n =? 1) k])
  | requests_unrenewed n k l p : requests q defs apiKey n false k l → proper q defs n p →
      requests q defs apiKey (S n) true k (l ++ [mkAsked p (S n =? 1) k])
  | requests_replayed n k k' l p : requests q defs apiKey n false k l → proper q defs n p →
      requests q defs apiKey (S n) true k' (l ++ [mkAsked p (S n =? 1) k; mkAsked p (S n =? 1) k']).

Lemma requests_length q defs apiKey n b k l : requests q defs apiKey n b k l → length l ≤ n + (if b then 1 else 0).
Proof. induction 1 as [|n b k l p _ IH|n k l p _ IH|n k k' l p _ IH]; [done|..]; rewrite length_app; cbn in *; lia. Qed.

(** The run after [n] turns. *)
Definition conducting (q : Prompt.Request) (defs : list any) (apiKey : string) (n : nat) (r : running) : Prop :=
  ∃ x, conversation r = promptOf (req r) searching ++ x ∧ history r = length (promptOf (req r) searching) ∧
    exchanged n x ∧ version q (req r) ∧ requests q defs apiKey n (refreshed r) (key r) (asks r) ∧
    (refreshes = false → refreshed r = false).

Lemma compact_version q s reserved r' : compact s (uncompactable q) reserved = Ok r' → version q r'.
Proof.
  intros Hc. pose proof (Prompt.compact_spec Raw Parsed Valid Count sentTime zone searchInstructions s (uncompactable q) reserved) as H.
  rewrite Hc in H. destruct H as (kept & text & marker & _ & _ & Hm & _ & ->). right. right. by exists kept, marker.
Qed.
Lemma version_limit q q' : version q q' → Prompt.limit q' = Prompt.limit q.
Proof. by intros [->|[->|(kept & marker & _ & ->)]]. Qed.
Lemma version_compactable q q' : version q q' → Prompt.canCompact q' = true → q' = q.
Proof. by intros [->|[->|(kept & marker & _ & ->)]]. Qed.
Lemma refusing_ok {A} (r : result ApiError A) a : Prompt.refusing r = Ok a → r = Ok a.
Proof. by destruct r; [intros [= ->]|]. Qed.
Lemma fitted_version s q b definitions q' r : fitted s q b definitions = (q', r) → version q q' ∧
  ∀ ms, r = Ok ms → ms = promptOf q' b ∧ (Prompt.cost Raw Count ms definitions ≤ Prompt.limit q)%Z.
Proof.
  unfold Prompt.fitted. destruct (_ || _ || _).
  { intros [= <- <-]. split; [by left|]. intros ms Hb. by apply refusing_ok, Prompt.budget_ok in Hb. }
  destruct (compact s _ _) as [r1|e] eqn:Hc; intros [= <- <-].
  - apply compact_version in Hc as Hv. split; [done|].
    intros ms Hb. apply refusing_ok, Prompt.budget_ok in Hb as [-> Hle]. split; [done|]. by rewrite <- (version_limit _ _ Hv).
  - split; [|done]. right. by left.
Qed.

(** A turn's request is sent only within the window. *)
Lemma fitting_conducts q defs apiKey n s tools tail r : 
  (∃ x, conversation r = promptOf (req r) searching ++ x ++ tail ∧ history r = length (promptOf (req r) searching) ∧
    exchanged n x ∧ version q (req r) ∧ requests q defs apiKey n (refreshed r) (key r) (asks r) ∧
    (refreshes = false → refreshed r = false)) →
  let '(r', e) := fitting s tools r in
  requests q defs apiKey n (refreshed r') (key r') (asks r') ∧ (refreshes = false → refreshed r' = false) ∧ 
  (e = None → ∃ x, conversation r' = promptOf (req r') searching ++ x ++ tail ∧ history r' = length (promptOf (req r') searching) ∧
    exchanged n x ∧ version q (req r') ∧ (Prompt.cost Raw Count (conversation r') (declared tools) ≤ Prompt.limit q)%Z).
Proof.
  intros (x & Hconv & Hhist & Hx & Hv & Hreq & Hno). unfold fitting. destruct (fits _ _ _) eqn:Hf.
  { split_and!; [done..|]. intros _. exists x. split_and!; [done..|]. apply bool_decide_eq_true in Hf. by rewrite <- (version_limit _ _ Hv). }
  destruct (Prompt.canCompact (req r)) eqn:Hcan; cbn [negb]; [|done].
  apply (version_compactable _ _ Hv) in Hcan. cbv zeta. cbn [req upd]. rewrite Hcan.
  destruct (compact s _ _) as [q'|[]] eqn:Hc; [|done..]. apply compact_version in Hc as Hv'.
  split_and!; [done..|]. destruct (fits q' _ _) eqn:Hf'; [|done]. intros _. exists x. cbn.
  rewrite Hconv, Hhist, drop_app_length. split_and!; [done..|].
  apply bool_decide_eq_true in Hf'. cbn in Hf'. rewrite Hconv, Hhist, drop_app_length, (version_limit _ _ Hv') in Hf'. exact Hf'.
Qed.

Abbreviation unauthenticated := (Agent.unauthenticated UnmarshalObject Truncated).
Abbreviation plain := (Agent.plain UnmarshalObject Truncated).
Definition kept (r r' : running) : Prop := req r' = req r ∧ conversation r' = conversation r ∧ history r' = history r.
Lemma sending_spec p turn a r : let '(r', res) := sending p turn a r in
  kept r r' ∧ refreshed r' = refreshed r ∧ key r' = key r ∧ asks r' = asks r ++ [mkAsked p (turn =? 1) (key r)] ∧
  (∀ x, res = Ok x → Agent.inField (reasoningField (sh_out (state r')))).
Proof.
  unfold sending. destruct (turnOf _ a) as [o res] eqn:Ht. split_and!; [done..|]. intros x ->. cbn. by eapply Agent.turn_field.
Qed.
Lemma asking_spec q defs apiKey n p m r : requests q defs apiKey n (refreshed r) (key r) (asks r) → proper q defs n p →
  (refreshes = false → refreshed r = false) →
  let '(r', res) := asking p (S n) m r in
  kept r r' ∧ requests q defs apiKey (S n) (refreshed r') (key r') (asks r') ∧ (refreshes = false → refreshed r' = false) ∧
  (∀ x, res = Ok x → Agent.inField (reasoningField (sh_out (state r')))).
Proof.
  intros Hreq Hp Hno. unfold asking. pose proof (sending_spec p (S n) (first m) r) as H1.
  destruct (sending p (S n) (first m) r) as [r1 res1]. destruct H1 as (Hk & Hre & Hkey & Hasks & Hf).
  assert (Hturn : requests q defs apiKey (S n) (refreshed r1) (key r1) (asks r1)) by (rewrite Hre, Hkey, Hasks; by constructor).
  destruct res1 as [x|e]; [split_and!; [done..|by rewrite Hre|done]|].
  destruct (refreshes && negb (refreshed r1) && _) eqn:Hc; [|split_and!; [done..|by rewrite Hre|done]].
  apply andb_true_iff in Hc as [[Hr Hn]%andb_true_iff _]. apply negb_true_iff in Hn. rewrite Hre in Hn. rewrite Hn in Hreq.
  destruct (renewed m) as [key_|e'].
  - set (r2 := r1 <| refreshed := true |> <| key := key_ |>). pose proof (sending_spec p (S n) (again m) r2) as H2.
    destruct (sending p (S n) (again m) r2) as [r3 res3]. destruct H2 as (Hk' & Hre' & Hkey' & Hasks' & Hf').
    split_and!; [unfold kept in *; cbn in *; destruct_and!; split_and!; congruence| |congruence|done].
    rewrite Hre', Hkey', Hasks'. cbn. rewrite Hasks, <- app_assoc. by apply requests_replayed.
  - cbn. split_and!; [done| |congruence|done]. rewrite Hkey, Hasks. by apply requests_unrenewed.
Qed.

Lemma member_other v name name' x : name ≠ name' → member v name' = member (setMember v name x) name' ∨ ¬ ∃ ms, v = AObj ms.
Proof.
  intros Hne. destruct v as [| | | | |ms]; try (right; by intros [? ?]). left. unfold setMember, without, member. f_equal.
  induction ms as [|[k y] ms IH]; cbn [List.find List.filter app fst].
  { destruct (String.eqb_spec name name'); done. }
  destruct (String.eqb_spec k name) as [->|Hk]; cbn [negb app List.find fst].
  - destruct (String.eqb_spec name name'); [done|]. exact IH.
  - destruct (String.eqb_spec k name'); [done|exact IH].
Qed.
Lemma echoed_members r answer calls : Agent.inField (reasoningField (sh_out (state r))) →
  let reply := echoed r (requested answer calls) in
  member reply "role" = Some (AStr "assistant") ∧ member reply "tool_calls" = Some (AArr (callJSON <$> calls)).
Proof.
  intros Hf. unfold echoed. cbv zeta. assert (Hr : member (requested answer calls) "role" = Some (AStr "assistant") ∧
    member (requested answer calls) "tool_calls" = Some (AArr (callJSON <$> calls))) by (unfold requested; by case_match).
  destruct (_ && _); [|done]. split; [rewrite <- (proj1 Hr)|rewrite <- (proj2 Hr)]; symmetry;
    (edestruct member_other as [H|H]; [|exact H|destruct H; by eexists]); by destruct Hf as [->| ->].
Qed.

Lemma execute_answers calls schedule s s' ms : execute calls schedule s = Some (s', ms) →
  ∃ contents, length contents = length calls ∧ ms = zip_with (λ (c : ToolCall) content, Prompt.answered_ (ID c) content) calls contents.
Proof.
  unfold execute. destruct (going_all calls [] s s _ _ schedule (going_start calls s)) as [tolds Hg].
  destruct (foldl (happens calls) _ schedule) as [s1 gs]. destruct Hg as (Hlen & _).
  destruct (mapM returned gs) as [contents|] eqn:Hm; [|done]. intros [= _ <-]. apply mapM_Some in Hm.
  exists contents. by rewrite <- (Forall2_length _ _ _ Hm).
Qed.

(** How a run that has asked [n] turns can end. *)
Definition ends (meets : nat → meeting) (n : nat) (e : ending) : Prop :=
  match e with
  | Done => 1 ≤ n
  | Failed _ => True
  | AtWork => ∃ turn calls s, 1 ≤ turn ≤ MaxTurns ∧ calls ≠ [] ∧ execute calls (schedule (meets turn)) s = None
  end.

#[local] Arguments Prompt.promptOf : simpl never.
Lemma turns_spec q defs apiKey meets n r : conducting q defs apiKey n r → n ≤ MaxTurns →
  let '(r', e) := turns (S MaxTurns - n) (S n) meets defs r in
  ∃ n', n' ≤ S MaxTurns ∧ requests q defs apiKey n' (refreshed r') (key r') (asks r') ∧ ends meets n' e.
Proof.
  remember (S MaxTurns - n) as fuel eqn:Hfuel. revert n r Hfuel. induction fuel as [|fuel IH]; intros n r Hfuel Hc Hn; [lia|].
  cbn [turns]. destruct Hc as (x & Hconv & Hhist & Hx & Hv & Hreq & Hno).
  set (tail := if MaxTurns <? S n then [finalInstruction] else []).
  set (r0 := if MaxTurns <? S n then r <| conversation ::= _ |> else r).
  assert (H0 : ∃ x, conversation r0 = promptOf (req r0) searching ++ x ++ tail ∧ history r0 = length (promptOf (req r0) searching) ∧
    exchanged n x ∧ version q (req r0) ∧ requests q defs apiKey n (refreshed r0) (key r0) (asks r0) ∧ (refreshes = false → refreshed r0 = false)).
  { exists x. unfold r0, tail. destruct (_ <? _); cbn; rewrite Hconv; split_and!; rewrite <- ?app_assoc, ?app_nil_r; done. }
  clearbody r0. fold (toolsAfter n defs).
  pose proof (fitting_conducts q defs apiKey n (summarizer (meets (S n))) (toolsAfter n defs) tail r0 H0) as Hfit.
  destruct (fitting _ _ r0) as [r1 e]. destruct Hfit as (Hreq1 & Hno1 & Hfit). destruct e as [e|]; [exists n; split_and!; [lia|done..]|].
  destruct (Hfit eq_refl) as (x1 & Hconv1 & Hhist1 & Hx1 & Hv1 & Hcost1).
  assert (Hp : proper q defs n (body (conversation r1) (toolsAfter n defs))) by (exists (req r1), x1; cbv zeta; fold tail; rewrite <- Hconv1; split_and!; done).
  pose proof (asking_spec q defs apiKey n _ (meets (S n)) r1 Hreq1 Hp Hno1) as Hask.
  destruct (asking _ _ _ r1) as [r2 res]. destruct Hask as ((Hq2 & Hconv2 & Hhist2) & Hreq2 & Hno2 & Hf2).
  destruct res as [[calls answer]|e]; [|exists (S n); split_and!; [lia|done..]].
  destruct calls as [|c calls]; [exists (S n); split_and!; [lia|done|cbn; lia]|].
  unfold tail in Hconv1. destruct (Nat.ltb_spec MaxTurns (S n)) as [Hlt|Hle]; [exists (S n); split_and!; [lia|done..]|].
  destruct (execute (c :: calls) _ _) as [[s ms]|] eqn:Hex.
  2: { exists (S n). split_and!; [lia|done|]. exists (S n), (c :: calls), (state r2). split_and!; [lia..|done|done]. }
  apply IH; [lia| |lia]. destruct (execute_answers _ _ _ _ _ Hex) as (contents & Hl & ->).
  destruct (echoed_members r2 answer (c :: calls) (Hf2 _ eq_refl)) as [Hrole Hcalls].
  eexists (x1 ++ _ :: _). cbn. rewrite Hconv2, Hq2, Hhist2, Hconv1, app_nil_r, <- app_assoc. split_and!; [reflexivity|done| |done..].
  by apply (exchanged_turn n x1 _ (c :: calls) contents).
Qed.

(** C3. What a run asks the model.  In at most [MaxTurns + 1] turns it ends,
    unless a call never returns; every request it sends fits the window with
    its tools, and is the prompt, of the chat as it was or compacted once,
    then the replies so far, each with an answer of every call it made, in
    order; past [MaxTurns] no tool is offered and the model is told to
    answer; the customer is billed for the first turn's request alone; and
    once at most a request is sent again, just as it was, under a renewed
    credential. *)
Theorem loop_asks meets q apiKey s : let '(r, e) := loop meets q apiKey s in
  ∃ n, n ≤ S MaxTurns ∧ requests q (offer (Prompt.rendered q)) apiKey n (refreshed r) (key r) (asks r) ∧
    length (asks r) ≤ S (S MaxTurns) ∧ ends meets n e.
Proof.
  assert (Hlen : ∀ n r, n ≤ S MaxTurns → requests q (offer (Prompt.rendered q)) apiKey n (refreshed r) (key r) (asks r) →
    length (asks r) ≤ S (S MaxTurns)).
  { intros n r Hn Hreq%requests_length. destruct (refreshed r); lia. }
  unfold loop. destruct (fitted _ q searching _) as [q' prompt] eqn:Hfit. apply fitted_version in Hfit as [Hv Hok].
  destruct prompt as [ms|e]; [|exists 0; split_and!; [lia|constructor|cbn; lia|done]].
  destruct (Hok ms eq_refl) as [-> _].
  match goal with |- context [turns _ 1 meets _ ?r] => pose proof (turns_spec q (offer (Prompt.rendered q)) apiKey meets 0 r) as H end.
  rewrite Nat.sub_0_r in H. destruct (turns (S MaxTurns) 1 _ _ _) as [r e]. destruct H as (n & Hn & Hreq & Hend); [|lia|eauto 10].
  exists []. cbn. split_and!; [by rewrite app_nil_r|done|constructor|done|constructor|done].
Qed.

(** A request that is replayed is one of which nothing was seen: the run
    goes on as if its credential had been renewed before, and the first
    request never been answered. *)
Theorem replay_unseen p turn m r r1 e key_ : sending p turn (first m) r = (r1, Err e) →
  refreshes = true → refreshed r = false → unauthenticated e → plain (first m) → renewed m = Ok key_ →
  asking p turn m r = sending p turn (again m)
    (r <| asks ::= λ l, l ++ [mkAsked p (turn =? 1) (key r)] |> <| refreshed := true |> <| key := key_ |>).
Proof.
  intros Hs Hr Hf Hu Hp Hk. unfold asking. rewrite Hs. unfold sending in Hs. cbn in Hs.
  destruct (turnOf (sh_out (state r)) (first m)) as [o res] eqn:Ht. injection Hs as <- ->.
  apply Agent.turn_unauthenticated in Ht as ->; [|done..]. unfold Agent.unauthenticated in Hu. cbn. rewrite Hr, Hf, Hk.
  rewrite bool_decide_eq_true_2 by done. cbn. by f_equal.
Qed.
End Loop.

(** ** Witnesses *)
Module Witness.
#[local] Existing Instance Agent.Witness.words_json.

(** A widget whose arguments never fit, called three times as a search runs. *)
Definition raw0 (v : any) : string := match v with AObj ((_, AStr s) :: _) => s | _ => "value" end.
Definition unfit : Questions.Widget (J := any) := Questions.mkWidget "render_x" (λ _, Some "unfit"%string).
Definition widgets0 : gmap string (Questions.Widget (J := any)) := {["render_x"%string := unfit]}.
Definition isSearch (name : string) : bool := String.eqb name "web_search".
Definition calls0 : list ToolCall :=
  [mkCall "c0" "render_x" "[]" true true; mkCall "c1" "web_search" "" true false;
   mkCall "c2" "render_x" "[]" true true; mkCall "c3" "render_x" "[]" true true]%string.
Definition answer0 : result string callResult := Ok (mkResult false None ["found"%string] None).
Definition schedule0 : list happening :=
  [Turn 1 Go; Turn 3 Go; Progress "c1" "" 0%Q; Turn 0 Go; Turn 3 Go; Turn 2 Go; Turn 1 (ToolResult answer0); Turn 0 Go; Turn 2 Go; Turn 1 Go].
Definition shared0 : shared := mkShared Agent.Witness.start ∅.
Definition value0 (s : string) : option any := Some (AStr s).
Definition noArgs (_ : string) : result string (list (string * value)) := Ok [].
Abbreviation execute0 := (execute raw0 value0 (λ _, true) (λ _, None) (λ _, "t"%string) (λ _, None) (λ _, 0%Z) id (λ _, "{}"%string)
  noArgs ∅ (λ _, None) (λ _, NaN) (λ _, 0%Z) (λ _, ""%string) (λ _, None) (λ _, None) isSearch widgets0 (λ _, None) (λ _, "unfit"%string)
  calls0 schedule0 shared0).

Lemma calls_answered_witness : ∃ s' ms, execute0 = Some (s', ms) ∧
  rejections "render_x" s' = 2 ∧ ∃ contents, ms = zip_with (λ (c : ToolCall) content, Prompt.answered_ (ID c) content) calls0 contents ∧ length contents = 4.
Proof.
  destruct execute0 as [[s' ms]|] eqn:He; [|vm_compute in He; discriminate He]. exists s', ms.
  pose proof (calls_answered raw0 value0 (λ _, true) (λ _, None) (λ _, None) (λ _, "t"%string) (λ _, None) (λ _, 0%Z) id (λ _, "{}"%string)
    noArgs ∅ (λ _, None) (λ _, NaN) (λ _, 0%Z) (λ _, ""%string) (λ _, None) (λ _, None) isSearch widgets0 (λ _, None) (λ _, "unfit"%string)
    calls0 schedule0 shared0 s' ms He) as (contents & tolds & Hms & Hlen & _).
  split; [reflexivity|]. split.
  - assert (Hr : (λ x, rejections "render_x" x.1) <$> execute0 = Some 2) by (vm_compute; reflexivity).
    rewrite He in Hr. by injection Hr.
  - exists contents. split; [exact Hms|exact Hlen].
Defined.

(** A first request refused as unauthenticated, and streamed once renewed. *)
Definition request0 : Prompt.Request :=
  Prompt.mkRequest "" "" "" 1000 [] [] ANull (AArr []) [] false false "" "" false None true.
Definition running0 : running := mkRunning request0 [] 0 false "old" shared0 [].
Definition summarizer0 : Prompt.Summarizer := Prompt.mkSummarizer "" (λ _ _, None) None "" "" 0%Q 0%Q "" 0.
Definition refused0 : response := Refused 401 "" 0.
Definition meeting0 : meeting := mkMeeting refused0 (Ok "new"%string) (Streamed Agent.Witness.lines0 None) [] summarizer0.
Abbreviation sending0 := (sending raw0 (λ _, true) (λ _, None) (λ _, "t"%string) (λ _, None) (λ _, 0%Z) widgets0 ANull 1).
Lemma replay_unseen_witness : 
  asking raw0 (λ _, true) (λ _, None) (λ _, "t"%string) (λ _, None) (λ _, 0%Z) widgets0 true ANull 1 meeting0 running0 =
  sending0 (again meeting0) (running0 <| asks := [mkAsked ANull true "old"] |> <| refreshed := true |> <| key := "new" |>).
Proof.
  exact (replay_unseen raw0 (λ _, true) (λ _, None) (λ _, "t"%string) (λ _, None) (λ _, 0%Z) widgets0 true ANull 1 meeting0 running0
    (sending0 refused0 running0).1 (ERefusal 401 "" 0) "new" eq_refl eq_refl eq_refl eq_refl (λ _ _ H, ltac:(discriminate H)) eq_refl).
Defined.
End Witness.
End Loop.
