(* ===== verification/Commit.v ===== *)
(** * Writers of one row: no update is lost

    Any number of calls of [CommitRow] and [Remove] run against the control
    plane at once, their requests delayed, lost or answered by failures on
    the way, while other writers store and delete the row.  The row's
    revisions are kept in their order, newest first, with who made each. *)

From S2P Require Import Prelude GoStd Codec Aad Seal Controlplane Grants Rows.
From stdpp Require Import pretty.
From Stdlib Require Import Sorted.

Module Commit.
Import GoStd Codec Aad Controlplane Rows.

#[global] Instance Blob_eq_dec : EqDecision Blob.
Proof. solve_decision. Defined.

(** A call: [CommitRow] of an edit, or [Remove]. *)
Inductive call :=
  | CCommit (p : Principal) (key : bytes) (create : bool) (edit : Grants.StoredRow → bool → result err Grants.StoredRow)
  | CRemove (p : Principal) (key : bytes).

(** Who made a revision: another writer, the push or delete of a call under
    an idempotency key, or the resealing a call's read made. *)
Inductive maker := Other | By (i : nat) (nonce : string) | Resealed (i : nat).
(** A revision, or a deletion. *)
Record version := mkVersion { v_blob : option Blob; v_by : maker }.

Record client := mkClient { cl_call : call; cl_prog : prog (result err unit); cl_wait : option nat }.
#[global] Instance client_eta : Eta client := λ c, mkClient (cl_call c) (cl_prog c) (cl_wait c).

(** [sent] is every request sent, with its call; [net] are those on the way,
    [replies] what was answered, and [drawn] the ids drawn by each call. *)
Record World := mkWorld {
  cp : Store;
  hist : list version;
  clients : gmap nat client;
  sent : gmap nat (nat * request);
  net : gset nat;
  replies : gmap nat response;
  drawn : gmap string nat;
  next : nat;
}.
#[global] Instance World_eta : Eta World := λ w,
  mkWorld (cp w) (hist w) (clients w) (sent w) (net w) (replies w) (drawn w) (next w).

Section Commit.
Context `{CR : Seal.Crypto} `{JS : Seal.Json} `{MC : Mac}.
Context (ParseTime : string → option Z).
Context (rewrapChatAttachments : Principal → string → bytes → prog (result err (option bytes))).
(** Whether the service continues the count of a row deleted (Controlplane.v),
    and whether the row is ever deleted. *)
Context (continues removals : bool).
(** The row, and its caller. *)
Context (user scope id : string).

Definition rowKey : string := Key scope (extractID scope id).

Definition program (c : call) : prog (result err unit) :=
  match c with
  | CCommit p key create edit => CommitRow ParseTime rewrapChatAttachments p key scope id create edit
  | CRemove p key => Remove p key scope id
  end.
Definition caller (c : call) : Principal := match c with CCommit p _ _ _ | CRemove p _ => p end.

(** Bytes open as a plaintext under some keys, as some row. *)
Definition opens (b d : bytes) : Prop :=
  ∃ keys aad r, (Seal.DecryptV2 b keys aad = Ok r ∨ Seal.DecryptLegacy b keys = Ok r) ∧ Seal.Plaintext r = d.
(** They hold it: they open as it and as nothing else. *)
Definition holds (b d : bytes) : Prop := opens b d ∧ ∀ d', opens b d' → d' = d.
(** A body the service stores: no two readers disagree on it. *)
Definition sound (b : bytes) : Prop :=
  (Z.of_nat (length b) ≤ maxBlobBytes)%Z ∧ ∀ d d', opens b d → opens b d' → d = d'.

(** An edit changes neither a row's id nor the revision it was read at. *)
Definition keeps (edit : Grants.StoredRow → bool → result err Grants.StoredRow) : Prop :=
  ∀ row exists_ row', edit row exists_ = Ok row' → Grants.ID row' = Grants.ID row ∧ Grants.ETag row' = Grants.ETag row.

Inductive action :=
  | ACall (i : nat) (c : call)
  | ASend (i : nat)
  | AServe (n : nat) (at_ : Z)
  | ADrop (n : nat)
  | AReply (i : nat) (cutAt : option bytes)
  | AFail (i : nat) (r : reply)
  | AEnded (i : nat) (over : bool)
  | ADraw (i : nat) (b : bytes)
  | ANewID (i : nat) (s : string)
  | ANow (i : nat) (t : Z)
  | AWrite (b : bytes) (kid : string) (at_ : Z)
  | ADelete.

Definition uuidLength : nat := 36.
(** A failure on the way: no response, or one of a failure's status. *)
Definition outage (r : reply) : bool :=
  match r with Failed => true | Replied r => bool_decide (400 ≤ Status r)%Z end.
(** The service refuses a larger body, here as any failure. *)
Definition small (q : request) : bool :=
  match q_body q with
  | QBytes b | QRewrap _ _ _ _ b => bool_decide (Z.of_nat (length b) ≤ maxBlobBytes)%Z
  | _ => true
  end.

Definition allowed (a : action) : Prop :=
  match a with
  | ACall _ c => PrincipalID (caller c) = user ∧ match c with CCommit _ _ _ edit => keeps edit | CRemove _ _ => removals = true end
  | AWrite b _ _ => sound b
  | ADelete => removals = true
  | _ => True
  end.

Definition maker_of (i : nat) (q : request) : maker :=
  if String.eqb (q_method q) "POST" then Resealed i else By i (q_Idempotency q).
(** The service's new state, and the revision it made of the row, if any. *)
Definition served (w : World) (s : Store) (by_ : maker) : World :=
  let before := Blobs (cp w) !! rowKey in
  let after := Blobs s !! rowKey in
  let w := w <| cp := s |> in
  if bool_decide (before = after) then w else w <| hist ::= cons (mkVersion after by_) |>.
Definition go_on (w : World) (i : nat) (p : prog (result err unit)) : World :=
  w <| clients ::= alter (λ c, c <| cl_prog := p |> <| cl_wait := None |>) i |>.

Definition write (s : Store) (b : bytes) (kid : string) (at_ : Z) : Store :=
  let first := if continues then continuedRevision s scope id else 1%Z in
  let nextETag := match Blobs s !! rowKey with Some x => (ETag x + 1)%Z | None => first end in
  s <| Blobs ::= <[rowKey := mkBlob nextETag kid b false None at_ None None]> |> <| last ::= <[rowKey := nextETag]> |>.

Definition exec (w : World) (a : action) : option World :=
  match a with
  | ACall i c =>
      if bool_decide (clients w !! i = None) then Some (w <| clients ::= <[i := mkClient c (program c) None]> |>) else None
  | ASend i =>
      c ← clients w !! i;
      match cl_prog c, cl_wait c with
      | Send q _, None =>
          Some (w <| sent ::= <[next w := (i, q)]> |> <| net ::= λ s, {[next w]} ∪ s |>
                  <| clients ::= <[i := c <| cl_wait := Some (next w) |>]> |> <| next ::= S |>)
      | _, _ => None
      end
  | AServe n at_ =>
      '(i, q) ← sent w !! n;
      if bool_decide (n ∈ net w) && small q then
        let '(s, r) := ServeHTTP continues (cp w) q at_ in
        Some ((served w s (maker_of i q)) <| net ::= λ s, s ∖ {[n]} |> <| replies ::= <[n := r]> |>)
      else None
  | ADrop n => Some (w <| net ::= λ s, s ∖ {[n]} |>)
  | AReply i cutAt =>
      c ← clients w !! i;
      n ← cl_wait c;
      r ← replies w !! n;
      match cl_prog c with
      | Send _ k => Some (go_on w i (k (Replied match cutAt with Some b => r <| Content := Bytes b |> <| cut := true |>
                                                            | None => r end)))
      | _ => None
      end
  | AFail i r =>
      c ← clients w !! i;
      _ ← cl_wait c;
      match cl_prog c with
      | Send _ k => if outage r then Some (go_on w i (k r)) else None
      | _ => None
      end
  | AEnded i over => c ← clients w !! i; match cl_prog c with Ended k => Some (go_on w i (k over)) | _ => None end
  | ADraw i b =>
      c ← clients w !! i;
      match cl_prog c with
      | Draw n k => if bool_decide (length b = n) then Some (go_on w i (k b)) else None
      | _ => None
      end
  | ANewID i s =>
      c ← clients w !! i;
      match cl_prog c with
      | NewID k => if bool_decide (String.length s = uuidLength) && bool_decide (drawn w !! s = None)
                   then Some ((go_on w i (k s)) <| drawn ::= <[s := i]> |>) else None
      | _ => None
      end
  | ANow i t => c ← clients w !! i; match cl_prog c with Now k => Some (go_on w i (k t)) | _ => None end
  | AWrite b kid at_ => Some (served w (write (cp w) b kid at_) Other)
  | ADelete => Some (served w ((cp w) <| Blobs ::= delete rowKey |>) Other)
  end.

Definition step (w : World) (a : action) (w' : World) : Prop := allowed a ∧ exec w a = Some w'.
(** No row yet, whatever protocol the service asks of a profile's writers. *)
Definition empty (minimum : Z) : World :=
  mkWorld (New <| MinimumProfileSyncProtocol := minimum |>) [] ∅ ∅ ∅ ∅ ∅ 0.
Definition reach : World → Prop := reachable (λ w, ∃ minimum, w = empty minimum) step.

(** ** What a call knows, sends and is told

    A call knows revisions the row has had, the idempotency keys under which
    revisions of its own were made, and the ids it drew.  All it learns stays
    so. *)
Record facts := mkFacts { F : Blob → Prop; N : string → Prop; O : string → Prop }.
Definition more (f g : facts) : Prop :=
  (∀ b, F f b → F g b) ∧ (∀ s, N f s → N g s) ∧ (∀ s, O f s → O g s).
Infix "⊑f" := more (at level 70).
Definition drew (f : facts) (s : string) : facts := mkFacts (F f) (N f) (λ t, t = s ∨ O f t).

(** A nonce of a call: an id it drew, or a retry under it. *)
Definition nonce_of (u s : string) : Prop := s = u ∨ ∃ k : nat, s = String.append u (String.append ":retry:" (pretty k)).
Definition mine (f : facts) (s : string) : Prop := ∃ u, O f u ∧ String.length u = uuidLength ∧ nonce_of u s.

(** The row as a call reads it from a revision, or from none. *)
Definition row_of (create : bool) (prev : option Blob) (row : Grants.StoredRow) : Prop :=
  match prev with
  | Some b =>
      Grants.ID row = id ∧ Grants.ETag row = FormatETag (ETag b) ∧ holds (Body b) (Grants.Data row) ∧
      Grants.Project row = None ∧ Grants.ProjectSet row = false
  | None => row = emptyRow id ∧ create = true
  end.
(** What a call makes of a revision, or of none: its edit's row, or a
    deletion. *)
Definition makes (c : call) (prev : option Blob) (new : option bytes) : Prop :=
  match c, new with
  | CCommit _ _ create edit, Some d =>
      ∃ row row', row_of create prev row ∧ edit row (bool_decide (prev ≠ None)) = Ok row' ∧ Grants.Data row' = d
  | CRemove _ _, None => prev ≠ None
  | _, _ => False
  end.

Definition rewrapNonce (kid etag : string) : string :=
  String.append "rewrap:" (String.append kid (String.append ":" (String.append id (String.append ":" etag)))).

(** What a call may send. *)
Inductive sends (c : call) (f : facts) : request → Prop :=
  | sends_get path : sends c f (bare "GET" path (RBlob scope id) user)
  | sends_key path : sends c f (bare "GET" path RCurrentKey user)
  | sends_put path kid ifMatch nonce hash protocol body d prev :
      path ≠ RewrapPath → mine f nonce → holds body d → makes c prev (Some d) →
      match prev with Some b => F f b ∧ ifMatch = FormatETag (ETag b) | None => ifMatch = IfMatchCreateOnly end →
      sends c f (mkRequest "PUT" path (RBlob scope id) user kid ifMatch nonce hash protocol false "" None None (QBytes body))
  | sends_delete path ifMatch nonce hash :
      path ≠ RewrapPath → mine f nonce → (∃ p key, c = CRemove p key) → removals = true →
      sends c f (mkRequest "DELETE" path (RBlob scope id) user "" ifMatch nonce hash "" false "" None None QNone)
  | sends_rewrap kid b d hash body :
      String.length kid = 32 → F f b → holds (Body b) d → holds body d →
      sends c f (mkRequest "POST" RewrapPath RRewrap user "" "" (rewrapNonce kid (FormatETag (ETag b))) hash "" false "" None None
                   (QRewrap scope id kid (FormatETag (ETag b)) body)).

(** What it may be told. *)
Definition blob_told (b : Blob) (r : response) : Prop :=
  cut r = false → Content r = Bytes (Body b) ∧ sound (Body b) ∧ h_ETag (Header r) = FormatETag (ETag b) ∧
  h_ProjectIDSet (Header r) = "".
Inductive told (f : facts) (q : request) (r : reply) : Prop :=
  | told_failure : outage r = true → told f q r
  | told_blob b resp : r = Replied resp → q_method q = "GET" → q_route q = RBlob scope id → F f b → blob_told b resp → told f q r
  | told_key : q_route q = RCurrentKey → told f q r
  | told_made : q_method q = "PUT" ∨ q_method q = "DELETE" → N f (q_Idempotency q) → told f q r
  | told_resealed resp b b' kid body :
      r = Replied resp → q_body q = QRewrap scope id kid (FormatETag (ETag b)) body → F f b → F f b' →
      (∀ a, Content resp = Json a → a_etag a = FormatETag (ETag b')) →
      (∀ d, holds (Body b) d → holds (Body b') d) → told f q r.
(** No two revisions have the same number. *)
Definition unique (f : facts) : Prop := ∀ b b', F f b → F f b' → ETag b = ETag b' → b = b'.

(** ** A program logic: a program keeps to what it may send, whatever it is
    told, and ends as [Q] says *)

Fixpoint wp {A} (c : call) (p : prog A) (f : facts) (Q : facts → A → Prop) : Prop :=
  match p with
  | Ret a => Q f a
  | Panic => False
  | Send q k => sends c f q ∧ ∀ f' r, f ⊑f f' → unique f' → told f' q r → wp c (k r) f' Q
  | Ended k => ∀ b, wp c (k b) f Q
  | Draw n k => ∀ b, length b = n → wp c (k b) f Q
  | NewID k => ∀ s, String.length s = uuidLength → wp c (k s) (drew f s) Q
  | Now k => ∀ t, wp c (k t) f Q
  end.

Lemma more_refl f : f ⊑f f.
Proof. split_and!; auto. Qed.
Lemma more_trans f g h : f ⊑f g → g ⊑f h → f ⊑f h.
Proof. intros (? & ? & ?) (? & ? & ?). split_and!; auto. Qed.
Lemma more_drew f s : f ⊑f drew f s.
Proof. split_and!; cbn; auto. Qed.

(** Facts reached from [f] on. *)
Lemma wp_mono {A} c (p : prog A) f (Q R : facts → A → Prop) :
  wp c p f Q → (∀ g a, f ⊑f g → Q g a → R g a) → wp c p f R.
Proof.
  revert f. induction p as [a| |q k IH|k IH|n k IH|k IH|k IH]; intros f Hp HQ; cbn [wp] in *; eauto using more_refl.
  - destruct Hp as [Hs Hk]. split; [done|]. intros g r Hg Hu Hr. apply (IH r); [by apply Hk|]. intros h a Hh. apply HQ.
    by eapply more_trans.
  - intros s Hs. apply (IH s); [by apply Hp|]. intros h a Hh. apply HQ. eapply more_trans; [apply more_drew|done].
Qed.

Lemma wp_bind {A B} c (p : prog A) (k : A → prog B) f Q :
  wp c p f (λ g a, wp c (k a) g Q) → wp c (p ≫= k) f Q.
Proof.
  revert f. induction p as [a| |q h IH|h IH|n h IH|h IH|h IH]; intros f Hp; cbn [wp mbind prog_mbind prog_bind] in *; eauto.
  destruct Hp as [Hs Hk]. split; [done|]. intros g r Hg Hu Hr. apply IH. by apply Hk.
Qed.

(** [p] from [f] on keeps to that and ends in what [P] says of facts no
    fewer. *)
Definition ensures {A} (c : call) (f : facts) (p : prog A) (P : facts → A → Prop) : Prop :=
  wp c p f (λ g a, f ⊑f g ∧ P g a).

Lemma ensures_ret {A} c f (a : A) (P : facts → A → Prop) : P f a → ensures c f (Ret a) P.
Proof. split; [apply more_refl|done]. Qed.
Lemma ensures_bind {A B} c f (p : prog A) (k : A → prog B) P R :
  ensures c f p P → (∀ g a, f ⊑f g → P g a → ensures c g (k a) R) → ensures c f (p ≫= k) R.
Proof.
  intros Hp Hk. apply wp_bind. eapply wp_mono; [exact Hp|]. cbn beta. intros g a _ [Hg HP].
  eapply wp_mono; [by apply Hk|]. cbn beta. intros h b _ [Hh HR]. split; [by eapply more_trans|done].
Qed.
Lemma ensures_mono {A} c f (p : prog A) (P R : facts → A → Prop) :
  ensures c f p P → (∀ g a, f ⊑f g → P g a → R g a) → ensures c f p R.
Proof. intros Hp HR. eapply wp_mono; [exact Hp|]. cbn beta. intros g a Hg [_ HP]. auto. Qed.
Lemma ensures_send c f q : sends c f q → ensures c f (send q) (λ g r, unique g ∧ told g q r).
Proof. intros Hq. split; [done|]. intros g r Hg Hu Hr. by split. Qed.
Lemma ensures_ended c f : ensures c f ended (λ _ _, True).
Proof. intros b. split; [apply more_refl|done]. Qed.
Lemma ensures_now c f : ensures c f now (λ _ _, True).
Proof. intros t. split; [apply more_refl|done]. Qed.
Lemma ensures_newID c f : ensures c f newID (λ g s, mine g s).
Proof.
  intros s Hs. split; [apply more_drew|]. exists s. split_and!; [by left|done|by left].
Qed.

(** ** What the store's programs keep to *)

Context (Hau : Seal.authentic) (Hchat : scope ≠ "chat"%string).

Lemma sends_mono c f g q : f ⊑f g → sends c f q → sends c g q.
Proof.
  intros (HF & HN & HO) [path|path|path kid ifm nonce hash protocol body d prev Hp Hm Hh Hmk Hb|path ifm nonce hash Hp Hm Hc Hr|
    kid b d hash body Hk Hb Hd Hh].
  - constructor.
  - constructor.
  - destruct Hm as (u & Hu & Hl & Hn). econstructor; try done; [by exists u; auto|]. destruct prev; naive_solver.
  - destruct Hm as (u & Hu & Hl & Hn). constructor; try done. by exists u; auto.
  - econstructor; eauto.
Qed.

Lemma encrypt_holds key d aad dek n1 n2 blob :
  length n1 = Seal.NonceSize → length n2 = Seal.NonceSize → Seal.Encrypt key d aad dek n1 n2 = Ok blob →
  holds blob d ∧ valid_kid (KeyIDHex aad) = true.
Proof.
  intros Hn1 Hn2 He. pose proof He as He'. unfold Seal.Encrypt in He'.
  destruct (negb _) eqn:Hk; [done|]. apply negb_false_iff, bool_decide_eq_true in Hk.
  destruct (CanonicalPayloadAAD aad) as [pa|] eqn:Hpa; [|done]. cbn [Seal.from_aad mbind result_bind] in He'.
  destruct (CanonicalDEKWrapAAD aad) as [wa|] eqn:Hwa; [|done]. cbn [Seal.from_aad mbind result_bind] in He'.
  destruct (bool_decide _) eqn:Hlen in He'; [done|]. apply bool_decide_eq_false in Hlen.
  unfold Seal.GCMSeal in He'. destruct (negb (bool_decide (length dek = _))) eqn:Hdek; [done|].
  apply negb_false_iff, bool_decide_eq_true in Hdek.
  assert (Hv : valid_row aad = true ∧ valid_kid (KeyIDHex aad) = true).
  { unfold CanonicalDEKWrapAAD in Hwa. destruct (negb _) eqn:Hv; [done|]. by apply negb_false_iff, andb_true_iff in Hv. }
  destruct Hv as [Hrow Hkid]. split; [|done].
  destruct (Seal.sealed_opens key d aad dek n1 n2) as (blob' & He2 & Hdet & Hopen); [done..|lia|].
  assert (blob' = blob) as -> by congruence. split.
  - exists [Seal.mkKey key (KeyIDHex aad)], aad. eexists. split; [left; apply (Hopen _ (Seal.mkKey key (KeyIDHex aad))); [|done]|done].
    unfold Seal.find_key. cbn. by rewrite bool_decide_true.
  - intros d' (keys & aad' & r & [Hr|Hr] & <-).
    + destruct (Seal.sealed_binds key d aad dek n1 n2 blob keys aad' r) as (_ & Hp & _); [done || lia..|done].
    + unfold Seal.DecryptLegacy in Hr. by rewrite Hdet in Hr.
Qed.

Lemma sealRow_ok c f key d aad :
  ensures c f (sealRow key d aad) (λ _ r, ∀ body, r = Ok body → holds body d ∧ valid_kid (KeyIDHex aad) = true).
Proof.
  intros dek Hdek n1 Hn1 n2 Hn2. split; [apply more_refl|]. intros body Hb.
  eapply encrypt_holds; [exact Hn1|exact Hn2|exact Hb].
Qed.

Lemma permitted_ok c f p may : ensures c f (permitted p may) (λ _ _, True).
Proof.
  unfold permitted. destruct (Grant p); [|by apply ensures_ret].
  eapply ensures_bind; [apply ensures_now|]. intros. by apply ensures_ret.
Qed.

Lemma readPut_failure kid r : outage r = true → ∃ e, readPut kid r = Err e.
Proof. destruct r as [|r]; cbn; [eauto|]. intros H. rewrite H. eauto. Qed.

Lemma putBlobOnce_ok c f req :
  (∀ path, PathFor (p_Scope req) (p_ID req) = Some path → sends c f (httpPut req path)) →
  ensures c f (putBlobOnce req) (λ g r, is_ok r = true → N g (p_IdempotencyKey req)).
Proof.
  intros Hs. unfold putBlobOnce. destruct (PathFor _ _) as [path|]; [|by apply ensures_ret].
  eapply ensures_bind; [by apply ensures_send, Hs|]. intros g r Hg [_ Hr]. apply ensures_ret.
  destruct Hr as [Ho| | |H|]; try done.
  apply (readPut_failure (p_KeyIDHex req)) in Ho as [e He]. by rewrite He.
Qed.

Lemma putAttempts_ok c f tries req : 0 < tries →
  (∀ path, PathFor (p_Scope req) (p_ID req) = Some path → sends c f (httpPut req path)) →
  ensures c f (putAttempts tries req) (λ g r, is_ok r = true → N g (p_IdempotencyKey req)).
Proof.
  revert f. induction tries as [|tries IH]; intros f Ht Hs; [lia|]. cbn [putAttempts].
  eapply ensures_bind; [apply ensures_ended|]. intros g over Hg _. destruct over; [by apply ensures_ret|].
  assert (Hs' : ∀ h path, g ⊑f h → PathFor (p_Scope req) (p_ID req) = Some path → sends c h (httpPut req path)).
  { intros h path Hh Hp. eapply (sends_mono c f); [by eapply more_trans|by apply Hs]. }
  eapply ensures_bind; [apply putBlobOnce_ok; intros path; apply Hs', more_refl|].
  intros h r Hh Hr. destruct r as [resp|e]; [by apply ensures_ret|].
  destruct e; try by apply ensures_ret. eapply ensures_bind; [apply ensures_ended|]. intros k over Hk _.
  destruct (over || Nat.eqb tries 0) eqn:Hov; [by apply ensures_ret|].
  apply orb_false_iff in Hov as [_ Ht0]. apply Nat.eqb_neq in Ht0.
  apply IH; [lia|]. intros path. apply Hs'. by eapply more_trans.
Qed.

Lemma PathFor_blob s i path : PathFor s i = Some path → path ≠ RewrapPath.
Proof.
  unfold PathFor, RewrapPath. repeat case_match; intros [= <-]; try done.
Qed.

Lemma go_nonempty x t : t ≠ ""%string → pretty_N_go x t ≠ ""%string.
Proof.
  revert t. induction (N.lt_wf_0 x) as [x _ IH]. intros t Ht.
  destruct (decide (0 < x)%N) as [Hx|Hx].
  - rewrite pretty_N_go_step by done. apply IH; [by apply N.div_lt|done].
  - assert (x = 0)%N as -> by lia. by rewrite pretty_N_go_0.
Qed.
Lemma FormatETag_nonempty n : String.eqb (FormatETag n) "" = false.
Proof.
  apply String.eqb_neq. destruct n as [|p|p]; [done| |done].
  change (pretty_N_go (N.pos p) "" ≠ ""%string). rewrite pretty_N_go_step by lia. by apply go_nonempty.
Qed.

(** What a push needs of its row. *)
Definition pushable (c : call) (f : facts) (row : Grants.StoredRow) : Prop :=
  ∃ prev, makes c prev (Some (Grants.Data row)) ∧
    match prev with Some b => F f b ∧ Grants.ETag row = FormatETag (ETag b) | None => Grants.ETag row = ""%string end.

Lemma pushable_mono c f g row : f ⊑f g → pushable c f row → pushable c g row.
Proof. intros (HF & _) (prev & Hm & Hp). exists prev. split; [done|]. destruct prev; naive_solver. Qed.
Lemma mine_mono f g s : f ⊑f g → mine f s → mine g s.
Proof. intros (_ & _ & HO) (u & Hu & ?). exists u. auto. Qed.

Lemma Push_ok c f p key row nonce :
  PrincipalID p = user → Grants.ID row = id → mine f nonce → pushable c f row →
  ensures c f (Push ParseTime p key scope row nonce) (λ g r, is_ok r = true → N g nonce).
Proof.
  intros Hp Hid Hn Hrow. unfold Push. destruct (negb (Valid scope)); [by apply ensures_ret|].
  destruct (_ || _); [by apply ensures_ret|]. eapply ensures_bind; [apply permitted_ok|].
  intros g ok Hg _. destruct (negb ok); [by apply ensures_ret|]. rewrite Hid.
  destruct (PathFor scope id) as [path|] eqn:Hpath; [|by apply ensures_ret].
  destruct (CanonicalPayloadAAD _) as [pa|]; [|by apply ensures_ret].
  eapply ensures_bind; [apply sealRow_ok|]. intros h sealed Hh Hsealed.
  assert (Hfh : f ⊑f h) by by eapply more_trans.
  destruct sealed as [body|e]; [|by apply ensures_ret]. destruct (Hsealed body eq_refl) as [Hbody _].
  rewrite (proj2 (String.eqb_neq scope "chat") Hchat). cbn [andb].
  eapply ensures_bind with (P := λ g r, is_ok r = true → N g nonce).
  - unfold PutBlob. cbn [p_Rewrap]. apply putAttempts_ok; [unfold PutBlobMaxAttempts; lia|].
    cbn [p_Scope p_ID]. intros path' Hpath'. assert (path' = path) as -> by congruence. rewrite Hp.
    destruct (pushable_mono c f h row Hfh Hrow) as (prev & Hm & Hprev).
    eapply (sends_put c h path _ _ nonce _ _ body (Grants.Data row) prev); [by eapply PathFor_blob|by eapply (mine_mono f)|done|done|].
    destruct prev as [b|].
    + destruct Hprev as [Hb He]. split; [done|]. by rewrite He, FormatETag_nonempty.
    + by rewrite Hprev.
  - intros k resp Hk Hr. apply ensures_ret. by destruct resp.
Qed.

Lemma pushLoop_ok c f p key row nonce tries :
  PrincipalID p = user → Grants.ID row = id → mine f nonce → pushable c f row →
  ensures c f (pushLoop ParseTime tries p key scope row nonce) (λ g r, is_ok r = true → N g nonce).
Proof.
  revert f. induction tries as [|tries IH]; intros f Hp Hid Hn Hrow; cbn [pushLoop];
    (eapply ensures_bind; [by apply Push_ok|]); intros g r Hg Hr; (destruct r as [etag|e]; [by apply ensures_ret|]);
    [by apply ensures_ret|]. destruct tries as [|tries]; [by apply ensures_ret|].
  destruct (String.eqb _ _); [|by apply ensures_ret].
  apply IH; [done|done|by eapply (mine_mono f)|by eapply (pushable_mono c f)].
Qed.

Lemma StorePush_ok c f p key row : PrincipalID p = user → Grants.ID row = id → pushable c f row →
  ensures c f (StorePush ParseTime p key scope row) (λ g r, is_ok r = true → ∃ nonce, N g nonce).
Proof.
  intros Hp Hid Hrow. eapply ensures_bind; [apply ensures_newID|]. intros g nonce Hg Hn.
  eapply ensures_mono; [apply pushLoop_ok; [done|done|done|by eapply (pushable_mono c f)]|]. cbn. intros h r _ Hr Hok. eauto.
Qed.


(** What a call knows of a row it loaded. *)
Definition known (f : facts) (row : Grants.StoredRow) : Prop := ∃ b, F f b ∧ row_of false (Some b) row.
Lemma known_mono f g row : f ⊑f g → known f row → known g row.
Proof. intros (HF & _) (b & Hb & Hr). exists b. auto. Qed.

Lemma opens_holds b d : sound b → opens b d → holds b d.
Proof. intros [_ Hs] Ho. split; [done|]. intros d' Hd. by apply (Hs d' d). Qed.

Lemma readGet_failure r : outage r = true → ∃ e, readGet scope r = Err e.
Proof. destruct r as [|r]; cbn; [eauto|]. intros H. rewrite H. destruct (cut r); eauto. Qed.

Lemma GetBlob_ok c f : ensures c f (GetBlob scope id user) (λ g r, ∀ blob, r = Ok blob →
  ∃ b, F g b ∧ sound (Body b) ∧ g_Ciphertext blob = Body b ∧ g_ETag blob = FormatETag (ETag b) ∧
    g_ProjectID blob = None ∧ g_ProjectIDSet blob = false).
Proof.
  unfold GetBlob. destruct (PathFor scope id) as [path|]; [|by apply ensures_ret].
  eapply ensures_bind; [apply ensures_send; constructor|]. intros g r Hg [_ Hr]. apply ensures_ret. intros blob Hread.
  destruct Hr as [Ho|b resp -> _ _ Hb Ht|H|[H|H]|? ? ? ? ? ? H]; try done.
  { apply readGet_failure in Ho as [e He]. congruence. }
  cbn [readGet] in Hread. destruct (cut resp) eqn:Hcut; [done|].
  destruct (bool_decide _); [done|]. destruct (Ht Hcut) as (Hc & Hsound & He & _). rewrite Hc in Hread.
  rewrite (proj2 (String.eqb_neq scope "chat") Hchat) in Hread. cbn [andb] in Hread. injection Hread as <-.
  exists b. split_and!; try done. cbn. unfold limited. rewrite bool_decide_true; [done|]. apply Hsound.
Qed.

Lemma CurrentKey_ok c f p kid : PrincipalID p = user → ensures c f (currentPrimaryKeyIs p kid) (λ _ _, True).
Proof.
  intros Hp. unfold currentPrimaryKeyIs, GetCurrentKey. rewrite Hp.
  eapply ensures_bind with (P := λ _ _, True).
  - eapply ensures_bind; [apply ensures_send; constructor|]. intros. by apply ensures_ret.
  - intros. by apply ensures_ret.
Qed.

(** A reseal of what a call knows keeps what the revision holds. *)
Lemma rewrapRow_ok c f p b data target : PrincipalID p = user → F f b → holds (Body b) data →
  ensures c f (rewrapRow rewrapChatAttachments p scope id data (FormatETag (ETag b)) target)
    (λ g r, ∀ etag, r = Ok etag → ∃ b', F g b' ∧ etag = FormatETag (ETag b') ∧ holds (Body b') data).
Proof.
  intros Hp Hb Hh. unfold rewrapRow. rewrite (proj2 (String.eqb_neq scope "chat") Hchat).
  eapply ensures_bind with (P := λ _ r, r = Ok None); [by apply ensures_ret|]. intros g normalized Hg ->. cbn [default].
  destruct (CanonicalPayloadAAD _) as [pa|]; [|by apply ensures_ret].
  eapply ensures_bind; [apply sealRow_ok|]. intros h sealed Hh' Hsealed.
  destruct sealed as [body|e]; [|by apply ensures_ret]. destruct (Hsealed body eq_refl) as [Hbody Hkid].
  cbn [KeyIDHex] in Hkid. destruct (DeriveOpHashKey _) as [opKey|]; [|by apply ensures_ret].
  assert (Hbh : F h b) by (destruct (more_trans _ _ _ Hg Hh') as (HF & _); by apply HF).
  eapply ensures_bind with (P := λ g r, ∀ resp, r = Ok resp → ∃ b', F g b' ∧ pr_ETag resp = FormatETag (ETag b') ∧ holds (Body b') data).
  - unfold PutBlob. cbn [p_Rewrap]. unfold rewrapBlob. eapply ensures_bind.
    + apply ensures_send. unfold httpRewrap.
      cbn [p_ClerkUserID p_IdempotencyKey p_OperationHash p_Scope p_ID p_KeyIDHex p_IfMatch p_Ciphertext].
      rewrite Hp. eapply sends_rewrap; [|exact Hbh|exact Hh|exact Hbody].
      unfold valid_kid in Hkid. by apply andb_true_iff in Hkid as [Hkid%bool_decide_eq_true _].
    + intros k r Hk [Hu Hr]. apply ensures_ret. intros resp Hread.
      destruct Hr as [Ho|? ? ? H|H|[H|H]|resp' b0 b' kid body' -> Hq Hb0 Hb' Ha Hkeep]; try done.
      { destruct r as [|r]; [done|]. cbn in Ho. by rewrite Ho in Hread. }
      injection Hq as <- Het <-. apply (inj pretty) in Het.
      assert (b0 = b) as -> by (destruct Hk as (HF & _); apply (Hu b0 b); auto). destruct (bool_decide _); [done|].
      destruct (Content resp') as [|a] eqn:Hc; [done|]. destruct (String.eqb _ _); [done|].
      injection Hread as <-. exists b'. split_and!; [done|by apply Ha|].
      by apply Hkeep.
  - intros k r Hk Hr. apply ensures_ret. intros etag Hetag. destruct r as [resp|e]; [|done]. injection Hetag as <-. by apply Hr.
Qed.

Definition pulls (g : facts) (item : pulled) : Prop := ∀ row, pl_row item = Some row → known g row.

Lemma row_of_blob b blob data : sound (Body b) → opens (Body b) data →
  g_ETag blob = FormatETag (ETag b) → g_ProjectID blob = None → g_ProjectIDSet blob = false →
  row_of false (Some b)
    (Grants.mkRow id (g_ETag blob) data (g_ProjectID blob) (g_ProjectIDSet blob) (g_UpdatedAt blob)).
Proof. intros Hs Ho He Hp Hset. cbn [row_of]. split_and!; try done. by apply opens_holds. Qed.

Lemma pullOne_ok c f p target probed : PrincipalID p = user →
  ensures c f (pullOne ParseTime rewrapChatAttachments p target scope id probed) (λ g x, pulls g x.1).
Proof.
  intros Hp. unfold pullOne. rewrite Hp. eapply ensures_bind; [apply GetBlob_ok|]. intros g got Hg Hgot.
  destruct got as [blob|e].
  2:{ apply ensures_ret. cbn [fst]. intros row. repeat case_match; done. }
  destruct (Hgot blob eq_refl) as (b & Hb & Hs & Hc & He & Hproj & Hset). clear Hgot.
  match goal with |- ensures _ _ (match ?o with _ => _ end) _ => set (opened := o) end.
  assert (Hopened : ∀ data legacy, opened = Ok (data, legacy) → opens (Body b) data).
  { intros data legacy Ho. subst opened. rewrite Hc in Ho. unfold opens.
    destruct (Seal.Detect (Body b)); [done|..].
    1,2: destruct (Seal.DecryptLegacy (Body b) [target]) as [dec|] eqn:Hdec; [|done]; injection Ho as <- <-;
      exists [target], (mkAAD "" scope (aadID scope id) user), dec; auto.
    destruct (Seal.DecryptV2 _ _ _) as [dec|[]] eqn:Hdec; try done; injection Ho as <- <-;
      exists [target], (mkAAD "" scope (aadID scope id) user), dec; auto. }
  clearbody opened. destruct opened as [[data legacy]|e]; [|by apply ensures_ret].
  specialize (Hopened _ _ eq_refl).
  destruct (negb (opensObject data)); [by apply ensures_ret|].
  pose proof (row_of_blob b blob data Hs Hopened He Hproj Hset) as Hrow.
  assert (Hkn : known g (Grants.mkRow id (g_ETag blob) data (g_ProjectID blob) (g_ProjectIDSet blob) (g_UpdatedAt blob)))
    by by exists b.
  eapply ensures_bind with (P := λ _ _, True).
  { destruct legacy; [|by apply ensures_ret]. destruct probed; [by apply ensures_ret|].
    eapply ensures_bind; [by apply CurrentKey_ok|]. intros. by apply ensures_ret. }
  intros h [can probed'] Hh _.
  assert (Hkh := known_mono _ _ _ Hh Hkn).
  eapply ensures_bind with (P := λ g row, known g row).
  { destruct can; [|by apply ensures_ret]. rewrite He.
    eapply ensures_bind; [apply rewrapRow_ok; [done|by destruct Hh as (HF & _); apply HF|by apply opens_holds]|].
    intros k r Hk Hr. apply ensures_ret. destruct r as [etag|e]; [|by rewrite He in Hkh; eapply known_mono].
    destruct (Hr etag eq_refl) as (b' & Hb' & -> & Hholds). exists b'. split; [done|].
    destruct Hrow as (Hi & _ & _ & Hpr & Hps). cbn [row_of]. by split_and!. }
  intros k row Hk Hknown. unfold backfillChatActivity. rewrite (proj2 (String.eqb_neq scope "chat") Hchat). cbn [negb orb].
  eapply ensures_bind with (P := λ _ _, True); [by apply ensures_ret|]. intros l _ Hl _. apply ensures_ret.
  intros row' [= <-]. by eapply known_mono.
Qed.

Definition pulled_known (g : facts) (s : pulling) : Prop := Forall (known g) (pg_rows s).
Lemma pulled_known_mono g h s : g ⊑f h → pulled_known g s → pulled_known h s.
Proof. intros Hh Hs. eapply Forall_impl; [exact Hs|]. intros row. by apply known_mono. Qed.

Lemma fetch_ok c f p target retry ids s : PrincipalID p = user → Forall (eq id) ids → pulled_known f s →
  ensures c f (fetch ParseTime rewrapChatAttachments p target scope retry ids s)
    (λ g x, pulled_known g x.1 ∧ Forall (eq id) x.2).
Proof.
  intros Hp Hids. revert f s. induction Hids as [|? ids <- _ IH]; intros f s Hs; cbn [fetch].
  { apply ensures_ret. by split. }
  eapply ensures_bind; [by apply pullOne_ok|]. intros g [item probed] Hg Hitem.
  assert (Hs' := pulled_known_mono _ _ _ Hg Hs). cbn [fst] in Hitem.
  destruct (pl_transient item && retry).
  { eapply ensures_bind; [by apply IH|]. intros h [s' again] Hh [Hk Hagain]. apply ensures_ret. split; [done|].
    cbn [snd] in *. by constructor. }
  destruct (pl_transient item); [by apply IH|]. destruct (pl_err item) as [e|]; [by apply IH|].
  destruct (pl_row item) as [row|] eqn:Hrow; [|by apply IH].
  apply IH. unfold pulled_known. cbn [pg_rows]. apply Forall_app. split; [done|]. constructor; [by apply Hitem|done].
Qed.

Lemma pullBatch_ok c f p target ids s : PrincipalID p = user → Forall (eq id) (distinct [] ids) → pulled_known f s →
  ensures c f (pullBatch ParseTime rewrapChatAttachments p target scope ids s) pulled_known.
Proof.
  intros Hp Hids Hs. unfold pullBatch. eapply ensures_bind; [by apply fetch_ok|]. intros g [s' again] Hg [Hs' Hagain].
  cbn [fst snd] in *. destruct again as [|i again]; [by apply ensures_ret|].
  eapply ensures_bind; [by apply fetch_ok|]. intros h [s'' again'] Hh [Hs'' _]. by apply ensures_ret.
Qed.

Lemma Load_ok c f p key : PrincipalID p = user →
  ensures c f (Load ParseTime rewrapChatAttachments p key scope id) (λ g r, ∀ row, r = Ok row → known g row).
Proof.
  intros Hp. unfold Load.
  eapply ensures_bind with (P := λ g r, ∀ rows failed, r = Ok (rows, failed) → Forall (known g) rows).
  - unfold Pull. rewrite bool_decide_false by done. destruct (negb (Valid scope)); [by apply ensures_ret|].
    eapply ensures_bind; [apply permitted_ok|]. intros g ok Hg _. destruct (negb ok); [by apply ensures_ret|].
    cbn [pullBatches length].
    eapply ensures_bind with (P := pulled_known).
    + eapply ensures_bind; [apply pullBatch_ok; [done|by repeat constructor|constructor]|].
      intros h s Hh Hs. destruct (drop PullBatch [id]); by apply ensures_ret.
    + intros h s Hh Hs. apply ensures_ret. by intros rows failed [= <- <-].
  - intros g r Hg Hr. apply ensures_ret. intros row. destruct r as [[rows failed]|e]; [|done].
    specialize (Hr _ _ eq_refl). destruct (failed !! id); [done|]. destruct (List.find _ rows) as [x|] eqn:Hf; [|done].
    intros [= <-]. apply find_some in Hf as [Hin _]. by eapply Forall_forall in Hr; [|apply list_elem_of_In].
Qed.

(** ** A commit, and a removal *)

Lemma edited c f p key create edit row row' :
  c = CCommit p key create edit → keeps edit → known f row → edit row true = Ok row' →
  Grants.ID row' = id ∧ pushable c f row'.
Proof.
  intros -> Hk (b & Hb & Hrow) He. destruct (Hk _ _ _ He) as [Hi Hetag]. pose proof Hrow as (Hid & Het & _).
  split; [congruence|]. exists (Some b). split.
  - exists row, row'. by split_and!.
  - split; [done|congruence].
Qed.
Lemma edited_new c f p key edit row' :
  c = CCommit p key true edit → keeps edit → edit (emptyRow id) false = Ok row' →
  Grants.ID row' = id ∧ pushable c f row'.
Proof.
  intros -> Hk He. destruct (Hk _ _ _ He) as [Hi Hetag]. split; [done|]. exists None. split; [|done].
  exists (emptyRow id), row'. by split_and!.
Qed.

Definition done_of (g : facts) (r : result err unit) : Prop := r = Ok tt → ∃ nonce, N g nonce.

Lemma commitLoop_ok c f p key create edit tries :
  c = CCommit p key create edit → PrincipalID p = user → keeps edit →
  ensures c f (commitLoop ParseTime rewrapChatAttachments tries p key scope id create edit) done_of.
Proof.
  intros Hc Hp Hk. revert f. induction tries as [|tries IH]; intros f; cbn [commitLoop]; [by apply ensures_ret|].
  eapply ensures_bind; [by apply Load_ok|]. intros g loaded Hg Hloaded.
  eapply ensures_mono with (P := done_of); [|done].
  match goal with |- ensures _ _ (match ?r with _ => _ end) _ => set (read := r) end.
  assert (Hread : ∀ row ex row', read = Ok (row, ex) → edit row ex = Ok row' → Grants.ID row' = id ∧ pushable c g row').
  { intros row ex row' Hr He. subst read. destruct loaded as [x|e].
    - injection Hr as <- <-. by eapply edited; [done..|apply Hloaded|].
    - destruct create; [|done]. cbn [negb orb] in Hr. destruct (negb _); [done|]. injection Hr as <- <-.
      by eapply edited_new. }
  clearbody read. destruct read as [[row ex]|e]; [|by apply ensures_ret].
  destruct (edit row ex) as [row'|e] eqn:He; [|by apply ensures_ret].
  destruct (Hread _ _ _ eq_refl He) as [Hid Hpush].
  eapply ensures_bind; [by apply StorePush_ok|]. intros h pushed Hh Hpushed.
  destruct pushed as [row''|e]; [apply ensures_ret; intros _; by apply Hpushed|].
  destruct (String.eqb _ _); [apply IH|by apply ensures_ret].
Qed.

Lemma removeLoop_ok c f p key path nonce tries attempt :
  c = CRemove p key → removals = true → PrincipalID p = user → PathFor scope id = Some path →
  (∃ u, u = nonce ∧ O f u ∧ String.length u = uuidLength) →
  ensures c f (removeLoop tries attempt p key scope path id nonce) (λ _ _, True).
Proof.
  intros Hc Hrem Hp Hpath Hn. revert attempt f Hn. induction tries as [|tries IH]; intros attempt f (u & -> & Hu & Hl);
    cbn [removeLoop]; [by apply ensures_ret|].
  rewrite Hp. eapply ensures_bind; [apply GetBlob_ok|]. intros g got Hg _.
  destruct got as [blob|e]; [|by apply ensures_ret].
  assert (HO : ∀ h, g ⊑f h → O h nonce) by (intros h (_ & _ & HO); destruct Hg as (_ & _ & HO'); auto).
  eapply ensures_bind with (P := λ _ _, True).
  - unfold removeAt, DeleteBlob. cbn [d_Scope d_ID]. rewrite Hpath.
    eapply ensures_bind; [|by intros; apply ensures_ret].
    apply ensures_send. unfold httpDelete. cbn [d_Scope d_ID d_ClerkUserID d_IfMatch d_IdempotencyKey d_OperationHash].
    rewrite Hp. constructor; [by eapply PathFor_blob| |by eauto|done].
    exists nonce. split_and!; [by apply HO, more_refl|done|]. destruct (bool_decide _); [right; eauto|by left].
  - intros h resp Hh _. destruct resp as [resp|e]; [by apply ensures_ret|].
    destruct (IsCode e StatusStaleBlob); [|by apply ensures_ret]. apply IH. exists nonce. split_and!; auto.
Qed.

Lemma program_ok c : PrincipalID (caller c) = user → (if c is CCommit _ _ _ edit then keeps edit else removals = true) → ∀ f,
  ensures c f (program c) (λ g r, if c is CCommit _ _ _ _ then done_of g r else True).
Proof.
  intros Hp Hk f. destruct c as [p key create edit|p key]; cbn [program caller] in *; [by eapply commitLoop_ok|].
  unfold Remove. destruct (negb _); [by apply ensures_ret|]. destruct (String.eqb id ""); [by apply ensures_ret|].
  eapply ensures_bind; [apply permitted_ok|]. intros g ok Hg _. destruct (negb ok); [by apply ensures_ret|].
  destruct (PathFor scope id) as [path|] eqn:Hpath; [|by apply ensures_ret].
  intros s Hs. eapply wp_mono; [apply removeLoop_ok; [done..|]|].
  - exists s. split_and!; [done| |done]. by left.
  - intros h r _ [Hh _]. split; [|done]. eapply more_trans; [apply more_drew|done].
Qed.

(** ** The row's history *)

Context (Hnext : removals = true → continues = true).

Definition latest (h : list version) : option Blob := match h with v :: _ => v_blob v | [] => None end.
Definition revisions (h : list version) : list Blob := omap v_blob h.
Definition made_under (v : version) : option string := match v_by v with By _ nonce => Some nonce | _ => None end.

(** A version is its maker's change of the one before it: a call's, of what
    that one held; or a reseal, which keeps that. *)
Definition changed (calls : nat → option call) (prev : option Blob) (v : version) : Prop :=
  match v_by v with
  | Other => True
  | By i _ =>
      ∃ c, calls i = Some c ∧
        match v_blob v with
        | Some b => ∃ d, holds (Body b) d ∧ makes c prev (Some d)
        | None => makes c prev None
        end
  | Resealed _ =>
      ∃ b b', prev = Some b ∧ v_blob v = Some b' ∧ ∀ d, holds (Body b) d → holds (Body b') d
  end.
Fixpoint linked (calls : nat → option call) (h : list version) : Prop :=
  match h with [] => True | v :: h => changed calls (latest h) v ∧ linked calls h end.

Definition ledgerKey (nonce : string) : string := String.append user (String "000" nonce).
(** What is remembered of an answered request, under its idempotency key. *)
Inductive remembered (h : list version) (nonce : string) (a : idempotentAnswer) : Prop :=
  | remembered_made i b :
      i_method a = "PUT" ∨ i_method a = "DELETE" → mkVersion b (By i nonce) ∈ h → remembered h nonce a
  | remembered_reseal kid b b' ans :
      i_method a = "POST" → String.length kid = 32 → nonce = rewrapNonce kid (FormatETag (ETag b)) →
      b ∈ revisions h → b' ∈ revisions h → i_body a = Json ans → a_etag ans = FormatETag (ETag b') →
      (∀ d, holds (Body b) d → holds (Body b') d) → remembered h nonce a.

Record history (s : Store) (h : list version) (calls : nat → option call) (ids : gmap string nat) : Prop := {
  h_head : Blobs s !! rowKey = latest h;
  h_last : last s !! rowKey = ETag <$> list.head (revisions h);
  h_etags : StronglySorted Z.gt (ETag <$> revisions h);
  h_good : Forall (λ b, (1 ≤ ETag b)%Z ∧ sound (Body b)) (revisions h);
  h_linked : linked calls h;
  h_kept : removals = false → Forall (λ v, v_blob v ≠ None) h;
  h_once : NoDup (omap made_under h);
  h_by : ∀ b i nonce, mkVersion b (By i nonce) ∈ h →
    is_Some (answered s !! ledgerKey nonce) ∧ ∃ u, ids !! u = Some i ∧ String.length u = uuidLength ∧ nonce_of u nonce;
  h_ledger : ∀ k a, answered s !! k = Some a → ∃ nonce, k = ledgerKey nonce ∧ remembered h nonce a;
}.

Definition call_of (w : World) (i : nat) : option call := cl_call <$> clients w !! i.
(** What is so, for a call, of the world it runs in. *)
Definition facts_of (w : World) (i : nat) : facts :=
  mkFacts (λ b, b ∈ revisions (hist w)) (λ nonce, ∃ b, mkVersion b (By i nonce) ∈ hist w) (λ u, drawn w !! u = Some i).

Definition finishes (c : call) (g : facts) (r : result err unit) : Prop :=
  if c is CCommit _ _ _ _ then done_of g r else True.
(** A call in progress. *)
Definition runs (w : World) (i : nat) (c : client) : Prop :=
  (∃ f, f ⊑f facts_of w i ∧ ensures (cl_call c) f (cl_prog c) (finishes (cl_call c))) ∧
  ∀ n, cl_wait c = Some n → ∃ q k, cl_prog c = Send q k ∧ sent w !! n = Some (i, q).

Record Inv (w : World) : Prop := {
  i_history : history (cp w) (hist w) (call_of w) (drawn w);
  i_clients : ∀ i c, clients w !! i = Some c → runs w i c;
  i_sent : ∀ n i q, sent w !! n = Some (i, q) → n < next w ∧ ∃ c, call_of w i = Some c ∧ sends c (facts_of w i) q;
  i_replies : ∀ n r, replies w !! n = Some r → ∃ i q, sent w !! n = Some (i, q) ∧ told (facts_of w i) q (Replied r);
}.

Lemma told_mono f g q r : f ⊑f g → told f q r → told g q r.
Proof.
  intros (HF & HN & _) [Ho|b resp Hr Hm Hq Hb Ht|H|H Hn|resp b b' kid body Hr Hq Hb Hb' Ha Hk].
  - by apply told_failure.
  - eapply told_blob; eauto.
  - by apply told_key.
  - by apply told_made; auto.
  - eapply told_resealed; eauto.
Qed.

Lemma sorted_unique h b b' : StronglySorted Z.gt (ETag <$> revisions h) →
  b ∈ revisions h → b' ∈ revisions h → ETag b = ETag b' → b = b'.
Proof.
  induction (revisions h) as [|x l IH]; cbn [fmap list_fmap]; intros Hs Hb Hb' He; [by apply not_elem_of_nil in Hb|].
  apply StronglySorted_inv in Hs as [Hs Hx]. rewrite Forall_fmap, Forall_forall in Hx.
  apply elem_of_cons in Hb as [->|Hb], Hb' as [->|Hb']; auto; exfalso.
  - specialize (Hx b' Hb'). cbn in Hx. lia.
  - specialize (Hx b Hb). cbn in Hx. lia.
Qed.
Lemma facts_unique w i : history (cp w) (hist w) (call_of w) (drawn w) → unique (facts_of w i).
Proof. intros H b b'. eapply sorted_unique, h_etags, H. Qed.

Lemma ledgerKey_inj a b : ledgerKey a = ledgerKey b → a = b.
Proof.
  unfold ledgerKey. intros H. induction user as [|x u IH]; [by injection H|]. apply IH. by injection H.
Qed.
Lemma append_inj_l a a' b b' : String.length a = String.length a' →
  String.append a b = String.append a' b' → a = a' ∧ b = b'.
Proof.
  revert a'. induction a as [|x a IH]; intros [|x' a'] Hl H; try done. injection Hl as Hl. injection H as -> H.
  by destruct (IH _ Hl H) as [-> ->].
Qed.
Lemma append_inj_r p b b' : String.append p b = String.append p b' → b = b'.
Proof. intros H. by apply (append_inj_l p p) in H as [_ H]. Qed.
Lemma rewrapNonce_inj kid kid' e e' : String.length kid = String.length kid' →
  rewrapNonce kid e = rewrapNonce kid' e' → kid = kid' ∧ e = e'.
Proof.
  unfold rewrapNonce. intros Hl H. apply append_inj_r in H. apply append_inj_l in H as [-> H]; [|done].
  apply append_inj_r, append_inj_r, append_inj_r in H. done.
Qed.

(** An id's nonces name it. *)
Lemma nonce_owner u v s : String.length u = uuidLength → String.length v = uuidLength →
  nonce_of u s → nonce_of v s → u = v.
Proof.
  intros Hu Hv Hs Hs'. assert (∀ u, nonce_of u s → ∃ t, s = String.append u t) as H.
  { intros x [->|[k ->]]; [exists ""%string; by rewrite string_app_nil_r|eauto]. }
  destruct (H _ Hs) as [t Ht], (H _ Hs') as [t' Ht']. by apply (append_inj_l u v t t'); [congruence|congruence].
Qed.

Lemma latest_head h b : latest h = Some b → list.head (revisions h) = Some b.
Proof. destruct h as [|[vb m] h]; cbn; [done|]. by intros ->. Qed.
Lemma head_in (l : list Blob) b : list.head l = Some b → b ∈ l.
Proof. destruct l; [done|]. intros [= ->]. left. Qed.
Lemma in_revisions b m h : mkVersion (Some b) m ∈ h → b ∈ revisions h.
Proof. intros H. apply list_elem_of_omap. by exists (mkVersion (Some b) m). Qed.
Lemma revisions_cons v h b : b ∈ revisions (v :: h) ↔ v_blob v = Some b ∨ b ∈ revisions h.
Proof. unfold revisions. cbn [omap list_omap]. destruct (v_blob v) as [x|]; [rewrite elem_of_cons|]; naive_solver. Qed.

(** The number the next revision has. *)
Definition nextETag (s : Store) : Z :=
  match Blobs s !! rowKey with
  | Some x => (ETag x + 1)%Z
  | None => if continues then continuedRevision s scope id else 1%Z
  end.
Lemma nextETag_fresh s h calls ids : history s h calls ids →
  (1 ≤ nextETag s)%Z ∧ ∀ e, last s !! rowKey = Some e → (e < nextETag s)%Z.
Proof.
  intros H. unfold nextETag, continuedRevision. fold rowKey. pose proof (h_good _ _ _ _ H) as Hg. rewrite Forall_forall in Hg.
  rewrite (h_last _ _ _ _ H), (h_head _ _ _ _ H).
  destruct (latest h) as [x|] eqn:Hx.
  - apply latest_head in Hx. rewrite Hx. destruct (Hg x (head_in _ _ Hx)). split; [lia|]. intros e [= <-]. lia.
  - destruct (list.head (revisions h)) as [x|] eqn:Hh; cbn [fmap option_fmap option_map].
    + assert (Hrem : removals = true).
      { apply not_false_iff_true. intros Hr. pose proof (h_kept _ _ _ _ H Hr) as Hk. destruct h as [|v h]; [done|].
        by apply Forall_cons in Hk as [Hv _]. }
      destruct (Hg x (head_in _ _ Hh)). rewrite (Hnext Hrem). cbn. split; [lia|]. intros e [= <-]. lia.
    + cbn. split; [by destruct continues|done].
Qed.

Lemma remembered_mono v h nonce a : remembered h nonce a → remembered (v :: h) nonce a.
Proof.
  intros [i b Hm Hin|kid b b' ans Hm Hk Hn Hb Hb' Hans He Hkeep].
  - eapply remembered_made; [done|]. right. done.
  - eapply remembered_reseal; try done; apply revisions_cons; auto.
Qed.
Lemma changed_mono (calls calls' : nat → option call) prev v :
  (∀ i c, calls i = Some c → calls' i = Some c) → changed calls prev v → changed calls' prev v.
Proof. unfold changed. intros Hc. destruct (v_by v); naive_solver. Qed.

Lemma linked_mono (calls calls' : nat → option call) h :
  (∀ i c, calls i = Some c → calls' i = Some c) → linked calls h → linked calls' h.
Proof.
  intros Hc. induction h as [|v h IH]; [done|]. intros [Hv Hk]. split; [by eapply changed_mono|auto].
Qed.

Lemma history_mono s h (calls calls' : nat → option call) (ids ids' : gmap string nat) :
  (∀ i c, calls i = Some c → calls' i = Some c) → ids ⊆ ids' → history s h calls ids → history s h calls' ids'.
Proof.
  intros Hc Hi [Hh Hl He Hg Hk Hkept Ho Hb Hled]. split; try done.
  - by eapply linked_mono.
  - intros b i nonce Hin. destruct (Hb b i nonce Hin) as [Ha (u & Hu & Hl' & Hn)]. split; [done|].
    exists u. split_and!; [|done..]. by eapply lookup_weaken.
Qed.

(** The service's state may change otherwise. *)
Lemma history_same s s' h calls ids :
  Blobs s' !! rowKey = Blobs s !! rowKey → last s' !! rowKey = last s !! rowKey → answered s' = answered s →
  history s h calls ids → history s' h calls ids.
Proof. intros Hb Hl Ha [? ? ? ? ? ? ? ? ?]. split; rewrite ?Hb, ?Hl, ?Ha; done. Qed.

(** A version is made. *)
Lemma history_push s s' h v calls ids :
  history s h calls ids →
  Blobs s' !! rowKey = v_blob v →
  last s' !! rowKey = (match v_blob v with Some b => Some (ETag b) | None => last s !! rowKey end) →
  (∀ b, v_blob v = Some b → (1 ≤ ETag b)%Z ∧ sound (Body b) ∧ ∀ e, last s !! rowKey = Some e → (e < ETag b)%Z) →
  changed calls (latest h) v →
  (removals = false → v_blob v ≠ None) →
  (∀ i nonce, v_by v = By i nonce →
     answered s !! ledgerKey nonce = None ∧ is_Some (answered s' !! ledgerKey nonce) ∧
     ∃ u, ids !! u = Some i ∧ String.length u = uuidLength ∧ nonce_of u nonce) →
  answered s ⊆ answered s' →
  (∀ k a, answered s' !! k = Some a → answered s !! k = Some a ∨ ∃ nonce, k = ledgerKey nonce ∧ remembered (v :: h) nonce a) →
  history s' (v :: h) calls ids.
Proof.
  intros [Hh Hl He Hg Hk Hkept Ho Hb Hled] Hblob Hlast Hnewb Hch Hv' Hby Hsub Hans. split.
  - done.
  - rewrite Hlast. unfold revisions. cbn [omap list_omap]. destruct (v_blob v); [done|]. by rewrite Hl.
  - unfold revisions. cbn [omap list_omap]. destruct (v_blob v) as [b|]; [|done]. cbn [fmap list_fmap].
    destruct (Hnewb b eq_refl) as (_ & _ & Hlt). constructor; [done|]. rewrite Hl in Hlt.
    fold (revisions h). destruct (revisions h) as [|x l] eqn:Hr; [constructor|]. specialize (Hlt _ eq_refl).
    cbn [fmap list_fmap] in He |- *. apply StronglySorted_inv in He as [_ Hx].
    constructor; [lia|]. eapply Forall_impl; [exact Hx|]. intros z Hz. cbn in Hz. lia.
  - unfold revisions. cbn [omap list_omap]. destruct (v_blob v) as [b|]; [|done]. constructor; [|done].
    by destruct (Hnewb b eq_refl) as (? & ? & _).
  - by split.
  - intros Hr. constructor; auto.
  - cbn [omap list_omap]. destruct (made_under v) as [nonce|] eqn:Hm; [|done]. constructor; [|done].
    intros ([b m] & Hin & Hm')%list_elem_of_omap. unfold made_under in Hm, Hm'. cbn in Hm'.
    destruct (v_by v) as [|i n|] eqn:Hv; try done. injection Hm as ->. destruct m as [|j n'|]; try done. injection Hm' as ->.
    destruct (Hby i nonce eq_refl) as [Hnone _]. destruct (Hb b j nonce Hin) as [[a Ha] _]. congruence.
  - intros b i nonce [<-|Hin]%elem_of_cons.
    + by destruct (Hby i nonce eq_refl) as (_ & ? & ?).
    + destruct (Hb b i nonce Hin) as [[a Ha] Hu]. split; [|done]. exists a. by eapply lookup_weaken.
  - intros k a Hka. destruct (Hans k a Hka) as [Hold|Hrem]; [|done].
    destruct (Hled k a Hold) as (nonce & -> & Hr). exists nonce. split; [done|]. by apply remembered_mono.
Qed.

(** ** What the service does to the row *)

Definition refuses (s s' : Store) (r : response) : Prop := s' = s ∧ outage (Replied r) = true.
Definition keeps_answers (s s' : Store) (r : response) : Prop := answered s' = answered s ∧ Z.quot (Status r) 100 = 2%Z.

Lemma servePut_spec s q at_ s' r : servePut continues s scope id q at_ = (s', r) →
  refuses s s' r ∨
  keeps_answers s s' r ∧
  (∃ b, Blobs s' !! rowKey = Some b ∧ ETag b = nextETag s ∧ last s' !! rowKey = Some (nextETag s) ∧
     Body b = match q_body q with QBytes b => b | _ => [] end) ∧
  q_IfMatch q = match Blobs s !! rowKey with Some x => FormatETag (ETag x) | None => IfMatchCreateOnly end.
Proof.
  set (first := if continues then continuedRevision s scope id else 1%Z).
  replace (servePut continues s scope id q at_) with (putBlob first s scope id q at_) by (unfold servePut, first; by destruct continues).
  unfold putBlob, refusedPut, nextETag, refuses, keeps_answers. fold rowKey first. rewrite (proj2 (String.eqb_neq scope "chat") Hchat).
  cbn [andb]. destruct (String.eqb (q_IfMatch q) ""); [intros [= <- <-]; by left|].
  destruct (_ && _ && _ && _); [intros [= <- <-]; by left|].
  destruct (Blobs s !! rowKey) as [x|] eqn:Hx.
  all: match goal with |- context [negb ?e] => destruct e eqn:Heq end; cbn [negb]; [|intros [= <- <-]; by left].
  all: apply String.eqb_eq in Heq; intros [= <- <-]; right; cbn; split_and!; try done; eexists; by rewrite !lookup_insert_eq.
Qed.

Lemma handleDelete_spec s q s' r : handleDeleteBlob s scope id q = (s', r) →
  refuses s s' r ∨
  keeps_answers s s' r ∧ Blobs s' !! rowKey = None ∧ last s' = last s ∧ is_Some (Blobs s !! rowKey).
Proof.
  unfold handleDeleteBlob, refuses, keeps_answers. fold rowKey. rewrite (proj2 (String.eqb_neq scope "chat") Hchat).
  destruct (String.eqb (q_IfMatch q) ""); [intros [= <- <-]; by left|].
  destruct (Blobs s !! rowKey) as [x|] eqn:Hx; [|intros [= <- <-]; by left].
  destruct (negb _); [intros [= <- <-]; by left|]. intros [= <- <-]. right. cbn. split_and!; try done.
  by rewrite lookup_delete_eq.
Qed.

Lemma handleRewrap_spec s q kid etag body s' r : q_body q = QRewrap scope id kid etag body → handleRewrap s q = (s', r) →
  refuses s s' r ∨
  keeps_answers s s' r ∧
  ∃ x b, Blobs s !! rowKey = Some x ∧ etag = FormatETag (ETag x) ∧ Blobs s' !! rowKey = Some b ∧ ETag b = (ETag x + 1)%Z ∧
    Body b = body ∧ last s' !! rowKey = Some (ETag b) ∧
    ∃ a, Content r = Json a ∧ a_etag a = FormatETag (ETag b).
Proof.
  unfold handleRewrap, refuses, keeps_answers. intros ->. fold rowKey.
  destruct (Blobs s !! rowKey) as [x|] eqn:Hx; [|intros [= <- <-]; by left].
  destruct (negb _) eqn:Heq; [intros [= <- <-]; by left|]. apply negb_false_iff, String.eqb_eq in Heq.
  intros [= <- <-]. right. cbn. split_and!; try done. eexists x, _. rewrite !lookup_insert_eq. split_and!; try done. by eexists.
Qed.

(** Under an idempotency key: refused, answered as before, or done now. *)
Lemma idempotent_spec change s q s' r : q_user q = user → q_Idempotency q ≠ ""%string → idempotent change s q = (s', r) →
  refuses s s' r ∨
  (∃ a, answered s !! ledgerKey (q_Idempotency q) = Some a ∧ i_method a = q_method q ∧ s' = s ∧
     Content r = i_body a) ∨
  answered s !! ledgerKey (q_Idempotency q) = None ∧ ∃ s1, change s q = (s1, r) ∧
    s' = if bool_decide (Z.quot (Status r) 100 = 2)%Z
         then s1 <| answered ::= <[ledgerKey (q_Idempotency q) :=
                mkIdempotent (q_method q) (q_path q) (q_OperationHash q) (Status r) (h_ETag (Header r)) (Content r)]> |>
         else s1.
Proof.
  intros Hu Hn. unfold idempotent, refuses. rewrite (proj2 (String.eqb_neq _ _) Hn). unfold idempotencyKey. rewrite Hu.
  destruct (String.eqb (q_OperationHash q) ""); [intros [= <- <-]; by left|].
  fold (ledgerKey (q_Idempotency q)). destruct (answered s !! _) as [a|] eqn:Ha.
  - destruct (_ && _) eqn:Hm; intros [= <- <-]; [|by left]. right. left. exists a. apply andb_true_iff in Hm as [[Hm _]%andb_true_iff _].
    apply String.eqb_eq in Hm. by split_and!.
  - destruct (change s q) as [s1 r1] eqn:Hc. intros H. right. right. split; [done|]. exists s1.
    destruct (bool_decide _) eqn:H2; injection H as <- <-; by rewrite ?H2.
Qed.

Definition facts_at (h : list version) (ids : gmap string nat) (i : nat) : facts :=
  mkFacts (λ b, b ∈ revisions h) (λ nonce, ∃ b, mkVersion b (By i nonce) ∈ h) (λ u, ids !! u = Some i).
(** The history after the service's state changed. *)
Definition grown (s s' : Store) (h : list version) (m : maker) : list version :=
  if bool_decide (Blobs s !! rowKey = Blobs s' !! rowKey) then h else mkVersion (Blobs s' !! rowKey) m :: h.
Lemma grown_nothing s h m : grown s s h m = h.
Proof. unfold grown. by rewrite bool_decide_true. Qed.

Lemma mine_nonempty f s : mine f s → s ≠ ""%string.
Proof. intros (u & _ & Hl & [->|[k ->]]); destruct u; done. Qed.

Lemma refused_ok s h calls ids i q s' r : history s h calls ids → refuses s s' r →
  history s' (grown s s' h (maker_of i q)) calls ids ∧
  told (facts_at (grown s s' h (maker_of i q)) ids i) q (Replied r).
Proof. intros Hh [-> Ho]. rewrite grown_nothing. split; [done|by apply told_failure]. Qed.

(** An answer of before is this call's own. *)
Lemma replayed_made s h calls ids i q a r : history s h calls ids → q_method q = "PUT" ∨ q_method q = "DELETE" →
  mine (facts_at h ids i) (q_Idempotency q) → answered s !! ledgerKey (q_Idempotency q) = Some a → i_method a = q_method q →
  told (facts_at h ids i) q r.
Proof.
  intros Hh Hq (u & Hu & Hl & Hn) Ha Hm. apply told_made; [done|].
  destruct (h_ledger _ _ _ _ Hh _ _ Ha) as (nonce & Hk & Hr). apply ledgerKey_inj in Hk as <-.
  destruct Hr as [j b _ Hin|kid b b' ans Hm']; [|destruct Hq; congruence].
  destruct (h_by _ _ _ _ Hh _ _ _ Hin) as (_ & v & Hv & Hl' & Hn').
  assert (u = v) as <- by by eapply nonce_owner. cbn [O facts_at] in Hu. assert (j = i) as -> by congruence.
  by exists b.
Qed.

Lemma answer_new s s1 nonce a : answered s !! ledgerKey nonce = None → answered s1 = answered s →
  answered s ⊆ answered (s1 <| answered ::= <[ledgerKey nonce := a]> |>) ∧
  answered (s1 <| answered ::= <[ledgerKey nonce := a]> |>) !! ledgerKey nonce = Some a ∧
  ∀ k b, answered (s1 <| answered ::= <[ledgerKey nonce := a]> |>) !! k = Some b →
    answered s !! k = Some b ∨ k = ledgerKey nonce ∧ b = a.
Proof.
  intros Hn He. cbn. rewrite He. split_and!; [by apply insert_subseteq|by rewrite lookup_insert_eq|].
  intros k b Hk. destruct (decide (k = ledgerKey nonce)) as [->|Hne].
  - rewrite lookup_insert_eq in Hk. injection Hk as <-. by right.
  - rewrite lookup_insert_ne in Hk by done. by left.
Qed.

(** A call's change made now. *)
Lemma made_now s s1 h calls ids i q r a :
  history s h calls ids → mine (facts_at h ids i) (q_Idempotency q) → q_method q = "PUT" ∨ q_method q = "DELETE" →
  answered s !! ledgerKey (q_Idempotency q) = None → answered s1 = answered s → i_method a = q_method q →
  last s1 !! rowKey = (match Blobs s1 !! rowKey with Some b => Some (ETag b) | None => last s !! rowKey end) →
  (∀ b, Blobs s1 !! rowKey = Some b → (1 ≤ ETag b)%Z ∧ sound (Body b) ∧ ∀ e, last s !! rowKey = Some e → (e < ETag b)%Z) →
  changed calls (latest h) (mkVersion (Blobs s1 !! rowKey) (By i (q_Idempotency q))) →
  Blobs s !! rowKey ≠ Blobs s1 !! rowKey → (removals = false → Blobs s1 !! rowKey ≠ None) →
  let s' := s1 <| answered ::= <[ledgerKey (q_Idempotency q) := a]> |> in
  history s' (grown s s' h (maker_of i q)) calls ids ∧ told (facts_at (grown s s' h (maker_of i q)) ids i) q r.
Proof.
  intros Hh Hmine Hq Hnone Hans Hm Hlast Hb Hch Hne Hkept s'.
  destruct (answer_new s s1 (q_Idempotency q) a Hnone Hans) as (Hsub & Hsome & Hk).
  assert (maker_of i q = By i (q_Idempotency q)) as -> by (unfold maker_of; by destruct Hq as [->| ->]).
  assert (grown s s' h (By i (q_Idempotency q)) = mkVersion (Blobs s1 !! rowKey) (By i (q_Idempotency q)) :: h) as ->
    by (unfold grown; rewrite bool_decide_false by done; done).
  split.
  - eapply history_push; cbn [v_blob v_by]; try done.
    + intros j nonce [= -> <-]. split_and!; [done|by eexists|]. destruct Hmine as (u & Hu & Hl & Hn). by exists u.
    + intros k b Hkb. destruct (Hk k b Hkb) as [Hold|[-> ->]]; [by left|]. right. exists (q_Idempotency q). split; [done|].
      eapply remembered_made; [by rewrite Hm|]. by left.
  - apply told_made; [done|]. eexists. by left.
Qed.

Lemma FormatETag_one n : (1 ≤ n)%Z → FormatETag n ≠ IfMatchCreateOnly.
Proof. intros Hn H. change IfMatchCreateOnly with (FormatETag 0) in H. apply (inj pretty) in H. lia. Qed.

Lemma holds_sound b d : holds b d → (Z.of_nat (length b) ≤ maxBlobBytes)%Z → sound b.
Proof. intros [_ Hh] Hl. split; [done|]. intros x y Hx Hy. by rewrite (Hh x), (Hh y). Qed.

Lemma not_both r : outage (Replied r) = true → Z.quot (Status r) 100 ≠ 2%Z.
Proof.
  intros Ho%bool_decide_eq_true H2. assert (4 ≤ Z.quot (Status r) 100)%Z; [|lia].
  apply Z.quot_le_lower_bound; lia.
Qed.

Lemma serve_put s h calls ids i c path kid ifMatch nonce hash protocol body d prev at_ s' r :
  history s h calls ids → calls i = Some c → (Z.of_nat (length body) ≤ maxBlobBytes)%Z →
  mine (facts_at h ids i) nonce → holds body d → makes c prev (Some d) →
  match prev with Some b => b ∈ revisions h ∧ ifMatch = FormatETag (ETag b) | None => ifMatch = IfMatchCreateOnly end →
  let q := mkRequest "PUT" path (RBlob scope id) user kid ifMatch nonce hash protocol false "" None None (QBytes body) in
  ServeHTTP continues s q at_ = (s', r) →
  history s' (grown s s' h (maker_of i q)) calls ids ∧ told (facts_at (grown s s' h (maker_of i q)) ids i) q (Replied r).
Proof.
  intros Hh Hc Hlen Hmine Hholds Hmakes Hprev q Hserve. change (ServeHTTP continues s q at_) with
    (idempotent (λ s q, servePut continues s scope id q at_) s q) in Hserve.
  apply idempotent_spec in Hserve as [Href|[(a & Ha & Hm & -> & _)|(Hnone & s1 & Hput & ->)]];
    [by eapply refused_ok| | |done|by eapply mine_nonempty].
  { rewrite grown_nothing. split; [done|]. eapply replayed_made; [done|by left|done..]. }
  apply servePut_spec in Hput as [[-> Ho]|((Hans & H2) & (b & Hb & Het & Hl & Hbody) & Hmatch)].
  { rewrite bool_decide_false by by apply not_both. by eapply refused_ok. }
  rewrite bool_decide_true by done. destruct (nextETag_fresh _ _ _ _ Hh) as [Hpos Hfresh].
  assert (Hlatest : latest h = prev).
  { rewrite <- (h_head _ _ _ _ Hh). cbn [q_IfMatch q] in Hmatch.
    pose proof (h_good _ _ _ _ Hh) as Hgood. rewrite Forall_forall in Hgood.
    assert (Hin : ∀ x, Blobs s !! rowKey = Some x → x ∈ revisions h).
    { intros x Hx. rewrite (h_head _ _ _ _ Hh) in Hx. by apply head_in, latest_head. }
    destruct (Blobs s !! rowKey) as [x|] eqn:Hx, prev as [y|]; [|..|done].
    - destruct Hprev as [Hy ->]. apply (inj pretty) in Hmatch. f_equal. eapply sorted_unique; [apply Hh|auto..|done].
    - rewrite Hmatch in Hprev. by eapply FormatETag_one in Hprev; [|by apply Hgood, Hin].
    - destruct Hprev as [Hy ->]. by eapply FormatETag_one in Hmatch; [|by apply Hgood]. }
  cbn [q_body q] in Hbody. eapply made_now; try done; [by left|..]; rewrite ?Hb.
  - by rewrite Hl, Het.
  - intros b' [= <-]. rewrite Het, Hbody. split_and!; [done|by eapply holds_sound|done].
  - exists c. cbn [v_blob]. rewrite Hlatest, Hbody. eauto.
  - rewrite (h_head _ _ _ _ Hh). intros Hsame. apply latest_head in Hsame. pose proof (h_last _ _ _ _ Hh) as Hlast.
    rewrite Hsame in Hlast. specialize (Hfresh _ Hlast). lia.
  - done.
Qed.

Lemma serve_delete s h calls ids i c p key path ifMatch nonce hash at_ s' r :
  history s h calls ids → calls i = Some c → c = CRemove p key → removals = true → mine (facts_at h ids i) nonce →
  let q := mkRequest "DELETE" path (RBlob scope id) user "" ifMatch nonce hash "" false "" None None QNone in
  ServeHTTP continues s q at_ = (s', r) →
  history s' (grown s s' h (maker_of i q)) calls ids ∧ told (facts_at (grown s s' h (maker_of i q)) ids i) q (Replied r).
Proof.
  intros Hh Hc Hrem Hdel' Hmine q Hserve. change (ServeHTTP continues s q at_) with
    (idempotent (λ s q, handleDeleteBlob s scope id q) s q) in Hserve.
  apply idempotent_spec in Hserve as [Href|[(a & Ha & Hm & -> & _)|(Hnone & s1 & Hdel & ->)]];
    [by eapply refused_ok| | |done|by eapply mine_nonempty].
  { rewrite grown_nothing. split; [done|]. eapply replayed_made; [done|by right|done..]. }
  apply handleDelete_spec in Hdel as [[-> Ho]|((Hans & H2) & Hb & Hl & [x Hx])].
  { rewrite bool_decide_false by by apply not_both. by eapply refused_ok. }
  rewrite bool_decide_true by done.
  eapply made_now; try done; [by right|..]; rewrite ?Hb, ?Hl; try done.
  - exists c. subst c. split; [done|]. cbn. by rewrite <- (h_head _ _ _ _ Hh), Hx.
  - by rewrite Hx.
  - congruence.
Qed.

Lemma serve_rewrap s h calls ids i kid b d hash body at_ s' r :
  history s h calls ids → (Z.of_nat (length body) ≤ maxBlobBytes)%Z → String.length kid = 32 →
  b ∈ revisions h → holds (Body b) d → holds body d →
  let q := mkRequest "POST" RewrapPath RRewrap user "" "" (rewrapNonce kid (FormatETag (ETag b))) hash "" false "" None None
             (QRewrap scope id kid (FormatETag (ETag b)) body) in
  ServeHTTP continues s q at_ = (s', r) →
  history s' (grown s s' h (maker_of i q)) calls ids ∧ told (facts_at (grown s s' h (maker_of i q)) ids i) q (Replied r).
Proof.
  intros Hh Hlen Hkid Hb Hd Hbody q Hserve. change (ServeHTTP continues s q at_) with (idempotent handleRewrap s q) in Hserve.
  apply idempotent_spec in Hserve as [Href|[(a & Ha & Hm & -> & Hcon)|(Hnone & s1 & Hre & ->)]];
    [by eapply refused_ok| | |done|done].
  { rewrite grown_nothing. split; [done|]. destruct (h_ledger _ _ _ _ Hh _ _ Ha) as (nonce & Hk & Hr).
    apply ledgerKey_inj in Hk as <-.
    destruct Hr as [j b0 [Hm'|Hm'] _|kid' b0 b' ans _ Hk' Hn Hb0 Hb' Hans He Hkeep]; [cbn in Hm; congruence..|].
    apply rewrapNonce_inj in Hn as [<- He0]; [|congruence]. apply (inj pretty) in He0.
    assert (b0 = b) as -> by by eapply sorted_unique; [apply Hh|..].
    eapply told_resealed; [done|done|exact Hb|exact Hb'| |done]. intros a' Ha'. rewrite Hcon, Hans in Ha'. by injection Ha' as <-. }
  eapply handleRewrap_spec in Hre as [[-> Ho]|((Hans & H2) & x & b' & Hx & Het & Hb' & Hn & Hbd & Hl & a & Ha & Hae)]; [| |done].
  { cbn beta in *. rewrite bool_decide_false by by apply not_both. by eapply refused_ok. }
  rewrite bool_decide_true by done. rewrite (h_head _ _ _ _ Hh) in Hx. pose proof (latest_head _ _ Hx) as Hhead.
  apply (inj pretty) in Het. assert (b = x) as <- by (eapply sorted_unique; [apply Hh|done|by apply head_in|done]).
  assert (Hkeep : ∀ z, holds (Body b) z → holds (Body b') z).
  { intros z [Hz _]. destruct Hd as [_ Hd]. rewrite (Hd z Hz), Hbd. done. }
  pose proof (h_good _ _ _ _ Hh) as Hgood. rewrite Forall_forall in Hgood. destruct (Hgood b Hb) as [Hpos _].
  pose proof (h_last _ _ _ _ Hh) as Hlast. rewrite Hhead in Hlast. cbn [fmap option_fmap option_map] in Hlast.
  destruct (answer_new s s1 (q_Idempotency q)
    (mkIdempotent (q_method q) (q_path q) (q_OperationHash q) (Status r) (h_ETag (Header r)) (Content r)) Hnone Hans)
    as (Hsub & Hsome & Hk).
  set (s' := s1 <| answered ::= _ |>) in *.
  assert (Hg : grown s s' h (maker_of i q) = mkVersion (Some b') (Resealed i) :: h).
  { unfold grown. change (Blobs s' !! rowKey) with (Blobs s1 !! rowKey). rewrite Hb', (h_head _ _ _ _ Hh), Hx.
    rewrite bool_decide_false; [done|]. intros [= ->]. lia. }
  rewrite Hg. assert (Hin : b' ∈ revisions (mkVersion (Some b') (Resealed i) :: h)) by (apply revisions_cons; by left).
  assert (Hin' : b ∈ revisions (mkVersion (Some b') (Resealed i) :: h)) by (apply revisions_cons; by right).
  split.
  - eapply history_push; cbn [v_blob v_by]; try done.
    + intros z [= <-]. rewrite Hbd, Hn. split_and!; [lia|by eapply holds_sound|]. intros e He. rewrite Hlast in He. injection He as <-. lia.
    + exists b, b'. by rewrite Hx.
    + intros k z Hkz. destruct (Hk k z Hkz) as [Hold|[-> ->]]; [by left|]. right. exists (q_Idempotency q). split; [done|].
      by eapply (remembered_reseal _ _ _ kid b b' a).
  - eapply told_resealed; [done|done|exact Hin'|exact Hin| |done]. intros a' Ha'. rewrite Ha in Ha'. by injection Ha' as <-.
Qed.

Lemma serve_ok s h calls ids i c q at_ s' r :
  history s h calls ids → calls i = Some c → sends c (facts_at h ids i) q → small q = true →
  ServeHTTP continues s q at_ = (s', r) →
  history s' (grown s s' h (maker_of i q)) calls ids ∧ told (facts_at (grown s s' h (maker_of i q)) ids i) q (Replied r).
Proof.
  intros Hh Hc Hs Hsmall Hserve.
  destruct Hs as [path|path|path kid ifMatch nonce hash protocol body d prev Hp Hmine Hbody Hmakes Hprev|
    path ifMatch nonce hash Hp Hmine (p & key & Hrem) Hdel|kid b d hash body Hkid Hb Hd Hbody].
  - injection Hserve as <- <-. rewrite grown_nothing. split; [done|]. unfold handleGetBlob. fold rowKey.
    rewrite (proj2 (String.eqb_neq scope "chat") Hchat). rewrite (h_head _ _ _ _ Hh).
    destruct (latest h) as [b|] eqn:Hb; [|by apply told_failure].
    pose proof (head_in _ _ (latest_head _ _ Hb)) as Hin. pose proof (h_good _ _ _ _ Hh) as Hg.
    rewrite Forall_forall in Hg. destruct (Hg b Hin) as [_ Hsound]. by eapply (told_blob _ _ _ b).
  - injection Hserve as <- <-. rewrite grown_nothing. split; [done|]. by apply told_key.
  - eapply serve_put; try done. by apply bool_decide_eq_true in Hsmall.
  - by eapply serve_delete.
  - eapply serve_rewrap; try done. by apply bool_decide_eq_true in Hsmall.
Qed.

(** ** Every action keeps the invariant *)

Lemma runs_mono w w' i c : facts_of w i ⊑f facts_of w' i → sent w ⊆ sent w' → runs w i c → runs w' i c.
Proof.
  intros Hf Hs [(f & Hle & Hp) Hw]. split; [exists f; split; [by eapply more_trans|done]|].
  intros n Hn. destruct (Hw n Hn) as (q & k & Hq & Hsent). exists q, k. split; [done|]. by eapply lookup_weaken.
Qed.

Lemma inv_frame w w' :
  Inv w → history (cp w') (hist w') (call_of w') (drawn w') → (∀ i, facts_of w i ⊑f facts_of w' i) →
  (∀ i c, call_of w i = Some c → call_of w' i = Some c) → sent w ⊆ sent w' → next w ≤ next w' →
  (∀ i c, clients w' !! i = Some c → clients w !! i = Some c ∨ runs w' i c) →
  (∀ n i q, sent w' !! n = Some (i, q) → sent w !! n = Some (i, q) ∨
     n < next w' ∧ ∃ c, call_of w' i = Some c ∧ sends c (facts_of w' i) q) →
  (∀ n r, replies w' !! n = Some r → replies w !! n = Some r ∨
     ∃ i q, sent w' !! n = Some (i, q) ∧ told (facts_of w' i) q (Replied r)) → Inv w'.
Proof.
  intros [Hh Hc Hs Hr] Hh' Hf Hcalls Hsub Hle Hc' Hs' Hr'. split; [done|..].
  - intros i c Hi. destruct (Hc' i c Hi) as [Hold|]; [|done]. eapply runs_mono; eauto.
  - intros n i q Hn. destruct (Hs' n i q Hn) as [Hold|]; [|done]. destruct (Hs n i q Hold) as (Hlt & c & Hi & Hq).
    split; [lia|]. exists c. split; [auto|]. by eapply sends_mono.
  - intros n r Hn. destruct (Hr' n r Hn) as [Hold|]; [|done]. destruct (Hr n r Hold) as (i & q & Hq & Ht).
    exists i, q. split; [by eapply lookup_weaken|]. by eapply told_mono.
Qed.

Lemma call_of_alter w i g :
  (∀ c, cl_call (g c) = cl_call c) → ∀ j, cl_call <$> alter g i (clients w) !! j = call_of w j.
Proof.
  intros Hg j. unfold call_of. destruct (decide (j = i)) as [->|]; [|by rewrite lookup_alter_ne].
  rewrite lookup_alter_eq. destruct (clients w !! i); cbn; [by rewrite Hg|done].
Qed.

(** A call goes on, having learnt what is so. *)
Lemma inv_go w i c p :
  Inv w → clients w !! i = Some c → (∃ f, f ⊑f facts_of w i ∧ ensures (cl_call c) f p (finishes (cl_call c))) →
  Inv (go_on w i p).
Proof.
  intros Hinv Hi Hp.
  assert (Hcalls : ∀ j, call_of (go_on w i p) j = call_of w j) by (apply call_of_alter; done).
  eapply (inv_frame w); try done.
  - eapply history_mono; [|reflexivity|apply Hinv]. intros j d. by rewrite Hcalls.
  - intros j d. by rewrite Hcalls.
  - intros j d Hj. cbn in Hj. destruct (decide (j = i)) as [->|Hne]; [|rewrite lookup_alter_ne in Hj by done; by left].
    rewrite lookup_alter_eq, Hi in Hj. injection Hj as <-. right. split; [done|]. by intros n [=].
  - by left.
  - by left.
Qed.

Lemma wp_step {A} c f g (q : request) (k : reply → prog A) P r :
  ensures c f (Send q k) P → f ⊑f g → unique g → told g q r → ensures c g (k r) P.
Proof.
  intros [_ Hk] Hg Hu Hr. eapply wp_mono; [by apply Hk|]. cbn beta. intros h a Hh [_ HP]. by split.
Qed.

Lemma inv_replied w i c n q k r :
  Inv w → clients w !! i = Some c → cl_wait c = Some n → cl_prog c = Send q k →
  (∀ q', sent w !! n = Some (i, q') → told (facts_of w i) q' r) → Inv (go_on w i (k r)).
Proof.
  intros Hinv Hi Hw Hp Hr. destruct (i_clients _ Hinv _ _ Hi) as [(f & Hf & Hens) Hwait].
  destruct (Hwait n Hw) as (q' & k' & Hq' & Hs). rewrite Hp in Hq'. injection Hq' as <- <-.
  eapply inv_go; [done..|]. exists (facts_of w i). split; [apply more_refl|]. rewrite Hp in Hens.
  eapply wp_step; [exact Hens|done|eapply facts_unique, Hinv|by apply Hr].
Qed.

(** What a reader is told of a body that broke off is that it did. *)
Lemma told_cut f q r b : told f q (Replied r) → told f q (Replied (r <| Content := Bytes b |> <| cut := true |>)).
Proof.
  intros [Ho|x resp [= <-] Hm Hq Hx _|H|H Hn|resp x x' kid body [= <-] Hq Hx Hx' Ha Hk].
  - by apply told_failure.
  - by eapply told_blob.
  - by apply told_key.
  - by apply told_made.
  - by eapply told_resealed.
Qed.

Lemma ensures_from {A} c f f0 (p : prog A) P : wp c p f (λ g a, f0 ⊑f g ∧ P g a) → ensures c f p P.
Proof. intros Hp. eapply wp_mono; [exact Hp|]. cbn beta. intros g a Hg [_ HP]. by split. Qed.

Lemma facts_grow h h' ids ids' i : (∃ l, h' = l ++ h) → ids ⊆ ids' → facts_at h ids i ⊑f facts_at h' ids' i.
Proof.
  intros [l ->] Hi. split_and!; cbn.
  - intros b Hb. unfold revisions in *. rewrite omap_app. apply elem_of_app. by right.
  - intros s [b Hb]. exists b. apply elem_of_app. by right.
  - intros u Hu. by eapply lookup_weaken.
Qed.
Lemma grown_app s s' h m : ∃ l, grown s s' h m = l ++ h.
Proof. unfold grown. case_bool_decide; [by exists []|by eexists [_]]. Qed.

Lemma served_hist w s m : hist (served w s m) = grown (cp w) s (hist w) m.
Proof. unfold served, grown. by case_bool_decide. Qed.
Lemma served_rest w s m :
  cp (served w s m) = s ∧ clients (served w s m) = clients w ∧ sent (served w s m) = sent w ∧
  replies (served w s m) = replies w ∧ drawn (served w s m) = drawn w ∧ next (served w s m) = next w.
Proof. unfold served. by case_bool_decide. Qed.

(** The service's state changes. *)
Lemma inv_served w w' s m :
  Inv w → history s (grown (cp w) s (hist w) m) (call_of w) (drawn w) →
  cp w' = s → hist w' = grown (cp w) s (hist w) m → clients w' = clients w → sent w' = sent w → drawn w' = drawn w →
  next w' = next w →
  (∀ n r, replies w' !! n = Some r → replies w !! n = Some r ∨
     ∃ i q, sent w' !! n = Some (i, q) ∧ told (facts_of w' i) q (Replied r)) → Inv w'.
Proof.
  intros Hinv Hh Hcp Hhist Hcl Hs Hd Hn Hr.
  eapply (inv_frame w); try done; unfold call_of in *; rewrite ?Hcp, ?Hhist, ?Hcl, ?Hs, ?Hd, ?Hn; try done; try (by left).
  intros i. unfold facts_of. rewrite Hhist, Hd. apply facts_grow; [apply grown_app|done].
  all: naive_solver.
Qed.

Lemma other_write_ok s h calls ids b kid at_ : history s h calls ids → sound b →
  history (write s b kid at_) (grown s (write s b kid at_) h Other) calls ids.
Proof.
  intros Hh Hb. destruct (nextETag_fresh _ _ _ _ Hh) as [Hpos Hfresh]. pose proof (h_last _ _ _ _ Hh) as Hl.
  assert (Hblob : Blobs (write s b kid at_) !! rowKey = Some (mkBlob (nextETag s) kid b false None at_ None None))
    by (cbn; by rewrite lookup_insert_eq).
  unfold grown. rewrite Hblob, (h_head _ _ _ _ Hh). rewrite bool_decide_false.
  2:{ intros Hx%latest_head. rewrite Hx in Hl. specialize (Hfresh _ Hl). cbn in Hfresh. lia. }
  eapply history_push; cbn [v_blob v_by]; try done.
  - cbn. by rewrite lookup_insert_eq.
  - by intros x [= <-].
  - intros k a Ha. by left.
Qed.
Lemma erase_ok s h calls ids : removals = true → history s h calls ids →
  history (s <| Blobs ::= delete rowKey |>) (grown s (s <| Blobs ::= delete rowKey |>) h Other) calls ids.
Proof.
  intros Hrem Hh. unfold grown. case_bool_decide as Heq; [by eapply history_same|].
  assert (Hblob : Blobs (s <| Blobs ::= delete rowKey |>) !! rowKey = None) by (cbn; by rewrite lookup_delete_eq).
  rewrite Hblob. eapply history_push; cbn [v_blob v_by]; try done; [congruence|]. intros k a Ha. by left.
Qed.

(** The client an action is of. *)
Tactic Notation "of_client" hyp(Hex) ident(c) ident(Hi) :=
  cbn [exec] in Hex;
  match type of Hex with context [clients ?w !! ?i] => destruct (clients w !! i) as [c|] eqn:Hi; [|discriminate Hex] end;
  cbn [mbind option_bind] in Hex.

(** A step of a call's own. *)
Lemma inv_own w i c p :
  Inv w → clients w !! i = Some c →
  (∀ f, ensures (cl_call c) f (cl_prog c) (finishes (cl_call c)) → ensures (cl_call c) f p (finishes (cl_call c))) →
  Inv (go_on w i p).
Proof.
  intros Hinv Hi Hp. destruct (i_clients _ Hinv _ _ Hi) as [(f & Hf & Hens) _]. eapply inv_go; [done..|]. eauto.
Qed.

Lemma served_ok w n at_ w' : Inv w → exec w (AServe n at_) = Some w' → Inv w'.
Proof.
  intros Hinv Hex. cbn [exec] in Hex. destruct (sent w !! n) as [[i q]|] eqn:Hn; [|done]. cbn [mbind option_bind] in Hex.
  destruct (bool_decide (n ∈ net w) && small q) eqn:Hsmall; [|done]. apply andb_true_iff in Hsmall as [_ Hsmall].
  destruct (ServeHTTP continues (cp w) q at_) as [s r] eqn:Hserve. injection Hex as <-.
  destruct (i_sent _ Hinv _ _ _ Hn) as (_ & c & Hc & Hq).
  destruct (serve_ok _ _ _ _ _ _ _ _ _ _ (i_history _ Hinv) Hc Hq Hsmall Hserve) as [Hh Ht].
  destruct (served_rest w s (maker_of i q)) as (H1 & H2 & H3 & H4 & H5 & H6).
  pose proof (served_hist w s (maker_of i q)) as H7.
  eapply (inv_served w); try done. intros n' r' Hr'. cbn in Hr'.
  destruct (decide (n' = n)) as [->|Hne]; [|rewrite lookup_insert_ne, H4 in Hr' by done; by left].
  rewrite lookup_insert_eq in Hr'. injection Hr' as <-. right. exists i, q. cbn. rewrite H3. split; [done|].
  unfold facts_of. cbn. by rewrite H5, H7.
Qed.

Lemma called_ok w i c w' : Inv w → allowed (ACall i c) → exec w (ACall i c) = Some w' → Inv w'.
Proof.
  intros Hinv [Hp Hk] Hex. cbn [exec] in Hex. case_bool_decide as Hi; [|done]. injection Hex as <-.
  match goal with |- Inv ?x => set (w' := x) end.
  assert (Hcalls : ∀ j d, call_of w j = Some d → call_of w' j = Some d).
  { intros j d Hj. unfold call_of in *. cbn. rewrite lookup_insert_ne; [done|]. intros <-. by rewrite Hi in Hj. }
  eapply (inv_frame w); try done; [by eapply history_mono; [exact Hcalls|reflexivity|apply Hinv]|..|by left|by left].
  intros j d Hj. cbn in Hj. destruct (decide (j = i)) as [->|Hne]; [|rewrite lookup_insert_ne in Hj by done; by left].
  rewrite lookup_insert_eq in Hj. injection Hj as <-. right. split; [|by intros n [=]].
  exists (facts_of w i). split; [apply more_refl|]. apply program_ok; [done|]. by destruct c.
Qed.

Lemma sent_ok w i w' : Inv w → exec w (ASend i) = Some w' → Inv w'.
Proof.
  intros Hinv Hex. of_client Hex c Hi.
  destruct (cl_prog c) as [| |q k| | | |] eqn:Hp; try done. destruct (cl_wait c) eqn:Hw; [done|]. injection Hex as <-.
  match goal with |- Inv ?x => set (w' := x) end.
  assert (Hcalls : ∀ j, call_of w' j = call_of w j).
  { intros j. unfold call_of. cbn. destruct (decide (j = i)) as [->|Hne]; [by rewrite lookup_insert_eq, Hi|by rewrite lookup_insert_ne]. }
  assert (Hfresh : sent w !! next w = None).
  { destruct (sent w !! next w) as [[j q']|] eqn:Hn; [|done]. destruct (i_sent _ Hinv _ _ _ Hn). lia. }
  destruct (i_clients _ Hinv _ _ Hi) as [(f & Hf & Hens) _]. rewrite Hp in Hens. pose proof Hens as [Hsends _].
  eapply (inv_frame w); try done.
  - eapply history_mono; [|reflexivity|apply Hinv]. intros j d. by rewrite Hcalls.
  - intros j d. by rewrite Hcalls.
  - by apply insert_subseteq.
  - cbn. lia.
  - intros j d Hj. cbn in Hj. destruct (decide (j = i)) as [->|Hne]; [|rewrite lookup_insert_ne in Hj by done; by left].
    rewrite lookup_insert_eq in Hj. injection Hj as <-. right. split; [exists f; by rewrite <- Hp in Hens|].
    intros n [= <-]. exists q, k. split; [done|]. cbn. by rewrite lookup_insert_eq.
  - intros n j q' Hn. cbn in Hn. destruct (decide (n = next w)) as [->|Hne]; [|rewrite lookup_insert_ne in Hn by done; by left].
    rewrite lookup_insert_eq in Hn. injection Hn as <- <-. right. split; [cbn; lia|].
    exists (cl_call c). rewrite Hcalls. unfold call_of. rewrite Hi. split; [done|]. by eapply sends_mono.
  - by left.
Qed.

Lemma drawn_ok w i s w' : Inv w → exec w (ANewID i s) = Some w' → Inv w'.
Proof.
  intros Hinv Hex. of_client Hex c Hi.
  destruct (cl_prog c) as [| | | | |k|] eqn:Hp; try done. destruct (_ && _) eqn:Hs; [|done]. injection Hex as <-.
  apply andb_true_iff in Hs as [Hl%bool_decide_eq_true Hnone%bool_decide_eq_true].
  assert (Hw' : Inv (w <| drawn ::= <[s := i]> |>)).
  { eapply (inv_frame w); try done.
    - eapply history_mono; [|by apply insert_subseteq|apply Hinv]. done.
    - intros j. apply facts_grow; [by exists []|by apply insert_subseteq].
    - by left.
    - by left.
    - by left. }
  eapply (inv_go _ i c (k s)) in Hw'; [exact Hw'|done|].
  destruct (i_clients _ Hinv _ _ Hi) as [(f & Hf & Hens) _]. rewrite Hp in Hens.
  exists (drew f s). split; [|eapply ensures_from; by apply Hens].
  destruct Hf as (HF & HN & HO). split_and!; [done|done|]. cbn. intros t [->|Ht]; [by rewrite lookup_insert_eq|].
  apply HO in Ht. cbn in Ht. rewrite lookup_insert_ne; [done|]. intros <-. congruence.
Qed.

Lemma commit_inv_step w a w' : Inv w → step w a w' → Inv w'.
Proof.
  intros Hinv [Hal Hex]. destruct a as [i c|i|n at_|n|i cutAt|i r|i over|i b|i s|i t|b kid at_|].
  - by eapply called_ok.
  - by eapply sent_ok.
  - by eapply served_ok.
  - injection Hex as <-. destruct Hinv as [? ? ? ?]. by split.
  - of_client Hex c Hi.
    destruct (cl_wait c) as [n|] eqn:Hw; [|done]. cbn [mbind option_bind] in Hex.
    destruct (replies w !! n) as [r|] eqn:Hr; [|done]. cbn [mbind option_bind] in Hex.
    destruct (cl_prog c) as [| |q k| | | |] eqn:Hp; try done. injection Hex as <-.
    destruct (i_replies _ Hinv _ _ Hr) as (j & q' & Hs & Ht). eapply inv_replied; [done..|].
    intros q'' Hs'. rewrite Hs in Hs'. injection Hs' as -> ->. destruct cutAt; [by apply told_cut|done].
  - of_client Hex c Hi.
    destruct (cl_wait c) as [n|] eqn:Hw; [|done]. cbn [mbind option_bind] in Hex.
    destruct (cl_prog c) as [| |q k| | | |] eqn:Hp; try done. destruct (outage r) eqn:Ho; [|done]. injection Hex as <-.
    eapply inv_replied; [done..|]. intros. by apply told_failure.
  - of_client Hex c Hi.
    destruct (cl_prog c) as [| | |k| | |] eqn:Hp; try done. injection Hex as <-. eapply inv_own; [done..|].
    rewrite Hp. intros f Hens. apply Hens.
  - of_client Hex c Hi.
    destruct (cl_prog c) as [| | | |n k| |] eqn:Hp; try done. case_bool_decide; [|done]. injection Hex as <-.
    eapply inv_own; [done..|]. rewrite Hp. intros f Hens. by apply Hens.
  - by eapply drawn_ok.
  - of_client Hex c Hi.
    destruct (cl_prog c) as [| | | | | |k] eqn:Hp; try done. injection Hex as <-. eapply inv_own; [done..|].
    rewrite Hp. intros f Hens. apply Hens.
  - injection Hex as <-. pose proof (served_rest w (write (cp w) b kid at_) Other) as (H1 & H2 & H3 & H4 & H5 & H6).
    eapply (inv_served w); [done|by apply other_write_ok; [apply Hinv|]|done|apply served_hist|done..|].
    intros n r. rewrite H4. by left.
  - injection Hex as <-. pose proof (served_rest w ((cp w) <| Blobs ::= delete rowKey |>) Other) as (H1 & H2 & H3 & H4 & H5 & H6).
    eapply (inv_served w); [done|apply erase_ok; [done|apply Hinv]|done|apply served_hist|done..|].
    intros n r Hr. left. rewrite <- H4. exact Hr.
Qed.

Lemma inv_empty minimum : Inv (empty minimum).
Proof.
  split; [|done..]. split; try done; try (by constructor). by intros b i nonce Hin%not_elem_of_nil.
Qed.
Lemma commit_inv w : reach w → Inv w.
Proof. intros H. induction H as [w [minimum ->]|w a w' _ IH Hs]; [apply inv_empty|by eapply commit_inv_step]. Qed.

Lemma linked_at calls h l v h' : linked calls h → h = l ++ v :: h' → changed calls (latest h') v.
Proof. revert h. induction l as [|x l IH]; intros h Hk ->; [by destruct Hk|]. destruct Hk as [_ Hk]. by eapply IH. Qed.

(** C1. No update of a row that commits write is lost: the profile's, a
    project's or a document's, the scopes store.go gives [CommitRow] (no commit
    writes a chat's row).  The row is never deleted, or it is by a
    service that makes a row anew at a revision past the deleted one's, as
    store.go says the control plane does; the stub's count restarts at 1, and
    there an edit of the deleted row can be taken for one of the row made
    since.  Whatever the order in which the calls' requests
    are sent, delayed, lost, served and answered, failures on the way
    included: the row has its last version; each version that a call made is
    what that call's edit makes of exactly the version before it, as its body
    opens — or, for a removal, the end of a version that was there — and no
    idempotency key makes two; a version that a read's reseal made holds what
    the one before it held; a commit that returned no error made a version;
    and no call panics. *)
Theorem no_lost_update w : reach w →
  Blobs (cp w) !! rowKey = latest (hist w) ∧
  (∀ l v h, hist w = l ++ v :: h → changed (call_of w) (latest h) v) ∧
  NoDup (omap made_under (hist w)) ∧
  (∀ i c, clients w !! i = Some c →
     cl_prog c ≠ Panic ∧
     (cl_prog c = Ret (Ok tt) → if cl_call c is CCommit _ _ _ _ then ∃ b nonce, mkVersion b (By i nonce) ∈ hist w else True)).
Proof.
  intros Hr. destruct (commit_inv _ Hr) as [Hh Hc _ _]. split_and!.
  - apply Hh.
  - intros l v h Hl. eapply linked_at; [apply Hh|done].
  - apply Hh.
  - intros i c Hi. destruct (Hc i c Hi) as [(f & Hf & Hens) _]. split; intros Hp; rewrite Hp in Hens; [done|].
    destruct Hens as [_ Hfin]. destruct (cl_call c); [|done]. destruct (Hfin eq_refl) as [nonce Hn].
    destruct Hf as (_ & HN & _). destruct (HN _ Hn) as [b Hb]. by exists b, nonce.
Qed.
End Commit.

(** ** Two writers of one row

    Both read that it is not there; the second's push is refused, and it
    reads, edits and pushes again. *)
Section Witness.
#[local] Existing Instance Seal.toy_crypto.
#[local] Existing Instance Seal.toy_json.
#[local] Existing Instance toy_mac.

Definition add_member (name : string) (row : Grants.StoredRow) (_ : bool) : result err Grants.StoredRow :=
  Ok (row <| Grants.Data := (if bool_decide (Grants.Data row = []) then Seal.MarshalObject [] else Grants.Data row)
                              ++ Seal.toy_member (name, Seal.DNum "1") |>).
Lemma add_member_keeps name : keeps (add_member name).
Proof. intros row e row' [= <-]. done. Qed.

Definition toy_exec : World → action → option World :=
  exec (λ _, None) (λ _ _ _, Ret (Ok None)) true "project" "p1".
Fixpoint exec_all (w : World) (l : list action) : option World :=
  match l with [] => Some w | a :: l => w ← toy_exec w a; exec_all w l end.

Definition uuid (c : ascii) : string := string_of (replicate uuidLength c).
Definition committer (i : nat) (name : string) : action :=
  ACall i (CCommit (mkPrincipal "ann" None) (replicate 32 "k"%char) true (add_member name)).
(** Request [n], sent, served and answered. *)
Definition asks (i n : nat) : list action := [ASend i; AServe n 5%Z; AReply i None].
(** A row sealed, to be pushed. *)
Definition seals (i : nat) (c : ascii) : list action :=
  [ANewID i (uuid c); ADraw i (replicate KeySize c); ADraw i (replicate Seal.NonceSize "1"%char);
   ADraw i (replicate Seal.NonceSize "2"%char); AEnded i false].
Definition two_commits : list action :=
  [committer 0 "one"; committer 1 "two"] ++ asks 0 0 ++ asks 1 1 ++ seals 0 "a" ++ seals 1 "b" ++ asks 0 2 ++ asks 1 3 ++
  asks 1 4 ++ seals 1 "c" ++ asks 1 5.

Lemma run_reach l : ∀ w w', reach (λ _, None) (λ _ _ _, Ret (Ok None)) true true "ann" "project" "p1" w →
  Forall (allowed true "ann") l → exec_all w l = Some w' →
  reach (λ _, None) (λ _ _ _, Ret (Ok None)) true true "ann" "project" "p1" w'.
Proof.
  induction l as [|a l IH]; intros w w' Hr Hl He; [by injection He as <-|]. apply Forall_cons in Hl as [Ha Hl].
  cbn [exec_all] in He. destruct (toy_exec w a) as [w1|] eqn:Hx; [|done]. cbn [mbind option_bind] in He.
  eapply IH; [|done|exact He]. eapply reachable_step; [exact Hr|]. split; [exact Ha|exact Hx].
Qed.
Lemma two_commits_allowed : Forall (allowed true "ann") two_commits.
Proof.
  unfold two_commits. cbn [app asks seals].
  repeat (apply Forall_cons; split; [first [exact I | split; [reflexivity|apply add_member_keeps]]|]). constructor.
Qed.

Lemma no_lost_update_witness : ∃ w b0 b1,
  exec_all (empty 0) two_commits = Some w ∧
  hist w = [mkVersion (Some b1) (By 1 (uuid "c")); mkVersion (Some b0) (By 0 (uuid "a"))] ∧
  Blobs (cp w) !! Key "project" "p1" = Some b1 ∧
  (∃ d, holds (Body b1) d ∧ makes "p1" (default (CRemove (mkPrincipal "" None) []) (call_of w 1)) (Some b0) (Some d)).
Proof.
  assert (∃ b0 b1, hist <$> exec_all (empty 0) two_commits =
            Some [mkVersion (Some b1) (By 1 (uuid "c")); mkVersion (Some b0) (By 0 (uuid "a"))]) as (b0 & b1 & Hh)
    by (eexists _, _; vm_compute; reflexivity).
  destruct (exec_all (empty 0) two_commits) as [w|] eqn:Hr; [|discriminate Hh].
  injection Hh as Hh. exists w, b0, b1. split; [reflexivity|]. split; [exact Hh|].
  destruct (no_lost_update (λ _, None) (λ _ _ _, Ret (Ok None)) true true "ann" "project" "p1" Seal.toy_authentic
    ltac:(discriminate) ltac:(done) w) as (Hlast & Hch & _).
  { eapply run_reach; [apply reachable_init; by exists 0%Z|exact two_commits_allowed|exact Hr]. }
  split; [rewrite Hh in Hlast; exact Hlast|].
  specialize (Hch [] _ _ Hh). destruct Hch as (c & Hc & d & Hd & Hm). exists d. rewrite Hc. by split.
Defined.
End Witness.
End Commit.
