(* ===== verification/Indexing.v ===== *)
(** * The search index kept in step with the chats: internal/search
    search.go, chunks.go, writer.go, stored.go, index.go and query.go

    A chat's write leaves an update with its caller's writer, which takes
    the updates waiting into the caller's index and publishes it: a new
    object in the bucket, named by the control plane's record of what it
    covers.  A query is answered from the object the record names.  The
    goroutines of a process are programs over the bucket, the control plane
    and the process's own state. *)

From S2P Require Import Prelude GoStd Codec Chat Seal Grants Rows SearchIndex.
From stdpp Require Import pretty sorting.

Module Indexing.
Import GoStd Codec SearchIndex.

(** ** chunks.go *)

Definition docPrefix : string := "search_document: ".
Definition queryPrefix : string := "search_query: ".
Definition chunkChars : nat := 2000.

Definition truncateUTF8 (s : bytes) (n : Z) : bytes :=
  if bool_decide (n ≤ 0)%Z then []
  else if bool_decide (Z.of_nat (length s) ≤ n)%Z then s
  else
    let fix back (cut : nat) : nat :=
      match cut with
      | 0 => 0
      | S m => if bool_decide (Z.land (default 0 (byte_of <$> s !! cut)) 192 = 128)%Z then back m else cut
      end in
    take (back (Z.to_nat n)) s.

(** The chunks closed and the one being built. *)
Record chunking := mkChunking { ck_chunks : list bytes; ck_current : bytes }.
(** [flush], and whether there is room for another. *)
Definition flush (c : chunking) : chunking * bool :=
  match ck_current c with
  | [] => (c, true)
  | cur =>
      let chunks := ck_chunks c ++ [cur] in
      (mkChunking chunks [], bool_decide (Z.of_nat (length chunks) < MaxChunksPerChat)%Z)
  end.
Definition extended (c : chunking) (piece : bytes) : chunking :=
  mkChunking (ck_chunks c) (match ck_current c with [] => piece | cur => cur ++ "010"%char :: piece end).

(** The loop over a part; [true] when it returns the chunks.  A part of [n]
    bytes takes at most [2 * n] turns. *)
Fixpoint cutPart (fuel : nat) (part : bytes) (c : chunking) : chunking * bool :=
  match fuel, part with
  | 0, _ | _, [] => (c, false)
  | S fuel, part =>
      let cur := length (ck_current c) in
      if bool_decide (0 < cur) && bool_decide (Z.of_nat (length part) + 1 ≤ Z.of_nat chunkChars - Z.of_nat cur)%Z
      then (extended c part, false)
      else if bool_decide (0 < cur) && bool_decide (length part ≤ chunkChars) then
        let '(c, room) := flush c in if room : bool then cutPart fuel part c else (c, true)
      else
        let available := (Z.of_nat chunkChars - Z.of_nat cur - (if bool_decide (0 < cur)%nat then 1 else 0))%Z in
        let piece := truncateUTF8 part available in
        match piece with
        | [] => let '(c, room) := flush c in if room : bool then cutPart fuel part c else (c, true)
        | piece =>
            let c := extended c piece in
            let part := drop (length piece) part in
            match part with
            | [] => (c, false)
            | part => let '(c, room) := flush c in if room : bool then cutPart fuel part c else (c, true)
            end
        end
  end.
Fixpoint cutParts (parts : list bytes) (c : chunking) : list bytes :=
  match parts with
  | [] => ck_chunks (flush c).1
  | part :: parts =>
      let '(c, done) := cutPart (2 * length part) part c in
      if done : bool then ck_chunks c else cutParts parts c
  end.

Section Text.
Context `{JS : Seal.Json}.
(** [chatText], as [json.Unmarshal] reads it: the title, and each message's
    role and content. *)
Definition chatText (plaintext : bytes) : option (string * list (string * string)) :=
  chat ← Seal.members plaintext;
  title ← Rows.Rows.read_text (Rows.Rows.field chat "title");
  messages ← Rows.Rows.read_list (λ m,
    ms ← Rows.Rows.read_object m;
    role ← Rows.Rows.read_text (Rows.Rows.field ms "role");
    content ← Rows.Rows.read_text (Rows.Rows.field ms "content");
    Some (role, content)) (Rows.Rows.field chat "messages");
  Some (title, messages).

Definition chatChunks (plaintext : bytes) : list string :=
  match chatText plaintext with
  | None => []
  | Some (title, messages) =>
      let title := TrimSpace title in
      let parts := (if String.eqb title "" then [] else [title]) ++
        omap (λ m, let content := TrimSpace m.2 in
                   if negb (String.eqb content "") && negb (String.eqb m.1 Chat.Chat.CompactionRole) then Some content else None)
          messages in
      string_of <$> cutParts (bytes_of <$> parts) (mkChunking [] [])
  end.
End Text.

(** ** The control plane's record of the index: client.go, and stub.go as it
    keeps it *)

Record SearchIndexState := mkState {
  s_SourceRevision : Z;
  PublicationGeneration : Z;
  FenceGeneration : Z;
  PublishedSourceRevision : Z;
  ObjectKey : string;
  s_KeyID : string;
  s_Model : string;
  s_Incomplete : bool;
  PublicationIncomplete : bool;
}.
#[global] Instance SearchIndexState_eta : Eta SearchIndexState := λ s,
  mkState (s_SourceRevision s) (PublicationGeneration s) (FenceGeneration s) (PublishedSourceRevision s) (ObjectKey s)
    (s_KeyID s) (s_Model s) (s_Incomplete s) (PublicationIncomplete s).
Definition noState : SearchIndexState := mkState 0 0 0 0 "" "" "" false false.

Record PublishSearchIndexRequest := mkPublish {
  ExpectedGeneration : Z;
  ExpectedFence : Z;
  CoveredSourceRevision : Z;
  r_ObjectKey : string;
  r_KeyID : string;
  r_Model : string;
  r_Incomplete : bool;
}.

(** An error of the client: a status, a [SearchIndexConflictError], or none
    of the control plane's. *)
Inductive cerr := CStatus (status : Z) | CConflict (state : SearchIndexState) | COther.
Definition controlplaneStatus {A} (r : result cerr A) (status : Z) : bool :=
  match r with Err (CStatus s) => bool_decide (s = status) | _ => false end.
Definition isConflict (e : cerr) : bool := match e with CConflict _ => true | _ => false end.

(** Of the stub's [Store]: the record, the source revision, and the id of
    the registered key. *)
Record Source := mkSource { SearchState : SearchIndexState; SourceRevision_ : Z; CurrentKeyID : string }.
#[global] Instance Source_eta : Eta Source := λ s, mkSource (SearchState s) (SourceRevision_ s) (CurrentKeyID s).

Definition searchState (s : Source) : SearchIndexState :=
  let state := SearchState s in
  state <| s_SourceRevision := SourceRevision_ s |>
        <| s_Incomplete := PublicationIncomplete state || bool_decide (PublishedSourceRevision state < SourceRevision_ s)%Z |>.
Definition fenceSearchIndex (s : Source) : Source :=
  let state := searchState s in
  s <| SearchState := noState <| PublicationGeneration := (PublicationGeneration state + 1)%Z |>
                              <| FenceGeneration := (FenceGeneration state + 1)%Z |> <| PublicationIncomplete := true |> |>.

Definition objectKeyPrefix : string := "search-index-v1".
Definition maxSearchIndexObjectKeyLength : nat := 256.
Definition maxSearchIndexModelLength : nat := 128.
Definition isLowerHex32 (s : string) : bool := Nat.eqb (String.length s) 32 && forallb lower_hex (bytes_of s).

(** [searchIndexObjectKey]: the fence an object key names. *)
Fixpoint spanDigits (l : bytes) : bytes * bytes :=
  match l with
  | c :: l' => if is_digit c then let '(d, r) := spanDigits l' in (c :: d, r) else ([], l)
  | [] => ([], [])
  end.
Definition searchIndexObjectKey (key : string) : option string :=
  rest ← Grants.Grants.CutPrefix key (String.append objectKeyPrefix "-");
  let '(digits, rest) := spanDigits (bytes_of rest) in
  match digits, rest with
  | _ :: _, "-"%char :: hex => if isLowerHex32 (string_of hex) then Some (string_of digits) else None
  | _, _ => None
  end.

Definition handlePublishSearchIndex (s : Source) (req : PublishSearchIndexRequest) : Source * result cerr SearchIndexState :=
  let bad := (s, Err (CStatus 400)) in
  if bool_decide (ExpectedGeneration req < 0)%Z || bool_decide (ExpectedFence req < 0)%Z ||
     bool_decide (CoveredSourceRevision req < 0)%Z then bad
  else if bool_decide (maxSearchIndexObjectKeyLength < String.length (r_ObjectKey req)) then bad
  else
    match searchIndexObjectKey (r_ObjectKey req) with
    | None => bad
    | Some digits =>
        if negb (bool_decide (Atoi digits = Some (ExpectedFence req))) then bad
        else if negb (isLowerHex32 (r_KeyID req)) then bad
        else if String.eqb (TrimSpace (r_Model req)) "" || bool_decide (maxSearchIndexModelLength < String.length (r_Model req)) then bad
        else
          let state := searchState s in
          if negb (bool_decide (ExpectedGeneration req = PublicationGeneration state)) ||
             negb (bool_decide (ExpectedFence req = FenceGeneration state)) ||
             bool_decide (CoveredSourceRevision req < PublishedSourceRevision state)%Z ||
             bool_decide (s_SourceRevision state < CoveredSourceRevision req)%Z ||
             negb (String.eqb (r_KeyID req) (CurrentKeyID s))
          then (s, Err (CConflict state))
          else
            let s := s <| SearchState :=
              mkState 0 (PublicationGeneration state + 1) (FenceGeneration state) (CoveredSourceRevision req) (r_ObjectKey req)
                (r_KeyID req) (r_Model req) false
                (r_Incomplete req || bool_decide (CoveredSourceRevision req < s_SourceRevision state)%Z) |> in
            (s, Ok (searchState s))
    end.

(** ** A chat's update: stored.go *)

Record chatUpdate := mkUpdate {
  u_id : string;
  removed : bool;
  u_etag : string;
  u_at : Z;
  revision : Z;
  replaced : list Z;
  u_chunks : list string;
  u_tokens : list string;
}.
#[global] Instance chatUpdate_eta : Eta chatUpdate := λ u,
  mkUpdate (u_id u) (removed u) (u_etag u) (u_at u) (revision u) (replaced u) (u_chunks u) (u_tokens u).

Definition revisions (u : chatUpdate) : list Z :=
  if bool_decide (revision u ≤ 0)%Z then replaced u else revision u :: replaced u.

(** ** The writer: writer.go

    The deadline of its updates is left out: past it, every request fails.
    A channel is its number. *)

Record writer := mkWriter {
  pending : gmap string chatUpdate;
  waiting : nat;
  applied : option nat;
  ended_ : nat;
}.
#[global] Instance writer_eta : Eta writer := λ w, mkWriter (pending w) (waiting w) (applied w) (ended_ w).

Definition add (pending : gmap string chatUpdate) (u : chatUpdate) : gmap string chatUpdate :=
  let u := match pending !! u_id u with
           | Some prev =>
               let '(prev, u) :=
                 if bool_decide (revision u < revision prev)%Z && (bool_decide (0 < revision u)%Z || removed u)
                 then (u, prev) else (prev, u) in
               u <| replaced ::= λ r, r ++ revisions prev |>
           | None => u
           end in
  <[u_id u := u]> pending.

Definition maxOf (l : list Z) : Z := foldr Z.max (default 0%Z (head l)) l.
(** [fold]: for each chat superseded. *)
Definition fold (behind : gmap string (list Z)) (pending : gmap string chatUpdate) : gmap string chatUpdate :=
  map_imap (λ id u,
    Some match behind !! id with
         | Some revisions =>
             if bool_decide (maxOf revisions < revision u)%Z then u <| replaced ::= λ r, r ++ revisions |> else u
         | None => u
         end) pending.

Definition before (a b : chatUpdate) : bool :=
  bool_decide (revision a < revision b)%Z ||
  bool_decide (revision a = revision b) && String.leb (u_id a) (u_id b).
#[global] Instance before_dec a b : Decision (Is_true (before a b)) := _.

(** ** A process's own state

    Decoded indexes by address; the cache's entry of the caller, its key and
    its index, and the generation it was published at as complete; who holds
    the caller's lock, for writing or for reading; the caller's writer; and
    the channels made and closed. *)
Record cached := mkCached { ca_key : string; ca_ix : nat; ca_complete : Z }.
Record local := mkLocal {
  heap : gmap nat Index;
  slot : option cached;
  locked : gmap nat bool;
  writer_ : option writer;
  closed : gset nat;
  chans : nat;
}.
#[global] Instance local_eta : Eta local := λ l,
  mkLocal (heap l) (slot l) (locked l) (writer_ l) (closed l) (chans l).

(** What an object of the bucket is not read for. *)
Inductive berr := BNotFound | BForbidden | BTooLarge | BOther.

(** What the rows' store answers: a page of a listing, its rows opened, each
    an id, an ETag and a plaintext, and how many it could not open; and rows
    pulled by id, with, of those it could not open, the key that seals them
    where that is known. *)
Record listing := mkListing { Rows_ : list (string * string * bytes); Unreadable : nat; Next : string }.
Record pulling := mkPulling { Pulled : list (string * string * bytes); Refused : list (string * option string) }.

(** ** Programs

    A goroutine reads and publishes the record, reads a row's metadata or
    the row, lists and pulls chats opened, reads, writes and deletes objects,
    embeds text, draws the random part of an object's key, sees the time and
    whether its context has ended, and takes a step on its process's state,
    once it can. *)
Inductive prog {F : Type} (A : Type) : Type :=
  | Ret (a : A)
  | Panic
  | GetState (k : result cerr SearchIndexState → prog A)
  | PublishState (r : PublishSearchIndexRequest) (k : result cerr SearchIndexState → prog A)
  | ReadRow (head : bool) (id : string) (k : result cerr string → prog A)
  | ListChats (cursor : string) (k : option listing → prog A)
  | PullChats (ids : list string) (k : option pulling → prog A)
  | GetObject (key : string) (k : result berr Index → prog A)
  | PutObject (key : string) (ix : Index) (k : bool → prog A)
  | DeleteObject (key : string) (k : unit → prog A)
  | Embed (inputs : list string) (k : option (list F) → prog A)
  | Random (k : string → prog A)
  | Now (k : Z → prog A)
  | Ended (k : bool → prog A)
  | Local (B : Set) (f : nat → local → option (local * B)) (k : B → prog A).
Arguments Ret {F A} a.
Arguments Panic {F A}.
Arguments GetState {F A} k.
Arguments PublishState {F A} r k.
Arguments ReadRow {F A} head id k.
Arguments ListChats {F A} cursor k.
Arguments PullChats {F A} ids k.
Arguments GetObject {F A} key k.
Arguments PutObject {F A} key ix k.
Arguments DeleteObject {F A} key k.
Arguments Embed {F A} inputs k.
Arguments Random {F A} k.
Arguments Now {F A} k.
Arguments Ended {F A} k.
Arguments Local {F A B} f k.
Arguments prog : clear implicits.

#[global] Instance prog_ret F : MRet (prog F) := @Ret F.
Fixpoint prog_bind {F A B} (f : A → prog F B) (p : prog F A) : prog F B :=
  match p with
  | Ret a => f a
  | Panic => Panic
  | GetState k => GetState (λ r, prog_bind f (k r))
  | PublishState r k => PublishState r (λ r, prog_bind f (k r))
  | ReadRow head id k => ReadRow head id (λ r, prog_bind f (k r))
  | ListChats cursor k => ListChats cursor (λ r, prog_bind f (k r))
  | PullChats ids k => PullChats ids (λ r, prog_bind f (k r))
  | GetObject key k => GetObject key (λ r, prog_bind f (k r))
  | PutObject key ix k => PutObject key ix (λ r, prog_bind f (k r))
  | DeleteObject key k => DeleteObject key (λ r, prog_bind f (k r))
  | Embed inputs k => Embed inputs (λ r, prog_bind f (k r))
  | Random k => Random (λ s, prog_bind f (k s))
  | Now k => Now (λ t, prog_bind f (k t))
  | Ended k => Ended (λ b, prog_bind f (k b))
  | Local g k => Local g (λ b, prog_bind f (k b))
  end.
#[global] Instance prog_mbind F : MBind (prog F) := @prog_bind F.

Section Programs.
Context {F : Type} (Quantize : F → Vector).

Definition getState : prog F (result cerr SearchIndexState) := GetState Ret.
Definition readRow (head : bool) (id : string) : prog F (result cerr string) := ReadRow head id Ret.
Definition locally {B : Set} (f : local → local * B) : prog F B := Local (λ _ l, Some (f l)) Ret.
Definition ofOption {A} (o : option A) : prog F A := match o with Some a => Ret a | None => Panic end.

(** [sync.RWMutex], by the goroutine that holds it. *)
Definition Lock : prog F () :=
  Local (λ g l, if bool_decide (locked l = ∅) then Some (l <| locked ::= <[g := true]> |>, tt) else None) Ret.
Definition RLock : prog F () :=
  Local (λ g l, if bool_decide (map_Forall (λ _ w, w = false) (locked l))
                then Some (l <| locked ::= <[g := false]> |>, tt) else None) Ret.
Definition Unlock : prog F () := Local (λ g l, Some (l <| locked ::= delete g |>, tt)) Ret.

(** The cache, of one caller and under one key: an object's key stands for
    the digest of both.  Evicting it is a step of the process's. *)
Definition cache_get (key : string) : prog F (option (nat * Index)) :=
  locally (B := option (nat * Index)) (λ l, match slot l with
                | Some c => if String.eqb (ca_key c) key then (l, (λ ix, (ca_ix c, ix)) <$> heap l !! ca_ix c)
                            else (l <| slot := None |>, None)
                | None => (l, None)
                end).
Definition cache_put (key : string) (p : nat) : prog F () := locally (λ l, (l <| slot := Some (mkCached key p 0) |>, tt)).
Definition cache_drop : prog F () := locally (λ l, (l <| slot := None |>, tt)).
Definition publishedComplete (key : string) (generation : Z) : prog F () :=
  locally (λ l, (l <| slot ::= fmap (M := option) (λ c, if String.eqb (ca_key c) key then mkCached (ca_key c) (ca_ix c) generation else c) |>, tt)).
Definition completeAt (key : string) (generation : Z) : prog F bool :=
  locally (λ l, (l, match slot l with
                    | Some c => bool_decide (0 < generation)%Z && String.eqb (ca_key c) key && bool_decide (ca_complete c = generation)
                    | None => false
                    end)).

(** An index made, and one changed in place. *)
Definition newIndex (ix : Index) : prog F nat :=
  locally (λ l, let p := fresh (dom (heap l)) in (l <| heap ::= <[p := ix]> |>, p)).
Definition change (p : nat) (ix : Index) : prog F () := locally (λ l, (l <| heap ::= <[p := ix]> |>, tt)).

(** ** The caller's index in the bucket: index.go *)

Inductive loadState := loadOK | loadMissing | loadUnreadable.
#[global] Instance loadState_eq_dec : EqDecision loadState.
Proof. solve_decision. Defined.
Definition publishAttempts : nat := 3.

(** The id of the caller's key, the embedder's model, and what a stored
    index's times are checked with. *)
Context (kid model : string) (validTime : string → bool).

Definition fresh_index (state : loadState) : prog F (result () (nat * Index * loadState)) :=
  p ← newIndex (New model); Ret (Ok (p, New model, state)).
(** [load] from the bucket; an error is that of the bucket. *)
Definition loadStored (objectKey : string) : prog F (result () (nat * Index * loadState)) :=
  raw ← GetObject objectKey Ret;
  match raw with
  | Err BNotFound => fresh_index loadMissing
  | Err BForbidden | Err BTooLarge => fresh_index loadUnreadable
  | Err BOther => Ret (Err tt)
  | Ok parsed =>
      decoded ← ofOption (Decode validTime (Some parsed));
      match decoded with
      | Err _ => fresh_index loadUnreadable
      | Ok ix =>
          if negb (Compatible ix model) then fresh_index loadUnreadable
          else p ← newIndex ix; _ ← cache_put objectKey p; Ret (Ok (p, ix, loadOK))
      end
  end.
Definition load (objectKey : string) : prog F (result () (nat * Index * loadState)) :=
  if String.eqb objectKey "" then fresh_index loadMissing
  else
    hit ← cache_get objectKey;
    match hit with
    | Some (p, ix) => if Compatible ix model then Ret (Ok (p, ix, loadOK)) else _ ← cache_drop; loadStored objectKey
    | None => loadStored objectKey
    end.

(** What [Encode] writes of an index. *)
Definition encoded (ix : Index) : Index := ix <| dead := 0%Z |>.
Definition save (objectKey : string) (p : nat) (ix : Index) : prog F bool :=
  ok ← PutObject objectKey (encoded ix) Ret;
  if ok : bool then _ ← cache_put objectKey p; Ret true else _ ← cache_drop; Ret false.
Definition deleteObject (objectKey : string) : prog F () :=
  if String.eqb objectKey "" then Ret tt else DeleteObject objectKey Ret.
Definition newObjectKey (fence : Z) : prog F string :=
  suffix ← Random Ret;
  Ret (String.append objectKeyPrefix (String.append "-" (String.append (pretty fence) (String.append "-" suffix)))).

Definition publish (state : SearchIndexState) (covered : Z) (incomplete : bool) (p : nat) (ix : Index)
    : prog F (result cerr SearchIndexState) :=
  objectKey ← newObjectKey (FenceGeneration state);
  saved ← save objectKey p ix;
  if negb saved then Ret (Err COther)
  else
    published ← PublishState (mkPublish (PublicationGeneration state) (FenceGeneration state) covered objectKey kid model incomplete) Ret;
    match published with
    | Err e =>
        _ ← cache_drop;
        if isConflict e then _ ← deleteObject objectKey; Ret (Err e)
        else
          current ← getState;
          match current with
          | Ok current =>
              if String.eqb (ObjectKey current) objectKey then _ ← deleteObject (ObjectKey state); Ret (Ok current)
              else _ ← deleteObject objectKey; Ret (Err e)
          | Err _ => Ret (Err e)
          end
    | Ok published =>
        _ ← (if incomplete then Ret tt else publishedComplete objectKey (PublicationGeneration published));
        _ ← deleteObject (ObjectKey state);
        Ret (Ok published)
    end.

Definition completeThrough (publication : SearchIndexState) (objectKey : string) : prog F bool :=
  if negb (PublicationIncomplete publication) then Ret true
  else completeAt objectKey (PublicationGeneration publication).
Definition readableObject (state : SearchIndexState) : string :=
  if negb (String.eqb (ObjectKey state) "") && (negb (String.eqb (s_KeyID state) kid) || negb (String.eqb (s_Model state) model))
  then "" else ObjectKey state.
Definition publication : prog F (result () (SearchIndexState * string)) :=
  r ← getState;
  Ret match r with Err _ => Err tt | Ok state => Ok (state, readableObject state) end.

(** ** Taking updates into the index: stored.go *)

Context (Tokenize : string → list string).
(** RFC 3339: a time written, and read, the zero time where it is none. *)
Context (formatTime : Z → string) (entryTime : string → Z).

Definition storedUpdate `{JS : Seal.Json} (id : string) (plaintext : bytes) (etag : string) (at_ rev : Z) : chatUpdate :=
  let chunks := chatChunks plaintext in
  mkUpdate id false etag at_ rev [] chunks (Tokenize (Join chunks (String "010" ""))).
Definition removal (id : string) (rev : Z) : chatUpdate := mkUpdate id true "" 0 rev [] [] [].

(** [embedChunks]: in batches of [embedBatch]. *)
Definition embedBatch : nat := 32.
Fixpoint embedChunks (fuel : nat) (prefix : string) (chunks : list string) : prog F (option (list F)) :=
  match fuel, chunks with
  | _, [] | 0, _ => Ret (Some [])
  | S fuel, chunks =>
      vectors ← Embed (String.append prefix <$> take embedBatch chunks) Ret;
      match vectors with
      | None => Ret None
      | Some vectors => rest ← embedChunks fuel prefix (drop embedBatch chunks);
          Ret match rest with Some rest => Some (vectors ++ rest) | None => None end
      end
  end.

(** The entry each update stores, embedding until one fails. *)
Fixpoint entriesOf (updates : list chatUpdate) (embed : bool) : prog F (list Entry) :=
  match updates with
  | [] => Ret []
  | u :: updates =>
      let entry := mkEntry 0 (u_etag u) (revision u) (formatTime (u_at u)) [] false "" in
      '(entry, embed) ←
        (if removed u || bool_decide (u_chunks u = []) then Ret (entry, embed)
         else
           let entry := entry <| EmbeddingPending := true |> <| EmbeddingKeyID := kid |> in
           if negb embed then Ret (entry, embed)
           else
             vectors ← embedChunks (length (u_chunks u)) docPrefix (u_chunks u);
             Ret match vectors with
                 | Some vs => (entry <| Vectors := Quantize <$> vs |> <| EmbeddingPending := false |> <| EmbeddingKeyID := "" |>, true)
                 | None => (entry, false)
                 end);
      entries ← entriesOf updates embed;
      Ret (entry :: entries)
  end.

Inductive outcome := missed | taken | superseded.

Definition currentETag (id : string) : prog F (result () (option string)) :=
  meta ← readRow true id;
  match meta with
  | Ok etag => Ret (Ok (Some etag))
  | Err _ =>
      blob ← readRow false id;
      Ret match blob with
          | Ok etag => Ok (Some etag)
          | Err _ => if controlplaneStatus blob 404 then Ok None else Err tt
          end
  end.

Inductive snapshot := snapshotCurrent | snapshotStale | snapshotDeleted.
Definition snapshotState (id etag : string) : prog F (result () snapshot) :=
  current ← currentETag id;
  Ret match current with
      | Err e => Err e
      | Ok None => Ok snapshotDeleted
      | Ok (Some current) => Ok (if String.eqb current etag then snapshotCurrent else snapshotStale)
      end.

Definition etagGeneration (etag : string) : option Z := Atoi etag.
Definition entrySupersedes (existing : Entry) (etag : string) (rev at_ : Z) : bool :=
  if bool_decide (0 < SourceRevision existing)%Z && bool_decide (0 < rev)%Z then bool_decide (rev < SourceRevision existing)%Z
  else match etagGeneration (ETag existing), etagGeneration etag with
       | Some eg, Some cg => bool_decide (cg < eg)%Z
       | _, _ => bool_decide (at_ < entryTime (UpdatedAt existing))%Z
       end.

Definition liveSince (rev source : Z) (inHand : gset Z) : bool :=
  if bool_decide (rev ≤ 0)%Z then false
  else forallb (λ later, bool_decide (later ∈ inHand)) (seqZ (rev + 1) (source - rev)).

(** What became of an update, with the index at [p] as it then is. *)
Definition storeEntry (source : Z) (inHand : gset Z) (p : nat) (ix : Index) (u : chatUpdate) (entry : Entry)
    : prog F (Index * bool * outcome) :=
  let store :=
    match Chats ix !! u_id u with
    | Some existing =>
        entrySupersedes existing (u_etag u) (revision u) (u_at u) ||
        bool_decide (SourceRevision existing = revision u) && String.eqb (ETag existing) (u_etag u)
    | None => false
    end in
  let write :=
    if store then Ret (ix, false, taken)
    else
      '(r, ix) ← ofOption (Upsert ix (u_id u) entry (u_tokens u));
      _ ← change p ix;
      Ret match r with Ok _ => (ix, true, taken) | Err _ => (ix, false, missed) end in
  if liveSince (revision u) source inHand then write
  else
    state ← snapshotState (u_id u) (u_etag u);
    match state with
    | Err _ => Ret (ix, false, missed)
    | Ok snapshotStale => Ret (ix, false, superseded)
    | Ok snapshotDeleted =>
        let indexed := bool_decide (is_Some (Chats ix !! u_id u)) in
        ix ← ofOption (Remove ix (u_id u));
        _ ← change p ix;
        Ret (ix, indexed, superseded)
    | Ok snapshotCurrent => write
    end.

Definition removeEntry (p : nat) (ix : Index) (state : loadState) (u : chatUpdate) (remade : bool) : prog F (Index * bool * outcome) :=
  let remove := ix ← ofOption (Remove ix (u_id u)); _ ← change p ix; Ret (ix, true, taken) in
  if remade then Ret (ix, false, superseded)
  else
    match Chats ix !! u_id u with
    | None => if bool_decide (state = loadOK) then Ret (ix, false, taken) else remove
    | Some existing =>
        if bool_decide (0 < revision u)%Z && bool_decide (revision u < SourceRevision existing)%Z
        then Ret (ix, false, taken) else remove
    end.

(** What a batch has made of the index. *)
Record taking := mkTaking { tk_ix : Index; changed : bool; took : gset Z; behind : gmap string (list Z) }.

Fixpoint takeAll (source : Z) (inHand : gset Z) (p : nat) (state : loadState) (remade : gset string)
    (updates : list (chatUpdate * Entry)) (t : taking) : prog F taking :=
  match updates with
  | [] => Ret t
  | (u, entry) :: updates =>
      '(ix, mutated, result) ←
        (if removed u then removeEntry p (tk_ix t) state u (bool_decide (u_id u ∈ remade))
         else storeEntry source inHand p (tk_ix t) u entry);
      let t := mkTaking ix (changed t || mutated)
                 (match result with taken => took t ∪ list_to_set (revisions u) | _ => took t end)
                 (match result with
                  | superseded => if bool_decide (revisions u = []) then behind t else <[u_id u := revisions u]> (behind t)
                  | _ => behind t end) in
      takeAll source inHand p state remade updates t
  end.

(** The loop that covers what follows on. *)
Fixpoint coverLoop (fuel : nat) (took : gset Z) (covered : Z) : Z :=
  match fuel with
  | 0 => covered
  | S fuel => if bool_decide ((covered + 1)%Z ∈ took) then coverLoop fuel took (covered + 1) else covered
  end.

(** Which of the chats removed were made again. *)
Fixpoint remadeOf (updates : list chatUpdate) : prog F (gset string) :=
  match updates with
  | [] => Ret ∅
  | u :: updates =>
      if removed u then
        row ← readRow false (u_id u);
        rest ← remadeOf updates;
        Ret (if controlplaneStatus row 404 then rest else {[u_id u]} ∪ rest)
      else remadeOf updates
  end.

(** The attempts of [apply], with [tries] left. *)
Fixpoint applyAttempts (tries : nat) (inHand : gset Z) (remade : gset string) (updates : list (chatUpdate * Entry))
    : prog F (result () (gmap string (list Z))) :=
  match tries with
  | 0 => Ret (Err tt)
  | S tries =>
      read ← publication;
      match read with
      | Err e => Ret (Err e)
      | Ok (publication, objectKey) =>
          loaded ← load objectKey;
          match loaded with
          | Err e => Ret (Err e)
          | Ok (p, ix, state) =>
              let state := if negb (String.eqb (ObjectKey publication) "") && String.eqb objectKey "" then loadUnreadable else state in
              t ← takeAll (s_SourceRevision publication) inHand p state remade updates (mkTaking ix false ∅ ∅);
              let covered := coverLoop (size (took t)) (took t) (PublishedSourceRevision publication) in
              if negb (changed t) && bool_decide (covered = PublishedSourceRevision publication) then Ret (Ok (behind t))
              else
                let readable := String.eqb (ObjectKey publication) "" || bool_decide (state = loadOK) in
                complete ← (if readable then completeThrough publication objectKey else Ret false);
                let ix := (tk_ix t) <| Incomplete := negb complete |> in
                _ ← change p ix;
                published ← publish publication covered (negb complete) p ix;
                match published with
                | Err e => if isConflict e then applyAttempts tries inHand remade updates else Ret (Err tt)
                | Ok _ => Ret (Ok (behind t))
                end
          end
      end
  end.

Definition apply (updates : list chatUpdate) : prog F (result () (gmap string (list Z))) :=
  entries ← entriesOf updates true;
  _ ← Lock;
  remade ← remadeOf updates;
  r ← applyAttempts publishAttempts (list_to_set (updates ≫= revisions)) remade (zip updates entries);
  _ ← Unlock;
  Ret r.

(** ** The writer's turns *)

(** [enqueue], and whether it starts a writer. *)
Definition enqueue (u : chatUpdate) (l : local) : local * bool :=
  match writer_ l with
  | Some w => (l <| writer_ := Some (w <| pending ::= λ p, add p u |>) |>, false)
  | None => (l <| writer_ := Some (mkWriter (add ∅ u) (chans l) None (S (chans l))) |> <| chans ::= λ c, S (S c) |>, true)
  end.

(** What waits, taken; [None] when nothing does, and the writer ends. *)
Definition takePending (l : local) : local * option (list chatUpdate * nat) :=
  match writer_ l with
  | None => (l, None)
  | Some w =>
      if bool_decide (pending w = ∅) then (l <| writer_ := None |> <| closed ::= λ c, {[ended_ w]} ∪ c |>, None)
      else
        let updates := merge_sort (λ a b, Is_true (before a b)) (map_to_list (pending w)).*2 in
        (l <| writer_ := Some (mkWriter ∅ (chans l) (Some (waiting w)) (ended_ w)) |> <| chans ::= S |>,
         Some (updates, waiting w))
  end.

(** A turn of [runWriter], and whether another follows. *)
Definition runWriter : prog F bool :=
  took ← locally takePending;
  match took with
  | None => Ret false
  | Some (updates, done) =>
      r ← apply updates;
      let behind := match r with Ok b => b | Err _ => ∅ end in
      _ ← locally (λ l, (l <| writer_ ::= fmap (M := option) (λ w, w <| pending ::= fold behind |>) |>, tt));
      _ ← locally (λ l, (l <| closed ::= λ c, {[done]} ∪ c |>, tt));
      Ret true
  end.

(** [settled], and whether it saw the updates applied: it may return before,
    when its context ends. *)
Definition settled : prog F bool :=
  ch ← locally (λ l, (l, match writer_ l with
                         | Some w => if bool_decide (pending w = ∅) then applied w else Some (waiting w)
                         | None => None
                         end));
  match ch with
  | None => Ret true
  | Some ch =>
      over ← Ended Ret;
      if over : bool then Ret false
      else Local (λ _ l, if bool_decide (ch ∈ closed l) then Some (l, tt) else None) (λ _, Ret true)
  end.

(** ** Queries: query.go

    The ranking is a parameter, of the index as it is searched. *)

Definition rebuildNeeded (publication : SearchIndexState) (objectKey : string) (ix : Index) (state : loadState) : bool :=
  s_Incomplete publication || negb (String.eqb (ObjectKey publication) "") && String.eqb objectKey "" || Incomplete ix ||
  negb (String.eqb (ObjectKey publication) "") && negb (bool_decide (state = loadOK)) ||
  String.eqb (ObjectKey publication) "" && bool_decide (0 < s_SourceRevision publication)%Z.

(** The record read and its index loaded, under the lock for reading, and
    what [body] makes of them there. *)
Definition reading {A} (body : SearchIndexState → string → Index → loadState → A) : prog F (result () A) :=
  read ← publication;
  match read with
  | Err e => Ret (Err e)
  | Ok (publication, objectKey) =>
      _ ← RLock;
      loaded ← load objectKey;
      _ ← Unlock;
      Ret match loaded with Err e => Err e | Ok (_, ix, state) => Ok (body publication objectKey ix state) end
  end.

(** How many components a vector has. *)
Context (dimensions : F → nat).

(** [Query] of a text that is one, up to its ranking: the record it read, the
    index it searches, none when that is empty, whether a rebuild is needed,
    and whether it starts a repair of the embeddings, which it does once it
    has its results. *)
Record queried := mkQueried {
  read : SearchIndexState;
  searched : Index;
  queryVector : option (option F);
  needsRebuild : bool;
  startsRepair : bool;
}.
Definition repairsEmbeddings (queryVector : option F) (needed : bool) (ix : Index) : bool :=
  match queryVector with Some v => bool_decide (0 < dimensions v) | None => false end && negb needed && NeedsEmbeddingRepairFor ix kid.
Definition Query (query : string) : prog F (result () queried) :=
  _ ← settled;
  first ← reading (λ publication objectKey ix state, (publication, ix, rebuildNeeded publication objectKey ix state));
  match first with
  | Err e => Ret (Err e)
  | Ok (publication, ix, needed) =>
      if bool_decide (Chats ix = ∅) then Ret (Ok (mkQueried publication ix None needed false))
      else
        vectors ← Embed [String.append queryPrefix query] Ret;
        over ← (match vectors with None => Ended Ret | Some _ => Ret false end);
        if over : bool then Ret (Err tt)
        else
          queryVector ← (match vectors with None => Ret None | Some (v :: _) => Ret (Some v) | Some [] => Panic end);
          second ← reading (λ publication objectKey ix state, (publication, ix, rebuildNeeded publication objectKey ix state));
          Ret match second with
              | Err e => Err e
              | Ok (publication, ix, needed) =>
                  Ok (mkQueried publication ix (Some queryVector) needed (repairsEmbeddings queryVector needed ix))
              end
  end.
End Programs.
End Indexing.
