(* ===== verification/Indexed.v ===== *)
(** * What a search answers for: the index and its writers at work

    Processes of the service run their writers and answer queries at once,
    over one bucket and one record in the control plane, while chats are
    written and deleted, requests fail or are served late, and other keys
    and models publish indexes of their own.  A query that says no rebuild
    is needed searched an index that has every chat as it was last written,
    but for those written since. *)

From S2P Require Import Prelude GoStd Codec Seal SearchIndex Indexing.
From stdpp Require Import pretty sorting.
From Stdlib Require Import Sorted.

Module Indexed.
Import GoStd Codec SearchIndex Indexing.

(** ** The chats' writes

    The writes of a caller's chats, in the order of their source revisions,
    which count from one. *)
Inductive write := WPut (id : string) (content : bytes) | WDelete (id : string).
Definition wr_id (w : write) : string := match w with WPut id _ | WDelete id => id end.
Definition log_at (l : list write) (r : Z) : option write := if bool_decide (0 < r)%Z then l !! Z.to_nat (r - 1) else None.
(** The last write of its chat. *)
Definition is_last (l : list write) (r : Z) (w : write) : Prop :=
  log_at l r = Some w ∧ ∀ r' w', log_at l r' = Some w' → wr_id w' = wr_id w → (r' ≤ r)%Z.
Definition live (l : list write) (id : string) : Prop := ∃ r content, is_last l r (WPut id content).

Lemma log_at_range l r w : log_at l r = Some w → (0 < r ≤ Z.of_nat (length l))%Z.
Proof. unfold log_at. case_bool_decide; [|done]. intros Hl%lookup_lt_Some. lia. Qed.
Lemma log_at_prefix l l' r w : l `prefix_of` l' → log_at l r = Some w → log_at l' r = Some w.
Proof. intros [k ->]. unfold log_at. case_bool_decide; [|done]. by apply lookup_app_l_Some. Qed.
Lemma log_at_old l l' r w : l `prefix_of` l' → (r ≤ Z.of_nat (length l))%Z → log_at l' r = Some w → log_at l r = Some w.
Proof.
  intros [k ->] Hr. unfold log_at. case_bool_decide; [|done]. rewrite lookup_app_l by lia. done.
Qed.
Lemma is_last_old l l' r w : l `prefix_of` l' → (r ≤ Z.of_nat (length l))%Z → is_last l' r w → is_last l r w.
Proof.
  intros Hp Hr [Ha Hl]. split; [by eapply log_at_old|]. intros r' w' Hr' Hid. eapply Hl; [by eapply log_at_prefix|done].
Qed.
Lemma is_last_unique l r r' w w' : is_last l r w → is_last l r' w' → wr_id w = wr_id w' → r = r' ∧ w = w'.
Proof.
  intros [Ha Hl] [Ha' Hl'] Hid. assert (r = r') as -> by (pose proof (Hl _ _ Ha' (eq_sym Hid)); pose proof (Hl' _ _ Ha Hid); lia).
  split; [done|congruence].
Qed.

(** The revision an index has a chat of; an index has a chat's last write;
    and it has those through a revision, and those of a batch, no rebuild of
    it being under way. *)
Definition rev_of (ix : Index) (id : string) : option Z := SourceRevision <$> Chats ix !! id.
Definition reflects (ix : Index) (r : Z) (w : write) : Prop :=
  rev_of ix (wr_id w) = match w with WPut _ _ => Some r | WDelete _ => None end.
Definition spans (l : list write) (through : Z) (took : gset Z) (ix : Index) : Prop :=
  Reindex ix = None ∧ (through ≤ Z.of_nat (length l))%Z ∧ (∀ r, r ∈ took → (r ≤ Z.of_nat (length l))%Z) ∧
  ∀ r w, is_last l r w → (r ≤ through)%Z ∨ r ∈ took → reflects ix r w.
Definition covers (l : list write) (through : Z) (ix : Index) : Prop :=
  Reindex ix = None ∧ ∀ r w, is_last l r w → (r ≤ through)%Z → reflects ix r w.
(** An index as it is cached, as its object has it. *)
Definition same (ix ix' : Index) : Prop :=
  Reindex ix = Reindex ix' ∧ ∀ id, rev_of ix id = rev_of ix' id.

Lemma rev_of_content ix id : rev_of ix id = SourceRevision <$> (SearchIndex.content <$> Chats ix !! id).
Proof. unfold rev_of. by destruct (Chats ix !! id). Qed.
Lemma rev_of_Some ix id r : rev_of ix id = Some r ↔ ∃ e, Chats ix !! id = Some e ∧ SourceRevision e = r.
Proof. unfold rev_of. rewrite fmap_Some. naive_solver. Qed.
Lemma rev_of_None ix id : rev_of ix id = None ↔ Chats ix !! id = None.
Proof. unfold rev_of. by rewrite fmap_None. Qed.

Section Indexed.
Context {F : Type} (Quantize : F → Vector).
Context `{JS : Seal.Json}.
Context (kid model : string) (validTime : string → bool) (Tokenize : string → list string)
  (formatTime : Z → string) (entryTime : string → Z).

Definition tokens (content : bytes) : list string := Tokenize (Join (chatChunks content) (String "010" "")).

(** An index's entries are of chats' writes. *)
Definition good (l : list write) (ix : Index) : Prop :=
  WF validTime ix ∧ Bounded ix ∧
  ∀ id e, Chats ix !! id = Some e →
    ∃ content, log_at l (SourceRevision e) = Some (WPut id content) ∧
      ∀ tok, indexed ix id tok ↔ tok ∈ chat_tokens (tokens content).
(** ** What a goroutine knows

    The writes so far, the records there have been, each with whether its
    publisher said it complete, the objects stored, and the chats removed for
    good. *)
Record facts := mkFacts {
  f_log : list write;
  f_records : list (SearchIndexState * bool);
  f_stored : gmap string Index;
  f_gone : gset string;
}.
Definition more (f g : facts) : Prop :=
  f_log f `prefix_of` f_log g ∧ f_records f `suffix_of` f_records g ∧ f_stored f ⊆ f_stored g ∧ f_gone f ⊆ f_gone g.
Infix "⊑f" := more (at level 70).

(** A record names an object of this key and model. *)
Definition ours (s : SearchIndexState) : Prop := ObjectKey s ≠ ""%string ∧ s_KeyID s = kid ∧ s_Model s = model.
Definition record_ok (f : facts) (x : SearchIndexState * bool) : Prop :=
  let '(s, said) := x in
  (0 ≤ PublishedSourceRevision s ≤ Z.of_nat (length (f_log f)))%Z ∧ (PublicationIncomplete s = false → said = true) ∧
  (ObjectKey s = ""%string → said = true → PublishedSourceRevision s = 0%Z) ∧
  (ours s → ∃ ix, f_stored f !! ObjectKey s = Some ix ∧ (said = true → covers (f_log f) (PublishedSourceRevision s) ix)).
Record valid (f : facts) : Prop := {
  v_records : Forall (record_ok f) (f_records f);
  v_order : StronglySorted Z.gt ((λ x, PublicationGeneration x.1) <$> f_records f);
  v_stored : map_Forall (λ key ix, key ≠ ""%string ∧ good (f_log f) ix) (f_stored f);
  v_gone : ∀ id, id ∈ f_gone f → ¬ live (f_log f) id;
}.

(** An update stands for writes of its chat, up to its own. *)
Definition update_ok (f : facts) (u : chatUpdate) : Prop :=
  (∀ r, r ∈ replaced u → (r ≤ revision u)%Z ∧ ∃ w, log_at (f_log f) r = Some w ∧ wr_id w = u_id u) ∧
  if removed u then
    if bool_decide (0 < revision u)%Z then log_at (f_log f) (revision u) = Some (WDelete (u_id u))
    else u_id u ∈ f_gone f
  else ∃ content, log_at (f_log f) (revision u) = Some (WPut (u_id u) content) ∧ u_tokens u = tokens content.
Definition pending_ok (f : facts) (p : gmap string chatUpdate) : Prop := map_Forall (λ id u, u_id u = id ∧ update_ok f u) p.

Definition completed (f : facts) (c : cached) : Prop :=
  (0 < ca_complete c)%Z → ∃ s, (s, true) ∈ f_records f ∧ ObjectKey s = ca_key c ∧ PublicationGeneration s = ca_complete c.
Definition clean (f : facts) (l : local) (c : cached) : Prop :=
  ∃ ix ix', heap l !! ca_ix c = Some ix ∧ good (f_log f) ix ∧ f_stored f !! ca_key c = Some ix' ∧ same ix ix' ∧ completed f c.

(** What a goroutine holds: the lock, for writing or for reading; whether,
    writing, it has changed a cached index in place; the index at a pointer;
    and the random part of a key not yet used. *)
Record hold := mkHold { lock : option bool; dirty : bool; at_ : option (nat * Index); own : option string }.
#[global] Instance hold_eta : Eta hold := λ h, mkHold (lock h) (dirty h) (at_ h) (own h).
Definition nothing : hold := mkHold None false None None.

Definition local_ok (f : facts) (l : local) : Prop :=
  (∀ c, slot l = Some c → clean f l c ∨ ∃ g, locked l !! g = Some true) ∧
  (∀ g, locked l !! g = Some true → locked l = {[g := true]}) ∧
  (∀ w, writer_ l = Some w → pending_ok f (pending w)) ∧
  (∀ c, slot l = Some c → completed f c).
Definition claims (f : facts) (l : local) (g : nat) (h : hold) : Prop :=
  locked l !! g = lock h ∧
  (lock h = Some true → dirty h = false → ∀ c, slot l = Some c → clean f l c) ∧
  (lock h = None → at_ h = None) ∧
  (∀ p ix, at_ h = Some (p, ix) → heap l !! p = Some ix).
(** A step of one goroutine leaves the others what they claim. *)
Definition frame (l l' : local) (g : nat) (h : hold) : Prop :=
  (∀ g', g' ≠ g → locked l' !! g' = locked l !! g') ∧
  (lock h = None → heap l' = heap l ∧ slot l' = slot l) ∧
  (lock h ≠ Some true → heap l ⊆ heap l').

(** What it may be told. *)
Definition told_state (f : facts) (r : result cerr SearchIndexState) : Prop :=
  ∀ s, r = Ok s → ∃ rec said k, (rec, said) ∈ f_records f ∧ s = searchState (mkSource rec (Z.of_nat (length (f_log f))) k).
Definition told_published (f : facts) (req : PublishSearchIndexRequest) (r : result cerr SearchIndexState) : Prop :=
  ∀ s, r = Ok s → ∃ rec, (rec, negb (r_Incomplete req)) ∈ f_records f ∧ ObjectKey rec = r_ObjectKey req ∧
    PublicationGeneration rec = PublicationGeneration s.
Definition told_row (f : facts) (head : bool) (id : string) (r : result cerr string) : Prop :=
  match r with
  | Ok _ => live (f_log f) id
  | Err (CStatus s) => s = 404%Z → head = false → ¬ live (f_log f) id
  | Err _ => True
  end.
Definition told_object (f : facts) (key : string) (r : result berr Index) : Prop :=
  ∀ v, r = Ok v → ∃ ix, f_stored f !! key = Some ix ∧ v = encoded ix.

(** What it may publish. *)
Definition may_publish (f : facts) (req : PublishSearchIndexRequest) : Prop :=
  r_KeyID req = kid ∧ r_Model req = model ∧ r_ObjectKey req ≠ ""%string ∧
  (CoveredSourceRevision req ≤ Z.of_nat (length (f_log f)))%Z ∧
  ∃ ix, f_stored f !! r_ObjectKey req = Some ix ∧
    (r_Incomplete req = false → covers (f_log f) (CoveredSourceRevision req) ix).
Definition suffixLength : nat := 32.
Definition keyOf (fence : Z) (suffix : string) : string :=
  String.append objectKeyPrefix (String.append "-" (String.append (pretty fence) (String.append "-" suffix))).

(** ** A program logic *)

Fixpoint wp {A} (p : prog F A) (f : facts) (h : hold) (Q : facts → hold → A → Prop) : Prop :=
  match p with
  | Ret a => Q f h a
  | Panic => False
  | GetState k => ∀ g r, f ⊑f g → valid g → told_state g r → wp (k r) g h Q
  | PublishState req k => may_publish f req ∧ ∀ g r, f ⊑f g → valid g → told_published g req r → wp (k r) g h Q
  | ReadRow head id k => ∀ g r, f ⊑f g → valid g → told_row g head id r → wp (k r) g h Q
  | ListChats _ k => ∀ r, wp (k r) f h Q
  | PullChats _ k => ∀ r, wp (k r) f h Q
  | GetObject key k => ∀ g r, f ⊑f g → valid g → told_object g key r → wp (k r) g h Q
  | PutObject key v k =>
      ∃ ix fence s, v = encoded ix ∧ good (f_log f) ix ∧ own h = Some s ∧ key = keyOf fence s ∧
        ∀ g b, f ⊑f g → valid g → f_stored g !! key = Some ix → wp (k b) g (h <| own := None |>) Q
  | DeleteObject key k => wp (k tt) f h Q
  | Embed inputs k => ∀ r, (∀ vs, r = Some vs → length vs = length inputs) → wp (k r) f h Q
  | Random k => own h = None ∧ ∀ s, String.length s = suffixLength → wp (k s) f (h <| own := Some s |>) Q
  | Now k => ∀ t, wp (k t) f h Q
  | Ended k => ∀ b, wp (k b) f h Q
  | Local step k => ∀ fs g l l' b, f ⊑f fs → valid fs → local_ok fs l → claims fs l g h → step g l = Some (l', b) →
      ∃ h', own h' = own h ∧ local_ok fs l' ∧ claims fs l' g h' ∧ frame l l' g h ∧ wp (k b) fs h' Q
  end.

(** ** What stays true as facts grow *)


Lemma facts_refl f : f ⊑f f.
Proof. by split_and!. Qed.
Lemma facts_trans f g h : f ⊑f g → g ⊑f h → f ⊑f h.
Proof. intros (?&?&?&?) (?&?&?&?). split_and!; by etrans. Qed.
#[global] Instance more_preorder : PreOrder more.
Proof. split; [exact facts_refl|exact facts_trans]. Qed.
Lemma more_log f g r w : f ⊑f g → log_at (f_log f) r = Some w → log_at (f_log g) r = Some w.
Proof. intros (?&_). by apply log_at_prefix. Qed.
Lemma more_length f g : f ⊑f g → length (f_log f) ≤ length (f_log g).
Proof. intros (?&_). by apply prefix_length. Qed.
Lemma more_record f g x : f ⊑f g → x ∈ f_records f → x ∈ f_records g.
Proof. intros (_&[k ->]&_). rewrite elem_of_app. auto. Qed.
Lemma more_stored f g key ix : f ⊑f g → f_stored f !! key = Some ix → f_stored g !! key = Some ix.
Proof. intros (_&_&?&_) ?. by eapply lookup_weaken. Qed.
Lemma good_more l l' ix : l `prefix_of` l' → good l ix → good l' ix.
Proof.
  intros Hp (?&?&Hg). split_and!; [done..|]. intros id e He. destruct (Hg id e He) as (c & Hc & ?).
  exists c. split; [by eapply log_at_prefix|done].
Qed.
Lemma spans_more l l' n took ix : l `prefix_of` l' → spans l n took ix → spans l' n took ix.
Proof.
  intros Hp (Hx & Hn & Ht & Hs). pose proof (prefix_length _ _ Hp). split_and!; [done|lia|intros r Hr; specialize (Ht r Hr); lia|].
  intros r w Hw Hr. apply Hs; [|done]. eapply is_last_old; [done| |done]. destruct Hr as [?|Hr]; [lia|by apply Ht].
Qed.
Lemma covers_spans l n ix : (n ≤ Z.of_nat (length l))%Z → covers l n ix ↔ spans l n ∅ ix.
Proof. intros Hn. split; [intros [? Hc]; split_and!; [done..|set_solver|]|intros (?&_&_&Hs); split; [done|]; intros r w]; set_solver. Qed.
Lemma covers_more l l' n ix : (n ≤ Z.of_nat (length l))%Z → l `prefix_of` l' → covers l n ix → covers l' n ix.
Proof.
  intros Hn Hp [? Hc]. split; [done|]. intros r w Hw Hr. apply Hc; [|done]. eapply is_last_old; [done| |done]. lia.
Qed.
Lemma spans_same l n took ix ix' : same ix ix' → spans l n took ix → spans l n took ix'.
Proof.
  intros [Hx Hs] (?&?&?&Hc). split_and!; [congruence|done..|]. intros r w Hw Hr. unfold reflects. rewrite <- Hs. by apply Hc.
Qed.
Lemma covers_same l n ix ix' : same ix ix' → covers l n ix → covers l n ix'.
Proof. intros [Hx Hs] [? Hc]. split; [congruence|]. intros r w Hw Hr. unfold reflects. rewrite <- Hs. by apply Hc. Qed.
Lemma record_ok_more f g x : f ⊑f g → record_ok f x → record_ok g x.
Proof.
  intros Hm. pose proof (more_length _ _ Hm). destruct x as [s said]. intros (?&?&?&Ho). split_and!; [lia|lia|done..|].
  intros Hs. destruct (Ho Hs) as (ix & Hi & Hc). exists ix. split; [by eapply more_stored|]. intros Hsd.
  eapply covers_more; [|apply Hm|by apply Hc]. lia.
Qed.
Lemma update_ok_more f g u : f ⊑f g → update_ok f u → update_ok g u.
Proof.
  intros Hm [Hr Hu]. split.
  - intros r Hi. destruct (Hr r Hi) as (? & w & ? & ?). split; [done|]. exists w. split; [by eapply more_log|done].
  - destruct (removed u); [case_bool_decide; [by eapply more_log|by apply Hm]|].
    destruct Hu as (c & ? & ?). exists c. split; [by eapply more_log|done].
Qed.
Lemma pending_ok_more f g p : f ⊑f g → pending_ok f p → pending_ok g p.
Proof. intros Hm Hp id u Hu. destruct (Hp id u Hu). split; [done|by eapply update_ok_more]. Qed.
Lemma completed_more f g c : f ⊑f g → completed f c → completed g c.
Proof. intros Hm Hr Hc. destruct (Hr Hc) as (s & ? & ? & ?). exists s. split_and!; [by eapply more_record|done..]. Qed.
Lemma clean_more f g l l' c :
  f ⊑f g → heap l !! ca_ix c = heap l' !! ca_ix c ∨ heap l ⊆ heap l' → clean f l c → clean g l' c.
Proof.
  intros Hm Hh (ix & ix' & Hix & Hg & Hs & Hsame & Hrec). exists ix, ix'. split_and!.
  - destruct Hh as [<-|Hh]; [done|by eapply lookup_weaken].
  - eapply good_more; [apply Hm|done].
  - by eapply more_stored.
  - done.
  - by eapply completed_more.
Qed.
Lemma local_ok_more f g l : f ⊑f g → local_ok f l → local_ok g l.
Proof.
  intros Hm (Hc & Hl & Hw & Hcm). split_and!; [|done| |].
  - intros c Hsl. destruct (Hc c Hsl) as [?|?]; [left|by right]. eapply clean_more; [done|by left|done].
  - intros w Hwr. eapply pending_ok_more; [done|by apply Hw].
  - intros c Hsl. eapply completed_more; [done|by apply Hcm].
Qed.
Lemma claims_more f g l n h : f ⊑f g → claims f l n h → claims g l n h.
Proof.
  intros Hm (? & Hc & ? & ?). split_and!; [done| |done..]. intros Hl Hd c Hs.
  eapply clean_more; [done|by left|by apply Hc].
Qed.
Lemma may_publish_more f g req : f ⊑f g → may_publish f req → may_publish g req.
Proof.
  intros Hm (?&?&?&Hn&ix&Hix&Hc). pose proof (more_length _ _ Hm). split_and!; [done..|lia|].
  exists ix. split; [by eapply more_stored|]. intros Hi. eapply covers_more; [|apply Hm|by apply Hc]. lia.
Qed.

(** ** Its rules *)

Lemma wp_weaken {A} (p : prog F A) f h Q Q' :
  (∀ g h a, f ⊑f g → Q g h a → Q' g h a) → wp p f h Q → wp p f h Q'.
Proof.
  revert f h. induction p as [a| |k IH|req k IH|hd id k IH|cur k IH|ids k IH|key k IH|key v k IH|key k IH|inp k IH|k IH|k IH|k IH|B step k IH]; intros f h HQ Hp;
    cbn [wp] in *.
  - by apply HQ.
  - done.
  - intros g r Hm Hv Ht. eapply IH; [|by apply Hp]. intros. by apply HQ; [etrans|].
  - destruct Hp as [? Hp]. split; [done|]. intros g r Hm Hv Ht. eapply IH; [|by apply Hp]. intros. by apply HQ; [etrans|].
  - intros g r Hm Hv Ht. eapply IH; [|by apply Hp]. intros. by apply HQ; [etrans|].
  - intros r. by eapply IH.
  - intros r. by eapply IH.
  - intros g r Hm Hv Ht. eapply IH; [|by apply Hp]. intros. by apply HQ; [etrans|].
  - destruct Hp as (ix & fence & s & ? & ? & ? & ? & Hp). exists ix, fence, s. split_and!; [done..|].
    intros g b Hm Hv Hs. eapply IH; [|by apply Hp]. intros. by apply HQ; [etrans|].
  - by eapply IH.
  - intros r Hr. by eapply IH; [|apply Hp].
  - destruct Hp as [? Hp]. split; [done|]. intros s Hs. by eapply IH; [|apply Hp].
  - intros t. by eapply IH.
  - intros b. by eapply IH.
  - intros fs g l l' b Hm Hv Hl Hc Hs. destruct (Hp fs g l l' b Hm Hv Hl Hc Hs) as (h' & ? & ? & ? & ? & Hk).
    exists h'. split_and!; [done..|]. eapply IH; [|done]. intros. by apply HQ; [etrans|].
Qed.
Lemma wp_seq {A B} (p : prog F A) (k : A → prog F B) f h Q :
  wp p f h (λ g h a, wp (k a) g h Q) → wp (p ≫= k) f h Q.
Proof.
  unfold mbind, prog_mbind. revert f h.
  induction p as [a| |kk IH|req kk IH|hd id kk IH|cur kk IH|ids kk IH|key kk IH|key v kk IH|key kk IH|inp kk IH|kk IH|kk IH|kk IH|C step kk IH]; intros f h Hp;
    cbn [wp prog_bind] in *.
  1-2: done.
  - intros g r Hm Hv Ht. by apply IH, Hp.
  - destruct Hp as [? Hp]. split; [done|]. intros g r Hm Hv Ht. by apply IH, Hp.
  - intros g r Hm Hv Ht. by apply IH, Hp.
  - intros r. by apply IH.
  - intros r. by apply IH.
  - intros g r Hm Hv Ht. by apply IH, Hp.
  - destruct Hp as (ix & fence & s & ? & ? & ? & ? & Hp). exists ix, fence, s. split_and!; [done..|].
    intros g b Hm Hv Hs. by apply IH, Hp.
  - by apply IH.
  - intros r Hr. by apply IH, Hp.
  - destruct Hp as [? Hp]. split; [done|]. intros s Hs. by apply IH, Hp.
  - intros t. by apply IH.
  - intros b. by apply IH.
  - intros fs g l l' b Hm Hv Hl Hc Hs. destruct (Hp fs g l l' b Hm Hv Hl Hc Hs) as (h' & ? & ? & ? & ? & Hk).
    exists h'. split_and!; [done..|]. by apply IH.
Qed.
(** Facts that grew are no hindrance. *)
Lemma wp_more {A} (p : prog F A) f g h Q :
  f ⊑f g → (∀ f g h a, f ⊑f g → Q f h a → Q g h a) → wp p f h Q → wp p g h Q.
Proof.
  intros Hm HQ. revert h.
  induction p as [a| |k IH|req k IH|hd id k IH|cur k IH|ids k IH|key k IH|key v k IH|key k IH|inp k IH|k IH|k IH|k IH|B step k IH]; intros h Hp;
    cbn [wp] in *.
  - by eapply HQ.
  - done.
  - intros g' r Hm' Hv Ht. apply Hp; [by etrans|done..].
  - destruct Hp as [? Hp]. split; [by eapply may_publish_more|]. intros g' r Hm' Hv Ht. apply Hp; [by etrans|done..].
  - intros g' r Hm' Hv Ht. apply Hp; [by etrans|done..].
  - intros r. by apply IH.
  - intros r. by apply IH.
  - intros g' r Hm' Hv Ht. apply Hp; [by etrans|done..].
  - destruct Hp as (ix & fence & s & ? & ? & ? & ? & Hp). exists ix, fence, s. split_and!; [done| |done..|].
    + eapply good_more; [apply Hm|done].
    + intros g' b Hm' Hv Hs. apply Hp; [by etrans|done..].
  - by apply IH.
  - intros r Hr. by apply IH, Hp.
  - destruct Hp as [? Hp]. split; [done|]. intros s Hs. by apply IH, Hp.
  - intros t. by apply IH.
  - intros b. by apply IH.
  - intros fs n l l' b Hm' Hv Hl Hc Hs. apply (Hp fs n l l' b); [by etrans|done..].
Qed.

Lemma wp_ret {A} (a : A) f h (Q : facts → hold → A → Prop) : Q f h a → wp (Ret a) f h Q.
Proof. done. Qed.
(** A step of a goroutine's on its process's state that cannot be held up. *)
Lemma wp_locally {A : Set} (step : local → local * A) f h Q :
  (∀ g n l, f ⊑f g → valid g → local_ok g l → claims g l n h →
    ∃ h', own h' = own h ∧ local_ok g (step l).1 ∧ claims g (step l).1 n h' ∧ frame l (step l).1 n h ∧ Q g h' (step l).2) →
  wp (locally step) f h Q.
Proof.
  intros HQ. unfold locally. cbn [wp]. intros g n l l' b Hm Hv Hl Hc Hs.
  destruct (HQ g n l Hm Hv Hl Hc) as (h' & ? & ? & ? & ? & ?). injection Hs as Hs. rewrite Hs in *. by exists h'.
Qed.

(** *** The lock *)

Lemma clean_heap f l l' c : heap l' = heap l → clean f l c → clean f l' c.
Proof. intros Hh. apply clean_more; [done|]. left. by rewrite Hh. Qed.
(** Who holds the lock, for writing or reading, finds no other writer. *)
Lemma held_alone f l n b n' :
  local_ok f l → locked l !! n = Some b → locked l !! n' = Some true → n' = n ∧ b = true.
Proof.
  intros (_ & Hl & _ & _) Hn Hn'. specialize (Hl _ Hn'). rewrite Hl in Hn. apply lookup_singleton_Some in Hn as [-> <-]. done.
Qed.
Lemma held_clean f l n h c :
  local_ok f l → claims f l n h → is_Some (lock h) → dirty h = false → slot l = Some c → clean f l c.
Proof.
  intros Hok (Hl & Hcl & _) [b Hb] Hd Hs. rewrite Hb in Hl. destruct (proj1 Hok _ Hs) as [?|[n' Hn']]; [done|].
  destruct (held_alone _ _ _ _ _ Hok Hl Hn') as [-> ->]. by apply Hcl.
Qed.

Lemma wp_Lock f h Q :
  lock h = None →
  (∀ g, f ⊑f g → valid g → Q g (h <| lock := Some true |> <| dirty := false |>) tt) → wp Lock f h Q.
Proof.
  intros Hl HQ. unfold Lock. cbn [wp]. intros g n l l' b Hm Hv Hok Hc Hs. case_bool_decide as He; [|done]. injection Hs as <- <-.
  assert (Hcl : ∀ c, slot l = Some c → clean g l c).
  { intros c Hsl. destruct (proj1 Hok c Hsl) as [?|[n' Hn']]; [done|]. by rewrite He in Hn'. }
  exists (h <| lock := Some true |> <| dirty := false |>). destruct Hok as (_ & _ & Hw & Hcm). destruct Hc as (_ & _ & Ha & _).
  split_and!; [done| | | |by apply HQ].
  - split_and!; cbn; [left; by apply Hcl| |done|done]. intros n' Hn'. rewrite He in *. apply lookup_insert_Some in Hn' as [[-> _]|[_ ?]]; done.
  - split_and!; cbn; [by rewrite lookup_insert_eq|intros _ _; apply Hcl|done|]. intros p ix Hat. by rewrite (Ha Hl) in Hat.
  - split_and!; cbn; [|done..]. intros n' Hn'. by rewrite lookup_insert_ne.
Qed.
Lemma wp_RLock f h Q :
  lock h = None →
  (∀ g, f ⊑f g → valid g → Q g (h <| lock := Some false |> <| dirty := false |>) tt) → wp RLock f h Q.
Proof.
  intros Hl HQ. unfold RLock. cbn [wp]. intros g n l l' b Hm Hv Hok Hc Hs. case_bool_decide as He; [|done]. injection Hs as <- <-.
  assert (Hno : ∀ n', locked l !! n' ≠ Some true) by (intros n' Hn'; by specialize (He _ _ Hn')).
  exists (h <| lock := Some false |> <| dirty := false |>). destruct Hok as (Hcl & _ & Hw & Hcm). destruct Hc as (_ & _ & Ha & _).
  split_and!; [done| | | |by apply HQ].
  - split_and!; cbn; [|intros n'|done..].
    + intros c Hsl. destruct (Hcl c Hsl) as [?|[n' Hn']]; [by left|by destruct (Hno n')].
    + intros [[_ ?]|[_ Hn']]%lookup_insert_Some; [done|by destruct (Hno n')].
  - split_and!; cbn; [by rewrite lookup_insert_eq|done..|]. intros p ix Hat. by rewrite (Ha Hl) in Hat.
  - split_and!; cbn; [|done..]. intros n' Hn'. by rewrite lookup_insert_ne.
Qed.
Lemma wp_Unlock f h Q :
  is_Some (lock h) → dirty h = false →
  (∀ g, f ⊑f g → valid g → Q g (h <| lock := None |> <| at_ := None |>) tt) → wp Unlock f h Q.
Proof.
  intros Hl Hd HQ. unfold Unlock. cbn [wp]. intros g n l l' b Hm Hv Hok Hc Hs. injection Hs as <- <-.
  exists (h <| lock := None |> <| at_ := None |>).
  split_and!; [done| | | |by apply HQ].
  - split_and!; cbn; [| |apply Hok..].
    + intros c Hsl. left. apply (clean_heap _ l); [done|by eapply held_clean].
    + intros n' [Hne Hn']%lookup_delete_Some. destruct Hl as [b Hb], Hc as (Hl & _). rewrite Hb in Hl.
      by destruct (held_alone _ _ _ _ _ Hok Hl Hn') as [-> _].
  - split_and!; cbn; [by rewrite lookup_delete_eq|done..].
  - split_and!; cbn; [|done..]. intros n' Hn'. by rewrite lookup_delete_ne.
Qed.

(** *** The heap and the cache, under the lock *)

(** A step that keeps the lock, the writer, and claims for its own. *)
Lemma claims_step g l l' n h h' :
  local_ok g l → claims g l n h → is_Some (lock h) →
  locked l' = locked l → writer_ l' = writer_ l → lock h' = lock h → own h' = own h →
  (∀ c, slot l' = Some c → clean g l' c ∨ lock h' = Some true ∧ dirty h' = true ∧ slot l' = slot l) →
  (∀ p ix, at_ h' = Some (p, ix) → heap l' !! p = Some ix) →
  (lock h = Some true ∨ heap l ⊆ heap l') →
  own h' = own h ∧ local_ok g l' ∧ claims g l' n h' ∧ frame l l' n h.
Proof.
  intros Hok Hc [b Hb] Hlk Hwr Hl Ho Hs Ha Hf. split_and!; [done| | |].
  - split_and!.
    + intros c Hc'. destruct (Hs c Hc') as [?|[Hlt _]]; [by left|right]. exists n. rewrite Hlk, <- Hlt, Hl. apply Hc.
    + intros n' Hn'. rewrite Hlk in *. by apply Hok.
    + intros w Hw. rewrite Hwr in Hw. by apply Hok.
    + intros c Hc'. destruct (Hs c Hc') as [(_&_&_&_&_&_&?)|(_ & _ & Hsl)]; [done|]. rewrite Hsl in Hc'. by apply Hok.
  - split_and!; [rewrite Hlk, Hl; apply Hc| |congruence|done].
    intros _ Hd c Hc'. destruct (Hs c Hc') as [?|(_ & Hd' & _)]; [done|congruence].
  - split_and!; [by rewrite Hlk|congruence|]. intros Hnt. by destruct Hf.
Qed.

Lemma wp_newIndex ix f h Q :
  is_Some (lock h) → dirty h = false →
  (∀ g p, f ⊑f g → valid g → Q g (h <| at_ := Some (p, ix) |>) p) → wp (newIndex ix) f h Q.
Proof.
  intros Hl Hd HQ. apply wp_locally. intros g n l Hm Hv Hok Hc. cbn. set (p := fresh _).
  assert (Hp : heap l !! p = None) by apply not_elem_of_dom, is_fresh.
  assert (Hsub : heap l ⊆ <[p:=ix]> (heap l)) by by apply insert_subseteq.
  exists (h <| at_ := Some (p, ix) |>).
  destruct (claims_step g l (l <| heap ::= <[p:=ix]> |>) n h (h <| at_ := Some (p, ix) |>)) as (?&?&?&?); try done.
  - intros c Hs. left. apply (clean_more g g l); [done|by right|]. by eapply held_clean.
  - cbn. intros p' ix' [= <- <-]. by rewrite lookup_insert_eq.
  - by right.
  - split_and!; [done..|by apply HQ].
Qed.
Lemma wp_change p ix0 ix f h Q :
  lock h = Some true → at_ h = Some (p, ix0) →
  (∀ g, f ⊑f g → valid g → Q g (h <| at_ := Some (p, ix) |> <| dirty := true |>) tt) → wp (change p ix) f h Q.
Proof.
  intros Hl Ha HQ. apply wp_locally. intros g n l Hm Hv Hok Hc. cbn.
  exists (h <| at_ := Some (p, ix) |> <| dirty := true |>).
  destruct (claims_step g l (l <| heap ::= <[p:=ix]> |>) n h (h <| at_ := Some (p, ix) |> <| dirty := true |>))
    as (?&?&?&?); try done.
  - by right.
  - cbn. intros p' ix' [= <- <-]. by rewrite lookup_insert_eq.
  - by left.
  - split_and!; [done..|by apply HQ].
Qed.
Lemma wp_change_same p ix f h Q :
  at_ h = Some (p, ix) → (∀ g, f ⊑f g → valid g → Q g h tt) → wp (change p ix) f h Q.
Proof.
  intros Ha HQ. apply wp_locally. intros g n [hp ? ? ? ? ?] Hm Hv Hok Hc. pose proof Hc as (_&_&_&Hat). cbn in *. exists h.
  rewrite (insert_id hp) by by apply Hat. split_and!; [done..|by apply HQ].
Qed.

Lemma wp_cache_put key p ix ix' f h Q :
  is_Some (lock h) → at_ h = Some (p, ix) → good (f_log f) ix → f_stored f !! key = Some ix' → same ix ix' →
  (∀ g, f ⊑f g → valid g → Q g (h <| dirty := false |>) tt) → wp (cache_put key p) f h Q.
Proof.
  intros Hl Ha Hg Hst Hsame HQ. apply wp_locally. intros g n l Hm Hv Hok Hc. cbn.
  exists (h <| dirty := false |>). pose proof Hc as (_&_&_&Hat).
  destruct (claims_step g l (l <| slot := Some (mkCached key p 0) |>) n h (h <| dirty := false |>)) as (?&?&?&?); try done.
  - cbn. intros c [= <-]. left. exists ix, ix'. split_and!; cbn.
    + by apply Hat.
    + eapply good_more; [apply Hm|done].
    + by eapply more_stored.
    + done.
    + intros Hn; cbn in Hn; lia.
  - by right.
  - split_and!; [done..|by apply HQ].
Qed.
Lemma wp_cache_drop f h Q :
  is_Some (lock h) → (∀ g, f ⊑f g → valid g → Q g (h <| dirty := false |>) tt) → wp cache_drop f h Q.
Proof.
  intros Hl HQ. apply wp_locally. intros g n l Hm Hv Hok Hc. cbn.
  exists (h <| dirty := false |>). pose proof Hc as (_&_&_&Hat).
  destruct (claims_step g l (l <| slot := None |>) n h (h <| dirty := false |>)) as (?&?&?&?); try done.
  - by right.
  - split_and!; [done..|by apply HQ].
Qed.
Lemma wp_cache_get key f h Q :
  is_Some (lock h) → dirty h = false →
  (∀ g h' r, f ⊑f g → valid g → own h' = own h → lock h' = lock h → dirty h' = false →
    match r with
    | Some (p, ix) => at_ h' = Some (p, ix) ∧ good (f_log g) ix ∧ ∃ ix', f_stored g !! key = Some ix' ∧ same ix ix'
    | None => at_ h' = at_ h
    end → Q g h' r) →
  wp (cache_get key) f h Q.
Proof.
  intros Hl Hd HQ. apply wp_locally. intros g n l Hm Hv Hok Hc.
  assert (Hno : claims g l n h) by done. destruct (slot l) as [c|] eqn:Hs; [|exists h; split_and!; [done..|by apply HQ]].
  destruct (String.eqb_spec (ca_key c) key) as [Hk|Hk].
  - destruct (held_clean _ _ _ _ _ Hok Hc Hl Hd Hs) as (ix & ix' & Hp & Hg & Hst & Hsame & _). rewrite Hp. cbn.
    exists (h <| at_ := Some (ca_ix c, ix) |>).
    destruct (claims_step g l l n h (h <| at_ := Some (ca_ix c, ix) |>)) as (?&?&?&?); try done.
    + intros c' Hs'. left. by eapply held_clean.
    + cbn. by intros p' x [= <- <-].
    + by right.
    + split_and!; [done..|]. apply HQ; [done..|]. split_and!; [done..|]. exists ix'. by rewrite <- Hk.
  - cbn. exists h. destruct (claims_step g l (l <| slot := None |>) n h h) as (?&?&?&?); try done; [apply Hc|by right|].
    split_and!; [done..|by apply HQ].
Qed.

(** *** What was published as complete *)

Lemma wp_publishedComplete key n f h Q :
  lock h = Some true → dirty h = false →
  ((0 < n)%Z → ∃ s, (s, true) ∈ f_records f ∧ ObjectKey s = key ∧ PublicationGeneration s = n) →
  (∀ g, f ⊑f g → valid g → Q g h tt) → wp (publishedComplete key n) f h Q.
Proof.
  intros Hl Hd Hrec HQ. apply wp_locally. intros g m l Hm Hv Hok Hc. exists h.
  set (l' := _ <| slot ::= _ |>). change (_.1) with l'. change (_.2) with tt. pose proof Hc as (_&_&_&Hat).
  destruct (claims_step g l l' m h h) as (?&?&?&?); try done; [|by left|split_and!; [done..|by apply HQ]].
  intros c Hs. left. unfold l' in Hs. cbn in Hs. destruct (slot l) as [c0|] eqn:Hs0; [|done]. cbn in Hs. injection Hs as <-.
  destruct (held_clean _ _ _ _ _ Hok Hc ltac:(by eexists) Hd Hs0) as (ix & ix' & Hp & Hg & Hst & Hsame & Hr).
  destruct (String.eqb_spec (ca_key c0) key) as [Hk|Hk]; exists ix, ix'; split_and!; try done.
  unfold completed; cbn. intros Hn. destruct (Hrec Hn) as (s & ? & ? & ?). exists s. split_and!; [by eapply more_record|congruence|done].
Qed.

(** ** Indexes, changed and read back *)

Lemma good_rev l ix id r : good l ix → rev_of ix id = Some r → ∃ c, log_at l r = Some (WPut id c).
Proof. intros (_&_&Hg) (e & He & <-)%rev_of_Some. destruct (Hg _ _ He) as (c & ? & _). by exists c. Qed.

Lemma upsert_good l ix id e toks c :
  good l ix → log_at l (SourceRevision e) = Some (WPut id c) → toks = tokens c →
  ∃ r ix', Upsert ix id e toks = Some (r, ix') ∧ good l ix' ∧
    Reindex ix' = Reindex ix ∧
    match r with
    | Err _ => ix' = ix
    | Ok _ => ∀ id', rev_of ix' id' = if decide (id' = id) then Some (SourceRevision e) else rev_of ix id'
    end.
Proof.
  intros (HW & HB & Hg) Hlog ->. destruct (upsert_correct validTime ix id e (tokens c) HW) as (r & ix' & Hu & HW' & _ & Hr).
  destruct (upsert_wf _ _ _ _ _ _ _ HW HB Hu) as [_ HB']. exists r, ix'. split; [done|].
  destruct r as [[]|]; [|by subst].
  assert (Reindex ix' = Reindex ix).
  { destruct (upsert_shape validTime ix id e (tokens c)) as [(err & Hu' & _)|(dims & _ & _ & _ & _ & Hu')]; [apply HW| |];
      rewrite Hu in Hu'; [done|]. injection Hu' as ->. etrans; [apply maybeCompact_fields|].
    unfold added, tombed; cbn. by case_match. }
  split_and!; [|done|].
  - split_and!; [done..|]. intros id' e' He'. destruct (Hr id') as [Hc Hi]. rewrite He' in Hc. cbn in Hc.
    destruct (decide (id' = id)) as [->|Hne].
    + assert (SourceRevision e' = SourceRevision e) as -> by (injection Hc as Hc; by destruct e, e'; cbn in *; simplify_eq).
      by exists c.
    + destruct (Chats ix !! id') as [e0|] eqn:He0; [|done]. cbn in Hc. injection Hc as Hc.
      destruct (Hg _ _ He0) as (c' & ? & Ht).
      assert (SourceRevision e' = SourceRevision e0) as -> by (by destruct e0, e'; cbn in *; simplify_eq).
      exists c'. split; [done|]. intros tok. by rewrite Hi.
  - intros id'. rewrite !rev_of_content, (proj1 (Hr id')). by case_decide.
Qed.
Lemma deleted_good l ix id :
  good l ix →
  ∃ ix', Remove ix id = Some ix' ∧ good l ix' ∧ Reindex ix' = Reindex ix ∧ (rev_of ix id = None → ix' = ix) ∧
    ∀ id', rev_of ix' id' = if decide (id' = id) then None else rev_of ix id'.
Proof.
  intros (HW & HB & Hg). destruct (remove_correct validTime ix id HW) as (ix' & Hu & HW' & Hr). exists ix'. split; [done|].
  pose proof Hu as Hsh. rewrite (remove_shape validTime) in Hsh by apply HW. injection Hsh as Hsh. split_and!.
  - split_and!; [done| |].
    + subst ix'. case_bool_decide; [done|]. apply (maybeCompact_bounded validTime); [apply tombed_wf, HW|by apply tombed_bounded].
    + intros id' e' He'. destruct (Hr id') as [Hc Hi]. rewrite He' in Hc. cbn in Hc.
      destruct (decide (id' = id)) as [->|Hne]; [done|].
      destruct (Chats ix !! id') as [e0|] eqn:He0; [|done]. cbn in Hc. injection Hc as Hc.
      destruct (Hg _ _ He0) as (c' & ? & Ht).
      assert (SourceRevision e' = SourceRevision e0) as -> by (by destruct e0, e'; cbn in *; simplify_eq).
      exists c'. split; [done|]. intros tok. rewrite Hi, <- Ht. naive_solver.
  - subst ix'. case_bool_decide; [done|]. etrans; [apply maybeCompact_fields|].
    unfold tombed. by case_match.
  - intros Hn%rev_of_None. subst ix'. by rewrite Hn.
  - intros id'. rewrite !rev_of_content, (proj1 (Hr id')). by case_decide.
Qed.
Lemma New_good l : good l (New model).
Proof. destruct (New_wf validTime model) as [? ?]. split_and!; [done..|]. intros id e. cbn. by rewrite lookup_empty. Qed.
Lemma New_spans l : spans l 0 ∅ (New model).
Proof.
  apply covers_spans; [lia|]. split; [done|]. intros r w [Ha _] Hr. apply log_at_range in Ha. lia.
Qed.
Lemma pended_revision ix e : SourceRevision (pended ix e) = SourceRevision e.
Proof. unfold pended. by case_match. Qed.
Lemma decode_good l ix :
  good l ix → ∃ ix', Decode validTime (Some (encoded ix)) = Some (Ok ix') ∧ good l ix' ∧ same ix' ix.
Proof.
  intros (HW & HB & Hg). exists (marked ix). split; [by apply wf_decodes|]. split.
  - split_and!; [by apply marked_wf|done|]. intros id e. unfold marked; cbn. rewrite lookup_fmap, fmap_Some.
    intros (e0 & He & ->). rewrite pended_revision. destruct (Hg _ _ He) as (c & ? & Ht). exists c. split; [done|].
    intros tok. rewrite <- Ht. by apply marked_indexed.
  - split; [done|]. intros id. unfold rev_of, marked; cbn. rewrite lookup_fmap. destruct (Chats ix !! id); [|done]. cbn. by rewrite pended_revision.
Qed.
Lemma incomplete_good l ix b :
  (b = false → Reindex ix = None) → good l ix → good l (ix <| Incomplete := b |>) ∧ same (ix <| Incomplete := b |>) ix.
Proof.
  intros Hb ([HW Hcp] & HB & Hg). split; [|done]. split; [|done]. split; [|done]. destruct HW as [? ? ? ? ? ? ? Hx ?].
  split; try done. unfold validReindex in *; cbn. destruct (Reindex ix); [|done].
  destruct b; [|by specialize (Hb eq_refl)]. by apply andb_true_iff in Hx as [(((_&?)%andb_true_iff&?)%andb_true_iff&?)%andb_true_iff ?];
    rewrite !andb_true_iff.
Qed.

(** ** Loading and publishing *)

Abbreviation load := (load (F := F) model validTime).
Abbreviation loadStored := (loadStored (F := F) model validTime).
Abbreviation publish := (publish (F := F) kid model).

Definition loaded (g : facts) (key : string) (h : hold) (r : result () (nat * Index * loadState)) : Prop :=
  match r with
  | Err _ => True
  | Ok (p, ix, st) => at_ h = Some (p, ix) ∧ good (f_log g) ix ∧
      match st with loadOK => ∃ ix', f_stored g !! key = Some ix' ∧ same ix ix' | _ => ix = New model end
  end.

Lemma wp_fresh_index st key f h Q :
  is_Some (lock h) → dirty h = false → st ≠ loadOK →
  (∀ g h' r, f ⊑f g → valid g → own h' = own h → lock h' = lock h → dirty h' = false → loaded g key h' r → Q g h' r) →
  wp (fresh_index model st) f h Q.
Proof.
  intros Hl Hd Hst HQ. unfold fresh_index. apply wp_seq, wp_newIndex; [done..|]. intros g p Hm Hv. apply wp_ret, HQ; try done.
  split_and!; [done|apply New_good|]. by destruct st.
Qed.
Lemma wp_loadStored key f h Q :
  is_Some (lock h) → dirty h = false →
  (∀ g h' r, f ⊑f g → valid g → own h' = own h → lock h' = lock h → dirty h' = false → loaded g key h' r → Q g h' r) →
  wp (loadStored key) f h Q.
Proof.
  intros Hl Hd HQ. unfold Indexing.loadStored. apply wp_seq. intros g r Hm Hv Ht. apply wp_ret.
  assert (Hfresh : ∀ st, st ≠ loadOK → wp (fresh_index model st) g h Q).
  { intros st Hst. apply (wp_fresh_index _ key); [done..|]. intros g' h' r' Hm'. apply HQ. by etrans. }
  destruct r as [v|[]]; [|by apply Hfresh..|by apply wp_ret, HQ].
  destruct (Ht v eq_refl) as (ix & Hix & ->). pose proof (v_stored _ Hv _ _ Hix) as [_ Hg].
  destruct (decode_good _ _ Hg) as (ix' & -> & Hg' & Hsame). apply wp_seq, wp_ret.
  destruct (Compatible ix' model); cbn [negb]; [|by apply Hfresh]. apply wp_seq, wp_newIndex; [done..|]. intros g1 p Hm1 Hv1.
  apply wp_seq. apply wp_cache_put with ix' ix; try done.
  { eapply good_more; [apply Hm1|done]. }
  { by eapply more_stored. }
  intros g2 Hm2 Hv2. apply wp_ret, HQ; try done; [by etrans; [|etrans]|]. split_and!; [done| |].
  - eapply good_more; [|done]. etrans; [apply Hm1|apply Hm2].
  - exists ix. split; [|done]. eapply more_stored; [|done]. by etrans.
Qed.
Lemma wp_load key f h Q :
  valid f → is_Some (lock h) → dirty h = false →
  (∀ g h' r, f ⊑f g → valid g → own h' = own h → lock h' = lock h → dirty h' = false → loaded g key h' r → Q g h' r) →
  wp (load key) f h Q.
Proof.
  intros Hv Hl Hd HQ. unfold Indexing.load. case_match; [by apply (wp_fresh_index _ key)|]. apply wp_seq, wp_cache_get; [done..|].
  intros g h1 r Hm Hv1 Ho Hl1 Hd1 Hr.
  assert (Hstored : ∀ g h2, f ⊑f g → own h2 = own h → lock h2 = lock h → dirty h2 = false → wp (loadStored key) g h2 Q).
  { intros g' h2 Hm' Ho2 Hl2 Hd2. apply wp_loadStored; [by rewrite Hl2|done|]. intros g2 h3 r3 ? ? ? ? ? ?.
    apply HQ; [by etrans|done|congruence..|done|done]. }
  destruct r as [[p ix]|]; [|by apply Hstored]. destruct Hr as (Ha & Hg & Hs). destruct (Compatible ix model).
  - apply wp_ret, HQ; try done.
  - apply wp_seq, wp_cache_drop; [by rewrite Hl1|]. intros g' Hm' Hv'. apply Hstored; [by etrans|done..].
Qed.

Lemma keyOf_nonempty fence s : keyOf fence s ≠ ""%string.
Proof. done. Qed.
Lemma wp_save fence s p ix f h Q :
  is_Some (lock h) → at_ h = Some (p, ix) → own h = Some s → good (f_log f) ix →
  (∀ g h' b, f ⊑f g → valid g → f_stored g !! keyOf fence s = Some ix → own h' = None → lock h' = lock h →
    dirty h' = false → at_ h' = at_ h → Q g h' b) →
  wp (save (keyOf fence s) p ix) f h Q.
Proof.
  intros Hl Ha Ho Hg HQ. unfold save. apply wp_seq. exists ix, fence, s. split_and!; [done..|]. intros g b Hm Hv Hs.
  apply wp_ret. destruct b; apply wp_seq; [apply wp_cache_put with ix ix|apply wp_cache_drop]; try done.
  - eapply good_more; [apply Hm|done].
  - intros g' Hm' Hv'. apply wp_ret, HQ; try done; [by etrans|by eapply more_stored].
  - intros g' Hm' Hv'. apply wp_ret, HQ; try done; [by etrans|by eapply more_stored].
Qed.
Lemma wp_deleteObject key f h Q : Q f h tt → wp (deleteObject key) f h Q.
Proof. intros HQ. unfold deleteObject. by case_match. Qed.

Lemma wp_publish state covered incomplete p ix f h Q :
  lock h = Some true → at_ h = Some (p, ix) → own h = None → good (f_log f) ix →
  (covered ≤ Z.of_nat (length (f_log f)))%Z → (incomplete = false → covers (f_log f) covered ix) →
  (∀ g h' r, f ⊑f g → valid g → lock h' = Some true → own h' = None → dirty h' = false → Q g h' r) →
  wp (publish state covered incomplete p ix) f h Q.
Proof.
  intros Hl Ha Ho Hg Hn Hc HQ. unfold Indexing.publish, newObjectKey. apply wp_seq, wp_seq. split; [done|]. intros s Hs.
  do 2 apply wp_ret. change (String.append _ _) with (keyOf (FenceGeneration state) s). set (key := keyOf _ _).
  apply wp_seq, wp_save; try done. intros g h1 ok Hm Hv Hst Ho1 Hl1 Hd1 Ha1. cbn in Hl1. rewrite Hl in Hl1.
  destruct ok; cbn [negb]; [|by apply wp_ret, HQ]. apply wp_seq. split.
  { pose proof (more_length _ _ Hm). split_and!; cbn; [done..|lia|]. exists ix. split; [done|]. intros Hi.
    eapply covers_more; [done|apply Hm|by apply Hc]. }
  intros g1 r Hm1 Hv1 Ht. apply wp_ret. destruct r as [published|e].
  - destruct (Ht _ eq_refl) as (rec & Hrec & Hkey & Hgen). cbn in Hrec, Hkey.
    assert (Hend : ∀ g2, g1 ⊑f g2 → valid g2 → wp (_ ← deleteObject (ObjectKey state); Ret (Ok published)) g2 h1 Q).
    { intros g2 Hm2 Hv2. apply wp_seq, wp_deleteObject, wp_ret, HQ; try done. by etrans; [|etrans]. }
    apply wp_seq. destruct incomplete; [by apply wp_ret, Hend|].
    apply wp_publishedComplete; [done..| |by intros g2 Hm2 Hv2; apply Hend]. intros _. by exists rec.
  - apply wp_seq, wp_cache_drop; [by rewrite Hl1|]. intros g2 Hm2 Hv2.
    assert (Hend : ∀ g3 r, g2 ⊑f g3 → valid g3 → Q g3 (h1 <| dirty := false |>) r).
    { intros g3 r Hm3 Hv3. apply HQ; try done. by etrans; [|etrans; [|etrans]]. }
    case_match; [by apply wp_seq, wp_deleteObject, wp_ret, Hend|].
    apply wp_seq. intros g3 r Hm3 Hv3 _. apply wp_ret. destruct r as [current|]; [|by apply wp_ret, Hend].
    case_match; apply wp_seq, wp_deleteObject, wp_ret, Hend; done.
Qed.

(** ** Taking updates in *)

Definition batch_ok (f : facts) (updates : list chatUpdate) : Prop := Forall (update_ok f) updates ∧ NoDup (u_id <$> updates).
Definition behind_ok (f : facts) (b : gmap string (list Z)) : Prop :=
  map_Forall (λ id rs, ∀ r, r ∈ rs → ∃ w, log_at (f_log f) r = Some w ∧ wr_id w = id) b.
Definition in_hand (updates : list chatUpdate) : gset Z := list_to_set (updates ≫= revisions).

Lemma elem_of_revisions u r : r ∈ revisions u ↔ (0 < revision u)%Z ∧ r = revision u ∨ r ∈ replaced u.
Proof. unfold revisions. case_bool_decide; [naive_solver lia|]. rewrite elem_of_cons. naive_solver lia. Qed.
Lemma revisions_ok f u r :
  update_ok f u → r ∈ revisions u → (r ≤ revision u)%Z ∧ ∃ w, log_at (f_log f) r = Some w ∧ wr_id w = u_id u.
Proof.
  intros [Hrep Hu] [[? ->]|?]%elem_of_revisions; [|by apply Hrep]. split; [lia|]. destruct (removed u).
  - rewrite bool_decide_true in Hu by lia. by eexists.
  - destruct Hu as (c & Hc & _). by eexists.
Qed.
Lemma batch_more f g us : f ⊑f g → batch_ok f us → batch_ok g us.
Proof. intros Hm [Hf ?]. split; [|done]. eapply Forall_impl; [done|]. intros. by eapply update_ok_more. Qed.
Lemma behind_more f g b : f ⊑f g → behind_ok f b → behind_ok g b.
Proof. intros Hm Hb id rs Hi r Hr. destruct (Hb _ _ Hi r Hr) as (w & ? & ?). exists w. split; [by eapply more_log|done]. Qed.
(** Of its chat, a batch has no write past the update's. *)
Lemma in_hand_last f us u r w :
  batch_ok f us → u ∈ us → r ∈ in_hand us → log_at (f_log f) r = Some w → wr_id w = u_id u → (r ≤ revision u)%Z.
Proof.
  intros [Hf Hnd] Hu Hr Hw Hid. apply elem_of_list_to_set, list_elem_of_bind in Hr as (u' & Hr & Hu').
  rewrite Forall_forall in Hf. destruct (revisions_ok f u' r) as (? & w' & Hw' & Hid'); [by apply Hf|done|]. simplify_eq.
  assert (u' = u) as ->; [|done].
  apply list_elem_of_lookup in Hu as [i Hi], Hu' as [j Hj].
  assert (i = j) as ->; [|congruence].
  eapply (NoDup_lookup _ _ _ (u_id u) Hnd); rewrite list_lookup_fmap; [by rewrite Hi|rewrite Hj; cbn; congruence].
Qed.
(** An update's last write is its own. *)
Lemma update_last f u r w : update_ok f u → r ∈ revisions u → is_last (f_log f) r w → r = revision u ∧ wr_id w = u_id u.
Proof.
  intros Hok Hr [Hw Hl]. destruct (revisions_ok _ _ _ Hok Hr) as (Hle & w' & Hw' & Hid). simplify_eq. split; [|done].
  apply Z.le_antisymm; [done|]. destruct Hok as [Hrep Hu].
  assert (0 < revision u)%Z by (apply log_at_range in Hw; lia).
  destruct (removed u); [rewrite bool_decide_true in Hu by done; by eapply Hl|].
  destruct Hu as (c & Hc & _). by eapply Hl.
Qed.

Lemma spans_took l P took took' ix :
  (∀ r, r ∈ took' → (r ≤ Z.of_nat (length l))%Z) → (∀ r w, is_last l r w → r ∈ took' → reflects ix r w) →
  spans l P took ix → spans l P (took ∪ took') ix.
Proof.
  intros Hn Ht (?&?&?&Hs). split_and!; [done..|set_solver|]. intros r w Hw [?|[?|?]%elem_of_union]; [by apply Hs; [|left]|by apply Hs; [|right]|by apply Ht].
Qed.
(** A chat's entry changed, its last write is in the index if the changed
    one's is. *)
Lemma spans_set l P took ix ix' id o :
  Reindex ix' = Reindex ix → (∀ id', rev_of ix' id' = if decide (id' = id) then o else rev_of ix id') →
  (∀ r w, is_last l r w → wr_id w = id → (r ≤ P)%Z ∨ r ∈ took → o = match w with WPut _ _ => Some r | WDelete _ => None end) →
  spans l P took ix → spans l P took ix'.
Proof.
  intros Hx Hr Ho (?&?&?&Hs). split_and!; [congruence|done..|]. intros r w Hw Hin. unfold reflects. rewrite Hr.
  case_decide as Hid; [by apply Ho|by apply Hs].
Qed.

(** What a batch has made of the index, on a base that is complete through
    [P] if [c], by a goroutine that holds the lock and, when it has changed
    the cached index, has said so. *)
Definition outcome_ok (f : facts) (c : bool) (P : Z) (took : gset Z) (u : chatUpdate) (x : Index * bool * outcome) : Prop :=
  good (f_log f) x.1.1 ∧
  (c = true → spans (f_log f) P (match x.2 with taken => took ∪ list_to_set (revisions u) | _ => took end) x.1.1).
Definition taking_ok (f : facts) (c : bool) (P : Z) (us : list chatUpdate) (t : taking) : Prop :=
  good (f_log f) (tk_ix t) ∧ took t ⊆ in_hand us ∧ (c = true → spans (f_log f) P (took t) (tk_ix t)) ∧ behind_ok f (behind t).
Definition writing (h : hold) (p : nat) (ix : Index) (changed : bool) : Prop :=
  lock h = Some true ∧ own h = None ∧ at_ h = Some (p, ix) ∧ (dirty h = true → changed = true).

Lemma taking_more f g c P us t : f ⊑f g → taking_ok f c P us t → taking_ok g c P us t.
Proof.
  intros Hm (?&?&Hs&?). split_and!; [by eapply good_more; [apply Hm|]|done| |by eapply behind_more].
  intros Hc. eapply spans_more; [apply Hm|by apply Hs].
Qed.
Lemma outcome_more f g c P took u x : f ⊑f g → outcome_ok f c P took u x → outcome_ok g c P took u x.
Proof.
  intros Hm [? Hs]. split; [by eapply good_more; [apply Hm|]|]. intros Hc. eapply spans_more; [apply Hm|by apply Hs].
Qed.

Lemma wp_snapshotState id etag f h (Q : facts → hold → result () snapshot → Prop) :
  (∀ g r, f ⊑f g → valid g →
    match r with Ok snapshotDeleted => ¬ live (f_log g) id | Ok snapshotCurrent => live (f_log g) id | _ => True end → Q g h r) →
  wp (snapshotState id etag) f h Q.
Proof.
  intros HQ. unfold snapshotState, currentETag. apply wp_seq, wp_seq. intros g r Hm Hv Ht. apply wp_ret.
  assert (Hok : ∀ g etag', f ⊑f g → valid g → live (f_log g) id →
    wp (Ret (Ok (if String.eqb etag' etag then snapshotCurrent else snapshotStale))) g h Q).
  { intros g' e' Hm' Hv' Hl. apply wp_ret, HQ; [done..|]. by destruct (String.eqb _ _). }
  destruct r as [e|e]; [by apply wp_ret, Hok|]. apply wp_seq. intros g' r Hm' Hv' Ht'. do 2 apply wp_ret.
  assert (f ⊑f g') by by etrans. destruct r as [e'|e']; [by apply Hok|].
  apply wp_ret, HQ; [done..|]. unfold controlplaneStatus. destruct e' as [s| |]; [|done..]. case_bool_decide; [|done]. by apply Ht'.
Qed.

(** A put's update, taken as it is: the index has its write or a later one
    of its chat. *)
Lemma store_kept f c P t u r0 :
  update_ok f u → removed u = false → good (f_log f) (tk_ix t) → (c = true → spans (f_log f) P (took t) (tk_ix t)) →
  rev_of (tk_ix t) (u_id u) = Some r0 → (revision u ≤ r0)%Z →
  outcome_ok f c P (took t) u (tk_ix t, false, taken).
Proof.
  intros Hok Hrm Hg Hs Hr Hle. split; [done|]. intros Hc. apply spans_took; [| |by apply Hs].
  - intros r Hi%elem_of_list_to_set. destruct (revisions_ok _ _ _ Hok Hi) as (_ & w & Hw & _). apply log_at_range in Hw. lia.
  - intros r w Hw Hi%elem_of_list_to_set.
    destruct (update_last _ _ _ _ Hok Hi Hw) as [-> Hid]. destruct Hok as [_ Hok]. rewrite Hrm in Hok. destruct Hok as (cc & Hput & _).
    destruct (good_rev _ _ _ _ Hg Hr) as (c' & Hc'). destruct Hw as [Hw Hl]. simplify_eq. cbn in Hid.
    assert (r0 = revision u) as -> by (apply Z.le_antisymm; [eapply Hl; [done|done]|done]). exact Hr.
Qed.

(** Written, the index has the update's write, its chat's last that a base
    complete or the batch has: no later one is in hand. *)
Lemma stored_ok f c P us t u cc ix' :
  batch_ok f us → u ∈ us → taking_ok f c P us t → log_at (f_log f) (revision u) = Some (WPut (u_id u) cc) →
  (∀ r, rev_of (tk_ix t) (u_id u) = Some r → (r ≤ revision u)%Z) →
  (c = true → ∀ r, is_last (f_log f) r (WDelete (u_id u)) → (r ≤ P)%Z → (r ≤ revision u)%Z) →
  good (f_log f) ix' → Reindex ix' = Reindex (tk_ix t) →
  (∀ id', rev_of ix' id' = if decide (id' = u_id u) then Some (revision u) else rev_of (tk_ix t) id') →
  outcome_ok f c P (took t) u (ix', true, taken).
Proof.
  intros Hb Hu (Hg & Hin & Hs & _) Hput Hno Hdel Hg' Hx Hr. split; [done|]. intros Hc. cbn [snd fst].
  assert (Hok : update_ok f u) by (destruct Hb as [Hb _]; rewrite Forall_forall in Hb; by apply Hb).
  apply spans_took.
  - intros r Hi%elem_of_list_to_set. destruct (revisions_ok _ _ _ Hok Hi) as (_ & w & Hw & _). apply log_at_range in Hw. lia.
  - intros r w Hw Hi%elem_of_list_to_set. destruct (update_last _ _ _ _ Hok Hi Hw) as [-> Hid]. destruct Hw as [Hw Hl].
    simplify_eq. unfold reflects. cbn in *. by rewrite Hr, decide_True.
  - eapply spans_set; [done..| |by apply Hs]. intros r w Hw Hid Hrp.
    assert (Hrep : reflects (tk_ix t) r w) by by apply (Hs Hc).
    assert (Hle : (revision u ≤ r)%Z) by by apply (proj2 Hw _ _ Hput).
    assert (Hge : (r ≤ revision u)%Z).
    { destruct Hrp as [Hrp|Hrp]; [|by eapply in_hand_last; [..|apply Hin|apply Hw|]; done].
      destruct w as [id cw|id]; cbn in Hid; subst id; [by apply Hno|by apply Hdel]. }
    assert (r = revision u) as -> by lia. destruct Hw as [Hw _]. by simplify_eq.
Qed.

Lemma supersedes_le l ix id e0 etag rev at_ :
  good l ix → Chats ix !! id = Some e0 → (0 < rev)%Z →
  entrySupersedes entryTime e0 etag rev at_ || bool_decide (SourceRevision e0 = rev) && String.eqb (ETag e0) etag = true →
  (rev ≤ SourceRevision e0)%Z.
Proof.
  intros (_&_&Hg) He Hpos Hst. destruct (Hg _ _ He) as (c & Hc & _). apply log_at_range in Hc. unfold entrySupersedes in Hst.
  rewrite !bool_decide_true in Hst by lia. cbn in Hst. apply orb_true_iff in Hst as [Hst|[Hst _]%andb_true_iff];
    apply bool_decide_eq_true in Hst; lia.
Qed.
Lemma not_superseded_le l ix id e0 etag rev at_ :
  good l ix → Chats ix !! id = Some e0 → (0 < rev)%Z →
  entrySupersedes entryTime e0 etag rev at_ || bool_decide (SourceRevision e0 = rev) && String.eqb (ETag e0) etag = false →
  (SourceRevision e0 ≤ rev)%Z.
Proof.
  intros (_&_&Hg) He Hpos Hst. destruct (Hg _ _ He) as (c & Hc & _). apply log_at_range in Hc. unfold entrySupersedes in Hst.
  rewrite !bool_decide_true in Hst by lia. cbn in Hst. apply orb_false_iff in Hst as [Hst _]. apply bool_decide_eq_false in Hst. lia.
Qed.
Lemma liveSince_all rev source hand r : liveSince rev source hand = true → (rev < r ≤ source)%Z → r ∈ hand.
Proof.
  unfold liveSince. case_bool_decide; [done|]. rewrite forallb_forall. intros Hl Hr.
  specialize (Hl r). rewrite bool_decide_eq_true in Hl. apply Hl, list_elem_of_In, elem_of_seqZ. lia.
Qed.

Lemma batch_elem f us u : batch_ok f us → u ∈ us → update_ok f u.
Proof. intros [Hb _] Hu. rewrite Forall_forall in Hb. by apply Hb. Qed.
Lemma put_log f u : update_ok f u → removed u = false →
  ∃ c, log_at (f_log f) (revision u) = Some (WPut (u_id u) c) ∧ u_tokens u = tokens c ∧ (0 < revision u)%Z.
Proof.
  intros [_ Hu] Hrm. rewrite Hrm in Hu. destruct Hu as (c & Hc & Ht). exists c. split_and!; [done..|].
  apply log_at_range in Hc. lia.
Qed.

(** The entry's write, as [storeEntry] makes it. *)
Definition stores (p : nat) (ix : Index) (u : chatUpdate) (e : Entry) : prog F (Index * bool * outcome) :=
  let store :=
    match Chats ix !! u_id u with
    | Some existing =>
        entrySupersedes entryTime existing (u_etag u) (revision u) (u_at u) ||
        bool_decide (SourceRevision existing = revision u) && String.eqb (ETag existing) (u_etag u)
    | None => false
    end in
  if store then Ret (ix, false, taken)
  else
    '(r, ix) ← ofOption (Upsert ix (u_id u) e (u_tokens u));
    _ ← change p ix;
    Ret match r with Ok _ => (ix, true, taken) | Err _ => (ix, false, missed) end.

Section Take.
Context (c : bool) (P : Z) (us : list chatUpdate) (t : taking) (u : chatUpdate) (Hu : u ∈ us).
Context (p : nat) (Q : facts → hold → Index * bool * outcome → Prop).

(** What is left to show of the outcome of an update. *)
Definition takes (f : facts) : Prop := ∀ g h x,
  f ⊑f g → valid g → outcome_ok g c P (took t) u x → writing h p x.1.1 (changed t || x.1.2) → Q g h x.
Lemma takes_more f g : f ⊑f g → takes f → takes g.
Proof. intros Hm HQ g' h x Hm'. apply HQ. by etrans. Qed.

Lemma unchanged_ok f o :
  taking_ok f c P us t → o ≠ taken → outcome_ok f c P (took t) u (tk_ix t, false, o).
Proof. intros (?&?&?&_) Ho. split; [done|]. by destruct o. Qed.
Lemma wp_kept f h o :
  valid f → writing h p (tk_ix t) (changed t) → outcome_ok f c P (took t) u (tk_ix t, false, o) → takes f →
  wp (Ret (tk_ix t, false, o)) f h Q.
Proof. intros Hv Hw Ho HQ. apply wp_ret, HQ; [done..|]. by rewrite orb_false_r. Qed.
(** The cached index, changed in place. *)
Lemma wp_changed f h ix o :
  writing h p (tk_ix t) (changed t) → outcome_ok f c P (took t) u (ix, true, o) → takes f →
  wp (_ ← change p ix; Ret (ix, true, o)) f h Q.
Proof.
  intros (Hl & Ho & Ha & _) Hout HQ. apply wp_seq. eapply wp_change; [done..|]. intros g Hm Hv. apply wp_ret, HQ; [done..| |].
  - by eapply outcome_more.
  - split_and!; [done..|]. intros _. by destruct (changed t).
Qed.

Lemma wp_stores f h e :
  valid f → batch_ok f us → taking_ok f c P us t → writing h p (tk_ix t) (changed t) →
  removed u = false → SourceRevision e = revision u →
  (c = true → ∀ r, is_last (f_log f) r (WDelete (u_id u)) → (r ≤ P)%Z → (r ≤ revision u)%Z) → takes f →
  wp (stores p (tk_ix t) u e) f h Q.
Proof.
  intros Hv Hb Ht Hw Hrm He Hdel HQ. pose proof (batch_elem _ _ _ Hb Hu) as Hok.
  destruct (put_log _ _ Hok Hrm) as (cc & Hput & Htok & Hpos). pose proof Ht as (Hg & Hin & Hs & _).
  unfold stores. case_match eqn:Hst.
  - destruct (Chats (tk_ix t) !! u_id u) as [e0|] eqn:He0; [|done].
    pose proof (supersedes_le _ _ _ _ _ _ _ Hg He0 Hpos Hst) as Hle. apply wp_kept; [done..| |done].
    eapply store_kept; [done..| |done]. apply rev_of_Some. eauto.
  - assert (Hno : ∀ r, rev_of (tk_ix t) (u_id u) = Some r → (r ≤ revision u)%Z).
    { intros r (e0 & He0 & <-)%rev_of_Some. rewrite He0 in Hst. by eapply not_superseded_le. }
    destruct (upsert_good _ _ (u_id u) e (u_tokens u) cc Hg) as (r & ix' & Hup & Hg' & Hx & Hr); [by rewrite He|exact Htok|].
    rewrite Hup. apply wp_seq, wp_ret. destruct r as [[]|err].
    + apply (wp_changed f); [done| |done]. rewrite He in Hr. by eapply stored_ok.
    + subst ix'. apply wp_seq, wp_change_same; [apply Hw|]. intros g Hm Hv'. apply wp_kept; [done..| |by eapply takes_more].
      apply unchanged_ok; [by eapply taking_more|done].
Qed.

Lemma storeEntry_eq source e :
  storeEntry entryTime source (in_hand us) p (tk_ix t) u e =
  if liveSince (revision u) source (in_hand us) then stores p (tk_ix t) u e
  else
    state ← snapshotState (u_id u) (u_etag u);
    match state with
    | Err _ => Ret (tk_ix t, false, missed)
    | Ok snapshotStale => Ret (tk_ix t, false, superseded)
    | Ok snapshotDeleted =>
        let indexed := bool_decide (is_Some (Chats (tk_ix t) !! u_id u)) in
        ix ← ofOption (Remove (tk_ix t) (u_id u));
        _ ← change p ix;
        Ret (ix, indexed, superseded)
    | Ok snapshotCurrent => stores p (tk_ix t) u e
    end.
Proof. done. Qed.

(** A chat that is gone, dropped from the index. *)
Lemma dropped_ok f o ix' :
  taking_ok f c P us t → (∀ r cc, is_last (f_log f) r (WPut (u_id u) cc) → (r ≤ P)%Z ∨ r ∈ took t → c = true → False) →
  good (f_log f) ix' → Reindex ix' = Reindex (tk_ix t) →
  (∀ id', rev_of ix' id' = if decide (id' = u_id u) then None else rev_of (tk_ix t) id') →
  (o = taken → c = true → ∀ r w, is_last (f_log f) r w → r ∈ revisions u → reflects ix' r w) → update_ok f u →
  ∀ b, outcome_ok f c P (took t) u (ix', b, o).
Proof.
  intros (_ & _ & Hs & _) Hno Hg Hx Hr Hrev Hok b. split; [done|]. cbn. intros Hc.
  assert (Hsp : spans (f_log f) P (took t) ix').
  { eapply spans_set; [done..| |by apply Hs]. intros r w Hw Hid Hin. destruct w as [id cw|id]; [|done]. cbn in Hid. subst id.
    by destruct (Hno _ _ Hw Hin Hc). }
  destruct o; [done| |done]. apply spans_took; [| |done].
  - intros r Hi%elem_of_list_to_set. destruct (revisions_ok _ _ _ Hok Hi) as (_ & w & Hw & _). apply log_at_range in Hw. lia.
  - intros r w Hw Hi%elem_of_list_to_set. by apply Hrev.
Qed.

Lemma wp_storeEntry f h source e :
  valid f → batch_ok f us → taking_ok f c P us t → writing h p (tk_ix t) (changed t) →
  removed u = false → SourceRevision e = revision u → (P ≤ source)%Z → takes f →
  wp (storeEntry entryTime source (in_hand us) p (tk_ix t) u e) f h Q.
Proof.
  intros Hv Hb Ht Hw Hrm He HP HQ. rewrite storeEntry_eq. destruct (liveSince _ _ _) eqn:Hlive.
  { apply wp_stores; [done..| |done]. intros _ r Hl Hr. destruct (Z.le_gt_cases r (revision u)) as [?|Hgt]; [done|].
    eapply (in_hand_last f us u r); [done..| |apply Hl|done]. eapply liveSince_all; [done|lia]. }
  apply wp_seq, wp_snapshotState. intros g r Hm Hv' Hr.
  assert (Hb' : batch_ok g us) by by eapply batch_more. assert (Ht' : taking_ok g c P us t) by by eapply taking_more.
  assert (HQ' : takes g) by by eapply takes_more.
  destruct r as [[]|]; [|apply wp_kept; [done..|by apply unchanged_ok|done]| |apply wp_kept; [done..|by apply unchanged_ok|done]].
  - apply wp_stores; [done..| |done]. intros _ r Hl _. destruct Hr as (r' & cc & Hl').
    by destruct (is_last_unique _ _ _ _ _ Hl Hl').
  - pose proof Ht' as (Hg & _). destruct (deleted_good _ _ (u_id u) Hg) as (ix' & -> & Hg' & Hx & Hnone & Hr').
    assert (Hout : ∀ b, outcome_ok g c P (took t) u (ix', b, superseded)).
    { apply dropped_ok; try done; [|by eapply batch_elem]. intros r cc Hl _ _. apply Hr. by exists r, cc. }
    apply wp_seq, wp_ret. case_bool_decide as Hi; [by apply (wp_changed g)|].
    assert (ix' = tk_ix t) as -> by (by apply Hnone, rev_of_None, eq_None_not_Some).
    apply wp_seq, wp_change_same; [apply Hw|]. intros g' Hm' Hv''. apply wp_kept; [done..| |by eapply takes_more].
    by eapply outcome_more.
Qed.

Lemma wp_removeEntry f h state b :
  valid f → batch_ok f us → taking_ok f c P us t → writing h p (tk_ix t) (changed t) → removed u = true →
  takes f → wp (removeEntry p (tk_ix t) state u b) f h Q.
Proof.
  intros Hv Hb Ht Hw Hrm HQ. pose proof (batch_elem _ _ _ Hb Hu) as Hok. pose proof Ht as (Hg & Hin & Hs & _).
  unfold removeEntry. destruct b; [apply wp_kept; [done..|by apply unchanged_ok|done]|].
  (* the update's own write is the deletion *)
  assert (Hdel : ∀ r w, is_last (f_log f) r w → r ∈ revisions u → w = WDelete (u_id u)).
  { intros r w Hl Hr. destruct (update_last _ _ _ _ Hok Hr Hl) as [-> _]. destruct Hl as [Hl _]. pose proof (log_at_range _ _ _ Hl).
    destruct Hok as [_ Hok]. rewrite Hrm, bool_decide_true in Hok by lia. congruence. }
  assert (Hsk : (∀ r, r ∈ revisions u → ∀ w, is_last (f_log f) r w → rev_of (tk_ix t) (u_id u) = None) →
    outcome_ok f c P (took t) u (tk_ix t, false, taken)).
  { intros Hn. split; [done|]. intros Hc. apply spans_took; [| |by apply Hs].
    - intros r Hi%elem_of_list_to_set. destruct (revisions_ok _ _ _ Hok Hi) as (_ & w & Hl & _). apply log_at_range in Hl. lia.
    - intros r w Hl Hi%elem_of_list_to_set. rewrite (Hdel _ _ Hl Hi). by apply (Hn r Hi w). }
  assert (Hrem : (∀ r, rev_of (tk_ix t) (u_id u) = Some r → (0 < revision u)%Z → (r ≤ revision u)%Z) →
    wp (ix ← ofOption (Remove (tk_ix t) (u_id u)); _ ← change p ix; Ret (ix, true, taken)) f h Q).
  { intros Hno. destruct (deleted_good _ _ (u_id u) Hg) as (ix' & -> & Hg' & Hx & _ & Hr').
    apply wp_seq, wp_ret, (wp_changed f); [done| |done]. apply dropped_ok; try done.
    - intros r cc Hl Hrp Hc. assert (Hrep := proj2 (proj2 (proj2 (Hs Hc))) _ _ Hl Hrp). cbn in Hrep. pose proof Hok as [_ Hd].
      rewrite Hrm in Hd. case_bool_decide as Hpos; [|destruct (v_gone _ Hv _ Hd); by exists r, cc].
      specialize (Hno _ Hrep Hpos). destruct Hl as [Hl Hlast]. specialize (Hlast _ _ Hd eq_refl).
      assert (r = revision u) as -> by lia. congruence.
    - intros _ _ r w Hl Hr. rewrite (Hdel _ _ Hl Hr). unfold reflects; cbn. by rewrite Hr', decide_True. }
  destruct (Chats (tk_ix t) !! u_id u) as [e0|] eqn:He0.
  - case_match eqn:Hlt.
    + apply andb_true_iff in Hlt as [Hpos%bool_decide_eq_true Hlt%bool_decide_eq_true]. apply wp_kept; [done..| |done].
      apply Hsk. intros r Hr w Hl. exfalso. pose proof (Hdel _ _ Hl Hr) as ->. destruct (update_last _ _ _ _ Hok Hr Hl) as [-> _].
      destruct (good_rev _ _ (u_id u) (SourceRevision e0) Hg) as (cc & Hcc); [apply rev_of_Some; eauto|].
      destruct Hl as [_ Hl]. specialize (Hl _ _ Hcc eq_refl). lia.
    + apply Hrem. intros r (e1 & He1 & <-)%rev_of_Some Hpos. simplify_eq. apply andb_false_iff in Hlt as [Hlt|Hlt];
        apply bool_decide_eq_false in Hlt; lia.
  - case_bool_decide; [|apply Hrem; intros r (e1 & He1 & _)%rev_of_Some; congruence].
    apply wp_kept; [done..| |done]. apply Hsk. intros _ _ _ _. by apply rev_of_None.
Qed.
End Take.

Lemma in_hand_elem us u r : u ∈ us → r ∈ revisions u → r ∈ in_hand us.
Proof. intros Hu Hr. apply elem_of_list_to_set, list_elem_of_bind. by exists u. Qed.
Lemma wp_takeAll c P us p source state remade Q xs : ∀ f h t,
  valid f → batch_ok f us → taking_ok f c P us t → writing h p (tk_ix t) (changed t) → (P ≤ source)%Z →
  Forall (λ x, x.1 ∈ us ∧ SourceRevision x.2 = revision x.1) xs →
  (∀ g h t, f ⊑f g → valid g → taking_ok g c P us t → writing h p (tk_ix t) (changed t) → Q g h t) →
  wp (takeAll entryTime source (in_hand us) p state remade xs t) f h Q.
Proof.
  induction xs as [|[u e] xs IH]; intros f h t Hv Hb Ht Hw HP Hxs HQ; [by apply wp_ret, HQ|].
  apply Forall_cons in Hxs as [[Hu He] Hxs]. cbn [takeAll]. cbn in Hu, He. apply wp_seq.
  assert (HT : takes c P t u p (λ g h x, wp (let '(ix, mutated, result) := x in
    takeAll entryTime source (in_hand us) p state remade xs
      (mkTaking ix (changed t || mutated)
         (match result with taken => took t ∪ list_to_set (revisions u) | _ => took t end)
         (match result with
          | superseded => if bool_decide (revisions u = []) then behind t else <[u_id u := revisions u]> (behind t)
          | _ => behind t end))) g h Q) f).
  { intros g h' [[ix m] o] Hm Hv' [Hg Hs] Hw'. assert (Hb' : batch_ok g us) by by eapply batch_more.
    pose proof (taking_more _ _ _ _ _ _ Hm Ht) as (_ & Hin & _ & Hbh). pose proof (batch_elem _ _ _ Hb' Hu) as Hok.
    apply IH; [done..| |done|done|done|].
    - split_and!; cbn; [done| |done|].
      + destruct o; [done| |done]. apply union_subseteq. split; [done|]. intros r Hr%elem_of_list_to_set. by eapply in_hand_elem.
      + destruct o; [done..|]. case_bool_decide; [done|]. apply map_Forall_insert_2; [|done]. intros r Hr.
        by apply (revisions_ok _ _ _ Hok Hr).
    - intros g' h'' t' Hm'. apply HQ. by etrans. }
  destruct (removed u) eqn:Hrm.
  - eapply wp_removeEntry; [exact Hu|done..|exact HT].
  - eapply wp_storeEntry; [exact Hu|done..|exact HT].
Qed.

Lemma coverLoop_spec n took P :
  (P ≤ coverLoop n took P)%Z ∧ (∀ r, (P < r ≤ coverLoop n took P)%Z → r ∈ took).
Proof.
  revert P. induction n as [|n IH]; intros P; cbn [coverLoop]; [split; [done|lia]|].
  case_bool_decide as Hin; [|split; [done|lia]]. destruct (IH (P + 1)%Z) as [Hle Hr]. split; [lia|].
  intros r Hr'. destruct (decide (r = (P + 1)%Z)) as [->|]; [done|]. apply Hr. lia.
Qed.
Lemma cover_covers l P took n ix : spans l P took ix → covers l (coverLoop n took P) ix ∧ (coverLoop n took P ≤ Z.of_nat (length l))%Z.
Proof.
  intros (Hx & HP & Ht & Hs). destruct (coverLoop_spec n took P) as [Hle Hc]. split.
  - split; [done|]. intros r w Hw Hr. apply Hs; [done|]. destruct (Z.le_gt_cases r P); [by left|right]. apply Hc. lia.
  - destruct (Z.le_gt_cases (coverLoop n took P) P); [lia|]. apply Ht, Hc. lia.
Qed.
Lemma coverLoop_bound n took P m : (∀ r, r ∈ took → (r ≤ m)%Z) → (P ≤ m)%Z → (coverLoop n took P ≤ m)%Z.
Proof.
  intros Ht HP. destruct (coverLoop_spec n took P) as [Hle Hc]. destruct (Z.le_gt_cases (coverLoop n took P) P); [lia|].
  apply Ht, Hc. lia.
Qed.
Lemma hand_bound f us r : batch_ok f us → r ∈ in_hand us → (r ≤ Z.of_nat (length (f_log f)))%Z.
Proof.
  intros Hb Hr. apply elem_of_list_to_set, list_elem_of_bind in Hr as (u & Hr & Hu).
  destruct (revisions_ok _ _ _ (batch_elem _ _ _ Hb Hu) Hr) as (_ & w & Hw & _). apply log_at_range in Hw. lia.
Qed.
(** The fuel is enough: what follows on is all covered. *)
Lemma coverLoop_end n took P : size took ≤ n → (coverLoop n took P + 1)%Z ∉ took.
Proof.
  intros Hn Hin.
  assert (Hran : coverLoop n took P = (P + Z.of_nat n)%Z).
  { clear Hn. revert P Hin. induction n as [|n IH]; intros P; cbn [coverLoop]; [lia|]. case_bool_decide as Hd; [|done].
    intros Hin. rewrite IH by done. lia. }
  destruct (coverLoop_spec n took P) as [_ Hc]. rewrite Hran in Hin, Hc.
  assert (Hsub : list_to_set (seqZ (P + 1) (Z.of_nat (S n))) ⊆ took).
  { intros r Hr%elem_of_list_to_set%elem_of_seqZ. destruct (decide (r = P + Z.of_nat n + 1)%Z) as [->|]; [done|]. apply Hc. lia. }
  apply subseteq_size in Hsub. rewrite size_list_to_set, length_seqZ in Hsub by apply NoDup_seqZ. lia.
Qed.

(** ** A batch, applied *)

(** A record as a goroutine read it, and the object it reads for it. *)
Definition known (f : facts) (s : SearchIndexState) (said : bool) (key : string) : Prop :=
  ∃ rec, (rec, said) ∈ f_records f ∧ ObjectKey s = ObjectKey rec ∧ PublicationGeneration s = PublicationGeneration rec ∧
    PublishedSourceRevision s = PublishedSourceRevision rec ∧ PublicationIncomplete s = PublicationIncomplete rec ∧
    (PublishedSourceRevision rec ≤ s_SourceRevision s)%Z ∧
    key = readableObject kid model s ∧ (key ≠ ""%string → ours rec).
Definition readable (s : SearchIndexState) (key : string) (st : loadState) : bool :=
  String.eqb (ObjectKey s) "" ||
  bool_decide ((if negb (String.eqb (ObjectKey s) "") && String.eqb key "" then loadUnreadable else st) = loadOK).

Lemma known_more f g s said key : f ⊑f g → known f s said key → known g s said key.
Proof. intros Hm (rec & Hr & ?). exists rec. split; [by eapply more_record|done]. Qed.
Lemma known_record f s said key :
  valid f → known f s said key →
  (0 ≤ PublishedSourceRevision s ≤ Z.of_nat (length (f_log f)))%Z ∧ (PublicationIncomplete s = false → said = true).
Proof.
  intros Hv (rec & Hr & _ & _ & -> & -> & _). pose proof (v_records _ Hv) as Hrs. rewrite Forall_forall in Hrs.
  by destruct (Hrs _ Hr) as (? & ? & _).
Qed.

Lemma wp_publication f h Q :
  (∀ g r, f ⊑f g → valid g →
    match r with
    | Ok (s, key) => s_SourceRevision s = Z.of_nat (length (f_log g)) ∧
        s_Incomplete s = PublicationIncomplete s || bool_decide (PublishedSourceRevision s < s_SourceRevision s)%Z ∧
        ∃ said, known g s said key
    | Err _ => True
    end → Q g h r) →
  wp (publication kid model) f h Q.
Proof.
  intros HQ. unfold publication, getState. apply wp_seq. intros g r Hm Hv Ht. do 2 apply wp_ret. apply HQ; [done..|].
  destruct r as [s|]; [|done]. destruct (Ht s eq_refl) as (rec & said & k & Hr & ->). do 2 (split; [done|]). exists said, rec.
  pose proof (v_records _ Hv) as Hrs. rewrite Forall_forall in Hrs. destruct (Hrs _ Hr) as (HP & _).
  split_and!; try done; [cbn; lia|]. unfold readableObject, ours; cbn. case_match eqn:Hk; [done|]. intros Hne. split; [done|].
  destruct (String.eqb_spec (ObjectKey rec) ""); [done|]. cbn in Hk.
  apply orb_false_iff in Hk as [H1%negb_false_iff%String.eqb_eq H2%negb_false_iff%String.eqb_eq]. done.
Qed.

(** What the record says is complete is so of the index loaded for it. *)
Lemma base_covers g h s said key p ix st :
  valid g → known g s said key → loaded g key h (Ok (p, ix, st)) → said = true → readable s key st = true →
  covers (f_log g) (PublishedSourceRevision s) ix.
Proof.
  intros Hv (rec & Hr & Hk & Hgen & HP & Hi & Hsrc & -> & Hours) (Ha & Hg & Hst) -> Hrd.
  pose proof (v_records _ Hv) as Hrs. rewrite Forall_forall in Hrs. destruct (Hrs _ Hr) as (_ & _ & Hnone & Hcov).
  rewrite HP. unfold readable in Hrd. destruct (String.eqb_spec (ObjectKey s) "") as [He|He]; cbn in Hrd.
  - rewrite Hnone by (congruence || done). assert (ix = New model) as ->; [|apply covers_spans, New_spans; lia].
    destruct st; [|done..]. destruct Hst as (ix' & Hix & _).
    destruct (v_stored _ Hv _ _ Hix) as [[] _]. unfold readableObject. by rewrite He.
  - destruct (String.eqb_spec (readableObject kid model s) "") as [He'|He']; [done|]. apply bool_decide_eq_true in Hrd. subst st.
    destruct Hst as (ix' & Hix & Hsame). destruct (Hcov (Hours He')) as (ix0 & Hix0 & Hc).
    assert (readableObject kid model s = ObjectKey rec) as Hro.
    { unfold readableObject in *. case_match; [done|congruence]. }
    rewrite Hro, Hix0 in Hix. simplify_eq. eapply covers_same; [|by apply Hc]. split; [symmetry; apply Hsame|].
    intros id. symmetry. apply Hsame.
Qed.

(** A generation is one record's. *)
Lemma record_generation f s s' said said' :
  valid f → (s, said) ∈ f_records f → (s', said') ∈ f_records f → PublicationGeneration s = PublicationGeneration s' →
  said = said'.
Proof.
  intros Hv Hs Hs' Hg. pose proof (v_order _ Hv) as Ho. revert Hs Hs' Ho. generalize (f_records f) as l.
  induction l as [|x l IH]; [by intros ?%elem_of_nil|]. rewrite !elem_of_cons. intros Hs Hs' Ho. cbn in Ho.
  inversion Ho as [|? ? Ho' Hall]; subst. rewrite Forall_fmap, Forall_forall in Hall. unfold compose in Hall.
  destruct Hs as [<-|Hs], Hs' as [Heq|Hs']; [congruence| |subst x|by apply IH].
  - specialize (Hall _ Hs'). cbn in Hall. lia.
  - specialize (Hall _ Hs). cbn in Hall. lia.
Qed.
Lemma wp_completeThrough s said key f h Q :
  valid f → known f s said key → lock h = Some true →
  (∀ g b, f ⊑f g → valid g → (b = true → said = true) → Q g h b) →
  wp (completeThrough s key) f h Q.
Proof.
  intros Hv Hk Hl HQ. unfold completeThrough. destruct (PublicationIncomplete s) eqn:Hi; cbn [negb].
  2: { apply wp_ret, HQ; [done..|]. intros _. by apply (known_record _ _ _ _ Hv Hk). }
  unfold completeAt. apply wp_locally. intros g m l Hm Hv' Hok Hc. exists h. split_and!; [done..|].
  apply HQ; [done..|]. cbn. destruct (slot l) as [c|] eqn:Hs; [|done]. intros Hb.
  apply andb_true_iff in Hb as [[Hn Hkey]%andb_true_iff Hg]. apply bool_decide_eq_true in Hn, Hg.
  destruct (proj2 (proj2 (proj2 Hok)) _ Hs) as (s' & Hs' & _ & Hgen); [lia|]. destruct (known_more _ _ _ _ _ Hm Hk) as (rec & Hrec & _ & Hgen' & _).
  symmetry. eapply record_generation; [done..|]. congruence.
Qed.

Abbreviation applyAttempts := (applyAttempts (F := F) kid model validTime entryTime).
Definition batch_result (g : facts) (h : hold) (r : result () (gmap string (list Z))) : Prop :=
  lock h = Some true ∧ own h = None ∧ dirty h = false ∧ match r with Ok b => behind_ok g b | Err _ => True end.

Lemma taking_covers f c P us t n :
  batch_ok f us → taking_ok f c P us t → (P ≤ Z.of_nat (length (f_log f)))%Z →
  (coverLoop n (took t) P ≤ Z.of_nat (length (f_log f)))%Z ∧
  (c = true → covers (f_log f) (coverLoop n (took t) P) (tk_ix t)).
Proof.
  intros Hb (_ & Hin & Hs & _) HP. split.
  - apply coverLoop_bound; [|done]. intros r Hr. eapply hand_bound; [done|by apply Hin].
  - intros Hc. by apply cover_covers, Hs.
Qed.

Lemma wp_applyAttempts us remade xs Q tries : ∀ f h,
  valid f → batch_ok f us → Forall (λ x, x.1 ∈ us ∧ SourceRevision x.2 = revision x.1) xs →
  lock h = Some true → own h = None → dirty h = false →
  (∀ g h r, f ⊑f g → valid g → batch_result g h r → Q g h r) →
  wp (applyAttempts tries (in_hand us) remade xs) f h Q.
Proof.
  induction tries as [|tries IH]; intros f h Hv Hb Hxs Hl Ho Hd HQ; [by apply wp_ret, HQ|].
  cbn [Indexing.applyAttempts]. apply wp_seq, wp_publication. intros g r Hm Hv1 Hr. destruct r as [[s key]|]; [|by apply wp_ret, HQ].
  destruct Hr as (_ & _ & said & Hk). apply wp_seq, wp_load; [done|by rewrite Hl|done|].
  intros g1 h1 r Hm1 Hv2 Ho1 Hl1 Hd1 Hld. rewrite Hl in Hl1. rewrite Ho in Ho1. assert (f ⊑f g1) by by etrans.
  destruct r as [[[p ix] st]|]; [|by apply wp_ret, HQ]. apply (known_more _ g1) in Hk; [|done].
  destruct (known_record _ _ _ _ Hv2 Hk) as [HP Hsaid]. assert (batch_ok g1 us) by by eapply batch_more.
  set (st' := if _ : bool then loadUnreadable else st). apply wp_seq.
  apply (wp_takeAll (said && readable s key st) (PublishedSourceRevision s) us); try done.
  { split_and!; cbn; [apply Hld|done| |done]. intros [-> Hrd]%andb_true_iff. apply covers_spans; [lia|]. by eapply base_covers. }
  { split_and!; cbn; [done..|apply Hld|congruence]. }
  { destruct Hk as (rec & _ & _ & _ & -> & _ & ? & _). done. }
  intros g2 h2 t Hm2 Hv3 Ht Hw. assert (Hk2 : known g2 s said key) by by eapply known_more.
  set (covered := coverLoop _ _ _). assert (f ⊑f g2) by by etrans.
  case_match eqn:Hch.
  { apply wp_ret, HQ; [done..|]. apply andb_true_iff in Hch as [Hch%negb_true_iff _]. destruct Hw as (?&?&_&Hdc).
    split_and!; [done..| |apply Ht]. destruct (dirty h2); [|done]. by rewrite Hdc in Hch. }
  change (String.eqb (ObjectKey s) "" || bool_decide (st' = loadOK)) with (readable s key st). apply wp_seq.
  assert (Hgo : ∀ g3 b, g2 ⊑f g3 → valid g3 → (b = true → said = true ∧ readable s key st = true) →
    wp (_ ← change p ((tk_ix t) <| Incomplete := negb b |>);
        published ← publish s covered (negb b) p ((tk_ix t) <| Incomplete := negb b |>);
        match published with
        | Err e => if isConflict e then applyAttempts tries (in_hand us) remade xs else Ret (Err tt)
        | Ok _ => Ret (Ok (behind t))
        end) g3 h2 Q).
  { intros g3 b Hm3 Hv4 Hcb. assert (f ⊑f g3) by by etrans. assert (batch_ok g3 us) by by eapply batch_more; [|].
    apply (taking_more _ g3) in Ht; [|done]. destruct Hw as (Hl2 & Ho2 & Ha2 & _).
    destruct (taking_covers g3 _ (PublishedSourceRevision s) us t (size (took t)) ltac:(done) Ht) as [Hn Hc].
    { pose proof (more_length _ _ Hm2). pose proof (more_length _ _ Hm3). lia. }
    assert (Hcov : b = true → covers (f_log g3) covered (tk_ix t)).
    { intros Hbt. destruct (Hcb Hbt) as [-> Hrd]. apply Hc. by rewrite Hrd. }
    destruct (incomplete_good (f_log g3) (tk_ix t) (negb b)) as [Hg Hsame].
    { intros Hbf. apply Hcov. by destruct b. }
    { apply Ht. }
    apply wp_seq. eapply wp_change; [done..|]. intros g4 Hm4 Hv5. pose proof (more_length _ _ Hm4).
    apply wp_seq, wp_publish; cbn; try done; [eapply good_more; [apply Hm4|done]|unfold covered; lia| |].
    { intros Hbf. eapply covers_more; [|apply Hm4|]; [unfold covered; lia|]. eapply covers_same; [|apply Hcov; by destruct b].
      split; [symmetry; apply Hsame|intros id; symmetry; apply Hsame]. }
    intros g5 h5 r5 Hm5 Hv6 Hl5 Ho5 Hd5. assert (f ⊑f g5) by by etrans; [|etrans].
    destruct r5 as [pub|e]; [|destruct (isConflict e); [|by apply wp_ret, HQ]].
    - apply wp_ret, HQ; [done..|]. split_and!; [done..|]. eapply behind_more; [|apply Ht]. by etrans.
    - apply IH; [done|by eapply batch_more|done..|]. intros g6 h6 r6 Hm6. apply HQ. by etrans. }
  destruct (readable s key st) eqn:Hrd.
  - apply (wp_completeThrough _ said); [done..|apply Hw|]. intros g3 b Hm3 Hv4 Hb3. apply Hgo; [done..|]. intros ?. by split; [apply Hb3|].
  - apply wp_ret, (Hgo g2 false); done.
Qed.

(** *** Embedding, which no claim rests on *)

Lemma wp_embedChunks n prefix chunks Q : ∀ f h,
  (∀ r, Q f h r) → wp (embedChunks (F := F) n prefix chunks) f h Q.
Proof.
  revert chunks Q. induction n as [|n IH]; intros chunks Q f h HQ; destruct chunks as [|ch chunks]; cbn [embedChunks];
    try (by apply wp_ret, HQ). apply wp_seq. intros r _. apply wp_ret. destruct r as [vs|]; [|by apply wp_ret, HQ].
  apply wp_seq, IH. intros r. by apply wp_ret, HQ.
Qed.
Lemma wp_entriesOf us : ∀ b f h Q,
  (∀ es, Forall2 (λ u e, SourceRevision e = revision u) us es → Q f h es) → wp (entriesOf Quantize kid formatTime us b) f h Q.
Proof.
  induction us as [|u us IH]; intros b f h Q HQ; cbn [entriesOf]; [by apply wp_ret, HQ|]. apply wp_seq.
  assert (Hgo : ∀ e b, SourceRevision e = revision u →
    wp (entries ← entriesOf Quantize kid formatTime us b; Ret (e :: entries)) f h Q).
  { intros e b' He. apply wp_seq, IH. intros es Hes. apply wp_ret, HQ. by constructor. }
  case_match; [by apply wp_ret, Hgo|]. destruct b; cbn [negb]; [|by apply wp_ret, Hgo].
  apply wp_seq, wp_embedChunks. intros [vs|]; by apply wp_ret, Hgo.
Qed.
Lemma zip_revisions us es :
  Forall2 (λ u e, SourceRevision e = revision u) us es → Forall (λ x, x.1 ∈ us ∧ SourceRevision x.2 = revision x.1) (zip us es).
Proof.
  induction 1 as [|u e us es He _ IH]; constructor; [split; [left|done]|]. eapply Forall_impl; [exact IH|].
  intros x [? ?]. split; [by right|done].
Qed.
Lemma wp_remadeOf us : ∀ f h Q,
  valid f → (∀ g r, f ⊑f g → valid g → Q g h r) → wp (remadeOf (F := F) us) f h Q.
Proof.
  induction us as [|u us IH]; intros f h Q Hv HQ; cbn [remadeOf]; [by apply wp_ret, HQ|]. case_match; [|by apply IH].
  apply wp_seq. intros g r Hm Hv' _. apply wp_ret, wp_seq, IH; [done|]. intros g' rs Hm' Hv''. apply wp_ret, HQ; [by etrans|done].
Qed.

(** *** The writer *)

Abbreviation apply := (apply (F := F) Quantize kid model validTime formatTime entryTime).
Lemma wp_apply us f h Q :
  valid f → batch_ok f us → h = nothing →
  (∀ g r, f ⊑f g → valid g → match r with Ok b => behind_ok g b | Err _ => True end → Q g nothing r) →
  wp (apply us) f h Q.
Proof.
  intros Hv Hb -> HQ. unfold Indexing.apply. apply wp_seq, wp_entriesOf. intros es Hes. apply wp_seq, wp_Lock; [done|].
  intros g Hm Hv1. apply wp_seq, wp_remadeOf; [done|]. intros g1 remade Hm1 Hv2. apply wp_seq.
  apply wp_applyAttempts; try done; [by eapply batch_more, batch_more|by apply zip_revisions|].
  intros g2 h2 r Hm2 Hv3 (Hl & Ho & Hd & Hr). apply wp_seq, wp_Unlock; [by rewrite Hl|done|]. intros g3 Hm3 Hv4. apply wp_ret.
  assert (h2 <| lock := None |> <| at_ := None |> = nothing) as -> by (destruct h2; cbn in *; by subst).
  apply HQ; [by etrans; [|etrans; [|etrans]]|done|]. destruct r; [by eapply behind_more|done].
Qed.

(** A step of the writer's that only its goroutine's holder of nothing takes. *)
Lemma writer_step g n l l' :
  local_ok g l → claims g l n nothing → heap l' = heap l → slot l' = slot l → locked l' = locked l →
  (∀ w, writer_ l' = Some w → pending_ok g (pending w)) →
  own nothing = own nothing ∧ local_ok g l' ∧ claims g l' n nothing ∧ frame l l' n nothing.
Proof.
  intros (Hs & Hl & Hw & Hc) (Hn & _) Hh Hsl Hlk Hp. split_and!; [done| | |].
  - split_and!; [|by rewrite Hlk|done|by rewrite Hsl]. intros c. rewrite Hsl, Hlk. intros Hc'.
    destruct (Hs c Hc') as [?|?]; [left; by apply (clean_heap _ l)|by right].
  - split_and!; [by rewrite Hlk|done..].
  - split_and!; [by rewrite Hlk|done|by rewrite Hh].
Qed.

Lemma takePending_batch f (w : writer) :
  pending_ok f (pending w) →
  batch_ok f (merge_sort (λ a b, Is_true (before a b)) (map_to_list (pending w)).*2).
Proof.
  intros Hp. set (us := merge_sort _ _). assert (Hperm : us ≡ₚ (map_to_list (pending w)).*2) by apply merge_sort_Permutation.
  assert (Hids : u_id <$> (map_to_list (pending w)).*2 = (map_to_list (pending w)).*1).
  { rewrite <- list_fmap_compose. apply list_fmap_ext. intros i [id u] Hi. cbn. apply list_elem_of_lookup_2, elem_of_map_to_list in Hi.
    by destruct (Hp _ _ Hi). }
  split.
  - rewrite Hperm, Forall_fmap, Forall_forall. intros [id u] Hi%elem_of_map_to_list. by destruct (Hp _ _ Hi).
  - rewrite Hperm, Hids. apply NoDup_fst_map_to_list.
Qed.
Lemma maxOf_le l r : r ∈ l → (r ≤ maxOf l)%Z.
Proof. unfold maxOf. generalize (default 0 (head l))%Z as z. induction l as [|x l IH]; intros z Hr; [by apply elem_of_nil in Hr|].
  apply elem_of_cons in Hr as [->|Hr]; cbn; [lia|]. specialize (IH z Hr). lia. Qed.
Lemma fold_pending f b p : behind_ok f b → pending_ok f p → pending_ok f (fold b p).
Proof.
  intros Hb Hp id u. unfold fold. rewrite map_lookup_imap. intros (u0 & Hu0 & Hf)%bind_Some. injection Hf as <-.
  destruct (Hp _ _ Hu0) as [Hid Hok]. destruct (b !! id) as [rs|] eqn:Hrs; [|done]. case_bool_decide as Hmax; [|done].
  split; [done|]. destruct Hok as [Hrep Hu]. split; [|done]. cbn. intros r [Hr|Hr]%elem_of_app; [by apply Hrep|].
  split; [by pose proof (maxOf_le _ _ Hr); lia|]. rewrite Hid. by apply (Hb _ _ Hrs).
Qed.
Lemma add_pending f p u : pending_ok f p → update_ok f u → pending_ok f (add p u).
Proof.
  intros Hp Hok id u' Hu'. unfold add in Hu'. destruct (p !! u_id u) as [prev|] eqn:Hprev.
  2: { apply lookup_insert_Some in Hu' as [[<- <-]|[_ ?]]; [done|by apply Hp]. }
  destruct (Hp _ _ Hprev) as [Hid Hokp].
  assert (Hgo : ∀ a b, update_ok f a → update_ok f b → u_id a = u_id b → (∀ r, r ∈ revisions b → (r ≤ revision a)%Z) →
    update_ok f (a <| replaced ::= λ r, r ++ revisions b |>)).
  { intros a b [Ha1 Ha2] Hb Hab Hle. split; [|done]. cbn. intros r [Hr|Hr]%elem_of_app; [by apply Ha1|].
    split; [by apply Hle|]. rewrite Hab. by apply (revisions_ok _ _ _ Hb). }
  destruct (bool_decide (revision u < revision prev)%Z && (bool_decide (0 < revision u)%Z || removed u)) eqn:Hlt.
  - apply andb_true_iff in Hlt as [Hlt%bool_decide_eq_true _].
    apply lookup_insert_Some in Hu' as [[<- <-]|[_ ?]]; [split; [done|]|by apply Hp].
    apply Hgo; [done..|]. intros r Hr. destruct (revisions_ok _ _ _ Hok Hr). lia.
  - apply lookup_insert_Some in Hu' as [[<- <-]|[_ ?]]; [split; [done|]|by apply Hp].
    apply Hgo; [done..|]. intros r Hr. destruct (revisions_ok _ _ _ Hokp Hr) as [Hle _].
    apply andb_false_iff in Hlt as [Hlt%bool_decide_eq_false|[Hn%bool_decide_eq_false Hrm]%orb_false_iff]; [lia|].
    destruct (put_log _ _ Hok Hrm) as (? & _ & _ & ?). lia.
Qed.

Abbreviation runWriter := (runWriter (F := F) Quantize kid model validTime formatTime entryTime).
Lemma wp_runWriter f : valid f → wp runWriter f nothing (λ _ h _, h = nothing).
Proof.
  intros Hv. unfold Indexing.runWriter. apply wp_seq, wp_locally. intros g n l Hm Hv1 Hok Hc. exists nothing.
  unfold takePending. destruct (writer_ l) as [w|] eqn:Hw; [|split_and!; done]. pose proof (proj1 (proj2 (proj2 Hok)) _ Hw) as Hp.
  case_bool_decide as He.
  { cbn [fst snd]. destruct (writer_step g n l (l <| writer_ := None |> <| closed ::= λ c, {[ended_ w]} ∪ c |>)) as (?&?&?&?); try done. }
  cbn [fst snd]. set (us := merge_sort _ _).
  destruct (writer_step g n l (l <| writer_ := Some (mkWriter ∅ (chans l) (Some (waiting w)) (ended_ w)) |> <| chans ::= S |>))
    as (?&?&?&?); try done; [by intros w' [= <-]|]. split_and!; [done..|].
  apply wp_seq, wp_apply; [done|by apply takePending_batch|done|]. intros g1 r Hm1 Hv2 Hr.
  assert (Hb : behind_ok g1 (match r with Ok b => b | Err _ => ∅ end)) by by destruct r.
  apply wp_seq, wp_locally. intros g2 n2 l2 Hm2 Hv3 Hok2 Hc2. exists nothing. cbn [fst snd].
  match goal with |- context [local_ok _ ?x] => destruct (writer_step g2 n2 l2 x) as (?&?&?&?) end; try done.
  { cbn. intros w'. destruct (writer_ l2) as [w2|] eqn:Hw2; [|done]. intros [= <-]. cbn.
    apply fold_pending; [by eapply behind_more|]. by apply Hok2. }
  split_and!; [done..|]. apply wp_seq, wp_locally. intros g3 n3 l3 Hm3 Hv4 Hok3 Hc3. exists nothing. cbn [fst snd].
  match goal with |- context [local_ok _ ?x] => destruct (writer_step g3 n3 l3 x) as (?&?&?&?) end; try done.
  by apply Hok3.
Qed.

(** *** Queries *)

Lemma wp_settled f Q : valid f → (∀ g b, f ⊑f g → valid g → Q g nothing b) → wp (settled (F := F)) f nothing Q.
Proof.
  intros Hv HQ. unfold settled. apply wp_seq, wp_locally. intros g n l Hm Hv1 Hok Hc. exists nothing. split_and!; [done..|].
  cbn [snd]. case_match; [|by apply wp_ret, HQ]. apply wp_seq. intros over. apply wp_ret. destruct over; [by apply wp_ret, HQ|].
  intros g1 n1 l1 l1' b Hm1 Hv2 Hok1 Hc1 Hs. case_bool_decide; [|done]. injection Hs as <- <-. exists nothing. split_and!; [done..|].
  apply wp_ret, HQ; [by etrans|done].
Qed.

(** What a query that needs no rebuild has searched. *)
Definition answered (f : facts) (began : nat) (s : SearchIndexState) (ix : Index) : Prop :=
  (Z.of_nat began ≤ PublishedSourceRevision s ≤ Z.of_nat (length (f_log f)))%Z ∧
  good (f_log f) ix ∧ covers (f_log f) (PublishedSourceRevision s) ix.
Lemma answered_more f g began s ix : f ⊑f g → answered f began s ix → answered g began s ix.
Proof.
  intros Hm (?&?&?). pose proof (more_length _ _ Hm). split_and!; [lia|lia|by eapply good_more; [apply Hm|]|].
  eapply covers_more; [|apply Hm|done]. lia.
Qed.

Abbreviation reading := (reading (F := F) kid model validTime).
Lemma wp_reading began f Q :
  valid f → began ≤ length (f_log f) →
  (∀ g r, f ⊑f g → valid g →
    match r with Ok (s, ix, needed) => needed = false → answered g began s ix | Err _ => True end → Q g nothing r) →
  wp (reading (λ s key ix st, (s, ix, rebuildNeeded s key ix st))) f nothing Q.
Proof.
  intros Hv Hn HQ. unfold Indexing.reading. apply wp_seq, wp_publication. intros g r Hm Hv1 Hr.
  destruct r as [[s key]|]; [|by apply wp_ret, HQ]. destruct Hr as (Hsrc & Hinc & said & Hk).
  apply wp_seq, wp_RLock; [done|]. intros g1 Hm1 Hv2. apply wp_seq, wp_load; [done..|]. intros g2 h2 r Hm2 Hv3 Ho2 Hl2 Hd2 Hld.
  apply wp_seq, wp_Unlock; [by rewrite Hl2|done|]. intros g3 Hm3 Hv4. apply wp_ret.
  assert (h2 <| lock := None |> <| at_ := None |> = nothing) as -> by (destruct h2; cbn in *; by subst).
  apply HQ; [by etrans; [|etrans; [|etrans]]|done|]. destruct r as [[[p ix] st]|]; [|done]. intros Hneed.
  assert (Hm13 : g ⊑f g2) by by etrans.
  apply (answered_more g2); [done|]. apply (known_more _ g2) in Hk; [|done]. destruct (known_record _ _ _ _ Hv3 Hk) as [HP Hsaid].
  unfold rebuildNeeded in Hneed. rewrite !orb_false_iff in Hneed. destruct Hneed as ((((Hi & Hu) & _) & Hst) & He).
  rewrite Hinc in Hi. apply orb_false_iff in Hi as [Hi Hlt%bool_decide_eq_false]. pose proof (more_length _ _ Hm).
  split_and!; [lia|lia|apply Hld|]. eapply base_covers; [done..|by apply Hsaid|]. unfold readable.
  destruct (String.eqb_spec (ObjectKey s) ""); [done|]. cbn in *. rewrite Hu. by apply negb_false_iff in Hst.
Qed.

Context (dimensions : F → nat).
Abbreviation Query := (Query kid model validTime dimensions).
Definition query_ok (began : nat) (f : facts) (h : hold)
    (r : result () (queried (F := F))) : Prop :=
  h = nothing ∧ match r with
                | Ok a => (needsRebuild a = false → answered f began (read a) (searched a)) ∧
                    (startsRepair a = true → needsRebuild a = false ∧ NeedsEmbeddingRepairFor (searched a) kid = true)
                | Err _ => True
                end.
Lemma wp_ended_unless {A} (o : option A) f h (Q : facts → hold → bool → Prop) :
  (∀ b, Q f h b) → wp (match o with None => Ended Ret | Some _ => Ret false end) f h Q.
Proof. intros HQ. destruct o; [by apply wp_ret|]. intros b. by apply wp_ret. Qed.
Lemma wp_Query began query f : valid f → began ≤ length (f_log f) → wp (Query query) f nothing (query_ok began).
Proof.
  intros Hv Hn. unfold Indexing.Query. apply wp_seq, wp_settled; [done|]. intros g _ Hm Hv1. pose proof (more_length _ _ Hm).
  apply wp_seq, (wp_reading began); [done|lia|]. intros g1 r Hm1 Hv2 Hr. destruct r as [[[s ix] needed]|]; [|done].
  case_bool_decide; [done|]. apply wp_seq. intros vs Hvs. apply wp_ret. apply wp_seq.
  apply wp_ended_unless. intros []; [done|]. apply wp_seq.
  assert (Hgo : ∀ v, wp (second ← reading (λ s key ix st, (s, ix, rebuildNeeded s key ix st));
     Ret match second with
         | Err e => Err e
         | Ok (s, ix, needed) => Ok (mkQueried s ix (Some v) needed (repairsEmbeddings kid dimensions v needed ix))
         end) g1 nothing (query_ok began)).
  { intros v. pose proof (more_length _ _ Hm1). apply wp_seq, (wp_reading began); [done|lia|].
    intros g2 r2 Hm2 Hv3 Hr2. apply wp_ret. split; [done|]. destruct r2 as [[[??] needed2]|]; [|done]. split; [done|]. unfold repairsEmbeddings. cbn.
    intros [[_ ->%negb_true_iff]%andb_true_iff ->]%andb_true_iff. done. }
  destruct vs as [[|v vs]|]; [by specialize (Hvs _ eq_refl)|by apply wp_ret, Hgo..].
Qed.

End Indexed.
End Indexed.
