(* ===== verification/Rebuild.v ===== *)
(** * The search index made over, repaired and swept: internal/search
    rebuild.go, deletion.go, and what query.go asks of them

    A rebuild reads every stored chat of a caller, a page at a time, and
    checkpoints its cursor in the index it publishes; a repair embeds the
    entries indexed by keyword alone; a sweep deletes the objects the
    control plane has retired.  They are programs of Indexing's, and share
    its cache, its lock and its publication. *)

From S2P Require Import Prelude GoStd Codec Seal SearchIndex Indexing.
From stdpp Require Import sorting.

Module Rebuild.
Import GoStd Codec SearchIndex Indexing.

Record RebuildReport := mkReport { Indexed : nat; Failed : nat; TotalIndexed : nat; Partial : bool }.
#[global] Instance RebuildReport_eta : Eta RebuildReport := λ r,
  mkReport (Indexed r) (Failed r) (TotalIndexed r) (Partial r).
(** [errRebuildIncomplete], or another. *)
Inductive rebuildError := RebuildIncomplete | RebuildFailed.

Record pageResult := mkPage {
  indexed : nat;
  failed : nat;
  embeddingFailed : bool;
  next : string;
  done : bool;
  partial : bool;
  total : nat;
  resumeStartedAt : Z;
  resumeTarget : Z;
}.
(** Its [kid] is the caller's. *)
Record pendingChat := mkPendingChat { c_id : string; c_etag : string; c_chunks : list string }.
Record embeddingRepair := mkRepair { r_id : string; r_etag : string; r_vectors : list Vector }.
Record embeddingBlocked := mkBlocked { b_id : string; b_etag : string; b_kid : string }.

Section Rebuild.
Context {F : Type} (Quantize : F → Vector).
Context `{JS : Seal.Json}.
Context (kid model : string) (validTime : string → bool) (Tokenize : string → list string)
  (formatTime : Z → string) (entryTime : string → Z).

Abbreviation publication := (Indexing.publication (F := F) kid model).
Abbreviation load := (Indexing.load (F := F) model validTime).
Abbreviation publish := (Indexing.publish (F := F) kid model).
Abbreviation snapshotState := (Indexing.snapshotState (F := F)).
Abbreviation readableObject := (Indexing.readableObject kid model).

(** How many chats a page reads: [rebuildPage], within the embedder's batch. *)
Definition pageSize : nat := 16.
Definition quantizeAll (vectors : list F) : list Vector := Quantize <$> vectors.
Definition ended : prog F bool := Ended Ret.

(** ** A page *)

(** The rows of a page, their texts in chunks. *)
Definition readPage (rows : list (string * string * bytes)) : list pendingChat :=
  (λ row, mkPendingChat row.1.1 row.1.2 (chatChunks row.2)) <$> rows.
Definition textsOf (page : list pendingChat) : list string := page ≫= c_chunks.
(** [vectors[at:at+n]], where the slice is long enough. *)
Definition sliced (vectors : list F) (n : nat) : option (list F * list F) :=
  if bool_decide (n ≤ length vectors) then Some (take n vectors, drop n vectors) else None.

(** The entries a rebuild that starts over drops. *)
Definition staleEntries (ix : Index) (startedAt target : Z) : list string :=
  omap (λ p : string * Entry,
    let '(id, entry) := p in
    if bool_decide (0 < SourceRevision entry)%Z
    then if bool_decide (SourceRevision entry ≤ target)%Z then Some id else None
    else if bool_decide (entryTime (UpdatedAt entry) < startedAt)%Z then Some id else None) (map_to_list (Chats ix)).
Fixpoint removeAll (p : nat) (ids : list string) (ix : Index) : prog F Index :=
  match ids with
  | [] => Ret ix
  | id :: ids => ix ← ofOption (Remove ix id); _ ← change p ix; removeAll p ids ix
  end.

(** The loop over a page's chats, with what it has indexed and failed. *)
Fixpoint pageChats (startedAt target : Z) (p : nat) (page : list pendingChat) (vectors : option (list F)) (ix : Index)
    (indexed failed : nat) : prog F (result () (Index * nat * nat)) :=
  match page with
  | [] => Ret (Ok (ix, indexed, failed))
  | chat :: page =>
      '(chatVectors, vectors) ← ofOption (match vectors with
        | None => Some ([], None)
        | Some vs => match sliced vs (length (c_chunks chat)) with Some (a, b) => Some (a, Some b) | None => None end
        end);
      snapshot ← snapshotState (c_id chat) (c_etag chat);
      match snapshot with
      | Err e => Ret (Err e)
      | Ok snapshotDeleted =>
          ix ← ofOption (Remove ix (c_id chat)); _ ← change p ix;
          pageChats startedAt target p page vectors ix indexed failed
      | Ok snapshot =>
          if match Chats ix !! c_id chat with
             | Some existing => entrySupersedes entryTime existing (c_etag chat) target startedAt
             | None => false
             end
          then pageChats startedAt target p page vectors ix (S indexed) failed
          else
            match snapshot with
            | snapshotStale => pageChats startedAt target p page vectors ix indexed failed
            | _ =>
                now ← Now Ret;
                let pending := negb (bool_decide (c_chunks chat = [])) && bool_decide (vectors = None) in
                let entry := mkEntry 0 (c_etag chat) target (formatTime now) (quantizeAll chatVectors) pending (if pending then kid else "") in
                '(r, ix) ← ofOption (Upsert ix (c_id chat) entry (Tokenize (Join (c_chunks chat) (String "010" ""))));
                _ ← change p ix;
                match r with
                | Err _ => pageChats startedAt target p page vectors ix indexed (S failed)
                | Ok _ => pageChats startedAt target p page vectors ix (S indexed) failed
                end
            end
      end
  end.

(** What a page is to be published with, once its chats are in the index:
    whether it is incomplete, and the checkpoint it leaves. *)
Definition leaves (ix : Index) (nextCursor : string) (startedAt target : Z) (priorFailure : bool) (attemptFailed : nat)
    (incomplete : bool) : Index :=
  let progress :=
    if negb incomplete then None
    else if negb priorFailure && bool_decide (attemptFailed = 0) && negb (String.eqb nextCursor "")
    then Some (mkReindex nextCursor target (formatTime startedAt))
    else None in
  ix <| Reindex := progress |> <| Incomplete := incomplete |>.

(** The attempts of [rebuildPage], with [tries] left, at a page read. *)
Fixpoint pageAttempts (tries : nat) (cursor : string) (startedAt target : Z) (priorFailure : bool) (listed : listing)
    (page : list pendingChat) (vectors : option (list F)) (embeddingFailed : bool) : prog F (result () pageResult) :=
  match tries with
  | 0 => Ret (Err tt)
  | S tries =>
      read ← publication;
      match read with
      | Err e => Ret (Err e)
      | Ok (publication, objectKey) =>
          let compatible := String.eqb (ObjectKey publication) "" || negb (String.eqb objectKey "") in
          loaded ← load objectKey;
          match loaded with
          | Err e => Ret (Err e)
          | Ok (p, ix, state) =>
              let ours := match Reindex ix with
                | Some r => String.eqb cursor (NextCursor r) && bool_decide (target = TargetSourceRevision r) &&
                            bool_decide (startedAt = entryTime (StartedAt r))
                | None => String.eqb cursor ""
                end in
              match ours, Reindex ix with
              | false, Some r =>
                  Ret (Ok (mkPage 0 0 false (NextCursor r) false false (size (Chats ix)) (entryTime (StartedAt r)) (TargetSourceRevision r)))
              | false, None =>
                  Ret (Ok (mkPage 0 0 false "" true (Incomplete ix || PublicationIncomplete publication) (size (Chats ix)) startedAt target))
              | true, _ =>
                  ix ← (if String.eqb cursor "" then removeAll p (staleEntries ix startedAt target) ix else Ret ix);
                  taken ← pageChats startedAt target p page vectors ix 0 (Unreadable listed);
                  match taken with
                  | Err e => Ret (Err e)
                  | Ok (ix, indexed, attemptFailed) =>
                      let incomplete := negb (String.eqb (Next listed) "") || priorFailure || bool_decide (0 < attemptFailed) ||
                        (negb compatible || negb (bool_decide (state = loadOK))) && negb (String.eqb cursor "") ||
                        bool_decide (target < PublishedSourceRevision publication)%Z && PublicationIncomplete publication in
                      let covered := Z.max target (PublishedSourceRevision publication) in
                      let ix := leaves ix (Next listed) startedAt target priorFailure attemptFailed incomplete in
                      _ ← change p ix;
                      published ← publish publication covered incomplete p ix;
                      match published with
                      | Err e =>
                          if isConflict e
                          then pageAttempts tries cursor startedAt target priorFailure listed page vectors embeddingFailed
                          else Ret (Err tt)
                      | Ok _ =>
                          Ret (Ok (mkPage indexed attemptFailed embeddingFailed (Next listed) (String.eqb (Next listed) "")
                            incomplete (size (Chats ix)) startedAt target))
                      end
                  end
              end
          end
      end
  end.

(** The vectors of a page's texts, [None] where it has none of them; whether
    embedding failed; and whether the context ended with it. *)
Definition embedPage (texts : list string) (embed : bool) : prog F (option (option (list F) * bool)) :=
  if bool_decide (texts = []) then Ret (Some (None, false))
  else if negb embed then Ret (Some (None, true))
  else
    vectors ← embedChunks (length texts) docPrefix texts;
    match vectors with
    | Some vs => Ret (Some (Some vs, false))
    | None => over ← ended; Ret (if over : bool then None else Some (None, true))
    end.

Definition rebuildPage (cursor : string) (startedAt target : Z) (priorFailure embed : bool) : prog F (result () pageResult) :=
  listed ← ListChats cursor Ret;
  match listed with
  | None => Ret (Err tt)
  | Some listed =>
      let page := readPage (Rows_ listed) in
      embedded ← embedPage (textsOf page) embed;
      match embedded with
      | None => Ret (Err tt)
      | Some (vectors, embeddingFailed) =>
          _ ← Lock;
          r ← pageAttempts publishAttempts cursor startedAt target priorFailure listed page vectors embeddingFailed;
          _ ← Unlock;
          Ret r
      end
  end.

(** ** A rebuild *)

Definition loadCheckpoint (publication : SearchIndexState) : prog F (result () (option ReindexProgress)) :=
  if String.eqb (ObjectKey publication) "" || negb (PublicationIncomplete publication) || String.eqb (readableObject publication) ""
  then Ret (Ok None)
  else
    _ ← RLock;
    loaded ← load (ObjectKey publication);
    _ ← Unlock;
    Ret match loaded with
        | Err e => Err e
        | Ok (_, ix, state) =>
            match state, Reindex ix with
            | loadOK, Some r =>
                if Incomplete ix && bool_decide (PublishedSourceRevision publication = TargetSourceRevision r)
                then Ok (Some r) else Ok None
            | _, _ => Ok None
            end
        end.

(** A job's report, and the error it ends with. *)
Definition reported : Type := RebuildReport * option rebuildError.
Definition stoppedAt (out : RebuildReport) (coverageFailure : bool) : reported :=
  (out <| Partial := true |>, if coverageFailure then Some RebuildIncomplete else None).
(** An error is partial, not failed, when the context has ended. *)
Definition failedAt (out : RebuildReport) : prog F reported :=
  over ← ended;
  Ret (if over : bool then (out <| Partial := true |>, None) else (out, Some RebuildFailed)).

(** The pages, [fuel] of them before the budget runs out. *)
Fixpoint rebuildPages (fuel : nat) (report : RebuildReport → prog F ()) (cursor : string) (startedAt target : Z) (embed : bool)
    (out : RebuildReport) (coverageFailure : bool) : prog F reported :=
  match fuel with
  | 0 => Ret (stoppedAt out coverageFailure)
  | S fuel =>
      over ← ended;
      if over : bool then Ret (stoppedAt out coverageFailure)
      else
        paged ← rebuildPage cursor startedAt target coverageFailure embed;
        match paged with
        | Err _ => over ← ended; Ret (if over : bool then stoppedAt out coverageFailure else (out, Some RebuildFailed))
        | Ok page =>
            let out := mkReport (Indexed out + indexed page) (Failed out + failed page) (total page) (Partial out) in
            let embed := embed && negb (embeddingFailed page) in
            let coverageFailure := coverageFailure || bool_decide (0 < failed page) in
            let out := out <| Partial ::= λ b, b || bool_decide (0 < failed page) || done page && partial page |> in
            _ ← report out;
            if done page then Ret (out, if coverageFailure || partial page then Some RebuildIncomplete else None)
            else rebuildPages fuel report (next page) (resumeStartedAt page) (resumeTarget page) embed out coverageFailure
        end
  end.
Definition rebuild (fuel : nat) (report : RebuildReport → prog F ()) : prog F reported :=
  let out := mkReport 0 0 0 false in
  read ← publication;
  match read with
  | Err _ => failedAt out
  | Ok (publication, _) =>
      now ← Now Ret;
      checkpoint ← loadCheckpoint publication;
      match checkpoint with
      | Err _ => failedAt out
      | Ok (Some r) => rebuildPages fuel report (NextCursor r) (entryTime (StartedAt r)) (TargetSourceRevision r) true out false
      | Ok None => rebuildPages fuel report "" now (s_SourceRevision publication) true out false
      end
  end.

(** [needsRepair]: whether a rebuild, or a repair of embeddings, has work. *)
Definition needsRepair (embeddingOnly : bool) : prog F (result () bool) :=
  read ← publication;
  match read with
  | Err e => Ret (Err e)
  | Ok (state, objectKey) =>
      if String.eqb (ObjectKey state) "" then Ret (Ok (s_Incomplete state || bool_decide (0 < s_SourceRevision state)%Z))
      else if String.eqb objectKey "" then Ret (Ok true)
      else
        _ ← RLock;
        _ ← cache_drop;
        loaded ← load (ObjectKey state);
        _ ← Unlock;
        Ret match loaded with
            | Err e => Err e
            | Ok (_, ix, loadState) =>
                let pending := if embeddingOnly then NeedsEmbeddingRepairFor ix kid else NeedsEmbeddingRepair ix in
                Ok (negb (bool_decide (loadState = loadOK)) || Incomplete ix || s_Incomplete state || pending)
            end
  end.

(** ** Repairing embeddings *)

(** The entries of chats that are gone, of those still pending. *)
Fixpoint dropGone (p : nat) (gone : list string) (ix : Index) (mutated : bool) : prog F (Index * bool) :=
  match gone with
  | [] => Ret (ix, mutated)
  | id :: gone =>
      if match Chats ix !! id with Some entry => EmbeddingPending entry | None => false end
      then ix ← ofOption (Remove ix id); _ ← change p ix; dropGone p gone ix true
      else dropGone p gone ix mutated
  end.
(** An entry still pending, at the revision that was read. *)
Definition pendingAt (ix : Index) (id etag : string) : bool :=
  match Chats ix !! id with Some entry => EmbeddingPending entry && String.eqb (ETag entry) etag | None => false end.
Definition markBlocked (blocked : list embeddingBlocked) (ix : Index) (mutated : bool) : Index * bool :=
  foldl (λ '(ix, mutated) item,
    if pendingAt ix (b_id item) (b_etag item)
    then let '(marked, ix) := MarkEmbeddingKey ix (b_id item) (b_kid item) in (ix, mutated || marked)
    else (ix, mutated)) (ix, mutated) blocked.
(** The repairs; [None] at one that is refused, with the index as it is. *)
Fixpoint repairAll (repairs : list embeddingRepair) (ix : Index) (mutated : bool) (repaired : nat) : Index * option (bool * nat) :=
  match repairs with
  | [] => (ix, Some (mutated, repaired))
  | item :: repairs =>
      if pendingAt ix (r_id item) (r_etag item) then
        match RepairEmbedding ix (r_id item) (r_vectors item) with
        | (Err _, ix) => (ix, None)
        | (Ok _, ix) => repairAll repairs ix true (S repaired)
        end
      else repairAll repairs ix mutated repaired
  end.

Fixpoint repairAttempts (tries : nat) (repairs : list embeddingRepair) (blocked : list embeddingBlocked) (gone : list string)
    : prog F (result () (nat * nat)) :=
  match tries with
  | 0 => Ret (Err tt)
  | S tries =>
      read ← publication;
      match read with
      | Err e => Ret (Err e)
      | Ok (publication, objectKey) =>
          if String.eqb objectKey "" then Ret (Ok (0, 0))
          else
            loaded ← load objectKey;
            match loaded with
            | Err e => Ret (Err e)
            | Ok (p, ix, loadOK) =>
                '(ix, mutated) ← dropGone p gone ix false;
                let '(ix, mutated) := markBlocked blocked ix mutated in
                let '(ix, r) := repairAll repairs ix mutated 0 in
                _ ← change p ix;
                match r with
                | None => Ret (Err tt)
                | Some (false, _) => Ret (Ok (0, size (Chats ix)))
                | Some (true, repaired) =>
                    complete ← completeThrough publication objectKey;
                    published ← publish publication (PublishedSourceRevision publication) (negb complete || Incomplete ix) p ix;
                    match published with
                    | Err e => if isConflict e then repairAttempts tries repairs blocked gone else Ret (Err tt)
                    | Ok _ => Ret (Ok (repaired, size (Chats ix)))
                    end
                end
            | Ok _ => Ret (Ok (0, 0))
            end
      end
  end.
Definition applyRepairs (repairs : list embeddingRepair) (blocked : list embeddingBlocked) (gone : list string)
    : prog F (result () (nat * nat)) :=
  _ ← Lock;
  r ← repairAttempts publishAttempts repairs blocked gone;
  _ ← Unlock;
  Ret r.

(** The ids of a page pulled: the chats read, those another key seals, those
    gone, and how many else could not be read. *)
Record repairPage := mkRepairPage {
  rp_pending : list pendingChat;
  rp_blocked : list embeddingBlocked;
  rp_gone : list string;
  rp_failed : nat;
}.
#[local] Instance repairPage_eta : Eta repairPage := λ r,
  mkRepairPage (rp_pending r) (rp_blocked r) (rp_gone r) (rp_failed r).
(** The last row pulled of an id. *)
Definition pulledRow (rows : list (string * string * bytes)) (id : string) : option (string * string * bytes) :=
  last (filter (λ row, row.1.1 = id) rows).
Fixpoint sortPulled (pulled : pulling) (ids : list string) (r : repairPage) : prog F repairPage :=
  match ids with
  | [] => Ret r
  | id :: ids =>
      match pulledRow (Pulled pulled) id with
      | Some (_, etag, data) => sortPulled pulled ids (r <| rp_pending ::= λ l, l ++ [mkPendingChat id etag (chatChunks data)] |>)
      | None =>
          match list_find (λ e, e.1 = id) (Refused pulled) with
          | None => sortPulled pulled ids (r <| rp_gone ::= λ l, l ++ [id] |>)
          | Some (_, (_, keyID)) =>
              let refused := sortPulled pulled ids (r <| rp_failed ::= S |>) in
              match keyID with
              | None => refused
              | Some keyID =>
                  if String.eqb keyID "" then refused
                  else
                    etag ← currentETag id;
                    match etag with
                    | Ok (Some etag) => sortPulled pulled ids (r <| rp_blocked ::= λ l, l ++ [mkBlocked id etag keyID] |>)
                    | _ => refused
                    end
              end
          end
      end
  end.
(** The repairs of a page, each with its chat's vectors. *)
Fixpoint repairsOf (pending : list pendingChat) (vectors : list F) : option (list embeddingRepair) :=
  match pending with
  | [] => Some []
  | chat :: pending =>
      match sliced vectors (length (c_chunks chat)) with
      | Some (mine, vectors) =>
          match repairsOf pending vectors with
          | Some l => Some (mkRepair (c_id chat) (c_etag chat) (quantizeAll mine) :: l)
          | None => None
          end
      | None => None
      end
  end.

Definition repairStopped (out : RebuildReport) : reported := (out <| Partial := true |>, None).
(** The pages of [pageSize] ids; each takes some, so their number is enough
    fuel. *)
Fixpoint repairPages (fuel : nat) (report : RebuildReport → prog F ()) (ids : list string) (out : RebuildReport) : prog F reported :=
  match fuel, ids with
  | _, [] | 0, _ => Ret (out, None)
  | S fuel, ids =>
      over ← ended;
      if over : bool then Ret (repairStopped out)
      else
        pulled ← PullChats (take pageSize ids) Ret;
        match pulled with
        | None => failedAt out
        | Some pulled =>
            r ← sortPulled pulled (take pageSize ids) (mkRepairPage [] [] [] 0);
            vectors ← (match textsOf (rp_pending r) with [] => Ret (Some []) | texts => embedChunks (length texts) docPrefix texts end);
            match vectors with
            | None =>
                over ← ended;
                if over : bool then Ret (repairStopped out)
                else
                  applied ← applyRepairs [] (rp_blocked r) (rp_gone r);
                  match applied with
                  | Err _ => Ret (out, Some RebuildFailed)
                  | Ok (_, total) =>
                      let out := mkReport (Indexed out) (Failed out + (length (rp_pending r) + rp_failed r)) total true in
                      _ ← report out; Ret (out, None)
                  end
            | Some vectors =>
                repairs ← ofOption (repairsOf (rp_pending r) vectors);
                applied ← applyRepairs repairs (rp_blocked r) (rp_gone r);
                match applied with
                | Err _ => Ret (out, Some RebuildFailed)
                | Ok (repaired, total) =>
                    let out := mkReport (Indexed out + repaired) (Failed out + rp_failed r) total
                                 (Partial out || bool_decide (0 < rp_failed r)) in
                    _ ← report out;
                    repairPages fuel report (drop pageSize ids) out
                end
            end
        end
  end.
(** The entries this key can repair, their ids in order. *)
Definition repairable (ix : Index) : list string :=
  merge_sort (λ a b, String.leb a b) (omap (λ p : string * Entry,
    if EmbeddingPending p.2 && (String.eqb (EmbeddingKeyID p.2) "" || String.eqb (EmbeddingKeyID p.2) kid)
    then Some p.1 else None) (map_to_list (Chats ix))).
Definition repairEmbeddings (report : RebuildReport → prog F ()) : prog F reported :=
  let out := mkReport 0 0 0 false in
  read ← publication;
  match read with
  | Err _ => Ret (out, Some RebuildFailed)
  | Ok (_, objectKey) =>
      if String.eqb objectKey "" then Ret (out <| Partial := true |>, None)
      else
        _ ← RLock;
        loaded ← load objectKey;
        _ ← Unlock;
        match loaded with
        | Err _ => Ret (out, Some RebuildFailed)
        | Ok (_, ix, loadOK) => let ids := repairable ix in repairPages (length ids) report ids out
        | Ok _ => Ret (out <| Partial := true |>, None)
        end
  end.
End Rebuild.
End Rebuild.
