(* ===== verification/Searches.v ===== *)
(** * The search index at work: processes, a control plane and a bucket

    Processes of the service run the writers of their updates and answer
    queries at once, over one bucket and one record in the control plane,
    while chats are written and deleted, keys registered, indexes of other
    keys and models published, and requests fail, or are served after their
    caller took them to have failed.  A query that says no rebuild is needed
    searched an index that has every chat as it was last written, through a
    revision no older than the query. *)

From S2P Require Import Prelude GoStd Codec Seal SearchIndex Indexing Indexed Rebuild.
From stdpp Require Import pretty sorting.
From Stdlib Require Import Sorted.

Module Searches.
Import GoStd Codec SearchIndex Indexing Indexed.

Section Searches.
Context {F : Type} (Quantize : F → Vector) (dimensions : F → nat).
Context `{JS : Seal.Json}.
Context (kid model : string) (validTime : string → bool) (Tokenize : string → list string)
  (formatTime : Z → string) (entryTime : string → Z).

Abbreviation valid := (Indexed.valid kid model validTime Tokenize).
Abbreviation wp := (Indexed.wp (F := F) kid model validTime Tokenize).
Abbreviation good := (Indexed.good validTime Tokenize).
Abbreviation local_ok := (Indexed.local_ok validTime Tokenize).
Abbreviation claims := (Indexed.claims validTime Tokenize).
Abbreviation may_publish := (Indexed.may_publish kid model).
Abbreviation query_ok := (Indexed.query_ok (F := F) kid validTime Tokenize).
Abbreviation runWriter := (Indexing.runWriter (F := F) Quantize kid model validTime formatTime entryTime).
Abbreviation Query := (Indexing.Query kid model validTime dimensions).
Abbreviation rebuild := (Rebuild.rebuild (F := F) Quantize kid model validTime Tokenize formatTime entryTime).
Abbreviation repairEmbeddings := (Rebuild.repairEmbeddings (F := F) Quantize kid model validTime).
Infix "⊑f" := more (at level 70).

(** ** The world

    The writes of the caller's chats and the ETags of their rows; the chats
    never to be written again; the control plane's record and source
    revision; the objects of the bucket; the requests whose callers took
    them to have failed and that may yet be served; the random parts of keys
    drawn; the processes; and the goroutines, each of its process.  The
    records there have been, the latest first, each with whether its
    publisher said it complete, and the indexes that were ever to be stored
    are history that no step depends on. *)

Definition answer : Type := result () (queried (F := F)).
(** A writer; a query, with the number of writes there were as it began; and
    a rebuild, or a repair of embeddings. *)
Inductive thread := TWriter (p : prog F bool) | TQuery (began : nat) (p : prog F answer) | TRebuild (p : prog F Rebuild.reported).
Inductive request := LPublish (r : PublishSearchIndexRequest) | LPut (key : string) (v : Index) | LDelete (key : string).

Record World := mkWorld {
  writes : list write;
  rows : gmap string string;
  gone : gset string;
  source : Source;
  objects : gmap string Index;
  late : list request;
  drawn : gset string;
  procs : gmap nat local;
  threads : gmap nat (nat * thread);
  records : list (SearchIndexState * bool);
  stored : gmap string Index;
}.
#[local] Instance World_eta : Eta World := λ w,
  mkWorld (writes w) (rows w) (gone w) (source w) (objects w) (late w) (drawn w) (procs w) (threads w) (records w) (stored w).

(** The record published, or refused. *)
Definition publishes (w : World) (r : PublishSearchIndexRequest) : World * result cerr SearchIndexState :=
  let '(s, answer) := handlePublishSearchIndex (source w) r in
  ((if is_ok answer then w <| source := s |> <| records ::= cons (SearchState s, negb (r_Incomplete r)) |> else w), answer).
(** An index on its way to the bucket, and there. *)
Definition sends (w : World) (key : string) (v : Index) : World := w <| stored ::= <[key := counted v]> |>.
Definition puts (w : World) (key : string) (v : Index) : World := (sends w key v) <| objects ::= <[key := v]> |>.

(** The content a chat was last written with. *)
Definition content_of (l : list write) (id : string) : option bytes :=
  foldl (λ c w, if String.eqb (wr_id w) id then match w with WPut _ content => Some content | WDelete _ => None end else c) None l.
(** A chat's row as it is stored, and its content. *)
Definition is_row (w : World) (row : string * string * bytes) : bool :=
  let '(id, etag, content) := row in
  bool_decide (rows w !! id = Some etag) && bool_decide (content_of (writes w) id = Some content).
(** A page of a listing, of rows as they are stored; a page that is the first
    and the last has them all, but those it could not open. *)
Definition is_listing (w : World) (cursor : string) (l : listing) : bool :=
  forallb (is_row w) (Rows_ l) &&
  (negb (String.eqb cursor "") || negb (String.eqb (Next l) "") ||
   bool_decide (NoDup (Rows_ l).*1.*1 ∧ length (Rows_ l) + Unreadable l = size (rows w))).

(** What a goroutine is told: the truth, or that its request failed, which
    may be served later all the same; the vectors of its texts, one of each,
    unless they could not be had; the random
    part of a key; whether its context has ended; the rows it listed or
    pulled; the time. *)
Inductive reply :=
  | Truth
  | Failed (e : cerr) (b : berr) (served : bool)
  | Vectors_ (vectors : option (list F))
  | Drawn (suffix : string)
  | Over (over : bool)
  | Listed (l : listing)
  | Pulled_ (l : pulling)
  | Time (t : Z).
Definition lateIf (served : bool) (r : request) (w : World) : World := if served then w <| late ::= cons r |> else w.

(** A step of goroutine [g] of process [n], if it can take one. *)
Definition turn {A} (w : World) (g n : nat) (p : prog F A) (reply : reply) : option (World * prog F A) :=
  match p, reply with
  | GetState k, Truth => Some (w, k (Ok (searchState (source w))))
  | GetState k, Failed e _ _ => Some (w, k (Err e))
  | PublishState r k, Truth => let '(w, answer) := publishes w r in Some (w, k answer)
  | PublishState r k, Failed e _ served => Some (lateIf served (LPublish r) w, k (Err e))
  | ReadRow _ id k, Truth => Some (w, k (match rows w !! id with Some etag => Ok etag | None => Err (CStatus 404) end))
  | ReadRow _ _ k, Failed e _ _ => if controlplaneStatus (A := ()) (Err e) 404 then None else Some (w, k (Err e))
  | ListChats cursor k, Listed l => if is_listing w cursor l then Some (w, k (Some l)) else None
  | ListChats _ k, Failed _ _ _ => Some (w, k None)
  | PullChats ids k, Pulled_ l => if forallb (is_row w) (Pulled l) then Some (w, k (Some l)) else None
  | PullChats _ k, Failed _ _ _ => Some (w, k None)
  | GetObject key k, Truth => Some (w, k (match objects w !! key with Some v => Ok v | None => Err BNotFound end))
  | GetObject _ k, Failed _ b _ => Some (w, k (Err b))
  | PutObject key v k, Truth => Some (puts w key v, k true)
  | PutObject key v k, Failed _ _ served => Some (lateIf served (LPut key v) (sends w key v), k false)
  | DeleteObject key k, Truth => Some (w <| objects ::= delete key |>, k tt)
  | DeleteObject key k, Failed _ _ served => Some (lateIf served (LDelete key) w, k tt)
  | Embed inputs k, Vectors_ vs =>
      if bool_decide (from_option length (length inputs) vs = length inputs) then Some (w, k vs) else None
  | Random k, Drawn s =>
      if bool_decide (String.length s = suffixLength) && negb (bool_decide (s ∈ drawn w))
      then Some (w <| drawn ::= λ d, {[s]} ∪ d |>, k s) else None
  | Now k, Time t => Some (w, k t)
  | Ended k, Over b => Some (w, k b)
  | Local f k, Truth =>
      match procs w !! n with
      | Some l => match f g l with Some (l, b) => Some (w <| procs ::= <[n := l]> |>, k b) | None => None end
      | None => None
      end
  | _, _ => None
  end.

(** A goroutine of a writer goes on to its next turn. *)
Definition runs (w : World) (g : nat) (reply : reply) : option World :=
  match threads w !! g with
  | Some (n, TWriter (Ret true)) =>
      match reply with Truth => Some (w <| threads ::= <[g := (n, TWriter runWriter)]> |>) | _ => None end
  | Some (n, TWriter p) =>
      match turn w g n p reply with Some (w, p) => Some (w <| threads ::= <[g := (n, TWriter p)]> |>) | None => None end
  | Some (n, TQuery began p) =>
      match turn w g n p reply with Some (w, p) => Some (w <| threads ::= <[g := (n, TQuery began p)]> |>) | None => None end
  | Some (n, TRebuild p) =>
      match turn w g n p reply with Some (w, p) => Some (w <| threads ::= <[g := (n, TRebuild p)]> |>) | None => None end
  | None => None
  end.
(** A request served after all, with no one told. *)
Definition serves (w : World) (r : request) : World :=
  match r with
  | LPublish r => (publishes w r).1
  | LPut key v => w <| objects ::= <[key := v]> |>
  | LDelete key => w <| objects ::= delete key |>
  end.
(** The control plane takes a chat's write, the next source revision. *)
Definition writes_chat (w : World) (x : write) (row : option string) : World :=
  w <| writes ::= λ l, l ++ [x] |> <| rows ::= partial_alter (λ _, row) (wr_id x) |>
    <| source ::= λ s, s <| SourceRevision_ ::= Z.succ |> |>.
(** A request that wrote a chat leaves its update with the process's writer,
    goroutine [g] where it has none. *)
Definition enqueues (w : World) (n g : nat) (u : chatUpdate) : option World :=
  match procs w !! n, threads w !! g with
  | Some l, None =>
      let '(l, started) := enqueue u l in
      let w := w <| procs ::= <[n := l]> |> in
      Some (if started then w <| threads ::= <[g := (n, TWriter runWriter)]> |> else w)
  | _, _ => None
  end.
(** Another writer's publication: its object, where it is of this key and
    model, then its record. *)
Definition publishesOther (w : World) (s : string) (r : PublishSearchIndexRequest) (ix : Index) : option World :=
  if bool_decide (String.length s = suffixLength) && negb (bool_decide (s ∈ drawn w)) &&
     String.eqb (r_ObjectKey r) (keyOf (ExpectedFence r) s)
  then
    let w := w <| drawn ::= λ d, {[s]} ∪ d |> in
    let w := if String.eqb (r_KeyID r) kid && String.eqb (r_Model r) model then puts w (r_ObjectKey r) (encoded ix) else w in
    Some (publishes w r).1
  else None.

(** A key is registered: over another, or starting fresh, what was published
    is fenced off. *)
Definition registers (w : World) (key : string) (startFresh : bool) : World :=
  let s := (source w) <| CurrentKeyID := key |> in
  if startFresh || negb (String.eqb (CurrentKeyID (source w)) "") && negb (String.eqb (CurrentKeyID (source w)) key)
  then let s := fenceSearchIndex s in w <| source := s |> <| records ::= cons (SearchState s, false) |>
  else w <| source := s |>.

Inductive action :=
  | APut (id : string) (content : bytes) (etag : string)
  | ADelete (id : string)
  | AReseal (id etag : string)
  | AGone (id : string)
  | ARegister (key : string) (startFresh : bool)
  | AProcess (n : nat)
  | AStored (n g : nat) (id : string) (rev at_ : Z) (etag : string)
  | ARemoved (n g : nat) (id : string) (rev : Z)
  | AQuery (n g : nat) (query : string)
  | ARebuild (n g fuel : nat)
  | ARepair (n g : nat)
  | ATurn (g : nat) (reply : reply)
  | ALate (i : nat)
  | AEvict (n : nat)
  | AOther (s : string) (r : PublishSearchIndexRequest) (ix : Index).

Definition spawns (w : World) (n g : nat) (t : thread) : option World :=
  match procs w !! n, threads w !! g with
  | Some _, None => Some (w <| threads ::= <[g := (n, t)]> |>)
  | _, _ => None
  end.
Definition exec (w : World) (a : action) : option World :=
  match a with
  | APut id content etag =>
      Some (writes_chat w (WPut id content) (Some etag))
  | ADelete id => match rows w !! id with Some _ => Some (writes_chat w (WDelete id) None) | None => None end
  | AReseal id etag => Some (w <| rows ::= alter (λ _, etag) id |>)
  | AGone id => match rows w !! id with None => Some (w <| gone ::= λ d, {[id]} ∪ d |>) | Some _ => None end
  | ARegister key startFresh => Some (registers w key startFresh)
  | AProcess n =>
      match procs w !! n with
      | None => Some (w <| procs ::= <[n := mkLocal ∅ None ∅ None ∅ 0]> |>)
      | Some _ => None
      end
  | AStored n g id rev at_ etag =>
      match log_at (writes w) rev with
      | Some (WPut id' content) =>
          if String.eqb id' id then enqueues w n g (storedUpdate Tokenize id content etag at_ rev) else None
      | _ => None
      end
  | ARemoved n g id rev =>
      match log_at (writes w) rev with
      | Some (WDelete id') => if String.eqb id' id then enqueues w n g (removal id rev) else None
      | Some (WPut _ _) => None
      | None => if bool_decide (rev = 0%Z) then enqueues w n g (removal id rev) else None
      end
  | AQuery n g query => spawns w n g (TQuery (length (writes w)) (Query query))
  | ARebuild n g fuel => spawns w n g (TRebuild (rebuild fuel (λ _, Ret tt)))
  | ARepair n g => spawns w n g (TRebuild (repairEmbeddings (λ _, Ret tt)))
  | ATurn g reply => runs w g reply
  | ALate i => r ← late w !! i; Some (serves w r)
  | AEvict n => l ← procs w !! n; Some (w <| procs ::= <[n := l <| slot := None |>]> |>)
  | AOther s r ix => publishesOther w s r ix
  end.

(** Other writers publish what is so: an index of the chats' writes that,
    said complete, has them all through what it covers.  A chat that a
    removal without a revision is of ([AGone] before it) is not made again:
    one that is, in between, may be lost to the index, as apply of stored.go
    reads whether it was before it reads the record it publishes over.
    Rebuilds and repairs of embeddings are left out: the entries a rebuild
    makes are all of the revision it began at, and one that fails is not
    always undone, below. *)
Definition truthful (w : World) (a : action) : Prop :=
  match a with
  | APut id _ _ => id ∉ gone w
  | ARemoved _ _ id rev => rev = 0%Z → id ∈ gone w
  | AOther s r ix =>
      (r_KeyID r = kid → r_Model r = model → good (writes w) ix ∧
        (r_Incomplete r = false → covers (writes w) (CoveredSourceRevision r) ix))
  | ARebuild _ _ _ | ARepair _ _ => False
  | _ => True
  end.
Definition init : World :=
  mkWorld [] ∅ ∅ (mkSource noState 0 "") ∅ [] ∅ ∅ ∅ [(noState, true)] ∅.
Definition step (w : World) (a : action) (w' : World) : Prop := truthful w a ∧ exec w a = Some w'.
Definition reaches : World → Prop := reachable (λ w, w = init) step.
(** Rebuilds let in too. *)
Definition step_rebuilding (w : World) (a : action) (w' : World) : Prop :=
  (truthful w a ∨ ∃ n g fuel, a = ARebuild n g fuel) ∧ exec w a = Some w'.
Definition reaches_rebuilding : World → Prop := reachable (λ w, w = init) step_rebuilding.

(** ** The invariant *)

Definition facts_of (w : World) : facts := mkFacts (writes w) (records w) (stored w) (gone w).
Definition late_ok (w : World) (r : request) : Prop :=
  match r with
  | LPublish r => may_publish (facts_of w) r
  | LPut key v => ∃ ix, stored w !! key = Some ix ∧ v = encoded ix
  | LDelete _ => True
  end.
(** Of the world, its goroutines apart. *)
Record base (w : World) : Prop := {
  b_valid : valid (facts_of w);
  b_head : ∃ said rest, records w = (SearchState (source w), said) :: rest;
  b_source : SourceRevision_ (source w) = Z.of_nat (length (writes w));
  b_rows : ∀ id, is_Some (rows w !! id) ↔ live (writes w) id;
  b_objects : ∀ key v, objects w !! key = Some v → ∃ ix, stored w !! key = Some ix ∧ v = encoded ix;
  b_late : Forall (late_ok w) (late w);
  b_stored : ∀ key ix, stored w !! key = Some ix → ∃ fence s, key = keyOf fence s ∧ String.length s = suffixLength ∧ s ∈ drawn w;
  b_procs : map_Forall (λ _ l, local_ok (facts_of w) l) (procs w);
}.
(** A goroutine's claims, of its process, and of the key it has drawn. *)
Definition thread_ok (f : facts) (h : hold) (t : thread) : Prop :=
  match t with
  | TWriter p => wp p f h (λ _ h _, h = nothing)
  | TQuery began p => wp p f h (query_ok began)
  | TRebuild _ => False
  end.
Definition owns (w : World) (h : hold) : Prop := ∀ s, own h = Some s →
  s ∈ drawn w ∧ String.length s = suffixLength ∧ ∀ fence, stored w !! keyOf fence s = None.
Definition holds (w : World) (H : nat → hold) : Prop :=
  (∀ g n t, threads w !! g = Some (n, t) → ∃ l, procs w !! n = Some l ∧ claims (facts_of w) l g (H g) ∧
     thread_ok (facts_of w) (H g) t ∧ owns w (H g)) ∧
  (∀ g g' s, is_Some (threads w !! g) → is_Some (threads w !! g') → own (H g) = Some s → own (H g') = Some s → g = g') ∧
  (∀ n l g, procs w !! n = Some l → is_Some (locked l !! g) → is_Some (threads w !! g)).
Definition Inv (w : World) : Prop := base w ∧ ∃ H, holds w H.

(** *** The writes *)

Lemma log_at_snoc l w r x :
  log_at (l ++ [w]) r = Some x ↔ log_at l r = Some x ∨ r = (Z.of_nat (length l) + 1)%Z ∧ x = w.
Proof.
  unfold log_at. case_bool_decide; [|split; [done|intros [?|[? _]]; [done|lia]]].
  rewrite lookup_app_Some, list_lookup_singleton_Some. split; intros [?|[? ?]]; [by left|right; split; [lia|naive_solver]|by left|].
  right. split; [lia|]. split; [lia|done].
Qed.
Lemma is_last_snoc l w r x :
  is_last (l ++ [w]) r x ↔ is_last l r x ∧ wr_id x ≠ wr_id w ∨ r = (Z.of_nat (length l) + 1)%Z ∧ x = w.
Proof.
  unfold is_last. split.
  - intros [[Ha|[-> ->]]%log_at_snoc Hl]; [left|by right]. split.
    + split; [done|]. intros r' x' Ha' Hid. apply (Hl r' x'); [|done]. apply log_at_snoc. by left.
    + intros Hid. specialize (Hl (Z.of_nat (length l) + 1)%Z w). apply log_at_range in Ha.
      rewrite log_at_snoc in Hl. specialize (Hl ltac:(by right) (eq_sym Hid)). lia.
  - intros [[[Ha Hl] Hid]|[-> ->]].
    + split; [apply log_at_snoc; by left|]. intros r' x' [Ha'|[-> ->]]%log_at_snoc Hid'; [by eapply Hl|by destruct Hid].
    + split; [apply log_at_snoc; by right|]. intros r' x' [Ha'|[-> _]]%log_at_snoc _; [|done]. apply log_at_range in Ha'. lia.
Qed.
Lemma live_snoc l w id :
  live (l ++ [w]) id ↔ if decide (id = wr_id w) then (∃ c, w = WPut id c) else live l id.
Proof.
  unfold live. setoid_rewrite is_last_snoc. case_decide as Hid.
  - split.
    + intros (r & c & [[_ Hne]|[_ Hw]]); [by destruct Hne|]. by exists c.
    + intros [c Hw]. exists (Z.of_nat (length l) + 1)%Z, c. by right.
  - split.
    + intros (r & c & [[Hl _]|[_ <-]]); [by exists r, c|done].
    + intros (r & c & Hl). exists r, c. by left.
Qed.

(** *** Facts that grow *)

Lemma late_ok_more w w' r :
  facts_of w ⊑f facts_of w' → late_ok w r → late_ok w' r.
Proof.
  intros Hm. destruct r as [r|key v|key]; [by apply may_publish_more| |done]. intros (ix & Hix & ->). exists ix. split; [|done].
  by apply (more_stored _ _ _ _ Hm).
Qed.
Lemma thread_ok_more f g h t : f ⊑f g → thread_ok f h t → thread_ok g h t.
Proof.
  intros Hm. destruct t as [p|began p|p]; [by apply wp_more|apply wp_more; [done|]|done].
  intros f' g' h' a Hm' [? Ha]. split; [done|]. destruct a as [a|]; [|done]. destruct Ha as [Ha ?]. split; [|done]. intros Hn. by eapply answered_more, Ha.
Qed.
Lemma keyOf_inj fence fence' s s' :
  String.length s = suffixLength → String.length s' = suffixLength → keyOf fence s = keyOf fence' s' → s = s'.
Proof.
  intros Hs Hs' Hk. unfold keyOf in Hk.
  apply (f_equal bytes_of) in Hk. rewrite !bytes_of_append, !app_assoc in Hk.
  apply app_inj_2 in Hk as [_ Hk]; [|rewrite !bytes_of_length; congruence].
  rewrite <- (string_of_bytes s), <- (string_of_bytes s'). congruence.
Qed.

(** *** The base, step by step *)

Lemma base_grow w w' :
  base w → facts_of w ⊑f facts_of w' → valid (facts_of w') →
  (∃ said rest, records w' = (SearchState (source w'), said) :: rest) →
  SourceRevision_ (source w') = Z.of_nat (length (writes w')) →
  (∀ id, is_Some (rows w' !! id) ↔ live (writes w') id) →
  (∀ key v, objects w' !! key = Some v → ∃ ix, stored w' !! key = Some ix ∧ v = encoded ix) →
  late w' = late w →
  (∀ key ix, stored w' !! key = Some ix → ∃ fence s, key = keyOf fence s ∧ String.length s = suffixLength ∧ s ∈ drawn w') →
  procs w' = procs w → base w'.
Proof.
  intros Hb Hm Hv Hh Hs Hr Ho Hl Hst Hp. split; try done.
  - rewrite Hl. eapply Forall_impl; [apply Hb|]. intros r. by apply late_ok_more.
  - rewrite Hp. intros n l Hn. eapply local_ok_more; [done|]. by apply (b_procs _ Hb n).
Qed.
Lemma objects_stored w w' : base w → facts_of w ⊑f facts_of w' → objects w' = objects w →
  ∀ key v, objects w' !! key = Some v → ∃ ix, stored w' !! key = Some ix ∧ v = encoded ix.
Proof.
  intros Hb Hm Ho key v Hk. rewrite Ho in Hk. destruct (b_objects _ Hb _ _ Hk) as (ix & Hix & ->). exists ix. split; [|done].
  by apply (more_stored _ _ _ _ Hm).
Qed.
(** Facts with one more record. *)
Lemma valid_record f x l :
  valid f → record_ok kid model (mkFacts (f_log f) l (f_stored f) (f_gone f)) x →
  l = x :: f_records f → (∀ y rest, f_records f = y :: rest → (PublicationGeneration y.1 < PublicationGeneration x.1)%Z) →
  valid (mkFacts (f_log f) l (f_stored f) (f_gone f)) ∧ f ⊑f mkFacts (f_log f) l (f_stored f) (f_gone f).
Proof.
  intros [Hr Ho Hs Hg] Hx -> Hlt.
  assert (Hm : f ⊑f mkFacts (f_log f) (x :: f_records f) (f_stored f) (f_gone f)) by (split_and!; try done; by exists [x]).
  split; [|done]. split; try done.
  - constructor; [done|]. eapply Forall_impl; [exact Hr|]. intros y. by apply record_ok_more.
  - cbn. constructor; [done|]. destruct (f_records f) as [|y rest]; [constructor|]. cbn in *. inversion Ho as [|? ? _ Hall]; subst.
    specialize (Hlt y rest eq_refl). constructor; [lia|]. eapply Forall_impl; [exact Hall|]. cbn. lia.
Qed.

Lemma handlePublish_cases s r :
  (∃ e, handlePublishSearchIndex s r = (s, Err e)) ∨
  ∃ st, handlePublishSearchIndex s r = (s <| SearchState := st |>, Ok (searchState (s <| SearchState := st |>))) ∧
    PublicationGeneration st = (PublicationGeneration (SearchState s) + 1)%Z ∧ ObjectKey st = r_ObjectKey r ∧
    s_KeyID st = r_KeyID r ∧ s_Model st = r_Model r ∧ PublishedSourceRevision st = CoveredSourceRevision r ∧
    (PublicationIncomplete st = false → r_Incomplete r = false) ∧
    (0 ≤ CoveredSourceRevision r ≤ SourceRevision_ s)%Z ∧ r_ObjectKey r ≠ ""%string.
Proof.
  unfold handlePublishSearchIndex. case_match eqn:Hneg; [by left; eexists|]. case_match; [by left; eexists|].
  destruct (searchIndexObjectKey (r_ObjectKey r)) as [digits|] eqn:Hk; [|by left; eexists].
  do 3 (case_match; [by left; eexists|]). case_match eqn:Hc; [by left; eexists|]. right. eexists. split; [reflexivity|].
  cbn in *. rewrite !orb_false_iff in Hneg, Hc. destruct Hneg as [_ ?%bool_decide_eq_false].
  destruct Hc as [[_ ?%bool_decide_eq_false] _]. split_and!; try done.
  - by intros [? _]%orb_false_iff.
  - lia.
  - lia.
  - intros He. by rewrite He in Hk.
Qed.

(** A step of the world's that leaves its processes and goroutines, whose
    keys, unless their own, are as they were. *)
Definition beside (w w' : World) (own : option string) : Prop :=
  facts_of w ⊑f facts_of w' ∧ procs w' = procs w ∧ threads w' = threads w ∧ drawn w ⊆ drawn w' ∧
  ∀ fence s, s ∈ drawn w → String.length s = suffixLength → own ≠ Some s →
    stored w !! keyOf fence s = None → stored w' !! keyOf fence s = None.

Lemma publishes_ok w r :
  base w →
  (r_KeyID r = kid → r_Model r = model → ∃ ix, stored w !! r_ObjectKey r = Some ix ∧
    (r_Incomplete r = false → covers (writes w) (CoveredSourceRevision r) ix)) →
  base (publishes w r).1 ∧ beside w (publishes w r).1 None ∧
  told_published (facts_of (publishes w r).1) r (publishes w r).2.
Proof.
  intros Hb Hmay. unfold publishes. destruct (handlePublish_cases (source w) r) as [[e ->]|(st & -> & Hgen & Hk & Hkid & Hmod & Hcov & Hinc & Hn & Hne)].
  { cbn. split_and!; [done|split_and!; done|done]. }
  cbn [is_ok fst snd]. set (w' := _ <| records ::= _ |>). destruct (b_head _ Hb) as (said & rest & Hh).
  destruct (valid_record (facts_of w) (st, negb (r_Incomplete r)) ((st, negb (r_Incomplete r)) :: records w)) as [Hv Hm].
  { apply Hb. }
  { pose proof (b_source _ Hb) as Hs. cbn. rewrite Hcov. split_and!; [lia|lia| |congruence|].
    - intros Hi. by rewrite (Hinc Hi).
    - rewrite Hk. intros (_ & Ho1 & Ho2). rewrite Hkid in Ho1. rewrite Hmod in Ho2.
      destruct (Hmay Ho1 Ho2) as (ix & Hix & Hc). exists ix. split; [done|]. intros Hi. apply Hc.
      by destruct (r_Incomplete r). }
  { done. }
  { cbn. rewrite Hh. intros y rest' [= <- _]. cbn. rewrite Hgen. lia. }
  change (mkFacts _ _ _ _) with (facts_of w') in Hv, Hm. split_and!.
  - apply (base_grow w); try done; try apply Hb. by eexists _, _.
  - split_and!; done.
  - intros s [= <-]. exists st. cbn. split_and!; [left|done|done].
Qed.
Lemma registers_ok w key fresh : base w → base (registers w key fresh) ∧ beside w (registers w key fresh) None.
Proof.
  intros Hb. unfold registers. case_match; [|split; [by destruct Hb|by split_and!]].
  set (s := fenceSearchIndex _). set (w' := _ <| records ::= _ |>). destruct (b_head _ Hb) as (said & rest & Hh).
  destruct (valid_record (facts_of w) (SearchState s, false) ((SearchState s, false) :: records w)) as [Hv Hm].
  { apply Hb. }
  { cbn. split_and!; [lia|lia|done|done|by intros [[] _]]. }
  { done. }
  { cbn. rewrite Hh. intros y rest' [= <- _]. cbn. lia. }
  change (mkFacts _ _ _ _) with (facts_of w') in Hv, Hm. split.
  - apply (base_grow w); try done; try apply Hb. by eexists _, _.
  - by split_and!.
Qed.

Lemma counted_encoded l ix : good l ix → counted (encoded ix) = ix.
Proof. intros (HW & HB & _). destruct (wf_accepted validTime ix HW HB) as [Hc _]. by destruct ix. Qed.
(** An index sent to the bucket under a key just drawn. *)
Lemma sends_ok w fence s ix :
  base w → good (writes w) ix → String.length s = suffixLength → s ∈ drawn w → (∀ fence, stored w !! keyOf fence s = None) →
  let w' := sends w (keyOf fence s) (encoded ix) in
  base w' ∧ beside w w' (Some s) ∧ stored w' !! keyOf fence s = Some ix.
Proof.
  intros Hb Hg Hl Hs Hfree w'. assert (Hst : stored w' = <[keyOf fence s := ix]> (stored w)).
  { unfold w', sends. cbn. by rewrite (counted_encoded _ _ Hg). }
  assert (Hm : facts_of w ⊑f facts_of w').
  { split_and!; [done..| |done]. cbn [f_stored facts_of]. rewrite Hst. by apply insert_subseteq. }
  split_and!.
  - apply (base_grow w); try done; try apply Hb.
    + destruct (b_valid _ Hb) as [Hr Ho Hsv Hgn]. split; try done.
      * eapply Forall_impl; [exact Hr|]. intros x. by apply record_ok_more.
      * cbn [f_stored facts_of]. rewrite Hst. apply map_Forall_insert_2; [split; [apply keyOf_nonempty|done]|done].
    + by apply (objects_stored w).
    + rewrite Hst. intros key ix' [[<- <-]|[_ Hk]]%lookup_insert_Some; [by exists fence, s|by eapply (b_stored _ Hb)].
  - split_and!; [done..|]. intros fence' s' Hs' Hl' Hne Hn. rewrite Hst. apply lookup_insert_None. split; [done|].
    intros Hk. apply Hne. f_equal. by eapply keyOf_inj.
  - by rewrite Hst, lookup_insert_eq.
Qed.
(** The objects, of those sent. *)
Lemma objects_ok w o : base w → (∀ key v, o !! key = Some v → ∃ ix, stored w !! key = Some ix ∧ v = encoded ix) →
  base (w <| objects := o |>) ∧ beside w (w <| objects := o |>) None.
Proof. intros Hb Ho. split; [|by split_and!]. by destruct Hb. Qed.
Lemma delete_ok w key : base w → base (w <| objects ::= delete key |>) ∧ beside w (w <| objects ::= delete key |>) None.
Proof. intros Hb. apply (objects_ok w (delete key (objects w))); [done|]. intros k v [_ Hk]%lookup_delete_Some. by apply Hb. Qed.
Lemma object_ok w key ix :
  base w → stored w !! key = Some ix →
  base (w <| objects ::= <[key := encoded ix]> |>) ∧ beside w (w <| objects ::= <[key := encoded ix]> |>) None.
Proof.
  intros Hb Hs. apply (objects_ok w (<[key := encoded ix]> (objects w))); [done|].
  intros k v [[<- <-]|[_ Hk]]%lookup_insert_Some; [by exists ix|by apply Hb].
Qed.
Lemma lateIf_ok w b r : base w → late_ok w r → base (lateIf b r w) ∧ beside w (lateIf b r w) None.
Proof.
  intros Hb Hr. destruct b; [|by split_and!]. split; [|by split_and!]. destruct Hb. split; try done. by constructor.
Qed.
Lemma serves_ok w r : base w → late_ok w r → base (serves w r) ∧ beside w (serves w r) None.
Proof.
  intros Hb Hr. destruct r as [r|key v|key]; cbn.
  - destruct (publishes_ok w r) as (? & ? & _); [done|intros _ _; apply Hr|done].
  - destruct Hr as (ix & Hix & ->). by apply object_ok.
  - by apply delete_ok.
Qed.
Lemma draw_ok w s : base w → base (w <| drawn ::= λ d, {[s]} ∪ d |>) ∧ beside w (w <| drawn ::= λ d, {[s]} ∪ d |>) None.
Proof.
  intros Hb. split; [|split_and!; try done; set_solver]. destruct Hb as [? ? ? ? ? ? Hst ?]. split; try done.
  cbn. intros key ix Hk. destruct (Hst _ _ Hk) as (fence & s' & ? & ? & ?). exists fence, s'. set_solver.
Qed.

(** *** A goroutine's step *)

(** What a step of goroutine [g] makes of the world, of its process's state
    and of what it holds. *)
Definition after (w w' : World) (g n : nat) (l l' : local) (h h' : hold) : Prop :=
  base w' ∧ facts_of w ⊑f facts_of w' ∧ procs w' = <[n := l']> (procs w) ∧ threads w' = threads w ∧
  claims (facts_of w') l' g h' ∧ frame l l' g h ∧ drawn w ⊆ drawn w' ∧
  (∀ fence s, s ∈ drawn w → String.length s = suffixLength → own h ≠ Some s →
    stored w !! keyOf fence s = None → stored w' !! keyOf fence s = None) ∧
  owns w' h' ∧ ∀ s, own h' = Some s → own h = Some s ∨ s ∉ drawn w.
Lemma frame_refl l g h : frame l l g h.
Proof. done. Qed.
Lemma after_beside w w' g n l h :
  base w' → beside w w' None → procs w !! n = Some l → claims (facts_of w) l g h → owns w h → after w w' g n l l h h.
Proof.
  intros Hb (Hm & Hp & Ht & Hd & Hs) Hn Hc Ho. split_and!; try done.
  - by rewrite insert_id.
  - by eapply claims_more.
  - intros fence s ? ? _. by apply Hs.
  - intros s Hos. destruct (Ho s Hos) as (? & ? & Hf). split_and!; [set_solver|done|]. intros fence. by apply Hs.
  - auto.
Qed.
Lemma beside_trans w w1 w2 o : beside w w1 o → beside w1 w2 None → beside w w2 o.
Proof.
  intros (Hm & Hp & Ht & Hd & Hs) (Hm' & Hp' & Ht' & Hd' & Hs'). split_and!; [by etrans|congruence..|set_solver|].
  intros fence s ? ? ? ?. apply Hs'; [set_solver|done|done|by apply Hs].
Qed.
Lemma after_sent w w' g n l h s :
  base w' → beside w w' (Some s) → own h = Some s → procs w !! n = Some l → claims (facts_of w) l g h →
  after w w' g n l l h (h <| own := None |>).
Proof.
  intros Hb (Hm & Hp & Ht & Hd & Hs) Ho Hn Hc. split_and!; try done.
  - by rewrite insert_id.
  - exact (claims_more _ _ _ _ _ _ _ Hm Hc).
  - intros fence s'. rewrite Ho. apply Hs.
Qed.
Lemma after_drawn w g n l h s :
  base w → procs w !! n = Some l → claims (facts_of w) l g h → own h = None → String.length s = suffixLength → s ∉ drawn w →
  after w (w <| drawn ::= λ d, {[s]} ∪ d |>) g n l l h (h <| own := Some s |>).
Proof.
  intros Hb Hn Hc Ho Hl Hs. destruct (draw_ok w s Hb) as [Hb' (Hm & Hp & Ht & Hd & _)]. split_and!; try done.
  - by rewrite insert_id.
  - intros s' [= <-]. split_and!; [cbn; set_solver|done|]. intros fence. cbn.
    destruct (stored w !! keyOf fence s) as [ix|] eqn:Hk; [|done]. destruct (b_stored _ Hb _ _ Hk) as (fence' & s' & Heq & Hl' & Hin).
    by rewrite (keyOf_inj _ _ _ _ Hl Hl' Heq) in Hs.
  - intros s' [= <-]. by right.
Qed.
Lemma local_base w n l : base w → local_ok (facts_of w) l → base (w <| procs ::= <[n := l]> |>).
Proof. intros Hb Hl. destruct Hb as [? ? ? ? ? ? ? Hp]. split; try done. cbn. by apply map_Forall_insert_2. Qed.

Lemma truth_state w : base w → told_state (facts_of w) (Ok (searchState (source w))).
Proof.
  intros Hb s [= <-]. destruct (b_head _ Hb) as (said & rest & Hh). exists (SearchState (source w)), said, (CurrentKeyID (source w)).
  split; [cbn; rewrite Hh; left|]. pose proof (b_source _ Hb) as Hs. cbn. rewrite <- Hs. by destruct (source w).
Qed.
Lemma truth_row w hd id : base w →
  told_row (facts_of w) hd id (match rows w !! id with Some etag => Ok etag | None => Err (CStatus 404) end).
Proof.
  intros Hb. pose proof (b_rows _ Hb id) as Hr. destruct (rows w !! id) as [etag|]; cbn; [by apply Hr|].
  intros _ _ Hl. by apply Hr in Hl as [? ?].
Qed.
Lemma truth_object w key : base w → told_object (facts_of w) key (match objects w !! key with Some v => Ok v | None => Err BNotFound end).
Proof. intros Hb v Hv. destruct (objects w !! key) as [v'|] eqn:Hk; [|done]. injection Hv as ->. by apply Hb. Qed.

Lemma turn_ok {A} w g n (p p' : prog F A) rep w' h Q l :
  base w → wp p (facts_of w) h Q → procs w !! n = Some l → claims (facts_of w) l g h → owns w h →
  turn w g n p rep = Some (w', p') →
  ∃ h' l', after w w' g n l l' h h' ∧ wp p' (facts_of w') h' Q.
Proof.
  intros Hb Hp Hn Hc Ho Ht. pose proof (b_valid _ Hb) as Hv.
  assert (Hself : after w w g n l l h h) by (apply after_beside; try done; by split_and!).
  destruct p as [a| |k|req k|hd id k|cur k|ids k|key k|key v k|key k|inp k|k|k|k|B f k]; destruct rep as [|e b served|vs|s|over|li|pu|ti];
    cbn [turn] in Ht; try done; cbn [Indexed.wp] in Hp.
  - injection Ht as <- <-. exists h, l. split; [done|]. apply Hp; [done..|by apply truth_state].
  - injection Ht as <- <-. exists h, l. split; [done|]. by apply Hp.
  - destruct Hp as [Hmay Hp]. destruct (publishes_ok w req Hb) as (Hb' & Hbs & Htold); [intros _ _; apply Hmay|].
    destruct (publishes w req) as [w1 r1]. injection Ht as <- <-. exists h, l. split; [by apply after_beside|].
    apply Hp; [apply Hbs|apply Hb'|done].
  - destruct Hp as [Hmay Hp]. injection Ht as <- <-. destruct (lateIf_ok w served (LPublish req) Hb Hmay) as [Hb' Hbs].
    exists h, l. split; [by apply after_beside|]. apply Hp; [apply Hbs|apply Hb'|done].
  - injection Ht as <- <-. exists h, l. split; [done|]. apply Hp; [done..|by apply truth_row].
  - case_match eqn:He; [done|]. injection Ht as <- <-. exists h, l. split; [done|]. apply Hp; [done..|].
    cbn in He. destruct e as [st| |]; [|done..]. apply bool_decide_eq_false in He. by intros ->.
  - injection Ht as <- <-. by exists h, l.
  - case_match; [|done]. injection Ht as <- <-. by exists h, l.
  - injection Ht as <- <-. by exists h, l.
  - case_match; [|done]. injection Ht as <- <-. by exists h, l.
  - injection Ht as <- <-. exists h, l. split; [done|]. apply Hp; [done..|by apply truth_object].
  - injection Ht as <- <-. exists h, l. split; [done|]. by apply Hp.
  - destruct Hp as (ix & fence & s & -> & Hg & Hos & -> & Hp). destruct (Ho _ Hos) as (Hs & Hl & Hfree).
    destruct (sends_ok w fence s ix) as (Hb1 & Hbs & Hst); try done. injection Ht as <- <-.
    destruct (object_ok _ _ _ Hb1 Hst) as [Hb2 Hbs2]. exists (h <| own := None |>), l.
    assert (Hbs' := beside_trans _ _ _ _ Hbs Hbs2). split; [by eapply after_sent|]. by apply Hp; [apply Hbs'|apply Hb2|].
  - destruct Hp as (ix & fence & s & -> & Hg & Hos & -> & Hp). destruct (Ho _ Hos) as (Hs & Hl & Hfree).
    destruct (sends_ok w fence s ix) as (Hb1 & Hbs & Hst); try done. injection Ht as <- <-.
    destruct (lateIf_ok _ served (LPut (keyOf fence s) (encoded ix)) Hb1) as [Hb2 Hbs2]; [by exists ix|]. exists (h <| own := None |>), l.
    assert (Hbs' := beside_trans _ _ _ _ Hbs Hbs2). split; [by eapply after_sent|]. apply Hp; [apply Hbs'|apply Hb2|].
    by destruct served.
  - injection Ht as <- <-. exists h, l. destruct (delete_ok w key Hb). split; [by apply after_beside|]. done.
  - injection Ht as <- <-. destruct (lateIf_ok w served (LDelete key) Hb I) as [Hb' Hbs].
    exists h, l. split; [by apply after_beside|]. by destruct served.
  - case_bool_decide as Hlen; [|done]. injection Ht as <- <-. exists h, l. split; [done|]. apply Hp. by intros vs' ->.
  - case_match eqn:Hd; [|done]. injection Ht as <- <-. apply andb_true_iff in Hd as [Hl%bool_decide_eq_true Hd%negb_true_iff%bool_decide_eq_false].
    destruct Hp as [Hno Hp]. exists (h <| own := Some s |>), l. split; [by apply after_drawn|]. by apply Hp.
  - injection Ht as <- <-. by exists h, l.
  - injection Ht as <- <-. exists h, l. by split.
  - rewrite Hn in Ht. destruct (f g l) as [[l' b]|] eqn:Hf; [|done]. injection Ht as <- <-.
    destruct (Hp (facts_of w) g l l' b) as (h' & Ho' & Hok & Hc' & Hfr & Hk); try done. { by apply (b_procs _ Hb n). }
    exists h', l'. split; [|done]. split_and!; try done.
    + by apply local_base.
    + intros s Hs. rewrite Ho' in Hs. by apply Ho.
    + intros s Hs. left. congruence.
Qed.

(** *** The whole, step by step *)

Lemma base_threads w t : base w → base (w <| threads := t |>).
Proof. intros Hb. by destruct Hb. Qed.
(** A goroutine's step leaves the others of its process their claims. *)
Lemma others_claims f l l' g g' h h' :
  local_ok f l → claims f l g h → claims f l g' h' → frame l l' g h → g' ≠ g → claims f l' g' h'.
Proof.
  intros Hok (Hl & _) (Hl' & Hcl & Hno & Hat) (Hfl & Hfn & Hfh) Hne. split_and!; [by rewrite Hfl| |done|].
  - intros Htrue Hd c Hs. rewrite Htrue in Hl'. pose proof (proj1 (proj2 Hok) _ Hl') as Hone.
    rewrite Hone, lookup_singleton_ne in Hl by done. destruct (Hfn (eq_sym Hl)) as [Hh Hsl].
    apply (clean_heap validTime Tokenize _ l); [done|]. rewrite Hsl in Hs. by apply Hcl.
  - intros p ix Ha. assert (Hnt : lock h ≠ Some true).
    { intros Ht. rewrite Ht in Hl. destruct (lock h') as [b|] eqn:Hb; [|by rewrite Hno in Ha].
      by destruct (held_alone validTime Tokenize _ _ _ _ _ Hok Hl' Hl) as [-> _]. }
    eapply lookup_weaken; [by apply Hat|by apply Hfh].
Qed.
Lemma Inv_turn w w' H g n t t' l l' h' :
  base w → holds w H → threads w !! g = Some (n, t) → procs w !! n = Some l →
  after w w' g n l l' (H g) h' → thread_ok (facts_of w') h' t' → Inv (w' <| threads ::= <[g := (n, t')]> |>).
Proof.
  intros Hb (Hth & Huniq & Hlk) Ht Hn (Hb' & Hm & Hp & Hthr & Hc' & Hfr & Hd & Hst & Ho' & Hnew) Hok.
  split; [apply (base_threads w' _ Hb')|]. exists (λ g', if decide (g' = g) then h' else H g').
  destruct (Hth _ _ _ Ht) as (l0 & Hn0 & Hc & _ & Ho). rewrite Hn in Hn0. injection Hn0 as <-.
  assert (Hkeys : ∀ g', is_Some (<[g := (n, t')]> (threads w') !! g') ↔ is_Some (threads w !! g')).
  { intros g'. rewrite Hthr. destruct (decide (g' = g)) as [->|]; [rewrite lookup_insert_eq, Ht|rewrite lookup_insert_ne by done]; done. }
  split_and!; cbn.
  - intros g1 n1 t1. destruct (decide (g1 = g)) as [->|Hne].
    + rewrite lookup_insert_eq. intros [= <- <-]. exists l'. rewrite Hp, lookup_insert_eq. done.
    + rewrite lookup_insert_ne, Hthr by done. intros Ht1. destruct (Hth _ _ _ Ht1) as (l1 & Hn1 & Hc1 & Hok1 & Ho1).
      assert (Howns : owns w' (H g1)).
      { intros s Hs. destruct (Ho1 s Hs) as (Hin & Hl & Hf). split_and!; [set_solver|done|]. intros fence. apply Hst; [done..| |done].
        intros Hs'. apply Hne. by eapply Huniq. }
      exists (if decide (n1 = n) then l' else l1). rewrite Hp. case_decide as Hnn.
      * subst n1. rewrite Hn in Hn1. injection Hn1 as <-. rewrite lookup_insert_eq. split_and!; [done| |by eapply thread_ok_more|done].
        apply (claims_more _ _ (facts_of w)); [done|]. by apply (others_claims _ l l' g g1 (H g) (H g1)); [apply (b_procs _ Hb n)|..].
      * rewrite lookup_insert_ne by done. split_and!; [done|by apply (claims_more _ _ (facts_of w))|by eapply thread_ok_more|done].
  - intros g1 g2 s. rewrite !Hkeys. intros H1 H2 Hs1 Hs2. destruct (decide (g1 = g)) as [->|], (decide (g2 = g)) as [->|]; [done|..|by eapply Huniq].
    + destruct (Hnew s Hs1) as [Hs|Hs]; [by eapply Huniq|]. destruct H2 as [[n2 t2] H2]. destruct (Hth _ _ _ H2) as (_ & _ & _ & _ & Ho2).
      by destruct (Ho2 s Hs2) as [? _].
    + destruct (Hnew s Hs2) as [Hs|Hs]; [by eapply Huniq|]. destruct H1 as [[n1 t1] H1]. destruct (Hth _ _ _ H1) as (_ & _ & _ & _ & Ho1).
      by destruct (Ho1 s Hs1) as [? _].
  - intros n0 l0 g0. rewrite Hp, Hkeys. destruct (decide (n0 = n)) as [->|]; [rewrite lookup_insert_eq|rewrite lookup_insert_ne by done].
    + intros [= <-]. destruct (decide (g0 = g)) as [->|]; [by rewrite Ht|]. rewrite (proj1 Hfr) by done. by apply (Hlk n).
    + apply Hlk.
Qed.
Lemma Inv_beside w w' : Inv w → base w' → beside w w' None → Inv w'.
Proof.
  intros [Hb (H & Hth & Huniq & Hlk)] Hb' (Hm & Hp & Ht & Hd & Hst). split; [done|]. exists H. unfold holds. rewrite Ht, Hp. split_and!; [|done..].
  intros g n t Hg. destruct (Hth _ _ _ Hg) as (l & Hn & Hc & Hok & Ho). exists l.
  split_and!; [done|by apply (claims_more _ _ (facts_of w))|by eapply thread_ok_more|].
  intros s Hs. destruct (Ho s Hs) as (? & ? & Hf). split_and!; [set_solver|done|]. intros fence. by apply Hst.
Qed.
(** A process's state changed by none of its goroutines. *)
Lemma Inv_local w n l l' :
  Inv w → procs w !! n = Some l → local_ok (facts_of w) l' → locked l' = locked l →
  (∀ g h, claims (facts_of w) l g h → claims (facts_of w) l' g h) → Inv (w <| procs ::= <[n := l']> |>).
Proof.
  intros [Hb (H & Hth & Huniq & Hlk)] Hn Hok Hsame Hcl. split; [by apply local_base|]. exists H. split_and!; [|done|].
  - intros g n1 t Hg. destruct (Hth _ _ _ Hg) as (l1 & Hn1 & Hc & Hrest). exists (if decide (n1 = n) then l' else l1). cbn.
    case_decide as Hnn; [subst n1; rewrite lookup_insert_eq|by rewrite lookup_insert_ne].
    split; [done|]. split; [|done]. apply Hcl. congruence.
  - cbn. intros n0 l0 g [[<- <-]|[_ Hn0]]%lookup_insert_Some; [rewrite Hsame|]; by eapply Hlk.
Qed.
Lemma Inv_spawn w n g l t :
  Inv w → procs w !! n = Some l → threads w !! g = None → thread_ok (facts_of w) nothing t →
  Inv (w <| threads ::= <[g := (n, t)]> |>).
Proof.
  intros [Hb (H & Hth & Huniq & Hlk)] Hn Hg Hok. split; [by apply (base_threads w)|].
  exists (λ g', if decide (g' = g) then nothing else H g'). split_and!; cbn.
  - intros g1 n1 t1. destruct (decide (g1 = g)) as [->|Hne]; [rewrite lookup_insert_eq|rewrite lookup_insert_ne by done; apply Hth].
    intros [= <- <-]. exists l. split_and!; [done| |done|done]. split_and!; [|done..].
    destruct (locked l !! g) as [b|] eqn:Hl; [|done]. destruct (Hlk n l g) as [x Hx]; [done|by rewrite Hl|]. congruence.
  - intros g1 g2 s H1 H2 Hs1 Hs2. repeat case_decide; subst; try done. rewrite lookup_insert_ne in H1, H2 by done. by eapply Huniq.
  - intros n0 l0 g0 Hn0 Hl0. destruct (decide (g0 = g)) as [->|]; [by rewrite lookup_insert_eq|rewrite lookup_insert_ne by done].
    by eapply Hlk.
Qed.

Lemma writes_ok w x row :
  base w → (∀ c, x = WPut (wr_id x) c → wr_id x ∉ gone w) → (is_Some row ↔ ∃ c, x = WPut (wr_id x) c) →
  base (writes_chat w x row) ∧ beside w (writes_chat w x row) None.
Proof.
  intros Hb Hgone Hrow. set (w' := writes_chat w x row).
  assert (Hm : facts_of w ⊑f facts_of w') by (split_and!; try done; by apply prefix_app_r).
  split; [|by split_and!]. apply (base_grow w); try done; try apply Hb.
  - destruct (b_valid _ Hb) as [Hr Ho Hs Hg]. split; try done.
    + eapply Forall_impl; [exact Hr|]. intros y. by apply record_ok_more.
    + intros key ix Hk. destruct (Hs _ _ Hk) as [? ?]. split; [done|]. eapply good_more; [apply Hm|done].
    + intros id Hid. cbn in *. rewrite live_snoc. case_decide as Heq; [|by apply Hg]. intros [c Hc]. apply (Hgone c); congruence.
  - pose proof (b_source _ Hb). cbn. rewrite length_app. cbn. lia.
  - intros id. cbn. rewrite live_snoc. case_decide as Heq.
    + subst id. by rewrite lookup_partial_alter_eq.
    + rewrite lookup_partial_alter_ne by done. apply Hb.
Qed.
Lemma reseal_rows_ok w id etag : base w → base (w <| rows ::= alter (λ _, etag) id |>) ∧ beside w (w <| rows ::= alter (λ _, etag) id |>) None.
Proof.
  intros Hb. split; [|by split_and!]. destruct Hb as [? ? ? Hr]. split; try done. cbn. intros id'. rewrite <- Hr.
  rewrite lookup_alter. case_decide; [subst|done]. by rewrite fmap_is_Some.
Qed.
Lemma gone_ok w id :
  base w → rows w !! id = None → base (w <| gone ::= λ d, {[id]} ∪ d |>) ∧ beside w (w <| gone ::= λ d, {[id]} ∪ d |>) None.
Proof.
  intros Hb Hr. set (w' := _ <| gone ::= _ |>).
  assert (Hm : facts_of w ⊑f facts_of w') by (split_and!; try done; cbn; set_solver).
  split; [|by split_and!]. apply (base_grow w); try done; try apply Hb.
  destruct (b_valid _ Hb) as [Hrec Ho Hs Hg]. split; try done.
  cbn. intros id' [->%elem_of_singleton|?]%elem_of_union; [|by apply Hg]. rewrite <- (b_rows _ Hb id), Hr. by intros [? ?].
Qed.

Lemma enqueues_ok w n g u w' :
  Inv w → update_ok Tokenize (facts_of w) u → enqueues w n g u = Some w' → Inv w'.
Proof.
  intros HI Hu He. unfold enqueues in He. destruct (procs w !! n) as [l|] eqn:Hn; [|done].
  destruct (threads w !! g) eqn:Hg; [done|]. destruct (enqueue u l) as [l' started] eqn:Hq.
  pose proof (b_procs _ (proj1 HI) n l Hn) as Hok. destruct Hok as (Hs & Hl & Hw & Hcm).
  assert (Hl' : locked l' = locked l ∧ heap l' = heap l ∧ slot l' = slot l ∧ ∀ wr, writer_ l' = Some wr → pending_ok Tokenize (facts_of w) (pending wr)).
  { unfold enqueue in Hq. destruct (writer_ l) as [wr|] eqn:Hwr; injection Hq as <- <-; cbn; split_and!; try done; intros w1 [= <-]; cbn.
    - apply (add_pending validTime Tokenize formatTime entryTime); [by apply Hw|done].
    - by apply (add_pending validTime Tokenize formatTime entryTime). }
  destruct Hl' as (Hlk & Hh & Hsl & Hpend).
  assert (HI' : Inv (w <| procs ::= <[n := l']> |>)).
  { apply (Inv_local w n l); [done..| |done|].
    - split_and!; [|by rewrite Hlk|done|by rewrite Hsl]. intros c. rewrite Hsl, Hlk. intros Hc.
      destruct (Hs c Hc) as [?|?]; [left; by apply (clean_heap validTime Tokenize _ l)|by right].
    - intros g0 h (? & Hc & ? & ?). split_and!; [by rewrite Hlk| |done|by rewrite Hh].
      intros Ht Hd c. rewrite Hsl. intros Hc'. apply (clean_heap validTime Tokenize _ l); [done|]. by apply Hc. }
  destruct started; injection He as <-; [|done].
  change (Inv ((w <| procs ::= <[n := l']> |>) <| threads ::= <[g := (n, TWriter runWriter)]> |>)).
  apply Inv_spawn with l'; [done|by cbn; rewrite lookup_insert_eq|done|].
  apply wp_runWriter, HI'.
Qed.
Lemma updates_ok w id content etag at_ rev :
  log_at (writes w) rev = Some (WPut id content) →
  update_ok Tokenize (facts_of w) (storedUpdate Tokenize id content etag at_ rev).
Proof. intros Hl. split; [by intros r ?%elem_of_nil|]. by exists content. Qed.
Lemma removals_ok w id rev :
  log_at (writes w) rev = Some (WDelete id) ∨ rev = 0%Z ∧ id ∈ gone w → update_ok Tokenize (facts_of w) (removal id rev).
Proof.
  intros Hl. split; [by intros r ?%elem_of_nil|]. cbn. destruct Hl as [Hl|[-> Hg]]; [|done].
  by rewrite bool_decide_true by (apply log_at_range in Hl; lia).
Qed.

Lemma runs_ok w g rep w' : Inv w → runs w g rep = Some w' → Inv w'.
Proof.
  intros HI He. pose proof HI as [Hb (H & HH)]. unfold runs in He. destruct (threads w !! g) as [[n t]|] eqn:Hg; [|done].
  pose proof HH as (Hth & _). destruct (Hth _ _ _ Hg) as (l & Hn & Hc & Hok & Ho).
  assert (Hturn : ∀ {A} (p : prog F A) w1 p1 Q T, turn w g n p rep = Some (w1, p1) → wp p (facts_of w) (H g) Q →
    (∀ f h p, wp p f h Q → thread_ok f h (T p)) → Inv (w1 <| threads ::= <[g := (n, T p1)]> |>)).
  { intros A p w1 p1 Q T Ht Hp HT. destruct (turn_ok w g n p p1 rep w1 (H g) Q l) as (h' & l' & Haft & Hk); try done.
    eapply Inv_turn; try done. by apply HT. }
  destruct t as [p|began p|p]; [| |done].
  - assert (Hgo : ∀ w1 p1, turn w g n p rep = Some (w1, p1) → Inv (w1 <| threads ::= <[g := (n, TWriter p1)]> |>)).
    { intros w1 p1 Ht. eapply (Hturn _ p w1 p1 _ TWriter); [done|exact Hok|done]. }
    assert (Hdone : ∀ b, p = Ret b → Inv (w <| threads ::= <[g := (n, TWriter runWriter)]> |>)).
    { intros b ->. cbn in Hok. eapply (Inv_turn w w H g n); try done; [apply after_beside; try done; by split_and!|].
      rewrite Hok. apply wp_runWriter, Hb. }
    destruct p as [[]| | | | | | | | | | | | | |]; try (destruct (turn w g n _ rep) as [[w1 p1]|]; [|done]; injection He as <-; by apply Hgo).
    destruct rep; try done. injection He as <-. by eapply Hdone.
  - destruct (turn w g n p rep) as [[w1 p1]|] eqn:Ht; [|done]. injection He as <-.
    eapply (Hturn _ p w1 p1 _ (TQuery began)); [done|exact Hok|done].
Qed.

Lemma other_ok w s r ix w' :
  base w → truthful w (AOther s r ix) → publishesOther w s r ix = Some w' → base w' ∧ beside w w' None.
Proof.
  intros Hb Htr He. unfold publishesOther in He. case_match eqn:Hc; [|done]. injection He as <-.
  apply andb_true_iff in Hc as [[Hl Hs]%andb_true_iff Hk]. apply bool_decide_eq_true in Hl.
  apply negb_true_iff, bool_decide_eq_false in Hs. apply String.eqb_eq in Hk.
  set (w1 := w <| drawn ::= λ d, {[s]} ∪ d |>). destruct (draw_ok w s Hb) as [Hb1 Hbs1]. fold w1 in Hb1, Hbs1.
  assert (Hfree : ∀ fence, stored w !! keyOf fence s = None).
  { intros fence. destruct (stored w !! keyOf fence s) as [ix'|] eqn:Hst; [|done].
    destruct (b_stored _ Hb _ _ Hst) as (fence' & s' & Heq & Hl' & Hin). by rewrite (keyOf_inj _ _ _ _ Hl Hl' Heq) in Hs. }
  assert (Hgo : ∀ w2, base w2 → beside w w2 None → writes w2 = writes w →
    (r_KeyID r = kid → r_Model r = model → stored w2 !! r_ObjectKey r = Some ix) → base (publishes w2 r).1 ∧ beside w (publishes w2 r).1 None).
  { intros w2 Hb2 Hbs2 Hw Hst. destruct (publishes_ok w2 r Hb2) as (Hb3 & Hbs3 & _).
    - intros Hkid Hmod. exists ix. split; [by apply Hst|]. rewrite Hw. by apply Htr.
    - split; [done|]. by eapply beside_trans. }
  destruct (String.eqb_spec (r_KeyID r) kid), (String.eqb_spec (r_Model r) model); cbn [andb]; [|by apply Hgo..].
  destruct (sends_ok w1 (ExpectedFence r) s ix) as (Hb2 & (Hm & Hp & Ht & Hd & Hf) & Hst); try done.
  { by apply Htr. }
  { cbn. set_solver. }
  assert (Hbs2 : beside w (sends w1 (keyOf (ExpectedFence r) s) (encoded ix)) None).
  { split_and!; try done; [etrans; [apply Hbs1|done]|]. intros fence s' Hin Hl' _ Hn. apply Hf; [cbn; set_solver|done| |done].
    intros [= <-]. done. }
  destruct (object_ok _ _ _ Hb2 Hst) as [Hb3 Hbs3]. unfold puts. rewrite Hk. apply Hgo; [done|by eapply beside_trans|done|].
  intros _ _. by rewrite Hk.
Qed.

Lemma exec_inv w a w' : Inv w → truthful w a → exec w a = Some w' → Inv w'.
Proof.
  intros HI Htr He. pose proof HI as [Hb (H & HH)].
  assert (Hbs : ∀ w', base w' ∧ beside w w' None → Inv w') by (intros w1 [? ?]; by eapply Inv_beside).
  destruct a as [id content etag|id|id etag|id|key fresh|n|n g id rev at_ etag|n g id rev|n g query|n g fuel|n g|g rep|i|n|s r ix]; cbn [exec] in He.
  - injection He as <-. apply Hbs, writes_ok; [done|by intros|]. split; [by eexists|done].
  - destruct (rows w !! id); [|done]. injection He as <-. apply Hbs, writes_ok; [done|by intros|]. split; [by intros [? ?]|by intros [? ?]].
  - injection He as <-. by apply Hbs, reseal_rows_ok.
  - destruct (rows w !! id) eqn:Hr; [done|]. injection He as <-. by apply Hbs, gone_ok.
  - injection He as <-. by apply Hbs, registers_ok.
  - destruct (procs w !! n) eqn:Hn; [done|]. injection He as <-. split.
    + apply local_base; [done|]. by split_and!.
    + exists H. destruct HH as (Hth & Huniq & Hlk). split_and!; [|done|].
      * intros g n1 t Hg. destruct (Hth _ _ _ Hg) as (l & Hn1 & ?). exists l. cbn. rewrite lookup_insert_ne by congruence. done.
      * cbn. intros n1 l g [[<- <-]|[_ Hn1]]%lookup_insert_Some; [by intros [? ?]|by eapply Hlk].
  - destruct (log_at (writes w) rev) as [[id' content|]|] eqn:Hl; [|done..].
    destruct (String.eqb_spec id' id) as [->|]; [|done]. eapply enqueues_ok; [done| |done]. by apply updates_ok.
  - destruct (log_at (writes w) rev) as [[|id']|] eqn:Hl; [done| |].
    + destruct (String.eqb_spec id' id) as [->|]; [|done]. eapply enqueues_ok; [done| |done]. apply removals_ok. by left.
    + case_bool_decide as Hrev; [|done]. eapply enqueues_ok; [done| |done]. apply removals_ok. right. split; [done|]. by apply Htr.
  - unfold spawns in He. destruct (procs w !! n) as [l|] eqn:Hn; [|done]. destruct (threads w !! g) eqn:Hg; [done|]. injection He as <-.
    apply Inv_spawn with l; [done..|]. apply (wp_Query _ _ _ _ formatTime entryTime); [apply Hb|done].
  - done.
  - done.
  - by eapply runs_ok.
  - destruct (late w !! i) as [r|] eqn:Hi; [|done]. injection He as <-. apply Hbs, serves_ok; [done|].
    eapply Forall_lookup_1; [apply Hb|done].
  - destruct (procs w !! n) as [l|] eqn:Hn; [|done]. injection He as <-.
    destruct (b_procs _ Hb n l Hn) as (Hs & Hl & Hw & Hcm).
    change (Inv (w <| procs ::= <[n := l <| slot := None |>]> |>)). apply Inv_local with l; [done..| |done|]; [by split_and!|].
    intros g h (? & ? & ? & ?). by split_and!.
  - by eapply Hbs, other_ok.
Qed.
Lemma init_ok : Inv init.
Proof.
  split; [|by exists (λ _, nothing)]. split; try done.
  - split; try done; [|by repeat constructor]. constructor; [|constructor]. split_and!; [done..|]. by intros [[] _].
  - by eexists _, _.
  - intros id. cbn. rewrite lookup_empty. split; [by intros [? ?]|]. intros (r & c & [Hl _]). by apply log_at_range in Hl; cbn in Hl; lia.
Qed.
Lemma reaches_inv w : reaches w → Inv w.
Proof.
  induction 1 as [w ->|w a w' _ IH [Htr He]]; [apply init_ok|by eapply exec_inv].
Qed.

(** C2. A query that says no rebuild is needed has searched a complete
    index.  However the writers of however many processes, their queries,
    evictions from their caches, chats' writes and deletions, key
    registrations and the publications of others interleave, and whichever
    requests fail or are served late, as long as no rebuild and no repair of
    embeddings has begun, and no chat is made again that is removed without a
    revision (both may leave chats out of the index): the record it answers
    from covers every write there was when it began, and the index it
    searched has, of every chat whose last write the record covers, just that
    write, under just the tokens of its text, and nothing of a chat so
    deleted.  And it starts a repair of embeddings only where the index needs
    one under its key. *)
Theorem query_complete w g n began a :
  reaches w → threads w !! g = Some (n, TQuery began (Ret (Ok a))) →
  (needsRebuild a = false →
   (Z.of_nat began ≤ PublishedSourceRevision (read a) ≤ Z.of_nat (length (writes w)))%Z ∧
   ∀ r x, is_last (writes w) r x → (r ≤ PublishedSourceRevision (read a))%Z →
     match x with
     | WPut id content => ∃ e, Chats (searched a) !! id = Some e ∧ SourceRevision e = r ∧
         ∀ tok, indexed (searched a) id tok ↔ tok ∈ chat_tokens (tokens Tokenize content)
     | WDelete id => Chats (searched a) !! id = None
     end) ∧
  (startsRepair a = true → needsRebuild a = false ∧ NeedsEmbeddingRepairFor (searched a) kid = true).
Proof.
  intros [Hb (H & Hth & _)]%reaches_inv Hg. destruct (Hth _ _ _ Hg) as (_ & _ & _ & [_ [Hok Hrep]] & _). split; [|done]. intros Hneed.
  destruct (Hok Hneed) as (Hrange & Hgood & _ & Hcov). split; [done|]. intros r x Hl Hr. specialize (Hcov r x Hl Hr).
  destruct x as [id content|id]; [|by apply rev_of_None]. apply rev_of_Some in Hcov as (e & He & <-). exists e. split_and!; [done..|].
  destruct Hgood as (_ & _ & Hg'). destruct (Hg' _ _ He) as (c & Hc & Ht). destruct Hl as [Hl _]. pose proof (eq_trans (eq_sym Hl) Hc) as [= <-]. done.
Qed.

(** No writer and no query panics, in any of those interleavings: no
    index read back from the bucket, changed or repaired is one that an
    operation on it would fail on. *)
Theorem searches_never_panic w g n t :
  reaches w → threads w !! g = Some (n, t) → t ≠ TWriter Panic ∧ ∀ began, t ≠ TQuery began Panic.
Proof.
  intros [Hb (H & Hth & _)]%reaches_inv Hg. destruct (Hth _ _ _ Hg) as (_ & _ & _ & Hok & _). split; [by intros ->|by intros began ->].
Qed.

End Searches.

(** ** Two chats and a query elsewhere

    A chat is written while the writer of another's update is at work, and
    joins it; the first is then deleted.  A process that has none of it in
    its cache answers a query. *)
Section Witness.
#[local] Existing Instance Seal.toy_json.

Definition toy_kid : string := "0123456789abcdef0123456789abcdef".
(** A step, where no chat is made again that is removed without a revision. *)
Definition granted (w : World (F := unit)) (a : action (F := unit)) : bool :=
  match a with
  | APut id _ _ => negb (bool_decide (id ∈ gone w))
  | ARemoved _ _ id rev => negb (bool_decide (rev = 0%Z)) || bool_decide (id ∈ gone w)
  | _ => true
  end.
Definition toy_exec (w : World (F := unit)) (a : action (F := unit)) : option (World (F := unit)) :=
  if granted w a
  then exec (F := unit) (λ _, [1%Z]) (λ _, 1) toy_kid "model" (λ _, true) (λ s, [s]) (λ _, "t"%string) (λ _, 0%Z) w a else None.
Definition toy_reaches : World (F := unit) → Prop :=
  reaches (F := unit) (λ _, [1%Z]) (λ _, 1) toy_kid "model" (λ _, true) (λ s, [s]) (λ _, "t"%string) (λ _, 0%Z).
Definition toy_rebuilding : World (F := unit) → Prop :=
  reaches_rebuilding (F := unit) (λ _, [1%Z]) (λ _, 1) toy_kid "model" (λ _, true) (λ s, [s]) (λ _, "t"%string) (λ _, 0%Z).
Fixpoint exec_all (w : World (F := unit)) (l : list (action (F := unit))) : option World :=
  match l with [] => Some w | a :: l => match toy_exec w a with Some w => exec_all w l | None => None end end.

(** What a goroutine is told: none's request fails, but a rebuild's for a
    row; a page has all the rows. *)
Definition suffixes : list string :=
  ["00112233445566778899aabbccddee00"; "00112233445566778899aabbccddee01"; "00112233445566778899aabbccddee02"].
Definition told (w : World (F := unit)) (g : nat) : reply (F := unit) :=
  match threads w !! g with
  | Some (_, TWriter (Embed _ _)) | Some (_, TQuery _ (Embed _ _)) => Vectors_ (Some [tt])
  | Some (_, TRebuild (ListChats _ _)) =>
      Listed (mkListing (omap (λ p : string * string, (λ c, (p.1, p.2, c)) <$> content_of (writes w) p.1) (map_to_list (rows w))) 0 "")
  | Some (_, TRebuild (ReadRow _ _ _)) => Failed COther BOther false
  | Some (_, TRebuild (Embed inputs _)) => Vectors_ (Some (replicate (length inputs) tt))
  | Some (_, TRebuild (Ended _)) => Over false
  | Some (_, TRebuild (Now _)) => Time 0
  | Some (_, TWriter (Random _)) => Drawn (default ""%string (suffixes !! size (drawn w)))
  | Some (_, TWriter (Ended _)) | Some (_, TQuery _ (Ended _)) => Over false
  | _ => Truth
  end.
(** Turns of goroutines, those that wait for another's lock passed over. *)
Fixpoint scheduled (w : World (F := unit)) (gs : list nat) : World :=
  match gs with [] => w | g :: gs => scheduled (default w (toy_exec w (ATurn g (told w g)))) gs end.

Definition toy_chat (title : string) : bytes := Seal.MarshalObject [("title"%string, Seal.DStr title)].
(** Actions, and turns until the next. *)
Fixpoint played (w : World (F := unit)) (ps : list (list (action (F := unit)) * list nat)) : option (World (F := unit)) :=
  match ps with
  | [] => Some w
  | (l, gs) :: ps => match exec_all w l with Some w => played (scheduled w gs) ps | None => None end
  end.
Definition play : list (list (action (F := unit)) * list nat) :=
  [([ARegister toy_kid false; AProcess 0; AProcess 1; APut "c1" (toy_chat "alpha") "1"; AStored 0 0 "c1" 1 5 "1"], replicate 5 0);
   ([APut "c2" (toy_chat "beta") "2"; AStored 0 1 "c2" 2 6 "2"], replicate 60 0);
   ([ADelete "c1"; ARemoved 0 2 "c1" 3], replicate 40 2);
   ([AQuery 1 3 "beta"], replicate 20 3)].
Definition played_out : option (World (F := unit)) := played init play.

(** A play's actions are all so. *)
Definition plays (ok : action (F := unit) → Prop) (ps : list (list (action (F := unit)) * list nat)) : Prop :=
  Forall (λ p, Forall ok p.1) ps.
Section Played.
Variable (R : World (F := unit) → Prop) (ok : action (F := unit) → Prop).
Hypothesis R_step : ∀ w a w', ok a → R w → toy_exec w a = Some w' → R w'.
Hypothesis ok_turn : ∀ g rep, ok (ATurn g rep).

Lemma exec_all_reaches l : ∀ w w', R w → Forall ok l → exec_all w l = Some w' → R w'.
Proof using R_step.
  induction l as [|a l IH]; intros w w' Hw Hl He; [by injection He as <-|]. apply Forall_cons in Hl as [Ha Hl].
  cbn [exec_all] in He. destruct (toy_exec w a) as [w1|] eqn:Hx; [|done]. eapply IH; [|done|exact He]. by eapply R_step.
Qed.
Lemma scheduled_reaches gs : ∀ w, R w → R (scheduled w gs).
Proof using R_step ok_turn.
  induction gs as [|g gs IH]; intros w Hw; [done|]. cbn [scheduled]. apply IH.
  destruct (toy_exec w (ATurn g (told w g))) as [w'|] eqn:Hx; [|done]. by eapply R_step.
Qed.
Lemma played_reaches ps : ∀ w w', R w → plays ok ps → played w ps = Some w' → R w'.
Proof using R_step ok_turn.
  induction ps as [|[l gs] ps IH]; intros w w' Hw Hl He; [by injection He as <-|]. apply Forall_cons in Hl as [Ha Hl].
  cbn [played] in He. destruct (exec_all w l) as [w1|] eqn:Hx; [|done]. eapply IH; [|done|exact He].
  apply scheduled_reaches. by eapply exec_all_reaches.
Qed.
End Played.

Definition tame (a : action (F := unit)) : Prop := match a with AOther _ _ _ | ARebuild _ _ _ | ARepair _ _ => False | _ => True end.
Lemma toy_exec_truthful w a w' : tame a → toy_exec w a = Some w' →
  truthful (F := unit) toy_kid "model" (λ _, true) (λ s, [s]) w a ∧
  exec (F := unit) (λ _, [1%Z]) (λ _, 1) toy_kid "model" (λ _, true) (λ s, [s]) (λ _, "t"%string) (λ _, 0%Z) w a = Some w'.
Proof.
  unfold toy_exec. intros Ha Hx. destruct (granted w a) eqn:Hg; [|done]. split; [|exact Hx]. destruct a; try done; cbn in Hg |- *.
  - by apply negb_true_iff, bool_decide_eq_false in Hg.
  - intros ->. by apply orb_true_iff in Hg as [Hg|Hg%bool_decide_eq_true].
Qed.
Lemma searched_reaches w : played_out = Some w → toy_reaches w.
Proof.
  apply (played_reaches toy_reaches tame); [|done|by apply reachable_init|by repeat constructor].
  intros w0 a w' Ha Hw Hx. apply (reachable_step _ _ w0 a); [exact Hw|]. by apply toy_exec_truthful.
Qed.
Lemma searched_last l : l = [WPut "c1" (toy_chat "alpha"); WPut "c2" (toy_chat "beta"); WDelete "c1"] →
  is_last l 2 (WPut "c2" (toy_chat "beta")) ∧ is_last l 3 (WDelete "c1").
Proof.
  intros ->. split; (split; [reflexivity|]); intros r' w' Hr Hid; pose proof (log_at_range _ _ _ Hr) as Hlt; cbn in Hlt; [|lia].
  destruct (decide (r' = 3%Z)) as [->|]; [|lia]. vm_compute in Hr. by injection Hr as <-.
Qed.

Lemma query_complete_witness : ∃ w a,
  played_out = Some w ∧ threads w !! 3 = Some (1, TQuery 3 (Ret (Ok a))) ∧ needsRebuild a = false ∧ startsRepair a = false ∧
  (∃ e, Chats (searched a) !! "c2" = Some e ∧ SourceRevision e = 2%Z ∧ ∀ tok, indexed (searched a) "c2" tok ↔ tok ∈ ["beta"]) ∧
  Chats (searched a) !! "c1" = None.
Proof.
  assert (∃ a, match played_out with Some w => threads w !! 3 | None => None end = Some (1, TQuery 3 (Ret (Ok a))) ∧
      needsRebuild a = false ∧ startsRepair a = false) as (a & Hq & Hneed & Hrep)
    by (eexists; vm_compute; done).
  assert (Hlog : match played_out with Some w => writes w | None => [] end =
                 [WPut "c1" (toy_chat "alpha"); WPut "c2" (toy_chat "beta"); WDelete "c1"]) by (vm_compute; reflexivity).
  destruct played_out as [w|] eqn:Hs; [|discriminate Hq]. exists w, a. split; [reflexivity|]. do 3 (split; [done|]).
  destruct (query_complete _ _ _ _ _ _ _ _ w 3 1 3 a (searched_reaches w Hs) Hq) as [Hl _].
  destruct (Hl Hneed) as [[Hn _] Hl']. clear Hl.
  destruct (searched_last _ Hlog) as [H2 H3]. cbn in Hn.
  destruct (Hl' _ _ H2) as (e & He & Hrev & Htok); [lia|]. split; [|by apply (Hl' _ _ H3); lia].
  exists e. split; [exact He|]. split; [exact Hrev|]. intros tok. rewrite Htok. reflexivity.
Defined.
Lemma searches_never_panic_witness : ∃ w t, played_out = Some w ∧ threads w !! 0 = Some t ∧ t.2 ≠ TWriter Panic.
Proof.
  assert (∃ b, match played_out with Some w => threads w !! 0 | None => None end = Some (0, TWriter (Ret b))) as (b & Hq)
    by (eexists; vm_compute; reflexivity).
  destruct played_out as [w|] eqn:Hs; [|discriminate Hq]. exists w, (0, TWriter (Ret b)). split; [reflexivity|]. split; [exact Hq|].
  apply (searches_never_panic _ _ _ _ _ _ _ _ w 0 0 (TWriter (Ret b)) (searched_reaches w Hs) Hq).
Defined.

(** *** A rebuild that fails

    A rebuild begins over an index that is complete: it drops from the cached
    index, in place, the chats it is to make again, is refused the first of
    their rows, and ends.  What it dropped is dropped of the next index too,
    which a writer publishes as complete. *)
Definition play_rebuilt : list (list (action (F := unit)) * list nat) :=
  [([ARegister toy_kid false; AProcess 0; AProcess 1; APut "c1" (toy_chat "alpha") "1"; AStored 0 0 "c1" 1 5 "1"], replicate 40 0);
   ([ARebuild 0 1 1], replicate 40 1);
   ([APut "c2" (toy_chat "beta") "2"; AStored 0 2 "c2" 2 6 "2"], replicate 40 2);
   ([AQuery 1 3 "alpha"], replicate 20 3)].
Definition rebuilt : option (World (F := unit)) := played init play_rebuilt.

Definition rebuildings (a : action (F := unit)) : Prop := match a with AOther _ _ _ | ARepair _ _ => False | _ => True end.
Lemma rebuilt_reaches w : rebuilt = Some w → toy_rebuilding w.
Proof.
  apply (played_reaches toy_rebuilding rebuildings); [|done|by apply reachable_init|by repeat constructor].
  intros w0 a w' Ha Hw Hx. apply (reachable_step _ _ w0 a); [exact Hw|]. destruct a; try done;
    try (apply toy_exec_truthful in Hx as [Htr Hx]; [|done]; split; [by left|exact Hx]).
  unfold toy_exec in Hx. cbn in Hx. split; [right; by eexists _, _, _|exact Hx].
Qed.
Lemma rebuilt_last l : l = [WPut "c1" (toy_chat "alpha"); WPut "c2" (toy_chat "beta")] →
  is_last l 1 (WPut "c1" (toy_chat "alpha")).
Proof.
  intros ->. split; [reflexivity|]. intros r' w' Hr Hid. pose proof (log_at_range _ _ _ Hr) as Hlt. cbn in Hlt.
  destruct (decide (r' = 2%Z)) as [->|]; [|lia]. vm_compute in Hr. by injection Hr as <-.
Qed.

(** With rebuilds let in, a query that says no rebuild is needed may have
    searched an index that is not complete: a rebuild that fails at one of a
    page's rows leaves the cached index without the entries it dropped to
    make again, and the next write of another chat publishes that index as
    complete, for every process to answer from. *)
Example rebuild_failed_uncovers : ∃ w n a,
  toy_rebuilding w ∧ threads w !! 3 = Some (n, TQuery 2 (Ret (Ok a))) ∧ needsRebuild a = false ∧
  PublishedSourceRevision (read a) = 2%Z ∧ is_last (writes w) 1 (WPut "c1" (toy_chat "alpha")) ∧ Chats (searched a) !! "c1" = None.
Proof.
  assert (∃ a, match rebuilt with Some w => (writes w, threads w !! 3) | None => ([], None) end =
    ([WPut "c1" (toy_chat "alpha"); WPut "c2" (toy_chat "beta")], Some (1, TQuery 2 (Ret (Ok a)))) ∧
    needsRebuild a = false ∧ PublishedSourceRevision (read a) = 2%Z ∧ Chats (searched a) !! "c1" = None) as (a & Hq & Hneed & Hs & Hc)
    by (eexists; vm_compute; done).
  destruct rebuilt as [w|] eqn:Hr; [|discriminate Hq]. injection Hq as Hw Ht. exists w, 1, a.
  split_and!; [by apply rebuilt_reaches|done|done|done|by apply rebuilt_last|done].
Qed.

End Witness.
End Searches.
